(* ===== verification/_CoqProject ===== *)
-Q . S2P
Prelude.v
Number.v
Utf8.v
BTree.v
Json.v
JsonTree.v
Schema.v
Stream.v
Usage.v
Generation.v
PartialStream.v
Authorship.v
ServiceError.v
Disk.v
Progress.v
Site.v
Deliverables.v
Validation.v
Staging.v
Sse.v
Text.v
Interaction.v
Refusals.v
Serde.v
Docker.v
Broker.v
Authority.v
Turns.v
Requests.v
Utilities.v
Admission.v
Compaction.v
Ledger.v
Account.v
Conversation.v
Lifecycle.v
Capture.v
Terminal.v
Supervision.v
Oversight.v
Publication.v
Calls.v
Durability.v
Endings.v
Intents.v
Decisions.v
