(* ===== verification/Prelude.v ===== *)
(** * agent_service: a verification library for the contract engine and its service

    The program runs a coding agent in a container, captures the agent's event
    stream record by record and answers from it only what the captured bytes
    prove.  Its two halves are the protocol engine (src/protocol/engine/src),
    which decodes and certifies captured records, and the service (src/src),
    which admits a request, stages its archive, has its containers made, sees the
    agent through to its end, reports progress durably and publishes results.

    *** How the code is read

    Text is a list of bytes ([str]); a machine integer is a [Z] with its checked
    operation written out ([checked_add], [checked_sub]); [Result] is [result],
    and its error side is a [fault]: an error of the program, a panic at a named
    site ([expect], [assert!], slicing, [unreachable!]) or, in a loop, the model's
    fuel running out.  "Returns without panicking" is thereby a theorem, never an
    assumption, and so is termination: each loop with fuel has a lemma that the
    fuel it is started with is enough.  A map is a [gmap] where its order does not
    matter and the ordered list of module BTree where it does.  Structs are
    records, enums are inductive types, [&mut self] is a state passed and
    returned.  Programs that act on the world (the broker, the supervisor) are
    interactions: trees of actions with arbitrary replies (module Interaction).
    Code that is not in the repository (num_bigint, sha2, serde_json, base64, the
    zip crate, Unicode normalization, the file system, the Docker daemon) and the
    tables the build generates are type classes or actions: operations, and laws
    where a theorem needs them.  Messages are kept where they tell errors apart;
    the values that the program quotes into a message with Debug, and most of
    those in drift messages, are left out.

    *** The protocol engine

    - Number (number.rs): [JsonNumber], an exact decimal.  Parsing, the integer
      test, the bounded conversion and the order agree with the rational number
      the text denotes.
    - Utf8, BTree, Text: what the program uses of the standard library.
    - Json (json.rs): [Document::decode] is the code's stack machine over an arena.
      It terminates within the fuel its input's length gives, never panics, obeys
      its limits of bytes, nodes and depth, and decodes exactly the texts of JSON.
    - JsonTree (json.rs): equality and hashing of values, by explicit stacks,
      against the trees the values stand for.
    - Schema (schema.rs): [validate], the interpreter of compiled JSON Schema, with
      its task stack and operation limit, against the recursive reading of rules.
    - Stream (stream.rs, lib.rs): field access, classification of a record, goal
      evidence, the contract errors.
    - Serde: serde_json's [Value], its views and the class of the crate's parser.
    - Usage (usage.rs): the summary of a population of physical requests.
    - Generation (generation.rs): the authority read from a retained envelope, the
      normalization of call identities, what a settled turn shows: the texts, calls
      and incomplete calls of what is read are those of the envelope's observations.
    - PartialStream (partial_stream.rs): the partial events of a display scope as a
      state machine with its invariant.  The code compares a length and a SHA-256
      where a generation is recorded after its stream; so do the theorems, which
      assume nothing of the digest but that it may be computed piecewise.
    - Authorship (authorship.rs): the table of who wrote each byte of a body.
    - Sse (model_requests.rs): the incremental reader of a streamed response, and
      what a physical body answers.
    - Refusals (served_turn_refusals.rs): the reader of the backend's table of
      refusals.
    - Turns (model_requests.rs, authorship.rs): what a request must carry of its
      conversation: the owed turns and the committed snapshot, against a separate
      rendering of the snapshot's block.
    - Requests, Utilities, Compaction (model_requests.rs): [ModelRequests], every
      plan and commit of a physical request; tokenizer and embedding operations;
      the draws a compaction claims.
    - Ledger, Account: the invariant of [ModelRequests], and its running totals as
      the sums of an account that is computed from the stream's records alone.
    - Admission (runtime.rs): [RuntimeContract], the owner of a stream: identity,
      observation, prepare, commit and reject with single-use tokens, and the
      refusal that is latched.  What a record means to the session is decided by
      the class [Planner].
    - Conversation (runtime.rs): [RuntimeContract::plan] arm by arm, what a commit
      does to the session, the ancestry walk and the agent's result: the instance
      of [Planner] the program runs.
    - Lifecycle: the invariant of that state, and what follows for whole streams.

    *** The service

    - ServiceError (error.rs): the error type and its wire classification.
    - Disk: the calls of std::fs the service's durable files go through: names,
      inodes, barriers, a fault possible at each call and what a crash may leave.
    - Progress (progress.rs): the durable history of a session and its atomic
      replacement on Disk.
    - Deliverables, Validation (deliverables.rs, validation.rs): the admission of
      the request's parts.
    - Staging (staging.rs, bin/agent_exec.rs): control records, the validation of
      the submitted archive and its extraction under a root.
    - Docker, Broker (bin/docker_broker.rs, container_image.rs): the one process
      that talks to the Docker daemon: its checks on what the daemon says, its
      ten requests, its mutation lock.
    - Authority: what the broker may do, and that it does nothing else, alone and
      with connections side by side.
    - Capture (result_parse.rs): the captured stream framed into records, replayed
      through the certifier, and the certificate it yields.
    - Terminal (runtime.rs): the session resource, and the contract between its
      fields.
    - Supervision (session.rs): one session from its archive to its ending, its
      finalizers and its recoveries after a panic or a restart.
    - Oversight: what the supervisor may do and when, and what its endings mean.
    - Site: the directories a session is kept in, each with its own barrier, the
      calls on them, and what a crash may make of them.
    - Publication (runtime.rs, api.rs, bundle.rs): the terminal transaction
      ([persist_terminal_transaction]): the draft, the removal or retention of the
      raw tree, the public record; its resumption, the settling of a publication
      that was cut short, and every check of a terminal record's readers.
    - Calls: the rules by which programs over Site are proved, for runs that meet
      faults and for runs that do not.
    - Durability, Endings: what every state of the transaction may leave to a crash,
      and the theorems of it.
    - Intents (runtime.rs): the durable decisions to cancel and to delete a session
      ([persist_cancel_intent], [persist_delete_intent]), their rollback and their
      reconciliation at a start, the deletion of a session ([delete_server_owned],
      [finish_delete_intent]) and its resumption ([recover_interrupted_deletions],
      over the control files of one session).
    - Decisions: what every state of a deletion may leave to a crash, and the
      theorems of it.

    *** How the parts meet

    Every decoder of records is a client of Json, Schema and Stream; Generation is
    what PartialStream holds a scope's stream to and what Authorship cites; Turns
    is what Requests holds a body to.  Admission is proved against the interface
    [Planner]; Conversation, over Requests, Utilities and Compaction, discharges
    it, and Lifecycle states the theorems of the two together.  Capture runs
    Admission, with that instance, over the records of a file.  Validation is a
    client of Deliverables and Disk, Staging of Validation, Progress of Disk, and
    all of them of ServiceError.  Supervision's states are those of Progress and
    Terminal, its certificate the one of Capture; what it asks of the broker is an
    action.  Publication makes Terminal's resource public, over the directories of
    Site, and reads the history Progress keeps.  Intents reads what Publication
    published, and removes the directories of Site under an intent of its own.
    Authority proves Broker's programs and Oversight proves Supervision's, each by
    its own logic over the runs of module Interaction.

    *** What the theorems show

    - Exactness: a decoder accepts exactly what its specification admits, and says
      what the accepted bytes say (numbers, documents, schemas, paths, control
      records, archives, progress histories, turn budgets, mounts, refusal tables,
      session resources).
    - Machines against references: the explicit stacks, incremental readers and
      resumable protocols of the code compute what a recursive, one-pass or
      whole-input definition computes.
    - Totality: no reachable panic, and termination of every modelled loop.
    - Invariants of long-lived state: streamed texts are held to their generation,
      by length and digest before it is recorded and byte for byte after, the
      physical requests of a stream are a ledger whose totals are the sums of what
      its records report, a closed scope stays closed, a settled turn is shown
      whole, a certified prefix is what one pass certifies, a refusal is final.
    - The certificate: a result stands for the whole captured stream, and only when
      it was read to its end.
    - Authority: whatever the daemon replies, the broker changes only containers it
      has just proved to be its own, verifies what it creates, and holds the
      mutation lock, however its connections interleave.
    - The supervisor: whatever the world answers, a session's steps come in their
      order, its ending is true to what was seen, and a recovery infers no success.
    - Crashes and faults: a progress snapshot on disk is always the old or the new
      one, and an extraction never leaves its root; a public record is whole and
      true of the raw tree, and no evidence is gone that an accepted bundle does not
      stand for, whatever call of the ending fails and wherever it is cut short;
      and the next start ends what was cut short.  A session is deleted only under
      an intent that is durable, and a start carries out an intent it finds.

    *** Bounds and fuel

    [decode] runs with fuel linear in its input, [validate] with fuel bounded by
    its operation limit, the stack walks of JsonTree with the sizes of their
    arenas, the ancestry walk with the number of calls; the lemmas next to each
    loop show that its measure decreases.  The loops of interactions that end only
    when the world lets them recurse over what the world delivers; the reads of
    Capture carry fuel for the times they may be interrupted.  The programs over
    Disk and Site have no loop, and take their faults from a list of any length.  Limits that are the
    program's own (bytes, nodes, depth, operations, archive caps, progress events)
    are kept as the program has them, as parameters or constants.

    *** Not modelled

    - Of src/runtime.rs: the manager (acceptance, scheduling, waits, the
      interruption of live work, its locks) and the listing of the control files of
      many sessions.  Of a removal, the widening of modes inside the tree that comes
      before it.
    - The HTTP interface and the sweeps over whole directories (api.rs), the
      configuration (config.rs beyond the constants used), the writing of bundles
      (bundle.rs) and the creation of session directories: input and output around
      the modelled parts.
    - The broker's sockets, signals, the wire limit of its responses and the
      process of its Docker client; its client inside the service (docker_ops.rs),
      which is one request over a socket.
    - The helper processes under bin/ other than the broker: socket copying and
      system calls.
    - The schema compiler and the build scripts other than the reader of refusals:
      they run at build time, and what they generate is an argument here.
    - Deallocation, logging, and the prose of error messages beyond what tells
      errors apart. *)
From Stdlib Require Export ZArith Lia String Ascii.
From stdpp Require Export prelude strings gmap.

#[global] Open Scope Z_scope.
#[global] Open Scope list_scope.

(** ** Byte strings

    A Rust [&str], [String] or [&[u8]] is the list of its bytes, each a [Z] in
    [0, 256).  Literals are written with Rocq's string notation and read through
    the coercion [lit]. *)
Abbreviation str := (list Z).

Definition lit (s : string) : str :=
  List.map (fun c => Z.of_N (N_of_ascii c)) (list_ascii_of_string s).

Coercion lit : string >-> list.

(** A JSON text in a concrete example, its double quotes written as single ones. *)
Definition quoted (s : string) : str := map (fun b => if b =? 39 then 34 else b) (lit s).

(** A byte, as a [u8]. *)
Definition is_byte (b : Z) : Prop := 0 <= b < 256.

(** ** Fallible code

    [result E A] is Rust's [Result<A, E>]; the [?] operator is the bind of the
    monad below, written [x ← e; k].  [fault E] separates the ways a computation
    can stop: returning an error of the program, panicking at the named [expect],
    [assert!], slice or [unreachable!] site, or, in a model of a loop, running out
    of the fuel its theorem proves sufficient. *)
Inductive result (E A : Type) : Type :=
| Ok (value : A)
| Err (error : E).
Arguments Ok {E A} _.
Arguments Err {E A} _.

Global Instance result_ret {E} : MRet (result E) := @Ok E.
Global Instance result_bind {E} : MBind (result E) := fun A B f r =>
  match r with Ok v => f v | Err e => Err e end.
Global Instance result_fmap {E} : FMap (result E) := fun A B f r =>
  match r with Ok v => Ok (f v) | Err e => Err e end.
Global Instance result_eq_dec `{EqDecision E} `{EqDecision A} : EqDecision (result E A).
Proof. solve_decision. Defined.

Inductive fault (E : Type) : Type :=
| Refused (error : E)
| Panic (site : string)
| OutOfFuel.
Arguments Refused {E} _.
Arguments Panic {E} _.
Arguments OutOfFuel {E}.

Global Instance fault_eq_dec `{EqDecision E} : EqDecision (fault E).
Proof. solve_decision. Defined.

Definition is_ok {E A} (r : result E A) : bool :=
  match r with Ok _ => true | Err _ => false end.

(** [Option::ok_or] *)
Definition ok_or {E A} (o : option A) (e : E) : result E A :=
  match o with Some v => Ok v | None => Err e end.

(** [Option::expect], inside code that can also refuse. *)
Definition expect {E A} (o : option A) (site : string) : result (fault E) A :=
  match o with Some v => Ok v | None => Err (Panic site) end.

(** [Result::map_err] *)
Definition map_err {E F A} (f : E → F) (r : result E A) : result F A :=
  match r with Ok v => Ok v | Err e => Err (f e) end.

(** [Result::map_err] on the errors of code that can also panic. *)
Definition map_refused {E F A} (f : E → F) (r : result (fault E) A) : result (fault F) A :=
  match r with
  | Ok v => Ok v
  | Err (Refused e) => Err (Refused (f e))
  | Err (Panic site) => Err (Panic site)
  | Err OutOfFuel => Err OutOfFuel
  end.

(** [if c { return Err(e) }] *)
Definition refuse_if {E} (c : bool) (e : E) : result E unit :=
  if c then Err e else Ok tt.

(** [iter().map(f).collect::<Result<Vec<_>, _>>()], left to right. *)
Fixpoint traverse {E A B} (f : A → result E B) (l : list A) : result E (list B) :=
  match l with
  | [] => Ok []
  | x :: l => y ← f x; ys ← traverse f l; Ok (y :: ys)
  end.

(** A [for] loop whose body may return early with an error. *)
Fixpoint fold_result {E S A} (f : S → A → result E S) (s : S) (l : list A) : result E S :=
  match l with
  | [] => Ok s
  | x :: l => s' ← f s x; fold_result f s' l
  end.

(** ** Machine integers *)
Definition U64_MAX : Z := 18446744073709551615.
Definition U32_MAX : Z := 4294967295.
(** The platform the service runs on is linux/x86_64. *)
Definition USIZE_MAX : Z := U64_MAX.

Definition is_u64 (n : Z) : Prop := 0 <= n <= U64_MAX.

(** [u64::checked_add], [checked_sub] and [checked_mul] *)
Definition checked_add (a b : Z) : option Z :=
  if a + b <=? U64_MAX then Some (a + b) else None.
Definition checked_sub (a b : Z) : option Z :=
  if b <=? a then Some (a - b) else None.
Definition checked_mul (a b : Z) : option Z :=
  if a * b <=? U64_MAX then Some (a * b) else None.

(** ** Scanning and slicing *)
Definition is_ascii_digit (b : Z) : bool := (48 <=? b) && (b <=? 57).

Fixpoint prefix_len (p : Z → bool) (s : str) : nat :=
  match s with
  | [] => 0
  | b :: s => if p b then S (prefix_len p s) else 0
  end.

(** [while bytes.get(at).is_some_and(p) { at += 1 }] *)
Definition skip_while (p : Z → bool) (bytes : str) (at_ : nat) : nat :=
  (at_ + prefix_len p (drop at_ bytes))%nat.

(** [&s[a..b]], on boundaries the caller has established. *)
Definition slice (a b : nat) (s : str) : str := take (b - a) (drop a s).

(** [bytes.get(a..b)] *)
Definition get_range (a b : nat) (s : str) : option str :=
  if (a <=? b)%nat && (b <=? length s)%nat then Some (slice a b s) else None.

Definition starts_with (p s : str) : bool := bool_decide (take (length p) s = p).
Definition strip_prefix (p s : str) : option str :=
  if starts_with p s then Some (drop (length p) s) else None.
Definition strip_suffix (p s : str) : option str :=
  let n := (length s - length p)%nat in
  if (length p <=? length s)%nat && bool_decide (drop n s = p) then Some (take n s) else None.

Definition ends_with (p s : str) : bool := match strip_suffix p s with Some _ => true | None => false end.

(** [s.contains(p)] for a text pattern. *)
Fixpoint contains (p s : str) : bool :=
  starts_with p s || match s with [] => false | _ :: s => contains p s end.

(** [s.split_once(sep)]: at the first separator. *)
Fixpoint split_once (sep : Z) (s : str) : option (str * str) :=
  match s with
  | [] => None
  | b :: s => if b =? sep then Some ([], s) else '(l, r) ← split_once sep s; Some (b :: l, r)
  end.

(** [s.rfind(p)]: where the last occurrence of a text starts. *)
Fixpoint rfind (p s : str) : option nat :=
  match s with
  | [] => if starts_with p [] then Some 0%nat else None
  | _ :: t => match rfind p t with
              | Some at_ => Some (S at_)
              | None => if starts_with p s then Some 0%nat else None
              end
  end.

(** [s.split(sep)]: always at least one piece. *)
Fixpoint split_on (sep : Z) (s : str) : list str :=
  match s with
  | [] => [[]]
  | b :: s =>
      if b =? sep then [] :: split_on sep s
      else match split_on sep s with
           | piece :: pieces => (b :: piece) :: pieces
           | [] => [[b]]
           end
  end.

(** ** Decimal spellings *)

(** The value of a run of ASCII digits. *)
Definition digits_value (s : str) : Z := fold_left (fun acc b => acc * 10 + (b - 48)) s 0.

Fixpoint show_digits (fuel : nat) (n : Z) : str :=
  match fuel with
  | O => []
  | S fuel => if n <? 10 then [48 + n] else show_digits fuel (n / 10) ++ [48 + n mod 10]
  end.

(** [Display] of an unsigned integer: the fuel is the number of its bits. *)
Definition show_Z (n : Z) : str := show_digits (S (Z.to_nat (Z.log2 n))) n.

(** [str::parse::<u64>()] and its narrower relatives on a text that is already
    known to be a nonempty run of ASCII digits: only overflow can fail. *)
Definition parse_digits_max (maximum : Z) (s : str) : option Z :=
  if digits_value s <=? maximum then Some (digits_value s) else None.

#[global] Arguments skip_while : simpl never.
#[global] Arguments slice : simpl never.
#[global] Arguments digits_value : simpl never.
#[global] Arguments show_Z : simpl never.

(** ** Automation *)
Create HintDb service discriminated.

Section ResultLemmas.
Context {E : Type}.

Lemma bind_ok_inv {A B} (m : result E A) (f : A → result E B) (b : B) :
  m ≫= f = Ok b → ∃ a, m = Ok a ∧ f a = Ok b.
Proof. destruct m; [eauto | done]. Qed.

Lemma fmap_ok_inv {A B} (m : result E A) (f : A → B) (b : B) :
  f <$> m = Ok b → ∃ a, m = Ok a ∧ b = f a.
Proof. destruct m as [a|]; [|done]. intros [= <-]. eauto. Qed.

Lemma refuse_if_ok (c : bool) (e : E) (u : unit) : refuse_if c e = Ok u → c = false.
Proof. destruct c; [done | easy]. Qed.

Lemma ok_or_ok {A} (o : option A) (e : E) (v : A) : ok_or o e = Ok v → o = Some v.
Proof. destruct o; [|done]. by intros [= ->]. Qed.

Lemma map_err_ok {F A} (f : E → F) (r : result E A) (v : A) :
  map_err f r = Ok v → r = Ok v.
Proof. destruct r; [|done]. by intros [= ->]. Qed.

Lemma map_refused_ok {F A} (f : E → F) (r : result (fault E) A) (v : A) :
  map_refused f r = Ok v → r = Ok v.
Proof. destruct r as [|[]]; try done. by intros [= ->]. Qed.

Lemma bind_ok {A B} (a : A) (f : A → result E B) : Ok a ≫= f = f a.
Proof. done. Qed.

Lemma traverse_ok {A B} (f : A → result E B) (l : list A) (r : list B) :
  traverse f l = Ok r ↔ Forall2 (fun a b => f a = Ok b) l r.
Proof.
  split.
  - revert r. induction l as [|x l IH]; intros r H; simpl in H; [by injection H as <- |].
    apply bind_ok_inv in H as (y & Hy & (ys & Hys & [= <-])%bind_ok_inv). eauto.
  - induction 1 as [|x y l r Hx _ IH]; [done|]. simpl. by rewrite Hx, bind_ok, IH.
Qed.

Lemma traverse_map {A B C} (g : A → B) (f : B → result E C) (l : list A) :
  traverse f (map g l) = traverse (fun x => f (g x)) l.
Proof. induction l as [|x l IH]; [done|]. simpl. by rewrite IH. Qed.

Lemma traverse_ext {A B} (f g : A → result E B) (l : list A) :
  (∀ x, x ∈ l → f x = g x) → traverse f l = traverse g l.
Proof.
  induction l as [|x l IH]; intros Hfg; [done|]. simpl. rewrite Hfg by left.
  rewrite IH; [done|]. intros y Hy. apply Hfg. by right.
Qed.

Lemma traverse_app {A B} (f : A → result E B) (l k : list A) :
  traverse f (l ++ k) = xs ← traverse f l; ys ← traverse f k; Ok (xs ++ ys).
Proof.
  induction l as [|x l IH]; simpl; [by destruct (traverse f k)|]. rewrite IH.
  destruct (f x); [simpl|done]. destruct (traverse f l); [simpl|done]. by destruct (traverse f k).
Qed.

Lemma fold_result_app {S A} (f : S → A → result E S) s (l k : list A) :
  fold_result f s (l ++ k) = s' ← fold_result f s l; fold_result f s' k.
Proof. revert s. induction l as [|x l IH]; intros s; [done|]. simpl. by destruct (f s x) as [s'|]; [apply IH|]. Qed.

(** A loop that only checks. *)
Lemma fold_result_unit {A} (f : unit → A → result E unit) (l : list A) :
  fold_result f tt l = Ok tt ↔ Forall (λ x, f tt x = Ok tt) l.
Proof.
  induction l as [|x l IH]; [split; [intros _; apply Forall_nil_2 | done]|]. simpl. rewrite Forall_cons, <- IH.
  destruct (f tt x) as [[]|]; simpl; [|split; [done | by intros [? _]]]. split; [done | by intros [_ ?]].
Qed.

(** The invariant rule for a loop with early return. *)
Lemma fold_result_inv {S A} (P : S → Prop) (f : S → A → result E S) s (l : list A) s' :
  (∀ s x s', x ∈ l → P s → f s x = Ok s' → P s') →
  P s → fold_result f s l = Ok s' → P s'.
Proof.
  intros Hstep. revert s. induction l as [|x l IH]; intros s Hs H; simpl in H; [by injection H as <-|].
  apply bind_ok_inv in H as (s1 & H1 & H). eapply IH; [| |exact H].
  - intros. eapply Hstep; [|done|done]. by apply list_elem_of_further.
  - eapply Hstep; [|done|done]. by apply list_elem_of_here.
Qed.
End ResultLemmas.

(** ** Safety of code that can panic

    [safe r P]: [r] does not panic and does not run out of fuel, and a result it
    returns satisfies [P]; refusing the input is allowed. *)
Definition safe {E A} (r : result (fault E) A) (P : A → Prop) : Prop :=
  match r with
  | Ok a => P a
  | Err (Refused _) => True
  | Err (Panic _) | Err OutOfFuel => False
  end.

Section SafeLemmas.
Context {E : Type}.

Lemma safe_bind {A B} (m : result (fault E) A) (f : A → result (fault E) B) (Q : A → Prop) (P : B → Prop) :
  safe m Q → (∀ a, m = Ok a → Q a → safe (f a) P) → safe (m ≫= f) P.
Proof. destruct m as [a|[]]; simpl; eauto. Qed.

Lemma safe_fmap {A B} (m : result (fault E) A) (f : A → B) (P : B → Prop) :
  safe m (λ a, P (f a)) → safe (f <$> m) P.
Proof. by destruct m as [a|[]]. Qed.

Lemma safe_mono {A} (m : result (fault E) A) (Q P : A → Prop) :
  safe m Q → (∀ a, m = Ok a → Q a → P a) → safe m P.
Proof. destruct m as [a|[]]; simpl; eauto. Qed.

Lemma safe_expect {A} (o : option A) site (a : A) (P : A → Prop) :
  o = Some a → P a → safe (expect (E:=E) o site) P.
Proof. by intros ->. Qed.

Lemma safe_map_refused {F A} (f : E → F) (m : result (fault E) A) (P : A → Prop) :
  safe m P → safe (map_refused f m) P.
Proof. by destruct m as [|[]]. Qed.

Lemma safe_ok {A} (m : result (fault E) A) (P : A → Prop) a : safe m P → m = Ok a → P a.
Proof. by intros H ->. Qed.
End SafeLemmas.

(** Open every bind, guard and [ok_or] of the hypotheses that ended in [Ok]. *)
Ltac inv_ok :=
  repeat match goal with
  | H : (_ ≫= _) = Ok _ |- _ =>
      let x := fresh "x" in let Hx := fresh "Hx" in apply bind_ok_inv in H as (x & Hx & H)
  | H : (_ <$> _) = Ok _ |- _ =>
      let x := fresh "x" in let Hx := fresh "Hx" in apply fmap_ok_inv in H as (x & Hx & H)
  | H : refuse_if _ _ = Ok _ |- _ => apply refuse_if_ok in H
  | H : ok_or _ _ = Ok _ |- _ => apply ok_or_ok in H
  | H : map_err _ _ = Ok _ |- _ => apply map_err_ok in H
  | H : map_refused _ _ = Ok _ |- _ => apply map_refused_ok in H
  | H : Ok _ = Ok _ |- _ => injection H as H
  | H : Err _ = Ok _ |- _ => discriminate H
  | H : Ok _ = Err _ |- _ => discriminate H
  | H : Some _ = Some _ |- _ => injection H as H
  | H : None = Some _ |- _ => discriminate H
  | H : Some _ = None |- _ => discriminate H
  end.

(** Turn boolean facts of the hypotheses and the goal into propositions. *)
Ltac to_prop :=
  repeat match goal with
  | H : (_ && _)%bool = true |- _ => apply andb_true_iff in H as [? ?]
  | H : (_ || _)%bool = false |- _ => apply orb_false_iff in H as [? ?]
  | H : negb _ = true |- _ => apply negb_true_iff in H
  | H : negb _ = false |- _ => apply negb_false_iff in H
  | H : bool_decide _ = true |- _ => apply bool_decide_eq_true in H
  | H : bool_decide _ = false |- _ => apply bool_decide_eq_false in H
  | H : (_ <=? _) = true |- _ => apply Z.leb_le in H
  | H : (_ <=? _) = false |- _ => apply Z.leb_gt in H
  | H : (_ <? _) = true |- _ => apply Z.ltb_lt in H
  | H : (_ <? _) = false |- _ => apply Z.ltb_ge in H
  | H : (_ =? _) = true |- _ => apply Z.eqb_eq in H
  | H : (_ =? _) = false |- _ => apply Z.eqb_neq in H
  | H : (_ <=? _)%nat = true |- _ => apply Nat.leb_le in H
  | H : (_ <=? _)%nat = false |- _ => apply Nat.leb_gt in H
  | H : (_ <? _)%nat = true |- _ => apply Nat.ltb_lt in H
  | H : (_ <? _)%nat = false |- _ => apply Nat.ltb_ge in H
  | H : (_ =? _)%nat = true |- _ => apply Nat.eqb_eq in H
  | H : (_ =? _)%nat = false |- _ => apply Nat.eqb_neq in H
  end.

(** ** Lemmas on integers *)
Lemma checked_add_Some a b c : checked_add a b = Some c ↔ c = a + b ∧ a + b <= U64_MAX.
Proof. unfold checked_add. destruct (Z.leb_spec (a + b) U64_MAX); split; intros; simplify_eq; naive_solver lia. Qed.
Lemma checked_sub_Some a b c : checked_sub a b = Some c ↔ c = a - b ∧ b <= a.
Proof. unfold checked_sub. destruct (Z.leb_spec b a); split; intros; simplify_eq; naive_solver lia. Qed.
Lemma checked_mul_Some a b c : checked_mul a b = Some c ↔ c = a * b ∧ a * b <= U64_MAX.
Proof. unfold checked_mul. destruct (Z.leb_spec (a * b) U64_MAX); split; intros; simplify_eq; naive_solver lia. Qed.

Lemma is_ascii_digit_spec b : is_ascii_digit b = true ↔ 48 <= b <= 57.
Proof. unfold is_ascii_digit. rewrite andb_true_iff, !Z.leb_le. done. Qed.

(** ** Lemmas on scanning *)
Lemma prefix_len_le p s : (prefix_len p s <= length s)%nat.
Proof. induction s as [|b s IH]; simpl; [lia|]. case_match; lia. Qed.

Lemma prefix_len_take p s : forallb p (take (prefix_len p s) s) = true.
Proof. induction s as [|b s IH]; simpl; [done|]. destruct (p b) eqn:Hp; simpl; [by rewrite Hp | done]. Qed.

Lemma prefix_len_app p s r :
  forallb p s = true → (∀ b, r !! 0%nat = Some b → p b = false) → prefix_len p (s ++ r) = length s.
Proof.
  induction s as [|b s IH]; simpl; intros Hs Hr.
  - destruct r as [|b r]; simpl; [done|]. by rewrite (Hr b).
  - apply andb_true_iff in Hs as [-> Hs]. by rewrite IH.
Qed.

Lemma prefix_len_stop p s b : drop (prefix_len p s) s !! 0%nat = Some b → p b = false.
Proof.
  induction s as [|c s IH]; simpl; [done|].
  destruct (p c) eqn:Hp; simpl; [done|]. congruence.
Qed.

(** [skip_while] is the loop it stands for. *)
Lemma skip_while_unroll p s at_ :
  skip_while p s at_ =
    match s !! at_ with
    | Some b => if p b then skip_while p s (S at_) else at_
    | None => at_
    end.
Proof.
  unfold skip_while. destruct (s !! at_) as [b|] eqn:Hb.
  - rewrite (drop_S s b at_) by done. simpl. case_match; lia.
  - apply lookup_ge_None in Hb. rewrite drop_ge by done. simpl. lia.
Qed.

Lemma skip_while_ge p s at_ : (at_ <= skip_while p s at_)%nat.
Proof. unfold skip_while. lia. Qed.

Lemma skip_while_le p s at_ : (at_ <= length s)%nat → (skip_while p s at_ <= length s)%nat.
Proof. unfold skip_while. pose proof (prefix_len_le p (drop at_ s)). rewrite length_drop in *. lia. Qed.

Lemma slice_length a b s : (b <= length s)%nat → length (slice a b s) = (b - a)%nat.
Proof. intros. unfold slice. rewrite length_take, length_drop. lia. Qed.

Lemma slice_app_take a b s : (a <= b)%nat → take a s ++ slice a b s = take b s.
Proof. intros. unfold slice. rewrite take_take_drop. f_equal. lia. Qed.

Lemma starts_with_spec p s : starts_with p s = true ↔ ∃ r, s = p ++ r.
Proof.
  unfold starts_with. rewrite bool_decide_eq_true. split.
  - intros H. exists (drop (length p) s). by rewrite <- H at 1; rewrite take_drop.
  - intros [r ->]. by rewrite take_app_length.
Qed.

Lemma strip_prefix_Some p s r : strip_prefix p s = Some r ↔ s = p ++ r.
Proof.
  unfold strip_prefix. destruct (starts_with p s) eqn:H.
  - apply starts_with_spec in H as [r' ->]. rewrite drop_app_length. split; [by intros [= ->]|].
    intros H. by apply app_inv_head in H as ->.
  - split; [done|]. intros ->. rewrite (proj2 (starts_with_spec _ _)) in H; [done | eauto].
Qed.

Lemma strip_suffix_Some p s r : strip_suffix p s = Some r ↔ s = r ++ p.
Proof.
  unfold strip_suffix. split.
  - case_match eqn:H; [|done]. to_prop. intros [= <-].
    rewrite <- (take_drop (length s - length p) s) at 1. by f_equal.
  - intros ->. rewrite length_app. replace (length r + length p - length p)%nat with (length r) by lia.
    rewrite drop_app_length, take_app_length, bool_decide_true by done.
    by rewrite (proj2 (Nat.leb_le _ _)) by lia.
Qed.

Lemma split_on_nonempty sep s : split_on sep s ≠ [].
Proof. destruct s as [|b s]; simpl; [done|]. repeat case_match; done. Qed.

(** [split] then join is the text. *)
Fixpoint join (sep : Z) (pieces : list str) : str :=
  match pieces with
  | [] => []
  | [p] => p
  | p :: rest => p ++ sep :: join sep rest
  end.

Lemma join_split sep s : join sep (split_on sep s) = s.
Proof.
  induction s as [|b s IH]; [done|]. simpl.
  pose proof (split_on_nonempty sep s) as Hne.
  destruct (split_on sep s) as [|p ps] eqn:Hs; [done|].
  destruct (Z.eqb_spec b sep) as [->|Hb]; simpl in *.
  - by rewrite IH.
  - destruct ps; simpl in *; by rewrite <- IH.
Qed.

Lemma split_on_no_sep sep s : Forall (fun p => sep ∉ p) (split_on sep s).
Proof.
  induction s as [|b s IH]; simpl; [repeat constructor; set_solver|].
  destruct (Z.eqb_spec b sep) as [->|Hb]; [constructor; [set_solver | done]|].
  destruct (split_on sep s) as [|p ps]; [repeat constructor; set_solver|].
  inversion IH; subst. constructor; [set_solver | done].
Qed.

(** ** Lemmas on decimal spellings *)
Lemma digits_value_acc s acc :
  fold_left (fun acc b => acc * 10 + (b - 48)) s acc = acc * 10 ^ Z.of_nat (length s) + digits_value s.
Proof.
  unfold digits_value. revert acc. induction s as [|b s IH]; intros acc; simpl fold_left.
  - simpl. lia.
  - rewrite IH, (IH (0 * 10 + (b - 48))). simpl length. rewrite Nat2Z.inj_succ, Z.pow_succ_r by lia. ring.
Qed.

Lemma digits_value_app s r : digits_value (s ++ r) = digits_value s * 10 ^ Z.of_nat (length r) + digits_value r.
Proof. unfold digits_value at 1. rewrite fold_left_app. apply digits_value_acc. Qed.

Lemma digits_value_snoc s b : digits_value (s ++ [b]) = digits_value s * 10 + (b - 48).
Proof. unfold digits_value. by rewrite fold_left_app. Qed.

Lemma digits_value_cons b s : digits_value (b :: s) = (b - 48) * 10 ^ Z.of_nat (length s) + digits_value s.
Proof. change (b :: s) with ([b] ++ s). rewrite digits_value_app. reflexivity. Qed.

Lemma digits_value_bound s :
  forallb is_ascii_digit s = true → 0 <= digits_value s < 10 ^ Z.of_nat (length s).
Proof.
  induction s as [|b s IH]; intros H; [by split|].
  simpl in H. apply andb_true_iff in H as [Hb%is_ascii_digit_spec Hs]. specialize (IH Hs).
  rewrite digits_value_cons. simpl length. rewrite Nat2Z.inj_succ, Z.pow_succ_r by lia. nia.
Qed.

(** A run of digits without leading zero is at least its leading power of ten. *)
Lemma digits_value_lower b s :
  49 <= b <= 57 → forallb is_ascii_digit s = true → 10 ^ Z.of_nat (length s) <= digits_value (b :: s).
Proof. intros Hb Hs. rewrite digits_value_cons. pose proof (digits_value_bound s Hs). pose proof (Z.pow_pos_nonneg 10 (Z.of_nat (length s))). nia. Qed.

Lemma show_digits_spec fuel n :
  0 <= n → (Z.to_nat (Z.log2 n) < fuel)%nat →
  digits_value (show_digits fuel n) = n ∧ forallb is_ascii_digit (show_digits fuel n) = true ∧
  (∃ b r, show_digits fuel n = b :: r ∧ (b = 48 → n = 0 ∧ r = [])).
Proof.
  revert n. induction fuel as [|fuel IH]; intros n Hn Hf; [lia|]. simpl.
  destruct (Z.ltb_spec n 10) as [Hlt|Hge].
  - split; [unfold digits_value; cbn [fold_left]; lia|]. split.
    + simpl. rewrite (proj2 (is_ascii_digit_spec _)); [done | lia].
    + exists (48 + n), []. split; [done|]. intros; split; [lia | done].
  - assert (Hd : 0 <= n / 10) by (apply Z.div_pos; lia).
    assert (Hlog : Z.log2 (n / 10) < Z.log2 n).
    { assert (Z.log2 (n / 10) <= Z.log2 (n / 2)) by (apply Z.log2_le_mono, Z.div_le_compat_l; lia).
      assert (Z.log2 (n / 2) = Z.pred (Z.log2 n)) as E.
      { change (n / 2) with (n / 2 ^ 1). rewrite <- Z.shiftr_div_pow2, Z.log2_shiftr by lia.
        assert (0 < Z.log2 n) by (apply Z.log2_pos; lia). lia. }
      lia. }
    destruct (IH (n / 10)) as (Hv & Hall & b & r & Hr & Hb); [done | pose proof (Z.log2_nonneg (n / 10)); lia |].
    split; [|split].
    + rewrite digits_value_snoc, Hv. pose proof (Z.div_mod n 10). lia.
    + rewrite forallb_app, Hall. simpl. rewrite (proj2 (is_ascii_digit_spec _)); [done|].
      pose proof (Z.mod_pos_bound n 10). lia.
    + exists b, (r ++ [48 + n mod 10]). rewrite Hr. split; [done|]. intros Hb0. destruct (Hb Hb0) as [H0 _].
      assert (1 <= n / 10) by (apply Z.div_le_lower_bound; lia). lia.
Qed.

Lemma show_Z_spec n : 0 <= n →
  digits_value (show_Z n) = n ∧ forallb is_ascii_digit (show_Z n) = true ∧
  (∃ b r, show_Z n = b :: r ∧ (b = 48 → n = 0 ∧ r = [])).
Proof. intros. apply show_digits_spec; [done | lia]. Qed.

Lemma show_Z_inj n m : 0 <= n → 0 <= m → show_Z n = show_Z m → n = m.
Proof. intros Hn Hm H. by rewrite <- (proj1 (show_Z_spec n Hn)), <- (proj1 (show_Z_spec m Hm)), H. Qed.

(** A canonical spelling is determined by its value: the converse of [show_Z_spec]. *)
Lemma digits_value_inj b r c s :
  forallb is_ascii_digit (b :: r) = true → forallb is_ascii_digit (c :: s) = true →
  b ≠ 48 → c ≠ 48 → digits_value (b :: r) = digits_value (c :: s) → b :: r = c :: s.
Proof.
  assert (same_length : ∀ s r, length r = length s → forallb is_ascii_digit r = true → forallb is_ascii_digit s = true →
     digits_value r = digits_value s → r = s).
  { clear. intros s. induction s as [|c s IH] using rev_ind; intros r Hl Hr Hs Hv.
    - by destruct r.
    - destruct r as [|b r _] using rev_ind; [rewrite length_app in Hl; simpl in Hl; lia|].
      rewrite !length_app in Hl. simpl in Hl. rewrite !digits_value_snoc in Hv.
      rewrite forallb_app in Hr, Hs. simpl in Hr, Hs. to_prop.
      rewrite is_ascii_digit_spec in *. assert (b = c) by lia. subst c.
      f_equal. apply IH; [lia | done | done | lia]. }
  intros Hb Hc Hb0 Hc0 Hv. apply same_length; [|done..].
  pose proof (digits_value_bound (b :: r) Hb) as U1. pose proof (digits_value_bound (c :: s) Hc) as U2.
  simpl in Hb, Hc. to_prop. rewrite is_ascii_digit_spec in *.
  pose proof (digits_value_lower b r ltac:(lia) ltac:(done)) as L1.
  pose proof (digits_value_lower c s ltac:(lia) ltac:(done)) as L2.
  destruct (lt_eq_lt_dec (length r) (length s)) as [[Hlt|Heq]|Hgt]; [|simpl; congruence|].
  - exfalso. assert (10 ^ Z.of_nat (length (b :: r)) <= 10 ^ Z.of_nat (length s)); [|lia].
    apply Z.pow_le_mono_r; simpl; lia.
  - exfalso. assert (10 ^ Z.of_nat (length (c :: s)) <= 10 ^ Z.of_nat (length r)); [|lia].
    apply Z.pow_le_mono_r; simpl; lia.
Qed.
