(* ===== verification/Number.v ===== *)
(** * Number: exact JSON numbers (protocol/engine/src/number.rs)

    A number is kept as its source spelling and as an exact decimal
    [±digits × 10^exponent] in normal form.  The file models parsing, the
    integer test, the bounded conversion to [u64] and the total order, and
    proves each of them exact against the rational number the text denotes. *)
From Stdlib Require Import QArith Qpower.
From S2P Require Import Prelude.

#[local] Open Scope Z_scope.

(** ** num_bigint

    [BigInt] is an arbitrary-precision integer, a [Z].  Its [FromStr] is code of
    another crate: an operation of this interface, with the documented reading
    of an optionally signed run of decimal digits as its law. *)
Class BigIntOps := bigint_parse : str → option Z.

Class BigIntLaws `{BigIntOps} : Prop := {
  bigint_parse_plain s : s ≠ [] → forallb is_ascii_digit s = true → bigint_parse s = Some (digits_value s);
  bigint_parse_plus s : s ≠ [] → forallb is_ascii_digit s = true → bigint_parse (43 :: s) = Some (digits_value s);
  bigint_parse_minus s : s ≠ [] → forallb is_ascii_digit s = true → bigint_parse (45 :: s) = Some (- digits_value s);
}.

Inductive Decimal :=
| Zero
| Nonzero (negative : bool) (digits : str) (exponent : Z).

Record JsonNumber := { token : str; value : Decimal }.

Record InvalidNumber := { byte : nat }.

Inductive UnsignedConversionError := Negative | Fractional | OutOfRange.

Global Instance Decimal_eq_dec : EqDecision Decimal.
Proof. solve_decision. Defined.
Global Instance InvalidNumber_eq_dec : EqDecision InvalidNumber.
Proof. solve_decision. Defined.
Global Instance UnsignedConversionError_eq_dec : EqDecision UnsignedConversionError.
Proof. solve_decision. Defined.

(** [trim_start_matches('0')] and [trim_end_matches('0')] *)
Definition trim_start_zeros (s : str) : str := drop (prefix_len (Z.eqb 48) s) s.
Definition trim_end_zeros (s : str) : str := rev (trim_start_zeros (rev s)).

Section Parse.
Context `{BigIntOps}.

(** The integer part from [at_]: where it ends. *)
Definition parse_integer (bytes : str) (at_ : nat) : result InvalidNumber nat :=
  match bytes !! at_ with
  | Some b =>
      if b =? 48 then Ok (S at_)
      else if (49 <=? b) && (b <=? 57) then Ok (skip_while is_ascii_digit bytes (S at_))
      else Err {| byte := at_ |}
  | None => Err {| byte := at_ |}
  end.

(** The optional fraction from [at_]: where its digits start and end. *)
Definition parse_fraction (bytes : str) (at_ : nat) : result InvalidNumber (nat * nat) :=
  if bool_decide (bytes !! at_ = Some 46) then
    let fraction_start := S at_ in
    let at_ := skip_while is_ascii_digit bytes fraction_start in
    if (at_ =? fraction_start)%nat then Err {| byte := at_ |} else Ok (fraction_start, at_)
  else Ok (at_, at_).

(** The optional exponent from [at_]: its value and where it ends. *)
Definition parse_exponent (bytes : str) (at_ : nat) : result InvalidNumber (Z * nat) :=
  if match bytes !! at_ with Some b => (b =? 101) || (b =? 69) | None => false end then
    let exponent_start := S at_ in
    let exponent_digits :=
      if match bytes !! exponent_start with Some b => (b =? 43) || (b =? 45) | None => false end
      then S exponent_start else exponent_start in
    let at_ := skip_while is_ascii_digit bytes exponent_digits in
    if (at_ =? exponent_digits)%nat then Err {| byte := at_ |}
    else
      exponent ← ok_or (bigint_parse (slice exponent_start at_ bytes)) {| byte := exponent_start |};
      Ok (exponent, at_)
  else Ok (0, at_).

(** The normal form of [±integer.fraction × 10^exponent]. *)
Definition normalize (negative : bool) (integer fraction : str) (exponent : Z) : Decimal :=
  let coefficient := integer ++ fraction in
  let significant := trim_start_zeros coefficient in
  if (length significant =? 0)%nat then Zero
  else
    let digits := trim_end_zeros significant in
    Nonzero negative digits
      (exponent - Z.of_nat (length fraction)
       + (Z.of_nat (length significant) - Z.of_nat (length digits))).

Definition parse (tok : str) : result InvalidNumber JsonNumber :=
  let negative := bool_decide (tok !! 0%nat = Some 45) in
  let integer_start := if negative then 1%nat else 0%nat in
  integer_end ← parse_integer tok integer_start;
  '(fraction_start, fraction_end) ← parse_fraction tok integer_end;
  '(exponent, at_) ← parse_exponent tok fraction_end;
  if (at_ =? length tok)%nat then
    Ok {| token := tok;
          value := normalize negative (slice integer_start integer_end tok)
                     (slice fraction_start fraction_end tok) exponent |}
  else Err {| byte := at_ |}.
End Parse.

Definition is_integer (n : JsonNumber) : bool :=
  match value n with
  | Zero => true
  | Nonzero _ _ exponent => negb (exponent <? 0)
  end.

(** [for _ in 0..zeros { result = result.checked_mul(10)? }] *)
Fixpoint mul_tens (zeros : nat) (res : Z) : option Z :=
  match zeros with
  | O => Some res
  | S zeros => match checked_mul res 10 with Some res => mul_tens zeros res | None => None end
  end.

Definition to_u32 (n : Z) : option Z := if (0 <=? n) && (n <=? U32_MAX) then Some n else None.

Definition as_unsigned (n : JsonNumber) (maximum : Z) : result UnsignedConversionError Z :=
  match value n with
  | Zero => Ok 0
  | Nonzero negative digits exponent =>
      if negative then Err Negative
      else if exponent <? 0 then Err Fractional
      else if 20 <? exponent + Z.of_nat (length digits) then Err OutOfRange
      else
        res ← ok_or (parse_digits_max U64_MAX digits) OutOfRange;
        zeros ← ok_or (to_u32 exponent) OutOfRange;
        res ← ok_or (mul_tens (Z.to_nat zeros) res) OutOfRange;
        if maximum <? res then Err OutOfRange else Ok res
  end.

(** [PartialEq] compares the normal forms, [Ord] is the order below. *)
Definition num_eqb (a b : JsonNumber) : bool := bool_decide (value a = value b).

Definition sign (d : Decimal) : Z :=
  match d with Zero => 0 | Nonzero true _ _ => -1 | Nonzero false _ _ => 1 end.

(** [left.bytes().chain(repeat(b'0'))], as far as the comparison reads it. *)
Definition padded (n : nat) (s : str) : str := s ++ replicate (n - length s) 48.

Fixpoint first_difference (l : list comparison) : comparison :=
  match l with
  | [] => Eq
  | Eq :: l => first_difference l
  | c :: _ => c
  end.

Definition digits_cmp (ldigits rdigits : str) : comparison :=
  let n := Nat.max (length ldigits) (length rdigits) in
  first_difference (zip_with Z.compare (padded n ldigits) (padded n rdigits)).

Definition then_with (c d : comparison) : comparison := match c with Eq => d | _ => c end.

Definition cmp (a b : JsonNumber) : comparison :=
  let sign_order := sign (value a) ?= sign (value b) in
  match sign_order with
  | Eq =>
      match value a, value b with
      | Nonzero negative ldigits left_exp, Nonzero _ rdigits right_exp =>
          let magnitude :=
            (left_exp + Z.of_nat (length ldigits)) ?= (right_exp + Z.of_nat (length rdigits)) in
          let absolute := then_with magnitude (digits_cmp ldigits rdigits) in
          if negative then CompOpp absolute else absolute
      | _, _ => Eq
      end
  | c => c
  end.

(** ** What a number denotes *)

(** [m × 10^e] as a rational. *)
Definition scaled (m e : Z) : Q := (inject_Z m * (10 # 1) ^ e)%Q.

Definition denote (d : Decimal) : Q :=
  match d with
  | Zero => 0%Q
  | Nonzero negative digits exponent =>
      scaled (if negative then - digits_value digits else digits_value digits) exponent
  end.

(** The normal form every parsed number is in: digits only, neither leading nor
    trailing zeros, at least one digit. *)
Definition normal (d : Decimal) : Prop :=
  match d with
  | Zero => True
  | Nonzero _ digits _ =>
      forallb is_ascii_digit digits = true ∧
      (∃ b r, digits = b :: r ∧ b ≠ 48) ∧ (∃ r b, digits = r ++ [b] ∧ b ≠ 48)
  end.

(** The number grammar of RFC 8259, each part with what it denotes. *)
Inductive int_text : str → Prop :=
| int_zero : int_text [48]
| int_nonzero b s : 49 <= b <= 57 → forallb is_ascii_digit s = true → int_text (b :: s).

Inductive frac_text : str → str → Prop :=
| frac_none : frac_text [] []
| frac_some f : f ≠ [] → forallb is_ascii_digit f = true → frac_text (46 :: f) f.

Inductive exp_text : str → Z → Prop :=
| exp_none : exp_text [] 0
| exp_plain e s : e = 101 ∨ e = 69 → s ≠ [] → forallb is_ascii_digit s = true →
    exp_text (e :: s) (digits_value s)
| exp_plus e s : e = 101 ∨ e = 69 → s ≠ [] → forallb is_ascii_digit s = true →
    exp_text (e :: 43 :: s) (digits_value s)
| exp_minus e s : e = 101 ∨ e = 69 → s ≠ [] → forallb is_ascii_digit s = true →
    exp_text (e :: 45 :: s) (- digits_value s).

Inductive number_text : str → Q → Prop :=
| number_text_intro (negative : bool) i ft f et e :
    int_text i → frac_text ft f → exp_text et e →
    number_text ((if negative then [45] else []) ++ i ++ ft ++ et)
      (scaled (if negative then - digits_value (i ++ f) else digits_value (i ++ f))
         (e - Z.of_nat (length f))).

(** A concrete reading of signed decimal digits, for examples and witnesses. *)
Definition decimal_bigint : BigIntOps := fun s =>
  match s with
  | [] => None
  | 43 :: s => if (0 <? length s)%nat && forallb is_ascii_digit s then Some (digits_value s) else None
  | 45 :: s => if (0 <? length s)%nat && forallb is_ascii_digit s then Some (- digits_value s) else None
  | s => if forallb is_ascii_digit s then Some (digits_value s) else None
  end.

Global Instance decimal_bigint_laws : @BigIntLaws decimal_bigint.
Proof.
  split; intros s Hne Hs; unfold bigint_parse, decimal_bigint.
  - destruct s as [|b s]; [done|]. rewrite Hs. simpl in Hs. apply andb_true_iff in Hs as [Hb _].
    apply is_ascii_digit_spec in Hb.
    assert (b ≠ 43 ∧ b ≠ 45) as [H1 H2] by lia.
    destruct b as [|p|p]; try lia; repeat (destruct p as [p|p|]; try lia; try reflexivity).
  - rewrite Hs. destruct s; [done | reflexivity].
  - rewrite Hs. destruct s; [done | reflexivity].
Qed.

(** ** Normal forms *)
Section Zeros.
Lemma trim_start_zeros_spec s :
  ∃ n, s = replicate n 48 ++ trim_start_zeros s ∧
       (trim_start_zeros s = [] ∨ ∃ b r, trim_start_zeros s = b :: r ∧ b ≠ 48).
Proof.
  unfold trim_start_zeros. induction s as [|b s (n & Hs & Hd)]; [by exists 0%nat; auto|].
  cbn [prefix_len]. destruct (Z.eqb_spec 48 b) as [<-|Hb].
  - exists (S n). cbn [replicate drop]. split; [|done]. simpl. by f_equal.
  - exists 0%nat. split; [done|]. right. exists b, s. split; [done | congruence].
Qed.

Lemma trim_end_zeros_spec s :
  ∃ n, s = trim_end_zeros s ++ replicate n 48 ∧
       (trim_end_zeros s = [] ∨ ∃ r b, trim_end_zeros s = r ++ [b] ∧ b ≠ 48).
Proof.
  unfold trim_end_zeros. destruct (trim_start_zeros_spec (rev s)) as (n & Hs & Hd). exists n. split.
  - rewrite <- (rev_involutive s) at 1. rewrite Hs at 1. rewrite rev_app_distr. f_equal.
    clear. induction n as [|n IH]; [done|]. simpl. rewrite IH. by rewrite <- replicate_cons_app.
  - destruct Hd as [-> | (b & r & -> & Hb)]; [by left|]. right. exists (rev r), b. done.
Qed.

Lemma digits_value_zeros n s : digits_value (replicate n 48 ++ s) = digits_value s.
Proof. induction n as [|n IH]; [done|]. simpl app. rewrite digits_value_cons, IH. lia. Qed.

Lemma digits_value_trailing n s : digits_value (s ++ replicate n 48) = digits_value s * 10 ^ Z.of_nat n.
Proof.
  rewrite digits_value_app, length_replicate.
  rewrite <- (app_nil_r (replicate n 48)), digits_value_zeros. unfold digits_value at 2. simpl. lia.
Qed.
End Zeros.

Lemma normalize_normal neg i f e :
  forallb is_ascii_digit i = true → forallb is_ascii_digit f = true → normal (normalize neg i f e).
Proof.
  intros Hi Hf. unfold normalize.
  destruct (trim_start_zeros_spec (i ++ f)) as (n & Hs & Hd).
  set (sig := trim_start_zeros (i ++ f)) in *.
  assert (Hall : forallb is_ascii_digit (i ++ f) = true) by by rewrite forallb_app, Hi, Hf.
  rewrite Hs, forallb_app in Hall. apply andb_true_iff in Hall as [_ Hsig].
  destruct (Nat.eqb_spec (length sig) 0) as [H0|H0]; [done|].
  destruct Hd as [Hd | (b & r & Hb & Hb0)]; [by rewrite Hd in H0|].
  destruct (trim_end_zeros_spec sig) as (m & He & Hd'). cbn [normal].
  set (dg := trim_end_zeros sig) in *.
  rewrite He, forallb_app in Hsig. apply andb_true_iff in Hsig as [Hdg _].
  destruct Hd' as [Hd' | (r' & b' & Hd' & Hb')].
  { exfalso. rewrite Hd' in He. simpl in He. rewrite Hb in He. destruct m; [done|].
    injection He as He _. congruence. }
  split; [done|]. split; [|eauto].
  destruct dg as [|c dg'] eqn:Hc; [by destruct r'|]. exists c, dg'. split; [done|].
  rewrite Hb in He. injection He as -> _. done.
Qed.

Lemma scaled_shift m e n : 0 <= n → (scaled (m * 10 ^ n) (e - n) == scaled m e)%Q.
Proof.
  intros Hn. unfold scaled. rewrite inject_Z_mult.
  rewrite (Zpower_Qpower 10 n) by done.
  change (inject_Z 10) with (10 # 1).
  rewrite <- Qmult_assoc, <- Qpower_plus by discriminate.
  replace (n + (e - n)) with e by lia. reflexivity.
Qed.

(** The normal form denotes the decimal it was made from. *)
Lemma normalize_denote neg i f e :
  (denote (normalize neg i f e) ==
   scaled (if neg then - digits_value (i ++ f) else digits_value (i ++ f)) (e - Z.of_nat (length f)))%Q.
Proof.
  unfold normalize.
  destruct (trim_start_zeros_spec (i ++ f)) as (n & Hs & Hd).
  assert (Hv : digits_value (i ++ f) = digits_value (trim_start_zeros (i ++ f)))
    by (rewrite Hs at 1; apply digits_value_zeros).
  rewrite Hv. clear Hs Hv Hd. set (sig := trim_start_zeros (i ++ f)).
  destruct (Nat.eqb_spec (length sig) 0) as [H0|H0].
  - destruct sig; [|done]. change (digits_value []) with 0. unfold scaled.
    replace (if neg then - 0 else 0) with 0 by (by destruct neg). by rewrite Qmult_0_l.
  - destruct (trim_end_zeros_spec sig) as (m & He & _). cbn [denote].
    set (dg := trim_end_zeros sig) in *.
    assert (Hl : length sig = (length dg + m)%nat) by (rewrite He at 1; by rewrite length_app, length_replicate).
    rewrite Hl, He, digits_value_trailing.
    set (x := e - Z.of_nat (length f)).
    rewrite <- (scaled_shift _ (x + (Z.of_nat (length dg + m) - Z.of_nat (length dg))) (Z.of_nat m)) by lia.
    replace (x + (Z.of_nat (length dg + m) - Z.of_nat (length dg)) - Z.of_nat m) with x by lia.
    destruct neg; [|reflexivity]. rewrite Z.mul_opp_l. reflexivity.
Qed.

(** ** The parser accepts exactly the grammar *)
Section ParseCorrect.
Context `{BigIntOps} `{!BigIntLaws}.

Lemma lookup_app_here {A} (l r : list A) : (l ++ r) !! length l = r !! 0%nat.
Proof. rewrite lookup_app_r by done. by rewrite Nat.sub_diag. Qed.

Lemma skip_digits_app p s r :
  forallb is_ascii_digit s = true → (∀ b, r !! 0%nat = Some b → is_ascii_digit b = false) →
  skip_while is_ascii_digit (p ++ s ++ r) (length p) = (length p + length s)%nat.
Proof. intros Hs Hr. unfold skip_while. by rewrite drop_app_length, prefix_len_app. Qed.

(** What a scan of digits from [at_] consumed. *)
Lemma skip_digits_split bytes at_ :
  (at_ <= length bytes)%nat →
  ∃ s, slice at_ (skip_while is_ascii_digit bytes at_) bytes = s ∧
       forallb is_ascii_digit s = true ∧ skip_while is_ascii_digit bytes at_ = (at_ + length s)%nat.
Proof.
  intros Hat. eexists. split; [done|]. unfold skip_while, slice.
  replace (at_ + prefix_len is_ascii_digit (drop at_ bytes) - at_)%nat
    with (prefix_len is_ascii_digit (drop at_ bytes)) by lia.
  split; [apply prefix_len_take|].
  rewrite length_take, Nat.min_l by apply prefix_len_le. done.
Qed.

Lemma slice_split a b s : (a <= b)%nat → (b <= length s)%nat → drop a s = slice a b s ++ drop b s.
Proof.
  intros Hab Hb. unfold slice. rewrite <- (take_drop (b - a) (drop a s)) at 1. f_equal.
  rewrite drop_drop. f_equal. lia.
Qed.

Lemma slice_one a s b : s !! a = Some b → slice a (S a) s = [b].
Proof. intros Hb. unfold slice. rewrite (drop_S s b a) by done. by replace (S a - a)%nat with 1%nat by lia. Qed.

Lemma slice_cons a c s b :
  s !! a = Some b → (a < c)%nat → slice a c s = b :: slice (S a) c s.
Proof.
  intros Hb Hc. unfold slice. rewrite (drop_S s b a) by done.
  replace (c - a)%nat with (S (c - S a)) by lia. done.
Qed.

Lemma slice_nil a s : slice a a s = [].
Proof. unfold slice. by rewrite Nat.sub_diag. Qed.

Lemma parse_integer_ok bytes at_ e :
  parse_integer bytes at_ = Ok e →
  (at_ < e <= length bytes)%nat ∧ int_text (slice at_ e bytes).
Proof.
  unfold parse_integer. destruct (bytes !! at_) as [b|] eqn:Hb; [|done].
  pose proof (lookup_lt_Some _ _ _ Hb) as Hlt.
  destruct (Z.eqb_spec b 48) as [->|Hb0].
  - intros [= <-]. split; [lia|]. rewrite (slice_one _ _ _ Hb). constructor.
  - destruct ((49 <=? b) && (b <=? 57))%bool eqn:Hd; [|done]. to_prop. intros [= <-].
    destruct (skip_digits_split bytes (S at_)) as (s & Hs & Hall & Hskip); [lia|].
    pose proof (skip_while_le is_ascii_digit bytes (S at_) ltac:(lia)).
    split; [lia|]. rewrite (slice_cons _ _ _ b) by (done || lia). rewrite Hs. by constructor.
Qed.

Lemma parse_fraction_ok bytes at_ a e :
  (at_ <= length bytes)%nat →
  parse_fraction bytes at_ = Ok (a, e) →
  (at_ <= a <= e)%nat ∧ (e <= length bytes)%nat ∧ frac_text (slice at_ e bytes) (slice a e bytes).
Proof.
  intros Hat. unfold parse_fraction. case_bool_decide as Hb.
  - pose proof (lookup_lt_Some _ _ _ Hb) as Hlt.
    destruct (Nat.eqb_spec (skip_while is_ascii_digit bytes (S at_)) (S at_)) as [|Hne]; [done|].
    intros [= <- <-].
    destruct (skip_digits_split bytes (S at_)) as (s & Hs & Hall & Hskip); [lia|].
    pose proof (skip_while_le is_ascii_digit bytes (S at_) ltac:(lia)).
    split; [lia|]. split; [done|].
    rewrite (slice_cons at_ _ _ 46) by (done || lia). rewrite Hs. constructor; [|done].
    intros ->. simpl in Hskip. lia.
  - intros [= <- <-]. split; [lia|]. split; [done|]. rewrite slice_nil. constructor.
Qed.

Lemma parse_exponent_ok bytes at_ x e :
  (at_ <= length bytes)%nat →
  parse_exponent bytes at_ = Ok (x, e) →
  (at_ <= e <= length bytes)%nat ∧ exp_text (slice at_ e bytes) x.
Proof.
  intros Hat. unfold parse_exponent. destruct (bytes !! at_) as [b|] eqn:Hb; cycle 1.
  { intros [= <- <-]. split; [lia|]. rewrite slice_nil. constructor. }
  destruct ((b =? 101) || (b =? 69))%bool eqn:He; cycle 1.
  { intros [= <- <-]. split; [lia|]. rewrite slice_nil. constructor. }
  assert (Hmark : b = 101 ∨ b = 69) by (apply orb_true_iff in He as [?|?]; to_prop; auto).
  pose proof (lookup_lt_Some _ _ _ Hb) as Hlt.
  destruct (bytes !! S at_) as [c|] eqn:Hc.
  - destruct ((c =? 43) || (c =? 45))%bool eqn:Hsign.
    + pose proof (lookup_lt_Some _ _ _ Hc) as Hlt'.
      destruct (Nat.eqb_spec (skip_while is_ascii_digit bytes (S (S at_))) (S (S at_))) as [|Hne]; [done|].
      intros (y & Hy & Hx)%bind_ok_inv. injection Hx as -> <-. apply ok_or_ok in Hy.
      destruct (skip_digits_split bytes (S (S at_))) as (s & Hs & Hall & Hskip); [lia|].
      pose proof (skip_while_le is_ascii_digit bytes (S (S at_)) ltac:(lia)).
      assert (Hnil : s ≠ []) by (intros ->; simpl in Hskip; lia).
      split; [lia|]. rewrite (slice_cons at_ _ _ b) by (done || lia).
      rewrite (slice_cons (S at_) _ _ c) in Hy |- * by (done || lia). rewrite Hs in *.
      apply orb_true_iff in Hsign as [->%Z.eqb_eq | ->%Z.eqb_eq].
      * rewrite bigint_parse_plus in Hy by done. injection Hy as <-. by constructor.
      * rewrite bigint_parse_minus in Hy by done. injection Hy as <-. by constructor.
    + destruct (Nat.eqb_spec (skip_while is_ascii_digit bytes (S at_)) (S at_)) as [|Hne]; [done|].
      intros (y & Hy & Hx)%bind_ok_inv. injection Hx as -> <-. apply ok_or_ok in Hy.
      destruct (skip_digits_split bytes (S at_)) as (s & Hs & Hall & Hskip); [lia|].
      pose proof (skip_while_le is_ascii_digit bytes (S at_) ltac:(lia)).
      assert (Hnil : s ≠ []) by (intros ->; simpl in Hskip; lia).
      split; [lia|]. rewrite (slice_cons at_ _ _ b) by (done || lia). rewrite Hs in *.
      rewrite bigint_parse_plain in Hy by done. injection Hy as <-. by constructor.
  - rewrite skip_while_unroll, Hc, Nat.eqb_refl. done.
Qed.

Lemma parse_sound tok n :
  parse tok = Ok n →
  token n = tok ∧ normal (value n) ∧ ∃ q, number_text tok q ∧ (denote (value n) == q)%Q.
Proof.
  unfold parse. set (neg := bool_decide (tok !! 0%nat = Some 45)).
  set (start := if neg then 1%nat else 0%nat).
  intros (ie & Hi & ([fs fe] & Hf & ([x e] & He & Hn)%bind_ok_inv)%bind_ok_inv)%bind_ok_inv.
  destruct (Nat.eqb_spec e (length tok)) as [->|]; [|done]. injection Hn as <-. simpl.
  apply parse_integer_ok in Hi as [Hi Hit].
  apply parse_fraction_ok in Hf as (Hf & Hfe & Hft); [|lia].
  apply parse_exponent_ok in He as [He Het]; [|lia].
  split; [done|]. split.
  { apply normalize_normal.
    - clear -Hit. destruct Hit; [done|]. simpl. rewrite (proj2 (is_ascii_digit_spec _)) by lia. done.
    - clear -Hft. by inversion Hft. }
  eexists. split; [|by rewrite normalize_denote].
  replace (Z.of_nat (length (slice fs fe tok))) with (Z.of_nat (length (slice fs fe tok))) by done.
  pose proof (number_text_intro neg _ _ _ _ _ Hit Hft Het) as Ht.
  replace ((if neg then [45] else []) ++ slice start ie tok ++ slice ie fe tok ++ slice fe (length tok) tok)
    with tok in Ht; [done|].
  assert (Hdrop : drop start tok = slice start ie tok ++ slice ie fe tok ++ slice fe (length tok) tok).
  { rewrite (slice_split start ie) by lia. f_equal. rewrite (slice_split ie fe) by lia. f_equal.
    rewrite (slice_split fe (length tok)) by lia. by rewrite drop_all, app_nil_r. }
  rewrite <- Hdrop. unfold start, neg. case_bool_decide as Hneg; [|done].
  change ([45] ++ drop 1 tok) with (45 :: drop 1 tok). by rewrite <- (drop_S tok 45 0%nat).
Qed.

Lemma parse_integer_complete p i r :
  int_text i → (∀ b, r !! 0%nat = Some b → is_ascii_digit b = false) →
  parse_integer (p ++ i ++ r) (length p) = Ok (length p + length i)%nat.
Proof.
  intros Hi Hr. unfold parse_integer. rewrite lookup_app_here. destruct Hi as [|b s Hb Hs]; simpl.
  - f_equal. lia.
  - destruct (Z.eqb_spec b 48); [lia|].
    rewrite (proj2 (andb_true_iff _ _)) by (rewrite !Z.leb_le; lia). f_equal.
    replace (p ++ b :: s ++ r) with ((p ++ [b]) ++ s ++ r) by by rewrite <- app_assoc.
    replace (S (length p)) with (length (p ++ [b])) by (rewrite length_app; simpl; lia).
    rewrite skip_digits_app by done. rewrite length_app. simpl. lia.
Qed.

Lemma parse_fraction_complete p ft f r :
  frac_text ft f → (∀ b, r !! 0%nat = Some b → is_ascii_digit b = false ∧ b ≠ 46) →
  parse_fraction (p ++ ft ++ r) (length p) =
    Ok (length p + length ft - length f, length p + length ft)%nat.
Proof.
  intros Hf Hr. unfold parse_fraction. rewrite lookup_app_here. destruct Hf as [|f Hne Hf].
  - simpl. rewrite bool_decide_false; [do 2 f_equal; lia|]. intros E. by destruct (Hr _ E).
  - assert (E : skip_while is_ascii_digit (p ++ 46 :: f ++ r) (S (length p)) = (S (length p) + length f)%nat).
    { replace (p ++ 46 :: f ++ r) with ((p ++ [46]) ++ f ++ r) by by rewrite <- app_assoc.
      replace (S (length p)) with (length (p ++ [46])) by (rewrite length_app; simpl; lia).
      apply skip_digits_app; [done | apply Hr]. }
    rewrite bool_decide_true by done. cbv zeta.
    change ((46 :: f) ++ r) with (46 :: f ++ r). rewrite E.
    destruct (Nat.eqb_spec (S (length p) + length f) (S (length p))).
    { destruct f; [done | simpl in *; lia]. }
    f_equal. f_equal; simpl; lia.
Qed.

Lemma skip_digits_end q s :
  s ≠ [] → forallb is_ascii_digit s = true →
  skip_while is_ascii_digit (q ++ s) (length q) = (length q + length s)%nat ∧
  (length q + length s =? length q)%nat = false.
Proof.
  intros Hne Hs. split.
  - pose proof (skip_digits_app q s [] Hs) as E. rewrite app_nil_r in E. by apply E.
  - apply Nat.eqb_neq. destruct s; [done|]. simpl. lia.
Qed.

Lemma slice_suffix (q t : str) : slice (length q) (length q + length t) (q ++ t) = t.
Proof. unfold slice. rewrite drop_app_length, take_ge by lia. done. Qed.

Lemma parse_exponent_signed p e c s v :
  e = 101 ∨ e = 69 → c = 43 ∨ c = 45 → s ≠ [] → forallb is_ascii_digit s = true →
  bigint_parse (c :: s) = Some v →
  parse_exponent (p ++ e :: c :: s) (length p) = Ok (v, (length p + length (e :: c :: s))%nat).
Proof.
  intros Hm Hc Hne Hs Hv. unfold parse_exponent. rewrite lookup_app_here. simpl.
  rewrite (proj2 (orb_true_iff (e =? 101) _)) by (rewrite !Z.eqb_eq; lia).
  assert (Hshape : ∀ q, p ++ e :: q = (p ++ [e]) ++ q) by (intros; by rewrite <- app_assoc).
  rewrite Hshape.
  replace (S (length p)) with (length (p ++ [e])) by (rewrite length_app; simpl; lia).
  rewrite lookup_app_here. simpl lookup. cbv iota.
  rewrite (proj2 (orb_true_iff (c =? 43) _)) by (rewrite !Z.eqb_eq; lia).
  replace (S (length (p ++ [e]))) with (length (p ++ [e; c])) by (rewrite !length_app; simpl; lia).
  replace ((p ++ [e]) ++ c :: s) with ((p ++ [e; c]) ++ s) by by rewrite <- !app_assoc.
  destruct (skip_digits_end (p ++ [e; c]) s) as [-> ->]; [done..|].
  replace (length (p ++ [e; c]) + length s)%nat with (length (p ++ [e]) + length (c :: s))%nat
    by (rewrite !length_app; simpl; lia).
  replace ((p ++ [e; c]) ++ s) with ((p ++ [e]) ++ c :: s) by by rewrite <- !app_assoc.
  rewrite slice_suffix, Hv. simpl. rewrite length_app. simpl. do 2 f_equal. lia.
Qed.

Lemma parse_exponent_complete p et x :
  exp_text et x → parse_exponent (p ++ et) (length p) = Ok (x, (length p + length et)%nat).
Proof.
  intros He. destruct He as [|e s Hm Hne Hs|e s Hm Hne Hs|e s Hm Hne Hs].
  - unfold parse_exponent. rewrite lookup_app_here. simpl. do 2 f_equal. lia.
  - unfold parse_exponent. rewrite lookup_app_here. simpl.
    rewrite (proj2 (orb_true_iff (e =? 101) _)) by (rewrite !Z.eqb_eq; lia).
    replace (p ++ e :: s) with ((p ++ [e]) ++ s) by by rewrite <- app_assoc.
    replace (S (length p)) with (length (p ++ [e])) by (rewrite length_app; simpl; lia).
    rewrite lookup_app_here. destruct s as [|b s']; [done|]. cbn [lookup list_lookup].
    assert (Hb : is_ascii_digit b = true) by (simpl in Hs; by apply andb_true_iff in Hs as [? _]).
    apply is_ascii_digit_spec in Hb.
    destruct (Z.eqb_spec b 43); [lia|]. destruct (Z.eqb_spec b 45); [lia|]. simpl orb. cbv iota.
    destruct (skip_digits_end (p ++ [e]) (b :: s')) as [-> ->]; [done..|].
    rewrite slice_suffix, bigint_parse_plain by done. simpl. rewrite length_app. simpl. do 2 f_equal. lia.
  - apply parse_exponent_signed; auto. by apply bigint_parse_plus.
  - apply parse_exponent_signed; auto. by apply bigint_parse_minus.
Qed.

Lemma exp_text_head et x b : exp_text et x → et !! 0%nat = Some b → b = 101 ∨ b = 69.
Proof. by destruct 1; intros [= <-]. Qed.

Lemma frac_exp_head ft f et x b :
  frac_text ft f → exp_text et x → (ft ++ et) !! 0%nat = Some b → is_ascii_digit b = false.
Proof.
  intros Hf He Hb. apply not_true_iff_false. rewrite is_ascii_digit_spec.
  destruct Hf; simpl in Hb; [destruct (exp_text_head _ _ _ He Hb); lia | injection Hb as <-; lia].
Qed.

Lemma parse_complete tok q :
  number_text tok q → ∃ n, parse tok = Ok n ∧ token n = tok ∧ (denote (value n) == q)%Q.
Proof.
  intros [neg i ft f et e Hi Hf He].
  set (p := if neg then [45] else []).
  assert (Hneg : bool_decide ((p ++ i ++ ft ++ et) !! 0%nat = Some 45) = neg).
  { unfold p. destruct neg; [done|]. apply bool_decide_eq_false. simpl.
    destruct Hi; simpl; [done | intros [= ->]; lia]. }
  unfold parse. rewrite Hneg.
  replace (if neg then 1%nat else 0%nat) with (length p) by (unfold p; by destruct neg).
  rewrite parse_integer_complete by (done || (intros; by eapply frac_exp_head)). rewrite bind_ok.
  assert (Ha : p ++ i ++ ft ++ et = (p ++ i) ++ ft ++ et) by by rewrite <- app_assoc.
  rewrite Ha, <- (length_app p i).
  rewrite (parse_fraction_complete _ ft f) by
    (done || (intros b Hb; pose proof (exp_text_head _ _ _ He Hb); split;
      [apply not_true_iff_false; rewrite is_ascii_digit_spec; lia | lia])).
  rewrite bind_ok.
  assert (Hb : (p ++ i) ++ ft ++ et = ((p ++ i) ++ ft) ++ et) by by rewrite <- (app_assoc (p ++ i)).
  rewrite Hb, <- (length_app (p ++ i) ft), (parse_exponent_complete _ _ e) by done. rewrite bind_ok.
  rewrite <- (length_app _ et), Nat.eqb_refl.
  eexists. split; [done|]. split; [done|]. simpl value.
  assert (Hsi : slice (length p) (length (p ++ i)) (((p ++ i) ++ ft) ++ et) = i).
  { unfold slice. rewrite <- !app_assoc, drop_app_length, length_app.
    replace (length p + length i - length p)%nat with (length i) by lia. apply take_app_length. }
  assert (Hsf : slice (length ((p ++ i) ++ ft) - length f) (length ((p ++ i) ++ ft)) (((p ++ i) ++ ft) ++ et) = f).
  { destruct Hf as [|f Hne Hd].
    - simpl. rewrite Nat.sub_0_r. apply slice_nil.
    - replace (((p ++ i) ++ 46 :: f) ++ et) with (((p ++ i) ++ [46]) ++ f ++ et) by by rewrite <- !app_assoc.
      assert (Hl : length ((p ++ i) ++ 46 :: f) = (length ((p ++ i) ++ [46%Z]) + length f)%nat)
        by (rewrite !length_app; simpl; lia).
      unfold slice. rewrite Hl, Nat.add_sub, drop_app_length.
      replace (_ + _ - _)%nat with (length f) by lia. apply take_app_length. }
  rewrite Hsi, Hsf. apply normalize_denote.
Qed.
End ParseCorrect.

(** ** The order is the order of the rationals *)
Section Order.
Definition mantissa (d : Decimal) : Z :=
  match d with
  | Zero => 0
  | Nonzero negative digits _ => if negative then - digits_value digits else digits_value digits
  end.
Definition scale (d : Decimal) : Z := match d with Zero => 0 | Nonzero _ _ e => e end.

Lemma denote_scaled d : (denote d == scaled (mantissa d) (scale d))%Q.
Proof. destruct d; [|reflexivity]. unfold scaled. simpl. by rewrite Qmult_0_l. Qed.

Lemma Qcompare_scale_pos (a b : Z) (p : Q) :
  (0 < p)%Q → Qcompare (inject_Z a * p) (inject_Z b * p) = (a ?= b).
Proof.
  intros Hp. symmetry. destruct (Z.compare_spec a b) as [->|Hlt|Hgt]; symmetry.
  - by apply Qeq_alt.
  - apply Qlt_alt, Qmult_lt_r; [done|]. by rewrite <- Zlt_Qlt.
  - apply Qgt_alt, Qmult_lt_r; [done|]. by rewrite <- Zlt_Qlt.
Qed.

Lemma scaled_compare m1 e1 m2 e2 k :
  k <= e1 → k <= e2 →
  Qcompare (scaled m1 e1) (scaled m2 e2) = (m1 * 10 ^ (e1 - k) ?= m2 * 10 ^ (e2 - k)).
Proof.
  intros H1 H2.
  assert (Hk : ∀ m e, k <= e → (scaled m e == inject_Z (m * 10 ^ (e - k)) * (10 # 1) ^ k)%Q).
  { intros m e He. rewrite <- (scaled_shift m e (e - k)) by lia. unfold scaled.
    by replace (e - (e - k)) with k by lia. }
  rewrite (Qcompare_comp _ _ (Hk m1 e1 H1) _ _ (Hk m2 e2 H2)).
  apply Qcompare_scale_pos, Qpower_0_lt. done.
Qed.

Lemma normal_bounds neg s e :
  normal (Nonzero neg s e) →
  (1 <= length s)%nat ∧ 10 ^ (Z.of_nat (length s) - 1) <= digits_value s < 10 ^ Z.of_nat (length s).
Proof.
  intros (Hall & (b & r & -> & Hb) & _). pose proof (digits_value_bound _ Hall) as [_ Hu].
  simpl in Hall. apply andb_true_iff in Hall as [Hd%is_ascii_digit_spec Hr].
  pose proof (digits_value_lower b r ltac:(lia) Hr) as Hl. simpl length. split; [lia|].
  replace (Z.of_nat (S (length r)) - 1) with (Z.of_nat (length r)) by lia. done.
Qed.

Lemma normal_pos neg s e : normal (Nonzero neg s e) → 0 < digits_value s.
Proof. intros (H & Hl & _)%normal_bounds. pose proof (Z.pow_pos_nonneg 10 (Z.of_nat (length s) - 1)). lia. Qed.

Lemma first_difference_digits l r :
  length l = length r → forallb is_ascii_digit l = true → forallb is_ascii_digit r = true →
  first_difference (zip_with Z.compare l r) = (digits_value l ?= digits_value r).
Proof.
  revert r. induction l as [|x l IH]; intros [|y r] Hl Hx Hy; [done..|].
  simpl in Hl, Hx, Hy. to_prop. injection Hl as Hl. rewrite is_ascii_digit_spec in *.
  rewrite !digits_value_cons, Hl. pose proof (digits_value_bound l) as B1.
  pose proof (digits_value_bound r) as B2. rewrite Hl in B1.
  specialize (B1 ltac:(done)). specialize (B2 ltac:(done)).
  simpl. destruct (Z.compare_spec x y) as [->|Hlt|Hgt]; symmetry.
  - rewrite (IH r Hl) by done. symmetry.
    destruct (Z.compare_spec (digits_value l) (digits_value r)); symmetry;
      [apply Z.compare_eq_iff | apply Z.compare_lt_iff | apply Z.compare_gt_iff]; nia.
  - apply Z.compare_lt_iff. nia.
  - apply Z.compare_gt_iff. nia.
Qed.

Lemma padded_digits n s : forallb is_ascii_digit s = true → forallb is_ascii_digit (padded n s) = true.
Proof.
  intros Hs. unfold padded. rewrite forallb_app, Hs. simpl. by induction (n - length s)%nat.
Qed.

Lemma padded_length n s : (length s <= n)%nat → length (padded n s) = n.
Proof. intros. unfold padded. rewrite length_app, length_replicate. lia. Qed.

Lemma padded_value n s :
  (length s <= n)%nat → digits_value (padded n s) = digits_value s * 10 ^ (Z.of_nat n - Z.of_nat (length s)).
Proof. intros. unfold padded. rewrite digits_value_trailing. do 2 f_equal. lia. Qed.

Lemma digits_cmp_value l r :
  forallb is_ascii_digit l = true → forallb is_ascii_digit r = true →
  digits_cmp l r =
    (digits_value (padded (Nat.max (length l) (length r)) l)
     ?= digits_value (padded (Nat.max (length l) (length r)) r)).
Proof.
  intros Hl Hr. unfold digits_cmp. apply first_difference_digits.
  - by rewrite !padded_length by lia.
  - by apply padded_digits.
  - by apply padded_digits.
Qed.

(** The comparison of two magnitudes, at a common scale. *)
Lemma magnitude_cmp l el r er k :
  normal (Nonzero false l el) → normal (Nonzero false r er) → k = Z.min el er →
  then_with ((el + Z.of_nat (length l)) ?= (er + Z.of_nat (length r))) (digits_cmp l r) =
  (digits_value l * 10 ^ (el - k) ?= digits_value r * 10 ^ (er - k)).
Proof.
  intros Hl Hr Hk.
  destruct (normal_bounds _ _ _ Hl) as [Ll Bl]. destruct (normal_bounds _ _ _ Hr) as [Lr Br].
  assert (Hpow : ∀ a b, 0 <= a → 0 <= b → 10 ^ a * 10 ^ b = 10 ^ (a + b)) by (intros; by rewrite Z.pow_add_r).
  assert (Hgap : ∀ s e t f, normal (Nonzero false s e) → normal (Nonzero false t f) → k <= e → k <= f →
    e + Z.of_nat (length s) < f + Z.of_nat (length t) →
    digits_value s * 10 ^ (e - k) < digits_value t * 10 ^ (f - k)).
  { intros s e t f [Ls Bs]%normal_bounds [Lt Bt]%normal_bounds He Hf Hm.
    pose proof (Z.pow_pos_nonneg 10 (e - k)). pose proof (Z.pow_pos_nonneg 10 (f - k)).
    assert (digits_value s * 10 ^ (e - k) < 10 ^ (Z.of_nat (length s) + (e - k)))
      by (rewrite <- Hpow by lia; nia).
    assert (10 ^ (Z.of_nat (length t) - 1 + (f - k)) <= digits_value t * 10 ^ (f - k))
      by (rewrite <- Hpow by lia; nia).
    assert (10 ^ (Z.of_nat (length s) + (e - k)) <= 10 ^ (Z.of_nat (length t) - 1 + (f - k)))
      by (apply Z.pow_le_mono_r; lia). lia. }
  destruct (Z.compare_spec (el + Z.of_nat (length l)) (er + Z.of_nat (length r))) as [He|Hlt|Hgt];
    cbn [then_with]; symmetry.
  - rewrite digits_cmp_value by (apply Hl || apply Hr). rewrite !padded_value by lia.
    do 2 f_equal; f_equal; lia.
  - apply Z.compare_lt_iff, Hgap; lia || done.
  - apply Z.compare_gt_iff, Hgap; lia || done.
Qed.

Lemma normal_unsigned neg s e : normal (Nonzero neg s e) → normal (Nonzero false s e).
Proof. done. Qed.

Lemma cmp_denote a b :
  normal (value a) → normal (value b) → cmp a b = Qcompare (denote (value a)) (denote (value b)).
Proof.
  intros Ha Hb. rewrite (Qcompare_comp _ _ (denote_scaled (value a)) _ _ (denote_scaled (value b))).
  rewrite (scaled_compare _ _ _ _ (Z.min (scale (value a)) (scale (value b)))) by lia.
  unfold cmp. destruct (value a) as [|na l el], (value b) as [|nb r er]; cbn [mantissa scale sign].
  - done.
  - pose proof (normal_pos _ _ _ Hb). pose proof (Z.pow_pos_nonneg 10 (er - Z.min 0 er)).
    destruct nb; [transitivity Gt | transitivity Lt]; try done; symmetry;
      [apply Z.compare_gt_iff | apply Z.compare_lt_iff]; nia.
  - pose proof (normal_pos _ _ _ Ha). pose proof (Z.pow_pos_nonneg 10 (el - Z.min el 0)).
    destruct na; [transitivity Lt | transitivity Gt]; try done; symmetry;
      [apply Z.compare_lt_iff | apply Z.compare_gt_iff]; nia.
  - pose proof (normal_pos _ _ _ Ha). pose proof (normal_pos _ _ _ Hb).
    pose proof (Z.pow_pos_nonneg 10 (el - Z.min el er)). pose proof (Z.pow_pos_nonneg 10 (er - Z.min el er)).
    destruct na, nb; cbn -[Z.pow then_with].
    + rewrite (magnitude_cmp _ _ _ _ (Z.min el er)) by (done || by eapply normal_unsigned).
      rewrite <- Z.compare_antisym, !Z.mul_opp_l. symmetry. apply Z.compare_opp.
    + transitivity Lt; [done|]. symmetry. apply Z.compare_lt_iff. nia.
    + transitivity Gt; [done|]. symmetry. apply Z.compare_gt_iff. nia.
    + by rewrite (magnitude_cmp _ _ _ _ (Z.min el er)).
Qed.

Lemma first_difference_eq l r :
  length l = length r → first_difference (zip_with Z.compare l r) = Eq → l = r.
Proof.
  revert r. induction l as [|x l IH]; intros [|y r] Hl; [done..|]. injection Hl as Hl. simpl.
  destruct (Z.compare_spec x y) as [->|?|?]; [|done..]. intros H. f_equal. by apply IH.
Qed.

(** Padding does not identify two digit strings without trailing zeros. *)
Lemma zeros_inj i j l r b c :
  b ≠ 48 → c ≠ 48 →
  (l ++ [b]) ++ replicate i 48 = (r ++ [c]) ++ replicate j 48 → l ++ [b] = r ++ [c].
Proof.
  intros Hb Hc. revert j.
  assert (Hlast : ∀ m (s : str) d, last ((s ++ [d]) ++ replicate (S m) 48) = Some 48).
  { intros m s d. rewrite replicate_S_end, app_assoc. apply last_snoc. }
  induction i as [|i IH]; intros [|j] H.
  - by rewrite !app_nil_r in H.
  - apply (f_equal last) in H. rewrite Hlast, app_nil_r, last_snoc in H. congruence.
  - apply (f_equal last) in H. rewrite Hlast, app_nil_r, last_snoc in H. congruence.
  - apply (IH j). rewrite !replicate_S_end, !app_assoc in H. by apply app_inj_tail in H as [H _].
Qed.

Lemma cmp_eq_value a b :
  normal (value a) → normal (value b) → cmp a b = Eq → value a = value b.
Proof.
  unfold cmp. destruct (value a) as [|na l el], (value b) as [|nb r er]; simpl; [done| | |].
  - by destruct nb.
  - by destruct na.
  - intros (Hl & _ & (l' & b' & -> & Hb')) (Hr & _ & (r' & c' & -> & Hc')) H.
    assert (Hs : na = nb) by by destruct na, nb. subst nb. destruct (_ ?= _) eqn:Hsig in H; [|by destruct na..].
    clear Hsig.
    destruct (Z.compare_spec (el + Z.of_nat (length (l' ++ [b']))) (er + Z.of_nat (length (r' ++ [c'])))) as [He|?|?];
      [|by destruct na..]. simpl in H.
    assert (Hd : digits_cmp (l' ++ [b']) (r' ++ [c']) = Eq).
    { destruct na; [|done]. by destruct (digits_cmp _ _). }
    apply first_difference_eq in Hd; [|by rewrite !padded_length by lia].
    apply zeros_inj in Hd; [|done..]. rewrite Hd in *. f_equal. lia.
Qed.
End Order.

(** ** Integers and bounded conversion *)
Definition Q_integer (q : Q) : Prop := ∃ z : Z, (q == inject_Z z)%Q.

Section Integers.
Lemma scaled_integer m e : 0 <= e → (scaled m e == inject_Z (m * 10 ^ e))%Q.
Proof.
  intros He. unfold scaled. by rewrite inject_Z_mult, (Zpower_Qpower 10 e).
Qed.

(** Below the units, a nonzero last digit leaves a fraction. *)
Lemma scaled_fraction m e : e < 0 → m mod 10 ≠ 0 → ¬ Q_integer (scaled m e).
Proof.
  intros He Hm [z Hz]. apply Hm.
  assert (H : (scaled m e * (10 # 1) ^ (- e) == inject_Z (z * 10 ^ (- e)))%Q).
  { rewrite Hz, inject_Z_mult, (Zpower_Qpower 10 (- e)) by lia. reflexivity. }
  unfold scaled in H. rewrite <- Qmult_assoc, <- Qpower_plus in H by discriminate.
  replace (e + - e) with 0 in H by lia. rewrite Qmult_1_r in H. apply (proj1 (inject_Z_injective _ _)) in H. subst m.
  replace (- e) with (Z.succ (- e - 1)) by lia. rewrite Z.pow_succ_r by lia.
  replace (z * (10 * 10 ^ (- e - 1))) with (z * 10 ^ (- e - 1) * 10) by lia. apply Z_mod_mult.
Qed.

Lemma normal_last neg s e : normal (Nonzero neg s e) → digits_value s mod 10 ≠ 0.
Proof.
  intros (Hall & _ & (r & b & -> & Hb)). rewrite digits_value_snoc.
  rewrite forallb_app in Hall. simpl in Hall. to_prop. rewrite is_ascii_digit_spec in *.
  rewrite Z.add_comm, Z_mod_plus_full, Z.mod_small by lia. lia.
Qed.

Lemma opp_mod10 m : m mod 10 ≠ 0 → (- m) mod 10 ≠ 0.
Proof. intros H H'. apply H. apply Z_mod_zero_opp_full in H'. by rewrite Z.opp_involutive in H'. Qed.

Lemma is_integer_denote n :
  normal (value n) → is_integer n = true ↔ Q_integer (denote (value n)).
Proof.
  unfold is_integer. destruct (value n) as [|neg s e]; intros Hn.
  - split; [|done]. intros _. by exists 0.
  - destruct (Z.ltb_spec e 0) as [He|He]; cbn [denote negb].
    + split; [done|]. intros Hq. exfalso. revert Hq. apply scaled_fraction; [done|].
      pose proof (normal_last _ _ _ Hn). destruct neg; [by apply opp_mod10 | done].
    + split; [|done]. intros _. eexists. by apply scaled_integer.
Qed.

Lemma mul_tens_spec zeros res :
  0 <= res →
  mul_tens zeros res =
    if res * 10 ^ Z.of_nat zeros <=? U64_MAX then Some (res * 10 ^ Z.of_nat zeros)
    else if (zeros =? 0)%nat then Some res else None.
Proof.
  revert res. induction zeros as [|z IH]; intros res Hres.
  - change (10 ^ Z.of_nat 0) with 1. rewrite Z.mul_1_r. simpl. by case_match.
  - cbn [mul_tens]. replace (10 ^ Z.of_nat (S z)) with (10 * 10 ^ Z.of_nat z)
      by (rewrite Nat2Z.inj_succ, Z.pow_succ_r by lia; done).
    pose proof (Z.pow_pos_nonneg 10 (Z.of_nat z)).
    rewrite Z.mul_assoc. cbn [Nat.eqb].
    destruct (checked_mul res 10) as [r|] eqn:Hr.
    + apply checked_mul_Some in Hr as [-> Hr]. rewrite IH by lia.
      destruct (Z.leb_spec (res * 10 * 10 ^ Z.of_nat z) U64_MAX); [done|].
      destruct z; [|done]. change (10 ^ Z.of_nat 0) with 1 in *. lia.
    + unfold checked_mul in Hr. case_match; [done|]. to_prop.
      destruct (Z.leb_spec (res * 10 * 10 ^ Z.of_nat z) U64_MAX); [nia | done].
Qed.

(** [as_unsigned] on every branch: the exact integer when it is in range, and
    otherwise the first of negative, fractional and out of range. *)
Definition unsigned_spec (q : Q) (maximum : Z) (r : result UnsignedConversionError Z) : Prop :=
  match r with
  | Ok v => (q == inject_Z v)%Q ∧ 0 <= v <= maximum
  | Err Negative => (q < 0)%Q
  | Err Fractional => (0 < q)%Q ∧ ¬ Q_integer q
  | Err OutOfRange => ∃ z, (q == inject_Z z)%Q ∧ maximum < z
  end.

Lemma as_unsigned_denote n maximum :
  normal (value n) → 0 <= maximum <= U64_MAX →
  unsigned_spec (denote (value n)) maximum (as_unsigned n maximum).
Proof.
  unfold as_unsigned. destruct (value n) as [|neg s e]; intros Hn Hmax; [simpl; split; [done | lia]|].
  pose proof (normal_pos _ _ _ Hn) as Hpos. destruct (normal_bounds _ _ _ Hn) as [Hlen Hb].
  cbn [denote]. destruct neg.
  { simpl. unfold scaled. apply (proj2 (Qlt_alt _ _)).
    change 0%Q with (inject_Z 0). rewrite <- (Qmult_0_l ((10 # 1) ^ e)) at 1.
    change 0%Q with (inject_Z 0). rewrite Qcompare_scale_pos by by apply Qpower_0_lt.
    apply Z.compare_lt_iff. lia. }
  destruct (Z.ltb_spec e 0) as [He|He].
  { simpl. split; [|by apply scaled_fraction; [|eapply normal_last]].
    unfold scaled. apply Qmult_lt_0_compat; [|by apply Qpower_0_lt].
    change 0%Q with (inject_Z 0). by rewrite <- Zlt_Qlt. }
  destruct (Z.ltb_spec 20 (e + Z.of_nat (length s))) as [Hbig|Hsmall].
  { simpl. exists (digits_value s * 10 ^ e). split; [by apply scaled_integer|].
    assert (10 ^ 20 <= 10 ^ (Z.of_nat (length s) - 1 + e)) by (apply Z.pow_le_mono_r; lia).
    rewrite Z.pow_add_r in * by lia. pose proof (Z.pow_pos_nonneg 10 e). unfold U64_MAX in *. nia. }
  unfold to_u32. rewrite (proj2 (andb_true_iff (0 <=? e) _)) by (rewrite !Z.leb_le; unfold U32_MAX; lia).
  pose proof (Z.pow_pos_nonneg 10 e).
  unfold parse_digits_max. destruct (Z.leb_spec (digits_value s) U64_MAX) as [Hs|Hs]; simpl.
  2: { exists (digits_value s * 10 ^ e). split; [by apply scaled_integer | nia]. }
  rewrite mul_tens_spec, Z2Nat.id by lia.
  destruct (Z.leb_spec (digits_value s * 10 ^ e) U64_MAX) as [Hv|Hv]; simpl.
  - destruct (Z.ltb_spec maximum (digits_value s * 10 ^ e)); simpl.
    + eexists. split; [by apply scaled_integer | done].
    + split; [by apply scaled_integer | nia].
  - destruct (Nat.eqb_spec (Z.to_nat e) 0) as [He0|He0]; simpl.
    + assert (e = 0) by lia. subst e. change (10 ^ 0) with 1 in *. lia.
    + exists (digits_value s * 10 ^ e). split; [by apply scaled_integer | lia].
Qed.
End Integers.

(** ** Properties *)

(** C20: [JsonNumber::parse] accepts exactly the number grammar of RFC 8259, keeps
    the source spelling, and the normal form it computes denotes exactly the
    rational number the text denotes, whatever the size of its exponent. *)
Theorem parse_exact `{BigIntOps} `{!BigIntLaws} (tok : str) :
  (∀ n, parse tok = Ok n →
     token n = tok ∧ normal (value n) ∧ ∃ q, number_text tok q ∧ (denote (value n) == q)%Q) ∧
  (∀ q, number_text tok q → ∃ n, parse tok = Ok n ∧ token n = tok ∧ (denote (value n) == q)%Q).
Proof. split; [intros n; apply parse_sound | intros q; apply parse_complete]. Qed.

Lemma parse_exact_witness :
  let tok := lit "-12.50e+1" in
  number_text tok (scaled (-1250) (1 - 2)) ∧
  ∃ n, @parse decimal_bigint tok = Ok n ∧ token n = tok ∧ value n = Nonzero true (lit "125") 0 ∧
       (denote (value n) == scaled (-1250) (1 - 2))%Q.
Proof.
  intros tok.
  assert (Ht : number_text tok (scaled (-1250) (1 - 2))).
  { apply (number_text_intro true (lit "12") (lit ".50") (lit "50") (lit "e+1") 1).
    - apply int_nonzero; [split; vm_compute; discriminate | done].
    - by apply frac_some.
    - by apply (exp_plus 101 (lit "1")); [left|..]. }
  split; [done|].
  destruct (proj2 (@parse_exact decimal_bigint decimal_bigint_laws tok) _ Ht) as (n & Hn & Htok & Hq).
  exists n. split; [done|]. split; [done|]. split; [|done].
  assert (E : @parse decimal_bigint tok = Ok {| token := tok; value := Nonzero true (lit "125") 0 |}) by by vm_compute.
  rewrite E in Hn. by injection Hn as <-.
Defined.

(** On parsed numbers the order [Ord::cmp] is exactly the order of the
    rationals they denote, and [Eq] (hence equal hashing, which hashes the same
    normal form) is exactly equality of those rationals. *)
Theorem cmp_exact `{BigIntOps} `{!BigIntLaws} (a b : JsonNumber) :
  parse (token a) = Ok a → parse (token b) = Ok b →
  cmp a b = Qcompare (denote (value a)) (denote (value b)) ∧
  (num_eqb a b = true ↔ (denote (value a) == denote (value b))%Q).
Proof.
  intros (_ & Ha & _)%parse_sound (_ & Hb & _)%parse_sound.
  pose proof (cmp_denote a b Ha Hb) as Hc. split; [done|].
  unfold num_eqb. rewrite bool_decide_eq_true, Qeq_alt, <- Hc. split; [|by apply cmp_eq_value].
  intros He. rewrite Hc, He. by apply Qeq_alt.
Qed.

Definition the_number (r : result InvalidNumber JsonNumber) : JsonNumber :=
  match r with Ok n => n | Err _ => {| token := []; value := Zero |} end.

Lemma cmp_exact_witness :
  let a := the_number (@parse decimal_bigint (lit "1e999999999999")) in
  let b := the_number (@parse decimal_bigint (lit "10E999999999998")) in
  cmp a b = Eq ∧ (denote (value a) == denote (value b))%Q.
Proof.
  intros a b. split; [by vm_compute|].
  apply (@cmp_exact decimal_bigint decimal_bigint_laws a b); by vm_compute.
Defined.

(** [as_unsigned] returns the exact integer a number denotes when it lies in
    [0, maximum], and otherwise reports, in this order, that the number is
    negative, that it is not an integer, or that it is an integer above
    [maximum]; [is_integer] decides exactly whether the number is an integer. *)
Theorem as_unsigned_exact `{BigIntOps} `{!BigIntLaws} (n : JsonNumber) (maximum : Z) :
  parse (token n) = Ok n → 0 <= maximum <= U64_MAX →
  unsigned_spec (denote (value n)) maximum (as_unsigned n maximum) ∧
  (is_integer n = true ↔ Q_integer (denote (value n))).
Proof.
  intros (_ & Hn & _)%parse_sound Hmax. split; [by apply as_unsigned_denote | by apply is_integer_denote].
Qed.

Lemma as_unsigned_exact_witness :
  let n := the_number (@parse decimal_bigint (lit "9007199254740991.0")) in
  as_unsigned n 9007199254740991 = Ok 9007199254740991 ∧
  unsigned_spec (denote (value n)) 9007199254740991 (as_unsigned n 9007199254740991).
Proof.
  intros n. split; [by vm_compute|].
  apply (@as_unsigned_exact decimal_bigint decimal_bigint_laws n); [by vm_compute | split; vm_compute; discriminate].
Defined.
