(* ===== verification/Utf8.v ===== *)
(** * Utf8: the standard library's view of text

    [str::from_utf8], [chars], [String::push], character boundaries and slicing:
    the operations of Rust's [str] the engine relies on.  A scalar value is a
    [Z]; [Valid] is the set of byte strings a [&str] can hold. *)
From S2P Require Import Prelude.

Definition is_scalar (c : Z) : Prop := 0 <= c < 55296 ∨ 57344 <= c <= 1114111.
Definition is_scalarb (c : Z) : bool :=
  ((0 <=? c) && (c <? 55296)) || ((57344 <=? c) && (c <=? 1114111)).

(** [char::from_u32] *)
Definition from_u32 (c : Z) : option Z := if is_scalarb c then Some c else None.

(** [String::push] and [char::len_utf8] *)
Definition encode_utf8 (c : Z) : str :=
  if c <? 128 then [c]
  else if c <? 2048 then [192 + c / 64; 128 + c mod 64]
  else if c <? 65536 then [224 + c / 4096; 128 + c / 64 mod 64; 128 + c mod 64]
  else [240 + c / 262144; 128 + c / 4096 mod 64; 128 + c / 64 mod 64; 128 + c mod 64].
Definition len_utf8 (c : Z) : nat := length (encode_utf8 c).

Definition is_cont (b : Z) : bool := (128 <=? b) && (b <=? 191).

(** The first scalar of a text and what follows it ([chars().next()]). *)
Definition utf8_next (s : str) : option (Z * str) :=
  match s with
  | [] => None
  | b0 :: r0 =>
      if (0 <=? b0) && (b0 <? 128) then Some (b0, r0)
      else if (194 <=? b0) && (b0 <=? 223) then
        match r0 with
        | b1 :: r => if is_cont b1 then Some ((b0 - 192) * 64 + (b1 - 128), r) else None
        | _ => None
        end
      else if (224 <=? b0) && (b0 <=? 239) then
        match r0 with
        | b1 :: b2 :: r =>
            let c := (b0 - 224) * 4096 + (b1 - 128) * 64 + (b2 - 128) in
            if is_cont b1 && is_cont b2 && (2048 <=? c) && is_scalarb c then Some (c, r) else None
        | _ => None
        end
      else if (240 <=? b0) && (b0 <=? 244) then
        match r0 with
        | b1 :: b2 :: b3 :: r =>
            let c := (b0 - 240) * 262144 + (b1 - 128) * 4096 + (b2 - 128) * 64 + (b3 - 128) in
            if is_cont b1 && is_cont b2 && is_cont b3 && (65536 <=? c) && is_scalarb c then Some (c, r) else None
        | _ => None
        end
      else None
  end.

(** [str::from_utf8]: the scalars of the text, or [valid_up_to] of the error. *)
Fixpoint from_utf8_go (fuel at_ : nat) (s : str) : result nat (list Z) :=
  match s, fuel with
  | [], _ => Ok []
  | _, O => Err at_
  | _, S fuel =>
      match utf8_next s with
      | Some (c, r) => cs ← from_utf8_go fuel (at_ + (length s - length r)) r; Ok (c :: cs)
      | None => Err at_
      end
  end.
Definition from_utf8 (s : str) : result nat (list Z) := from_utf8_go (length s) 0 s.

(** [chars()] of a text known to be valid. *)
Definition chars (s : str) : list Z := match from_utf8 s with Ok cs => cs | Err _ => [] end.

(** [is_char_boundary], and [&s[at..]], which panics off a boundary. *)
Definition is_char_boundary (s : str) (at_ : nat) : bool :=
  match s !! at_ with
  | Some b => (at_ =? 0)%nat || negb (is_cont b)
  | None => (at_ =? length s)%nat
  end.
Definition str_from (s : str) (at_ : nat) : option str :=
  if is_char_boundary s at_ then Some (drop at_ s) else None.

(** The texts a [&str] can hold. *)
Inductive Valid : str → Prop :=
| Valid_nil : Valid []
| Valid_char c s : is_scalar c → Valid s → Valid (encode_utf8 c ++ s).

(** [char::is_whitespace]: the [White_Space] property. *)
Definition is_white_space (c : Z) : bool :=
  ((9 <=? c) && (c <=? 13)) || (c =? 32) || (c =? 133) || (c =? 160) || (c =? 5760) || ((8192 <=? c) && (c <=? 8202))
  || (c =? 8232) || (c =? 8233) || (c =? 8239) || (c =? 8287) || (c =? 12288).

(** [str::trim], as characters. *)
Fixpoint trim_start (cs : list Z) : list Z :=
  match cs with c :: cs' => if is_white_space c then trim_start cs' else cs | [] => [] end.
Definition trim (s : str) : list Z := rev (trim_start (rev (trim_start (chars s)))).

(** How many bytes of an ill-formed sequence one replacement stands for: the
    longest prefix of a character that is there, or one byte. *)
Definition second_ok (b0 : Z) (b1 : Z) : bool :=
  if b0 =? 224 then (160 <=? b1) && (b1 <=? 191)
  else if b0 =? 237 then (128 <=? b1) && (b1 <=? 159)
  else if b0 =? 240 then (144 <=? b1) && (b1 <=? 191)
  else if b0 =? 244 then (128 <=? b1) && (b1 <=? 143)
  else is_cont b1.
Definition invalid_length (s : str) : nat :=
  match s with
  | b0 :: b1 :: r =>
      if (224 <=? b0) && (b0 <=? 244) && second_ok b0 b1 then
        if b0 <? 240 then 2%nat
        else match r with b2 :: _ => if is_cont b2 then 3%nat else 2%nat | [] => 2%nat end
      else 1%nat
  | _ => 1%nat
  end.

(** [String::from_utf8_lossy]: each ill-formed sequence becomes U+FFFD. *)
Fixpoint from_utf8_lossy_go (fuel : nat) (s : str) : str :=
  match fuel, s with
  | O, _ | _, [] => []
  | S fuel, _ =>
      match utf8_next s with
      | Some (c, r) => encode_utf8 c ++ from_utf8_lossy_go fuel r
      | None => [239; 191; 189] ++ from_utf8_lossy_go fuel (drop (invalid_length s) s)
      end
  end.
Definition from_utf8_lossy (s : str) : str := from_utf8_lossy_go (length s) s.

(** ** Encoding and decoding are inverse *)
Lemma is_scalarb_spec c : is_scalarb c = true ↔ is_scalar c.
Proof.
  unfold is_scalarb, is_scalar. rewrite orb_true_iff, !andb_true_iff, !Z.leb_le, Z.ltb_lt. lia.
Qed.

Lemma is_cont_spec b : is_cont b = true ↔ 128 <= b <= 191.
Proof. unfold is_cont. rewrite andb_true_iff, !Z.leb_le. done. Qed.

Ltac bool_true :=
  repeat match goal with
  | |- context [?a <=? ?b] => first [rewrite (proj2 (Z.leb_le a b)) by lia | rewrite (proj2 (Z.leb_gt a b)) by lia]
  | |- context [?a <? ?b] => first [rewrite (proj2 (Z.ltb_lt a b)) by lia | rewrite (proj2 (Z.ltb_ge a b)) by lia]
  end.

Lemma div64_step c : c = c / 64 * 64 + c mod 64 ∧ 0 <= c mod 64 < 64.
Proof. pose proof (Z.div_mod c 64). pose proof (Z.mod_pos_bound c 64). lia. Qed.

Lemma div_64_64 c : c / 64 / 64 = c / 4096.
Proof. rewrite Z.div_div by lia. done. Qed.
Lemma div_4096_64 c : c / 4096 / 64 = c / 262144.
Proof. rewrite Z.div_div by lia. done. Qed.

Lemma utf8_next_encode c r : is_scalar c → utf8_next (encode_utf8 c ++ r) = Some (c, r).
Proof.
  intros Hc. unfold encode_utf8.
  pose proof (div64_step c) as [E1 M1]. pose proof (div64_step (c / 64)) as [E2 M2].
  pose proof (div64_step (c / 4096)) as [E3 M3]. rewrite div_64_64 in E2. rewrite div_4096_64 in E3.
  assert (0 <= c) by (destruct Hc; lia).
  destruct (Z.ltb_spec c 128).
  { cbn [app utf8_next]. bool_true. done. }
  destruct (Z.ltb_spec c 2048).
  { cbn [app utf8_next]. unfold is_cont. bool_true. cbn [andb]. do 2 f_equal. lia. }
  destruct (Z.ltb_spec c 65536).
  { cbn [app utf8_next]. unfold is_cont. bool_true. cbn [andb].
    replace ((224 + c / 4096 - 224) * 4096 + (128 + c / 64 mod 64 - 128) * 64 + (128 + c mod 64 - 128)) with c by lia.
    bool_true. by rewrite (proj2 (is_scalarb_spec c)). }
  assert (c <= 1114111) by (destruct Hc; lia).
  cbn [app utf8_next]. unfold is_cont. bool_true. cbn [andb].
  replace ((240 + c / 262144 - 240) * 262144 + (128 + c / 4096 mod 64 - 128) * 4096
           + (128 + c / 64 mod 64 - 128) * 64 + (128 + c mod 64 - 128)) with c by lia.
  bool_true. by rewrite (proj2 (is_scalarb_spec c)).
Qed.

Lemma encode_2 b0 b1 :
  194 <= b0 <= 223 → 128 <= b1 <= 191 → encode_utf8 ((b0 - 192) * 64 + (b1 - 128)) = [b0; b1].
Proof.
  intros. set (c := (b0 - 192) * 64 + (b1 - 128)).
  assert (c / 64 = b0 - 192) by (symmetry; apply (Z.div_unique c 64 _ (b1 - 128)); lia).
  assert (c mod 64 = b1 - 128) by (symmetry; apply (Z.mod_unique c 64 (b0 - 192)); lia).
  unfold encode_utf8. bool_true. f_equal; [lia | f_equal; lia].
Qed.

Lemma encode_3 b0 b1 b2 c :
  c = (b0 - 224) * 4096 + (b1 - 128) * 64 + (b2 - 128) → 2048 <= c →
  224 <= b0 <= 239 → 128 <= b1 <= 191 → 128 <= b2 <= 191 → encode_utf8 c = [b0; b1; b2].
Proof.
  intros Hc Hl. intros.
  assert (E64 : c / 64 = (b0 - 224) * 64 + (b1 - 128)) by (symmetry; apply (Z.div_unique c 64 _ (b2 - 128)); lia).
  assert (c mod 64 = b2 - 128) by (symmetry; apply (Z.mod_unique c 64 ((b0 - 224) * 64 + (b1 - 128))); lia).
  assert (c / 4096 = b0 - 224).
  { rewrite <- div_64_64, E64. symmetry. apply (Z.div_unique _ 64 _ (b1 - 128)); lia. }
  assert (c / 64 mod 64 = b1 - 128).
  { rewrite E64. symmetry. apply (Z.mod_unique _ 64 (b0 - 224)); lia. }
  unfold encode_utf8. bool_true. repeat f_equal; lia.
Qed.

Lemma encode_4 b0 b1 b2 b3 c :
  c = (b0 - 240) * 262144 + (b1 - 128) * 4096 + (b2 - 128) * 64 + (b3 - 128) → 65536 <= c →
  240 <= b0 <= 244 → 128 <= b1 <= 191 → 128 <= b2 <= 191 → 128 <= b3 <= 191 →
  encode_utf8 c = [b0; b1; b2; b3].
Proof.
  intros Hc Hl. intros.
  assert (E64 : c / 64 = (b0 - 240) * 4096 + (b1 - 128) * 64 + (b2 - 128))
    by (symmetry; apply (Z.div_unique c 64 _ (b3 - 128)); lia).
  assert (c mod 64 = b3 - 128)
    by (symmetry; apply (Z.mod_unique c 64 ((b0 - 240) * 4096 + (b1 - 128) * 64 + (b2 - 128))); lia).
  assert (E4096 : c / 4096 = (b0 - 240) * 64 + (b1 - 128)).
  { rewrite <- div_64_64, E64. symmetry. apply (Z.div_unique _ 64 _ (b2 - 128)); lia. }
  assert (c / 64 mod 64 = b2 - 128).
  { rewrite E64. symmetry. apply (Z.mod_unique _ 64 ((b0 - 240) * 64 + (b1 - 128))); lia. }
  assert (c / 262144 = b0 - 240).
  { rewrite <- div_4096_64, E4096. symmetry. apply (Z.div_unique _ 64 _ (b1 - 128)); lia. }
  assert (c / 4096 mod 64 = b1 - 128).
  { rewrite E4096. symmetry. apply (Z.mod_unique _ 64 (b0 - 240)); lia. }
  unfold encode_utf8. bool_true. repeat f_equal; lia.
Qed.

Lemma utf8_next_inv s c r : utf8_next s = Some (c, r) → is_scalar c ∧ s = encode_utf8 c ++ r.
Proof.
  destruct s as [|b0 r0]; [done|]. cbn [utf8_next].
  destruct ((0 <=? b0) && (b0 <? 128))%bool eqn:H0.
  { intros [= <- <-]. to_prop. split; [left; lia|]. unfold encode_utf8. bool_true. done. }
  destruct ((194 <=? b0) && (b0 <=? 223))%bool eqn:H1.
  { destruct r0 as [|b1 r1]; [done|]. case_match eqn:Hc; [|done]. intros [= <- <-]. to_prop.
    rewrite is_cont_spec in *. split; [left; lia|]. by rewrite encode_2 by lia. }
  destruct ((224 <=? b0) && (b0 <=? 239))%bool eqn:H2.
  { destruct r0 as [|b1 [|b2 r2]]; [done..|]. cbv zeta. case_match eqn:Hc; [|done]. intros [= <- <-]. to_prop.
    rewrite is_cont_spec, is_scalarb_spec in *. split; [done|]. by rewrite (encode_3 b0 b1 b2) by lia. }
  destruct ((240 <=? b0) && (b0 <=? 244))%bool eqn:H3; [|done].
  destruct r0 as [|b1 [|b2 [|b3 r3]]]; [done..|]. cbv zeta. case_match eqn:Hc; [|done]. intros [= <- <-]. to_prop.
  rewrite is_cont_spec, is_scalarb_spec in *. split; [done|]. by rewrite (encode_4 b0 b1 b2 b3) by lia.
Qed.

Lemma encode_utf8_nonempty c : encode_utf8 c ≠ [].
Proof. unfold encode_utf8. repeat case_match; done. Qed.

Lemma encode_utf8_length c : (1 <= length (encode_utf8 c) <= 4)%nat.
Proof. unfold encode_utf8. repeat case_match; simpl; lia. Qed.

Lemma encode_utf8_head c b r : is_scalar c → encode_utf8 c = b :: r → is_cont b = false ∧ (b < 128 → c = b ∧ r = []).
Proof.
  intros Hc. pose proof (div64_step c). pose proof (div64_step (c / 64)). pose proof (div64_step (c / 4096)).
  rewrite div_64_64, div_4096_64 in *. assert (0 <= c <= 1114111) by (destruct Hc; lia).
  unfold encode_utf8. intros E. rewrite <- not_true_iff_false, is_cont_spec.
  repeat case_match; to_prop; injection E as <- <-; (split; [lia | intros; first [lia | done]]).
Qed.

Lemma encode_utf8_ascii c : 0 <= c < 128 → encode_utf8 c = [c].
Proof. intros. unfold encode_utf8. bool_true. done. Qed.

Lemma encode_utf8_bytes c : is_scalar c → Forall is_byte (encode_utf8 c).
Proof.
  intros Hc. pose proof (div64_step c). pose proof (div64_step (c / 64)). pose proof (div64_step (c / 4096)).
  rewrite div_64_64, div_4096_64 in *. assert (0 <= c <= 1114111) by (destruct Hc; lia).
  unfold encode_utf8, is_byte. repeat case_match; to_prop; repeat constructor; lia.
Qed.

(** ** Valid texts *)
Lemma from_utf8_go_ok fuel at_ s cs :
  (length s <= fuel)%nat →
  from_utf8_go fuel at_ s = Ok cs ↔ Forall is_scalar cs ∧ s = concat (map encode_utf8 cs).
Proof.
  intros Hf. split.
  - revert at_ s cs Hf. induction fuel as [|fuel IH]; intros at_ s cs Hf H.
    + destruct s; [|simpl in Hf; lia]. injection H as <-. by split.
    + destruct s as [|b s]; [by injection H as <-; split|]. cbn [from_utf8_go] in H.
      destruct (utf8_next (b :: s)) as [[c r]|] eqn:Hn; [|done].
      apply bind_ok_inv in H as (ds & Hd & [= <-]).
      apply utf8_next_inv in Hn as [Hc Hs]. pose proof (encode_utf8_length c).
      assert (Hl : length (b :: s) = (length (encode_utf8 c) + length r)%nat) by by rewrite Hs, length_app.
      apply IH in Hd as [Hall Hr]; [|simpl in *; lia]. split; [by constructor|]. simpl. by rewrite <- Hr.
  - intros [Hall ->]. revert at_ fuel Hf. induction Hall as [|c cs Hc Hall IH]; intros at_ fuel Hf; [by destruct fuel|].
    simpl in Hf |- *. rewrite length_app in Hf. pose proof (encode_utf8_length c).
    destruct (encode_utf8 c ++ concat (map encode_utf8 cs)) as [|b s] eqn:E.
    { apply (f_equal length) in E. rewrite length_app in E. simpl in E. lia. }
    destruct fuel as [|fuel]; [lia|]. cbn [from_utf8_go]. rewrite <- E.
    rewrite utf8_next_encode by done. rewrite IH by lia. done.
Qed.

Lemma Valid_concat s : Valid s ↔ ∃ cs, Forall is_scalar cs ∧ s = concat (map encode_utf8 cs).
Proof.
  split.
  - induction 1 as [|c s Hc _ (cs & Hcs & ->)]; [by exists []|]. exists (c :: cs). by split; [constructor|].
  - intros (cs & Hcs & ->). induction Hcs; [constructor|]. by constructor.
Qed.

Lemma from_utf8_ok s cs : from_utf8 s = Ok cs ↔ Forall is_scalar cs ∧ s = concat (map encode_utf8 cs).
Proof. by apply from_utf8_go_ok. Qed.

Lemma from_utf8_Valid s : is_ok (from_utf8 s) = true ↔ Valid s.
Proof.
  rewrite Valid_concat. split.
  - destruct (from_utf8 s) as [cs|] eqn:E; [|done]. intros _. exists cs. by apply from_utf8_ok.
  - intros (cs & H). by rewrite (proj2 (from_utf8_ok s cs) H).
Qed.

Lemma Valid_app s t : Valid s → Valid t → Valid (s ++ t).
Proof. induction 1; [done|]. intros. rewrite <- app_assoc. constructor; auto. Qed.

(** [String::push] keeps a text a text. *)
Lemma Valid_push s c : Valid s → is_scalar c → Valid (s ++ encode_utf8 c).
Proof.
  intros Hs Hc. apply Valid_app; [done|]. rewrite <- (app_nil_r (encode_utf8 c)).
  constructor; [done | constructor].
Qed.

Lemma Valid_ascii s : Forall (fun b => 0 <= b < 128) s → Valid s.
Proof.
  induction 1 as [|b s Hb _ IH]; [constructor|].
  change (b :: s) with ([b] ++ s). rewrite <- (encode_utf8_ascii b) by done. constructor; [left; lia | done].
Qed.

Lemma Valid_next s : Valid s → s ≠ [] → ∃ c r, utf8_next s = Some (c, r) ∧ is_scalar c ∧ s = encode_utf8 c ++ r ∧ Valid r.
Proof. destruct 1 as [|c r Hc Hr]; [done|]. intros _. exists c, r. split; [by apply utf8_next_encode | done]. Qed.

(** Stepping over an ASCII byte stays on a boundary. *)
Lemma Valid_tail b s : Valid (b :: s) → b < 128 → Valid s ∧ 0 <= b.
Proof.
  intros Hv Hb. inversion Hv as [|c r Hc Hr E].
  destruct (encode_utf8 c) as [|b' r'] eqn:Ec; [by apply encode_utf8_nonempty in Ec|].
  simpl in E. injection E as -> <-. destruct (encode_utf8_head c b r' Hc Ec) as [_ H].
  destruct (H Hb) as [-> ->]. split; [done|]. destruct Hc; lia.
Qed.

Lemma Valid_head b s : Valid (b :: s) → is_cont b = false.
Proof.
  intros Hv. inversion Hv as [|c r Hc Hr E].
  destruct (encode_utf8 c) as [|b' r'] eqn:Ec; [by apply encode_utf8_nonempty in Ec|].
  simpl in E. injection E as -> _. by eapply encode_utf8_head.
Qed.

Lemma Valid_bytes s : Valid s → Forall is_byte s.
Proof. induction 1; [done|]. apply Forall_app. split; [by apply encode_utf8_bytes | done]. Qed.

(** A position whose suffix is a text is a boundary. *)
Lemma str_from_Valid s at_ : (at_ <= length s)%nat → Valid (drop at_ s) → str_from s at_ = Some (drop at_ s).
Proof.
  intros Hat Hv. unfold str_from, is_char_boundary. destruct (s !! at_) as [b|] eqn:Hb.
  - rewrite (drop_S s b at_ Hb) in Hv. rewrite (Valid_head _ _ Hv), orb_true_r. by rewrite (drop_S s b at_ Hb).
  - apply lookup_ge_None in Hb. by rewrite (proj2 (Nat.eqb_eq _ _)) by lia.
Qed.

(** Inside a character every byte continues it. *)
Lemma encode_utf8_tail c i b : is_scalar c → encode_utf8 c !! S i = Some b → is_cont b = true.
Proof.
  unfold is_scalar, encode_utf8. intros Hc.
  repeat case_match; simpl; intros Hi; to_prop.
  all: repeat (destruct i as [|i]; simpl in Hi; [injection Hi as <-; apply is_cont_spec|]); try done.
  all: try (match goal with |- 128 <= 128 + ?x mod 64 <= 191 => pose proof (Z.mod_pos_bound x 64); lia end).
Qed.

(** A text cut before a character is a text. *)
Lemma Valid_cut a b : Valid (a ++ b) → (∀ x, head b = Some x → is_cont x = false) → Valid a.
Proof.
  intros Hv Hb. remember (length a) as n eqn:Hn. revert a Hn Hv.
  induction n as [n IH] using lt_wf_ind. intros a Hn Hv. destruct a as [|x a]; [constructor|].
  destruct (Valid_next ((x :: a) ++ b) Hv) as (c & r & _ & Hc & Hr & Hvr); [done|].
  pose proof (encode_utf8_length c) as Hlen.
  destruct (decide (length (encode_utf8 c) <= length (x :: a))%nat) as [Hle|Hgt].
  - assert (Hsplit : x :: a = encode_utf8 c ++ drop (length (encode_utf8 c)) (x :: a)).
    { rewrite <- (take_drop (length (encode_utf8 c)) (x :: a)) at 1. f_equal.
      apply (f_equal (take (length (encode_utf8 c)))) in Hr. rewrite take_app_le in Hr by done.
      by rewrite take_app_length in Hr. }
    rewrite Hsplit in Hr |- *. rewrite <- app_assoc in Hr. apply app_inv_head in Hr.
    apply Valid_app; [apply Valid_concat; exists [c]; split; [by apply Forall_singleton | simpl; by rewrite app_nil_r]|].
    apply (IH (length (drop (length (encode_utf8 c)) (x :: a)))); [|done|by rewrite Hr].
    rewrite length_drop. simpl in *. lia.
  - exfalso. assert (Hat : encode_utf8 c !! length (x :: a) = head b).
    { assert (Hl : ((x :: a) ++ b) !! length (x :: a) = head b) by (rewrite lookup_app_r, Nat.sub_diag by lia; by destruct b).
      rewrite Hr, lookup_app_l in Hl by lia. done. }
    destruct (lookup_lt_is_Some_2 (encode_utf8 c) (length (x :: a))) as [y Hy]; [lia|].
    rewrite Hy in Hat. symmetry in Hat. apply Hb in Hat. cbn [length] in Hy.
    apply encode_utf8_tail in Hy; [congruence | done].
Qed.

(** ** Trimming *)
Lemma trim_start_nil cs : trim_start cs = [] ↔ Forall (fun c => is_white_space c = true) cs.
Proof.
  induction cs as [|c cs IH]; simpl; [split; [intros _; apply Forall_nil_2 | done]|]. rewrite Forall_cons.
  destruct (is_white_space c); [rewrite IH; naive_solver | split; [done | by intros [? _]]].
Qed.

Lemma trim_start_suffix cs : ∃ pre, cs = pre ++ trim_start cs ∧ Forall (fun c => is_white_space c = true) pre.
Proof.
  induction cs as [|c cs IH]; simpl; [by exists []|]. destruct (is_white_space c) eqn:Hc; [|exists []; by split; [|apply Forall_nil_2]].
  destruct IH as (pre & E & Hp). exists (c :: pre). split; [simpl; by rewrite <- E | by constructor].
Qed.

(** A text trims to nothing when every character of it is white space. *)
Lemma trim_nil s : trim s = [] ↔ Forall (fun c => is_white_space c = true) (chars s).
Proof.
  unfold trim. split.
  - intros E. apply (f_equal (@rev Z)) in E. rewrite rev_involutive in E. apply trim_start_nil in E.
    destruct (trim_start_suffix (chars s)) as (pre & -> & Hp). apply Forall_app. split; [done|].
    apply Forall_rev in E. by rewrite rev_involutive in E.
  - intros Hall. by rewrite (proj2 (trim_start_nil _) Hall).
Qed.
