(* ===== verification/BTree.v ===== *)
(** * BTree: BTreeMap<String, V> and BTreeSet<String>

    An ordered map is the list of its entries in key order, keys compared byte by
    byte as Rust compares [str].  Iteration is the list itself. *)
From S2P Require Import Prelude.

(** [Ord for str] *)
Fixpoint str_cmp (a b : str) : comparison :=
  match a, b with
  | [], [] => Eq
  | [], _ => Lt
  | _, [] => Gt
  | x :: a, y :: b => match x ?= y with Eq => str_cmp a b | c => c end
  end.

Definition str_lt (a b : str) : Prop := str_cmp a b = Lt.

Section BTree.
Context {V : Type}.

(** [BTreeMap::get] *)
Fixpoint bt_get (k : str) (m : list (str * V)) : option V :=
  match m with
  | [] => None
  | (k', v) :: m => if decide (k = k') then Some v else bt_get k m
  end.

Definition bt_contains (k : str) (m : list (str * V)) : bool :=
  match bt_get k m with Some _ => true | None => false end.

(** [BTreeMap::insert] *)
Fixpoint bt_insert (k : str) (v : V) (m : list (str * V)) : list (str * V) :=
  match m with
  | [] => [(k, v)]
  | (k', v') :: m' =>
      match str_cmp k k' with
      | Lt => (k, v) :: m
      | Eq => (k, v) :: m'
      | Gt => (k', v') :: bt_insert k v m'
      end
  end.

(** Keys strictly increasing. *)
Fixpoint bt_sorted (m : list (str * V)) : Prop :=
  match m with
  | [] => True
  | (k, _) :: m => Forall (fun kv => str_lt k kv.1) m ∧ bt_sorted m
  end.
End BTree.

(** ** The order on keys *)
Lemma str_cmp_eq a b : str_cmp a b = Eq ↔ a = b.
Proof.
  revert b. induction a as [|x a IH]; intros [|y b]; simpl; try (split; congruence).
  destruct (Z.compare_spec x y) as [->|?|?].
  - rewrite IH. split; congruence.
  - split; [done|]. intros [= -> _]. lia.
  - split; [done|]. intros [= -> _]. lia.
Qed.

Lemma str_cmp_refl a : str_cmp a a = Eq.
Proof. by apply str_cmp_eq. Qed.

Lemma str_cmp_antisym a b : str_cmp b a = CompOpp (str_cmp a b).
Proof.
  revert b. induction a as [|x a IH]; intros [|y b]; simpl; [done..|].
  rewrite (Z.compare_antisym x y). destruct (x ?= y); simpl; auto.
Qed.

Lemma str_lt_trans a b c : str_lt a b → str_lt b c → str_lt a c.
Proof.
  unfold str_lt. revert b c. induction a as [|x a IH]; intros [|y b] [|z c]; simpl; try done.
  destruct (Z.compare_spec x y) as [->|H1|H1], (Z.compare_spec y z) as [->|H2|H2]; try done.
  - by apply IH.
  - rewrite (proj2 (Z.compare_lt_iff x z)) by lia. done.
  - rewrite (proj2 (Z.compare_lt_iff x z)) by lia. done.
Qed.

Lemma str_lt_irrefl a : ¬ str_lt a a.
Proof. unfold str_lt. by rewrite str_cmp_refl. Qed.

Lemma str_cmp_gt a b : str_cmp a b = Gt → str_lt b a.
Proof. unfold str_lt. rewrite (str_cmp_antisym a b). by intros ->. Qed.

(** ** Maps *)
Section BTreeLemmas.
Context {V : Type}.
Implicit Types m : list (str * V).

Lemma bt_insert_keys k v m kv : kv ∈ bt_insert k v m → kv = (k, v) ∨ kv ∈ m.
Proof.
  induction m as [|[k' v'] m IH]; simpl; [set_solver|].
  destruct (str_cmp k k'); set_solver.
Qed.

Lemma bt_insert_sorted k v m : bt_sorted m → bt_sorted (bt_insert k v m).
Proof.
  induction m as [|[k' v'] m IH]; simpl; [done|]. intros [Hall Hs].
  destruct (str_cmp k k') eqn:Hc; simpl.
  - apply str_cmp_eq in Hc as ->. done.
  - split; [|done]. constructor; [done|]. eapply Forall_impl; [exact Hall|]. intros kv. by apply str_lt_trans.
  - split; [|by apply IH]. apply Forall_forall. intros kv [->|Hin]%bt_insert_keys; [by apply str_cmp_gt|].
    by eapply Forall_forall in Hall.
Qed.

Lemma bt_get_insert k k' v m :
  bt_get k (bt_insert k' v m) = if decide (k = k') then Some v else bt_get k m.
Proof.
  induction m as [|[k0 v0] m IH]; simpl; [done|].
  destruct (str_cmp k' k0) eqn:Hc; simpl.
  - apply str_cmp_eq in Hc as ->. by repeat case_decide.
  - done.
  - rewrite IH. destruct (decide (k = k0)) as [->|]; [|done].
    rewrite decide_False; [done|]. intros ->. by rewrite str_cmp_refl in Hc.
Qed.

Lemma bt_get_elem k v m : bt_get k m = Some v → (k, v) ∈ m.
Proof. induction m as [|[k' v'] m IH]; simpl; [done|]. case_decide; [|set_solver]. intros. simplify_eq. set_solver. Qed.

Lemma bt_get_None k m : bt_get k m = None ↔ k ∉ m.*1.
Proof.
  induction m as [|[k' v'] m IH]; simpl; [set_solver|]. case_decide; [set_solver|]. rewrite IH. set_solver.
Qed.

Lemma bt_sorted_NoDup m : bt_sorted m → NoDup m.*1.
Proof.
  induction m as [|[k v] m IH]; simpl; [constructor|]. intros [Hall Hs]. constructor; [|auto].
  intros ([k' v'] & -> & Hin)%list_elem_of_fmap. eapply Forall_forall in Hall; [|exact Hin].
  by apply str_lt_irrefl in Hall.
Qed.

Lemma bt_elem_get k v m : bt_sorted m → (k, v) ∈ m → bt_get k m = Some v.
Proof.
  induction m as [|[k' v'] m IH]; simpl; [set_solver|]. intros [Hall Hs] [[= -> ->]|Hin]%elem_of_cons.
  - by rewrite decide_True.
  - rewrite decide_False; [auto|]. intros ->. eapply Forall_forall in Hall; [|exact Hin]. by apply str_lt_irrefl in Hall.
Qed.

(** An ordered map is determined by its lookups. *)
Lemma bt_ext m1 m2 : bt_sorted m1 → bt_sorted m2 → (∀ k, bt_get k m1 = bt_get k m2) → m1 = m2.
Proof.
  revert m2. induction m1 as [|[k1 v1] m1 IH]; intros [|[k2 v2] m2]; simpl; [done| | |].
  - intros _ _ H. specialize (H k2). by rewrite decide_True in H.
  - intros _ _ H. specialize (H k1). by rewrite decide_True in H.
  - intros [H1 S1] [H2 S2] H.
    assert (Hlt : ∀ k m, Forall (fun kv => str_lt k kv.1) m → bt_get (V:=V) k m = None).
    { intros k m Hm. apply bt_get_None. intros ([k' v'] & -> & Hin)%list_elem_of_fmap.
      eapply Forall_forall in Hm; [|exact Hin]. by apply str_lt_irrefl in Hm. }
    assert (Hlt' : ∀ k k' m, str_lt k k' → Forall (fun kv => str_lt k' kv.1) m → bt_get (V:=V) k m = None).
    { intros k k' m Hk Hm. apply Hlt. eapply Forall_impl; [exact Hm|]. intros kv. by apply str_lt_trans. }
    destruct (str_cmp k1 k2) eqn:Hc.
    + apply str_cmp_eq in Hc as ->. pose proof (H k2) as Hk. rewrite !decide_True in Hk by done.
      injection Hk as ->. f_equal. apply IH; [done..|]. intros k. specialize (H k).
      case_decide; [|done]. subst. by rewrite !Hlt.
    + specialize (H k1). rewrite decide_True, decide_False in H by (try done; intros ->; by apply str_lt_irrefl in Hc).
      by rewrite (Hlt' k1 k2) in H.
    + apply str_cmp_gt in Hc. specialize (H k2).
      rewrite (decide_True (P := k2 = k2)), decide_False in H by (try done; intros ->; by apply str_lt_irrefl in Hc).
      by rewrite (Hlt' k2 k1) in H.
Qed.

Lemma bt_insert_length k v m : bt_get k m = None → length (bt_insert k v m) = S (length m).
Proof.
  induction m as [|[k' v'] m IH]; simpl; [done|]. case_decide; [done|]. intros Hg.
  destruct (str_cmp k k') eqn:Hc; simpl; [by apply str_cmp_eq in Hc | done | by rewrite IH].
Qed.
End BTreeLemmas.
