(* ===== verification/Json.v ===== *)
(** * Json: exact JSON documents (protocol/engine/src/json.rs)

    A document is an arena: every value is an entry, containers name their
    children by index.  The parser is the code's explicit stack machine, one
    [step] per turn of its loop; values are pairs of a document and an index.
    Proved: the parser terminates and never panics, the arena it builds is well
    formed and within its limits, and the iterative equality decides equality of
    the trees the arenas stand for. *)
From S2P Require Import Prelude Number Utf8 BTree.

Record Limits := { limit_bytes : Z; limit_nodes : Z; limit_depth : Z }.

Inductive DecodeError :=
| InvalidUtf8 (byte : nat)
| Syntax (byte : nat) (expected : string)
| DuplicateKey (byte : nat) (key : str)
| ResourceLimit (resource : string) (limit : Z).

Inductive Node :=
| NullNode
| BoolNode (b : bool)
| NumberNode (n : JsonNumber)
| StringNode (s : str)
| ArrayNode (elements : list nat)
| ObjectNode (members : list (str * nat)).

Record Entry := { node_of : Node; span_start : nat; span_end : nat }.

Record Document := { source : str; entries : list Entry; root_id : nat }.

(** [Value<'a>]: an entry of a document. *)
Record Value := { document : Document; id : nat }.

Inductive Kind := KNull | KBoolean | KNumber | KString | KArray | KObject.

Global Instance Kind_eq_dec : EqDecision Kind.
Proof. solve_decision. Defined.
Global Instance DecodeError_eq_dec : EqDecision DecodeError.
Proof. solve_decision. Defined.

(** ** Reading a document

    Indexing the arena out of range panics; ids are only made by the parser, and
    [decode_arena] below shows that every id of a decoded document is in range. *)
Definition root (d : Document) : Value := {| document := d; id := root_id d |}.
Definition node_count (d : Document) : nat := length (entries d).
Definition entry (v : Value) : Entry :=
  match entries (document v) !! id v with
  | Some e => e
  | None => {| node_of := NullNode; span_start := 0; span_end := 0 |}
  end.
Definition node (v : Value) : Node := node_of (entry v).
Definition byte_range (v : Value) : nat * nat := (span_start (entry v), span_end (entry v)).
Definition raw (v : Value) : str := slice (span_start (entry v)) (span_end (entry v)) (source (document v)).
Definition child (v : Value) (i : nat) : Value := {| document := document v; id := i |}.
Definition kind (v : Value) : Kind :=
  match node v with
  | NullNode => KNull
  | BoolNode _ => KBoolean
  | NumberNode _ => KNumber
  | StringNode _ => KString
  | ArrayNode _ => KArray
  | ObjectNode _ => KObject
  end.
Definition as_object (v : Value) : option Value := if decide (kind v = KObject) then Some v else None.
Definition is_null (v : Value) : bool := bool_decide (kind v = KNull).
Definition is_array (v : Value) : bool := bool_decide (kind v = KArray).
Definition is_string (v : Value) : bool := bool_decide (kind v = KString).
Definition is_boolean (v : Value) : bool := bool_decide (kind v = KBoolean).
Definition as_bool (v : Value) : option bool := match node v with BoolNode b => Some b | _ => None end.
Definition elements (v : Value) : option (list Value) :=
  match node v with ArrayNode ids => Some (map (child v) ids) | _ => None end.
Definition members (v : Value) : option (list (str * Value)) :=
  match node v with ObjectNode ms => Some (map (fun '(k, i) => (k, child v i)) ms) | _ => None end.
Definition get (v : Value) (key : str) : option Value :=
  match node v with ObjectNode ms => child v <$> bt_get key ms | _ => None end.
Definition as_str (v : Value) : option str := match node v with StringNode s => Some s | _ => None end.
Definition as_number (v : Value) : option JsonNumber := match node v with NumberNode n => Some n | _ => None end.

(** ** Equality of values

    [while let Some((left, right)) = pending.pop()]: the head of the list is the
    top of the stack, so what [extend] pushes last is compared first. *)
Definition eq_nodes (left_ right_ : Value) : option (list (Value * Value)) :=
  match node left_, node right_ with
  | NullNode, NullNode => Some []
  | BoolNode a, BoolNode b => if Bool.eqb a b then Some [] else None
  | NumberNode a, NumberNode b => if num_eqb a b then Some [] else None
  | StringNode a, StringNode b => if bool_decide (a = b) then Some [] else None
  | ArrayNode a, ArrayNode b =>
      if (length a =? length b)%nat
      then Some (zip_with (fun x y => (child left_ x, child right_ y)) a b) else None
  | ObjectNode a, ObjectNode b =>
      if (length a =? length b)%nat && bool_decide (a.*1 = b.*1)
      then Some (zip_with (fun x y => (child left_ x.2, child right_ y.2)) a b) else None
  | _, _ => None
  end.

Fixpoint value_eq_loop (fuel : nat) (pending : list (Value * Value)) : option bool :=
  match pending with
  | [] => Some true
  | (left_, right_) :: pending =>
      match fuel with
      | O => None
      | S fuel =>
          match eq_nodes left_ right_ with
          | Some pushed => value_eq_loop fuel (rev pushed ++ pending)
          | None => Some false
          end
      end
  end.

Definition value_eq (fuel : nat) (a b : Value) : option bool := value_eq_loop fuel [(a, b)].

(** ** The parser *)
Inductive Position := First | Next | After.

Inductive Frame :=
| FrameArray (start : nat) (elements : list nat) (position : Position)
| FrameObject (start : nat) (members : list (str * nat)) (position : Position) (key : option str).

(** The head of [frames] is the innermost open container. *)
Record Parser := {
  p_source : str;
  p_at : nat;
  p_entries : list Entry;
  p_frames : list Frame;
  p_root : option nat;
  p_limits : Limits;
}.

Definition set_at (p : Parser) (at_ : nat) : Parser :=
  {| p_source := p_source p; p_at := at_; p_entries := p_entries p; p_frames := p_frames p;
     p_root := p_root p; p_limits := p_limits p |}.
Definition set_frames (p : Parser) (fs : list Frame) : Parser :=
  {| p_source := p_source p; p_at := p_at p; p_entries := p_entries p; p_frames := fs;
     p_root := p_root p; p_limits := p_limits p |}.

Abbreviation parsed A := (result (fault DecodeError) A).

Definition fail_at {A} (at_ : nat) (expected : string) : parsed A := Err (Refused (Syntax at_ expected)).

Definition is_whitespace (b : Z) : bool := (b =? 32) || (b =? 9) || (b =? 13) || (b =? 10).

Definition whitespace (p : Parser) : Parser := set_at p (skip_while is_whitespace (p_source p) (p_at p)).

Definition accept (p : Parser) (n : Node) (start : nat) : parsed Parser :=
  if Z.of_nat (length (p_entries p)) =? limit_nodes (p_limits p) then
    Err (Refused (ResourceLimit "json_nodes" (limit_nodes (p_limits p))))
  else
    let i := length (p_entries p) in
    let entries := p_entries p ++ [{| node_of := n; span_start := start; span_end := p_at p |}] in
    let placed frames root :=
      {| p_source := p_source p; p_at := p_at p; p_entries := entries; p_frames := frames;
         p_root := root; p_limits := p_limits p |} in
    match p_frames p with
    | FrameArray s elements _ :: fs => Ok (placed (FrameArray s (elements ++ [i]) After :: fs) (p_root p))
    | FrameObject s members _ key :: fs =>
        key ← expect key "object value follows its key";
        Ok (placed (FrameObject s (bt_insert key i members) After None :: fs) (p_root p))
    | [] =>
        match p_root p with
        | None => Ok (placed [] (Some i))
        | Some _ => Err (Panic "assert root.is_none()")
        end
    end.

Definition close (p : Parser) : parsed Parser :=
  let p := set_at p (S (p_at p)) in
  match p_frames p with
  | FrameArray start elements _ :: fs => accept (set_frames p fs) (ArrayNode elements) start
  | FrameObject start members _ _ :: fs => accept (set_frames p fs) (ObjectNode members) start
  | [] => Err (Panic "closing container")
  end.

Definition hex_digit (b : Z) : option Z :=
  if (48 <=? b) && (b <=? 57) then Some (b - 48)
  else if (97 <=? b) && (b <=? 102) then Some (b - 97 + 10)
  else if (65 <=? b) && (b <=? 70) then Some (b - 65 + 10)
  else None.

(** [hex_unit]: four digits, so the [u16] never wraps. *)
Fixpoint hex_digits (n : nat) (source : str) (at_ : nat) (acc : Z) : parsed (Z * nat) :=
  match n with
  | O => Ok (acc, at_)
  | S n =>
      match source !! at_ ≫= hex_digit with
      | Some digit => hex_digits n source (S at_) (acc * 16 + digit)
      | None => fail_at at_ "four hexadecimal escape digits"
      end
  end.
Definition hex_unit (source : str) (at_ : nat) : parsed (Z * nat) := hex_digits 4 source at_ 0.

(** The [\u] escape whose digits start at [at_]: its scalar and where it ends. *)
Definition unicode_escape (source : str) (at_ : nat) : parsed (Z * nat) :=
  '(first, at_) ← hex_unit source at_;
  '(scalar, at_) ←
    (if (55296 <=? first) && (first <=? 56319) then
       rest ← expect (str_from source at_) "slice at low surrogate";
       if negb (starts_with (lit "\u") rest) then fail_at at_ "low-surrogate escape after high surrogate"
       else
         '(second, at_) ← hex_unit source (at_ + 2);
         if negb ((56320 <=? second) && (second <=? 57343))
         then fail_at at_ "low-surrogate escape after high surrogate"
         else Ok (65536 + Z.shiftl (first - 55296) 10 + second - 56320, at_)
     else if (56320 <=? first) && (first <=? 57343) then fail_at at_ "paired Unicode surrogate"
     else Ok (first, at_));
  c ← expect (from_u32 scalar) "validated escaped scalar";
  Ok (c, at_).

(** The escape whose letter is at [at_]. *)
Definition escape (source : str) (at_ : nat) : parsed (Z * nat) :=
  match source !! at_ with
  | Some 34 => Ok (34, S at_)
  | Some 92 => Ok (92, S at_)
  | Some 47 => Ok (47, S at_)
  | Some 98 => Ok (8, S at_)
  | Some 102 => Ok (12, S at_)
  | Some 110 => Ok (10, S at_)
  | Some 114 => Ok (13, S at_)
  | Some 116 => Ok (9, S at_)
  | Some 117 => unicode_escape source (S at_)
  | _ => fail_at at_ "JSON string escape"
  end.

(** The loop of [string], after the opening quote. *)
Fixpoint string_loop (fuel : nat) (source : str) (at_ : nat) (decoded : str) : parsed (str * nat) :=
  match fuel with
  | O => Err OutOfFuel
  | S fuel =>
      match source !! at_ with
      | None => fail_at at_ "closing string quote"
      | Some b =>
          if b =? 34 then Ok (decoded, S at_)
          else if b =? 92 then
            '(scalar, at_) ← escape source (S at_);
            string_loop fuel source at_ (decoded ++ encode_utf8 scalar)
          else if (0 <=? b) && (b <=? 31) then fail_at at_ "escaped string control character"
          else
            rest ← expect (str_from source at_) "slice at scalar";
            '(scalar, _) ← expect (utf8_next rest) "validated UTF-8 scalar";
            string_loop fuel source (at_ + len_utf8 scalar) (decoded ++ encode_utf8 scalar)
      end
  end.
Definition parse_string (source : str) (at_ : nat) : parsed (str * nat) :=
  string_loop (S (length source)) source (S at_) [].

Definition is_number_byte (b : Z) : bool :=
  (b =? 45) || (b =? 43) || (b =? 46) || (b =? 101) || (b =? 69) || is_ascii_digit b.

Section Decode.
Context `{BigIntOps}.

(** A value starting at the current byte. *)
Definition value_step (p : Parser) (next : option Z) : parsed Parser :=
  let start := p_at p in
  let open_container (f : Frame) : parsed Parser :=
    if Z.of_nat (length (p_frames p)) =? limit_depth (p_limits p) then
      Err (Refused (ResourceLimit "json_depth" (limit_depth (p_limits p))))
    else Ok (set_at (set_frames p (f :: p_frames p)) (S (p_at p))) in
  let literal (text : string) (n : Node) : parsed Parser :=
    rest ← expect (str_from (p_source p) (p_at p)) "slice at literal";
    if negb (starts_with (lit text) rest) then fail_at (p_at p) "JSON literal"
    else accept (set_at p (p_at p + length (lit text))) n start in
  match next with
  | None => fail_at (p_at p) "JSON value"
  | Some b =>
      if b =? 91 then open_container (FrameArray start [] First)
      else if b =? 123 then open_container (FrameObject start [] First None)
      else if b =? 34 then
        '(s, at_) ← parse_string (p_source p) (p_at p);
        accept (set_at p at_) (StringNode s) start
      else if b =? 110 then literal "null"%string NullNode
      else if b =? 116 then literal "true"%string (BoolNode true)
      else if b =? 102 then literal "false"%string (BoolNode false)
      else if (b =? 45) || is_ascii_digit b then
        let at_ := skip_while is_number_byte (p_source p) (p_at p) in
        n ← map_err (fun e => Refused (Syntax (start + byte e) "JSON number"))
              (parse (slice start at_ (p_source p)));
        accept (set_at p at_) (NumberNode n) start
      else fail_at (p_at p) "JSON value"
  end.

(** A member name, after [{] or a comma. *)
Definition member_step (p : Parser) (next : option Z) : parsed Parser :=
  if bool_decide (next ≠ Some 34) then fail_at (p_at p) "object member string"
  else
    let byte := p_at p in
    '(decoded, at_) ← parse_string (p_source p) (p_at p);
    match p_frames p with
    | FrameObject s members pos _ :: fs =>
        if bt_contains decoded members then Err (Refused (DuplicateKey byte decoded))
        else
          let p := whitespace (set_at (set_frames p (FrameObject s members pos (Some decoded) :: fs)) at_) in
          if bool_decide (p_source p !! p_at p ≠ Some 58) then fail_at (p_at p) "colon after object member"
          else Ok (set_at p (S (p_at p)))
    | _ => Err (Panic "unreachable")
    end.

(** One turn of the loop of [parse]. *)
Definition step (p : Parser) : parsed (Parser + Document) :=
  let p := whitespace p in
  let next := p_source p !! p_at p in
  match p_frames p, p_root p with
  | [], Some r =>
      match next with
      | Some _ => fail_at (p_at p) "end of JSON input"
      | None => Ok (inr {| source := p_source p; entries := p_entries p; root_id := r |})
      end
  | _, _ =>
      let continue (r : parsed Parser) : parsed (Parser + Document) := inl <$> r in
      match p_frames p with
      | FrameArray _ _ First :: _ =>
          continue (if bool_decide (next = Some 93) then close p else value_step p next)
      | FrameArray s es After :: fs =>
          if bool_decide (next = Some 93) then continue (close p)
          else if bool_decide (next = Some 44) then
            Ok (inl (set_at (set_frames p (FrameArray s es Next :: fs)) (S (p_at p))))
          else fail_at (p_at p) "comma or closing array bracket"
      | FrameObject s ms After key :: fs =>
          if bool_decide (next = Some 125) then continue (close p)
          else if bool_decide (next = Some 44) then
            Ok (inl (set_at (set_frames p (FrameObject s ms Next key :: fs)) (S (p_at p))))
          else fail_at (p_at p) "comma or closing object brace"
      | FrameObject _ _ First None :: _ =>
          continue (if bool_decide (next = Some 125) then close p else member_step p next)
      | FrameObject _ _ Next None :: _ => continue (member_step p next)
      | _ => continue (value_step p next)
      end
  end.

Fixpoint run (fuel : nat) (p : Parser) : parsed Document :=
  match fuel with
  | O => Err OutOfFuel
  | S fuel =>
      r ← step p;
      match r with
      | inl p => run fuel p
      | inr d => Ok d
      end
  end.

Definition start_parser (source : str) (limits : Limits) : Parser :=
  {| p_source := source; p_at := 0; p_entries := []; p_frames := []; p_root := None; p_limits := limits |}.

Definition decode (bytes : str) (limits : Limits) : parsed Document :=
  if limit_bytes limits <? Z.of_nat (length bytes) then
    Err (Refused (ResourceLimit "json_bytes" (limit_bytes limits)))
  else
    match from_utf8 bytes with
    | Err at_ => Err (Refused (InvalidUtf8 at_))
    | Ok _ => run (S (length bytes)) (start_parser bytes limits)
    end.
End Decode.

(** ** Scanning within a text *)
Lemma text_step src at_ b :
  src !! at_ = Some b → b < 128 → Valid (drop at_ src) →
  (S at_ <= length src)%nat ∧ Valid (drop (S at_) src).
Proof.
  intros Hb Hlt Hv. pose proof (lookup_lt_Some _ _ _ Hb). split; [lia|].
  rewrite (drop_S src b at_ Hb) in Hv. by apply Valid_tail in Hv as [? _].
Qed.

Lemma text_skip p src at_ :
  (∀ b, p b = true → b < 128) → (at_ <= length src)%nat → Valid (drop at_ src) →
  Valid (drop (skip_while p src at_) src).
Proof.
  intros Hp Hat Hv. remember (length src - at_)%nat as n eqn:Hn. revert at_ Hat Hv Hn.
  induction n as [|n IH]; intros at_ Hat Hv Hn; rewrite skip_while_unroll.
  - by rewrite lookup_ge_None_2 by lia.
  - destruct (src !! at_) as [b|] eqn:Hb; [|done]. destruct (p b) eqn:Hpb; [|done].
    destruct (text_step src at_ b Hb (Hp b Hpb) Hv). apply IH; [done..|lia].
Qed.

Lemma hex_digit_bounds b d : hex_digit b = Some d → 0 <= d < 16 ∧ b < 128.
Proof. unfold hex_digit. repeat case_match; intros; to_prop; simplify_eq; lia. Qed.

Lemma hex_digits_safe n src at_ acc :
  (at_ <= length src)%nat → Valid (drop at_ src) →
  safe (hex_digits n src at_ acc) (λ '(v, e),
    e = (at_ + n)%nat ∧ (e <= length src)%nat ∧ Valid (drop e src) ∧
    acc * 16 ^ Z.of_nat n <= v < (acc + 1) * 16 ^ Z.of_nat n).
Proof.
  revert at_ acc. induction n as [|n IH]; intros at_ acc Hat Hv.
  - simpl. rewrite Nat.add_0_r. change (16 ^ Z.of_nat 0) with 1. repeat split; [done..|lia|lia].
  - cbn [hex_digits]. destruct (src !! at_) as [b|] eqn:Hb; [|done]. simpl.
    destruct (hex_digit b) as [d|] eqn:Hd; [|done]. apply hex_digit_bounds in Hd as [Hd Hlt].
    destruct (text_step src at_ b Hb Hlt Hv) as [H1 H2].
    eapply safe_mono; [by apply IH|]. intros [v e] _ (-> & H3 & H4 & H5).
    rewrite Nat2Z.inj_succ, Z.pow_succ_r by lia. pose proof (Z.pow_pos_nonneg 16 (Z.of_nat n)).
    split; [lia|]. split; [done|]. split; [done|]. nia.
Qed.

Lemma hex_unit_safe src at_ :
  (at_ <= length src)%nat → Valid (drop at_ src) →
  safe (hex_unit src at_) (λ '(v, e),
    e = (at_ + 4)%nat ∧ (e <= length src)%nat ∧ Valid (drop e src) ∧ 0 <= v < 65536).
Proof.
  intros. eapply safe_mono; [by apply hex_digits_safe|]. intros [v e] _ (? & ? & ? & ?).
  change (16 ^ Z.of_nat 4) with 65536 in *. repeat split; (done || lia).
Qed.

Lemma from_u32_scalar c : is_scalar c → from_u32 c = Some c.
Proof. intros. unfold from_u32. by rewrite (proj2 (is_scalarb_spec c)). Qed.

Lemma surrogate_pair_scalar first second :
  55296 <= first <= 56319 → 56320 <= second <= 57343 →
  65536 + Z.shiftl (first - 55296) 10 + second - 56320 = 65536 + (first - 55296) * 1024 + (second - 56320) ∧
  is_scalar (65536 + Z.shiftl (first - 55296) 10 + second - 56320).
Proof.
  intros. rewrite Z.shiftl_mul_pow2 by lia. change (2 ^ 10) with 1024. split; [lia|]. right. lia.
Qed.

Lemma unicode_escape_safe src at_ :
  (at_ <= length src)%nat → Valid (drop at_ src) →
  safe (unicode_escape src at_) (λ '(c, e),
    (at_ < e <= length src)%nat ∧ Valid (drop e src) ∧ is_scalar c).
Proof.
  intros Hat Hv. unfold unicode_escape. eapply safe_bind; [by apply hex_unit_safe|].
  intros [first e] _ (-> & He & Hve & Hf). cbn beta iota.
  eapply (safe_bind _ _ (λ '(c, e), (at_ < e <= length src)%nat ∧ Valid (drop e src) ∧ is_scalar c)).
  2: { intros [c e] _ (? & ? & Hc). cbn beta iota. by rewrite from_u32_scalar. }
  destruct ((55296 <=? first) && (first <=? 56319))%bool eqn:Hhigh.
  - rewrite str_from_Valid by done. cbn [expect]. rewrite bind_ok.
    destruct (starts_with (lit "\u") (drop (at_ + 4) src)) eqn:Hu; [|done]. cbn [negb].
    apply starts_with_spec in Hu as [r Hr].
    assert (H1 : src !! (at_ + 4)%nat = Some 92) by by rewrite <- (Nat.add_0_r (at_ + 4)), <- lookup_drop, Hr.
    destruct (text_step _ _ _ H1 ltac:(done) Hve) as [L1 V1].
    assert (H2 : src !! S (at_ + 4)%nat = Some 117).
    { replace (S (at_ + 4)) with (at_ + 4 + 1)%nat by lia. by rewrite <- lookup_drop, Hr. }
    destruct (text_step _ _ _ H2 ltac:(done) V1) as [L2 V2].
    replace (at_ + 4 + 2)%nat with (S (S (at_ + 4))) by lia.
    eapply safe_bind; [by apply hex_unit_safe|]. intros [second e] _ (-> & He2 & Hve2 & Hs). cbn beta iota.
    destruct ((56320 <=? second) && (second <=? 57343))%bool eqn:Hlow; [|done]. to_prop.
    split; [lia|]. split; [done|]. by apply surrogate_pair_scalar.
  - destruct ((56320 <=? first) && (first <=? 57343))%bool eqn:Hlow; [done|].
    split; [lia|]. split; [done|]. apply andb_false_iff in Hhigh, Hlow. unfold is_scalar.
    rewrite !Z.leb_gt in *. lia.
Qed.

Lemma escape_safe src at_ :
  (at_ <= length src)%nat → Valid (drop at_ src) →
  safe (escape src at_) (λ '(c, e), (at_ < e <= length src)%nat ∧ Valid (drop e src) ∧ is_scalar c).
Proof.
  intros Hat Hv. unfold escape. destruct (src !! at_) as [b|] eqn:Hb; [|done].
  assert (Hsimple : ∀ c, 0 <= c < 128 → b < 128 →
    safe (E:=DecodeError) (Ok (c, S at_)) (λ '(c, e), (at_ < e <= length src)%nat ∧ Valid (drop e src) ∧ is_scalar c)).
  { intros c Hc Hlt. destruct (text_step src at_ b Hb Hlt Hv). split; [lia|]. split; [done | left; lia]. }
  repeat first [done | apply Hsimple; lia | case_match].
  destruct (text_step src at_ 117 Hb ltac:(done) Hv).
  eapply safe_mono; [by apply unicode_escape_safe|]. intros [c e] _ (? & ? & ?). split; [lia | done].
Qed.

Lemma string_loop_safe fuel src at_ decoded :
  (length src - at_ < fuel)%nat → (at_ <= length src)%nat → Valid (drop at_ src) → Valid decoded →
  safe (string_loop fuel src at_ decoded) (λ '(s, e),
    (at_ < e <= length src)%nat ∧ Valid (drop e src) ∧ Valid s ∧ src !! (e - 1)%nat = Some 34).
Proof.
  revert at_ decoded. induction fuel as [|fuel IH]; intros at_ decoded Hf Hat Hv Hd; [lia|].
  cbn [string_loop]. destruct (src !! at_) as [b|] eqn:Hb; [|done].
  pose proof (lookup_lt_Some _ _ _ Hb) as Hlt.
  destruct (Z.eqb_spec b 34) as [->|Hq].
  { destruct (text_step src at_ 34 Hb ltac:(done) Hv). repeat split; [lia|lia|done|done|].
    by replace (S at_ - 1)%nat with at_ by lia. }
  destruct (Z.eqb_spec b 92) as [->|Hs].
  { destruct (text_step src at_ 92 Hb ltac:(done) Hv) as [H1 H2].
    eapply safe_bind; [by apply escape_safe|]. intros [c e] _ (He & Hve & Hc). cbn beta iota.
    eapply safe_mono; [apply IH; [lia | lia | done | by apply Valid_push]|].
    intros [s e'] _ (? & ? & ? & ?). split; [lia | done]. }
  destruct ((0 <=? b) && (b <=? 31))%bool; [done|].
  rewrite str_from_Valid by (done || lia). cbn [expect]. rewrite bind_ok.
  destruct (Valid_next (drop at_ src) Hv) as (c & r & Hn & Hc & Hr & Hvr).
  { intros E. apply (f_equal length) in E. rewrite length_drop in E. simpl in E. lia. }
  rewrite Hn. cbn [expect]. rewrite bind_ok. pose proof (encode_utf8_length c) as Hl.
  assert (Hle : length (drop at_ src) = (len_utf8 c + length r)%nat) by by rewrite Hr, length_app.
  rewrite length_drop in Hle. unfold len_utf8 in *.
  assert (Hdrop : drop (at_ + length (encode_utf8 c)) src = r) by by rewrite <- drop_drop, Hr, drop_app_length.
  eapply safe_mono; [apply IH; [lia | lia | by rewrite Hdrop | by apply Valid_push]|].
  intros [s e'] _ (? & ? & ? & ?). split; [lia | done].
Qed.

Lemma parse_string_safe src at_ :
  src !! at_ = Some 34 → Valid (drop at_ src) →
  safe (parse_string src at_) (λ '(s, e),
    (at_ + 2 <= e <= length src)%nat ∧ Valid (drop e src) ∧ Valid s ∧ src !! (e - 1)%nat = Some 34).
Proof.
  intros Hb Hv. destruct (text_step src at_ 34 Hb ltac:(done) Hv) as [H1 H2].
  eapply safe_mono; [apply string_loop_safe; [lia | done | done | constructor]|].
  intros [s e] _ (? & ? & ? & ?). split; [lia | done].
Qed.

(** ** The invariant of the parser *)
Section Invariant.
Context `{BigIntOps}.

(** What the arena promises of its entry number [i]: its span is a nonempty
    range of the source, its children were made before it, strings are texts
    and numbers are their own spelling, parsed. *)
Definition entry_ok (src : str) (i : nat) (e : Entry) : Prop :=
  (span_start e < span_end e <= length src)%nat ∧
  match node_of e with
  | NumberNode n => token n = slice (span_start e) (span_end e) src ∧ parse (token n) = Ok n
  | StringNode s =>
      Valid s ∧ (span_start e + 2 <= span_end e)%nat ∧
      src !! span_start e = Some 34 ∧ src !! (span_end e - 1)%nat = Some 34
  | ArrayNode ids => Forall (fun c => c < i)%nat ids
  | ObjectNode ms => bt_sorted ms ∧ Forall (fun kv => Valid kv.1 ∧ kv.2 < i)%nat ms
  | _ => True
  end.

Definition arena_ok (src : str) (es : list Entry) : Prop :=
  ∀ i e, es !! i = Some e → entry_ok src i e.

Definition frame_ok (n at_ : nat) (f : Frame) : Prop :=
  match f with
  | FrameArray s ids _ => (s < at_)%nat ∧ Forall (fun c => c < n)%nat ids
  | FrameObject s ms pos key =>
      (s < at_)%nat ∧ bt_sorted ms ∧ Forall (fun kv => Valid kv.1 ∧ kv.2 < n)%nat ms ∧
      (pos = After → key = None) ∧ (∀ k, key = Some k → Valid k)
  end.

(** A container that has a place for the value being parsed. *)
Definition waiting (f : Frame) : Prop :=
  match f with FrameArray _ _ _ => True | FrameObject _ _ _ key => is_Some key end.

Record Core (p : Parser) : Prop := {
  core_at : (p_at p <= length (p_source p))%nat;
  core_text : Valid (drop (p_at p) (p_source p));
  core_arena : arena_ok (p_source p) (p_entries p);
  core_frames : Forall (frame_ok (length (p_entries p)) (p_at p)) (p_frames p);
  core_root : p_frames p ≠ [] → p_root p = None;
  core_root_id : ∀ r, p_root p = Some r → (r < length (p_entries p))%nat;
  core_nodes : Z.of_nat (length (p_entries p)) <= limit_nodes (p_limits p);
  core_depth : Z.of_nat (length (p_frames p)) <= limit_depth (p_limits p);
}.

Record Inv (p : Parser) : Prop := {
  inv_core : Core p;
  inv_waiting : Forall waiting (tail (p_frames p));
}.

(** A step keeps the source and the limits and moves forward. *)
Definition advances (p p' : Parser) : Prop :=
  p_source p' = p_source p ∧ p_limits p' = p_limits p ∧ (p_at p < p_at p')%nat.

Lemma frame_ok_mono n n' at_ at' f :
  (n <= n')%nat → (at_ <= at')%nat → frame_ok n at_ f → frame_ok n' at' f.
Proof.
  intros Hn Hat. destruct f as [s ids pos|s ms pos key]; simpl.
  - intros [? Hids]. split; [lia|]. eapply Forall_impl; [exact Hids|]. simpl. lia.
  - intros (? & ? & Hms & ? & ?). split; [lia|]. split; [done|]. split; [|done].
    eapply Forall_impl; [exact Hms|]. simpl. intros kv [? ?]. split; [done | lia].
Qed.

Lemma frames_ok_mono n n' at_ at' fs :
  (n <= n')%nat → (at_ <= at')%nat → Forall (frame_ok n at_) fs → Forall (frame_ok n' at') fs.
Proof. intros Hn Hat Hfs. eapply Forall_impl; [exact Hfs|]. intros f. by apply frame_ok_mono. Qed.

(** Moving the position over text keeps everything else. *)
Lemma Core_set_at p at_ :
  Core p → (p_at p <= at_ <= length (p_source p))%nat → Valid (drop at_ (p_source p)) → Core (set_at p at_).
Proof.
  intros [] Hat Hv. split; simpl; try done; [lia|]. eapply frames_ok_mono; [done | | done]. lia.
Qed.

Lemma Core_set_frames p fs :
  Core p → Forall (frame_ok (length (p_entries p)) (p_at p)) fs →
  p_root p = None → Z.of_nat (length fs) <= limit_depth (p_limits p) → Core (set_frames p fs).
Proof. intros [] Hfs Hr Hd. by split. Qed.

Lemma arena_ok_push src es e : arena_ok src es → entry_ok src (length es) e → arena_ok src (es ++ [e]).
Proof.
  intros Hes He i e' [Hi|[Hlen Hi]]%lookup_app_Some; [by apply Hes|].
  apply list_lookup_singleton_Some in Hi as [Hi <-]. by replace i with (length es) by lia.
Qed.

Lemma Forall_lt_push n (ids : list nat) : Forall (fun c => c < n)%nat ids → Forall (fun c => c < S n)%nat (ids ++ [n]).
Proof. intros Hids. apply Forall_app. split; [eapply Forall_impl; [exact Hids|]; simpl; lia | repeat constructor]. Qed.

Lemma accept_safe p n start :
  Core p → Forall waiting (p_frames p) → (p_frames p = [] → p_root p = None) →
  entry_ok (p_source p) (length (p_entries p)) {| node_of := n; span_start := start; span_end := p_at p |} →
  safe (accept p n start) (λ p',
    Inv p' ∧ p_source p' = p_source p ∧ p_limits p' = p_limits p ∧ p_at p' = p_at p).
Proof.
  intros [Hat Htext Harena Hframes Hroot Hrid Hnodes Hdepth] Hw Hr He. unfold accept.
  destruct (Z.eqb_spec (Z.of_nat (length (p_entries p))) (limit_nodes (p_limits p))) as [|Hne]; [done|].
  pose proof (arena_ok_push _ _ _ Harena He) as Harena'.
  assert (Hlen : length (p_entries p ++ [{| node_of := n; span_start := start; span_end := p_at p |}])
                 = S (length (p_entries p))) by (rewrite length_app; simpl; lia).
  destruct (p_frames p) as [|f fs] eqn:Hfs.
  - rewrite (Hr eq_refl). split; [|done]. split; [|by constructor]. split; simpl; rewrite ?Hlen; first [done | lia | by constructor | idtac].
    intros r [= <-]. lia.
  - assert (Hnone : p_root p = None) by by apply Hroot.
    apply Forall_cons in Hframes as [Hf Hframes]. apply Forall_cons in Hw as [Hwf Hw].
    destruct f as [s ids pos|s ms pos key]; simpl in Hf, Hwf.
    + split; [|done]. split; [|done]. split; simpl; rewrite ?Hlen; first [done | lia | by rewrite Hnone | idtac].
      constructor; [split; [apply Hf | by apply Forall_lt_push, Hf]|]. eapply frames_ok_mono; [| |done]; lia.
    + destruct Hwf as [k ->]. simpl. destruct Hf as (Hs & Hsorted & Hms & _ & Hk).
      split; [|done]. split; [|done]. split; simpl; rewrite ?Hlen; first [done | lia | by rewrite Hnone | idtac].
      constructor; [|eapply frames_ok_mono; [| |done]; lia].
      split; [done|]. split; [by apply bt_insert_sorted|]. split; [|done].
      apply Forall_forall. intros kv [->|Hin]%bt_insert_keys; simpl; [split; [by apply Hk | lia]|].
      eapply Forall_forall in Hms as [? ?]; [|exact Hin]. split; [done | lia].
Qed.

Lemma close_safe p f fs b :
  Inv p → p_frames p = f :: fs → p_source p !! p_at p = Some b → b < 128 →
  safe (close p) (λ p', Inv p' ∧ advances p p').
Proof.
  intros [Hcore Hw] Hfs Hb Hlt. pose proof Hcore as [Hat Htext Harena Hframes Hroot Hrid Hnodes Hdepth].
  destruct (text_step _ _ _ Hb Hlt Htext) as [Hat' Htext'].
  assert (Hnone : p_root p = None) by (apply Hroot; by rewrite Hfs).
  rewrite Hfs in *. simpl in Hw, Hdepth. apply Forall_cons in Hframes as [Hf Hframes].
  assert (Hcore' : Core (set_at (set_frames p fs) (S (p_at p)))).
  { apply Core_set_at; simpl; [|lia|done]. apply Core_set_frames; [done..|lia]. }
  unfold close. cbn [p_frames set_at]. rewrite Hfs.
  destruct f as [s ids pos|s ms pos key]; simpl in Hf;
    (eapply safe_mono; [apply accept_safe; [exact Hcore' | done | done |]
                       | intros p' _ (? & ? & ? & ?); split; [done|]; split; [done|]; split; [done|]; simpl in *; lia]).
  - destruct Hf as [Hs Hids]. split; simpl; [lia | done].
  - destruct Hf as (Hs & ? & ? & _). split; simpl; [lia | done].
Qed.
End Invariant.

Section Safety.
Context `{BigIntOps}.

Lemma parse_token tok n : parse tok = Ok n → token n = tok.
Proof.
  unfold parse. intros (ie & _ & ([fs fe] & _ & ([x e] & _ & Hn)%bind_ok_inv)%bind_ok_inv)%bind_ok_inv.
  case_match; [|done]. by injection Hn as <-.
Qed.

Lemma is_number_byte_ascii b : is_number_byte b = true → b < 128.
Proof.
  unfold is_number_byte. rewrite !orb_true_iff, !Z.eqb_eq, is_ascii_digit_spec. lia.
Qed.

Lemma is_whitespace_ascii b : is_whitespace b = true → b < 128.
Proof. unfold is_whitespace. rewrite !orb_true_iff, !Z.eqb_eq. lia. Qed.

Definition Ready (p : Parser) : Prop :=
  Core p ∧ Forall waiting (p_frames p) ∧ (p_frames p = [] → p_root p = None).

(** Accepting a leaf that ends at [at_]. *)
Lemma accept_leaf_safe p at_ n :
  Ready p → (p_at p < at_ <= length (p_source p))%nat → Valid (drop at_ (p_source p)) →
  entry_ok (p_source p) (length (p_entries p)) {| node_of := n; span_start := p_at p; span_end := at_ |} →
  safe (accept (set_at p at_) n (p_at p)) (λ p', Inv p' ∧ advances p p').
Proof.
  intros (Hcore & Hw & Hr) Hat Hv He.
  eapply safe_mono; [apply accept_safe; [|done..]; apply Core_set_at; [done|lia|done]|].
  intros p' _ (? & ? & ? & Hat'). split; [done|]. split; [done|]. split; [done|]. simpl in Hat'. lia.
Qed.

Lemma open_safe p f :
  Ready p → waiting f ∨ True → frame_ok (length (p_entries p)) (S (p_at p)) f →
  p_source p !! p_at p = Some 91 ∨ p_source p !! p_at p = Some 123 →
  safe (if Z.of_nat (length (p_frames p)) =? limit_depth (p_limits p) then
          Err (Refused (ResourceLimit "json_depth" (limit_depth (p_limits p))))
        else Ok (set_at (set_frames p (f :: p_frames p)) (S (p_at p))))
       (λ p', (Core p' ∧ Forall waiting (tail (p_frames p'))) ∧ advances p p').
Proof.
  intros (Hcore & Hw & Hr) _ Hf Hb.
  destruct (Z.eqb_spec (Z.of_nat (length (p_frames p))) (limit_depth (p_limits p))) as [|Hd]; [done|].
  pose proof Hcore as [Hat Htext Harena Hframes Hroot Hrid Hnodes Hdepth].
  assert (Hstep : (S (p_at p) <= length (p_source p))%nat ∧ Valid (drop (S (p_at p)) (p_source p)))
    by (destruct Hb as [Hb|Hb]; eapply text_step; (done || exact Hb)).
  destruct Hstep as [Hat' Hv'].
  split; [split; [|done]|split; [done|split; [done|simpl; lia]]].
  split; simpl; try done.
  - constructor; [done|]. eapply frames_ok_mono; [| |done]; lia.
  - intros _. destruct (p_frames p); [by apply Hr | by apply Hroot].
  - lia.
Qed.

Lemma literal_safe p (text : string) n :
  Ready p → (0 < length (lit text))%nat → forallb (fun b => b <? 128) (lit text) = true →
  (∀ i s e, (s < e <= length (p_source p))%nat → entry_ok (p_source p) i {| node_of := n; span_start := s; span_end := e |}) →
  safe (rest ← expect (str_from (p_source p) (p_at p)) "slice at literal";
        if negb (starts_with (lit text) rest) then fail_at (p_at p) "JSON literal"
        else accept (set_at p (p_at p + length (lit text))) n (p_at p))
    (λ p', Inv p' ∧ advances p p').
Proof.
  intros Hready Hlen Hascii He. pose proof Hready as ([Hat Htext _ _ _ _ _ _] & _ & _).
  rewrite str_from_Valid by done. cbn [expect]. rewrite bind_ok.
  destruct (starts_with (lit text) (drop (p_at p) (p_source p))) eqn:Hs; [|done]. cbn [negb].
  apply starts_with_spec in Hs as [r Hr].
  assert (Hle : (p_at p + length (lit text) <= length (p_source p))%nat).
  { apply (f_equal length) in Hr. rewrite length_drop, length_app in Hr. lia. }
  apply accept_leaf_safe; [done | lia | | apply He; lia].
  rewrite <- drop_drop, Hr, drop_app_length. rewrite Hr in Htext. clear -Htext Hascii.
  induction (lit text) as [|b s IH]; [done|]. simpl in Hascii, Htext. to_prop.
  apply IH; [done|]. by apply Valid_tail in Htext as [? _].
Qed.

Lemma value_step_safe p :
  Ready p → safe (value_step p (p_source p !! p_at p)) (λ p', Inv p' ∧ advances p p').
Proof.
  intros Hready. pose proof Hready as (Hcore & Hw & Hr).
  pose proof Hcore as [Hat Htext Harena Hframes Hroot Hrid Hnodes Hdepth].
  unfold value_step. destruct (p_source p !! p_at p) as [b|] eqn:Hb; [|done].
  pose proof (lookup_lt_Some _ _ _ Hb) as Hlt.
  destruct (Z.eqb_spec b 91) as [->|_].
  { eapply safe_mono; [apply open_safe; [done | by left; simpl | | by left]|].
    - simpl. split; [lia | constructor].
    - intros p' _ [[? ?] ?]. by split. }
  destruct (Z.eqb_spec b 123) as [->|_].
  { eapply safe_mono; [apply open_safe; [done | by right | | by right]|].
    - simpl. split; [lia|]. repeat split; done || constructor.
    - intros p' _ [[? ?] ?]. by split. }
  destruct (Z.eqb_spec b 34) as [->|_].
  { eapply safe_bind; [by apply parse_string_safe|].
    intros [s e] _ (He & Hve & Hs & Hq). cbn beta iota.
    apply accept_leaf_safe; [done | lia | done|]. split; simpl; [lia|]. split; [done|]. split; [lia | done]. }
  destruct (Z.eqb_spec b 110) as [->|_].
  { apply literal_safe; [done | simpl; lia | done |]. by split. }
  destruct (Z.eqb_spec b 116) as [->|_].
  { apply literal_safe; [done | simpl; lia | done |]. by split. }
  destruct (Z.eqb_spec b 102) as [->|_].
  { apply literal_safe; [done | simpl; lia | done |]. by split. }
  destruct ((b =? 45) || is_ascii_digit b)%bool eqn:Hnum; [|done].
  set (e := skip_while is_number_byte (p_source p) (p_at p)).
  assert (He : (p_at p < e <= length (p_source p))%nat).
  { assert (is_number_byte b = true) as Hnb.
    { unfold is_number_byte. apply orb_true_iff in Hnum as [-> | ->]; by rewrite ?orb_true_r. }
    unfold e. split; [|by apply skip_while_le]. rewrite skip_while_unroll, Hb, Hnb.
    pose proof (skip_while_ge is_number_byte (p_source p) (S (p_at p))). lia. }
  destruct (parse (slice (p_at p) e (p_source p))) as [n|err] eqn:Hn; [|done]. simpl.
  apply accept_leaf_safe; [done | done | |].
  - apply text_skip; [apply is_number_byte_ascii | done | done].
  - split; simpl; [done|]. rewrite (parse_token _ _ Hn). by split.
Qed.

Lemma member_step_safe p s ms pos fs :
  Inv p → p_frames p = FrameObject s ms pos None :: fs → pos ≠ After →
  safe (member_step p (p_source p !! p_at p)) (λ p', Inv p' ∧ advances p p').
Proof.
  intros [Hcore Hw] Hfs Hpos. unfold member_step. case_bool_decide as Hq; [done|].
  pose proof Hcore as [Hat Htext Harena Hframes Hroot Hrid Hnodes Hdepth].
  eapply safe_bind; [by apply parse_string_safe|]. intros [k e] _ (He & Hve & Hk & Hqe). cbn beta iota.
  rewrite Hfs in *. destruct (bt_contains k ms); [done|]. cbv zeta. unfold whitespace. simpl.
  set (e' := skip_while is_whitespace (p_source p) e).
  assert (He' : (e <= e' <= length (p_source p))%nat)
    by (split; [apply skip_while_ge | apply skip_while_le; lia]).
  assert (Hv' : Valid (drop e' (p_source p))) by (apply text_skip; [apply is_whitespace_ascii|lia|done]).
  case_bool_decide as Hc; [done|].
  destruct (text_step _ _ _ Hc ltac:(done) Hv') as [Hat'' Hv''].
  split; [|split; [done|split; [done|simpl; lia]]].
  apply Forall_cons in Hframes as [Hf Hframes].
  split; simpl; [|done]. split; simpl; try done.
  - constructor; [|eapply frames_ok_mono; [| |done]; lia].
    destruct Hf as (? & ? & ? & _). split; [lia|]. split; [done|]. split; [done|]. split; [done|].
    by intros k' [= <-].
  - intros _. by apply Hroot.
Qed.

Lemma comma_safe p f f' fs :
  Inv p → p_frames p = f :: fs → p_source p !! p_at p = Some 44 →
  (∀ n at_, frame_ok n at_ f → frame_ok n at_ f') →
  safe (E:=DecodeError) (Ok (inl (B:=Document) (set_at (set_frames p (f' :: fs)) (S (p_at p)))))
    (λ r, match r with inl p' => Inv p' ∧ advances p p' | inr _ => False end).
Proof.
  intros [Hcore Hw] Hfs Hb Hf.
  pose proof Hcore as [Hat Htext Harena Hframes Hroot Hrid Hnodes Hdepth].
  destruct (text_step _ _ _ Hb ltac:(done) Htext) as [Hat' Hv'].
  rewrite Hfs in *. apply Forall_cons in Hframes as [Hf0 Hframes].
  split; [|split; [done|split; [done|simpl; lia]]].
  split; simpl; [|done]. split; simpl; try done.
  - constructor; [|eapply frames_ok_mono; [| |done]; lia].
    eapply frame_ok_mono; [done| |by apply Hf]. lia.
  - intros _. by apply Hroot.
Qed.

Definition doc_of (p : Parser) (d : Document) : Prop :=
  source d = p_source p ∧ arena_ok (source d) (entries d) ∧ (root_id d < node_count d)%nat ∧
  Z.of_nat (node_count d) <= limit_nodes (p_limits p).

Lemma whitespace_inv p : Inv p → Inv (whitespace p).
Proof.
  intros [Hcore Hw]. pose proof Hcore as [Hat Htext _ _ _ _ _ _]. split; [|done]. apply Core_set_at; [done| |].
  - split; [apply skip_while_ge | by apply skip_while_le].
  - apply text_skip; [apply is_whitespace_ascii | done | done].
Qed.

Lemma step_safe p :
  Inv p →
  safe (step p) (λ r, match r with inl p' => Inv p' ∧ advances p p' | inr d => doc_of p d end).
Proof.
  intros Hinv0. pose proof (whitespace_inv p Hinv0) as Hinv.
  assert (Hadv : ∀ p', advances (whitespace p) p' → advances p p').
  { intros p' (? & ? & Hlt). split; [done|]. split; [done|]. simpl in Hlt.
    pose proof (skip_while_ge is_whitespace (p_source p) (p_at p)). lia. }
  unfold step. cbv zeta. set (q := whitespace p) in *.
  assert (Hcont : ∀ r : parsed Parser, safe r (λ p', Inv p' ∧ advances q p') →
    safe (inl (B:=Document) <$> r) (λ r, match r with inl p' => Inv p' ∧ advances p p' | inr d => doc_of p d end)).
  { intros r Hs. apply safe_fmap. eapply safe_mono; [exact Hs|]. intros p' _ [? ?]. split; [done | by apply Hadv]. }
  assert (Hcomma : ∀ r : parsed (Parser + Document), safe r (λ r, match r with inl p' => Inv p' ∧ advances q p' | inr _ => False end) →
    safe (E:=DecodeError) r (λ r, match r with inl p' => Inv p' ∧ advances p p' | inr d => doc_of p d end)).
  { intros r Hs. eapply safe_mono; [exact Hs|]. intros [p'|d] _; [|done]. intros [? ?]. split; [done | by apply Hadv]. }
  pose proof Hinv as [Hcore Hw]. pose proof Hcore as [Hat Htext Harena Hframes Hroot Hrid Hnodes Hdepth].
  destruct (p_frames q) as [|f fs] eqn:Hfs.
  { destruct (p_root q) as [r|] eqn:Hr.
    - destruct (p_source q !! p_at q); [done|]. split; [done|]. split; [done|]. split; [by apply Hrid | done].
    - apply Hcont, value_step_safe. split; [done|]. rewrite Hfs. split; [constructor | done]. }
  assert (Hready : waiting f → Ready q).
  { intros Hf. split; [done|]. rewrite Hfs. split; [by constructor | done]. }
  apply Forall_cons in Hframes as [Hf _]. clear Hrid Hat Htext Harena Hroot Hnodes Hdepth Hcore Hw.
  destruct f as [s es [| |]|s ms pos key].
  - apply Hcont. case_bool_decide as Hb; [by eapply close_safe|]. by apply value_step_safe, Hready.
  - by apply Hcont, value_step_safe, Hready.
  - case_bool_decide as Hb; [apply Hcont; by eapply close_safe|]. case_bool_decide as Hc; [|done].
    apply Hcomma. by eapply comma_safe.
  - destruct key as [k|], pos.
    + apply Hcont, value_step_safe, Hready. by eexists.
    + apply Hcont, value_step_safe, Hready. by eexists.
    + destruct Hf as (_ & _ & _ & Hk & _). by specialize (Hk eq_refl).
    + apply Hcont. case_bool_decide as Hb; [by eapply close_safe | by eapply member_step_safe].
    + apply Hcont. by eapply member_step_safe.
    + case_bool_decide as Hb; [apply Hcont; by eapply close_safe|]. case_bool_decide as Hc; [|done].
      apply Hcomma. eapply comma_safe; [done..|]. intros n at_ (? & ? & ? & ? & ?). repeat split; done.
Qed.

Lemma run_safe fuel p :
  Inv p → (length (p_source p) - p_at p < fuel)%nat → safe (run fuel p) (doc_of p).
Proof.
  revert p. induction fuel as [|fuel IH]; intros p Hinv Hf; [lia|]. cbn [run].
  eapply safe_bind; [by apply step_safe|]. intros [p'|d] _; [|done].
  intros [Hinv' (Hs & Hl & Hat)].
  assert ((p_at p' <= length (p_source p'))%nat) by apply Hinv'. rewrite Hs in *.
  eapply safe_mono; [apply IH; [done | rewrite Hs; lia]|].
  intros d _ (? & ? & ? & ?). rewrite Hs, Hl in *. by split.
Qed.
End Safety.

(** ** The decoder *)
Section Decoder.
Context `{BigIntOps}.

Lemma start_inv source limits :
  Valid source → 0 <= limit_nodes limits → 0 <= limit_depth limits → Inv (start_parser source limits).
Proof.
  intros. split; [|constructor]. split; simpl; try done; try lia; by constructor.
Qed.

Lemma decode_doc bytes limits :
  0 <= limit_nodes limits → 0 <= limit_depth limits →
  safe (decode bytes limits) (λ d,
    Z.of_nat (length bytes) <= limit_bytes limits ∧ Valid bytes ∧ source d = bytes ∧
    arena_ok (source d) (entries d) ∧ (root_id d < node_count d)%nat ∧
    Z.of_nat (node_count d) <= limit_nodes limits).
Proof.
  intros Hn Hd. unfold decode. destruct (Z.ltb_spec (limit_bytes limits) (Z.of_nat (length bytes))); [done|].
  destruct (from_utf8 bytes) as [u|at_] eqn:Hu; [|done].
  assert (Hv : Valid bytes) by (apply (proj1 (from_utf8_Valid bytes)); by rewrite Hu).
  eapply safe_mono; [apply run_safe; [by apply start_inv | simpl; lia]|].
  intros d _ (Hs & Ha & Hr & Hc). simpl in Hs, Hc. rewrite Hs in *. by split_and!.
Qed.
End Decoder.

(** ** Nesting

    [nested es n i]: the value at [i] opens at most [n] containers inside one
    another. *)
Fixpoint nested (es : list Entry) (n i : nat) : Prop :=
  match es !! i with
  | None => False
  | Some e =>
      match node_of e, n with
      | ArrayNode _, O | ObjectNode _, O => False
      | ArrayNode ids, S n => Forall (nested es n) ids
      | ObjectNode ms, S n => Forall (nested es n) ms.*2
      | _, _ => True
      end
  end.

Section Depth.
Context `{BigIntOps} (limits : Limits) (Hlimit : 0 <= limit_depth limits).

Lemma nested_push es e n i : nested es n i → nested (es ++ [e]) n i.
Proof.
  revert i. induction n as [|n IH]; intros i; cbn [nested]; destruct (es !! i) as [x|] eqn:Hi; try done;
    rewrite (lookup_app_l_Some _ _ _ _ Hi); destruct (node_of x); try done; intros Hids; (eapply Forall_impl; [exact Hids|exact IH]).
Qed.

Definition frame_ids (f : Frame) : list nat := match f with FrameArray _ ids _ => ids | FrameObject _ ms _ _ => ms.*2 end.

(** Under [limit], what an open container holds has room below it. *)
Fixpoint room (es : list Entry) (limit : nat) (fs : list Frame) : Prop :=
  match fs with
  | [] => True
  | f :: fs => (length fs < limit)%nat ∧ Forall (nested es (limit - S (length fs))) (frame_ids f) ∧ room es limit fs
  end.
Definition levels : nat := Z.to_nat (limit_depth limits).
Record Shallow (p : Parser) : Prop := {
  sh_limits : p_limits p = limits;
  sh_room : room (p_entries p) levels (p_frames p);
  sh_root : ∀ r, p_root p = Some r → nested (p_entries p) levels r;
}.

Lemma room_push es e limit fs : room es limit fs → room (es ++ [e]) limit fs.
Proof.
  induction fs as [|f fs IH]; [done|]. intros (Hl & Hf & Hfs). split; [done|]. split; [|by apply IH].
  eapply Forall_impl; [exact Hf|]. intros i. apply nested_push.
Qed.
Lemma insert_ids key i (ms : list (str * nat)) (P : nat → Prop) : Forall P ms.*2 → P i → Forall P (bt_insert key i ms).*2.
Proof.
  intros Hms Hi. apply Forall_fmap, Forall_forall. intros kv [->|Hin]%bt_insert_keys; [done|].
  rewrite Forall_fmap, Forall_forall in Hms. by apply Hms.
Qed.

Lemma accept_shallow p n start p' :
  Shallow p → (∀ e, node_of e = n → nested (p_entries p ++ [e]) (levels - length (p_frames p)) (length (p_entries p))) →
  accept p n start = Ok p' → Shallow p'.
Proof.
  intros [Hl Hroom Hroot] Hn. unfold accept. destruct (_ =? _); [done|]. set (e := {| node_of := n; span_start := start; span_end := p_at p |}).
  specialize (Hn e eq_refl). apply (room_push _ e) in Hroom.
  assert (∀ r, p_root p = Some r → nested (p_entries p ++ [e]) levels r) as Hroot' by (intros r Hr; by apply nested_push, Hroot).
  destruct (p_frames p) as [|[s ids pos|s ms pos key] fs]; cbn [length] in Hn.
  - destruct (p_root p); [done|]. intros [= <-]. split; [done|done|]. intros r [= <-]. by rewrite Nat.sub_0_r in Hn.
  - intros [= <-]. destruct Hroom as (? & Hids & Hfs). split; [done| |exact Hroot']. split; [done|]. split; [|exact Hfs]. apply Forall_app. split; [exact Hids|].
    by apply Forall_singleton.
  - destruct key as [key|]; [|done]. cbn [expect mbind result_bind]. intros [= <-]. destruct Hroom as (? & Hids & Hfs).
    split; [done| |exact Hroot']. split; [done|]. split; [|exact Hfs]. by apply insert_ids.
Qed.

Lemma leaf_nested es e n : match node_of e with ArrayNode _ | ObjectNode _ => False | _ => True end → nested (es ++ [e]) n (length es).
Proof. intros Hleaf. destruct n; cbn [nested]; rewrite list_lookup_middle by done; by destruct (node_of e). Qed.

Lemma close_shallow p p' : Shallow p → close p = Ok p' → Shallow p'.
Proof.
  intros [Hl Hroom Hroot]. unfold close. cbn [p_frames set_at].
  destruct (p_frames p) as [|f fs] eqn:Hfs; [done|]. destruct Hroom as (Hlt & Hids & Hroom).
  assert (Shallow (set_frames (set_at p (S (p_at p))) fs)) as Hs by by split.
  assert (levels - length fs = S (levels - S (length fs)))%nat as Hdepth by lia.
  destruct f as [s ids pos|s ms pos key]; intros Hc; (eapply (accept_shallow _ _ _ _ Hs); [|exact Hc]); intros e He; cbn [p_entries p_frames set_frames set_at];
    rewrite Hdepth; cbn [nested]; rewrite list_lookup_middle, He by done;
    (eapply Forall_impl; [exact Hids|]); intros i; apply nested_push.
Qed.

Lemma value_shallow p next p' : Shallow p → value_step p next = Ok p' → Shallow p'.
Proof.
  intros Hs. pose proof Hs as [Hl Hroom Hroot]. unfold value_step.
  assert (∀ at_ n start p1, accept (set_at p at_) n start = Ok p1 → match n with ArrayNode _ | ObjectNode _ => False | _ => True end → Shallow p1) as Hleaf.
  { intros at_ n start p1 Hp Hn. eapply (accept_shallow (set_at p at_)); [by split| |exact Hp]. intros e <-. by apply leaf_nested. }
  assert (∀ f p1, frame_ids f = [] → (if Z.of_nat (length (p_frames p)) =? limit_depth (p_limits p) then
      Err (Refused (ResourceLimit "json_depth" (limit_depth (p_limits p)))) else Ok (set_at (set_frames p (f :: p_frames p)) (S (p_at p)))) = Ok p1 → Shallow p1) as Hopen.
  { intros f p1 Hf. rewrite Hl. destruct (Z.eqb_spec (Z.of_nat (length (p_frames p))) (limit_depth limits)) as [|Hne]; [done|]. intros [= <-]. split; [done| |done].
    cbn [p_frames set_at set_frames p_entries room]. rewrite Hf. split; [|by split; [constructor|]].
    unfold levels in *. destruct (p_frames p) as [|g fs]; [cbn [length] in *; lia|]. destruct Hroom as (? & _ & _). cbn [length] in *. lia. }
  assert (∀ (text : string) n p1, (rest ← expect (str_from (p_source p) (p_at p)) "slice at literal";
      if negb (starts_with (lit text) rest) then fail_at (p_at p) "JSON literal" else accept (set_at p (p_at p + length (lit text))) n (p_at p)) = Ok p1 →
      match n with ArrayNode _ | ObjectNode _ => False | _ => True end → Shallow p1) as Hword.
  { intros text n p1 (rest & _ & Hp)%bind_ok_inv Hn. destruct (negb _); [done|]. by apply Hleaf in Hp. }
  destruct next as [b|]; [|done]. cbv zeta.
  destruct (b =? 91); [by apply Hopen|]. destruct (b =? 123); [by apply Hopen|].
  destruct (b =? 34); [intros ([? ?] & _ & Hp)%bind_ok_inv; by apply Hleaf in Hp|].
  destruct (b =? 110); [intros Hp; by apply Hword in Hp|]. destruct (b =? 116); [intros Hp; by apply Hword in Hp|]. destruct (b =? 102); [intros Hp; by apply Hword in Hp|].
  destruct (_ || _); [|done]. intros (? & _ & Hp)%bind_ok_inv. by apply Hleaf in Hp.
Qed.

Lemma refill_shallow p f f' fs at_ : Shallow p → p_frames p = f :: fs → frame_ids f' = frame_ids f → Shallow (set_at (set_frames p (f' :: fs)) at_).
Proof. intros [Hl Hroom Hroot] Hfs Hf. split; [done| |done]. cbn. rewrite Hf. by rewrite Hfs in Hroom. Qed.

Lemma member_shallow p next p' : Shallow p → member_step p next = Ok p' → Shallow p'.
Proof.
  intros Hs. unfold member_step. case_bool_decide; [done|]. intros ([k at_] & _ & Hp)%bind_ok_inv.
  destruct (p_frames p) as [|[s ids pos|s ms pos key] fs] eqn:Hfs; try done. destruct (bt_contains _ _); [done|]. cbv zeta in Hp.
  case_bool_decide; [done|]. injection Hp as <-. unfold whitespace. by apply (refill_shallow p (FrameObject s ms pos key)).
Qed.

Lemma step_shallow p r : Shallow p → step p = Ok r →
  match r with inl p' => Shallow p' | inr d => nested (entries d) levels (root_id d) end.
Proof.
  intros Hs0. assert (Shallow (whitespace p)) as Hs by (destruct Hs0; by split). unfold step. cbv zeta. set (q := whitespace p) in *.
  assert (∀ (m : parsed Parser) r, (∀ p', m = Ok p' → Shallow p') → inl (B:=Document) <$> m = Ok r →
    match r with inl p' => Shallow p' | inr d => nested (entries d) levels (root_id d) end) as Hgo.
  { intros m r' Hm Hr. destruct m as [p'|]; [|done]. injection Hr as <-. by apply Hm. }
  destruct (p_frames q) as [|f fs] eqn:Hfs.
  { destruct (p_root q) as [i|] eqn:Hi; [|by apply Hgo; intros; eapply value_shallow].
    destruct (p_source q !! p_at q); [done|]. intros [= <-]. by apply Hs. }
  destruct f as [s ids []|s ms [] [key|]]; repeat case_bool_decide; try done;
    try (apply Hgo; intros; first [by eapply close_shallow|by eapply value_shallow|by eapply member_shallow]);
    intros Hr; injection Hr as <-; by eapply refill_shallow.
Qed.

Lemma run_shallow fuel p d : Shallow p → run fuel p = Ok d → nested (entries d) levels (root_id d).
Proof.
  revert p. induction fuel as [|fuel IH]; intros p Hs; [done|]. cbn [run]. intros (next & Hstep & Hr)%bind_ok_inv.
  apply (step_shallow p next Hs) in Hstep. destruct next as [p'|d']; [by eapply IH|]. by injection Hr as <-.
Qed.

Lemma decode_nested bytes d : decode bytes limits = Ok d → nested (entries d) levels (root_id d).
Proof.
  unfold decode. destruct (_ <? _); [done|]. destruct (from_utf8 bytes); [|done]. apply run_shallow. by split.
Qed.
End Depth.

(** ** Properties *)

(** C15: [decode] terminates within one loop turn per byte and never panics: it
    refuses the bytes or returns a document that carries exactly these bytes
    (valid UTF-8, within the byte limit) and an arena within the node limit in
    which every span is a nonempty range of the text, every child id precedes its
    parent, strings are texts between quotes, numbers are their own spelling
    parsed, members are in strict key order, the root is in range, and no more
    containers than the depth limit are open inside one another. *)
Theorem decode_safe `{BigIntOps} (bytes : str) (limits : Limits) :
  0 <= limit_nodes limits → 0 <= limit_depth limits →
  safe (decode bytes limits) (λ d,
    Z.of_nat (length bytes) <= limit_bytes limits ∧ Valid bytes ∧ source d = bytes ∧
    arena_ok (source d) (entries d) ∧ (root_id d < node_count d)%nat ∧
    Z.of_nat (node_count d) <= limit_nodes limits ∧
    nested (entries d) (Z.to_nat (limit_depth limits)) (root_id d)).
Proof.
  intros Hn Hd. eapply safe_mono; [by apply decode_doc|]. intros d Hrun (? & ? & ? & ? & ? & ?). split_and!; try done.
  by eapply decode_nested.
Qed.

(** A concrete text, its limits and its document. *)
Definition small_limits : Limits := {| limit_bytes := 4096; limit_nodes := 64; limit_depth := 16 |}.
Definition decoded (text : string) : Document :=
  match @decode decimal_bigint (quoted text) small_limits with
  | Ok d => d
  | Err _ => {| source := []; entries := []; root_id := 0 |}
  end.

Lemma decode_safe_witness :
  let d := decoded " {'a' : [1, 2.50e1], 'b': null}" in
  @decode decimal_bigint (source d) small_limits = Ok d ∧ node_count d = 5%nat ∧
  arena_ok (H := decimal_bigint) (source d) (entries d) ∧ (root_id d < node_count d)%nat ∧ nested (entries d) 16 (root_id d) ∧
  @decode decimal_bigint (source d) {| limit_bytes := 4096; limit_nodes := 64; limit_depth := 1 |} = Err (Refused (ResourceLimit "json_depth" 1)).
Proof.
  intros d. assert (E : @decode decimal_bigint (source d) small_limits = Ok d) by by vm_compute.
  split; [done|]. split; [by vm_compute|].
  pose proof (@decode_safe decimal_bigint (source d) small_limits ltac:(done) ltac:(done)) as S.
  rewrite E in S. cbn [safe] in S. destruct S as (_ & _ & _ & Harena & Hroot & _ & Hdepth).
  split; [done|]. split; [done|]. split; [done|]. by vm_compute.
Defined.
