(* ===== verification/JsonTree.v ===== *)
(** * JsonTree: the trees that JSON values stand for (protocol/engine/src/json.rs)

    [PartialEq] and [Hash] for [Value] walk two arenas with explicit stacks.  A
    value stands for a finite tree; both walks terminate, equality decides
    equality of the trees with numbers compared as numbers, and equal values
    feed a hasher the same words. *)
From S2P Require Import Prelude Number Utf8 BTree Json.

(** ** The tree a value stands for *)
Inductive json :=
| JNull
| JBool (b : bool)
| JNumber (n : JsonNumber)
| JString (s : str)
| JArray (l : list json)
| JObject (m : list (str * json)).

(** Equality of trees, numbers compared as numbers. *)
Fixpoint json_eqb (a b : json) : bool :=
  let fix all2 (l k : list json) : bool :=
    match l, k with
    | [], [] => true
    | x :: l, y :: k => json_eqb x y && all2 l k
    | _, _ => false
    end in
  let fix all2m (l k : list (str * json)) : bool :=
    match l, k with
    | [], [] => true
    | (i, x) :: l, (j, y) :: k => bool_decide (i = j) && json_eqb x y && all2m l k
    | _, _ => false
    end in
  match a, b with
  | JNull, JNull => true
  | JBool a, JBool b => Bool.eqb a b
  | JNumber a, JNumber b => num_eqb a b
  | JString a, JString b => bool_decide (a = b)
  | JArray a, JArray b => all2 a b
  | JObject a, JObject b => all2m a b
  | _, _ => false
  end.

Fixpoint json_size (t : json) : nat :=
  match t with
  | JArray l => S (sum_list (map json_size l))
  | JObject m => S (sum_list (map (fun kv => json_size kv.2) m))
  | _ => 1
  end.

(** Children precede their parents, so [i + 1] levels reach the leaves. *)
Fixpoint unfold_at (fuel : nat) (d : Document) (i : nat) : json :=
  match fuel with
  | O => JNull
  | S fuel =>
      match node {| document := d; id := i |} with
      | NullNode => JNull
      | BoolNode b => JBool b
      | NumberNode n => JNumber n
      | StringNode s => JString s
      | ArrayNode ids => JArray (map (unfold_at fuel d) ids)
      | ObjectNode ms => JObject (map (fun '(k, c) => (k, unfold_at fuel d c)) ms)
      end
  end.

Definition tree (v : Value) : json := unfold_at (S (id v)) (document v) (id v).

(** ** Hashing

    What [Hash for Value] feeds its hasher, in order. *)
Inductive HashToken :=
| HTag (tag : Z)
| HBool (b : bool)
| HDecimal (d : Decimal)
| HText (s : str)
| HLen (n : nat).

Inductive Part := PartValue (v : Value) | PartKey (k : str).

Definition hash_node (v : Value) : list HashToken * list Part :=
  match node v with
  | NullNode => ([HTag 0], [])
  | BoolNode b => ([HTag 1; HBool b], [])
  | NumberNode n => ([HTag 2; HDecimal (value n)], [])
  | StringNode s => ([HTag 3; HText s], [])
  | ArrayNode ids => ([HTag 4; HLen (length ids)], map (fun i => PartValue (child v i)) ids)
  | ObjectNode ms =>
      ([HTag 5; HLen (length ms)], concat (map (fun '(k, i) => [PartKey k; PartValue (child v i)]) ms))
  end.

Fixpoint hash_loop (fuel : nat) (pending : list Part) : option (list HashToken) :=
  match pending with
  | [] => Some []
  | part :: pending =>
      match fuel with
      | O => None
      | S fuel =>
          match part with
          | PartKey k => cons (HText k) <$> hash_loop fuel pending
          | PartValue v =>
              let '(tokens, parts) := hash_node v in
              app tokens <$> hash_loop fuel (parts ++ pending)
          end
      end
  end.

Definition value_hash (fuel : nat) (v : Value) : option (list HashToken) := hash_loop fuel [PartValue v].

(** What a tree hashes to. *)
Fixpoint json_feed (t : json) : list HashToken :=
  match t with
  | JNull => [HTag 0]
  | JBool b => [HTag 1; HBool b]
  | JNumber n => [HTag 2; HDecimal (value n)]
  | JString s => [HTag 3; HText s]
  | JArray l => HTag 4 :: HLen (length l) :: concat (map json_feed l)
  | JObject m => HTag 5 :: HLen (length m) :: concat (map (fun kv => HText kv.1 :: json_feed kv.2) m)
  end.

(** Steps the hash loop takes on a tree: one per value and one per key. *)
Fixpoint json_parts (t : json) : nat :=
  match t with
  | JArray l => S (sum_list (map json_parts l))
  | JObject m => S (sum_list (map (fun kv => S (json_parts kv.2)) m))
  | _ => 1
  end.

Section Trees.
Context `{BigIntOps}.

Definition in_arena (v : Value) : Prop :=
  arena_ok (source (document v)) (entries (document v)) ∧ (id v < length (entries (document v)))%nat.

Lemma in_arena_entry v : in_arena v → entry_ok (source (document v)) (id v) (entry v).
Proof.
  intros [Ha Hi]. unfold entry. destruct (lookup_lt_is_Some_2 _ _ Hi) as [e He]. rewrite He. by apply Ha.
Qed.

Lemma in_arena_child v i :
  in_arena v →
  (match node v with ArrayNode ids => i ∈ ids | ObjectNode ms => ∃ k, (k, i) ∈ ms | _ => False end) →
  in_arena (child v i) ∧ (i < id v)%nat.
Proof.
  intros Hv Hi. pose proof (in_arena_entry v Hv) as [_ He]. destruct Hv as [Ha Hlt].
  assert (Hc : (i < id v)%nat).
  { unfold node in Hi. destruct (node_of (entry v)) as [| | | |ids|ms]; try done.
    - by eapply (proj1 (Forall_forall _ _) He) in Hi.
    - destruct Hi as [k Hk]. destruct He as [_ He]. by eapply (proj1 (Forall_forall _ _) He) in Hk as [_ ?]. }
  split; [|done]. split; [done|]. simpl. lia.
Qed.

Lemma unfold_at_fuel fuel d i :
  arena_ok (source d) (entries d) → (i < length (entries d))%nat → (i < fuel)%nat →
  unfold_at fuel d i = tree {| document := d; id := i |}.
Proof.
  intros Ha. revert fuel. induction i as [i IH] using lt_wf_ind. intros fuel Hi Hf.
  unfold tree. cbn [id document]. destruct fuel as [|fuel]; [lia|]. cbn [unfold_at].
  assert (Hv : in_arena {| document := d; id := i |}) by by split.
  pose proof (fun i => in_arena_child _ i Hv) as Hc. cbn [id] in Hc.
  destruct (node {| document := d; id := i |}) as [| | | |ids|ms] eqn:Hn; try done.
  - f_equal. apply list_fmap_ext. intros j c Hj. apply list_elem_of_lookup_2 in Hj.
    destruct (Hc c Hj) as [Hca Hlt]. destruct Hca as [_ Hca]. simpl in Hca. rewrite !IH by lia. done.
  - f_equal. apply list_fmap_ext. intros j [k c] Hj. apply list_elem_of_lookup_2 in Hj.
    destruct (Hc c) as [Hca Hlt]; [by exists k|]. destruct Hca as [_ Hca]. simpl in Hca. rewrite !IH by lia. done.
Qed.

Lemma tree_node v :
  in_arena v →
  tree v = match node v with
           | NullNode => JNull
           | BoolNode b => JBool b
           | NumberNode n => JNumber n
           | StringNode s => JString s
           | ArrayNode ids => JArray (map (fun i => tree (child v i)) ids)
           | ObjectNode ms => JObject (map (fun '(k, i) => (k, tree (child v i))) ms)
           end.
Proof.
  intros Hv. pose proof (fun i => in_arena_child _ i Hv) as Hc. unfold tree at 1. cbn [unfold_at].
  replace {| document := document v; id := id v |} with v by by destruct v.
  destruct Hv as [Ha Hi].
  destruct (node v) as [| | | |ids|ms] eqn:Hn; try done.
  - f_equal. apply list_fmap_ext. intros j c Hj. apply list_elem_of_lookup_2 in Hj.
    destruct (Hc c Hj) as [[_ Hca] Hlt]. simpl in Hca. apply unfold_at_fuel; [done..|lia].
  - f_equal. apply list_fmap_ext. intros j [k c] Hj. apply list_elem_of_lookup_2 in Hj.
    destruct (Hc c) as [[_ Hca] Hlt]; [by exists k|]. simpl in Hca. f_equal. apply unfold_at_fuel; [done..|lia].
Qed.

Lemma json_eqb_array a b :
  json_eqb (JArray a) (JArray b) =
    ((length a =? length b)%nat && forallb (fun '(x, y) => json_eqb x y) (zip a b)).
Proof.
  revert b. induction a as [|x a IH]; intros [|y b]; [done..|].
  change (json_eqb (JArray (x :: a)) (JArray (y :: b))) with (json_eqb x y && json_eqb (JArray a) (JArray b)).
  rewrite IH. simpl. destruct (json_eqb x y), (length a =? length b)%nat; done.
Qed.

Lemma json_eqb_object a b :
  json_eqb (JObject a) (JObject b) =
    ((length a =? length b)%nat && bool_decide (a.*1 = b.*1)
     && forallb (fun '(x, y) => json_eqb x.2 y.2) (zip a b)).
Proof.
  revert b. induction a as [|[i x] a IH]; intros [|[j y] b]; [done..|].
  change (json_eqb (JObject ((i, x) :: a)) (JObject ((j, y) :: b)))
    with (bool_decide (i = j) && json_eqb x y && json_eqb (JObject a) (JObject b)).
  rewrite IH. cbn [length Nat.eqb zip zip_with forallb fmap list_fmap fst snd].
  assert (E : bool_decide (i :: a.*1 = j :: b.*1) = bool_decide (i = j) && bool_decide (a.*1 = b.*1)).
  { rewrite <- bool_decide_and. apply bool_decide_ext. split; [by intros [= -> ->] | by intros [-> ->]]. }
  rewrite E. destruct (json_eqb x y), (length a =? length b)%nat, (bool_decide (i = j)), (bool_decide (a.*1 = b.*1)); done.
Qed.

Definition pair_eqb (p : Value * Value) : bool := json_eqb (tree p.1) (tree p.2).
Definition pair_size (p : Value * Value) : nat := json_size (tree p.1).

Lemma forallb_zip_map {A B C D} (f : A → B) (g : C → D) (h : B * D → bool) l k :
  forallb h (zip (map f l) (map g k)) = forallb (fun '(x, y) => h (f x, g y)) (zip l k).
Proof. revert k. induction l as [|x l IH]; intros [|y k]; simpl; [done..|]. by rewrite IH. Qed.

Lemma forallb_zip_with {A B C} (f : A → B → C) (h : C → bool) l k :
  forallb h (zip_with f l k) = forallb (fun '(x, y) => h (f x y)) (zip l k).
Proof. revert k. induction l as [|x l IH]; intros [|y k]; simpl; [done..|]. by rewrite IH. Qed.

Lemma Forall_zip_with_elem {A B C} (P : C → Prop) (f : A → B → C) l k :
  (∀ x y, x ∈ l → y ∈ k → P (f x y)) → Forall P (zip_with f l k).
Proof.
  revert k. induction l as [|x l IH]; intros [|y k] Hf; simpl; constructor.
  - apply Hf; left.
  - apply IH. intros. apply Hf; by right.
Qed.

Lemma sum_zip_with_le {A B C} (f : C → nat) (h : A → B → C) (g : A → nat) l k :
  (∀ x y, f (h x y) = g x) → (sum_list (map f (zip_with h l k)) <= sum_list (map g l))%nat.
Proof.
  intros Hg. revert k. induction l as [|x l IH]; intros [|y k]; simpl; [lia..|]. rewrite Hg. specialize (IH k). lia.
Qed.

(** One comparison: what [eq_nodes] decides and what it leaves to decide. *)
Lemma eq_nodes_spec a b :
  in_arena a → in_arena b →
  match eq_nodes a b with
  | None => pair_eqb (a, b) = false
  | Some pushed =>
      pair_eqb (a, b) = forallb pair_eqb pushed ∧
      Forall (fun p => in_arena p.1 ∧ in_arena p.2) pushed ∧
      (S (sum_list (map pair_size pushed)) <= pair_size (a, b))%nat
  end.
Proof.
  intros Ha Hb. unfold eq_nodes, pair_eqb, pair_size. cbn [fst snd].
  pose proof (fun i => in_arena_child a i Ha) as Ca. pose proof (fun i => in_arena_child b i Hb) as Cb.
  rewrite (tree_node a), (tree_node b) by done.
  destruct (node a) as [|ba|na|sa|la|ma], (node b) as [|bb|nb|sb|lb|mb]; try done.
  - simpl. destruct (Bool.eqb ba bb); [|done]. split; [done|]. split; [by apply Forall_nil_2 | simpl; lia].
  - simpl. destruct (num_eqb na nb); [|done]. split; [done|]. split; [by apply Forall_nil_2 | simpl; lia].
  - simpl. case_bool_decide; [|done]. split; [done|]. split; [by apply Forall_nil_2 | simpl; lia].
  - rewrite json_eqb_array, !length_map.
    destruct (length la =? length lb)%nat; [|done]. cbn [andb]. split; [|split].
    + rewrite forallb_zip_map. symmetry. apply forallb_zip_with.
    + apply Forall_zip_with_elem. intros x y Hx Hy. split; [by apply Ca | by apply Cb].
    + cbn [json_size]. rewrite map_map. apply le_n_S. by apply sum_zip_with_le.
  - assert (Hkeys : ∀ (f : nat → json) (m : list (str * nat)), (map (fun '(k, i) => (k, f i)) m).*1 = m.*1).
    { intros f m. induction m as [|[k i] m IH]; [done|]. exact (f_equal (cons k) IH). }
    rewrite json_eqb_object, !length_map, !Hkeys.
    destruct (length ma =? length mb)%nat; [|done].
    case_bool_decide; [|done]. cbn [andb]. split; [|split].
    + rewrite forallb_zip_map. symmetry. etransitivity; [apply forallb_zip_with|]. clear. revert mb.
      induction ma as [|[k x] ma IH]; intros [|[k' y] mb]; simpl; [done..|]. by rewrite IH.
    + apply Forall_zip_with_elem. intros [k x] [k' y] Hx Hy. split; [apply Ca | apply Cb]; by eexists.
    + cbn [json_size]. rewrite map_map. apply le_n_S. apply sum_zip_with_le. by intros [k x] [k' y].
Qed.

Lemma value_eq_loop_mono fuel fuel' pending r :
  value_eq_loop fuel pending = Some r → (fuel <= fuel')%nat → value_eq_loop fuel' pending = Some r.
Proof.
  revert fuel' pending. induction fuel as [|fuel IH]; intros fuel' [|[a b] pending] Hr Hf; try done;
    destruct fuel' as [|fuel']; try done; [lia|]. cbn [value_eq_loop] in *.
  destruct (eq_nodes a b); [|done]. apply IH; [done | lia].
Qed.

Lemma forallb_rev {A} (f : A → bool) l : forallb f (rev l) = forallb f l.
Proof.
  induction l as [|x l IH]; [done|]. simpl. rewrite forallb_app, IH. simpl.
  rewrite andb_true_r. apply andb_comm.
Qed.

Lemma sum_list_rev l : sum_list (rev l) = sum_list l.
Proof. induction l as [|x l IH]; [done|]. simpl. rewrite sum_list_with_app. simpl. lia. Qed.

Lemma value_eq_loop_spec fuel pending :
  Forall (fun p => in_arena p.1 ∧ in_arena p.2) pending →
  (sum_list (map pair_size pending) <= fuel)%nat →
  value_eq_loop fuel pending = Some (forallb pair_eqb pending).
Proof.
  revert pending. induction fuel as [|fuel IH]; intros [|[a b] pending] Hin Hf; [done| |done|].
  - exfalso. simpl in Hf. unfold pair_size in Hf. simpl in Hf. destruct (tree a); simpl in Hf; lia.
  - apply Forall_cons in Hin as [[Ha Hb] Hin]. cbn [value_eq_loop]. pose proof (eq_nodes_spec a b Ha Hb) as Hs.
    destruct (eq_nodes a b) as [pushed|]; cbn [forallb].
    + destruct Hs as (Heq & Hp & Hsize). rewrite IH.
      * by rewrite forallb_app, forallb_rev, Heq.
      * apply Forall_app. split; [|done]. by apply Forall_rev.
      * rewrite map_app, map_rev, sum_list_with_app. fold (sum_list (rev (map pair_size pushed))).
        simpl in Hf. pose proof (sum_list_rev (map pair_size pushed)). unfold sum_list in *. lia.
    + by rewrite Hs.
Qed.

(** ** Hashing *)
Definition part_feed (p : Part) : list HashToken :=
  match p with PartValue v => json_feed (tree v) | PartKey k => [HText k] end.
Definition part_size (p : Part) : nat :=
  match p with PartValue v => json_parts (tree v) | PartKey _ => 1 end.
Definition part_ok (p : Part) : Prop :=
  match p with PartValue v => in_arena v | PartKey _ => True end.

Lemma hash_node_spec v :
  in_arena v →
  json_feed (tree v) = (hash_node v).1 ++ concat (map part_feed (hash_node v).2) ∧
  Forall part_ok (hash_node v).2 ∧
  json_parts (tree v) = S (sum_list (map part_size (hash_node v).2)).
Proof.
  intros Hv. pose proof (fun i => in_arena_child v i Hv) as Hc. rewrite (tree_node v Hv). unfold hash_node.
  destruct (node v) as [|b|n|s|ids|ms]; cbn [fst snd]; [repeat split; constructor..| |].
  - cbn [json_feed json_parts]. rewrite length_map, !map_map. split; [done|]. split; [|done].
    apply Forall_map, Forall_forall. intros i Hi. by apply Hc.
  - cbn [json_feed json_parts]. rewrite length_map, !map_map.
    assert (Hok : ∀ k i, (k, i) ∈ ms → in_arena (child v i)) by (intros k i Hi; apply Hc; by exists k).
    clear Hc Hv. split; [|split].
    + simpl. do 2 f_equal. clear Hok. induction ms as [|[k i] ms IH]; [done|]. simpl. by rewrite IH.
    + induction ms as [|[k i] ms IH]; simpl; constructor; [done|]. constructor; [by eapply Hok; left|].
      apply IH. intros k' i' Hi. by eapply Hok; right.
    + f_equal. clear Hok. induction ms as [|[k i] ms IH]; [done|]. simpl. by rewrite IH.
Qed.

Lemma hash_loop_spec fuel pending :
  Forall part_ok pending → (sum_list (map part_size pending) <= fuel)%nat →
  hash_loop fuel pending = Some (concat (map part_feed pending)).
Proof.
  revert pending. induction fuel as [|fuel IH]; intros [|[v|k] pending] Hin Hf; try done.
  - exfalso. simpl in Hf. destruct (tree v); simpl in Hf; lia.
  - simpl in Hf. lia.
  - apply Forall_cons in Hin as [Hv Hin]. destruct (hash_node_spec v Hv) as (Hfeed & Hok & Hsize).
    cbn [hash_loop]. destruct (hash_node v) as [tokens parts]. cbn [fst snd] in *. rewrite IH.
    + simpl. by rewrite Hfeed, map_app, concat_app, app_assoc.
    + by apply Forall_app.
    + rewrite map_app, sum_list_with_app. simpl in Hf. unfold sum_list in *. lia.
  - apply Forall_cons in Hin as [_ Hin]. cbn [hash_loop]. rewrite IH; [done..|]. simpl in Hf. lia.
Qed.
End Trees.

(** ** Trees up to the spelling of their numbers *)
Fixpoint json_norm (t : json) : json :=
  match t with
  | JNumber n => JNumber {| token := []; value := value n |}
  | JArray l => JArray (map json_norm l)
  | JObject m => JObject (map (fun kv => (kv.1, json_norm kv.2)) m)
  | t => t
  end.

(** Induction on trees, through their containers. *)
Lemma json_tree_ind (P : json → Prop) :
  P JNull → (∀ b, P (JBool b)) → (∀ n, P (JNumber n)) → (∀ s, P (JString s)) →
  (∀ l, Forall P l → P (JArray l)) → (∀ m, Forall (fun kv => P kv.2) m → P (JObject m)) → ∀ t, P t.
Proof.
  intros H1 H2 H3 H4 H5 H6. fix IH 1. intros [|b|n|s|l|m]; [done| | | | |].
  - apply H2.
  - apply H3.
  - apply H4.
  - apply H5. induction l as [|t l IHl]; constructor; [apply IH | exact IHl].
  - apply H6. induction m as [|[k t] m IHm]; constructor; [apply IH | exact IHm].
Qed.

Section Norm.
Context `{BigIntOps}.

Lemma forallb_zip_norm {A} (f : A → json) a b :
  Forall (fun x => ∀ u, json_eqb (f x) u = true ↔ json_norm (f x) = json_norm u) a →
  length a = length b →
  forallb (fun '(x, y) => json_eqb (f x) (f y)) (zip a b) = true ↔
    map (fun x => json_norm (f x)) a = map (fun x => json_norm (f x)) b.
Proof.
  intros Ha. revert b. induction Ha as [|x a Hx _ IH]; intros [|y b] Hl; try done.
  simpl. rewrite andb_true_iff, Hx, IH by (simpl in Hl; lia). split; [by intros [-> ->] | by intros [= -> ->]].
Qed.

Lemma fst_snd_eq {A B} (f : A → B) (a b : list (str * A)) :
  map (fun kv => (kv.1, f kv.2)) a = map (fun kv => (kv.1, f kv.2)) b ↔
    a.*1 = b.*1 ∧ map (fun kv => f kv.2) a = map (fun kv => f kv.2) b.
Proof.
  revert b. induction a as [|[k x] a IH]; intros [|[k' y] b]; try done.
  - split; [done | by intros [? _]].
  - split; [done | by intros [? _]].
  - simpl. split.
    + intros [= -> Hx Hr]. apply IH in Hr as [Hk Hv]. split; f_equal; done.
    + intros [[= -> Hk] [= Hx Hv]]. rewrite Hx. f_equal. by apply IH.
Qed.

Lemma json_eqb_norm t u : json_eqb t u = true ↔ json_norm t = json_norm u.
Proof.
  revert u. induction t as [|b|n|s|l IH|m IH] using json_tree_ind; intros u.
  - by destruct u.
  - destruct u as [|b'| | | |]; try done. simpl. rewrite Bool.eqb_true_iff. split; [by intros -> | by intros [= ->]].
  - destruct u as [| |n'| | |]; try done. simpl. unfold num_eqb. rewrite bool_decide_eq_true.
    split; [by intros -> | by intros [= ->]].
  - destruct u as [| | |s'| |]; try done. simpl. rewrite bool_decide_eq_true. split; [by intros -> | by intros [= ->]].
  - destruct u as [| | | |l'|]; try done. rewrite json_eqb_array, andb_true_iff, Nat.eqb_eq. cbn [json_norm].
    split.
    + intros [Hl Hz]. f_equal. by apply (forallb_zip_norm (fun x => x)).
    + intros [= Hm]. assert (Hl : length l = length l') by (apply (f_equal length) in Hm; by rewrite !length_map in Hm).
      split; [done|]. by apply (forallb_zip_norm (fun x => x)).
  - destruct u as [| | | | |m']; try done.
    rewrite json_eqb_object, !andb_true_iff, Nat.eqb_eq, bool_decide_eq_true. cbn [json_norm].
    split.
    + intros [[Hl Hk] Hz]. f_equal. apply (fst_snd_eq json_norm). split; [done|].
      by apply (forallb_zip_norm snd).
    + intros [= Hm]. apply (fst_snd_eq json_norm) in Hm as [Hk Hm].
      assert (Hl : length m = length m') by (apply (f_equal length) in Hm; by rewrite !length_map in Hm).
      split; [done|]. by apply (forallb_zip_norm snd).
Qed.

Lemma json_feed_norm t : json_feed (json_norm t) = json_feed t.
Proof.
  induction t as [| | | |l IH|m IH] using json_tree_ind; try done; cbn [json_norm json_feed];
    rewrite length_map, map_map; do 3 f_equal; apply map_ext_Forall; (eapply Forall_impl; [exact IH|]).
  - done.
  - simpl. by intros kv ->.
Qed.
End Norm.

(** A value of a decoded document. *)
Lemma decoded_in_arena `{BigIntOps} bytes limits d :
  0 <= limit_nodes limits → 0 <= limit_depth limits → decode bytes limits = Ok d → in_arena (root d).
Proof.
  intros Hn Hd E. pose proof (decode_doc bytes limits Hn Hd) as S. rewrite E in S.
  destruct S as (_ & _ & _ & Ha & Hr & _). by split.
Qed.

(** ** Properties *)

(** C19: [PartialEq for Value] terminates, within one step per node of the left
    tree, and decides whether the two values stand for the same tree once every
    number is replaced by its exact decimal value; in particular it is an
    equivalence, as its [Eq] marker claims. *)
Theorem value_eq_correct `{BigIntOps} (a b : Value) (fuel : nat) :
  in_arena a → in_arena b → (json_size (tree a) <= fuel)%nat →
  ∃ r, value_eq fuel a b = Some r ∧ (r = true ↔ json_norm (tree a) = json_norm (tree b)).
Proof.
  intros Ha Hb Hf. exists (json_eqb (tree a) (tree b)). split; [|apply json_eqb_norm].
  unfold value_eq. rewrite value_eq_loop_spec.
  - simpl. by rewrite andb_true_r.
  - by apply Forall_singleton.
  - simpl. unfold pair_size. simpl. lia.
Qed.

Lemma value_eq_correct_witness :
  let a := root (decoded "{'k' : [1, 2.50e1], 'z':null}") in
  let b := root (decoded "{'z':null,'k':[10e-1,25]}") in
  value_eq 8 a b = Some true ∧ json_norm (tree a) = json_norm (tree b).
Proof.
  intros a b. assert (E : value_eq 8 a b = Some true) by by vm_compute. split; [done|].
  destruct (@value_eq_correct decimal_bigint a b 8) as (r & Hr & Heq).
  - eapply (@decoded_in_arena decimal_bigint (source (document a)) small_limits); by vm_compute.
  - eapply (@decoded_in_arena decimal_bigint (source (document b)) small_limits); by vm_compute.
  - vm_compute. lia.
  - apply Heq. rewrite E in Hr. by injection Hr as <-.
Defined.

(** Equal values hash equally.  [Hash for Value] terminates and feeds the
    hasher the preorder walk of the value's tree, and two values that [==] calls
    equal feed it the same words in the same order, so a [HashMap] or [HashSet]
    keyed by values respects exact equality. *)
Theorem value_hash_respects_eq `{BigIntOps} (a b : Value) (fuel : nat) :
  in_arena a → in_arena b → value_eq fuel a b = Some true →
  value_hash (json_parts (tree a)) a = Some (json_feed (tree a)) ∧
  value_hash (json_parts (tree b)) b = Some (json_feed (tree a)).
Proof.
  intros Ha Hb E.
  assert (Heq : json_eqb (tree a) (tree b) = true).
  { apply (value_eq_loop_mono _ (fuel + json_size (tree a))) in E; [|lia].
    unfold value_eq in E. rewrite value_eq_loop_spec in E.
    - injection E as E. simpl in E. by rewrite andb_true_r in E.
    - by apply Forall_singleton.
    - simpl. unfold pair_size. simpl. lia. }
  apply json_eqb_norm in Heq. unfold value_hash.
  rewrite !hash_loop_spec; [|by apply Forall_singleton|simpl; lia|by apply Forall_singleton|simpl; lia].
  simpl. rewrite !app_nil_r. split; [done|]. by rewrite <- json_feed_norm, <- Heq, json_feed_norm.
Qed.

Lemma value_hash_respects_eq_witness :
  let a := root (decoded "[1, {'k':true}]") in
  let b := root (decoded "[0.1E1,{'k' : true}]") in
  value_hash (json_parts (tree b)) b = Some (json_feed (tree a)) ∧
  json_feed (tree a) =
    [HTag 4; HLen 2; HTag 2; HDecimal (Nonzero false (lit "1") 0); HTag 5; HLen 1; HText (lit "k"); HTag 1; HBool true].
Proof.
  intros a b. split; [|by vm_compute].
  apply (@value_hash_respects_eq decimal_bigint a b 8); [| |by vm_compute].
  - eapply (@decoded_in_arena decimal_bigint (source (document a)) small_limits); by vm_compute.
  - eapply (@decoded_in_arena decimal_bigint (source (document b)) small_limits); by vm_compute.
Defined.
