(* ===== verification/Schema.v ===== *)
(** * Schema: the interpreter of compiled JSON Schema (protocol/engine/src/schema.rs)

    The build compiles the shared definition to a table of nodes; the table is an
    argument here as it is an argument of [validate].  [validate] is the code's
    explicit machine: a stack of tasks, a stack of results and an arena of
    instance paths, with a bound on its operations.  [eval] is the recursive
    reading of the same rules.  Proved: the machine implements [eval], reporting
    the same first failing rule at the same JSON pointer, and exhausting the
    operation limit never decides a branch. *)
From S2P Require Import Prelude Number Utf8 BTree Json JsonTree.

Inductive Literal := LitNull | LitBool (b : bool) | LitNumber (tok : str) | LitString (s : str).
Inductive Additional := Allow | AdditionalSchema (id : nat).
Inductive Pattern := LowerHex64 | ContainsNonblankScalar.

Inductive Rule :=
| RFalse
| RRef (id : nat)
| RType (mask : Z)
| RConst (l : Literal)
| REnum (ls : list Literal)
| RMinimum (tok : str)
| RMaximum (tok : str)
| RMinLength (bound : nat)
| RMaxLength (bound : nat)
| RPattern (p : Pattern)
| RObject (properties : list (str * nat)) (required : list str) (additional : Additional)
| RArray (items min max : option nat) (unique : bool)
| RAllOf (ids : list nat)
| RAnyOf (ids : list nat)
| ROneOf (ids : list nat)
| RConditional (condition consequence : nat) (alternative : option nat).

Record SchemaNode := { schema_path_of : str; rules : list Rule }.

Record Mismatch := { instance_path : str; schema_path : str }.

Inductive ValidationError :=
| Rejected (mismatch : Mismatch)
| ValidationLimit (resource : string) (limit : nat)
| InvalidDefinition (cause : string).

Global Instance Mismatch_eq_dec : EqDecision Mismatch.
Proof. solve_decision. Defined.
Global Instance ValidationError_eq_dec : EqDecision ValidationError.
Proof. solve_decision. Defined.

Record ValidationLimits := { operations : nat }.

Record Failure := { f_path : nat; f_schema : str; f_keyword : str }.

Inductive Combination := CAll | CAny | COne.

Inductive Task :=
| TNode (id : nat) (v : Value) (path : nat)
| TRule (rule : Rule) (v : Value) (path : nat) (schema : str)
| TCollect (c : Combination) (count : nat) (failure : Failure)
| TConditional (consequence : nat) (alternative : option nat) (v : Value) (path : nat)
| TFailed (failure : Failure).

(** The heads of [tasks] and [results] are the tops of the stacks; an entry of
    [paths] is a parent index and the segment below it. *)
Record Machine := {
  tasks : list Task;
  results : list (result Failure unit);
  paths : list (nat * str);
}.

Abbreviation checked A := (result (fault ValidationError) A).

Definition push_tasks (ts : list Task) (m : Machine) : Machine :=
  {| tasks := ts ++ tasks m; results := results m; paths := paths m |}.
Definition push_result (r : result Failure unit) (m : Machine) : Machine :=
  {| tasks := tasks m; results := r :: results m; paths := paths m |}.

(** ** The simple rules *)
Definition keyword (r : Rule) : str :=
  match r with
  | RFalse | RObject _ _ _ => []
  | RRef _ => lit "$ref"
  | RType _ => lit "type"
  | RConst _ => lit "const"
  | REnum _ => lit "enum"
  | RMinimum _ => lit "minimum"
  | RMaximum _ => lit "maximum"
  | RMinLength _ => lit "minLength"
  | RMaxLength _ => lit "maxLength"
  | RPattern _ => lit "pattern"
  | RArray _ _ _ _ => lit "items"
  | RAllOf _ => lit "allOf"
  | RAnyOf _ => lit "anyOf"
  | ROneOf _ => lit "oneOf"
  | RConditional _ _ _ => lit "if"
  end.

(** [replace('~', "~0").replace('/', "~1")]: the second pass sees no new slash. *)
Definition replace_byte (b : Z) (by_ : str) (s : str) : str :=
  concat (map (fun c => if c =? b then by_ else [c]) s).
Definition escape_pointer (s : str) : str :=
  replace_byte 47 (lit "~1") (replace_byte 126 (lit "~0") s).

Definition is_blank (c : Z) : bool :=
  ((9 <=? c) && (c <=? 13)) || (c =? 32) || (c =? 160) || (c =? 5760)
  || ((8192 <=? c) && (c <=? 8202)) || (c =? 8232) || (c =? 8233) || (c =? 8239)
  || (c =? 8287) || (c =? 12288) || (c =? 65279).

Definition pattern_matches (p : Pattern) (s : str) : bool :=
  match p with
  | LowerHex64 =>
      (length s =? 64)%nat
      && forallb (fun b => ((97 <=? b) && (b <=? 102)) || ((48 <=? b) && (b <=? 57))) s
  | ContainsNonblankScalar => existsb (fun c => negb (is_blank c)) (chars s)
  end.

(** [a == b] on values, by the loop of Json.v with enough fuel. *)
Definition values_equal (a b : Value) : bool :=
  match value_eq (json_size (tree a)) a b with Some r => r | None => false end.

(** [elements.iter().any(|id| !seen.insert(child(id)))]: whether one equals an
    earlier one.  [value_hash_respects_eq] is what lets the set be a list. *)
Fixpoint any_repeated (seen vs : list Value) : bool :=
  match vs with
  | [] => false
  | v :: vs => if existsb (fun s => values_equal s v) seen then true else any_repeated (seen ++ [v]) vs
  end.

(** [&'static] keys are looked up in declaration order. *)
Definition find_property (properties : list (str * nat)) (key : str) : option nat :=
  snd <$> List.find (fun p => bool_decide (p.1 = key)) properties.

Definition select_property (properties : list (str * nat)) (additional : Additional) (key : str) : option nat :=
  match find_property properties key with
  | Some id => Some id
  | None => match additional with Allow => None | AdditionalSchema id => Some id end
  end.

Section Validate.
Context `{BigIntOps}.

Definition definition_number (tok : str) : checked JsonNumber :=
  map_err (fun _ => Refused (InvalidDefinition "invalid generated numeric literal")) (parse tok).

Definition literal_matches (l : Literal) (v : Value) : checked bool :=
  match l, node v with
  | LitNull, NullNode => Ok true
  | LitBool a, BoolNode b => Ok (Bool.eqb a b)
  | LitString a, StringNode b => Ok (bool_decide (a = b))
  | LitNumber a, NumberNode b => n ← definition_number a; Ok (num_eqb n b)
  | _, _ => Ok false
  end.

Definition kind_mask (v : Value) : Z :=
  match node v with
  | NullNode => 1
  | BoolNode _ => 2
  | NumberNode n => if is_integer n then Z.lor 4 8 else 4
  | StringNode _ => 16
  | ArrayNode _ => 32
  | ObjectNode _ => 64
  end.

Definition option_all {A} (o : option A) (p : A → bool) : bool :=
  match o with Some a => p a | None => true end.

(** The rules whose verdict is a boolean of the value alone. *)
Definition simple_rule (r : Rule) (v : Value) : checked bool :=
  match r with
  | RFalse => Ok false
  | RType mask => Ok (negb (Z.land (kind_mask v) mask =? 0))
  | RConst l => literal_matches l v
  | REnum ls => fold_result (fun matched l => m ← literal_matches l v; Ok (matched || m)) false ls
  | RMinimum tok =>
      match node v with
      | NumberNode n => d ← definition_number tok; Ok (match cmp n d with Lt => false | _ => true end)
      | _ => Ok true
      end
  | RMaximum tok =>
      match node v with
      | NumberNode n => d ← definition_number tok; Ok (match cmp n d with Gt => false | _ => true end)
      | _ => Ok true
      end
  | RMinLength bound => Ok (option_all (as_str v) (fun s => (bound <=? length (chars s))%nat))
  | RMaxLength bound => Ok (option_all (as_str v) (fun s => (length (chars s) <=? bound)%nat))
  | RPattern p => Ok (option_all (as_str v) (pattern_matches p))
  | _ => Ok true
  end.

(** ** One task of the machine *)
Definition fail (path : nat) (schema kw : str) : Failure :=
  {| f_path := path; f_schema := schema; f_keyword := kw |}.

(** The member checks of an object rule: tasks in order, and the new paths. *)
Definition object_checks (properties : list (str * nat)) (additional : Additional) (v : Value) (path : nat)
    (members : list (str * nat)) (checks : list Task) (ps : list (nat * str)) : list Task * list (nat * str) :=
  fold_left (fun '(checks, ps) '(key, id) =>
      match select_property properties additional key with
      | Some selected =>
          (checks ++ [TNode selected (child v id) (length ps)], ps ++ [(path, escape_pointer key)])
      | None => (checks, ps)
      end) members (checks, ps).

(** [for (index, id) in elements.iter().enumerate().rev()]: the last element's
    path is made first and the first element's task ends on top. *)
Definition array_checks (selected : nat) (v : Value) (path : nat)
    (elements : list nat) (ts : list Task) (ps : list (nat * str)) : list Task * list (nat * str) :=
  fold_left (fun (acc : list Task * list (nat * str)) (element : nat * nat) =>
      (TNode selected (child v element.2) (length acc.2) :: acc.1,
       acc.2 ++ [(path, show_Z (Z.of_nat element.1))]))
    (rev (imap pair elements)) (ts, ps).

Definition rule_task (r : Rule) (v : Value) (path : nat) (schema : str) (m : Machine) : checked Machine :=
  let fail := fail path schema in
  let combine c ids :=
    Ok (push_tasks (map (fun id => TNode id v path) ids ++ [TCollect c (length ids) (fail (keyword r))]) m) in
  let judge : checked Machine :=
    b ← simple_rule r v; Ok (push_result (if b : bool then Ok tt else Err (fail (keyword r))) m) in
  match r with
  | RRef id => Ok (push_tasks [TNode id v path] m)
  | RAllOf ids => combine CAll ids
  | RAnyOf ids => combine CAny ids
  | ROneOf ids => combine COne ids
  | RConditional condition consequence alternative =>
      Ok (push_tasks [TNode condition v path; TConditional consequence alternative v path] m)
  | RObject properties required additional =>
      match node v with
      | ObjectNode members =>
          let missing := existsb (fun name => negb (bt_contains name members)) required in
          let checks := if missing then [TFailed (fail (lit "required"))] else [] in
          let '(checks, ps) := object_checks properties additional v path members checks (paths m) in
          Ok {| tasks := checks ++ TCollect CAll (length checks) (fail []) :: tasks m;
                results := results m; paths := ps |}
      | _ => judge
      end
  | RArray items min max unique =>
      match node v with
      | ArrayNode elements =>
          if match min with Some n => (length elements <? n)%nat | None => false end
          then Ok (push_result (Err (fail (lit "minItems"))) m)
          else if match max with Some n => (n <? length elements)%nat | None => false end
          then Ok (push_result (Err (fail (lit "maxItems"))) m)
          else if unique && any_repeated [] (map (child v) elements)
          then Ok (push_result (Err (fail (lit "uniqueItems"))) m)
          else
            match items with
            | Some selected =>
                let ts := TCollect CAll (length elements) (fail (lit "items")) :: tasks m in
                let '(ts, ps) := array_checks selected v path elements ts (paths m) in
                Ok {| tasks := ts; results := results m; paths := ps |}
            | None => judge
            end
      | _ => judge
      end
  | _ => judge
  end.

Definition first_failure (rs : list (result Failure unit)) : option Failure :=
  head (omap (fun r => match r with Err f => Some f | Ok _ => None end) rs).

Definition accepted (c : Combination) (matched count : nat) : bool :=
  match c with
  | CAll => (matched =? count)%nat
  | CAny => (0 <? matched)%nat
  | COne => (matched =? 1)%nat
  end.

Definition collect_task (c : Combination) (count : nat) (failure : Failure) (m : Machine) : checked Machine :=
  if (length (results m) <? count)%nat then Err (Panic "complete schema branches")
  else
    let branch := rev (take count (results m)) in
    let matched := length (List.filter is_ok branch) in
    Ok {| tasks := tasks m;
          results :=
            (if accepted c matched count then Ok tt
             else Err (match c with CAll => default failure (first_failure branch) | _ => failure end))
            :: drop count (results m);
          paths := paths m |}.

Definition run_task (nodes : list SchemaNode) (t : Task) (m : Machine) : checked Machine :=
  match t with
  | TNode id v path =>
      match nodes !! id with
      | None => Err (Refused (InvalidDefinition "schema node is unavailable"))
      | Some n =>
          Ok (push_tasks
                (map (fun r => TRule r v path (schema_path_of n)) (rules n)
                 ++ [TCollect CAll (length (rules n)) (fail path (schema_path_of n) [])]) m)
      end
  | TFailed failure => Ok (push_result (Err failure) m)
  | TConditional consequence alternative v path =>
      match results m with
      | [] => Err (Panic "condition result")
      | r :: rs =>
          let m := {| tasks := tasks m; results := rs; paths := paths m |} in
          if is_ok r then Ok (push_tasks [TNode consequence v path] m)
          else match alternative with
               | Some alternative => Ok (push_tasks [TNode alternative v path] m)
               | None => Ok (push_result (Ok tt) m)
               end
      end
  | TCollect c count failure => collect_task c count failure m
  | TRule r v path schema => rule_task r v path schema m
  end.

(** The loop: [remaining] is [limits.operations - used]. *)
Fixpoint validate_loop (nodes : list SchemaNode) (limit remaining : nat) (m : Machine) : checked Machine :=
  match tasks m with
  | [] => Ok m
  | t :: ts =>
      match remaining with
      | O => Err (Refused (ValidationLimit "schema_operations" limit))
      | S remaining =>
          m ← run_task nodes t {| tasks := ts; results := results m; paths := paths m |};
          validate_loop nodes limit remaining m
      end
  end.

(** [while at != 0]: the segments from the leaf up. *)
Fixpoint path_segments (fuel : nat) (ps : list (nat * str)) (at_ : nat) : checked (list str) :=
  if (at_ =? 0)%nat then Ok []
  else
    match fuel with
    | O => Err OutOfFuel
    | S fuel =>
        '(parent, segment) ← expect (ps !! at_) "paths index";
        rest ← path_segments fuel ps parent;
        Ok (segment :: rest)
    end.

Definition pointer (segments : list str) : str := concat (map (fun s => 47 :: s) segments).

Definition join_schema (schema kw : str) : str :=
  if (length kw =? 0)%nat then schema else schema ++ lit "/" ++ kw.

Definition report (m : Machine) : checked unit :=
  match results m with
  | [] => Err (Panic "one complete schema result")
  | Ok _ :: _ => Ok tt
  | Err failure :: _ =>
      segments ← path_segments (length (paths m)) (paths m) (f_path failure);
      Err (Refused (Rejected {| instance_path := pointer (rev segments);
                                schema_path := join_schema (f_schema failure) (f_keyword failure) |}))
  end.

Definition validate (nodes : list SchemaNode) (entry : nat) (v : Value) (limits : ValidationLimits) : checked unit :=
  m ← validate_loop nodes (operations limits) (operations limits)
        {| tasks := [TNode entry v 0]; results := []; paths := [(0%nat, [])] |};
  report m.
End Validate.

(** ** The recursive reading of the rules

    A failure carries the path of the instance as its segments, root first. *)
Record Finding := { s_path : list str; s_schema : str; s_keyword : str }.
Abbreviation verdict := (result Finding unit).

Definition finding (path : list str) (schema kw : str) : verdict :=
  Err {| s_path := path; s_schema := schema; s_keyword := kw |}.

Fixpoint all_of (vs : list verdict) : verdict :=
  match vs with
  | [] => Ok tt
  | Ok _ :: vs => all_of vs
  | Err f :: _ => Err f
  end.
Definition any_of (otherwise : verdict) (vs : list verdict) : verdict :=
  if existsb is_ok vs then Ok tt else otherwise.
Definition one_of (otherwise : verdict) (vs : list verdict) : verdict :=
  match List.filter is_ok vs with [_] => Ok tt | _ => otherwise end.
Definition judged (b : bool) (otherwise : verdict) : verdict := if b then Ok tt else otherwise.

Section Eval.
Context `{BigIntOps}.

(** One rule, given the reading [self] of the nodes it refers to. *)
Definition eval_rule (self : nat → Value → list str → checked verdict)
    (r : Rule) (v : Value) (path : list str) (schema : str) : checked verdict :=
  let failed kw := finding path schema kw in
  let each ids := traverse (fun id => self id v path) ids in
  let judge := b ← simple_rule r v; Ok (judged b (failed (keyword r))) in
  match r with
  | RRef id => self id v path
  | RAllOf ids => vs ← each ids; Ok (all_of vs)
  | RAnyOf ids => vs ← each ids; Ok (any_of (failed (keyword r)) vs)
  | ROneOf ids => vs ← each ids; Ok (one_of (failed (keyword r)) vs)
  | RConditional condition consequence alternative =>
      c ← self condition v path;
      if is_ok c then self consequence v path
      else match alternative with Some a => self a v path | None => Ok (Ok tt) end
  | RObject properties required additional =>
      match node v with
      | ObjectNode members =>
          let missing := existsb (fun name => negb (bt_contains name members)) required in
          vs ← traverse (fun '(key, selected, id) => self selected (child v id) (path ++ [escape_pointer key]))
                 (omap (fun '(key, id) => (fun selected => (key, selected, id)) <$> select_property properties additional key)
                    members);
          Ok (all_of ((if missing then [failed (lit "required")] else []) ++ vs))
      | _ => judge
      end
  | RArray items min max unique =>
      match node v with
      | ArrayNode elements =>
          if match min with Some n => (length elements <? n)%nat | None => false end
          then Ok (failed (lit "minItems"))
          else if match max with Some n => (n <? length elements)%nat | None => false end
          then Ok (failed (lit "maxItems"))
          else if unique && any_repeated [] (map (child v) elements) then Ok (failed (lit "uniqueItems"))
          else
            match items with
            | Some selected =>
                vs ← traverse (fun '(index, id) =>
                       self selected (child v id) (path ++ [show_Z (Z.of_nat index)])) (imap pair elements);
                Ok (all_of vs)
            | None => judge
            end
      | _ => judge
      end
  | _ => judge
  end.

(** A node holds when all of its rules do; the first rule that fails is the
    reason.  The fuel bounds the depth of the reading. *)
Fixpoint eval (fuel : nat) (nodes : list SchemaNode) (id : nat) (v : Value) (path : list str) : checked verdict :=
  match fuel with
  | O => Err OutOfFuel
  | S fuel =>
      match nodes !! id with
      | None => Err (Refused (InvalidDefinition "schema node is unavailable"))
      | Some n =>
          vs ← traverse (fun r => eval_rule (eval fuel nodes) r v path (schema_path_of n)) (rules n);
          Ok (all_of vs)
      end
  end.

(** What the caller is told. *)
Definition eval_report (r : checked verdict) : checked unit :=
  v ← r;
  match v with
  | Ok _ => Ok tt
  | Err f => Err (Refused (Rejected {| instance_path := pointer (s_path f);
                                       schema_path := join_schema (s_schema f) (s_keyword f) |}))
  end.
End Eval.

(** ** The machine implements the reading *)
Inductive PathAt (ps : list (nat * str)) : nat → list str → Prop :=
| PathRoot : PathAt ps 0 []
| PathChild i parent segment segments :
    ps !! i = Some (parent, segment) → (parent < i)%nat → PathAt ps parent segments →
    PathAt ps i (segments ++ [segment]).

Lemma PathAt_prefix ps ps' i segments : PathAt ps i segments → ps `prefix_of` ps' → PathAt ps' i segments.
Proof.
  intros Hp Hpre. induction Hp as [|i parent segment segments Hi Hlt _ IH]; [constructor|].
  econstructor; [by eapply prefix_lookup_Some | done | done].
Qed.

Lemma PathAt_lt ps i segments : PathAt ps i segments → (0 < length ps)%nat → (i < length ps)%nat.
Proof. intros [] Hl; [done|]. by eapply lookup_lt_Some. Qed.

Lemma PathAt_push ps i segments segment :
  PathAt ps i segments → (0 < length ps)%nat → PathAt (ps ++ [(i, segment)]) (length ps) (segments ++ [segment]).
Proof.
  intros Hp Hl. econstructor; [by apply list_lookup_middle | by eapply PathAt_lt |].
  eapply PathAt_prefix; [done | by exists [(i, segment)]].
Qed.

Lemma path_segments_spec ps i segments fuel :
  PathAt ps i segments → (i <= fuel)%nat → path_segments fuel ps i = Ok (rev segments).
Proof.
  intros Hp. revert fuel. induction Hp as [|i parent segment segments Hi Hlt _ IH]; intros fuel Hf.
  - by destruct fuel.
  - destruct fuel as [|fuel]; [lia|]. cbn [path_segments].
    destruct (Nat.eqb_spec i 0) as [->|]; [lia|]. rewrite Hi. cbn [expect]. rewrite bind_ok.
    rewrite IH by lia. by rewrite bind_ok, rev_app_distr.
Qed.

(** A machine verdict and the verdict it stands for. *)
Definition verdict_rel (ps : list (nat * str)) (r : result Failure unit) (s : verdict) : Prop :=
  match r, s with
  | Ok _, Ok _ => True
  | Err f, Err g => PathAt ps (f_path f) (s_path g) ∧ f_schema f = s_schema g ∧ f_keyword f = s_keyword g
  | _, _ => False
  end.

Lemma verdict_rel_prefix ps ps' r s : verdict_rel ps r s → ps `prefix_of` ps' → verdict_rel ps' r s.
Proof. destruct r, s; try done. intros (? & ? & ?) ?. split; [by eapply PathAt_prefix | done]. Qed.

Lemma verdicts_ok ps rs vs : Forall2 (verdict_rel ps) rs vs → map is_ok rs = map is_ok vs.
Proof. induction 1 as [|r s rs vs Hr _ IH]; [done|]. simpl. rewrite IH. by destruct r, s. Qed.

Lemma filter_count (rs : list (result Failure unit)) (vs : list verdict) :
  map is_ok rs = map is_ok vs → length (List.filter is_ok rs) = length (List.filter is_ok vs).
Proof.
  revert vs. induction rs as [|r rs IH]; intros [|s vs]; try done. simpl. intros [= Hr Hrs]. rewrite Hr.
  destruct (is_ok s); simpl; auto.
Qed.

Lemma filter_count_le {E A} (vs : list (result E A)) : (length (List.filter is_ok vs) <= length vs)%nat.
Proof. induction vs as [|v vs IH]; simpl; [lia|]. case_match; simpl; lia. Qed.

(** The three ways branches combine. *)
Definition combine_spec (c : Combination) (otherwise : verdict) (vs : list verdict) : verdict :=
  match c with CAll => all_of vs | CAny => any_of otherwise vs | COne => one_of otherwise vs end.

Lemma combine_rel ps c failure otherwise rs vs :
  Forall2 (verdict_rel ps) rs vs → verdict_rel ps (Err failure) otherwise →
  verdict_rel ps
    (if accepted c (length (List.filter is_ok rs)) (length rs) then Ok tt
     else Err (match c with CAll => default failure (first_failure rs) | _ => failure end))
    (combine_spec c otherwise vs).
Proof.
  intros Hrs Ho. pose proof (verdicts_ok _ _ _ Hrs) as Hok. rewrite (filter_count rs vs) by done.
  destruct c; simpl.
  - clear Ho Hok. rewrite <- (filter_count rs vs) by by eapply verdicts_ok.
    induction Hrs as [|r s rs vs Hr Hrs IH]; [done|].
    destruct r as [[]|f], s as [[]|g]; try done.
    simpl. pose proof (filter_count_le rs). destruct (Nat.eqb_spec (length (List.filter is_ok rs)) (S (length rs))); [lia|]. done.
  - unfold any_of. assert (E : (0 <? length (List.filter is_ok vs))%nat = existsb is_ok vs).
    { clear. induction vs as [|v vs IH]; [done|]. simpl. by destruct (is_ok v). }
    rewrite E. by destruct (existsb is_ok vs).
  - unfold one_of. destruct (List.filter is_ok vs) as [|? [|]]; done.
Qed.

Section Simulation.
Context `{BigIntOps} (nodes : list SchemaNode).

Let machine (ts : list Task) (rs : list (result Failure unit)) (ps : list (nat * str)) : Machine :=
  {| tasks := ts; results := rs; paths := ps |}.
Let loop := validate_loop nodes.
Let exhausted (limit : nat) : checked Machine := Err (Refused (ValidationLimit "schema_operations" limit)).

(** From a machine whose stack starts with [t] and whose results start with [r0]
    (in the order they were pushed), the loop spends exactly [k] operations to
    do what [spec] says, and any smaller allowance is exhausted. *)
Definition runs {A} (fuel : nat) (t : list Task) (r0 : list (result Failure unit)) (ps : list (nat * str))
    (rel : list (nat * str) → list (result Failure unit) → A → Prop) (spec : checked A) : Prop :=
  let from ts rs := machine (t ++ ts) (rev r0 ++ rs) ps in
  match spec with
  | Ok s => ∃ k ps' r, ps `prefix_of` ps' ∧ rel ps' r s ∧ ∀ limit ts rs,
      (∀ n, (n < k)%nat → loop limit n (from ts rs) = exhausted limit) ∧
      (∀ n, loop limit (k + n) (from ts rs) = loop limit n (machine ts (rev r ++ rs) ps'))
  | Err (Refused e) => ∃ k, ∀ limit ts rs,
      (∀ n, (n < k)%nat → loop limit n (from ts rs) = exhausted limit) ∧
      (∀ n, loop limit (k + n) (from ts rs) = Err (Refused e))
  | Err OutOfFuel => ∀ limit ts rs n, (n <= fuel)%nat → loop limit n (from ts rs) = exhausted limit
  | Err (Panic _) => False
  end.

Lemma loop_nil limit n rs ps : loop limit n (machine [] rs ps) = Ok (machine [] rs ps).
Proof. by destruct n. Qed.

Lemma loop_O limit t ts rs ps : loop limit 0 (machine (t :: ts) rs ps) = exhausted limit.
Proof. done. Qed.

Lemma loop_S limit n t ts rs ps :
  loop limit (S n) (machine (t :: ts) rs ps) = m ← run_task nodes t (machine ts rs ps); loop limit n m.
Proof. done. Qed.

(** Nothing to do. *)
Lemma runs_ok {A} fuel r ps (rel : _ → _ → A → Prop) (a : A) : rel ps r a → runs fuel [] r ps rel (Ok a).
Proof. intros Hr. exists 0%nat, ps, r. split; [done|]. split; [done|]. intros limit ts rs. split; [lia | done]. Qed.

(** One task, then what it pushed. *)
Lemma runs_step {A} fuel fuel' t t2 r0 r1 ps ps1 (rel : _ → _ → A → Prop) spec :
  (∀ ts rs, run_task nodes t (machine ts (rev r0 ++ rs) ps) = Ok (machine (t2 ++ ts) (rev r1 ++ rs) ps1)) →
  ps `prefix_of` ps1 → (fuel <= S fuel')%nat →
  runs fuel' t2 r1 ps1 rel spec → runs fuel [t] r0 ps rel spec.
Proof.
  intros Hstep Hpre Hf. unfold runs. destruct spec as [s|[e|site|]]; [| |done|].
  - intros (k & ps' & r & Hp & Hrel & Hrun). exists (S k), ps', r. split; [by etransitivity|]. split; [done|].
    intros limit ts rs. destruct (Hrun limit ts rs) as [Hlt Hge]. split.
    + intros [|n] Hn; [done|]. cbn [app]. rewrite loop_S, Hstep, bind_ok. apply Hlt. lia.
    + intros n. cbn [app Nat.add]. by rewrite loop_S, Hstep, bind_ok.
  - intros (k & Hrun). exists (S k). intros limit ts rs. destruct (Hrun limit ts rs) as [Hlt Hge]. split.
    + intros [|n] Hn; [done|]. cbn [app]. rewrite loop_S, Hstep, bind_ok. apply Hlt. lia.
    + intros n. cbn [app Nat.add]. by rewrite loop_S, Hstep, bind_ok.
  - intros Hrun limit ts rs [|n] Hn; [done|]. cbn [app]. rewrite loop_S, Hstep, bind_ok. apply Hrun. lia.
Qed.

(** One task that refuses the definition. *)
Lemma runs_refuse {A} fuel t r0 ps (rel : _ → _ → A → Prop) e :
  (∀ ts rs, run_task nodes t (machine ts (rev r0 ++ rs) ps) = Err (Refused e)) →
  runs fuel [t] r0 ps rel (Err (Refused e)).
Proof.
  intros Hstep. exists 1%nat. intros limit ts rs. split.
  - intros n Hn. by replace n with 0%nat by lia.
  - intros n. cbn [app Nat.add]. by rewrite loop_S, Hstep.
Qed.

(** Tasks one after another. *)
Lemma runs_bind {A B} fuel t1 t2 r0 ps (rel1 : _ → _ → A → Prop) (rel2 : _ → _ → B → Prop) spec1 (f : A → checked B) :
  runs fuel t1 r0 ps rel1 spec1 →
  (∀ ps1 r1 s1, spec1 = Ok s1 → ps `prefix_of` ps1 → rel1 ps1 r1 s1 → runs fuel t2 r1 ps1 rel2 (f s1)) →
  runs fuel (t1 ++ t2) r0 ps rel2 (spec1 ≫= f).
Proof.
  intros H1 H2. destruct spec1 as [s1|[e|site|]]; unfold runs in H1; [| |done|].
  - destruct H1 as (k1 & ps1 & r1 & Hp1 & Hrel1 & Hrun1). rewrite bind_ok.
    specialize (H2 ps1 r1 s1 eq_refl Hp1 Hrel1). unfold runs in *. destruct (f s1) as [s2|[e|site|]]; [| |done|].
    + destruct H2 as (k2 & ps2 & r2 & Hp2 & Hrel2 & Hrun2). exists (k1 + k2)%nat, ps2, r2.
      split; [by etransitivity|]. split; [done|]. intros limit ts rs. rewrite <- app_assoc.
      destruct (Hrun1 limit (t2 ++ ts) rs) as [Hlt1 Hge1], (Hrun2 limit ts rs) as [Hlt2 Hge2]. split.
      * intros n Hn. destruct (decide (n < k1)%nat) as [|Hge]; [by apply Hlt1|].
        replace n with (k1 + (n - k1))%nat by lia. rewrite Hge1. apply Hlt2. lia.
      * intros n. by rewrite <- Nat.add_assoc, Hge1, Hge2.
    + destruct H2 as (k2 & Hrun2). exists (k1 + k2)%nat. intros limit ts rs. rewrite <- app_assoc.
      destruct (Hrun1 limit (t2 ++ ts) rs) as [Hlt1 Hge1], (Hrun2 limit ts rs) as [Hlt2 Hge2]. split.
      * intros n Hn. destruct (decide (n < k1)%nat) as [|Hge]; [by apply Hlt1|].
        replace n with (k1 + (n - k1))%nat by lia. rewrite Hge1. apply Hlt2. lia.
      * intros n. by rewrite <- Nat.add_assoc, Hge1, Hge2.
    + intros limit ts rs n Hn. rewrite <- app_assoc. destruct (Hrun1 limit (t2 ++ ts) rs) as [Hlt1 Hge1].
      destruct (decide (n < k1)%nat) as [|Hge]; [by apply Hlt1|].
      replace n with (k1 + (n - k1))%nat by lia. rewrite Hge1. apply H2. lia.
  - destruct H1 as (k & Hrun). exists k. intros limit ts rs. rewrite <- app_assoc. apply Hrun.
  - intros limit ts rs n Hn. rewrite <- app_assoc. by apply H1.
Qed.

Lemma runs_weaken {A} fuel fuel' t r0 ps (rel : _ → _ → A → Prop) spec :
  runs fuel' t r0 ps rel spec → (fuel <= fuel')%nat → runs fuel t r0 ps rel spec.
Proof. unfold runs. destruct spec as [|[]]; try done. intros Hrun Hf limit ts rs n Hn. apply Hrun. lia. Qed.

(** Several branches above the results [r0], one result pushed per branch. *)
Definition rel_list (r0 : list (result Failure unit)) ps (r : list (result Failure unit)) (vs : list verdict) : Prop :=
  ∃ rs, r = r0 ++ rs ∧ Forall2 (verdict_rel ps) rs vs.
Definition rel_one (r0 : list (result Failure unit)) ps (r : list (result Failure unit)) (v : verdict) : Prop :=
  ∃ x, r = r0 ++ [x] ∧ verdict_rel ps x v.

Lemma runs_list {X} fuel (l : list X) (task : X → Task) (spec : X → checked verdict) r0 ps :
  (∀ x ps1 r1, x ∈ l → ps `prefix_of` ps1 → runs fuel [task x] r1 ps1 (rel_one r1) (spec x)) →
  runs fuel (map task l) r0 ps (rel_list r0) (traverse spec l).
Proof.
  intros Hl.
  assert (Hgen : ∀ ps1 done_vs r1, ps `prefix_of` ps1 → rel_list r0 ps1 r1 done_vs →
    runs fuel (map task l) r1 ps1 (rel_list r0) (vs ← traverse spec l; Ok (done_vs ++ vs))).
  { induction l as [|x l IH]; intros ps1 done_vs r1 Hp Hrel.
    - simpl. rewrite app_nil_r. by apply runs_ok.
    - assert (E : (vs ← traverse spec (x :: l); Ok (done_vs ++ vs)) =
                  (v ← spec x; vs ← traverse spec l; Ok ((done_vs ++ [v]) ++ vs))).
      { simpl. destruct (spec x) as [v|]; [|done]. simpl. destruct (traverse spec l); [|done].
        simpl. by rewrite <- app_assoc. }
      rewrite E. clear E. change (map task (x :: l)) with ([task x] ++ map task l).
      assert (Hx := Hl x ps1 r1 (list_elem_of_here _ _) Hp).
      assert (Hrest : ∀ ps2 r2 v, ps1 `prefix_of` ps2 → rel_one r1 ps2 r2 v →
        runs fuel (map task l) r2 ps2 (rel_list r0) (vs ← traverse spec l; Ok ((done_vs ++ [v]) ++ vs))).
      { intros ps2 r2 v Hp2 (y & -> & Hy). apply IH.
        - intros x' ps3 r3 Hx' Hp3. apply Hl; [by right | done].
        - by etransitivity.
        - destruct Hrel as (rs & -> & Hrs). exists (rs ++ [y]). split; [by rewrite app_assoc|].
          apply Forall2_app; [|by repeat constructor].
          eapply Forall2_impl; [exact Hrs|]. intros. by eapply verdict_rel_prefix. }
      eapply runs_bind; [done|]. intros ps2 r2 v _. apply Hrest. }
  specialize (Hgen ps [] r0 ltac:(done)). assert (E : (vs ← traverse spec l; Ok ([] ++ vs)) = traverse spec l) by by destruct (traverse spec l).
  rewrite E in Hgen. apply Hgen. exists []. by rewrite app_nil_r.
Qed.

(** Combining the branches. *)
Lemma collect_results c failure r0 rs ts rs0 ps :
  collect_task c (length rs) failure (machine ts (rev (r0 ++ rs) ++ rs0) ps) =
    Ok (machine ts (rev (r0 ++ [if accepted c (length (List.filter is_ok rs)) (length rs) then Ok tt
         else Err (match c with CAll => default failure (first_failure rs) | _ => failure end)]) ++ rs0) ps).
Proof.
  unfold collect_task. cbn [results machine]. rewrite !rev_app_distr, <- !app_assoc.
  destruct (Nat.ltb_spec (length (rev rs ++ rev r0 ++ rs0)) (length rs)) as [Hlt|_].
  { rewrite length_app, length_rev in Hlt. lia. }
  rewrite take_app_length' by (by rewrite length_rev). rewrite drop_app_length' by (by rewrite length_rev).
  by rewrite rev_involutive.
Qed.

Lemma runs_branches {X} fuel (l : list X) (task : X → Task) (spec : X → checked verdict) r0 ps c failure otherwise :
  (∀ x ps1 r1, x ∈ l → ps `prefix_of` ps1 → runs fuel [task x] r1 ps1 (rel_one r1) (spec x)) →
  verdict_rel ps (Err failure) otherwise →
  runs fuel (map task l ++ [TCollect c (length l) failure]) r0 ps (rel_one r0)
    (vs ← traverse spec l; Ok (combine_spec c otherwise vs)).
Proof.
  intros Hl Ho. eapply runs_bind; [by apply runs_list|].
  intros ps1 r1 vs Ht Hp (rs & -> & Hrs).
  assert (Hlen : length l = length rs).
  { apply traverse_ok, Forall2_length in Ht. by rewrite (Forall2_length _ _ _ Hrs). }
  rewrite Hlen. eapply (runs_step fuel fuel _ []); [| |by apply Nat.le_succ_diag_r|].
  - intros ts rs0. cbn [app run_task]. apply collect_results.
  - done.
  - apply runs_ok. eexists. split; [done|]. apply combine_rel; [done|]. by eapply verdict_rel_prefix.
Qed.

(** A task that only pushes its verdict. *)
Lemma runs_push fuel t r0 ps x v :
  (∀ ts rs, run_task nodes t (machine ts (rev r0 ++ rs) ps) = Ok (machine ts (x :: rev r0 ++ rs) ps)) →
  verdict_rel ps x v → runs fuel [t] r0 ps (rel_one r0) (Ok v).
Proof.
  intros Hstep Hv. eapply (runs_step fuel fuel t [] r0 (r0 ++ [x])); [| |by apply Nat.le_succ_diag_r|].
  - intros ts rs. by rewrite Hstep, rev_app_distr.
  - done.
  - apply runs_ok. by exists x.
Qed.

(** The new paths of an object's members and of an array's elements. *)
Lemma object_checks_spec properties additional v path members checks ps :
  let selected := omap (fun '(key, id) => (fun s => (key, s, id)) <$> select_property properties additional key) members in
  object_checks properties additional v path members checks ps =
    (checks ++ imap (fun i '(_, s, id) => TNode s (child v id) (length ps + i)) selected,
     ps ++ map (fun '(key, _, _) => (path, escape_pointer key)) selected).
Proof.
  cbv zeta. unfold object_checks. revert checks ps. induction members as [|[key id] members IH]; intros checks ps.
  - simpl. by rewrite !app_nil_r.
  - simpl. destruct (select_property properties additional key) as [s|]; simpl; [|apply IH].
    rewrite IH, <- !app_assoc, length_app. simpl. rewrite Nat.add_0_r. do 3 f_equal.
    apply imap_ext. intros i [[k' s'] id'] _. simpl. f_equal. lia.
Qed.

Lemma array_checks_spec selected v path (l : list (nat * nat)) ts ps :
  fold_left (fun (acc : list Task * list (nat * str)) (element : nat * nat) =>
      (TNode selected (child v element.2) (length acc.2) :: acc.1,
       acc.2 ++ [(path, show_Z (Z.of_nat element.1))])) l (ts, ps) =
    (rev (imap (fun j element => TNode selected (child v element.2) (length ps + j)) l) ++ ts,
     ps ++ map (fun element => (path, show_Z (Z.of_nat element.1))) l).
Proof.
  revert ts ps. induction l as [|[index id] l IH]; intros ts ps.
  - simpl. by rewrite app_nil_r.
  - simpl. rewrite IH, <- !app_assoc, length_app. simpl. rewrite Nat.add_0_r. do 3 f_equal.
    apply imap_ext. intros j [index' id'] _. simpl. f_equal. lia.
Qed.

(** [self] is what the machine does with node tasks. *)
Definition implements fuel (self : nat → Value → list str → checked verdict) : Prop :=
  ∀ id v path segs r0 ps, (0 < length ps)%nat → PathAt ps path segs →
    runs fuel [TNode id v path] r0 ps (rel_one r0) (self id v segs).

Lemma prefix_nonempty {A} (l k : list A) : (0 < length l)%nat → l `prefix_of` k → (0 < length k)%nat.
Proof. intros Hl Hp%prefix_length. lia. Qed.

Lemma runs_simple fuel r v path segs schema r0 ps :
  PathAt ps path segs →
  (∀ m, run_task nodes (TRule r v path schema) m =
     b ← simple_rule r v; Ok (push_result (if b : bool then Ok tt else Err (fail path schema (keyword r))) m)) →
  (∀ e, simple_rule r v = Err e → ∃ e', e = Refused e') →
  runs fuel [TRule r v path schema] r0 ps (rel_one r0)
    (b ← simple_rule r v; Ok (judged b (finding segs schema (keyword r)))).
Proof.
  intros Hp Hstep He. destruct (simple_rule r v) as [b|e] eqn:Hs.
  - rewrite bind_ok. eapply (runs_push _ _ _ _ (if b then Ok tt else Err (fail path schema (keyword r)))).
    + intros ts rs. by rewrite Hstep.
    + by destruct b.
  - destruct (He e eq_refl) as [e' ->]. apply runs_refuse. intros ts rs. by rewrite Hstep.
Qed.

Lemma definition_number_refuses tok e : definition_number tok = Err e → ∃ e', e = Refused e'.
Proof. unfold definition_number. destruct (parse tok); [done|]. simpl. intros [= <-]. eauto. Qed.

Lemma literal_refuses l v e : literal_matches l v = Err e → ∃ e', e = Refused e'.
Proof.
  unfold literal_matches. destruct l, (node v); try done.
  destruct (definition_number tok) eqn:Hd; [done|]. intros [= <-]. by eapply definition_number_refuses.
Qed.

Lemma simple_refuses r v e : simple_rule r v = Err e → ∃ e', e = Refused e'.
Proof.
  destruct r; try done; simpl.
  - apply literal_refuses.
  - generalize false. induction ls as [|l ls IH]; intros matched; simpl; [done|].
    destruct (literal_matches l v) eqn:Hl; simpl; [apply IH|]. intros [= <-]. by eapply literal_refuses.
  - destruct (node v); try done. destruct (definition_number tok) eqn:Hd; [done|]. intros [= <-]. by eapply definition_number_refuses.
  - destruct (node v); try done. destruct (definition_number tok) eqn:Hd; [done|]. intros [= <-]. by eapply definition_number_refuses.
Qed.

(** The branches of a combining rule, all at the rule's own path. *)
Lemma runs_combined fuel self r v path segs schema r0 ps c ids :
  implements fuel self → (0 < length ps)%nat → PathAt ps path segs →
  (∀ m, run_task nodes (TRule r v path schema) m =
     Ok (push_tasks (map (fun id => TNode id v path) ids ++ [TCollect c (length ids) (fail path schema (keyword r))]) m)) →
  runs fuel [TRule r v path schema] r0 ps (rel_one r0)
    (vs ← traverse (fun id => self id v segs) ids; Ok (combine_spec c (finding segs schema (keyword r)) vs)).
Proof.
  intros Hself Hne Hp Hstep. eapply (runs_step fuel fuel); [| done | apply Nat.le_succ_diag_r |].
  - intros ts rs. rewrite Hstep. unfold push_tasks. cbn [tasks results paths machine]. done.
  - apply (runs_branches fuel ids (fun id => TNode id v path)); [|done]. intros id ps1 r1 _ Hpre.
    apply Hself; [by eapply prefix_nonempty | by eapply PathAt_prefix].
Qed.

Lemma imap_pairs {A B} (f : nat → A → B) (l : list A) : imap f l = map (fun '(i, x) => f i x) (imap pair l).
Proof.
  assert (Hg : ∀ g : nat → nat, imap (fun i x => f (g i) x) l = map (fun '(i, x) => f i x) (imap (fun i x => (g i, x)) l)).
  { induction l as [|x l IH]; intros g; [done|]. simpl. f_equal. apply (IH (g ∘ S)). }
  apply (Hg (fun i => i)).
Qed.

Lemma map_snd_imap {A} (l : list A) : map snd (imap pair l) = l.
Proof.
  assert (Hg : ∀ f : nat → nat, map snd (imap (fun i x => (f i, x)) l) = l).
  { induction l as [|x l IH]; intros f; [done|]. simpl. f_equal. apply (IH (f ∘ S)). }
  apply (Hg (fun i => i)).
Qed.

Lemma elem_imap_pair {A} (l : list A) i x : (i, x) ∈ imap pair l → l !! i = Some x.
Proof. intros (j & y & [= -> ->] & Hy)%elem_of_lookup_imap_1. done. Qed.

Lemma runs_members fuel self selected v path segs schema (missing : bool) r0 ps :
  implements fuel self → (0 < length ps)%nat → PathAt ps path segs →
  let ps1 := ps ++ map (fun '(key, _, _) => (path, escape_pointer key)) selected in
  let checks := (if missing then [TFailed (fail path schema (lit "required"))] else [])
                ++ imap (fun i '(_, s, id) => TNode s (child v id) (length ps + i)) selected in
  runs fuel (checks ++ [TCollect CAll (length checks) (fail path schema [])]) r0 ps1 (rel_one r0)
    (vs ← traverse (fun '(key, s, id) => self s (child v id) (segs ++ [escape_pointer key])) selected;
     Ok (all_of ((if missing then [finding segs schema (lit "required")] else []) ++ vs))).
Proof.
  intros Hself Hne Hp ps1 checks. pose proof (PathAt_lt _ _ _ Hp Hne) as Hlt.
  set (l := (if missing then [inl tt] else []) ++ map inr (imap pair selected) : list (unit + nat * (str * nat * nat))).
  set (task := fun x : unit + nat * (str * nat * nat) =>
    match x with
    | inl _ => TFailed (fail path schema (lit "required"))
    | inr (i, (_, s, id)) => TNode s (child v id) (length ps + i)
    end).
  set (spec := fun x : unit + nat * (str * nat * nat) =>
    match x with
    | inl _ => Ok (finding segs schema (lit "required"))
    | inr (_, (key, s, id)) => self s (child v id) (segs ++ [escape_pointer key])
    end : checked verdict).
  assert (Htasks : checks = map task l).
  { unfold checks, l. rewrite map_app, map_map, imap_pairs.
    destruct missing; cbn [app map]; [f_equal|]; apply map_ext; by intros [i [[key s] id]]. }
  assert (Hspec : traverse spec l =
    vs ← traverse (fun '(key, s, id) => self s (child v id) (segs ++ [escape_pointer key])) selected;
    Ok ((if missing then [finding segs schema (lit "required")] else []) ++ vs)).
  { unfold l. rewrite traverse_app, traverse_map.
    assert (E : traverse (fun x => spec (inr x)) (imap pair selected) =
      traverse (fun '(key, s, id) => self s (child v id) (segs ++ [escape_pointer key])) (map snd (imap pair selected))).
    { rewrite traverse_map. apply traverse_ext. by intros [i [[key s] id]] _. }
    rewrite E, map_snd_imap. destruct missing; simpl; by destruct (traverse _ selected). }
  assert (Hl : length checks = length l) by by rewrite Htasks, length_map.
  assert (Hgoal : runs fuel (map task l ++ [TCollect CAll (length l) (fail path schema [])]) r0 ps1 (rel_one r0)
    (vs ← traverse spec l; Ok (combine_spec CAll (finding segs schema []) vs))).
  { apply runs_branches.
    - intros x ps2 r2 Hx Hpre.
      assert (Hpre' : ps `prefix_of` ps2) by (etransitivity; [|done]; by eexists).
      unfold l in Hx. apply elem_of_app in Hx as [Hx|Hx].
      + destruct missing; [|by apply elem_of_nil in Hx]. apply list_elem_of_singleton in Hx as ->.
        eapply runs_push; [done|]. simpl. split; [by eapply PathAt_prefix | done].
      + apply list_elem_of_fmap in Hx as ([i [[key s] id]] & -> & Hi). apply elem_imap_pair in Hi. simpl.
        apply Hself; [by eapply prefix_nonempty|]. apply (PathChild _ _ path); [|lia|by eapply PathAt_prefix].
        apply (prefix_lookup_Some ps1 ps2); [|done]. unfold ps1. rewrite lookup_app_r by lia.
        replace (length ps + i - length ps)%nat with i by lia. by rewrite list_lookup_fmap, Hi.
    - simpl. split; [|done]. eapply PathAt_prefix; [done|]. by eexists. }
  rewrite Hspec in Hgoal. rewrite Hl, Htasks.
  destruct (traverse _ selected) as [vs|e]; exact Hgoal.
Qed.

Lemma runs_elements fuel self selected v path segs schema elements r0 ps :
  implements fuel self → (0 < length ps)%nat → PathAt ps path segs →
  let l := rev (imap pair elements) in
  runs fuel (rev (imap (fun j element => TNode selected (child v element.2) (length ps + j)) l)
             ++ [TCollect CAll (length elements) (fail path schema (lit "items"))]) r0
    (ps ++ map (fun element => (path, show_Z (Z.of_nat element.1))) l) (rel_one r0)
    (vs ← traverse (fun '(index, id) => self selected (child v id) (segs ++ [show_Z (Z.of_nat index)])) (imap pair elements);
     Ok (all_of vs)).
Proof.
  intros Hself Hne Hp l. pose proof (PathAt_lt _ _ _ Hp Hne) as Hlt.
  set (k := rev (imap pair l)).
  set (task := fun x : nat * (nat * nat) => TNode selected (child v x.2.2) (length ps + x.1)).
  set (spec := fun x : nat * nat => self selected (child v x.2) (segs ++ [show_Z (Z.of_nat x.1)])).
  assert (Htasks : rev (imap (fun j element => TNode selected (child v element.2) (length ps + j)) l) = map task k).
  { unfold k. rewrite map_rev, imap_pairs. f_equal. apply map_ext. by intros [j [index id]]. }
  assert (Hk : map snd k = imap pair elements).
  { unfold k. rewrite map_rev, map_snd_imap. unfold l. apply rev_involutive. }
  assert (Hspec : traverse (fun x => spec x.2) k =
    traverse (fun '(index, id) => self selected (child v id) (segs ++ [show_Z (Z.of_nat index)])) (imap pair elements)).
  { rewrite <- Hk, traverse_map. apply traverse_ext. by intros [j [index id]] _. }
  assert (Hlen : length elements = length k) by (unfold k, l; by rewrite length_rev, length_imap, length_rev, length_imap).
  rewrite Htasks, <- Hspec, Hlen.
  apply (runs_branches fuel k task (fun x => spec x.2) r0 _ CAll _ (finding segs schema (lit "items"))).
  - intros [j [index id]] ps2 r2 Hx Hpre. unfold k in Hx. apply list_elem_of_In, in_rev, list_elem_of_In in Hx. apply elem_imap_pair in Hx.
    apply Hself; [eapply prefix_nonempty; [|done]; rewrite length_app; lia|].
    apply (PathChild _ _ path); [|lia|].
    + eapply prefix_lookup_Some; [|exact Hpre]. rewrite lookup_app_r by lia.
      replace (length ps + (j, (index, id)).1 - length ps)%nat with j by (simpl; lia). by rewrite list_lookup_fmap, Hx.
    + eapply PathAt_prefix; [done|]. etransitivity; [|done]. by eexists.
  - split; [|done]. eapply PathAt_prefix; [done|]. by eexists.
Qed.

Lemma runs_rule fuel self r v path segs schema r0 ps :
  implements fuel self → (0 < length ps)%nat → PathAt ps path segs →
  runs fuel [TRule r v path schema] r0 ps (rel_one r0) (eval_rule self r v segs schema).
Proof.
  intros Hself Hne Hp.
  assert (Hsimple : (∀ m, run_task nodes (TRule r v path schema) m =
      b ← simple_rule r v; Ok (push_result (if b : bool then Ok tt else Err (fail path schema (keyword r))) m)) →
    runs fuel [TRule r v path schema] r0 ps (rel_one r0)
      (b ← simple_rule r v; Ok (judged b (finding segs schema (keyword r))))).
  { intros Hstep. apply runs_simple; [done|done|]. intros e. apply simple_refuses. }
  assert (Hfail : ∀ kw, (∀ m, run_task nodes (TRule r v path schema) m = Ok (push_result (Err (fail path schema kw)) m)) →
    runs fuel [TRule r v path schema] r0 ps (rel_one r0) (Ok (finding segs schema kw))).
  { intros kw Hstep. eapply runs_push; [intros ts rs; apply Hstep|]. done. }
  destruct r as [| | | | | | | | | |properties required additional|items min max unique| | | |condition consequence alternative];
    try (by apply Hsimple).
  - eapply (runs_step fuel fuel _ [TNode id v path] r0 r0 ps ps); [done|done|apply Nat.le_succ_diag_r|]. by apply Hself.
  - cbn [eval_rule]. destruct (node v) as [| | | | |members] eqn:Hn; try (apply Hsimple; intros m; cbn [run_task rule_task]; by rewrite Hn).
    set (selected := omap (fun '(key, id) => (fun s => (key, s, id)) <$> select_property properties additional key) members).
    set (missing := existsb (fun name => negb (bt_contains name members)) required).
    eapply (runs_step fuel fuel _ _ r0 r0); [| |apply Nat.le_succ_diag_r|by apply (runs_members fuel self selected v path segs schema missing)].
    + intros ts rs. cbn [run_task rule_task]. rewrite Hn. cbv zeta. rewrite object_checks_spec.
      cbn [tasks results paths machine]. unfold machine. by rewrite <- !app_assoc.
    + by eexists.
  - cbn [eval_rule]. destruct (node v) as [| | | |elements|] eqn:Hn; try (apply Hsimple; intros m; cbn [run_task rule_task]; by rewrite Hn).
    destruct (match min with Some n => (length elements <? n)%nat | None => false end) eqn:Hmin.
    { apply Hfail. intros m. cbn [run_task rule_task]. by rewrite Hn, Hmin. }
    destruct (match max with Some n => (n <? length elements)%nat | None => false end) eqn:Hmax.
    { apply Hfail. intros m. cbn [run_task rule_task]. by rewrite Hn, Hmin, Hmax. }
    destruct (unique && any_repeated [] (map (child v) elements)) eqn:Hunique.
    { apply Hfail. intros m. cbn [run_task rule_task]. by rewrite Hn, Hmin, Hmax, Hunique. }
    destruct items as [selected|].
    + eapply (runs_step fuel fuel _ _ r0 r0); [| |apply Nat.le_succ_diag_r|by apply (runs_elements fuel self selected v path segs schema elements)].
      * intros ts rs. cbn [run_task rule_task]. rewrite Hn, Hmin, Hmax, Hunique. cbv zeta. unfold array_checks.
        rewrite array_checks_spec. cbn [tasks results paths machine]. unfold machine. by rewrite <- app_assoc.
      * by eexists.
    + apply Hsimple. intros m. cbn [run_task rule_task]. by rewrite Hn, Hmin, Hmax, Hunique.
  - by apply (runs_combined fuel self (RAllOf ids) v path segs schema r0 ps CAll ids).
  - by apply (runs_combined fuel self (RAnyOf ids) v path segs schema r0 ps CAny ids).
  - by apply (runs_combined fuel self (ROneOf ids) v path segs schema r0 ps COne ids).
  - cbn [eval_rule].
    eapply (runs_step fuel fuel _ ([TNode condition v path] ++ [TConditional consequence alternative v path]) r0 r0 ps ps);
      [done|done|apply Nat.le_succ_diag_r|].
    eapply runs_bind; [by apply Hself|]. intros ps1 r1 c _ Hpre (x & -> & Hx).
    assert (Hok : is_ok x = is_ok c) by by destruct x, c.
    assert (Hne1 : (0 < length ps1)%nat) by by eapply prefix_nonempty.
    assert (Hp1 : PathAt ps1 path segs) by by eapply PathAt_prefix.
    rewrite <- Hok. destruct (is_ok x) eqn:Hc; [|destruct alternative as [a|]].
    + eapply (runs_step fuel fuel _ [TNode consequence v path] _ r0 ps1 ps1); [|done|apply Nat.le_succ_diag_r|by apply Hself].
      intros ts rs. cbn [run_task]. rewrite rev_app_distr. cbn [rev app results machine]. by rewrite Hc.
    + eapply (runs_step fuel fuel _ [TNode a v path] _ r0 ps1 ps1); [|done|apply Nat.le_succ_diag_r|by apply Hself].
      intros ts rs. cbn [run_task]. rewrite rev_app_distr. cbn [rev app results machine]. by rewrite Hc.
    + eapply (runs_step fuel fuel _ [] _ (r0 ++ [Ok tt]) ps1 ps1); [|done|apply Nat.le_succ_diag_r|by apply runs_ok; eexists].
      intros ts rs. cbn [run_task]. rewrite !rev_app_distr. cbn [rev app results machine]. by rewrite Hc.
Qed.

Lemma runs_eval fuel : implements fuel (eval fuel nodes).
Proof.
  induction fuel as [|fuel IH]; intros id v path segs r0 ps Hne Hp.
  - intros limit ts rs n Hn. by replace n with 0%nat by lia.
  - cbn [eval]. destruct (nodes !! id) as [n|] eqn:Hn.
    2: { apply runs_refuse. intros ts rs. cbn [run_task]. by rewrite Hn. }
    eapply (runs_step (S fuel) fuel); [| done | done |].
    + intros ts rs. cbn [run_task]. by rewrite Hn.
    + apply (runs_branches fuel (rules n) (fun r => TRule r v path (schema_path_of n)) _ r0 ps CAll _ (finding segs (schema_path_of n) [])); [|done].
      intros r ps1 r1 _ Hpre. apply runs_rule; [done|by eapply prefix_nonempty|by eapply PathAt_prefix].
Qed.
End Simulation.

(** ** Properties *)
Definition exhausted_at (ops : nat) : checked unit := Err (Refused (ValidationLimit "schema_operations" ops)).

(** C21: the stack machine of [validate] implements the recursive reading of the
    compiled rules.  When the reading reaches a verdict there is one number of
    operations [k] such that every smaller limit reports that validation is
    unavailable and every limit from [k] on reports exactly that verdict (accepted,
    the first failing rule with its JSON pointer, or an invalid definition); when
    the reading needs more than [fuel] levels, every limit up to [fuel] is
    exhausted.  So a resource limit never turns into a matching or a nonmatching
    branch, and the machine never panics. *)
Theorem validate_refines `{BigIntOps} (nodes : list SchemaNode) (entry : nat) (v : Value) (fuel : nat) :
  match eval fuel nodes entry v [] with
  | Err OutOfFuel => ∀ ops, (ops <= fuel)%nat → validate nodes entry v {| operations := ops |} = exhausted_at ops
  | r => ∃ k, ∀ ops, validate nodes entry v {| operations := ops |} =
                     if (ops <? k)%nat then exhausted_at ops else eval_report r
  end.
Proof.
  pose proof (runs_eval nodes fuel entry v 0%nat [] [] [(0%nat, [])] (Nat.lt_0_succ _) (PathRoot _)) as Hruns.
  unfold runs, validate in *. cbn [operations]. destruct (eval fuel nodes entry v []) as [s|[e|site|]]; [| |done|].
  - destruct Hruns as (k & ps' & r & Hpre & (x & -> & Hx) & Hrun). exists k. intros ops.
    destruct (Hrun ops [] []) as [Hlt Hge]. destruct (Nat.ltb_spec ops k) as [Hop|Hop].
    + rewrite app_nil_r in Hlt. simpl in Hlt. by rewrite Hlt.
    + replace ops with (k + (ops - k))%nat at 2 by lia. simpl in Hge. rewrite Hge, loop_nil, bind_ok.
      unfold report. cbn [results paths]. destruct x as [[]|f], s as [[]|g]; try done.
      destruct Hx as (Hpath & Hs & Hk).
      assert (Hlen : (f_path f < length ps')%nat).
      { eapply PathAt_lt; [done|]. apply prefix_length in Hpre. simpl in Hpre. lia. }
      rewrite (path_segments_spec ps' (f_path f) (s_path g)) by (done || lia).
      rewrite bind_ok, rev_involutive. unfold eval_report. by rewrite bind_ok, Hs, Hk.
  - destruct Hruns as (k & Hrun). exists k. intros ops. destruct (Hrun ops [] []) as [Hlt Hge].
    destruct (Nat.ltb_spec ops k) as [Hop|Hop].
    + simpl in Hlt. by rewrite Hlt.
    + replace ops with (k + (ops - k))%nat at 2 by lia. simpl in Hge. by rewrite Hge.
  - intros ops Hops. specialize (Hruns ops [] [] ops Hops). simpl in Hruns. by rewrite Hruns.
Qed.
