(* ===== verification/Stream.v ===== *)
(** * Stream: admission of one captured record (protocol/engine/src/lib.rs, stream.rs)

    What every reader of a record shares: the error type, the typed field
    accessors, schema validation with its three outcomes, the classification of
    records and the derived bounds of goal evidence.  The tables the build
    generates from the shared contract (schema nodes, entry points, the event
    discriminators, the terminal outcomes) are the class [StreamContract]. *)
From Stdlib Require Import QArith.
From S2P Require Import Prelude Number Utf8 BTree Json JsonTree Schema.
#[local] Open Scope Z_scope.

Inductive ContractError :=
| InvalidRecord (cause : str)
| InvalidDefinitionOf (cause : str)
| InvalidConfiguration (cause : str)
| ValidationUnavailable (cause : str).

Global Instance ContractError_eq_dec : EqDecision ContractError.
Proof. solve_decision. Defined.

(** [ContractResult], in code that can also panic. *)
Abbreviation contract A := (result (fault ContractError) A).

Definition invalid {A} (cause : str) : contract A := Err (Refused (InvalidRecord cause)).

(** [Display for ContractError] *)
Definition error_text (e : ContractError) : str :=
  match e with
  | InvalidRecord cause | InvalidDefinitionOf cause | InvalidConfiguration cause | ValidationUnavailable cause => cause
  end.

Record TerminalOutcome := { subtype : str; is_error : bool; exit_code : Z }.

Inductive PartialKind :=
| MessageStart | ContentBlockStart | ContentBlockDelta | ContentBlockStop | MessageStop
| GoalState | ActiveGoal | ToolProgress.

Global Instance PartialKind_eq_dec : EqDecision PartialKind.
Proof. solve_decision. Defined.

(** What the build generates from the stream contract. *)
Class StreamContract := {
  NODES : list SchemaNode;
  entry_record : nat;
  entry_terminal_result : nat;
  entry_goal_snapshot : nat;
  entry_goal_checkpoint_evidence_bytes : nat;
  entry_model_generation_evidence : nat;
  entry_generation_envelope : nat;
  STREAM_CONTRACT_SHA256 : str;
  EventKind : Type;
  EventKind_eq_dec : EqDecision EventKind;
  kind_result : EventKind;
  kind_stream_event : EventKind;
  event_from_wire : str → option EventKind;
  partial_from_wire : str → option PartialKind;
  TERMINAL_OUTCOMES : list TerminalOutcome;
}.
Global Existing Instance EventKind_eq_dec.

Definition SAFE_INTEGER : Z := 9007199254740991.

(** ** Typed access to a record's fields *)
Definition at_line (line : Z) : str := lit "events.jsonl line " ++ show_Z line.

Definition field (v : Value) (key : str) (line : Z) : contract Value :=
  ok_or (get v key) (Refused (InvalidRecord (at_line line ++ lit " lacks " ++ key))).

Definition nonempty_str (s : option str) : option str :=
  match s with Some (b :: s) => Some (b :: s) | _ => None end.

Definition text (v : Value) (key : str) (line : Z) : contract str :=
  f ← field v key line;
  ok_or (nonempty_str (as_str f)) (Refused (InvalidRecord (at_line line ++ lit " lacks non-empty string " ++ key))).

Definition unsigned (v : Value) (name : str) (maximum : Z) : contract Z :=
  n ← ok_or (as_number v) (Refused (InvalidRecord (name ++ lit " must be a number")));
  map_err (fun _ => Refused (InvalidRecord (name ++ lit " is not an admitted non-negative integer")))
    (as_unsigned n maximum).

Section Stream.
Context `{BigIntOps} `{StreamContract}.

Definition terminal_exit_code (name : str) : option Z :=
  exit_code <$> List.find (fun o => bool_decide (subtype o = name)) TERMINAL_OUTCOMES.

(** [stream::validate]: a rejected record, a broken definition and an exhausted
    validation are different errors. *)
Definition validate_entry (v : Value) (entry : nat) (limits : ValidationLimits) (line : Z) : contract unit :=
  map_refused (fun error =>
      match error with
      | Rejected m =>
          InvalidRecord (at_line line ++ lit " violates stream contract " ++ STREAM_CONTRACT_SHA256
            ++ lit " at " ++ instance_path m ++ lit " (schema rule " ++ schema_path m
            ++ lit "); inspect this record against the named contract and use a matching producer and reader for a new capture")
      | InvalidDefinition cause => InvalidDefinitionOf (lit cause)
      | ValidationLimit resource limit =>
          ValidationUnavailable (lit resource ++ lit " limit " ++ show_Z (Z.of_nat limit))
      end) (validate NODES entry v limits).

Definition decode_event_kind (v : Value) (line : Z) : contract EventKind :=
  name ← text v "type" line;
  ok_or (event_from_wire name) (Refused (InvalidRecord (at_line line ++ lit " has unsupported event type"))).

Definition goal_refusal {A} (line : Z) (cause : string) : contract A :=
  invalid (at_line line ++ lit " has invalid goal checkpoint evidence: " ++ lit cause).

(** The loop over the claims: identities by position, and the claims' bytes. *)
Definition claim_step (checkpoint_id : str) (line : Z) (bytes : Z) (claim : nat * Value) : contract Z :=
  position ← match checked_add (Z.of_nat claim.1) 1 with
             | Some position => Ok position
             | None => goal_refusal line "claim position overflow"
             end;
  id ← text claim.2 "id" line;
  if bool_decide (id ≠ checkpoint_id ++ lit ":" ++ show_Z position)
  then goal_refusal line "claim identity does not match its checkpoint and position"
  else
    c ← text claim.2 "claim" line;
    match checked_add bytes (Z.of_nat (length c)) with
    | Some bytes => Ok bytes
    | None => goal_refusal line "claim byte count overflow"
    end.

(** The evidence bound is itself a schema, so the derived count is decoded as a
    one-node document and validated. *)
Definition validate_evidence_bytes (bytes : Z) (limits : ValidationLimits) (line : Z) : contract unit :=
  let count := show_Z bytes in
  document ← map_refused (fun _ => InvalidDefinitionOf (lit "derived evidence count"))
    (decode count {| limit_bytes := Z.of_nat (length count); limit_nodes := 1; limit_depth := 0 |});
  map_refused (fun error =>
      match error with
      | InvalidRecord _ =>
          InvalidRecord (at_line line ++ lit " has invalid goal checkpoint evidence: claim UTF-8 bytes exceed the shared evidence bound")
      | other => other
      end) (validate_entry (root document) entry_goal_checkpoint_evidence_bytes limits line).

Definition validate_goal_evidence (snapshot : Value) (limits : ValidationLimits) (line : Z) : contract unit :=
  _ ← validate_entry snapshot entry_goal_snapshot limits line;
  goal ← field snapshot "goal" line;
  match get goal "evidenceCheckpoint" with
  | None => Ok tt
  | Some checkpoint =>
      cursor ← field goal "evidenceCursor" line;
      record_id ← field cursor "recordId" line;
      checkpoint_value ← field checkpoint "checkpointId" line;
      if negb (values_equal record_id checkpoint_value)
      then goal_refusal line "cursor does not name the checkpoint"
      else
        checkpoint_id ← text checkpoint "checkpointId" line;
        claims ← field checkpoint "claims" line;
        match elements claims with
        | None => goal_refusal line "claims must be an array"
        | Some claims =>
            bytes ← fold_result (claim_step checkpoint_id line) 0 (imap pair claims);
            validate_evidence_bytes bytes limits line
        end
  end.

(** [DecodedRecord] and [PartialRecord]. *)
Record DecodedRecord := { record_value : Value; record_kind : EventKind }.
Record PartialRecord := { partial_value : Value; partial_kind : PartialKind }.

Definition decode_record (v : Value) (limits : ValidationLimits) (line : Z) : contract DecodedRecord :=
  kind ← decode_event_kind v line;
  _ ← (if decide (kind = kind_result) then validate_entry v entry_terminal_result limits line else Ok tt);
  _ ← validate_entry v entry_record limits line;
  _ ← (if decide (kind = kind_stream_event) then
         event ← field v "event" line;
         type ← text event "type" line;
         if decide (type = lit "goal_state") then
           event ← field v "event" line;
           snapshot ← field event "goal_state" line;
           validate_goal_evidence snapshot limits line
         else Ok tt
       else Ok tt);
  Ok {| record_value := v; record_kind := kind |}.

Definition decode_event (v : Value) (limits : ValidationLimits) (line : Z) : contract EventKind :=
  record_kind <$> decode_record v limits line.

Definition record_partial (r : DecodedRecord) : option PartialRecord :=
  if decide (record_kind r ≠ kind_stream_event) then None
  else
    event ← get (record_value r) "event";
    type ← get event "type";
    name ← as_str type;
    kind ← partial_from_wire name;
    Some {| partial_value := event; partial_kind := kind |}.
End Stream.

(** ** The derived evidence count *)
Lemma show_Z_number n : 0 <= n → number_text (show_Z n) (scaled n 0).
Proof.
  intros Hn. destruct (show_Z_spec n Hn) as (Hv & Hd & b & r & Hs & Hz).
  assert (Hi : int_text (show_Z n)).
  { rewrite Hs in *. simpl in Hd. to_prop. rewrite is_ascii_digit_spec in *.
    destruct (Z.eq_dec b 48) as [->|Hb]; [destruct (Hz eq_refl) as [_ ->]; constructor|].
    constructor; [lia | done]. }
  pose proof (number_text_intro false (show_Z n) [] [] [] 0 Hi frac_none exp_none) as Ht.
  simpl in Ht. by rewrite !app_nil_r, Hv in Ht.
Qed.

Section Count.
Context `{BigIntOps} `{!BigIntLaws}.

Lemma digit_not_whitespace b : is_ascii_digit b = true → is_whitespace b = false.
Proof.
  rewrite is_ascii_digit_spec. intros Hb. unfold is_whitespace.
  rewrite !orb_false_iff, !Z.eqb_neq. lia.
Qed.

(** One number, and nothing else: the decoder returns a one-node document. *)
Lemma decode_digits s q limits :
  s ≠ [] → forallb is_ascii_digit s = true → number_text s q →
  Z.of_nat (length s) <= limit_bytes limits → 0 < limit_nodes limits →
  ∃ d n, decode s limits = Ok d ∧ node (root d) = NumberNode n ∧ token n = s ∧ (denote (value n) == q)%Q.
Proof.
  intros Hne Hd Hq Hb Hn. destruct (parse_complete s q Hq) as (n & Hp & Ht & Hv).
  destruct s as [|b s']; [done|]. set (s := b :: s') in *.
  assert (Hb0 : is_ascii_digit b = true) by (simpl in Hd; by to_prop).
  assert (Hvalid : is_ok (from_utf8 s) = true).
  { apply from_utf8_Valid, Valid_ascii. apply Forall_forall. intros c Hc.
    rewrite forallb_forall in Hd. apply list_elem_of_In, Hd, is_ascii_digit_spec in Hc. lia. }
  assert (Hhead : s !! 0%nat = Some b) by done.
  assert (Hskip : skip_while is_number_byte s 0 = length s).
  { unfold skip_while. cbn [drop Nat.add]. rewrite <- (app_nil_r s) at 1. apply prefix_len_app; [|done].
    rewrite forallb_forall in *. intros c Hc. unfold is_number_byte. rewrite (Hd c Hc). by rewrite orb_true_r. }
  assert (Hslice : slice 0 (length s) s = s) by (unfold slice; rewrite Nat.sub_0_r, drop_0; by apply firstn_all).
  set (entry := {| node_of := NumberNode n; span_start := 0; span_end := length s |}).
  exists {| source := s; entries := [entry]; root_id := 0 |}, n. split; [|done].
  unfold decode. destruct (Z.ltb_spec (limit_bytes limits) (Z.of_nat (length s))); [lia|].
  destruct (from_utf8 s); [|done]. cbn [length].
  assert (Hstep : step (start_parser s limits) =
    Ok (inl {| p_source := s; p_at := length s; p_entries := [entry]; p_frames := []; p_root := Some 0%nat; p_limits := limits |})).
  { unfold step, whitespace. cbn [p_frames p_root p_source p_at start_parser set_at].
    rewrite (skip_while_unroll _ s 0), !Hhead, (digit_not_whitespace b Hb0), Hhead.
    unfold value_step. cbn [p_source p_at set_at start_parser]. rewrite Hb0. rewrite is_ascii_digit_spec in Hb0.
    repeat (match goal with |- context [b =? ?c] => destruct (Z.eqb_spec b c); [lia|] end).
    cbn [orb]. fold s. rewrite Hskip, Hslice, Hp. cbn [map_err]. rewrite bind_ok. unfold accept.
    cbn [p_entries p_limits length set_at p_frames p_root start_parser]. destruct (Z.eqb_spec (Z.of_nat 0) (limit_nodes limits)); [lia|].
    reflexivity. }
  cbn [run]. rewrite Hstep, bind_ok. unfold s. cbn [run length]. fold s.
  unfold step, whitespace. cbn [p_frames p_root p_source p_at set_at].
  rewrite (skip_while_unroll _ s (length s)). rewrite (lookup_ge_None_2 s (length s)) by lia.
  by rewrite (lookup_ge_None_2 s (length s)) by lia.
Qed.

Lemma decode_count n :
  0 <= n →
  ∃ d m, decode (show_Z n) {| limit_bytes := Z.of_nat (length (show_Z n)); limit_nodes := 1; limit_depth := 0 |} = Ok d ∧
    node (root d) = NumberNode m ∧ token m = show_Z n ∧ (denote (value m) == scaled n 0)%Q.
Proof.
  intros Hn. destruct (show_Z_spec n Hn) as (_ & Hd & b & r & Hs & _). apply decode_digits; simpl; try lia.
  - by rewrite Hs.
  - done.
  - by apply show_Z_number.
Qed.
End Count.

(** ** What the accessors promise *)
Lemma field_ok v key line f : field v key line = Ok f ↔ get v key = Some f.
Proof. unfold field. destruct (get v key); simpl; split; congruence. Qed.

Lemma text_ok v key line s :
  text v key line = Ok s ↔ s ≠ [] ∧ ∃ f, get v key = Some f ∧ as_str f = Some s.
Proof.
  unfold text. split.
  - intros (f & Hf%field_ok & Hs)%bind_ok_inv. apply ok_or_ok in Hs.
    destruct (as_str f) as [[|b t]|] eqn:E; try done. injection Hs as <-. split; [done|]. by exists f.
  - intros (Hne & f & Hf & Hs). rewrite (proj2 (field_ok v key line f) Hf), bind_ok, Hs. by destruct s.
Qed.

Lemma unsigned_ok v name maximum n :
  unsigned v name maximum = Ok n ↔ ∃ x, as_number v = Some x ∧ as_unsigned x maximum = Ok n.
Proof.
  unfold unsigned. split.
  - intros (x & Hx%ok_or_ok & Hn%map_err_ok)%bind_ok_inv. by exists x.
  - intros (x & -> & Hn). simpl. by rewrite Hn.
Qed.

(** The accessors refuse; they never panic. *)
Lemma safe_field v key line : safe (field v key line) (λ f, get v key = Some f).
Proof. unfold field. by destruct (get v key). Qed.

Lemma safe_text v key line : safe (text v key line) (λ s, s ≠ []).
Proof. unfold text, field. destruct (get v key) as [f|]; [simpl|done]. by destruct (as_str f) as [[]|]. Qed.

Lemma safe_unsigned v name maximum : safe (unsigned v name maximum) (λ _, True).
Proof. unfold unsigned. destruct (as_number v) as [n|]; [simpl|done]. by destruct (as_unsigned n maximum). Qed.

(** ** Goal evidence *)
Definition claim_text (claim : Value) : str := default [] (get claim "claim" ≫= as_str).

(** The claims of a checkpoint: each is identified by the checkpoint and its own
    position, from one, and states something. *)
Definition claims_of (checkpoint_id : str) (claims : list Value) : Prop :=
  ∀ i claim, claims !! i = Some claim →
    (get claim "id" ≫= as_str) = Some (checkpoint_id ++ lit ":" ++ show_Z (Z.of_nat i + 1)) ∧
    claim_text claim ≠ [].

Definition evidence_bytes (claims : list Value) : Z :=
  Z.of_nat (sum_list (map (fun c => length (claim_text c)) claims)).

Section GoalEvidence.
Context `{BigIntOps} `{StreamContract}.

Lemma claim_step_ok id line bytes i claim bytes' :
  claim_step id line bytes (i, claim) = Ok bytes' →
  (get claim "id" ≫= as_str) = Some (id ++ lit ":" ++ show_Z (Z.of_nat i + 1)) ∧
  claim_text claim ≠ [] ∧ bytes' = bytes + Z.of_nat (length (claim_text claim)) ∧ bytes' <= U64_MAX.
Proof.
  unfold claim_step. cbn [fst snd]. intros (position & Hp & H2)%bind_ok_inv.
  destruct (checked_add (Z.of_nat i) 1) as [p|] eqn:Hadd; [|done]. injection Hp as <-.
  apply checked_add_Some in Hadd as [-> _].
  apply bind_ok_inv in H2 as (t & Ht & H2). apply text_ok in Ht as (_ & f & Hf & Ht).
  case_bool_decide as Hid; [done|].
  apply bind_ok_inv in H2 as (c & Hc & H2). apply text_ok in Hc as (Hcne & g & Hg & Hc).
  destruct (checked_add bytes (Z.of_nat (length c))) as [b|] eqn:Hadd; [|done]. injection H2 as <-.
  apply checked_add_Some in Hadd as [-> Hle]. unfold claim_text. rewrite Hf, Hg. simpl. rewrite Ht, Hc. simpl.
  rewrite Hid. done.
Qed.

Lemma claims_ok id line (k : nat) claims bytes bytes' :
  0 <= bytes <= U64_MAX →
  fold_result (claim_step id line) bytes (imap (fun i c => ((k + i)%nat, c)) claims) = Ok bytes' →
  bytes' = bytes + evidence_bytes claims ∧ bytes' <= U64_MAX ∧
  ∀ i claim, claims !! i = Some claim →
    (get claim "id" ≫= as_str) = Some (id ++ lit ":" ++ show_Z (Z.of_nat (k + i) + 1)) ∧ claim_text claim ≠ [].
Proof.
  revert k bytes. induction claims as [|c claims IH]; intros k bytes Hb Hf.
  - simpl in Hf. injection Hf as <-. unfold evidence_bytes. simpl. split; [lia|]. split; [lia|]. done.
  - simpl in Hf. apply bind_ok_inv in Hf as (b1 & Hc & Hf). apply claim_step_ok in Hc as (Hid & Hne & -> & Hle).
    assert (E : imap ((λ i c, ((k + i)%nat, c)) ∘ S) claims = imap (λ i c, ((S k + i)%nat, c)) claims).
    { apply imap_ext. intros i x _. simpl. f_equal. lia. }
    rewrite E in Hf. apply IH in Hf as (-> & Hle' & Hcl); [|lia]. split.
    { unfold evidence_bytes. simpl. lia. }
    split; [done|]. intros [|i] claim Hi.
    + injection Hi as <-. by replace (k + 0)%nat with k in * by lia.
    + replace (k + S i)%nat with (S k + i)%nat by lia. by apply Hcl.
Qed.

Lemma claims_from_zero (claims : list Value) : imap (fun i c => ((0 + i)%nat, c)) claims = imap pair claims.
Proof. by apply imap_ext. Qed.
End GoalEvidence.

(** ** Properties *)

(** Goal evidence that is admitted is evidence: the snapshot satisfies its
    schema and, when the goal names a checkpoint, the evidence cursor names that
    very checkpoint, claim number [i] is identified by the checkpoint and the
    position [i], every claim is nonempty, and the claims' bytes, summed without
    overflow, were themselves admitted by the shared bound as one exact JSON
    number. *)
Theorem goal_evidence_sound `{BigIntOps} `{!BigIntLaws} `{StreamContract}
    (snapshot : Value) (limits : ValidationLimits) (line : Z) :
  validate_goal_evidence snapshot limits line = Ok tt →
  validate_entry snapshot entry_goal_snapshot limits line = Ok tt ∧
  ∃ goal, get snapshot "goal" = Some goal ∧ ∀ checkpoint, get goal "evidenceCheckpoint" = Some checkpoint →
    ∃ cursor record_id named id claims document n,
      get goal "evidenceCursor" = Some cursor ∧ get cursor "recordId" = Some record_id ∧
      get checkpoint "checkpointId" = Some named ∧ values_equal record_id named = true ∧
      as_str named = Some id ∧ (get checkpoint "claims" ≫= elements) = Some claims ∧
      claims_of id claims ∧ evidence_bytes claims <= U64_MAX ∧
      node (root document) = NumberNode n ∧ (denote (value n) == scaled (evidence_bytes claims) 0)%Q ∧
      validate_entry (root document) entry_goal_checkpoint_evidence_bytes limits line = Ok tt.
Proof.
  unfold validate_goal_evidence. intros ([] & Hv & (goal & Hg%field_ok & Hr)%bind_ok_inv)%bind_ok_inv.
  split; [done|]. exists goal. split; [done|]. intros checkpoint Hc. rewrite Hc in Hr.
  apply bind_ok_inv in Hr as (cursor & Hcur%field_ok & (rid & Hrid%field_ok & (named & Hn%field_ok & Hr)%bind_ok_inv)%bind_ok_inv).
  destruct (values_equal rid named) eqn:Heq; [|done]. cbn [negb] in Hr.
  apply bind_ok_inv in Hr as (id & (_ & named' & Hn' & Hid)%text_ok & (cs & Hcs%field_ok & Hr)%bind_ok_inv).
  rewrite Hn in Hn'. injection Hn' as <-. destruct (elements cs) as [claims|] eqn:Hel; [|done].
  apply bind_ok_inv in Hr as (bytes & Hfold & Hbytes). rewrite <- claims_from_zero in Hfold.
  apply claims_ok in Hfold as (-> & Hle & Hcl); [|by split]. rewrite Z.add_0_l in Hle, Hbytes.
  assert (Hpos : 0 <= evidence_bytes claims) by (unfold evidence_bytes; lia).
  destruct (decode_count (evidence_bytes claims) Hpos) as (d & n & Hd & Hnode & _ & Hval).
  unfold validate_evidence_bytes in Hbytes. rewrite Hd in Hbytes. cbn [map_refused] in Hbytes.
  rewrite bind_ok in Hbytes. apply map_refused_ok in Hbytes.
  exists cursor, rid, named, id, claims, d, n. split_and!; try done. by rewrite Hcs.
Qed.

(** A contract small enough to evaluate: every record is admitted, and evidence
    is bounded by one hundred bytes. *)
Definition example_contract : StreamContract := {|
  NODES := [{| schema_path_of := lit "#"; rules := [] |};
            {| schema_path_of := lit "#/bytes"; rules := [RMaximum (lit "100")] |}];
  entry_record := 0; entry_terminal_result := 0; entry_goal_snapshot := 0;
  entry_goal_checkpoint_evidence_bytes := 1;
  entry_model_generation_evidence := 0; entry_generation_envelope := 0;
  STREAM_CONTRACT_SHA256 := [];
  EventKind := bool; EventKind_eq_dec := _; kind_result := true; kind_stream_event := false;
  event_from_wire := fun s => if decide (s = lit "result") then Some true
                              else if decide (s = lit "stream_event") then Some false else None;
  partial_from_wire := fun s =>
    if decide (s = lit "message_start") then Some MessageStart
    else if decide (s = lit "content_block_start") then Some ContentBlockStart
    else if decide (s = lit "content_block_delta") then Some ContentBlockDelta
    else if decide (s = lit "content_block_stop") then Some ContentBlockStop
    else if decide (s = lit "message_stop") then Some MessageStop
    else if decide (s = lit "goal_state") then Some GoalState else None;
  TERMINAL_OUTCOMES := [{| subtype := lit "success"; is_error := false; exit_code := 0 |}];
|}.

Lemma goal_evidence_sound_witness :
  let snapshot := root (decoded
    "{'goal':{'evidenceCursor':{'recordId':'c'},'evidenceCheckpoint':{'checkpointId':'c','claims':[{'id':'c:1','claim':'it'},{'id':'c:2','claim':'works'}]}}}") in
  ∃ goal checkpoint claims, get snapshot "goal" = Some goal ∧ get goal "evidenceCheckpoint" = Some checkpoint ∧
    (get checkpoint "claims" ≫= elements) = Some claims ∧ claims_of (lit "c") claims ∧ evidence_bytes claims = 7.
Proof.
  intros snapshot.
  destruct (@goal_evidence_sound decimal_bigint decimal_bigint_laws example_contract snapshot {| operations := 50 |} 1)
    as (_ & goal & Hg & Hall); [by vm_compute|].
  vm_compute in Hg. injection Hg as <-. eexists _, _, _. split; [by vm_compute|]. split; [by vm_compute|].
  destruct (Hall _ eq_refl) as (cursor & rid & named & id & claims & d & n & _ & _ & Hn & _ & Hid & Hcs & Hof & _).
  vm_compute in Hcs. injection Hcs as <-. vm_compute in Hn. injection Hn as <-. vm_compute in Hid. injection Hid as <-.
  split; [by vm_compute|]. split; [exact Hof | by vm_compute].
Defined.
