(* ===== verification/Usage.v ===== *)
(** * Usage: physical request populations and their served counts
      (protocol/engine/src/usage.rs)

    A summary counts the requests of a scope, how many were finalized with a
    usage report, how many without, how many are open, and adds up the reports.
    The specification is the list of the requests themselves: every operation of
    the summary computes exactly the summary of the list it stands for, and
    refuses exactly when a count would leave the exact integer range or a report
    is inconsistent. *)
From S2P Require Import Prelude Number Utf8 BTree Json JsonTree Schema Stream.

Definition usage_refusal {A} (detail : string) : contract A :=
  invalid (lit "invalid physical usage: " ++ lit detail
           ++ lit "; inspect the complete original recording with its matching client").

Definition count_sum (left_ right_ : Z) : contract Z :=
  match checked_add left_ right_ with
  | Some sum => if sum <=? SAFE_INTEGER then Ok sum else usage_refusal "count exceeds the contract's exact integer range"
  | None => usage_refusal "count exceeds the contract's exact integer range"
  end.

Record ServedUsage := { prompt : Z; output : Z; thoughts : Z; cached : Z; total : Z }.

Record GenerationUsageSummary := {
  requests : Z;
  usage_reports : Z;
  unfinalized_requests : Z;
  unreported_usage_requests : Z;
  usage : option ServedUsage;
}.

Global Instance ServedUsage_eq_dec : EqDecision ServedUsage.
Proof. solve_decision. Defined.
Global Instance GenerationUsageSummary_eq_dec : EqDecision GenerationUsageSummary.
Proof. solve_decision. Defined.

Definition served_validate (u : ServedUsage) : contract unit :=
  if existsb (fun count => SAFE_INTEGER <? count) [prompt u; output u; thoughts u; cached u; total u]
     || negb (bool_decide (checked_add (prompt u) (output u) = Some (total u)))
     || (output u <? thoughts u) || (prompt u <? cached u)
  then usage_refusal "served token counts are inconsistent"
  else Ok tt.

Definition served_checked_add (a b : ServedUsage) : contract ServedUsage :=
  _ ← served_validate a;
  _ ← served_validate b;
  prompt ← count_sum (prompt a) (prompt b);
  output ← count_sum (output a) (output b);
  thoughts ← count_sum (thoughts a) (thoughts b);
  cached ← count_sum (cached a) (cached b);
  total ← count_sum (total a) (total b);
  let sum := {| prompt := prompt; output := output; thoughts := thoughts; cached := cached; total := total |} in
  _ ← served_validate sum;
  Ok sum.

Definition served_read (v : Value) (line : Z) : contract ServedUsage :=
  let count key := f ← field v key line; unsigned f key SAFE_INTEGER in
  prompt ← count (lit "promptTokenCount");
  output ← count (lit "candidatesTokenCount");
  thoughts ← count (lit "thoughtsTokenCount");
  cached ← count (lit "cachedContentTokenCount");
  total ← count (lit "totalTokenCount");
  let served := {| prompt := prompt; output := output; thoughts := thoughts; cached := cached; total := total |} in
  _ ← served_validate served;
  Ok served.

Definition option_validate (u : option ServedUsage) : contract unit :=
  match u with Some u => served_validate u | None => Ok tt end.

Definition summary_validate (s : GenerationUsageSummary) : contract unit :=
  if existsb (fun count => SAFE_INTEGER <? count)
       [requests s; usage_reports s; unfinalized_requests s; unreported_usage_requests s]
     || negb (bool_decide ((checked_add (usage_reports s) (unfinalized_requests s)
                            ≫= fun count => checked_add count (unreported_usage_requests s)) = Some (requests s)))
     || negb (Bool.eqb (usage_reports s =? 0) (bool_decide (usage s = None)))
  then usage_refusal "request population is inconsistent"
  else option_validate (usage s).

Definition admit_request (s : GenerationUsageSummary) : contract GenerationUsageSummary :=
  _ ← summary_validate s;
  requests ← count_sum (requests s) 1;
  unfinalized ← count_sum (unfinalized_requests s) 1;
  Ok {| requests := requests; usage_reports := usage_reports s; unfinalized_requests := unfinalized;
        unreported_usage_requests := unreported_usage_requests s; usage := usage s |}.

Definition finalize (s : GenerationUsageSummary) (served : option ServedUsage) : contract GenerationUsageSummary :=
  _ ← summary_validate s;
  unfinalized ← match checked_sub (unfinalized_requests s) 1 with
                | Some n => Ok n
                | None => usage_refusal "outcome has no unfinalized request"
                end;
  settled ←
    match served with
    | Some served =>
        _ ← served_validate served;
        reports ← count_sum (usage_reports s) 1;
        sum ← match usage s with Some previous => served_checked_add previous served | None => Ok served end;
        Ok {| requests := requests s; usage_reports := reports; unfinalized_requests := unfinalized;
              unreported_usage_requests := unreported_usage_requests s; usage := Some sum |}
    | None =>
        unreported ← count_sum (unreported_usage_requests s) 1;
        Ok {| requests := requests s; usage_reports := usage_reports s; unfinalized_requests := unfinalized;
              unreported_usage_requests := unreported; usage := usage s |}
    end;
  _ ← summary_validate settled;
  Ok settled.

Definition summary_checked_add (a b : GenerationUsageSummary) : contract GenerationUsageSummary :=
  _ ← summary_validate a;
  _ ← summary_validate b;
  requests ← count_sum (requests a) (requests b);
  reports ← count_sum (usage_reports a) (usage_reports b);
  unfinalized ← count_sum (unfinalized_requests a) (unfinalized_requests b);
  unreported ← count_sum (unreported_usage_requests a) (unreported_usage_requests b);
  served ← match usage a, usage b with
           | Some left_, Some right_ => Some <$> served_checked_add left_ right_
           | Some u, None | None, Some u => Ok (Some u)
           | None, None => Ok None
           end;
  let sum := {| requests := requests; usage_reports := reports; unfinalized_requests := unfinalized;
                unreported_usage_requests := unreported; usage := served |} in
  _ ← summary_validate sum;
  Ok sum.

Definition summary_read (v : Value) (line : Z) : contract GenerationUsageSummary :=
  let count key := f ← field v key line; unsigned f key SAFE_INTEGER in
  served ← field v "usage" line;
  requests ← count (lit "requests");
  reports ← count (lit "usageReports");
  unfinalized ← count (lit "unfinalizedRequests");
  unreported ← count (lit "unreportedUsageRequests");
  u ← (if is_null served then Ok None else Some <$> served_read served line);
  let summary := {| requests := requests; usage_reports := reports; unfinalized_requests := unfinalized;
                    unreported_usage_requests := unreported; usage := u |} in
  _ ← summary_validate summary;
  Ok summary.

Definition require_summary (s : GenerationUsageSummary) (v : Value) (line : Z) : contract unit :=
  recorded ← summary_read v line;
  if bool_decide (s ≠ recorded) then usage_refusal "summary contradicts recorded requests and outcomes" else Ok tt.

(** ** The requests a summary stands for *)
Inductive Request := Open | Reported (u : ServedUsage) | Unreported.

Definition plus_usage (a b : ServedUsage) : ServedUsage :=
  {| prompt := prompt a + prompt b; output := output a + output b; thoughts := thoughts a + thoughts b;
     cached := cached a + cached b; total := total a + total b |}.
Definition join_usage (a b : option ServedUsage) : option ServedUsage :=
  match a, b with
  | Some a, Some b => Some (plus_usage a b)
  | Some u, None | None, Some u => Some u
  | None, None => None
  end.

Definition no_requests : GenerationUsageSummary :=
  {| requests := 0; usage_reports := 0; unfinalized_requests := 0; unreported_usage_requests := 0; usage := None |}.
Definition one_request (r : Request) : GenerationUsageSummary :=
  match r with
  | Open => {| requests := 1; usage_reports := 0; unfinalized_requests := 1; unreported_usage_requests := 0; usage := None |}
  | Reported u => {| requests := 1; usage_reports := 1; unfinalized_requests := 0; unreported_usage_requests := 0; usage := Some u |}
  | Unreported => {| requests := 1; usage_reports := 0; unfinalized_requests := 0; unreported_usage_requests := 1; usage := None |}
  end.
Definition plus_summary (a b : GenerationUsageSummary) : GenerationUsageSummary :=
  {| requests := requests a + requests b; usage_reports := usage_reports a + usage_reports b;
     unfinalized_requests := unfinalized_requests a + unfinalized_requests b;
     unreported_usage_requests := unreported_usage_requests a + unreported_usage_requests b;
     usage := join_usage (usage a) (usage b) |}.

Fixpoint summarize (h : list Request) : GenerationUsageSummary :=
  match h with
  | [] => no_requests
  | r :: h => plus_summary (one_request r) (summarize h)
  end.

(** A report as it can be served: [u64] counts that agree with each other. *)
Definition consistent (u : ServedUsage) : Prop :=
  0 <= prompt u ∧ 0 <= output u ∧ 0 <= thoughts u <= output u ∧ 0 <= cached u <= prompt u ∧
  total u = prompt u + output u.
Definition request_ok (r : Request) : Prop := match r with Reported u => consistent u | _ => True end.

(** Every count of the summary is in the exact integer range. *)
Definition fits (h : list Request) : Prop :=
  requests (summarize h) <= SAFE_INTEGER ∧
  match usage (summarize h) with Some u => total u <= SAFE_INTEGER | None => True end.

(** ** One report *)
Lemma count_sum_ok a b c :
  0 <= a → 0 <= b → count_sum a b = Ok c ↔ c = a + b ∧ a + b <= SAFE_INTEGER.
Proof.
  intros Ha Hb. unfold count_sum, checked_add.
  assert (SAFE_INTEGER < U64_MAX) by done.
  destruct (Z.leb_spec (a + b) U64_MAX); [|split; [done | lia]].
  destruct (Z.leb_spec (a + b) SAFE_INTEGER); [|split; [done | lia]].
  split; [by intros [= <-] | by intros [-> _]].
Qed.

Definition counts (u : ServedUsage) : Prop :=
  0 <= prompt u ∧ 0 <= output u ∧ 0 <= thoughts u ∧ 0 <= cached u ∧ 0 <= total u.

Lemma consistent_counts u : consistent u → counts u.
Proof. unfold consistent, counts. lia. Qed.

Lemma served_validate_ok u :
  counts u → served_validate u = Ok tt ↔ consistent u ∧ total u <= SAFE_INTEGER.
Proof.
  intros Hc. unfold served_validate, counts, consistent in *. simpl.
  destruct (_ || _ || _ || _) eqn:E.
  - split; [done|]. intros [Hu Ht]. exfalso. apply not_false_iff_true in E. apply E. clear E.
    rewrite !orb_false_iff, !Z.ltb_ge, negb_false_iff, bool_decide_eq_true, checked_add_Some.
    assert (SAFE_INTEGER < U64_MAX) by done. lia.
  - split; [|done]. intros _. rewrite !orb_false_iff, !Z.ltb_ge, negb_false_iff, bool_decide_eq_true, checked_add_Some in E.
    lia.
Qed.

Lemma plus_usage_consistent a b : consistent a → consistent b → consistent (plus_usage a b).
Proof. unfold consistent, plus_usage. simpl. lia. Qed.

Lemma served_checked_add_ok a b c :
  consistent a → consistent b →
  served_checked_add a b = Ok c ↔ c = plus_usage a b ∧ total a + total b <= SAFE_INTEGER.
Proof.
  intros Ha Hb. pose proof (plus_usage_consistent a b Ha Hb) as Hab.
  pose proof (consistent_counts _ Ha) as Ca. pose proof (consistent_counts _ Hb) as Cb.
  pose proof (consistent_counts _ Hab) as Cab. unfold counts in Ca, Cb. unfold served_checked_add. split.
  - intros ([] & _ & ([] & _ & (p & Hp & (o & Ho & (t & Ht & (k & Hk & (n & Hn & ([] & _ & [= <-])%bind_ok_inv)
      %bind_ok_inv)%bind_ok_inv)%bind_ok_inv)%bind_ok_inv)%bind_ok_inv)%bind_ok_inv)%bind_ok_inv.
    apply count_sum_ok in Hp as [-> ?], Ho as [-> ?], Ht as [-> ?], Hk as [-> ?], Hn as [-> ?]; [|lia..]. done.
  - intros [-> Hle]. unfold consistent in Ha, Hb.
    rewrite (proj2 (served_validate_ok a ltac:(done))), bind_ok by (split; [done | lia]).
    rewrite (proj2 (served_validate_ok b ltac:(done))), bind_ok by (split; [done | lia]).
    assert (Hsum : ∀ x y, 0 <= x → 0 <= y → x + y <= SAFE_INTEGER → count_sum x y = Ok (x + y)).
    { intros. by apply count_sum_ok. }
    rewrite !Hsum by lia. rewrite !bind_ok. fold (plus_usage a b).
    by rewrite (proj2 (served_validate_ok (plus_usage a b) Cab)).
Qed.

(** ** Summaries of requests *)
Record shape (s : GenerationUsageSummary) : Prop := {
  shape_counts : 0 <= usage_reports s ∧ 0 <= unfinalized_requests s ∧ 0 <= unreported_usage_requests s;
  shape_requests : requests s = usage_reports s + unfinalized_requests s + unreported_usage_requests s;
  shape_usage : match usage s with Some u => consistent u ∧ 0 < usage_reports s | None => usage_reports s = 0 end;
}.

Definition bounded (s : GenerationUsageSummary) : Prop :=
  requests s <= SAFE_INTEGER ∧ match usage s with Some u => total u <= SAFE_INTEGER | None => True end.

Lemma one_request_shape r : request_ok r → shape (one_request r).
Proof. destruct r; intros Hr; (split; [simpl; lia|done|]); simpl; [done | split; [done | lia] | done]. Qed.

Lemma plus_summary_shape a b : shape a → shape b → shape (plus_summary a b).
Proof.
  intros [Ca Ra Ua] [Cb Rb Ub]. split; simpl; [lia | lia|].
  destruct (usage a), (usage b); simpl; try (split; [tauto | lia]); [|lia].
  split; [apply plus_usage_consistent; tauto | lia].
Qed.

Lemma summarize_shape h : Forall request_ok h → shape (summarize h).
Proof.
  induction 1 as [|r h Hr _ IH]; [by repeat split|]. apply plus_summary_shape; [by apply one_request_shape | done].
Qed.

Lemma summary_validate_ok s : shape s → summary_validate s = Ok tt ↔ bounded s.
Proof.
  intros [C R U]. unfold summary_validate, bounded. simpl.
  assert (SAFE_INTEGER < U64_MAX) by done.
  assert (Hpop : Bool.eqb (usage_reports s =? 0) (bool_decide (usage s = None)) = true).
  { destruct (usage s); [destruct U as [_ U]|rewrite U]; [|done].
    destruct (Z.eqb_spec (usage_reports s) 0); [lia | done]. }
  rewrite Hpop. cbn [negb].
  destruct (_ || _ || false) eqn:E.
  - split; [done|]. intros [Hn _]. exfalso. apply not_false_iff_true in E. apply E. clear E.
    rewrite !orb_false_iff, !Z.ltb_ge, negb_false_iff, bool_decide_eq_true. split_and!; try lia.
    unfold checked_add. destruct (Z.leb_spec (usage_reports s + unfinalized_requests s) U64_MAX); simpl; [|lia].
    destruct (Z.leb_spec (usage_reports s + unfinalized_requests s + unreported_usage_requests s) U64_MAX); [by rewrite R | lia].
  - rewrite !orb_false_iff, !Z.ltb_ge in E. unfold option_validate.
    destruct (usage s) as [u|]; [|split; [split; [lia | done] | done]].
    destruct U as [Hu _]. rewrite served_validate_ok by by apply consistent_counts. split; [|tauto].
    intros [_ ?]. split; [lia | done].
Qed.

Lemma plus_usage_assoc a b c : plus_usage a (plus_usage b c) = plus_usage (plus_usage a b) c.
Proof. unfold plus_usage. simpl. f_equal; lia. Qed.

Lemma plus_usage_comm a b : plus_usage a b = plus_usage b a.
Proof. unfold plus_usage. f_equal; lia. Qed.

Lemma plus_summary_assoc a b c : plus_summary a (plus_summary b c) = plus_summary (plus_summary a b) c.
Proof.
  unfold plus_summary. simpl. f_equal; [lia..|].
  destruct (usage a), (usage b), (usage c); simpl; rewrite ?plus_usage_assoc; done.
Qed.

Lemma plus_summary_comm a b : plus_summary a b = plus_summary b a.
Proof.
  unfold plus_summary. f_equal; [lia..|]. destruct (usage a), (usage b); simpl; rewrite 1?plus_usage_comm; done.
Qed.

Lemma plus_summary_none a : plus_summary no_requests a = a.
Proof. destruct a as [r u n p s]. unfold plus_summary. simpl. f_equal. by destruct s. Qed.

Lemma summarize_app h k : summarize (h ++ k) = plus_summary (summarize h) (summarize k).
Proof.
  induction h as [|r h IH]; simpl; [by rewrite plus_summary_none|]. by rewrite IH, plus_summary_assoc.
Qed.

Lemma plus_summary_bounded a b : shape a → shape b → bounded (plus_summary a b) → bounded a ∧ bounded b.
Proof.
  intros [Ca Ra Ua] [Cb Rb Ub]. unfold bounded, plus_summary. simpl. intros [Hr Hu].
  destruct (usage a) as [u|], (usage b) as [w|]; simpl in *; unfold consistent in *; simpl in *; repeat split; lia || done.
Qed.

(** Adding two summaries, in any order of their requests. *)
Lemma summary_checked_add_ok a b s :
  shape a → shape b → summary_checked_add a b = Ok s ↔ bounded (plus_summary a b) ∧ s = plus_summary a b.
Proof.
  intros Ha Hb. pose proof (plus_summary_shape a b Ha Hb) as Hab. unfold summary_checked_add.
  pose proof Ha as [Ca Ra Ua]. pose proof Hb as [Cb Rb Ub]. split.
  - intros ([] & _ & ([] & _ & (r & Hr & (p & Hp & (f & Hf & (n & Hn & (u & Hu & ([] & Hv & [= <-])%bind_ok_inv)
      %bind_ok_inv)%bind_ok_inv)%bind_ok_inv)%bind_ok_inv)%bind_ok_inv)%bind_ok_inv)%bind_ok_inv.
    apply count_sum_ok in Hr as [-> ?], Hp as [-> ?], Hf as [-> ?], Hn as [-> ?]; [|lia..].
    assert (u = join_usage (usage a) (usage b)) as ->.
    { destruct (usage a) as [ua|], (usage b) as [ub|]; simpl in *; try congruence.
      apply fmap_ok_inv in Hu as (w & Hw & ->). destruct Ua as [Ua _], Ub as [Ub _].
      by apply served_checked_add_ok in Hw as [-> _]. }
    fold (plus_summary a b) in *. split; [by apply summary_validate_ok | done].
  - intros [Hbound ->]. destruct (plus_summary_bounded a b Ha Hb Hbound) as [Ba Bb].
    rewrite (proj2 (summary_validate_ok a Ha) Ba), bind_ok, (proj2 (summary_validate_ok b Hb) Bb), bind_ok.
    assert (Hsum : ∀ x y, 0 <= x → 0 <= y → x + y <= SAFE_INTEGER → count_sum x y = Ok (x + y)).
    { intros. by apply count_sum_ok. }
    pose proof Hbound as [Br Bu]. simpl in Br. rewrite !Hsum by lia. rewrite !bind_ok.
    assert (Hu : match usage a, usage b with
      | Some left_, Some right_ => Some <$> served_checked_add left_ right_
      | Some u, None | None, Some u => Ok (Some u)
      | None, None => Ok None end = Ok (join_usage (usage a) (usage b))).
    { simpl in Bu. destruct (usage a) as [ua|], (usage b) as [ub|]; try done. simpl in Bu |- *.
      destruct Ua as [Ua _], Ub as [Ub _].
      by rewrite (proj2 (served_checked_add_ok ua ub (plus_usage ua ub) Ua Ub)). }
    rewrite Hu, bind_ok. fold (plus_summary a b). by rewrite (proj2 (summary_validate_ok _ Hab) Hbound).
Qed.

(** Settling one open request. *)
Definition settled (u : option ServedUsage) : Request := match u with Some u => Reported u | None => Unreported end.

Lemma open_shape rest : shape rest → shape (plus_summary (one_request Open) rest).
Proof. intros. apply plus_summary_shape; [by apply one_request_shape | done]. Qed.

Lemma take_open rest :
  shape rest → checked_sub (unfinalized_requests (plus_summary (one_request Open) rest)) 1 = Some (unfinalized_requests rest).
Proof. intros [C _ _]. apply checked_sub_Some. simpl. lia. Qed.

Lemma finalize_reported rest w s :
  shape rest → counts w →
  finalize (plus_summary (one_request Open) rest) (Some w) = Ok s ↔
    consistent w ∧ bounded (plus_summary (one_request (Reported w)) rest) ∧
    s = plus_summary (one_request (Reported w)) rest.
Proof.
  intros Hrest Hu. pose proof Hrest as [C R U]. pose proof (open_shape rest Hrest) as Hopen.
  unfold finalize. rewrite take_open by done. split.
  - intros ([] & _ & H)%bind_ok_inv. rewrite bind_ok in H.
    apply bind_ok_inv in H as (t & Ht & ([] & Hv & [= <-])%bind_ok_inv).
    apply bind_ok_inv in Ht as ([] & Hw & (n & Hn & (sum & Hsum & [= Et])%bind_ok_inv)%bind_ok_inv).
    apply served_validate_ok in Hw as [Hw Hwt]; [|done].
    apply count_sum_ok in Hn as [-> ?]; [|simpl; lia..].
    assert (E : t = plus_summary (one_request (Reported w)) rest).
    { rewrite <- Et. unfold plus_summary in *. simpl in *. f_equal; [lia..|]. destruct (usage rest) as [v|]; simpl in *.
      - destruct U as [U _]. apply served_checked_add_ok in Hsum as [-> _]; [|done..]. by rewrite plus_usage_comm.
      - by injection Hsum as ->. }
    rewrite E in Hv |- *. split; [done|]. split; [|done]. apply summary_validate_ok; [|done].
    apply plus_summary_shape; [by apply one_request_shape | done].
  - intros (Hw & Hb & ->). simpl in Hw.
    assert (Hshape : shape (plus_summary (one_request (Reported w)) rest)) by (apply plus_summary_shape; [by apply one_request_shape | done]).
    assert (Hbo : bounded (plus_summary (one_request Open) rest)).
    { destruct Hb as [Hr Hb]. split; [simpl in *; lia|]. simpl in *. destruct (usage rest) as [v|]; [|done].
      destruct U as [U _]. unfold consistent in *. simpl in Hb. lia. }
    rewrite (proj2 (summary_validate_ok _ Hopen) Hbo), !bind_ok.
    assert (Hwv : served_validate w = Ok tt).
    { apply served_validate_ok; [done|]. split; [done|]. destruct Hb as [_ Hb]. simpl in Hb.
      destruct (usage rest) as [v|]; [|done]. destruct U as [U _]. unfold consistent in *. simpl in Hb. lia. }
    rewrite Hwv, bind_ok. pose proof Hb as [Hr Hbu]. simpl in Hr.
    cbn [plus_summary one_request usage] in Hbu.
    cbn [usage_reports usage plus_summary one_request requests unfinalized_requests unreported_usage_requests join_usage].
    rewrite (proj2 (count_sum_ok (0 + usage_reports rest) 1 (usage_reports rest + 1) ltac:(lia) ltac:(lia))), bind_ok by lia.
    assert (Hsum : match usage rest with Some previous => served_checked_add previous w | None => Ok w end
      = Ok (match usage rest with Some v => plus_usage w v | None => w end)).
    { destruct (usage rest) as [v|]; [|done]. destruct U as [U _]. apply served_checked_add_ok; [done..|]. cbn [join_usage plus_usage total] in Hbu.
      split; [apply plus_usage_comm | lia]. }
    assert (Hj : match join_usage None (usage rest) with Some previous => served_checked_add previous w | None => Ok w end
      = Ok (match usage rest with Some v => plus_usage w v | None => w end)) by (rewrite <- Hsum; by destruct (usage rest)).
    cbn [join_usage] in Hj. rewrite Hj, !bind_ok.
    match goal with |- context [summary_validate ?t] => assert (E : t = plus_summary (one_request (Reported w)) rest) end.
    { unfold plus_summary. simpl. f_equal; [lia..|]. by destruct (usage rest). }
    rewrite E, (proj2 (summary_validate_ok _ Hshape) Hb). done.
Qed.

Lemma finalize_unreported rest s :
  shape rest →
  finalize (plus_summary (one_request Open) rest) None = Ok s ↔
    bounded (plus_summary (one_request Unreported) rest) ∧ s = plus_summary (one_request Unreported) rest.
Proof.
  intros Hrest. pose proof Hrest as [C R U]. pose proof (open_shape rest Hrest) as Hopen.
  unfold finalize. rewrite take_open by done. split.
  - intros ([] & _ & H)%bind_ok_inv. rewrite bind_ok in H.
    apply bind_ok_inv in H as (t & Ht & ([] & Hv & [= <-])%bind_ok_inv).
    apply bind_ok_inv in Ht as (n & Hn & [= Et]).
    apply count_sum_ok in Hn as [-> ?]; [|simpl; lia..].
    assert (E : t = plus_summary (one_request Unreported) rest).
    { rewrite <- Et. unfold plus_summary. simpl. f_equal; lia. }
    rewrite E in Hv |- *. split; [|done]. apply summary_validate_ok; [|done].
    apply plus_summary_shape; [by apply one_request_shape | done].
  - intros (Hb & ->).
    assert (Hshape : shape (plus_summary (one_request Unreported) rest)) by (apply plus_summary_shape; [by apply one_request_shape | done]).
    rewrite (proj2 (summary_validate_ok _ Hopen) Hb), !bind_ok. pose proof Hb as [Hr Hbu]. simpl in Hr.
    cbn [usage_reports usage plus_summary one_request requests unfinalized_requests unreported_usage_requests].
    rewrite (proj2 (count_sum_ok (0 + unreported_usage_requests rest) 1 (unreported_usage_requests rest + 1) ltac:(lia) ltac:(lia))) by lia.
    rewrite !bind_ok.
    match goal with |- context [summary_validate ?t] => assert (E : t = plus_summary (one_request Unreported) rest) end.
    { unfold plus_summary. simpl. f_equal; lia. }
    rewrite E, (proj2 (summary_validate_ok _ Hshape) Hb). done.
Qed.

Lemma finalize_ok rest u s :
  shape rest → (∀ w, u = Some w → counts w) →
  finalize (plus_summary (one_request Open) rest) u = Ok s ↔
    request_ok (settled u) ∧ bounded (plus_summary (one_request (settled u)) rest) ∧
    s = plus_summary (one_request (settled u)) rest.
Proof.
  intros Hrest Hu. destruct u as [w|]; [apply finalize_reported; auto|].
  rewrite finalize_unreported by done. cbn [settled request_ok]. tauto.
Qed.

(** Where an open request is. *)
Lemma summarize_middle h r k : summarize (h ++ r :: k) = plus_summary (one_request r) (summarize (h ++ k)).
Proof.
  rewrite !summarize_app. simpl. rewrite !plus_summary_assoc. f_equal. apply plus_summary_comm.
Qed.

Lemma some_open h : Forall request_ok h → 1 <= unfinalized_requests (summarize h) → ∃ h1 h2, h = h1 ++ Open :: h2.
Proof.
  induction 1 as [|r h Hr Hh IH]; simpl; [lia|]. intros Hn. destruct r; simpl in Hn.
  - by exists [], h.
  - destruct IH as (h1 & h2 & ->); [lia|]. by exists (Reported u :: h1), h2.
  - destruct IH as (h1 & h2 & ->); [lia|]. by exists (Unreported :: h1), h2.
Qed.

Lemma admit_request_ok a s :
  shape a → admit_request a = Ok s ↔ bounded (plus_summary a (one_request Open)) ∧ s = plus_summary a (one_request Open).
Proof.
  intros Ha. pose proof Ha as [C R U]. unfold admit_request.
  assert (E : ∀ r n, r = requests a + 1 → n = unfinalized_requests a + 1 →
    {| requests := r; usage_reports := usage_reports a; unfinalized_requests := n;
       unreported_usage_requests := unreported_usage_requests a; usage := usage a |} = plus_summary a (one_request Open)).
  { intros r n -> ->. unfold plus_summary. simpl. f_equal; [lia..|]. by destruct (usage a). }
  assert (Hb : bounded a → requests a + 1 <= SAFE_INTEGER → bounded (plus_summary a (one_request Open))).
  { intros [_ Hu] Hle. split; [done|]. simpl. by destruct (usage a). }
  split.
  - intros ([] & Hv & (r & Hr & (n & Hn & [= <-])%bind_ok_inv)%bind_ok_inv)%bind_ok_inv.
    apply summary_validate_ok in Hv; [|done]. apply count_sum_ok in Hr as [Hr ?], Hn as [Hn ?]; [|lia..].
    split; [by apply Hb | by apply E].
  - intros [Hbound ->]. destruct (plus_summary_bounded a (one_request Open) Ha) as [Ba _]; [by apply one_request_shape | done|].
    rewrite (proj2 (summary_validate_ok a Ha) Ba), bind_ok. pose proof Hbound as [Hr _]. simpl in Hr.
    rewrite (proj2 (count_sum_ok (requests a) 1 (requests a + 1) ltac:(lia) ltac:(lia))), bind_ok by lia.
    rewrite (proj2 (count_sum_ok (unfinalized_requests a) 1 (unfinalized_requests a + 1) ltac:(lia) ltac:(lia))), bind_ok by lia.
    by rewrite E.
Qed.

(** ** Properties *)

(** The summary implements the list of the requests it stands for.  On the
    summary of a list, admitting a request yields exactly the summary with one
    open request more, finalizing yields exactly the summary with one open
    request settled, and adding yields exactly the summary of both lists; each
    refuses exactly when there is no open request, the report's counts disagree,
    or a count of the result would leave the exact integer range. *)
Theorem summary_refines (h k : list Request) (u : option ServedUsage) (s : GenerationUsageSummary) :
  Forall request_ok h → Forall request_ok k → (∀ w, u = Some w → counts w) →
  (admit_request (summarize h) = Ok s ↔ fits (h ++ [Open]) ∧ s = summarize (h ++ [Open])) ∧
  (finalize (summarize h) u = Ok s ↔
     ∃ h1 h2, h = h1 ++ Open :: h2 ∧ request_ok (settled u) ∧
       fits (h1 ++ settled u :: h2) ∧ s = summarize (h1 ++ settled u :: h2)) ∧
  (summary_checked_add (summarize h) (summarize k) = Ok s ↔ fits (h ++ k) ∧ s = summarize (h ++ k)).
Proof.
  intros Hh Hk Hu. pose proof (summarize_shape h Hh) as Sh. pose proof (summarize_shape k Hk) as Sk.
  split; [|split].
  - rewrite summarize_app. replace (summarize [Open]) with (one_request Open) by done.
    rewrite admit_request_ok by done. unfold fits. rewrite summarize_app. done.
  - assert (Hgo : ∀ h1 h2, h = h1 ++ Open :: h2 → shape (summarize (h1 ++ h2)) ∧
      (finalize (summarize h) u = Ok s ↔ request_ok (settled u) ∧ fits (h1 ++ settled u :: h2) ∧ s = summarize (h1 ++ settled u :: h2))).
    { intros h1 h2 ->. assert (Sr : shape (summarize (h1 ++ h2))).
      { apply summarize_shape. apply Forall_app in Hh as [? Hh]. apply Forall_cons in Hh as [_ ?]. by apply Forall_app. }
      split; [done|]. unfold fits. rewrite !summarize_middle. by apply finalize_ok. }
    split.
    + intros Hf. assert (Hn : 1 <= unfinalized_requests (summarize h)).
      { unfold finalize in Hf. apply bind_ok_inv in Hf as (_ & _ & (n & Hn & _)%bind_ok_inv).
        destruct (checked_sub (unfinalized_requests (summarize h)) 1) eqn:E; [|done]. apply checked_sub_Some in E; lia. }
      destruct (some_open h Hh Hn) as (h1 & h2 & E). destruct (Hgo h1 h2 E) as [_ Hgo']. apply Hgo' in Hf.
      by exists h1, h2.
    + intros (h1 & h2 & E & H3). by apply (Hgo h1 h2 E).
  - unfold fits. rewrite summarize_app. by apply summary_checked_add_ok.
Qed.

Lemma summary_refines_witness :
  let a := {| prompt := 10; output := 4; thoughts := 1; cached := 2; total := 14 |} in
  let h := [Open; Reported a] in
  finalize (summarize h) (Some a) = Ok (summarize [Reported a; Reported a]) ∧
  ∃ h1 h2, h = h1 ++ Open :: h2 ∧ fits (h1 ++ Reported a :: h2) ∧ summarize [Reported a; Reported a] = summarize (h1 ++ Reported a :: h2).
Proof.
  intros a h.
  assert (E : finalize (summarize h) (Some a) = Ok (summarize [Reported a; Reported a])) by by vm_compute.
  split; [done|].
  destruct (summary_refines h [] (Some a) (summarize [Reported a; Reported a])) as (_ & Hf & _).
  - repeat constructor; simpl; lia.
  - constructor.
  - intros w [= <-]. repeat split; simpl; lia.
  - apply Hf in E as (h1 & h2 & Hh & _ & Hfit & Hs). by exists h1, h2.
Defined.
