(* ===== verification/Generation.v ===== *)
(** * Generation: the authority decoded from one model generation
      (protocol/engine/src/generation.rs)

    [generation_read] checks a retained envelope and folds its observations: the
    texts and reasoning the model produced, the calls it made under the identity
    normalization the recording declares, and the messages a settled turn shows.
    Hashing and JSON string quoting are code of other crates: the classes
    [Sha256Ops] and [QuoteOps].  Proved: what is read is what the observations say,
    against a reading of them item by item. *)
From S2P Require Import Prelude Number Utf8 BTree Json JsonTree Schema Stream Usage.

Definition refusal {A} (detail : string) : contract A :=
  invalid (lit "invalid generation evidence: " ++ lit detail
           ++ lit "; inspect the complete original recording with its matching client, or start a new session").

(** ** The sha2 crate: a streaming digest *)
Class Sha256Ops := {
  Sha256 : Type;
  sha_new : Sha256;
  sha_update : Sha256 → str → Sha256;
  sha_finalize : Sha256 → str;
}.

Class Sha256Laws `{Sha256Ops} : Prop := {
  sha_update_nil h : sha_update h [] = h;
  sha_update_app h a b : sha_update (sha_update h a) b = sha_update h (a ++ b);
}.

Definition sha_digest `{Sha256Ops} (bytes : str) : str := sha_finalize (sha_update sha_new bytes).

Definition hex_nibble (n : Z) : Z := if n <? 10 then 48 + n else 87 + n.
Definition sha256 `{Sha256Ops} (bytes : str) : str :=
  concat (map (fun b => [hex_nibble (b / 16); hex_nibble (b mod 16)]) (sha_digest bytes)).

(** ** serde_json: the JSON spelling of a string *)
Class QuoteOps := quote : str → str.

(** ** Data *)
Inductive OutputScope := Conversation (parent : option str) | Internal.
Record Origin := { attempt : str; scope : str }.
Record Call := { call_id : str; call_name : option str; call_arguments : str }.
Record IncompleteCall := { incomplete_name : option str; incomplete_arguments : str }.
Inductive Shown := ShownText (s : str) | ShownCall (index : nat) | Unshowable.
Record DisplayMessage := { content_json : str; tool_use_only : bool; message_usage : option ServedUsage }.

Record Generation := {
  journal : str; generation_id : str; hash : str; origin : Origin; output_scope : OutputScope; model : str;
  generation_usage : option ServedUsage; finish : option str; observation_count : Z;
  source_requests : list str; generation_text : str; display_text : str; thinking : str;
  calls : list Call; incomplete : list IncompleteCall; accepted_images_valid : bool;
  shown_thinking : str; shown : list Shown;
}.

Global Instance Origin_eq_dec : EqDecision Origin.
Proof. solve_decision. Defined.
Global Instance IncompleteCall_eq_dec : EqDecision IncompleteCall.
Proof. solve_decision. Defined.

(** ** Doubles

    [raw().parse::<f64>()] of a number's spelling rounds its exact value to the
    nearest double, ties to even: it is infinite from [2^1024 - 2^970] on and zero
    up to [2^-1075].  The two early tests keep the comparison computable for
    enormous exponents. *)
Definition f64_finite (d : Decimal) : bool :=
  match d with
  | Zero => true
  | Nonzero _ digits exponent =>
      let top := exponent + Z.of_nat (length digits) in
      if 310 <? top then false
      else if top <? -400 then true
      else digits_value digits * 10 ^ Z.max 0 exponent <? (2 ^ 1024 - 2 ^ 970) * 10 ^ Z.max 0 (- exponent)
  end.
Definition f64_nonzero (d : Decimal) : bool :=
  match d with
  | Zero => false
  | Nonzero _ digits exponent =>
      let top := exponent + Z.of_nat (length digits) in
      if 310 <? top then true
      else if top <? -400 then false
      else 10 ^ Z.max 0 (- exponent) <? digits_value digits * 10 ^ Z.max 0 exponent * 2 ^ 1075
  end.

(** ** Reading loosely typed responses *)
Definition values (v : option Value) : list Value :=
  match v ≫= elements with Some items => items | None => [] end.

Definition truthy (v : option Value) : bool :=
  match v with
  | None => false
  | Some v =>
      match node v with
      | NullNode => false
      | BoolNode b => b
      | StringNode s => bool_decide (s ≠ [])
      | NumberNode n => f64_nonzero (value n)
      | ArrayNode _ | ObjectNode _ => true
      end
  end.

Definition primary_parts (response : Value) : list Value :=
  values (head (values (get response "candidates")) ≫= fun candidate =>
          get candidate "content" ≫= fun content => get content "parts").

Definition part_text (part : Value) : option str := get part "text" ≫= as_str.

Definition valid_part (part : Value) : bool :=
  truthy (get part "thought") || truthy (get part "thoughtSignature")
  || bool_decide (part_text part ≠ Some []) || bool_decide (get part "functionCall" ≠ None).

Definition plain_text (part : Value) : bool :=
  match get part "text" with Some t => is_string t | None => false end
  && forallb (fun key => negb (truthy (get part (lit key))))
       ["thought"; "thoughtSignature"; "functionCall"; "functionResponse"; "inlineData"; "fileData"]%string.

Definition has_members (v : Value) : bool :=
  match members v with Some (_ :: _) => true | _ => false end.

Definition valid_response (response : Value) (parts : list Value) : bool :=
  truthy (get response "usageMetadata")
  || existsb (fun candidate => truthy (get candidate "finishReason")) (values (get response "candidates"))
  || ((0 <? length parts)%nat && forallb (fun part => has_members part && valid_part part) parts).

Definition valid_image_references (part : Value) : bool :=
  forallb (fun source =>
      negb (is_null source)
      && match get source "imageReferenceId" with Some r => is_string r | None => true end)
    (part :: values (get part "functionResponse" ≫= fun response => get response "parts")).

(** [while let Some(value) = pending.pop()] over the values below a root. *)
Fixpoint finite_loop (fuel : nat) (pending : list Value) : contract unit :=
  match pending with
  | [] => Ok tt
  | v :: pending =>
      match fuel with
      | O => Err OutOfFuel
      | S fuel =>
          if match as_number v with Some n => negb (f64_finite (value n)) | None => false end
          then refusal "decoded observations contain a nonfinite number"
          else
            finite_loop fuel
              (rev (match members v with Some ms => ms.*2 | None => [] end)
               ++ rev (match elements v with Some items => items | None => [] end) ++ pending)
      end
  end.
Definition finite_numbers (v : Value) : contract unit := finite_loop (json_size (tree v)) [v].

(** ** Normalized call identities

    [for suffix in first..=SAFE_INTEGER]: one candidate per turn; [used] has fewer
    than [fuel] members, so one of them is free (see [next_normalized_id_total]). *)
Definition candidate (raw : option str) (base : str) (suffix : Z) : str :=
  match nonempty_str raw with
  | Some _ => base ++ lit "__qwen_dup_" ++ show_Z suffix
  | None => base ++ lit "_" ++ show_Z suffix
  end.

Fixpoint suffix_loop (fuel : nat) (raw : option str) (base : str) (used : gset str) (suffix : Z) : contract str :=
  match fuel with
  | O => Err OutOfFuel
  | S fuel =>
      if SAFE_INTEGER <? suffix then refusal "normalization identity space is exhausted"
      else
        let id := candidate raw base suffix in
        if decide (id ∈ used) then suffix_loop fuel raw base used (suffix + 1) else Ok id
  end.

Definition next_normalized_id (raw : option str) (used : gset str) : contract str :=
  match nonempty_str raw with
  | Some id =>
      if decide (id ∈ used) then suffix_loop (S (size used)) raw id used 2 else Ok id
  | None => suffix_loop (S (size used)) raw (lit "call_qwen") used 1
  end.

Definition scope_read (v : Value) (line : Z) : contract OutputScope :=
  kind ← text v "kind" line;
  if decide (kind = lit "conversation") then
    parent ← field v "parent_tool_use_id" line;
    if is_null parent then Ok (Conversation None)
    else p ← text v "parent_tool_use_id" line; Ok (Conversation (Some p))
  else if decide (kind = lit "internal") then Ok Internal
  else refusal "generation has no declared output scope".

Definition origin_read (v : Value) (line : Z) : contract Origin :=
  kind ← text v "kind" line;
  if decide (kind ≠ lit "model") then refusal "generation has no model origin"
  else
    attempt ← text v "attempt_id" line;
    scope ← text v "kv_scope" line;
    Ok {| attempt := attempt; scope := scope |}.

(** ** Reading a generation *)
Section Read.
Context `{BigIntOps} `{StreamContract} `{Sha256Ops}.

Definition not_the_object {A} : contract A :=
  refusal "an observed call is not the one JSON object its arguments were served as".

Definition served_arguments (call : Value) (json : Limits) : contract str :=
  if decide (get call "args" ≠ None) then not_the_object
  else
    match get call "arguments" ≫= as_str with
    | None => not_the_object
    | Some text =>
        arguments ← map_refused (fun _ => InvalidRecord (lit "invalid generation evidence: an observed call is not the one JSON object its arguments were served as; inspect the complete original recording with its matching client, or start a new session"))
          (decode text json);
        match as_object (root arguments) with
        | None => not_the_object
        | Some _ =>
            _ ← map_refused (fun _ => InvalidRecord (lit "invalid generation evidence: an observed call is not the one JSON object its arguments were served as; inspect the complete original recording with its matching client, or start a new session"))
              (finite_numbers (root arguments));
            Ok text
        end
    end.

(** The loop's state: the generation so far and the identities it has used. *)
Record Reading := {
  g : Generation;
  raw_ids : gset str;
  used_ids : gset str;
  normalized_ids : gset str;
  preparations : gmap str (str * str);
  reservations : gmap str str;
  observed_usage : option ServedUsage;
  observed_finish : option str;
  previous_plain_nonempty : bool;
}.

Definition with_g (r : Reading) (g : Generation) : Reading :=
  {| g := g; raw_ids := raw_ids r; used_ids := used_ids r; normalized_ids := normalized_ids r;
     preparations := preparations r; reservations := reservations r; observed_usage := observed_usage r;
     observed_finish := observed_finish r; previous_plain_nonempty := previous_plain_nonempty r |}.

(** [Self { .., ..generation }] *)
Definition with_texts (g : Generation) (text display thinking_ : str) : Generation :=
  {| journal := journal g; generation_id := generation_id g; hash := hash g; origin := origin g;
     output_scope := output_scope g; model := model g; generation_usage := generation_usage g;
     finish := finish g; observation_count := observation_count g; source_requests := source_requests g;
     generation_text := text; display_text := display; thinking := thinking_; calls := calls g;
     incomplete := incomplete g; accepted_images_valid := accepted_images_valid g;
     shown_thinking := shown_thinking g; shown := shown g |}.
Definition with_shown (g : Generation) (calls_ : list Call) (images : bool) (thinking_ : str) (shown_ : list Shown) : Generation :=
  {| journal := journal g; generation_id := generation_id g; hash := hash g; origin := origin g;
     output_scope := output_scope g; model := model g; generation_usage := generation_usage g;
     finish := finish g; observation_count := observation_count g; source_requests := source_requests g;
     generation_text := generation_text g; display_text := display_text g; thinking := thinking g; calls := calls_;
     incomplete := incomplete g; accepted_images_valid := images; shown_thinking := thinking_; shown := shown_ |}.
Definition with_records (g : Generation) (requests : list str) (calls_ : list IncompleteCall) : Generation :=
  {| journal := journal g; generation_id := generation_id g; hash := hash g; origin := origin g;
     output_scope := output_scope g; model := model g; generation_usage := generation_usage g;
     finish := finish g; observation_count := observation_count g; source_requests := requests;
     generation_text := generation_text g; display_text := display_text g; thinking := thinking g; calls := calls g;
     incomplete := calls_; accepted_images_valid := accepted_images_valid g;
     shown_thinking := shown_thinking g; shown := shown g |}.

(** The identity a provider call id already reserved, if it is nonempty. *)
Definition prepared (r : Reading) (provider : option str) : option (str * str) :=
  nonempty_str provider ≫= fun id => preparations r !! id.

Definition preparation_step (line : Z) (r : Reading) (preparation : Value) : contract Reading :=
  provider ← text preparation "provider_call_id" line;
  id ← text preparation "callId" line;
  name ← text preparation "toolName" line;
  expected ← match preparations r !! provider with
             | Some (reserved, _) => Ok reserved
             | None => next_normalized_id (Some provider) (used_ids r)
             end;
  if decide (id ≠ expected) then refusal "preparation does not follow the recorded history seed"
  else if match preparations r !! provider with Some previous => bool_decide (previous ≠ (id, name)) | None => false end
          || match reservations r !! id with Some previous => bool_decide (previous ≠ provider) | None => false end
          || (bool_decide (preparations r !! provider = None) && bool_decide (id ∈ normalized_ids r))
  then refusal "preparation changes or reuses a normalization identity"
  else Ok {| g := g r; raw_ids := raw_ids r; used_ids := {[id]} ∪ used_ids r; normalized_ids := normalized_ids r;
             preparations := <[provider := (id, name)]> (preparations r);
             reservations := <[id := provider]> (reservations r);
             observed_usage := observed_usage r; observed_finish := observed_finish r;
             previous_plain_nonempty := previous_plain_nonempty r |}.

Definition text_or_empty (part : Value) : str := default [] (part_text part).

(** The texts of one part. *)
Definition texts_step (r : Reading) (part : Value) : contract Reading :=
  if match get part "text" with Some t => negb (is_string t) | None => false end
  then refusal "observed Part text is not a string"
  else
    let thought := truthy (get part "thought") in
    let display := if thought then display_text (g r) else display_text (g r) ++ text_or_empty part in
    let spoken := negb (truthy (get part "functionCall")) in
    Ok (with_g r (with_texts (g r)
          (if spoken && negb thought then generation_text (g r) ++ text_or_empty part else generation_text (g r))
          display
          (if spoken && thought then thinking (g r) ++ text_or_empty part else thinking (g r)))).

(** What the mapping says of one observed call: nothing more when it repeats an
    earlier one, or its normalized identity. *)
Definition call_step (line : Z) (json : Limits) (mappings : list Value) (r : Reading) (mapped : nat)
    (position : nat) (call : Value) : contract (Reading * nat * option (str * str)) :=
  if bool_decide (as_object call = None) || match get call "id" with Some id => negb (is_string id) | None => false end
  then refusal "observed function call identity is invalid"
  else
    served ← served_arguments call json;
    mapping ← match mappings !! mapped with
              | Some m => Ok m
              | None => refusal "call mapping omits an observed call"
              end;
    let mapped := S mapped in
    let provider := get call "id" ≫= as_str in
    let duplicate := match nonempty_str provider with Some id => bool_decide (id ∈ raw_ids r) | None => false end in
    identity ← field mapping "normalized_id" line;
    index ← field mapping "part_index" line;
    index ← unsigned index (lit "call part index") SAFE_INTEGER;
    if negb (index =? Z.of_nat position) || negb (Bool.eqb (is_null identity) duplicate)
    then refusal "call mapping changes order or suppresses original output"
    else if duplicate then Ok (r, mapped, None)
    else
      id ← text mapping "normalized_id" line;
      expected ← match prepared r provider with
                 | Some (reserved, _) => Ok reserved
                 | None => next_normalized_id provider (used_ids r)
                 end;
      if decide (id ≠ expected) then refusal "call mapping does not follow the recorded history seed"
      else if bool_decide (id ∈ normalized_ids r)
           || match reservations r !! id with Some reserved => bool_decide (Some reserved ≠ provider) | None => false end
           || match prepared r provider with
              | Some (prepared, name) =>
                  bool_decide (prepared ≠ id) || bool_decide (Some name ≠ (get call "name" ≫= as_str))
              | None => false
              end
      then refusal "call mapping repeats or contradicts its preparation"
      else
        Ok ({| g := g r;
               raw_ids := match nonempty_str provider with Some p => {[p]} ∪ raw_ids r | None => raw_ids r end;
               used_ids := {[id]} ∪ used_ids r; normalized_ids := {[id]} ∪ normalized_ids r;
               preparations := preparations r; reservations := reservations r;
               observed_usage := observed_usage r; observed_finish := observed_finish r;
               previous_plain_nonempty := previous_plain_nonempty r |}, mapped, Some (id, served)).

Definition push_last_text (l : list Shown) (more : str) : list Shown :=
  match last l with
  | Some (ShownText s) => removelast l ++ [ShownText (s ++ more)]
  | _ => l
  end.

(** What the history shows of a part; [identity] is its call's, if it has one. *)
Definition show_part (r : Reading) (part : Value) (identity : option (Value * str * str)) : Reading :=
  let gen := g r in
  if truthy (get part "thought") then
    with_g r (with_shown gen (calls gen) (accepted_images_valid gen) (shown_thinking gen ++ text_or_empty part) (shown gen))
  else
    let plain := plain_text part in
    if previous_plain_nonempty r && plain then
      with_g r (with_shown gen (calls gen) (accepted_images_valid gen) (shown_thinking gen)
                  (push_last_text (shown gen) (text_or_empty part)))
    else if negb (valid_part part) then r
    else
      let images := accepted_images_valid gen && valid_image_references part in
      let gen :=
        match identity with
        | Some (call, id, arguments) =>
            with_shown gen
              (calls gen ++ [{| call_id := id; call_name := get call "name" ≫= as_str; call_arguments := arguments |}])
              images (shown_thinking gen) (shown gen ++ [ShownCall (length (calls gen))])
        | None =>
            let text_only :=
              match members part with
              | Some ms => forallb (fun m => bool_decide (m.1 = lit "text") || bool_decide (m.1 = lit "thoughtSignature")) ms
              | None => false
              end in
            let this := match part_text part with
                        | Some s => if text_only then ShownText s else Unshowable
                        | None => Unshowable
                        end in
            with_shown gen (calls gen) images (shown_thinking gen) (shown gen ++ [this])
        end in
      {| g := gen; raw_ids := raw_ids r; used_ids := used_ids r; normalized_ids := normalized_ids r;
         preparations := preparations r; reservations := reservations r; observed_usage := observed_usage r;
         observed_finish := observed_finish r; previous_plain_nonempty := plain && truthy (get part "text") |}.

Definition part_step (line : Z) (json : Limits) (mappings : list Value) (st : Reading * nat) (part : nat * Value) :
    contract (Reading * nat) :=
  let '(r, mapped) := st in
  let '(position, part) := part in
  if truthy (get part "functionCall") then
    call ← expect (get part "functionCall") "truthy value";
    '(r, mapped, identity) ← call_step line json mappings r mapped position call;
    match identity with
    | None => Ok (r, mapped)
    | Some (id, served) => Ok (show_part r part (Some (call, id, served)), mapped)
    end
  else Ok (show_part r part None, mapped).

Definition incomplete_step (line : Z) (r : Reading) (call : Value) : contract Reading :=
  name ← field call "name" line;
  arguments ← field call "arguments" line;
  arguments ← expect (as_str arguments) "schema-admitted call arguments";
  Ok (with_g r (with_records (g r) (source_requests (g r))
        (incomplete (g r) ++ [{| incomplete_name := as_str name; incomplete_arguments := arguments |}]))).

(** [if let Some(usage) = ..read(..).ok()]: a report that cannot be read is skipped. *)
Definition usage_step (line : Z) (response : Value) (r : Reading) : contract Reading :=
  served ← match get response "usageMetadata" with
           | None => Ok (observed_usage r)
           | Some u =>
               match served_read u line with
               | Ok u => Ok (Some u)
               | Err (Refused _) => Ok (observed_usage r)
               | Err f => Err f
               end
           end;
  let finish_of :=
    fold_left (fun finish_ candidate =>
        match finish_ with
        | Some _ => finish_
        | None => nonempty_str (get candidate "finishReason" ≫= as_str)
        end) (values (get response "candidates")) (observed_finish r) in
  Ok {| g := g r; raw_ids := raw_ids r; used_ids := used_ids r; normalized_ids := normalized_ids r;
        preparations := preparations r; reservations := reservations r; observed_usage := served;
        observed_finish := finish_of; previous_plain_nonempty := previous_plain_nonempty r |}.

(** One observation. *)
Definition observation_step (line : Z) (json : Limits) (r : Reading) (observation : Value) : contract Reading :=
  request ← text observation "source_request_id" line;
  let r := with_g r (with_records (g r) (source_requests (g r) ++ [request]) (incomplete (g r))) in
  response ← field observation "response" line;
  r ← usage_step line response r;
  r ← fold_result (preparation_step line) r (values (get observation "tool_call_preparations"));
  let parts := primary_parts response in
  r ← fold_result texts_step r parts;
  let mappings := values (get observation "call_ids") in
  '(r, mapped) ← (if valid_response response parts
                  then fold_result (part_step line json mappings) (r, 0%nat) (imap pair parts)
                  else Ok (r, 0%nat));
  if negb (mapped =? length mappings)%nat then refusal "call mapping invents an observed call"
  else fold_result (incomplete_step line) r (values (get observation "incomplete_tool_calls")).

(** The envelope: retained bytes that are what the record says they are. *)
Definition read_envelope (evidence : Value) (line : Z) (json : Limits) (schema : ValidationLimits) :
    contract (Value * str) :=
  _ ← validate_entry evidence entry_model_generation_evidence schema line;
  raw ← text evidence "generation_json" line;
  declared ← text evidence "generation_sha256" line;
  bytes ← field evidence "generation_bytes" line;
  bytes ← unsigned bytes (lit "generation bytes") SAFE_INTEGER;
  if negb (Z.of_nat (length raw) =? bytes) || bool_decide (sha256 raw ≠ declared)
  then refusal "byte count or SHA-256 differs from the retained envelope"
  else
    document ← map_refused (fun e =>
        match e with
        | ResourceLimit resource limit =>
            ValidationUnavailable (lit "generation " ++ lit resource ++ lit " limit " ++ show_Z limit)
        | _ => InvalidRecord (lit "invalid generation evidence: retained envelope is invalid JSON")
        end) (decode raw json);
    let envelope := root document in
    _ ← validate_entry envelope entry_generation_envelope schema line;
    _ ← finite_numbers envelope;
    Ok (envelope, declared).

(** The generation before its observations are read. *)
Definition read_summary (evidence envelope : Value) (declared : str) (line : Z) : contract Generation :=
  served ← field envelope "usage" line;
  let observations := values (get envelope "observations") in
  journal ← text evidence "journal_id" line;
  id ← text evidence "generation_id" line;
  origin_value ← field envelope "origin" line;
  origin ← origin_read origin_value line;
  scope_value ← field envelope "output_scope" line;
  output_scope ← scope_read scope_value line;
  model ← text envelope "model" line;
  u ← (if is_null served then Ok None else Some <$> served_read served line);
  finish_value ← field envelope "finish_reason" line;
  Ok {| journal := journal; generation_id := id; hash := declared; origin := origin; output_scope := output_scope;
        model := model; generation_usage := u; finish := as_str finish_value;
        observation_count := Z.of_nat (length observations); source_requests := []; generation_text := [];
        display_text := []; thinking := []; calls := []; incomplete := []; accepted_images_valid := true;
        shown_thinking := []; shown := [] |}.

Definition start_reading (gen : Generation) (seed : list str) : Reading :=
  {| g := gen; raw_ids := ∅; used_ids := list_to_set seed; normalized_ids := ∅; preparations := ∅;
     reservations := ∅; observed_usage := None; observed_finish := None; previous_plain_nonempty := false |}.

Definition generation_read (evidence : Value) (line : Z) (json : Limits) (schema : ValidationLimits)
    (seed_for_origin : Origin → contract (list str)) : contract Generation :=
  '(envelope, declared) ← read_envelope evidence line json schema;
  gen ← read_summary evidence envelope declared line;
  if match output_scope gen with Conversation (Some parent) => bool_decide (parent ≠ scope (origin gen)) | _ => false end
  then refusal "conversation tool parent differs from the generation invocation"
  else
    seed ← seed_for_origin (origin gen);
    r ← fold_result (observation_step line json) (start_reading gen seed) (values (get envelope "observations"));
    if bool_decide (generation_usage (g r) ≠ observed_usage r) || bool_decide (finish (g r) ≠ observed_finish r)
    then refusal "summary contradicts complete observations"
    else Ok (g r).
End Read.

(** ** Settled turns *)
Definition require_refused (gen : Generation) (by_backend : bool) : contract unit :=
  let limit := negb by_backend && bool_decide (generation_usage gen ≠ None)
               && bool_decide (finish gen = Some (lit "MAX_TOKENS")) in
  let backend := by_backend && bool_decide (generation_usage gen = None) && bool_decide (finish gen = None)
                 && bool_decide (incomplete gen = []) in
  if negb (limit || backend) || bool_decide (calls gen ≠ [])
  then refusal "a refused draw must stop at its output limit, or end in its backend's refusal, without a call"
  else Ok tt.

Definition require_accepted (gen : Generation) : contract unit :=
  if bool_decide (generation_usage gen = None) || bool_decide (finish gen = None)
     || bool_decide (finish gen = Some (lit "MAX_TOKENS")) || bool_decide (incomplete gen ≠ [])
  then refusal "accepted history lacks a complete usable generation"
  else if negb (accepted_images_valid gen) then refusal "accepted history has an invalid image reference"
  else if (1 <? length (calls gen))%nat
          || existsb (fun call => match call_name call with Some (_ :: _) => false | _ => true end) (calls gen)
  then refusal "accepted generation has invalid executable calls"
  else Ok tt.

Definition shown_reasoning (gen : Generation) : str := shown_thinking gen.
Definition shown_text (gen : Generation) : str :=
  concat (map (fun s => match s with ShownText s => s | _ => [] end) (shown gen)).

Section Display.
Context `{QuoteOps}.

(** [format!] of the blocks: a double quote is byte 34. *)
Definition block_open (kind : string) : str := quoted "{'type':'" ++ lit kind ++ quoted "'".

Definition thinking_block (s : str) : str :=
  block_open "thinking" ++ quoted ",'thinking':" ++ quote s ++ lit "}".
Definition text_block (s : str) : str := block_open "text" ++ quoted ",'text':" ++ quote s ++ lit "}".
Definition tool_block (id name arguments : str) : str :=
  block_open "tool_use" ++ quoted ",'id':" ++ quote id ++ quoted ",'name':" ++ quote name
  ++ quoted ",'input':" ++ arguments ++ lit "}".
Definition incomplete_block (call : IncompleteCall) : str :=
  block_open "incomplete_tool_use" ++ quoted ",'name':"
  ++ match incomplete_name call with Some n => quote n | None => lit "null" end
  ++ quoted ",'arguments':" ++ quote (incomplete_arguments call) ++ lit "}".

Definition shown_blocks (gen : Generation) (refused : bool) (s : Shown) : contract (list (string * str)) :=
  match s with
  | ShownText [] => Ok []
  | ShownText t => Ok [("text"%string, text_block t)]
  | ShownCall index =>
      call ← expect (calls gen !! index) "call index";
      match call_name call, refused with
      | Some name, false => Ok [("tool_use"%string, tool_block (call_id call) name (call_arguments call))]
      | _, _ => refusal "a displayed turn carries a call it cannot have made"
      end
  | Unshowable => refusal "a displayed turn carries a model part no assistant block represents"
  end.

Definition display_blocks (gen : Generation) (refused : bool) : contract (list (string * str)) :=
  blocks ← traverse (shown_blocks gen refused) (shown gen);
  Ok ((if bool_decide (shown_thinking gen = []) then [] else [("thinking"%string, thinking_block (shown_thinking gen))])
      ++ concat blocks
      ++ map (fun call => ("incomplete_tool_use"%string, incomplete_block call)) (incomplete gen)).

(** [match groups.last_mut()]: a block joins the last group of its own kind. *)
Definition group_step (groups : list (list (string * str))) (block : string * str) : list (list (string * str)) :=
  match last groups with
  | Some group =>
      match head group with
      | Some (kind, _) =>
          if decide (kind = block.1) then removelast groups ++ [group ++ [block]] else groups ++ [[block]]
      | None => groups ++ [[block]]
      end
  | None => [[block]]
  end.
Definition group_blocks (blocks : list (string * str)) : list (list (string * str)) := fold_left group_step blocks [].

Definition display_message (gen : Generation) (last_ : nat) (group : nat * list (string * str)) : DisplayMessage :=
  {| tool_use_only := (0 <? length group.2)%nat && forallb (fun b => bool_decide (b.1 = "tool_use"%string)) group.2;
     content_json := lit "[" ++ join 44 (group.2).*2 ++ lit "]";
     message_usage := if (group.1 =? last_)%nat then generation_usage gen else None |}.

Definition display (gen : Generation) (refused : bool) : contract (list DisplayMessage) :=
  blocks ← display_blocks gen refused;
  let groups := group_blocks blocks in
  let groups := if (length groups =? 0)%nat then [[]] else groups in
  Ok (map (display_message gen (length groups - 1)) (imap pair groups)).
End Display.

(** ** Free identities *)
Lemma lit_app_show_inj (base : str) (sep : string) n m :
  0 <= n → 0 <= m → base ++ lit sep ++ show_Z n = base ++ lit sep ++ show_Z m → n = m.
Proof. intros Hn Hm E. apply app_inv_head, app_inv_head in E. by apply show_Z_inj. Qed.

Lemma candidate_inj raw base n m : 0 <= n → 0 <= m → candidate raw base n = candidate raw base m → n = m.
Proof. unfold candidate. destruct (nonempty_str raw); by apply lit_app_show_inj. Qed.

(** Where the loop stops: at the first free candidate, or with all of them used. *)
Lemma suffix_loop_spec fuel raw base used suffix :
  0 <= suffix → suffix + Z.of_nat fuel <= SAFE_INTEGER + 1 →
  (∃ n, suffix <= n < suffix + Z.of_nat fuel ∧ suffix_loop fuel raw base used suffix = Ok (candidate raw base n) ∧
        candidate raw base n ∉ used ∧ ∀ m, suffix <= m < n → candidate raw base m ∈ used) ∨
  (∀ m, suffix <= m < suffix + Z.of_nat fuel → candidate raw base m ∈ used).
Proof.
  revert suffix. induction fuel as [|fuel IH]; intros suffix Hpos Hle; [right; lia|].
  cbn [suffix_loop]. destruct (Z.ltb_spec SAFE_INTEGER suffix); [lia|]. destruct (decide _) as [Hin|Hout].
  - destruct (IH (suffix + 1)) as [(n & Hn & -> & Hfree & Hused)|Hall]; [lia|lia| |].
    + left. exists n. split_and!; [lia|lia|done|done|]. intros m Hm.
      destruct (Z.eq_dec m suffix) as [->|]; [done|]. apply Hused. lia.
    + right. intros m Hm. destruct (Z.eq_dec m suffix) as [->|]; [done|]. apply Hall. lia.
  - left. exists suffix. split_and!; [lia|lia|done|done|lia].
Qed.

(** Pigeonhole: one more candidate than there are used identities. *)
Lemma all_used_size (raw : option str) (base : str) (used : gset str) (first : Z) (n : nat) :
  0 <= first → (∀ m, first <= m < first + Z.of_nat n → candidate raw base m ∈ used) → (n <= size used)%nat.
Proof.
  intros Hfirst Hall.
  set (l := map (fun i => candidate raw base (first + Z.of_nat i)) (seq 0 n)).
  assert (Hnd : NoDup l).
  { unfold l. apply NoDup_fmap_2_strong; [|apply NoDup_seq]. intros i j Hi Hj E. apply candidate_inj in E; lia. }
  assert (Hsub : list_to_set l ⊆ used).
  { intros x [y [-> Hy]]%elem_of_list_to_set%list_elem_of_fmap. apply elem_of_seq in Hy. apply Hall. lia. }
  apply subseteq_size in Hsub. rewrite size_list_to_set in Hsub by done. unfold l in Hsub.
  by rewrite length_map, length_seq in Hsub.
Qed.

Lemma suffix_loop_total (raw : option str) (base : str) (used : gset str) (first : Z) :
  0 <= first <= 2 → Z.of_nat (size used) + 2 <= SAFE_INTEGER →
  ∃ n, first <= n ∧ suffix_loop (S (size used)) raw base used first = Ok (candidate raw base n) ∧
       candidate raw base n ∉ used ∧ ∀ m, first <= m < n → candidate raw base m ∈ used.
Proof.
  intros Hfirst Hsize. destruct (suffix_loop_spec (S (size used)) raw base used first) as [(n & Hn & H)|Hall]; [lia|lia| |].
  - exists n. split; [lia | done].
  - apply all_used_size in Hall; lia.
Qed.

(** ** What one observation adds *)
Definition spoken (part : Value) : str :=
  if truthy (get part "functionCall") || truthy (get part "thought") then [] else text_or_empty part.
Definition thought_of (part : Value) : str :=
  if negb (truthy (get part "functionCall")) && truthy (get part "thought") then text_or_empty part else [].
Definition displayed (part : Value) : str := if truthy (get part "thought") then [] else text_or_empty part.

Definition observation_parts (observation : Value) : list Value :=
  match get observation "response" with Some r => primary_parts r | None => [] end.
Definition observation_request (observation : Value) : option str := get observation "source_request_id" ≫= as_str.
Definition observation_usage (observation : Value) : option ServedUsage :=
  get observation "response" ≫= fun r => get r "usageMetadata" ≫= fun u =>
  match served_read u 0 with Ok u => Some u | Err _ => None end.
Definition observation_reasons (observation : Value) : list str :=
  match get observation "response" with
  | Some r => omap (fun c => nonempty_str (get c "finishReason" ≫= as_str)) (values (get r "candidates"))
  | None => []
  end.

(** The call indices the history shows, in order. *)
Definition shown_calls (l : list Shown) : list nat := omap (fun s => match s with ShownCall i => Some i | _ => None end) l.

(** *** Calls and what the history shows

    The parts the history is made of: those of the responses that can stand in it,
    each call with the entry of the envelope's mapping that is its own. *)
Record Item := { it_place : nat; it_part : Value; it_mapping : option Value }.
Definition is_call (part : Value) : bool := truthy (get part "functionCall").
Definition is_thought (part : Value) : bool := truthy (get part "thought").

Fixpoint with_mappings (parts : list (nat * Value)) (mappings : list Value) : list Item :=
  match parts with
  | [] => []
  | (place, part) :: parts =>
      if is_call part then {| it_place := place; it_part := part; it_mapping := head mappings |} :: with_mappings parts (tail mappings)
      else {| it_place := place; it_part := part; it_mapping := None |} :: with_mappings parts mappings
  end.
Definition observation_mappings (observation : Value) : list Value := values (get observation "call_ids").
Definition observation_items (observation : Value) : list Item :=
  match get observation "response" with
  | Some r => if valid_response r (primary_parts r) then with_mappings (imap pair (primary_parts r)) (observation_mappings observation) else []
  | None => []
  end.

(** The identity the provider gave a call: a later call with the same one is the
    same call again. *)
Definition called_function (part : Value) (key : string) : option Value := get part "functionCall" ≫= fun call => get call (lit key).
Definition provider_id (it : Item) : option str :=
  if is_call (it_part it) then nonempty_str (called_function (it_part it) "id" ≫= as_str) else None.
Definition repeats (before : list Item) (it : Item) : bool :=
  match provider_id it with Some p => bool_decide (Some p ∈ map provider_id before) | None => false end.
Fixpoint unrepeated_after (before items : list Item) : list Item :=
  match items with
  | [] => []
  | it :: items => (if repeats before it then [] else [it]) ++ unrepeated_after (before ++ [it]) items
  end.
Definition unrepeated : list Item → list Item := unrepeated_after [].

Definition made (it : Item) : bool := is_call (it_part it) && negb (is_thought (it_part it)).
Definition call_of (it : Item) : Call :=
  {| call_id := default [] (it_mapping it ≫= fun m => get m "normalized_id" ≫= as_str);
     call_name := called_function (it_part it) "name" ≫= as_str;
     call_arguments := default [] (called_function (it_part it) "arguments" ≫= as_str) |}.

(** What is shown, as the bytes of its texts and its calls, in order. *)
Definition shown_flow (s : Shown) : list (option Z) := match s with ShownText t => map Some t | ShownCall _ => [None] | Unshowable => [] end.
Definition item_flow (it : Item) : list (option Z) := if made it then [None] else map Some (spoken (it_part it)).
Definition item_thought (it : Item) : str := if is_thought (it_part it) then text_or_empty (it_part it) else [].
(** A part the history can show: a thought, a call, or a text and nothing else. *)
Definition only_text (part : Value) : bool :=
  match members part with
  | Some ms => forallb (fun m => bool_decide (m.1 = lit "text") || bool_decide (m.1 = lit "thoughtSignature")) ms
  | None => false
  end.
Definition showable (part : Value) : bool := is_thought part || is_call part || (only_text part && match part_text part with Some _ => true | None => false end).

(** The place in its response a mapping says its call has. *)
Definition mapped_place (mapping : Value) : option Z :=
  get mapping "part_index" ≫= fun v => match unsigned v (lit "call part index") SAFE_INTEGER with Ok n => Some n | Err _ => None end.

Definition incomplete_of (call : Value) : IncompleteCall :=
  {| incomplete_name := get call "name" ≫= as_str; incomplete_arguments := default [] (get call "arguments" ≫= as_str) |}.
Definition observed_incomplete (observation : Value) : list IncompleteCall := map incomplete_of (values (get observation "incomplete_tool_calls")).

Section ReadLemmas.
Context `{BigIntOps} (json : Limits).

Definition served_object (text : str) : Prop :=
  ∃ d, decode text json = Ok d ∧ kind (root d) = KObject ∧ finite_numbers (root d) = Ok tt.

Record calls_inv (r : Reading) : Prop := {
  ci_nodup : NoDup (map call_id (calls (g r)));
  ci_calls : Forall (fun c => call_id c ∈ normalized_ids r ∧ served_object (call_arguments c)) (calls (g r));
  ci_shown : shown_calls (shown (g r)) = seq 0 (length (calls (g r)));
}.

(** What a step leaves alone. *)
Record same_texts (a b : Reading) : Prop := {
  st_text : generation_text (g b) = generation_text (g a);
  st_display : display_text (g b) = display_text (g a);
  st_thinking : thinking (g b) = thinking (g a);
}.
Record same_rest (a b : Reading) : Prop := {
  sr_hash : hash (g b) = hash (g a);
  sr_usage : generation_usage (g b) = generation_usage (g a);
  sr_finish : finish (g b) = finish (g a);
  sr_count : observation_count (g b) = observation_count (g a);
  sr_requests : source_requests (g b) = source_requests (g a);
  sr_observed_usage : observed_usage b = observed_usage a;
  sr_observed_finish : observed_finish b = observed_finish a;
}.

Lemma same_texts_trans a b c : same_texts a b → same_texts b c → same_texts a c.
Proof. intros [] []. split; congruence. Qed.
Lemma same_rest_trans a b c : same_rest a b → same_rest b c → same_rest a c.
Proof. intros [] []. split; congruence. Qed.
Lemma same_texts_refl a : same_texts a a.
Proof. done. Qed.
Lemma same_rest_refl a : same_rest a a.
Proof. done. Qed.

Lemma served_arguments_ok call text : served_arguments call json = Ok text → served_object text.
Proof.
  unfold served_arguments. destruct (decide _); [done|]. destruct (get call "arguments" ≫= as_str) as [t|]; [|done].
  intros (d & Hd%map_refused_ok & H1)%bind_ok_inv. unfold as_object in H1.
  destruct (decide (kind (root d) = KObject)) as [Hk|]; [|done].
  apply bind_ok_inv in H1 as ([] & Hf%map_refused_ok & [= ->]). by exists d.
Qed.

Lemma preparation_frame line r p r' :
  preparation_step line r p = Ok r' →
  g r' = g r ∧ normalized_ids r' = normalized_ids r ∧
  observed_usage r' = observed_usage r ∧ observed_finish r' = observed_finish r.
Proof.
  unfold preparation_step. intros H1. inv_ok. do 2 (case_match; [done|]). by inv_ok; subst.
Qed.

Lemma call_frame line mappings r mapped position call r' mapped' identity :
  call_step line json mappings r mapped position call = Ok (r', mapped', identity) →
  g r' = g r ∧ observed_usage r' = observed_usage r ∧ observed_finish r' = observed_finish r ∧
  match identity with
  | None => r' = r
  | Some (id, served) =>
      id ∉ normalized_ids r ∧ normalized_ids r' = {[id]} ∪ normalized_ids r ∧ served_object served
  end.
Proof.
  unfold call_step. destruct (_ || _); [done|].
  intros (served & Hserved%served_arguments_ok & (mapping & _ & H1)%bind_ok_inv)%bind_ok_inv.
  apply bind_ok_inv in H1 as (identity' & _ & (index & _ & (i & _ & H1)%bind_ok_inv)%bind_ok_inv).
  destruct (_ || _); [done|]. destruct (match nonempty_str _ with Some _ => _ | None => _ end); [by injection H1 as <- <- <-|].
  apply bind_ok_inv in H1 as (id & _ & (expected & _ & H1)%bind_ok_inv).
  destruct (decide _); [done|]. destruct (bool_decide (id ∈ normalized_ids r)) eqn:Hid; [done|]. to_prop.
  cbn [orb] in H1. case_match; [done|]. by injection H1 as <- <- <-.
Qed.

Lemma show_part_frame r part identity :
  same_texts r (show_part r part identity) ∧ same_rest r (show_part r part identity) ∧
  normalized_ids (show_part r part identity) = normalized_ids r.
Proof.
  unfold show_part. destruct (truthy _); [done|]. destruct (_ && _); [done|]. destruct (negb _); [done|].
  by destruct identity as [[[call id] served]|].
Qed.

Lemma shown_calls_app l k : shown_calls (l ++ k) = shown_calls l ++ shown_calls k.
Proof. apply omap_app. Qed.

Lemma push_last_text_calls l more : shown_calls (push_last_text l more) = shown_calls l.
Proof.
  unfold push_last_text. destruct (last l) as [[s| |]|] eqn:Hl; try done.
  apply last_Some in Hl as [l' ->]. rewrite removelast_last. by rewrite !shown_calls_app.
Qed.

Lemma show_part_inv r part identity :
  calls_inv r →
  match identity with
  | Some (_, id, served) => id ∈ normalized_ids r ∧ id ∉ map call_id (calls (g r)) ∧ served_object served
  | None => True
  end →
  calls_inv (show_part r part identity).
Proof.
  intros [Hnd Hcalls Hshown] Hid. unfold show_part. destruct (truthy _); [by split|].
  destruct (_ && _); [split; [done|done|]; simpl; by rewrite push_last_text_calls|].
  destruct (negb _); [by split|]. destruct identity as [[[call id] served]|].
  - destruct Hid as (Hin & Hout & Hserved). split; simpl.
    + rewrite map_app. apply NoDup_app. split; [done|]. split; [|apply NoDup_singleton].
      intros x Hx Hx'. apply list_elem_of_singleton in Hx' as ->. done.
    + apply Forall_app. split; [done|]. by apply Forall_singleton.
    + rewrite shown_calls_app, Hshown, length_app. simpl. by rewrite seq_app.
  - split; simpl; [done|done|]. rewrite shown_calls_app, Hshown.
    destruct (part_text part); [|by rewrite app_nil_r]. case_match; by rewrite app_nil_r.
Qed.

Lemma calls_inv_new_id r id : calls_inv r → id ∉ normalized_ids r → id ∉ map call_id (calls (g r)).
Proof.
  intros [_ Hcalls _] Hid (c & -> & Hc)%list_elem_of_fmap. apply Hid.
  eapply Forall_forall in Hcalls as [? _]; done.
Qed.

Lemma calls_inv_ids r r' : calls_inv r → g r' = g r → normalized_ids r ⊆ normalized_ids r' → calls_inv r'.
Proof.
  intros [Hnd Hcalls Hshown] Hg Hsub. split; rewrite Hg; [done| |done].
  eapply Forall_impl; [exact Hcalls|]. intros c [? ?]. split; [by apply Hsub | done].
Qed.

Lemma part_step_ok line mappings r mapped part r' mapped' :
  part_step line json mappings (r, mapped) part = Ok (r', mapped') →
  same_texts r r' ∧ same_rest r r' ∧ (calls_inv r → calls_inv r').
Proof.
  destruct part as [position part]. unfold part_step. destruct (truthy (get part "functionCall")).
  - intros (call & _ & ([[r1 m1] identity] & Hcall & H1)%bind_ok_inv)%bind_ok_inv.
    apply call_frame in Hcall as (Hg & Hu & Hf & Hid). cbn beta iota in H1.
    destruct identity as [[id served]|].
    + injection H1 as <- <-. destruct Hid as (Hnew & Hids & Hserved).
      destruct (show_part_frame r1 part (Some (call, id, served))) as ([] & [] & _).
      split; [split; congruence|]. split; [split; congruence|]. intros Hinv. apply show_part_inv.
      * eapply calls_inv_ids; [done|done|]. rewrite Hids. set_solver.
      * split; [rewrite Hids; set_solver|]. split; [|done]. rewrite Hg. by apply calls_inv_new_id.
    + injection H1 as <- <-. by subst r1.
  - intros [= <- <-]. destruct (show_part_frame r part None) as (? & ? & _). split; [done|]. split; [done|].
    intros Hinv. by apply show_part_inv.
Qed.

Lemma parts_ok line mappings parts r mapped r' mapped' :
  fold_result (part_step line json mappings) (r, mapped) parts = Ok (r', mapped') →
  same_texts r r' ∧ same_rest r r' ∧ (calls_inv r → calls_inv r').
Proof.
  revert r mapped. induction parts as [|part parts IH]; intros r mapped H1; simpl in H1.
  - injection H1 as <- <-. done.
  - apply bind_ok_inv in H1 as ([r1 m1] & Hstep & H1). apply part_step_ok in Hstep as (T1 & R1 & I1).
    apply IH in H1 as (T2 & R2 & I2). split; [by eapply same_texts_trans|]. split; [by eapply same_rest_trans | auto].
Qed.

(** Folding a step that leaves something alone. *)
Lemma fold_frame {A} (P : Reading → Reading → Prop) (f : Reading → A → contract Reading) :
  (∀ r, P r r) → (∀ a b c, P a b → P b c → P a c) → (∀ r x r', f r x = Ok r' → P r r') →
  ∀ l r r', fold_result f r l = Ok r' → P r r'.
Proof.
  intros Hrefl Htrans Hstep l. induction l as [|x l IH]; intros r r' H1; simpl in H1; [injection H1 as <-; done|].
  apply bind_ok_inv in H1 as (r1 & H1 & H2). eapply Htrans; [by eapply Hstep | by apply IH].
Qed.

Lemma preparations_ok line l r r' :
  fold_result (preparation_step line) r l = Ok r' →
  same_texts r r' ∧ same_rest r r' ∧ (calls_inv r → calls_inv r').
Proof.
  apply (fold_frame (fun a b => same_texts a b ∧ same_rest a b ∧ (calls_inv a → calls_inv b))).
  - done.
  - intros a b c (? & ? & ?) (? & ? & ?). split; [by eapply same_texts_trans|]. split; [by eapply same_rest_trans | auto].
  - intros a p b (Hg & Hids & Hu & Hf)%preparation_frame.
    split; [by split; rewrite Hg|]. split; [by split; rewrite ?Hg|]. intros Hinv.
    eapply calls_inv_ids; [done|done|by rewrite Hids].
Qed.

Lemma incompletes_ok line l r r' :
  fold_result (incomplete_step line) r l = Ok r' →
  same_texts r r' ∧ same_rest r r' ∧ (calls_inv r → calls_inv r').
Proof.
  apply (fold_frame (fun a b => same_texts a b ∧ same_rest a b ∧ (calls_inv a → calls_inv b))).
  - done.
  - intros a b c (? & ? & ?) (? & ? & ?). split; [by eapply same_texts_trans|]. split; [by eapply same_rest_trans | auto].
  - intros a x b. unfold incomplete_step. intros H1. inv_ok. subst. split; [done|]. split; [done|].
    intros [? ? ?]. by split.
Qed.

Lemma texts_ok l r r' :
  fold_result texts_step r l = Ok r' →
  generation_text (g r') = generation_text (g r) ++ concat (map spoken l) ∧
  display_text (g r') = display_text (g r) ++ concat (map displayed l) ∧
  thinking (g r') = thinking (g r) ++ concat (map thought_of l) ∧
  same_rest r r' ∧ (calls_inv r → calls_inv r').
Proof.
  revert r. induction l as [|part l IH]; intros r H1; simpl in H1.
  - injection H1 as <-. simpl. by rewrite !app_nil_r.
  - apply bind_ok_inv in H1 as (r1 & Hstep & H1). apply IH in H1 as (Ht & Hd & Hk & Hrest & Hinv).
    unfold texts_step in Hstep. case_match; [done|]. injection Hstep as <-. simpl in Ht, Hd, Hk.
    rewrite Ht, Hd, Hk. simpl. split_and!.
    + rewrite app_assoc. f_equal. unfold spoken. destruct (truthy _), (truthy _); simpl; by rewrite ?app_nil_r.
    + rewrite app_assoc. f_equal. unfold displayed. destruct (truthy (get part "thought")); by rewrite ?app_nil_r.
    + rewrite app_assoc. f_equal. unfold thought_of. destruct (truthy _), (truthy _); simpl; by rewrite ?app_nil_r.
    + by destruct Hrest.
    + intros [? ? ?]. by apply Hinv.
Qed.

Lemma count_line u key line line' maximum n :
  (f ← field u key line; unsigned f key maximum) = Ok n → (f ← field u key line'; unsigned f key maximum) = Ok n.
Proof. intros (f & Hf%field_ok & Hn)%bind_ok_inv. by rewrite (proj2 (field_ok u key line' f) Hf), bind_ok. Qed.

Lemma served_read_line u line line' s : served_read u line = Ok s → served_read u line' = Ok s.
Proof.
  unfold served_read. intros (p & Hp & (o & Ho & (t & Ht & (c & Hc & (n & Hn & H1)
    %bind_ok_inv)%bind_ok_inv)%bind_ok_inv)%bind_ok_inv)%bind_ok_inv.
  apply (count_line u _ _ line') in Hp, Ho, Ht, Hc, Hn. by rewrite Hp, bind_ok, Ho, bind_ok, Ht, bind_ok, Hc, bind_ok, Hn, bind_ok.
Qed.

Lemma first_reason (cs : list Value) o :
  fold_left (fun finish_ candidate =>
      match finish_ with
      | Some _ => finish_
      | None => nonempty_str (get candidate "finishReason" ≫= as_str)
      end) cs o =
    match o with Some f => Some f | None => head (omap (fun c => nonempty_str (get c "finishReason" ≫= as_str)) cs) end.
Proof.
  revert o. induction cs as [|c cs IH]; intros o; [by destruct o|]. cbn [fold_left]. rewrite IH.
  destruct o as [f|]; [done|]. cbn [omap list_omap]. by destruct (nonempty_str _).
Qed.

Lemma usage_step_ok line observation response r r' :
  get observation "response" = Some response →
  usage_step line response r = Ok r' →
  g r' = g r ∧ normalized_ids r' = normalized_ids r ∧
  observed_usage r' = match observation_usage observation with Some u => Some u | None => observed_usage r end ∧
  observed_finish r' = match observed_finish r with Some f => Some f | None => head (observation_reasons observation) end.
Proof.
  intros Hr. unfold usage_step, observation_usage, observation_reasons. rewrite Hr. simpl.
  intros (served & Hs & [= <-])%bind_ok_inv. simpl. rewrite first_reason. split_and!; try done.
  destruct (get response "usageMetadata") as [u|]; simpl; [|by injection Hs as <-].
  destruct (served_read u line) as [s|[e|site|]] eqn:Hread; try done.
  - injection Hs as <-. by rewrite (served_read_line _ _ _ _ Hread).
  - injection Hs as <-. destruct (served_read u 0) eqn:H0; [|done].
    by rewrite (served_read_line _ _ line _ H0) in Hread.
Qed.

(** What reading has established after some observations. *)
Record observed (base : Generation) (done_ : list Value) (r : Reading) : Prop := {
  ob_hash : hash (g r) = hash base;
  ob_usage : generation_usage (g r) = generation_usage base;
  ob_finish : finish (g r) = finish base;
  ob_count : observation_count (g r) = observation_count base;
  ob_requests : map Some (source_requests (g r)) = map observation_request done_;
  ob_text : generation_text (g r) = concat (map spoken (concat (map observation_parts done_)));
  ob_display : display_text (g r) = concat (map displayed (concat (map observation_parts done_)));
  ob_thinking : thinking (g r) = concat (map thought_of (concat (map observation_parts done_)));
  ob_observed_usage : observed_usage r = last (omap observation_usage done_);
  ob_observed_finish : observed_finish r = head (concat (map observation_reasons done_));
  ob_calls : calls_inv r;
}.

Lemma last_snoc_option {A} (l : list A) o : last (l ++ option_list o) = match o with Some x => Some x | None => last l end.
Proof. destruct o; simpl; [apply last_snoc | by rewrite app_nil_r]. Qed.

Lemma head_app_option {A} (l k : list A) : head (l ++ k) = match head l with Some x => Some x | None => head k end.
Proof. by destruct l. Qed.

Lemma observation_ok line base done_ observation r r' :
  observed base done_ r → observation_step line json r observation = Ok r' →
  observed base (done_ ++ [observation]) r'.
Proof.
  intros [] H1. unfold observation_step in H1.
  apply bind_ok_inv in H1 as (request & (Hrne & f & Hf & Hreq)%text_ok & (response & Hresp%field_ok & H1)%bind_ok_inv).
  set (r0 := with_g r (with_records (g r) (source_requests (g r) ++ [request]) (incomplete (g r)))) in *.
  assert (I0 : calls_inv r0) by by destruct ob_calls0.
  apply bind_ok_inv in H1 as (r1 & Hu & H1). apply (usage_step_ok line observation) in Hu as (Hg1 & Hids1 & Hu1 & Hf1); [|done].
  assert (I1 : calls_inv r1) by (eapply calls_inv_ids; [done|done|by rewrite Hids1]).
  apply bind_ok_inv in H1 as (r2 & Hp & H1). apply preparations_ok in Hp as ([T2a T2b T2c] & [] & I2).
  apply bind_ok_inv in H1 as (r3 & Ht & H1). apply texts_ok in Ht as (T3 & D3 & K3 & [] & I3).
  apply bind_ok_inv in H1 as ([r4 mapped] & Hparts & H1).
  assert (H4 : same_texts r3 r4 ∧ same_rest r3 r4 ∧ (calls_inv r3 → calls_inv r4)).
  { destruct (valid_response _ _); [by eapply parts_ok | by injection Hparts as <- <-]. }
  destruct H4 as ([] & [] & I4). destruct (negb _); [done|].
  apply incompletes_ok in H1 as ([] & [] & I5).
  assert (Hobs : observation_parts observation = primary_parts response) by (unfold observation_parts; by rewrite Hresp).
  rewrite Hg1 in *. simpl in *.
  split; rewrite ?map_app, ?concat_app; simpl; rewrite ?app_nil_r, ?map_app, ?concat_app, ?Hobs; try congruence.
  - assert (source_requests (g r') = source_requests (g r) ++ [request]) as -> by congruence.
    rewrite map_app, ob_requests0. do 2 f_equal. unfold observation_request. rewrite Hf. exact (f_equal (fun o => [o]) (eq_sym Hreq)).
  - rewrite omap_app. simpl. assert (observed_usage r' = observed_usage r1) as -> by congruence. rewrite Hu1.
    rewrite ob_observed_usage0. destruct (observation_usage observation); [by rewrite last_snoc | by rewrite app_nil_r].
  - rewrite head_app_option, <- ob_observed_finish0. congruence.
  - auto.
Qed.

Lemma observations_ok line base l done_ r r' :
  observed base done_ r → fold_result (observation_step line json) r l = Ok r' → observed base (done_ ++ l) r'.
Proof.
  revert done_ r. induction l as [|x l IH]; intros done_ r Ho H1; simpl in H1.
  - injection H1 as <-. by rewrite app_nil_r.
  - apply bind_ok_inv in H1 as (r1 & Hstep & H1). replace (done_ ++ x :: l) with ((done_ ++ [x]) ++ l) by by rewrite <- app_assoc.
    eapply IH; [by eapply observation_ok | done].
Qed.
End ReadLemmas.

(** ** What reading makes of the calls and of the history *)
Section Told.
Context `{BigIntOps} (json : Limits).

Record told (items : list Item) (r : Reading) : Prop := {
  td_raw : ∀ p, p ∈ raw_ids r ↔ Some p ∈ map provider_id items;
  td_calls : calls (g r) = map call_of (List.filter made (unrepeated items));
  td_thinking : shown_thinking (g r) = concat (map item_thought (unrepeated items));
  td_flow : Unshowable ∉ shown (g r) → concat (map shown_flow (shown (g r))) = concat (map item_flow (unrepeated items));
  td_last : previous_plain_nonempty r = true → ∃ l x, shown (g r) = l ++ [x] ∧ (x = Unshowable ∨ ∃ s, x = ShownText s);
  td_shown : Forall (fun it => showable (it_part it) = true) items → Unshowable ∉ shown (g r);
}.

Lemma unrepeated_snoc before items it :
  unrepeated_after before (items ++ [it]) = unrepeated_after before items ++ if repeats (before ++ items) it then [] else [it].
Proof.
  revert before. induction items as [|x items IH]; intros before; cbn [unrepeated_after app].
  - by rewrite !app_nil_r.
  - by rewrite IH, <- app_assoc, <- !app_assoc.
Qed.

(** Steps that tell nothing. *)
Definition untold (a b : Reading) : Prop :=
  raw_ids b = raw_ids a ∧ previous_plain_nonempty b = previous_plain_nonempty a ∧ calls (g b) = calls (g a) ∧
  shown_thinking (g b) = shown_thinking (g a) ∧ shown (g b) = shown (g a).
Lemma told_untold items a b : told items a → untold a b → told items b.
Proof. intros [] (E1 & E2 & E3 & E4 & E5). split; rewrite ?E1, ?E2, ?E3, ?E4, ?E5; done. Qed.
Lemma untold_trans a b c : untold a b → untold b c → untold a c.
Proof. unfold untold. intros (? & ? & ? & ? & ?) (? & ? & ? & ? & ?). split_and!; congruence. Qed.

Lemma usage_untold line response r r' : usage_step line response r = Ok r' → untold r r' ∧ incomplete (g r') = incomplete (g r).
Proof. unfold usage_step. by intros (served & _ & [= <-])%bind_ok_inv. Qed.
Lemma preparations_untold line l r r' : fold_result (preparation_step line) r l = Ok r' → untold r r' ∧ incomplete (g r') = incomplete (g r).
Proof.
  apply (fold_frame (fun a b => untold a b ∧ incomplete (g b) = incomplete (g a))).
  - done.
  - intros a b c [? ?] [? ?]. split; [by eapply untold_trans|congruence].
  - intros a p b Hp. unfold preparation_step in Hp. inv_ok. do 2 (case_match; [done|]). by inv_ok; subst.
Qed.
Lemma texts_untold l r r' : fold_result texts_step r l = Ok r' → untold r r' ∧ incomplete (g r') = incomplete (g r).
Proof.
  apply (fold_frame (fun a b => untold a b ∧ incomplete (g b) = incomplete (g a))).
  - done.
  - intros a b c [? ?] [? ?]. split; [by eapply untold_trans|congruence].
  - intros a p b Hp. unfold texts_step in Hp. case_match; [done|]. by injection Hp as <-.
Qed.
Lemma incompletes_told line l r r' :
  fold_result (incomplete_step line) r l = Ok r' → untold r r' ∧ incomplete (g r') = incomplete (g r) ++ map incomplete_of l.
Proof.
  revert r. induction l as [|c l IH]; intros r Hr; cbn [fold_result] in Hr; [injection Hr as <-; by rewrite app_nil_r|].
  apply bind_ok_inv in Hr as (r1 & Hc & Hrest). apply IH in Hrest as [Hu Hi]. unfold incomplete_step in Hc.
  apply bind_ok_inv in Hc as (name & Hname%field_ok & (v & Hv%field_ok & (args & Hargs & [= <-])%bind_ok_inv)%bind_ok_inv).
  unfold expect in Hargs. destruct (as_str v) as [s|] eqn:Hs; [|done]. injection Hargs as <-.
  split; [exact Hu|]. rewrite Hi. cbn [g with_g with_records incomplete map]. rewrite <- app_assoc. do 2 f_equal.
  unfold incomplete_of. rewrite Hname, Hv. cbn [mbind option_bind]. by rewrite Hs.
Qed.

(** *** A call *)
Lemma call_told line mappings r mapped position call r' mapped' identity :
  call_step line json mappings r mapped position call = Ok (r', mapped', identity) →
  ∃ mapping, mappings !! mapped = Some mapping ∧ mapped' = S mapped ∧ mapped_place mapping = Some (Z.of_nat position) ∧
    g r' = g r ∧ previous_plain_nonempty r' = previous_plain_nonempty r ∧
    let provider := nonempty_str (get call "id" ≫= as_str) in
    match identity with
    | None => r' = r ∧ ∃ p, provider = Some p ∧ p ∈ raw_ids r
    | Some (id, served) =>
        (∀ p, provider = Some p → p ∉ raw_ids r) ∧ (∀ p, p ∈ raw_ids r' ↔ provider = Some p ∨ p ∈ raw_ids r) ∧
        (get mapping "normalized_id" ≫= as_str) = Some id ∧ (get call "arguments" ≫= as_str) = Some served
    end.
Proof.
  unfold call_step. destruct (_ || _); [done|]. intros (served & Hserved & (mapping & Hm & H1)%bind_ok_inv)%bind_ok_inv.
  destruct (mappings !! mapped) as [m|] eqn:Hmap; [|done]. injection Hm as ->.
  apply bind_ok_inv in H1 as (identity' & Hid & (index & Hindex%field_ok & (i & Hi & H1)%bind_ok_inv)%bind_ok_inv).
  destruct (_ || _) eqn:Hplace; [done|]. to_prop. exists mapping. split; [done|].
  assert (mapped_place mapping = Some (Z.of_nat position)) as Hat.
  { unfold mapped_place. rewrite Hindex. cbn [mbind option_bind]. rewrite Hi. by f_equal. }
  assert ((get call "arguments" ≫= as_str) = Some served) as Hargs.
  { clear -Hserved. unfold served_arguments in Hserved. destruct (decide _); [done|]. destruct (get call "arguments" ≫= as_str) as [t|]; [|done].
    apply bind_ok_inv in Hserved as (d & _ & H1). destruct (as_object _); [|done]. by apply bind_ok_inv in H1 as ([] & _ & [= ->]). }
  set (provider := nonempty_str (get call "id" ≫= as_str)) in *.
  destruct (match provider with Some p => bool_decide (p ∈ raw_ids r) | None => false end) eqn:Hdup.
  - injection H1 as <- <- <-. split_and!; try done. destruct provider as [p|]; [|done]. exists p. by to_prop.
  - apply bind_ok_inv in H1 as (id & (_ & f & Hf & Hs)%text_ok & (expected & _ & H1)%bind_ok_inv).
    destruct (decide _); [done|]. destruct (_ || _); [done|]. injection H1 as <- <- <-. split_and!; try done.
    + intros p ->. by to_prop.
    + intros p. cbn [raw_ids]. fold provider. destruct provider as [q|]; [|set_solver]. rewrite elem_of_union, elem_of_singleton. naive_solver.
    + rewrite Hf. exact Hs.
Qed.

(** *** A part *)
Lemma plain_neither part : plain_text part = true → is_thought part = false ∧ is_call part = false.
Proof. unfold plain_text, is_thought, is_call. cbn [forallb]. intros Hp. to_prop. by split. Qed.
Lemma invalid_silent part : valid_part part = false → is_thought part = false ∧ is_call part = false ∧ text_or_empty part = [].
Proof.
  unfold valid_part, is_thought, is_call, text_or_empty. intros Hv. to_prop. repeat match goal with Hn : ¬ _ ≠ _ |- _ => apply dec_stable in Hn as -> end.
  match goal with Hf : get part "functionCall" = None |- _ => rewrite Hf | _ => idtac end. by split_and!.
Qed.
Lemma call_part_valid part : is_call part = true → valid_part part = true ∧ plain_text part = false.
Proof.
  intros Hc. split.
  - destruct (valid_part part) eqn:Hv; [done|]. apply invalid_silent in Hv as (_ & Hn & _). congruence.
  - destruct (plain_text part) eqn:Hp; [|done]. apply plain_neither in Hp as [_ Hn]. congruence.
Qed.

Lemma unrepeated_next items it : repeats items it = false → unrepeated (items ++ [it]) = unrepeated items ++ [it].
Proof. intros Hr. unfold unrepeated. by rewrite unrepeated_snoc, app_nil_l, Hr. Qed.

(** What an item that is not a repetition adds to what was told. *)
Lemma told_next items it r r' :
  told items r → repeats items it = false → (∀ p, p ∈ raw_ids r' ↔ provider_id it = Some p ∨ p ∈ raw_ids r) →
  calls (g r') = calls (g r) ++ (if made it then [call_of it] else []) → shown_thinking (g r') = shown_thinking (g r) ++ item_thought it →
  (Unshowable ∉ shown (g r') → Unshowable ∉ shown (g r) ∧ concat (map shown_flow (shown (g r'))) = concat (map shown_flow (shown (g r))) ++ item_flow it) →
  (previous_plain_nonempty r' = true → ∃ l x, shown (g r') = l ++ [x] ∧ (x = Unshowable ∨ ∃ s, x = ShownText s)) →
  (showable (it_part it) = true → Unshowable ∉ shown (g r) → Unshowable ∉ shown (g r')) → told (items ++ [it]) r'.
Proof.
  intros [Hraw Hcalls Hthink Hflow _ Hshown] Hrep Hraw' Hc Ht Hf Hlast Hs. split; rewrite ?unrepeated_next by done.
  - intros p. rewrite Hraw', Hraw, map_app, elem_of_app. cbn [map]. rewrite list_elem_of_singleton. naive_solver.
  - rewrite Hc, Hcalls, List.filter_app, map_app. f_equal. cbn. by destruct (made it).
  - rewrite Ht, Hthink, map_app, concat_app. cbn. by rewrite app_nil_r.
  - intros Hno. destruct (Hf Hno) as [Hno' ->]. rewrite Hflow, map_app, concat_app by done. cbn. by rewrite app_nil_r.
  - exact Hlast.
  - intros Hall. apply Forall_app in Hall as [Hall Hit]. apply Forall_cons_1 in Hit as [Hit _]. exact (Hs Hit (Hshown Hall)).
Qed.

Lemma push_last_shown l more :
  (∃ k x, l = k ++ [x] ∧ (x = Unshowable ∨ ∃ s, x = ShownText s)) →
  (Unshowable ∉ push_last_text l more → Unshowable ∉ l ∧ concat (map shown_flow (push_last_text l more)) = concat (map shown_flow l) ++ map Some more) ∧
  (∃ k x, push_last_text l more = k ++ [x] ∧ (x = Unshowable ∨ ∃ s, x = ShownText s)) ∧ (Unshowable ∉ l → Unshowable ∉ push_last_text l more).
Proof.
  intros (k & x & -> & Hx). unfold push_last_text. rewrite last_snoc. destruct Hx as [->|[s ->]].
  - split_and!; [|by exists k, Unshowable; auto|done]. intros Hno. destruct Hno. apply elem_of_app. right. left.
  - rewrite removelast_last. split_and!.
    + intros Hno. split; [rewrite elem_of_app, list_elem_of_singleton in *; naive_solver|]. rewrite !map_app, !concat_app. cbn. by rewrite !app_nil_r, map_app, app_assoc.
    + exists k, (ShownText (s ++ more)). eauto.
    + rewrite !elem_of_app, !list_elem_of_singleton. naive_solver.
Qed.

Definition identified (it : Item) (identity : option (Value * str * str)) : Prop :=
  match identity with
  | Some (call, i, served) => is_call (it_part it) = true ∧ call_of it = {| call_id := i; call_name := get call "name" ≫= as_str; call_arguments := served |}
  | None => is_call (it_part it) = false
  end.

Lemma show_part_told items it r0 r identity :
  told items r0 → g r = g r0 → previous_plain_nonempty r = previous_plain_nonempty r0 →
  (∀ p, p ∈ raw_ids r ↔ provider_id it = Some p ∨ p ∈ raw_ids r0) → repeats items it = false → identified it identity →
  told (items ++ [it]) (show_part r (it_part it) identity).
Proof.
  intros Htold Hg Hprev Hraw Hrep Hid. set (part := it_part it) in *. pose proof (td_last _ _ Htold) as Hlast. rewrite <- Hprev, <- Hg in Hlast.
  assert (∀ r', raw_ids r' = raw_ids r → calls (g r') = calls (g r) ++ (if made it then [call_of it] else []) → shown_thinking (g r') = shown_thinking (g r) ++ item_thought it →
    (Unshowable ∉ shown (g r') → Unshowable ∉ shown (g r) ∧ concat (map shown_flow (shown (g r'))) = concat (map shown_flow (shown (g r))) ++ item_flow it) →
    (previous_plain_nonempty r' = true → ∃ l x, shown (g r') = l ++ [x] ∧ (x = Unshowable ∨ ∃ s, x = ShownText s)) →
    (showable part = true → Unshowable ∉ shown (g r) → Unshowable ∉ shown (g r')) → told (items ++ [it]) r') as Hnext.
  { intros r' E. rewrite Hg. intros. eapply told_next; try done. intros p. by rewrite E. }
  unfold made, item_thought, item_flow in Hnext. unfold made in Hnext. fold part in Hnext. unfold show_part, spoken in *. fold (is_thought part) in *. fold (is_call part) in *.
  destruct (is_thought part) eqn:Hthought.
  { rewrite ?andb_false_r, ?orb_true_r in Hnext. apply Hnext; cbn; rewrite ?app_nil_r; auto. }
  cbv zeta. rewrite andb_true_r, orb_false_r in Hnext. destruct (previous_plain_nonempty r && plain_text part) eqn:Hmerge.
  { to_prop. destruct (plain_neither part) as [_ Hcall]; [done|]. rewrite Hcall in Hnext.
    destruct (push_last_shown (shown (g r)) (text_or_empty part)) as (? & ? & ?); [auto|]. apply Hnext; cbn; rewrite ?app_nil_r; auto. }
  destruct (valid_part part) eqn:Hvalid; cbn [negb].
  2: { destruct (invalid_silent part Hvalid) as (_ & Hcall & Htext). rewrite Hcall, Htext in Hnext. apply Hnext; rewrite ?app_nil_r; auto. }
  destruct identity as [[[call i] served]|]; cbn in Hid.
  - destruct Hid as [Hcall Hof]. fold part in Hcall. destruct (call_part_valid part Hcall) as [_ Hplain]. rewrite Hcall, Hof in Hnext. rewrite Hplain.
    apply Hnext; cbn; rewrite ?app_nil_r; try done.
    + rewrite elem_of_app, map_app, concat_app. cbn. intros Hno. split; [auto|done].
    + intros _ Hno. rewrite elem_of_app, list_elem_of_singleton. naive_solver.
  - fold part in Hid. rewrite Hid in Hnext. fold (only_text part). set (this := match part_text part with Some s => if only_text part then ShownText s else Unshowable | None => Unshowable end).
    assert (this = Unshowable ∨ ∃ s, this = ShownText s ∧ text_or_empty part = s) as Hthis.
    { unfold this, text_or_empty. destruct (part_text part) as [s|]; [|by left]. destruct (only_text part); [right; by exists s|by left]. }
    apply Hnext; cbn; rewrite ?app_nil_r; try done.
    + rewrite elem_of_app, list_elem_of_singleton, map_app, concat_app. intros Hno. split; [auto|].
      destruct Hthis as [Hu|(s & -> & ->)]; [destruct Hno; auto|]. cbn. by rewrite app_nil_r.
    + intros _. exists (shown (g r)), this. split; [done|]. destruct Hthis as [?|(s & ? & _)]; eauto.
    + unfold showable. rewrite Hthought, Hid. cbn. intros Hs Hno. rewrite elem_of_app, list_elem_of_singleton. intros [?|Hu]; [done|].
      unfold this in Hu. to_prop. destruct (only_text part), (part_text part); done.
Qed.

Lemma told_repeated items it r : told items r → repeats items it = true → told (items ++ [it]) r.
Proof.
  intros [Hraw Hcalls Hthink Hflow Hlast Hshown] Hrep.
  assert (unrepeated (items ++ [it]) = unrepeated items) as E by (unfold unrepeated; by rewrite unrepeated_snoc, app_nil_l, Hrep, app_nil_r).
  split; rewrite ?E; try done.
  - intros p. rewrite Hraw, map_app, elem_of_app. cbn [map]. rewrite list_elem_of_singleton. unfold repeats in Hrep.
    destruct (provider_id it) as [q|]; [|done]. to_prop. naive_solver.
  - intros Hall. apply Forall_app in Hall as [Hall _]. auto.
Qed.

Lemma show_part_incomplete r part identity : incomplete (g (show_part r part identity)) = incomplete (g r).
Proof. unfold show_part. repeat case_match; done. Qed.

(** The item of a part: a call's mapping is the next. *)
Definition has_mapping (it : Item) : Prop :=
  is_call (it_part it) = true → ∃ m, it_mapping it = Some m ∧ mapped_place m = Some (Z.of_nat (it_place it)).

Lemma part_step_told items line mappings r mapped place part r' mapped' :
  told items r → part_step line json mappings (r, mapped) (place, part) = Ok (r', mapped') →
  let it := {| it_place := place; it_part := part; it_mapping := if is_call part then mappings !! mapped else None |} in
  told (items ++ [it]) r' ∧ has_mapping it ∧ mapped' = (if is_call part then S mapped else mapped) ∧ incomplete (g r') = incomplete (g r).
Proof.
  intros Htold. unfold part_step, has_mapping. fold (is_call part). cbv zeta. cbn [it_part it_mapping it_place]. destruct (is_call part) eqn:Hcall.
  2: { intros [= <- <-]. split_and!; [|done|done|apply show_part_incomplete].
       apply (show_part_told items {| it_place := place; it_part := part; it_mapping := None |} r r None Htold eq_refl eq_refl);
         unfold repeats, provider_id; cbn [it_part]; rewrite ?Hcall; [|done|done]. naive_solver. }
  set (it := {| it_place := place; it_part := part; it_mapping := mappings !! mapped |}).
  intros (call & Hfn & ([[r1 m1] identity] & Hstep & H1)%bind_ok_inv)%bind_ok_inv. unfold expect in Hfn.
  destruct (get part "functionCall") as [c|] eqn:Hget; [|done]. injection Hfn as ->.
  apply call_told in Hstep as (mapping & Hm & -> & Hat & Hg & Hprev & Hid). cbv zeta in Hid.
  assert (provider_id it = nonempty_str (get call "id" ≫= as_str)) as Hprovider.
  { unfold provider_id, called_function. cbn [it it_part]. by rewrite Hcall, Hget. }
  rewrite <- Hprovider in Hid. pose proof (td_raw _ _ Htold) as Hraw.
  destruct identity as [[i served]|]; injection H1 as <- <-.
  - destruct Hid as (Hnew & Hraw1 & Hnorm & Hargs). split_and!; [|by exists mapping|done|by rewrite show_part_incomplete, Hg].
    apply (show_part_told items it r r1 (Some (call, i, served)) Htold Hg Hprev Hraw1).
    + unfold repeats. destruct (provider_id it) as [p|]; [|done]. apply bool_decide_eq_false_2. rewrite <- Hraw. by apply Hnew.
    + split; [done|]. unfold call_of, called_function. cbn [it it_part it_mapping]. rewrite Hm, Hget. cbn [mbind option_bind]. by rewrite Hnorm, Hargs.
  - destruct Hid as (-> & p & Hp & Hin). split_and!; [|by exists mapping|done|done]. apply told_repeated; [done|].
    unfold repeats. rewrite Hp. apply bool_decide_eq_true_2. by apply Hraw.
Qed.

Lemma parts_told items line mappings parts r mapped r' mapped' :
  told items r → fold_result (part_step line json mappings) (r, mapped) parts = Ok (r', mapped') →
  let new := with_mappings parts (drop mapped mappings) in
  told (items ++ new) r' ∧ Forall has_mapping new ∧ drop mapped mappings = omap it_mapping new ++ drop mapped' mappings ∧ incomplete (g r') = incomplete (g r).
Proof.
  revert items r mapped. induction parts as [|[place part] parts IH]; intros items r mapped Htold H1; cbn [fold_result] in H1.
  - injection H1 as <- <-. cbn. by rewrite app_nil_r.
  - apply bind_ok_inv in H1 as ([r1 m1] & Hstep & H1). apply (part_step_told items) in Hstep as (Ht1 & Hmap & -> & Hi); [|done].
    apply (IH _ _ _ Ht1) in H1 as (Ht2 & Hall & Hdrop & Hi2). unfold has_mapping in Hmap at 1. cbn [it_part it_mapping it_place] in Hmap. cbv zeta. cbn [with_mappings].
    destruct (is_call part) eqn:Hcall.
    + destruct (Hmap eq_refl) as (m & Hm & Hat). rewrite (drop_S mappings m mapped Hm) in *. cbn [head tail]. rewrite Hm in *. rewrite <- app_assoc in Ht2.
      split_and!; [exact Ht2| | |congruence].
      * constructor; [|done]. intros _. by exists m.
      * cbn. by f_equal.
    + rewrite <- app_assoc in Ht2. split_and!; [exact Ht2| |exact Hdrop|congruence]. constructor; [|done]. unfold has_mapping. cbn. by rewrite Hcall.
Qed.

(** *** An observation *)
Definition mapped_exactly (observation : Value) : Prop :=
  observation_mappings observation = omap it_mapping (observation_items observation) ∧ Forall has_mapping (observation_items observation).

Lemma observation_told items line r observation r' :
  told items r → observation_step line json r observation = Ok r' →
  told (items ++ observation_items observation) r' ∧ mapped_exactly observation ∧ incomplete (g r') = incomplete (g r) ++ observed_incomplete observation.
Proof.
  intros Htold H1. unfold observation_step in H1.
  apply bind_ok_inv in H1 as (request & _ & (response & Hresp%field_ok & H1)%bind_ok_inv).
  set (r0 := with_g r _) in *. assert (untold r r0 ∧ incomplete (g r0) = incomplete (g r)) as [U0 I0] by done.
  apply bind_ok_inv in H1 as (r1 & [U1 I1]%usage_untold & (r2 & [U2 I2]%preparations_untold & (r3 & [U3 I3]%texts_untold & H1)%bind_ok_inv)%bind_ok_inv).
  assert (told items r3) as Ht3 by (eapply told_untold; [exact Htold|]; do 3 (eapply untold_trans; [|done]); done).
  apply bind_ok_inv in H1 as ([r4 mapped] & Hparts & H1). destruct (negb _) eqn:Hlen; [done|]. to_prop.
  fold (observation_mappings observation) in *. apply incompletes_told in H1 as [U5 I5].
  assert (told (items ++ observation_items observation) r4 ∧ mapped_exactly observation ∧ incomplete (g r4) = incomplete (g r3)) as (Ht4 & Hex & I4).
  { unfold mapped_exactly, observation_items. rewrite Hresp. destruct (valid_response _ _).
    - apply (parts_told items) in Hparts as (? & ? & Hdrop & ?); [|done]. split_and!; try done. rewrite drop_0 in Hdrop. rewrite Hdrop at 1.
      rewrite drop_ge, app_nil_r by lia. done.
    - injection Hparts as <- <-. rewrite app_nil_r. split_and!; try done. by apply nil_length_inv. }
  split; [by eapply told_untold|]. split; [done|]. unfold observed_incomplete. rewrite I5. congruence.
Qed.

Lemma observations_told items line l r r' :
  told items r → fold_result (observation_step line json) r l = Ok r' →
  told (items ++ concat (map observation_items l)) r' ∧ Forall mapped_exactly l ∧ incomplete (g r') = incomplete (g r) ++ concat (map observed_incomplete l).
Proof.
  revert items r. induction l as [|x l IH]; intros items r Htold H1; cbn [fold_result] in H1.
  - injection H1 as <-. cbn. rewrite !app_nil_r. by split_and!.
  - apply bind_ok_inv in H1 as (r1 & Hx & H1). apply (observation_told items) in Hx as (Ht & Hex & Hi); [|done].
    apply (IH _ _ Ht) in H1 as (Ht' & Hall & Hi'). cbn [map concat]. rewrite app_assoc. split_and!; [done|by constructor|]. by rewrite Hi', Hi, app_assoc.
Qed.

Lemma told_start base seed : calls base = [] → shown_thinking base = [] → shown base = [] → told [] (start_reading base seed).
Proof. intros E1 E2 E3. split; cbn; rewrite ?E1, ?E2, ?E3; try done; set_solver. Qed.
End Told.

(** ** Grouping blocks into messages *)
Definition same_kind (group : list (string * str)) : Prop :=
  ∃ b rest, group = b :: rest ∧ Forall (fun x => x.1 = b.1) rest.

Definition alternating (groups : list (list (string * str))) : Prop :=
  ∀ i a b x y, groups !! i = Some a → groups !! S i = Some b → head a = Some x → head b = Some y → x.1 ≠ y.1.

Record grouping (blocks : list (string * str)) (groups : list (list (string * str))) : Prop := {
  gr_concat : concat groups = blocks;
  gr_kinds : Forall same_kind groups;
  gr_alternating : alternating groups;
}.

Lemma alternating_snoc groups (a b : list (string * str)) :
  alternating (groups ++ [a]) → same_kind a → (∀ x y, head a = Some x → head b = Some y → x.1 ≠ y.1) →
  alternating (groups ++ [a] ++ [b]).
Proof.
  intros Halt _ Hab i c d x y Hc Hd Hx Hy.
  rewrite app_assoc in Hc, Hd. apply lookup_app_Some in Hd as [Hd|[Hlen Hd]].
  - rewrite lookup_app_l in Hc by (apply lookup_lt_Some in Hd; lia). exact (Halt i c d x y Hc Hd Hx Hy).
  - apply list_lookup_singleton_Some in Hd as [Hi <-]. rewrite length_app in *. simpl in *.
    assert (i = length groups) as -> by lia. rewrite lookup_app_l in Hc by (rewrite length_app; simpl; lia).
    rewrite lookup_app_r, Nat.sub_diag in Hc by lia. injection Hc as <-. by apply Hab.
Qed.

Lemma alternating_replace groups (a b : list (string * str)) :
  alternating (groups ++ [a]) → head a = head b → alternating (groups ++ [b]).
Proof.
  intros Halt Hhead i c d x y Hc Hd Hx Hy. apply lookup_app_Some in Hd as [Hd|[Hlen Hd]].
  - assert (S i < length groups)%nat by by apply lookup_lt_Some in Hd. rewrite lookup_app_l in Hc by lia.
    apply (Halt i c d x y); [by rewrite lookup_app_l by lia|by rewrite lookup_app_l by lia|done|done].
  - apply list_lookup_singleton_Some in Hd as [Hi <-]. rewrite lookup_app_l in Hc by lia.
    apply (Halt i c a x y); [by rewrite lookup_app_l by lia| |done|by rewrite Hhead].
    rewrite lookup_app_r by lia. by rewrite Hi.
Qed.

Lemma group_blocks_snoc blocks b : group_blocks (blocks ++ [b]) = group_step (group_blocks blocks) b.
Proof. unfold group_blocks. by rewrite fold_left_app. Qed.

Lemma group_blocks_ok blocks : grouping blocks (group_blocks blocks).
Proof.
  induction blocks as [|b blocks [Hc Hk Ha]] using rev_ind; [by split; [| |intros ? ? ? ? ? ?]|].
  rewrite group_blocks_snoc. unfold group_step. destruct (last (group_blocks blocks)) as [group|] eqn:Hl.
  - apply last_Some in Hl as [groups Hg]. rewrite Hg in *. rewrite removelast_last.
    apply Forall_app in Hk as [Hk Hgroup]. apply Forall_singleton in Hgroup as (x & rest & -> & Hrest).
    cbn [head]. destruct x as [k s]. destruct (decide (k = b.1)) as [->|Hne].
    + split.
      * rewrite concat_app in *. simpl in *. rewrite <- Hc. by rewrite !app_nil_r, <- app_assoc.
      * apply Forall_app. split; [done|]. apply Forall_singleton. exists (b.1, s), (rest ++ [b]). split; [done|].
        apply Forall_app. split; [done|]. by apply Forall_singleton.
      * by eapply alternating_replace.
    + split.
      * rewrite concat_app, Hc. done.
      * rewrite !Forall_app. split; [split; [done|]|]; apply Forall_singleton; [by exists (k, s), rest|].
        exists b, []. by split.
      * rewrite <- app_assoc. apply alternating_snoc; [done|by exists (k, s), rest|]. by intros x y [= <-] [= <-].
  - apply last_None in Hl. rewrite Hl in *. simpl in Hc. subst blocks. split; simpl; [done| |].
    + apply Forall_singleton. exists b, []. by split.
    + intros i c d x y _ Hd. destruct i; simpl in Hd; done.
Qed.

(** ** Properties *)

(** Call-identity normalization is total and deterministic.  Whatever is
    already used (fewer identities than exact integers), it returns an unused
    identity: the provider's own when that is free, and otherwise the candidate
    with the smallest free suffix. *)
Theorem next_normalized_id_total (raw : option str) (used : gset str) :
  Z.of_nat (size used) + 2 <= SAFE_INTEGER →
  ∃ id, next_normalized_id raw used = Ok id ∧ id ∉ used ∧
    match nonempty_str raw with
    | Some own =>
        (own ∉ used → id = own) ∧
        (own ∈ used → ∃ n, 2 <= n ∧ id = own ++ lit "__qwen_dup_" ++ show_Z n ∧
           ∀ m, 2 <= m < n → own ++ lit "__qwen_dup_" ++ show_Z m ∈ used)
    | None =>
        ∃ n, 1 <= n ∧ id = lit "call_qwen_" ++ show_Z n ∧ ∀ m, 1 <= m < n → lit "call_qwen_" ++ show_Z m ∈ used
    end.
Proof.
  intros Hsize. unfold next_normalized_id.
  destruct (nonempty_str raw) as [own|] eqn:Hraw.
  - destruct (decide (own ∈ used)) as [Hin|Hout]; [|by exists own].
    destruct (suffix_loop_total raw own used 2) as (n & Hn & -> & Hfree & Hused); [lia|done|].
    exists (candidate raw own n). unfold candidate in *. rewrite Hraw in *. split; [done|]. split; [done|].
    split; [done|]. intros _. by exists n.
  - destruct (suffix_loop_total raw (lit "call_qwen") used 1) as (n & Hn & -> & Hfree & Hused); [lia|done|].
    exists (candidate raw (lit "call_qwen") n). unfold candidate in *. rewrite Hraw in *. split; [done|]. split; [done|].
    exists n. split; [done|]. split; [done|]. intros m Hm. by apply (Hused m).
Qed.

Lemma next_normalized_id_total_witness :
  let used : gset str := {[lit "a"; lit "a__qwen_dup_2"; lit "call_qwen_1"]} in
  next_normalized_id (Some (lit "a")) used = Ok (lit "a__qwen_dup_3") ∧ lit "a__qwen_dup_3" ∉ used.
Proof.
  intros used. assert (E : next_normalized_id (Some (lit "a")) used = Ok (lit "a__qwen_dup_3")) by by vm_compute.
  split; [done|]. destruct (next_normalized_id_total (Some (lit "a")) used) as (id & Hid & Hfree & _).
  - vm_compute. discriminate.
  - rewrite E in Hid. by injection Hid as <-.
Defined.

(** C35: a generation that is read says exactly what its retained envelope
    observed.  The envelope is the decoding of bytes whose length and SHA-256 the
    record declares; the texts are the concatenations, over every part of every
    observation in order, of the spoken, displayed and thought texts; the served
    usage is the last readable report and the finish reason the first nonempty
    one; every observation has its source request.  The calls are the calls of the
    observed responses, in order, less those that repeat an identity the provider
    already gave: each has its own name, the text of its own arguments -- one exact
    JSON object with finite numbers -- and the identity the entry of the envelope's
    mapping gives it, the entries being one for one, in order and at the places of
    the observed calls; identities are distinct.  The incomplete calls are the
    observed ones.  What the history shows is the text those responses spoke with
    the calls where they were made, and what they thought, unless a part is of a
    kind that cannot be shown, and then the history says so. *)
Theorem generation_read_sound `{BigIntOps} `{StreamContract} `{Sha256Ops}
    (evidence : Value) (line : Z) (json : Limits) (schema : ValidationLimits)
    (seed_for_origin : Origin → contract (list str)) (gen : Generation) :
  generation_read evidence line json schema seed_for_origin = Ok gen →
  ∃ raw document,
    (get evidence "generation_json" ≫= as_str) = Some raw ∧ decode raw json = Ok document ∧
    hash gen = sha256 raw ∧ (get evidence "generation_sha256" ≫= as_str) = Some (sha256 raw) ∧
    let observations := values (get (root document) "observations") in
    let parts := concat (map observation_parts observations) in
    generation_text gen = concat (map spoken parts) ∧ display_text gen = concat (map displayed parts) ∧
    thinking gen = concat (map thought_of parts) ∧
    map Some (source_requests gen) = map observation_request observations ∧
    observation_count gen = Z.of_nat (length observations) ∧
    generation_usage gen = last (omap observation_usage observations) ∧
    finish gen = head (concat (map observation_reasons observations)) ∧
    NoDup (map call_id (calls gen)) ∧
    Forall (fun c => served_object json (call_arguments c)) (calls gen) ∧
    shown_calls (shown gen) = seq 0 (length (calls gen)) ∧
    let items := concat (map observation_items observations) in
    Forall mapped_exactly observations ∧
    calls gen = map call_of (List.filter made (unrepeated items)) ∧
    incomplete gen = concat (map observed_incomplete observations) ∧
    shown_thinking gen = concat (map item_thought (unrepeated items)) ∧
    (Unshowable ∉ shown gen → concat (map shown_flow (shown gen)) = concat (map item_flow (unrepeated items))) ∧
    (Forall (fun it => showable (it_part it) = true) items → Unshowable ∉ shown gen).
Proof.
  unfold generation_read. intros ([envelope declared] & Henv & (base & Hbase & Hr)%bind_ok_inv)%bind_ok_inv.
  destruct (match output_scope base with Conversation (Some _) => _ | _ => _ end); [done|].
  apply bind_ok_inv in Hr as (seed & _ & (r & Hfold & Hr)%bind_ok_inv).
  destruct (_ || _) eqn:Heq; [done|]. injection Hr as <-. to_prop.
  unfold read_envelope in Henv. apply bind_ok_inv in Henv as ([] & _ & (raw & (_ & f & Hf & Hraw)%text_ok & Henv)%bind_ok_inv).
  apply bind_ok_inv in Henv as (sum & (_ & f' & Hf' & Hsum)%text_ok & (bytes & _ & (n & _ & Henv)%bind_ok_inv)%bind_ok_inv).
  destruct (_ || _) eqn:Hsha; [done|]. to_prop.
  apply bind_ok_inv in Henv as (document & Hdoc%map_refused_ok & ([] & _ & ([] & _ & [= <- <-])%bind_ok_inv)%bind_ok_inv).
  assert (Hob : observed json base [] (start_reading base seed)).
  { unfold read_summary in Hbase. inv_ok. subst base. split; simpl; try done. by split; [constructor|constructor|]. }
  assert (Hcount : observation_count base = Z.of_nat (length (values (get (root document) "observations")))).
  { unfold read_summary in Hbase. inv_ok. by subst base. }
  assert (Htold : told [] (start_reading base seed) ∧ incomplete base = []) by (unfold read_summary in Hbase; inv_ok; subst base; split; [by apply told_start|done]).
  destruct Htold as [Htold Hnone]. apply (observations_told json [] _ _ _ _ Htold) in Hfold as Hall. destruct Hall as ([_ ? ? ? _ ?] & ? & Hinc).
  cbn [g start_reading] in Hinc. rewrite Hnone in Hinc.
  assert (Hhash : hash base = sum) by (unfold read_summary in Hbase; inv_ok; by subst base).
  apply observations_ok with (base := base) (done_ := []) in Hfold; [|done]. destruct Hfold. simpl in *.
  repeat match goal with H : ¬ _ ≠ _ |- _ => apply dec_stable in H end.
  exists raw, document. rewrite Hf, Hf'. simpl. destruct ob_calls0 as [Hnd Hcalls Hshown].
  split_and!; try done; try congruence.
  eapply Forall_impl; [exact Hcalls|]. by intros c [_ ?].
Qed.

(** A digest to evaluate examples with: the text itself. *)
Definition plain_digest : Sha256Ops :=
  {| Sha256 := str; sha_new := []; sha_update := app; sha_finalize := fun s => s |}.

Lemma plain_digest_laws : @Sha256Laws plain_digest.
Proof.
  split; simpl.
  - intros h. apply app_nil_r.
  - intros h a b. by rewrite app_assoc.
Qed.

(** An object of leaves, as a document. *)
Definition leaf_object (ms : list (str * Node)) : Value :=
  {| document := {| source := []; root_id := length ms;
       entries := map (fun m => {| node_of := m.2; span_start := 0; span_end := 0 |}) ms
                  ++ [{| node_of := ObjectNode (imap (fun i m => (m.1, i)) ms); span_start := 0; span_end := 0 |}] |};
     id := length ms |}.

Definition example_envelope : str := quoted
  "{'usage':null,'origin':{'kind':'model','attempt_id':'a','kv_scope':'s'},'output_scope':{'kind':'internal'},'model':'m','finish_reason':'STOP','observations':[{'source_request_id':'r','response':{'candidates':[{'content':{'parts':[{'text':'hi'},{'functionCall':{'name':'f','arguments':'{}'}}]},'finishReason':'STOP'}]},'call_ids':[{'normalized_id':'call_qwen_1','part_index':1}]}]}".

Definition example_evidence : Value := leaf_object
  [(lit "generation_bytes", NumberNode (the_number (@parse decimal_bigint (show_Z (Z.of_nat (length example_envelope))))));
   (lit "generation_id", StringNode (lit "g"));
   (lit "generation_json", StringNode example_envelope);
   (lit "generation_sha256", StringNode (@sha256 plain_digest example_envelope));
   (lit "journal_id", StringNode (lit "j"))].

Definition example_generation : contract Generation :=
  @generation_read decimal_bigint example_contract plain_digest example_evidence 1 small_limits
    {| operations := 100 |} (fun _ => Ok []).

Definition no_generation : Generation :=
  {| journal := []; generation_id := []; hash := []; origin := {| attempt := []; scope := [] |}; output_scope := Internal;
     model := []; generation_usage := None; finish := None; observation_count := 0; source_requests := [];
     generation_text := []; display_text := []; thinking := []; calls := []; incomplete := [];
     accepted_images_valid := true; shown_thinking := []; shown := [] |}.
Definition the_generation : Generation := match example_generation with Ok gen => gen | Err _ => no_generation end.

Lemma generation_read_sound_witness :
  example_generation = Ok the_generation ∧ generation_text the_generation = lit "hi" ∧
  map call_id (calls the_generation) = [lit "call_qwen_1"] ∧
  ∃ observations, calls the_generation = map call_of (List.filter made (unrepeated (concat (map observation_items observations)))) ∧
    (Unshowable ∉ shown the_generation →
     concat (map shown_flow (shown the_generation)) = concat (map item_flow (unrepeated (concat (map observation_items observations))))).
Proof.
  assert (E : @generation_read decimal_bigint example_contract plain_digest example_evidence 1 small_limits
    {| operations := 100 |} (fun _ => Ok []) = Ok the_generation) by by vm_compute.
  split; [by vm_compute|]. split; [by vm_compute|]. split; [by vm_compute|].
  destruct (@generation_read_sound decimal_bigint example_contract plain_digest _ _ _ _ _ the_generation E)
    as (raw & d & _ & _ & _ & _ & _ & _ & _ & _ & _ & _ & _ & _ & _ & _ & _ & Hcalls & _ & _ & Hflow & _). exact (ex_intro _ _ (conj Hcalls Hflow)).
Defined.

(** The messages a settled turn shows are its blocks, in order, each message
    holding one kind of block, adjacent messages of different kinds, and at least
    one message; the turn's usage is on the last message and on no other, and a
    refused draw shows no call. *)
Theorem display_groups `{QuoteOps} (gen : Generation) (refused : bool) (messages : list DisplayMessage) :
  display gen refused = Ok messages →
  ∃ blocks groups,
    display_blocks gen refused = Ok blocks ∧
    concat groups = blocks ∧ groups ≠ [] ∧ alternating groups ∧
    (groups = [[]] ∨ Forall same_kind groups) ∧
    map content_json messages = map (fun group => lit "[" ++ join 44 group.*2 ++ lit "]") groups ∧
    (∀ i m, messages !! i = Some m →
       message_usage m = if decide (S i = length messages) then generation_usage gen else None) ∧
    (refused = true → Forall (fun b => b.1 ≠ "tool_use"%string) blocks).
Proof.
  unfold display. intros (blocks & Hb & Hm)%bind_ok_inv.
  pose proof (group_blocks_ok blocks) as [Hc Hk Ha].
  set (groups := if (length (group_blocks blocks) =? 0)%nat then [[]] else group_blocks blocks) in *.
  assert (Hgroups : (groups = [[]] ∧ blocks = []) ∨ (groups = group_blocks blocks ∧ groups ≠ [])).
  { unfold groups. destruct (group_blocks blocks) as [|a l] eqn:E; [left | right; done]. by simpl in Hc. }
  injection Hm as Hm. exists blocks, groups. split; [done|].
  assert (Hlen : length messages = length groups) by by rewrite <- Hm, length_map, length_imap.
  split_and!.
  - destruct Hgroups as [[-> ->]|[-> _]]; done.
  - destruct Hgroups as [[-> _]|[_ ?]]; done.
  - destruct Hgroups as [[-> _]|[-> _]]; [|done]. intros i a b x y _ Hd. by destruct i.
  - destruct Hgroups as [[-> _]|[-> _]]; [by left | by right].
  - rewrite <- Hm, map_map. assert (E : ∀ n, map (λ x, content_json (display_message gen n x)) (imap pair groups)
      = map (λ x, lit "[" ++ join 44 x.*2 ++ lit "]") (map snd (imap pair groups))) by (intros n; by rewrite map_map).
    rewrite E. f_equal. clear. assert (Hg : ∀ f : nat → nat, map snd (imap (fun i x => (f i, x)) groups) = groups).
    { induction groups as [|x l IH]; intros f; [done|]. simpl. f_equal. apply (IH (f ∘ S)). }
    apply (Hg (fun i => i)).
  - intros i m Hi. rewrite <- Hm in Hi. apply list_lookup_fmap_Some in Hi as ([j group] & -> & Hi).
    rewrite list_lookup_imap in Hi. destruct (groups !! i) as [x|] eqn:Hx; [|done]. injection Hi as <- <-.
    apply lookup_lt_Some in Hx. simpl. destruct (Nat.eqb_spec i (length groups - 1)), (decide (S i = length messages)); done || lia.
  - intros ->. unfold display_blocks in Hb. apply bind_ok_inv in Hb as (bs & Ht%traverse_ok & [= <-]).
    rewrite !Forall_app. split; [|split].
    + case_bool_decide; [done|]. by apply Forall_singleton.
    + apply Forall_concat. apply Forall_forall. intros l Hl. apply list_elem_of_lookup in Hl as [i Hi].
      eapply Forall2_lookup_r in Ht as (s & _ & Hs); [|done]. destruct s as [[|b t]|j|]; simpl in Hs; try done.
      * injection Hs as <-. done.
      * injection Hs as <-. by apply Forall_singleton.
      * apply bind_ok_inv in Hs as (call & _ & Hs). by destruct (call_name call).
    + apply Forall_map, Forall_forall. done.
Qed.

Definition plain_quote : QuoteOps := fun s => [34] ++ s ++ [34].
Definition the_messages : list DisplayMessage :=
  match @display plain_quote the_generation false with Ok messages => messages | Err _ => [] end.

Lemma display_groups_witness :
  @display plain_quote the_generation false = Ok the_messages ∧ length the_messages = 2%nat ∧
  (∀ i m, the_messages !! i = Some m →
     message_usage m = if decide (S i = length the_messages) then generation_usage the_generation else None).
Proof.
  assert (D : @display plain_quote the_generation false = Ok the_messages) by by vm_compute.
  split; [done|]. split; [by vm_compute|].
  destruct (@display_groups plain_quote the_generation false the_messages D)
    as (blocks & groups & _ & _ & _ & _ & _ & _ & Husage & _). exact Husage.
Defined.
