(* ===== verification/PartialStream.v ===== *)
(** * PartialStream: the partial events of one display scope
      (protocol/engine/src/partial_stream.rs)

    A scope's state machine: message groups, content blocks, tool claims and the
    texts they stream, against the generation that is their authority whether it
    is recorded before or after them.  An operation that refuses ends the scope:
    its callers discard the state with the admission plan it was cloned for, so a
    refusal returns no state.  Proved: an invariant of every operation in
    which the observed texts are exactly the bytes streamed so far, and from it
    that what a scope streamed before its generation has the length and SHA-256 of
    the first bytes of what that says, and what it streamed after follows them. *)
From S2P Require Import Prelude Number Utf8 BTree Json JsonTree Schema Stream Usage Generation.

Inductive OutputOrigin := Runtime | Model (origin : Origin).

Global Instance OutputOrigin_eq_dec : EqDecision OutputOrigin.
Proof. solve_decision. Defined.

Record PartialCall := { expected : str; observed_bytes : Z }.
Record Block := { block_kind : str; block_open_ : bool; block_call : option PartialCall }.

Definition is_model (o : option OutputOrigin) : bool := match o with Some (Model _) => true | _ => false end.

Section PartialStream.
Context `{Sha256Ops}.

Record ObservedText := { bytes : Z; digest : Sha256 }.

Definition observed_default : ObservedText := {| bytes := 0; digest := sha_new |}.

Definition get_bytes (a b : Z) (s : str) : option str := get_range (Z.to_nat a) (Z.to_nat b) s.

Definition append (o : ObservedText) (delta : str) (authority : option str) : contract ObservedText :=
  match checked_add (bytes o) (Z.of_nat (length delta)) with
  | None => refusal "partial text length overflows"
  | Some end_ =>
      if match authority with
         | Some expected => bool_decide (get_bytes (bytes o) end_ expected ≠ Some delta)
         | None => false
         end
      then refusal "partial text changes or repeats observed generation bytes"
      else Ok {| bytes := end_; digest := sha_update (digest o) delta |}
  end.

Definition bind_text (o : ObservedText) (authority : str) : contract unit :=
  match get_bytes 0 (bytes o) authority with
  | None => refusal "partial text exceeds observed generation bytes"
  | Some prefix =>
      if bool_decide (sha_digest prefix ≠ sha_finalize (digest o))
      then refusal "partial text changes or repeats observed generation bytes"
      else Ok tt
  end.

Record PartialStreamState := {
  ps_origin : option OutputOrigin;
  authority : option Generation;
  ps_accepted : option bool;
  group_open : bool;
  runtime_group_seen : bool;
  runtime_message_seen : bool;
  ps_text : ObservedText;
  ps_thinking : ObservedText;
  called : gset str;
  ps_incomplete : list IncompleteCall;
  blocks : gmap Z Block;
}.

Definition state_default : PartialStreamState :=
  {| ps_origin := None; authority := None; ps_accepted := None; group_open := false; runtime_group_seen := false;
     runtime_message_seen := false; ps_text := observed_default; ps_thinking := observed_default; called := ∅;
     ps_incomplete := []; blocks := ∅ |}.

(** The fields an operation replaces. *)
Definition with_origin (s : PartialStreamState) (o : option OutputOrigin) : PartialStreamState :=
  {| ps_origin := o; authority := authority s; ps_accepted := ps_accepted s; group_open := group_open s;
     runtime_group_seen := runtime_group_seen s; runtime_message_seen := runtime_message_seen s;
     ps_text := ps_text s; ps_thinking := ps_thinking s; called := called s; ps_incomplete := ps_incomplete s;
     blocks := blocks s |}.
Definition with_authority (s : PartialStreamState) (a : option Generation) (accepted : option bool) : PartialStreamState :=
  {| ps_origin := ps_origin s; authority := a; ps_accepted := accepted; group_open := group_open s;
     runtime_group_seen := runtime_group_seen s; runtime_message_seen := runtime_message_seen s;
     ps_text := ps_text s; ps_thinking := ps_thinking s; called := called s; ps_incomplete := ps_incomplete s;
     blocks := blocks s |}.
Definition with_group (s : PartialStreamState) (open group_seen message_seen : bool) (text : ObservedText)
    (bs : gmap Z Block) : PartialStreamState :=
  {| ps_origin := ps_origin s; authority := authority s; ps_accepted := ps_accepted s; group_open := open;
     runtime_group_seen := group_seen; runtime_message_seen := message_seen;
     ps_text := text; ps_thinking := ps_thinking s; called := called s; ps_incomplete := ps_incomplete s;
     blocks := bs |}.
Definition with_content (s : PartialStreamState) (text think : ObservedText) (called_ : gset str)
    (incomplete_ : list IncompleteCall) (bs : gmap Z Block) : PartialStreamState :=
  {| ps_origin := ps_origin s; authority := authority s; ps_accepted := ps_accepted s; group_open := group_open s;
     runtime_group_seen := runtime_group_seen s; runtime_message_seen := runtime_message_seen s;
     ps_text := text; ps_thinking := think; called := called_; ps_incomplete := incomplete_; blocks := bs |}.

Definition any_open (bs : gmap Z Block) : bool := existsb (fun b => block_open_ b.2) (map_to_list bs).

Definition finish_scope (s : PartialStreamState) : contract unit :=
  if group_open s || any_open (blocks s) then refusal "scope has unfinished partial groups"
  else if is_model (ps_origin s) && (bool_decide (authority s = None) || bool_decide (ps_accepted s = None))
  then refusal "model partials have no completed generation authority"
  else Ok tt.

Definition set_origin (s : PartialStreamState) (o : OutputOrigin) : contract PartialStreamState :=
  if decide (ps_origin s = Some o) then Ok s
  else
    _ ← (if decide (ps_origin s = None) then Ok tt else finish_scope s);
    Ok (with_origin state_default (Some o)).

(** [zip(..).any(|(actual, expected)| actual != expected)], both ways bounded. *)
Fixpoint zip_differs (a b : list IncompleteCall) : bool :=
  match a, b with
  | x :: a, y :: b => bool_decide (x ≠ y) || zip_differs a b
  | _, _ => false
  end.

Definition observe_generation (s : PartialStreamState) (gen : Generation) : contract PartialStreamState :=
  s ← set_origin s (Model (origin gen));
  if bool_decide (authority s ≠ None) then refusal "repeated partial generation authority"
  else
    _ ← bind_text (ps_text s) (generation_text gen);
    _ ← bind_text (ps_thinking s) (thinking gen);
    if (length (incomplete gen) <? length (ps_incomplete s))%nat || zip_differs (ps_incomplete s) (incomplete gen)
    then refusal "incomplete call contradicts the observed generation"
    else Ok (with_authority s (Some gen) (ps_accepted s)).

Definition observe_completion (s : PartialStreamState) (o : Origin) (accepted : bool) : contract PartialStreamState :=
  if bool_decide (authority s = None) || bool_decide (ps_origin s ≠ Some (Model o)) || bool_decide (ps_accepted s ≠ None)
  then refusal "completion has no unique matching partial authority"
  else Ok (with_authority s (authority s) (Some accepted)).

(** ** The partial events *)
Definition start_group (s : PartialStreamState) (root : bool) : contract PartialStreamState :=
  if negb root then refusal "a subagent scope has no message group"
  else if group_open s || bool_decide (blocks s ≠ ∅) then refusal "message group is already open"
  else
    let model := is_model (ps_origin s) in
    Ok (with_group s true (if model then runtime_group_seen s else true)
          (if model then runtime_message_seen s else false) (ps_text s) (blocks s)).

Definition authority_text (s : PartialStreamState) : option str := generation_text <$> authority s.
Definition authority_thinking (s : PartialStreamState) : option str := thinking <$> authority s.

Definition tool_claim (s : PartialStreamState) (content : Value) (line : Z) : contract (str * PartialCall) :=
  if negb (is_model (ps_origin s)) || bool_decide (ps_accepted s ≠ Some true)
  then refusal "tool claim precedes accepted generation completion"
  else
    id ← text content "id" line;
    name ← text content "name" line;
    gen ← expect (authority s) "accepted authority";
    match List.find (fun c => bool_decide (call_id c = id)) (calls gen) with
    | None => refusal "tool claim has no normalized generation call"
    | Some call =>
        if bool_decide (id ∈ called s) || bool_decide (call_name call ≠ Some name)
        then refusal "tool claim has no unique normalized generation call"
        else
          input ← field content "input" line;
          if match members input with Some [] => false | _ => true end
          then refusal "streamed tool must start with an empty argument placeholder"
          else Ok (id, {| expected := call_arguments call; observed_bytes := 0 |})
    end.

Definition incomplete_claim (s : PartialStreamState) (content : Value) (line : Z) : contract IncompleteCall :=
  if negb (is_model (ps_origin s)) then refusal "runtime presentation cannot claim incomplete model calls"
  else
    name ← field content "name" line;
    arguments ← field content "arguments" line;
    arguments ← expect (as_str arguments) "schema-admitted incomplete arguments";
    let call := {| incomplete_name := as_str name; incomplete_arguments := arguments |} in
    if match authority s with
       | Some gen => bool_decide (incomplete gen !! length (ps_incomplete s) ≠ Some call)
       | None => false
       end
    then refusal "incomplete call contradicts observed generation"
    else Ok call.

Definition start_block (s : PartialStreamState) (event : Value) (root : bool) (line : Z) : contract PartialStreamState :=
  if root && negb (group_open s) then refusal "content block precedes its message group"
  else
    index_value ← field event "index" line;
    index ← unsigned index_value (lit "partial index") SAFE_INTEGER;
    let bs := if (index =? 0) && negb (any_open (blocks s)) then ∅ else blocks s in
    if negb (index =? Z.of_nat (size bs)) then refusal "content block index is not the next message index"
    else
      content ← field event "content_block" line;
      kind ← text content "type" line;
      let block call := {| block_kind := kind; block_open_ := true; block_call := call |} in
      if decide (kind = lit "text") then
        initial ← field content "text" line;
        t ← append (ps_text s) (default [] (as_str initial)) (authority_text s);
        Ok (with_content s t (ps_thinking s) (called s) (ps_incomplete s) (<[index := block None]> bs))
      else if decide (kind = lit "thinking") then
        if negb (is_model (ps_origin s)) then refusal "runtime presentation cannot claim model thought"
        else
          initial ← field content "thinking" line;
          t ← append (ps_thinking s) (default [] (as_str initial)) (authority_thinking s);
          Ok (with_content s (ps_text s) t (called s) (ps_incomplete s) (<[index := block None]> bs))
      else if decide (kind = lit "tool_use") then
        '(id, call) ← tool_claim s content line;
        Ok (with_content s (ps_text s) (ps_thinking s) ({[id]} ∪ called s) (ps_incomplete s) (<[index := block (Some call)]> bs))
      else if decide (kind = lit "incomplete_tool_use") then
        call ← incomplete_claim s content line;
        Ok (with_content s (ps_text s) (ps_thinking s) (called s) (ps_incomplete s ++ [call]) (<[index := block None]> bs))
      else refusal "unsupported partial content block".

(** The open block an index names. *)
Definition open_block (s : PartialStreamState) (event : Value) (line : Z) : contract (Z * Block) :=
  index_value ← field event "index" line;
  index ← unsigned index_value (lit "partial index") SAFE_INTEGER;
  match blocks s !! index with
  | Some b => if block_open_ b then Ok (index, b) else refusal "content block is absent or closed"
  | None => refusal "content block is absent or closed"
  end.

Definition stop_block (s : PartialStreamState) (event : Value) (line : Z) : contract PartialStreamState :=
  '(index, b) ← open_block s event line;
  if match block_call b with
     | Some call => negb (observed_bytes call =? Z.of_nat (length (expected call)))
     | None => false
     end
  then refusal "tool arguments omit or change generation bytes"
  else
    Ok (with_content s (ps_text s) (ps_thinking s) (called s) (ps_incomplete s)
          (<[index := {| block_kind := block_kind b; block_open_ := false; block_call := block_call b |}]> (blocks s))).

Definition delta_block (s : PartialStreamState) (event : Value) (line : Z) : contract PartialStreamState :=
  '(index, b) ← open_block s event line;
  delta ← field event "delta" line;
  type ← text delta "type" line;
  if decide (block_kind b = lit "text" ∧ type = lit "text_delta") then
    more ← field delta "text" line;
    more ← expect (as_str more) "schema-admitted text";
    t ← append (ps_text s) more (authority_text s);
    Ok (with_content s t (ps_thinking s) (called s) (ps_incomplete s) (blocks s))
  else if decide (block_kind b = lit "thinking" ∧ type = lit "thinking_delta") then
    more ← field delta "thinking" line;
    more ← expect (as_str more) "schema-admitted thought";
    t ← append (ps_thinking s) more (authority_thinking s);
    Ok (with_content s (ps_text s) t (called s) (ps_incomplete s) (blocks s))
  else if decide (block_kind b = lit "tool_use" ∧ type = lit "input_json_delta") then
    call ← expect (block_call b) "accepted tool claim";
    chunk ← field delta "partial_json" line;
    chunk ← expect (as_str chunk) "schema-admitted argument text";
    match checked_add (observed_bytes call) (Z.of_nat (length chunk)) with
    | None => refusal "partial argument length overflows"
    | Some end_ =>
        if bool_decide (get_bytes (observed_bytes call) end_ (expected call) ≠ Some chunk)
        then refusal "tool argument bytes contradict the generation"
        else
          Ok (with_content s (ps_text s) (ps_thinking s) (called s) (ps_incomplete s)
                (<[index := {| block_kind := block_kind b; block_open_ := true;
                               block_call := Some {| expected := expected call; observed_bytes := end_ |} |}]> (blocks s)))
    end
  else refusal "delta type contradicts its content block".

Definition stop_group (s : PartialStreamState) (root : bool) : contract PartialStreamState :=
  if negb root || negb (group_open s) || any_open (blocks s)
  then refusal "message group stops before all its blocks close"
  else
    let model := is_model (ps_origin s) in
    if negb model && negb (runtime_message_seen s)
    then refusal "runtime partial group has no full assistant message"
    else
      Ok (with_group s false (runtime_group_seen s) (if model then runtime_message_seen s else false)
            (if model then ps_text s else observed_default) ∅).

Definition observe (s : PartialStreamState) (partial : PartialRecord) (root : bool) (line : Z) : contract PartialStreamState :=
  let event := partial_value partial in
  match partial_kind partial with
  | GoalState | ActiveGoal | ToolProgress => Ok s
  | kind =>
      if bool_decide (ps_origin s = None) then refusal "message group has no producing origin"
      else
        match kind with
        | MessageStart => start_group s root
        | ContentBlockStart => start_block s event root line
        | ContentBlockDelta => delta_block s event line
        | ContentBlockStop => stop_block s event line
        | MessageStop => stop_group s root
        | _ => Err (Panic "notice returned before group admission")
        end
  end.

Definition complete_message (s : PartialStreamState) (message : str) : contract PartialStreamState :=
  if bool_decide (ps_origin s ≠ Some Runtime) then refusal "model output requires generation and completion records"
  else if any_open (blocks s) then refusal "runtime presentation has an unclosed partial block"
  else if runtime_group_seen s then
    if negb (group_open s) || runtime_message_seen s || negb (bytes (ps_text s) =? Z.of_nat (length message))
    then refusal "runtime partial text has no matching full assistant message"
    else
      _ ← bind_text (ps_text s) message;
      Ok (with_group s (group_open s) (runtime_group_seen s) true (ps_text s) (blocks s))
  else Ok s.
End PartialStream.

(** ** What a scope has streamed *)
Definition event_str (event : Value) (outer inner : string) : str := default [] (get event (lit outer) ≫= fun v => get v (lit inner) ≫= as_str).

(** The text and the thought an event carries, read off the event alone. *)
Definition event_delta (p : PartialRecord) (block_type delta_type member : string) : str :=
  match partial_kind p with
  | ContentBlockStart =>
      if decide (event_str (partial_value p) "content_block" "type" = lit block_type)
      then event_str (partial_value p) "content_block" member else []
  | ContentBlockDelta =>
      if decide (event_str (partial_value p) "delta" "type" = lit delta_type)
      then event_str (partial_value p) "delta" member else []
  | _ => []
  end.
Definition event_text (p : PartialRecord) : str := event_delta p "text" "text_delta" "text".
Definition event_thinking (p : PartialRecord) : str := event_delta p "thinking" "thinking_delta" "thinking".

Section Invariant.
Context `{Sha256Ops} `{!Sha256Laws}.

(** A text streamed in two parts against an authority: where the first part
    stood, the authority has bytes of its length and SHA-256, and there the second
    part follows, byte for byte. *)
Definition attested (early t e : str) : Prop :=
  ∃ shown late, t = early ++ late ∧ length shown = length early ∧ sha_digest shown = sha_digest early ∧ shown ++ late `prefix_of` e.

(** What was streamed before the authority was recorded. *)
Context (early_text early_thinking : str).

(** The observation of a text. *)
Definition obs (t : str) : ObservedText := {| bytes := Z.of_nat (length t); digest := sha_update sha_new t |}.

Lemma obs_nil : obs [] = observed_default.
Proof. unfold obs, observed_default. by rewrite sha_update_nil. Qed.

Lemma get_bytes_some a b s r :
  get_bytes a b s = Some r → 0 <= a <= b → slice (Z.to_nat a) (Z.to_nat b) s = r ∧ (Z.to_nat b <= length s)%nat.
Proof. unfold get_bytes, get_range. intros Hg Hab. case_match eqn:E; [|done]. to_prop. by injection Hg as <-. Qed.

Lemma slice_prefix (t r e : str) :
  t `prefix_of` e → slice (length t) (length t + length r) e = r → t ++ r `prefix_of` e.
Proof.
  intros [k ->] Hs. unfold slice in Hs. rewrite drop_app_length in Hs.
  replace (length t + length r - length t)%nat with (length r) in Hs by lia.
  exists (drop (length r) k). rewrite <- app_assoc. f_equal. rewrite <- Hs at 1. by rewrite take_drop.
Qed.

Lemma append_ok early t delta auth o :
  append (obs t) delta auth = Ok o →
  o = obs (t ++ delta) ∧ ∀ e, auth = Some e → attested early t e → attested early (t ++ delta) e.
Proof.
  unfold append. cbn [bytes digest obs]. destruct (checked_add _ _) as [n|] eqn:Hadd; [|done].
  apply checked_add_Some in Hadd as [-> _]. intros H1. split.
  - unfold obs. destruct auth; [destruct (bool_decide _); [done|]|]; injection H1 as <-;
      rewrite sha_update_app, length_app, Nat2Z.inj_add; done.
  - intros e -> (shown & late & -> & Hl & Hd & Hp). destruct (bool_decide _) eqn:Hb; [done|]. apply bool_decide_eq_false, dec_stable in Hb.
    apply get_bytes_some in Hb as [Hs _]; [|lia]. rewrite <- Nat2Z.inj_add, !Nat2Z.id in Hs.
    exists shown, (late ++ delta). split; [by rewrite app_assoc|]. split; [done|]. split; [done|]. rewrite app_assoc. apply slice_prefix; [done|].
    by rewrite length_app, Hl, <- length_app.
Qed.

Lemma bind_text_ok t e : bind_text (obs t) e = Ok tt → attested t t e.
Proof.
  unfold bind_text. cbn [bytes digest obs]. destruct (get_bytes _ _ _) as [p|] eqn:Hg; [|done].
  destruct (bool_decide _) eqn:Hb; [done|]. intros _. apply bool_decide_eq_false, dec_stable in Hb.
  fold (sha_digest t) in Hb. apply get_bytes_some in Hg as [Hs Hl]; [|lia].
  rewrite Nat2Z.id in Hs, Hl. unfold slice in Hs. simpl in Hs. rewrite Nat.sub_0_r, drop_0 in Hs.
  exists p, []. rewrite !app_nil_r. split_and!; try done; [rewrite <- Hs; apply length_take_le; lia|]. rewrite <- Hs. apply prefix_take.
Qed.

Definition block_ok (model_ : bool) (b : Block) : Prop :=
  (block_kind b = lit "thinking" → model_ = true) ∧
  match block_call b with
  | Some c => block_kind b = lit "tool_use" ∧ 0 <= observed_bytes c <= Z.of_nat (length (expected c)) ∧
              (block_open_ b = false → observed_bytes c = Z.of_nat (length (expected c)))
  | None => block_kind b ≠ lit "tool_use"
  end.

(** [t] and [k] are the text and the thought streamed since the scope took its
    origin (or, for runtime text, since its last message group). *)
Record scope_inv (s : PartialStreamState) (t k : str) : Prop := {
  inv_text : ps_text s = obs t;
  inv_thinking : ps_thinking s = obs k;
  inv_authority : ∀ gen, authority s = Some gen →
    ps_origin s = Some (Model (origin gen)) ∧ attested early_text t (generation_text gen) ∧ attested early_thinking k (thinking gen) ∧
    ps_incomplete s `prefix_of` incomplete gen ∧
    (∀ id, id ∈ called s → ∃ c, c ∈ calls gen ∧ call_id c = id);
  inv_accepted : ps_accepted s ≠ None → authority s ≠ None;
  inv_called : called s ≠ ∅ → ps_accepted s = Some true;
  inv_runtime : is_model (ps_origin s) = false → k = [] ∧ ps_incomplete s = [] ∧ authority s = None;
  inv_indices : ∀ i, is_Some (blocks s !! i) ↔ 0 <= i < Z.of_nat (size (blocks s));
  inv_blocks : map_Forall (fun _ b => block_ok (is_model (ps_origin s)) b) (blocks s);
}.

Lemma fresh_inv o : scope_inv (with_origin state_default (Some o)) [] [].
Proof.
  split; simpl; try done.
  - by rewrite obs_nil.
  - by rewrite obs_nil.
  - intros i. rewrite lookup_empty, map_size_empty. split; [by intros [? ?] | lia].
Qed.

Lemma set_origin_ok s o t k s' :
  scope_inv s t k → set_origin s o = Ok s' →
  (s' = s ∧ ps_origin s = Some o) ∨ (s' = with_origin state_default (Some o) ∧ ps_origin s ≠ Some o).
Proof.
  intros _. unfold set_origin. destruct (decide _); [by intros [= <-]; left|].
  intros ([] & _ & [= <-])%bind_ok_inv. by right.
Qed.

Lemma zip_differs_prefix a b : zip_differs a b = false → (length a <= length b)%nat → a `prefix_of` b.
Proof.
  revert b. induction a as [|x a IH]; intros b Hz Hl; [apply prefix_nil|].
  destruct b as [|y b]; [simpl in Hl; lia|]. simpl in Hz, Hl. to_prop.
  match goal with Hne : ¬ x ≠ y |- _ => apply dec_stable in Hne as -> end. apply prefix_cons, IH; [done | lia].
Qed.

(** ** Blocks are numbered from zero *)
Definition indexed (bs : gmap Z Block) : Prop := ∀ i, is_Some (bs !! i) ↔ 0 <= i < Z.of_nat (size bs).

Lemma indexed_empty : indexed ∅.
Proof. intros i. rewrite lookup_empty, map_size_empty. split; [by intros [? ?] | lia]. Qed.

Lemma indexed_push bs b : indexed bs → indexed (<[Z.of_nat (size bs) := b]> bs).
Proof.
  intros Hi i. assert (Hnone : bs !! Z.of_nat (size bs) = None).
  { apply eq_None_not_Some. intros Hs%Hi. lia. }
  rewrite map_size_insert_None by done. rewrite lookup_insert_is_Some, (Hi i). lia.
Qed.

Lemma indexed_replace bs i b c : indexed bs → bs !! i = Some c → indexed (<[i := b]> bs).
Proof.
  intros Hi Hc j. rewrite map_size_insert_Some by by eexists. rewrite lookup_insert_is_Some, <- (Hi j).
  split; [intros [<-|[_ ?]]; [by eexists | done]|]. intros Hj. destruct (decide (i = j)); [by left | by right].
Qed.

Lemma field_str event outer inner v w line line' :
  field event (lit outer) line = Ok v → field v (lit inner) line' = Ok w →
  event_str event outer inner = default [] (as_str w).
Proof. intros Hv%field_ok Hw%field_ok. unfold event_str. rewrite Hv. simpl. by rewrite Hw. Qed.

Lemma text_str event outer inner v s line line' :
  field event (lit outer) line = Ok v → text v (lit inner) line' = Ok s → event_str event outer inner = s.
Proof.
  intros Hv%field_ok (_ & f & Hf & Hs)%text_ok. unfold event_str. rewrite Hv. simpl. rewrite Hf. simpl. by rewrite Hs.
Qed.

(** ** Each operation keeps the invariant *)
Lemma observe_generation_inv s gen s' t k :
  scope_inv s t k → ps_origin s = Some (Model (origin gen)) → observe_generation s gen = Ok s' →
  authority s = None ∧ authority s' = Some gen ∧ ps_origin s' = ps_origin s ∧ (early_text = t → early_thinking = k → scope_inv s' t k).
Proof.
  intros Hinv Horigin. unfold observe_generation, set_origin. rewrite decide_True by done. rewrite bind_ok.
  destruct (bool_decide (authority s ≠ None)) eqn:Ha; [done|]. apply bool_decide_eq_false, dec_stable in Ha.
  destruct Hinv as [Ht Hk Hauth Hacc Hcalled Hrt Hidx Hblocks]. rewrite Ht, Hk.
  intros ([] & Hbt & ([] & Hbk & H1)%bind_ok_inv)%bind_ok_inv. apply bind_text_ok in Hbt, Hbk.
  destruct (_ || _) eqn:Hz; [done|]. to_prop. injection H1 as <-.
  assert (Hnone : called s = ∅).
  { destruct (decide (called s = ∅)) as [|Hne]; [done|]. apply Hcalled in Hne.
    exfalso. apply Hacc; [by rewrite Hne | done]. }
  split; [done|]. split; [done|]. split; [done|]. intros Et Ek. split; simpl; try done.
  - intros gen' [= <-]. rewrite Et, Ek. do 3 (split; [done|]). split; [by apply zip_differs_prefix|]. intros id. rewrite Hnone. set_solver.
  - intros Hm. by rewrite Horigin in Hm.
Qed.

Lemma observe_completion_inv s o accepted s' t k :
  scope_inv s t k → observe_completion s o accepted = Ok s' → scope_inv s' t k ∧ ps_origin s' = ps_origin s.
Proof.
  intros [] H1. unfold observe_completion in H1. destruct (_ || _) eqn:Hc; [done|]. injection H1 as <-. to_prop.
  repeat match goal with Hn : ¬ _ ≠ _ |- _ => apply dec_stable in Hn end.
  split; [|done]. split; simpl; try done. intros Hne. exfalso. apply inv_called0 in Hne. congruence.
Qed.

Lemma start_group_inv s root s' t k :
  scope_inv s t k → start_group s root = Ok s' → scope_inv s' t k ∧ ps_origin s' = ps_origin s.
Proof.
  intros [] H1. unfold start_group in H1. destruct (negb root); [done|]. destruct (_ || _); [done|].
  injection H1 as <-. split; [|done]. by split.
Qed.

Lemma stop_group_inv s root s' t k :
  scope_inv s t k → stop_group s root = Ok s' →
  scope_inv s' (if is_model (ps_origin s) then t else []) k ∧ ps_origin s' = ps_origin s.
Proof.
  intros [] H1. unfold stop_group in H1. destruct (_ || _); [done|]. destruct (_ && _); [done|]. injection H1 as <-.
  split; [|done]. split; simpl; try done; try apply indexed_empty; try apply map_Forall_empty.
  - destruct (is_model (ps_origin s)); [done | by rewrite obs_nil].
  - intros gen Hg. destruct (is_model (ps_origin s)) eqn:Hm; [by apply inv_authority0|].
    destruct (inv_runtime0 eq_refl) as (_ & _ & Hnone). congruence.
Qed.

(** Adding a block, with what it claims of the texts. *)
Lemma with_content_inv s t k t' k' called' inc' bs' :
  scope_inv s t k →
  (∀ gen, authority s = Some gen → attested early_text t' (generation_text gen) ∧ attested early_thinking k' (thinking gen) ∧
     inc' `prefix_of` incomplete gen ∧ ∀ id, id ∈ called' → ∃ c, c ∈ calls gen ∧ call_id c = id) →
  (called' ≠ ∅ → ps_accepted s = Some true) →
  (is_model (ps_origin s) = false → k' = [] ∧ inc' = []) →
  indexed bs' → map_Forall (fun _ b => block_ok (is_model (ps_origin s)) b) bs' →
  scope_inv (with_content s (obs t') (obs k') called' inc' bs') t' k'.
Proof.
  intros [] Hgen Hcalled Hrt Hidx Hblocks. split; simpl; try done.
  - intros gen Hg. destruct (Hgen gen Hg) as (? & ? & ? & ?). destruct (inv_authority0 gen Hg) as (? & _). done.
  - intros Hm. destruct (Hrt Hm) as [-> ->]. destruct (inv_runtime0 Hm) as (_ & _ & ?). done.
Qed.

Lemma with_content_same s t k bs' :
  scope_inv s t k → indexed bs' → map_Forall (fun _ b => block_ok (is_model (ps_origin s)) b) bs' →
  scope_inv (with_content s (ps_text s) (ps_thinking s) (called s) (ps_incomplete s) bs') t k.
Proof.
  intros Hinv Hidx Hblocks. pose proof Hinv as []. rewrite inv_text0, inv_thinking0. apply (with_content_inv s t k); try done.
  - intros gen Hg. by destruct (inv_authority0 gen Hg) as (? & ? & ? & ? & ?).
  - intros Hm. by destruct (inv_runtime0 Hm) as (? & ? & ?).
Qed.

(** The blocks a new block joins: none, when it starts the next message. *)
Definition next_blocks (s : PartialStreamState) (index : Z) : gmap Z Block :=
  if (index =? 0) && negb (any_open (blocks s)) then ∅ else blocks s.

Lemma next_blocks_ok s index t k :
  scope_inv s t k → indexed (next_blocks s index) ∧ map_Forall (fun _ b => block_ok (is_model (ps_origin s)) b) (next_blocks s index).
Proof.
  intros []. unfold next_blocks. destruct (_ && _); [|by split]. split; [apply indexed_empty | apply map_Forall_empty].
Qed.

Lemma push_block_ok m bs index b :
  indexed bs → map_Forall (fun _ b => block_ok m b) bs → negb (index =? Z.of_nat (size bs)) = false → block_ok m b →
  indexed (<[index := b]> bs) ∧ map_Forall (fun _ b => block_ok m b) (<[index := b]> bs).
Proof.
  intros Hi Hb Hindex Hok. to_prop. subst index. split; [by apply indexed_push | by apply map_Forall_insert_2].
Qed.

Lemma tool_claim_ok s content line id call :
  tool_claim s content line = Ok (id, call) →
  ps_accepted s = Some true ∧ is_model (ps_origin s) = true ∧ text content (lit "id") line = Ok id ∧
  ∃ gen c, authority s = Some gen ∧ c ∈ calls gen ∧ call_id c = id ∧ id ∉ called s ∧
    call = {| expected := call_arguments c; observed_bytes := 0 |}.
Proof.
  intros H1. unfold tool_claim in H1. destruct (_ || _) eqn:Hc; [done|]. to_prop.
  match goal with Hn : ¬ _ ≠ _ |- _ => apply dec_stable in Hn as Hacc end.
  apply bind_ok_inv in H1 as (id' & Htext & (name & _ & (gen & Hg & H1)%bind_ok_inv)%bind_ok_inv).
  destruct (authority s) as [gen'|] eqn:Hauth; [|done]. injection Hg as <-.
  destruct (List.find _ (calls gen')) as [c|] eqn:Hfind; [|done]. apply find_some in Hfind as [Hin Hid].
  destruct (_ || _) eqn:Hq; [done|]. to_prop. apply bind_ok_inv in H1 as (input & _ & H1).
  destruct (match members input with Some [] => false | _ => true end); [done|]. injection H1 as <- <-.
  split; [done|]. split; [done|]. split; [done|]. exists gen', c. apply list_elem_of_In in Hin. done.
Qed.

Lemma incomplete_claim_ok s content line call t k :
  scope_inv s t k → incomplete_claim s content line = Ok call →
  is_model (ps_origin s) = true ∧
  ∀ gen, authority s = Some gen → ps_incomplete s ++ [call] `prefix_of` incomplete gen.
Proof.
  intros [] H1. unfold incomplete_claim in H1. destruct (negb _) eqn:Hm; [done|]. to_prop.
  apply bind_ok_inv in H1 as (name & _ & (args & _ & (a & _ & H1)%bind_ok_inv)%bind_ok_inv).
  split; [done|]. intros gen Hg. rewrite Hg in H1. destruct (bool_decide _) eqn:Hb; [done|].
  apply bool_decide_eq_false, dec_stable in Hb. injection H1 as <-.
  destruct (inv_authority0 gen Hg) as (_ & _ & _ & [rest Hrest] & _). rewrite Hrest in Hb |- *.
  rewrite lookup_app_r, Nat.sub_diag in Hb by lia. destruct rest as [|x rest]; [done|]. injection Hb as ->.
  exists rest. by rewrite <- app_assoc.
Qed.

(** Accepted bytes extend what the authority confirms. *)
Lemma authority_texts s t k :
  scope_inv s t k → ∀ gen, authority s = Some gen →
  attested early_text t (generation_text gen) ∧ attested early_thinking k (thinking gen) ∧ ps_incomplete s `prefix_of` incomplete gen ∧
  ∀ id, id ∈ called s → ∃ c, c ∈ calls gen ∧ call_id c = id.
Proof. intros [] gen Hg. by destruct (inv_authority0 gen Hg) as (_ & ? & ? & ? & ?). Qed.

Lemma append_text_inv s t k delta o bs' :
  scope_inv s t k → append (ps_text s) delta (authority_text s) = Ok o →
  indexed bs' → map_Forall (fun _ b => block_ok (is_model (ps_origin s)) b) bs' →
  scope_inv (with_content s o (ps_thinking s) (called s) (ps_incomplete s) bs') (t ++ delta) k.
Proof.
  intros Hinv Ha Hi Hb. pose proof Hinv as []. rewrite inv_text0 in Ha. rewrite inv_thinking0.
  apply (append_ok early_text) in Ha as [-> Hp]. apply (with_content_inv s t k); try done.
  - intros gen Hg. destruct (authority_texts s t k Hinv gen Hg) as (? & ? & ? & ?). split_and!; try done.
    apply Hp; [|done]. unfold authority_text. by rewrite Hg.
  - intros Hm. by destruct (inv_runtime0 Hm) as (? & ? & ?).
Qed.

Lemma append_thinking_inv s t k delta o bs' :
  scope_inv s t k → is_model (ps_origin s) = true → append (ps_thinking s) delta (authority_thinking s) = Ok o →
  indexed bs' → map_Forall (fun _ b => block_ok (is_model (ps_origin s)) b) bs' →
  scope_inv (with_content s (ps_text s) o (called s) (ps_incomplete s) bs') t (k ++ delta).
Proof.
  intros Hinv Hm Ha Hi Hb. pose proof Hinv as []. rewrite inv_thinking0 in Ha. rewrite inv_text0.
  apply (append_ok early_thinking) in Ha as [-> Hp]. apply (with_content_inv s t k); try done.
  - intros gen Hg. destruct (authority_texts s t k Hinv gen Hg) as (? & ? & ? & ?). split_and!; try done.
    apply Hp; [|done]. unfold authority_thinking. by rewrite Hg.
  - by rewrite Hm.
Qed.

Lemma start_block_inv s p root line s' t k :
  scope_inv s t k → partial_kind p = ContentBlockStart → start_block s (partial_value p) root line = Ok s' →
  scope_inv s' (t ++ event_text p) (k ++ event_thinking p) ∧ ps_origin s' = ps_origin s.
Proof.
  intros Hinv Hkind H1. unfold start_block in H1. destruct (_ && _); [done|].
  apply bind_ok_inv in H1 as (iv & _ & (index & _ & H1)%bind_ok_inv). fold (next_blocks s index) in H1.
  destruct (next_blocks_ok s index t k Hinv) as [Hidx Hblocks].
  destruct (negb (index =? _)) eqn:Hnext; [done|].
  apply bind_ok_inv in H1 as (content & Hc & (kind & Hk & H1)%bind_ok_inv).
  pose proof (text_str _ _ _ _ _ _ _ Hc Hk) as Htype.
  assert (Hpush : ∀ call, block_ok (is_model (ps_origin s)) {| block_kind := kind; block_open_ := true; block_call := call |} →
    indexed (<[index := {| block_kind := kind; block_open_ := true; block_call := call |}]> (next_blocks s index)) ∧
    map_Forall (fun _ b => block_ok (is_model (ps_origin s)) b) (<[index := {| block_kind := kind; block_open_ := true; block_call := call |}]> (next_blocks s index)))
    by (intros; by apply push_block_ok).
  unfold event_text, event_thinking, event_delta. rewrite Hkind, Htype.
  destruct (decide (kind = lit "text")) as [->|Ht].
  { apply bind_ok_inv in H1 as (initial & Hi & (o & Ho & [= <-])%bind_ok_inv).
    rewrite (field_str _ _ _ _ _ _ _ Hc Hi). rewrite decide_False by done. rewrite app_nil_r.
    destruct (Hpush None) as [? ?]; [by split|]. split; [by apply append_text_inv | done]. }
  destruct (decide (kind = lit "thinking")) as [->|Hth].
  { destruct (negb (is_model _)) eqn:Hm; [done|]. to_prop.
    apply bind_ok_inv in H1 as (initial & Hi & (o & Ho & [= <-])%bind_ok_inv).
    rewrite (field_str _ _ _ _ _ _ _ Hc Hi), app_nil_r.
    destruct (Hpush None) as [? ?]; [by split|]. split; [by apply append_thinking_inv | done]. }
  rewrite !app_nil_r. pose proof Hinv as [Et Ek _ _ Ecalled Ert _ _].
  destruct (decide (kind = lit "tool_use")) as [->|Htool].
  { apply bind_ok_inv in H1 as ([id call] & Hclaim & [= <-]).
    destruct (tool_claim_ok s content line id call Hclaim) as (Hacc & Hm & _ & gen & c & Hg & Hcin & Hcid & _ & ->).
    destruct (Hpush (Some {| expected := call_arguments c; observed_bytes := 0 |})) as [? ?]; [split; [done|]; simpl; split; [done|]; split; [lia | done]|].
    split; [|done]. rewrite Et, Ek. apply (with_content_inv s t k); try done.
    - intros gen' Hg'. destruct (authority_texts s t k Hinv gen' Hg') as (? & ? & ? & Hids). split_and!; try done.
      intros id' [->%elem_of_singleton|Hid']%elem_of_union; [|by apply Hids]. exists c. by simplify_eq.
    - intros Hm'. congruence. }
  destruct (decide (kind = lit "incomplete_tool_use")) as [->|]; [|done].
  apply bind_ok_inv in H1 as (call & Hclaim & [= <-]).
  destruct (incomplete_claim_ok s content line call t k Hinv Hclaim) as [Hm Hgen].
  destruct (Hpush None) as [? ?]; [by split|]. split; [|done]. rewrite Et, Ek. apply (with_content_inv s t k); try done.
  - intros gen Hg. destruct (authority_texts s t k Hinv gen Hg) as (? & ? & ? & ?). split_and!; try done. by apply Hgen.
  - intros Hm'. congruence.
Qed.

(** Replacing an open block. *)
Lemma open_block_ok s event line index b :
  open_block s event line = Ok (index, b) → blocks s !! index = Some b ∧ block_open_ b = true.
Proof.
  unfold open_block. intros (iv & _ & (i & _ & H1)%bind_ok_inv)%bind_ok_inv.
  destruct (blocks s !! i) as [c|] eqn:Hc; [|done]. destruct (block_open_ c) eqn:Ho; [|done].
  by injection H1 as <- <-.
Qed.

Lemma replace_block_inv s t k index b b' :
  scope_inv s t k → blocks s !! index = Some b → block_ok (is_model (ps_origin s)) b' →
  indexed (<[index := b']> (blocks s)) ∧ map_Forall (fun _ b => block_ok (is_model (ps_origin s)) b) (<[index := b']> (blocks s)).
Proof. intros [] Hb Hok. split; [by eapply indexed_replace | by apply map_Forall_insert_2]. Qed.

Lemma stop_block_inv s event line s' t k :
  scope_inv s t k → stop_block s event line = Ok s' → scope_inv s' t k ∧ ps_origin s' = ps_origin s.
Proof.
  intros Hinv H1. unfold stop_block in H1. apply bind_ok_inv in H1 as ([index b] & [Hb _]%open_block_ok & H1).
  destruct (match block_call b with Some _ => _ | None => _ end) eqn:Hdone; [done|]. injection H1 as <-.
  split; [|done]. assert (Hok : block_ok (is_model (ps_origin s)) b) by by eapply (inv_blocks s t k Hinv).
  edestruct (replace_block_inv s t k index b) as [? ?]; [done|done| |by apply with_content_same].
  unfold block_ok in *. simpl. destruct (block_call b); [|done]. to_prop. destruct Hok as (? & ? & ? & _). done.
Qed.

Lemma delta_block_inv s p line s' t k :
  scope_inv s t k → partial_kind p = ContentBlockDelta → delta_block s (partial_value p) line = Ok s' →
  scope_inv s' (t ++ event_text p) (k ++ event_thinking p) ∧ ps_origin s' = ps_origin s.
Proof.
  intros Hinv Hkind H1. unfold delta_block in H1.
  apply bind_ok_inv in H1 as ([index b] & [Hb Hopen]%open_block_ok & (delta & Hd & (type & Hty & H1)%bind_ok_inv)%bind_ok_inv).
  pose proof (text_str _ _ _ _ _ _ _ Hd Hty) as Htype. unfold event_text, event_thinking, event_delta. rewrite Hkind, Htype.
  pose proof Hinv as [_ _ _ _ _ Ert Hidx Hblocks]. assert (Hok : block_ok (is_model (ps_origin s)) b) by by eapply Hblocks.
  destruct (decide _) as [[_ ->]|_].
  { apply bind_ok_inv in H1 as (v & Hv & (more & Hmore & (o & Ho & [= <-])%bind_ok_inv)%bind_ok_inv).
    rewrite (field_str _ _ _ _ _ _ _ Hd Hv). destruct (as_str v); [|done]. injection Hmore as ->.
    rewrite decide_True by done. rewrite decide_False, app_nil_r by done. split; [by apply append_text_inv | done]. }
  destruct (decide _) as [[Hbk ->]|_].
  { apply bind_ok_inv in H1 as (v & Hv & (more & Hmore & (o & Ho & [= <-])%bind_ok_inv)%bind_ok_inv).
    rewrite (field_str _ _ _ _ _ _ _ Hd Hv). destruct (as_str v); [|done]. injection Hmore as ->.
    rewrite decide_False, app_nil_r by done. rewrite decide_True by done. split; [|done]. apply append_thinking_inv; try done. by apply Hok. }
  destruct (decide _) as [[Hbk ->]|_]; [|done].
  rewrite !decide_False, !app_nil_r by done.
  apply bind_ok_inv in H1 as (call & Hcall & (v & _ & (chunk & _ & H1)%bind_ok_inv)%bind_ok_inv).
  destruct (block_call b) as [c|] eqn:Hc; [|done]. injection Hcall as ->.
  destruct (checked_add _ _) as [n|] eqn:Hadd; [|done]. apply checked_add_Some in Hadd as [-> _].
  destruct (bool_decide _) eqn:Hget; [done|]. apply bool_decide_eq_false, dec_stable in Hget. injection H1 as <-.
  unfold block_ok in Hok. rewrite Hc in Hok. destruct Hok as (Hthink & Htool & Hrange & _).
  apply get_bytes_some in Hget as [_ Hlen]; [|lia].
  split; [|done]. edestruct (replace_block_inv s t k index b) as [? ?]; [done|done| |by apply with_content_same].
  unfold block_ok. simpl. split; [done|]. split; [done|]. split; [lia | done].
Qed.

Lemma observe_inv s p root line s' t k :
  scope_inv s t k → is_model (ps_origin s) = true → observe s p root line = Ok s' →
  scope_inv s' (t ++ event_text p) (k ++ event_thinking p) ∧ ps_origin s' = ps_origin s.
Proof.
  intros Hinv Hm. unfold observe.
  destruct (partial_kind p) eqn:Hkind; try (case_bool_decide; [done|]); intros Hrun;
    try (by eapply start_block_inv); try (by eapply delta_block_inv);
    unfold event_text, event_thinking, event_delta; rewrite Hkind, !app_nil_r.
  - by eapply start_group_inv.
  - by eapply stop_block_inv.
  - eapply stop_group_inv in Hrun; [|done]. by rewrite Hm in Hrun.
  - by injection Hrun as <-.
  - by injection Hrun as <-.
  - by injection Hrun as <-.
Qed.
End Invariant.

(** ** A model scope's life *)
Inductive ScopeOp :=
| OpGeneration (gen : Generation)
| OpCompletion (o : Origin) (accepted : bool)
| OpPartial (p : PartialRecord) (root : bool) (line : Z).

Section Scope.
Context `{Sha256Ops}.

Definition scope_step (s : PartialStreamState) (op : ScopeOp) : contract PartialStreamState :=
  match op with
  | OpGeneration gen => observe_generation s gen
  | OpCompletion o accepted => observe_completion s o accepted
  | OpPartial p root line => observe s p root line
  end.

Definition op_text (op : ScopeOp) : str := match op with OpPartial p _ _ => event_text p | _ => [] end.
Definition op_thinking (op : ScopeOp) : str := match op with OpPartial p _ _ => event_thinking p | _ => [] end.

(** A generation of another origin starts another scope. *)
Definition op_of (o : Origin) (op : ScopeOp) : Prop :=
  match op with OpGeneration gen => origin gen = o | _ => True end.

(** What comes before the generation is recorded. *)
Fixpoint before_generation (ops : list ScopeOp) : list ScopeOp :=
  match ops with [] | OpGeneration _ :: _ => [] | op :: ops => op :: before_generation ops end.
Definition said (ops : list ScopeOp) : str := concat (map op_text ops).
Definition thought (ops : list ScopeOp) : str := concat (map op_thinking ops).

Lemma observe_authority s p root line s' : observe s p root line = Ok s' → authority s' = authority s.
Proof.
  unfold observe, start_group, start_block, delta_block, stop_block, stop_group. intros Hr.
  destruct (partial_kind p); try (by injection Hr as <-); (destruct (bool_decide _); [done|]); inv_ok;
    repeat (case_match; [done|]); repeat (case_match; inv_ok); by simplify_eq.
Qed.

Lemma scope_run `{!Sha256Laws} et ek o ops s s' t k :
  Forall (op_of o) ops → scope_inv et ek s t k → ps_origin s = Some (Model o) →
  (authority s = None → et = t ++ said (before_generation ops) ∧ ek = k ++ thought (before_generation ops)) →
  fold_result scope_step s ops = Ok s' → scope_inv et ek s' (t ++ said ops) (k ++ thought ops) ∧ ps_origin s' = Some (Model o).
Proof.
  intros Hops. revert s t k. induction Hops as [|op ops Hop _ IH]; intros s t k Hinv Ho He H1; simpl in H1.
  - injection H1 as <-. unfold said, thought. simpl. by rewrite !app_nil_r.
  - apply bind_ok_inv in H1 as (s1 & Hstep & H1).
    assert (Hnext : scope_inv et ek s1 (t ++ op_text op) (k ++ op_thinking op) ∧ ps_origin s1 = ps_origin s ∧
      (authority s1 = None → et = (t ++ op_text op) ++ said (before_generation ops) ∧ ek = (k ++ op_thinking op) ++ thought (before_generation ops))).
    { destruct op as [gen|o' accepted|p root line]; simpl in Hstep, Hop |- *; rewrite ?app_nil_r.
      - destruct (observe_generation_inv et ek s gen s1 t k Hinv) as (Hn & Hs & ? & Hnew); [by rewrite Ho, Hop|done|].
        destruct (He Hn) as [-> ->]. split; [apply Hnew; by rewrite app_nil_r|]. split; [done|]. by rewrite Hs.
      - destruct (observe_completion_inv et ek s o' accepted s1 t k Hinv Hstep) as [? ?]. split; [done|]. split; [done|].
        unfold observe_completion in Hstep. destruct (_ || _); [done|]. by injection Hstep as <-.
      - destruct (observe_inv et ek s p root line s1 t k Hinv) as [? ?]; [by rewrite Ho|done|]. split; [done|]. split; [done|].
        rewrite (observe_authority _ _ _ _ _ Hstep). intros Hn. destruct (He Hn) as [-> ->]. unfold said, thought. simpl. by rewrite !app_assoc. }
    destruct Hnext as (Hinv1 & Ho1 & He1). unfold said, thought in *. cbn [map concat]. rewrite !app_assoc. apply (IH s1); [done|congruence|done|done].
Qed.
End Scope.

(** The streaming of one call's arguments. *)
Section Arguments.
Context `{Sha256Ops}.

Definition event_index (event : Value) (line : Z) : contract Z :=
  index_value ← field event "index" line; unsigned index_value (lit "partial index") SAFE_INTEGER.

Definition chunk_of (event : Value) : str := event_str event "delta" "partial_json".

(** The block at [index] is an open claim of [arguments] with [n] bytes streamed. *)
Definition streaming (s : PartialStreamState) (index : Z) (arguments : str) (n : nat) : Prop :=
  (n <= length arguments)%nat ∧
  blocks s !! index = Some {| block_kind := lit "tool_use"; block_open_ := true;
    block_call := Some {| expected := arguments; observed_bytes := Z.of_nat n |} |}.

Lemma event_index_block s event line index i b :
  event_index event line = Ok index → open_block s event line = Ok (i, b) → i = index ∧ blocks s !! index = Some b.
Proof.
  unfold event_index, open_block. intros (v & Hv & Hi)%bind_ok_inv. rewrite Hv, bind_ok, Hi, bind_ok.
  destruct (blocks s !! index) as [c|] eqn:Hc; [|done]. destruct (block_open_ c); [|done]. by intros [= <- <-].
Qed.

Lemma delta_streaming s event line s' index arguments n :
  streaming s index arguments n → event_index event line = Ok index → delta_block s event line = Ok s' →
  streaming s' index arguments (n + length (chunk_of event)) ∧
  take (n + length (chunk_of event)) arguments = take n arguments ++ chunk_of event.
Proof.
  intros [Hn Hs] Hi H1. unfold delta_block in H1.
  apply bind_ok_inv in H1 as ([i b] & Hopen & (delta & Hd & (type & _ & H1)%bind_ok_inv)%bind_ok_inv).
  destruct (event_index_block s event line index i b Hi Hopen) as [-> Hb]. rewrite Hs in Hb. injection Hb as <-.
  cbn [block_kind block_call] in H1. rewrite !decide_False in H1 by (by intros [? _]).
  destruct (decide _); [|done]. cbn [expect] in H1. rewrite bind_ok in H1.
  apply bind_ok_inv in H1 as (v & Hv & (chunk & Hchunk & H1)%bind_ok_inv).
  assert (Hof : chunk_of event = chunk).
  { unfold chunk_of. rewrite (field_str _ _ _ _ _ _ _ Hd Hv). destruct (as_str v); [|done]. by injection Hchunk as ->. }
  cbn [observed_bytes expected] in H1. destruct (checked_add _ _) as [m|] eqn:Hadd; [|done].
  apply checked_add_Some in Hadd as [-> _]. destruct (bool_decide _) eqn:Hget; [done|].
  apply bool_decide_eq_false, dec_stable in Hget. injection H1 as <-. rewrite Hof.
  apply get_bytes_some in Hget as [Hslice Hlen]; [|lia]. rewrite <- Nat2Z.inj_add, !Nat2Z.id in *.
  split; [split; [done|]; simpl; by rewrite lookup_insert_eq|].
  rewrite <- (slice_app_take n (n + length chunk)) by lia. by rewrite Hslice.
Qed.

Lemma deltas_streaming events line s s' index arguments n :
  streaming s index arguments n → Forall (fun event => event_index event line = Ok index) events →
  fold_result (fun s event => delta_block s event line) s events = Ok s' →
  ∃ m, streaming s' index arguments m ∧ take m arguments = take n arguments ++ concat (map chunk_of events).
Proof.
  intros Hs Hev. revert s n Hs. induction Hev as [|event events Hi _ IH]; intros s n Hs H1; simpl in H1.
  - injection H1 as <-. exists n. split; [done|]. simpl. by rewrite app_nil_r.
  - apply bind_ok_inv in H1 as (s1 & Hstep & H1).
    destruct (delta_streaming s event line s1 index arguments n Hs Hi Hstep) as [Hs1 Ht].
    destruct (IH s1 _ Hs1 H1) as (m & Hm & Htm). exists m. split; [done|].
    rewrite Htm, Ht. simpl. by rewrite <- app_assoc.
Qed.

Lemma stop_streaming s event line s' index arguments n :
  streaming s index arguments n → event_index event line = Ok index → stop_block s event line = Ok s' →
  n = length arguments.
Proof.
  intros [Hn Hs] Hi H1. unfold stop_block in H1. apply bind_ok_inv in H1 as ([i b] & Hopen & H1).
  destruct (event_index_block s event line index i b Hi Hopen) as [-> Hb]. rewrite Hs in Hb. injection Hb as <-.
  cbn [block_call observed_bytes expected] in H1. destruct (negb _) eqn:He; [done|]. to_prop. lia.
Qed.

Lemma start_streaming s event root line s' index :
  start_block s event root line = Ok s' → event_str event "content_block" "type" = lit "tool_use" →
  event_index event line = Ok index →
  ∃ gen c, authority s = Some gen ∧ ps_accepted s = Some true ∧ c ∈ calls gen ∧
    call_id c = event_str event "content_block" "id" ∧ streaming s' index (call_arguments c) 0.
Proof.
  intros H1 Htype (v & Hv & Hindex)%bind_ok_inv. unfold start_block in H1. destruct (_ && _); [done|].
  rewrite Hv, bind_ok, Hindex, bind_ok in H1. destruct (negb _); [done|].
  apply bind_ok_inv in H1 as (content & Hc & (kind & Hk & H1)%bind_ok_inv).
  rewrite (text_str _ _ _ _ _ _ _ Hc Hk) in Htype. subst kind. rewrite !decide_False in H1 by done.
  rewrite decide_True in H1 by done. apply bind_ok_inv in H1 as ([id call] & Hclaim & [= <-]).
  destruct (tool_claim_ok s content line id call Hclaim) as (Hacc & _ & Hid & gen & c & Hg & Hin & Hcid & _ & ->).
  exists gen, c. split_and!; try done.
  - rewrite Hcid. symmetry. by eapply text_str.
  - split; [lia|]. simpl. by rewrite lookup_insert_eq.
Qed.
End Arguments.

(** ** Properties *)

(** C36: what a model scope streams is what its generation says.  Running any
    partial events, generations and completions of one origin from a fresh scope,
    the bytes of text and of thought streamed so far are what the state observed.
    Once the generation is recorded, what was streamed before it has the length and
    the SHA-256 of the first bytes of the generation's text, and of its thinking,
    and what was streamed after it is, byte for byte, what follows them; the
    incomplete calls are the first of the generation's.  A scope that finishes has
    its generation and its outcome. *)
Theorem scope_streams_generation `{Sha256Ops} `{!Sha256Laws} (o : Origin) (ops : list ScopeOp) (s : PartialStreamState) :
  Forall (op_of o) ops → fold_result scope_step (with_origin state_default (Some (Model o))) ops = Ok s →
  bytes (ps_text s) = Z.of_nat (length (said ops)) ∧ bytes (ps_thinking s) = Z.of_nat (length (thought ops)) ∧
  (∀ gen, authority s = Some gen →
     origin gen = o ∧ attested (said (before_generation ops)) (said ops) (generation_text gen) ∧
     attested (thought (before_generation ops)) (thought ops) (thinking gen) ∧ ps_incomplete s `prefix_of` incomplete gen) ∧
  (finish_scope s = Ok tt → ∃ gen accepted, authority s = Some gen ∧ ps_accepted s = Some accepted).
Proof.
  intros Hops Hrun. destruct (scope_run (said (before_generation ops)) (thought (before_generation ops)) o ops _ s [] [] Hops (fresh_inv _ _ _) eq_refl)
    as [[Ht Hk Ha _ _ _ _ _] Ho]; [done|done|].
  simpl in Ht, Hk, Ha. split_and!.
  - by rewrite Ht.
  - by rewrite Hk.
  - intros gen Hg. destruct (Ha gen Hg) as (Horigin & ? & ? & ? & _). rewrite Ho in Horigin. injection Horigin as ->. done.
  - unfold finish_scope. rewrite Ho. destruct (_ || _); [done|]. cbn [is_model andb].
    destruct (authority s) as [gen|], (ps_accepted s) as [accepted|]; try done. intros _. by exists gen, accepted.
Qed.

Definition example_event (text : string) : Value := root (decoded text).
Definition example_partial (kind : PartialKind) (text : string) : ScopeOp :=
  OpPartial {| partial_value := example_event text; partial_kind := kind |} true 1.
Definition example_origin : Origin := {| attempt := lit "a"; scope := lit "s" |}.
Definition run_scope (ops : list ScopeOp) : @PartialStreamState plain_digest :=
  match fold_result (@scope_step plain_digest) (with_origin state_default (Some (Model example_origin))) ops with
  | Ok s => s
  | Err _ => state_default
  end.

(** One group whose text arrives on both sides of its generation. *)
Definition example_ops : list ScopeOp :=
  [ example_partial MessageStart "{}";
    example_partial ContentBlockStart "{'index':0,'content_block':{'type':'text','text':''}}";
    example_partial ContentBlockDelta "{'index':0,'delta':{'type':'text_delta','text':'h'}}";
    OpGeneration the_generation;
    example_partial ContentBlockDelta "{'index':0,'delta':{'type':'text_delta','text':'i'}}";
    example_partial ContentBlockStop "{'index':0}";
    OpCompletion example_origin true ].

Lemma scope_streams_generation_witness :
  fold_result (@scope_step plain_digest) (with_origin state_default (Some (Model example_origin))) example_ops
    = Ok (run_scope example_ops) ∧
  said example_ops = lit "hi" ∧ said (before_generation example_ops) = lit "h" ∧
  ∃ gen shown, authority (run_scope example_ops) = Some gen ∧ @sha_digest plain_digest shown = @sha_digest plain_digest (lit "h") ∧
    shown ++ lit "i" `prefix_of` generation_text gen.
Proof.
  assert (E : fold_result (@scope_step plain_digest) (with_origin state_default (Some (Model example_origin))) example_ops
    = Ok (run_scope example_ops)) by by vm_compute.
  split; [done|]. split; [by vm_compute|]. split; [by vm_compute|].
  destruct (@scope_streams_generation plain_digest plain_digest_laws example_origin example_ops _ ltac:(repeat constructor) E) as (_ & _ & Hall & _).
  assert (authority (run_scope example_ops) = Some the_generation) as Hgen by by vm_compute.
  destruct (Hall _ Hgen) as (_ & (shown & late & Ht & _ & Hd & Hp) & _). exists the_generation, shown. split; [done|]. split; [exact Hd|].
  change (said example_ops) with (lit "h" ++ lit "i") in Ht. change (said (before_generation example_ops)) with (lit "h") in Ht.
  apply app_inv_head in Ht. by rewrite Ht.
Defined.

(** A streamed call is the accepted generation's call, whole.  When a claim
    opens at an index, argument deltas follow at that index and the block closes,
    the streamed chunks concatenate to exactly the arguments of the call with the
    claimed identity in the accepted generation. *)
Theorem tool_arguments_whole `{Sha256Ops} (s0 s1 s2 s3 : PartialStreamState) (claim stop : Value)
    (deltas : list Value) (root : bool) (line index : Z) :
  event_str claim "content_block" "type" = lit "tool_use" →
  event_index claim line = Ok index → Forall (fun event => event_index event line = Ok index) deltas →
  event_index stop line = Ok index →
  start_block s0 claim root line = Ok s1 →
  fold_result (fun s event => delta_block s event line) s1 deltas = Ok s2 →
  stop_block s2 stop line = Ok s3 →
  ∃ gen c, authority s0 = Some gen ∧ ps_accepted s0 = Some true ∧ c ∈ calls gen ∧
    call_id c = event_str claim "content_block" "id" ∧ concat (map chunk_of deltas) = call_arguments c.
Proof.
  intros Htype Hi Hdeltas Hstop H1 H2 H3.
  destruct (start_streaming s0 claim root line s1 index H1 Htype Hi) as (gen & c & Hg & Hacc & Hin & Hid & Hs).
  exists gen, c. split_and!; try done.
  destruct (deltas_streaming deltas line s1 s2 index _ 0 Hs Hdeltas H2) as (m & Hm & Htake).
  rewrite (stop_streaming s2 stop line s3 index _ m Hm Hstop H3) in Htake.
  rewrite firstn_all in Htake. by rewrite Htake.
Qed.

Lemma tool_arguments_whole_witness :
  let claim := example_event "{'index':0,'content_block':{'type':'tool_use','id':'call_qwen_1','name':'f','input':{}}}" in
  let deltas := [example_event "{'index':0,'delta':{'type':'input_json_delta','partial_json':'{'}}";
                 example_event "{'index':0,'delta':{'type':'input_json_delta','partial_json':'}'}}"] in
  let s0 := run_scope [OpGeneration the_generation; OpCompletion example_origin true; example_partial MessageStart "{}"] in
  ∃ gen c, authority s0 = Some gen ∧ c ∈ calls gen ∧ concat (map chunk_of deltas) = call_arguments c ∧
    call_arguments c = lit "{}".
Proof.
  intros claim deltas s0.
  set (stop := example_event "{'index':0}").
  set (s1 := match start_block s0 claim true 1 with Ok s => s | Err _ => s0 end).
  set (s2 := match fold_result (fun s event => delta_block s event 1) s1 deltas with Ok s => s | Err _ => s0 end).
  set (s3 := match stop_block s2 stop 1 with Ok s => s | Err _ => s0 end).
  assert (E1 : start_block s0 claim true 1 = Ok s1) by by vm_compute.
  assert (E2 : fold_result (fun s event => delta_block s event 1) s1 deltas = Ok s2) by by vm_compute.
  assert (E3 : stop_block s2 stop 1 = Ok s3) by by vm_compute.
  destruct (@tool_arguments_whole plain_digest s0 s1 s2 s3 claim stop deltas true 1 0) as (gen & c & Hg & _ & Hin & _ & Hargs);
    [by vm_compute|by vm_compute|repeat constructor; by vm_compute|by vm_compute|done|done|done|].
  exists gen, c. split_and!; [done..|]. rewrite <- Hargs. by vm_compute.
Defined.
