(* ===== verification/Authorship.v ===== *)
(** * Authorship: who wrote each byte of a recorded request body
      (protocol/engine/src/authorship.rs)

    [check] holds a table of runs to the stored bytes: the runs tile every
    segment, a run not written by the harness lies on character boundaries inside
    one string value, and what a run attributes to the operator or to a model
    output is byte for byte that text.  [copies_in_full] decides whether
    citations copy an output exactly once.  serde_json values are the class
    [SerdeJson]. *)
From S2P Require Import Prelude Number Utf8 BTree Json JsonTree Schema Stream Usage Generation.
From Stdlib Require Import Mergesort Orders Sorted.

Definition authorship_refusal {A} (detail : string) : contract A :=
  invalid (lit "model request authorship " ++ lit detail
           ++ lit "; inspect the complete original recording with its matching client").

(** The operator's task, exactly as submitted. *)
Definition OperatorTask := str.

Inductive Claim :=
| Harness
| World
| Operator (offset : Z)
| ModelText (kind id field : str) (offset : Z).

Record Run := { run_bytes : nat; run_claim : Claim }.
Record Segment := { seg_start : nat; seg_len : nat; seg_runs : list Run }.
Record StringValue := { boundaries : list (nat * nat); decoded_text : str }.
Record Citation := {
  stored : nat; string_start : nat; place : nat;
  cite_kind : str; cite_id : str; cite_field : str; from : nat; to_ : nat;
}.

(** serde_json's values, as far as a citation looks into them. *)
Class SerdeJson := {
  sj_value : Type;
  sj_from_str : str → option sj_value;
  sj_pointer : sj_value → str → option sj_value;
  sj_get : sj_value → str → option sj_value;
  sj_as_str : sj_value → option str;
}.

(** ** The table *)
Definition read_claim (item : Value) (line : Z) : contract Claim :=
  author ← text item "author" line;
  if decide (author = lit "harness") then Ok Harness
  else if decide (author = lit "world") then Ok World
  else if decide (author = lit "operator") then
    offset ← field item "offset" line;
    offset ← unsigned offset (lit "operator offset") SAFE_INTEGER;
    Ok (Operator offset)
  else if decide (author = lit "model") then
    source ← field item "source" line;
    kind ← text source "kind" line;
    id ← text source "id" line;
    name ← text source "field" line;
    offset ← field source "offset" line;
    offset ← unsigned offset (lit "model source offset") SAFE_INTEGER;
    Ok (ModelText kind id name offset)
  else authorship_refusal "names an unknown author".

Definition read_run (line : Z) (item : Value) : contract Run :=
  bytes ← field item "bytes" line;
  bytes ← unsigned bytes (lit "authored run bytes") SAFE_INTEGER;
  if negb (0 <? bytes) then authorship_refusal "has a run with no bytes"
  else
    claim ← read_claim item line;
    Ok {| run_bytes := Z.to_nat bytes; run_claim := claim |}.

Definition read_runs (v : Value) (line : Z) : contract (list Run) :=
  match elements v with
  | None => authorship_refusal "lists its runs in something other than an array"
  | Some items => traverse (read_run line) items
  end.

(** ** String values and their character boundaries *)

(** [u32::from_str_radix(digits, 16)]: a leading plus is a sign. *)
Fixpoint hex_value (acc : Z) (s : str) : option Z :=
  match s with
  | [] => Some acc
  | b :: s => d ← hex_digit b; hex_value (acc * 16 + d) s
  end.
Definition from_str_radix16 (s : str) : option Z :=
  match s with
  | [] => None
  | b :: s' =>
      if b =? 43 then (if (length s' =? 0)%nat then None else hex_value 0 s') else hex_value 0 s
  end.

Definition hex_at (raw : str) (at_ : nat) : option Z :=
  digits ← get_range at_ (at_ + 4) raw; from_str_radix16 digits.

(** The scalars of the one-letter escapes. *)
Definition raw_escape (e : Z) : option Z :=
  if e =? 34 then Some 34
  else if e =? 92 then Some 92
  else if e =? 47 then Some 47
  else if e =? 98 then Some 8
  else if e =? 102 then Some 12
  else if e =? 110 then Some 10
  else if e =? 114 then Some 13
  else if e =? 116 then Some 9
  else None.

(** The escape whose backslash is at [at_]: its scalar and its width. *)
Definition escape_width (raw : str) (at_ : nat) : option (Z * nat) :=
  e ← raw !! S at_;
  if raw_escape e is Some c then Some (c, 2%nat)
  else if e =? 117 then
    first ← hex_at raw (at_ + 2);
    if (55296 <=? first) && (first <? 56320) then
      if bool_decide (get_range (at_ + 6) (at_ + 8) raw ≠ Some (lit "\u")) then None
      else
        second ← hex_at raw (at_ + 8);
        if negb ((56320 <=? second) && (second <? 57344)) then None
        else
          c ← from_u32 (65536 + Z.shiftl (first - 55296) 10 + (second - 56320));
          Some (c, 12%nat)
    else c ← from_u32 first; Some (c, 6%nat)
  else None.

(** [StringValue::read]; [Refused tt] is its [None]. *)
Fixpoint read_loop (fuel : nat) (raw : str) (start at_ : nat) (bs : list (nat * nat)) (decoded_ : str) :
    result (fault unit) StringValue :=
  match fuel with
  | O => Err OutOfFuel
  | S fuel =>
      match raw !! at_ with
      | None => Ok {| boundaries := bs ++ [((start + length raw)%nat, length decoded_)]; decoded_text := decoded_ |}
      | Some b =>
          let bs := bs ++ [((start + at_)%nat, length decoded_)] in
          let next :=
            if negb (b =? 92) then
              match from_utf8 (drop at_ raw) with
              | Ok (c :: _) => Some (c, len_utf8 c)
              | _ => None
              end
            else escape_width raw at_ in
          match next with
          | None => Err (Refused tt)
          | Some (c, width) => read_loop fuel raw start (at_ + width) bs (decoded_ ++ encode_utf8 c)
          end
      end
  end.
Definition string_read (source : str) (start stop : nat) : result (fault unit) StringValue :=
  let raw := slice start stop source in read_loop (S (length raw)) raw start 0 [] [].

(** The boundaries increase strictly, so the binary search is a search. *)
Definition decoded_offset (sv : StringValue) (stored_ : nat) : option nat :=
  snd <$> List.find (fun b => (b.1 =? stored_)%nat) (boundaries sv).

(** Every string value of a document, by where its content starts. *)
Fixpoint strings_loop (fuel : nat) (strings : gmap nat nat) (pending : list Value) : contract (gmap nat nat) :=
  match pending with
  | [] => Ok strings
  | v :: pending =>
      match fuel with
      | O => Err OutOfFuel
      | S fuel =>
          match node v with
          | StringNode _ =>
              let '(a, b) := byte_range v in strings_loop fuel (<[S a := (b - 1)%nat]> strings) pending
          | ArrayNode _ => strings_loop fuel strings (rev (default [] (elements v)) ++ pending)
          | ObjectNode _ => strings_loop fuel strings (rev (default [] (members v)).*2 ++ pending)
          | _ => strings_loop fuel strings pending
          end
      end
  end.
Definition string_values (d : Document) : contract (gmap nat nat) :=
  strings_loop (json_size (tree (root d))) ∅ [root d].

(** [strings.range(..=start).next_back()] *)
Definition later (best : option (nat * nat)) (kv : nat * nat) : option (nat * nat) :=
  match best with Some b => if (b.1 <? kv.1)%nat then Some kv else best | None => Some kv end.
Definition last_at_most (strings : gmap nat nat) (start : nat) : option (nat * nat) :=
  fold_left later (List.filter (fun kv => (kv.1 <=? start)%nat) (map_to_list strings)) None.

(** ** Outputs that model text may cite *)

(** [rest.find(byte)] *)
Fixpoint find_byte (b : Z) (s : str) : option nat :=
  match s with
  | [] => None
  | c :: s => if c =? b then Some 0%nat else S <$> find_byte b s
  end.

(** [str::parse::<usize>()]: an optional plus, then digits, within range. *)
Definition parse_usize (s : str) : option Z :=
  let ds := match s with b :: s' => if b =? 43 then s' else s | [] => s end in
  if (0 <? length ds)%nat && forallb is_ascii_digit ds then parse_digits_max USIZE_MAX ds else None.

Definition call_field (name : str) : option (Z * str) :=
  rest ← strip_prefix (lit "/calls/") name;
  slash ← find_byte 47 rest;
  let index := take slash rest in
  if (length index =? 0)%nat || ((1 <? length index)%nat && starts_with (lit "0") index) then None
  else n ← parse_usize index; Some (n, drop slash rest).

Section Outputs.
Context `{SerdeJson}.

Record DrawOutput := { draw_reasoning : str; draw_text : str; draw_calls : list sj_value }.
Record ModelOutputs := { generations : gmap str Generation; draws : gmap str DrawOutput }.

Definition pointed (arguments : sj_value) (pointer_ : str) : option str := sj_pointer arguments pointer_ ≫= sj_as_str.

Definition served_text (call : sj_value) : option str :=
  match sj_get call (lit "args") with Some _ => None | None => sj_get call (lit "arguments") ≫= sj_as_str end.

Definition missing {A} : contract A := authorship_refusal "cites model output which it does not have".
Definition or_missing {A} (o : option A) : contract A := match o with Some a => Ok a | None => missing end.

(** [pointer] into the text of one call's arguments. *)
Definition argument_field (arguments rest : str) : contract str :=
  pointer_ ← or_missing (strip_prefix (lit "/args") rest);
  v ← or_missing (sj_from_str arguments);
  or_missing (pointed v pointer_).

Definition generation_field (gen : Generation) (name : str) : contract str :=
  if decide (name = lit "/reasoning") then Ok (shown_reasoning gen)
  else if decide (name = lit "/text") then Ok (shown_text gen)
  else
    '(index, rest) ← or_missing (call_field name);
    call ← or_missing (calls gen !! Z.to_nat index);
    if decide (rest = lit "/name") then or_missing (call_name call)
    else if decide (rest = lit "/arguments") then Ok (call_arguments call)
    else argument_field (call_arguments call) rest.

Definition draw_field (draw : DrawOutput) (name : str) : contract str :=
  if decide (name = lit "/reasoning") then Ok (draw_reasoning draw)
  else if decide (name = lit "/text") then Ok (draw_text draw)
  else
    '(index, rest) ← or_missing (call_field name);
    call ← or_missing (draw_calls draw !! Z.to_nat index);
    if decide (rest = lit "/name") then or_missing (sj_get call (lit "name") ≫= sj_as_str)
    else
      served ← or_missing (served_text call);
      if decide (rest = lit "/arguments") then Ok served else argument_field served rest.

Definition output_field (outputs : ModelOutputs) (kind id name : str) : contract str :=
  if decide (kind = lit "generation") then
    gen ← or_missing (generations outputs !! id); generation_field gen name
  else if decide (kind = lit "compaction_draw") then
    draw ← or_missing (draws outputs !! id); draw_field draw name
  else authorship_refusal "cites an unknown kind of model output".
End Outputs.

(** ** Holding the table to the body *)
Section Check.
Context `{SerdeJson}.

(** The segments a table must tile: the whole body, or the prefix, the added
    messages and the suffix of a delta. *)
Definition message_segment (tables : list Value) (first : nat) (line : Z)
    (st : nat * list Segment) (message : nat * nat) : contract (nat * list Segment) :=
  let '(at_, segments) := st in
  let '(index, len) := message in
  segments ←
    (if (first <=? index)%nat then
       table ← expect (tables !! (index - first)%nat) "tables index";
       runs ← read_runs table line;
       Ok (segments ++ [{| seg_start := at_; seg_len := len; seg_runs := runs |}])
     else Ok segments);
  Ok ((at_ + (len + 1))%nat, segments).

Definition delta_segments (body authors : Value) (json : str) (messages : list nat) (line : Z) : contract (list Segment) :=
  prefix ← text body "prefix" line;
  suffix ← text body "suffix" line;
  added ← field body "added_messages" line;
  let added := match elements added with Some items => length items | None => 0%nat end in
  tables ← field authors "added_messages" line;
  tables ← match elements tables with
           | Some tables => Ok tables
           | None => authorship_refusal "lists its added messages' runs in something other than an array"
           end;
  if negb (length tables =? added)%nat || (length messages <? added)%nat
  then authorship_refusal "does not give one table to every message the record adds"
  else
    prefix_table ← field authors "prefix" line;
    prefix_runs ← read_runs prefix_table line;
    let head_ := {| seg_start := 0; seg_len := length prefix; seg_runs := prefix_runs |} in
    '(_, segments) ← fold_result (message_segment tables (length messages - added) line)
                       (length prefix, [head_]) (imap pair messages);
    start ← expect (if (length suffix <=? length json)%nat then Some (length json - length suffix)%nat else None) "suffix offset";
    suffix_table ← field authors "suffix" line;
    suffix_runs ← read_runs suffix_table line;
    Ok (segments ++ [{| seg_start := start; seg_len := length suffix; seg_runs := suffix_runs |}]).

Definition read_segments (body : Value) (json : str) (messages : list nat) (line : Z) : contract (list Segment) :=
  authors ← field body "authors" line;
  kind ← text body "kind" line;
  if decide (kind = lit "full") then
    runs ← read_runs authors line;
    Ok [{| seg_start := 0; seg_len := length json; seg_runs := runs |}]
  else if decide (kind = lit "delta") then delta_segments body authors json messages line
  else authorship_refusal "belongs to an unknown body representation".

(** Where a run that is not the harness's lies: the decoded bytes it covers,
    the string's start and the place in its decoded text. *)
Definition locate (json : str) (strings : gmap nat nat) (start end_ : nat) : contract (str * nat * nat) :=
  match last_at_most strings start with
  | None => authorship_refusal "attributes bytes outside a string value to an author other than the harness"
  | Some (content_start, content_end) =>
      if (content_end <? end_)%nat
      then authorship_refusal "attributes bytes outside a string value to an author other than the harness"
      else
        sv ← match string_read json content_start content_end with
             | Ok sv => Ok sv
             | Err (Refused _) => authorship_refusal "covers a string value it cannot decode"
             | Err (Panic site) => Err (Panic site)
             | Err OutOfFuel => Err OutOfFuel
             end;
        match decoded_offset sv start, decoded_offset sv end_ with
        | Some a, Some b =>
            written ← expect (get_range a b (decoded_text sv)) "slice of decoded text";
            Ok (written, content_start, a)
        | _, _ => authorship_refusal "starts or ends a run inside a character"
        end
  end.

(** Whether a run continues the previous one: the same author, and for cited
    text the bytes right after it. *)
Definition contiguous (previous : option (Claim * nat)) (claim : Claim) : bool :=
  match previous, claim with
  | Some (Operator before, length), Operator offset => before + Z.of_nat length =? offset
  | Some (ModelText kind id field before, length), ModelText k i f offset =>
      bool_decide (kind = k) && bool_decide (id = i) && bool_decide (field = f) && (before + Z.of_nat length =? offset)
  | Some (World, _), World | Some (Harness, _), Harness => true
  | _, _ => false
  end.

Record Tiling := { at_byte : nat; previous : option (Claim * nat); citations : list Citation }.

Definition run_step (json : str) (strings : gmap nat nat) (outputs : ModelOutputs) (operator : OperatorTask)
    (segment : Segment) (st : Tiling) (run : Run) : contract Tiling :=
  let start := at_byte st in
  let end_ := (start + run_bytes run)%nat in
  if (seg_start segment + seg_len segment <? end_)%nat || (USIZE_MAX <? Z.of_nat end_)
  then authorship_refusal "has runs that reach past the bytes they describe"
  else
    match run_claim run with
    | Harness =>
        if contiguous (previous st) Harness then authorship_refusal "splits one author's bytes into adjacent runs"
        else Ok {| at_byte := end_; previous := Some (Harness, 0%nat); citations := citations st |}
    | claim =>
        '(written, content_start, place) ← locate json strings start end_;
        if contiguous (previous st) claim then authorship_refusal "splits one author's bytes into adjacent runs"
        else
          cited ←
            match claim with
            | Operator offset =>
                let from := Z.to_nat offset in
                if bool_decide (get_range from (from + length written) operator ≠ Some written)
                then authorship_refusal "attributes bytes to the operator that are not the task's bytes"
                else Ok []
            | ModelText kind id name offset =>
                source ← output_field outputs kind id name;
                let from := Z.to_nat offset in
                if bool_decide (get_range from (from + length written) source ≠ Some written)
                then authorship_refusal "attributes bytes to the model that are not the bytes of its output"
                else Ok [{| stored := start; string_start := content_start; place := place; cite_kind := kind;
                            cite_id := id; cite_field := name; from := from; to_ := (from + length written)%nat |}]
            | _ => Ok []
            end;
          Ok {| at_byte := end_; previous := Some (claim, length written); citations := citations st ++ cited |}
    end.

Definition segment_step (json : str) (strings : gmap nat nat) (outputs : ModelOutputs) (operator : OperatorTask)
    (cited : list Citation) (segment : Segment) : contract (list Citation) :=
  st ← fold_result (run_step json strings outputs operator segment)
         {| at_byte := seg_start segment; previous := None; citations := cited |} (seg_runs segment);
  if negb (at_byte st =? seg_start segment + seg_len segment)%nat
  then authorship_refusal "leaves stored bytes without an author"
  else Ok (citations st).

Definition check (body : Value) (json : str) (document : Document) (messages : list nat)
    (outputs : ModelOutputs) (operator : OperatorTask) (line : Z) : contract (list Citation) :=
  segments ← read_segments body json messages line;
  strings ← string_values document;
  fold_result (segment_step json strings outputs operator) [] segments.
End Check.

(** ** Copies in full

    [sort_unstable] of pairs: the lexicographic order. *)
Module SpanOrder <: TotalLeBool.
Definition t := (nat * nat)%type.
Definition leb (a b : t) : bool := (a.1 <? b.1)%nat || ((a.1 =? b.1)%nat && (a.2 <=? b.2)%nat).
Lemma leb_total a b : leb a b = true ∨ leb b a = true.
Proof.
  unfold leb. destruct (Nat.ltb_spec a.1 b.1), (Nat.eqb_spec a.1 b.1), (Nat.leb_spec a.2 b.2),
    (Nat.ltb_spec b.1 a.1), (Nat.eqb_spec b.1 a.1), (Nat.leb_spec b.2 a.2); simpl; auto; lia.
Qed.
End SpanOrder.
Module SpanSort := Sort SpanOrder.

Definition cites (kind id name : str) (c : Citation) : bool :=
  bool_decide (cite_kind c = kind) && bool_decide (cite_id c = id) && bool_decide (cite_field c = name).
Definition spans_of (cs : list Citation) (kind id name : str) : list (nat * nat) :=
  map (fun c => (from c, to_ c)) (List.filter (cites kind id name) cs).

Fixpoint chain (at_ : nat) (spans : list (nat * nat)) : option nat :=
  match spans with
  | [] => Some at_
  | (a, b) :: spans => if (a =? at_)%nat then chain b spans else None
  end.

Definition copies_in_full (cs : list Citation) (kind id name text : str) : bool :=
  match chain 0 (SpanSort.sort (spans_of cs kind id name)) with
  | Some at_ => (at_ =? length text)%nat
  | None => false
  end.

(** ** The two decoders of a string agree *)
Lemma lookup_slice a b i (s : str) : (b <= length s)%nat → slice a b s !! i = (if decide (a + i < b)%nat then s !! (a + i)%nat else None).
Proof.
  intros Hb. unfold slice. destruct (decide _).
  - rewrite lookup_take_lt by lia. apply lookup_drop.
  - apply lookup_take_ge. lia.
Qed.

Lemma get_range_slice a b i j (s : str) :
  (b <= length s)%nat → (i <= j)%nat → (a + j <= b)%nat → get_range i j (slice a b s) = Some (slice (a + i) (a + j) s).
Proof.
  intros Hb Hij Hj. unfold get_range. rewrite slice_length by done.
  rewrite (proj2 (Nat.leb_le i j)), (proj2 (Nat.leb_le j (b - a))) by lia. cbn [andb]. f_equal.
  unfold slice. rewrite skipn_firstn_comm, take_take, drop_drop. f_equal. lia.
Qed.

Lemma hex_digit_plus b d : hex_digit b = Some d → b ≠ 43.
Proof. intros Hd ->. done. Qed.

(** Four hexadecimal digits, read by either. *)
Lemma hex_digits_slice n source at_ acc v e :
  hex_digits n source at_ acc = Ok (v, e) →
  e = (at_ + n)%nat ∧ (e <= length source ∨ n = 0)%nat ∧ hex_value acc (slice at_ e source) = Some v ∧
  (n ≠ 0%nat → ∃ b, head (slice at_ e source) = Some b ∧ b ≠ 43).
Proof.
  revert at_ acc. induction n as [|n IH]; intros at_ acc H1; cbn [hex_digits] in H1.
  - injection H1 as <- <-. split; [lia|]. split; [lia|]. split; [|done]. unfold slice. by rewrite Nat.sub_diag.
  - destruct (source !! at_) as [b|] eqn:Hb; [|done]. simpl in H1. destruct (hex_digit b) as [d|] eqn:Hd; [|done].
    apply IH in H1 as (-> & Hle & Hv & _). pose proof (lookup_lt_Some _ _ _ Hb).
    split; [lia|]. split; [lia|].
    assert (Hs : slice at_ (S at_ + n) source = b :: slice (S at_) (S at_ + n) source).
    { unfold slice. replace (S at_ + n - at_)%nat with (S (S at_ + n - S at_)) by lia.
      by rewrite (drop_S source b at_) by done. }
    rewrite Hs. simpl. rewrite Hd. split; [done|]. intros _. exists b. split; [done|]. by eapply hex_digit_plus.
Qed.

Lemma hex_unit_at source a b at_ v e :
  hex_unit source at_ = Ok (v, e) → (a <= at_)%nat → (e <= b <= length source)%nat →
  hex_at (slice a b source) (at_ - a) = Some v ∧ e = (at_ + 4)%nat.
Proof.
  intros H1 Ha Hb. unfold hex_unit in H1. apply hex_digits_slice in H1 as (-> & _ & Hv & Hhead).
  destruct (Hhead ltac:(done)) as (x & Hx & Hne). split; [|done]. unfold hex_at.
  rewrite get_range_slice by lia. replace (a + (at_ - a))%nat with at_ by lia.
  replace (a + (at_ - a + 4))%nat with (at_ + 4)%nat by lia. simpl.
  unfold from_str_radix16. destruct (slice at_ (at_ + 4) source) as [|y s]; [done|]. injection Hx as ->.
  destruct (Z.eqb_spec x 43); [done|]. done.
Qed.

Lemma unicode_escape_agrees source a b p c e :
  unicode_escape source (S (S p)) = Ok (c, e) → source !! S p = Some 117 → (a <= p)%nat → (e <= b <= length source)%nat →
  ∃ width, escape_width (slice a b source) (p - a) = Some (c, width) ∧ e = (p + width)%nat ∧ (0 < width)%nat.
Proof.
  intros Hu Hb Ha Hle. unfold unicode_escape in Hu.
  apply bind_ok_inv in Hu as ([first e1] & Hfirst & Hu). cbn beta iota in Hu.
  apply bind_ok_inv in Hu as ([scalar e2] & Hscalar & Hu). cbn beta iota in Hu.
  apply bind_ok_inv in Hu as (c' & Hc & [= <- <-]). destruct (from_u32 scalar) as [c0|] eqn:Hc0; [|done]. injection Hc as ->.
  assert (He1 : e1 = (S (S p) + 4)%nat) by (unfold hex_unit in Hfirst; by apply hex_digits_slice in Hfirst as (-> & _)).
  assert (Hat : (S p < e2)%nat).
  { destruct (_ && _) in Hscalar; [|destruct (_ && _) in Hscalar; [done|injection Hscalar as <- <-; lia]].
    apply bind_ok_inv in Hscalar as (rest & _ & Hs). destruct (negb _); [done|].
    apply bind_ok_inv in Hs as ([second e3] & Hsecond & Hs). cbn beta iota in Hs. destruct (negb _); [done|].
    injection Hs as <- <-. unfold hex_unit in Hsecond. apply hex_digits_slice in Hsecond as (-> & _). lia. }
  unfold escape_width. rewrite lookup_slice by lia. rewrite decide_True by lia.
  replace (a + S (p - a))%nat with (S p) by lia. rewrite Hb. simpl.
  assert (Hfirst' : (e1 <= b)%nat → hex_at (slice a b source) (p - a + 2) = Some first).
  { intros Hb'. replace (p - a + 2)%nat with (S (S p) - a)%nat by lia. by eapply hex_unit_at; [exact Hfirst|lia|lia]. }
  destruct ((55296 <=? first) && (first <=? 56319)) eqn:Hhigh.
  - apply bind_ok_inv in Hscalar as (rest & Hrest & Hs).
    unfold str_from in Hrest. destruct (is_char_boundary source e1); [|done]. injection Hrest as <-.
    destruct (starts_with (lit "\u") (drop e1 source)) eqn:Hstart; [|done]. cbn [negb] in Hs.
    apply bind_ok_inv in Hs as ([second e3] & Hsecond & Hs). cbn beta iota in Hs.
    destruct ((56320 <=? second) && (second <=? 57343)) eqn:Hlow; [|done]. injection Hs as <- <-.
    assert (He3 : e3 = (e1 + 2 + 4)%nat) by (unfold hex_unit in Hsecond; by apply hex_digits_slice in Hsecond as (-> & _)).
    rewrite Hfirst' by lia. simpl. replace (first <? 56320) with (first <=? 56319) by lia. rewrite Hhigh.
    rewrite get_range_slice by lia. replace (a + (p - a + 6))%nat with e1 by lia. replace (a + (p - a + 8))%nat with (e1 + 2)%nat by lia.
    assert (Hslice : slice e1 (e1 + 2) source = lit "\u").
    { unfold slice. replace (e1 + 2 - e1)%nat with 2%nat by lia. unfold starts_with in Hstart. by to_prop. }
    rewrite Hslice, bool_decide_false by (by intros Hn; apply Hn).
    destruct (hex_unit_at source a b (e1 + 2) second e3 Hsecond) as [Hsec _]; [lia|lia|].
    replace (p - a + 8)%nat with (e1 + 2 - a)%nat by lia. rewrite Hsec. simpl.
    replace (second <? 57344) with (second <=? 57343) by lia. rewrite Hlow. cbn [negb].
    replace (65536 + Z.shiftl (first - 55296) 10 + (second - 56320)) with (65536 + Z.shiftl (first - 55296) 10 + second - 56320) by lia.
    rewrite Hc0. simpl. exists 12%nat. split; [done|]. lia.
  - destruct ((56320 <=? first) && (first <=? 57343)); [done|]. injection Hscalar as <- <-.
    rewrite Hfirst' by lia. simpl. replace (first <? 56320) with (first <=? 56319) by lia. rewrite Hhigh, Hc0. simpl.
    exists 6%nat. split; [done|]. lia.
Qed.

(** The escape after the backslash at [p]. *)
Lemma escape_agrees source a b p c e :
  escape source (S p) = Ok (c, e) → (a <= p)%nat → (e <= b <= length source)%nat →
  ∃ width, escape_width (slice a b source) (p - a) = Some (c, width) ∧ e = (p + width)%nat ∧ (0 < width)%nat.
Proof.
  intros He Ha Hle. unfold escape in He. destruct (source !! S p) as [x|] eqn:Hx; [|done].
  assert (Hsimple : ∀ y, Ok (y, S (S p)) = Ok (E:=fault DecodeError) (c, e) →
     raw_escape x = Some y → ∃ width, escape_width (slice a b source) (p - a) = Some (c, width) ∧ e = (p + width)%nat ∧ (0 < width)%nat).
  { intros y [= <- <-] Hraw. exists 2%nat. split; [|lia]. unfold escape_width. rewrite lookup_slice by lia.
    rewrite decide_True by lia. replace (a + S (p - a))%nat with (S p) by lia. rewrite Hx. simpl.
    by rewrite Hraw. }
  repeat (case_match; try done); try (by eapply Hsimple).
  by apply unicode_escape_agrees.
Qed.

Lemma drop_slice a b i (s : str) : (a <= i)%nat → drop (i - a) (slice a b s) = slice i b s.
Proof.
  intros Hi. unfold slice. rewrite skipn_firstn_comm, drop_drop. f_equal; [lia | f_equal; lia].
Qed.

Lemma slice_app_drop i b (s : str) : (i <= b)%nat → slice i b s ++ drop b s = drop i s.
Proof.
  intros Hi. unfold slice. rewrite <- (take_drop (b - i) (drop i s)) at 2. f_equal. rewrite drop_drop. f_equal. lia.
Qed.

(** Strictly increasing stored offsets between two bounds. *)
Record increasing (lo hi : nat) (bs : list (nat * nat)) : Prop := {
  inc_bounds : Forall (fun b => lo <= b.1 <= hi)%nat bs;
  inc_sorted : StronglySorted (fun x y => x.1 < y.1)%nat bs;
}.

Lemma increasing_cons lo mid hi x bs :
  (lo < mid)%nat → (lo <= hi)%nat → increasing mid hi bs → increasing lo hi ((lo, x) :: bs).
Proof.
  intros Hlt Hle [Hb Hs]. split; constructor; simpl; [lia| |done|].
  - eapply Forall_impl; [exact Hb|]. simpl. lia.
  - eapply Forall_impl; [exact Hb|]. simpl. lia.
Qed.

Lemma next_char_agrees source a p stop c r :
  utf8_next (drop p source) = Some (c, r) → Valid (drop p source) → source !! stop = Some 34 → (a <= p)%nat → (p < stop)%nat →
  ∃ cs, from_utf8 (drop (p - a) (slice a stop source)) = Ok (c :: cs).
Proof.
  intros Hn Hv Hq Ha Hp. rewrite drop_slice by done.
  assert (Hcut : Valid (slice p stop source)).
  { apply (Valid_cut _ (drop stop source)); [by rewrite slice_app_drop by lia|].
    intros x Hx. rewrite (drop_S source 34 stop Hq) in Hx. by injection Hx as <-. }
  pose proof (lookup_lt_Some _ _ _ Hq).
  apply from_utf8_Valid in Hcut as Hok. destruct (from_utf8 (slice p stop source)) as [cs|] eqn:Hf; [|done].
  apply from_utf8_ok in Hf as [Hcs Hs]. destruct cs as [|c' cs].
  - simpl in Hs. apply (f_equal length) in Hs. rewrite slice_length in Hs by lia. simpl in Hs. lia.
  - exists cs. apply Forall_cons in Hcs as [Hc' _].
    rewrite <- (slice_app_drop p stop source), Hs in Hn by lia. simpl in Hn. rewrite <- app_assoc in Hn.
    rewrite utf8_next_encode in Hn by done. by injection Hn as ->.
Qed.

Lemma loop_agrees fuel source a p acc s e :
  string_loop fuel source p acc = Ok (s, e) → Valid (drop p source) → (p <= length source)%nat → (a <= p)%nat →
  (length source - p < fuel)%nat → Valid acc →
  ∀ fuel' bs, (e - 1 - p < fuel')%nat →
  ∃ more, read_loop fuel' (slice a (e - 1) source) a (p - a) bs acc = Ok {| boundaries := bs ++ more; decoded_text := s |} ∧
    increasing p (e - 1) more ∧ head more = Some (p, length acc) ∧ last more = Some ((e - 1)%nat, length s).
Proof.
  assert (Hlast : ∀ (x y : nat * nat) l, last l = Some y → last (x :: l) = Some y) by (intros x y [|z l]; done).
  revert p acc. induction fuel as [|fuel IH]; intros p acc Hloop Hv Hp Ha Hf Hacc; [done|].
  pose proof (string_loop_safe (S fuel) source p acc Hf Hp Hv Hacc) as Hsafe. rewrite Hloop in Hsafe.
  destruct Hsafe as ([Hpe Hle] & _ & _ & Hq). cbn [string_loop] in Hloop.
  destruct (source !! p) as [x|] eqn:Hx; [|done]. intros fuel' bs Hf'. destruct fuel' as [|fuel']; [lia|]. cbn [read_loop].
  rewrite lookup_slice by lia. replace (a + (p - a))%nat with p by lia.
  destruct (Z.eqb_spec x 34) as [->|Hx34].
  { injection Hloop as <- <-. rewrite decide_False by lia. rewrite slice_length by lia.
    replace (a + (S p - 1 - a))%nat with p by lia. exists [(p, length acc)]. split; [done|].
    split; [split; [apply Forall_singleton; simpl; lia | repeat constructor]|]. split; [done|]. simpl. by rewrite Nat.sub_0_r. }
  destruct (Z.eqb_spec x 92) as [->|Hx92].
  - apply bind_ok_inv in Hloop as ([c e1] & Hesc & Hloop). cbn beta iota in Hloop.
    destruct (text_step source p 92 Hx ltac:(done) Hv) as [Hp1 Hv1].
    pose proof (escape_safe source (S p) Hp1 Hv1) as Hes. rewrite Hesc in Hes. destruct Hes as ([He1 He1'] & Hve1 & Hc).
    assert (Hlt : (e1 < e)%nat).
    { pose proof (string_loop_safe fuel source e1 (acc ++ encode_utf8 c)) as Hs'. rewrite Hloop in Hs'.
      destruct Hs' as ([? _] & _); [lia|lia|done|by apply Valid_push|done]. }
    rewrite decide_True by lia. rewrite Hx. cbn [negb Z.eqb Pos.eqb].
    destruct (escape_agrees source a (e - 1) p c e1 Hesc Ha) as (width & Hw & -> & Hpos); [lia|]. rewrite Hw.
    destruct (IH (p + width)%nat (acc ++ encode_utf8 c) Hloop Hve1 He1' ltac:(lia) ltac:(lia) (Valid_push _ _ Hacc Hc)
      fuel' (bs ++ [(p, length acc)])) as (more & Hread & Hinc & _ & Hend); [lia|].
    replace (p - a + width)%nat with (p + width - a)%nat by lia. rewrite Hread.
    exists ((p, length acc) :: more). split; [by rewrite <- app_assoc|]. split; [eapply increasing_cons; [|lia|done]; lia|].
    split; [done | by apply Hlast].
  - destruct (_ && _); [done|]. apply bind_ok_inv in Hloop as (rest & Hrest & Hloop).
    destruct (str_from source p) as [rest'|] eqn:Hstr; [|done]. injection Hrest as ->.
    unfold str_from in Hstr. destruct (is_char_boundary source p); [|done]. injection Hstr as <-.
    apply bind_ok_inv in Hloop as ([c r] & Hn & Hloop). cbn beta iota in Hloop.
    destruct (utf8_next (drop p source)) as [[c' r']|] eqn:Hnext; [|done]. injection Hn as -> ->.
    pose proof (encode_utf8_length c) as Hclen. destruct (utf8_next_inv _ _ _ Hnext) as [Hc Hdrop].
    assert (Hlen : (p + len_utf8 c <= length source)%nat).
    { apply (f_equal length) in Hdrop. rewrite length_drop, length_app in Hdrop. unfold len_utf8. lia. }
    assert (Hv' : Valid (drop (p + len_utf8 c) source)).
    { rewrite <- drop_drop, Hdrop. unfold len_utf8. rewrite drop_app_length.
      destruct (Valid_next (drop p source) Hv) as (c0 & r0 & Hn0 & _ & _ & Hvr).
      - intros E. rewrite E in Hnext. done.
      - rewrite Hnext in Hn0. by injection Hn0 as -> ->. }
    assert (Hlt : (p + len_utf8 c < e)%nat).
    { pose proof (string_loop_safe fuel source (p + len_utf8 c) (acc ++ encode_utf8 c)) as Hs'. rewrite Hloop in Hs'.
      destruct Hs' as ([? _] & _); [unfold len_utf8; lia|done|done|by apply Valid_push|done]. }
    rewrite decide_True by (unfold len_utf8 in *; lia). rewrite Hx.
    rewrite (proj2 (Z.eqb_neq x 92) Hx92). cbn [negb].
    destruct (next_char_agrees source a p (e - 1) c r Hnext Hv Hq Ha) as (cs & Hcs); [unfold len_utf8 in *; lia|]. rewrite Hcs.
    destruct (IH (p + len_utf8 c)%nat (acc ++ encode_utf8 c) Hloop Hv' Hlen ltac:(lia) ltac:(unfold len_utf8; lia) (Valid_push _ _ Hacc Hc)
      fuel' (bs ++ [(p, length acc)])) as (more & Hread & Hinc & _ & Hend); [unfold len_utf8 in *; lia|].
    replace (p - a + len_utf8 c)%nat with (p + len_utf8 c - a)%nat by lia. rewrite Hread.
    exists ((p, length acc) :: more). split; [by rewrite <- app_assoc|].
    split; [eapply increasing_cons; [|lia|done]; unfold len_utf8 in *; lia|]. split; [done | by apply Hlast].
Qed.

(** ** What [string_read] returns *)

(** Boundaries of the stored text inside the string, each a decoded offset of the
    result, both strictly increasing together. *)
Definition monotone (sv : StringValue) : Prop :=
  ∀ x y, x ∈ boundaries sv → y ∈ boundaries sv → (x.1 < y.1)%nat →
    (x.2 < y.2 <= length (decoded_text sv))%nat.

Lemma escape_width_pos raw at_ c w : escape_width raw at_ = Some (c, w) → (0 < w)%nat.
Proof.
  unfold escape_width. intros Hw. destruct (raw !! S at_) as [e|]; [|done]. simpl in Hw.
  destruct (raw_escape e); [injection Hw; lia|]. destruct (e =? 117); [|done].
  destruct (hex_at raw (at_ + 2)) as [first|]; [|done]. simpl in Hw.
  repeat (case_match; try done); simpl in *; repeat case_match; try done.
  - destruct (hex_at raw (at_ + 8)) as [second|]; [|done]. simpl in *. case_match; [done|].
    destruct (from_u32 _); [|done]. injection Hw; lia.
  - destruct (from_u32 first); [|done]. injection Hw; lia.
Qed.

Lemma read_loop_safe fuel raw start at_ bs decoded_ :
  (length raw - at_ < fuel)%nat →
  (∀ x, x ∈ bs → (x.1 < start + at_)%nat ∧ (x.1 < start + length raw)%nat ∧ (x.2 < length decoded_)%nat) →
  (∀ x y, x ∈ bs → y ∈ bs → (x.1 < y.1)%nat → (x.2 < y.2)%nat) →
  safe (read_loop fuel raw start at_ bs decoded_) monotone.
Proof.
  revert at_ bs decoded_. induction fuel as [|fuel IH]; intros at_ bs decoded_ Hf Hold Hmono; [lia|]. cbn [read_loop].
  destruct (raw !! at_) as [b|] eqn:Hb.
  - pose proof (lookup_lt_Some _ _ _ Hb) as Hlt.
    destruct (if negb (b =? 92) then _ else _) as [[c w]|] eqn:Hnext; [|done].
    assert (Hw : (0 < w)%nat).
    { destruct (negb (b =? 92)); [|by eapply escape_width_pos].
      destruct (from_utf8 (drop at_ raw)) as [[|c' cs]|]; try done. injection Hnext as <- <-.
      pose proof (encode_utf8_length c'). unfold len_utf8. lia. }
    pose proof (encode_utf8_length c) as Hc.
    apply IH; [lia| |].
    + intros x. rewrite length_app, elem_of_app, list_elem_of_singleton. intros [Hx| ->]; simpl; [|lia].
      specialize (Hold x Hx). lia.
    + intros x y. rewrite !elem_of_app, !list_elem_of_singleton.
      intros [Hx| ->] [Hy| ->]; simpl; [by apply Hmono| |..]; [specialize (Hold x Hx)|specialize (Hold y Hy)|]; lia.
  - simpl. intros x y. simpl. rewrite !elem_of_app, !list_elem_of_singleton.
    intros [Hx| ->] [Hy| ->]; simpl; intros Hxy.
    + specialize (Hmono x y Hx Hy Hxy). specialize (Hold y Hy). lia.
    + specialize (Hold x Hx). lia.
    + specialize (Hold y Hy). lia.
    + lia.
Qed.

Lemma string_read_safe source start stop : safe (string_read source start stop) monotone.
Proof.
  apply read_loop_safe; [lia| |]; intros x; [|intros y]; intros Hx%not_elem_of_nil; done.
Qed.

Lemma decoded_offset_elem sv stored_ a : decoded_offset sv stored_ = Some a → (stored_, a) ∈ boundaries sv.
Proof.
  unfold decoded_offset. destruct (List.find _ _) as [[x y]|] eqn:Hf; [|done]. intros [= <-].
  apply find_some in Hf as [Hin Heq]. apply Nat.eqb_eq in Heq. simpl in *. subst. by apply list_elem_of_In.
Qed.

(** Between two boundaries lies a slice of the decoded text. *)
Lemma monotone_slice sv start stop a b :
  monotone sv → (start < stop)%nat → decoded_offset sv start = Some a → decoded_offset sv stop = Some b →
  ∃ written, get_range a b (decoded_text sv) = Some written ∧ written ≠ [].
Proof.
  intros Hm Hlt Ha%decoded_offset_elem Hb%decoded_offset_elem. pose proof (Hm _ _ Ha Hb Hlt) as Hab. simpl in Hab.
  exists (slice a b (decoded_text sv)). unfold get_range.
  rewrite (proj2 (Nat.leb_le a b)), (proj2 (Nat.leb_le b _)) by lia. split; [done|].
  intros E. apply (f_equal length) in E. rewrite slice_length in E by lia. simpl in E. lia.
Qed.

(** ** The strings of a document *)

(** A string's content, as a range of the stored text. *)
Definition content_range (json : str) (strings : gmap nat nat) : Prop :=
  ∀ a b, strings !! a = Some b → (a <= b <= length json)%nat.

Section Strings.
Context `{BigIntOps}.

Definition stands_in (d : Document) (v : Value) : Prop := in_arena v ∧ document v = d.

Lemma child_stands_in d v i :
  stands_in d v →
  (match node v with ArrayNode ids => i ∈ ids | ObjectNode ms => ∃ k, (k, i) ∈ ms | _ => False end) →
  stands_in d (child v i).
Proof. intros [Hv <-] Hi. by split; [apply in_arena_child|]. Qed.

Lemma strings_loop_ok fuel d strings pending :
  Forall (stands_in d) pending → (sum_list (map (fun v => json_size (tree v)) pending) <= fuel)%nat →
  content_range (source d) strings →
  ∃ strings', strings_loop fuel strings pending = Ok strings' ∧ content_range (source d) strings'.
Proof.
  revert strings pending. induction fuel as [|fuel IH]; intros strings [|v pending] Hin Hf Hs.
  - eauto.
  - exfalso. simpl in Hf. destruct (tree v); simpl in Hf; lia.
  - eauto.
  - apply Forall_cons in Hin as [Hv Hin]. destruct Hv as [Ha Hd]. cbn [strings_loop].
    cbn [map sum_list sum_list_with] in Hf. rewrite (tree_node v Ha) in Hf.
    pose proof (in_arena_entry v Ha) as [Hspan He].
    assert (Hstack : ∀ vs, Forall (stands_in d) vs → (S (sum_list (map (fun v => json_size (tree v)) vs)) +
        sum_list (map (fun v => json_size (tree v)) pending) <= S fuel)%nat →
        ∃ strings', strings_loop fuel strings (rev vs ++ pending) = Ok strings' ∧ content_range (source d) strings').
    { intros vs Hvs Hsum. apply IH; [|rewrite map_app, map_rev, sum_list_with_app|done].
      - apply Forall_app. split; [by apply Forall_rev|done].
      - fold (sum_list (rev (map (λ v, json_size (tree v)) vs))). rewrite sum_list_rev.
        unfold sum_list in *. lia. }
    unfold node in *. destruct (node_of (entry v)) as [| | |s|ids|ms] eqn:Hn; rewrite ?Hn in Hf, He; cbn [json_size] in Hf, He; try (apply IH; [done|simpl in Hf; lia|done]).
    + unfold byte_range. cbn beta iota. apply IH; [done|simpl in Hf; lia|].
      destruct He as (_ & Hle & _). rewrite Hd in Hspan. intros a b. destruct (decide (a = S (span_start (entry v)))) as [->|Hne].
      * rewrite lookup_insert_eq. intros [= <-]. lia.
      * rewrite lookup_insert_ne by done. apply Hs.
    + unfold elements, node. rewrite Hn. cbn [default]. apply Hstack.
      * apply Forall_map, Forall_forall. intros i Hi. apply child_stands_in; [by split|]. unfold node. by rewrite Hn.
      * unfold Datatypes.id. rewrite map_map in Hf |- *. exact Hf.
    + unfold members, node. rewrite Hn. cbn [default]. apply Hstack.
      * apply Forall_forall. intros x ([k y] & -> & Hx)%list_elem_of_fmap.
        apply list_elem_of_fmap in Hx as ([k' i] & [= -> ->] & Hi). apply child_stands_in; [by split|].
        unfold node. rewrite Hn. eauto.
      * etransitivity; [|exact Hf]. apply Nat.eq_le_incl. unfold Datatypes.id. do 2 f_equal.
        rewrite !map_map. clear. induction ms as [|[k i] ms IHm]; [done|]. simpl. by rewrite IHm.
Qed.

Lemma string_values_ok d :
  in_arena (root d) →
  ∃ strings, string_values d = Ok strings ∧ content_range (source d) strings.
Proof.
  intros Hr. apply strings_loop_ok.
  - apply Forall_singleton. by split.
  - simpl. lia.
  - intros a b. by rewrite lookup_empty.
Qed.
End Strings.

Lemma last_at_most_elem strings start a b :
  last_at_most strings start = Some (a, b) → strings !! a = Some b ∧ (a <= start)%nat.
Proof.
  unfold last_at_most. intros Hl.
  assert (Hfold : ∀ l best, fold_left later l best = Some (a, b) → best = Some (a, b) ∨ (a, b) ∈ l).
  { induction l as [|x l IH]; intros best Hb; [by left|]. simpl in Hb. apply IH in Hb as [Hb|Hb]; [|right; by right].
    unfold later in Hb. destruct best as [y|]; [case_match|]; simplify_eq; [right; left|by left|right; left]. }
  apply Hfold in Hl as [Hl|Hl]; [done|]. apply list_elem_of_In, filter_In in Hl as [Hin Hle]. simpl in Hle.
  split; [by apply elem_of_map_to_list, list_elem_of_In | by apply Nat.leb_le].
Qed.

(** ** What the table promises *)

(** What [run] claims of the stored bytes from [start]: a run that is not the
    harness's lies in one string, on character boundaries, and cited text is the
    decoded text. *)
Definition attributed `{SerdeJson} (json : str) (strings : gmap nat nat) (outputs : ModelOutputs)
    (operator : OperatorTask) (start : nat) (run : Run) : Prop :=
  run_claim run = Harness ∨
  ∃ content_start content_end sv a b written,
    strings !! content_start = Some content_end ∧ (content_start <= start)%nat ∧ (start + run_bytes run <= content_end)%nat ∧
    string_read json content_start content_end = Ok sv ∧
    (start, a) ∈ boundaries sv ∧ ((start + run_bytes run)%nat, b) ∈ boundaries sv ∧
    get_range a b (decoded_text sv) = Some written ∧
    match run_claim run with
    | Operator offset => get_range (Z.to_nat offset) (Z.to_nat offset + length written) operator = Some written
    | ModelText kind id name offset =>
        ∃ output, output_field outputs kind id name = Ok output ∧
          get_range (Z.to_nat offset) (Z.to_nat offset + length written) output = Some written
    | _ => True
    end.

(** A citation names nonempty bytes of an output that exists. *)
Definition citation_ok `{SerdeJson} (outputs : ModelOutputs) (c : Citation) : Prop :=
  (from c < to_ c)%nat ∧
  ∃ output, output_field outputs (cite_kind c) (cite_id c) (cite_field c) = Ok output ∧ (to_ c <= length output)%nat.

Definition tiled (runs : list Run) : nat := sum_list (map run_bytes runs).

Section CheckLemmas.
Context `{SerdeJson}.

Lemma safe_or_missing {A} (o : option A) : safe (or_missing o) (λ a, o = Some a).
Proof. by destruct o. Qed.

Lemma safe_argument_field arguments rest : safe (argument_field arguments rest) (λ _, True).
Proof. unfold argument_field. repeat (eapply safe_bind; [apply safe_or_missing|]; intros). by eapply safe_mono; [apply safe_or_missing|]. Qed.

Lemma safe_output_field outputs kind id name : safe (output_field outputs kind id name) (λ _, True).
Proof.
  unfold output_field. repeat case_decide; try done; (eapply safe_bind; [apply safe_or_missing|]; intros).
  - unfold generation_field. repeat case_decide; try done. eapply safe_bind; [apply safe_or_missing|]. intros [index rest] _ _.
    eapply safe_bind; [apply safe_or_missing|]. intros. repeat case_decide; try done; [|apply safe_argument_field].
    by eapply safe_mono; [apply safe_or_missing|].
  - unfold draw_field. repeat case_decide; try done. eapply safe_bind; [apply safe_or_missing|]. intros [index rest] _ _.
    eapply safe_bind; [apply safe_or_missing|]. intros. repeat case_decide; try done.
    + by eapply safe_mono; [apply safe_or_missing|].
    + by eapply safe_bind; [apply safe_or_missing|].
    + eapply safe_bind; [apply safe_or_missing|]. intros. apply safe_argument_field.
Qed.

Lemma safe_read_claim item line : safe (read_claim item line) (λ _, True).
Proof.
  unfold read_claim. eapply safe_bind; [apply safe_text|]. intros author _ _. repeat case_decide; try done.
  - eapply safe_bind; [apply safe_field|]. intros. by eapply safe_bind; [apply safe_unsigned|].
  - eapply safe_bind; [apply safe_field|]. intros. do 3 (eapply safe_bind; [apply safe_text|]; intros).
    eapply safe_bind; [apply safe_field|]. intros. by eapply safe_bind; [apply safe_unsigned|].
Qed.

Lemma safe_traverse {E A B} (f : A → result (fault E) B) (P : B → Prop) l :
  (∀ a, a ∈ l → safe (f a) P) → safe (traverse f l) (Forall P).
Proof.
  induction l as [|a l IH]; intros Hf; [by apply Forall_nil_2|]. simpl. eapply safe_bind; [apply Hf; left|].
  intros b _ Hb. eapply safe_bind; [apply IH; intros; apply Hf; by right|]. intros bs _ Hbs. by constructor.
Qed.

Lemma safe_read_runs v line : safe (read_runs v line) (Forall (λ r, (0 < run_bytes r)%nat)).
Proof.
  unfold read_runs. destruct (elements v) as [items|]; [|done]. apply safe_traverse. intros item _.
  unfold read_run. eapply safe_bind; [apply safe_field|]. intros. eapply safe_bind; [apply safe_unsigned|]. intros n _ _.
  destruct (Z.ltb_spec 0 n); [|done]. cbn [negb]. eapply safe_bind; [apply safe_read_claim|]. intros. simpl. lia.
Qed.

Lemma safe_locate json strings start end_ :
  (start < end_)%nat →
  safe (locate json strings start end_) (λ '(written, content_start, a),
    written ≠ [] ∧
    ∃ content_end sv b,
      strings !! content_start = Some content_end ∧ (content_start <= start)%nat ∧ (end_ <= content_end)%nat ∧
      string_read json content_start content_end = Ok sv ∧
      (start, a) ∈ boundaries sv ∧ (end_, b) ∈ boundaries sv ∧ get_range a b (decoded_text sv) = Some written).
Proof.
  intros Hlt. unfold locate. destruct (last_at_most strings start) as [[cs ce]|] eqn:Hl; [|done].
  apply last_at_most_elem in Hl as [Hl Hcs]. destruct (Nat.ltb_spec ce end_); [done|].
  pose proof (string_read_safe json cs ce) as Hs. destruct (string_read json cs ce) as [sv|[]] eqn:Hread; [|done..].
  simpl in Hs. rewrite bind_ok. destruct (decoded_offset sv start) as [a|] eqn:Ha; [|done].
  destruct (decoded_offset sv end_) as [b|] eqn:Hb; [|done].
  destruct (monotone_slice sv start end_ a b Hs Hlt Ha Hb) as (written & Hw & Hne). rewrite Hw. simpl. split; [done|].
  exists ce, sv, b. split_and!; try done; by apply decoded_offset_elem.
Qed.

Lemma run_step_safe json strings outputs operator seg st run :
  (0 < run_bytes run)%nat →
  safe (run_step json strings outputs operator seg st run) (λ st',
    at_byte st' = (at_byte st + run_bytes run)%nat ∧
    attributed json strings outputs operator (at_byte st) run ∧
    ∃ cited, citations st' = citations st ++ cited ∧ Forall (citation_ok outputs) cited).
Proof.
  intros Hpos. unfold run_step. destruct (_ || _); [done|].
  destruct (run_claim run) as [| |offset|kind id name offset] eqn:Hclaim.
  - destruct (contiguous _ _); [done|]. simpl. split; [done|]. split; [by left|]. exists []. by rewrite app_nil_r.
  - eapply safe_bind; [apply safe_locate; lia|]. intros [[written cs] a] _ (Hne & ce & sv & b & Hloc).
    destruct (contiguous _ _); [done|]. simpl. split; [done|]. split; [|exists []; by rewrite app_nil_r].
    right. rewrite Hclaim. exists cs, ce, sv, a, b, written. naive_solver.
  - eapply safe_bind; [apply safe_locate; lia|]. intros [[written cs] a] _ (Hne & ce & sv & b & Hloc).
    destruct (contiguous _ _); [done|]. case_bool_decide as Hd; [done|].
    simpl. split; [done|]. split; [|exists []; by rewrite app_nil_r].
    right. rewrite Hclaim. exists cs, ce, sv, a, b, written. naive_solver.
  - eapply safe_bind; [apply safe_locate; lia|]. intros [[written cs] a] _ (Hne & ce & sv & b & Hloc).
    destruct (contiguous _ _); [done|]. rewrite <- Hclaim.
    pose proof (safe_output_field outputs kind id name) as Hs.
    destruct (output_field outputs kind id name) as [output|[]] eqn:Hout; [|done..].
    rewrite bind_ok. case_bool_decide as Hd; [done|].
    simpl. split; [done|]. split.
    + right. rewrite Hclaim. exists cs, ce, sv, a, b, written. destruct Hloc as (?&?&?&?&?&?&?). split_and!; try done. by exists output.
    + eexists. split; [done|]. apply Forall_singleton. unfold get_range in Hd.
      destruct (_ && _) eqn:Hle; [|done]. to_prop. destruct written; [done|].
      split; simpl; [lia|]. exists output. simpl in *. split; [done|lia].
Qed.

Lemma runs_safe json strings outputs operator seg runs st :
  Forall (λ r, 0 < run_bytes r)%nat runs →
  safe (fold_result (run_step json strings outputs operator seg) st runs) (λ st',
    at_byte st' = (at_byte st + tiled runs)%nat ∧
    (∀ before run after, runs = before ++ run :: after →
       attributed json strings outputs operator (at_byte st + tiled before) run) ∧
    ∃ cited, citations st' = citations st ++ cited ∧ Forall (citation_ok outputs) cited).
Proof.
  intros Hpos. revert st. induction Hpos as [|run runs Hr Hpos IH]; intros st.
  - simpl. unfold tiled. simpl. split; [lia|]. split; [by intros [] ? ?|]. exists []. by rewrite app_nil_r.
  - cbn [fold_result]. eapply safe_bind; [by apply run_step_safe|]. intros st1 _ (Hat & Hrun & cited & Hc & Hok).
    eapply safe_mono; [apply IH|]. intros st2 _ (Hat2 & Hruns & cited2 & Hc2 & Hok2).
    assert (Ht : ∀ r rs, tiled (r :: rs) = (run_bytes r + tiled rs)%nat) by done.
    split; [rewrite Hat2, Hat, Ht; lia|]. split.
    + intros [|r before] run' after [= -> ->].
      * unfold tiled. simpl. by rewrite Nat.add_0_r.
      * rewrite Ht. replace (at_byte st + (run_bytes r + tiled before))%nat with (at_byte st1 + tiled before)%nat by lia.
        by eapply Hruns.
    + exists (cited ++ cited2). rewrite Hc2, Hc, app_assoc. split; [done|]. by apply Forall_app.
Qed.

Definition segment_ok (json : str) (strings : gmap nat nat) (outputs : ModelOutputs) (operator : OperatorTask)
    (seg : Segment) : Prop :=
  tiled (seg_runs seg) = seg_len seg ∧
  ∀ before run after, seg_runs seg = before ++ run :: after →
    attributed json strings outputs operator (seg_start seg + tiled before) run.

Lemma segments_safe json strings outputs operator segments cs :
  Forall (λ seg, Forall (λ r, 0 < run_bytes r)%nat (seg_runs seg)) segments → Forall (citation_ok outputs) cs →
  safe (fold_result (segment_step json strings outputs operator) cs segments) (λ cs',
    Forall (segment_ok json strings outputs operator) segments ∧ Forall (citation_ok outputs) cs').
Proof.
  intros Hpos. revert cs. induction Hpos as [|seg segments Hseg Hpos IH]; intros cs Hcs; [by split; [apply Forall_nil_2|]|].
  cbn [fold_result]. eapply (safe_bind _ _ (λ cs', segment_ok json strings outputs operator seg ∧ Forall (citation_ok outputs) cs')).
  - unfold segment_step. eapply safe_bind; [by apply runs_safe|]. intros st _ (Hat & Hruns & cited & Hc & Hok).
    simpl in Hat, Hruns, Hc. destruct (Nat.eqb_spec (at_byte st) (seg_start seg + seg_len seg)); [|done]. cbn [negb safe].
    split; [split; [lia|done]|]. rewrite Hc. by apply Forall_app.
  - intros cs1 _ [Hok Hcs1]. eapply safe_mono; [by apply IH|]. intros cs2 _ [Hall Hcs2]. split; [by constructor|done].
Qed.

Definition positive_runs (seg : Segment) : Prop := Forall (λ r, 0 < run_bytes r)%nat (seg_runs seg).

Lemma message_segments_safe tables first line st messages :
  (∀ index len, (index, len) ∈ messages → (first <= index)%nat → (index - first < length tables)%nat) →
  Forall positive_runs st.2 →
  safe (fold_result (message_segment tables first line) st messages) (λ st', Forall positive_runs st'.2).
Proof.
  revert st. induction messages as [|[index len] messages IH]; intros [at_ segs] Hin Hst; [done|].
  cbn [fold_result]. eapply (safe_bind _ _ (λ st', Forall positive_runs st'.2)).
  - unfold message_segment. destruct (Nat.leb_spec first index) as [Hle|]; [|done].
    destruct (lookup_lt_is_Some_2 tables (index - first)) as [table Htable]; [by eapply Hin; [left|]|].
    rewrite Htable. cbn [expect]. rewrite bind_ok. pose proof (safe_read_runs table line) as Hr.
    destruct (read_runs table line) as [runs|[]]; [|done..]. simpl. apply Forall_app. split; [done|]. by apply Forall_singleton.
  - intros st1 _ Hst1. apply IH; [|done]. intros i l Hil. by eapply Hin; right.
Qed.

Lemma safe_read_segments body json messages line :
  (∀ suffix, text body "suffix" line = Ok suffix → (length suffix <= length json)%nat) →
  safe (read_segments body json messages line) (Forall positive_runs).
Proof.
  intros Hsuffix. unfold read_segments. eapply safe_bind; [apply safe_field|]. intros authors _ _.
  eapply safe_bind; [apply safe_text|]. intros kind _ _. repeat case_decide; [|..|done].
  { eapply safe_bind; [apply safe_read_runs|]. intros runs _ Hr. by apply Forall_singleton. }
  unfold delta_segments. eapply safe_bind; [apply safe_text|]. intros prefix _ _.
  eapply safe_bind; [apply safe_text|]. intros suffix Hs _. eapply safe_bind; [apply safe_field|]. intros added _ _.
  eapply safe_bind; [apply safe_field|]. intros tables_value _ _. destruct (elements tables_value) as [tables|]; [|done].
  rewrite bind_ok. set (n := match elements added with Some items => length items | None => 0%nat end).
  destruct (_ || _) eqn:Hn; [done|]. to_prop.
  eapply safe_bind; [apply safe_field|]. intros prefix_table _ _. eapply safe_bind; [apply safe_read_runs|]. intros prefix_runs _ Hpr.
  eapply safe_bind; [apply message_segments_safe|].
  - intros index len Hin Hle. apply list_elem_of_lookup in Hin as [i Hi]. apply list_lookup_imap_Some in Hi as (x & Hx & [= -> _]).
    apply lookup_lt_Some in Hx. lia.
  - by apply Forall_singleton.
  - intros [at_ segs] _ Hsegs. rewrite (proj2 (Nat.leb_le _ _) (Hsuffix suffix Hs)). cbn [expect]. rewrite bind_ok.
    eapply safe_bind; [apply safe_field|]. intros suffix_table _ _. eapply safe_bind; [apply safe_read_runs|]. intros suffix_runs _ Hsr.
    apply Forall_app. split; [done|]. by apply Forall_singleton.
Qed.
End CheckLemmas.

(** A strictly increasing table is searched by its stored offset. *)
Lemma find_increasing lo hi bs x :
  increasing lo hi bs → x ∈ bs → List.find (fun b => (b.1 =? x.1)%nat) bs = Some x.
Proof.
  intros [_ Hs]. induction Hs as [|y bs Hs IH Hy]; intros Hx; [by apply not_elem_of_nil in Hx|]. simpl.
  apply elem_of_cons in Hx as [->|Hx]; [by rewrite Nat.eqb_refl|].
  pose proof (proj1 (Forall_forall _ _) Hy x Hx) as Hlt. simpl in Hlt. destruct (Nat.eqb_spec y.1 x.1); [lia | by apply IH].
Qed.

(** ** Copies in full *)

(** How many spans cover offset [i]. *)
Definition covering (i : nat) (spans : list (nat * nat)) : nat :=
  length (List.filter (fun s => (s.1 <=? i)%nat && (i <? s.2)%nat) spans).

Lemma covering_perm i l k : l ≡ₚ k → covering i l = covering i k.
Proof.
  unfold covering. induction 1 as [|x l k _ IH|x y l|]; simpl; [done| |..|congruence]; repeat case_match; simpl; congruence.
Qed.

Lemma covering_cons i a b l :
  covering i ((a, b) :: l) = ((if (a <=? i)%nat && (i <? b)%nat then 1 else 0) + covering i l)%nat.
Proof. unfold covering. simpl. by case_match. Qed.

Lemma covering_pos i l : (0 < covering i l)%nat → ∃ s, s ∈ l ∧ (s.1 <= i < s.2)%nat.
Proof.
  induction l as [|[a b] l IH]; [unfold covering; simpl; lia|]. rewrite covering_cons.
  destruct (Nat.leb_spec a i), (Nat.ltb_spec i b); simpl;
    try (intros Hp; destruct (IH Hp) as (s & Hs & Hi); exists s; split; [by right|done]).
  intros _. exists (a, b). split; [left | done].
Qed.

Lemma chain_covers at_ spans e :
  Forall (fun s => s.1 < s.2)%nat spans → chain at_ spans = Some e →
  (at_ <= e)%nat ∧ ∀ i, covering i spans = if decide (at_ <= i < e)%nat then 1%nat else 0%nat.
Proof.
  intros Hs. revert at_. induction Hs as [|[a b] spans Hab Hs IH]; intros at_ Hc; simpl in Hc.
  - injection Hc as ->. split; [done|]. intros i. rewrite decide_False by lia. done.
  - destruct (Nat.eqb_spec a at_) as [->|]; [|done]. apply IH in Hc as [Hbe Hc]. simpl in Hab. split; [lia|].
    intros i. rewrite covering_cons, Hc.
    destruct (Nat.leb_spec at_ i), (Nat.ltb_spec i b); simpl; repeat case_decide; lia.
Qed.

Lemma covers_chain at_ spans e :
  Forall (fun s => s.1 < s.2)%nat spans → StronglySorted (fun x y => x.1 <= y.1)%nat spans → (at_ <= e)%nat →
  (∀ i, covering i spans = if decide (at_ <= i < e)%nat then 1%nat else 0%nat) → chain at_ spans = Some e.
Proof.
  intros Hs. revert at_. induction Hs as [|[a b] spans Hab Hs IH]; intros at_ Hsort Hle Hc; simpl in *.
  - specialize (Hc at_). unfold covering in Hc. simpl in Hc. case_decide; [done|]. f_equal. lia.
  - apply StronglySorted_inv in Hsort as [Hsort Hhead].
    assert (Ha : (at_ <= a < e)%nat).
    { pose proof (Hc a) as Hca. rewrite covering_cons, (proj2 (Nat.leb_le a a)), (proj2 (Nat.ltb_lt a b)) in Hca by lia.
      case_decide; [done | simpl in Hca; lia]. }
    assert (Hat : (a <= at_)%nat).
    { destruct (covering_pos at_ ((a, b) :: spans)) as (s & Hin & Hi); [rewrite Hc, decide_True by lia; lia|].
      apply elem_of_cons in Hin as [->|Hin]; [simpl in Hi; lia|].
      pose proof (proj1 (Forall_forall _ _) Hhead s Hin) as Hge. simpl in Hge. lia. }
    assert (a = at_) as -> by lia. rewrite Nat.eqb_refl.
    assert (Hb : (b <= e)%nat).
    { pose proof (Hc (b - 1)%nat) as Hcb. rewrite covering_cons, (proj2 (Nat.leb_le _ _)), (proj2 (Nat.ltb_lt _ _)) in Hcb by lia.
      case_decide; [lia | simpl in Hcb; lia]. }
    apply IH; [done|done|]. intros i. specialize (Hc i). rewrite covering_cons in Hc.
    destruct (Nat.leb_spec at_ i), (Nat.ltb_spec i b); simpl in Hc; repeat case_decide; lia.
Qed.

Lemma sorted_starts l : StronglySorted (fun x y => x.1 <= y.1)%nat (SpanSort.sort l).
Proof.
  assert (Htrans : Transitive (fun x y => is_true (SpanOrder.leb x y))).
  { intros x y z. unfold is_true, SpanOrder.leb. rewrite !orb_true_iff, !andb_true_iff, !Nat.ltb_lt, !Nat.eqb_eq, !Nat.leb_le. lia. }
  pose proof (SpanSort.StronglySorted_sort l Htrans) as Hs. induction Hs as [|x l' Hs IH Hx]; constructor; [done|].
  eapply Forall_impl; [exact Hx|]. intros y. unfold is_true, SpanOrder.leb.
  rewrite !orb_true_iff, !andb_true_iff, !Nat.ltb_lt, !Nat.eqb_eq. lia.
Qed.

Lemma sort_perm l : SpanSort.sort l ≡ₚ l.
Proof. symmetry. apply SpanSort.Permuted_sort. Qed.

(** Four bytes of "hi!" are "hi\u0021"'s content: an example body whose runs cite
    an operator's task and a compaction draw. *)
#[local] Instance engine_serde : SerdeJson := {|
  sj_value := Value;
  sj_from_str := fun s => match @decode decimal_bigint s small_limits with Ok d => Some (root d) | Err _ => None end;
  sj_pointer := fun v p => get v (drop 1 p);
  sj_get := get;
  sj_as_str := as_str;
|}.
Definition example_body : string := "{'a':'hi\u0021','b':'yo'}".
Definition example_authors : Value := root (decoded
  "{'kind':'full','authors':[{'bytes':6,'author':'harness'},{'bytes':8,'author':'operator','offset':3},{'bytes':7,'author':'harness'},{'bytes':2,'author':'model','source':{'kind':'compaction_draw','id':'d','field':'/text','offset':1}},{'bytes':2,'author':'harness'}]}").
Definition example_outputs : @ModelOutputs engine_serde :=
  {| generations := ∅; draws := {[ lit "d" := {| draw_reasoning := []; draw_text := lit "=yo="; draw_calls := [] |} ]} |}.

(** ** Properties *)

(** C33: [check] never panics, its loops end, and a table it accepts is true.
    Given a body decoded from its stored bytes and, for a delta, a suffix that is
    not longer than the body, every segment is tiled exactly by its runs; every
    run of the world, the operator or the model lies inside one string value,
    starts and ends on character boundaries of it, and what it attributes is
    byte for byte a range of the task or of the named output; and every citation
    it returns names a nonempty range inside an output that exists. *)
Theorem check_sound `{BigIntOps} `{SerdeJson} (body : Value) (json : str) (document : Document) (limits : Limits)
    (messages : list nat) (outputs : ModelOutputs) (operator : OperatorTask) (line : Z) :
  0 <= limit_nodes limits → 0 <= limit_depth limits → decode json limits = Ok document →
  (∀ suffix, text body "suffix" line = Ok suffix → (length suffix <= length json)%nat) →
  safe (check body json document messages outputs operator line) (λ cs,
    ∃ segments strings,
      read_segments body json messages line = Ok segments ∧ string_values document = Ok strings ∧
      Forall (segment_ok json strings outputs operator) segments ∧ Forall (citation_ok outputs) cs).
Proof.
  intros Hn Hd Hdec Hsuffix. pose proof (decoded_in_arena _ _ _ Hn Hd Hdec) as Hroot. unfold check.
  eapply safe_bind; [by apply safe_read_segments|]. intros segments Hsegs Hpos.
  destruct (string_values_ok document Hroot) as (strings & Hstr & _). rewrite Hstr, bind_ok.
  eapply safe_mono; [by apply segments_safe; [|apply Forall_nil_2]|]. intros cs _ [Hall Hcs].
  by exists segments, strings.
Qed.

Lemma check_sound_witness :
  let json := quoted example_body in
  ∃ segments strings cs,
    @check engine_serde example_authors json (decoded example_body) [] example_outputs (lit "Do hi!") 1 = Ok cs ∧
    read_segments example_authors json [] 1 = Ok segments ∧ string_values (decoded example_body) = Ok strings ∧
    Forall (@segment_ok engine_serde json strings example_outputs (lit "Do hi!")) segments ∧
    map (λ c, (from c, to_ c)) cs = [(1%nat, 3%nat)].
Proof.
  intros json.
  assert (E : ∃ cs, @check engine_serde example_authors json (decoded example_body) [] example_outputs (lit "Do hi!") 1 = Ok cs ∧
    map (λ c, (from c, to_ c)) cs = [(1%nat, 3%nat)]) by (eexists; by vm_compute).
  destruct E as (cs & E & Hcs).
  pose proof (@check_sound decimal_bigint engine_serde example_authors json (decoded example_body) small_limits []
    example_outputs (lit "Do hi!") 1 ltac:(done) ltac:(done) ltac:(by vm_compute)) as S.
  rewrite E in S. destruct S as (segments & strings & Hs & Hv & Hok & _).
  - intros suffix Hsuf. exfalso. assert (F : is_ok (text example_authors "suffix" 1) = false) by by vm_compute. by rewrite Hsuf in F.
  - exists segments, strings, cs. exact (conj E (conj Hs (conj Hv (conj Hok Hcs)))).
Defined.

(** [copies_in_full] decides whether the citations of one output copy it
    exactly: with nonempty citations, which [check] guarantees, it holds exactly
    when every byte of the output's text is covered by one citation, no more and
    no less, and no citation reaches past its end. *)
Theorem copies_in_full_exact (cs : list Citation) (kind id name text : str) :
  Forall (λ c, from c < to_ c)%nat cs →
  (copies_in_full cs kind id name text = true ↔
   ∀ i, covering i (spans_of cs kind id name) = if decide (i < length text)%nat then 1%nat else 0%nat).
Proof.
  intros Hcs. set (spans := spans_of cs kind id name).
  assert (Hspans : Forall (fun s => s.1 < s.2)%nat (SpanSort.sort spans)).
  { rewrite sort_perm. apply Forall_map, Forall_forall. intros c Hc. apply list_elem_of_In, filter_In in Hc as [Hc _].
    apply list_elem_of_In in Hc. by apply (proj1 (Forall_forall _ _) Hcs). }
  assert (Hcov : ∀ i, covering i (SpanSort.sort spans) = covering i spans) by (intros; apply covering_perm, sort_perm).
  unfold copies_in_full. fold spans. split.
  - destruct (chain 0 (SpanSort.sort spans)) as [e|] eqn:Hc; [|done]. intros He%Nat.eqb_eq i.
    apply chain_covers in Hc as [_ Hc]; [|done]. rewrite <- Hcov, Hc, He. repeat case_decide; lia.
  - intros Hi. rewrite (covers_chain 0 _ (length text) Hspans (sorted_starts _)); [by rewrite Nat.eqb_refl|lia|].
    intros i. rewrite Hcov, Hi. repeat case_decide; lia.
Qed.

Lemma copies_in_full_exact_witness :
  let cite a b := {| stored := 0; string_start := 0; place := 0; cite_kind := lit "generation"; cite_id := lit "g";
                     cite_field := lit "/text"; from := a; to_ := b |} in
  copies_in_full [cite 2%nat 5%nat; cite 0%nat 2%nat] (lit "generation") (lit "g") (lit "/text") (lit "hello") = true ∧
  covering 4 (spans_of [cite 2%nat 5%nat; cite 0%nat 2%nat] (lit "generation") (lit "g") (lit "/text")) = 1%nat.
Proof.
  intros cite. assert (E : copies_in_full [cite 2%nat 5%nat; cite 0%nat 2%nat] (lit "generation") (lit "g") (lit "/text") (lit "hello") = true)
    by by vm_compute.
  split; [exact E|].
  apply (proj1 (copies_in_full_exact [cite 2%nat 5%nat; cite 0%nat 2%nat] (lit "generation") (lit "g") (lit "/text") (lit "hello")
    ltac:(repeat constructor; simpl; lia)) E).
Defined.

(** The two readers of a JSON string agree.  Where the document's parser
    reads a string token of valid UTF-8 from the quote at [at_], the authorship
    reader decodes the token's content to the same text; its boundaries increase
    strictly, each is found at the decoded offset it was recorded with, and the
    content starts at decoded offset 0 and ends at the text's length. *)
Theorem string_read_agrees (source : str) (at_ e : nat) (s : str) :
  Valid (drop at_ source) → source !! at_ = Some 34 → parse_string source at_ = Ok (s, e) →
  ∃ sv, string_read source (S at_) (e - 1) = Ok sv ∧ decoded_text sv = s ∧
    increasing (S at_) (e - 1) (boundaries sv) ∧
    (∀ b, b ∈ boundaries sv → decoded_offset sv b.1 = Some b.2) ∧
    decoded_offset sv (S at_) = Some 0%nat ∧ decoded_offset sv (e - 1) = Some (length s).
Proof.
  intros Hv Hq Hp. destruct (text_step source at_ 34 Hq ltac:(done) Hv) as [Hle Hv'].
  pose proof (parse_string_safe source at_ Hq Hv) as Hsafe. rewrite Hp in Hsafe. destruct Hsafe as ([Hge Hlen] & _).
  destruct (loop_agrees _ _ (S at_) _ _ _ _ Hp Hv' Hle (le_n _) ltac:(lia) ltac:(constructor)
    (S (length (slice (S at_) (e - 1) source))) []) as (more & Hread & Hinc & Hhead & Hend).
  { rewrite slice_length by lia. lia. }
  assert (Hfound : ∀ b, b ∈ more → decoded_offset {| boundaries := more; decoded_text := s |} b.1 = Some b.2).
  { intros b Hb. unfold decoded_offset. cbn [boundaries]. by rewrite (find_increasing _ _ _ b Hinc Hb). }
  eexists. split; [unfold string_read; rewrite Nat.sub_diag in Hread; exact Hread|]. cbn [decoded_text boundaries app].
  split; [done|]. split; [done|]. split; [exact Hfound|]. split.
  - destruct more as [|x more]; [done|]. injection Hhead as ->. apply (Hfound (S at_, 0%nat)). left.
  - apply last_Some in Hend as [l ->]. apply (Hfound ((e - 1)%nat, length s)). apply elem_of_app. right. by left.
Qed.

Lemma string_read_agrees_witness :
  let source := quoted "'h\u00e9\ud83d\ude00'" in
  parse_string source 0 = Ok (lit "hé😀", 21%nat) ∧ ∃ sv, string_read source 1 20 = Ok sv ∧ decoded_text sv = lit "hé😀".
Proof.
  intros source. assert (E : parse_string source 0 = Ok (lit "hé😀", 21%nat)) by by vm_compute. split; [exact E|].
  destruct (string_read_agrees source 0 21 (lit "hé😀")) as (sv & Hr & Hs & _); [|done|exact E|by exists sv].
  apply from_utf8_Valid. by vm_compute.
Defined.

(** The refusal of a leading zero keeps one spelling per index, but a plus sign
    is a second spelling that the integer parser admits. *)
Lemma call_field_plus : call_field (lit "/calls/+1/name") = call_field (lit "/calls/1/name") ∧
  call_field (lit "/calls/01/name") = None.
Proof. by split; vm_compute. Qed.
