(* ===== verification/ServiceError.v ===== *)
(** * ServiceError: what the service answers when it refuses (src/error.rs)

    The error type of the service, its HTTP status, its wire envelope and the
    classification of a contract error of the protocol engine. *)
From S2P Require Import Prelude Number Utf8 BTree Json JsonTree Schema Stream.

Inductive ServiceError :=
| InvalidRequest (message : str)
| EndpointNotFound (message : str)
| MethodNotAllowed (message : str)
| PayloadTooLarge (message : str)
| UnsupportedMediaType (message : str)
| NotFound (session_id : str)
| IdempotencyConflict (session_id detail : str)
| AcceptanceDurabilityFailed (session_id detail : str)
| CancellationDurabilityFailed (session_id detail : str)
| SessionFinalizing (session_id : str)
| SessionRunning (session_id : str)
| BundleAbsent (session_id : str)
| SessionDeleting (session_id : str)
| ServiceShuttingDown
| SourceChanged (message : str)
| DockerUnavailable (message : str)
| DockerCommand (message : str)
| Staging (message : str)
| Timeout (message : str)
| AgentOutputMissing (message : str)
| AgentRecordRefused (message : str)
| Internal (message : str).

Global Instance ServiceError_eq_dec : EqDecision ServiceError.
Proof. solve_decision. Defined.

(** [ServiceResult], of code that does not panic. *)
Abbreviation service A := (result ServiceError A).
Definition internal {A} (detail : string) : service A := Err (Internal (lit detail)).
Definition invalid_request {A} (detail : string) : service A := Err (InvalidRequest (lit detail)).

(** [From<ContractError> for ServiceError] *)
Definition from_contract (e : ContractError) : ServiceError :=
  match e with
  | InvalidRecord cause => AgentRecordRefused cause
  | InvalidDefinitionOf cause | InvalidConfiguration cause => Internal cause
  | ValidationUnavailable cause => Internal (lit "contract validation unavailable: " ++ cause)
  end.

Definition http_status (e : ServiceError) : Z :=
  match e with
  | InvalidRequest _ => 400
  | EndpointNotFound _ => 404
  | MethodNotAllowed _ => 405
  | PayloadTooLarge _ => 413
  | UnsupportedMediaType _ => 415
  | NotFound _ | BundleAbsent _ => 404
  | IdempotencyConflict _ _ | SessionFinalizing _ | SessionRunning _ | SessionDeleting _ | SourceChanged _ => 409
  | DockerUnavailable _ => 503
  | ServiceShuttingDown => 503
  | DockerCommand _ | AgentOutputMissing _ | AgentRecordRefused _ => 502
  | Staging _ | AcceptanceDurabilityFailed _ _ | CancellationDurabilityFailed _ _ | Internal _ => 500
  | Timeout _ => 504
  end.

Definition kind_str (e : ServiceError) : string :=
  match e with
  | InvalidRequest _ => "invalid_request"
  | EndpointNotFound _ => "endpoint_not_found"
  | MethodNotAllowed _ => "method_not_allowed"
  | PayloadTooLarge _ => "payload_too_large"
  | UnsupportedMediaType _ => "unsupported_media_type"
  | NotFound _ => "not_found"
  | IdempotencyConflict _ _ => "idempotency_conflict"
  | AcceptanceDurabilityFailed _ _ => "acceptance_durability_failed"
  | CancellationDurabilityFailed _ _ => "cancellation_durability_failed"
  | SessionFinalizing _ => "session_finalizing"
  | SessionRunning _ => "session_running"
  | BundleAbsent _ => "bundle_absent"
  | SessionDeleting _ => "session_deleting"
  | ServiceShuttingDown => "service_shutting_down"
  | SourceChanged _ => "source_changed"
  | DockerUnavailable _ => "docker_unavailable"
  | DockerCommand _ => "docker_command_failed"
  | Staging _ => "staging_failed"
  | Timeout _ => "timeout"
  | AgentOutputMissing _ => "agent_output_missing"
  | AgentRecordRefused _ => "agent_record_refused"
  | Internal _ => "internal"
  end.

Definition message (e : ServiceError) : str :=
  match e with
  | InvalidRequest m | EndpointNotFound m | MethodNotAllowed m | PayloadTooLarge m | UnsupportedMediaType m | SourceChanged m
  | DockerUnavailable m | DockerCommand m | Staging m | Timeout m | AgentOutputMissing m | AgentRecordRefused m | Internal m => m
  | NotFound id => lit "session " ++ id ++ lit " is not known to this server — it was never durably accepted or its terminal resource was explicitly DELETE'd; service restarts recover every accepted handle into an explicit terminal result before listening"
  | IdempotencyConflict _ detail | AcceptanceDurabilityFailed _ detail | CancellationDurabilityFailed _ detail => detail
  | SessionFinalizing id => lit "session " ++ id ++ lit " has already selected its terminal outcome and is durably publishing evidence; cancellation cannot retroactively change it — issue an ordinary GET for the same resource later"
  | SessionRunning id => lit "session " ++ id ++ lit " is still running; DELETE and bundle downloads apply only to terminal sessions — POST /v1/agent/sessions/" ++ id ++ lit "/cancel or wait for the terminal state, then repeat the same request"
  | BundleAbsent id => lit "terminal session " ++ id ++ lit " accepted no result bundle, and none can appear later; its terminal record and any retained raw evidence are the only artifacts"
  | SessionDeleting id => lit "session " ++ id ++ lit " has a durable deletion intent and cleanup is incomplete; repeat DELETE for the same resource to resume exact cleanup"
  | ServiceShuttingDown => lit "the service is gracefully shutting down: new lifecycle mutations are closed while every already accepted mutation and active session is drained"
  end.

(** [Display for ServiceError] *)
Definition display_error (e : ServiceError) : str := lit (kind_str e) ++ lit ": " ++ message e.

Definition session_id_of (e : ServiceError) : str :=
  match e with
  | NotFound id | BundleAbsent id | SessionRunning id | SessionDeleting id | SessionFinalizing id
  | AcceptanceDurabilityFailed id _ | CancellationDurabilityFailed id _ | IdempotencyConflict id _ => id
  | _ => []
  end.
