(* ===== verification/Disk.v ===== *)
(** * Disk: the operating system's files as the service uses them

    The service keeps its durable files one directory per session.  This is a model
    of the part of [std::fs] those files go through: a directory of names, inodes
    with their contents, the barriers ([sync_all] of a file and of the directory)
    and what a crash may leave behind.  Every call can fail, as the next entry of
    the world's fault list says, and every change of the disk is logged, so that
    a theorem can quantify over a crash at each point of an operation. *)
From S2P Require Import Prelude.

Inductive FileType := Regular | Symlink | OtherType.
Global Instance FileType_eq_dec : EqDecision FileType.
Proof. solve_decision. Defined.

Record Inode := {
  file_type : FileType; mode : Z; uid : Z; gid : Z;
  contents : str;
  file_synced : bool; (* the contents have reached the disk *)
  reach : nat; (* the greatest length since they last did *)
}.

(** [unsynced]: the states the directory had since its last barrier. *)
Record Disk := {
  names : gmap str nat; inodes : gmap nat Inode; next_inode : nat;
  unsynced : list (gmap str nat);
}.

Inductive IoError := NotFoundError | AlreadyExistsError | OtherError.

(** What the next call meets; a failing write has already written a prefix. *)
Inductive Fault := Succeeds | Fails (written : nat).

Record World := { disk : Disk; faults : list Fault; clock : list Z; log : list Disk }.

(** The identity the service runs under. *)
Class Process := { euid : Z; egid : Z }.

Definition io (E A : Type) : Type := World → result E A * World.

Global Instance io_ret {E} : MRet (io E) := fun A a w => (Ok a, w).
Global Instance io_bind {E} : MBind (io E) := fun A B f m w =>
  match m w with (Ok a, w) => f a w | (Err e, w) => (Err e, w) end.

Definition io_map_err {E F A} (f : E → F) (m : io E A) : io F A := fun w =>
  match m w with (Ok a, w) => (Ok a, w) | (Err e, w) => (Err (f e), w) end.
(** A pure step that can refuse. *)
Definition pure {E A} (r : result E A) : io E A := fun w => (r, w).

Definition next_fault (w : World) : Fault * World :=
  match faults w with
  | [] => (Succeeds, w)
  | f :: fs => (f, {| disk := disk w; faults := fs; clock := clock w; log := log w |})
  end.
Definition set_disk (d : Disk) (w : World) : World :=
  {| disk := d; faults := faults w; clock := clock w; log := log w ++ [d] |}.

(** A call that meets no fault. *)
Definition unfaulted {A} (m : io IoError A) : io IoError A := fun w =>
  match next_fault w with
  | (Succeeds, w) => m w
  | (Fails _, w) => (Err OtherError, w)
  end.

Definition set_names (ns : gmap str nat) (d : Disk) : Disk :=
  {| names := ns; inodes := inodes d; next_inode := next_inode d; unsynced := names d :: unsynced d |}.
Definition set_inode (i : nat) (f : Inode) (d : Disk) : Disk :=
  {| names := names d; inodes := <[i := f]> (inodes d); next_inode := next_inode d; unsynced := unsynced d |}.

Definition lookup_name (name : str) (d : Disk) : option Inode := names d !! name ≫= fun i => inodes d !! i.

(** [std::fs::symlink_metadata]: the file itself, links not followed. *)
Definition symlink_metadata (name : str) : io IoError Inode :=
  unfaulted (fun w => (ok_or (lookup_name name (disk w)) NotFoundError, w)).

(** The same with the file's number: [MetadataExt::ino]. *)
Definition symlink_inode (name : str) : io IoError (nat * Inode) :=
  unfaulted (fun w => (ok_or (names (disk w) !! name ≫= fun i => pair i <$> inodes (disk w) !! i) NotFoundError, w)).

Section Calls.
Context `{Process}.

(** [OpenOptions::new().write(true).create_new(true).mode(m).open(name)] *)
Definition create_new (name : str) (m : Z) : io IoError nat :=
  unfaulted (fun w =>
    let d := disk w in
    match names d !! name with
    | Some _ => (Err AlreadyExistsError, w)
    | None =>
        let i := next_inode d in
        let f := {| file_type := Regular; mode := m; uid := euid; gid := egid; contents := []; file_synced := false; reach := 0 |} in
        let d := {| names := <[name := i]> (names d); inodes := <[i := f]> (inodes d); next_inode := S i;
                    unsynced := names d :: unsynced d |} in
        (Ok i, set_disk d w)
    end).
End Calls.

Definition set_contents (bytes : str) (synced : bool) (f : Inode) : Inode :=
  {| file_type := file_type f; mode := mode f; uid := uid f; gid := gid f; contents := bytes; file_synced := synced;
     reach := if synced then length bytes else Nat.max (reach f) (length bytes) |}.

(** Open files are named by their inode. *)
Definition write_all (i : nat) (bytes : str) : io IoError unit := fun w =>
  let '(fault, w) := next_fault w in
  match inodes (disk w) !! i with
  | None => (Err OtherError, w)
  | Some f =>
      match fault with
      | Succeeds => (Ok tt, set_disk (set_inode i (set_contents (contents f ++ bytes) false f) (disk w)) w)
      | Fails n => (Err OtherError, set_disk (set_inode i (set_contents (contents f ++ take n bytes) false f) (disk w)) w)
      end
  end.

Definition sync_all (i : nat) : io IoError unit :=
  unfaulted (fun w =>
    match inodes (disk w) !! i with
    | None => (Err OtherError, w)
    | Some f => (Ok tt, set_disk (set_inode i (set_contents (contents f) true f) (disk w)) w)
    end).

(** [std::fs::hard_link]: a second name for the file, none taken over. *)
Definition hard_link (old new : str) : io IoError unit :=
  unfaulted (fun w =>
    match names (disk w) !! old, names (disk w) !! new with
    | None, _ => (Err NotFoundError, w)
    | Some _, Some _ => (Err AlreadyExistsError, w)
    | Some i, None => (Ok tt, set_disk (set_names (<[new := i]> (names (disk w))) (disk w)) w)
    end).

(** [File::set_len(0)] *)
Definition truncate (i : nat) : io IoError unit :=
  unfaulted (fun w =>
    match inodes (disk w) !! i with
    | None => (Err OtherError, w)
    | Some f => (Ok tt, set_disk (set_inode i (set_contents [] false f) (disk w)) w)
    end).

Definition rename (old new : str) : io IoError unit :=
  unfaulted (fun w =>
    match names (disk w) !! old with
    | None => (Err NotFoundError, w)
    | Some i => (Ok tt, set_disk (set_names (<[new := i]> (delete old (names (disk w)))) (disk w)) w)
    end).

Definition remove_file (name : str) : io IoError unit :=
  unfaulted (fun w =>
    match names (disk w) !! name with
    | None => (Err NotFoundError, w)
    | Some _ => (Ok tt, set_disk (set_names (delete name (names (disk w))) (disk w)) w)
    end).

(** [File::open(directory).and_then(|d| d.sync_all())] *)
Definition sync_dir : io IoError unit :=
  unfaulted (fun w =>
    let d := disk w in
    (Ok tt, set_disk {| names := names d; inodes := inodes d; next_inode := next_inode d; unsynced := [] |} w)).

(** [open] with [O_NOFOLLOW]: a symbolic link is not opened. *)
Definition open_nofollow (name : str) : io IoError nat :=
  unfaulted (fun w =>
    match names (disk w) !! name with
    | None => (Err NotFoundError, w)
    | Some i =>
        match inodes (disk w) !! i with
        | Some f => if decide (file_type f = Symlink) then (Err OtherError, w) else (Ok i, w)
        | None => (Err NotFoundError, w)
        end
    end).

Definition fstat (i : nat) : io IoError Inode :=
  unfaulted (fun w => (ok_or (inodes (disk w) !! i) OtherError, w)).
Definition read_to_end (i : nat) : io IoError str :=
  unfaulted (fun w => (ok_or (contents <$> inodes (disk w) !! i) OtherError, w)).

(** The system clock, in milliseconds since the epoch: negative before it. *)
Definition read_clock (w : World) : Z * World :=
  match clock w with
  | [] => (0, w)
  | t :: ts => (t, {| disk := disk w; faults := faults w; clock := ts; log := log w |})
  end.

(** ** Crashes

    After a crash the directory is in one of the states it had since its last
    barrier.  Synced contents are kept; unsynced contents may be torn in any way
    within the greatest length they had. *)
Definition survives (f f' : Inode) : Prop :=
  file_type f' = file_type f ∧ mode f' = mode f ∧ uid f' = uid f ∧ gid f' = gid f ∧
  (if file_synced f then contents f' = contents f else (length (contents f') <= reach f)%nat) ∧
  file_synced f' = true ∧ reach f' = length (contents f').

Definition crash (d d' : Disk) : Prop :=
  names d' ∈ names d :: unsynced d ∧ unsynced d' = [] ∧ next_inode d' = next_inode d ∧
  ∀ i, match inodes d !! i, inodes d' !! i with
       | Some f, Some f' => survives f f'
       | None, None => True
       | _, _ => False
       end.

(** A world that starts from a disk and meets no fault. *)
Definition calm (d : Disk) (ts : list Z) : World := {| disk := d; faults := []; clock := ts; log := [] |}.

Lemma crash_inode d d' i f : crash d d' → inodes d !! i = Some f → ∃ f', inodes d' !! i = Some f' ∧ survives f f'.
Proof. intros (_ & _ & _ & Hi) Hf. specialize (Hi i). rewrite Hf in Hi. destruct (inodes d' !! i); [eauto | done]. Qed.

(** The world left by a call with its fault taken. *)
Lemma next_fault_world w f w' : next_fault w = (f, w') → disk w' = disk w ∧ log w' = log w ∧ clock w' = clock w.
Proof. unfold next_fault. destruct (faults w); by intros [= <- <-]. Qed.
