(* ===== verification/Progress.v ===== *)
(** * Progress: the durable history of a session (src/progress.rs)

    A reporter publishes lifecycle observations by replacing one complete snapshot
    atomically.  The model runs the whole publication on [Disk], with a fault
    possible at every call; serde_json's encoding of the snapshot is the class
    [ProgressCodec].  [publish] keeps the snapshot, the reporter's memory and what
    a crash recovers in step. *)
From S2P Require Import Prelude Number Utf8 BTree Json JsonTree Schema Stream ServiceError Disk.

Definition MAX_PROGRESS_EVENTS : nat := 4096.
Definition MAX_PROGRESS_MESSAGE_BYTES : nat := 4096.
Definition PROGRESS_SCHEMA_VERSION : Z := 2.
Definition MAX_PROGRESS_DOCUMENT_BYTES : Z :=
  Z.of_nat MAX_PROGRESS_EVENTS * (Z.of_nat MAX_PROGRESS_MESSAGE_BYTES + 1024) + 65536.

Inductive ProgressPhase :=
| Accepted | StagingPhase | PreparingAgent | CreatingTopology | AwaitingReadiness | RunningAgent | Cancelling
| CapturingOutput | TearingDown | Bundling | PersistingTerminal | Terminal.
Global Instance ProgressPhase_eq_dec : EqDecision ProgressPhase.
Proof. solve_decision. Defined.

Record ProgressCounters := {
  staged_bytes : Z; staged_entries : Z; staged_regular_files : Z; output_event_bytes : Z; physical_requests : Z;
}.
Record ProgressEvent := {
  revision : Z; at_unix_ms : Z; phase : ProgressPhase; message : str; counters : ProgressCounters;
}.
Record ProgressDocument := { schema_version : Z; session_id : str; doc_events : list ProgressEvent }.
Record ProgressState := { events : list ProgressEvent; durable_failed : bool }.

Inductive ReplacementOutcome := Durable | PublishedWithDurabilityError (error : ServiceError).

(** A path: its directory, when it has one, and its file name. *)
Record FilePath := { parent : option str; file_name : str }.
Record Reporter := { reporter_session : str; reporter_path : FilePath }.

(** [serde_json::to_vec_pretty] and [from_slice] at the snapshot's type. *)
Class ProgressCodec := {
  to_vec_pretty : ProgressDocument → str;
  from_slice : str → option ProgressDocument;
}.
(** What the snapshot is read with is what it was written with; JSON ignores the
    final newline. *)
Class ProgressCodecLaws `{ProgressCodec} := {
  from_slice_pretty : ∀ d, from_slice (to_vec_pretty d ++ [10]) = Some d;
}.

Definition default_counters : ProgressCounters :=
  {| staged_bytes := 0; staged_entries := 0; staged_regular_files := 0; output_event_bytes := 0; physical_requests := 0 |}.

(** ** Validation *)
Definition validate_message (message : str) : service unit :=
  if (length message =? 0)%nat || (MAX_PROGRESS_MESSAGE_BYTES <? length message)%nat
  then internal "progress message must contain 1..=4096 UTF-8 bytes" else Ok tt.

Definition regress_step (_ : unit) (pair : Z * Z) : service unit :=
  if pair.2 <? pair.1 then internal "progress counter regressed" else Ok tt.
Definition require_monotonic_counters (previous next : ProgressCounters) : service unit :=
  fold_result regress_step tt
    [(staged_bytes previous, staged_bytes next); (staged_entries previous, staged_entries next);
     (staged_regular_files previous, staged_regular_files next);
     (output_event_bytes previous, output_event_bytes next);
     (physical_requests previous, physical_requests next)].

Definition event_step (doc : ProgressDocument) (_ : unit) (entry : nat * ProgressEvent) : service unit :=
  let '(index, event) := entry in
  expected ← ok_or (checked_add (Z.of_nat index) 1) (Internal (lit "progress revision overflowed u64"));
  if negb (revision event =? expected) then internal "progress snapshot has an unexpected revision"
  else
    _ ← validate_message (message event);
    match (match index with O => None | S previous => doc_events doc !! previous end) with
    | None => Ok tt
    | Some previous =>
        if at_unix_ms event <? at_unix_ms previous
        then internal "progress snapshot has a backwards timestamp"
        else require_monotonic_counters (counters previous) (counters event)
    end.

Definition validate_document (doc : ProgressDocument) (id : str) : service unit :=
  if negb (schema_version doc =? PROGRESS_SCHEMA_VERSION) || bool_decide (session_id doc ≠ id)
  then internal "progress snapshot identity/schema drift"
  else if (length (doc_events doc) =? 0)%nat || (MAX_PROGRESS_EVENTS <? length (doc_events doc))%nat
  then internal "progress snapshot must contain 1..=4096 events"
  else
    _ ← fold_result (event_step doc) tt (imap pair (doc_events doc));
    match doc_events doc with
    | event :: _ => if decide (phase event = Accepted) then Ok tt
                    else internal "progress snapshot does not begin with the accepted phase"
    | [] => Ok tt
    end.

(** ** Files *)
Definition next_path (p : FilePath) : FilePath := {| parent := parent p; file_name := lit "progress.json.next" |}.

(** [unix_now_ms]: zero before the epoch, saturating at [u64::MAX]. *)
Definition unix_now_ms (w : World) : Z * World :=
  let '(t, w) := read_clock w in (if t <? 0 then 0 else Z.min t U64_MAX, w).

Definition failing {A} (context : string) (m : io IoError A) : io ServiceError A :=
  io_map_err (fun _ => Internal (lit context)) m.

Section Files.
Context `{Process} `{ProgressCodec}.

Definition encode_document (doc : ProgressDocument) : service str :=
  _ ← validate_document doc (session_id doc);
  Ok (to_vec_pretty doc ++ [10]).

Definition validate_private_metadata (metadata : Inode) : service unit :=
  if bool_decide (file_type metadata ≠ Regular) || bool_decide (file_type metadata = Symlink)
     || negb (Z.land (mode metadata) 511 =? 384)
     || negb (uid metadata =? euid) || negb (gid metadata =? egid)
     || (MAX_PROGRESS_DOCUMENT_BYTES <? Z.of_nat (length (contents metadata)))
  then internal "unsafe type/mode/owner/size" else Ok tt.

Definition validate_private_file (p : FilePath) : io ServiceError unit :=
  metadata ← failing "stat" (symlink_metadata (file_name p));
  pure (validate_private_metadata metadata).

Definition read_private_bytes (p : FilePath) : io ServiceError str :=
  file ← failing "open without following links" (open_nofollow (file_name p));
  metadata ← failing "fstat" (fstat file);
  _ ← pure (validate_private_metadata metadata);
  bytes ← failing "read" (read_to_end file);
  if negb (length bytes =? length (contents metadata))%nat
  then pure (internal "changed length while open") else mret bytes.

Definition read_progress_events (p : FilePath) (id : str) : io ServiceError (list ProgressEvent) :=
  bytes ← read_private_bytes p;
  doc ← pure (ok_or (from_slice bytes) (Internal (lit "durable progress snapshot is malformed")));
  _ ← pure (validate_document doc id);
  mret (doc_events doc).

Definition sync_directory (context : string) : io ServiceError unit := failing context sync_dir.

Definition write_initial (p : FilePath) (doc : ProgressDocument) : io ServiceError unit :=
  match parent p with
  | None => pure (internal "progress path has no parent directory")
  | Some _ =>
      bytes ← pure (encode_document doc);
      file ← failing "create initial progress snapshot" (create_new (file_name p) 384);
      _ ← failing "write/sync initial progress snapshot" (_ ← write_all file bytes; sync_all file);
      sync_directory "sync initial progress snapshot"
  end.

(** The closure of [replace_atomically]: its result and its [created] flag. *)
Definition precommit (p next : FilePath) (bytes : str) (w : World) : service unit * bool * World :=
  match failing "create unpublished progress replacement" (create_new (file_name next) 384) w with
  | (Err e, w) => (Err e, false, w)
  | (Ok file, w) =>
      match failing "write/sync unpublished progress replacement" (_ ← write_all file bytes; sync_all file) w with
      | (Err e, w) => (Err e, true, w)
      | (Ok _, w) =>
          match failing "atomically publish progress replacement" (rename (file_name next) (file_name p)) w with
          | (Err e, w) => (Err e, true, w)
          | (Ok _, w) => (Ok tt, false, w)
          end
      end
  end.

(** Rolling back an unpublished replacement; the transaction's error is kept. *)
Definition rollback (next : FilePath) (error : ServiceError) : io ServiceError ReplacementOutcome := fun w =>
  let '(removed, w) := remove_file (file_name next) w in
  match removed with
  | Err AlreadyExistsError | Err OtherError =>
      (internal "cleanup of unpublished progress replacement also failed", w)
  | Ok _ | Err NotFoundError =>
      let '(synced, w) := sync_directory "sync unpublished progress rollback" w in
      match synced with
      | Err _ => (internal "durable cleanup of unpublished progress replacement also failed", w)
      | Ok _ => (Err error, w)
      end
  end.

Definition retry_barrier : io ServiceError ReplacementOutcome := fun w =>
  match sync_directory "retry progress replacement publication barrier" w with
  | (Ok _, w) => (Ok Durable, w)
  | (Err _, w) => (Ok (PublishedWithDurabilityError (Internal (lit "both directory durability barriers failed"))), w)
  end.

(** What follows the rename: the rename already committed visibility, so the
    exact bytes are verified and the barrier retried once. *)
Definition published (p : FilePath) (bytes : str) : io ServiceError ReplacementOutcome := fun w =>
  match sync_directory "sync progress replacement publication" w with
  | (Ok _, w) => (Ok Durable, w)
  | (Err _, w) =>
      (observed ← read_private_bytes p;
       if bool_decide (observed ≠ bytes)
       then pure (internal "the visible progress replacement differs from the exact transaction bytes")
       else retry_barrier) w
  end.

Definition require_unpublished (next : FilePath) : io ServiceError unit := fun w =>
  match symlink_metadata (file_name next) w with
  | (Err NotFoundError, w) => (Ok tt, w)
  | (Ok _, w) => (internal "unpublished progress replacement already exists", w)
  | (Err _, w) => (internal "stat unpublished progress replacement", w)
  end.

Definition commit (p next : FilePath) (bytes : str) : io ServiceError ReplacementOutcome := fun w =>
  match precommit p next bytes w with
  | (Ok _, _, w) => published p bytes w
  | (Err error, true, w) => rollback next error w
  | (Err error, false, w) => (Err error, w)
  end.

Definition replace_atomically (p : FilePath) (doc : ProgressDocument) : io ServiceError ReplacementOutcome :=
  match parent p with
  | None => pure (internal "progress path has no parent directory")
  | Some _ =>
      _ ← validate_private_file p;
      _ ← require_unpublished (next_path p);
      bytes ← pure (encode_document doc);
      commit p (next_path p) bytes
  end.

Definition reconcile_unpublished_replacement (p : FilePath) (id : str) : io ServiceError unit := fun w =>
  let next := next_path p in
  match symlink_metadata (file_name next) w with
  | (Err NotFoundError, w) => (_ ← read_progress_events p id; mret tt) w
  | (Err _, w) => (internal "stat unpublished progress replacement", w)
  | (Ok metadata, w) =>
      (_ ← pure (validate_private_metadata metadata);
       _ ← read_progress_events p id;
       _ ← failing "remove unpublished progress replacement" (remove_file (file_name next));
       sync_directory "sync unpublished progress cleanup") w
  end.

(** ** The reporter *)
Definition current_time : io ServiceError Z := fun w => let '(t, w) := unix_now_ms w in (Ok t, w).

Definition create (p : FilePath) (id message : str) : io ServiceError (Reporter * ProgressState) :=
  _ ← pure (validate_message message);
  now ← current_time;
  let initial := {| revision := 1; at_unix_ms := now; phase := Accepted; message := message; counters := default_counters |} in
  _ ← write_initial p {| schema_version := PROGRESS_SCHEMA_VERSION; session_id := id; doc_events := [initial] |};
  mret ({| reporter_session := id; reporter_path := p |}, {| events := [initial]; durable_failed := false |}).

Definition open (p : FilePath) (id : str) : io ServiceError (Reporter * ProgressState) :=
  _ ← reconcile_unpublished_replacement p id;
  events ← read_progress_events p id;
  mret ({| reporter_session := id; reporter_path := p |}, {| events := events; durable_failed := false |}).

(** The event [publish] would add, or why it does not start a replacement: a
    refusal, and whether it also fails the reporter. *)
Definition next_event (st : ProgressState) (phase_ : ProgressPhase) (message_ : str) (counters_ : ProgressCounters)
    (now : Z) : result (ServiceError * bool) ProgressEvent :=
  _ ← map_err (fun e => (e, false)) (validate_message message_);
  if durable_failed st then Err (Internal (lit "durable progress snapshot had already failed"), false)
  else if (MAX_PROGRESS_EVENTS <=? length (events st))%nat
  then Err (Internal (lit "session progress exceeded the exact 4096-event bound"), true)
  else
    previous ← ok_or (last (events st)) (Internal (lit "progress snapshot has no initial accepted event"), false);
    _ ← map_err (fun e => (e, false)) (require_monotonic_counters (counters previous) counters_);
    revision_ ← ok_or (checked_add (revision previous) 1) (Internal (lit "progress revision overflowed u64"), false);
    Ok {| revision := revision_; at_unix_ms := Z.max now (at_unix_ms previous); phase := phase_;
          message := message_; counters := counters_ |}.

(** [publish], holding the state's lock throughout. *)
Definition publish (r : Reporter) (st : ProgressState) (phase_ : ProgressPhase) (message_ : str)
    (counters_ : ProgressCounters) (w : World) : service ProgressEvent * ProgressState * World :=
  let fail_ st := {| events := events st; durable_failed := true |} in
  let '(now, w') := unix_now_ms w in
  match next_event st phase_ message_ counters_ now with
  | Err (e, failed) => (Err e, (if failed : bool then fail_ st else st), w)
  | Ok event =>
      let replacement := events st ++ [event] in
      let doc := {| schema_version := PROGRESS_SCHEMA_VERSION; session_id := reporter_session r; doc_events := replacement |} in
      match replace_atomically (reporter_path r) doc w' with
      | (Ok Durable, w) => (Ok event, {| events := replacement; durable_failed := durable_failed st |}, w)
      | (Ok (PublishedWithDurabilityError error), w) => (Err error, {| events := replacement; durable_failed := true |}, w)
      | (Err error, w) => (Err error, fail_ st, w)
      end
  end.

Definition latest (st : ProgressState) : service ProgressEvent :=
  ok_or (last (events st)) (Internal (lit "progress snapshot has no initial event")).
End Files.

(** ** What a snapshot is *)
Definition counters_le (a b : ProgressCounters) : Prop :=
  staged_bytes a <= staged_bytes b ∧ staged_entries a <= staged_entries b ∧
  staged_regular_files a <= staged_regular_files b ∧ output_event_bytes a <= output_event_bytes b ∧
  physical_requests a <= physical_requests b.

(** One history: bounded, numbered from one without a gap, its clock and its
    counters never going back, starting with acceptance. *)
Record history_ok (evs : list ProgressEvent) : Prop := {
  history_bounded : (length evs <= MAX_PROGRESS_EVENTS)%nat;
  history_accepted : ∃ e rest, evs = e :: rest ∧ phase e = Accepted;
  history_entries : ∀ i e, evs !! i = Some e →
    revision e = Z.of_nat i + 1 ∧ (0 < length (message e) <= MAX_PROGRESS_MESSAGE_BYTES)%nat;
  history_forward : ∀ i a b, evs !! i = Some a → evs !! S i = Some b →
    at_unix_ms a <= at_unix_ms b ∧ counters_le (counters a) (counters b);
}.

Lemma validate_message_ok m : validate_message m = Ok tt ↔ (0 < length m <= MAX_PROGRESS_MESSAGE_BYTES)%nat.
Proof.
  unfold validate_message. destruct (Nat.eqb_spec (length m) 0), (Nat.ltb_spec MAX_PROGRESS_MESSAGE_BYTES (length m));
    simpl; split; try done; lia.
Qed.

Lemma require_monotonic_ok a b : require_monotonic_counters a b = Ok tt ↔ counters_le a b.
Proof.
  unfold require_monotonic_counters. rewrite fold_result_unit, !Forall_cons. unfold counters_le, regress_step. simpl.
  repeat match goal with |- context [?x <? ?y] => destruct (Z.ltb_spec x y) end;
    (split; [intros (?&?&?&?&?&_); done || lia | intros (?&?&?&?&?); try lia; by split_and!]).
Qed.

Lemma event_step_ok doc i e :
  (i <= MAX_PROGRESS_EVENTS)%nat →
  event_step doc tt (i, e) = Ok tt ↔
  revision e = Z.of_nat i + 1 ∧ (0 < length (message e) <= MAX_PROGRESS_MESSAGE_BYTES)%nat ∧
  ∀ j a, i = S j → doc_events doc !! j = Some a → at_unix_ms a <= at_unix_ms e ∧ counters_le (counters a) (counters e).
Proof.
  intros Hi. unfold event_step. assert (Hadd : checked_add (Z.of_nat i) 1 = Some (Z.of_nat i + 1)).
  { apply checked_add_Some. unfold MAX_PROGRESS_EVENTS, U64_MAX in *. split; [done|]. lia. }
  rewrite Hadd. cbn [ok_or]. rewrite bind_ok. destruct (Z.eqb_spec (revision e) (Z.of_nat i + 1)) as [Hr|Hr]; cbn [negb]; [|split; [done | by intros [? _]]].
  rewrite <- validate_message_ok. destruct (validate_message (message e)) as [[]|]; [|split; [done | by intros (_ & ? & _)]].
  rewrite bind_ok. destruct i as [|j]; [split; [intros _; split_and!; done | done]|].
  destruct (doc_events doc !! j) as [a|] eqn:Ha; [|split; [|done]; intros _; split_and!; try done; intros j' b [= <-]; congruence].
  destruct (Z.ltb_spec (at_unix_ms e) (at_unix_ms a)) as [Hlt|Hge].
  - split; [done|]. intros (_ & _ & Hall). destruct (Hall j a eq_refl Ha). lia.
  - rewrite require_monotonic_ok. split.
    + intros Hc. split_and!; try done. intros j' b [= <-]. rewrite Ha. by intros [= <-].
    + intros (_ & _ & Hall). by apply (Hall j a).
Qed.

Lemma validate_document_ok doc id :
  validate_document doc id = Ok tt ↔
  schema_version doc = PROGRESS_SCHEMA_VERSION ∧ session_id doc = id ∧ history_ok (doc_events doc).
Proof.
  unfold validate_document. destruct (Z.eqb_spec (schema_version doc) PROGRESS_SCHEMA_VERSION) as [Hschema|Hschema]; cbn [negb orb];
    [|split; [done | by intros [? _]]].
  case_bool_decide as Hid; [split; [done | by intros (_ & ? & _)]|].
  set (evs := doc_events doc). destruct (Nat.eqb_spec (length evs) 0) as [H0|H0]; cbn [orb].
  { split; [done|]. intros (_ & _ & [_ (e0 & rest & E & _) _ _]). unfold evs in *. by rewrite E in H0. }
  destruct (Nat.ltb_spec MAX_PROGRESS_EVENTS (length evs)) as [Hl|Hl].
  { split; [done|]. intros (_ & _ & [? _ _ _]). lia. }
  assert (Hfold : fold_result (event_step doc) tt (imap pair evs) = Ok tt ↔
    ∀ i e, evs !! i = Some e → event_step doc tt (i, e) = Ok tt).
  { rewrite fold_result_unit, Forall_lookup. split.
    - intros Hall i e He. apply (Hall i (i, e)). by rewrite list_lookup_imap, He.
    - intros Hall i x Hx. apply list_lookup_imap_Some in Hx as (e & He & ->). by apply Hall. }
  assert (Hsteps : (∀ i e, evs !! i = Some e → event_step doc tt (i, e) = Ok tt) ↔
    (∀ i e, evs !! i = Some e → revision e = Z.of_nat i + 1 ∧ (0 < length (message e) <= MAX_PROGRESS_MESSAGE_BYTES)%nat) ∧
    (∀ i a b, evs !! i = Some a → evs !! S i = Some b → at_unix_ms a <= at_unix_ms b ∧ counters_le (counters a) (counters b))).
  { split.
    - intros Hall. split.
      + intros i e He. pose proof (lookup_lt_Some _ _ _ He). apply Hall, (event_step_ok doc i e ltac:(lia)) in He. by destruct He as (? & ? & _).
      + intros i a b Ha Hb. pose proof (lookup_lt_Some _ _ _ Hb). apply Hall, (event_step_ok doc (S i) b ltac:(lia)) in Hb. destruct Hb as (_ & _ & Hb). by apply (Hb i).
    - intros [Hone Htwo] i e He. pose proof (lookup_lt_Some _ _ _ He). apply (event_step_ok doc i e ltac:(lia)).
      destruct (Hone i e He) as [Hr Hm]. split; [done|]. split; [done|]. intros j a -> Ha. by apply (Htwo j). }
  destruct (fold_result (event_step doc) tt (imap pair evs)) as [[]|] eqn:Hf.
  - rewrite bind_ok. destruct (proj1 Hsteps (proj1 Hfold eq_refl)) as [Hone Htwo]. destruct evs as [|e rest] eqn:Hevs; [done|].
    case_decide as Hp; [|split; [done|]; by intros (_ & _ & [_ (e' & r' & [= -> ->] & ?) _ _])].
    split; [|done]. intros _. split_and!; try done. split; try done. by exists e, rest.
  - split; [done|]. intros (_ & _ & [_ _ Hone Htwo]).
    assert (F : Err error = Ok (E := ServiceError) tt) by (apply Hfold, Hsteps; by split). done.
Qed.

(** An event that [publish] adds extends the history. *)
Lemma next_event_ok st ph msg cs now ev :
  history_ok (events st) → next_event st ph msg cs now = Ok ev →
  durable_failed st = false ∧ history_ok (events st ++ [ev]) ∧
  phase ev = ph ∧ message ev = msg ∧ counters ev = cs ∧ now <= at_unix_ms ev.
Proof.
  intros [Hb (a & rest & Ha & Hacc) Hone Htwo] He. unfold next_event in He.
  apply bind_ok_inv in He as ([] & Hmsg%map_err_ok & He). apply validate_message_ok in Hmsg.
  destruct (durable_failed st); [done|]. destruct (Nat.leb_spec MAX_PROGRESS_EVENTS (length (events st))) as [|Hlt]; [done|].
  apply bind_ok_inv in He as (previous & Hlast%ok_or_ok & He).
  apply bind_ok_inv in He as ([] & Hmono%map_err_ok & He). apply require_monotonic_ok in Hmono.
  apply bind_ok_inv in He as (r & Hr%ok_or_ok & [= <-]). apply checked_add_Some in Hr as [-> _].
  split; [done|]. split; [|repeat split; simpl; lia].
  rewrite last_lookup in Hlast. pose proof (lookup_lt_Some _ _ _ Hlast) as Hlen.
  destruct (Hone _ _ Hlast) as [Hrev _]. split.
  - rewrite length_app. simpl. lia.
  - rewrite Ha. by eexists _, _.
  - intros i e Hi. apply lookup_app_Some in Hi as [Hi|[Hge Hi]]; [by apply Hone|].
    apply list_lookup_singleton_Some in Hi as [Hi <-]. simpl. split; [|done]. rewrite Hrev. lia.
  - intros i b c Hib Hic. apply lookup_app_Some in Hic as [Hic|[Hge Hic]].
    + pose proof (lookup_lt_Some _ _ _ Hic). rewrite lookup_app_l in Hib by lia. by apply (Htwo i).
    + apply list_lookup_singleton_Some in Hic as [Hic <-]. rewrite lookup_app_l in Hib by lia.
      replace i with (pred (length (events st))) in Hib by lia. rewrite Hlast in Hib. injection Hib as <-.
      simpl. split; [lia | done].
Qed.

(** ** Snapshots on the disk *)
Section OnDisk.
Context `{Process} `{ProgressCodec} `{!ProgressCodecLaws}.

Definition private (f : Inode) : Prop := validate_private_metadata f = Ok tt.

Lemma private_spec f :
  private f ↔ file_type f = Regular ∧ Z.land (mode f) 511 = 384 ∧ uid f = euid ∧ gid f = egid ∧
    Z.of_nat (length (contents f)) <= MAX_PROGRESS_DOCUMENT_BYTES.
Proof.
  unfold private, validate_private_metadata. set (M := MAX_PROGRESS_DOCUMENT_BYTES).
  destruct (decide (file_type f = Regular)) as [E|E].
  2: { rewrite bool_decide_true by done. split; [done | by intros [? _]]. }
  rewrite E. change (bool_decide (Regular ≠ Regular)) with false. change (bool_decide (Regular = Symlink)) with false.
  cbn [orb].
  destruct (Z.eqb_spec (Z.land (mode f) 511) 384), (Z.eqb_spec (uid f) euid), (Z.eqb_spec (gid f) egid),
    (Z.ltb_spec M (Z.of_nat (length (contents f)))); cbn [orb negb]; split; try done; try (intros (_&?&?&?&?); done || lia).
Qed.

(** A file of the service's own, whatever of it a crash leaves. *)
Definition held (f : Inode) : Prop := private f ∧ Z.of_nat (reach f) <= MAX_PROGRESS_DOCUMENT_BYTES.

Lemma survives_held f f' : held f → survives f f' → held f'.
Proof.
  unfold held. rewrite !private_spec. unfold survives. intros [(?&?&?&?&?) ?] (->&->&->&->&Hc&_&->).
  destruct (file_synced f); [rewrite Hc|]; split_and!; try done; lia.
Qed.
Lemma survives_private f f' : private f → file_synced f = true → survives f f' → private f' ∧ contents f' = contents f.
Proof. rewrite !private_spec. unfold survives. intros (?&?&?&?&?) -> (->&->&->&->&->&_). done. Qed.

Definition document_of (id : str) (evs : list ProgressEvent) : ProgressDocument :=
  {| schema_version := PROGRESS_SCHEMA_VERSION; session_id := id; doc_events := evs |}.
Definition bytes_of (id : str) (evs : list ProgressEvent) : str := to_vec_pretty (document_of id evs) ++ [10].
Definition fits (id : str) (evs : list ProgressEvent) : Prop :=
  Z.of_nat (length (bytes_of id evs)) <= MAX_PROGRESS_DOCUMENT_BYTES.

(** The directory [m] names a durable snapshot holding [bytes]. *)
Definition holds_at (name : str) (bytes : str) (m : gmap str nat) (d : Disk) : Prop :=
  ∃ i f, m !! name = Some i ∧ inodes d !! i = Some f ∧ private f ∧ file_synced f = true ∧ contents f = bytes.
(** Beside it lies nothing, or an unpublished file of the service's own. *)
Definition unpublished_ok (m : gmap str nat) (d : Disk) : Prop :=
  match m !! lit "progress.json.next" with
  | None => True
  | Some j => ∃ f, inodes d !! j = Some f ∧ held f
  end.

(** Whatever a crash leaves, one of the admitted snapshots is there. *)
Definition stable (name : str) (admitted : str → Prop) (d : Disk) : Prop :=
  ∀ m, m ∈ names d :: unsynced d → (∃ bytes, admitted bytes ∧ holds_at name bytes m d) ∧ unpublished_ok m d.

Lemma stable_mono name (P Q : str → Prop) d : (∀ b, P b → Q b) → stable name P d → stable name Q d.
Proof. intros HPQ Hs m Hm. destruct (Hs m Hm) as [(b & Hb & Hh) Hu]. split; [|done]. exists b. auto. Qed.

(** ** Recovery *)
Lemma read_holds name bytes d ts lg :
  holds_at name bytes (names d) d →
  read_private_bytes {| parent := None; file_name := name |} {| disk := d; faults := []; clock := ts; log := lg |} =
    (Ok bytes, {| disk := d; faults := []; clock := ts; log := lg |}).
Proof.
  intros (i & f & Hi & Hf & Hp & _ & <-). unfold read_private_bytes. unfold failing, io_map_err, mbind, io_bind.
  unfold open_nofollow, unfaulted. cbn [next_fault faults disk file_name]. rewrite Hi, Hf.
  rewrite decide_False by (apply private_spec in Hp as [-> _]; done).
  unfold fstat, unfaulted. cbn [next_fault faults disk]. rewrite Hf. cbn [ok_or]. unfold pure. rewrite Hp.
  unfold read_to_end, unfaulted. cbn [next_fault faults disk]. rewrite Hf. cbn [fmap option_fmap option_map ok_or].
  by rewrite Nat.eqb_refl.
Qed.

Lemma read_private_parent p q : file_name p = file_name q → read_private_bytes p = read_private_bytes q.
Proof. unfold read_private_bytes. by intros ->. Qed.

Lemma read_events_holds p id evs d ts lg :
  history_ok evs → holds_at (file_name p) (bytes_of id evs) (names d) d →
  read_progress_events p id {| disk := d; faults := []; clock := ts; log := lg |} =
    (Ok evs, {| disk := d; faults := []; clock := ts; log := lg |}).
Proof.
  intros Hev Hh. unfold read_progress_events, mbind, io_bind.
  rewrite (read_private_parent p {| parent := None; file_name := file_name p |}) by done.
  rewrite read_holds with (bytes := bytes_of id evs) by done. unfold pure, bytes_of. rewrite from_slice_pretty. cbn [ok_or].
  by rewrite (proj2 (validate_document_ok (document_of id evs) id)).
Qed.

(** What [open] does to the disk: the unpublished file goes. *)
Definition reconciled (d d' : Disk) : Prop :=
  names d' = delete (lit "progress.json.next") (names d) ∧ inodes d' = inodes d ∧ next_inode d' = next_inode d ∧
  (unsynced d = [] → unsynced d' = []).

Lemma open_holds p id evs d ts :
  history_ok evs → file_name p ≠ lit "progress.json.next" →
  holds_at (file_name p) (bytes_of id evs) (names d) d → unpublished_ok (names d) d →
  ∃ w', open p id (calm d ts) =
    (Ok ({| reporter_session := id; reporter_path := p |}, {| events := evs; durable_failed := false |}), w') ∧
    reconciled d (disk w').
Proof.
  intros Hev Hne Hh Hu. unfold open, reconcile_unpublished_replacement, next_path, mbind, io_bind.
  cbn [file_name]. unfold symlink_metadata at 1, unfaulted. cbn [next_fault faults calm disk]. unfold lookup_name.
  unfold unpublished_ok in Hu. destruct (names d !! lit "progress.json.next") as [j|] eqn:Hj; cbn [mbind option_bind].
  - destruct Hu as (g & Hg & Hpg & _). rewrite Hg. cbn [ok_or]. unfold pure at 1. rewrite Hpg.
    unfold calm. rewrite read_events_holds with (evs := evs) by done.
    unfold failing at 1, io_map_err at 1, remove_file, unfaulted. cbn [next_fault faults disk]. rewrite Hj.
    unfold sync_directory, failing, io_map_err, sync_dir, unfaulted, set_disk. cbn [next_fault faults disk clock log].
    rewrite read_events_holds with (evs := evs); [|done|].
    + eexists. split; [done|]. repeat split.
    + destruct Hh as (i & f & Hi & Hf & Hrest). exists i, f. cbn [names inodes set_names].
      split; [|done]. rewrite lookup_delete_ne by done. done.
  - cbn [ok_or]. unfold calm. rewrite read_events_holds with (evs := evs) by done. cbn [mret io_ret].
    rewrite read_events_holds with (evs := evs) by done. eexists. split; [done|].
    split; [|done]. cbn [disk]. by rewrite delete_id.
Qed.

Lemma crash_stable name P d d' :
  stable name P d → crash d d' → stable name P d' ∧ unsynced d' = [].
Proof.
  intros Hs Hc. pose proof Hc as (Hn & Hu & _ & _). split; [|done]. intros m Hm. rewrite Hu in Hm.
  apply list_elem_of_singleton in Hm as ->. destruct (Hs (names d') Hn) as [(b & Hb & i & f & Hi & Hf & Hp & Hsync & Hbytes) Hun].
  split.
  - exists b. split; [done|]. destruct (crash_inode d d' i f Hc Hf) as (f' & Hf' & Hsurv). exists i, f'.
    destruct (survives_private _ _ Hp Hsync Hsurv) as [? ->]. by destruct Hsurv as (_&_&_&_&_&?&_).
  - unfold unpublished_ok in *. destruct (names d' !! lit "progress.json.next") as [j|]; [|done]. destruct Hun as (g & Hg & Hpg).
    destruct (crash_inode d d' j g Hc Hg) as (g' & Hg' & Hsurv). exists g'. split; [done|]. by eapply survives_held.
Qed.
End OnDisk.

(** ** The states a publication goes through *)
Section Publication.
Context `{Process} `{ProgressCodec} `{!ProgressCodecLaws}.

Abbreviation nx := (lit "progress.json.next").

(** At rest: one durable snapshot, nothing beside it, no barrier outstanding. *)
Record settled (name : str) (bytes : str) (d : Disk) : Prop := {
  settled_holds : holds_at name bytes (names d) d;
  settled_clean : names d !! nx = None;
  settled_synced : unsynced d = [];
  settled_fresh : ∀ i, (next_inode d <= i)%nat → inodes d !! i = None;
}.

Definition own (c : str) (sy : bool) : Inode :=
  {| file_type := Regular; mode := 384; uid := euid; gid := egid; contents := c; file_synced := sy; reach := length c |}.
Definition created (d : Disk) (c : str) (sy : bool) : Disk :=
  {| names := <[nx := next_inode d]> (names d); inodes := <[next_inode d := own c sy]> (inodes d);
     next_inode := S (next_inode d); unsynced := names d :: unsynced d |}.
Definition renamed (name : str) (d : Disk) (c : str) : Disk :=
  set_names (<[name := next_inode d]> (delete nx (names (created d c true)))) (created d c true).
Definition removed (d : Disk) (c : str) (sy : bool) : Disk :=
  set_names (delete nx (names (created d c sy))) (created d c sy).
Definition barrier (d : Disk) : Disk :=
  {| names := names d; inodes := inodes d; next_inode := next_inode d; unsynced := [] |}.

Lemma created_inode d c sy : inodes (created d c sy) !! next_inode d = Some (own c sy).
Proof. apply lookup_insert_eq. Qed.
Lemma created_name d c sy : names (created d c sy) !! nx = Some (next_inode d).
Proof. apply lookup_insert_eq. Qed.
Lemma created_update d c sy c' sy' : set_inode (next_inode d) (own c' sy') (created d c sy) = created d c' sy'.
Proof. unfold set_inode, created. cbn [inodes names next_inode unsynced]. by rewrite insert_insert_eq. Qed.

Lemma own_private c sy : Z.of_nat (length c) <= MAX_PROGRESS_DOCUMENT_BYTES → private (own c sy).
Proof. intros Hc. by apply private_spec. Qed.
Lemma own_held c sy : Z.of_nat (length c) <= MAX_PROGRESS_DOCUMENT_BYTES → held (own c sy).
Proof. intros Hc. split; [by apply own_private|done]. Qed.

(** Growing the inode table keeps what a directory names. *)
Lemma holds_at_insert name bytes m d d' n g :
  inodes d' = <[n := g]> (inodes d) → inodes d !! n = None → holds_at name bytes m d → holds_at name bytes m d'.
Proof.
  intros Hi Hn (i & f & Hm & Hf & Hrest). exists i, f. split; [done|]. split; [|done].
  rewrite Hi, lookup_insert_ne; congruence.
Qed.

Lemma stable_barrier name P d : stable name P d → stable name P (barrier d).
Proof. intros Hs m Hm. apply Hs. apply list_elem_of_singleton in Hm as ->. left. Qed.

Lemma stable_settled name bytes d : settled name bytes d → stable name (λ b, b = bytes) d.
Proof.
  intros [Hh Hc Hs _] m Hm. rewrite Hs in Hm. apply list_elem_of_singleton in Hm as ->. split; [by exists bytes|].
  unfold unpublished_ok. by rewrite Hc.
Qed.

Section Steps.
Context (name : str) (old : str) (d : Disk) (Hname : name ≠ nx) (Hd : settled name old d).

Lemma created_old c sy m :
  m ∈ [names (created d c sy); names d] → Z.of_nat (length c) <= MAX_PROGRESS_DOCUMENT_BYTES →
  holds_at name old m (created d c sy) ∧ unpublished_ok m (created d c sy).
Proof.
  intros Hm Hc. destruct Hd as [Hh Hclean _ Hfresh].
  pose proof (holds_at_insert name old (names d) d (created d c sy) _ _ eq_refl (Hfresh _ (le_n _)) Hh) as Hold.
  apply elem_of_cons in Hm as [->|Hm%list_elem_of_singleton]; [|subst m].
  - split.
    + destruct Hold as (i & f & Hi & Hrest). exists i, f. split; [|done]. cbn [created names]. by rewrite lookup_insert_ne.
    + unfold unpublished_ok. cbn [created names]. rewrite lookup_insert_eq. exists (own c sy).
      split; [cbn [created inodes]; by rewrite lookup_insert_eq | by apply own_held].
  - split; [done|]. unfold unpublished_ok. by rewrite Hclean.
Qed.

Lemma stable_created c sy :
  Z.of_nat (length c) <= MAX_PROGRESS_DOCUMENT_BYTES → stable name (λ b, b = old) (created d c sy).
Proof.
  intros Hc m Hm. cbn [created unsynced] in Hm. rewrite (settled_synced _ _ _ Hd) in Hm.
  destruct (created_old c sy m Hm Hc) as [Hh Hu]. split; [by exists old | done].
Qed.

Lemma stable_removed c sy :
  Z.of_nat (length c) <= MAX_PROGRESS_DOCUMENT_BYTES → stable name (λ b, b = old) (removed d c sy).
Proof.
  intros Hc m Hm. apply elem_of_cons in Hm as [->|Hm]; [|by apply stable_created].
  destruct (created_old c sy (names d)) as [(i & f & Hi & Hrest) _]; [right; left|done|]. split.
  - exists old. split; [done|]. exists i, f. split; [|done]. cbn [removed set_names names created].
    rewrite lookup_delete_ne, lookup_insert_ne by done. done.
  - unfold unpublished_ok. cbn [removed set_names names created]. by rewrite lookup_delete_eq.
Qed.

Lemma renamed_holds c : Z.of_nat (length c) <= MAX_PROGRESS_DOCUMENT_BYTES → holds_at name c (names (renamed name d c)) (renamed name d c).
Proof.
  intros Hc. exists (next_inode d), (own c true). cbn [renamed set_names names inodes created].
  rewrite !lookup_insert_eq. split_and!; try done. by apply own_private.
Qed.

Lemma stable_renamed c :
  Z.of_nat (length c) <= MAX_PROGRESS_DOCUMENT_BYTES → stable name (λ b, b = old ∨ b = c) (renamed name d c).
Proof.
  intros Hc m Hm. apply elem_of_cons in Hm as [->|Hm].
  - split; [exists c; split; [by right | by apply renamed_holds]|]. unfold unpublished_ok.
    cbn [renamed set_names names created]. rewrite lookup_insert_ne by done. by rewrite lookup_delete_eq.
  - destruct (stable_created c true Hc m Hm) as [(b & Hb & Hh) Hu]. split; [|done]. exists b. by split; [left|].
Qed.

Lemma settled_renamed c : Z.of_nat (length c) <= MAX_PROGRESS_DOCUMENT_BYTES → settled name c (barrier (renamed name d c)).
Proof.
  intros Hc. split; [by apply renamed_holds| |done|].
  - cbn [barrier renamed set_names names created]. rewrite lookup_insert_ne by done. by rewrite lookup_delete_eq.
  - intros i Hi. cbn [barrier renamed set_names inodes next_inode created] in *.
    rewrite lookup_insert_ne by lia. apply (settled_fresh _ _ _ Hd). lia.
Qed.

(** ** The calls of a publication, with a fault possible at each *)

(** The world moved on, through disks that are all [S]. *)
Definition through (S : Disk → Prop) (w w' : World) : Prop := ∃ ds, log w' = log w ++ ds ∧ Forall S ds.

Lemma through_refl S w w' : log w' = log w → through S w w'.
Proof. intros E. exists []. split; [by rewrite app_nil_r | apply Forall_nil_2]. Qed.
Lemma through_set S w w' d' : log w' = log w → S d' → through S w (set_disk d' w').
Proof. intros E Hs. exists [d']. simpl. rewrite E. split; [done|]. by apply Forall_singleton. Qed.
Lemma through_trans S w1 w2 w3 : through S w1 w2 → through S w2 w3 → through S w1 w3.
Proof.
  intros (ds1 & E1 & F1) (ds2 & E2 & F2). exists (ds1 ++ ds2). rewrite E2, E1, app_assoc.
  split; [done|]. by apply Forall_app.
Qed.
Lemma through_mono (S T : Disk → Prop) w w' : (∀ d, S d → T d) → through S w w' → through T w w'.
Proof. intros HST (ds & E & F). exists ds. split; [done|]. by eapply Forall_impl. Qed.

Definition old_only : Disk → Prop := stable name (λ b, b = old).
Definition old_or (c : str) : Disk → Prop := stable name (λ b, b = old ∨ b = c).

Lemma old_only_or c d' : old_only d' → old_or c d'.
Proof. apply stable_mono. by left. Qed.

Lemma create_step w r w' :
  disk w = d → create_new nx 384 w = (r, w') →
  (∃ e, r = Err e ∧ disk w' = d ∧ log w' = log w) ∨
  (r = Ok (next_inode d) ∧ disk w' = created d [] false ∧ through old_only w w').
Proof.
  intros Hw. unfold create_new, unfaulted. destruct (next_fault w) as [f w1] eqn:Hf.
  destruct (next_fault_world _ _ _ Hf) as (Hd1 & Hl1 & _). destruct f; [|intros [= <- <-]; left; eexists; split_and!; [done|congruence|done]].
  rewrite Hd1, Hw, (settled_clean _ _ _ Hd). intros [= <- <-]. right. split_and!; [done..|].
  apply through_set; [done|]. by apply stable_created.
Qed.

Lemma write_step bytes w r w' :
  Z.of_nat (length bytes) <= MAX_PROGRESS_DOCUMENT_BYTES →
  disk w = created d [] false → write_all (next_inode d) bytes w = (r, w') →
  ∃ c, disk w' = created d c false ∧ Z.of_nat (length c) <= MAX_PROGRESS_DOCUMENT_BYTES ∧ through old_only w w' ∧
    (r = Ok tt → c = bytes).
Proof.
  intros Hb Hw. unfold write_all. destruct (next_fault w) as [f w1] eqn:Hf.
  destruct (next_fault_world _ _ _ Hf) as (Hd1 & Hl1 & _). rewrite Hd1, Hw, created_inode.
  change (set_contents (contents (own [] false) ++ bytes) false (own [] false)) with (own bytes false).
  destruct f as [|n]; [|change (set_contents (contents (own [] false) ++ take n bytes) false (own [] false)) with (own (take n bytes) false)];
    intros [= <- <-]; rewrite created_update.
  - exists bytes. split_and!; try done. apply through_set; [done|]. by apply stable_created.
  - exists (take n bytes). assert (Z.of_nat (length (take n bytes)) <= MAX_PROGRESS_DOCUMENT_BYTES) by (rewrite length_take; lia).
    split_and!; try done. apply through_set; [done|]. by apply stable_created.
Qed.

Lemma sync_step bytes w r w' :
  Z.of_nat (length bytes) <= MAX_PROGRESS_DOCUMENT_BYTES →
  disk w = created d bytes false → sync_all (next_inode d) w = (r, w') →
  ∃ sy, disk w' = created d bytes sy ∧ through old_only w w' ∧ (r = Ok tt → sy = true).
Proof.
  intros Hb Hw. unfold sync_all, unfaulted. destruct (next_fault w) as [f w1] eqn:Hf.
  destruct (next_fault_world _ _ _ Hf) as (Hd1 & Hl1 & _).
  destruct f; [|intros [= <- <-]; exists false; split_and!; [congruence|by apply through_refl|done]].
  rewrite Hd1, Hw, created_inode.
  change (set_contents (contents (own bytes false)) true (own bytes false)) with (own bytes true).
  rewrite created_update. intros [= <- <-]. exists true. split_and!; try done. apply through_set; [done|]. by apply stable_created.
Qed.

Lemma rename_step bytes w r w' :
  Z.of_nat (length bytes) <= MAX_PROGRESS_DOCUMENT_BYTES →
  disk w = created d bytes true → rename nx name w = (r, w') →
  ((∃ e, r = Err e) ∧ disk w' = created d bytes true ∧ through (old_or bytes) w w') ∨
  (r = Ok tt ∧ disk w' = renamed name d bytes ∧ through (old_or bytes) w w').
Proof.
  intros Hb Hw. unfold rename, unfaulted. destruct (next_fault w) as [f w1] eqn:Hf.
  destruct (next_fault_world _ _ _ Hf) as (Hd1 & Hl1 & _).
  destruct f; [|intros [= <- <-]; left; split_and!; [by eexists|congruence|by apply through_refl]].
  rewrite Hd1, Hw, created_name. intros [= <- <-]. right. split_and!; try done.
  apply through_set; [done|]. by apply stable_renamed.
Qed.

Lemma sync_dir_step (S : Disk → Prop) w r w' :
  sync_dir w = (r, w') → S (barrier (disk w)) →
  (∃ e, r = Err e ∧ disk w' = disk w ∧ through S w w') ∨ (r = Ok tt ∧ disk w' = barrier (disk w) ∧ through S w w').
Proof.
  unfold sync_dir, unfaulted. destruct (next_fault w) as [f w1] eqn:Hf.
  destruct (next_fault_world _ _ _ Hf) as (Hd1 & Hl1 & _). intros E Hs.
  destruct f; injection E as <- <-; [|left; eexists; split_and!; [done|done|by apply through_refl]].
  right. rewrite Hd1. split_and!; try done. by apply through_set.
Qed.

Lemma remove_step c sy w r w' :
  Z.of_nat (length c) <= MAX_PROGRESS_DOCUMENT_BYTES →
  disk w = created d c sy → remove_file nx w = (r, w') →
  (disk w' = created d c sy ∨ disk w' = removed d c sy) ∧ through old_only w w'.
Proof.
  intros Hc Hw. unfold remove_file, unfaulted. destruct (next_fault w) as [f w1] eqn:Hf.
  destruct (next_fault_world _ _ _ Hf) as (Hd1 & Hl1 & _).
  destruct f; [|intros [= <- <-]; split; [left; congruence|by apply through_refl]].
  rewrite Hd1, Hw, created_name. intros [= <- <-]. split; [by right|].
  apply through_set; [done|]. by apply stable_removed.
Qed.

(** ** The transaction *)
Context (p : FilePath) (bytes : str) (Hp : file_name p = name)
  (Hfits : Z.of_nat (length bytes) <= MAX_PROGRESS_DOCUMENT_BYTES).

Lemma through_old w w' : through old_only w w' → through (old_or bytes) w w'.
Proof. apply through_mono. intros. by apply old_only_or. Qed.

Lemma precommit_steps w r b w' :
  disk w = d → precommit p (next_path p) bytes w = (r, b, w') →
  through (old_or bytes) w w' ∧
  ((r = Ok tt ∧ disk w' = renamed name d bytes) ∨
   ((∃ e, r = Err e) ∧ b = false ∧ disk w' = d) ∨
   ((∃ e, r = Err e) ∧ b = true ∧ ∃ c sy, disk w' = created d c sy ∧ Z.of_nat (length c) <= MAX_PROGRESS_DOCUMENT_BYTES)).
Proof.
  intros Hw. unfold precommit, failing, io_map_err, next_path. cbn [file_name].
  destruct (create_new nx 384 w) as [r1 w1] eqn:Hc. apply create_step in Hc as [(e & -> & Hd1 & Hl1)|(-> & Hd1 & Ht1)]; [| |done].
  { intros [= <- <- <-]. split; [by apply through_refl|]. right. left. split_and!; [by eexists|done|done]. }
  unfold mbind, io_bind. destruct (write_all (next_inode d) bytes w1) as [r2 w2] eqn:Hwr.
  apply write_step in Hwr as (c & Hd2 & Hc & Ht2 & Hr2); [|done..]. pose proof (through_trans _ _ _ _ Ht1 Ht2) as Ht12.
  destruct r2 as [[]|e]; cycle 1.
  { intros [= <- <- <-]. split; [by apply through_old|]. right. right. split_and!; [by eexists|done|]. by exists c, false. }
  rewrite Hr2 in Hd2 by done. destruct (sync_all (next_inode d) w2) as [r3 w3] eqn:Hsy.
  apply sync_step with (bytes := bytes) in Hsy as (sy & Hd3 & Ht3 & Hr3); [|done..]. pose proof (through_trans _ _ _ _ Ht12 Ht3) as Ht13.
  destruct r3 as [[]|e]; cycle 1.
  { intros [= <- <- <-]. split; [by apply through_old|]. right. right. split_and!; [by eexists|done|]. by exists bytes, sy. }
  rewrite Hr3 in Hd3 by done. rewrite Hp. destruct (rename nx name w3) as [r4 w4] eqn:Hre.
  apply rename_step with (bytes := bytes) in Hre as [((e & ->) & Hd4 & Ht4)|(-> & Hd4 & Ht4)]; [| |done..];
    intros [= <- <- <-]; (split; [eapply through_trans; [by apply through_old|done]|]).
  - right. right. split_and!; [by eexists|done|]. by exists bytes, true.
  - by left.
Qed.

Lemma rollback_steps error c sy w r w' :
  Z.of_nat (length c) <= MAX_PROGRESS_DOCUMENT_BYTES →
  disk w = created d c sy → rollback (next_path p) error w = (r, w') →
  (∃ e, r = Err e) ∧ through old_only w w' ∧ old_only (disk w').
Proof.
  intros Hc Hw. unfold rollback, next_path. cbn [file_name].
  destruct (remove_file nx w) as [r1 w1] eqn:Hre. apply remove_step with (c := c) (sy := sy) in Hre as [Hd1 Ht1]; [|done..].
  assert (Hold : old_only (disk w1)) by (destruct Hd1 as [-> | ->]; [by apply stable_created | by apply stable_removed]).
  assert (Hrest : ∀ x, (let '(synced, w2) := sync_directory "sync unpublished progress rollback" w1 in
      match synced with
      | Ok _ => (Err error, w2)
      | Err _ => (internal "durable cleanup of unpublished progress replacement also failed", w2)
      end) = x → x = (r, w') → (∃ e, r = Err e) ∧ through old_only w w' ∧ old_only (disk w')).
  { unfold sync_directory, failing, io_map_err. destruct (sync_dir w1) as [r2 w2] eqn:Hs.
    apply (sync_dir_step old_only) in Hs; [|by apply stable_barrier].
    assert (Hw2 : through old_only w w2 ∧ old_only (disk w2)).
    { destruct Hs as [(e & -> & Hd2 & Ht2)|(-> & Hd2 & Ht2)]; (split; [by eapply through_trans|]); rewrite Hd2; [done|by apply stable_barrier]. }
    intros x <-. destruct r2; intros [= <- <-]; (split; [by eexists | done]). }
  destruct r1 as [u|[| |]]; intros E; try (by eapply Hrest); injection E as <- <-; (split; [by eexists | done]).
Qed.

Lemma read_bytes_world w r w' : read_private_bytes p w = (r, w') → disk w' = disk w ∧ log w' = log w.
Proof.
  unfold read_private_bytes, mbind, io_bind, failing, io_map_err, open_nofollow, fstat, read_to_end, unfaulted, pure.
  destruct (next_fault w) as [f1 w1] eqn:Hf1. destruct (next_fault_world _ _ _ Hf1) as (Hd1 & Hl1 & _).
  destruct f1; [|intros [= <- <-]; done]. destruct (names (disk w1) !! file_name p) as [i|]; [|intros [= <- <-]; done].
  destruct (inodes (disk w1) !! i) as [g|]; [|intros [= <- <-]; done]. case_decide; [intros [= <- <-]; done|].
  destruct (next_fault w1) as [f2 w2] eqn:Hf2. destruct (next_fault_world _ _ _ Hf2) as (Hd2 & Hl2 & _).
  destruct f2; [|intros [= <- <-]; split; congruence]. destruct (inodes (disk w2) !! i) as [g2|]; cbn [ok_or]; [|intros [= <- <-]; split; congruence].
  destruct (validate_private_metadata g2); [|intros [= <- <-]; split; congruence].
  destruct (next_fault w2) as [f3 w3] eqn:Hf3. destruct (next_fault_world _ _ _ Hf3) as (Hd3 & Hl3 & _).
  destruct f3; [|intros [= <- <-]; split; congruence].
  destruct (contents <$> inodes (disk w3) !! i) as [c|]; cbn [ok_or]; [|intros [= <- <-]; split; congruence].
  destruct (negb _); intros [= <- <-]; split; congruence.
Qed.

Lemma published_steps w r w' :
  disk w = renamed name d bytes → published p bytes w = (r, w') →
  through (old_or bytes) w w' ∧
  ((r = Ok Durable ∧ disk w' = barrier (renamed name d bytes)) ∨ (r ≠ Ok Durable ∧ disk w' = renamed name d bytes)).
Proof.
  intros Hw. unfold published, sync_directory, failing, io_map_err. destruct (sync_dir w) as [r1 w1] eqn:Hs.
  assert (Hst : old_or bytes (barrier (renamed name d bytes))) by (by apply stable_barrier, stable_renamed).
  apply (sync_dir_step (old_or bytes)) in Hs as [(e & -> & Hd1 & Ht1)|(-> & Hd1 & Ht1)]; [| |by rewrite Hw]; cycle 1.
  { intros [= <- <-]. split; [done|]. left. by rewrite Hd1, Hw. }
  rewrite Hw in Hd1. unfold mbind, io_bind. destruct (read_private_bytes p w1) as [r2 w2] eqn:Hr.
  apply read_bytes_world in Hr as [Hd2 Hl2]. rewrite Hd1 in Hd2.
  assert (Ht2 : through (old_or bytes) w w2) by (eapply through_trans; [done|by apply through_refl]).
  destruct r2 as [observed|e2]; [|intros [= <- <-]; split; [done|]; by right].
  case_bool_decide; [intros [= <- <-]; split; [done|]; by right|].
  unfold retry_barrier, sync_directory, failing, io_map_err. destruct (sync_dir w2) as [r3 w3] eqn:Hs3.
  apply (sync_dir_step (old_or bytes)) in Hs3 as [(e3 & -> & Hd3 & Ht3)|(-> & Hd3 & Ht3)]; [| |by rewrite Hd2];
    intros [= <- <-]; (split; [by eapply through_trans|]); rewrite Hd3, Hd2; [by right|by left].
Qed.

Lemma commit_steps w r w' :
  disk w = d → commit p (next_path p) bytes w = (r, w') →
  through (old_or bytes) w w' ∧
  ((r = Ok Durable ∧ disk w' = barrier (renamed name d bytes)) ∨
   (r ≠ Ok Durable ∧ disk w' = renamed name d bytes) ∨
   ((∃ e, r = Err e) ∧ old_only (disk w'))).
Proof.
  intros Hw. unfold commit. destruct (precommit p (next_path p) bytes w) as [[r1 b] w1] eqn:Hpre.
  apply precommit_steps in Hpre as [Ht1 Hcase]; [|done].
  destruct Hcase as [[-> Hd1]|[((e & ->) & -> & Hd1)|((e & ->) & -> & c & sy & Hd1 & Hc)]]; intros E.
  - apply published_steps in E as [Ht2 Hout]; [|done]. split; [by eapply through_trans|]. destruct Hout; [by left|by right; left].
  - injection E as <- <-. split; [done|]. right. right. split; [by eexists|]. rewrite Hd1. by apply stable_settled.
  - apply (rollback_steps e c sy) in E as (Herr & Ht2 & Hold); [|done..].
    split; [eapply through_trans; [done|by apply through_old]|]. by right; right.
Qed.

(** Calls that only look. *)
Lemma look_world (w : World) r w' : validate_private_file p w = (r, w') → disk w' = disk w ∧ log w' = log w.
Proof.
  unfold validate_private_file, mbind, io_bind, failing, io_map_err, symlink_metadata, unfaulted, pure.
  destruct (next_fault w) as [f w1] eqn:Hf. destruct (next_fault_world _ _ _ Hf) as (Hd1 & Hl1 & _).
  destruct f; [destruct (lookup_name (file_name p) (disk w1))|]; cbn [ok_or]; by intros [= <- <-].
Qed.

Lemma unpublished_world q (w : World) r w' : require_unpublished q w = (r, w') → disk w' = disk w ∧ log w' = log w.
Proof.
  unfold require_unpublished, symlink_metadata, unfaulted.
  destruct (next_fault w) as [f w1] eqn:Hf. destruct (next_fault_world _ _ _ Hf) as (Hd1 & Hl1 & _).
  destruct f; [destruct (lookup_name (file_name q) (disk w1))|]; cbn [ok_or]; by intros [= <- <-].
Qed.

Lemma replace_steps doc w r w' :
  encode_document doc = Ok bytes → disk w = d → replace_atomically p doc w = (r, w') →
  through (old_or bytes) w w' ∧
  ((r = Ok Durable ∧ disk w' = barrier (renamed name d bytes)) ∨
   (r ≠ Ok Durable ∧ disk w' = renamed name d bytes) ∨
   ((∃ e, r = Err e) ∧ old_only (disk w'))).
Proof.
  intros Henc Hw. assert (Hsame : ∀ e w1, disk w1 = disk w → log w1 = log w → (@Err _ ReplacementOutcome e, w1) = (r, w') →
    through (old_or bytes) w w' ∧ ((r = Ok Durable ∧ disk w' = barrier (renamed name d bytes)) ∨
    (r ≠ Ok Durable ∧ disk w' = renamed name d bytes) ∨ ((∃ e, r = Err e) ∧ old_only (disk w')))).
  { intros e w1 Hd1 Hl1 [= <- <-]. split; [by apply through_refl|]. right. right. split; [by eexists|].
    rewrite Hd1, Hw. by apply stable_settled. }
  unfold replace_atomically. destruct (parent p); [|by apply Hsame]. unfold mbind, io_bind.
  destruct (validate_private_file p w) as [r1 w1] eqn:Hlook. apply look_world in Hlook as [Hd1 Hl1].
  destruct r1 as [[]|]; [|by apply Hsame].
  destruct (require_unpublished (next_path p) w1) as [r2 w2] eqn:Hun. apply unpublished_world in Hun as [Hd2 Hl2].
  destruct r2 as [[]|]; [|apply Hsame; congruence]. unfold pure. rewrite Henc. intros E.
  apply commit_steps in E as [Ht Hout]; [|congruence]. split; [|done].
  eapply through_trans; [|done]. apply through_refl. congruence.
Qed.

(** Without a fault the transaction is durable. *)
Lemma replace_calm doc ts lg :
  encode_document doc = Ok bytes → parent p ≠ None →
  ∃ w', replace_atomically p doc {| disk := d; faults := []; clock := ts; log := lg |} = (Ok Durable, w').
Proof.
  intros Henc Hpar. unfold replace_atomically. destruct (parent p) as [par|] eqn:Hpp; [|done].
  destruct (settled_holds _ _ _ Hd) as (i & f & Hi & Hf & Hpriv & _).
  unfold mbind, io_bind, validate_private_file, require_unpublished, failing, io_map_err, symlink_metadata, unfaulted, pure, lookup_name, mbind, io_bind.
  cbn [next_fault faults disk next_path file_name]. rewrite Hp, Hi. cbn [option_bind]. rewrite Hf. cbn [ok_or].
  rewrite Hpriv. cbn [next_fault faults disk]. rewrite (settled_clean _ _ _ Hd). cbn [option_bind ok_or]. rewrite Henc.
  unfold commit, precommit, failing, io_map_err, create_new, unfaulted. cbn [next_fault faults disk next_path file_name].
  rewrite (settled_clean _ _ _ Hd). unfold mbind, io_bind, write_all.
  cbn [next_fault faults disk set_disk inodes]. rewrite lookup_insert_eq.
  unfold sync_all, unfaulted. cbn [next_fault faults disk set_disk inodes set_inode]. rewrite lookup_insert_eq.
  unfold rename, unfaulted. cbn [next_fault faults disk set_disk names set_inode]. rewrite lookup_insert_eq.
  unfold published, sync_directory, failing, io_map_err, sync_dir, unfaulted. cbn [next_fault faults disk set_disk].
  by eexists.
Qed.
End Steps.
End Publication.

Section Reporting.
Context `{Process} `{ProgressCodec} `{!ProgressCodecLaws}.

(** A reporter that may publish: its memory is the snapshot on the disk. *)
Record running (r : Reporter) (st : ProgressState) (d : Disk) : Prop := {
  running_settled : settled (file_name (reporter_path r)) (bytes_of (reporter_session r) (events st)) d;
  running_history : history_ok (events st);
  running_durable : durable_failed st = false;
  running_name : file_name (reporter_path r) ≠ lit "progress.json.next";
  running_parent : parent (reporter_path r) ≠ None;
}.

(** The snapshot that a reader of the disk sees now. *)
Definition visible (r : Reporter) (d : Disk) (evs : list ProgressEvent) : Prop :=
  holds_at (file_name (reporter_path r)) (bytes_of (reporter_session r) evs) (names d) d.

(** A restart after a crash reopens one of the admitted histories. *)
Definition recovers (r : Reporter) (d : Disk) (admitted : list ProgressEvent → Prop) : Prop :=
  ∀ d' ts, crash d d' → ∃ evs w, admitted evs ∧
    open (reporter_path r) (reporter_session r) (calm d' ts) = (Ok (r, {| events := evs; durable_failed := false |}), w).

Lemma stable_recovers r d (P : list ProgressEvent → Prop) (B : str → Prop) :
  file_name (reporter_path r) ≠ lit "progress.json.next" →
  (∀ b, B b → ∃ evs, P evs ∧ history_ok evs ∧ b = bytes_of (reporter_session r) evs) →
  stable (file_name (reporter_path r)) B d → recovers r d P.
Proof.
  intros Hne HB Hs d' ts Hc. destruct (crash_stable _ _ _ _ Hs Hc) as [Hs' _].
  destruct (Hs' (names d') ltac:(left)) as [(b & Hb & Hh) Hu]. destruct (HB b Hb) as (evs & HP & Hev & ->).
  destruct (open_holds (reporter_path r) (reporter_session r) evs d' ts Hev Hne Hh Hu) as (w & Ho & _).
  exists evs, w. split; [done|]. rewrite Ho. by destruct r.
Qed.

Lemma encode_ok id evs : history_ok evs → encode_document (document_of id evs) = Ok (bytes_of id evs).
Proof. intros Hev. unfold encode_document. change (session_id (document_of id evs)) with id. by rewrite (proj2 (validate_document_ok (document_of id evs) id)). Qed.

Lemma clock_world w now w' : unix_now_ms w = (now, w') → disk w' = disk w ∧ log w' = log w ∧ faults w' = faults w.
Proof. unfold unix_now_ms, read_clock. by destruct (clock w); intros [= <- <-]. Qed.

Lemma settled_visible r evs d : settled (file_name (reporter_path r)) (bytes_of (reporter_session r) evs) d → visible r d evs.
Proof. by intros [? _ _ _]. Qed.

Lemma stable_visible r evs d :
  stable (file_name (reporter_path r)) (λ b, b = bytes_of (reporter_session r) evs) d → visible r d evs.
Proof. intros Hs. destruct (Hs (names d) ltac:(left)) as [(b & -> & Hh) _]. done. Qed.

Lemma crash_settled name bytes d d' : settled name bytes d → crash d d' → settled name bytes d'.
Proof.
  intros Hset Hc. destruct Hset as [(i & f & Hi & Hf & Hpriv & Hsync & Hb) Hclean Hun Hfresh].
  pose proof Hc as (Hnames & Hun' & Hnext & Hin). rewrite Hun in Hnames. apply list_elem_of_singleton in Hnames.
  split; [|by rewrite Hnames|done|].
  - destruct (crash_inode _ _ _ _ Hc Hf) as (f' & Hf' & Hs). exists i, f'. rewrite Hnames.
    destruct (survives_private _ _ Hpriv Hsync Hs) as [? ->]. by destruct Hs as (_&_&_&_&_&?&_).
  - intros j Hj. rewrite Hnext in Hj. specialize (Hin j). rewrite (Hfresh j Hj) in Hin. by destruct (inodes d' !! j).
Qed.

Lemma reconciled_settled name bytes d d' : settled name bytes d → reconciled d d' → settled name bytes d'.
Proof.
  intros [(i & f & Hi & Hrest) Hclean Hun Hfresh] (Hn & Hino & Hnext & Hu). rewrite delete_id in Hn by done.
  split; [exists i, f; by rewrite Hn, Hino|by rewrite Hn|by apply Hu|]. intros j. rewrite Hnext, Hino. apply Hfresh.
Qed.

(** The initial snapshot, once every call has succeeded. *)
Lemma create_disk p id msg w r st w' :
  names (disk w) !! lit "progress.json.next" = None → (∀ i, (next_inode (disk w) <= i)%nat → inodes (disk w) !! i = None) →
  file_name p ≠ lit "progress.json.next" →
  create p id msg w = (Ok (r, st), w') →
  ∃ now, r = {| reporter_session := id; reporter_path := p |} ∧
    st = {| events := [{| revision := 1; at_unix_ms := now; phase := Accepted; message := msg; counters := default_counters |}];
            durable_failed := false |} ∧
    history_ok (events st) ∧ parent p ≠ None ∧
    (fits id (events st) → settled (file_name p) (bytes_of id (events st)) (disk w')).
Proof.
  intros Hnx Hfresh Hne. unfold create, current_time, mbind, io_bind, pure.
  destruct (validate_message msg) as [[]|] eqn:Hmsg; [|done]. apply validate_message_ok in Hmsg.
  destruct (unix_now_ms w) as [now w0] eqn:Hnow. apply clock_world in Hnow as (Hd0 & _). rewrite <- Hd0 in *.
  set (e := {| revision := 1; at_unix_ms := now; phase := Accepted; message := msg; counters := default_counters |}).
  assert (Hhist : history_ok [e]).
  { split; [simpl; unfold MAX_PROGRESS_EVENTS; lia|by eexists _, _| |].
    - intros [|i] x Hx; [|done]. injection Hx as <-. simpl. split; [lia | done].
    - by intros [|i] a b Ha Hb. }
  unfold write_initial. destruct (parent p) as [par|] eqn:Hpar; [|done]. unfold mbind, io_bind, pure.
  change {| schema_version := PROGRESS_SCHEMA_VERSION; session_id := id; doc_events := [e] |} with (document_of id [e]).
  rewrite encode_ok by done. unfold failing, io_map_err, create_new, unfaulted.
  destruct (next_fault w0) as [f1 w1] eqn:Hf1. destruct (next_fault_world _ _ _ Hf1) as (Hd1 & _). destruct f1; [|done].
  rewrite Hd1. destruct (names (disk w0) !! file_name p); [done|]. unfold write_all.
  destruct (next_fault (set_disk _ w1)) as [f2 w2] eqn:Hf2. destruct (next_fault_world _ _ _ Hf2) as (Hd2 & _). rewrite Hd2.
  cbn [set_disk disk inodes]. rewrite lookup_insert_eq. destruct f2; [|done]. unfold sync_all, unfaulted.
  destruct (next_fault (set_disk _ w2)) as [f3 w3] eqn:Hf3. destruct (next_fault_world _ _ _ Hf3) as (Hd3 & _). destruct f3; [|done].
  rewrite Hd3. cbn [set_disk disk inodes set_inode]. rewrite lookup_insert_eq. unfold sync_directory, failing, io_map_err, sync_dir, unfaulted.
  destruct (next_fault (set_disk _ w3)) as [f4 w4] eqn:Hf4. destruct (next_fault_world _ _ _ Hf4) as (Hd4 & _). destruct f4; [|done].
  rewrite Hd4. intros [= <- <- <-]. exists now. split_and!; try done. intros Hfits. cbn [events].
  split; cbn [set_disk disk names inodes next_inode unsynced set_inode set_contents].
  - exists (next_inode (disk w0)), (own (bytes_of id [e]) true). split; [apply lookup_insert_eq|].
    split; [apply lookup_insert_eq|]. split_and!; try done. by apply own_private.
  - by rewrite lookup_insert_ne.
  - done.
  - intros i Hi. rewrite !lookup_insert_ne by lia. apply Hfresh. lia.
Qed.
End Reporting.

(** ** A concrete codec and a concrete disk *)
Global Instance ProgressPhase_countable : Countable ProgressPhase.
Proof.
  refine (inj_countable'
    (fun p => match p with Accepted => 0%nat | StagingPhase => 1 | PreparingAgent => 2 | CreatingTopology => 3
                      | AwaitingReadiness => 4 | RunningAgent => 5 | Cancelling => 6 | CapturingOutput => 7
                      | TearingDown => 8 | Bundling => 9 | PersistingTerminal => 10 | Terminal => 11 end%nat)
    (fun n => match n with 0 => Accepted | 1 => StagingPhase | 2 => PreparingAgent | 3 => CreatingTopology
                      | 4 => AwaitingReadiness | 5 => RunningAgent | 6 => Cancelling | 7 => CapturingOutput
                      | 8 => TearingDown | 9 => Bundling | 10 => PersistingTerminal | _ => Terminal end%nat) _).
  by intros [].
Defined.
#[local] Instance ProgressCounters_eq_dec : EqDecision ProgressCounters.
Proof. solve_decision. Defined.
#[local] Instance ProgressCounters_countable : Countable ProgressCounters.
Proof.
  refine (inj_countable' (fun c => (staged_bytes c, staged_entries c, staged_regular_files c, output_event_bytes c, physical_requests c))
    (fun '(a, b, c, d, e) => Build_ProgressCounters a b c d e) _). by intros [].
Defined.
#[local] Instance ProgressEvent_eq_dec : EqDecision ProgressEvent.
Proof. solve_decision. Defined.
#[local] Instance ProgressEvent_countable : Countable ProgressEvent.
Proof.
  refine (inj_countable' (fun e => (revision e, at_unix_ms e, phase e, message e, counters e))
    (fun '(a, b, c, d, e) => Build_ProgressEvent a b c d e) _). by intros [].
Defined.
#[local] Instance ProgressDocument_eq_dec : EqDecision ProgressDocument.
Proof. solve_decision. Defined.
#[local] Instance ProgressDocument_countable : Countable ProgressDocument.
Proof.
  refine (inj_countable' (fun d => (schema_version d, session_id d, doc_events d))
    (fun '(a, b, c) => Build_ProgressDocument a b c) _). by intros [].
Defined.

(** Any injective encoding will do: the document's code, as one symbol. *)
Definition coded : ProgressCodec := {|
  to_vec_pretty := fun d => [Z.pos (encode d)];
  from_slice := fun s => match s with [Z.pos n; 10] => countable.decode n | _ => None end;
|}.
Lemma coded_laws : @ProgressCodecLaws coded.
Proof. split. intros d. exact (decode_encode d). Qed.

Definition root_process : Process := {| euid := 1000; egid := 1000 |}.
Definition example_path : FilePath := {| parent := Some (lit "/state/s-1"); file_name := lit "progress.json" |}.
Definition example_reporter : Reporter := {| reporter_session := lit "s-1"; reporter_path := example_path |}.
Definition example_state : ProgressState :=
  {| events := [{| revision := 1; at_unix_ms := 7; phase := Accepted; message := lit "accepted"; counters := default_counters |}];
     durable_failed := false |}.
Definition example_disk : Disk :=
  {| names := {[ lit "progress.json" := 0%nat ]};
     inodes := {[ 0%nat := @own root_process (@bytes_of coded (lit "s-1") (events example_state)) true ]};
     next_inode := 1; unsynced := [] |}.
Definition empty_disk : Disk := {| names := ∅; inodes := ∅; next_inode := 0; unsynced := [] |}.

Lemma coded_fits id evs : @fits coded id evs.
Proof. done. Qed.

Lemma example_running : @running root_process coded example_reporter example_state example_disk.
Proof.
  split; [|..|done|done|done].
  - split; [|done|done|].
    + exists 0%nat, (@own root_process (@bytes_of coded (lit "s-1") (events example_state)) true). split_and!; try done.
    + intros [|i] Hi; [simpl in Hi; lia|]. by apply lookup_singleton_ne.
  - split; [simpl; unfold MAX_PROGRESS_EVENTS; lia|by eexists _, _| |].
    + intros [|i] x Hx; [|done]. injection Hx as <-. simpl. split; [lia|]. unfold MAX_PROGRESS_MESSAGE_BYTES. lia.
    + by intros [|i] a b Ha Hb.
Qed.

(** ** Properties *)

(** C32: publishing is atomic, durable and crash safe, whatever calls fail.  From
    a reporter at rest, a publication that answers [Ok] has added exactly its
    event to the memory and, durably, to the snapshot, and the reporter is at rest
    again; one that answers an error either was refused, changing nothing, or has
    stopped the reporter for good while the snapshot still holds one complete
    history, the old or the new one, and never an older one than the memory; and
    at every state the disk went through, a crash and a restart reopen exactly the
    old or the new history.  Without faults a valid event is published. *)
Theorem publish_crash_safe `{Process} `{ProgressCodec} `{!ProgressCodecLaws} (r : Reporter) (st : ProgressState)
    (ph : ProgressPhase) (msg : str) (cs : ProgressCounters) (w : World) :
  running r st (disk w) →
  (∀ ev, next_event st ph msg cs (unix_now_ms w).1 = Ok ev → fits (reporter_session r) (events st ++ [ev])) →
  let '(answer, st', w') := publish r st ph msg cs w in
  let added ev := next_event st ph msg cs (unix_now_ms w).1 = Ok ev in
  match answer with
  | Ok ev => added ev ∧ events st' = events st ++ [ev] ∧ running r st' (disk w')
  | Err _ =>
      (events st' = events st ∧ disk w' = disk w ∧ log w' = log w ∧ ∀ ev, ¬ added ev) ∨
      (durable_failed st' = true ∧ ∃ ev, added ev ∧
        (events st' = events st ∧ (visible r (disk w') (events st) ∨ visible r (disk w') (events st ++ [ev])) ∨
         events st' = events st ++ [ev] ∧ visible r (disk w') (events st ++ [ev])))
  end ∧
  (∃ ds, log w' = log w ++ ds ∧ Forall (λ d, recovers r d (λ evs, evs = events st ∨ ∃ ev, added ev ∧ evs = events st ++ [ev])) ds) ∧
  (faults w = [] → ∀ ev, added ev → answer = Ok ev).
Proof.
  intros [Hset Hhist Hdur Hne Hpar] Hfits. destruct (publish r st ph msg cs w) as [[answer st'] w'] eqn:E. unfold publish in E.
  destruct (unix_now_ms w) as [now w0] eqn:Hnow. cbn [fst] in *. apply clock_world in Hnow as (Hd0 & Hl0 & Hf0).
  destruct (next_event st ph msg cs now) as [ev|[e failed]] eqn:Hev.
  2: { injection E as <- <- <-. split; [left; split_and!; [by destruct failed|done|done|done]|].
       split; [exists []; split; [by rewrite app_nil_r|apply Forall_nil_2]|done]. }
  destruct (next_event_ok _ _ _ _ _ _ Hhist Hev) as (_ & Hhist' & _). specialize (Hfits ev eq_refl).
  pose proof (encode_ok (reporter_session r) _ Hhist') as Henc. rewrite <- Hd0 in Hset.
  destruct (replace_atomically (reporter_path r) (document_of (reporter_session r) (events st ++ [ev])) w0) as [o w1] eqn:Hrep.
  pose proof (replace_steps _ _ _ Hne Hset (reporter_path r) _ eq_refl Hfits _ _ _ _ Henc eq_refl Hrep) as [(ds & Hlog & Hds) Hout].
  assert (Hcrash : ∃ ds, log w1 = log w ++ ds ∧ Forall (λ d, recovers r d (λ evs, evs = events st ∨ ∃ ev0, Ok ev = Ok (E := ServiceError * bool) ev0 ∧ evs = events st ++ [ev0])) ds).
  { exists ds. rewrite Hlog, Hl0. split; [done|]. eapply Forall_impl; [exact Hds|]. intros d' Hd'.
    eapply stable_recovers; [done| |exact Hd']. intros b [-> | ->]; [exists (events st)|exists (events st ++ [ev])]; split_and!; try done; [by left|].
    right. by exists ev. }
  assert (Hcalm : faults w = [] → o = Ok Durable).
  { intros Hf. rewrite Hf in Hf0. destruct w0 as [dw fw cw lw]. simpl in Hf0, Hset. subst fw.
    destruct (replace_calm _ _ _ Hset (reporter_path r) _ eq_refl _ cw lw Henc Hpar) as (w2 & Hw2). simpl in Hrep. rewrite Hw2 in Hrep. by injection Hrep as <- _. }
  unfold document_of in Hrep. rewrite Hrep in E.
  destruct o as [[|e]|e]; injection E as <- <- <-.
  - split; [|split; [done|]]. 2: { intros _ ev' [= ->]. done. }
    destruct Hout as [[_ Hd1]|[[Hno _]|[(e & ?) _]]]; [|done..]. split; [done|]. split; [done|]. split; simpl; try done.
    rewrite Hd1. by apply settled_renamed with (old := bytes_of (reporter_session r) (events st)).
  - split; [|split; [done|]]. 2: { intros Hf. by specialize (Hcalm Hf). }
    destruct Hout as [[? _]|[[_ Hd1]|[(e' & ?) _]]]; [done| |done]. right. split; [done|]. exists ev. split; [done|]. right.
    split; [done|]. unfold visible. rewrite Hd1. by apply renamed_holds.
  - split; [|split; [done|]]. 2: { intros Hf. by specialize (Hcalm Hf). }
    right. split; [done|]. exists ev. split; [done|]. left. split; [done|].
    destruct Hout as [[? _]|[[_ Hd1]|[_ Hold]]]; [done| |].
    + right. unfold visible. rewrite Hd1. by apply renamed_holds.
    + left. by apply stable_visible.
Qed.

Lemma publish_crash_safe_witness :
  let w := calm example_disk [5] in
  ∃ ev, (@publish root_process coded example_reporter example_state StagingPhase (lit "copied") default_counters w).1.1 = Ok ev ∧
    revision ev = 2 ∧ at_unix_ms ev = 7.
Proof.
  intros w.
  assert (Hfits : ∀ ev, next_event example_state StagingPhase (lit "copied") default_counters (unix_now_ms w).1 = Ok ev →
    @fits coded (lit "s-1") (events example_state ++ [ev])) by (intros; apply coded_fits).
  assert (Hev : ∃ ev, next_event example_state StagingPhase (lit "copied") default_counters (unix_now_ms w).1 = Ok ev ∧
    revision ev = 2 ∧ at_unix_ms ev = 7) by (eexists; by vm_compute).
  destruct Hev as (ev & Hev & Hrest).
  pose proof (@publish_crash_safe root_process coded coded_laws example_reporter example_state StagingPhase (lit "copied")
    default_counters w example_running Hfits) as H.
  destruct (publish example_reporter example_state StagingPhase (lit "copied") default_counters w) as [[answer st'] w'].
  destruct H as (_ & _ & Hcalm). exists ev. split; [by apply Hcalm | exact Hrest].
Defined.

(** C38: a restart is invisible.  Whatever a crash does to the disk of a reporter
    at rest, [open] returns the very reporter and memory it had, and leaves the
    disk at rest; so publication can go on. *)
Theorem restart_reopens `{Process} `{ProgressCodec} `{!ProgressCodecLaws} (r : Reporter) (st : ProgressState)
    (d d' : Disk) (ts : list Z) :
  running r st d → crash d d' →
  ∃ w, open (reporter_path r) (reporter_session r) (calm d' ts) = (Ok (r, st), w) ∧ running r st (disk w).
Proof.
  intros [Hset Hhist Hdur Hne Hpar] Hc. pose proof (crash_settled _ _ _ _ Hset Hc) as Hset'.
  destruct (open_holds (reporter_path r) (reporter_session r) (events st) d' ts Hhist Hne) as (w & Ho & Hrec);
    [by apply settled_holds|unfold unpublished_ok; by rewrite (settled_clean _ _ _ Hset')|].
  exists w. split; [rewrite Ho; destruct r, st as [evs failed]; simpl in *; by rewrite Hdur|].
  split; try done. by eapply reconciled_settled.
Qed.

Lemma restart_reopens_witness :
  ∃ w, @open root_process coded example_path (lit "s-1") (calm example_disk []) = (Ok (example_reporter, example_state), w).
Proof.
  destruct (@restart_reopens root_process coded coded_laws example_reporter example_state example_disk example_disk [])
    as (w & Hw & _); [exact example_running| |by exists w].
  split; [left|]. split; [done|]. split; [done|]. intros i.
  destruct (inodes example_disk !! i) as [f|] eqn:Hf; [|done].
  unfold example_disk in Hf. cbn [inodes] in Hf. apply lookup_singleton_Some in Hf as [<- <-]. by split_and!.
Defined.

(** A session begins with one durable snapshot.  When [create] answers [Ok],
    whatever faults it met, the reporter is at rest on a disk that holds exactly
    the accepted event, revision 1, with the caller's message. *)
Theorem create_runs `{Process} `{ProgressCodec} `{!ProgressCodecLaws} (p : FilePath) (id msg : str) (w w' : World)
    (r : Reporter) (st : ProgressState) :
  names (disk w) !! lit "progress.json.next" = None → (∀ i, (next_inode (disk w) <= i)%nat → inodes (disk w) !! i = None) →
  file_name p ≠ lit "progress.json.next" → create p id msg w = (Ok (r, st), w') → fits id (events st) →
  running r st (disk w') ∧
  ∃ e, events st = [e] ∧ revision e = 1 ∧ phase e = Accepted ∧ message e = msg ∧ counters e = default_counters.
Proof.
  intros Hnx Hfresh Hne Hcreate Hfits.
  destruct (create_disk _ _ _ _ _ _ _ Hnx Hfresh Hne Hcreate) as (now & -> & -> & Hhist & Hpar & Hset).
  split; [split; try done; by apply Hset|]. by eexists.
Qed.

Lemma create_runs_witness :
  ∃ st w, @create root_process coded example_path (lit "s-1") (lit "accepted") (calm empty_disk [7]) = (Ok (example_reporter, st), w) ∧
    @running root_process coded example_reporter st (disk w).
Proof.
  assert (E : ∃ st w, @create root_process coded example_path (lit "s-1") (lit "accepted") (calm empty_disk [7]) = (Ok (example_reporter, st), w))
    by (eexists _, _; by vm_compute).
  destruct E as (st & w & E). exists st, w. split; [exact E|].
  apply (@create_runs root_process coded coded_laws example_path (lit "s-1") (lit "accepted") (calm empty_disk [7]) w example_reporter st);
    [done|done|done|exact E|apply coded_fits].
Defined.

(** [validate_document] accepts exactly the histories of the session it is
    asked about: the right schema and session, one to 4096 events numbered from
    one without a gap, each with a bounded message, timestamps and all five
    counters never going back, the first one accepted. *)
Theorem validate_document_exact (doc : ProgressDocument) (id : str) :
  validate_document doc id = Ok tt ↔
  schema_version doc = 2 ∧ session_id doc = id ∧ history_ok (doc_events doc).
Proof. apply validate_document_ok. Qed.

(** The first barrier and then the re-reading of the published bytes fail: the new
    snapshot is visible while the reporter's memory keeps the old history. *)
Lemma publish_memory_lags :
  let w := {| disk := example_disk; faults := replicate 6 Succeeds ++ [Fails 0; Fails 0]; clock := [9]; log := [] |} in
  let '(answer, st', w') := @publish root_process coded example_reporter example_state StagingPhase (lit "copied") default_counters w in
  is_ok answer = false ∧ events st' = events example_state ∧ durable_failed st' = true ∧
  names (disk w') !! lit "progress.json" = Some 1%nat ∧
  (file_synced <$> inodes (disk w') !! 1%nat) = Some true.
Proof. by vm_compute. Qed.
