(* ===== verification/Site.v ===== *)
(** * Site: where a session is kept, and what a crash may leave of it

    A session owns a directory of records, a raw tree beside the other sessions',
    and control files among the records of all.  Each directory has its own
    barrier; files are those of module Disk.  A recursive removal that fails
    leaves what the class [Removal] says.  Every state the site went through is
    kept, so a theorem can speak of a crash at each. *)
From S2P Require Import Prelude Number Utf8 BTree Json JsonTree Schema Stream ServiceError Disk.

(** ** Directories *)
Inductive EntryKind := ADirectory | ALink | AFile | AnotherKind.
Global Instance EntryKind_eq_dec : EqDecision EntryKind.
Proof. solve_decision. Defined.

(** [std::fs::Metadata] of what may be a directory *)
Record Meta := { entry_kind : EntryKind; meta_mode : Z; meta_uid : Z; meta_gid : Z }.
Global Instance Meta_eq_dec : EqDecision Meta.
Proof. solve_decision. Defined.

(** [metadata.is_dir()], no link, mode 0755, the service's user and group *)
Definition service_directory (m : Meta) : bool :=
  bool_decide (entry_kind m = ADirectory) && (Z.land (meta_mode m) 511 =? 493) && (meta_uid m =? 1000) && (meta_gid m =? 1000).

(** A name of a directory: what it is a name of now, and what it was since the
    directory's last barrier. *)
Record Slot (A : Type) := { here : option A; before : list (option A) }.
#[global] Arguments here {A} _.
#[global] Arguments before {A} _.
#[global] Arguments Build_Slot {A} _ _.

Definition put {A} (a : option A) (s : Slot A) : Slot A := {| here := a; before := here s :: before s |}.
(** What the name refers to changes, the name does not. *)
Definition adjust {A} (a : A) (s : Slot A) : Slot A := {| here := Some a; before := before s |}.
Definition settle {A} (s : Slot A) : Slot A := {| here := here s; before := [] |}.

Record ControlDir := { control_meta : Meta; control_files : Disk }.
(** A session's raw tree; [evidence] is every file of it outside its control
    directory, by path. *)
Record Tree := { root : Meta; control : Slot ControlDir; evidence : gmap str str; evidence_before : list (gmap str str) }.
Record ResultDir := { result_meta : Meta; result_files : Disk }.

(** [records]: the control files of the records directory; [result_dir], [raw]: the
    session's entries in it and among the sessions. *)
Record Site := { records : Disk; result_dir : Slot ResultDir; raw : Slot Tree }.

Definition set_records (d : Disk) (s : Site) : Site := {| records := d; result_dir := result_dir s; raw := raw s |}.
Definition set_result (r : Slot ResultDir) (s : Site) : Site := {| records := records s; result_dir := r; raw := raw s |}.
Definition set_raw (t : Slot Tree) (s : Site) : Site := {| records := records s; result_dir := result_dir s; raw := t |}.
Definition set_result_files (d : Disk) (dir : ResultDir) (s : Site) : Site :=
  set_result (adjust {| result_meta := result_meta dir; result_files := d |} (result_dir s)) s.
Definition with_control (c : Slot ControlDir) (t : Tree) : Tree :=
  {| root := root t; control := c; evidence := evidence t; evidence_before := evidence_before t |}.
Definition set_control_files (d : Disk) (c : ControlDir) (t : Tree) (s : Site) : Site :=
  set_raw (adjust (with_control (adjust {| control_meta := control_meta c; control_files := d |} (control t)) t) (raw s)) s.

(** ** What a removal that failed left *)

(** What is left of the control directory has the files it had, and names for
    some of them; the tree keeps its own name and owner. *)
Record remains (t t' : Tree) : Prop := {
  remains_root : root t' = root t;
  remains_evidence : evidence t' ⊆ evidence t;
  remains_control : ∀ c', here (control t') = Some c' → ∃ c, here (control t) = Some c ∧ before (control t') = before (control t)
    ∧ control_meta c' = control_meta c ∧ inodes (control_files c') = inodes (control_files c)
    ∧ next_inode (control_files c') = next_inode (control_files c) ∧ names (control_files c') ⊆ names (control_files c);
}.

Class Removal := {
  remnant : nat → Tree → option Tree;
  remnant_remains : ∀ n t t', remnant n t = Some t' → remains t t';
}.

(** ** Calls *)
Record State := { site : Site; site_faults : list Fault; site_clock : list Z; past : list Site }.
Definition op (E A : Type) : Type := State → result E A * State.

Global Instance op_ret {E} : MRet (op E) := fun A a st => (Ok a, st).
Global Instance op_bind {E} : MBind (op E) := fun A B f m st =>
  match m st with (Ok a, st) => f a st | (Err e, st) => (Err e, st) end.

Definition just {E A} (r : result E A) : op E A := fun st => (r, st).
Definition op_map_err {E F A} (f : E → F) (m : op E A) : op F A := fun st =>
  match m st with (Ok a, st) => (Ok a, st) | (Err e, st) => (Err (f e), st) end.
(** [map_err(|error| ServiceError::Internal(io_msg(context, path, &error)))] *)
Definition failing {A} (context : string) (m : op IoError A) : op ServiceError A :=
  op_map_err (fun _ => Internal (lit context)) m.
(** [match m { .. }], on the error too *)
Definition attempt {E F A} (m : op E A) : op F (result E A) := fun st => let '(r, st) := m st in (Ok r, st).

Definition next_fault (st : State) : Fault * State :=
  match site_faults st with
  | [] => (Succeeds, st)
  | f :: fs => (f, {| site := site st; site_faults := fs; site_clock := site_clock st; past := past st |})
  end.
Definition moved (s : Site) (st : State) : State :=
  {| site := s; site_faults := site_faults st; site_clock := site_clock st; past := past st ++ [s] |}.

(** A call on the site that meets no fault: its answer, and the site it leaves if
    it changes it. *)
Definition call {A} (f : Site → result IoError A * option Site) : op IoError A := fun st =>
  match next_fault st with
  | (Fails _, st) => (Err OtherError, st)
  | (Succeeds, st) =>
      match f (site st) with
      | (r, Some s) => (r, moved s st)
      | (r, None) => (r, st)
      end
  end.

(** Calls of module Disk, in one of the directories. *)
Definition in_dir {E A} (d : Disk) (rebuild : Disk → Site) (m : io E A) : op E A := fun st =>
  let '(r, w) := m {| disk := d; faults := site_faults st; clock := site_clock st; log := [] |} in
  (r, {| site := rebuild (disk w); site_faults := faults w; site_clock := clock w; past := past st ++ map rebuild (log w) |}).

Definition in_records {E A} (m : io E A) : op E A := fun st => in_dir (records (site st)) (fun d => set_records d (site st)) m st.
Definition in_result {A} (m : io IoError A) : op IoError A := fun st =>
  match here (result_dir (site st)) with
  | Some dir => in_dir (result_files dir) (fun d => set_result_files d dir (site st)) m st
  | None => (Err NotFoundError, (next_fault st).2)
  end.
(** Readers of the service that go through many calls. *)
Definition reading {A} (m : io ServiceError A) : op ServiceError A := fun st =>
  match here (result_dir (site st)) with
  | Some dir => in_dir (result_files dir) (fun d => set_result_files d dir (site st)) m st
  | None => (internal "the result directory is absent", (next_fault st).2)
  end.
Definition in_control {A} (m : io IoError A) : op IoError A := fun st =>
  match here (raw (site st)) with
  | Some t =>
      match here (control t) with
      | Some c => in_dir (control_files c) (fun d => set_control_files d c t (site st)) m st
      | None => (Err NotFoundError, (next_fault st).2)
      end
  | None => (Err NotFoundError, (next_fault st).2)
  end.

Definition stat_result : op IoError Meta := call (fun s => (ok_or (result_meta <$> here (result_dir s)) NotFoundError, None)).
Definition stat_raw : op IoError Meta := call (fun s => (ok_or (root <$> here (raw s)) NotFoundError, None)).
Definition stat_control : op IoError Meta :=
  call (fun s => (ok_or (t ← here (raw s); control_meta <$> here (control t)) NotFoundError, None)).

(** [std::fs::create_dir], by a process whose umask is not known, and
    [set_permissions]. *)
Definition create_result `{Process} : op IoError unit :=
  call (fun s =>
    match here (result_dir s) with
    | Some _ => (Err AlreadyExistsError, None)
    | None =>
        let dir := {| result_meta := {| entry_kind := ADirectory; meta_mode := 511; meta_uid := euid; meta_gid := egid |};
                      result_files := {| names := ∅; inodes := ∅; next_inode := 0; unsynced := [] |} |} in
        (Ok tt, Some (set_result (put (Some dir) (result_dir s)) s))
    end).
Definition chmod_result (m : Z) : op IoError unit :=
  call (fun s =>
    match here (result_dir s) with
    | None => (Err NotFoundError, None)
    | Some dir =>
        let meta := result_meta dir in
        let meta := {| entry_kind := entry_kind meta; meta_mode := m; meta_uid := meta_uid meta; meta_gid := meta_gid meta |} in
        (Ok tt, Some (set_result (adjust {| result_meta := meta; result_files := result_files dir |} (result_dir s)) s))
    end).

(** The barrier of the directory of records, and of the one of sessions. *)
Definition sync_records : op IoError unit :=
  call (fun s =>
    let d := records s in
    (Ok tt, Some {| records := {| names := names d; inodes := inodes d; next_inode := next_inode d; unsynced := [] |};
                    result_dir := settle (result_dir s); raw := raw s |})).
Definition sync_sessions : op IoError unit := call (fun s => (Ok tt, Some (set_raw (settle (raw s)) s))).

(** [std::fs::remove_dir_all] *)
Definition remove_raw `{Removal} : op IoError unit := fun st =>
  let '(fault, st) := next_fault st in
  match here (raw (site st)), fault with
  | None, _ => (Err NotFoundError, st)
  | Some _, Succeeds => (Ok tt, moved (set_raw (put None (raw (site st))) (site st)) st)
  | Some t, Fails n =>
      match remnant n t with
      | Some t' => (Err OtherError, moved (set_raw (adjust t' (raw (site st))) (site st)) st)
      | None => (Err OtherError, moved (set_raw (put None (raw (site st))) (site st)) st)
      end
  end.
(** A directory of records goes file by file: some of their names are left. *)
Definition remove_result : op IoError unit := fun st =>
  let '(fault, st) := next_fault st in
  match here (result_dir (site st)), fault with
  | None, _ => (Err NotFoundError, st)
  | Some _, Succeeds => (Ok tt, moved (set_result (put None (result_dir (site st))) (site st)) st)
  | Some dir, Fails n =>
      let d := result_files dir in
      let left := list_to_map (drop n (map_to_list (names d))) in
      (Err OtherError, moved (set_result_files (set_names left d) dir (site st)) st)
  end.

(** ** Crashes *)

(** Each directory is in one of the states it had since its last barrier. *)
Definition crash_slot {A} (R old : A → A → Prop) (s s' : Slot A) : Prop :=
  before s' = [] ∧
  ((∃ a a', here s = Some a ∧ here s' = Some a' ∧ R a a') ∨ (here s = None ∧ here s' = None) ∨
   (None ∈ before s ∧ here s' = None) ∨ (∃ a a', Some a ∈ before s ∧ here s' = Some a' ∧ old a a')).

Definition crash_control (c c' : ControlDir) : Prop := control_meta c' = control_meta c ∧ crash (control_files c) (control_files c').
Definition crash_tree (t t' : Tree) : Prop :=
  root t' = root t ∧ crash_slot crash_control (fun _ _ => True) (control t) (control t') ∧
  evidence t' ∈ evidence t :: evidence_before t ∧ evidence_before t' = [].
Definition crash_result (r r' : ResultDir) : Prop := result_meta r' = result_meta r ∧ crash (result_files r) (result_files r').

(** Nothing waits for a barrier. *)
Definition quiet_disk (d : Disk) : Prop := unsynced d = [] ∧ ∀ i f, inodes d !! i = Some f → file_synced f = true.
Definition quiet_tree (t : Tree) : Prop :=
  evidence_before t = [] ∧ before (control t) = [] ∧ ∀ c, here (control t) = Some c → quiet_disk (control_files c).

(** A tree that was removed may come back with any part of what it held. *)
Definition comes_back (t t' : Tree) : Prop := root t' = root t ∧ quiet_tree t'.

Record crash_site (s s' : Site) : Prop := {
  crash_records : crash (records s) (records s');
  crash_of_result : crash_slot crash_result (fun r r' => result_meta r' = result_meta r ∧ quiet_disk (result_files r')) (result_dir s) (result_dir s');
  crash_of_raw : crash_slot crash_tree comes_back (raw s) (raw s');
}.

(** A run that meets no fault. *)
Definition undisturbed (s : Site) (ts : list Z) : State := {| site := s; site_faults := []; site_clock := ts; past := [] |}.

(** ** A logic of calls

    [after calm S m Q s]: from the site [s], whatever calls fail -- none, when
    [calm] -- [m] goes through sites with [S] only and leaves one that its answer
    says. *)
Definition went (S : Site → Prop) (st st' : State) : Prop := ∃ xs, past st' = past st ++ xs ∧ Forall S xs.
Definition faultless (calm : bool) (fs : list Fault) : Prop := calm = true → fs = [].
Definition after {E A} (calm : bool) (S : Site → Prop) (m : op E A) (Q : result E A → Site → Prop) (s : Site) : Prop :=
  ∀ st r st', faultless calm (site_faults st) → site st = s → m st = (r, st') →
    went S st st' ∧ Q r (site st') ∧ faultless calm (site_faults st').

Lemma went_refl S st st' : past st' = past st → went S st st'.
Proof. intros E. exists []. by rewrite app_nil_r. Qed.
Lemma went_trans S a b c : went S a b → went S b c → went S a c.
Proof. intros (xs & E & F) (ys & E' & F'). exists (xs ++ ys). rewrite E', E, app_assoc. split; [done|]. by apply Forall_app. Qed.
Lemma went_mono (S T : Site → Prop) a b : (∀ s, S s → T s) → went S a b → went T a b.
Proof. intros HST (xs & E & F). exists xs. split; [done|]. by eapply Forall_impl. Qed.
