(* ===== verification/Deliverables.v ===== *)
(** * Deliverables: the files a run must leave (src/deliverables.rs)

    A list of declared paths is admitted exactly as written or refused; its control
    record has one canonical spelling.  serde_json's compact serialization of a
    list of strings is the class [ListCodec]. *)
From S2P Require Import Prelude Utf8.

Definition ARTIFACTS_ROOT : str := lit "/artifacts".
Definition NAME_MAX : nat := 255.
Definition PATH_MAX : nat := 4096.
Definition MAX_DELIVERABLE_PATH_BYTES : nat := Z.to_nat (4096 - 1 - (Z.of_nat (length ARTIFACTS_ROOT) + 1)).
Definition MAX_ARG_STRLEN : Z := 32 * 4096.
Definition ARGUMENT_PREFIX : str := lit "--deliverables=".
Definition MAX_DELIVERABLES_JSON_BYTES : Z := MAX_ARG_STRLEN - Z.of_nat (length ARGUMENT_PREFIX) - 1.
(** [{"deliverables":] and, after the list, a brace and a newline. *)
Definition RECORD_PREFIX : str := quoted "{'deliverables':".
Definition RECORD_SUFFIX : str := [125; 10].
Definition MAX_RECORD_BYTES : Z :=
  Z.of_nat (length RECORD_PREFIX) + MAX_DELIVERABLES_JSON_BYTES + Z.of_nat (length RECORD_SUFFIX).

(** [serde_json::to_string] and [from_str] of a [Vec<String>]. *)
Class ListCodec := {
  list_to_string : list str → option str;
  list_from_str : str → option (list str);
}.
(** A list of strings serializes, to a text that is UTF-8 and reads back. *)
Class ListCodecLaws `{ListCodec} := {
  list_to_string_total : ∀ ps, Forall Valid ps → ∃ s, list_to_string ps = Some s;
  list_to_string_Valid : ∀ ps s, Forall Valid ps → list_to_string ps = Some s → Valid s;
  list_from_to : ∀ ps s, list_to_string ps = Some s → list_from_str s = Some ps;
}.

(** Why a list or a record is refused: the entry, when it is one entry's fault. *)
Record DeliverablesError := { entry_index : option nat; rule : str }.
Record Deliverables := { paths : list str; json : str }.

Definition entry_error {A} (index : nat) (rule : string) : result DeliverablesError A :=
  Err {| entry_index := Some index; rule := lit rule |}.
Definition list_error {A} (rule : string) : result DeliverablesError A := Err {| entry_index := None; rule := lit rule |}.

Definition component_step (index : nat) (_ : unit) (component : str) : result DeliverablesError unit :=
  if (length component =? 0)%nat then entry_error index "has an empty component (a doubled or trailing slash)"
  else if bool_decide (component = lit ".") || bool_decide (component = lit "..") then entry_error index "has a . or .. component"
  else if (NAME_MAX <? length component)%nat then entry_error index "has a component past the 255-byte limit (NAME_MAX)"
  else Ok tt.

Definition check_path (index : nat) (path : str) : result DeliverablesError unit :=
  if (length path =? 0)%nat then entry_error index "is empty"
  else if existsb (Z.eqb 0) path then entry_error index "contains a NUL byte"
  else if starts_with (lit "/") path then entry_error index "starts with a slash"
  else
    _ ← fold_result (component_step index) tt (split_on 47 path);
    if (MAX_DELIVERABLE_PATH_BYTES <? length path)%nat then entry_error index "is past the path limit (PATH_MAX)"
    else Ok tt.

(** The loop of [new]: the [HashMap] from a path to its first index. *)
Definition new_step (first_index : gmap str nat) (entry : nat * str) : result DeliverablesError (gmap str nat) :=
  let '(index, path) := entry in
  _ ← check_path index path;
  match first_index !! path with
  | Some _ => entry_error index "repeats an earlier deliverable"
  | None => Ok (<[path := index]> first_index)
  end.

Section Deliverables.
Context `{ListCodec}.

Definition new (ps : list str) : result DeliverablesError Deliverables :=
  _ ← fold_result new_step ∅ (imap pair ps);
  json ← ok_or (list_to_string ps) {| entry_index := None; rule := lit "could not be serialized as JSON" |};
  if MAX_DELIVERABLES_JSON_BYTES <? Z.of_nat (length json) then list_error "is past its compact JSON byte bound"
  else Ok {| paths := ps; json := json |}.

Definition argument (d : Deliverables) : str := ARGUMENT_PREFIX ++ json d.
Definition record (d : Deliverables) : str := RECORD_PREFIX ++ json d ++ RECORD_SUFFIX.

Definition from_record (bytes : str) : result DeliverablesError Deliverables :=
  if MAX_RECORD_BYTES <? Z.of_nat (length bytes) then list_error "is not one canonical record line"
  else if negb (is_ok (from_utf8 bytes)) then list_error "is not UTF-8"
  else
    text ← ok_or (strip_prefix RECORD_PREFIX bytes ≫= strip_suffix RECORD_SUFFIX)
             {| entry_index := None; rule := lit "is not one canonical record line" |};
    ps ← ok_or (list_from_str text) {| entry_index := None; rule := lit "the list is not a JSON array of strings" |};
    d ← new ps;
    if bool_decide (json d ≠ text) then list_error "the list is not in its compact serialization" else Ok d.
End Deliverables.

(** ** The rule, declaratively *)

(** One path component that a Linux directory can hold and that names itself. *)
Definition good_component (c : str) : Prop :=
  c ≠ [] ∧ 47 ∉ c ∧ 0 ∉ c ∧ c ≠ lit "." ∧ c ≠ lit ".." ∧ (length c <= NAME_MAX)%nat.

(** A path the client can open beneath [/artifacts] exactly as written. *)
Definition good_path (p : str) : Prop :=
  (∃ cs, cs ≠ [] ∧ Forall good_component cs ∧ p = join 47 cs) ∧
  (length (ARTIFACTS_ROOT ++ lit "/" ++ p) < PATH_MAX)%nat.

Lemma split_join cs : cs ≠ [] → Forall (fun c => 47 ∉ c) cs → split_on 47 (join 47 cs) = cs.
Proof.
  assert (Hone : ∀ c rest, 47 ∉ c → split_on 47 (c ++ rest) =
    match split_on 47 rest with p :: ps => (c ++ p) :: ps | [] => [c] end).
  { induction c as [|b c IH]; intros rest Hc; simpl.
    - pose proof (split_on_nonempty 47 rest). by destruct (split_on 47 rest).
    - apply not_elem_of_cons in Hc as [Hb Hc]. rewrite IH by done.
      destruct (Z.eqb_spec b 47); [congruence|]. by destruct (split_on 47 rest). }
  intros Hne Hcs. induction Hcs as [|c cs Hc Hcs IH]; [done|]. destruct cs as [|c' cs].
  - simpl. pose proof (Hone c [] Hc) as E. simpl in E. by rewrite !app_nil_r in E.
  - change (join 47 (c :: c' :: cs)) with (c ++ 47 :: join 47 (c' :: cs)). rewrite Hone by done.
    cbn [split_on Z.eqb Pos.eqb]. rewrite IH by done. by rewrite app_nil_r.
Qed.

Lemma elem_of_join b cs : b ∈ join 47 cs → b = 47 ∨ ∃ c, c ∈ cs ∧ b ∈ c.
Proof.
  induction cs as [|c cs IH]; [by intros Hb%not_elem_of_nil|]. destruct cs as [|c' cs].
  - simpl. intros Hb. right. exists c. split; [by left | done].
  - change (join 47 (c :: c' :: cs)) with (c ++ 47 :: join 47 (c' :: cs)). rewrite elem_of_app, elem_of_cons.
    intros [Hb|[->|Hb]]; [right; exists c; split; [by left|done]|by left|].
    destruct (IH Hb) as [->|(x & Hx & Hbx)]; [by left|]. right. exists x. split; [by right|done].
Qed.

Lemma elem_of_component b c cs : c ∈ cs → b ∈ c → b ∈ join 47 cs.
Proof.
  intros Hc Hb. induction cs as [|x cs IH]; [by apply not_elem_of_nil in Hc|]. destruct cs as [|y cs].
  - apply list_elem_of_singleton in Hc as ->. done.
  - change (join 47 (x :: y :: cs)) with (x ++ 47 :: join 47 (y :: cs)). rewrite elem_of_app, elem_of_cons.
    apply elem_of_cons in Hc as [->|Hc]; [by left | right; right; by apply IH].
Qed.

Lemma component_step_ok i c : component_step i tt c = Ok tt ↔ c ≠ [] ∧ c ≠ lit "." ∧ c ≠ lit ".." ∧ (length c <= NAME_MAX)%nat.
Proof.
  unfold component_step. destruct (Nat.eqb_spec (length c) 0) as [H0|H0].
  { apply nil_length_inv in H0 as ->. split; [done | by intros [? _]]. }
  assert (c ≠ []) by (by intros ->). case_bool_decide; [split; [done|]; by intros (_ & ? & _)|].
  case_bool_decide; [split; [done|]; by intros (_ & _ & ? & _)|]. cbn [orb].
  destruct (Nat.ltb_spec NAME_MAX (length c)); split; try done; [intros (_&_&_&?); lia].
Qed.

Lemma check_path_ok i p : check_path i p = Ok tt ↔ good_path p.
Proof.
  unfold check_path. destruct (Nat.eqb_spec (length p) 0) as [H0|H0].
  { apply nil_length_inv in H0 as ->. split; [done|]. intros [([|c cs] & Hne & Hcs & E) _]; [done|].
    apply Forall_cons in Hcs as [(Hc & _) _]. destruct cs; simpl in E; [by subst|]. by destruct c. }
  destruct (existsb (Z.eqb 0) p) eqn:Hnul.
  { split; [done|]. apply existsb_exists in Hnul as (b & Hb & Hb0). apply Z.eqb_eq in Hb0 as <-. apply list_elem_of_In in Hb.
    intros [(cs & _ & Hcs & ->) _]. apply elem_of_join in Hb as [?|(c & Hc & Hb)]; [done|].
    rewrite Forall_forall in Hcs. by destruct (Hcs c Hc) as (_ & _ & ? & _). }
  assert (H0p : 0 ∉ p).
  { intros Hin. assert (E : existsb (Z.eqb 0) p = true) by (apply existsb_exists; exists 0; by split; [apply list_elem_of_In|]). congruence. }
  destruct (starts_with (lit "/") p) eqn:Hslash.
  { split; [done|]. apply starts_with_spec in Hslash as [r ->]. intros [([|c cs] & Hne & Hcs & E) _]; [done|].
    apply Forall_cons in Hcs as [(Hc & Hc47 & _) _].
    assert (Hhead : ∃ c0, c = 47 :: c0).
    { destruct c as [|b c]; [done|]. destruct cs; simpl in E; injection E as <- _; by eexists. }
    destruct Hhead as [c0 ->]. apply not_elem_of_cons in Hc47 as [? _]. done. }
  assert (Hlen : (length (ARTIFACTS_ROOT ++ lit "/" ++ p) < PATH_MAX)%nat ↔ (length p <= MAX_DELIVERABLE_PATH_BYTES)%nat).
  { rewrite !length_app. change (length ARTIFACTS_ROOT) with 10%nat. change (length (lit "/")) with 1%nat.
    change MAX_DELIVERABLE_PATH_BYTES with (Z.to_nat 4084). unfold PATH_MAX. lia. }
  assert (Hcomp : fold_result (component_step i) tt (split_on 47 p) = Ok tt ↔ Forall good_component (split_on 47 p)).
  { rewrite fold_result_unit, !Forall_forall. pose proof (split_on_no_sep 47 p) as Hno. rewrite Forall_forall in Hno.
    split; intros Hall c Hc; specialize (Hall c Hc); [apply component_step_ok in Hall as (?&?&?&?)|apply component_step_ok; by destruct Hall as (?&_&_&?&?&?)].
    split_and!; try done; [by apply Hno|]. intros Hz. apply H0p. rewrite <- (join_split 47 p). by eapply elem_of_component. }
  assert (Hgood : good_path p ↔ Forall good_component (split_on 47 p) ∧ (length p <= MAX_DELIVERABLE_PATH_BYTES)%nat).
  { unfold good_path. rewrite Hlen. split; intros [Hl Hr]; (split; [|done]).
    - destruct Hl as (cs & Hne & Hcs & ->). rewrite split_join; [done|done|]. eapply Forall_impl; [exact Hcs|]. by intros c (_ & ? & _).
    - exists (split_on 47 p). split; [apply split_on_nonempty|]. by rewrite join_split. }
  rewrite Hgood, <- Hcomp. destruct (fold_result (component_step i) tt (split_on 47 p)) as [[]|]; [|split; [done | by intros [? _]]].
  rewrite bind_ok. destruct (Nat.ltb_spec MAX_DELIVERABLE_PATH_BYTES (length p)); split; try done; intros [_ ?]; lia.
Qed.

Lemma new_loop_ok (k : nat) ps m :
  (∃ m', fold_result new_step m (imap (fun i p => ((k + i)%nat, p)) ps) = Ok m') ↔
  Forall good_path ps ∧ NoDup ps ∧ (∀ p, p ∈ ps → m !! p = None).
Proof.
  revert k m. induction ps as [|p ps IH]; intros k m; simpl.
  - split; [|by eauto]. intros _. split_and!; [apply Forall_nil_2|apply NoDup_nil_2|by intros p Hp%not_elem_of_nil].
  - assert (E : imap ((λ i p, ((k + i)%nat, p)) ∘ S) ps = imap (λ i p, ((S k + i)%nat, p)) ps).
    { apply imap_ext. intros i x _. simpl. f_equal. lia. }
    rewrite E, Forall_cons, NoDup_cons. rewrite <- (check_path_ok (k + 0) p).
    destruct (check_path (k + 0) p) as [[]|]; [|split; [by intros [? ?]|by intros [[? _] _]]]. rewrite bind_ok.
    destruct (m !! p) as [j|] eqn:Hm.
    { split; [by intros [? ?]|]. intros (_ & _ & Hall). rewrite Hall in Hm; [done|by left]. }
    rewrite bind_ok, IH. split.
    + intros (Hg & Hnd & Hall). split; [done|]. split; [split; [|done]|].
      * intros Hin. specialize (Hall p Hin). by rewrite lookup_insert_eq in Hall.
      * intros q Hq. apply elem_of_cons in Hq as [->|Hq]; [done|]. specialize (Hall q Hq).
        by apply lookup_insert_None in Hall as [? _].
    + intros ([_ Hg] & [Hni Hnd] & Hall). split_and!; try done. intros q Hq.
      rewrite lookup_insert_ne by (by intros ->). apply Hall. by right.
Qed.

Section Admission.
Context `{ListCodec}.

Lemma new_inv ps d :
  new ps = Ok d ↔ Forall good_path ps ∧ NoDup ps ∧ list_to_string ps = Some (json d) ∧
    Z.of_nat (length (json d)) <= MAX_DELIVERABLES_JSON_BYTES ∧ paths d = ps.
Proof.
  pose proof (new_loop_ok 0 ps ∅) as Hloop.
  assert (E : imap (λ i p, ((0 + i)%nat, p)) ps = imap pair ps) by (by apply imap_ext). rewrite E in Hloop. clear E.
  unfold new. set (M := MAX_DELIVERABLES_JSON_BYTES). split.
  - intros (m & Hm & (s & Hs%ok_or_ok & Hr)%bind_ok_inv)%bind_ok_inv.
    destruct (proj1 Hloop (ex_intro _ _ Hm)) as (Hg & Hnd & _). destruct (Z.ltb_spec M (Z.of_nat (length s))); [done|].
    injection Hr as <-. by split_and!.
  - intros (Hg & Hnd & Hs & Hl & Hp). destruct (proj2 Hloop) as [m Hm]; [split_and!; try done; intros; apply lookup_empty|].
    rewrite Hm, bind_ok, Hs. cbn [ok_or]. rewrite bind_ok. destruct (Z.ltb_spec M (Z.of_nat (length (json d)))); [lia|].
    destruct d. simpl in *. by subst.
Qed.
End Admission.

(** A codec that satisfies the laws: the list's code, in decimal. *)
Definition decimal_lists : ListCodec := {|
  list_to_string := fun ps => Some (show_Z (Z.pos (encode ps)));
  list_from_str := fun s => countable.decode (Z.to_pos (digits_value s));
|}.
Lemma decimal_lists_laws : @ListCodecLaws decimal_lists.
Proof.
  split.
  - intros ps _. by eexists.
  - intros ps s _ [= <-]. destruct (show_Z_spec (Z.pos (encode ps))) as (_ & Hd & _); [lia|].
    apply Valid_ascii, Forall_forall. intros b Hb. rewrite forallb_forall in Hd.
    apply list_elem_of_In, Hd, is_ascii_digit_spec in Hb. lia.
  - intros ps s [= <-]. cbn [list_from_str decimal_lists]. destruct (show_Z_spec (Z.pos (encode ps))) as (-> & _); [lia|].
    exact (decode_encode ps).
Qed.

(** ** Properties *)

(** [Deliverables::new] admits exactly the lists whose every entry is a
    relative path of components a Linux directory can hold, none of them [.] or
    [..], that fits [PATH_MAX] beneath [/artifacts], with no entry repeated, and
    whose argument [--deliverables=<list>] with its NUL is one argument [execve]
    accepts; the list is kept exactly as declared. *)
Theorem new_admits_exactly `{ListCodec} (ps : list str) (d : Deliverables) :
  new ps = Ok d ↔
  Forall good_path ps ∧ NoDup ps ∧ paths d = ps ∧ list_to_string ps = Some (json d) ∧
  Z.of_nat (length (argument d)) + 1 <= MAX_ARG_STRLEN.
Proof.
  rewrite new_inv. unfold argument. rewrite length_app.
  change MAX_DELIVERABLES_JSON_BYTES with 131056. change MAX_ARG_STRLEN with 131072. change (length ARGUMENT_PREFIX) with 15%nat.
  split; intros (?&?&?&?&?); split_and!; try done; lia.
Qed.

(** A control record has one spelling.  Whatever [from_record] accepts is
    byte for byte the record of the list it returns, and that list is one [new]
    admits; and the record of an admitted list of texts is read back as it was. *)
Theorem record_canonical `{ListCodec} `{!ListCodecLaws} (bytes : str) (d : Deliverables) :
  (from_record bytes = Ok d → bytes = record d ∧ new (paths d) = Ok d) ∧
  (new (paths d) = Ok d → Forall Valid (paths d) → from_record (record d) = Ok d).
Proof.
  split.
  - unfold from_record. destruct (_ <? _); [done|]. destruct (negb _); [done|].
    intros (text & Ht%ok_or_ok & (ps & Hps%ok_or_ok & (d' & Hd & Hr)%bind_ok_inv)%bind_ok_inv)%bind_ok_inv.
    case_bool_decide as Hj; [done|]. injection Hr as <-.
    destruct (strip_prefix RECORD_PREFIX bytes) as [rest|] eqn:Hp; [|done]. simpl in Ht.
    apply strip_prefix_Some in Hp. apply strip_suffix_Some in Ht.
    assert (Hpaths : paths d' = ps) by by apply new_inv in Hd as (_&_&_&_&?).
    split; [unfold record; congruence | by rewrite Hpaths].
  - intros Hnew Hvalid. pose proof Hnew as (_ & _ & Hs & Hl & _)%new_inv. unfold from_record, record.
    assert (Hlen : (MAX_RECORD_BYTES <? Z.of_nat (length (RECORD_PREFIX ++ json d ++ RECORD_SUFFIX))) = false).
    { apply Z.ltb_ge. rewrite !length_app. change MAX_DELIVERABLES_JSON_BYTES with 131056 in Hl.
      change MAX_RECORD_BYTES with 131074. change (length RECORD_PREFIX) with 16%nat. change (length RECORD_SUFFIX) with 2%nat. lia. }
    rewrite Hlen.
    assert (Hutf : is_ok (from_utf8 (RECORD_PREFIX ++ json d ++ RECORD_SUFFIX)) = true).
    { apply from_utf8_Valid. repeat apply Valid_app.
      - apply from_utf8_Valid. by vm_compute.
      - by eapply list_to_string_Valid.
      - apply from_utf8_Valid. by vm_compute. }
    rewrite Hutf. cbn [negb]. rewrite (proj2 (strip_prefix_Some _ _ _) eq_refl). simpl.
    rewrite (proj2 (strip_suffix_Some _ _ _) eq_refl). cbn [ok_or]. rewrite bind_ok.
    rewrite (list_from_to _ _ Hs). cbn [ok_or]. rewrite bind_ok, Hnew, bind_ok. by rewrite bool_decide_false by (by intros Hn; apply Hn).
Qed.

Lemma record_canonical_witness :
  ∃ d, @new decimal_lists [lit "out/report.md"; lit "a"] = Ok d ∧ @from_record decimal_lists (record d) = Ok d.
Proof.
  assert (E : ∃ d, @new decimal_lists [lit "out/report.md"; lit "a"] = Ok d ∧ paths d = [lit "out/report.md"; lit "a"])
    by (eexists; by vm_compute).
  destruct E as (d & E & Hp). exists d. split; [exact E|].
  apply (@record_canonical decimal_lists decimal_lists_laws [] d); rewrite Hp; [exact E|].
  repeat (apply Forall_cons_2; [apply from_utf8_Valid; by vm_compute|]). by apply Forall_nil_2.
Defined.
