(* ===== verification/Validation.v ===== *)
(** * Validation: the session-creation body (src/validation.rs)

    The prompt, the turn budget and the archive commitment are admitted exactly as
    sent or refused, and a validated request is one whose every part satisfies its
    rule on the disk as it is.  Normalization (the [unicode_normalization] crate)
    and serde_json's numbers are classes. *)
From S2P Require Import Prelude Number Utf8 BTree Json JsonTree Schema Stream ServiceError Disk Deliverables.

Definition MAX_PROMPT_BYTES : nat := 16384.
Definition MAX_STAGED_BYTES : Z := 200 * 1024 * 1024 * 1024.
Definition MAX_ARCHIVE_BYTES : Z := MAX_STAGED_BYTES + 64 * 1024 * 1024.
Definition DEFAULT_MAX_SESSION_TURNS : Z := 400.
Definition MAX_SESSION_TURNS_CEILING : Z := 2000.

(** [unicode_normalization::is_nfc] and [serde_json::Number]. *)
Class Normalization := { is_nfc : str → bool }.
Class SerdeNumber := { sn_number : Type; sn_as_u64 : sn_number → option Z; sn_as_i64 : sn_number → option Z }.
(** An integer it reports is of the width it names. *)
Class SerdeNumberLaws `{SerdeNumber} := { sn_as_u64_range : ∀ n v, sn_as_u64 n = Some v → is_u64 v }.

Record SpooledArchive := { archive_path : str; archive_bytes : Z; archive_sha256 : str }.
Record ValidatedRequest := {
  request_prompt : str; request_turns : Z; request_deliverables : Deliverables; request_archive : SpooledArchive;
}.

Section Validation.
Context `{Normalization} `{SerdeNumber}.

Definition validate_prompt (prompt : str) : service str :=
  if (length (trim prompt) =? 0)%nat then invalid_request "field prompt is empty after trimming whitespace"
  else if negb (is_nfc prompt) then invalid_request "field prompt is not in Unicode Normalization Form C (NFC)"
  else if (MAX_PROMPT_BYTES <? length prompt)%nat then invalid_request "field prompt is past the 16384-byte limit"
  else if existsb (Z.eqb 0) prompt then invalid_request "field prompt contains a NUL byte"
  else Ok prompt.

Definition validate_session_turn_budget (turns : Z) : service unit :=
  if turns =? 0 then invalid_request "field max_session_turns is zero"
  else if MAX_SESSION_TURNS_CEILING <? turns then invalid_request "field max_session_turns exceeds the ceiling"
  else Ok tt.

(** [turns as u32] follows the ceiling check, so it keeps the value. *)
Definition validate_max_session_turns (value : sn_number) : service Z :=
  match sn_as_u64 value with
  | Some turns =>
      if MAX_SESSION_TURNS_CEILING <? turns then invalid_request "field max_session_turns exceeds the ceiling"
      else
        let turns := turns mod 2 ^ 32 in
        _ ← validate_session_turn_budget turns;
        Ok turns
  | None =>
      match sn_as_i64 value with
      | Some _ => invalid_request "field max_session_turns is negative"
      | None => invalid_request "field max_session_turns is not a plain integer"
      end
  end.

Definition is_lower_hex (b : Z) : bool := ((48 <=? b) && (b <=? 57)) || ((97 <=? b) && (b <=? 102)).

Definition validate_archive_commitment (bytes : Z) (sha256 : str) : service unit :=
  if negb (length sha256 =? 64)%nat || negb (forallb is_lower_hex sha256)
  then invalid_request "field archive_sha256 is not exactly 64 lowercase hexadecimal characters"
  else if bytes =? 0 then invalid_request "field archive_bytes is zero"
  else if MAX_ARCHIVE_BYTES <? bytes then invalid_request "field archive_bytes exceeds the archive bound"
  else Ok tt.

Definition validate_spooled_archive (archive : SpooledArchive) : io ServiceError SpooledArchive :=
  _ ← pure (validate_archive_commitment (archive_bytes archive) (archive_sha256 archive));
  _ ← pure (if negb (starts_with (lit "/") (archive_path archive)) then internal "spooled archive path is not absolute" else Ok tt);
  metadata ← io_map_err (fun _ => Internal (lit "stat spooled archive before acceptance")) (symlink_metadata (archive_path archive));
  if bool_decide (file_type metadata ≠ Regular) || bool_decide (file_type metadata = Symlink)
  then pure (internal "spooled archive is not an ordinary non-symlink file")
  else if negb (Z.of_nat (length (contents metadata)) =? archive_bytes archive)
  then pure (internal "spooled archive is not the proved upload's size")
  else mret archive.

Definition validate (prompt : str) (max_session_turns : Z) (deliverables : Deliverables) (archive : SpooledArchive) :
    io ServiceError ValidatedRequest :=
  prompt ← pure (validate_prompt prompt);
  _ ← pure (validate_session_turn_budget max_session_turns);
  archive ← validate_spooled_archive archive;
  mret {| request_prompt := prompt; request_turns := max_session_turns; request_deliverables := deliverables;
          request_archive := archive |}.
End Validation.

Section ValidationDeliverables.
Context `{ListCodec}.
Definition validate_deliverables (ps : list str) : service Deliverables :=
  map_err (fun e => InvalidRequest (rule e)) (new ps).
End ValidationDeliverables.

(** ** The rules *)
Record prompt_ok `{Normalization} (p : str) : Prop := {
  prompt_visible : ∃ c, c ∈ chars p ∧ is_white_space c = false;
  prompt_nfc : is_nfc p = true;
  prompt_bounded : (length p <= MAX_PROMPT_BYTES)%nat;
  prompt_no_nul : 0 ∉ p;
}.

Definition archive_ok (a : SpooledArchive) (d : Disk) : Prop :=
  length (archive_sha256 a) = 64%nat ∧ Forall (fun b => is_lower_hex b = true) (archive_sha256 a) ∧
  0 < archive_bytes a <= MAX_ARCHIVE_BYTES ∧ (∃ rest, archive_path a = lit "/" ++ rest) ∧
  ∃ f, lookup_name (archive_path a) d = Some f ∧ file_type f = Regular ∧ Z.of_nat (length (contents f)) = archive_bytes a.

Section Lemmas.
Context `{Normalization} `{SerdeNumber}.

Lemma validate_prompt_ok p q : validate_prompt p = Ok q ↔ q = p ∧ prompt_ok p.
Proof.
  unfold validate_prompt. destruct (Nat.eqb_spec (length (trim p)) 0) as [Hz0|Hz0].
  { apply nil_length_inv in Hz0. split; [done|]. intros [_ [(c & Hc & Hw) _ _ _]].
    apply trim_nil in Hz0. rewrite Forall_forall in Hz0. by rewrite Hz0 in Hw. }
  assert (Hvis : ∃ c, c ∈ chars p ∧ is_white_space c = false).
  { destruct (existsb (fun c => negb (is_white_space c)) (chars p)) eqn:Hex.
    - apply existsb_exists in Hex as (c & Hc & Hw). exists c. split; [by apply list_elem_of_In|]. by apply negb_true_iff.
    - exfalso. apply Hz0. assert (E : trim p = []); [|by rewrite E]. apply trim_nil, Forall_forall. intros c Hc.
      destruct (is_white_space c) eqn:Hw; [done|]. assert (F : existsb (fun c => negb (is_white_space c)) (chars p) = true); [|congruence].
      apply existsb_exists. exists c. split; [by apply list_elem_of_In|]. by rewrite Hw. }
  destruct (is_nfc p) eqn:Hn; cbn [negb]; [|split; [done|]; intros [_ [_ Hn' _ _]]; congruence].
  destruct (Nat.ltb_spec MAX_PROMPT_BYTES (length p)); [split; [done|]; intros [_ [_ _ ? _]]; lia|].
  destruct (existsb (Z.eqb 0) p) eqn:Hz.
  - split; [done|]. intros [_ [_ _ _ Hnul]]. apply existsb_exists in Hz as (b & Hb & Hb0). apply Z.eqb_eq in Hb0 as <-.
    by apply list_elem_of_In in Hb.
  - split; [|by intros [-> _]]. intros [= <-]. split; [done|]. split; try done. intros Hin.
    assert (F : existsb (Z.eqb 0) p = true) by (apply existsb_exists; exists 0; by split; [apply list_elem_of_In|]). congruence.
Qed.

Lemma turn_budget_ok turns : 0 <= turns → validate_session_turn_budget turns = Ok tt ↔ 1 <= turns <= MAX_SESSION_TURNS_CEILING.
Proof.
  intros Ht. unfold validate_session_turn_budget. destruct (Z.eqb_spec turns 0); [split; [done|lia]|].
  destruct (Z.ltb_spec MAX_SESSION_TURNS_CEILING turns); split; try done; lia.
Qed.

Lemma archive_commitment_ok bytes sha :
  0 <= bytes →
  validate_archive_commitment bytes sha = Ok tt ↔
  length sha = 64%nat ∧ Forall (fun b => is_lower_hex b = true) sha ∧ 0 < bytes <= MAX_ARCHIVE_BYTES.
Proof.
  intros Hb. unfold validate_archive_commitment. set (M := MAX_ARCHIVE_BYTES).
  destruct (Nat.eqb_spec (length sha) 64); cbn [negb orb]; [|split; [done|]; by intros [? _]].
  destruct (forallb is_lower_hex sha) eqn:Hf; cbn [negb].
  - rewrite forallb_forall in Hf. assert (Forall (fun b => is_lower_hex b = true) sha).
    { apply Forall_forall. intros b Hin. by apply Hf, list_elem_of_In. }
    destruct (Z.eqb_spec bytes 0); [split; [done|]; lia|]. destruct (Z.ltb_spec M bytes); split; try done; [lia|]. intros _. split_and!; try done. lia.
  - split; [done|]. intros (_ & Hall & _). assert (F : forallb is_lower_hex sha = true); [|congruence].
    apply forallb_forall. rewrite Forall_forall in Hall. intros b Hin. by apply Hall, list_elem_of_In.
Qed.

Lemma spooled_archive_ok a w r w' :
  0 <= archive_bytes a → faults w = [] → validate_spooled_archive a w = (r, w') →
  w' = w ∧ (r = Ok a ∧ archive_ok a (disk w) ∨ ¬ archive_ok a (disk w) ∧ is_ok r = false).
Proof.
  intros Hb Hf. unfold validate_spooled_archive, archive_ok, mbind, io_bind, pure.
  pose proof (archive_commitment_ok (archive_bytes a) (archive_sha256 a) Hb) as Hcom.
  destruct (validate_archive_commitment (archive_bytes a) (archive_sha256 a)) as [[]|] eqn:Hv; cycle 1.
  { intros [= <- <-]. split; [done|]. right. split; [|done]. intros (?&?&?&_).
    assert (F : Err error = @Ok ServiceError _ tt) by (by apply Hcom). done. }
  destruct (proj1 Hcom eq_refl) as (Hl & Hx & Hr).
  destruct (starts_with (lit "/") (archive_path a)) eqn:Hs; cbn [negb]; cycle 1.
  { intros [= <- <-]. split; [done|]. right. split; [|done]. intros (_&_&_&Hp&_). apply starts_with_spec in Hp. congruence. }
  apply starts_with_spec in Hs. unfold io_map_err, symlink_metadata, unfaulted, next_fault. rewrite Hf.
  destruct (lookup_name (archive_path a) (disk w)) as [f|]; cbn [ok_or]; cycle 1.
  { intros [= <- <-]. split; [done|]. right. split; [|done]. by intros (_&_&_&_&f&?&_). }
  destruct (decide (file_type f = Regular)) as [E|E].
  - rewrite E. change (bool_decide (Regular ≠ Regular)) with false. change (bool_decide (Regular = Symlink)) with false. cbn [orb].
    destruct (Z.eqb_spec (Z.of_nat (length (contents f))) (archive_bytes a)); cbn [negb]; intros [= <- <-]; (split; [done|]).
    + left. split; [done|]. split_and!; try done; try lia. by exists f.
    + right. split; [|done]. by intros (_&_&_&_&f'&[= <-]&_&?).
  - rewrite bool_decide_true by done. intros [= <- <-]. split; [done|]. right. split; [|done]. by intros (_&_&_&_&f'&[= <-]&?&_).
Qed.
End Lemmas.

(** ** Properties *)

(** a validated request is exactly a valid one.  On a disk whose calls do not
    fail, [validate] answers with the caller's prompt, budget, deliverables and
    archive, unchanged, exactly when the prompt has a visible character, is in
    NFC, fits its byte limit and holds no NUL, the budget is in 1..=2000, and the
    archive's commitment is 64 lowercase hexadecimal characters and a size within
    the bound that the ordinary file at its absolute path has; otherwise it
    refuses.  Nothing on the disk changes. *)
Theorem validate_exact `{Normalization} (prompt : str) (turns : Z) (ds : Deliverables) (a : SpooledArchive) (w : World) :
  0 <= turns → 0 <= archive_bytes a → faults w = [] →
  let '(r, w') := validate prompt turns ds a w in
  w' = w ∧
  (prompt_ok prompt ∧ 1 <= turns <= 2000 ∧ archive_ok a (disk w) →
   r = Ok {| request_prompt := prompt; request_turns := turns; request_deliverables := ds; request_archive := a |}) ∧
  (is_ok r = true → prompt_ok prompt ∧ 1 <= turns <= 2000 ∧ archive_ok a (disk w)).
Proof.
  intros Ht Hb Hf. unfold validate, mbind, io_bind, pure. pose proof (validate_prompt_ok prompt) as Hprompt.
  destruct (validate_prompt prompt) as [q|e]; cycle 1.
  { split; [done|]. split; [|done]. intros [Hok _]. by pose proof (proj2 (Hprompt prompt) (conj eq_refl Hok)). }
  destruct (proj1 (Hprompt q) eq_refl) as [-> Hok]. pose proof (turn_budget_ok turns Ht) as Hturn.
  destruct (validate_session_turn_budget turns) as [[]|e]; cycle 1.
  { split; [done|]. split; [|done]. intros (_ & Hr & _). by apply Hturn in Hr. }
  destruct (validate_spooled_archive a w) as [r w'] eqn:Ha. apply spooled_archive_ok in Ha as [-> Hcase]; [|done..].
  destruct Hcase as [[-> Harch]|[Hno Hr]].
  - split; [done|]. split; [done|]. intros _. by split_and!; [|apply Hturn|apply Hturn|].
  - destruct r; [done|]. split; [done|]. split; [|done]. by intros (_ & _ & ?).
Qed.

Lemma validate_exact_witness :
  let f := {| file_type := Regular; mode := 384; uid := 0; gid := 0; contents := [80; 75]; reach := 2; file_synced := true |} in
  let d := {| names := {[ lit "/spool/a.zip" := 0%nat ]}; inodes := {[ 0%nat := f ]}; next_inode := 1; unsynced := [] |} in
  let a := {| archive_path := lit "/spool/a.zip"; archive_bytes := 2; archive_sha256 := replicate 64 97 |} in
  let ds := {| paths := []; json := lit "[]" |} in
  prompt_ok (H := {| is_nfc := fun _ => true |}) (lit "do it") ∧ archive_ok a d ∧
  (@validate {| is_nfc := fun _ => true |} (lit "do it") 40 ds a (calm d [])).1 =
    Ok {| request_prompt := lit "do it"; request_turns := 40; request_deliverables := ds; request_archive := a |}.
Proof.
  intros f d a ds.
  pose proof (@validate_exact {| is_nfc := fun _ => true |} (lit "do it") 40 ds a (calm d []) ltac:(done) ltac:(done) eq_refl) as P.
  assert (E : (@validate {| is_nfc := fun _ => true |} (lit "do it") 40 ds a (calm d [])).1 =
    Ok {| request_prompt := lit "do it"; request_turns := 40; request_deliverables := ds; request_archive := a |}) by by vm_compute.
  destruct (validate (lit "do it") 40 ds a (calm d [])) as [r w']. cbn [fst] in E. destruct P as (_ & _ & P).
  destruct P as (Hp & _ & Ha); [by rewrite E|]. split_and!; [exact Hp|exact Ha|exact E].
Defined.

(** A turn budget is never repaired.  [validate_max_session_turns] answers
    with a number exactly when the caller wrote that very integer and it lies in
    1..=2000; a zero, an excess, a negative number, a fraction and an exponent
    form are all refused, and narrowing to 32 bits loses nothing. *)
Theorem max_session_turns_exact `{SerdeNumber} `{!SerdeNumberLaws} (v : sn_number) (turns : Z) :
  validate_max_session_turns v = Ok turns ↔ sn_as_u64 v = Some turns ∧ 1 <= turns <= 2000.
Proof.
  unfold validate_max_session_turns. destruct (sn_as_u64 v) as [n|] eqn:Hn; [|destruct (sn_as_i64 v); split; [done|by intros [? _]|done|by intros [? _]]].
  pose proof (sn_as_u64_range v n Hn) as [Hge _]. unfold MAX_SESSION_TURNS_CEILING. destruct (Z.ltb_spec 2000 n).
  { split; [done|]. intros [[= ->] ?]. lia. }
  rewrite Z.mod_small by lia. split.
  - intros ([] & Hb%(turn_budget_ok n Hge) & [= <-])%bind_ok_inv. done.
  - intros [[= ->] Hr]. apply (turn_budget_ok turns Hge) in Hr. by rewrite Hr.
Qed.

Lemma max_session_turns_exact_witness :
  let S := {| sn_number := Z; sn_as_u64 := fun n => if (0 <=? n) && (n <=? U64_MAX) then Some n else None; sn_as_i64 := fun n => Some n |} in
  @validate_max_session_turns S 37 = Ok 37.
Proof.
  intros S. assert (L : @SerdeNumberLaws S).
  { split. intros n v. simpl. destruct ((0 <=? n) && (n <=? U64_MAX)) eqn:E; [|done]. intros [= <-]. to_prop. done. }
  apply (@max_session_turns_exact S L). split; [by vm_compute | lia].
Defined.
