(* ===== verification/Staging.v ===== *)
(** * Staging: the submitted archive and the staged workspace (src/staging.rs)

    Control records, the structural validation of the one submitted zip archive,
    the independent count of its container, and its extraction under a root.  The
    [zip] crate is the class [ZipReader].  The staged tree is modelled with the
    kernel's path resolution: creating a file below a symbolic link would escape
    the root, and the extraction never does. *)
From stdpp Require Import sorting.
From S2P Require Import Prelude Number Utf8 BTree Json JsonTree Schema Stream ServiceError Disk Deliverables Validation.

Definition MAX_STAGED_FILES : Z := 200000.
Definition MAX_STAGED_ENTRIES : Z := 250000.
Definition MAX_TARGET_BYTES : Z := 1024 * 1024.

Record StagingProgress := { copied_bytes : Z; copied_entries : Z; copied_regular_files : Z }.

Definition staging_error {A} (detail : string) : service A := Err (ServiceError.Staging (lit detail)).

(** ** The turn-budget control record *)
Definition TURN_RECORD_PREFIX : str := quoted "{'max_session_turns':".
Definition TURN_RECORD_SUFFIX : str := [125; 10].

Definition turn_budget_record (max_session_turns : Z) : str :=
  TURN_RECORD_PREFIX ++ show_Z max_session_turns ++ TURN_RECORD_SUFFIX.

(** The digits of a canonical record, and what they say. *)
Definition canonical_turns (digits : str) : option Z :=
  if (length digits =? 0)%nat || (10 <? length digits)%nat || starts_with (lit "0") digits || negb (forallb is_ascii_digit digits)
  then None
  else
    turns ← parse_digits_max U32_MAX digits;
    if (turns =? 0) || (MAX_SESSION_TURNS_CEILING <? turns) then None else Some turns.

Definition parse_turn_budget_record (bytes : str) : option Z :=
  if is_ok (from_utf8 bytes) then
    digits ← strip_prefix TURN_RECORD_PREFIX bytes ≫= strip_suffix TURN_RECORD_SUFFIX;
    canonical_turns digits
  else None.

(** The launcher's own parser of the same record (src/bin/agent_exec.rs). *)
Definition parse_session_turn_budget (raw : str) : result str Z :=
  if negb (is_ok (from_utf8 raw)) then Err (lit "not UTF-8")
  else
    digits ← ok_or (strip_prefix TURN_RECORD_PREFIX raw ≫= strip_suffix TURN_RECORD_SUFFIX) (lit "observed another text");
    if (length digits =? 0)%nat || (10 <? length digits)%nat || starts_with (lit "0") digits || negb (forallb is_ascii_digit digits)
    then Err (lit "observed another turn count")
    else
      turns ← ok_or (parse_digits_max U32_MAX digits) (lit "turn count does not fit");
      if (turns =? 0) || (MAX_SESSION_TURNS_CEILING <? turns) then Err (lit "turn count is outside the accepted range")
      else Ok turns.

(** ** Entries of an archive *)
Inductive ArchiveEntryKind := Directory | RegularFile | SymbolicLink.
Global Instance ArchiveEntryKind_eq_dec : EqDecision ArchiveEntryKind.
Proof. solve_decision. Defined.

Record ArchiveEntryPlan := { name : str; kind : ArchiveEntryKind; declared_bytes : Z; executable : bool }.
Record ArchiveSummary := { declared_entries : Z; declared_regular_files : Z; declared_regular_file_bytes : Z }.

(** An entry of the [zip] crate: its raw name, its declared size, its recorded
    Unix mode and what successive reads of its content yield; [None] is a read
    that fails. *)
Record ZipEntry := { name_raw : str; entry_size : Z; unix_mode : option Z; content : list (option str) }.
Class ZipReader := {
  zip_archive : Type;
  zip_new : str → option zip_archive;
  zip_len : zip_archive → nat;
  zip_by_index : zip_archive → nat → option ZipEntry;
}.
Class ZipReaderLaws `{ZipReader} := {
  zip_size_u64 : ∀ a i e, zip_by_index a i = Some e → is_u64 (entry_size e);
}.

Definition name_component_step (_ : unit) (component : str) : service unit :=
  if (length component =? 0)%nat then invalid_request "archive entry name contains an empty component"
  else if bool_decide (component = lit ".") || bool_decide (component = lit "..")
  then invalid_request "archive entry name contains a traversal component"
  else Ok tt.

Definition canonical_archive_entry_name (raw : str) : service (str * bool) :=
  if (length raw =? 0)%nat then invalid_request "archive entry has an empty name"
  else if existsb (Z.eqb 0) raw then invalid_request "archive entry name contains a NUL byte"
  else if negb (is_ok (from_utf8 raw)) then invalid_request "archive entry name is not valid UTF-8"
  else if starts_with (lit "/") raw then invalid_request "archive entry name is absolute"
  else
    let '(name, has_directory_suffix) :=
      match strip_suffix (lit "/") raw with Some stripped => (stripped, true) | None => (raw, false) end in
    if (length name =? 0)%nat then invalid_request "archive entry name consists only of separators"
    else
      _ ← fold_result name_component_step tt (split_on 47 name);
      Ok (name, has_directory_suffix).

Definition S_IFMT : Z := 61440.
Definition S_IFDIR : Z := 16384.
Definition S_IFREG : Z := 32768.
Definition S_IFLNK : Z := 40960.

Definition archive_entry_kind (has_directory_suffix : bool) (mode : option Z) : service ArchiveEntryKind :=
  let format_bits := (fun m => Z.land m S_IFMT) <$> mode in
  if has_directory_suffix then
    match format_bits with
    | None => Ok Directory
    | Some bits =>
        if (bits =? 0) || (bits =? S_IFDIR) then Ok Directory
        else invalid_request "archive entry has a directory name but another recorded mode type"
    end
  else
    match format_bits with
    | None => Ok RegularFile
    | Some bits =>
        if bits =? S_IFLNK then Ok SymbolicLink
        else if (bits =? 0) || (bits =? S_IFREG) then Ok RegularFile
        else invalid_request "unsupported archive entry type"
    end.

Definition require_staging_caps (bytes entries files : Z) : service unit :=
  if (MAX_STAGED_ENTRIES <? entries) || (MAX_STAGED_FILES <? files) || (MAX_STAGED_BYTES <? bytes)
  then invalid_request "staged content exceeded a staging cap" else Ok tt.

(** The parents of a name, outermost first: the loop that joins its components. *)
Fixpoint ancestors_from (ancestor : str) (components : list str) : list str :=
  match components with
  | [] | [_] => []
  | c :: rest => let a := if (length ancestor =? 0)%nat then c else ancestor ++ lit "/" ++ c in a :: ancestors_from a rest
  end.
Definition ancestors (name : str) : list str := ancestors_from [] (split_on 47 name).

(** ** The container's own count *)

Definition le_value (bytes : str) : Z := fold_right (fun b acc => b + 256 * acc) 0 bytes.

(** [&tail[a..b]], which panics out of range. *)
Definition bytes_at (a b : nat) (s : str) : result (fault ServiceError) str := expect (get_range a b s) "slice of archive tail".
Definition u16_at (offset : nat) (s : str) : result (fault ServiceError) Z := le_value <$> bytes_at offset (offset + 2) s.

Definition EOCD_BYTES : nat := 22.
Definition EOCD64_LOCATOR_BYTES : nat := 20.
Definition MAX_COMMENT_BYTES : Z := 65535.

(** [PK] and the record's number. *)
Definition signature (a b : Z) : str := [80; 75; a; b].

(** Searched from the end of the file: the last record whose comment ends it. *)
Fixpoint find_eocd (tail : str) (starts : list nat) : result (fault ServiceError) (option nat) :=
  match starts with
  | [] => Ok None
  | start :: starts =>
      magic ← bytes_at start (start + 4) tail;
      if bool_decide (magic = signature 5 6) then
        comment ← u16_at (start + 20) tail;
        if (Z.of_nat start + 22 + comment =? Z.of_nat (length tail)) then Ok (Some start) else find_eocd tail starts
      else find_eocd tail starts
  end.

Definition refuse {A} (detail : string) : result (fault ServiceError) A := Err (Refused (InvalidRequest (lit detail))).

(** The Zip64 record that a locator names. *)
Definition zip64_count (file tail : str) (eocd : nat) : result (fault ServiceError) Z :=
  if (eocd <? EOCD64_LOCATOR_BYTES)%nat then refuse "Zip64 fields without a Zip64 locator"
  else
    let locator := (eocd - EOCD64_LOCATOR_BYTES)%nat in
    magic ← bytes_at locator (locator + 4) tail;
    if bool_decide (magic ≠ signature 6 7) then refuse "Zip64 fields without a Zip64 locator"
    else
      position ← bytes_at (locator + 8) (locator + 16) tail;
      if 2 ^ 63 <=? le_value position then Err (Refused (ServiceError.Staging (lit "seek submitted archive Zip64 directory record")))
      else if Z.of_nat (length file) <? le_value position + 56
      then refuse "Zip64 end-of-central-directory record is unreadable"
      else
        let at_ := Z.to_nat (le_value position) in
        eocd64 ← bytes_at at_ (at_ + 56) file;
        magic ← bytes_at 0 4 eocd64;
        if bool_decide (magic ≠ signature 6 6) then refuse "Zip64 locator does not point at a Zip64 record"
        else
          disk ← bytes_at 16 20 eocd64;
          directory_disk ← bytes_at 20 24 eocd64;
          disk_entries ← bytes_at 24 32 eocd64;
          total_entries ← bytes_at 32 40 eocd64;
          if negb (le_value disk =? 0) || negb (le_value directory_disk =? 0)
             || negb (le_value disk_entries =? le_value total_entries)
          then refuse "not a single-part Zip64 zip" else Ok (le_value total_entries).

Definition declared_central_entry_count (file : str) : result (fault ServiceError) Z :=
  let len := length file in
  if (len <? EOCD_BYTES)%nat then refuse "shorter than a minimal zip container"
  else
    let tail_length := Nat.min len (EOCD_BYTES + Z.to_nat MAX_COMMENT_BYTES + EOCD64_LOCATOR_BYTES) in
    let tail := drop (len - tail_length) file in
    found ← find_eocd tail (rev (seq 0 (S (length tail - EOCD_BYTES))));
    match found with
    | None => refuse "no end-of-central-directory record terminating the file"
    | Some eocd =>
        disk_number ← u16_at (eocd + 4) tail;
        directory_disk ← u16_at (eocd + 6) tail;
        disk_entries ← u16_at (eocd + 8) tail;
        total_entries ← u16_at (eocd + 10) tail;
        if negb ((disk_number =? 65535) || (directory_disk =? 65535) || (disk_entries =? 65535) || (total_entries =? 65535)) then
          if negb (disk_number =? 0) || negb (directory_disk =? 0) || negb (disk_entries =? total_entries)
          then refuse "not a single-part zip" else Ok total_entries
        else zip64_count file tail eocd
    end.

(** ** Structural validation *)
Inductive OsError := EACCES | EPERM | ENOENT | ENOTDIR | ELOOP | ESTALE | OtherOsError.

Definition source_access_error (operation : string) (e : OsError) : ServiceError :=
  match e with
  | EACCES | EPERM => InvalidRequest (lit operation)
  | ENOENT | ENOTDIR | ELOOP | ESTALE => SourceChanged (lit operation)
  | OtherOsError => ServiceError.Staging (lit operation)
  end.
Definition open_source_file (operation : string) (opened : result OsError str) : service str :=
  map_err (source_access_error operation) opened.

Record Scan := {
  plan : list ArchiveEntryPlan; kinds : list (str * ArchiveEntryKind); scan_files : Z; scan_bytes : Z;
}.

Section Structure.
Context `{ZipReader}.

Definition size_step (k : ArchiveEntryKind) (bytes : Z) (st : Scan) : service (Z * Z) :=
  match k with
  | Directory => if negb (bytes =? 0) then invalid_request "archive directory entry declares content bytes"
                 else Ok (scan_files st, scan_bytes st)
  | SymbolicLink => if (bytes =? 0) || (MAX_TARGET_BYTES <? bytes) then invalid_request "archive symbolic-link entry declares a bad target size"
                    else Ok (scan_files st, scan_bytes st)
  | RegularFile =>
      files ← ok_or (checked_add (scan_files st) 1) (InvalidRequest (lit "archive regular-file counter overflowed u64"));
      total ← ok_or (checked_add (scan_bytes st) bytes) (InvalidRequest (lit "archive declared-byte counter overflowed u64"));
      Ok (files, total)
  end.

Definition entry_step (archive : zip_archive) (st : Scan) (index : nat) : service Scan :=
  entry ← ok_or (zip_by_index archive index) (InvalidRequest (lit "submitted archive entry is unreadable"));
  '(name, has_directory_suffix) ← canonical_archive_entry_name (name_raw entry);
  let bytes := entry_size entry in
  let mode := unix_mode entry in
  k ← archive_entry_kind has_directory_suffix mode;
  '(files, total) ← size_step k bytes st;
  let executable := match mode with Some m => negb (Z.land m 73 =? 0) | None => false end in
  if bt_contains name (kinds st) then invalid_request "archive contains duplicate entry after directory-slash normalisation"
  else
    Ok {| plan := plan st ++ [{| name := name; kind := k; declared_bytes := bytes; executable := executable |}];
          kinds := bt_insert name k (kinds st); scan_files := files; scan_bytes := total |}.

(** One ancestor of one name: an explicit directory, or an implied one. *)
Definition parent_step (ks : list (str * ArchiveEntryKind)) (implied : gset str) (ancestor : str) : service (gset str) :=
  match bt_get ancestor ks with
  | Some Directory => Ok implied
  | Some _ => invalid_request "archive entry is used as a parent directory"
  | None => Ok ({[ ancestor ]} ∪ implied)
  end.
Definition parents_step (ks : list (str * ArchiveEntryKind)) (implied : gset str) (name : str) : service (gset str) :=
  fold_result (parent_step ks) implied (ancestors name).

Definition scan_archive (archive : zip_archive) : service Scan :=
  fold_result (entry_step archive) {| plan := []; kinds := []; scan_files := 0; scan_bytes := 0 |} (seq 0 (zip_len archive)).

Definition summarize (st : Scan) : service (list ArchiveEntryPlan * ArchiveSummary) :=
  implied ← fold_result (parents_step (kinds st)) ∅ (kinds st).*1;
  entries ← ok_or (checked_add (Z.of_nat (length (kinds st))) (Z.of_nat (size implied)))
              (InvalidRequest (lit "archive entry counter overflowed u64"));
  _ ← require_staging_caps (scan_bytes st) entries (scan_files st);
  Ok (plan st, {| declared_entries := entries; declared_regular_files := scan_files st; declared_regular_file_bytes := scan_bytes st |}).

Definition validate_archive_structure (opened : result OsError str) :
    result (fault ServiceError) (list ArchiveEntryPlan * ArchiveSummary) :=
  file ← map_err Refused (open_source_file "open submitted archive" opened);
  declared ← declared_central_entry_count file;
  archive ← ok_or (zip_new file) (Refused (InvalidRequest (lit "submitted archive is not a readable zip file")));
  if negb (Z.of_nat (zip_len archive) =? declared)
  then refuse "duplicate or shadowed entry names are rejected"
  else map_err Refused (st ← scan_archive archive; summarize st).
End Structure.

(** ** Extraction *)
Inductive Node := NDir (mode : Z) | NFile (contents : str) (mode : Z) | NLink (target : str).

(** The tree under the root, what has been created through a symbolic link and
    so outside it, the reports made, and what the next calls meet: whether an
    operating-system or progress call fails, and whether the session has been
    cancelled by then. *)
Record Stage := {
  nodes : gmap str Node; escapes : list str; reports : list StagingProgress;
  os_faults : list bool; cancels : list bool;
}.

Definition stage (A : Type) : Type := Stage → service A * Stage.
Global Instance stage_ret : MRet stage := fun A a s => (Ok a, s).
Global Instance stage_bind : MBind stage := fun A B f m s =>
  match m s with (Ok a, s) => f a s | (Err e, s) => (Err e, s) end.
Definition pure_stage {A} (r : service A) : stage A := fun s => (r, s).

Definition set_nodes (ns : gmap str Node) (s : Stage) : Stage :=
  {| nodes := ns; escapes := escapes s; reports := reports s; os_faults := os_faults s; cancels := cancels s |}.

(** Whether the next call fails. *)
Definition call (detail : string) : stage unit := fun s =>
  match os_faults s with
  | true :: fs => (staging_error detail, {| nodes := nodes s; escapes := escapes s; reports := reports s; os_faults := fs; cancels := cancels s |})
  | false :: fs => (Ok tt, {| nodes := nodes s; escapes := escapes s; reports := reports s; os_faults := fs; cancels := cancels s |})
  | [] => (Ok tt, s)
  end.

Definition require_not_cancelled : stage unit := fun s =>
  match cancels s with
  | c :: cs =>
      (if c : bool then internal "session cancellation interrupted descriptor-anchored staging" else Ok tt,
       {| nodes := nodes s; escapes := escapes s; reports := reports s; os_faults := os_faults s; cancels := cs |})
  | [] => (Ok tt, s)
  end.

Definition report_progress (bytes entries files : Z) : stage unit := fun s =>
  let p := {| copied_bytes := bytes; copied_entries := entries; copied_regular_files := files |} in
  call "progress" {| nodes := nodes s; escapes := escapes s; reports := reports s ++ [p]; os_faults := os_faults s; cancels := cancels s |}.

Definition is_dir (n : option Node) : bool := match n with Some (NDir _) => true | _ => false end.
Definition is_link (n : option Node) : bool := match n with Some (NLink _) => true | _ => false end.

(** Creating [path] under the root: the kernel resolves its parents first, and
    follows a symbolic link wherever it points. *)
Definition place_node (path : str) (n : Node) (detail : string) : stage unit := fun s =>
  if existsb (fun a => is_link (nodes s !! a)) (ancestors path)
  then (Ok tt, {| nodes := nodes s; escapes := escapes s ++ [path]; reports := reports s; os_faults := os_faults s; cancels := cancels s |})
  else if negb (forallb (fun a => is_dir (nodes s !! a)) (ancestors path)) then (staging_error detail, s)
  else match nodes s !! path with
       | Some _ => (staging_error detail, s)
       | None => (Ok tt, set_nodes (<[path := n]> (nodes s)) s)
       end.
Definition create_node (path : str) (n : Node) (detail : string) : stage unit :=
  _ ← call detail; place_node path n detail.

(** A call on a file already open, or on an existing path. *)
Definition modify_node (path : str) (f : Node → Node) (detail : string) : stage unit := fun s =>
  match nodes s !! path with
  | Some n => (Ok tt, set_nodes (<[path := f n]> (nodes s)) s)
  | None => (staging_error detail, s)
  end.
Definition update_node (path : str) (f : Node → Node) (detail : string) : stage unit :=
  _ ← call detail; modify_node path f detail.

(** [symlink_metadata] and [read_link]. *)
Definition look_node (path : str) (p : option Node → bool) (detail : string) : stage unit := fun s =>
  (if p (nodes s !! path) then Ok tt else staging_error detail, s).
Definition links_to (target : str) (n : option Node) : bool :=
  match n with Some (NLink t) => bool_decide (t = target) | _ => false end.

Definition chmod (m : Z) (n : Node) : Node :=
  match n with NDir _ => NDir m | NFile c _ => NFile c m | NLink t => NLink t end.
Definition append_contents (bytes : str) (n : Node) : Node :=
  match n with NFile c m => NFile (c ++ bytes) m | n => n end.

(** [create_dir] asks for 0777, which the process's umask may narrow; then the
    mode is set exactly. *)
Definition create_exact_directory (path : str) (m : Z) : stage unit :=
  _ ← create_node path (NDir 511) "exclusively create session dir";
  update_node path (chmod m) "chmod session dir".

Record Counters := { c_bytes : Z; c_entries : Z; c_files : Z; created_directories : gset str }.

Definition next_count (n : Z) (detail : string) : stage Z := pure_stage (ok_or (checked_add n 1) (ServiceError.Staging (lit detail))).

(** One directory, when it is not there yet. *)
Definition ensure_directory (st : Counters) (path : str) : stage Counters :=
  if decide (path ∈ created_directories st) then mret st
  else
    _ ← create_exact_directory path 493;
    entries ← next_count (c_entries st) "staged entry counter overflowed u64";
    _ ← pure_stage (require_staging_caps (c_bytes st) entries (c_files st));
    _ ← report_progress (c_bytes st) entries (c_files st);
    mret {| c_bytes := c_bytes st; c_entries := entries; c_files := c_files st;
            created_directories := {[ path ]} ∪ created_directories st |}.

Fixpoint ensure_directories (st : Counters) (paths : list str) : stage Counters :=
  match paths with
  | [] => mret st
  | p :: paths => st ← ensure_directory st p; ensure_directories st paths
  end.
Definition ensure_extracted_parents (st : Counters) (name : str) : stage Counters := ensure_directories st (ancestors name).

(** [Read::take(limit).read_to_end]: [None] when a read fails. *)
Fixpoint read_up_to (limit : nat) (reads : list (option str)) : option str :=
  match limit, reads with
  | O, _ => Some []
  | _, [] => Some []
  | _, None :: _ => None
  | _, Some chunk :: reads =>
      if (length chunk =? 0)%nat then Some []
      else let got := take limit chunk in app got <$> read_up_to (limit - length got) reads
  end.

Definition extract_link (st : Counters) (planned : ArchiveEntryPlan) (entry : ZipEntry) : stage Counters :=
  target ← pure_stage (ok_or (read_up_to (Z.to_nat (declared_bytes planned + 1)) (content entry))
                        (InvalidRequest (lit "read submitted archive symbolic-link entry")));
  _ ← pure_stage (if negb (Z.of_nat (length target) =? declared_bytes planned)
                  then invalid_request "archive symbolic-link entry produced another target size" else Ok tt);
  _ ← pure_stage (if existsb (Z.eqb 0) target then invalid_request "archive symbolic-link entry target contains a NUL byte" else Ok tt);
  _ ← create_node (name planned) (NLink target) "create staged symbolic link";
  _ ← call "stat staged symbolic link";
  _ ← look_node (name planned) is_link "staged symbolic-link publication changed type";
  _ ← call "read staged symbolic link";
  _ ← look_node (name planned) (links_to target) "staged symbolic-link target mismatch";
  entries ← next_count (c_entries st) "staged entry counter overflowed u64";
  _ ← pure_stage (require_staging_caps (c_bytes st) entries (c_files st));
  _ ← report_progress (c_bytes st) entries (c_files st);
  mret {| c_bytes := c_bytes st; c_entries := entries; c_files := c_files st; created_directories := created_directories st |}.

(** The copy loop: one read at a time, counted before it is written. *)
Fixpoint copy_loop (planned : ArchiveEntryPlan) (bytes entries files : Z) (file_bytes : Z) (reads : list (option str)) : stage Z :=
  _ ← require_not_cancelled;
  match reads with
  | [] => mret file_bytes
  | None :: _ => pure_stage (invalid_request "read submitted archive entry")
  | Some chunk :: reads =>
      if (length chunk =? 0)%nat then mret file_bytes
      else
        file_bytes ← pure_stage (ok_or (checked_add file_bytes (Z.of_nat (length chunk))) (ServiceError.Staging (lit "per-file byte counter overflowed")));
        _ ← pure_stage (if declared_bytes planned <? file_bytes
                        then invalid_request "archive entry produced more than its declared bytes" else Ok tt);
        _ ← update_node (name planned) (append_contents chunk) "write staged file";
        observed ← pure_stage (ok_or (checked_add bytes file_bytes) (ServiceError.Staging (lit "staged byte counter overflowed u64")));
        _ ← pure_stage (require_staging_caps observed entries files);
        _ ← report_progress observed entries files;
        copy_loop planned bytes entries files file_bytes reads
  end.

Definition extract_file (st : Counters) (planned : ArchiveEntryPlan) (entry : ZipEntry) : stage Counters :=
  entries ← next_count (c_entries st) "staged entry counter overflowed u64";
  files ← next_count (c_files st) "staged regular-file counter overflowed u64";
  projected ← pure_stage (ok_or (checked_add (c_bytes st) (declared_bytes planned))
                           (ServiceError.Staging (lit "staged byte counter would overflow u64")));
  _ ← pure_stage (require_staging_caps projected entries files);
  _ ← create_node (name planned) (NFile [] 384) "create staged file";
  file_bytes ← copy_loop planned (c_bytes st) entries files 0 (content entry);
  _ ← call "sync staged file";
  _ ← pure_stage (if negb (file_bytes =? declared_bytes planned)
                  then invalid_request "archive entry produced other than its declared bytes" else Ok tt);
  _ ← update_node (name planned) (chmod (if executable planned then 493 else 420)) "normalize staged file mode";
  bytes ← pure_stage (ok_or (checked_add (c_bytes st) file_bytes) (ServiceError.Staging (lit "staged byte counter overflowed u64")));
  _ ← pure_stage (require_staging_caps bytes entries files);
  _ ← report_progress bytes entries files;
  mret {| c_bytes := bytes; c_entries := entries; c_files := files; created_directories := created_directories st |}.

Section Extraction.
Context `{ZipReader}.

Definition extract_entry (archive : zip_archive) (st : Counters) (item : nat * ArchiveEntryPlan) : stage Counters :=
  let '(index, planned) := item in
  _ ← require_not_cancelled;
  entry ← pure_stage (ok_or (zip_by_index archive index) (ServiceError.Staging (lit "submitted archive entry became unreadable")));
  '(observed_name, _) ← pure_stage (canonical_archive_entry_name (name_raw entry));
  _ ← pure_stage (if bool_decide (observed_name ≠ name planned) || negb (entry_size entry =? declared_bytes planned)
                  then staging_error "submitted archive entry changed between validation and extraction" else Ok tt);
  st ← ensure_extracted_parents st (name planned);
  match kind planned with
  | Directory => ensure_directory st (name planned)
  | SymbolicLink => extract_link st planned entry
  | RegularFile => extract_file st planned entry
  end.

Fixpoint extract_entries (archive : zip_archive) (st : Counters) (items : list (nat * ArchiveEntryPlan)) : stage Counters :=
  match items with
  | [] => mret st
  | item :: items => st ← extract_entry archive st item; extract_entries archive st items
  end.

(** The part of extraction after the plan: the archive is opened again, and may
    have changed. *)
Definition extract_plan (plan : list ArchiveEntryPlan) (reopened : result OsError str) : stage StagingProgress :=
  file ← pure_stage (open_source_file "reopen submitted archive for extraction" reopened);
  archive ← pure_stage (ok_or (zip_new file) (ServiceError.Staging (lit "submitted archive stopped being a readable zip file")));
  _ ← pure_stage (if negb (zip_len archive =? length plan)%nat
                  then staging_error "submitted archive changed between validation and extraction" else Ok tt);
  st ← extract_entries archive {| c_bytes := 0; c_entries := 0; c_files := 0; created_directories := ∅ |} (imap pair plan);
  _ ← require_not_cancelled;
  _ ← report_progress (c_bytes st) (c_entries st) (c_files st);
  mret {| copied_bytes := c_bytes st; copied_entries := c_entries st; copied_regular_files := c_files st |}.

Definition extract_archive_into_staged_cancellable (opened reopened : result OsError str) (s : Stage) :
    result (fault ServiceError) StagingProgress * Stage :=
  match validate_archive_structure opened with
  | Err e => (Err e, s)
  | Ok (plan, _) => let '(r, s) := extract_plan plan reopened s in (map_err Refused r, s)
  end.
End Extraction.

(** ** Control records *)
Lemma canonical_turns_ok digits n :
  canonical_turns digits = Some n ↔ digits = show_Z n ∧ 1 <= n <= MAX_SESSION_TURNS_CEILING.
Proof.
  unfold canonical_turns, MAX_SESSION_TURNS_CEILING. split.
  - destruct (Nat.eqb_spec (length digits) 0) as [|Hne]; [done|]. cbn [orb].
    destruct (10 <? length digits)%nat; [done|]. cbn [orb].
    destruct (starts_with (lit "0") digits) eqn:Hz; [done|]. cbn [orb].
    destruct (forallb is_ascii_digit digits) eqn:Hd; [|done]. cbn [negb].
    unfold parse_digits_max. destruct (_ <=? _); [|done]. cbn [mbind option_bind].
    destruct (Z.eqb_spec (digits_value digits) 0), (Z.ltb_spec 2000 (digits_value digits)); try done. intros [= <-].
    pose proof (digits_value_bound digits Hd). split; [|lia].
    destruct (show_Z_spec (digits_value digits)) as (Hv & Hs & b & r & Hbr & Hb0); [lia|].
    destruct digits as [|c t]; [done|]. rewrite Hbr in *. apply digits_value_inj; try done.
    + intros ->. rewrite (proj2 (starts_with_spec _ _)) in Hz; [done | by exists t].
    + intros ->. destruct (Hb0 eq_refl). lia.
  - intros [-> Hn]. destruct (show_Z_spec n) as (Hv & Hd & b & r & Hbr & Hb0); [lia|]. rewrite Hd. cbn [negb].
    assert (Hb : b ≠ 48) by (intros ->; destruct (Hb0 eq_refl); lia).
    assert (Hlen : (length (show_Z n) <= 4)%nat).
    { rewrite Hbr in *. simpl in Hd. apply andb_true_iff in Hd as [Hdb%is_ascii_digit_spec Hdr].
      pose proof (digits_value_lower b r ltac:(lia) Hdr) as Hlow. rewrite Hv in Hlow.
      destruct (decide (length r <= 3)%nat); [simpl; lia|]. exfalso.
      assert (10 ^ 4 <= 10 ^ Z.of_nat (length r)) by (apply Z.pow_le_mono_r; lia). lia. }
    destruct (Nat.eqb_spec (length (show_Z n)) 0) as [E|_]; [rewrite Hbr in E; done|]. cbn [orb].
    destruct (Nat.ltb_spec 10 (length (show_Z n))); [lia|]. cbn [orb].
    destruct (starts_with (lit "0") (show_Z n)) eqn:Hz.
    { apply starts_with_spec in Hz as [t Ht]. rewrite Hbr in Ht. by injection Ht as ->. }
    cbn [orb]. unfold parse_digits_max. rewrite Hv. destruct (Z.leb_spec n U32_MAX); [|unfold U32_MAX in *; lia].
    cbn [mbind option_bind]. destruct (Z.eqb_spec n 0), (Z.ltb_spec 2000 n); simpl; try lia; done.
Qed.

Lemma turn_record_text n : 1 <= n → is_ok (from_utf8 (turn_budget_record n)) = true.
Proof.
  intros Hn. unfold turn_budget_record. apply from_utf8_Valid. repeat apply Valid_app.
  - apply from_utf8_Valid. by vm_compute.
  - destruct (show_Z_spec n) as (_ & Hd & _); [lia|]. apply Valid_ascii, Forall_forall. intros b Hb. rewrite forallb_forall in Hd.
    apply list_elem_of_In, Hd, is_ascii_digit_spec in Hb. lia.
  - apply from_utf8_Valid. by vm_compute.
Qed.

Lemma record_digits bytes digits :
  (strip_prefix TURN_RECORD_PREFIX bytes ≫= strip_suffix TURN_RECORD_SUFFIX) = Some digits ↔
  bytes = TURN_RECORD_PREFIX ++ digits ++ TURN_RECORD_SUFFIX.
Proof.
  split.
  - destruct (strip_prefix TURN_RECORD_PREFIX bytes) as [rest|] eqn:Hp; [|done]. simpl. intros Hs.
    apply strip_prefix_Some in Hp. apply strip_suffix_Some in Hs. by rewrite Hp, Hs.
  - intros ->. rewrite (proj2 (strip_prefix_Some _ _ _) eq_refl). simpl. by apply strip_suffix_Some.
Qed.

(** The turn-budget record has one spelling: what the service writes is read
    back, by the service and by the launcher, and no other bytes are. *)
Theorem turn_budget_one_spelling bytes n :
  (parse_turn_budget_record bytes = Some n ↔ bytes = turn_budget_record n ∧ 1 <= n <= MAX_SESSION_TURNS_CEILING) ∧
  (parse_session_turn_budget bytes = Ok n ↔ parse_turn_budget_record bytes = Some n).
Proof.
  unfold parse_turn_budget_record, parse_session_turn_budget. split.
  - split.
    + destruct (is_ok (from_utf8 bytes)); [|done]. intros (digits & Hd%record_digits & [-> Hn]%canonical_turns_ok)%bind_Some. done.
    + intros [-> Hn]. rewrite turn_record_text by lia. apply bind_Some. exists (show_Z n). split; [by apply record_digits|].
      by apply canonical_turns_ok.
  - destruct (is_ok (from_utf8 bytes)); [|done]. cbn [negb].
    destruct (strip_prefix TURN_RECORD_PREFIX bytes ≫= strip_suffix TURN_RECORD_SUFFIX) as [digits|]; [|done].
    cbn [ok_or mbind result_bind option_bind]. unfold canonical_turns. destruct (_ || _); [done|].
    destruct (parse_digits_max U32_MAX digits) as [turns|]; [|done]. cbn [ok_or mbind result_bind option_bind].
    destruct (_ || _); [done|]. split; congruence.
Qed.

(** ** Names *)

(** A name that stays below the root and names one object. *)
Definition good_name (n : str) : Prop :=
  Forall (fun c => c ≠ [] ∧ c ≠ lit "." ∧ c ≠ lit "..") (split_on 47 n) ∧ 0 ∉ n ∧ Valid n.

Lemma split_on_app s r : split_on 47 (s ++ 47 :: r) = split_on 47 s ++ split_on 47 r.
Proof.
  induction s as [|b s IH]; [done|]. cbn [app split_on]. rewrite IH.
  destruct (b =? 47); [done|]. pose proof (split_on_nonempty 47 s). by destruct (split_on 47 s).
Qed.

Lemma not_in_existsb p : existsb (Z.eqb 0) p = false ↔ 0 ∉ p.
Proof.
  split.
  - intros He Hin. assert (E : existsb (Z.eqb 0) p = true) by (apply existsb_exists; exists 0; by split; [apply list_elem_of_In|]). congruence.
  - intros Hn. destruct (existsb (Z.eqb 0) p) eqn:He; [|done]. apply existsb_exists in He as (b & Hb & Hb0).
    apply Z.eqb_eq in Hb0 as <-. by apply list_elem_of_In in Hb.
Qed.

Lemma name_components_ok n :
  fold_result name_component_step tt (split_on 47 n) = Ok tt ↔
  Forall (fun c => c ≠ [] ∧ c ≠ lit "." ∧ c ≠ lit "..") (split_on 47 n).
Proof.
  rewrite fold_result_unit. split; intros Hall; (eapply Forall_impl; [exact Hall|]); intros c; unfold name_component_step; cbn beta.
  - destruct (Nat.eqb_spec (length c) 0); [done|]. do 2 (case_bool_decide; [done|]). intros _. split_and!; try done. by intros ->.
  - intros (Hne & H1c & H2c). destruct (Nat.eqb_spec (length c) 0) as [E%nil_length_inv|]; [done|].
    by rewrite !bool_decide_false.
Qed.

Lemma good_name_head n b r : good_name n → n = b :: r → b ≠ 47.
Proof. intros [Hc _] -> ->. simpl in Hc. apply Forall_cons in Hc as [(? & _) _]. done. Qed.

Lemma good_name_last n r : good_name n → n ≠ r ++ [47].
Proof.
  intros [Hc _] ->. rewrite split_on_app in Hc. apply Forall_app in Hc as [_ Hc]. simpl in Hc.
  apply Forall_cons in Hc as [(? & _) _]. done.
Qed.

Lemma canonical_name_ok raw n suffixed :
  canonical_archive_entry_name raw = Ok (n, suffixed) ↔
  good_name n ∧ raw = n ++ (if suffixed : bool then [47] else []).
Proof.
  unfold canonical_archive_entry_name. split.
  - destruct (Nat.eqb_spec (length raw) 0); [done|]. destruct (existsb (Z.eqb 0) raw) eqn:Hz; [done|].
    destruct (is_ok (from_utf8 raw)) eqn:Hv; [|done]. cbn [negb]. destruct (starts_with (lit "/") raw); [done|].
    apply not_in_existsb in Hz. apply from_utf8_Valid in Hv.
    set (split := match strip_suffix (lit "/") raw with Some stripped => (stripped, true) | None => (raw, false) end).
    assert (Hsplit : raw = split.1 ++ (if split.2 then [47] else [])).
    { unfold split. destruct (strip_suffix (lit "/") raw) as [s|] eqn:Hs; [by apply strip_suffix_Some in Hs|by rewrite app_nil_r]. }
    destruct split as [m b]. cbn [fst snd] in Hsplit. destruct (Nat.eqb_spec (length m) 0); [done|].
    intros ([] & Hc%name_components_ok & [= -> ->])%bind_ok_inv. split; [|done]. split; [done|]. subst raw. split.
    + intros Hin. apply Hz. apply elem_of_app. by left.
    + destruct suffixed; [|by rewrite app_nil_r in Hv]. by apply Valid_cut in Hv; [|intros x [= <-]].
  - intros [Hg ->]. pose proof Hg as (Hc & Hz & Hv).
    assert (Hne : n ≠ []) by (intros ->; simpl in Hc; by apply Forall_cons in Hc as [(? & _) _]).
    set (raw := n ++ (if suffixed then [47] else [])).
    assert (Hraw : (length raw =? 0)%nat = false) by (apply Nat.eqb_neq; unfold raw; rewrite length_app; destruct n; [done|simpl; lia]).
    rewrite Hraw. assert (Hz' : existsb (Z.eqb 0) raw = false).
    { apply not_in_existsb. unfold raw. rewrite elem_of_app. destruct suffixed; set_solver. }
    rewrite Hz'. assert (Hv' : is_ok (from_utf8 raw) = true).
    { apply from_utf8_Valid. unfold raw. destruct suffixed; [|by rewrite app_nil_r]. apply Valid_app; [done|]. apply from_utf8_Valid. by vm_compute. }
    rewrite Hv'. cbn [negb]. assert (Hs : starts_with (lit "/") raw = false).
    { destruct (starts_with (lit "/") raw) eqn:Hs; [|done]. apply starts_with_spec in Hs as [r Hr]. destruct n as [|b r']; [done|].
      injection Hr as Hb _. by destruct (good_name_head (b :: r') b r' Hg eq_refl). }
    rewrite Hs. assert (Hstrip : match strip_suffix (lit "/") raw with Some stripped => (stripped, true) | None => (raw, false) end = (n, suffixed)).
    { unfold raw. destruct suffixed.
      - by rewrite (proj2 (strip_suffix_Some (lit "/") (n ++ [47]) n) eq_refl).
      - rewrite app_nil_r. destruct (strip_suffix (lit "/") n) as [r|] eqn:Hr; [|done]. apply strip_suffix_Some in Hr.
        by destruct (good_name_last n r Hg). }
    rewrite Hstrip. destruct (Nat.eqb_spec (length n) 0) as [E%nil_length_inv|]; [done|].
    by rewrite (proj2 (name_components_ok n) Hc).
Qed.

(** ** Parents *)
Lemma join_cons_nonempty c cs : cs ≠ [] → join 47 (c :: cs) = c ++ 47 :: join 47 cs.
Proof. by destruct cs. Qed.

Lemma ancestors_from_spec acc comps a :
  acc ≠ [] → a ∈ ancestors_from acc comps ↔ ∃ pre post, comps = pre ++ post ∧ pre ≠ [] ∧ post ≠ [] ∧ a = acc ++ 47 :: join 47 pre.
Proof.
  revert acc. induction comps as [|c rest IH]; intros acc Hacc.
  - simpl. split; [by intros ?%not_elem_of_nil|]. intros (pre & post & E & Hpre & _). by destruct pre.
  - destruct rest as [|d rest].
    + simpl. split; [by intros ?%not_elem_of_nil|]. intros (pre & post & E & Hpre & Hpost & _).
      destruct pre as [|x pre]; [done|]. injection E as <- E. destruct pre; [by destruct post|done].
    + change (ancestors_from acc (c :: d :: rest)) with
        (let a := if (length acc =? 0)%nat then c else acc ++ lit "/" ++ c in a :: ancestors_from a (d :: rest)).
      cbv zeta. destruct (Nat.eqb_spec (length acc) 0) as [E%nil_length_inv|_]; [done|].
      change (acc ++ lit "/" ++ c) with (acc ++ 47 :: c). rewrite elem_of_cons, IH by (by destruct acc). split.
      * intros [->|(pre & post & E & Hpre & Hpost & ->)].
        -- by exists [c], (d :: rest).
        -- exists (c :: pre), post. rewrite E. split_and!; try done. rewrite join_cons_nonempty by done. by rewrite <- app_assoc.
      * intros (pre & post & E & Hpre & Hpost & ->). destruct pre as [|x pre]; [done|]. injection E as <- E.
        destruct pre as [|y pre]; [by left|]. right. exists (y :: pre), post. split_and!; try done.
        rewrite (join_cons_nonempty c (y :: pre)) by done. by rewrite <- app_assoc.
Qed.

(** The parents of a name are its prefixes before a separator. *)
Lemma ancestors_spec n a :
  Forall (fun c => c ≠ []) (split_on 47 n) → a ∈ ancestors n ↔ ∃ r, n = a ++ 47 :: r.
Proof.
  intros Hc. unfold ancestors.
  assert (Hspec : a ∈ ancestors_from [] (split_on 47 n) ↔ ∃ pre post, split_on 47 n = pre ++ post ∧ pre ≠ [] ∧ post ≠ [] ∧ a = join 47 pre).
  { destruct (split_on 47 n) as [|c rest]; [|destruct rest as [|d rest]].
    - simpl. split; [by intros ?%not_elem_of_nil|]. intros (pre & post & E & Hpre & _). by destruct pre.
    - simpl. split; [by intros ?%not_elem_of_nil|]. intros (pre & post & E & Hpre & Hpost & _).
      destruct pre as [|x pre]; [done|]. injection E as <- E. destruct pre; [by destruct post|done].
    - apply Forall_cons in Hc as [Hcne _]. change (ancestors_from [] (c :: d :: rest)) with (c :: ancestors_from c (d :: rest)).
      rewrite elem_of_cons, ancestors_from_spec by done. split.
      + intros [->|(pre & post & E & Hpre & Hpost & ->)]; [by exists [c], (d :: rest)|].
        exists (c :: pre), post. rewrite E. split_and!; try done. by rewrite join_cons_nonempty.
      + intros (pre & post & E & Hpre & Hpost & ->). destruct pre as [|x pre]; [done|]. injection E as <- E.
        destruct pre as [|y pre]; [by left|]. right. exists (y :: pre), post. by split_and!. }
  rewrite Hspec. split.
  - intros (pre & post & E & Hpre & Hpost & ->). exists (join 47 post). rewrite <- (join_split 47 n), E.
    clear -Hpre Hpost. induction pre as [|c pre IH]; [done|]. destruct pre as [|d pre].
    + simpl app. by apply join_cons_nonempty.
    + change (join 47 ((c :: d :: pre) ++ post)) with (c ++ 47 :: join 47 ((d :: pre) ++ post)).
      rewrite IH by done. rewrite (join_cons_nonempty c (d :: pre)) by done. by rewrite <- app_assoc.
  - intros [r ->]. exists (split_on 47 a), (split_on 47 r). rewrite split_on_app, join_split.
    split_and!; try done; apply split_on_nonempty.
Qed.

Lemma good_components n : good_name n → Forall (fun c => c ≠ []) (split_on 47 n).
Proof. intros [Hc _]. eapply Forall_impl; [exact Hc|]. by intros c [? _]. Qed.

Lemma good_ancestor n a : good_name n → a ∈ ancestors n → Forall (fun c => c ≠ []) (split_on 47 a).
Proof.
  intros Hg Ha. pose proof (good_components n Hg) as Hc. apply ancestors_spec in Ha as [r ->]; [|done].
  rewrite split_on_app in Hc. by apply Forall_app in Hc as [? _].
Qed.

(** A parent's parents are the name's, and come before it. *)
Lemma ancestors_trans n a b : good_name n → a ∈ ancestors n → b ∈ ancestors a → b ∈ ancestors n.
Proof.
  intros Hg Ha Hb. pose proof (good_ancestor n a Hg Ha) as Hca. pose proof (good_components n Hg) as Hc.
  apply ancestors_spec in Ha as [r ->]; [|done]. apply ancestors_spec in Hb as [r' ->]; [|done].
  apply ancestors_spec; [done|]. exists (r' ++ 47 :: r). by rewrite <- app_assoc.
Qed.

(** ** The plan *)

(** What an entry of the container is planned as. *)
Definition planned_as (ze : ZipEntry) (e : ArchiveEntryPlan) : Prop :=
  ∃ suffixed : bool, name_raw ze = name e ++ (if suffixed then [47] else []) ∧ good_name (name e) ∧
    archive_entry_kind suffixed (unix_mode ze) = Ok (kind e) ∧ declared_bytes e = entry_size ze ∧
    executable e = match unix_mode ze with Some m => negb (Z.land m 73 =? 0) | None => false end.

Definition size_ok (e : ArchiveEntryPlan) : Prop :=
  match kind e with
  | Directory => declared_bytes e = 0
  | SymbolicLink => 1 <= declared_bytes e <= MAX_TARGET_BYTES
  | RegularFile => 0 <= declared_bytes e
  end.

Definition is_regular (e : ArchiveEntryPlan) : bool := match kind e with RegularFile => true | _ => false end.
Definition file_count (p : list ArchiveEntryPlan) : Z := Z.of_nat (length (filter is_regular p)).
Definition sum_Z (l : list Z) : Z := foldr Z.add 0 l.
Definition file_bytes (p : list ArchiveEntryPlan) : Z := sum_Z (declared_bytes <$> filter is_regular p).

(** The paths of a plan: its entries and their parents. *)
Definition parents_of (p : list ArchiveEntryPlan) : gset str := list_to_set (mbind (ancestors ∘ name) p).
Definition objects (p : list ArchiveEntryPlan) : gset str := list_to_set (name <$> p) ∪ parents_of p.

Record plan_ok (p : list ArchiveEntryPlan) : Prop := {
  plan_unique : NoDup (name <$> p);
  plan_named : Forall (good_name ∘ name) p;
  plan_sized : Forall size_ok p;
  plan_parents : ∀ e e', e ∈ p → e' ∈ p → name e' ∈ ancestors (name e) → kind e' = Directory;
}.

Definition kinds_of (p : list ArchiveEntryPlan) : list (str * ArchiveEntryKind) :=
  foldl (fun m e => bt_insert (name e) (kind e) m) [] p.
Definition scan_of (p : list ArchiveEntryPlan) : Scan :=
  {| plan := p; kinds := kinds_of p; scan_files := file_count p; scan_bytes := file_bytes p |}.

Lemma kinds_of_snoc p e : kinds_of (p ++ [e]) = bt_insert (name e) (kind e) (kinds_of p).
Proof. unfold kinds_of. by rewrite foldl_app. Qed.

Lemma kinds_of_get p a : NoDup (name <$> p) →
  ∀ k, bt_get a (kinds_of p) = Some k ↔ ∃ e, e ∈ p ∧ name e = a ∧ kind e = k.
Proof.
  induction p as [|e p IH] using rev_ind; intros Hnd k.
  - split; [done|]. by intros (e & ?%not_elem_of_nil & _).
  - rewrite fmap_app in Hnd. apply NoDup_app in Hnd as (Hnd & Hfresh & _).
    rewrite kinds_of_snoc, bt_get_insert. case_decide as Ha.
    + subst a. split.
      * intros [= <-]. exists e. split_and!; try done. set_solver.
      * intros (e' & [He'|He'%list_elem_of_singleton]%elem_of_app & Hn & <-); [|by subst].
        exfalso. apply (Hfresh (name e)); [rewrite <- Hn; by apply list_elem_of_fmap_2|]. simpl. set_solver.
    + rewrite IH by done. split; intros (e' & He' & Hn & Hk); exists e'; split_and!; try done; set_solver.
Qed.

Lemma kinds_of_sorted p : bt_sorted (kinds_of p).
Proof. induction p as [|e p IH] using rev_ind; [done|]. rewrite kinds_of_snoc. by apply bt_insert_sorted. Qed.

Lemma kinds_of_none p a : NoDup (name <$> p) → bt_get a (kinds_of p) = None ↔ a ∉ name <$> p.
Proof.
  intros Hnd. rewrite eq_None_not_Some. split; intros Hn Hin; apply Hn.
  - apply list_elem_of_fmap in Hin as (e & -> & He). exists (kind e). apply kinds_of_get; [done|]. by exists e.
  - destruct Hin as [k Hk]. apply kinds_of_get in Hk as (e & He & <- & _); [|done]. apply list_elem_of_fmap. by exists e.
Qed.

Lemma kinds_of_length p : NoDup (name <$> p) → length (kinds_of p) = length p.
Proof.
  induction p as [|e p IH] using rev_ind; intros Hnd; [done|]. rewrite fmap_app in Hnd.
  apply NoDup_app in Hnd as (Hnd & Hfresh & _). rewrite kinds_of_snoc, length_app. simpl. rewrite bt_insert_length.
  - rewrite IH by done. lia.
  - apply kinds_of_none; [done|]. intros Hin. eapply Hfresh; [exact Hin|]. set_solver.
Qed.

Lemma kinds_of_names p a : NoDup (name <$> p) → a ∈ (kinds_of p).*1 ↔ a ∈ name <$> p.
Proof.
  intros Hnd. destruct (decide (a ∈ name <$> p)) as [Hin|Hn].
  - split; [done|]. intros _. destruct (bt_get a (kinds_of p)) as [k|] eqn:Hg.
    + apply bt_get_elem in Hg. apply list_elem_of_fmap. by exists (a, k).
    + by apply kinds_of_none in Hg.
  - split; [|done]. by apply kinds_of_none, bt_get_None in Hn.
Qed.

Lemma filter_snoc p e : filter is_regular (p ++ [e]) = filter is_regular p ++ (if is_regular e then [e] else []).
Proof.
  rewrite filter_app. f_equal. destruct (is_regular e) eqn:E.
  - rewrite filter_cons_True; [done|by rewrite E].
  - rewrite filter_cons_False; [done|rewrite E; intros []].
Qed.

Lemma filter_snoc_count p e : file_count (p ++ [e]) = file_count p + (if is_regular e then 1 else 0).
Proof. unfold file_count. rewrite filter_snoc, length_app. destruct (is_regular e); simpl; lia. Qed.

Lemma sum_Z_app l k : sum_Z (l ++ k) = sum_Z l + sum_Z k.
Proof. induction l as [|x l IH]; [done|]. simpl. unfold sum_Z in *. lia. Qed.

Lemma filter_snoc_bytes p e : file_bytes (p ++ [e]) = file_bytes p + (if is_regular e then declared_bytes e else 0).
Proof. unfold file_bytes. rewrite filter_snoc, fmap_app, sum_Z_app. destruct (is_regular e); unfold sum_Z; simpl; lia. Qed.

Lemma regular_nonneg p : Forall size_ok p → 0 <= file_bytes p.
Proof.
  induction p as [|e p IH] using rev_ind; intros Hs; [done|]. apply Forall_app in Hs as [Hp He%Forall_inv].
  rewrite filter_snoc_bytes. specialize (IH Hp). unfold is_regular, size_ok in *.
  destruct (kind e); simpl; lia.
Qed.

Lemma require_staging_caps_ok b e f :
  require_staging_caps b e f = Ok tt ↔ b <= MAX_STAGED_BYTES ∧ e <= MAX_STAGED_ENTRIES ∧ f <= MAX_STAGED_FILES.
Proof.
  unfold require_staging_caps.
  destruct (Z.ltb_spec MAX_STAGED_ENTRIES e), (Z.ltb_spec MAX_STAGED_FILES f), (Z.ltb_spec MAX_STAGED_BYTES b); simpl; split; intros; try done; lia.
Qed.

(** What a plan implies beyond its entries. *)
Definition implied_of (ks : list (str * ArchiveEntryKind)) (l : list str) : gset str :=
  list_to_set (filter (fun a => bt_get a ks = None) l).

Lemma parents_fold ks s l s' :
  fold_result (parent_step ks) s l = Ok s' ↔
  Forall (fun a => ∀ k, bt_get a ks = Some k → k = Directory) l ∧ s' = implied_of ks l ∪ s.
Proof.
  revert s. induction l as [|a l IH]; intros s.
  - unfold implied_of. simpl. split; [intros [= <-]; split; [constructor|set_solver]|].
    intros [_ ->]. f_equal. set_solver.
  - simpl. rewrite Forall_cons. unfold parent_step at 2, implied_of. rewrite filter_cons.
    destruct (bt_get a ks) as [k|] eqn:Hg.
    + rewrite decide_False by done. assert (Hk : (∀ k' : ArchiveEntryKind, Some k = Some k' → k' = Directory) ↔ k = Directory).
      { split; [auto|]. by intros -> k' [= <-]. }
      rewrite Hk. destruct k.
      * cbn [mbind result_bind]. rewrite IH. by intuition.
      * split; [intros [=]|by intros [[? _] _]].
      * split; [intros [=]|by intros [[? _] _]].
    + rewrite decide_True by done. cbn [mbind result_bind]. rewrite IH. unfold implied_of. simpl. split.
      * intros [? ->]. split; [split; [done|done]|set_solver].
      * intros [[_ ?] ->]. split; [done|set_solver].
Qed.

Lemma parents_steps ks s names :
  fold_result (parents_step ks) s names = fold_result (parent_step ks) s (mbind ancestors names).
Proof.
  revert s. induction names as [|n names IH]; intros s; [done|]. simpl. rewrite fold_result_app. unfold parents_step at 2.
  destruct (fold_result (parent_step ks) s (ancestors n)) as [s'|e]; [apply IH|done].
Qed.

Lemma implied_size p :
  NoDup (name <$> p) →
  Z.of_nat (length (kinds_of p)) + Z.of_nat (size (implied_of (kinds_of p) (mbind ancestors (kinds_of p).*1))) = Z.of_nat (size (objects p)).
Proof.
  intros Hnd. rewrite kinds_of_length by done.
  assert (E : objects p = list_to_set (name <$> p) ∪ implied_of (kinds_of p) (mbind ancestors (kinds_of p).*1)).
  { apply set_eq. intros a. unfold objects, implied_of, parents_of. rewrite !elem_of_union, !elem_of_list_to_set, list_elem_of_filter.
    rewrite kinds_of_none by done. rewrite !list_elem_of_bind. split.
    - intros [?|(e & He & Hin)]; [by left|]. destruct (decide (a ∈ name <$> p)); [by left|]. right. split; [done|].
      exists (name e). split; [done|]. apply kinds_of_names; [done|]. by apply list_elem_of_fmap_2.
    - intros [?|(Hn & m & Hm & Hin)]; [by left|]. right. apply kinds_of_names in Hin; [|done].
      apply list_elem_of_fmap in Hin as (e & -> & He). by exists e. }
  rewrite E, size_union.
  - rewrite size_list_to_set by done. rewrite length_fmap. lia.
  - intros a Ha Hi. unfold implied_of in Hi. rewrite elem_of_list_to_set, list_elem_of_filter, kinds_of_none in Hi by done.
    rewrite elem_of_list_to_set in Ha. by destruct Hi.
Qed.

Lemma file_count_nonneg p : 0 <= file_count p.
Proof. unfold file_count. lia. Qed.

Lemma implied_parents p :
  NoDup (name <$> p) →
  Forall (fun a => ∀ k, bt_get a (kinds_of p) = Some k → k = Directory) (mbind ancestors (kinds_of p).*1) ↔
  ∀ e e', e ∈ p → e' ∈ p → name e' ∈ ancestors (name e) → kind e' = Directory.
Proof.
  intros Hnd. rewrite Forall_forall. split.
  - intros Hall e e' He He' Ha. eapply (Hall (name e')).
    + apply list_elem_of_bind. exists (name e). split; [done|]. apply kinds_of_names; [done|]. by apply list_elem_of_fmap_2.
    + apply kinds_of_get; [done|]. by exists e'.
  - intros Hall a Ha k Hk. apply list_elem_of_bind in Ha as (m & Ha & Hm). apply kinds_of_names in Hm; [|done].
    apply list_elem_of_fmap in Hm as (e & -> & He). apply kinds_of_get in Hk as (e' & He' & <- & <-); [|done]. by apply (Hall e e').
Qed.

Definition summary_of (p : list ArchiveEntryPlan) : ArchiveSummary :=
  {| declared_entries := Z.of_nat (size (objects p)); declared_regular_files := file_count p; declared_regular_file_bytes := file_bytes p |}.
Definition within_caps (p : list ArchiveEntryPlan) : Prop :=
  file_bytes p <= MAX_STAGED_BYTES ∧ Z.of_nat (size (objects p)) <= MAX_STAGED_ENTRIES ∧ file_count p <= MAX_STAGED_FILES.

Lemma summarize_exact p r :
  NoDup (name <$> p) →
  summarize (scan_of p) = Ok r ↔
  (∀ e e', e ∈ p → e' ∈ p → name e' ∈ ancestors (name e) → kind e' = Directory) ∧ within_caps p ∧ r = (p, summary_of p).
Proof.
  intros Hnd. unfold summarize. simpl. rewrite parents_steps. split.
  - intros (implied & [Hpar ->]%parents_fold & Hr)%bind_ok_inv. rewrite union_empty_r_L in Hr.
    apply bind_ok_inv in Hr as (entries & (-> & _)%ok_or_ok%checked_add_Some & Hr). rewrite implied_size in Hr by done.
    apply bind_ok_inv in Hr as ([] & Hcaps%require_staging_caps_ok & [= <-]). by pose proof (proj1 (implied_parents p Hnd) Hpar).
  - intros (Hpar & Hcaps & ->). pose proof (proj2 (implied_parents p Hnd) Hpar) as Himplied.
    rewrite (proj2 (parents_fold _ _ _ _) (conj Himplied eq_refl)). cbn [mbind result_bind]. rewrite union_empty_r_L.
    pose proof (implied_size p Hnd) as Hsz. destruct Hcaps as (Hb & He & Hf). unfold MAX_STAGED_ENTRIES in He.
    rewrite <- Hsz in He. assert (Hadd := λ H, proj2 (checked_add_Some _ _ _) (conj (eq_refl (Z.of_nat (length (kinds_of p)) +
      Z.of_nat (size (implied_of (kinds_of p) (mbind ancestors (kinds_of p).*1))))) H)).
    rewrite Hadd by (unfold U64_MAX; lia). cbn [ok_or mbind result_bind]. rewrite Hsz in He |- *. rewrite (proj2 (require_staging_caps_ok _ _ _) (conj Hb (conj He Hf))). done.
Qed.

Section StructureSpec.
Context `{ZipReaderLaws}.

(** One entry extends the plan exactly when it is well named, of a supported
    kind, within its size, and new. *)
Lemma entry_step_exact archive p i st :
  NoDup (name <$> p) →
  entry_step archive (scan_of p) i = Ok st ↔
  ∃ ze e, zip_by_index archive i = Some ze ∧ planned_as ze e ∧ size_ok e ∧ name e ∉ name <$> p ∧
    (is_regular e = true → file_count (p ++ [e]) <= U64_MAX ∧ file_bytes (p ++ [e]) <= U64_MAX) ∧ st = scan_of (p ++ [e]).
Proof.
  intros Hnd. unfold entry_step. split.
  - intros (ze & Hze%ok_or_ok & Hr)%bind_ok_inv. apply bind_ok_inv in Hr as ([n suffixed] & Hn & Hr).
    apply canonical_name_ok in Hn as [Hg Hraw]. apply bind_ok_inv in Hr as (k & Hk & Hr).
    apply bind_ok_inv in Hr as ([files total] & Hsz & Hr).
    destruct (bt_contains n (kinds (scan_of p))) eqn:Hc; [done|]. injection Hr as <-.
    set (e := {| name := n; kind := k; declared_bytes := entry_size ze;
                 executable := match unix_mode ze with Some m => negb (Z.land m 73 =? 0) | None => false end |}).
    pose proof (zip_size_u64 _ _ _ Hze) as Hu.
    assert (Hnew : n ∉ name <$> p).
    { apply kinds_of_none; [done|]. unfold bt_contains in Hc. simpl in Hc. by destruct (bt_get n (kinds_of p)). }
    assert (Hsize : size_ok e ∧ files = file_count (p ++ [e]) ∧ total = file_bytes (p ++ [e]) ∧
              (is_regular e = true → file_count (p ++ [e]) <= U64_MAX ∧ file_bytes (p ++ [e]) <= U64_MAX)).
    { rewrite filter_snoc_count, filter_snoc_bytes. unfold size_ok, is_regular; simpl. destruct k; simpl in Hsz |- *.
      - destruct (Z.eqb_spec (entry_size ze) 0); [|done]. injection Hsz as <- <-. split_and!; [done|lia|lia|done].
      - apply bind_ok_inv in Hsz as (f & (-> & ?)%ok_or_ok%checked_add_Some & Hsz).
        apply bind_ok_inv in Hsz as (t & (-> & ?)%ok_or_ok%checked_add_Some & [= <- <-]). unfold is_u64 in Hu. split_and!; try done; lia.
      - destruct (Z.eqb_spec (entry_size ze) 0), (Z.ltb_spec MAX_TARGET_BYTES (entry_size ze)); try done.
        injection Hsz as <- <-. unfold is_u64 in Hu. split_and!; try done; lia. }
    destruct Hsize as (Hs & -> & -> & Hover). exists ze, e. split_and!; try done; try (by apply Hover).
    + exists suffixed. by split_and!.
    + unfold scan_of. by rewrite kinds_of_snoc.
  - intros (ze & e & Hze & (suffixed & Hraw & Hg & Hk & Hb & Hx) & Hs & Hnew & Hover & ->). rewrite Hze. cbn [ok_or mbind result_bind].
    rewrite (proj2 (canonical_name_ok _ _ _) (conj Hg Hraw)). cbn [mbind result_bind]. rewrite Hk. cbn [mbind result_bind].
    assert (Hsz : size_step (kind e) (entry_size ze) (scan_of p) = Ok (file_count (p ++ [e]), file_bytes (p ++ [e]))).
    { rewrite filter_snoc_count, filter_snoc_bytes in *. rewrite <- Hb. unfold size_ok, is_regular in *. destruct (kind e); simpl in *.
      - rewrite Hs. simpl. by rewrite !Z.add_0_r.
      - destruct Hover as [Ho1 Ho2]; [done|]. rewrite (proj2 (checked_add_Some _ _ _) (conj eq_refl Ho1)). simpl.
        by rewrite (proj2 (checked_add_Some _ _ _) (conj eq_refl Ho2)).
      - destruct (Z.eqb_spec (declared_bytes e) 0), (Z.ltb_spec MAX_TARGET_BYTES (declared_bytes e)); try lia. simpl. by rewrite !Z.add_0_r. }
    rewrite Hsz. cbn [mbind result_bind]. unfold bt_contains. simpl. rewrite (proj2 (kinds_of_none p (name e) Hnd) Hnew).
    unfold scan_of. rewrite kinds_of_snoc, <- Hb, <- Hx. by destruct e.
Qed.

Lemma scan_exact archive n st :
  fold_result (entry_step archive) (scan_of []) (seq 0 n) = Ok st ↔
  ∃ p, st = scan_of p ∧ length p = n ∧ (∀ i e, p !! i = Some e → ∃ ze, zip_by_index archive i = Some ze ∧ planned_as ze e) ∧
    NoDup (name <$> p) ∧ Forall size_ok p ∧ file_count p <= U64_MAX ∧ file_bytes p <= U64_MAX.
Proof.
  revert st. induction n as [|n IH]; intros st.
  - simpl. split.
    + intros [= <-]. exists []. split_and!; try done. constructor.
    + intros (p & -> & ->%nil_length_inv & _). done.
  - rewrite seq_S, fold_result_app. simpl. split.
    + intros (st' & (p & -> & Hlen & Hall & Hnd & Hsz & Hc & Hb)%IH & Hstep)%bind_ok_inv.
      apply bind_ok_inv in Hstep as (st2 & Hstep & [= <-]). apply entry_step_exact in Hstep as (ze & e & Hze & Has & Hs & Hnew & Hover & ->); [|done].
      exists (p ++ [e]). split_and!.
      * done.
      * rewrite length_app. simpl. lia.
      * intros i e' He'. apply lookup_app_Some in He' as [?|[Hi He']]; [by apply Hall|].
        apply list_lookup_singleton_Some in He' as [Hi0 <-]. assert (i = n) as -> by lia. by exists ze.
      * rewrite fmap_app. apply NoDup_app. split_and!; [done| |apply NoDup_singleton]. intros x Hx ->%list_elem_of_singleton. done.
      * by apply Forall_app_2; [|apply Forall_singleton].
      * rewrite filter_snoc_count in *. destruct (is_regular e); [by apply Hover|lia].
      * rewrite filter_snoc_bytes in *. destruct (is_regular e); [by apply Hover|lia].
    + intros (p & -> & Hlen & Hall & Hnd & Hsz & Hc & Hb). destruct p as [|e p _] using rev_ind; [done|].
      rewrite length_app in Hlen. simpl in Hlen. rewrite fmap_app in Hnd. apply NoDup_app in Hnd as (Hnd & Hfresh & _).
      apply Forall_app in Hsz as [Hsz He%Forall_inv].
      assert (Hprefix : fold_result (entry_step archive) (scan_of []) (seq 0 n) = Ok (scan_of p)).
      { apply IH. exists p. split_and!; try done.
        - lia.
        - intros i e' He'. apply Hall. by apply lookup_app_l_Some.
        - rewrite filter_snoc_count in Hc. destruct (is_regular e); lia.
        - rewrite filter_snoc_bytes in Hb. unfold is_regular, size_ok in *. destruct (kind e); lia. }
      rewrite Hprefix. cbn [mbind result_bind].
      destruct (Hall (length p) e) as (ze & Hze & Has); [by apply list_lookup_middle|].
      assert (Hstep : entry_step archive (scan_of p) n = Ok (scan_of (p ++ [e]))).
      { apply entry_step_exact; [done|]. exists ze, e. split_and!; try done.
        - by assert (n = length p) as -> by lia.
        - intros Hin. eapply Hfresh; [exact Hin|]. set_solver. }
      by rewrite Hstep.
Qed.

(** The archive an accepted plan describes. *)
Record describes (opened : result OsError str) (archive : zip_archive) (p : list ArchiveEntryPlan) : Prop := {
  described_file : ∃ file, opened = Ok file ∧ zip_new file = Some archive ∧
    declared_central_entry_count file = Ok (Z.of_nat (zip_len archive));
  described_length : length p = zip_len archive;
  described_entry : ∀ i e, p !! i = Some e → ∃ ze, zip_by_index archive i = Some ze ∧ planned_as ze e;
}.

Lemma validated_iff opened p summary :
  validate_archive_structure opened = Ok (p, summary) ↔
  ∃ archive, describes opened archive p ∧ plan_ok p ∧ within_caps p ∧ summary = summary_of p.
Proof.
  unfold validate_archive_structure, open_source_file. split.
  - intros (file & Hfile & Hr)%bind_ok_inv. destruct opened as [f|os]; [|done]. injection Hfile as ->.
    apply bind_ok_inv in Hr as (n & Hn & Hr). apply bind_ok_inv in Hr as (archive & Ha%ok_or_ok & Hr).
    destruct (Z.eqb_spec (Z.of_nat (zip_len archive)) n) as [<-|]; [|done]. cbn [negb] in Hr.
    apply map_err_ok in Hr. apply bind_ok_inv in Hr as (st & Hst & Hsum). unfold scan_archive in Hst.
    apply scan_exact in Hst as (q & -> & Hlen & Hall & Hnd & Hsz & _).
    apply summarize_exact in Hsum as (Hpar & Hcaps & [= -> ->]); [|done].
    exists archive. split_and!; [| |done|done].
    + constructor; [by exists file|done|done].
    + constructor; try done. apply Forall_lookup. intros i e He. by apply Hall in He as (ze & _ & suffixed & _ & Hg & _).
  - intros (archive & [(file & -> & Hnew & Hcount) Hlen Hall] & Hplan & Hcaps & ->). destruct Hplan as [Hnd Hnamed Hsz Hpar].
    simpl. rewrite Hcount. cbn [mbind result_bind]. rewrite Hnew. cbn [ok_or mbind result_bind]. rewrite Z.eqb_refl. cbn [negb].
    assert (Hscan : scan_archive archive = Ok (scan_of p)).
    { apply scan_exact. pose proof Hcaps as (Hb & _ & Hf). exists p. unfold MAX_STAGED_FILES, U64_MAX in *. split_and!; try done; [lia|].
      apply (Z.le_trans _ MAX_STAGED_BYTES); [done|]. by vm_compute. }
    rewrite Hscan. cbn [mbind result_bind]. by rewrite (proj2 (summarize_exact p _ Hnd) (conj Hpar (conj Hcaps eq_refl))).
Qed.

Lemma validated_plan opened p summary :
  validate_archive_structure opened = Ok (p, summary) → plan_ok p ∧ within_caps p ∧ summary = summary_of p.
Proof. by intros (archive & _ & ? & ? & ?)%validated_iff. Qed.

(** Structural validation accepts exactly the archives whose container count
    is what the reader exposes and whose entries, in order, are a well-formed
    plan: names unique after directory-slash normalisation, UTF-8, NUL-free,
    relative and traversal-free; sizes that their kinds allow; no entry below
    another that is not a directory; the caps.  The summary counts the distinct
    objects, implied parents included, the files and their bytes. *)
Theorem validated_structure_exact opened p summary :
  validate_archive_structure opened = Ok (p, summary) ↔
  ∃ archive, describes opened archive p ∧ plan_ok p ∧ within_caps p ∧ summary = summary_of p.
Proof. apply validated_iff. Qed.
End StructureSpec.

(** ** Order of the parents *)
Lemma ancestors_from_longer acc comps : acc ≠ [] → Forall (fun a => (length acc < length a)%nat) (ancestors_from acc comps).
Proof.
  intros Hacc. apply Forall_forall. intros a (pre & post & _ & _ & _ & ->)%ancestors_from_spec; [|done].
  rewrite length_app. simpl. lia.
Qed.

Lemma ancestors_from_sorted acc comps :
  Forall (fun c => c ≠ []) comps → StronglySorted (fun a b : str => (length a < length b)%nat) (ancestors_from acc comps).
Proof.
  revert acc. induction comps as [|c rest IH]; intros acc Hc; [constructor|]. destruct rest as [|d rest]; [constructor|].
  apply Forall_cons in Hc as [Hcne Hc].
  change (ancestors_from acc (c :: d :: rest)) with
    (let a := if (length acc =? 0)%nat then c else acc ++ lit "/" ++ c in a :: ancestors_from a (d :: rest)).
  cbv zeta. set (a := if (length acc =? 0)%nat then c else acc ++ lit "/" ++ c).
  assert (a ≠ []) by (unfold a; destruct (Nat.eqb_spec (length acc) 0) as [|Hl]; [done|]; by destruct acc).
  constructor; [by apply IH|by apply ancestors_from_longer].
Qed.

(** Walking the parents outermost first, each one's own parents come before it. *)
Lemma ancestors_before n l1 a l2 b : good_name n → ancestors n = l1 ++ a :: l2 → b ∈ ancestors a → b ∈ l1.
Proof.
  intros Hg E Hb. pose proof (good_components n Hg) as Hc.
  assert (Ha : a ∈ ancestors n) by (rewrite E; set_solver).
  pose proof (ancestors_trans n a b Hg Ha Hb) as Hbn. rewrite E in Hbn.
  assert (Hlen : (length b < length a)%nat).
  { apply ancestors_spec in Hb as [r ->]; [rewrite length_app; simpl; lia|]. by eapply good_ancestor. }
  pose proof (ancestors_from_sorted [] (split_on 47 n) Hc) as Hs. fold (ancestors n) in Hs. rewrite E in Hs.
  apply StronglySorted_app in Hs as (_ & _ & Hs). inversion Hs as [|? ? _ Hall]; subst.
  apply elem_of_app in Hbn as [|[->|Hin]%elem_of_cons]; [done|lia|]. rewrite Forall_forall in Hall. specialize (Hall b Hin). lia.
Qed.

(** ** Reasoning about stages *)

(** What holds when a stage returns, and what holds when it stops. *)
Definition wp {A} (E : Stage → Prop) (m : stage A) (Q : A → Stage → Prop) (s : Stage) : Prop :=
  match m s with (Ok a, s') => Q a s' | (Err _, s') => E s' end.

Lemma wp_ret {A} E (a : A) Q s : Q a s → wp E (mret a) Q s.
Proof. done. Qed.
Lemma effects_bind {A B} E (m : stage A) (f : A → stage B) Q s :
  wp E m (fun a s' => wp E (f a) Q s') s → wp E (m ≫= f) Q s.
Proof. unfold wp, mbind, stage_bind. by destruct (m s) as [[a|e] s']. Qed.
Lemma effects_mono {A} E (m : stage A) (Q Q' : A → Stage → Prop) s :
  wp E m Q s → (∀ a s', Q a s' → Q' a s') → wp E m Q' s.
Proof. unfold wp. destruct (m s) as [[a|e] s']; auto. Qed.
Lemma wp_pure_ok {A} E (r : service A) a (Q : A → Stage → Prop) s : r = Ok a → Q a s → wp E (pure_stage r) Q s.
Proof. by intros ->. Qed.

(** ** What extraction leaves behind *)
Definition prog_le (a b : StagingProgress) : Prop :=
  copied_bytes a <= copied_bytes b ∧ copied_entries a <= copied_entries b ∧ copied_regular_files a <= copied_regular_files b.
Definition progress_of (b e f : Z) : StagingProgress :=
  {| copied_bytes := b; copied_entries := e; copied_regular_files := f |}.
Definition total_progress (p : list ArchiveEntryPlan) : StagingProgress :=
  progress_of (file_bytes p) (Z.of_nat (size (objects p))) (file_count p).

Definition may_be_directory (p : list ArchiveEntryPlan) (path : str) : Prop :=
  path ∈ objects p ∧ ∀ e, e ∈ p → name e = path → kind e = Directory.

(** A node that the plan allows at a path, complete or not. *)
Definition allowed (p : list ArchiveEntryPlan) (path : str) (n : Node) : Prop :=
  match n with
  | NDir _ => may_be_directory p path
  | NFile c _ => ∃ e, e ∈ p ∧ name e = path ∧ kind e = RegularFile ∧ Z.of_nat (length c) <= declared_bytes e
  | NLink t => ∃ e, e ∈ p ∧ name e = path ∧ kind e = SymbolicLink ∧ Z.of_nat (length t) = declared_bytes e ∧ 0 ∉ t
  end.

(** Nothing outside the root, nothing under it that the plan does not allow, and
    progress that only grows, up to the plan's own totals. *)
Record Contained (p : list ArchiveEntryPlan) (s : Stage) : Prop := {
  no_escape : escapes s = [];
  all_allowed : ∀ path n, nodes s !! path = Some n → allowed p path n;
  reports_sorted : StronglySorted prog_le (reports s);
  reports_bounded : Forall (fun r => prog_le r (total_progress p)) (reports s);
}.

(** All the bytes an entry's reads yield, up to its end. *)
Fixpoint read_all (reads : list (option str)) : option str :=
  match reads with
  | [] => Some []
  | None :: _ => None
  | Some chunk :: reads => if (length chunk =? 0)%nat then Some [] else app chunk <$> read_all reads
  end.

Definition file_mode (e : ArchiveEntryPlan) : Z := if executable e then 493 else 420.

(** The node of an entry that has been extracted. *)
Definition complete (e : ArchiveEntryPlan) (contents : option str) (n : option Node) : Prop :=
  match kind e with
  | Directory => n = Some (NDir 493)
  | RegularFile => ∃ c, contents = Some c ∧ Z.of_nat (length c) = declared_bytes e ∧ n = Some (NFile c (file_mode e))
  | SymbolicLink => ∃ t, contents = Some t ∧ Z.of_nat (length t) = declared_bytes e ∧ 0 ∉ t ∧ n = Some (NLink t)
  end.

(** An entry whose content is what the plan declares. *)
Definition faithful_content (e : ArchiveEntryPlan) (ze : ZipEntry) : Prop :=
  kind e = Directory ∨
  ∃ chunks, content ze = Some <$> chunks ∧ Forall (fun c => c ≠ []) chunks ∧
    Z.of_nat (length (concat chunks)) = declared_bytes e ∧ (kind e = SymbolicLink → 0 ∉ concat chunks).

Lemma read_all_chunks chunks : Forall (fun c => c ≠ []) chunks → read_all (Some <$> chunks) = Some (concat chunks).
Proof.
  induction chunks as [|c chunks IH]; intros Hc; [done|]. apply Forall_cons in Hc as [Hne Hc]. rewrite fmap_cons. cbn [read_all].
  destruct (Nat.eqb_spec (length c) 0) as [E%nil_length_inv|]; [done|]. by rewrite IH.
Qed.

(** A read that stops short of its limit has read everything. *)
Lemma read_up_to_all limit reads t :
  read_up_to limit reads = Some t → (length t < limit)%nat → read_all reads = Some t.
Proof.
  revert limit t. induction reads as [|[chunk|] reads IH]; intros [|limit] t; try done; try (intros [= <-]; simpl; lia).
  cbn [read_up_to read_all]. destruct (Nat.eqb_spec (length chunk) 0); [done|]. destruct (read_up_to _ reads) as [r|] eqn:Hr; [|done].
  intros [= <-]. rewrite length_app, length_take. intros Hlen. rewrite take_ge in Hr |- * by lia.
  apply IH in Hr; [|lia]. by rewrite Hr.
Qed.

Lemma read_up_to_chunks limit chunks :
  Forall (fun c => c ≠ []) chunks → (length (concat chunks) < limit)%nat → read_up_to limit (Some <$> chunks) = Some (concat chunks).
Proof.
  revert limit. induction chunks as [|c chunks IH]; intros [|limit] Hc Hlen; try done; [simpl in Hlen; lia|].
  apply Forall_cons in Hc as [Hne Hc]. rewrite concat_cons, length_app in Hlen. rewrite fmap_cons. cbn [read_up_to]. destruct (Nat.eqb_spec (length c) 0) as [E%nil_length_inv|]; [done|].
  rewrite take_ge by lia. rewrite IH; [done|done|lia].
Qed.

(** ** Extraction keeps to the plan *)
Section ExtractionSpec.
Context `{ZipReaderLaws} (p : list ArchiveEntryPlan) (ar : zip_archive).
Hypothesis Hplan : plan_ok p.
Hypothesis Hcaps : within_caps p.

(** When nothing goes wrong around the extraction. *)
Variable clean : Prop.
Hypothesis Hfaithful : clean →
  ∀ i e, p !! i = Some e → ∃ ze, zip_by_index ar i = Some ze ∧ planned_as ze e ∧ faithful_content e ze.

Definition Quiet (s : Stage) : Prop := clean → Forall (eq false) (os_faults s) ∧ Forall (eq false) (cancels s).
Definition Good (s : Stage) : Prop := Contained p s ∧ Quiet s.
Definition Stopped (s : Stage) : Prop := Contained p s ∧ ¬ clean.

(** The progress made so far, at least what has been reported. *)
Definition Behind (s : Stage) (b e f : Z) : Prop :=
  Forall (fun r => prog_le r (progress_of b e f)) (reports s) ∧ prog_le (progress_of b e f) (total_progress p).

Lemma Contained_ext s s' :
  nodes s' = nodes s → escapes s' = escapes s → reports s' = reports s → Contained p s → Contained p s'.
Proof. intros Hn He Hr [? ? ? ?]. constructor; by rewrite ?Hn, ?He, ?Hr. Qed.

Lemma wp_pure {A} (r : service A) (Q : A → Stage → Prop) s :
  Good s → (∀ a, r = Ok a → Q a s) → (∀ e, r = Err e → ¬ clean) → wp Stopped (pure_stage r) Q s.
Proof. intros [Hg _] Hok Herr. unfold wp, pure_stage. destruct r as [a|e]; [by apply Hok|]. split; [done|by eapply Herr]. Qed.

Lemma wp_call detail (Q : unit → Stage → Prop) s :
  Good s → (∀ s', Good s' → nodes s' = nodes s → reports s' = reports s → Q tt s') → wp Stopped (call detail) Q s.
Proof.
  intros [Hg Hq] HQ. unfold wp, call. destruct (os_faults s) as [|[] fs] eqn:Hf.
  - by apply HQ.
  - split; [by apply (Contained_ext s)|]. intros Hc. destruct (Hq Hc) as [Hall _]. rewrite Hf in Hall. by apply Forall_inv in Hall.
  - apply HQ; [|done|done]. split; [by apply (Contained_ext s)|]. intros Hc. destruct (Hq Hc) as [Hall Hc2]. rewrite Hf in Hall.
    by apply Forall_cons in Hall as [_ ?].
Qed.

Lemma wp_not_cancelled (Q : unit → Stage → Prop) s :
  Good s → (∀ s', Good s' → nodes s' = nodes s → reports s' = reports s → Q tt s') → wp Stopped require_not_cancelled Q s.
Proof.
  intros [Hg Hq] HQ. unfold wp, require_not_cancelled. destruct (cancels s) as [|[] cs] eqn:Hf.
  - by apply HQ.
  - split; [by apply (Contained_ext s)|]. intros Hc. destruct (Hq Hc) as [_ Hall]. rewrite Hf in Hall. by apply Forall_inv in Hall.
  - apply HQ; [|done|done]. split; [by apply (Contained_ext s)|]. intros Hc. destruct (Hq Hc) as [Hc2 Hall]. rewrite Hf in Hall.
    by apply Forall_cons in Hall as [_ ?].
Qed.

Lemma prog_le_refl a : prog_le a a.
Proof. unfold prog_le. lia. Qed.

Lemma Behind_mono s b e f b' e' f' :
  Behind s b e f → b <= b' → e <= e' → f <= f' → prog_le (progress_of b' e' f') (total_progress p) → Behind s b' e' f'.
Proof.
  intros [Hall _] Hb He Hf Ht. split; [|done]. eapply Forall_impl; [exact Hall|]. intros r (? & ? & ?). unfold prog_le in *. simpl in *. lia.
Qed.

Lemma wp_report b e f (Q : unit → Stage → Prop) s :
  Good s → Behind s b e f → (∀ s', Good s' → nodes s' = nodes s → Behind s' b e f → Q tt s') →
  wp Stopped (report_progress b e f) Q s.
Proof.
  intros [Hg Hq] [Hall Ht] HQ. unfold report_progress. apply wp_call.
  - split; [|done]. destruct Hg as [He Hn Hs Hb]. constructor; simpl; [done|done| |].
    + apply StronglySorted_app_2; [|done|by repeat constructor]. intros x y Hx ->%list_elem_of_singleton.
      rewrite Forall_forall in Hall. by apply Hall.
    + by apply Forall_app_2; [|apply Forall_singleton].
  - intros s' Hg' Hn Hr. apply HQ; [done|done|]. split; [|done]. rewrite Hr. simpl.
    apply Forall_app_2; [done|]. apply Forall_singleton, prog_le_refl.
Qed.

Lemma Good_set_nodes s path n :
  Good s → allowed p path n → Good (set_nodes (<[path := n]> (nodes s)) s).
Proof.
  intros [[He Hn Hs Hb] Hq] Ha. split; [|done]. constructor; simpl; [done| |done|done].
  intros q m. rewrite lookup_insert. case_decide as Hd; [by intros [= <-]; subst|apply Hn].
Qed.

Lemma wp_create path n detail (Q : unit → Stage → Prop) s :
  Good s → (∀ a, a ∈ ancestors path → is_dir (nodes s !! a) = true) → nodes s !! path = None → allowed p path n →
  (∀ s', Good s' → nodes s' = <[path := n]> (nodes s) → reports s' = reports s → Q tt s') →
  wp Stopped (create_node path n detail) Q s.
Proof.
  intros Hg Hdirs Hnone Ha HQ. apply effects_bind, wp_call; [done|]. intros s' Hg' Hn Hr. unfold wp, place_node. rewrite Hn.
  assert (Hl : existsb (fun a => is_link (nodes s !! a)) (ancestors path) = false).
  { apply not_true_is_false. intros (a & Ha'%list_elem_of_In & Hl)%existsb_exists. specialize (Hdirs a Ha').
    destruct (nodes s !! a) as [[]|]; done. }
  rewrite Hl. assert (Hd : forallb (fun a => is_dir (nodes s !! a)) (ancestors path) = true).
  { apply forallb_forall. intros a Ha'%list_elem_of_In. by apply Hdirs. }
  rewrite Hd. cbn [negb]. rewrite Hnone. rewrite <- Hn. apply HQ; [by apply Good_set_nodes|simpl; by rewrite Hn|done].
Qed.

Lemma wp_update path f n detail (Q : unit → Stage → Prop) s :
  Good s → nodes s !! path = Some n → allowed p path (f n) →
  (∀ s', Good s' → nodes s' = <[path := f n]> (nodes s) → reports s' = reports s → Q tt s') →
  wp Stopped (update_node path f detail) Q s.
Proof.
  intros Hg Hn Ha HQ. apply effects_bind, wp_call; [done|]. intros s' Hg' Hn' Hr. unfold wp, modify_node. rewrite Hn', Hn.
  rewrite <- Hn'. apply HQ; [by apply Good_set_nodes|simpl; by rewrite Hn'|done].
Qed.

Lemma wp_look path P detail (Q : unit → Stage → Prop) s :
  P (nodes s !! path) = true → Q tt s → wp Stopped (look_node path P detail) Q s.
Proof. unfold wp, look_node. by intros ->. Qed.

(** The counters of the plan never overflow, and stay under the caps. *)
Lemma total_small : file_bytes p <= MAX_STAGED_BYTES ∧ Z.of_nat (size (objects p)) <= MAX_STAGED_ENTRIES ∧ file_count p <= MAX_STAGED_FILES.
Proof. done. Qed.

Lemma staged_u64 : MAX_STAGED_BYTES <= U64_MAX ∧ MAX_STAGED_ENTRIES <= U64_MAX ∧ MAX_STAGED_FILES <= U64_MAX.
Proof. by vm_compute. Qed.

Lemma add_in_total a b n detail : a + b = n → n <= U64_MAX → ok_or (checked_add a b) (ServiceError.Staging (lit detail)) = Ok n.
Proof. intros <- Hn. by rewrite (proj2 (checked_add_Some _ _ _) (conj eq_refl Hn)). Qed.

Lemma caps_in_total b e f : prog_le (progress_of b e f) (total_progress p) → require_staging_caps b e f = Ok tt.
Proof.
  intros (Hb & He & Hf). simpl in *. destruct Hcaps as (? & ? & ?). apply require_staging_caps_ok. split_and!; lia.
Qed.

(** What has been extracted after the entries [done]. *)
Record Extracted (dn : list (nat * ArchiveEntryPlan)) (st : Counters) (s : Stage) : Prop := {
  ex_good : Good s;
  ex_prefix : dn `prefix_of` imap pair p;
  ex_dirs : ∀ a, a ∈ created_directories st → nodes s !! a = Some (NDir 493) ∧ may_be_directory p a;
  ex_nodes : ∀ path n, nodes s !! path = Some n →
    path ∈ created_directories st ∨ ∃ i e, (i, e) ∈ dn ∧ name e = path ∧ kind e ≠ Directory;
  ex_done : ∀ i e, (i, e) ∈ dn → complete e (zip_by_index ar i ≫= read_all ∘ content) (nodes s !! name e);
  ex_parents : ∀ i e a, (i, e) ∈ dn → a ∈ ancestors (name e) → a ∈ created_directories st;
  ex_entries : c_entries st = Z.of_nat (size (nodes s));
  ex_files : c_files st = file_count dn.*2;
  ex_bytes : c_bytes st = file_bytes dn.*2;
  ex_behind : Behind s (c_bytes st) (c_entries st) (c_files st);
}.

Lemma imap_pair_snd (l : list ArchiveEntryPlan) : (imap pair l).*2 = l.
Proof. rewrite fmap_imap. symmetry. etransitivity; [symmetry; apply list_fmap_id|]. by rewrite <- imap_const. Qed.

Lemma in_plan dn i e : dn `prefix_of` imap pair p → (i, e) ∈ dn → p !! i = Some e.
Proof.
  intros [k Hk] Hin. assert (Hp : (i, e) ∈ imap pair p) by (rewrite Hk; apply elem_of_app; by left).
  apply list_elem_of_lookup in Hp as [j Hj]. apply list_lookup_imap_Some in Hj as (e' & He' & [= -> ->]). done.
Qed.

Lemma same_name i e j e' : p !! i = Some e → p !! j = Some e' → name e = name e' → i = j ∧ e = e'.
Proof.
  intros Hi Hj Hn. destruct Hplan as [Hnd _ _ _].
  assert (i = j) as <-; [|by simplify_eq]. eapply NoDup_lookup; [exact Hnd| |].
  - rewrite list_lookup_fmap, Hi. done.
  - rewrite list_lookup_fmap, Hj, Hn. done.
Qed.

Lemma entry_object e : e ∈ p → name e ∈ objects p.
Proof. intros He. unfold objects. rewrite elem_of_union, elem_of_list_to_set. left. by apply list_elem_of_fmap_2. Qed.

Lemma parent_object e a : e ∈ p → a ∈ ancestors (name e) → a ∈ objects p.
Proof.
  intros He Ha. unfold objects, parents_of. rewrite elem_of_union, !elem_of_list_to_set. right. apply list_elem_of_bind.
  by exists e.
Qed.

Lemma directory_parent e a : e ∈ p → a ∈ ancestors (name e) → may_be_directory p a.
Proof.
  intros He Ha. split; [by eapply parent_object|]. intros e' He' <-. destruct Hplan as [_ _ _ Hpar]. by apply (Hpar e e').
Qed.

Lemma directory_entry e : e ∈ p → kind e = Directory → may_be_directory p (name e).
Proof.
  intros He Hk. split; [by apply entry_object|]. intros e' He' Hn. apply list_elem_of_lookup in He as [i Hi], He' as [j Hj].
  by destruct (same_name j e' i e Hj Hi Hn) as [_ ->].
Qed.

Lemma plan_name e : e ∈ p → good_name (name e).
Proof. intros He. destruct Hplan as [_ Hg _ _]. rewrite Forall_forall in Hg. by apply Hg. Qed.

Lemma plan_size e : e ∈ p → size_ok e.
Proof. intros He. destruct Hplan as [_ _ Hg _]. rewrite Forall_forall in Hg. by apply Hg. Qed.

Lemma allowed_object path n : allowed p path n → path ∈ objects p.
Proof. destruct n; simpl; [by intros [? _]|intros (e & He & <- & _); by apply entry_object..]. Qed.

Lemma room s path :
  Good s → path ∈ objects p → nodes s !! path = None → Z.of_nat (size (nodes s)) + 1 <= Z.of_nat (size (objects p)).
Proof.
  intros [Hg _] Hp Hn. assert (Hsub : {[path]} ∪ dom (nodes s) ⊆ objects p).
  { apply union_subseteq. split; [set_solver|]. intros q [n Hq]%elem_of_dom. eapply allowed_object. by eapply all_allowed. }
  apply subseteq_size in Hsub. rewrite size_union, size_singleton, size_dom in Hsub; [lia|].
  apply not_elem_of_dom in Hn. set_solver.
Qed.

Lemma directory_absent dn st s a :
  Extracted dn st s → may_be_directory p a → a ∉ created_directories st → nodes s !! a = None.
Proof.
  intros He [_ Hd] Ha. apply eq_None_not_Some. intros [n Hn]. destruct (ex_nodes _ _ _ He a n Hn) as [?|(i & e & Hin & <- & Hk)]; [done|].
  apply Hk, Hd; [|done]. eapply list_elem_of_lookup_2, in_plan; [by eapply ex_prefix|done].
Qed.

Lemma entry_absent dn st s i e :
  Extracted dn st s → p !! i = Some e → kind e ≠ Directory → (i, e) ∉ dn → nodes s !! name e = None.
Proof.
  intros He Hi Hk Hn. apply eq_None_not_Some. intros [n Hnode]. destruct (ex_nodes _ _ _ He _ _ Hnode) as [Hd|(j & e' & Hin & Hname & _)].
  - destruct (ex_dirs _ _ _ He _ Hd) as [_ [_ Hd']]. apply Hk, Hd'; [by eapply list_elem_of_lookup_2|done].
  - assert (Hj : p !! j = Some e') by (eapply in_plan; [by eapply ex_prefix|done]).
    by destruct (same_name j e' i e Hj Hi Hname) as [-> ->].
Qed.

Lemma parents_are_dirs dn st s path :
  Extracted dn st s → (∀ a, a ∈ ancestors path → a ∈ created_directories st) →
  ∀ a, a ∈ ancestors path → is_dir (nodes s !! a) = true.
Proof. intros He Hp a Ha. destruct (ex_dirs _ _ _ He a (Hp a Ha)) as [-> _]. done. Qed.

Lemma file_count_app l k : file_count (l ++ k) = file_count l + file_count k.
Proof. unfold file_count. rewrite filter_app, length_app. lia. Qed.
Lemma file_bytes_app l k : file_bytes (l ++ k) = file_bytes l + file_bytes k.
Proof. unfold file_bytes. by rewrite filter_app, fmap_app, sum_Z_app. Qed.

(** The counters once one directory more exists. *)
Lemma ensure_directory_ok dn st path (Q : Counters → Stage → Prop) s :
  Extracted dn st s → may_be_directory p path → (∀ a, a ∈ ancestors path → a ∈ created_directories st) →
  (∀ st' s', Extracted dn st' s' → created_directories st' = {[ path ]} ∪ created_directories st → Q st' s') →
  wp Stopped (ensure_directory st path) Q s.
Proof.
  intros He Hd Hpar HQ. unfold ensure_directory. destruct (decide (path ∈ created_directories st)) as [Hin|Hin].
  { apply wp_ret, HQ; [done|set_solver]. }
  assert (Hnone : nodes s !! path = None) by by eapply directory_absent.
  assert (Hroom : Z.of_nat (size (nodes s)) + 1 <= Z.of_nat (size (objects p))) by (eapply room; [apply He|apply Hd|done]).
  pose proof (ex_behind _ _ _ He) as [Hrep Hle]. pose proof Hle as (Hb & _ & Hf). simpl in Hb, Hf. pose proof (ex_entries _ _ _ He) as Hent.
  assert (Hle' : prog_le (progress_of (c_bytes st) (c_entries st + 1) (c_files st)) (total_progress p)).
  { unfold prog_le. simpl. lia. }
  apply effects_bind. unfold create_exact_directory. apply effects_bind. eapply wp_create; [apply He|by eapply parents_are_dirs|done|exact Hd|].
  intros s1 Hg1 Hn1 Hr1. eapply wp_update; [done|rewrite Hn1; by apply lookup_insert_eq|exact Hd|]. intros s2 Hg2 Hn2 Hr2.
  rewrite Hn1, insert_insert_eq in Hn2. simpl in Hn2.
  apply effects_bind. eapply wp_pure_ok.
  { apply add_in_total; [reflexivity|]. pose proof staged_u64. destruct Hcaps as (_ & ? & _). lia. }
  apply effects_bind. eapply wp_pure_ok; [by apply caps_in_total|]. apply effects_bind. apply wp_report; [done| |].
  { split; [|done]. rewrite Hr2, Hr1. eapply Forall_impl; [exact Hrep|]. intros r. unfold prog_le. simpl. lia. }
  intros s3 Hg3 Hn3 Hb3. apply wp_ret, HQ; [|done]. rewrite <- Hn3 in Hn2.
  destruct He as [_ Hpre Hdirs Hnodes Hdone Hparents _ Hfiles Hbytes _]. constructor; simpl; try done.
  - intros a [->%elem_of_singleton|Ha]%elem_of_union; [by rewrite Hn2, lookup_insert_eq|]. destruct (Hdirs a Ha) as [Hna ?].
    rewrite Hn2, lookup_insert_ne; [done|]. intros ->. congruence.
  - intros q n. rewrite Hn2, lookup_insert. case_decide as Hq; [subst; set_solver|]. intros Hqn.
    destruct (Hnodes q n Hqn) as [?|?]; [left; set_solver|by right].
  - intros i e Hie. specialize (Hdone i e Hie). rewrite Hn2, lookup_insert_ne; [done|]. intros ->.
    unfold complete in Hdone. rewrite Hnone in Hdone. destruct (kind e); [done|by destruct Hdone as (? & _ & _ & ?)|by destruct Hdone as (? & _ & _ & _ & ?)].
  - intros i e a Hie Ha. apply elem_of_union. right. by eapply Hparents.
  - rewrite Hn2, map_size_insert_None by done. lia.
Qed.

Lemma ensure_directories_ok dn n l st (Q : Counters → Stage → Prop) s :
  (∃ e, e ∈ p ∧ name e = n) → ∀ pre, ancestors n = pre ++ l →
  Extracted dn st s → (∀ a, a ∈ pre → a ∈ created_directories st) →
  (∀ st' s', Extracted dn st' s' → (∀ a, a ∈ ancestors n → a ∈ created_directories st') → Q st' s') →
  wp Stopped (ensure_directories st l) Q s.
Proof.
  intros (e & He & <-). revert st s. induction l as [|a l IH]; intros st s pre E Hex Hpre HQ.
  - apply wp_ret, HQ; [done|]. rewrite E, app_nil_r. done.
  - cbn [ensure_directories]. apply effects_bind. eapply ensure_directory_ok; [done| | |].
    + apply (directory_parent e); [done|]. rewrite E. set_solver.
    + intros b Hb. apply Hpre. eapply ancestors_before; [by apply plan_name|exact E|done].
    + intros st' s' Hex' Hc. apply (IH st' s' (pre ++ [a])); [by rewrite <- app_assoc|done| |done].
      intros b Hb. rewrite Hc. set_solver.
Qed.

Definition next_counters (st : Counters) (e : ArchiveEntryPlan) : Counters :=
  {| c_bytes := c_bytes st + (if is_regular e then declared_bytes e else 0); c_entries := c_entries st + 1;
     c_files := c_files st + (if is_regular e then 1 else 0); created_directories := created_directories st |}.

(** One more entry that is not a directory. *)
Lemma Extracted_next dn st s i e n s' :
  Extracted dn st s → dn ++ [(i, e)] `prefix_of` imap pair p → kind e ≠ Directory → nodes s !! name e = None →
  (∀ a, a ∈ ancestors (name e) → a ∈ created_directories st) →
  Good s' → nodes s' = <[name e := n]> (nodes s) → complete e (zip_by_index ar i ≫= read_all ∘ content) (Some n) →
  Behind s' (c_bytes (next_counters st e)) (c_entries (next_counters st e)) (c_files (next_counters st e)) →
  Extracted (dn ++ [(i, e)]) (next_counters st e) s'.
Proof.
  intros [_ _ Hdirs Hnodes Hdone Hparents Hent Hfiles Hbytes _] Hpre Hk Hnone Hpar Hg Hn Hc Hb. constructor; try done.
  - intros a Ha. destruct (Hdirs a Ha) as [Hna ?]. rewrite Hn, lookup_insert_ne; [done|]. intros E. rewrite <- E in Hna. congruence.
  - intros q m. rewrite Hn, lookup_insert. case_decide as Hq.
    + intros _. right. exists i, e. split; [set_solver|done].
    + intros Hqn. destruct (Hnodes q m Hqn) as [?|(j & e' & ? & ?)]; [by left|]. right. exists j, e'. split; [set_solver|done].
  - intros j e' [Hin|Hin%list_elem_of_singleton]%elem_of_app; [|simplify_eq; by rewrite Hn, lookup_insert_eq].
    specialize (Hdone j e' Hin). rewrite Hn, lookup_insert_ne; [done|]. intros E. rewrite <- E, Hnone in Hdone. unfold complete in Hdone.
    destruct (kind e'); [done|by destruct Hdone as (? & _ & _ & ?)|by destruct Hdone as (? & _ & _ & _ & ?)].
  - intros j e' a [Hin|Hin%list_elem_of_singleton]%elem_of_app Ha; [by eapply Hparents|simplify_eq; by apply Hpar].
  - rewrite Hn, map_size_insert_None by done. simpl. lia.
  - rewrite fmap_app. simpl. by rewrite filter_snoc_count, <- Hfiles.
  - rewrite fmap_app. simpl. by rewrite filter_snoc_bytes, <- Hbytes.
Qed.

Lemma next_total dn st s i e :
  Extracted dn st s → dn ++ [(i, e)] `prefix_of` imap pair p → kind e ≠ Directory → nodes s !! name e = None → p !! i = Some e →
  prog_le (progress_of (c_bytes (next_counters st e)) (c_entries (next_counters st e)) (c_files (next_counters st e))) (total_progress p).
Proof.
  intros He [rest Hrest] Hk Hnone Hi.
  assert (Hroom : Z.of_nat (size (nodes s)) + 1 <= Z.of_nat (size (objects p))).
  { eapply room; [apply He| |done]. by eapply entry_object, list_elem_of_lookup_2. }
  assert (Hp : p = dn.*2 ++ [e] ++ rest.*2).
  { transitivity (imap pair p).*2; [by rewrite imap_pair_snd|by rewrite Hrest, !fmap_app, <- app_assoc]. }
  assert (Hs : Forall size_ok rest.*2).
  { apply Forall_forall. intros e' Hin. apply plan_size. rewrite Hp. set_solver. }
  pose proof (regular_nonneg _ Hs) as Hnn. pose proof (file_count_nonneg rest.*2) as Hcn.
  assert (Hcount : file_count p = file_count dn.*2 + (if is_regular e then 1 else 0) + file_count rest.*2).
  { rewrite Hp at 1. by rewrite app_assoc, file_count_app, filter_snoc_count. }
  assert (Hbytes : file_bytes p = file_bytes dn.*2 + (if is_regular e then declared_bytes e else 0) + file_bytes rest.*2).
  { rewrite Hp at 1. by rewrite app_assoc, file_bytes_app, filter_snoc_bytes. }
  unfold prog_le. simpl. rewrite (ex_entries _ _ _ He), (ex_files _ _ _ He), (ex_bytes _ _ _ He). lia.
Qed.

Lemma plan_entry_size e : e ∈ p → 0 <= declared_bytes e.
Proof. intros He%plan_size. unfold size_ok in He. destruct (kind e); lia. Qed.

Lemma extract_link_ok dn st s i e ze (Q : Counters → Stage → Prop) :
  Extracted dn st s → dn ++ [(i, e)] `prefix_of` imap pair p → p !! i = Some e → kind e = SymbolicLink → nodes s !! name e = None →
  (∀ a, a ∈ ancestors (name e) → a ∈ created_directories st) → zip_by_index ar i = Some ze → (clean → faithful_content e ze) →
  (∀ s', Extracted (dn ++ [(i, e)]) (next_counters st e) s' → Q (next_counters st e) s') →
  wp Stopped (extract_link st e ze) Q s.
Proof.
  intros He Hpre Hi Hk Hnone Hpar Hze Hfaith HQ. assert (Hin : e ∈ p) by by eapply list_elem_of_lookup_2.
  pose proof (plan_entry_size e Hin) as Hnn.
  assert (Hkd : kind e ≠ Directory) by congruence. pose proof (next_total _ _ _ _ _ He Hpre Hkd Hnone Hi) as Htot.
  assert (Hr : is_regular e = false) by (unfold is_regular; by rewrite Hk). unfold next_counters in Htot. rewrite Hr in Htot. simpl in Htot.
  rewrite !Z.add_0_r in Htot.
  assert (Hread : clean → ∃ t, read_up_to (Z.to_nat (declared_bytes e + 1)) (content ze) = Some t ∧ Z.of_nat (length t) = declared_bytes e ∧ 0 ∉ t).
  { intros Hcl. destruct (Hfaith Hcl) as [?|(chunks & Hc & Hne & Hlen & Hz)]; [congruence|]. exists (concat chunks).
    rewrite Hc, read_up_to_chunks; [|done|lia]. split_and!; try done. by apply Hz. }
  unfold extract_link. apply effects_bind, wp_pure; [apply He| |].
  2: { intros er Her Hcl. destruct (Hread Hcl) as (t & Ht & _). by rewrite Ht in Her. }
  intros t Ht%ok_or_ok. apply effects_bind, wp_pure; [apply He| |].
  2: { intros er Her Hcl. destruct (Hread Hcl) as (t' & Ht' & Hlen & _). simplify_eq. rewrite Hlen, Z.eqb_refl in Her. done. }
  intros u Hu. assert (Hlen : Z.of_nat (length t) = declared_bytes e).
  { destruct (Z.eqb_spec (Z.of_nat (length t)) (declared_bytes e)); done. }
  apply effects_bind, wp_pure; [apply He| |].
  2: { intros er Her Hcl. destruct (Hread Hcl) as (t' & Ht' & _ & Hz). simplify_eq. apply not_in_existsb in Hz. by rewrite Hz in Her. }
  intros u' Hu'. destruct (existsb (Z.eqb 0) t) eqn:Hz; [done|]. apply not_in_existsb in Hz.
  apply effects_bind. eapply wp_create; [apply He|by eapply parents_are_dirs|done| |].
  { by exists e. }
  intros s1 Hg1 Hn1 Hr1. apply effects_bind, wp_call; [done|]. intros s2 Hg2 Hn2 Hr2.
  apply effects_bind, wp_look; [by rewrite Hn2, Hn1, lookup_insert_eq|].
  apply effects_bind, wp_call; [done|]. intros s3 Hg3 Hn3 Hr3.
  apply effects_bind, wp_look; [rewrite Hn3, Hn2, Hn1, lookup_insert_eq; simpl; by rewrite bool_decide_true|].
  apply effects_bind. eapply wp_pure_ok.
  { apply add_in_total; [reflexivity|]. pose proof staged_u64. destruct Htot as (_ & ? & _), Hcaps as (_ & ? & _). simpl in *. lia. }
  apply effects_bind. eapply wp_pure_ok; [by apply caps_in_total|]. apply effects_bind. apply wp_report; [done| |].
  { pose proof (ex_behind _ _ _ He) as Hb. assert (Hreps : reports s3 = reports s) by congruence. unfold Behind in Hb |- *. rewrite Hreps.
    eapply (Behind_mono s); [exact Hb|lia..|done]. }
  intros s4 Hg4 Hn4 Hb4. apply wp_ret.
  assert (E : {| c_bytes := c_bytes st; c_entries := c_entries st + 1; c_files := c_files st; created_directories := created_directories st |}
    = next_counters st e) by (unfold next_counters; by rewrite Hr, !Z.add_0_r).
  rewrite E. apply HQ. eapply (Extracted_next dn st s i e (NLink t)); try done.
  - congruence.
  - unfold complete. rewrite Hk, Hze. exists t. split_and!; try done. simpl. eapply read_up_to_all; [exact Ht|]. lia.
  - unfold next_counters. rewrite Hr. simpl. by rewrite !Z.add_0_r.
Qed.

(** The copy loop appends what it reads, and stops at the declared size. *)
Lemma copy_loop_ok e bytes entries files reads : ∀ fb c m (Q : Z → Stage → Prop) s,
  e ∈ p → kind e = RegularFile → 0 <= bytes → Good s → nodes s !! name e = Some (NFile c m) → fb = Z.of_nat (length c) → fb <= declared_bytes e →
  Behind s (bytes + fb) entries files → prog_le (progress_of (bytes + declared_bytes e) entries files) (total_progress p) →
  (clean → ∃ chunks, reads = Some <$> chunks ∧ Forall (fun c => c ≠ []) chunks ∧ fb + Z.of_nat (length (concat chunks)) = declared_bytes e) →
  (∀ s' c', Good s' → nodes s' = <[name e := NFile (c ++ c') m]> (nodes s) → read_all reads = Some c' →
     Z.of_nat (length (c ++ c')) <= declared_bytes e → Behind s' (bytes + Z.of_nat (length (c ++ c'))) entries files →
     (clean → Z.of_nat (length (c ++ c')) = declared_bytes e) → Q (Z.of_nat (length (c ++ c'))) s') →
  wp Stopped (copy_loop e bytes entries files fb reads) Q s.
Proof.
  induction reads as [|r reads IH]; intros fb c m Q s Hin Hk Hb0 Hg Hn -> Hle Hb Htot Hfaith HQ; cbn [copy_loop];
    apply effects_bind, wp_not_cancelled; try done; intros s1 Hg1 Hn1 Hr1;
    assert (Hb1 : Behind s1 (bytes + Z.of_nat (length c)) entries files) by (unfold Behind in Hb |- *; by rewrite Hr1).
  - apply wp_ret. specialize (HQ s1 []). rewrite app_nil_r in HQ. apply HQ; try done.
    + rewrite Hn1. by rewrite insert_id.
    + intros Hc. destruct (Hfaith Hc) as (chunks & Hch & _ & Hlen). destruct chunks; [simpl in Hlen; lia|done].
  - destruct r as [chunk|].
    2: { apply wp_pure; [done|done|]. intros er _ Hc. destruct (Hfaith Hc) as ([|x chunks] & Hch & _); done. }
    destruct (Nat.eqb_spec (length chunk) 0) as [E|Hne].
    { apply wp_ret. specialize (HQ s1 []). rewrite app_nil_r in HQ. apply HQ; try done.
      - rewrite Hn1. by rewrite insert_id.
      - simpl. by rewrite E.
      - intros Hc. destruct (Hfaith Hc) as ([|x chunks] & Hch & Hnz & Hlen); [done|]. injection Hch as <- _.
        apply Forall_inv in Hnz. by apply nil_length_inv in E. }
    pose proof Htot as (Htb & _ & _). simpl in Htb. pose proof staged_u64. destruct Hcaps as (Hcb & _ & _).
    assert (Hnext : clean → ∃ chunks, reads = Some <$> chunks ∧ Forall (fun c => c ≠ []) chunks ∧
              Z.of_nat (length c) + Z.of_nat (length chunk) + Z.of_nat (length (concat chunks)) = declared_bytes e).
    { intros Hc. destruct (Hfaith Hc) as ([|x chunks] & Hch & Hnz & Hlen); [done|]. injection Hch as <- ->. exists chunks.
      apply Forall_cons in Hnz as [_ ?]. simpl in Hlen. rewrite length_app in Hlen. split_and!; try done. lia. }
    apply effects_bind, wp_pure; [done| |].
    2: { intros er Her Hc. destruct (Hnext Hc) as (chunks & _ & _ & Hlen).
         rewrite (add_in_total _ _ _ _ eq_refl) in Her; [done|lia]. }
    intros fb' (-> & _)%ok_or_ok%checked_add_Some. apply effects_bind, wp_pure; [done| |].
    2: { intros er Her Hc. destruct (Hnext Hc) as (chunks & _ & _ & Hlen).
         destruct (Z.ltb_spec (declared_bytes e) (Z.of_nat (length c) + Z.of_nat (length chunk))); [lia|done]. }
    intros u Hu. destruct (Z.ltb_spec (declared_bytes e) (Z.of_nat (length c) + Z.of_nat (length chunk))) as [|Hfit]; [done|].
    rewrite <- Hn1 in Hn. apply effects_bind. eapply wp_update; [done|exact Hn| |].
    { simpl. exists e. split_and!; try done. rewrite length_app. lia. }
    intros s2 Hg2 Hn2 Hr2. apply effects_bind. eapply wp_pure_ok; [apply add_in_total; [reflexivity|lia]|].
    assert (Hle2 : prog_le (progress_of (bytes + (Z.of_nat (length c) + Z.of_nat (length chunk))) entries files) (total_progress p)).
    { destruct Htot as (? & ? & ?). unfold prog_le. simpl in *. lia. }
    apply effects_bind. eapply wp_pure_ok; [by apply caps_in_total|]. apply effects_bind, wp_report; [done| |].
    { unfold Behind in Hb1 |- *. rewrite Hr2. eapply (Behind_mono s1); [exact Hb1|lia..|done]. }
    intros s3 Hg3 Hn3 Hb3. eapply (IH _ (c ++ chunk) m); try done.
    + rewrite Hn3, Hn2. apply lookup_insert_eq.
    + rewrite length_app. lia.
    + intros s4 c' Hg4 Hn4 Hread Hlen Hb4 Hcl. rewrite <- app_assoc in *. apply HQ; try done.
      * rewrite Hn4, Hn3, Hn2, Hn1, insert_insert_eq. done.
      * cbn [read_all]. destruct (Nat.eqb_spec (length chunk) 0); [done|]. by rewrite Hread.
Qed.

Lemma extract_file_ok dn st s i e ze (Q : Counters → Stage → Prop) :
  Extracted dn st s → dn ++ [(i, e)] `prefix_of` imap pair p → p !! i = Some e → kind e = RegularFile → nodes s !! name e = None →
  (∀ a, a ∈ ancestors (name e) → a ∈ created_directories st) → zip_by_index ar i = Some ze → (clean → faithful_content e ze) →
  (∀ s', Extracted (dn ++ [(i, e)]) (next_counters st e) s' → Q (next_counters st e) s') →
  wp Stopped (extract_file st e ze) Q s.
Proof.
  intros He Hpre Hi Hk Hnone Hpar Hze Hfaith HQ. assert (Hin : e ∈ p) by by eapply list_elem_of_lookup_2.
  pose proof (plan_entry_size e Hin) as Hnn.
  assert (Hkd : kind e ≠ Directory) by congruence. pose proof (next_total _ _ _ _ _ He Hpre Hkd Hnone Hi) as Htot.
  assert (Hr : is_regular e = true) by (unfold is_regular; by rewrite Hk).
  assert (Hc0 : 0 <= c_bytes st).
  { rewrite (ex_bytes _ _ _ He). apply regular_nonneg, Forall_forall. intros e' Hin'. apply list_elem_of_fmap in Hin' as ([j e2] & -> & Hj).
    apply plan_size. eapply list_elem_of_lookup_2, in_plan; [by eapply ex_prefix|exact Hj]. }
  pose proof Htot as (Hb & Hen & Hf). unfold next_counters in Hb, Hen, Hf. rewrite Hr in Hb, Hf. simpl in Hb, Hen, Hf.
  pose proof staged_u64 as (? & ? & ?). pose proof Hcaps as (? & ? & ?).
  assert (Htot' : prog_le (progress_of (c_bytes st + declared_bytes e) (c_entries st + 1) (c_files st + 1)) (total_progress p)) by done.
  unfold extract_file. apply effects_bind. eapply wp_pure_ok; [apply add_in_total; [reflexivity|lia]|].
  apply effects_bind. eapply wp_pure_ok; [apply add_in_total; [reflexivity|lia]|].
  apply effects_bind. eapply wp_pure_ok; [apply add_in_total; [reflexivity|lia]|].
  apply effects_bind. eapply wp_pure_ok; [by apply caps_in_total|].
  apply effects_bind. eapply wp_create; [apply He|by eapply parents_are_dirs|done| |].
  { exists e. split_and!; try done. }
  intros s1 Hg1 Hn1 Hr1. apply effects_bind. eapply (copy_loop_ok _ _ _ _ _ 0 []); try done.
  { rewrite Hn1. apply lookup_insert_eq. }
  { pose proof (ex_behind _ _ _ He) as Hbh. unfold Behind in Hbh |- *. rewrite Hr1.
    eapply (Behind_mono s); [exact Hbh|lia|lia|lia|]. unfold prog_le. simpl. lia. }
  { intros Hcl. destruct (Hfaith Hcl) as [?|(chunks & Hch & Hne & Hlen & _)]; [congruence|]. by exists chunks. }
  intros s2 c Hg2 Hn2 Hread Hlen Hb2 Hfull. simpl app in *. rewrite Hn1, insert_insert_eq in Hn2.
  apply effects_bind, wp_call; [done|]. intros s3 Hg3 Hn3 Hr3. apply effects_bind, wp_pure; [done| |].
  2: { intros er Her Hcl. by rewrite (Hfull Hcl), Z.eqb_refl in Her. }
  intros u Hu. assert (Hexact : Z.of_nat (length c) = declared_bytes e) by (destruct (Z.eqb_spec (Z.of_nat (length c)) (declared_bytes e)); done).
  apply effects_bind. eapply wp_update; [done|rewrite Hn3, Hn2; by apply lookup_insert_eq| |].
  { exists e. by split_and!. }
  intros s4 Hg4 Hn4 Hr4. rewrite Hn3, Hn2, insert_insert_eq in Hn4. simpl in Hn4. rewrite Hexact.
  apply effects_bind. eapply wp_pure_ok; [apply add_in_total; [reflexivity|lia]|].
  apply effects_bind. eapply wp_pure_ok; [by apply caps_in_total|]. apply effects_bind. apply wp_report; [done| |].
  { rewrite Hexact in Hb2. unfold Behind in Hb2 |- *. by rewrite Hr4, Hr3. }
  intros s5 Hg5 Hn5 Hb5. apply wp_ret.
  assert (E : {| c_bytes := c_bytes st + declared_bytes e; c_entries := c_entries st + 1; c_files := c_files st + 1;
    created_directories := created_directories st |} = next_counters st e) by (unfold next_counters; by rewrite Hr).
  rewrite E. apply HQ. eapply (Extracted_next dn st s i e (NFile c (file_mode e))); try done.
  - by rewrite Hn5, Hn4.
  - unfold complete. rewrite Hk, Hze. by exists c.
  - unfold next_counters. by rewrite Hr.
Qed.

Lemma next_fresh dn i e : dn ++ [(i, e)] `prefix_of` imap pair p → p !! i = Some e ∧ (i, e) ∉ dn.
Proof.
  intros [rest Hrest].
  assert (Hat : ∀ j q, dn !! j = Some q → q.1 = j).
  { intros j q Hj. assert (Hp : imap pair p !! j = Some q).
    { rewrite Hrest, <- app_assoc. by apply lookup_app_l_Some. }
    by apply list_lookup_imap_Some in Hp as (e' & _ & ->). }
  assert (Hp : imap pair p !! length dn = Some (i, e)) by (rewrite Hrest, <- app_assoc; by apply list_lookup_middle).
  apply list_lookup_imap_Some in Hp as (e' & He' & [= -> ->]). split; [done|].
  intros [j Hj]%list_elem_of_lookup. pose proof (Hat j _ Hj) as Hij. simpl in Hij. apply lookup_lt_Some in Hj. lia.
Qed.

Lemma Extracted_ext dn st s s' :
  Extracted dn st s → Good s' → nodes s' = nodes s → reports s' = reports s → Extracted dn st s'.
Proof. intros [? ? ? ? ? ? ? ? ? Hb] Hg Hn Hr. constructor; rewrite ?Hn; try done. unfold Behind in *. by rewrite Hr. Qed.

Lemma directory_done dn st s i e :
  Extracted dn st s → dn ++ [(i, e)] `prefix_of` imap pair p → kind e = Directory → name e ∈ created_directories st →
  (∀ a, a ∈ ancestors (name e) → a ∈ created_directories st) → Extracted (dn ++ [(i, e)]) st s.
Proof.
  intros [? _ Hdirs Hnodes Hdone Hparents Hent Hfiles Hbytes ?] Hpre Hk Hc Hpar.
  assert (Hr : is_regular e = false) by (unfold is_regular; by rewrite Hk). constructor; try done.
  - intros q n Hq. destruct (Hnodes q n Hq) as [?|(j & e' & ? & ?)]; [by left|]. right. exists j, e'. split; [set_solver|done].
  - intros j e' [Hin|Hin%list_elem_of_singleton]%elem_of_app; [by apply Hdone|]. simplify_eq. unfold complete. rewrite Hk. by apply Hdirs.
  - intros j e' a [Hin|Hin%list_elem_of_singleton]%elem_of_app Ha; [by eapply Hparents|simplify_eq; by apply Hpar].
  - rewrite fmap_app. simpl. rewrite filter_snoc_count, Hr. lia.
  - rewrite fmap_app. simpl. rewrite filter_snoc_bytes, Hr. lia.
Qed.

Lemma extract_entry_ok dn st s i e (Q : Counters → Stage → Prop) :
  Extracted dn st s → dn ++ [(i, e)] `prefix_of` imap pair p →
  (∀ st' s', Extracted (dn ++ [(i, e)]) st' s' → Q st' s') →
  wp Stopped (extract_entry ar st (i, e)) Q s.
Proof.
  intros He Hpre HQ. destruct (next_fresh dn i e Hpre) as [Hi Hfresh]. assert (Hin : e ∈ p) by by eapply list_elem_of_lookup_2.
  unfold extract_entry. apply effects_bind, wp_not_cancelled; [apply He|]. intros s1 Hg1 Hn1 Hr1.
  pose proof (Extracted_ext _ _ _ _ He Hg1 Hn1 Hr1) as He1. apply effects_bind, wp_pure; [done| |].
  2: { intros er Her Hc. destruct (Hfaithful Hc i e Hi) as (ze & Hze & _). by rewrite Hze in Her. }
  intros ze Hze%ok_or_ok.
  assert (Has : clean → planned_as ze e ∧ faithful_content e ze).
  { intros Hc. destruct (Hfaithful Hc i e Hi) as (ze' & Hze' & ?). by simplify_eq. }
  apply effects_bind, wp_pure; [done| |].
  2: { intros er Her Hc. destruct (Has Hc) as [(suffixed & Hraw & Hgood & _) _].
       by rewrite (proj2 (canonical_name_ok _ _ _) (conj Hgood Hraw)) in Her. }
  intros [observed suffixed] Hobs. apply effects_bind, wp_pure; [done| |].
  2: { intros er Her Hc. destruct (Has Hc) as [(suffixed' & Hraw & Hgood & _ & Hsize & _) _].
       rewrite (proj2 (canonical_name_ok _ _ _) (conj Hgood Hraw)) in Hobs. injection Hobs as <- _.
       by rewrite bool_decide_false, Hsize, Z.eqb_refl in Her by (intros E; by apply E). }
  intros u _. apply effects_bind. unfold ensure_extracted_parents. apply (ensure_directories_ok dn (name e) _ st _ s1 (ex_intro _ e (conj Hin eq_refl)) []); [done|exact He1|set_solver|].
  intros st2 s2 He2 Hpar. destruct (kind e) eqn:Hk.
  - eapply ensure_directory_ok; [exact He2|by apply directory_entry|done|]. intros st3 s3 He3 Hc3. apply HQ.
    apply directory_done; [done|done|done|rewrite Hc3; set_solver|]. intros a Ha. rewrite Hc3. apply elem_of_union. right. by apply Hpar.
  - assert (Hkd : kind e ≠ Directory) by congruence.
    eapply extract_file_ok; [exact He2|exact Hpre|done|done|by eapply entry_absent|done|exact Hze|by intros Hc; apply Has|].
    intros s3. apply HQ.
  - assert (Hkd : kind e ≠ Directory) by congruence.
    eapply extract_link_ok; [exact He2|exact Hpre|done|done|by eapply entry_absent|done|exact Hze|by intros Hc; apply Has|].
    intros s3. apply HQ.
Qed.

Lemma extract_entries_ok items : ∀ dn st s (Q : Counters → Stage → Prop),
  imap pair p = dn ++ items → Extracted dn st s →
  (∀ st' s', Extracted (imap pair p) st' s' → Q st' s') → wp Stopped (extract_entries ar st items) Q s.
Proof.
  induction items as [|[i e] items IH]; intros dn st s Q Hp He HQ.
  - rewrite app_nil_r in Hp. subst dn. apply wp_ret. by apply HQ.
  - cbn [extract_entries]. apply effects_bind. eapply extract_entry_ok; [exact He|exists items; by rewrite Hp, <- app_assoc|].
    intros st' s' He'. apply (IH (dn ++ [(i, e)])); [by rewrite Hp, <- app_assoc|exact He'|done].
Qed.

Lemma Extracted_start s :
  Good s → nodes s = ∅ → reports s = [] →
  Extracted [] {| c_bytes := 0; c_entries := 0; c_files := 0; created_directories := ∅ |} s.
Proof.
  intros Hg Hn Hr. constructor; simpl; rewrite ?Hn; try done.
  - apply prefix_nil.
  - by intros i e ?%not_elem_of_nil.
  - by intros i e a ?%not_elem_of_nil.
  - unfold Behind. rewrite Hr. split; [done|]. destruct Hplan as [_ _ Hs _]. pose proof (regular_nonneg p Hs). pose proof (file_count_nonneg p).
    unfold prog_le. simpl. lia.
Qed.

(** The tree of a finished extraction: the plan's objects, each complete. *)
Record Materialized (s : Stage) : Prop := {
  mat_objects : dom (nodes s) = objects p;
  mat_entry : ∀ i e, p !! i = Some e → complete e (zip_by_index ar i ≫= read_all ∘ content) (nodes s !! name e);
  mat_parent : ∀ e a, e ∈ p → a ∈ ancestors (name e) → nodes s !! a = Some (NDir 493);
}.

Lemma Extracted_all st s :
  Extracted (imap pair p) st s →
  Materialized s ∧ c_bytes st = file_bytes p ∧ c_entries st = Z.of_nat (size (objects p)) ∧ c_files st = file_count p.
Proof.
  intros He. destruct He as [[Hcont _] _ Hdirs _ Hdone Hparents Hent Hfiles Hbytes _].
  assert (Hall : ∀ i e, p !! i = Some e → (i, e) ∈ imap pair p).
  { intros i e Hi. eapply list_elem_of_lookup_2. rewrite list_lookup_imap, Hi. done. }
  assert (Hp : (imap pair p).*2 = p).
  { apply imap_pair_snd. }
  assert (Hparent : ∀ e a, e ∈ p → a ∈ ancestors (name e) → nodes s !! a = Some (NDir 493)).
  { intros e a [i Hi]%list_elem_of_lookup Ha. apply Hdirs. eapply Hparents; [by apply Hall|done]. }
  assert (Hdom : dom (nodes s) = objects p).
  { apply set_eq. intros q. rewrite elem_of_dom. split.
    - intros [n Hn]. eapply allowed_object, all_allowed; done.
    - unfold objects, parents_of. rewrite elem_of_union, !elem_of_list_to_set, list_elem_of_fmap, list_elem_of_bind.
      intros [(e & -> & [i Hi]%list_elem_of_lookup)|(e & Ha & Hin)].
      + specialize (Hdone i e (Hall i e Hi)). unfold complete in Hdone.
        destruct (kind e); [by rewrite Hdone|by destruct Hdone as (? & _ & _ & ->)|by destruct Hdone as (? & _ & _ & _ & ->)].
      + by rewrite (Hparent e q Hin Ha). }
  split_and!; [|by rewrite Hbytes, Hp| |by rewrite Hfiles, Hp].
  - constructor; try done. intros i e Hi. by apply Hdone, Hall.
  - by rewrite Hent, <- Hdom, size_dom.
Qed.

Lemma extraction_ok s :
  Good s → nodes s = ∅ → reports s = [] →
  wp Stopped
    (st ← extract_entries ar {| c_bytes := 0; c_entries := 0; c_files := 0; created_directories := ∅ |} (imap pair p);
     _ ← require_not_cancelled;
     _ ← report_progress (c_bytes st) (c_entries st) (c_files st);
     mret {| copied_bytes := c_bytes st; copied_entries := c_entries st; copied_regular_files := c_files st |})
    (fun progress s' => Contained p s' ∧ Materialized s' ∧ progress = total_progress p) s.
Proof.
  intros Hg Hn Hr. apply effects_bind. eapply (extract_entries_ok _ []); [done|by apply Extracted_start|]. intros st s1 He1.
  apply effects_bind, wp_not_cancelled; [apply He1|]. intros s2 Hg2 Hn2 Hr2. pose proof (Extracted_ext _ _ _ _ He1 Hg2 Hn2 Hr2) as He2.
  destruct (Extracted_all _ _ He2) as (Hmat & Hb & Hen & Hf).
  apply effects_bind, wp_report; [done|apply He2|]. intros s3 Hg3 Hn3 _. apply wp_ret. split_and!; [apply Hg3| |].
  - destruct Hmat as [Hd Hent Hpar]. constructor; rewrite ?Hn3; done.
  - unfold total_progress, progress_of. by rewrite Hb, Hen, Hf.
Qed.
End ExtractionSpec.

Section ExtractionTheorems.
Context `{ZipReaderLaws}.

(** A reopened archive whose content is what the plan declares. *)
Definition faithful (p : list ArchiveEntryPlan) (ar : zip_archive) : Prop :=
  zip_len ar = length p ∧
  ∀ i e, p !! i = Some e → ∃ ze, zip_by_index ar i = Some ze ∧ planned_as ze e ∧ faithful_content e ze.

Definition undisturbed (p : list ArchiveEntryPlan) (reopened : result OsError str) (s : Stage) : Prop :=
  Forall (eq false) (os_faults s) ∧ Forall (eq false) (cancels s) ∧
  ∃ file ar, reopened = Ok file ∧ zip_new file = Some ar ∧ faithful p ar.

Lemma extract_plan_ok p reopened s :
  plan_ok p → within_caps p → Contained p s → nodes s = ∅ → reports s = [] →
  wp (Stopped p (undisturbed p reopened s)) (extract_plan p reopened)
    (fun progress s' => Contained p s' ∧ progress = total_progress p ∧
       ∃ file ar, reopened = Ok file ∧ zip_new file = Some ar ∧ zip_len ar = length p ∧ Materialized p ar s') s.
Proof.
  intros Hplan Hcaps Hcont Hn Hr. set (clean := undisturbed p reopened s).
  assert (Hg : Good p clean s) by (split; [done|by intros (? & ? & _)]).
  unfold extract_plan. apply effects_bind, wp_pure; [done| |].
  2: { intros er Her (_ & _ & file & ar & -> & _). done. }
  intros file Hfile. unfold open_source_file in Hfile. destruct reopened as [f|os] eqn:Hreopened; [|done]. injection Hfile as ->.
  apply effects_bind, wp_pure; [done| |].
  2: { intros er Her (_ & _ & file' & ar & [= <-] & Hnew & _). by rewrite Hnew in Her. }
  intros ar Hnew%ok_or_ok. apply effects_bind, wp_pure; [done| |].
  2: { intros er Her (_ & _ & file' & ar' & [= <-] & Hnew' & Hlen & _). simplify_eq. by rewrite Hlen, Nat.eqb_refl in Her. }
  intros u Hu. assert (Hlen : zip_len ar = length p) by (destruct (Nat.eqb_spec (zip_len ar) (length p)); done).
  eapply effects_mono; [apply (extraction_ok p ar Hplan Hcaps clean); try done|].
  - intros (_ & _ & file' & ar' & [= <-] & Hnew' & _ & Hfaith). by simplify_eq.
  - intros progress s' (Hc & Hm & ->). split_and!; try done. by exists file, ar.
Qed.

Lemma Contained_empty p s : nodes s = ∅ → escapes s = [] → reports s = [] → Contained p s.
Proof. intros Hn He Hr. constructor; rewrite ?Hn, ?He, ?Hr; try done; constructor. Qed.

(** C30: whatever the reopened archive holds and whenever a call fails or the
    session is cancelled, extraction into an empty root creates nothing outside
    it, nothing under it that the validated plan does not allow (no file longer
    than declared, no link with another length, no entry through a link), and
    reports progress that only grows up to the plan's totals.  When it returns,
    it returns those totals and the tree is exactly the plan's objects, each with
    its content, its mode, and its parents as directories of mode 0755.  A
    refused archive leaves the root as it was. *)
Theorem extraction_contained opened reopened s r s' :
  nodes s = ∅ → escapes s = [] → reports s = [] →
  extract_archive_into_staged_cancellable opened reopened s = (r, s') →
  match validate_archive_structure opened with
  | Err e => r = Err e ∧ s' = s
  | Ok (p, summary) =>
      Contained p s' ∧
      ∀ progress, r = Ok progress →
        progress = progress_of (declared_regular_file_bytes summary) (declared_entries summary) (declared_regular_files summary) ∧
        ∃ file ar, reopened = Ok file ∧ zip_new file = Some ar ∧ zip_len ar = length p ∧ Materialized p ar s'
  end.
Proof.
  intros Hn He Hr. unfold extract_archive_into_staged_cancellable.
  destruct (validate_archive_structure opened) as [[p summary]|e] eqn:Hv; [|by intros [= <- <-]].
  apply validated_plan in Hv as (Hplan & Hcaps & ->).
  pose proof (extract_plan_ok p reopened s Hplan Hcaps (Contained_empty p s Hn He Hr) Hn Hr) as Hwp. unfold wp in Hwp.
  destruct (extract_plan p reopened s) as [[progress|e] s1]; intros [= <- <-].
  - destruct Hwp as (Hc & -> & Hm). split; [done|]. by intros progress [= <-].
  - destruct Hwp as [Hc _]. by split.
Qed.

(** C39: an accepted archive that is unchanged when reopened, with the content it
    declares, is always extracted: when no call fails and the session is not
    cancelled, no check, counter or cap along the way can refuse. *)
Theorem extraction_succeeds opened p summary file ar s :
  validate_archive_structure opened = Ok (p, summary) →
  zip_new file = Some ar → faithful p ar →
  Forall (eq false) (os_faults s) → Forall (eq false) (cancels s) →
  nodes s = ∅ → escapes s = [] → reports s = [] →
  ∃ s', extract_archive_into_staged_cancellable opened (Ok file) s = (Ok (total_progress p), s') ∧ Materialized p ar s'.
Proof.
  intros Hv Hnew Hfaith Hf Hcs Hn He Hr. unfold extract_archive_into_staged_cancellable. rewrite Hv.
  apply validated_plan in Hv as (Hplan & Hcaps & _).
  pose proof (extract_plan_ok p (Ok file) s Hplan Hcaps (Contained_empty p s Hn He Hr) Hn Hr) as Hwp. unfold wp in Hwp.
  destruct (extract_plan p (Ok file) s) as [[progress|e] s1].
  - destruct Hwp as (_ & -> & file' & ar' & [= <-] & Hnew' & _ & Hm). simplify_eq. by exists s1.
  - destruct Hwp as [_ []]. split_and!; [done|done|]. by exists file, ar.
Qed.
End ExtractionTheorems.

(** ** A concrete archive *)
Definition example_entry (n : str) (m : Z) (reads : list str) : ZipEntry :=
  {| name_raw := n; entry_size := Z.of_nat (length (concat reads)); unix_mode := Some m; content := Some <$> reads |}.
Definition example_entries : list ZipEntry :=
  [example_entry (lit "d/") 16877 []; example_entry (lit "d/x/a") 33188 [lit "h"; lit "i"];
   example_entry (lit "d/l") 41471 [lit "x/a"]; example_entry (lit "run") 33261 []].
#[global] Instance example_reader : ZipReader :=
  {| zip_archive := unit; zip_new := fun _ => Some tt; zip_len := fun _ => 4%nat; zip_by_index := fun _ i => example_entries !! i |}.
#[global] Instance example_reader_laws : ZipReaderLaws.
Proof. constructor. intros [] i e Hi. do 4 (destruct i as [|i]; [injection Hi as <-; by vm_compute|]). done. Qed.

Definition example_archive : @zip_archive example_reader := tt.
Definition example_file : str := [80; 75; 5; 6; 0; 0; 0; 0; 4; 0; 4; 0; 0; 0; 0; 0; 0; 0; 0; 0; 0; 0].
Definition example_plan : list ArchiveEntryPlan :=
  [{| name := lit "d"; kind := Directory; declared_bytes := 0; executable := true |};
   {| name := lit "d/x/a"; kind := RegularFile; declared_bytes := 2; executable := false |};
   {| name := lit "d/l"; kind := SymbolicLink; declared_bytes := 3; executable := true |};
   {| name := lit "run"; kind := RegularFile; declared_bytes := 0; executable := true |}].
Definition example_summary : ArchiveSummary := {| declared_entries := 5; declared_regular_files := 2; declared_regular_file_bytes := 2 |}.
Definition example_stage (faults cancelled : list bool) : Stage :=
  {| nodes := ∅; escapes := []; reports := []; os_faults := faults; cancels := cancelled |}.

(** ** The container's count *)
Definition field16 (file : str) (offset : nat) : Z := le_value (slice offset (offset + 2) file).

(** A record at [k] whose comment ends the file. *)
Definition ends_with_record (file : str) (k : nat) : Prop :=
  (k + 22 <= length file)%nat ∧ slice k (k + 4) file = signature 5 6 ∧ Z.of_nat k + 22 + field16 file (k + 20) = Z.of_nat (length file).
Definition last_record (file : str) (k : nat) : Prop :=
  ends_with_record file k ∧ ∀ j, (k < j)%nat → ¬ ends_with_record file j.

Lemma bytes_at_ok a b s : (a <= b <= length s)%nat → bytes_at a b s = Ok (slice a b s).
Proof. intros [Hab Hb]. unfold bytes_at, get_range. by rewrite (proj2 (Nat.leb_le _ _) Hab), (proj2 (Nat.leb_le _ _) Hb). Qed.

Lemma u16_at_ok o s : (o + 2 <= length s)%nat → u16_at o s = Ok (field16 s o).
Proof. intros Ho. unfold u16_at. rewrite bytes_at_ok by lia. done. Qed.

Lemma slice_drop a b d s : (d <= length s)%nat → slice a b (drop d s) = slice (d + a) (d + b) s.
Proof. intros Hd. unfold slice. rewrite drop_drop. by replace (d + b - (d + a))%nat with (b - a)%nat by lia. Qed.

Lemma drop_record d file k :
  (d <= length file)%nat → ends_with_record (drop d file) k ↔ ends_with_record file (d + k).
Proof.
  intros Hd. unfold ends_with_record, field16. rewrite !slice_drop by done. rewrite length_drop.
  replace (d + (k + 4))%nat with (d + k + 4)%nat by lia. replace (d + (k + 20))%nat with (d + k + 20)%nat by lia.
  replace (d + (k + 20 + 2))%nat with (d + k + 20 + 2)%nat by lia. split; intros (? & ? & ?); split_and!; try done; lia.
Qed.

Lemma find_eocd_ok tail m :
  length tail = (m + 22)%nat → ∀ n, (n <= S m)%nat → (∀ j, (n <= j)%nat → ¬ ends_with_record tail j) →
  (∃ k, find_eocd tail (rev (seq 0 n)) = Ok (Some k) ∧ last_record tail k) ∨
  (find_eocd tail (rev (seq 0 n)) = Ok None ∧ ∀ k, ¬ ends_with_record tail k).
Proof.
  intros Hlen. induction n as [|n IH]; intros Hn Hlast; [right; split; [done|intros k; apply Hlast; lia]|].
  rewrite seq_S, rev_app_distr. cbn [rev app Nat.add find_eocd].
  rewrite bytes_at_ok by lia. cbn [mbind result_bind].
  assert (Hnot : ¬ ends_with_record tail n →
    (∃ k, find_eocd tail (rev (seq 0 n)) = Ok (Some k) ∧ last_record tail k) ∨
    (find_eocd tail (rev (seq 0 n)) = Ok None ∧ ∀ k, ¬ ends_with_record tail k)).
  { intros Hno. apply IH; [lia|]. intros j Hj. destruct (decide (j = n)) as [->|]; [done|apply Hlast; lia]. }
  case_bool_decide as Hmagic.
  - rewrite u16_at_ok by lia. cbn [mbind result_bind].
    destruct (Z.eqb_spec (Z.of_nat n + 22 + field16 tail (n + 20)) (Z.of_nat (length tail))) as [Hend|Hend].
    + left. exists n. split; [done|]. split; [|intros j Hj; by apply Hlast; lia]. split_and!; [lia|done|done].
    + apply Hnot. by intros (_ & _ & ?).
  - apply Hnot. by intros (_ & ? & _).
Qed.

Lemma le_value_pair a b : is_byte a → is_byte b → 0 <= le_value [a; b] <= 65535.
Proof. unfold is_byte, le_value. simpl. lia. Qed.

Lemma field16_bound file o : Forall is_byte file → (o + 2 <= length file)%nat → 0 <= field16 file o <= 65535.
Proof.
  intros Hb Ho. unfold field16, slice. replace (o + 2 - o)%nat with 2%nat by lia.
  destruct (drop o file) as [|a [|b r]] eqn:Hd; try (apply (f_equal length) in Hd; rewrite length_drop in Hd; simpl in Hd; lia).
  assert (Hab : Forall is_byte (a :: b :: r)) by (rewrite <- Hd; by apply Forall_drop).
  apply Forall_cons in Hab as [Ha [Hb' _]%Forall_cons]. simpl. by apply le_value_pair.
Qed.

Lemma le_value_nonneg l : Forall is_byte l → 0 <= le_value l.
Proof. unfold le_value. induction 1 as [|b l Hb _ IH]; simpl; [done|]. unfold is_byte in Hb. lia. Qed.

(** The branch that refuses. *)
Ltac skip_if := cbv zeta; match goal with |- safe (if ?b then _ else _) _ => destruct b; [done|] end.

Lemma zip64_count_safe file tail eocd : Forall is_byte tail → (eocd + 22 <= length tail)%nat → safe (zip64_count file tail eocd) (fun _ => True).
Proof.
  intros Hbytes He. unfold zip64_count, EOCD64_LOCATOR_BYTES. destruct (Nat.ltb_spec eocd 20); [done|]. cbv zeta.
  rewrite (bytes_at_ok (eocd - 20)) by lia. cbn [mbind result_bind]. skip_if.
  rewrite bytes_at_ok by lia. cbn [mbind result_bind]. set (v := le_value (slice _ _ tail)).
  assert (Hv : 0 <= v) by (by apply le_value_nonneg, Forall_take, Forall_drop).
  destruct (2 ^ 63 <=? v); [done|]. destruct (Z.ltb_spec (Z.of_nat (length file)) (v + 56)); [done|].
  rewrite (bytes_at_ok (Z.to_nat v)) by lia. cbn [mbind result_bind].
  assert (Hlen : length (slice (Z.to_nat v) (Z.to_nat v + 56) file) = 56%nat) by (unfold slice; rewrite length_take, length_drop; lia).
  do 5 (rewrite bytes_at_ok by (rewrite Hlen; lia); cbn [mbind result_bind]; try skip_if).
  by destruct (_ || _ || _).
Qed.

(** Counting the container's entries never panics, whatever the bytes.  When
    no end record's comment ends the file it refuses; otherwise it reads the last
    such record: without Zip64 marks it returns that record's total exactly when
    the container is one part, and refuses it otherwise. *)
Theorem central_count_exact file :
  Forall is_byte file →
  safe (declared_central_entry_count file) (fun _ => True) ∧
  ((∀ k, ¬ ends_with_record file k) → ∃ e, declared_central_entry_count file = Err (Refused e)) ∧
  ∀ k, last_record file k →
    Forall (fun o => field16 file (k + o) ≠ 65535) [4%nat; 6%nat; 8%nat; 10%nat] →
    if (field16 file (k + 4) =? 0) && (field16 file (k + 6) =? 0) && (field16 file (k + 8) =? field16 file (k + 10))
    then declared_central_entry_count file = Ok (field16 file (k + 10))
    else ∃ e, declared_central_entry_count file = Err (Refused e).
Proof.
  intros Hbytes. unfold declared_central_entry_count, EOCD_BYTES.
  destruct (Nat.ltb_spec (length file) 22) as [Hshort|Hlong].
  { split_and!; [done|by eexists|]. intros k [(? & _) _]. lia. }
  cbv zeta. set (d := (length file - Nat.min (length file) (22 + Z.to_nat MAX_COMMENT_BYTES + EOCD64_LOCATOR_BYTES))%nat).
  assert (Hd : (d <= length file - 22)%nat) by (unfold d, EOCD64_LOCATOR_BYTES; lia).
  assert (Htail : length (drop d file) = ((length file - d - 22) + 22)%nat) by (rewrite length_drop; lia).
  assert (Hreach : ∀ k, ends_with_record file k → (d <= k)%nat).
  { intros k (Hk & _ & Hend). pose proof (field16_bound file (k + 20) Hbytes ltac:(lia)).
    unfold d, EOCD64_LOCATOR_BYTES, MAX_COMMENT_BYTES. lia. }
  assert (Hfields : ∀ k o, (k + o + 2 <= length (drop d file))%nat → u16_at (k + o) (drop d file) = Ok (field16 file (d + k + o))).
  { intros k o Ho. rewrite u16_at_ok by lia. unfold field16. rewrite slice_drop by lia. f_equal. f_equal. f_equal; lia. }
  destruct (find_eocd_ok (drop d file) _ Htail (S (length (drop d file) - 22))) as [(k & -> & [Hrec Hlast])|[-> Hnone]]; [lia| | |].
  { intros j Hj (? & _). lia. }
  2: { cbn [mbind result_bind]. split_and!; [done|by eexists|]. intros k [Hk _]. destruct (Hnone (k - d)%nat).
       apply drop_record; [lia|]. pose proof (Hreach k Hk). by replace (d + (k - d))%nat with k by lia. }
  pose proof Hrec as (Hk & _). cbn [mbind result_bind]. rewrite !Hfields by lia. cbn [mbind result_bind].
  apply drop_record in Hrec; [|lia]. split_and!.
  - destruct (negb _); [by destruct (_ || _)|apply zip64_count_safe; [by apply Forall_drop|done]].
  - intros Hno. by destruct (Hno (d + k)%nat).
  - intros k' [Hk' Hlast'] Hmarks. assert (k' = (d + k)%nat) as ->.
    { destruct (Nat.lt_trichotomy k' (d + k)) as [Hlt|[?|Hgt]]; [by destruct (Hlast' _ Hlt)|done|].
      destruct (Hlast (k' - d)%nat ltac:(lia)). apply drop_record; [lia|]. pose proof (Hreach k' Hk').
      by replace (d + (k' - d))%nat with k' by lia. }
    repeat (apply Forall_cons in Hmarks as [? Hmarks]). rewrite !(proj2 (Z.eqb_neq _ 65535)) by done. cbn [orb negb].
    destruct (_ =? 0), (_ =? 0), (_ =? _); simpl; try done; by eexists.
Qed.

(** ** Witnesses *)
Lemma example_validated : validate_archive_structure (Ok example_file) = Ok (example_plan, example_summary).
Proof. by vm_compute. Qed.

Lemma example_faithful : faithful example_plan example_archive.
Proof.
  split; [done|]. intros i e Hi. assert (Hplan : ∃ archive, describes (Ok example_file) archive example_plan).
  { pose proof example_validated as (archive & Hd & _)%validated_iff. by exists archive. }
  destruct Hplan as ([] & [_ _ Hentry]). destruct (Hentry i e Hi) as (ze & Hze & Has). exists ze. split_and!; [done|done|].
  do 4 (destruct i as [|i]; [injection Hi as <-; injection Hze as <-; first [by left |
    right; eexists; split_and!; [reflexivity|repeat constructor; done|reflexivity|intros Hk; try discriminate Hk; by rewrite <- not_in_existsb]]|]). done.
Qed.

Lemma validated_structure_exact_witness :
  ∃ archive, describes (Ok example_file) archive example_plan ∧ plan_ok example_plan ∧ within_caps example_plan ∧ example_summary = summary_of example_plan.
Proof. apply (validated_structure_exact (Ok example_file) example_plan example_summary). apply example_validated. Defined.

(** A cancelled extraction that has already created one file. *)
Lemma extraction_contained_witness :
  let run := extract_archive_into_staged_cancellable (Ok example_file) (Ok example_file) (example_stage [] [false; false; false; true]) in
  is_ok run.1 = false ∧ (2 <= size (nodes run.2))%nat ∧ Contained example_plan run.2.
Proof.
  split_and!; [by vm_compute|by apply Nat.leb_le; vm_compute|].
  pose proof (extraction_contained (Ok example_file) (Ok example_file) (example_stage [] [false; false; false; true]) _ _ eq_refl eq_refl eq_refl
    (surjective_pairing _)) as H. rewrite example_validated in H. exact (proj1 H).
Defined.

Lemma extraction_succeeds_witness :
  ∃ s', extract_archive_into_staged_cancellable (Ok example_file) (Ok example_file) (example_stage [] []) = (Ok (total_progress example_plan), s') ∧
    Materialized example_plan example_archive s'.
Proof.
  apply (extraction_succeeds (Ok example_file) example_plan example_summary example_file example_archive (example_stage [] [])); [apply example_validated|reflexivity|apply example_faithful|constructor|constructor|reflexivity..].
Defined.

Lemma central_count_exact_witness : Forall is_byte example_file ∧ declared_central_entry_count example_file = Ok 4.
Proof.
  assert (Hb : Forall is_byte example_file) by (repeat constructor; unfold is_byte; lia). split; [exact Hb|].
  assert (Hk : last_record example_file 0).
  { split; [split_and!; [simpl; lia|reflexivity|reflexivity]|]. intros j Hj (Hlen & _). simpl in Hlen. lia. }
  pose proof (proj2 (proj2 (central_count_exact example_file Hb)) 0%nat Hk) as H. apply H. repeat constructor; by vm_compute.
Defined.
