(* ===== verification/Sse.v ===== *)
(** * Sse: what the provider's body decoded to (src/protocol/engine/src/model_requests.rs)

    [SseValues] reads a streamed response byte by byte and holds back each event
    until its chunk is complete; [ResponseValues] answers what the client's SDK
    could have yielded from a physical body: its values, its usage, the refusal
    it ends in.  Here the buffering reader is shown to decode what splitting the
    whole body into lines decodes.  serde_json's values are the class
    [SdkJson]. *)
From stdpp Require Import sorting.
From S2P Require Import Prelude Number Utf8 BTree Json JsonTree Schema Stream Usage.

Definition model_refusal {A} (detail : string) : contract A :=
  invalid (lit "model request evidence " ++ lit detail
           ++ lit "; inspect the complete original recording with its matching client").

(** ** JSON values of the SDK *)

(** An [f64]: a finite one is an integer times a power of two. *)
Inductive F64 := Finite (mantissa exponent : Z) | NonFinite.

Definition f64_nonneg (f : F64) : bool := match f with Finite m _ => 0 <=? m | NonFinite => false end.
Definition f64_at_most (f : F64) (n : Z) : bool :=
  match f with
  | Finite m e => if 0 <=? e then m * 2 ^ e <=? n else m <=? n * 2 ^ (- e)
  | NonFinite => false
  end.
(** [fract() == 0.0] *)
Definition f64_integral (f : F64) : bool :=
  match f with Finite m e => (0 <=? e) || (m mod 2 ^ (- e) =? 0) | NonFinite => false end.
Definition f64_is_zero (f : F64) : bool := match f with Finite m _ => m =? 0 | NonFinite => false end.
(** [as u64] of a whole nonnegative number. *)
Definition f64_as_u64 (f : F64) : Z :=
  match f with Finite m e => if 0 <=? e then m * 2 ^ e else m / 2 ^ (- e) | NonFinite => 0 end.

(** serde_json's [Value], as its variants show it. *)
Inductive JsonView := VNull | VBool (b : bool) | VNumber (as_f64 : option F64) | VString (s : str) | VArray | VObject.
Class SdkJson := {
  sdk_value : Type;
  sdk_from_str : str → option sdk_value;
  sdk_view : sdk_value → JsonView;
  sdk_get : sdk_value → str → option sdk_value;
  (** [json!({"event": event, "data": value})] *)
  sdk_thread_event : str → sdk_value → sdk_value;
}.

Record ServedTurnRefusal := { wire_type : str; recorded_name : str }.

Section Sse.
Context `{SdkJson}.

Definition as_f64 (v : sdk_value) : option F64 := match sdk_view v with VNumber f => f | _ => None end.
Definition sdk_as_str (v : sdk_value) : option str := match sdk_view v with VString s => Some s | _ => None end.

Definition js_truthy (v : sdk_value) : bool :=
  match sdk_view v with
  | VNull => false
  | VBool b => b
  | VNumber f => match f with None => true | Some number => negb (f64_is_zero number) end
  | VString s => negb (length s =? 0)%nat
  | VArray | VObject => true
  end.

Definition served_count (v : option sdk_value) : option Z :=
  v ← v;
  number ← as_f64 v;
  if f64_nonneg number && f64_at_most number SAFE_INTEGER && f64_integral number then Some (f64_as_u64 number) else None.

Definition openai_served_usage (v : sdk_value) : option ServedUsage :=
  usage ← sdk_get v (lit "usage");
  prompt ← served_count (sdk_get usage (lit "prompt_tokens"));
  output ← served_count (sdk_get usage (lit "completion_tokens"));
  total ← served_count (sdk_get usage (lit "total_tokens"));
  details ← sdk_get usage (lit "prompt_tokens_details");
  cached ← served_count (sdk_get details (lit "cached_tokens"));
  details ← sdk_get usage (lit "completion_tokens_details");
  thoughts ← served_count (sdk_get details (lit "reasoning_tokens"));
  let served := {| prompt := prompt; output := output; thoughts := thoughts; cached := cached; total := total |} in
  if is_ok (served_validate served) then Some served else None.

Definition BOM : str := [239; 187; 191].
Definition strip_bom (s : str) : str := default s (strip_prefix BOM s).

Definition nonstream_json_value (body : str) : option sdk_value :=
  sdk_from_str (from_utf8_lossy (strip_bom (strip_bom body))).

(** ** The streamed reader *)
Record SseValues := {
  pending : str; line : str; event : option str; data : list str; count : Z;
  values : list sdk_value; usage_reports : list (Z * ServedUsage);
  retain_values : bool; failed : bool; error_type : option str; done_ : bool; after_cr : bool;
}.
Definition default_sse (retain : bool) : SseValues :=
  {| pending := []; line := []; event := None; data := []; count := 0; values := []; usage_reports := [];
     retain_values := retain; failed := false; error_type := None; done_ := false; after_cr := false |}.

Definition set_pending (p : str) (s : SseValues) : SseValues :=
  {| pending := p; line := line s; event := event s; data := data s; count := count s; values := values s;
     usage_reports := usage_reports s; retain_values := retain_values s; failed := failed s;
     error_type := error_type s; done_ := done_ s; after_cr := after_cr s |}.
Definition set_line (l : str) (s : SseValues) : SseValues :=
  {| pending := pending s; line := l; event := event s; data := data s; count := count s; values := values s;
     usage_reports := usage_reports s; retain_values := retain_values s; failed := failed s;
     error_type := error_type s; done_ := done_ s; after_cr := after_cr s |}.
Definition set_after_cr (b : bool) (s : SseValues) : SseValues :=
  {| pending := pending s; line := line s; event := event s; data := data s; count := count s; values := values s;
     usage_reports := usage_reports s; retain_values := retain_values s; failed := failed s;
     error_type := error_type s; done_ := done_ s; after_cr := b |}.
Definition set_event (e : option str) (d : list str) (s : SseValues) : SseValues :=
  {| pending := pending s; line := line s; event := e; data := d; count := count s; values := values s;
     usage_reports := usage_reports s; retain_values := retain_values s; failed := failed s;
     error_type := error_type s; done_ := done_ s; after_cr := after_cr s |}.
Definition set_done (s : SseValues) : SseValues :=
  {| pending := pending s; line := line s; event := event s; data := data s; count := count s; values := values s;
     usage_reports := usage_reports s; retain_values := retain_values s; failed := failed s;
     error_type := error_type s; done_ := true; after_cr := after_cr s |}.
Definition set_failed (e : option str) (s : SseValues) : SseValues :=
  {| pending := pending s; line := line s; event := event s; data := data s; count := count s; values := values s;
     usage_reports := usage_reports s; retain_values := retain_values s; failed := true;
     error_type := e; done_ := done_ s; after_cr := after_cr s |}.
Definition add_value (n : Z) (usage : option ServedUsage) (v : sdk_value) (s : SseValues) : SseValues :=
  {| pending := pending s; line := line s; event := event s; data := data s; count := n;
     values := if retain_values s then values s ++ [v] else values s;
     usage_reports := match usage with Some u => usage_reports s ++ [(n, u)] | None => usage_reports s end;
     retain_values := retain_values s; failed := failed s; error_type := error_type s; done_ := done_ s; after_cr := after_cr s |}.

(** An event with its payload parsed. *)
Definition yield_value (name : option str) (value : sdk_value) (s : SseValues) : SseValues :=
  let thread := match name with Some event => starts_with (lit "thread.") event | None => false end in
  if negb thread && match sdk_get value (lit "error") with Some e => js_truthy e | None => false end
  then set_failed (e ← sdk_get value (lit "error"); t ← sdk_get e (lit "type"); sdk_as_str t) s
  else
    match checked_add (count s) 1 ≫= (fun n => if n <=? SAFE_INTEGER then Some n else None) with
    | Some n =>
        add_value n (if thread then None else openai_served_usage value)
          (match name with Some event => if thread then sdk_thread_event event value else value | None => value end) s
    | None => set_failed (error_type s) s
    end.

Definition finish_event (s : SseValues) : SseValues :=
  if (length (default [] (event s)) =? 0)%nat && (length (data s) =? 0)%nat then set_event None (data s) s
  else
    let name := event s in
    let payload := join 10 (data s) in
    let s := set_event None [] s in
    if starts_with (lit "[DONE]") payload then set_done s
    else match sdk_from_str payload with
         | None => set_failed (error_type s) s
         | Some value => yield_value name value s
         end.

Definition finish_line (s : SseValues) : SseValues :=
  let text := from_utf8_lossy (strip_bom (line s)) in
  let s := set_line [] s in
  if (length text =? 0)%nat then finish_event s
  else if starts_with (lit ":") text then s
  else
    let '(field, value) := default (text, []) (split_once 58 text) in
    let value := default value (strip_prefix (lit " ") value) in
    if bool_decide (field = lit "event") then set_event (Some value) (data s) s
    else if bool_decide (field = lit "data") then set_event (event s) (data s ++ [value]) s
    else s.

Definition stopped (s : SseValues) : bool := failed s || done_ s.

Definition feed_byte (s : SseValues) (byte : Z) : SseValues :=
  if stopped s then s
  else
    let '(s, skip) := if after_cr s then (finish_line (set_after_cr false s), byte =? 10) else (s, false) in
    if skip then s
    else if byte =? 13 then set_after_cr true s
    else if byte =? 10 then finish_line s
    else set_line (line s ++ [byte]) s.
Definition feed (s : SseValues) (bytes : str) : SseValues := fold_left feed_byte bytes s.

Definition complete_chunk (p : str) : bool :=
  ends_with [10; 10] p || ends_with [13; 13] p || ends_with [13; 10; 13; 10] p.

Definition push_byte (s : SseValues) (byte : Z) : SseValues :=
  if stopped s then s
  else
    let s := set_pending (pending s ++ [byte]) s in
    if complete_chunk (pending s) then feed (set_pending [] s) (pending s) else s.
Definition push (s : SseValues) (bytes : str) : SseValues := fold_left push_byte bytes s.

Definition has_line (s : SseValues) : bool := after_cr s || negb (length (line s) =? 0)%nat.

Definition settle (s : SseValues) (transport_eof : bool) : SseValues :=
  if transport_eof && (negb (length (pending s) =? 0)%nat || has_line s) && negb (failed s) && negb (done_ s) then
    let s := feed (set_pending [] s) (pending s) in
    if has_line s then finish_line (set_after_cr false s) else s
  else s.

Definition eof_tail (s : SseValues) (transport_eof : bool) : SseValues :=
  settle {| pending := pending s; line := line s; event := event s; data := data s; count := count s; values := [];
            usage_reports := []; retain_values := false; failed := failed s; error_type := error_type s;
            done_ := done_ s; after_cr := after_cr s |} transport_eof.

(** ** One physical body *)
Inductive ResponseValues := Stream (s : SseValues) | Nonstream (body : str).

Definition new_response (stream retain : bool) : ResponseValues :=
  if stream then Stream (default_sse retain) else Nonstream [].
Definition push_response (r : ResponseValues) (bytes : str) : ResponseValues :=
  match r with Stream s => Stream (push s bytes) | Nonstream body => Nonstream (body ++ bytes) end.
Definition into_stream_values (r : ResponseValues) (transport_eof : bool) : option (list sdk_value) :=
  match r with Stream s => Some (values (settle s transport_eof)) | Nonstream _ => None end.

Definition successful (status : option Z) : bool :=
  match status with Some status => (200 <=? status) && (status <? 300) | None => false end.
Definition media_type (content_type : option str) : option str :=
  (fun t => concat (encode_utf8 <$> trim t)) <$> (content_type ≫= (fun t => head (split_on 59 t))).
Definition is_json_media (content_type : option str) : bool :=
  match media_type content_type with
  | Some t => contains (lit "application/json") t || ends_with (lit "+json") t
  | None => false
  end.

(** The last report whose position the client had seen. *)
Fixpoint find_report (seen : Z) (reports : list (Z * ServedUsage)) : option ServedUsage :=
  match reports with
  | [] => None
  | (position, usage) :: reports => if position <=? seen then Some usage else find_report seen reports
  end.

Definition observed_usage (r : ResponseValues) (seen : Z) (status : option Z) (content_type : option str) (transport_eof : bool) :
    option ServedUsage :=
  if (seen =? 0) || negb (successful status) then None
  else match r with
       | Stream s => find_report seen (rev (usage_reports (eof_tail s transport_eof)) ++ rev (usage_reports s))
       | Nonstream body =>
           if bool_decide (status = Some 204) then None
           else if negb (is_json_media content_type) then None
           else nonstream_json_value body ≫= openai_served_usage
       end.

Section Refusals.
(** Read from the reviewed client patch by the build. *)
Variable SERVED_TURN_REFUSALS : list ServedTurnRefusal.

Definition recorded_refusal (error : str) : option ServedTurnRefusal :=
  List.find (fun r => match strip_prefix (recorded_name r) error with Some rest => starts_with (lit ": ") rest | None => false end)
    SERVED_TURN_REFUSALS.

Definition served_refusal (r : ResponseValues) (seen : Z) (status : option Z) (transport_eof : bool) : option ServedTurnRefusal :=
  if negb (successful status) then None
  else match r with
       | Stream s =>
           let settled := eof_tail s transport_eof in
           if negb (failed settled) || negb (count settled =? seen) then None
           else t ← error_type settled; List.find (fun r => bool_decide (wire_type r = t)) SERVED_TURN_REFUSALS
       | Nonstream _ => None
       end.
End Refusals.

Definition available_values (r : ResponseValues) (status : option Z) (content_type : option str) (transport_eof : bool) : Z * bool :=
  if negb (successful status) then (0, false)
  else match r with
       | Stream s => let settled := eof_tail s transport_eof in (count settled, failed settled)
       | Nonstream body =>
           if bool_decide (status = Some 204) then (1, false)
           else if is_json_media content_type then
             match nonstream_json_value body with Some _ => (1, false) | None => (0, true) end
           else (1, false)
       end.

Definition require_prefix (r : ResponseValues) (seen : Z) (completed : bool) (status : option Z) (content_type : option str)
    (transport_eof : bool) : contract unit :=
  let '(available, failed) := available_values r status content_type transport_eof in
  if (available <? seen) || (completed && (failed || negb (seen =? available)))
  then model_refusal "SDK value count claims an impossible physical response prefix"
  else Ok tt.
End Sse.

(** ** The whole body at once *)

(** The lines of a text: each ends at a line feed, a carriage return or both; the
    last may be unterminated. *)
Fixpoint split_lines (current bytes : str) : list str :=
  match bytes with
  | [] => if (length current =? 0)%nat then [] else [current]
  | b :: rest =>
      if b =? 13 then
        current :: match rest with
                   | c :: rest' => if c =? 10 then split_lines [] rest' else split_lines [] rest
                   | [] => []
                   end
      else if b =? 10 then current :: split_lines [] rest
      else split_lines (current ++ [b]) rest
  end.

Section SseSpec.
Context `{SdkJson}.

Definition line_step (s : SseValues) (l : str) : SseValues :=
  if stopped s then s else finish_line (set_line l s).

(** What splitting the body into lines decodes. *)
Definition decode_body (retain : bool) (body : str) : SseValues :=
  fold_left line_step (split_lines [] body) (default_sse retain).

(** What the reader's users see of it. *)
Definition seen_of (s : SseValues) :=
  (count s, values s, usage_reports s, failed s, error_type s, done_ s).

(** What is left to finish when the body ends. *)
Definition finish (s : SseValues) : SseValues := if has_line s then finish_line (set_after_cr false s) else s.

Ltac reader := unfold finish_line, finish_event, yield_value; cbv zeta; repeat (case_match; simpl in *); try done.

Lemma finish_event_frame s :
  pending (finish_event s) = pending s ∧ line (finish_event s) = line s ∧
  after_cr (finish_event s) = after_cr s ∧ retain_values (finish_event s) = retain_values s.
Proof. destruct s. unfold finish_event, yield_value. simpl. by repeat case_match. Qed.

Lemma finish_line_frame s :
  pending (finish_line s) = pending s ∧ line (finish_line s) = [] ∧
  after_cr (finish_line s) = after_cr s ∧ retain_values (finish_line s) = retain_values s.
Proof.
  unfold finish_line. cbv zeta. case_match; [apply (finish_event_frame (set_line [] s))|].
  repeat case_match; by destruct s.
Qed.

Lemma finish_event_pending p s : finish_event (set_pending p s) = set_pending p (finish_event s).
Proof. destruct s. unfold finish_event, yield_value. simpl. by repeat case_match. Qed.
Lemma finish_line_pending p s : finish_line (set_pending p s) = set_pending p (finish_line s).
Proof.
  unfold finish_line. cbv zeta. change (line (set_pending p s)) with (line s).
  change (set_line [] (set_pending p s)) with (set_pending p (set_line [] s)). rewrite finish_event_pending.
  by repeat case_match.
Qed.

Lemma feed_byte_pending p s b : feed_byte (set_pending p s) b = set_pending p (feed_byte s b).
Proof.
  unfold feed_byte. change (stopped (set_pending p s)) with (stopped s). destruct (stopped s); [done|].
  change (after_cr (set_pending p s)) with (after_cr s).
  change (set_after_cr false (set_pending p s)) with (set_pending p (set_after_cr false s)). rewrite !finish_line_pending.
  destruct (after_cr s), (b =? 10), (b =? 13); try done; by rewrite <- finish_line_pending.
Qed.
Lemma feed_pending p s bytes : feed (set_pending p s) bytes = set_pending p (feed s bytes).
Proof. revert s. induction bytes as [|b bytes IH]; intros s; [done|]. simpl. by rewrite feed_byte_pending, IH. Qed.

Lemma set_pending_same s : set_pending (pending s) s = s.
Proof. by destruct s. Qed.
Lemma feed_keeps_pending s bytes : pending (feed s bytes) = pending s.
Proof. rewrite <- (set_pending_same s) at 1. by rewrite feed_pending. Qed.

Lemma feed_stopped s bytes : stopped s = true → feed s bytes = s.
Proof. intros Hs. induction bytes as [|b bytes IH]; [done|].
  change (feed s (b :: bytes)) with (feed (feed_byte s b) bytes). assert (Hb : feed_byte s b = s) by (unfold feed_byte; by rewrite Hs).
  by rewrite Hb.
Qed.
Lemma feed_app s a b : feed s (a ++ b) = feed (feed s a) b.
Proof. apply fold_left_app. Qed.
Lemma push_app s a b : push s (a ++ b) = push (push s a) b.
Proof. apply fold_left_app. Qed.

(** Holding chunks back changes nothing: the reader has fed what it no longer
    holds. *)
Lemma push_feeds s bytes :
  pending s = [] →
  feed (set_pending [] (push s bytes)) (pending (push s bytes)) = feed s bytes ∧
  (stopped (push s bytes) = true → pending (push s bytes) = []).
Proof.
  intros Hs. induction bytes as [|b bytes [IH IHs]] using rev_ind.
  { simpl. rewrite Hs. split; [|done]. by destruct s; simpl in *; subst. }
  rewrite push_app, feed_app. simpl. unfold push_byte. set (t := push s bytes) in *.
  destruct (stopped t) eqn:Ht.
  - specialize (IHs eq_refl). split; [|done]. rewrite <- IH, IHs. simpl. unfold feed_byte.
    change (stopped (set_pending [] t)) with (stopped t). by rewrite Ht.
  - cbv zeta. assert (Hall : feed (set_pending [] t) (pending t ++ [b]) = feed (feed s bytes) [b]) by (by rewrite feed_app, IH).
    destruct (complete_chunk _).
    + change (feed (set_pending [] (set_pending (pending t ++ [b]) t)) (pending (set_pending (pending t ++ [b]) t)))
        with (feed (set_pending [] t) (pending t ++ [b])).
      assert (Hp : pending (feed (set_pending [] t) (pending t ++ [b])) = []) by apply feed_keeps_pending.
      rewrite Hp. split; [|done]. simpl. rewrite <- Hall, <- Hp at 1. by rewrite set_pending_same.
    + split; [exact Hall|]. unfold stopped in *. simpl. by rewrite Ht.
Qed.

(** Nothing is left of an event once the reader has stopped. *)
Definition quiet (s : SseValues) : Prop := stopped s = true → event s = None ∧ data s = [].

Lemma finish_event_quiet s : stopped s = false → quiet (finish_event s).
Proof.
  intros Hs. unfold finish_event, yield_value, quiet. cbv zeta. repeat case_match; intros Hst; simpl in *; try done;
    unfold stopped in *; simpl in *; congruence.
Qed.
Lemma finish_line_quiet s : stopped s = false → quiet (finish_line s).
Proof.
  intros Hs. unfold finish_line. cbv zeta. case_match; [by apply finish_event_quiet|].
  repeat case_match; intros Hst; unfold stopped in *; simpl in *; congruence.
Qed.

Lemma feed_byte_quiet s b : quiet s → quiet (feed_byte s b).
Proof.
  intros Hq. unfold feed_byte. destruct (stopped s) eqn:Hs; [done|]. destruct (after_cr s).
  - pose proof (finish_line_quiet (set_after_cr false s) Hs) as Hq'. destruct (b =? 10) eqn:Hb; [done|].
    by destruct (b =? 13).
  - destruct (b =? 13); [intros Hst; unfold stopped in *; simpl in *; congruence|]. destruct (b =? 10); [by apply finish_line_quiet|].
    intros Hst. unfold stopped in *. simpl in *. congruence.
Qed.
Lemma feed_quiet s bytes : quiet s → quiet (feed s bytes).
Proof. revert s. induction bytes as [|b bytes IH]; intros s Hq; [done|]. by apply IH, feed_byte_quiet. Qed.

(** The end of a body adds nothing to a reader that has stopped. *)
Lemma finish_quiet s : event s = None → data s = [] → seen_of (finish s) = seen_of s.
Proof.
  intros He Hd. unfold finish. destruct (has_line s); [|done]. unfold finish_line, finish_event. cbv zeta.
  simpl. rewrite He, Hd. simpl. by repeat case_match.
Qed.

Lemma set_line_same s : set_line (line s) s = s.
Proof. by destruct s. Qed.
Lemma set_after_cr_same s : after_cr s = false → set_after_cr false s = s.
Proof. intros Ha. destruct s. simpl in *. by subst. Qed.

Lemma decode_stopped s ls : stopped s = true → fold_left line_step ls s = s.
Proof.
  intros Hs. induction ls as [|l ls IH]; [done|]. simpl.
  assert (Hl : line_step s l = s) by (unfold line_step; by rewrite Hs). by rewrite Hl.
Qed.

(** Feeding a text is finishing its lines, one after the other. *)
Lemma feed_lines n : ∀ bytes s, (length bytes <= n)%nat → after_cr s = false → stopped s = false → quiet s →
  seen_of (finish (feed s bytes)) = seen_of (fold_left line_step (split_lines (line s) bytes) (set_line [] s)).
Proof.
  induction n as [|n IH]; intros bytes s Hn Ha Hs Hq; (destruct bytes as [|b rest]; [|try (simpl in Hn; lia)]).
  1, 2: simpl; unfold finish, has_line; rewrite Ha; destruct (Nat.eqb_spec (length (line s)) 0) as [E%nil_length_inv|E]; simpl;
    [by rewrite <- E, set_line_same|unfold line_step; rewrite set_after_cr_same by done;
     change (stopped (set_line [] s)) with (stopped s); rewrite Hs; change (set_line (line s) (set_line [] s)) with (set_line (line s) s);
     by rewrite set_line_same].
  assert (Hstep : line_step (set_line [] s) (line s) = finish_line s).
  { unfold line_step. change (stopped (set_line [] s)) with (stopped s). rewrite Hs.
    change (set_line (line s) (set_line [] s)) with (set_line (line s) s). by rewrite set_line_same. }
  pose proof (finish_line_frame s) as (_ & Hline & Hcr & _). pose proof (finish_line_quiet s Hs) as Hq'. rewrite Ha in Hcr.
  assert (Hnext : ∀ bytes', (length bytes' <= n)%nat →
    seen_of (finish (feed (finish_line s) bytes')) = seen_of (fold_left line_step (split_lines [] bytes') (finish_line s))).
  { intros bytes' Hn'. destruct (stopped (finish_line s)) eqn:Hst.
    - rewrite feed_stopped, decode_stopped by done. apply finish_quiet; by apply Hq'.
    - rewrite (IH bytes' (finish_line s)) by done. by rewrite Hline, <- Hline, set_line_same, Hline. }
  cbn [split_lines]. change (feed s (b :: rest)) with (feed (feed_byte s b) rest). unfold feed_byte at 1. rewrite Hs, Ha.
  destruct (Z.eqb_spec b 13) as [->|Hb13].
  - cbn [fold_left]. rewrite Hstep. destruct rest as [|c rest].
    + simpl. unfold finish, has_line. simpl. change (set_after_cr false (set_after_cr true s)) with (set_after_cr false s).
      by rewrite set_after_cr_same.
    + change (feed (set_after_cr true s) (c :: rest)) with (feed (feed_byte (set_after_cr true s) c) rest).
      unfold feed_byte. change (stopped (set_after_cr true s)) with (stopped s). rewrite Hs. cbn [after_cr set_after_cr].
      change (set_after_cr false (set_after_cr true s)) with (set_after_cr false s). rewrite set_after_cr_same by done.
      simpl in Hn. destruct (Z.eqb_spec c 10) as [->|Hc]; [apply Hnext; lia|].
      rewrite <- Hnext by (simpl; lia). change (feed (finish_line s) (c :: rest)) with (feed (feed_byte (finish_line s) c) rest).
      destruct (stopped (finish_line s)) eqn:Hst.
      * assert (Hkeep : feed_byte (finish_line s) c = finish_line s) by (unfold feed_byte; by rewrite Hst).
        rewrite Hkeep, (feed_stopped (finish_line s)) by done. rewrite (finish_quiet (finish_line s)) by by apply Hq'.
        destruct (Z.eqb_spec c 13); (rewrite feed_stopped by done); rewrite finish_quiet by (simpl; by apply Hq'); done.
      * unfold feed_byte. rewrite Hst, Hcr. destruct (Z.eqb_spec c 10); [done|]. done.
  - destruct (Z.eqb_spec b 10) as [->|Hb10].
    + cbn [fold_left]. rewrite Hstep. apply Hnext. simpl in Hn. lia.
    + simpl in Hn. rewrite (IH rest (set_line (line s ++ [b]) s)); [done|lia|done|done|intros Hst; unfold stopped in *; simpl in *; congruence].
Qed.

Lemma default_feed retain bytes :
  seen_of (finish (feed (default_sse retain) bytes)) = seen_of (decode_body retain bytes).
Proof. by apply (feed_lines (length bytes)). Qed.

Lemma settle_decodes retain bytes :
  seen_of (settle (push (default_sse retain) bytes) true) = seen_of (decode_body retain bytes).
Proof.
  destruct (push_feeds (default_sse retain) bytes eq_refl) as [Hfeed Hstop]. rewrite <- default_feed, <- Hfeed.
  set (s := push (default_sse retain) bytes) in *.
  assert (Hq : quiet (feed (set_pending [] s) (pending s))) by (rewrite Hfeed; by apply feed_quiet).
  unfold settle. destruct (stopped s) eqn:Hs.
  - rewrite (Hstop eq_refl) in *. simpl feed in *.
    assert (Hst : negb (failed s) && negb (done_ s) = false) by (unfold stopped in Hs; by destruct (failed s), (done_ s)).
    rewrite <- andb_assoc, Hst, andb_false_r. rewrite finish_quiet by by apply Hq. by destruct s.
  - assert (Hst : negb (failed s) && negb (done_ s) = true) by (unfold stopped in Hs; by destruct (failed s), (done_ s)).
    rewrite <- andb_assoc, Hst, andb_true_r. cbn [andb].
    destruct (negb (length (pending s) =? 0)%nat || has_line s) eqn:Hc; [done|].
    apply orb_false_iff in Hc as [Hp Hl]. apply negb_false_iff, Nat.eqb_eq, nil_length_inv in Hp. rewrite Hp. simpl.
    unfold finish. change (has_line (set_pending [] s)) with (has_line s). rewrite Hl. by destruct s.
Qed.

(** ** Counts *)

(** The count is a count of values, and each report is consistent and placed
    after the ones before it. *)
Record counted (s : SseValues) : Prop := {
  counted_bound : 0 <= count s <= SAFE_INTEGER;
  counted_values : retain_values s = true → Z.of_nat (length (values s)) = count s;
  counted_dropped : retain_values s = false → values s = [];
  counted_reports : Forall (fun r => 1 <= r.1 <= count s ∧ served_validate r.2 = Ok tt) (usage_reports s);
  counted_order : StronglySorted (fun a b => a.1 < b.1) (usage_reports s);
}.

Lemma served_usage_valid v u : openai_served_usage v = Some u → served_validate u = Ok tt.
Proof.
  unfold openai_served_usage. intros Hu. repeat (apply bind_Some in Hu as (? & _ & Hu)). cbv zeta in Hu.
  destruct (served_validate _) as [[]|] eqn:Hv; [|done]. by injection Hu as <-.
Qed.

Lemma counted_ext s t :
  count t = count s → values t = values s → usage_reports t = usage_reports s → retain_values t = retain_values s → counted s → counted t.
Proof. intros Hc Hv Hu Hr [? ? ? ? ?]. constructor; rewrite ?Hc, ?Hv, ?Hu, ?Hr; done. Qed.

Lemma yield_value_counted name v s : counted s → counted (yield_value name v s).
Proof.
  intros Hs. unfold yield_value. cbv zeta. destruct (negb _ && _); [by apply (counted_ext s)|].
  destruct (checked_add (count s) 1 ≫= _) as [n|] eqn:Hn; [|by apply (counted_ext s)].
  apply bind_Some in Hn as (m & (-> & _)%checked_add_Some & Hle). destruct (Z.leb_spec (count s + 1) SAFE_INTEGER) as [Hmax|]; [|done].
  injection Hle as <-. set (thread := match name with Some event => starts_with (lit "thread.") event | None => false end).
  destruct Hs as [Hb Hv Hd Hr Ho]. set (u := if thread then None else openai_served_usage v).
  assert (Hu : ∀ u', u = Some u' → served_validate u' = Ok tt) by (unfold u; destruct thread; [done|]; apply served_usage_valid).
  assert (Hr' : Forall (fun r => 1 <= r.1 <= count s + 1 ∧ served_validate r.2 = Ok tt) (usage_reports s)).
  { eapply Forall_impl; [exact Hr|]. simpl. intros r [? ?]. split; [lia|done]. }
  constructor; simpl.
  - lia.
  - intros Hret. rewrite Hret, length_app. simpl. specialize (Hv Hret). lia.
  - intros Hret. rewrite Hret. by apply Hd.
  - destruct u as [u'|]; [|done]. apply Forall_app_2; [done|]. apply Forall_singleton. simpl. split; [lia|by apply Hu].
  - destruct u as [u'|]; [|done]. apply StronglySorted_app_2; [|done|by repeat constructor]. intros x y Hx ->%list_elem_of_singleton.
    rewrite Forall_forall in Hr. destruct (Hr x Hx). simpl. lia.
Qed.

Lemma finish_line_counted s : counted s → counted (finish_line s).
Proof.
  intros Hs. unfold finish_line, finish_event. cbv zeta.
  repeat case_match; try (by apply (counted_ext s)). apply yield_value_counted. by apply (counted_ext s).
Qed.

Lemma line_step_counted s l : counted s → counted (line_step s l).
Proof. intros Hs. unfold line_step. destruct (stopped s); [done|]. apply finish_line_counted. by apply (counted_ext s). Qed.

Lemma decode_counted retain body : counted (decode_body retain body).
Proof.
  unfold decode_body. assert (Hd : counted (default_sse retain)).
  { constructor; simpl; try done; constructor. }
  revert Hd. generalize (default_sse retain). induction (split_lines [] body) as [|l ls IH]; intros s Hs; [done|].
  by apply IH, line_step_counted.
Qed.

(** ** The tail of an unfinished body *)

(** The same reader, but for the history before it. *)
Record tail_of (before : list (Z * ServedUsage)) (s t : SseValues) : Prop := {
  tail_pending : pending t = pending s; tail_line : line t = line s; tail_event : event t = event s; tail_data : data t = data s;
  tail_count : count t = count s; tail_failed : failed t = failed s; tail_error : error_type t = error_type s;
  tail_done : done_ t = done_ s; tail_cr : after_cr t = after_cr s; tail_reports : usage_reports s = before ++ usage_reports t;
}.

Ltac tail_solve := intros [Hp Hl He Hd Hc Hf Hr Hn Ha Hu]; constructor; simpl; try done.

Lemma tail_yield b name v s t : tail_of b s t → tail_of b (yield_value name v s) (yield_value name v t).
Proof.
  intros Ht. unfold yield_value. cbv zeta. destruct (negb _ && _); [revert Ht; tail_solve|]. rewrite (tail_count _ _ _ Ht).
  destruct (checked_add _ _ ≫= _); [|revert Ht; tail_solve]. revert Ht. tail_solve.
  case_match; [|done]. by rewrite Hu, app_assoc.
Qed.

Lemma tail_set_line b l s t : tail_of b s t → tail_of b (set_line l s) (set_line l t).
Proof. tail_solve. Qed.
Lemma tail_set_event b e d s t : tail_of b s t → tail_of b (set_event e d s) (set_event e d t).
Proof. tail_solve. Qed.
Lemma tail_set_cr b c s t : tail_of b s t → tail_of b (set_after_cr c s) (set_after_cr c t).
Proof. tail_solve. Qed.
Lemma tail_set_pending b p s t : tail_of b s t → tail_of b (set_pending p s) (set_pending p t).
Proof. tail_solve. Qed.

Lemma tail_finish_line b s t : tail_of b s t → tail_of b (finish_line s) (finish_line t).
Proof.
  intros Ht. unfold finish_line, finish_event. cbv zeta. rewrite (tail_line _ _ _ Ht). apply (tail_set_line _ []) in Ht.
  set (s1 := set_line [] s) in *. set (t1 := set_line [] t) in *. rewrite (tail_event _ _ _ Ht), (tail_data _ _ _ Ht).
  destruct (length (from_utf8_lossy _) =? 0)%nat.
  - destruct (_ && _); [by apply tail_set_event|]. apply (tail_set_event _ None []) in Ht. destruct (starts_with _ _).
    { revert Ht. tail_solve. }
    destruct (sdk_from_str (join 10 (data s1))); [by apply tail_yield|]. revert Ht. tail_solve.
  - destruct (starts_with _ _); [done|]. destruct (default _ _) as [field value].
    case_bool_decide; [by apply tail_set_event|]. case_bool_decide; [by apply tail_set_event|done].
Qed.

Lemma tail_feed b bytes : ∀ s t, tail_of b s t → tail_of b (feed s bytes) (feed t bytes).
Proof.
  induction bytes as [|byte bytes IH]; intros s t Ht; [done|]. simpl. apply IH. unfold feed_byte, stopped.
  rewrite (tail_failed _ _ _ Ht), (tail_done _ _ _ Ht), (tail_cr _ _ _ Ht). destruct (_ || _); [done|].
  destruct (after_cr s).
  - apply (tail_set_cr _ false), tail_finish_line in Ht. destruct (byte =? 10); [done|]. destruct (byte =? 13); [by apply tail_set_cr|].
    rewrite (tail_line _ _ _ Ht). by apply tail_set_line.
  - destruct (byte =? 13); [by apply tail_set_cr|]. destruct (byte =? 10); [by apply tail_finish_line|].
    rewrite (tail_line _ _ _ Ht). by apply tail_set_line.
Qed.

Lemma tail_settle b s t eof : tail_of b s t → tail_of b (settle s eof) (settle t eof).
Proof.
  intros Ht. unfold settle, has_line. rewrite (tail_pending _ _ _ Ht), (tail_cr _ _ _ Ht), (tail_line _ _ _ Ht), (tail_failed _ _ _ Ht),
    (tail_done _ _ _ Ht). destruct (_ && _); [|done]. cbv zeta.
  apply (tail_set_pending _ []), (tail_feed _ (pending s)) in Ht. rewrite (tail_cr _ _ _ Ht), (tail_line _ _ _ Ht).
  destruct (_ || _); [|done]. by apply tail_finish_line, tail_set_cr.
Qed.

Lemma eof_tail_of s eof : tail_of (usage_reports s) (settle s eof) (eof_tail s eof).
Proof. unfold eof_tail. apply tail_settle. constructor; simpl; try done. by rewrite app_nil_r. Qed.

Lemma feed_counted bytes : ∀ s, counted s → counted (feed s bytes).
Proof.
  induction bytes as [|b bytes IH]; intros s Hs; [done|]. simpl. apply IH. unfold feed_byte. destruct (stopped s); [done|].
  destruct (after_cr s).
  - assert (Hf : counted (finish_line (set_after_cr false s))) by (apply finish_line_counted; by apply (counted_ext s)).
    destruct (b =? 10); [done|]. destruct (b =? 13); by apply (counted_ext (finish_line (set_after_cr false s))).
  - destruct (b =? 13); [by apply (counted_ext s)|]. destruct (b =? 10); [by apply finish_line_counted|by apply (counted_ext s)].
Qed.

Lemma push_counted bytes : ∀ s, counted s → counted (push s bytes).
Proof.
  induction bytes as [|b bytes IH]; intros s Hs; [done|]. simpl. apply IH. unfold push_byte. destruct (stopped s); [done|].
  cbv zeta. destruct (complete_chunk _); [apply feed_counted|]; by apply (counted_ext s).
Qed.

Lemma settle_counted s eof : counted s → counted (settle s eof).
Proof.
  intros Hs. unfold settle. destruct (_ && _); [|done]. cbv zeta.
  assert (Hf : counted (feed (set_pending [] s) (pending s))) by (apply feed_counted; by apply (counted_ext s)).
  destruct (has_line _); [|done]. apply finish_line_counted. by apply (counted_ext (feed (set_pending [] s) (pending s))).
Qed.

Lemma default_counted retain : counted (default_sse retain).
Proof. constructor; simpl; try done; constructor. Qed.

Lemma push_chunks chunks : ∀ s, fold_left push chunks s = push s (concat chunks).
Proof. induction chunks as [|c chunks IH]; intros s; [done|]. simpl. by rewrite IH, push_app. Qed.

(** C34: however the body arrives, the reader that holds unfinished chunks back
    and is flushed at the end has decoded what splitting the whole body into
    lines decodes: the same count, values, usage reports, failure and end. *)
Theorem reader_decodes_lines retain chunks :
  seen_of (settle (fold_left push chunks (default_sse retain)) true) = seen_of (decode_body retain (concat chunks)).
Proof. rewrite push_chunks. apply settle_decodes. Qed.

(** At every moment the count is within the safe integers and counts the
    retained values, and each usage report is consistent and stands at its own
    value, after the reports before it; and the tail computed without the history
    is exactly what flushing the reader adds to it. *)
Theorem reader_counts retain chunks eof :
  let s := fold_left push chunks (default_sse retain) in
  counted s ∧ counted (settle s eof) ∧
  count (eof_tail s eof) = count (settle s eof) ∧ failed (eof_tail s eof) = failed (settle s eof) ∧
  error_type (eof_tail s eof) = error_type (settle s eof) ∧
  usage_reports (settle s eof) = usage_reports s ++ usage_reports (eof_tail s eof).
Proof.
  cbv zeta. rewrite push_chunks. set (s := push (default_sse retain) (concat chunks)).
  assert (Hs : counted s) by apply push_counted, default_counted. pose proof (eof_tail_of s eof) as Ht.
  split_and!; [done|by apply settle_counted|apply Ht..].
Qed.

(** ** Responses *)
Lemma push_response_stream chunks s : fold_left push_response chunks (Stream s) = Stream (push s (concat chunks)).
Proof.
  revert s. induction chunks as [|c chunks IH]; intros s; [done|]. cbn [fold_left push_response]. by rewrite IH, <- push_app.
Qed.

(** The last report at a position the client had seen. *)
Definition last_report (seen : Z) (reports : list (Z * ServedUsage)) : option ServedUsage :=
  snd <$> last (filter (fun r => r.1 <= seen) reports).

Lemma find_report_last seen reports : find_report seen (rev reports) = last_report seen reports.
Proof.
  unfold last_report. induction reports as [|[n u] reports IH] using rev_ind; [done|].
  rewrite rev_app_distr, filter_app. simpl. destruct (Z.leb_spec n seen) as [Hle|Hgt].
  - rewrite filter_cons_True by done. by rewrite filter_nil, last_snoc.
  - rewrite filter_cons_False by (simpl; lia). by rewrite filter_nil, app_nil_r.
Qed.

(** What a finished streamed response answers is read off its body: the
    values handed on, the prefixes the client may claim, the usage of the last
    report it had seen, and the refusal the body ends in. *)
Theorem response_answers refusals retain chunks seen completed status content_type :
  let r := fold_left push_response chunks (new_response true retain) in
  let d := decode_body retain (concat chunks) in
  into_stream_values r true = Some (values d) ∧
  (successful status = true →
    (require_prefix r seen completed status content_type true = Ok tt ↔
       seen <= count d ∧ (completed = true → failed d = false ∧ seen = count d)) ∧
    (seen ≠ 0 → observed_usage r seen status content_type true = last_report seen (usage_reports d)) ∧
    (failed d = true → count d = seen →
       served_refusal refusals r seen status true =
         (t ← error_type d; List.find (fun x => bool_decide (wire_type x = t)) refusals)) ∧
    (failed d = false ∨ count d ≠ seen → served_refusal refusals r seen status true = None)).
Proof.
  cbv zeta. unfold new_response. rewrite push_response_stream. pose proof (settle_decodes retain (concat chunks)) as Hd.
  set (s := push (default_sse retain) (concat chunks)) in *. set (d := decode_body retain (concat chunks)) in *.
  pose proof (eof_tail_of s true) as Ht. unfold seen_of in Hd. injection Hd as Hc Hv Hu Hf He _.
  pose proof (tail_count _ _ _ Ht) as Htc. pose proof (tail_failed _ _ _ Ht) as Htf. pose proof (tail_error _ _ _ Ht) as Hte.
  pose proof (tail_reports _ _ _ Ht) as Htr. rewrite Hc in Htc. rewrite Hf in Htf. rewrite He in Hte. rewrite Hu in Htr.
  split; [by rewrite <- Hv|]. intros Hok. split_and!.
  - unfold require_prefix, available_values. rewrite Hok. cbn [negb]. rewrite Htc, Htf.
    destruct (Z.ltb_spec (count d) seen) as [Hlt|Hge]; cbn [orb]; [split; [done|intros [? _]; lia]|].
    destruct completed; cbn [andb]; [|by split]. destruct (failed d); cbn [orb]; [split; [done|by intros [_ [? _]]]|].
    destruct (Z.eqb_spec seen (count d)) as [->|Hne]; cbn [negb]; [by split|]. split; [done|]. intros [_ Hall]. by destruct Hall.
  - intros Hseen. unfold observed_usage. rewrite Hok, (proj2 (Z.eqb_neq _ _) Hseen). cbn [orb negb].
    by rewrite <- rev_app_distr, <- Htr, find_report_last.
  - intros Hfail Hcount. unfold served_refusal. rewrite Hok, Htf, Htc, Hte, Hfail, Hcount, Z.eqb_refl. done.
  - intros Hno. unfold served_refusal. rewrite Hok, Htf, Htc. cbn [negb].
    destruct Hno as [-> | Hne]; [done|]. rewrite (proj2 (Z.eqb_neq _ _) Hne). cbn [negb]. by rewrite orb_true_r.
Qed.
End SseSpec.

(** ** A concrete body *)

(** Payloads that are numbers of bytes. *)
#[local] Instance length_json : SdkJson :=
  {| sdk_value := Z; sdk_from_str := fun s => Some (Z.of_nat (length s)); sdk_view := fun n => VNumber (Some (Finite n 0));
     sdk_get := fun _ _ => None; sdk_thread_event := fun _ n => n |}.

(** Two events and the end mark, cut anywhere, with an unfinished last line. *)
Example small_body :
  seen_of (settle (fold_left push [[100; 97; 116; 97; 58; 32; 97; 13]; [10; 13; 10; 100; 97; 116; 97; 58; 98; 98; 10; 10; 100]; [97; 116; 97; 58]; lit "[DONE]"; [10; 13]]
    (default_sse true)) true) = (2, [1; 2], [], false, None, true).
Proof. by vm_compute. Qed.

(** A completed response of two values is accepted, three are refused. *)
Lemma response_answers_witness :
  let body := lit "data: a" ++ [10; 10] ++ lit "data: bb" ++ [13; 10; 13; 10] in
  require_prefix (fold_left push_response [body] (new_response true false)) 2 true (Some 200) None true = Ok tt ∧
  ¬ (3 <= count (decode_body false body)).
Proof.
  cbv zeta. pose proof (response_answers [] false [lit "data: a" ++ [10; 10] ++ lit "data: bb" ++ [13; 10; 13; 10]] 2 true (Some 200) None) as [_ H].
  split; [|by vm_compute]. apply (proj1 (H eq_refl)). split; [by vm_compute|]. intros _. split; [by vm_compute|by vm_compute].
Defined.
