(* ===== verification/Text.v ===== *)
(** * Text: white space and decimal text, as the service's standard library reads them

    [str::trim] and its kin, [str::parse] on integers and ASCII case, on strings
    that are lists of bytes. *)
From S2P Require Import Prelude Number Utf8 BTree Json JsonTree Schema Stream.

(** The bytes of the Unicode white space character that a text starts with. *)
Definition space_length (s : str) : nat :=
  match s with
  | b :: rest =>
      if (b =? 32) || ((9 <=? b) && (b <=? 13)) then 1%nat
      else
        match rest with
        | c :: rest =>
            if (b =? 194) && ((c =? 133) || (c =? 160)) then 2%nat
            else
              match rest with
              | d :: _ =>
                  if ((b =? 225) && (c =? 154) && (d =? 128))
                     || ((b =? 226) && (c =? 128) && (((128 <=? d) && (d <=? 138)) || (d =? 168) || (d =? 169) || (d =? 175)))
                     || ((b =? 226) && (c =? 129) && (d =? 159)) || ((b =? 227) && (c =? 128) && (d =? 128))
                  then 3%nat else 0%nat
              | [] => 0%nat
              end
        | [] => 0%nat
        end
  | [] => 0%nat
  end.

(** Each byte, and whether it belongs to a white space character. *)
Fixpoint mark_spaces (s : str) (skip : nat) : list (Z * bool) :=
  match s with
  | [] => []
  | b :: rest =>
      match skip with
      | S skip => (b, true) :: mark_spaces rest skip
      | O => match space_length s with O => (b, false) :: mark_spaces rest 0 | S n => (b, true) :: mark_spaces rest n end
      end
  end.
Fixpoint drop_spaces (s : list (Z * bool)) : list (Z * bool) :=
  match s with (_, true) :: s => drop_spaces s | s => s end.

(** [str::trim], [split_whitespace] and [char::is_whitespace] *)
Definition trim (s : str) : str := map fst (rev (drop_spaces (rev (drop_spaces (mark_spaces s 0))))).
Fixpoint split_marked (s : list (Z * bool)) (word : str) : list str :=
  match s with
  | [] => match word with [] => [] | _ => [word] end
  | (_, true) :: s => match word with [] => split_marked s [] | _ => word :: split_marked s [] end
  | (b, false) :: s => split_marked s (word ++ [b])
  end.
Definition split_whitespace (s : str) : list str := split_marked (mark_spaces s 0) [].
Definition contains_whitespace (s : str) : bool := existsb snd (mark_spaces s 0).

(** [str::parse::<u64>()] and [parse::<i32>()] *)
Definition parse_unsigned (maximum : Z) (s : str) : option Z :=
  let digits := match s with b :: rest => if b =? 43 then rest else s | [] => [] end in
  if negb (bool_decide (digits = [])) && forallb is_ascii_digit digits then parse_digits_max maximum digits else None.
Definition parse_i32 (s : str) : option Z :=
  match s with
  | 45 :: digits => if negb (bool_decide (digits = [])) && forallb is_ascii_digit digits then Z.opp <$> parse_digits_max 2147483648 digits else None
  | _ => parse_unsigned 2147483647 s
  end.

(** [to_ascii_lowercase] *)
Definition to_ascii_lowercase (s : str) : str := map (fun b => if (65 <=? b) && (b <=? 90) then b + 32 else b) s.

(** [str::trim_end] *)
Definition trim_end (s : str) : str := map fst (rev (drop_spaces (rev (mark_spaces s 0)))).
