(* ===== verification/Interaction.v ===== *)
(** * Interaction: programs that ask their environment, and what can be said of their runs

    The broker and the session supervisor act on a world the model does not hold.
    Each has its type of actions and the type of each action's reply; a program is
    a tree of actions and of what is done with each reply.  The replies are
    arbitrary: a theorem about every [run] of a program holds whatever the world
    says.  [wp] is the weakest precondition of a program over the history of its
    actions. *)
From S2P Require Import Prelude.

Inductive interaction {Action : Type} (reply : Action → Type) (A : Type) : Type :=
| Return (a : A)
| Perform (action : Action) (k : reply action → interaction reply A).
Arguments Return {Action reply A} _.
Arguments Perform {Action reply A} _ _.

Record Event {Action : Type} (reply : Action → Type) := { did : Action; got : reply did }.
Arguments did {Action reply} _.
Arguments got {Action reply} _.

Section Interaction.
Context {Action : Type} {reply : Action → Type}.

Fixpoint bind_interaction {A B} (m : interaction reply A) (f : A → interaction reply B) : interaction reply B :=
  match m with
  | Return a => f a
  | Perform action k => Perform action (fun r => bind_interaction (k r) f)
  end.

(** ** Runs *)
Definition Environment : Type := list (Event reply) → ∀ a : Action, reply a.

Fixpoint run {A} (env : Environment) (history : list (Event reply)) (m : interaction reply A) : A * list (Event reply) :=
  match m with
  | Return a => (a, history)
  | Perform action k => let r := env history action in run env (history ++ [{| did := action; got := r |}]) (k r)
  end.

(** What a program guarantees of its result and of the history it leaves. *)
Fixpoint wp {A} (m : interaction reply A) (Q : A → list (Event reply) → Prop) (history : list (Event reply)) : Prop :=
  match m with
  | Return a => Q a history
  | Perform action k => ∀ r : reply action, wp (k r) Q (history ++ [{| did := action; got := r |}])
  end.

Lemma wp_run {A} (m : interaction reply A) Q env history : wp m Q history → Q (run env history m).1 (run env history m).2.
Proof. revert history. induction m as [a|action k IH]; intros history Hwp; [done|]. apply IH, Hwp. Qed.

Lemma wp_mono {A} (m : interaction reply A) (Q Q' : A → list (Event reply) → Prop) history :
  wp m Q history → (∀ a h, Q a h → Q' a h) → wp m Q' history.
Proof. intros Hwp HQ. revert history Hwp. induction m as [a|action k IH]; intros history Hwp; [by apply HQ|]. intros r. apply IH, Hwp. Qed.

Lemma wp_bind_interaction {A B} (m : interaction reply A) (f : A → interaction reply B) Q history :
  wp m (fun a h => wp (f a) Q h) history → wp (bind_interaction m f) Q history.
Proof. revert history. induction m as [a|action k IH]; intros history Hwp; [done|]. intros r. apply IH, Hwp. Qed.

(** A history only grows. *)
Lemma wp_extends {A} (m : interaction reply A) Q h : wp m Q h → (∀ a, Logic.inhabited (reply a)) → ∃ a h', h `prefix_of` h' ∧ Q a h'.
Proof.
  revert h. induction m as [a|action k IH]; intros h Hwp Hsome; [by exists a, h|].
  destruct (Hsome action) as [r]. destruct (IH r _ (Hwp r) Hsome) as (a & h' & Hpre & HQ). exists a, h'. split; [|done].
  etrans; [|exact Hpre]. by eexists.
Qed.
End Interaction.
Arguments Environment {Action} reply.
