(* ===== verification/Refusals.v ===== *)
(** * Refusals: the backend's refusals of a turn (src/protocol/engine/served_turn_refusals.rs)

    The client declares each refusal once, in a table of a file that the reviewed
    patch writes; the build reads the table out of the patch, in its own shape
    and no other.  What it reads is the list of [ServedTurnRefusal]s that the
    certifier takes as an argument (module Sse).  [declares] is the reference:
    the table as the rows it consists of. *)
From S2P Require Import Prelude Number Utf8 BTree Json JsonTree Schema Stream Usage Generation Sse.

Definition FILE : str := lit "packages/core/src/core/generation-refusal.ts".
Definition OPEN : str := lit "export const SERVED_TURN_REFUSALS = [".
Definition CLOSE : str := lit "] as const;".
Definition ROW_OPEN : str := lit "  {".
Definition ROW_CLOSE : str := lit "  },".
Definition WIRE_TYPE : str := lit "    wireType: ".
Definition RECORDED_NAME : str := lit "    recordedName: ".

(** ** Text *)

(** [s.match_indices(p)]: where the occurrences of a nonempty text start, none
    overlapping the one before. *)
Fixpoint match_indices (p s : str) (at_ skip : nat) : list nat :=
  match s with
  | [] => []
  | _ :: rest =>
      match skip with
      | S skip => match_indices p rest (S at_) skip
      | O => if starts_with p s then at_ :: match_indices p rest (S at_) (length p - 1) else match_indices p rest (S at_) 0
      end
  end.

(** [s.find(p)] *)
Fixpoint find_text (p s : str) : option nat :=
  if starts_with p s then Some 0%nat
  else match s with [] => None | _ :: s => S <$> find_text p s end.

(** [s.lines()]: without their line endings, and no line after the last LF. *)
Definition strip_cr (line : str) : str := default line (strip_suffix [13] line).
Definition text_lines (s : str) : list str :=
  let pieces := split_on 10 s in
  map strip_cr (removelast pieces) ++ match List.last pieces [] with [] => [] | rest => [rest] end.

(** [u8::is_ascii_alphanumeric] *)
Definition is_ascii_alphanumeric (b : Z) : bool :=
  is_ascii_digit b || ((65 <=? b) && (b <=? 90)) || ((97 <=? b) && (b <=? 122)).

(** ** The reader *)
Abbreviation reading A := (result str A).
Definition misread {A} (what : string) : reading A := Err (FILE ++ lit ": SERVED_TURN_REFUSALS " ++ lit what).

(** The lines the patch leaves of the file: what its hunks keep and add. *)
Definition hunk_step (st : bool * list str) (line : str) : bool * list str :=
  let '(in_hunk, lines) := st in
  if starts_with (lit "@@ ") line then (true, lines)
  else if in_hunk then
    match (match strip_prefix (lit "+") line with Some kept => Some kept | None => strip_prefix (lit " ") line end) with
    | Some kept => (in_hunk, lines ++ [kept])
    | None => (in_hunk, lines)
    end
  else (in_hunk, lines).

Definition patched_lines (patch : str) : reading (list str) :=
  let header := lit "diff --git a/" ++ FILE ++ lit " b/" ++ FILE ++ [10] in
  let starts := List.filter (fun at_ => (at_ =? 0)%nat || bool_decide (patch !! (at_ - 1)%nat = Some 10)) (match_indices header patch 0 0) in
  match starts with
  | [start] =>
      let section := drop (start + length header) patch in
      let section := match find_text (10 :: lit "diff --git ") section with Some end_ => take end_ section | None => section end in
      Ok (fold_left hunk_step (text_lines section) (false, [])).2
  | _ => Err (lit "the reviewed client patch writes " ++ FILE ++ lit " " ++ show_Z (Z.of_nat (length starts))
                ++ lit " times, where the client declares the backend's refusals of a turn once")
  end.

(** One quoted name of letters and digits. *)
Definition quoted_name (value : str) : option str :=
  value ← strip_prefix (lit "'") value;
  name ← strip_suffix (lit "',") value;
  if negb (bool_decide (name = [])) && forallb is_ascii_alphanumeric name then Some name else None.

(** A key's line puts its name into the key's slot, once. *)
Definition read_slot (key line : str) (slot : option str) : reading (option str) :=
  match strip_prefix key line with
  | None => Ok slot
  | Some value =>
      match quoted_name value with
      | None => misread "declares a line that is not one quoted name"
      | Some name =>
          match slot with
          | Some _ => Err (FILE ++ lit ": a row of SERVED_TURN_REFUSALS declares a key twice")
          | None => Ok (Some name)
          end
      end
  end.

(** A row repeats a name that an earlier row has. *)
Fixpoint names_twice (before rows : list (str * str)) : bool :=
  match rows with
  | [] => false
  | row :: rows =>
      existsb (fun earlier => bool_decide (earlier.1 = row.1) || bool_decide (earlier.2 = row.2)) before || names_twice (before ++ [row]) rows
  end.

Definition close_table (rows : list (str * str)) (row : option (option str * option str)) : reading (list (str * str)) :=
  if bool_decide (row ≠ None) then misread "closes inside a row"
  else if bool_decide (rows = []) then misread "declares no refusal"
  else if names_twice [] rows then misread "names a refusal twice"
  else Ok rows.

Fixpoint read_rows (lines : list str) (rows : list (str * str)) (row : option (option str * option str)) : reading (list (str * str)) :=
  match lines with
  | [] => misread "is never closed"
  | line :: lines =>
      if decide (line = CLOSE) then close_table rows row
      else if decide (line = ROW_OPEN) then
        match row with
        | Some _ => misread "opens a row inside a row"
        | None => read_rows lines rows (Some (None, None))
        end
      else if decide (line = ROW_CLOSE) then
        match row with
        | Some (Some wire, Some recorded) => read_rows lines (rows ++ [(wire, recorded)]) None
        | _ => Err (FILE ++ lit ": a row of SERVED_TURN_REFUSALS lacks its wireType or its recordedName")
        end
      else
        match row with
        | None => misread "holds a line outside its rows"
        | Some (wire, recorded) =>
            wire ← read_slot WIRE_TYPE line wire;
            recorded ← read_slot RECORDED_NAME line recorded;
            read_rows lines rows (Some (wire, recorded))
        end
  end.

(** [(0..lines.len()).filter(|at| lines[*at] == OPEN)] *)
Fixpoint opens_at (lines : list str) (at_ : nat) : list nat :=
  match lines with
  | [] => []
  | line :: lines => if decide (line = OPEN) then at_ :: opens_at lines (S at_) else opens_at lines (S at_)
  end.

(** Each refusal's wire type and recorded name, in declared order. *)
Definition read (patch : str) : reading (list (str * str)) :=
  lines ← patched_lines patch;
  match opens_at lines 0 with
  | [open] => read_rows (drop (S open) lines) [] None
  | opens => Err (FILE ++ lit " must open SERVED_TURN_REFUSALS once; it does " ++ show_Z (Z.of_nat (length opens)) ++ lit " times")
  end.

(** What the certifier is built with. *)
Definition served_turn_refusals (rows : list (str * str)) : list ServedTurnRefusal :=
  map (fun row => {| wire_type := row.1; recorded_name := row.2 |}) rows.

(** ** The reference *)

(** One row's lines: whatever they are, exactly one declares the wire type and
    exactly one the recorded name. *)
Definition is_name (name : str) : Prop := name ≠ [] ∧ forallb is_ascii_alphanumeric name = true.
Definition key_line (key name : str) : str := key ++ lit "'" ++ name ++ lit "',".
Record declares (body : list str) (row : str * str) : Prop := {
  dc_lines : Forall (fun line => line ≠ CLOSE ∧ line ≠ ROW_OPEN ∧ line ≠ ROW_CLOSE) body;
  dc_wire : List.filter (starts_with WIRE_TYPE) body = [key_line WIRE_TYPE row.1];
  dc_recorded : List.filter (starts_with RECORDED_NAME) body = [key_line RECORDED_NAME row.2];
  dc_names : is_name row.1 ∧ is_name row.2;
}.
Definition row_lines (body : list str) : list str := ROW_OPEN :: body ++ [ROW_CLOSE].

(** ** Names and slots *)
Lemma quoted_name_Some value name : quoted_name value = Some name ↔ value = lit "'" ++ name ++ lit "'," ∧ is_name name.
Proof.
  unfold quoted_name, is_name. split.
  - intros (v & ->%strip_prefix_Some & (n & ->%strip_suffix_Some & Hn)%bind_Some)%bind_Some.
    destruct (bool_decide_reflect (n = [])); [done|]. simpl in Hn. destruct (forallb _ n) eqn:Hall; [|done]. injection Hn as <-. done.
  - intros (-> & Hne & Hall). rewrite (proj2 (strip_prefix_Some _ _ _) eq_refl). cbn [mbind option_bind].
    rewrite (proj2 (strip_suffix_Some _ _ _) eq_refl). cbn [mbind option_bind]. by rewrite bool_decide_false, Hall.
Qed.

Lemma starts_with_app p s : starts_with p (p ++ s) = true.
Proof. unfold starts_with. by rewrite take_app_length, bool_decide_true. Qed.

Lemma read_slot_ok key line slot slot' :
  read_slot key line slot = Ok slot' ↔
  (starts_with key line = false ∧ slot' = slot) ∨ (∃ name, line = key_line key name ∧ is_name name ∧ slot = None ∧ slot' = Some name).
Proof.
  unfold read_slot, key_line. split.
  - destruct (strip_prefix key line) as [value|] eqn:Hp.
    + apply strip_prefix_Some in Hp as ->. destruct (quoted_name value) as [name|] eqn:Hq; [|done]. apply quoted_name_Some in Hq as [-> Hn].
      destruct slot; [done|]. intros [= <-]. right. by exists name.
    + intros [= <-]. left. split; [|done]. unfold strip_prefix in Hp. by destruct (starts_with key line).
  - intros [[Hs ->]|(name & -> & Hn & -> & ->)]; [unfold strip_prefix; by rewrite Hs|].
    rewrite (proj2 (strip_prefix_Some _ _ _) eq_refl). by rewrite (proj2 (quoted_name_Some _ _) (conj eq_refl Hn)).
Qed.

(** What is left to declare of a key, when its slot holds what was declared. *)
Definition slot_rest (key : str) (slot : option str) (name : str) (body : list str) : Prop :=
  match slot with
  | Some n => n = name ∧ is_name name ∧ List.filter (starts_with key) body = []
  | None => is_name name ∧ List.filter (starts_with key) body = [key_line key name]
  end.

Lemma slot_rest_cons key line slot name body : match slot with Some n => is_name n | None => True end →
  slot_rest key slot name (line :: body) ↔ ∃ slot', read_slot key line slot = Ok slot' ∧ match slot' with Some n => is_name n | None => True end ∧ slot_rest key slot' name body.
Proof.
  intros Hslot. unfold slot_rest. cbn [List.filter]. destruct (starts_with key line) eqn:Hs.
  - split.
    + destruct slot as [n|]; [by intros (_ & _ & ?)|]. intros (Hn & [= -> Hrest]). exists (Some name). split; [|done].
      apply read_slot_ok. right. by exists name.
    + intros (slot' & [[? _]|(n & -> & Hn & -> & ->)]%read_slot_ok & _ & Hrest); [congruence|]. destruct Hrest as (-> & ? & ->). done.
  - split.
    + intros Hrest. exists slot. split; [apply read_slot_ok; by left|]. done.
    + intros (slot' & [[_ ->]|(n & -> & _)]%read_slot_ok & _ & Hrest); [done|]. unfold key_line in Hs. by rewrite starts_with_app in Hs.
Qed.

Lemma names_twice_false before rows : (NoDup before.*1 ∧ NoDup before.*2) →
  names_twice before rows = false ↔ NoDup (before ++ rows).*1 ∧ NoDup (before ++ rows).*2.
Proof.
  revert before. induction rows as [|row rows IH]; intros before Hb; [by rewrite app_nil_r|]. cbn [names_twice].
  assert (Hrow : existsb (fun earlier => bool_decide (earlier.1 = row.1) || bool_decide (earlier.2 = row.2)) before = false ↔
    row.1 ∉ before.*1 ∧ row.2 ∉ before.*2).
  { rewrite <- not_true_iff_false, existsb_exists. split.
    - intros Hn. split; intros (earlier & Heq & Hin)%list_elem_of_fmap; apply Hn; exists earlier; (split; [by apply list_elem_of_In|]);
        apply orb_true_iff; [left|right]; by apply bool_decide_eq_true.
    - intros [H1 H2] (earlier & Hin%list_elem_of_In & [E%bool_decide_eq_true|E%bool_decide_eq_true]%orb_true_iff).
      + apply H1. rewrite <- E. by apply list_elem_of_fmap_2.
      + apply H2. rewrite <- E. by apply list_elem_of_fmap_2. }
  rewrite orb_false_iff, Hrow. rewrite (cons_middle row before rows), app_assoc. split.
  - intros [[H1 H2] Hrest]. apply (IH (before ++ [row])); [|done]. rewrite !fmap_app. simpl. rewrite !NoDup_app. destruct Hb. split_and!; (done || apply NoDup_singleton || set_solver).
  - intros Hall. assert (Hsnoc : NoDup (before ++ [row]).*1 ∧ NoDup (before ++ [row]).*2).
    { rewrite fmap_app, (fmap_app snd) in Hall. destruct Hall as [Ha%NoDup_app Hb'%NoDup_app]. tauto. }
    split; [|by apply (IH (before ++ [row]))]. rewrite !fmap_app in Hsnoc. simpl in Hsnoc.
    destruct Hsnoc as [(_ & H1 & _)%NoDup_app (_ & H2 & _)%NoDup_app]. set_solver.
Qed.

(** ** Rows *)
Definition closed (rows : list (str * str)) : Prop := rows ≠ [] ∧ NoDup rows.*1 ∧ NoDup rows.*2.
Definition plain_line (line : str) : Prop := line ≠ CLOSE ∧ line ≠ ROW_OPEN ∧ line ≠ ROW_CLOSE.
Definition slots_ok (row : option (option str * option str)) : Prop :=
  match row with
  | Some (wire, recorded) => match wire with Some n => is_name n | None => True end ∧ match recorded with Some n => is_name n | None => True end
  | None => True
  end.

(** What lines, from within a row or between rows, still declare. *)
Definition remaining (lines : list str) (row : option (option str * option str)) (more : list (str * str)) : Prop :=
  ∃ bodies rest,
    match row with
    | None => lines = concat (map row_lines bodies) ++ CLOSE :: rest ∧ Forall2 declares bodies more
    | Some (wire, recorded) => ∃ body row1 more', more = row1 :: more' ∧
        lines = body ++ ROW_CLOSE :: concat (map row_lines bodies) ++ CLOSE :: rest ∧ Forall plain_line body ∧
        slot_rest WIRE_TYPE wire row1.1 body ∧ slot_rest RECORDED_NAME recorded row1.2 body ∧ Forall2 declares bodies more'
    end.

Lemma declares_open body row : declares body row ↔ Forall plain_line body ∧ slot_rest WIRE_TYPE None row.1 body ∧ slot_rest RECORDED_NAME None row.2 body.
Proof. split; [intros [? ? ? [? ?]]; by split_and!|intros (? & [? ?] & ? & ?); by constructor]. Qed.

Lemma remaining_nil row more : ¬ remaining [] row more.
Proof. intros (bodies & rest & Hrow). destruct row as [[w r]|]; [destruct Hrow as (body & ? & ? & _ & E & _)|destruct Hrow as [E _]]; by destruct (app_cons_not_nil _ _ _ E). Qed.

Lemma remaining_close lines row more : remaining (CLOSE :: lines) row more ↔ row = None ∧ more = [].
Proof.
  split.
  - intros (bodies & rest & Hrow). destruct row as [[w r]|].
    + destruct Hrow as (body & ? & ? & _ & E & Hplain & _). destruct body as [|line body]; [done|]. injection E as <- _.
      apply Forall_cons in Hplain as [(? & _) _]. done.
    + destruct Hrow as [E Hall]. destruct bodies as [|body bodies]; [by inversion Hall|done].
  - intros [-> ->]. by exists [], lines.
Qed.

Lemma remaining_open lines row more :
  remaining (ROW_OPEN :: lines) row more ↔ row = None ∧ remaining lines (Some (None, None)) more.
Proof.
  split.
  - intros (bodies & rest & Hrow). destruct row as [[w r]|].
    + destruct Hrow as (body & ? & ? & _ & E & Hplain & _). destruct body as [|line body]; [done|]. injection E as <- _.
      apply Forall_cons in Hplain as [(_ & ? & _) _]. done.
    + destruct Hrow as [E Hall]. destruct bodies as [|body bodies]; [done|]. cbn in E. injection E as ->.
      apply Forall2_cons_inv_l in Hall as (row1 & more' & (Hp & Hw & Hr)%declares_open & Hall & ->). split; [done|].
      exists bodies, rest, body, row1, more'. split_and!; try done. by rewrite <- !app_assoc.
  - intros (-> & bodies & rest & body & row1 & more' & -> & -> & Hp & Hw & Hr & Hall). exists (body :: bodies), rest.
    split; [cbn; by rewrite <- !app_assoc|]. constructor; [by apply declares_open|done].
Qed.

Lemma remaining_row_close lines row more :
  remaining (ROW_CLOSE :: lines) row more ↔ ∃ wire recorded more', row = Some (Some wire, Some recorded) ∧ is_name wire ∧ is_name recorded ∧
    more = (wire, recorded) :: more' ∧ remaining lines None more'.
Proof.
  split.
  - intros (bodies & rest & Hrow). destruct row as [[w r]|].
    + destruct Hrow as (body & [wire recorded] & more' & -> & E & Hplain & Hw & Hr & Hall). destruct body as [|line body].
      * injection E as ->. destruct w as [w|]; [|by destruct Hw]. destruct r as [r|]; [|by destruct Hr].
        destruct Hw as (-> & ? & _), Hr as (-> & ? & _). exists wire, recorded, more'. split_and!; try done. by exists bodies, rest.
      * injection E as <- _. apply Forall_cons in Hplain as [(_ & _ & ?) _]. done.
    + destruct Hrow as [E _]. destruct bodies; done.
  - intros (wire & recorded & more' & -> & Hw & Hr & -> & bodies & rest & -> & Hall). exists bodies, rest, [], (wire, recorded), more'. by split_and!.
Qed.

Lemma remaining_line line lines row more : plain_line line → slots_ok row →
  remaining (line :: lines) row more ↔ ∃ wire recorded wire' recorded', row = Some (wire, recorded) ∧ read_slot WIRE_TYPE line wire = Ok wire' ∧
    read_slot RECORDED_NAME line recorded = Ok recorded' ∧ slots_ok (Some (wire', recorded')) ∧ remaining lines (Some (wire', recorded')) more.
Proof.
  intros Hplain Hok. split.
  - intros (bodies & rest & Hrow). destruct row as [[w r]|].
    + destruct Hrow as (body & row1 & more' & -> & E & Hall & Hw & Hr & Hrest). destruct Hok as [Hokw Hokr]. destruct body as [|l body].
      { injection E as -> _. by destruct Hplain as (_ & _ & ?). }
      injection E as <- ->. apply Forall_cons in Hall as [_ Hall]. apply slot_rest_cons in Hw as (w' & Hw & Hokw' & Hsw); [|done].
      apply slot_rest_cons in Hr as (r' & Hr & Hokr' & Hsr); [|done]. exists w, r, w', r'. split_and!; try done.
      by exists bodies, rest, body, row1, more'.
    + destruct Hrow as [E _]. destruct bodies; simpl in E; injection E as -> _; by destruct Hplain as (? & ? & ?).
  - intros (w & r & w' & r' & -> & Hw & Hr & [Hokw' Hokr'] & bodies & rest & body & row1 & more' & -> & -> & Hall & Hsw & Hsr & Hrest).
    destruct Hok as [Hokw Hokr]. exists bodies, rest, (line :: body), row1, more'. split_and!; try done; [by constructor| |].
    + apply slot_rest_cons; [done|]. by exists w'.
    + apply slot_rest_cons; [done|]. by exists r'.
Qed.

Lemma close_table_ok rows row result : close_table rows row = Ok result ↔ row = None ∧ result = rows ∧ closed rows.
Proof.
  unfold close_table, closed. destruct row as [slots|]; [by rewrite bool_decide_true; [split; [done|intros [? _]]|]|].
  rewrite (bool_decide_false (None ≠ None)) by (intros E; by apply E). destruct (bool_decide_reflect (rows = [])) as [->|Hne]; [split; [done|by intros (_ & _ & ? & _)]|].
  pose proof (names_twice_false [] rows ltac:(split; constructor)) as Hnames. simpl in Hnames. destruct (names_twice [] rows).
  - split; [done|]. intros (_ & _ & _ & Hdup). discriminate (proj2 Hnames Hdup).
  - split; [intros [= <-]; split_and!; try done; by apply Hnames|by intros (_ & -> & _)].
Qed.

Lemma read_rows_spec lines : ∀ rows row result, slots_ok row →
  read_rows lines rows row = Ok result ↔ ∃ more, result = rows ++ more ∧ closed result ∧ remaining lines row more.
Proof.
  induction lines as [|line lines IH]; intros rows row result Hok; cbn [read_rows].
  { split; [done|]. intros (more & _ & _ & Hr). by destruct (remaining_nil row more). }
  destruct (decide (line = CLOSE)) as [->|Hclose].
  { rewrite close_table_ok. setoid_rewrite remaining_close. split.
    - intros (-> & -> & ?). exists []. by rewrite app_nil_r.
    - intros (more & -> & Hc & -> & ->). rewrite app_nil_r in *. done. }
  destruct (decide (line = ROW_OPEN)) as [->|Hopen].
  { setoid_rewrite remaining_open. destruct row as [slots|]; [split; [done|by intros (? & _ & _ & ? & _)]|]. rewrite IH by done. naive_solver. }
  destruct (decide (line = ROW_CLOSE)) as [->|Hrow_close].
  { setoid_rewrite remaining_row_close. destruct row as [[[w|] [r|]]|]; try (split; [done|]; by intros (? & _ & _ & ? & ? & ? & ? & _)).
    rewrite IH by done. destruct Hok as [Hw Hr]. split.
    - intros (more & -> & Hc & Hm). exists ((w, r) :: more). rewrite <- app_assoc in *. split_and!; try done. by exists w, r, more.
    - intros (more & -> & Hc & ? & ? & more' & [= <- <-] & _ & _ & -> & Hm). exists more'. by rewrite <- app_assoc. }
  setoid_rewrite (remaining_line line lines row); [|done..].
  destruct row as [[w r]|]; [|split; [done|by intros (? & _ & _ & ? & ? & ? & ? & ? & _)]].
  split.
  - intros (w' & Hw & (r' & Hr & Hread)%bind_ok_inv)%bind_ok_inv. destruct Hok as [Hokw Hokr].
    assert (Hok' : slots_ok (Some (w', r'))).
    { split; [apply read_slot_ok in Hw as [[_ ->]|(n & _ & ? & _ & ->)]|apply read_slot_ok in Hr as [[_ ->]|(n & _ & ? & _ & ->)]]; done. }
    apply IH in Hread as (more & Hres & Hc & Hm); [|done]. exists more. split_and!; [done..|]. by exists w, r, w', r'.
  - intros (more & Hres & Hc & ? & ? & w' & r' & [= <- <-] & -> & Hr & Hok' & Hm). cbn [mbind result_bind]. rewrite Hr. cbn [mbind result_bind].
    apply IH; [done|]. by exists more.
Qed.

Lemma opens_at_nil lines : ∀ n, opens_at lines n = [] ↔ OPEN ∉ lines.
Proof.
  induction lines as [|line lines IH]; intros n; [split; [intros _; apply not_elem_of_nil|done]|]. cbn [opens_at].
  destruct (decide (line = OPEN)) as [->|Hne]; [split; [done|set_solver]|]. rewrite IH. set_solver.
Qed.
Lemma opens_at_single lines : ∀ n i, opens_at lines n = [i] ↔
  ∃ before after, lines = before ++ OPEN :: after ∧ (length before + n)%nat = i ∧ OPEN ∉ before ∧ OPEN ∉ after.
Proof.
  induction lines as [|line lines IH]; intros n i; [split; [done|intros (before & ? & E & _); by destruct before]|]. cbn [opens_at].
  destruct (decide (line = OPEN)) as [->|Hne].
  - split.
    + intros [= <- Hrest%opens_at_nil]. exists [], lines. split_and!; [done|done|apply not_elem_of_nil|done].
    + intros (before & after & E & <- & Hb & Ha). destruct before as [|l before]; [|injection E as <- _; set_solver]. injection E as ->.
      f_equal. by apply opens_at_nil.
  - rewrite IH. split.
    + intros (before & after & -> & <- & Hb & Ha). exists (line :: before), after. split_and!; [done|simpl; lia|set_solver|done].
    + intros (before & after & E & <- & Hb & Ha). destruct before as [|l before]; [by injection E as ->|]. injection E as <- ->.
      exists before, after. split_and!; [done|simpl; lia|set_solver|done].
Qed.

Lemma drop_after {A} (before : list A) x after : drop (S (length before + 0)) (before ++ x :: after) = after.
Proof. rewrite cons_middle, app_assoc. apply drop_app_length'. rewrite length_app. simpl. lia. Qed.

(** The table is read exactly.  The reader answers with rows if and only if
    the file the patch leaves opens the table once and the table is those rows:
    each its opening line, its lines -- exactly one declaring its wire type and
    exactly one its recorded name, as one quoted name of letters and digits --
    and its closing line, in order, up to the table's closing line; at least one
    row, and no wire type and no recorded name twice. *)
Theorem read_exact (patch : str) (rows : list (str * str)) :
  read patch = Ok rows ↔
  ∃ before bodies rest,
    patched_lines patch = Ok (before ++ OPEN :: concat (map row_lines bodies) ++ CLOSE :: rest) ∧
    OPEN ∉ before ∧ OPEN ∉ concat (map row_lines bodies) ++ CLOSE :: rest ∧
    Forall2 declares bodies rows ∧ rows ≠ [] ∧ NoDup rows.*1 ∧ NoDup rows.*2.
Proof.
  unfold read. destruct (patched_lines patch) as [lines|e]; cbn [mbind result_bind]; [|by split; [|intros (? & ? & ? & ? & _)]].
  split.
  - destruct (opens_at lines 0) as [|open [|]] eqn:Hf; try done. apply opens_at_single in Hf as (before & after & -> & <- & Hb & Ha).
    rewrite drop_after. rewrite read_rows_spec by done.
    intros (more & -> & Hc & bodies & rest & -> & Hall). by exists before, bodies, rest.
  - intros (before & bodies & rest & [= ->] & Hb & Ha & Hall & Hc).
    rewrite (proj2 (opens_at_single _ 0 (length before + 0))) by (eexists before, _; split_and!; [reflexivity|lia|done|done]).
    rewrite drop_after. apply read_rows_spec; [done|].
    exists rows. split_and!; [done|done|]. by exists bodies, rest.
Qed.

(** A patch of one hunk whose table has one row. *)
Definition example_patch : str :=
  lit "diff --git a/x b/x" ++ [10] ++ lit "diff --git a/" ++ FILE ++ lit " b/" ++ FILE ++ [10] ++ lit "@@ -0,0 +1,6 @@" ++ [10]
  ++ concat (map (fun line => lit "+" ++ line ++ [10]) [OPEN; ROW_OPEN; key_line WIRE_TYPE (lit "AError"); lit "    cause: 'a',"; key_line RECORDED_NAME (lit "ARefusal"); ROW_CLOSE; CLOSE]).
Example example_read : read example_patch = Ok [(lit "AError", lit "ARefusal")].
Proof. by vm_compute. Qed.
