(* ===== verification/Serde.v ===== *)
(** * Serde: serde_json's values

    The engine matches on [serde_json::Value] and builds some of its own: its
    variants are the constructors of [Json], an object being its members in
    iteration order.  Numbers, the parser and JSON pointers are the crate's own:
    the class [Serde].  From it come the views of values that the authorship
    table and the response bodies use. *)
From S2P Require Import Prelude Number Utf8 BTree Json JsonTree Schema Stream Usage Generation Authorship Sse.

Inductive Json (N : Type) :=
| JNull
| JBool (b : bool)
| JNumber (n : N)
| JString (s : str)
| JArray (items : list (Json N))
| JObject (entries : list (str * Json N)).
Arguments JNull {N}.
Arguments JBool {N} _.
Arguments JNumber {N} _.
Arguments JString {N} _.
Arguments JArray {N} _.
Arguments JObject {N} _.

Class Serde := {
  number : Type;
  number_f64 : number → option F64;
  number_u64 : number → option Z;
  number_of_u64 : Z → number;
  value_from_str : str → option (Json number);
  value_pointer : Json number → str → option (Json number);
}.

Class SerdeLaws `{Serde} : Prop := {
  number_of_u64_spec n : is_u64 n → number_u64 (number_of_u64 n) = Some n;
}.

Section Values.
Context `{Serde}.

Definition json : Type := Json number.

Fixpoint find_member (key : str) (ms : list (str * json)) : option json :=
  match ms with
  | [] => None
  | (k, v) :: ms => if decide (k = key) then Some v else find_member key ms
  end.

(** [Value::get] of a key, [as_array], [as_object], [as_str], [as_u64] *)
Definition json_get (v : json) (key : str) : option json := match v with JObject ms => find_member key ms | _ => None end.
Definition json_array (v : json) : option (list json) := match v with JArray items => Some items | _ => None end.
Definition json_object (v : json) : option (list (str * json)) := match v with JObject ms => Some ms | _ => None end.
Definition json_str (v : json) : option str := match v with JString s => Some s | _ => None end.
Definition json_u64 (v : json) : option Z := match v with JNumber n => number_u64 n | _ => None end.
Definition json_f64 (v : json) : option F64 := match v with JNumber n => number_f64 n | _ => None end.

Global Instance serde_citations : SerdeJson := {|
  sj_value := json; sj_from_str := value_from_str; sj_pointer := value_pointer; sj_get := json_get; sj_as_str := json_str;
|}.

Global Instance serde_sdk : SdkJson := {|
  sdk_value := json; sdk_from_str := value_from_str;
  sdk_view := fun v =>
    match v with
    | JNull => VNull | JBool b => VBool b | JNumber n => VNumber (number_f64 n) | JString s => VString s
    | JArray _ => VArray | JObject _ => VObject
    end;
  sdk_get := json_get;
  sdk_thread_event := fun event v => JObject [(lit "event", JString event); (lit "data", v)];
|}.

(** The size of a value: the measure of the loops that walk one. *)
Fixpoint json_nodes (v : json) : nat :=
  match v with
  | JArray items => S (sum_list_with json_nodes items)
  | JObject ms => S (sum_list_with (fun m => json_nodes m.2) ms)
  | _ => 1
  end.

Lemma json_nodes_pos v : (1 <= json_nodes v)%nat.
Proof. destruct v; simpl; lia. Qed.
End Values.
