(* ===== verification/Docker.v ===== *)
(** * Docker: talking to the daemon, and reading what it says (src/bin/docker_broker.rs, src/container_image.rs)

    What the broker does outside itself is an [Action]; its programs are
    interactions over these actions, so a theorem about every run of one holds
    whatever the daemon, the file system and the clock say.  Then the checks on an
    inspected container, which are pure. *)
From S2P Require Import Prelude Number Utf8 BTree Json JsonTree Schema Stream Usage Generation Authorship Sse Text Interaction Refusals Serde.

(** ** Interactions *)

(** What the pinned command line client ends with: the bytes of its two streams,
    in the reads they came in, and its exit code, if it was not killed. *)
Inductive CliOutcome :=
| CliFailed (error : str)
| CliTimedOut
| CliFinished (stdout stderr : list str) (code : option Z).

(** What following a container's log brings: lines, up to the end of the log, an
    error or the deadline; then the follower's own end. *)
Inductive FollowEnd := LogEnded | LogError (error : str) | DeadlinePassed.
Inductive FollowStatus := FollowSuccess | FollowCode (code : Z) | FollowKilled | FollowLost (error : str).
Record Followed := { fl_lines : list str; fl_end : FollowEnd; fl_status : FollowStatus }.

Record Metadata := { md_symlink : bool; md_dir : bool; md_file : bool; md_uid : Z; md_gid : Z; md_mode : Z }.

Inductive Action :=
| DockerCli (argv : list str) (timeout : option Z)
| FollowLogs (argv : list str) (timeout : option Z)
| SymlinkMetadata (path : str)
| Canonicalize (path : str)
| ElapsedSeconds
| LockMutations
| UnlockMutations.

Definition reply (a : Action) : Type :=
  match a with
  | DockerCli _ _ => CliOutcome
  | FollowLogs _ _ => result str Followed
  | SymlinkMetadata _ => result str Metadata
  | Canonicalize _ => result str str
  | ElapsedSeconds => Z
  | LockMutations | UnlockMutations => unit
  end.

Abbreviation interaction := (Interaction.interaction reply).
Abbreviation Event := (Interaction.Event reply).
Abbreviation Environment := (Interaction.Environment reply).

(** A fallible program: [?] is the bind of its monad, and [settle] goes on with
    the result whether it is an error or not. *)
Definition broker (A : Type) : Type := interaction (result str A).
Definition settle {A B} (m : broker A) (f : result str A → broker B) : broker B := bind_interaction m f.
Global Instance broker_ret : MRet broker := fun A a => Return (Ok a).
Global Instance broker_bind : MBind broker := fun A B f m =>
  bind_interaction m (fun r => match r with Ok a => f a | Err e => Return (Err e) end).
Definition perform (action : Action) : broker (reply action) := Perform action (fun r => Return (Ok r)).
Definition pure {A} (r : result str A) : broker A := Return r.
Definition fail {A} (message : str) : broker A := Return (Err message).

Lemma wp_settle {A B} (m : broker A) (f : result str A → broker B) Q history :
  wp m (fun r h => wp (f r) Q h) history → wp (settle m f) Q history.
Proof. apply wp_bind_interaction. Qed.

Lemma wp_bind {A B} (m : broker A) (f : A → broker B) Q history :
  wp m (fun r h => match r with Ok a => wp (f a) Q h | Err e => Q (Err e) h end) history → wp (m ≫= f) Q history.
Proof. intros Hwp. apply wp_bind_interaction. eapply wp_mono; [exact Hwp|]. by intros [a|e] h Hr. Qed.

Lemma wp_pure_bind {A B} (r : result str A) (f : A → broker B) Q history :
  (∀ a, r = Ok a → wp (f a) Q history) → (∀ e, r = Err e → Q (Err e) history) → wp (pure r ≫= f) Q history.
Proof. intros Hok Herr. destruct r as [a|e]; [by apply Hok|by apply Herr]. Qed.

(** ** The pinned client *)
Definition OUTPUT_LIMIT : Z := 4194304.
Definition DOCKER_TIMEOUT : option Z := Some 120.
Definition STOP_GRACE : Z := 60.
(** [logs --since]: the absolute Unix epoch. *)
Definition DOCKER_LOG_REPLAY_FROM_EPOCH : str := lit "0".

Record BoundedBytes := { kept : str; exceeded : bool }.

(** The whole pipe is drained, and no more than the limit is kept. *)
Definition drain_step (limit : Z) (b : BoundedBytes) (chunk : str) : BoundedBytes :=
  let remaining := Z.max 0 (limit - Z.of_nat (length (kept b))) in
  let retained := Z.min (Z.of_nat (length chunk)) remaining in
  {| kept := kept b ++ take (Z.to_nat retained) chunk;
     exceeded := exceeded b || negb (retained =? Z.of_nat (length chunk)) |}.
Definition drain_bounded (limit : Z) (chunks : list str) : BoundedBytes :=
  fold_left (drain_step limit) chunks {| kept := []; exceeded := false |}.

Record CommandResult := { code : Z; stdout : str; stderr : str }.

Definition read_outcome (label : str) (outcome : CliOutcome) : result str CommandResult :=
  match outcome with
  | CliFailed error => Err (label ++ lit ": cannot spawn pinned Docker CLI: " ++ error)
  | CliTimedOut => Err (label ++ lit ": Docker operation exceeded its deadline")
  | CliFinished out err code =>
      let out := drain_bounded OUTPUT_LIMIT out in
      let err := drain_bounded OUTPUT_LIMIT err in
      if exceeded out || exceeded err then Err (label ++ lit ": Docker output exceeded the per-stream " ++ show_Z OUTPUT_LIMIT ++ lit "-byte limit")
      else Ok {| code := default (-1) code; stdout := from_utf8_lossy (kept out); stderr := from_utf8_lossy (kept err) |}
  end.

Definition docker_status (argv : list str) (label : str) (timeout : option Z) : broker CommandResult :=
  outcome ← perform (DockerCli argv timeout);
  pure (read_outcome label outcome).

Definition docker (argv : list str) (label : str) (timeout : option Z) : broker str :=
  result ← docker_status argv label timeout;
  if negb (code result =? 0) then fail (label ++ lit ": Docker exited " ++ show_Z (code result))
  else pure (Ok (stdout result)).

Definition stop_args (name : str) : list str := [lit "stop"; lit "--timeout"; show_Z STOP_GRACE; name].

(** Whether the stop took its whole grace. *)
Definition stop_within_grace (name label : str) : broker bool :=
  _ ← docker (stop_args name) label DOCKER_TIMEOUT;
  elapsed ← perform ElapsedSeconds;
  pure (Ok (STOP_GRACE <=? elapsed)).

Definition docker_log_follow_args (name : str) : list str := [lit "logs"; lit "--follow"; lit "--since"; DOCKER_LOG_REPLAY_FROM_EPOCH; name].

(** The first line that is, or starts with, what is waited for; then the
    follower's own end. *)
Definition log_match (expected : str) (exact_ : bool) (line : str) : bool :=
  if exact_ then bool_decide (line = expected) else starts_with expected line.
Definition read_followed (name expected : str) (exact_ : bool) (followed : Followed) : result str str :=
  let found :=
    match List.find (log_match expected exact_) (fl_lines followed) with
    | Some line => Ok line
    | None =>
        match fl_end followed with
        | LogEnded => Err (lit "container " ++ name ++ lit " log stream ended before required event " ++ expected)
        | LogError error => Err (lit "read log event for " ++ name ++ lit ": " ++ error)
        | DeadlinePassed => Err (lit "container " ++ name ++ lit " did not emit " ++ expected)
        end
    end in
  match fl_status followed with
  | FollowLost error => Err (lit "inspect log follower for " ++ name ++ lit ": " ++ error)
  | FollowCode code => if negb (code =? 0) then Err (lit "log follower for " ++ name ++ lit " exited unexpectedly") else found
  | FollowSuccess | FollowKilled => found
  end.
Definition wait_for_log_match (name expected : str) (timeout : option Z) (exact_ : bool) : broker str :=
  followed ← perform (FollowLogs (docker_log_follow_args name) timeout);
  followed ← pure followed;
  pure (read_followed name expected exact_ followed).

(** ** Reading an inspected object *)
Section Inspect.
Context `{Serde}.

Definition pointed_at (v : json) (pointer : string) : option json := value_pointer v (lit pointer).
Definition json_bool (v : json) : option bool := match v with JBool b => Some b | _ => None end.
Definition drift {A} (label : str) (pointer : string) : result str A := Err (label ++ lit " drift at " ++ lit pointer).
Definition MISSING : str := lit "<missing>".

Definition require_string (v : json) (pointer : string) (expected label : str) : result str unit :=
  let observed := default MISSING (pointed_at v pointer ≫= json_str) in
  if decide (observed = expected) then Ok tt else drift label pointer.
Definition require_bool (v : json) (pointer : string) (expected : bool) (label : str) : result str unit :=
  if decide (pointed_at v pointer ≫= json_bool = Some expected) then Ok tt else drift label pointer.
Definition require_u64 (v : json) (pointer : string) (expected : Z) (label : str) : result str unit :=
  if decide (pointed_at v pointer ≫= json_u64 = Some expected) then Ok tt else drift label pointer.

Definition parse_memory (value : str) : result str Z :=
  scaled ← match strip_suffix (lit "g") value with
           | Some number => Ok (number, 1073741824)
           | None =>
               match strip_suffix (lit "m") value with
               | Some number => Ok (number, 1048576)
               | None => Err (lit "unsupported compiled memory syntax")
               end
           end;
  ok_or (parse_unsigned U64_MAX scaled.1 ≫= fun n => checked_mul n scaled.2) (lit "invalid compiled memory value").

Definition require_exact_command (v : json) (pointer : string) (expected : list str) (label : str) : result str unit :=
  items ← ok_or (pointed_at v pointer ≫= json_array) (label ++ lit " is missing or not an array at " ++ lit pointer);
  observed ← traverse (fun item => ok_or (json_str item) (label ++ lit " contains a non-string value")) items;
  if decide (observed = expected) then Ok tt else drift label pointer.

Definition require_null_or_empty_array (v : json) (pointer : string) (label : str) : result str unit :=
  match pointed_at v pointer with
  | Some JNull | Some (JArray []) => Ok tt
  | _ => Err (label ++ lit " must be null or an empty array at " ++ lit pointer)
  end.
Definition require_empty_object (v : json) (pointer : string) (label : str) : result str unit :=
  match pointed_at v pointer with
  | Some (JObject []) => Ok tt
  | _ => Err (label ++ lit " must be an empty object at " ++ lit pointer)
  end.

Definition is_string (s : str) (v : json) : bool := match v with JString t => bool_decide (t = s) | _ => false end.

Definition require_hardening (v : json) (label : str) : result str unit :=
  _ ← require_string v "/AppArmorProfile" (lit "docker-default") (label ++ lit " AppArmor profile");
  _ ← require_bool v "/HostConfig/Privileged" false (label ++ lit " privileged flag");
  cap_drop ← ok_or (pointed_at v "/HostConfig/CapDrop" ≫= json_array) (label ++ lit " inspect lacks CapDrop");
  _ ← match cap_drop with
      | [item] => if is_string (lit "ALL") item then Ok tt else Err (label ++ lit " CapDrop drift")
      | _ => Err (label ++ lit " CapDrop drift")
      end;
  _ ← require_null_or_empty_array v "/HostConfig/CapAdd" (label ++ lit " CapAdd");
  _ ← require_null_or_empty_array v "/HostConfig/Devices" (label ++ lit " devices");
  _ ← require_null_or_empty_array v "/HostConfig/DeviceRequests" (label ++ lit " device requests");
  _ ← require_string v "/HostConfig/RestartPolicy/Name" (lit "no") (label ++ lit " restart policy");
  security ← ok_or (pointed_at v "/HostConfig/SecurityOpt" ≫= json_array) (label ++ lit " inspect lacks SecurityOpt");
  _ ← match security with
      | [item] =>
          if is_string (lit "no-new-privileges:true") item || is_string (lit "no-new-privileges=true") item then Ok tt
          else Err (label ++ lit " security options must contain only no-new-privileges")
      | _ => Err (label ++ lit " security options must contain only no-new-privileges")
      end;
  _ ← require_string v "/HostConfig/PidMode" [] (label ++ lit " PID namespace");
  _ ← require_string v "/HostConfig/IpcMode" (lit "private") (label ++ lit " IPC namespace");
  require_string v "/HostConfig/UTSMode" [] (label ++ lit " UTS namespace").

Record MountContract := { mc_source : str; mc_destination : str; mc_writable : bool }.

(** One observed mount: a destination not seen before, and what the contract of
    that destination says. *)
Definition find_contract (expected : list MountContract) (destination : str) : option MountContract :=
  List.find (fun c => bool_decide (mc_destination c = destination)) (rev expected).
Definition mount_step (expected : list MountContract) (label : str) (seen : gset str) (mount : json) : result str (gset str) :=
  destination ← ok_or (json_get mount (lit "Destination") ≫= json_str) (label ++ lit " mount lacks Destination");
  if decide (destination ∈ seen) then Err (label ++ lit " has duplicate mount destination")
  else
    contract ← ok_or (find_contract expected destination) (label ++ lit " has unexpected mount destination");
    let source := default MISSING (json_get mount (lit "Source") ≫= json_str) in
    let mount_type := default MISSING (json_get mount (lit "Type") ≫= json_str) in
    let writable := json_get mount (lit "RW") ≫= json_bool in
    let propagation := default MISSING (json_get mount (lit "Propagation") ≫= json_str) in
    if bool_decide (source ≠ mc_source contract) || bool_decide (mount_type ≠ lit "bind")
       || bool_decide (writable ≠ Some (mc_writable contract)) || bool_decide (propagation ≠ lit "rprivate")
    then Err (label ++ lit " mount drift at " ++ destination)
    else Ok ({[ destination ]} ∪ seen).
Definition require_exact_mounts (v : json) (expected : list MountContract) (label : str) : result str unit :=
  mounts ← ok_or (json_get v (lit "Mounts") ≫= json_array) (label ++ lit " inspect lacks Mounts");
  if negb (length mounts =? length expected)%nat then Err (label ++ lit " mount count drift")
  else if negb (size (list_to_set (map mc_destination expected) : gset str) =? length expected)%nat
  then Err (label ++ lit " compiled mount contract has duplicate destinations")
  else _ ← fold_result (mount_step expected label) ∅ mounts; Ok tt.

(** *** container_image.rs *)
Record ContainerImage := { manifest_digest : str; config_digest : str }.

(** A [sha256:] identity in lower case. *)
Definition is_lower_hex (b : Z) : bool := is_ascii_digit b || ((97 <=? b) && (b <=? 102)).
Definition is_image_id (value : str) : bool :=
  (length value =? 71)%nat && starts_with (lit "sha256:") value && forallb is_lower_hex (drop 7 value).

Definition digest_at (v : json) (pointer : string) (label : str) : result str str :=
  observed ← ok_or (pointed_at v pointer ≫= json_str) (label ++ lit " lacks image identity " ++ lit pointer);
  if negb (is_image_id observed) then Err (label ++ lit " has invalid image identity " ++ lit pointer) else Ok observed.
Definition read_container_image (v : json) (label : str) : result str ContainerImage :=
  if decide (pointed_at v "/ImageManifestDescriptor/mediaType" ≫= json_str = Some (lit "application/vnd.oci.image.manifest.v1+json")) then
    manifest ← digest_at v "/ImageManifestDescriptor/digest" label;
    config ← digest_at v "/Image" label;
    configured ← digest_at v "/Config/Image" label;
    if decide (configured = manifest) then Ok {| manifest_digest := manifest; config_digest := config |}
    else Err (label ++ lit " was not launched using its immutable manifest")
  else Err (label ++ lit " lacks the supported OCI container manifest descriptor").
Definition require_container_image (v : json) (expected label : str) : result str ContainerImage :=
  observed ← read_container_image v label;
  if decide (manifest_digest observed = expected) then Ok observed else Err (label ++ lit " manifest differs from its pin").

(** *** procfs route tables *)
Definition ROUTE_HEADER : list str :=
  map lit ["Iface"; "Destination"; "Gateway"; "Flags"; "RefCnt"; "Use"; "Metric"; "Mask"; "MTU"; "Window"; "IRTT"]%string.
Definition is_blank (line : str) : bool := bool_decide (trim line = []).
Definition validate_empty_ipv4_route_table (table label : str) : result str unit :=
  match text_lines table with
  | [] => Err (label ++ lit " IPv4 procfs route table is missing its header")
  | header :: lines =>
      if decide (split_whitespace header = ROUTE_HEADER) then
        if forallb is_blank lines then Ok tt else Err (label ++ lit " network-none namespace has a forbidden IPv4 route")
      else Err (label ++ lit " IPv4 procfs route header drift")
  end.
Definition validate_empty_ipv6_route_table (table label : str) : result str unit :=
  if forallb is_blank (text_lines table) then Ok tt else Err (label ++ lit " network-none namespace has a forbidden IPv6 route").
End Inspect.

(** ** Exact mounts *)
Section Mounts.
Context `{Serde}.

(** An observed mount that is as its contract says. *)
Definition mounted_as (mount : json) (c : MountContract) : Prop :=
  json_get mount (lit "Destination") ≫= json_str = Some (mc_destination c)
  ∧ default MISSING (json_get mount (lit "Source") ≫= json_str) = mc_source c
  ∧ default MISSING (json_get mount (lit "Type") ≫= json_str) = lit "bind"
  ∧ json_get mount (lit "RW") ≫= json_bool = Some (mc_writable c)
  ∧ default MISSING (json_get mount (lit "Propagation") ≫= json_str) = lit "rprivate".

Lemma find_contract_in expected destination c : find_contract expected destination = Some c → c ∈ expected ∧ mc_destination c = destination.
Proof.
  unfold find_contract. intros Hfind. apply find_some in Hfind as [Hin Heq]. to_prop.
  split; [|done]. apply list_elem_of_In. by apply in_rev.
Qed.

Lemma find_contract_unique expected c :
  NoDup (map mc_destination expected) → c ∈ expected → find_contract expected (mc_destination c) = Some c.
Proof.
  intros Hnodup Hin. destruct (find_contract expected (mc_destination c)) as [c'|] eqn:Hfind.
  - apply find_contract_in in Hfind as [Hin' Heq]. f_equal.
    apply list_elem_of_lookup in Hin as [i Hi]. apply list_elem_of_lookup in Hin' as [j Hj].
    assert (i = j) as ->; [|congruence].
    eapply (NoDup_lookup _ i j (mc_destination c) Hnodup); rewrite list_lookup_fmap; [by rewrite Hi|by rewrite Hj; cbn; rewrite Heq].
  - exfalso. eapply find_none in Hfind; [|by apply in_rev; rewrite rev_involutive; apply list_elem_of_In]. by rewrite bool_decide_true in Hfind.
Qed.

Lemma mount_step_ok expected label seen mount seen' :
  mount_step expected label seen mount = Ok seen' ↔
  ∃ c, find_contract expected (mc_destination c) = Some c ∧ mounted_as mount c ∧ mc_destination c ∉ seen ∧ seen' = {[ mc_destination c ]} ∪ seen.
Proof.
  unfold mount_step, mounted_as. split.
  - intros Hstep. inv_ok. case_decide as Hseen; [done|]. inv_ok. cbv zeta in Hstep.
    match type of Hstep with (if ?c then _ else _) = _ => destruct c eqn:Hdrift; [done|] end. inv_ok.
    apply find_contract_in in Hx0 as Hdest. destruct Hdest as [_ <-]. exists x0. to_prop.
    repeat match goal with H : ¬ _ ≠ _ |- _ => apply dec_stable in H end. split_and!; congruence.
  - intros (c & Hfind & (Hdest & Hsource & Htype & Hrw & Hprop) & Hseen & ->).
    rewrite Hdest. cbn [ok_or]. rewrite bind_ok, decide_False by done. rewrite Hfind. cbn [ok_or]. rewrite bind_ok. cbv zeta. rewrite Hsource, Htype, Hrw, Hprop.
    by rewrite !bool_decide_false by auto.
Qed.

Lemma mounts_fold expected label seen mounts seen' :
  fold_result (mount_step expected label) seen mounts = Ok seen' →
  ∃ chosen, Forall2 mounted_as mounts chosen ∧ chosen ⊆ expected ∧ NoDup (map mc_destination chosen)
            ∧ (∀ c, c ∈ chosen → mc_destination c ∉ seen).
Proof.
  revert seen. induction mounts as [|mount mounts IH]; intros seen Hfold.
  - exists []. split_and!; [done|set_solver|constructor|set_solver].
  - cbn in Hfold. inv_ok. apply mount_step_ok in Hx as (c & Hfind & Hmount & Hseen & ->).
    apply IH in Hfold as (chosen & Hall & Hsub & Hnodup & Hfresh). exists (c :: chosen). split_and!.
    + by constructor.
    + apply find_contract_in in Hfind as [Hin _]. set_solver.
    + cbn. constructor; [|done]. intros Hin. apply list_elem_of_fmap in Hin as (c' & Heq & Hin). apply (Hfresh c' Hin). set_solver.
    + intros c' [->|Hin]%elem_of_cons; [done|]. specialize (Hfresh c' Hin). set_solver.
Qed.

Lemma fold_mounts expected label seen mounts chosen :
  NoDup (map mc_destination expected) → Forall2 mounted_as mounts chosen → chosen ⊆ expected → NoDup (map mc_destination chosen) →
  (∀ c, c ∈ chosen → mc_destination c ∉ seen) → ∃ seen', fold_result (mount_step expected label) seen mounts = Ok seen'.
Proof.
  intros Hexpected Hall. revert seen. induction Hall as [|mount c mounts chosen Hmount Hall IH]; intros seen Hsub Hnodup Hfresh; [by exists seen|].
  cbn. inversion Hnodup as [|x l Hnotin Hnodup']; subst.
  assert (Hstep : mount_step expected label seen mount = Ok ({[ mc_destination c ]} ∪ seen)).
  { apply mount_step_ok. exists c. split_and!; try done; [apply find_contract_unique; [done|set_solver]|apply Hfresh; set_solver]. }
  rewrite Hstep. cbn. apply IH; [set_solver|done|]. intros c' Hin Hbad. apply elem_of_union in Hbad as [Heq%elem_of_singleton|Hbad].
  - apply Hnotin. rewrite <- Heq. by apply list_elem_of_fmap_2.
  - eapply Hfresh; [|done]. set_solver.
Qed.

Lemma size_NoDup (l : list str) : size (list_to_set l : gset str) = length l ↔ NoDup l.
Proof.
  split; [|apply size_list_to_set]. induction l as [|x l IH]; [constructor|]. cbn. intros Hsize.
  assert (Hle : (size (list_to_set l : gset str) <= length l)%nat).
  { clear. induction l as [|x l IH]; [done|]. cbn. pose proof (size_union_alt ({[x]} : gset str) (list_to_set l)) as Hs.
    rewrite Hs, size_singleton. pose proof (subseteq_size (list_to_set l ∖ {[x]} : gset str) (list_to_set l) ltac:(set_solver)). lia. }
  destruct (decide (x ∈ l)) as [Hin|Hnot].
  - replace ({[x]} ∪ list_to_set l : gset str) with (list_to_set l : gset str) in Hsize by set_solver. lia.
  - constructor; [done|]. apply IH. rewrite size_union, size_singleton in Hsize by set_solver. lia.
Qed.

(** a container's mounts pass exactly when they are, in some order, the mounts of
    the contract and no others: each of them a private bind mount of the
    contract's source, writable only where the contract says. *)
Theorem require_exact_mounts_exact (v : json) (expected : list MountContract) (label : str) :
  require_exact_mounts v expected label = Ok tt ↔
  NoDup (map mc_destination expected)
  ∧ ∃ mounts order, json_get v (lit "Mounts") = Some (JArray mounts) ∧ order ≡ₚ expected ∧ Forall2 mounted_as mounts order.
Proof.
  unfold require_exact_mounts. split.
  - intros Hmounts. inv_ok. rename x into mounts.
    destruct (Nat.eqb_spec (length mounts) (length expected)) as [Hlen|]; [|done].
    destruct (Nat.eqb_spec (size (list_to_set (map mc_destination expected) : gset str)) (length expected)) as [Hsize|]; [|done].
    cbn [negb] in Hmounts. inv_ok. apply mounts_fold in Hx0 as (chosen & Hall & Hsub & Hnodup & _).
    assert (Hexpected : NoDup (map mc_destination expected)) by by apply size_NoDup; rewrite Hsize, length_map. split; [done|].
    exists mounts, chosen. split_and!; [|
      apply submseteq_length_Permutation; [apply NoDup_submseteq; [by eapply NoDup_fmap_1|done]|apply Forall2_length in Hall; lia]|done].
    apply bind_Some in Hx as (array & -> & Harray). destruct array; try done. by injection Harray as ->.
  - intros (Hexpected & mounts & order & Hget & Hperm & Hall). rewrite Hget. cbn [ok_or mbind option_bind json_array result_bind].
    assert (Hlen : length mounts = length expected) by by etrans; [by eapply Forall2_length|by apply Permutation_length].
    assert (Hsize : size (list_to_set (map mc_destination expected) : gset str) = length expected) by by rewrite (proj2 (size_NoDup _) Hexpected), length_map.
    do 2 (match goal with |- context [(?a =? ?b)%nat] => replace (a =? b)%nat with true by (symmetry; by apply Nat.eqb_eq) end; cbn [negb]).
    destruct (fold_mounts expected label ∅ mounts order) as [seen' ->]; [done|done| |change (NoDup (mc_destination <$> order)); by rewrite Hperm|set_solver|done].
    intros c Hin. by rewrite <- Hperm.
Qed.
End Mounts.

(** ** Bounded output *)
Lemma drain_step_exact (limit : Z) (before chunk : str) :
  0 <= limit →
  drain_step limit {| kept := take (Z.to_nat limit) before; exceeded := limit <? Z.of_nat (length before) |} chunk
  = {| kept := take (Z.to_nat limit) (before ++ chunk); exceeded := limit <? Z.of_nat (length (before ++ chunk)) |}.
Proof.
  intros Hlimit. unfold drain_step. cbn [kept exceeded]. cbv zeta. rewrite length_take, length_app, take_app. f_equal.
  - f_equal. destruct (le_lt_dec (length chunk) (Z.to_nat limit - length before)); [by rewrite !take_ge by lia|f_equal; lia].
  - set (minimum := Z.min _ _).
    destruct (Z.ltb_spec limit (Z.of_nat (length before))), (Z.eqb_spec minimum (Z.of_nat (length chunk))),
      (Z.ltb_spec limit (Z.of_nat (length before + length chunk))); unfold minimum in *; try done; lia.
Qed.

(** C40: whatever comes down a pipe and in whatever pieces, it is read to its end; what
    is kept is its first [limit] bytes, and exceeding the limit is noticed exactly
    when there were more. *)
Theorem drain_bounded_exact (limit : Z) (chunks : list str) :
  0 <= limit →
  drain_bounded limit chunks = {| kept := take (Z.to_nat limit) (concat chunks); exceeded := limit <? Z.of_nat (length (concat chunks)) |}.
Proof.
  intros Hlimit. unfold drain_bounded.
  assert (Hgen : ∀ before, fold_left (drain_step limit) chunks {| kept := take (Z.to_nat limit) before; exceeded := limit <? Z.of_nat (length before) |}
    = {| kept := take (Z.to_nat limit) (before ++ concat chunks); exceeded := limit <? Z.of_nat (length (before ++ concat chunks)) |}).
  { induction chunks as [|chunk chunks IH]; intros before; cbn [fold_left concat]; [by rewrite app_nil_r|].
    rewrite drain_step_exact, IH by done. by rewrite <- app_assoc. }
  specialize (Hgen []). cbn [app length] in Hgen. rewrite take_nil in Hgen. cbn in Hgen. rewrite <- Hgen. f_equal. f_equal. symmetry. apply Z.ltb_ge. lia.
Qed.

Lemma drain_bounded_exact_witness :
  drain_bounded 3 [lit "ab"; lit "cd"] = {| kept := lit "abc"; exceeded := true |}.
Proof. exact (drain_bounded_exact 3 [lit "ab"; lit "cd"] ltac:(lia)). Defined.
