(* ===== verification/Broker.v ===== *)
(** * Broker: the narrow Docker authority (src/bin/docker_broker.rs)

    The broker is the one process that talks to the Docker daemon.  A connection
    carries one request out of ten; the session's operations are interactions
    (module Docker).  Whatever the daemon replies, every command that changes
    anything is one of a few shapes, is issued under the mutation lock, and is
    about a container that the broker has just proved to be its own. *)
From S2P Require Import Prelude Number Utf8 BTree Json JsonTree Schema Stream Usage Generation Authorship Sse Text Interaction Refusals Serde Docker.

(** ** The compiled policy *)
Record BrokerPolicy := {
  bk_image_tag : str; bk_memory : str; bk_memory_swap : str; bk_pids_limit : Z; bk_uid : Z; bk_gid : Z; bk_docker_socket : str;
}.
Record AgentPolicy := {
  ag_image_tag : str; ag_image_id : str; ag_memory : str; ag_memory_swap : str; ag_pids_limit : Z; ag_ready_event_prefix : str; ag_sandbox : str;
}.
Record RelayPolicy := {
  rl_image_tag : str; rl_image_id : str; rl_sandbox : str; rl_memory : str; rl_memory_swap : str; rl_pids_limit : Z; rl_role : str;
}.
Record CapturePolicy := {
  cp_image_tag : str; cp_image_id : str; cp_capture_id : str; cp_memory : str; cp_memory_swap : str; cp_pids_limit : Z;
  cp_ready_event : str; cp_complete_event_prefix : str;
}.
Record Policy := {
  schema_version : Z; policy_id : str; profile : str; broker_container_name : str; broker_policy : BrokerPolicy;
  broker_socket_path : str; runtime_root : str; state_dir : str; model_socket_dir : str; service_container_name : str;
  backend_container_name : str; backend_cache_volume : str; backend_cache_mount : str; backend_cache_owner_mode : str;
  model_bridge_container_name : str; model_ingress_container_name : str;
  agent_policy : AgentPolicy; relay_policy : RelayPolicy; capture_policy : CapturePolicy;
}.

(** [std::path::Path]: a path's components, the root first when it is absolute. *)
Definition is_absolute (path : str) : bool := starts_with (lit "/") path.
Definition components (path : str) : list str :=
  let pieces := List.filter (fun c => negb (bool_decide (c = []))) (split_on 47 path) in
  if is_absolute path then lit "/" :: List.filter (fun c => negb (bool_decide (c = lit "."))) pieces
  else match pieces with
       | first :: rest => first :: List.filter (fun c => negb (bool_decide (c = lit "."))) rest
       | [] => []
       end.
Definition path_starts_with (path base : str) : bool := bool_decide (take (length (components base)) (components path) = components base).
Definition path_file_name (path : str) : option str :=
  match List.last (components path) [] with
  | [] => None
  | name => if bool_decide (name = lit "/") || bool_decide (name = lit "..") || bool_decide (name = lit ".") then None else Some name
  end.
(** [Path::parent], on the path's bytes in reverse: neither a final separator nor a
    final [.] is a component of its own. *)
Fixpoint trim_end_rev (r : str) : str :=
  match r with
  | 47 :: ((_ :: _) as rest) => trim_end_rev rest
  | 46 :: ((47 :: _) as rest) => trim_end_rev rest
  | _ => r
  end.
Fixpoint drop_component (r : str) : str := match r with b :: rest => if b =? 47 then r else drop_component rest | [] => [] end.
Definition path_parent (path : str) : option str :=
  match trim_end_rev (rev path) with
  | [] | [47] => None
  | r => Some (rev (trim_end_rev (drop_component r)))
  end.
(** [Path::join] *)
Definition path_join (a b : str) : str :=
  if is_absolute b then b else if bool_decide (a = []) || ends_with (lit "/") a then a ++ b else a ++ lit "/" ++ b.

Definition ready_prefix : str := lit "AGENT_READY model=qwen3.8-27b-nvfp4-k8v4 context=262144 network=loopback-only token_count=".

Definition identity_ok (p : Policy) : bool :=
  (schema_version p =? 1) && bool_decide (policy_id p = lit "qwen38-docker-broker-v1")
  && bool_decide (profile p = lit "qwen38-agent-service-v3") && bool_decide (broker_container_name p = lit "qwen38-docker-broker")
  && bool_decide (service_container_name p = lit "qwen38-agent-service") && bool_decide (backend_container_name p = lit "qwen38-agent-native")
  && bool_decide (backend_cache_volume p = lit "qwen38-vllm-cache-socket-isolated-nonroot-vision-agent-v21")
  && bool_decide (backend_cache_mount p = lit "/home/vllm/.cache/vllm") && bool_decide (backend_cache_owner_mode p = lit "2000:0:770")
  && bool_decide (model_bridge_container_name p = lit "qwen38-model-bridge") && bool_decide (model_ingress_container_name p = lit "qwen38-model-ingress").
Definition paths_ok (p : Policy) : bool :=
  is_absolute (runtime_root p) && path_starts_with (broker_socket_path p) (runtime_root p) && path_starts_with (state_dir p) (runtime_root p)
  && path_starts_with (model_socket_dir p) (runtime_root p) && bool_decide (path_file_name (broker_socket_path p) = Some (lit "broker.sock")).
Definition broker_ok (b : BrokerPolicy) : bool :=
  bool_decide (bk_image_tag b = lit "qwen38-docker-broker:1.1.0") && bool_decide (bk_memory b = lit "128m") && bool_decide (bk_memory_swap b = lit "128m")
  && (bk_pids_limit b =? 64) && (bk_uid b =? 1000) && (bk_gid b =? 984) && bool_decide (bk_docker_socket b = lit "/var/run/docker.sock").
Definition agent_ok (a : AgentPolicy) : bool :=
  bool_decide (ag_image_tag a = lit "qwen38-agent:0.21.12-b965d5f8-v9") && is_image_id (ag_image_id a) && bool_decide (ag_memory a = lit "32g")
  && bool_decide (ag_memory_swap a = lit "32g") && (ag_pids_limit a =? 4096) && bool_decide (ag_ready_event_prefix a = ready_prefix)
  && bool_decide (ag_sandbox a = lit "landlock-fs-v4-write-roots-v1+private-devpts-rw-v1+output-unmounted-v1").
Definition relay_ok (r : RelayPolicy) : bool :=
  bool_decide (rl_image_tag r = lit "qwen38-fixed-relay:1.0.0") && is_image_id (rl_image_id r) && bool_decide (rl_memory r = lit "32m")
  && bool_decide (rl_memory_swap r = lit "32m") && (rl_pids_limit r =? 32) && bool_decide (rl_sandbox r = lit "landlock-net-v4+seccomp-socket-v2")
  && bool_decide (rl_role r = lit "agent-model").
Definition capture_ok (c : CapturePolicy) : bool :=
  bool_decide (cp_image_tag c = lit "qwen38-session-capture:1.0.0") && is_image_id (cp_image_id c) && bool_decide (cp_capture_id c = lit "unix-stream-capture-v1")
  && bool_decide (cp_memory c = lit "32m") && bool_decide (cp_memory_swap c = lit "32m") && (cp_pids_limit c =? 32)
  && bool_decide (cp_ready_event c = lit "CAPTURE_READY capture=unix-stream-capture-v1 events=/streams/events.sock stderr=/streams/stderr.sock")
  && bool_decide (cp_complete_event_prefix c = lit "CAPTURE_COMPLETE capture=unix-stream-capture-v1 events_bytes=").
Definition validate_policy (p : Policy) : result str unit :=
  if negb (identity_ok p) then Err (lit "broker identity/profile/container contract drift")
  else if negb (paths_ok p) then Err (lit "broker runtime/socket/state/model-socket paths are not exact descendants")
  else if negb (broker_ok (broker_policy p) && agent_ok (agent_policy p) && relay_ok (relay_policy p) && capture_ok (capture_policy p))
  then Err (lit "broker image/resource/session policy drift")
  else Ok tt.

(** ** Requests *)
Inductive SessionOp :=
| CreateSession | ProveSessionQuiescent | SessionLogs | WaitSession | WaitAgentReady | WaitCaptureComplete | StopSession | RemoveSession.
Inductive Request := Preflight | SweepOrphans | OnSession (op : SessionOp) (session_id : str).

Definition session_op_wire (op : SessionOp) : string :=
  match op with
  | CreateSession => "create_session" | ProveSessionQuiescent => "prove_session_quiescent" | SessionLogs => "session_logs"
  | WaitSession => "wait_session" | WaitAgentReady => "wait_agent_ready" | WaitCaptureComplete => "wait_capture_complete"
  | StopSession => "stop_session" | RemoveSession => "remove_session"
  end.
Definition session_ops : list SessionOp :=
  [CreateSession; ProveSessionQuiescent; SessionLogs; WaitSession; WaitAgentReady; WaitCaptureComplete; StopSession; RemoveSession].

Definition validate_session_id (value : str) : result str unit :=
  suffix ← ok_or (strip_prefix (lit "s-") value) (lit "session ID must start with s-");
  if negb (length suffix =? 64)%nat || negb (forallb is_lower_hex suffix)
  then Err (lit "session ID must be s- followed by 64 lowercase hexadecimal characters")
  else Ok tt.

Definition requires_mutation_lock (r : Request) : bool :=
  match r with
  | SweepOrphans | OnSession CreateSession _ | OnSession StopSession _ | OnSession RemoveSession _ => true
  | _ => false
  end.

Definition REQUEST_LIMIT : Z := 65536.

Section Requests.
Context `{Serde}.

(** [serde_json::from_slice] *)
Definition from_slice (bytes : str) : option json := match from_utf8 bytes with Ok _ => value_from_str bytes | Err _ => None end.

(** The operation of a request, and whether it names a session. *)
Definition request_of (operation : str) (session : option json) : result str Request :=
  if decide (operation = lit "preflight") then Ok Preflight
  else if decide (operation = lit "sweep_orphans") then Ok SweepOrphans
  else
    op ← ok_or (List.find (fun op => bool_decide (lit (session_op_wire op) = operation)) session_ops) (lit "unsupported broker operation");
    session_id ← ok_or (session ≫= json_str) (lit "invalid broker request");
    Ok (OnSession op session_id).
Definition expected_fields (operation : str) : option (gset str) :=
  if decide (operation = lit "preflight" ∨ operation = lit "sweep_orphans") then Some {[ lit "op" ]}
  else if existsb (fun op => bool_decide (lit (session_op_wire op) = operation)) session_ops then Some {[ lit "op"; lit "session_id" ]}
  else None.

Definition parse_request (bytes : str) : result str Request :=
  if bool_decide (bytes = []) || negb (ends_with [10] bytes) || bool_decide (13 ∈ bytes)
  then Err (lit "broker request must be one terminal-LF JSON record without CR bytes")
  else if bool_decide (10 ∈ take (length bytes - 1) bytes) then Err (lit "broker connection may carry exactly one request record")
  else
    value ← ok_or (from_slice bytes) (lit "invalid broker request");
    object ← ok_or (json_object value) (lit "broker request must be a JSON object");
    operation ← ok_or (find_member (lit "op") object ≫= json_str) (lit "broker request op must be a string");
    expected ← ok_or (expected_fields operation) (lit "unsupported broker operation");
    if decide ((list_to_set object.*1 : gset str) = expected) then request_of operation (find_member (lit "session_id") object)
    else Err (lit "broker operation fields differ").
End Requests.

(** ** Sessions *)
Inductive Component := AgentComponent | SessionRelay | SessionCapture.
Definition component_label (c : Component) : str :=
  lit match c with AgentComponent => "agent" | SessionRelay => "session-model-relay" | SessionCapture => "session-capture" end.

Definition agent_name (session_id : str) : str := lit "agent-" ++ session_id.
Definition relay_name (session_id : str) : str := lit "agent-model-" ++ session_id.
Definition capture_name (session_id : str) : str := lit "agent-capture-" ++ session_id.
Definition component_name (c : Component) (session_id : str) : str :=
  match c with AgentComponent => agent_name session_id | SessionRelay => relay_name session_id | SessionCapture => capture_name session_id end.
Definition component_image (p : Policy) (c : Component) : str :=
  match c with
  | AgentComponent => ag_image_id (agent_policy p)
  | SessionRelay => rl_image_id (relay_policy p)
  | SessionCapture => cp_image_id (capture_policy p)
  end.

Definition session_path (p : Policy) (session_id leaf : str) : str :=
  path_join (path_join (path_join (state_dir p) (lit "sessions")) session_id) leaf.
Definition session_bind (p : Policy) (session_id : str) (leaf destination : string) (readonly : bool) : str :=
  lit "type=bind,src=" ++ session_path p session_id (lit leaf) ++ lit ",dst=" ++ lit destination ++ (if readonly then lit ",readonly" else []).

(** What the three containers of a session have in common on their command line. *)
Definition container_args (p : Policy) (c : Component) (session_id network : str) (workdir : list str) (memory memory_swap : str) (pids : Z) : list str :=
  [lit "run"; lit "-d"; lit "--name"; component_name c session_id;
   lit "--label"; lit "agent_service.session=" ++ session_id;
   lit "--label"; lit "agent_service.profile=" ++ profile p;
   lit "--label"; lit "agent_service.component=" ++ component_label c;
   lit "--network"; network; lit "--restart"; lit "no"; lit "--user"; lit "1000:1000"]
  ++ workdir
  ++ [lit "--read-only"; lit "--cap-drop"; lit "ALL"; lit "--security-opt"; lit "no-new-privileges:true";
      lit "--memory"; memory; lit "--memory-swap"; memory_swap; lit "--pids-limit"; show_Z pids].
Definition agent_run_args (p : Policy) (session_id : str) : list str :=
  let a := agent_policy p in
  let mount leaf destination readonly := session_bind p session_id leaf destination readonly in
  container_args p AgentComponent session_id (lit "none") [lit "--workdir"; lit "/workspace"] (ag_memory a) (ag_memory_swap a) (ag_pids_limit a)
  ++ [lit "--mount"; mount "staged" "/workspace" false; lit "--mount"; mount "artifacts" "/artifacts" false;
      lit "--mount"; mount "control" "/run/agent" true; lit "--mount"; mount "streams" "/streams" true;
      lit "--mount"; mount "scratch" "/tmp" false; lit "--mount"; mount "runtime" "/qwen-runtime" false;
      ag_image_id a].
Definition capture_run_args (p : Policy) (session_id agent_id : str) : list str :=
  let c := capture_policy p in
  container_args p SessionCapture session_id (lit "container:" ++ agent_id) [] (cp_memory c) (cp_memory_swap c) (cp_pids_limit c)
  ++ [lit "--mount"; session_bind p session_id "streams" "/streams" false; lit "--mount"; session_bind p session_id "output" "/output" false;
      cp_image_id c].
Definition relay_run_args (p : Policy) (session_id agent_id : str) : list str :=
  let r := relay_policy p in
  container_args p SessionRelay session_id (lit "container:" ++ agent_id) [] (rl_memory r) (rl_memory_swap r) (rl_pids_limit r)
  ++ [lit "--mount"; lit "type=bind,src=" ++ model_socket_dir p ++ lit ",dst=/sock,readonly"; rl_image_id r; rl_role r].

(** ** Ownership *)
Section Ownership.
Context `{Serde}.

(** The checks that make an inspected container one of the broker's own. *)
Definition require_owner (p : Policy) (session_id : str) (c : Component) (name : str) (v : json) : result str unit :=
  _ ← require_string v "/Config/Labels/agent_service.session" session_id (lit "session label");
  _ ← require_string v "/Config/Labels/agent_service.profile" (profile p) (lit "profile label");
  _ ← require_string v "/Config/Labels/agent_service.component" (component_label c) (lit "component label");
  _ ← require_string v "/Name" (lit "/" ++ name) (lit "owned container name");
  _ ← require_container_image v (component_image p c) (lit "owned container"); Ok tt.

(** What an inspection says of an object that may be absent. *)
Definition read_inspected (name : str) (result_ : CommandResult) : result str (option json) :=
  if (code result_ =? 1) && contains (lit "no such object") (to_ascii_lowercase (stderr result_)) then Ok None
  else if negb (code result_ =? 0) then Err (lit "inspect " ++ name ++ lit " failed with " ++ show_Z (code result_))
  else
    values ← ok_or (value_from_str (stdout result_) ≫= json_array) (lit "inspect " ++ name ++ lit " returned invalid JSON");
    match values with
    | [v] => Ok (Some v)
    | _ => Err (lit "inspect " ++ name ++ lit " returned " ++ show_Z (Z.of_nat (length values)) ++ lit " objects")
    end.

Definition inspect_optional (p : Policy) (session_id : str) (c : Component) (name : str) : broker (option json) :=
  result_ ← docker_status [lit "inspect"; name] (lit "inspect_owned") DOCKER_TIMEOUT;
  found ← pure (read_inspected name result_);
  match found with
  | None => pure (Ok None)
  | Some v => _ ← pure (require_owner p session_id c name v); pure (Ok (Some v))
  end.
Definition require_owned (p : Policy) (session_id : str) (c : Component) (name : str) : broker json :=
  found ← inspect_optional p session_id c name;
  pure (ok_or found (lit "required owned container is absent: " ++ name)).

Definition inspect_json (object label : str) : broker json :=
  output ← docker [lit "inspect"; object] (lit "inspect_" ++ label) DOCKER_TIMEOUT;
  pure (ok_or (value_from_str output) (lit "inspect " ++ label ++ lit " invalid JSON")).
Definition inspect_single (object label : str) : broker json :=
  v ← inspect_json object label;
  pure match json_array v with
       | Some [v] => Ok v
       | _ => Err (label ++ lit " inspect must contain exactly one object")
       end.

Definition optional_running (v : option json) (label : str) : result str bool :=
  match v with
  | None => Ok false
  | Some v => ok_or (pointed_at v "/State/Running" ≫= json_bool) (label ++ lit " inspect lacks boolean State.Running")
  end.

(** ** Teardown *)
Definition stop_owned_if_running (p : Policy) (session_id : str) (c : Component) : broker unit :=
  let name := component_name c session_id in
  found ← inspect_optional p session_id c name;
  match found with
  | None => pure (Ok tt)
  | Some v =>
      _ ← (if decide (pointed_at v "/State/Running" ≫= json_bool = Some true) then stop_within_grace name (lit "stop_owned") else pure (Ok false));
      stopped ← require_owned p session_id c name;
      pure (require_bool stopped "/State/Running" false (lit "owned container stopped state"))
  end.
Definition remove_stopped_owned (p : Policy) (session_id : str) (c : Component) : broker unit :=
  let name := component_name c session_id in
  found ← inspect_optional p session_id c name;
  match found with
  | None => pure (Ok tt)
  | Some v =>
      _ ← pure (require_bool v "/State/Running" false (lit "owned container stopped state before removal"));
      _ ← docker [lit "container"; lit "rm"; name] (lit "remove_owned") DOCKER_TIMEOUT;
      pure (Ok tt)
  end.

(** [join(sep)] *)
Fixpoint join_text (sep : str) (texts : list str) : str :=
  match texts with
  | [] => []
  | [text] => text
  | text :: texts => text ++ sep ++ join_text sep texts
  end.

(** Teardown is ordered but not short-circuiting: each step's failure is kept. *)
Definition teardown_steps (p : Policy) (session_id : str) : list (string * broker unit) :=
  [("stop exact agent", stop_owned_if_running p session_id AgentComponent);
   ("stop exact session relay", stop_owned_if_running p session_id SessionRelay);
   ("stop exact session capture", stop_owned_if_running p session_id SessionCapture);
   ("remove exact session relay", remove_stopped_owned p session_id SessionRelay);
   ("remove exact session capture", remove_stopped_owned p session_id SessionCapture);
   ("remove exact agent", remove_stopped_owned p session_id AgentComponent)]%string.
Fixpoint run_teardown (steps : list (string * broker unit)) (diagnostics : list str) : broker (list str) :=
  match steps with
  | [] => pure (Ok diagnostics)
  | (label, step) :: steps =>
      settle step (fun r =>
        run_teardown steps (match r with Ok _ => diagnostics | Err error => diagnostics ++ [lit label ++ lit ": " ++ error] end))
  end.
Definition remove_session (p : Policy) (session_id : str) : broker unit :=
  diagnostics ← run_teardown (teardown_steps p session_id) [];
  match diagnostics with
  | [] => pure (Ok tt)
  | _ => fail (lit "session teardown was incomplete: " ++ join_text (lit "; ") diagnostics)
  end.
End Ownership.

(** ** Verification of a created container *)
Section Sessions.
Context `{Serde}.

Definition session_mount (p : Policy) (session_id : str) (leaf destination : string) (writable : bool) : MountContract :=
  {| mc_source := session_path p session_id (lit leaf); mc_destination := lit destination; mc_writable := writable |}.
Definition agent_mounts (p : Policy) (session_id : str) : list MountContract :=
  [session_mount p session_id "scratch" "/tmp" true; session_mount p session_id "runtime" "/qwen-runtime" true;
   session_mount p session_id "staged" "/workspace" true; session_mount p session_id "artifacts" "/artifacts" true;
   session_mount p session_id "control" "/run/agent" false; session_mount p session_id "streams" "/streams" false].
Definition capture_mounts (p : Policy) (session_id : str) : list MountContract :=
  [session_mount p session_id "streams" "/streams" true; session_mount p session_id "output" "/output" true].
Definition relay_mounts (p : Policy) : list MountContract :=
  [{| mc_source := model_socket_dir p; mc_destination := lit "/sock"; mc_writable := false |}].

Definition require_limits (v : json) (label : str) (memory memory_swap : str) (pids : Z) : result str unit :=
  memory ← parse_memory memory;
  _ ← require_u64 v "/HostConfig/Memory" memory (label ++ lit " memory limit");
  memory_swap ← parse_memory memory_swap;
  _ ← require_u64 v "/HostConfig/MemorySwap" memory_swap (label ++ lit " memory+swap limit");
  require_u64 v "/HostConfig/PidsLimit" pids (label ++ lit " PID limit").

Definition require_no_tmpfs (v : json) : result str unit :=
  match pointed_at v "/HostConfig/Tmpfs" with
  | None | Some JNull | Some (JObject []) => Ok tt
  | _ => Err (lit "agent tmpfs drift: expected none")
  end.

(** What the agent's inspection must say. *)
Definition check_agent (p : Policy) (session_id : str) (v : json) : result str unit :=
  let a := agent_policy p in
  _ ← require_bool v "/State/Running" true (lit "agent running state");
  _ ← require_container_image v (ag_image_id a) (lit "agent");
  _ ← require_string v "/Config/User" (lit "1000:1000") (lit "agent user");
  _ ← require_string v "/Config/WorkingDir" (lit "/workspace") (lit "agent working directory");
  _ ← require_exact_command v "/Config/Entrypoint" [lit "/opt/agent/run_agent.sh"] (lit "agent entrypoint");
  _ ← require_null_or_empty_array v "/Config/Cmd" (lit "agent command");
  _ ← require_string v "/HostConfig/NetworkMode" (lit "none") (lit "agent network");
  _ ← require_bool v "/HostConfig/ReadonlyRootfs" true (lit "agent root");
  _ ← require_limits v (lit "agent") (ag_memory a) (ag_memory_swap a) (ag_pids_limit a);
  _ ← require_hardening v (lit "agent");
  _ ← require_empty_object v "/HostConfig/PortBindings" (lit "agent port bindings");
  _ ← require_no_tmpfs v;
  require_exact_mounts v (agent_mounts p session_id) (lit "agent").

(** Its only link is the loopback. *)
Definition check_links (links : str) : result str unit :=
  links ← ok_or (value_from_str links) (lit "agent ip -j link output is invalid JSON");
  match json_array links with
  | Some [link] =>
      _ ← require_string link "/ifname" (lit "lo") (lit "agent link name");
      _ ← require_string link "/link_type" (lit "loopback") (lit "agent link type");
      _ ← require_string link "/address" (lit "00:00:00:00:00:00") (lit "agent loopback address");
      _ ← require_u64 link "/mtu" 65536 (lit "agent loopback MTU");
      match json_get link (lit "flags") with
      | Some (JArray [a; b; c]) =>
          if is_string (lit "LOOPBACK") a && is_string (lit "UP") b && is_string (lit "LOWER_UP") c then Ok tt else Err (lit "agent loopback flags drift")
      | _ => Err (lit "agent loopback flags drift")
      end
  | _ => Err (lit "agent must expose exactly one loopback link")
  end.
Definition no_routes (family : string) (routes : str) : result str unit :=
  if decide (trim routes = []) then Ok tt else Err (lit "agent has forbidden " ++ lit family ++ lit " routes").

Definition verify_agent (p : Policy) (session_id : str) : broker unit :=
  let name := agent_name session_id in
  v ← require_owned p session_id AgentComponent name;
  _ ← pure (check_agent p session_id v);
  routes ← docker [lit "exec"; name; lit "ip"; lit "-4"; lit "route"; lit "show"] (lit "agent_routes") DOCKER_TIMEOUT;
  _ ← pure (no_routes "IPv4" routes);
  routes_v6 ← docker [lit "exec"; name; lit "ip"; lit "-6"; lit "route"; lit "show"] (lit "agent_ipv6_routes") DOCKER_TIMEOUT;
  _ ← pure (no_routes "IPv6" routes_v6);
  links ← docker [lit "exec"; name; lit "ip"; lit "-j"; lit "link"; lit "show"] (lit "agent_links") DOCKER_TIMEOUT;
  pure (check_links links).

Definition check_capture (p : Policy) (session_id agent_id : str) (v : json) : result str unit :=
  let c := capture_policy p in
  _ ← require_bool v "/State/Running" true (lit "session capture running state");
  _ ← require_container_image v (cp_image_id c) (lit "capture");
  _ ← require_string v "/Config/User" (lit "1000:1000") (lit "capture user");
  _ ← require_exact_command v "/Config/Entrypoint" [lit "/session_capture"] (lit "capture entrypoint");
  _ ← require_null_or_empty_array v "/Config/Cmd" (lit "capture command");
  _ ← require_string v "/HostConfig/NetworkMode" (lit "container:" ++ agent_id) (lit "capture network namespace");
  _ ← require_bool v "/HostConfig/ReadonlyRootfs" true (lit "capture root");
  _ ← require_limits v (lit "capture") (cp_memory c) (cp_memory_swap c) (cp_pids_limit c);
  _ ← require_hardening v (lit "session capture");
  _ ← require_string v "/Config/Labels/agent_service.capture.id" (cp_capture_id c) (lit "capture implementation label");
  _ ← require_empty_object v "/HostConfig/PortBindings" (lit "session capture port bindings");
  require_exact_mounts v (capture_mounts p session_id) (lit "session capture").
Definition verify_capture (p : Policy) (session_id agent_id : str) : broker unit :=
  v ← require_owned p session_id SessionCapture (capture_name session_id);
  pure (check_capture p session_id agent_id v).

Definition check_relay (p : Policy) (agent_id : str) (v : json) : result str unit :=
  let r := relay_policy p in
  _ ← require_bool v "/State/Running" true (lit "session relay running state");
  _ ← require_container_image v (rl_image_id r) (lit "relay");
  _ ← require_string v "/Config/User" (lit "1000:1000") (lit "relay user");
  _ ← require_exact_command v "/Config/Entrypoint" [lit "/fixed_relay"] (lit "relay entrypoint");
  _ ← require_exact_command v "/Config/Cmd" [lit "agent-model"] (lit "relay command");
  _ ← require_string v "/HostConfig/NetworkMode" (lit "container:" ++ agent_id) (lit "relay network namespace");
  _ ← require_bool v "/HostConfig/ReadonlyRootfs" true (lit "relay root");
  _ ← require_limits v (lit "relay") (rl_memory r) (rl_memory_swap r) (rl_pids_limit r);
  _ ← require_hardening v (lit "session relay");
  _ ← require_string v "/Config/Labels/agent_service.relay.sandbox" (rl_sandbox r) (lit "relay kernel sandbox label");
  _ ← require_empty_object v "/HostConfig/PortBindings" (lit "session relay port bindings");
  require_exact_mounts v (relay_mounts p) (lit "session relay").
Definition verify_relay (p : Policy) (session_id agent_id : str) : broker unit :=
  v ← require_owned p session_id SessionRelay (relay_name session_id);
  pure (check_relay p agent_id v).

(** ** The session's own tree, before anything is created *)
Definition session_directories : list (string * Z) :=
  [("staged", 493); ("artifacts", 448); ("control", 493); ("streams", 448); ("output", 448); ("scratch", 448); ("runtime", 448)]%string.
Definition session_controls : list (string * Z) :=
  [("prompt.txt", 420); ("turn-budget.json", 292); ("deliverables.json", 292); ("start-gate.lock", 384)]%string.

Definition directory_ok (mode : Z) (m : Metadata) : bool :=
  negb (md_symlink m) && md_dir m && (md_uid m =? 1000) && (Z.land (md_mode m) 511 =? mode).
Definition control_ok (mode : Z) (m : Metadata) : bool :=
  negb (md_symlink m) && md_file m && (md_uid m =? 1000) && (md_gid m =? 1000) && (Z.land (md_mode m) 511 =? mode).
Definition check_directory (p : Policy) (session_id : str) (entry : string * Z) : broker unit :=
  let path := session_path p session_id (lit entry.1) in
  metadata ← perform (SymlinkMetadata path);
  metadata ← pure (map_err (fun error => lit "cannot stat session path " ++ path ++ lit ": " ++ error) metadata);
  if negb (directory_ok entry.2 metadata) then fail (lit "session path contract drift at " ++ path)
  else
    canonical ← perform (Canonicalize path);
    canonical ← pure (map_err (fun error => lit "canonicalize " ++ path ++ lit ": " ++ error) canonical);
    if decide (canonical = path) then pure (Ok tt) else fail (lit "session path canonicalization drift: expected " ++ path).
Definition check_control (p : Policy) (session_id : str) (entry : string * Z) : broker unit :=
  let path := path_join (session_path p session_id (lit "control")) (lit entry.1) in
  metadata ← perform (SymlinkMetadata path);
  metadata ← pure (map_err (fun error => lit "cannot stat session control file " ++ path ++ lit ": " ++ error) metadata);
  if negb (control_ok entry.2 metadata) then fail (lit "session control file contract drift at " ++ path) else pure (Ok tt).
Fixpoint each {A} (f : A → broker unit) (l : list A) : broker unit :=
  match l with [] => pure (Ok tt) | x :: l => _ ← f x; each f l end.
Definition validate_session_paths (p : Policy) (session_id : str) : broker unit :=
  _ ← each (check_directory p session_id) session_directories;
  each (check_control p session_id) session_controls.

(** ** Creation *)

(** A step whose failure removes what was created. *)
Definition or_remove (p : Policy) (session_id : str) (what : string) {A} (step : broker A) : broker A :=
  settle step (fun r =>
    match r with
    | Ok a => pure (Ok a)
    | Err error => settle (remove_session p session_id) (fun _ => fail (lit what ++ lit ": " ++ error))
    end).

Definition relay_ready (role : str) : str :=
  lit "RELAY_READY role=" ++ role ++ lit " sandbox=landlock-net-v4+seccomp-socket-v2 listen=tcp:127.0.0.1:18000 target=unix:/sock/relay.sock".

(** Whether any of the session's containers exists: each is only looked for when
    none was found before it. *)
Definition any_present (p : Policy) (session_id : str) : broker bool :=
  agent ← inspect_optional p session_id AgentComponent (agent_name session_id);
  match agent with
  | Some _ => pure (Ok true)
  | None =>
      relay ← inspect_optional p session_id SessionRelay (relay_name session_id);
      match relay with
      | Some _ => pure (Ok true)
      | None =>
          capture ← inspect_optional p session_id SessionCapture (capture_name session_id);
          pure (Ok match capture with Some _ => true | None => false end)
      end
  end.

(** Once the agent is up: its capture, then its relay, each verified and ready
    before what follows. *)
Definition start_sidecars (p : Policy) (session_id agent_id : str) : broker unit :=
  _ ← docker (capture_run_args p session_id agent_id) (lit "create_session_capture") DOCKER_TIMEOUT;
  _ ← or_remove p session_id "session capture verification failed" (verify_capture p session_id agent_id);
  _ ← or_remove p session_id "session capture readiness failed"
        (wait_for_log_match (capture_name session_id) (cp_ready_event (capture_policy p)) (Some 30) true);
  _ ← or_remove p session_id "session relay start failed"
        (docker (relay_run_args p session_id agent_id) (lit "create_session_relay") DOCKER_TIMEOUT);
  _ ← or_remove p session_id "session relay verification failed" (verify_relay p session_id agent_id);
  _ ← or_remove p session_id "session relay readiness failed"
        (wait_for_log_match (relay_name session_id) (relay_ready (rl_role (relay_policy p))) (Some 30) true);
  pure (Ok tt).
Definition create_session (p : Policy) (session_id : str) : broker unit :=
  _ ← validate_session_paths p session_id;
  collision ← any_present p session_id;
  if collision : bool then fail (lit "session container collision: explicit removal is required before recreation")
  else
    _ ← docker (agent_run_args p session_id) (lit "create_agent") DOCKER_TIMEOUT;
    _ ← or_remove p session_id "agent verification failed" (verify_agent p session_id);
    agent ← inspect_single (agent_name session_id) (lit "agent_id");
    agent_id ← pure (ok_or (json_get agent (lit "Id") ≫= json_str) (lit "agent inspect lacks Id"));
    start_sidecars p session_id agent_id.

(** ** The sweep of what a crash left *)
Record Orphans := { or_relays : list str; or_agents : list str; or_captures : list str }.

Definition component_of_label (label : str) : option Component :=
  List.find (fun c => bool_decide (component_label c = label)) [AgentComponent; SessionRelay; SessionCapture].
Definition orphan_component (p : Policy) (id : str) (v : json) : result str Component :=
  session_id ← ok_or (pointed_at v "/Config/Labels/agent_service.session" ≫= json_str) (lit "orphan " ++ id ++ lit " lacks session label");
  _ ← validate_session_id session_id;
  _ ← require_string v "/Config/Labels/agent_service.profile" (profile p) (lit "orphan profile label");
  label ← ok_or (pointed_at v "/Config/Labels/agent_service.component" ≫= json_str) (lit "orphan " ++ id ++ lit " lacks component label");
  observed_name ← ok_or ((json_get v (lit "Name") ≫= json_str) ≫= strip_prefix (lit "/")) (lit "orphan " ++ id ++ lit " lacks canonical container name");
  c ← ok_or (component_of_label label) (lit "refusing orphan sweep with unrecognized owned component");
  if decide (observed_name = component_name c session_id) then
    _ ← require_container_image v (component_image p c) (lit "orphan"); (Ok c : result str Component)
  else Err (lit "refusing orphan sweep for name drift on " ++ id).
Definition add_orphan (c : Component) (id : str) (o : Orphans) : Orphans :=
  match c with
  | AgentComponent => {| or_relays := or_relays o; or_agents := or_agents o ++ [id]; or_captures := or_captures o |}
  | SessionRelay => {| or_relays := or_relays o ++ [id]; or_agents := or_agents o; or_captures := or_captures o |}
  | SessionCapture => {| or_relays := or_relays o; or_agents := or_agents o; or_captures := or_captures o ++ [id] |}
  end.
Fixpoint classify_orphans (p : Policy) (ids : list str) (o : Orphans) : broker Orphans :=
  match ids with
  | [] => pure (Ok o)
  | id :: ids =>
      v ← inspect_single id (lit "inspect_orphan");
      c ← pure (orphan_component p id v);
      classify_orphans p ids (add_orphan c id o)
  end.
Definition stop_orphan_if_running (id label : str) : broker unit :=
  v ← inspect_single id label;
  _ ← (if decide (pointed_at v "/State/Running" ≫= json_bool = Some true) then stop_within_grace id (lit "stop_orphan") else pure (Ok false));
  stopped ← inspect_single id label;
  pure (require_bool stopped "/State/Running" false (label ++ lit " stopped state before removal")).
Definition sweep_orphans (p : Policy) : broker unit :=
  ids ← docker [lit "ps"; lit "-aq"; lit "--filter"; lit "label=agent_service.session"; lit "--filter"; lit "label=agent_service.profile=" ++ profile p]
          (lit "list_orphans") DOCKER_TIMEOUT;
  let ids := List.filter (fun id => negb (bool_decide (id = []))) (map trim (text_lines ids)) in
  orphans ← classify_orphans p ids {| or_relays := []; or_agents := []; or_captures := [] |};
  _ ← each (fun id => stop_orphan_if_running id (lit "orphan agent")) (or_agents orphans);
  _ ← each (fun id => stop_orphan_if_running id (lit "orphan session relay")) (or_relays orphans);
  _ ← each (fun id => stop_orphan_if_running id (lit "orphan session capture")) (or_captures orphans);
  each (fun id => _ ← docker [lit "container"; lit "rm"; id] (lit "sweep_orphan") DOCKER_TIMEOUT; pure (Ok tt))
    (or_relays orphans ++ or_captures orphans ++ or_agents orphans).
End Sessions.

(** ** Readiness and completion records *)

(** [split_once] of a text: at its first occurrence. *)
Fixpoint split_once_text (sep s : str) : option (str * str) :=
  match strip_prefix sep s with
  | Some rest => Some ([], rest)
  | None =>
      match s with
      | [] => None
      | b :: s => '(l, r) ← split_once_text sep s; Some (b :: l, r)
      end
  end.

Definition parse_agent_ready (p : Policy) (line : str) : result str Z :=
  remainder ← ok_or (strip_prefix (ag_ready_event_prefix (agent_policy p)) line) (lit "agent readiness record has the wrong prefix");
  '(token_count, sandbox) ← ok_or (split_once_text (lit " sandbox=") remainder) (lit "agent readiness record lacks exact sandbox field");
  if negb (bool_decide (sandbox = ag_sandbox (agent_policy p))) || bool_decide (token_count = [])
  then Err (lit "agent readiness record drift")
  else
    token_count ← ok_or (parse_unsigned U64_MAX token_count) (lit "agent readiness token count is invalid");
    if token_count =? 0 then Err (lit "agent readiness token count must be positive") else Ok token_count.

Definition parse_capture_complete (p : Policy) (line : str) : result str (Z * Z) :=
  remainder ← ok_or (strip_prefix (cp_complete_event_prefix (capture_policy p)) line) (lit "capture completion record has the wrong prefix");
  '(events_bytes, stderr_bytes) ← ok_or (split_once_text (lit " stderr_bytes=") remainder) (lit "capture completion record lacks exact byte fields");
  if bool_decide (events_bytes = []) || bool_decide (stderr_bytes = []) || contains_whitespace stderr_bytes
  then Err (lit "capture completion record has extra or empty fields")
  else
    events_bytes ← ok_or (parse_unsigned U64_MAX events_bytes) (lit "capture events byte count is invalid");
    stderr_bytes ← ok_or (parse_unsigned U64_MAX stderr_bytes) (lit "capture stderr byte count is invalid");
    Ok (events_bytes, stderr_bytes).

(** ** Execution *)
Section Execution.
Context `{Serde}.

Record Evidence := {
  docker_version : str; agent_image : json; relay_image : json; capture_image : json;
  broker_inspect : json; backend : json; service : json; model_bridge : json; model_ingress : json; backend_cache_volume_inspect : json;
  backend_cache_owner_mode_ : str; gpu_record : str;
}.

(** What an operation answers: the object its response carries. *)
Inductive Answer :=
| Empty
| PreflightEvidence (evidence : Evidence)
| Created (agent relay capture : str)
| Quiescence (agent_present agent_running relay_present relay_running capture_present capture_running quiescent : bool)
| Logs (logs relay_logs capture_logs : str)
| ExitCode (exit_code : Z)
| Ready (token_count : Z) (sandbox : str)
| Captured (events_bytes stderr_bytes : Z)
| Stopped (escalated : bool).

Definition require_image_id (value : json) (expected label : str) : result str unit :=
  match json_array value with
  | Some [object] =>
      if decide (default MISSING (json_get object (lit "Id") ≫= json_str) = expected) then Ok tt else Err (label ++ lit " identity drift")
  | _ => Err (label ++ lit " inspect must contain exactly one object")
  end.

Definition ipv6_script : str := lit "if [ -e /proc/net/ipv6_route ]; then /usr/bin/cat /proc/net/ipv6_route; fi".
Definition require_network_none_routes (container label : str) : broker unit :=
  ipv4 ← docker [lit "exec"; container; lit "/usr/bin/cat"; lit "/proc/net/route"] (label ++ lit "_ipv4_routes") DOCKER_TIMEOUT;
  _ ← pure (validate_empty_ipv4_route_table ipv4 label);
  ipv6 ← docker [lit "exec"; container; lit "/bin/sh"; lit "-ceu"; ipv6_script] (label ++ lit "_ipv6_routes") DOCKER_TIMEOUT;
  pure (validate_empty_ipv6_route_table ipv6 label).

Definition preflight (p : Policy) : broker Evidence :=
  version ← docker [lit "version"; lit "--format"; lit "{{.Server.Version}}"] (lit "docker_version") DOCKER_TIMEOUT;
  agent_image ← inspect_json (ag_image_tag (agent_policy p)) (lit "agent_image");
  relay_image ← inspect_json (rl_image_tag (relay_policy p)) (lit "relay_image");
  capture_image ← inspect_json (cp_image_tag (capture_policy p)) (lit "capture_image");
  _ ← pure (require_image_id agent_image (ag_image_id (agent_policy p)) (lit "agent image"));
  _ ← pure (require_image_id relay_image (rl_image_id (relay_policy p)) (lit "relay image"));
  _ ← pure (require_image_id capture_image (cp_image_id (capture_policy p)) (lit "capture image"));
  broker ← inspect_json (broker_container_name p) (lit "broker");
  backend ← inspect_json (backend_container_name p) (lit "backend");
  service ← inspect_json (service_container_name p) (lit "service");
  model_bridge ← inspect_json (model_bridge_container_name p) (lit "model_bridge");
  model_ingress ← inspect_json (model_ingress_container_name p) (lit "model_ingress");
  volume ← inspect_json (backend_cache_volume p) (lit "backend_cache_volume");
  owner_mode ← docker [lit "exec"; backend_container_name p; lit "/usr/bin/stat"; lit "-c"; lit "%u:%g:%a"; backend_cache_mount p]
                 (lit "backend_cache_owner_mode") DOCKER_TIMEOUT;
  if negb (bool_decide (trim owner_mode = backend_cache_owner_mode p)) then fail (lit "backend cache owner/mode drift")
  else
    _ ← require_network_none_routes (backend_container_name p) (lit "backend");
    _ ← require_network_none_routes (service_container_name p) (lit "service");
    gpu ← docker [lit "exec"; backend_container_name p; lit "nvidia-smi"; lit "--query-gpu=name,memory.total,driver_version"; lit "--format=csv,noheader,nounits"]
            (lit "backend_gpu") DOCKER_TIMEOUT;
    pure (Ok {| docker_version := trim version; agent_image := agent_image; relay_image := relay_image; capture_image := capture_image;
                broker_inspect := broker; backend := backend; service := service; model_bridge := model_bridge; model_ingress := model_ingress;
                backend_cache_volume_inspect := volume; backend_cache_owner_mode_ := trim owner_mode; gpu_record := trim gpu |}).

(** The tail of a component's log, if the component is there. *)
Definition component_logs (p : Policy) (session_id : str) (c : Component) (label absent : string) : broker str :=
  let name := component_name c session_id in
  found ← inspect_optional p session_id c name;
  match found with
  | Some _ => docker [lit "logs"; lit "--tail"; lit "300"; name] (lit label) DOCKER_TIMEOUT
  | None => pure (Ok (lit absent))
  end.

Definition parse_exit_code (output : str) : result str Z :=
  word ← ok_or (head (split_whitespace output)) (lit "docker wait returned no exit code");
  ok_or (parse_i32 word) (lit "docker wait returned invalid exit code").

Definition prove_session_quiescent (p : Policy) (session_id : str) : broker Answer :=
  agent ← inspect_optional p session_id AgentComponent (agent_name session_id);
  relay ← inspect_optional p session_id SessionRelay (relay_name session_id);
  capture ← inspect_optional p session_id SessionCapture (capture_name session_id);
  agent_running ← pure (optional_running agent (lit "agent"));
  relay_running ← pure (optional_running relay (lit "session relay"));
  capture_running ← pure (optional_running capture (lit "session capture"));
  pure (Ok (Quiescence (bool_decide (is_Some agent)) agent_running (bool_decide (is_Some relay)) relay_running (bool_decide (is_Some capture)) capture_running
              (negb agent_running && negb relay_running && negb capture_running))).

Definition execute_session (p : Policy) (op : SessionOp) (session_id : str) : broker Answer :=
  match op with
  | CreateSession =>
      _ ← create_session p session_id;
      pure (Ok (Created (agent_name session_id) (relay_name session_id) (capture_name session_id)))
  | ProveSessionQuiescent => prove_session_quiescent p session_id
  | SessionLogs =>
      logs ← component_logs p session_id AgentComponent "session_logs" "<owned agent absent>";
      relay_logs ← component_logs p session_id SessionRelay "session_relay_logs" "<owned session relay absent>";
      capture_logs ← component_logs p session_id SessionCapture "session_capture_logs" "<owned session capture absent>";
      pure (Ok (Logs logs relay_logs capture_logs))
  | WaitSession =>
      _ ← require_owned p session_id AgentComponent (agent_name session_id);
      output ← docker [lit "wait"; agent_name session_id] (lit "wait_session") None;
      exit_code ← pure (parse_exit_code output);
      pure (Ok (ExitCode exit_code))
  | WaitAgentReady =>
      _ ← require_owned p session_id AgentComponent (agent_name session_id);
      line ← wait_for_log_match (agent_name session_id) (ag_ready_event_prefix (agent_policy p)) (Some 45) false;
      token_count ← pure (parse_agent_ready p line);
      pure (Ok (Ready token_count (ag_sandbox (agent_policy p))))
  | WaitCaptureComplete =>
      _ ← require_owned p session_id SessionCapture (capture_name session_id);
      line ← wait_for_log_match (capture_name session_id) (cp_complete_event_prefix (capture_policy p)) None false;
      counts ← pure (parse_capture_complete p line);
      pure (Ok (Captured counts.1 counts.2))
  | StopSession =>
      _ ← require_owned p session_id AgentComponent (agent_name session_id);
      escalated ← stop_within_grace (agent_name session_id) (lit "stop_session");
      pure (Ok (Stopped escalated))
  | RemoveSession =>
      _ ← remove_session p session_id;
      pure (Ok Empty)
  end.

Definition execute (p : Policy) (r : Request) : broker Answer :=
  match r with
  | Preflight => evidence ← preflight p; pure (Ok (PreflightEvidence evidence))
  | SweepOrphans => _ ← sweep_orphans p; pure (Ok Empty)
  | OnSession op session_id => _ ← pure (validate_session_id session_id); execute_session p op session_id
  end.

(** ** The broker itself *)

(** What its own inspection must say. *)
Definition check_self (p : Policy) (v : json) : result str unit :=
  let b := broker_policy p in
  _ ← require_bool v "/State/Running" true (lit "broker running state");
  _ ← read_container_image v (lit "broker self");
  _ ← require_string v "/Config/User" (show_Z (bk_uid b) ++ lit ":" ++ show_Z (bk_gid b)) (lit "broker user");
  _ ← require_string v "/HostConfig/NetworkMode" (lit "none") (lit "broker network mode");
  _ ← require_bool v "/HostConfig/ReadonlyRootfs" true (lit "broker read-only root");
  _ ← require_bool v "/HostConfig/Privileged" false (lit "broker privileged flag");
  _ ← require_limits v (lit "broker") (bk_memory b) (bk_memory_swap b) (bk_pids_limit b);
  _ ← require_string v "/Config/Labels/agent_service.component" (lit "docker-broker") (lit "broker component label");
  _ ← require_string v "/Config/Labels/agent_service.profile" (profile p) (lit "broker profile label");
  _ ← require_exact_command v "/Config/Entrypoint" [lit "/docker_broker"] (lit "broker entrypoint");
  _ ← require_null_or_empty_array v "/Config/Cmd" (lit "broker command");
  _ ← require_hardening v (lit "broker");
  _ ← require_empty_object v "/HostConfig/PortBindings" (lit "broker port bindings");
  parent ← ok_or (path_parent (broker_socket_path p)) (lit "broker socket parent is not UTF-8");
  require_exact_mounts v
    [{| mc_source := bk_docker_socket b; mc_destination := bk_docker_socket b; mc_writable := false |};
     {| mc_source := parent; mc_destination := parent; mc_writable := true |};
     {| mc_source := state_dir p; mc_destination := state_dir p; mc_writable := false |}] (lit "broker").
Definition verify_self (p : Policy) : broker unit :=
  _ ← docker [lit "version"; lit "--format"; lit "{{.Server.Version}}"] (lit "self_docker_version") DOCKER_TIMEOUT;
  v ← inspect_single (broker_container_name p) (lit "broker_self");
  pure (check_self p v).

(** The shutdown: what no request may interleave with. *)
Definition shutdown (p : Policy) : broker unit :=
  _ ← perform LockMutations;
  settle (sweep_orphans p) (fun r => _ ← perform UnlockMutations; pure r).

(** One connection: its bytes are a request or an error, and a request that
    changes anything runs under the mutation lock, given back when it ends. *)
Definition respond (p : Policy) (bytes : str) : broker Answer :=
  if REQUEST_LIMIT <? Z.of_nat (length bytes) then fail (lit "broker request exceeds " ++ show_Z REQUEST_LIMIT ++ lit " bytes")
  else
    match parse_request bytes with
    | Err error => fail error
    | Ok request =>
        if requires_mutation_lock request then
          _ ← perform LockMutations;
          settle (execute p request) (fun r => _ ← perform UnlockMutations; pure r)
        else execute p request
    end.
End Execution.
