(* ===== verification/Authority.v ===== *)
(** * Authority: what the broker may do, whatever it is asked and told (src/bin/docker_broker.rs)

    [permitted] is the broker's authority, stated over the history of what it did
    and saw: which command lines there are, what must have been seen before each,
    and that every command that changes anything holds the mutation lock.  A
    [lawful] history is one whose every action was permitted when it was taken.
    The operations are proved lawful by a small Hoare logic over [wp]; then
    connections run side by side, as a step relation on the lock and the programs. *)
From S2P Require Import Prelude Number Utf8 BTree Json JsonTree Schema Stream Usage Generation Authorship Sse Text Interaction Refusals Serde Docker Broker.

Section Authority.
Context `{Serde}.

(** ** What was seen *)
Inductive Sighting := Absent | Seen (v : json) | Unclear.

Definition sighting (object : str) (outcome : CliOutcome) : Sighting :=
  match read_outcome [] outcome with
  | Ok result_ => match read_inspected object result_ with Ok None => Absent | Ok (Some v) => Seen v | Err _ => Unclear end
  | Err _ => Unclear
  end.

(** The object an event inspects, and what the inspection shows. *)
Definition inspects (e : Event) : option (str * Sighting) :=
  match did e as a return reply a → option (str * Sighting) with
  | DockerCli [verb; object] _ => fun outcome => if decide (verb = lit "inspect") then Some (object, sighting object outcome) else None
  | _ => fun _ => None
  end (got e).
Definition sighting_of (object : str) (e : Event) : option Sighting :=
  match inspects e with Some (o, s) => if decide (o = object) then Some s else None | None => None end.
Definition last_seen (h : list Event) (object : str) : option Sighting := last (omap (sighting_of object) h).
Definition seen_in (h : list Event) (object : str) (v : json) : Prop := ∃ e, e ∈ h ∧ inspects e = Some (object, Seen v).

(** Whether the mutation lock is held. *)
Definition lock_after (held : bool) (e : Event) : bool := match did e with LockMutations => true | UnlockMutations => false | _ => held end.
Definition held (h : list Event) : bool := fold_left lock_after h false.

(** ** The authority *)
Definition text_at (v : json) (pointer : string) : str := default MISSING (pointed_at v pointer ≫= json_str).
Definition running (v : json) : option bool := pointed_at v "/State/Running" ≫= json_bool.

(** An inspected container that is a component of a session of this profile: its
    labels, its name and its image say so. *)
Definition belongs (p : Policy) (session_id : str) (c : Component) (v : json) : Prop :=
  text_at v "/Config/Labels/agent_service.session" = session_id
  ∧ text_at v "/Config/Labels/agent_service.profile" = profile p
  ∧ text_at v "/Config/Labels/agent_service.component" = component_label c
  ∧ (text_at v "/Name" = lit "/" ++ component_name c session_id
     ∨ json_get v (lit "Name") ≫= json_str = Some (lit "/" ++ component_name c session_id))
  ∧ ∃ image, read_container_image v (lit "owned container") = Ok image ∧ manifest_digest image = component_image p c.
Definition known_own (p : Policy) (h : list Event) (object : str) : Prop :=
  ∃ v session_id c, seen_in h object v ∧ validate_session_id session_id = Ok tt ∧ belongs p session_id c v.

(** The commands the broker runs inside containers. *)
Definition own_execs : list (list str) :=
  [[lit "ip"; lit "-4"; lit "route"; lit "show"]; [lit "ip"; lit "-6"; lit "route"; lit "show"]; [lit "ip"; lit "-j"; lit "link"; lit "show"]].
Definition route_execs : list (list str) :=
  [[lit "/usr/bin/cat"; lit "/proc/net/route"]; [lit "/bin/sh"; lit "-ceu"; ipv6_script]].
Definition policy_execs (p : Policy) : list (list str) :=
  [lit "/usr/bin/stat"; lit "-c"; lit "%u:%g:%a"; backend_cache_mount p]
  :: [lit "nvidia-smi"; lit "--query-gpu=name,memory.total,driver_version"; lit "--format=csv,noheader,nounits"]
  :: route_execs.

Inductive permitted (p : Policy) (h : list Event) : Action → Prop :=
| permit_inspect object timeout : permitted p h (DockerCli [lit "inspect"; object] timeout)
| permit_version timeout : permitted p h (DockerCli [lit "version"; lit "--format"; lit "{{.Server.Version}}"] timeout)
| permit_list timeout :
    permitted p h (DockerCli [lit "ps"; lit "-aq"; lit "--filter"; lit "label=agent_service.session"; lit "--filter";
                              lit "label=agent_service.profile=" ++ profile p] timeout)
| permit_exec object command timeout :
    known_own p h object → command ∈ own_execs → permitted p h (DockerCli (lit "exec" :: object :: command) timeout)
| permit_policy_exec object command timeout :
    (object = backend_container_name p ∧ command ∈ policy_execs p) ∨ (object = service_container_name p ∧ command ∈ route_execs) →
    permitted p h (DockerCli (lit "exec" :: object :: command) timeout)
| permit_tail object timeout : known_own p h object → permitted p h (DockerCli [lit "logs"; lit "--tail"; lit "300"; object] timeout)
| permit_wait object timeout : known_own p h object → permitted p h (DockerCli [lit "wait"; object] timeout)
| permit_follow object timeout : known_own p h object → permitted p h (FollowLogs (docker_log_follow_args object) timeout)
| permit_metadata path : permitted p h (SymlinkMetadata path)
| permit_canonicalize path : permitted p h (Canonicalize path)
| permit_elapsed : permitted p h ElapsedSeconds
| permit_agent session_id timeout :
    held h = true → validate_session_id session_id = Ok tt →
    (∀ c, last_seen h (component_name c session_id) = Some Absent) →
    permitted p h (DockerCli (agent_run_args p session_id) timeout)
| permit_sidecar session_id checked v agent_id argv timeout :
    held h = true → validate_session_id session_id = Ok tt →
    seen_in h (agent_name session_id) checked → belongs p session_id AgentComponent checked → check_agent p session_id checked = Ok tt →
    last_seen h (agent_name session_id) = Some (Seen v) → json_get v (lit "Id") ≫= json_str = Some agent_id →
    argv = capture_run_args p session_id agent_id ∨ argv = relay_run_args p session_id agent_id →
    permitted p h (DockerCli argv timeout)
| permit_stop object timeout : held h = true → known_own p h object → permitted p h (DockerCli (stop_args object) timeout)
| permit_remove object v timeout :
    held h = true → known_own p h object → last_seen h object = Some (Seen v) → running v = Some false →
    permitted p h (DockerCli [lit "container"; lit "rm"; object] timeout)
| permit_lock : held h = false → permitted p h LockMutations
| permit_unlock : held h = true → permitted p h UnlockMutations.

(** Every action was permitted when it was taken. *)
Definition lawful (p : Policy) (h : list Event) : Prop := ∀ before e after, h = before ++ e :: after → permitted p before (did e).

(** The commands that change anything. *)
Definition mutates (a : Action) : bool :=
  match a with
  | DockerCli (verb :: _) _ => bool_decide (verb = lit "run") || bool_decide (verb = lit "stop") || bool_decide (verb = lit "container")
  | _ => false
  end.

(** ** Histories *)
Lemma held_snoc h e : held (h ++ [e]) = lock_after (held h) e.
Proof. unfold held. by rewrite fold_left_app. Qed.

Lemma lawful_nil p : lawful p [].
Proof. intros before e after Heq. by destruct before. Qed.

Lemma lawful_snoc p h e : lawful p h → permitted p h (did e) → lawful p (h ++ [e]).
Proof.
  intros Hlaw Hper before f after Heq. destruct after as [|g after _] using rev_ind.
  - apply app_inj_tail in Heq as [-> ->]. exact Hper.
  - rewrite app_comm_cons, app_assoc in Heq. apply app_inj_tail in Heq as [-> ->]. by eapply Hlaw.
Qed.

Lemma lawful_prefix p h h' : lawful p h' → h `prefix_of` h' → lawful p h.
Proof. intros Hlaw [rest ->] before e after ->. eapply Hlaw. by rewrite <- app_assoc. Qed.

Lemma last_seen_snoc h e object :
  last_seen (h ++ [e]) object = match sighting_of object e with Some s => Some s | None => last_seen h object end.
Proof.
  unfold last_seen. rewrite omap_app. cbn [omap list_omap]. destruct (sighting_of object e) as [s|].
  - by rewrite last_snoc.
  - by rewrite app_nil_r.
Qed.

Lemma seen_in_mono h h' object v : seen_in h object v → h `prefix_of` h' → seen_in h' object v.
Proof. intros (e & Hin & Hseen) [rest ->]. exists e. split; [apply elem_of_app; by left|done]. Qed.

Lemma known_own_mono p h h' object : known_own p h object → h `prefix_of` h' → known_own p h' object.
Proof. intros (v & session_id & c & Hseen & Hown) Hpre. exists v, session_id, c. split; [by eapply seen_in_mono|done]. Qed.
(** ** A logic of operations *)
Definition extends (p : Policy) (h h' : list Event) : Prop := lawful p h' ∧ h `prefix_of` h' ∧ held h' = held h.

(** From a lawful history every run goes on lawfully, leaves the lock as it found
    it, and its result, unless an error, is as said. *)
Definition upholds {A} (p : Policy) (h : list Event) (m : broker A) (Q : A → list Event → Prop) : Prop :=
  lawful p h → wp m (fun r h' => extends p h h' ∧ ∀ a, r = Ok a → Q a h') h.

Definition cli (argv : list str) (timeout : option Z) (outcome : CliOutcome) : Event := {| did := DockerCli argv timeout; got := outcome |}.

Lemma extends_refl p h : lawful p h → extends p h h.
Proof. by intros Hlaw. Qed.

Lemma extends_trans p h h' h'' : extends p h h' → extends p h' h'' → extends p h h''.
Proof. intros (_ & Hpre & Hheld) (Hlaw & Hpre' & Hheld'). split_and!; [done|by etrans|congruence]. Qed.

Lemma upholds_mono {A} p h (m : broker A) (R Q : A → list Event → Prop) :
  upholds p h m R → (∀ a h', extends p h h' → R a h' → Q a h') → upholds p h m Q.
Proof.
  intros Hm HQ Hlaw. eapply wp_mono; [by apply Hm|]. intros r h' (Hext & HR). split; [done|].
  intros a ->. apply HQ; [done|]. by apply HR.
Qed.

Lemma upholds_pure {A} p h (r : result str A) (Q : A → list Event → Prop) : (∀ a, r = Ok a → Q a h) → upholds p h (pure r) Q.
Proof. intros HQ Hlaw. split; [by apply extends_refl|done]. Qed.

Lemma upholds_fail {A} p h error (Q : A → list Event → Prop) : upholds p h (fail error) Q.
Proof. intros Hlaw. split; [by apply extends_refl|done]. Qed.

Lemma upholds_settle {A B} p h (m : broker A) (f : result str A → broker B) (R : A → list Event → Prop) Q :
  upholds p h m R → (∀ r h', extends p h h' → (∀ a, r = Ok a → R a h') → upholds p h' (f r) Q) → upholds p h (settle m f) Q.
Proof.
  intros Hm Hf Hlaw. apply wp_settle. eapply wp_mono; [by apply Hm|]. intros r h' (Hext & HR).
  eapply wp_mono; [apply Hf; [done|done|apply Hext]|]. intros r' h'' (Hext' & HQ). split; [by eapply extends_trans|done].
Qed.

Lemma upholds_bind {A B} p h (m : broker A) (f : A → broker B) (R : A → list Event → Prop) Q :
  upholds p h m R → (∀ a h', extends p h h' → R a h' → upholds p h' (f a) Q) → upholds p h (m ≫= f) Q.
Proof.
  intros Hm Hf. apply (upholds_settle p h m _ R); [done|]. intros [a|e] h' Hext HR.
  - apply Hf; [done|by apply HR].
  - intros Hlaw. split; [by apply extends_refl|done].
Qed.

Lemma upholds_pure_bind {A B} p h (r : result str A) (f : A → broker B) Q :
  (∀ a, r = Ok a → upholds p h (f a) Q) → upholds p h (pure r ≫= f) Q.
Proof.
  intros Hf Hlaw. destruct r as [a|e]; [by apply (Hf a eq_refl Hlaw)|]. split; [by apply extends_refl|done].
Qed.

Lemma extends_snoc p h e : lawful p h → permitted p h (did e) → lock_after (held h) e = held h → extends p h (h ++ [e]).
Proof. intros Hlaw Hper Hlock. split_and!; [by apply lawful_snoc|by eexists|by rewrite held_snoc]. Qed.

Lemma upholds_perform p h a (Q : reply a → list Event → Prop) :
  permitted p h a → (∀ r : reply a, lock_after (held h) {| did := a; got := r |} = held h) →
  (∀ r, Q r (h ++ [{| did := a; got := r |}])) → upholds p h (perform a) Q.
Proof. intros Hper Hlock HQ Hlaw r. split; [by apply extends_snoc|by intros ? [= <-]]. Qed.

Lemma upholds_status p h argv label timeout (Q : CommandResult → list Event → Prop) :
  permitted p h (DockerCli argv timeout) →
  (∀ outcome r, read_outcome label outcome = Ok r → Q r (h ++ [cli argv timeout outcome])) →
  upholds p h (docker_status argv label timeout) Q.
Proof.
  intros Hper HQ. eapply upholds_bind.
  - apply (upholds_perform p h (DockerCli argv timeout) (fun o h' => h' = h ++ [cli argv timeout o])); done.
  - intros outcome h' _ ->. apply upholds_pure. intros r Hr. by eapply HQ.
Qed.

Lemma upholds_docker p h argv label timeout (Q : str → list Event → Prop) :
  permitted p h (DockerCli argv timeout) →
  (∀ outcome r, read_outcome label outcome = Ok r → code r = 0 → Q (stdout r) (h ++ [cli argv timeout outcome])) →
  upholds p h (docker argv label timeout) Q.
Proof.
  intros Hper HQ. eapply upholds_bind.
  - apply (upholds_status p h argv label timeout
             (fun r h' => ∃ outcome, read_outcome label outcome = Ok r ∧ h' = h ++ [cli argv timeout outcome])); [done|eauto].
  - intros r h' _ (outcome & Hr & ->). destruct (Z.eqb_spec (code r) 0) as [Hcode|_]; cbn [negb].
    + apply upholds_pure. intros a [= <-]. by eapply HQ.
    + apply upholds_fail.
Qed.

Lemma upholds_ask p h argv label timeout :
  permitted p h (DockerCli argv timeout) → upholds p h (docker argv label timeout) (fun _ h' => ∃ outcome, h' = h ++ [cli argv timeout outcome]).
Proof. intros Hper. apply upholds_docker; [done|]. by eauto. Qed.

(** ** Inspections *)
Lemma read_outcome_label label label' outcome r : read_outcome label outcome = Ok r → read_outcome label' outcome = Ok r.
Proof. unfold read_outcome. destruct outcome as [| |out err code]; [done|done|]. cbv zeta. by destruct (exceeded _ || exceeded _). Qed.

Lemma digest_at_label v pointer label label' digest : digest_at v pointer label = Ok digest → digest_at v pointer label' = Ok digest.
Proof. unfold digest_at. intros Hread. inv_ok. rewrite Hx. cbn. by destruct (negb _). Qed.

Lemma read_image_label v label label' image : read_container_image v label = Ok image → read_container_image v label' = Ok image.
Proof.
  unfold read_container_image. destruct (decide (_ = Some _)) as [_|_]; [|done]. intros Hread. inv_ok.
  rewrite (digest_at_label _ _ _ label' _ Hx), bind_ok, (digest_at_label _ _ _ label' _ Hx0), bind_ok, (digest_at_label _ _ _ label' _ Hx1), bind_ok.
  by case_decide.
Qed.

Lemma require_image_ok v expected label image :
  require_container_image v expected label = Ok image →
  ∃ image, read_container_image v (lit "owned container") = Ok image ∧ manifest_digest image = expected.
Proof.
  unfold require_container_image. intros Hread. inv_ok. case_decide as Hdigest; [|done]. inv_ok. subst.
  eexists. split; [by eapply read_image_label|done].
Qed.

Lemma required_text_ok v pointer expected label u : require_string v pointer expected label = Ok u → text_at v pointer = expected.
Proof. unfold require_string, text_at. cbv zeta. by case_decide. Qed.

Lemma require_bool_ok v pointer expected label u : require_bool v pointer expected label = Ok u → pointed_at v pointer ≫= json_bool = Some expected.
Proof. unfold require_bool. by case_decide. Qed.

Lemma require_owner_belongs p session_id c v :
  require_owner p session_id c (component_name c session_id) v = Ok tt → belongs p session_id c v.
Proof.
  unfold require_owner. intros Hown. inv_ok.
  split_and!; try (by eapply required_text_ok); [|by eapply require_image_ok].
  left. by eapply required_text_ok.
Qed.

Lemma component_of_label_ok label c : component_of_label label = Some c → label = component_label c.
Proof. unfold component_of_label. intros Hfind. apply find_some in Hfind as [_ Heq]. by to_prop. Qed.

Lemma orphan_belongs p id v c : orphan_component p id v = Ok c → ∃ session_id, validate_session_id session_id = Ok tt ∧ belongs p session_id c v.
Proof.
  unfold orphan_component. intros Hown. inv_ok. case_decide as Hname; [|done]. inv_ok. subst.
  rename x into session_id. exists session_id. destruct x0. split; [done|].
  apply component_of_label_ok in Hx4. unfold belongs, text_at at 1 3. rewrite Hx, Hx2. cbn.
  split_and!; [done|by eapply required_text_ok|done| |by eapply require_image_ok].
  right. apply bind_Some in Hx3 as (name & Hget & Hstrip). by apply strip_prefix_Some in Hstrip as ->.
Qed.

(** One inspection, as an event. *)
Definition inspected_as (h : list Event) (object : str) (s : Sighting) (h' : list Event) : Prop :=
  ∃ e, h' = h ++ [e] ∧ inspects e = Some (object, s).

Lemma inspects_cli object timeout outcome : inspects (cli [lit "inspect"; object] timeout outcome) = Some (object, sighting object outcome).
Proof. reflexivity. Qed.

Lemma inspected_last h object s h' : inspected_as h object s h' → last_seen h' object = Some s.
Proof. intros (e & -> & Hseen). rewrite last_seen_snoc. unfold sighting_of. rewrite Hseen. by rewrite decide_True. Qed.

Lemma inspected_other h object s h' other : inspected_as h object s h' → other ≠ object → last_seen h' other = last_seen h other.
Proof. intros (e & -> & Hseen) Hne. rewrite last_seen_snoc. unfold sighting_of. rewrite Hseen. by rewrite decide_False. Qed.

Lemma inspected_seen h object v h' : inspected_as h object (Seen v) h' → seen_in h' object v.
Proof. intros (e & -> & Hseen). exists e. split; [|done]. apply elem_of_app. right. by apply list_elem_of_singleton. Qed.

(** What an object that may be absent turned out to be. *)
Definition found_as (found : option json) : Sighting := match found with Some v => Seen v | None => Absent end.

Lemma upholds_inspect_optional p h session_id c name :
  upholds p h (inspect_optional p session_id c name)
    (fun found h' => inspected_as h name (found_as found) h' ∧ ∀ v, found = Some v → require_owner p session_id c name v = Ok tt).
Proof.
  eapply upholds_bind.
  - apply (upholds_status p h _ _ _ (fun r h' => ∃ outcome, read_outcome (lit "inspect_owned") outcome = Ok r ∧ h' = h ++ [cli [lit "inspect"; name] DOCKER_TIMEOUT outcome]));
      [constructor|eauto].
  - intros r h' _ (outcome & Hr & ->). apply upholds_pure_bind. intros found Hfound.
    assert (Hseen : inspected_as h name (found_as found) (h ++ [cli [lit "inspect"; name] DOCKER_TIMEOUT outcome])).
    { eexists. split; [done|]. rewrite inspects_cli. unfold sighting.
      rewrite (read_outcome_label _ [] _ _ Hr), Hfound. by destruct found. }
    destruct found as [v|]; [|apply upholds_pure; intros a [= <-]; done].
    apply upholds_pure_bind. intros [] Howner. apply upholds_pure. intros a [= <-]. split; [done|]. by intros ? [= <-].
Qed.

Lemma upholds_require_owned p h session_id c name :
  upholds p h (require_owned p session_id c name) (fun v h' => inspected_as h name (Seen v) h' ∧ require_owner p session_id c name v = Ok tt).
Proof.
  eapply upholds_bind; [apply upholds_inspect_optional|]. intros found h' _ (Hseen & Howner).
  apply upholds_pure. intros v Hv. apply ok_or_ok in Hv as ->. auto.
Qed.

Lemma upholds_inspect_json p h object label : upholds p h (inspect_json object label) (fun _ _ => True).
Proof. eapply upholds_bind; [apply upholds_ask; constructor|]. intros. by apply upholds_pure. Qed.

Lemma upholds_inspect_single p h object label :
  upholds p h (inspect_single object label) (fun v h' => inspected_as h object (Seen v) h').
Proof.
  eapply (upholds_bind p h _ _ (fun w h' => ∃ outcome r, read_outcome [] outcome = Ok r ∧ code r = 0 ∧ value_from_str (stdout r) = Some w
                                                       ∧ h' = h ++ [cli [lit "inspect"; object] DOCKER_TIMEOUT outcome])).
  - eapply (upholds_bind p h _ _ (fun output h' => ∃ outcome r, read_outcome [] outcome = Ok r ∧ code r = 0 ∧ stdout r = output
                                                       ∧ h' = h ++ [cli [lit "inspect"; object] DOCKER_TIMEOUT outcome])).
    + apply upholds_docker; [constructor|]. intros outcome r Hr Hcode. exists outcome, r. split_and!; try done. by eapply read_outcome_label.
    + intros output h' _ (outcome & r & Hr & Hcode & <- & ->). apply upholds_pure. intros w Hw. apply ok_or_ok in Hw. by exists outcome, r.
  - intros w h' _ (outcome & r & Hr & Hcode & Hw & ->). apply upholds_pure. intros v Hv.
    eexists. split; [done|]. rewrite inspects_cli. unfold sighting, read_inspected. rewrite Hr, Hcode, Hw. cbn.
    destruct (json_array w) as [[|item [|]]|]; try discriminate Hv. by injection Hv as <-.
Qed.

(** ** The operations *)
Definition done_ {A} : A → list Event → Prop := fun _ _ => True.

Section Session.
Context (p : Policy) (session_id : str) (Hvalid : validate_session_id session_id = Ok tt).

Lemma owner_known h c v h' :
  inspected_as h (component_name c session_id) (Seen v) h' → require_owner p session_id c (component_name c session_id) v = Ok tt →
  known_own p h' (component_name c session_id).
Proof.
  intros Hseen Howner. exists v, session_id, c. split_and!; [by eapply inspected_seen|done|by apply require_owner_belongs].
Qed.

Lemma upholds_any {A} h (m : broker A) Q : upholds p h m Q → upholds p h m done_.
Proof. intros Hm. by eapply upholds_mono. Qed.

Lemma upholds_stop h object label : held h = true → known_own p h object → upholds p h (stop_within_grace object label) done_.
Proof.
  intros Hheld Hknown. eapply upholds_bind; [by apply upholds_ask, permit_stop|]. intros _ h' _ _.
  eapply upholds_bind; [apply (upholds_perform p h' ElapsedSeconds (fun _ _ => True)); [constructor|done|done]|].
  intros elapsed h'' _ _. by apply upholds_pure.
Qed.

Lemma upholds_stop_owned h c : held h = true → upholds p h (stop_owned_if_running p session_id c) done_.
Proof.
  intros Hheld. eapply upholds_bind; [apply upholds_inspect_optional|]. intros [v|] h1 Hext (Hseen & Howner); [|by apply upholds_pure].
  apply upholds_bind with (R := fun _ _ => True).
  - case_decide; [|by apply upholds_pure]. apply upholds_any with (Q := done_). apply upholds_stop.
    + destruct Hext as (_ & _ & ->). done.
    + eapply owner_known; [done|by apply Howner].
  - intros _ h2 _ _. eapply upholds_bind; [apply upholds_require_owned|]. intros stopped h3 _ _. by apply upholds_pure.
Qed.

Lemma upholds_remove_stopped h c : held h = true → upholds p h (remove_stopped_owned p session_id c) done_.
Proof.
  intros Hheld. eapply upholds_bind; [apply upholds_inspect_optional|]. intros [v|] h1 Hext (Hseen & Howner); [|by apply upholds_pure].
  apply upholds_pure_bind. intros [] Hstopped. eapply upholds_bind; [apply upholds_ask|intros; by apply upholds_pure].
  eapply permit_remove.
  - destruct Hext as (_ & _ & ->). done.
  - eapply owner_known; [done|by apply Howner].
  - by eapply inspected_last.
  - by eapply require_bool_ok.
Qed.

Lemma upholds_teardown h steps diagnostics :
  held h = true → (∀ step h', step ∈ steps → held h' = true → upholds p h' step.2 done_) →
  upholds p h (run_teardown steps diagnostics) done_.
Proof.
  revert h diagnostics. induction steps as [|[label step] steps IH]; intros h diagnostics Hheld Hsteps; [by apply upholds_pure|].
  eapply upholds_settle; [apply (Hsteps (label, step)); [by left|done]|]. intros r h' (_ & _ & Hheld') _.
  apply IH; [congruence|]. intros other h'' Hin. apply Hsteps. by right.
Qed.

Lemma upholds_remove_session h : held h = true → upholds p h (remove_session p session_id) done_.
Proof.
  intros Hheld. eapply upholds_bind.
  - apply upholds_teardown; [done|]. intros step h' Hin Hheld'.
    unfold teardown_steps in Hin. repeat (apply elem_of_cons in Hin as [->|Hin]); [..|by apply elem_of_nil in Hin];
      cbn [snd]; first [by apply upholds_stop_owned|by apply upholds_remove_stopped].
  - intros diagnostics h' _ _. destruct diagnostics; [by apply upholds_pure|apply upholds_fail].
Qed.

Lemma upholds_each {A} h (f : A → broker unit) (l : list A) :
  (∀ x h', x ∈ l → held h' = held h → upholds p h' (f x) done_) → upholds p h (each f l) done_.
Proof.
  revert h. induction l as [|x l IH]; intros h Hf; [by apply upholds_pure|].
  eapply upholds_bind; [apply Hf; [by left|done]|]. intros _ h' (_ & _ & Hheld) _.
  apply IH. intros y h'' Hin Hheld''. apply Hf; [by right|congruence].
Qed.

Lemma upholds_paths h : upholds p h (validate_session_paths p session_id) done_.
Proof.
  eapply upholds_bind; [|intros _ h1 _ _]; apply upholds_each; intros entry h' _ _.
  - eapply upholds_bind; [apply (upholds_perform _ _ (SymlinkMetadata _) (fun _ _ => True)); [constructor|done|done]|]. intros metadata h2 _ _.
    apply upholds_pure_bind. intros m _. destruct (negb _); [apply upholds_fail|].
    eapply upholds_bind; [apply (upholds_perform _ _ (Canonicalize _) (fun _ _ => True)); [constructor|done|done]|]. intros canonical h3 _ _.
    apply upholds_pure_bind. intros c _. case_decide; [by apply upholds_pure|apply upholds_fail].
  - eapply upholds_bind; [apply (upholds_perform _ _ (SymlinkMetadata _) (fun _ _ => True)); [constructor|done|done]|]. intros metadata h2 _ _.
    apply upholds_pure_bind. intros m _. destruct (negb _); [apply upholds_fail|by apply upholds_pure].
Qed.

(** What a verified component is: seen, its own and as its contract says. *)
Definition component_checked (h : list Event) (c : Component) (check : json → result str unit) : Prop :=
  ∃ v, seen_in h (component_name c session_id) v ∧ belongs p session_id c v ∧ check v = Ok tt.
Definition agent_checked (h : list Event) : Prop := component_checked h AgentComponent (check_agent p session_id).

(** A command was run, and ended well with this output. *)
Definition answered (h : list Event) (argv : list str) (output : str) : Prop :=
  ∃ timeout label outcome r, cli argv timeout outcome ∈ h ∧ read_outcome label outcome = Ok r ∧ code r = 0 ∧ stdout r = output.
(** The agent's network namespace: no route, and no link but the loopback. *)
Definition agent_isolated (h : list Event) : Prop :=
  ∃ routes routes_v6 links,
    answered h (lit "exec" :: agent_name session_id :: [lit "ip"; lit "-4"; lit "route"; lit "show"]) routes ∧ trim routes = []
    ∧ answered h (lit "exec" :: agent_name session_id :: [lit "ip"; lit "-6"; lit "route"; lit "show"]) routes_v6 ∧ trim routes_v6 = []
    ∧ answered h (lit "exec" :: agent_name session_id :: [lit "ip"; lit "-j"; lit "link"; lit "show"]) links ∧ check_links links = Ok tt.

Lemma checked_mono h h' c check : component_checked h c check → h `prefix_of` h' → component_checked h' c check.
Proof. intros (v & Hseen & Hown) Hpre. exists v. split; [by eapply seen_in_mono|done]. Qed.

Lemma answered_mono h h' argv output : answered h argv output → h `prefix_of` h' → answered h' argv output.
Proof.
  intros (timeout & label & outcome & r & Hin & Hr) [rest ->]. exists timeout, label, outcome, r.
  split; [apply elem_of_app; by left|done].
Qed.

Lemma isolated_mono h h' : agent_isolated h → h `prefix_of` h' → agent_isolated h'.
Proof.
  intros (routes & routes_v6 & links & Hr & Ht & Hr6 & Ht6 & Hl & Hc) Hpre.
  exists routes, routes_v6, links. split_and!; try done; by eapply answered_mono.
Qed.

Lemma upholds_answer h argv label timeout :
  permitted p h (DockerCli argv timeout) →
  upholds p h (docker argv label timeout) (fun output h' => answered h' argv output ∧ ∃ outcome, h' = h ++ [cli argv timeout outcome]).
Proof.
  intros Hper. apply upholds_docker; [done|]. intros outcome r Hr Hcode. split; [|by exists outcome].
  exists timeout, label, outcome, r. split_and!; try done. apply elem_of_app. right. by apply list_elem_of_singleton.
Qed.

Lemma no_routes_ok family routes u : no_routes family routes = Ok u → trim routes = [].
Proof. unfold no_routes. by case_decide. Qed.

Lemma upholds_verify_agent h : upholds p h (verify_agent p session_id) (fun _ h' => agent_checked h' ∧ agent_isolated h').
Proof.
  eapply upholds_bind; [apply upholds_require_owned|]. intros v h1 _ (Hseen & Howner).
  apply upholds_pure_bind. intros [] Hcheck.
  assert (Hknown : known_own p h1 (agent_name session_id)) by exact (owner_known h AgentComponent v h1 Hseen Howner).
  assert (Hchecked : agent_checked h1).
  { exists v. split_and!; [by eapply inspected_seen|by apply require_owner_belongs|done]. }
  assert (Hexec : ∀ h' command timeout, h1 `prefix_of` h' → command ∈ own_execs →
            permitted p h' (DockerCli (lit "exec" :: agent_name session_id :: command) timeout)).
  { intros h' command timeout Hpre Hin. apply permit_exec; [by eapply known_own_mono|done]. }
  eapply upholds_bind; [apply upholds_answer, Hexec; [done|by left]|]. intros routes h2 (_ & Hpre2 & _) (Hroutes & _).
  apply upholds_pure_bind. intros [] Hno.
  eapply upholds_bind; [apply upholds_answer, Hexec; [done|by right; left]|]. intros routes6 h3 (_ & Hpre3 & _) (Hroutes6 & _).
  apply upholds_pure_bind. intros [] Hno6.
  eapply upholds_bind; [apply upholds_answer, Hexec; [by etrans|by right; right; left]|]. intros links h4 (_ & Hpre4 & _) (Hlinks & _).
  apply upholds_pure. intros [] Hloop. split; [eapply checked_mono; [done|]; etrans; [done|by etrans]|].
  exists routes, routes6, links. split_and!; [|by eapply no_routes_ok| |by eapply no_routes_ok|done|done].
  - eapply answered_mono; [done|by etrans].
  - by eapply answered_mono.
Qed.

Lemma last_seen_cli h argv timeout outcome object :
  (∀ object, argv ≠ [lit "inspect"; object]) → last_seen (h ++ [cli argv timeout outcome]) object = last_seen h object.
Proof.
  intros Hargv. rewrite last_seen_snoc. unfold sighting_of, inspects. cbn [did got cli].
  destruct argv as [|verb [|o [|]]]; try done. case_decide as Hverb; [|done]. subst. by destruct (Hargv o).
Qed.

Lemma last_seen_follow h argv timeout followed object : last_seen (h ++ [{| did := FollowLogs argv timeout; got := followed |}]) object = last_seen h object.
Proof. by rewrite last_seen_snoc. Qed.
Lemma upholds_follow h object expected timeout exact_ :
  known_own p h object →
  upholds p h (wait_for_log_match object expected timeout exact_) (fun _ h' => ∀ o, last_seen h' o = last_seen h o).
Proof.
  intros Hknown. eapply upholds_bind.
  - apply (upholds_perform _ _ (FollowLogs _ _) (fun _ h' => ∀ o, last_seen h' o = last_seen h o)); [by constructor|done|].
    intros r o. apply last_seen_follow.
  - intros followed h' _ Hlast. apply upholds_pure_bind. intros f _. by apply upholds_pure.
Qed.

Lemma upholds_or_remove {A} h what (step : broker A) Q :
  held h = true → upholds p h step Q → upholds p h (or_remove p session_id what step) Q.
Proof.
  intros Hheld Hstep. eapply upholds_settle; [exact Hstep|]. intros [a|error] h' (_ & _ & Hheld') HQ.
  - apply upholds_pure. intros ? [= <-]. by apply HQ.
  - eapply upholds_settle; [apply upholds_remove_session; congruence|]. intros r h'' _ _. apply upholds_fail.
Qed.

(** A verified sidecar: its own, while what was last seen of the agent still stands. *)
Lemma component_name_inj c c' : component_name c session_id = component_name c' session_id → c = c'.
Proof.
  intros Heq. apply (f_equal length) in Heq. destruct c, c'; try done;
    cbn [component_name] in Heq; unfold agent_name, relay_name, capture_name in Heq; rewrite !length_app in Heq; cbn in Heq; lia.
Qed.

Lemma checked_known h c check : component_checked h c check → known_own p h (component_name c session_id).
Proof. intros (v & Hseen & Hown & _). by exists v, session_id, c. Qed.

Lemma upholds_verify_sidecar h c check :
  c ≠ AgentComponent →
  upholds p h (v ← require_owned p session_id c (component_name c session_id); pure (check v))
    (fun _ h' => component_checked h' c check ∧ last_seen h' (agent_name session_id) = last_seen h (agent_name session_id)).
Proof.
  intros Hc. eapply upholds_bind; [apply upholds_require_owned|]. intros v h' _ (Hseen & Howner).
  apply upholds_pure. intros [] Hcheck. split.
  { exists v. split_and!; [by eapply inspected_seen|by apply require_owner_belongs|done]. }
  eapply inspected_other; [exact Hseen|].
  intros Heq. by apply (component_name_inj AgentComponent) in Heq.
Qed.

(** Nothing of the session is there. *)
Lemma upholds_any_present h :
  upholds p h (any_present p session_id) (fun present h' => present = false → ∀ c, last_seen h' (component_name c session_id) = Some Absent).
Proof.
  eapply upholds_bind; [apply upholds_inspect_optional|]. intros [v|] h1 _ (Hagent & _); [by apply upholds_pure; intros ? [= <-]|].
  eapply upholds_bind; [apply upholds_inspect_optional|]. intros [v|] h2 _ (Hrelay & _); [by apply upholds_pure; intros ? [= <-]|].
  eapply upholds_bind; [apply upholds_inspect_optional|]. intros [v|] h3 _ (Hcapture & _); apply upholds_pure; intros ? [= <-]; [done|].
  intros _ c.
  assert (Hne : ∀ c c', c ≠ c' → component_name c session_id ≠ component_name c' session_id).
  { intros c1 c2 Hne Heq. by apply component_name_inj in Heq. }
  destruct c.
  - rewrite (inspected_other _ _ _ _ _ Hcapture (Hne AgentComponent SessionCapture ltac:(done))).
    rewrite (inspected_other _ _ _ _ _ Hrelay (Hne AgentComponent SessionRelay ltac:(done))). exact (inspected_last _ _ _ _ Hagent).
  - rewrite (inspected_other _ _ _ _ _ Hcapture (Hne SessionRelay SessionCapture ltac:(done))). exact (inspected_last _ _ _ _ Hrelay).
  - exact (inspected_last _ _ _ _ Hcapture).
Qed.

(** The sidecars of a session whose agent was verified and then inspected. *)
Lemma upholds_sidecar h c agent agent_id argv label :
  held h = true → agent_checked h → last_seen h (agent_name session_id) = Some (Seen agent) → json_get agent (lit "Id") ≫= json_str = Some agent_id →
  c = SessionCapture ∧ argv = capture_run_args p session_id agent_id ∨ c = SessionRelay ∧ argv = relay_run_args p session_id agent_id →
  upholds p h (docker argv label DOCKER_TIMEOUT) (fun _ h' => last_seen h' (agent_name session_id) = last_seen h (agent_name session_id)).
Proof.
  intros Hheld (v & Hseen & Hown & Hcheck) Hlast Hid Hargv. eapply upholds_mono.
  - apply upholds_ask. eapply (permit_sidecar p h session_id v agent agent_id); try done. tauto.
  - intros _ h' _ (outcome & ->). apply last_seen_cli. intros object. destruct Hargv as [[_ ->]|[_ ->]]; by intros [=].
Qed.

Lemma upholds_sidecars h agent agent_id :
  held h = true → agent_checked h → last_seen h (agent_name session_id) = Some (Seen agent) → json_get agent (lit "Id") ≫= json_str = Some agent_id →
  upholds p h (start_sidecars p session_id agent_id)
    (fun _ h' => component_checked h' SessionCapture (check_capture p session_id agent_id) ∧ component_checked h' SessionRelay (check_relay p agent_id)).
Proof.
  intros Hlock5 Hchecked Hseen Hid.
  eapply upholds_bind; [eapply upholds_sidecar; eauto|]. intros _ h6 (_ & Hpre6 & Hheld6) Hlast6.
  assert (Hlock6 : held h6 = true) by congruence.
  eapply upholds_bind; [apply upholds_or_remove; [done|by apply (upholds_verify_sidecar h6 SessionCapture)]|]. intros _ h7 (_ & Hpre7 & Hheld7) (Hcapture & Hlast7).
  assert (Hlock7 : held h7 = true) by congruence.
  eapply upholds_bind; [apply upholds_or_remove; [done|apply upholds_follow; exact (checked_known h7 SessionCapture _ Hcapture)]|]. intros _ h8 (_ & Hpre8 & Hheld8) Hlast8.
  assert (Hlock8 : held h8 = true) by congruence.
  eapply upholds_bind.
  { apply upholds_or_remove; [done|]. eapply (upholds_sidecar h8 SessionRelay); eauto.
    - eapply checked_mono; [exact Hchecked|]. etrans; [exact Hpre6|]. by etrans.
    - rewrite Hlast8, Hlast7, Hlast6. exact Hseen. }
  intros _ h9 (_ & Hpre9 & Hheld9) _. assert (Hlock9 : held h9 = true) by congruence.
  eapply upholds_bind; [apply upholds_or_remove; [done|by apply (upholds_verify_sidecar h9 SessionRelay)]|]. intros _ h10 (_ & Hpre10 & Hheld10) (Hrelay & _).
  assert (Hlock10 : held h10 = true) by congruence.
  eapply upholds_bind; [apply upholds_or_remove; [done|apply upholds_follow; exact (checked_known h10 SessionRelay _ Hrelay)]|]. intros _ h11 (_ & Hpre11 & _) _.
  apply upholds_pure. intros _ _. split; [|by eapply checked_mono].
  eapply checked_mono; [exact Hcapture|]. etrans; [exact Hpre8|]. etrans; [exact Hpre9|]. by etrans.
Qed.

(** What a created session is: its agent verified and isolated, and its sidecars
    verified in the namespace of the agent then seen. *)
Definition session_created (h : list Event) : Prop :=
  ∃ agent_id agent,
    seen_in h (agent_name session_id) agent ∧ json_get agent (lit "Id") ≫= json_str = Some agent_id
    ∧ agent_checked h ∧ agent_isolated h
    ∧ component_checked h SessionCapture (check_capture p session_id agent_id)
    ∧ component_checked h SessionRelay (check_relay p agent_id).

Lemma upholds_create_session h : held h = true → upholds p h (create_session p session_id) (fun _ h' => session_created h').
Proof.
  intros Hheld. eapply upholds_bind; [apply upholds_paths|]. intros _ h1 (_ & _ & Hheld1) _.
  eapply upholds_bind; [apply upholds_any_present|]. intros [] h2 (_ & _ & Hheld2) Habsent; [apply upholds_fail|].
  assert (Hlock2 : held h2 = true) by congruence.
  eapply upholds_bind; [by apply upholds_ask, permit_agent; auto|]. intros _ h3 (_ & _ & Hheld3) _.
  assert (Hlock3 : held h3 = true) by congruence.
  eapply upholds_bind; [apply upholds_or_remove; [done|apply upholds_verify_agent]|]. intros _ h4 (_ & _ & Hheld4) (Hchecked & Hisolated).
  eapply upholds_bind; [apply upholds_inspect_single|]. intros agent h5 (_ & Hpre5 & Hheld5) Hseen.
  apply upholds_pure_bind. intros agent_id Hid. apply ok_or_ok in Hid. assert (Hlock5 : held h5 = true) by congruence.
  eapply upholds_mono; [apply (upholds_sidecars h5 agent agent_id); [done|by eapply checked_mono|by eapply inspected_last|done]|].
  intros _ h6 (_ & Hpre6 & _) (Hcapture & Hrelay). exists agent_id, agent. split_and!; [|done| | |done|done].
  - eapply seen_in_mono; [by eapply inspected_seen|done].
  - eapply checked_mono; [done|by etrans].
  - eapply isolated_mono; [done|by etrans].
Qed.
End Session.

(** *** The sweep *)
Section Sweep.
Context (p : Policy).

Definition stopped (h : list Event) (object : str) : Prop := ∃ v, last_seen h object = Some (Seen v) ∧ running v = Some false.
Definition all_orphans (o : Orphans) : list str := or_relays o ++ or_captures o ++ or_agents o.

Lemma all_orphans_add c id o other : other ∈ all_orphans (add_orphan c id o) → other = id ∨ other ∈ all_orphans o.
Proof. unfold all_orphans. destruct c; cbn; rewrite !elem_of_app, ?list_elem_of_singleton; tauto. Qed.

Lemma upholds_classify h ids o :
  (∀ id, id ∈ all_orphans o → known_own p h id) →
  upholds p h (classify_orphans p ids o) (fun orphans h' => ∀ id, id ∈ all_orphans orphans → known_own p h' id).
Proof.
  revert h o. induction ids as [|id ids IH]; intros h o Hknown; [by apply upholds_pure; intros ? [= <-]|].
  eapply upholds_bind; [apply upholds_inspect_single|]. intros v h1 (_ & Hpre & _) Hseen.
  apply upholds_pure_bind. intros c Hc. apply orphan_belongs in Hc as (session_id & Hvalid & Hown).
  apply IH. intros other [->|Hin]%all_orphans_add.
  - exists v, session_id, c. split; [by eapply inspected_seen|done].
  - eapply known_own_mono; [by apply Hknown|done].
Qed.

Lemma stopped_inspected h object v h' other : inspected_as h object (Seen v) h' → other ≠ object → stopped h other → stopped h' other.
Proof. intros Hseen Hne (w & Hlast & Hrun). exists w. split; [|done]. by rewrite (inspected_other _ _ _ _ _ Hseen Hne). Qed.

Lemma upholds_stop_orphan h id label :
  held h = true → known_own p h id →
  upholds p h (stop_orphan_if_running id label) (fun _ h' => stopped h' id ∧ ∀ other, stopped h other → stopped h' other).
Proof.
  intros Hheld Hknown. eapply upholds_bind; [apply upholds_inspect_single|]. intros v h1 (_ & Hpre1 & Hheld1) Hseen1.
  apply upholds_bind with (R := fun _ h2 => ∀ other, last_seen h2 other = last_seen h1 other).
  - case_decide; [|by apply upholds_pure].
    eapply upholds_bind; [apply upholds_ask, permit_stop; [congruence|by eapply known_own_mono]|]. intros _ h2 _ (outcome & ->).
    eapply upholds_bind; [apply (upholds_perform p _ ElapsedSeconds (fun _ h3 => ∀ other, last_seen h3 other = last_seen h1 other)); [constructor|done|]|].
    + intros r other. rewrite last_seen_snoc. cbn. by apply last_seen_cli.
    + intros elapsed h3 _ Hlast. by apply upholds_pure.
  - intros _ h2 _ Hlast2. eapply upholds_bind; [apply upholds_inspect_single|]. intros w h3 _ Hseen3.
    apply upholds_pure. intros [] Hrun%require_bool_ok. apply inspected_last in Hseen3 as Hlast3.
    assert (Hdone : stopped h3 id) by by exists w. split; [done|]. intros other Hother.
    destruct (decide (other = id)) as [->|Hne]; [done|]. eapply stopped_inspected; [exact Hseen3|done|].
    apply (stopped_inspected _ _ _ _ _ Hseen1 Hne) in Hother as (u & Hu & Hru). exists u. by rewrite Hlast2.
Qed.

Lemma upholds_stop_orphans h ids label :
  held h = true → (∀ id, id ∈ ids → known_own p h id) →
  upholds p h (each (fun id => stop_orphan_if_running id label) ids)
    (fun _ h' => (∀ id, id ∈ ids → stopped h' id) ∧ ∀ other, stopped h other → stopped h' other).
Proof.
  revert h. induction ids as [|id ids IH]; intros h Hheld Hknown.
  - apply upholds_pure. intros _ _. split; [by intros id Hin%elem_of_nil|done].
  - eapply upholds_bind; [apply upholds_stop_orphan; [done|apply Hknown; by left]|]. intros _ h1 (_ & Hpre & Hheld1) (Hid & Hkeep).
    eapply upholds_mono; [apply IH; [congruence|]|].
    + intros other Hin. eapply known_own_mono; [apply Hknown; by right|done].
    + intros _ h2 _ (Hids & Hkeep2). split; [|auto]. intros other [->|Hin]%elem_of_cons; auto.
Qed.

Lemma upholds_remove_orphans h ids :
  held h = true → (∀ id, id ∈ ids → known_own p h id ∧ stopped h id) →
  upholds p h (each (fun id => _ ← docker [lit "container"; lit "rm"; id] (lit "sweep_orphan") DOCKER_TIMEOUT; pure (Ok tt)) ids) done_.
Proof.
  revert h. induction ids as [|id ids IH]; intros h Hheld Hids; [by apply upholds_pure|].
  eapply upholds_bind with (R := fun _ h1 => ∀ other, stopped h other → stopped h1 other).
  - destruct (Hids id) as (Hknown & v & Hlast & Hrun); [by left|].
    eapply upholds_bind; [apply upholds_ask; by eapply permit_remove|]. intros _ h1 _ (outcome & ->).
    apply upholds_pure. intros _ _ other (w & Hw & Hrw). exists w. by rewrite last_seen_cli.
  - intros _ h1 (_ & Hpre & Hheld1) Hkeep. apply IH; [congruence|]. intros other Hin.
    destruct (Hids other) as (Hknown & Hstop); [by right|]. split; [by eapply known_own_mono|auto].
Qed.

Lemma upholds_sweep h : held h = true → upholds p h (sweep_orphans p) done_.
Proof.
  intros Hheld. eapply upholds_bind; [apply upholds_ask; constructor|]. intros ids h1 (_ & _ & Hheld1) _.
  eapply upholds_bind; [by apply upholds_classify; intros id Hin%elem_of_nil|]. intros o h2 (_ & _ & Hheld2) Hknown.
  assert (Hlock2 : held h2 = true) by congruence.
  eapply upholds_bind; [apply upholds_stop_orphans; [done|]|]; [intros id Hin; apply Hknown; set_solver|]. intros _ h3 (_ & Hpre3 & Hheld3) (Hagents & _).
  assert (Hlock3 : held h3 = true) by congruence.
  eapply upholds_bind; [apply upholds_stop_orphans; [done|]|]; [intros id Hin; eapply known_own_mono; [apply Hknown; set_solver|done]|].
  intros _ h4 (_ & Hpre4 & Hheld4) (Hrelays & Hkeep4). assert (Hpre24 : h2 `prefix_of` h4) by by etrans.
  assert (Hlock4 : held h4 = true) by congruence.
  eapply upholds_bind; [apply upholds_stop_orphans; [done|]|]; [intros id Hin; eapply known_own_mono; [apply Hknown; set_solver|done]|].
  intros _ h5 (_ & Hpre5 & Hheld5) (Hcaptures & Hkeep5). assert (Hpre25 : h2 `prefix_of` h5) by by etrans.
  apply upholds_remove_orphans; [congruence|]. intros id Hin. split; [by eapply known_own_mono; [apply Hknown|]|].
  apply elem_of_app in Hin as [Hin|[Hin|Hin]%elem_of_app]; auto.
Qed.
End Sweep.

(** *** Requests *)
Section Execute.
Context (p : Policy).

Lemma upholds_component_logs h session_id c label absent :
  validate_session_id session_id = Ok tt → upholds p h (component_logs p session_id c label absent) done_.
Proof.
  intros Hvalid. eapply upholds_bind; [apply upholds_inspect_optional|]. intros [v|] h1 _ (Hseen & Howner); [|by apply upholds_pure].
  eapply upholds_any, upholds_ask, permit_tail, owner_known; [done|exact Hseen|by apply Howner].
Qed.

Lemma upholds_owned_then {A} h session_id c (rest : broker A) :
  validate_session_id session_id = Ok tt →
  (∀ h', held h' = held h → known_own p h' (component_name c session_id) → upholds p h' rest done_) →
  upholds p h (_ ← require_owned p session_id c (component_name c session_id); rest) done_.
Proof.
  intros Hvalid Hrest. eapply upholds_bind; [apply upholds_require_owned|]. intros v h1 (_ & _ & Hheld) (Hseen & Howner).
  apply Hrest; [done|by eapply owner_known].
Qed.

Lemma upholds_routes h container label :
  container = backend_container_name p ∨ container = service_container_name p → upholds p h (require_network_none_routes container label) done_.
Proof.
  intros Hcontainer.
  assert (Hexec : ∀ h' command, command ∈ route_execs → permitted p h' (DockerCli (lit "exec" :: container :: command) DOCKER_TIMEOUT)).
  { intros h' command Hin. apply permit_policy_exec. destruct Hcontainer as [->| ->]; [left|by right]. split; [done|]. by do 2 right. }
  eapply upholds_bind; [apply upholds_ask, Hexec; by left|]. intros ipv4 h1 _ _. apply upholds_pure_bind. intros _ _.
  eapply upholds_bind; [apply upholds_ask, Hexec; by right; left|]. intros ipv6 h2 _ _. by apply upholds_pure.
Qed.

Lemma upholds_preflight h : upholds p h (preflight p) done_.
Proof.
  eapply upholds_bind; [apply upholds_ask; constructor|]. intros version h1 _ _.
  do 3 (eapply upholds_bind; [apply upholds_inspect_json|]; intros ? ? _ _). do 3 (apply upholds_pure_bind; intros _ _).
  do 6 (eapply upholds_bind; [apply upholds_inspect_json|]; intros ? ? _ _).
  eapply upholds_bind; [apply upholds_ask, permit_policy_exec; left; split; [done|by left]|]. intros owner_mode h2 _ _.
  destruct (negb _); [apply upholds_fail|].
  eapply upholds_bind; [by apply upholds_routes; left|]. intros _ h3 _ _.
  eapply upholds_bind; [by apply upholds_routes; right|]. intros _ h4 _ _.
  eapply upholds_bind; [apply upholds_ask, permit_policy_exec; left; split; [done|by right; left]|]. intros gpu h5 _ _. by apply upholds_pure.
Qed.

(** A component that is absent, or its own and not running. *)
Definition component_quiet (session_id : str) (h : list Event) (c : Component) : Prop :=
  last_seen h (component_name c session_id) = Some Absent
  ∨ ∃ v, last_seen h (component_name c session_id) = Some (Seen v) ∧ belongs p session_id c v ∧ running v = Some false.
Definition quiescence_right (session_id : str) (answer : Answer) (h : list Event) : Prop :=
  match answer with
  | Quiescence _ _ _ _ _ _ quiescent => quiescent = true ↔ ∀ c, component_quiet session_id h c
  | _ => False
  end.

Lemma optional_running_quiet session_id h c found label r :
  last_seen h (component_name c session_id) = Some (found_as found) →
  (∀ v, found = Some v → require_owner p session_id c (component_name c session_id) v = Ok tt) →
  optional_running found label = Ok r → r = false ↔ component_quiet session_id h c.
Proof.
  intros Hlast Howner Hrun. unfold component_quiet. rewrite Hlast. destruct found as [v|]; cbn [optional_running found_as] in *.
  - apply ok_or_ok in Hrun. change (running v = Some r) in Hrun. split; [intros ->; right|intros [|(w & [= <-] & _ & Hw)]; congruence].
    exists v. split_and!; [done|by apply require_owner_belongs, Howner|done].
  - injection Hrun as <-. split; [by left|done].
Qed.

Lemma upholds_quiescent h session_id : upholds p h (prove_session_quiescent p session_id) (quiescence_right session_id).
Proof.
  assert (Hne : ∀ c c', c ≠ c' → component_name c session_id ≠ component_name c' session_id).
  { intros c1 c2 Hne Heq. by apply component_name_inj in Heq. }
  eapply upholds_bind; [apply upholds_inspect_optional|]. intros agent h1 _ (Hagent & Howner1).
  eapply upholds_bind; [apply upholds_inspect_optional|]. intros relay h2 _ (Hrelay & Howner2).
  eapply upholds_bind; [apply upholds_inspect_optional|]. intros capture h3 _ (Hcapture & Howner3).
  apply upholds_pure_bind. intros r1 Hr1. apply upholds_pure_bind. intros r2 Hr2. apply upholds_pure_bind. intros r3 Hr3.
  apply upholds_pure. intros answer [= <-]. cbn [quiescence_right].
  apply (optional_running_quiet session_id h3 AgentComponent) in Hr1; [|rewrite (inspected_other _ _ _ _ _ Hcapture (Hne AgentComponent SessionCapture ltac:(done)));
    rewrite (inspected_other _ _ _ _ _ Hrelay (Hne AgentComponent SessionRelay ltac:(done))); exact (inspected_last _ _ _ _ Hagent)|done].
  apply (optional_running_quiet session_id h3 SessionRelay) in Hr2; [|rewrite (inspected_other _ _ _ _ _ Hcapture (Hne SessionRelay SessionCapture ltac:(done)));
    exact (inspected_last _ _ _ _ Hrelay)|done].
  apply (optional_running_quiet session_id h3 SessionCapture) in Hr3; [|exact (inspected_last _ _ _ _ Hcapture)|done].
  rewrite !andb_true_iff, !negb_true_iff, Hr1, Hr2, Hr3. split; [intros ((? & ?) & ?) []; done|intros Hall; split_and!; apply Hall].
Qed.

Lemma upholds_execute_session h op session_id :
  validate_session_id session_id = Ok tt → (requires_mutation_lock (OnSession op session_id) = true → held h = true) →
  upholds p h (execute_session p op session_id) done_.
Proof.
  intros Hvalid Hlock. destruct op; cbn [execute_session].
  - eapply upholds_bind; [by apply upholds_create_session; auto|]. intros _ h' _ _. by apply upholds_pure.
  - eapply upholds_any, upholds_quiescent.
  - do 3 (eapply upholds_bind; [by apply upholds_component_logs|]; intros ? ? _ _). by apply upholds_pure.
  - apply (upholds_owned_then h session_id AgentComponent); [done|]. intros h' _ Hknown.
    eapply upholds_bind; [by apply upholds_ask, permit_wait|]. intros output h1 _ _. apply upholds_pure_bind. intros code _. by apply upholds_pure.
  - apply (upholds_owned_then h session_id AgentComponent); [done|]. intros h' _ Hknown.
    eapply upholds_bind; [by apply upholds_follow|]. intros line h1 _ _. apply upholds_pure_bind. intros count _. by apply upholds_pure.
  - apply (upholds_owned_then h session_id SessionCapture); [done|]. intros h' _ Hknown.
    eapply upholds_bind; [by apply upholds_follow|]. intros line h1 _ _. apply upholds_pure_bind. intros counts _. by apply upholds_pure.
  - apply (upholds_owned_then h session_id AgentComponent); [done|]. intros h' Hheld Hknown.
    eapply upholds_bind; [apply upholds_stop; [rewrite Hheld; auto|done]|]. intros escalated h1 _ _. by apply upholds_pure.
  - eapply upholds_bind; [by apply upholds_remove_session; auto|]. intros _ h' _ _. by apply upholds_pure.
Qed.

Lemma upholds_execute h r : (requires_mutation_lock r = true → held h = true) → upholds p h (execute p r) done_.
Proof.
  intros Hlock. destruct r as [| |op session_id]; cbn [execute].
  - eapply upholds_bind; [apply upholds_preflight|]. intros evidence h' _ _. by apply upholds_pure.
  - eapply upholds_bind; [by apply upholds_sweep; auto|]. intros _ h' _ _. by apply upholds_pure.
  - apply upholds_pure_bind. intros [] Hvalid. by apply upholds_execute_session.
Qed.
End Execute.

(** ** Connections side by side *)
Section Connections.
Context (p : Policy).

Lemma locked_lawful {A} (m : broker A) h :
  (∀ h, held h = true → upholds p h m done_) → lawful p h → held h = false →
  wp (_ ← perform LockMutations; settle m (fun r => _ ← perform UnlockMutations; pure r)) (fun _ h' => lawful p h' ∧ held h' = false) h.
Proof.
  intros Hm Hlaw Hfree r. cbn [wp bind_interaction].
  set (e := {| did := LockMutations; got := r |}). assert (Hheld : held (h ++ [e]) = true) by by rewrite held_snoc.
  assert (Hlaw1 : lawful p (h ++ [e])) by by apply lawful_snoc, permit_lock.
  apply wp_settle. eapply wp_mono; [by apply Hm|]. intros r' h2 ((Hlaw2 & _ & Hheld2) & _) r''. split.
  - apply lawful_snoc; [done|]. apply permit_unlock. congruence.
  - by rewrite held_snoc.
Qed.

Lemma respond_wp bytes h : lawful p h → held h = false → wp (respond p bytes) (fun _ h' => lawful p h' ∧ held h' = false) h.
Proof.
  intros Hlaw Hfree. unfold respond. destruct (_ <? _); [done|]. destruct (parse_request bytes) as [r|e]; [|done].
  destruct (requires_mutation_lock r) eqn:Hlock.
  - apply locked_lawful; [|done|done]. intros h' Hheld. by apply upholds_execute.
  - eapply wp_mono; [apply (upholds_execute p h r); [by rewrite Hlock|done]|].
    intros r' h' ((Hlaw' & _ & Hheld) & _). split; [done|congruence].
Qed.

Definition stop_broker : broker Answer := _ ← shutdown p; pure (Ok Empty).

Lemma stop_broker_wp h : lawful p h → held h = false → wp stop_broker (fun _ h' => lawful p h' ∧ held h' = false) h.
Proof.
  intros Hlaw Hfree. apply wp_bind. eapply wp_mono; [by apply locked_lawful; [intros; apply upholds_sweep|..]|]. by intros [[]|e] h'.
Qed.

(** Everything that runs: each program with what it has done, and who holds the lock. *)
Record System := { holder : option nat; programs : list (interaction (result str Answer) * list Event) }.
Definition idle : System := {| holder := None; programs := [] |}.

Inductive step : System → System → Prop :=
| step_accept s bytes : step s {| holder := holder s; programs := programs s ++ [(respond p bytes, [])] |}
| step_shutdown s : step s {| holder := holder s; programs := programs s ++ [(stop_broker, [])] |}
| step_lock s i (k : reply LockMutations → _) (h : list Event) :
    programs s !! i = Some (Perform LockMutations k, h) → holder s = None →
    step s {| holder := Some i; programs := <[i := (k tt, h ++ [{| did := LockMutations; got := tt |}])]> (programs s) |}
| step_unlock s i (k : reply UnlockMutations → _) (h : list Event) :
    programs s !! i = Some (Perform UnlockMutations k, h) →
    step s {| holder := None; programs := <[i := (k tt, h ++ [{| did := UnlockMutations; got := tt |}])]> (programs s) |}
| step_act s i a (k : reply a → _) (h : list Event) (r : reply a) :
    programs s !! i = Some (Perform a k, h) → a ≠ LockMutations → a ≠ UnlockMutations →
    step s {| holder := holder s; programs := <[i := (k r, h ++ [{| did := a; got := r |}])]> (programs s) |}.

Definition reachable (s : System) : Prop := rtc step idle s.

(** What every program keeps: it is lawful to its end, and it holds the lock when
    its own history says so. *)
Definition sound_program (s : System) (i : nat) (program : interaction (result str Answer) * list Event) : Prop :=
  lawful p program.2 ∧ wp program.1 (fun _ h' => lawful p h' ∧ held h' = false) program.2 ∧ (held program.2 = true ↔ holder s = Some i).
Definition sound (s : System) : Prop :=
  (∀ i program, programs s !! i = Some program → sound_program s i program) ∧ (∀ i, holder s = Some i → is_Some (programs s !! i)).

Lemma reply_inhabited (a : Action) : reply a.
Proof. destruct a; first [exact CliTimedOut|exact (Err [])|exact 0|exact tt]. Qed.

(** The next action of a program that is lawful to its end is permitted. *)
Lemma next_permitted {A} a (k : reply a → interaction A) h :
  wp (Perform a k) (fun _ h' => lawful p h' ∧ held h' = false) h → permitted p h a ∧ ∀ r, lawful p (h ++ [{| did := a; got := r |}]).
Proof.
  intros Hwp.
  assert (Hlaw : ∀ r, lawful p (h ++ [{| did := a; got := r |}])).
  { intros r. destruct (wp_extends _ _ _ (Hwp r) (fun a => inhabits (reply_inhabited a))) as (x & h' & Hpre & Hlaw & _). by eapply lawful_prefix. }
  split; [|done]. by apply (Hlaw (reply_inhabited a) h {| did := a; got := reply_inhabited a |} []).
Qed.

Lemma lock_held h a : permitted p h a → mutates a = true → held h = true.
Proof. by intros []. Qed.

Lemma sound_accept s m : wp m (fun _ h' => lawful p h' ∧ held h' = false) [] → sound s → sound {| holder := holder s; programs := programs s ++ [(m, [])] |}.
Proof.
  intros Hwp (Hprograms & Hholder). split; cbn [holder programs].
  - intros i program [Hi|(Hlen & Hi)]%lookup_app_Some; [exact (Hprograms i program Hi)|].
    apply list_lookup_singleton_Some in Hi as [Hzero <-]. split_and!; [apply lawful_nil|done|].
    split; [discriminate|]. intros Hheld. destruct (Hholder i Hheld) as [x Hx]. apply lookup_lt_Some in Hx. lia.
  - intros i Hi. destruct (Hholder i Hi) as [x Hx]. exists x. by apply lookup_app_l_Some.
Qed.

(** One program's step, given what becomes of the lock. *)
Lemma sound_step s i a (k : reply a → _) h (r : reply a) now :
  sound s → programs s !! i = Some (Perform a k, h) →
  (lock_after (held h) {| did := a; got := r |} = true ↔ now = Some i) →
  (∀ j, j ≠ i → now = Some j ↔ holder s = Some j) →
  sound {| holder := now; programs := <[i := (k r, h ++ [{| did := a; got := r |}])]> (programs s) |}.
Proof.
  intros (Hprograms & Hholder) Hi Hlock Hothers. destruct (Hprograms i _ Hi) as (Hlaw & Hwp & Hheld).
  apply lookup_lt_Some in Hi as Hlen. split; cbn [holder programs].
  - intros j program [(-> & <- & _)|(Hne & Hj)]%list_lookup_insert_Some.
    + split_and!; [by apply (next_permitted a k)|by apply Hwp|]. cbn [snd holder]. by rewrite held_snoc.
    + destruct (Hprograms j program Hj) as (Hlawj & Hwpj & Hheldj). split_and!; [done|done|]. cbn [holder]. rewrite Hothers; [done|congruence].
  - intros j Hj. apply lookup_lt_is_Some. rewrite length_insert.
    destruct (decide (j = i)) as [->|Hne]; [done|]. apply Hothers in Hj; [|done]. apply lookup_lt_is_Some. by apply Hholder.
Qed.

Lemma step_sound s s' : step s s' → sound s → sound s'.
Proof.
  intros Hstep Hsound. pose proof Hsound as (Hprograms & Hholder).
  destruct Hstep as [s bytes|s|s i k h Hi Hfree|s i k h Hi|s i a k h r Hi Hnl Hnu].
  - apply sound_accept; [|done]. by apply respond_wp; [apply lawful_nil|].
  - apply sound_accept; [|done]. by apply stop_broker_wp; [apply lawful_nil|].
  - eapply sound_step; [done|done|done|]. intros j Hne. rewrite Hfree. split; congruence.
  - destruct (Hprograms i _ Hi) as (_ & Hwp & Hheld). apply next_permitted in Hwp as (Hper & _).
    assert (Hmine : holder s = Some i). { apply Hheld. by inversion Hper. }
    eapply sound_step; [done|done|done|]. intros j Hne. rewrite Hmine. split; congruence.
  - destruct (Hprograms i _ Hi) as (_ & _ & Hheld). eapply sound_step; [done|done| |done].
    rewrite <- Hheld. by destruct a.
Qed.

Lemma reachable_sound s : reachable s → sound s.
Proof.
  intros Hreach. assert (Hidle : sound idle) by by split.
  induction Hreach as [s|s s' s'' Hstep _ IH]; [done|]. apply IH. by eapply step_sound.
Qed.
End Connections.

(** ** What a single connection can reach *)
Section Advance.
Context (p : Policy) (env : Environment).

Definition advance_once {A} (program : interaction A * list Event) : interaction A * list Event :=
  match program.1 with
  | Return _ => program
  | Perform a k => let r := env program.2 a in (k r, program.2 ++ [{| did := a; got := r |}])
  end.
Definition advance {A} (n : nat) (program : interaction A * list Event) : interaction A * list Event := Nat.iter n advance_once program.
Definition next_mutates {A} (m : interaction A) : bool := match m with Return _ => false | Perform a _ => mutates a end.
Definition alone (program : interaction (result str Answer) * list Event) : System :=
  {| holder := if held program.2 then Some 0%nat else None; programs := [program] |}.

Definition mutex_action (a : Action) : bool := match a with LockMutations | UnlockMutations => true | _ => false end.
Lemma permit_lock_inv h : permitted p h LockMutations → held h = false.
Proof. by inversion 1. Qed.

Lemma alone_step a k h :
  reachable p (alone (Perform a k, h)) → reachable p (alone (advance_once (Perform a k, h))).
Proof.
  intros Hreach. pose proof (proj1 (reachable_sound p _ Hreach) 0%nat _ eq_refl) as (_ & Hwp & _).
  cbn [fst snd] in Hwp. apply next_permitted in Hwp as (Hper & _). eapply rtc_r; [exact Hreach|]. unfold advance_once, alone. cbn [fst snd].
  rewrite held_snoc.
  assert (Hact : a ≠ LockMutations → a ≠ UnlockMutations → lock_after (held h) {| did := a; got := env h a |} = held h) by by destruct a.
  destruct (decide (mutex_action a)) as [Hmutex|Hother].
  - destruct a; try done.
    + apply permit_lock_inv in Hper. rewrite Hper. cbn. destruct (env h LockMutations).
      apply (step_lock p {| holder := None; programs := [(Perform LockMutations k, h)] |} 0%nat k h); done.
    + cbn. destruct (env h UnlockMutations). apply (step_unlock p {| holder := _; programs := [(Perform UnlockMutations k, h)] |} 0%nat k h). done.
  - rewrite Hact by by intros ->.
    apply (step_act p {| holder := _; programs := [(Perform a k, h)] |} 0%nat a k h (env h a)); [done|by intros ->..].
Qed.

Lemma alone_reachable n bytes : reachable p (alone (advance n (respond p bytes, []))).
Proof.
  induction n as [|n IH]; [eapply rtc_l; [apply (step_accept p idle bytes)|constructor]|].
  change (advance (S n) (respond p bytes, [])) with (advance_once (advance n (respond p bytes, []))).
  destruct (advance n (respond p bytes, [])) as [[r|a k] h]; [exact IH|by apply alone_step].
Qed.
End Advance.

(** ** The authority of the broker *)

(** C4: whatever bytes a connection carries and whatever the daemon, the file system
    and the clock reply, every action of the broker is permitted when it is taken:
    it starts only the three containers of a session, sidecars only for an agent
    just verified; reads logs, runs commands, stops and removes only what it has
    proved to be its own, and removes only what was last seen stopped; every such
    change holds the mutation lock, which is given back at the end. *)
Theorem respond_lawful (p : Policy) (bytes : str) (env : Environment) :
  lawful p (run env [] (respond p bytes)).2 ∧ held (run env [] (respond p bytes)).2 = false.
Proof. apply (wp_run (respond p bytes) (fun _ h' => lawful p h' ∧ held h' = false)). by apply respond_wp; [apply lawful_nil|]. Qed.

(** C16: however connections and the shutdown interleave, a program about to run a
    command that changes anything holds the mutation lock: no two of them ever
    change anything side by side, and each one's own history is lawful. *)
Theorem mutation_exclusive (p : Policy) (s : System) (i : nat) a (k : reply a → interaction (result str Answer)) (h : list Event) :
  reachable p s → programs s !! i = Some (Perform a k, h) → mutates a = true → holder s = Some i ∧ lawful p h ∧ permitted p h a.
Proof.
  intros Hreach Hi Hmut. destruct (proj1 (reachable_sound p s Hreach) i _ Hi) as (Hlaw & Hwp & Hheld).
  apply next_permitted in Hwp as (Hper & _). split_and!; [|done|done]. apply Hheld. by eapply lock_held.
Qed.

Definition locked : list Event := [{| did := LockMutations; got := tt |}].
Lemma locked_ok p : lawful p locked ∧ held locked = true.
Proof. split; [|done]. apply (lawful_snoc p [] {| did := LockMutations; got := tt |}); [apply lawful_nil|by apply permit_lock]. Qed.

(** C17: a session that was created without an error has an agent whose inspection
    meets its whole contract and whose network namespace showed no route and no
    link but the loopback, and a capture and a relay whose inspections meet
    theirs, in the namespace of the agent as it was then seen. *)
Theorem created_session_verified (p : Policy) (session_id : str) (env : Environment) :
  validate_session_id session_id = Ok tt → (run env locked (create_session p session_id)).1 = Ok tt →
  session_created p session_id (run env locked (create_session p session_id)).2.
Proof.
  intros Hvalid Hok. destruct (locked_ok p) as (Hlaw & Hheld).
  refine (proj2 (wp_run (create_session p session_id) (fun r h' => extends p locked h' ∧ ∀ a, r = Ok a → session_created p session_id h') env locked _) tt Hok).
  exact (upholds_create_session p session_id Hvalid locked Hheld Hlaw).
Qed.

(** C29: a session is answered to be quiescent exactly when each of its containers was
    last seen absent, or as the session's own and not running. *)
Theorem quiescence_exact (p : Policy) (session_id : str) (env : Environment) answer :
  (run env [] (prove_session_quiescent p session_id)).1 = Ok answer →
  quiescence_right p session_id answer (run env [] (prove_session_quiescent p session_id)).2.
Proof.
  intros Hok.
  refine (proj2 (wp_run (prove_session_quiescent p session_id) (fun r h' => extends p [] h' ∧ ∀ a, r = Ok a → quiescence_right p session_id a h') env [] _) answer Hok).
  exact (upholds_quiescent p [] session_id (lawful_nil p)).
Qed.
End Authority.

(** ** A session on a daemon that does what it is told *)
Module Demo.

(** The policy the broker is compiled with. *)
Definition shipped_policy : Policy := {|
  schema_version := 1; policy_id := lit "qwen38-docker-broker-v1"; profile := lit "qwen38-agent-service-v3";
  broker_container_name := lit "qwen38-docker-broker";
  broker_policy := {| bk_image_tag := lit "qwen38-docker-broker:1.1.0"; bk_memory := lit "128m"; bk_memory_swap := lit "128m"; bk_pids_limit := 64;
                      bk_uid := 1000; bk_gid := 984; bk_docker_socket := lit "/var/run/docker.sock" |};
  broker_socket_path := lit "/home/user/Desktop/agent_service/.runtime/control/broker.sock";
  runtime_root := lit "/home/user/Desktop/agent_service/.runtime";
  state_dir := lit "/home/user/Desktop/agent_service/.runtime/state";
  model_socket_dir := lit "/home/user/Desktop/agent_service/.runtime/model-socket";
  service_container_name := lit "qwen38-agent-service"; backend_container_name := lit "qwen38-agent-native";
  backend_cache_volume := lit "qwen38-vllm-cache-socket-isolated-nonroot-vision-agent-v21";
  backend_cache_mount := lit "/home/vllm/.cache/vllm"; backend_cache_owner_mode := lit "2000:0:770";
  model_bridge_container_name := lit "qwen38-model-bridge"; model_ingress_container_name := lit "qwen38-model-ingress";
  agent_policy := {| ag_image_tag := lit "qwen38-agent:0.21.12-b965d5f8-v9";
                     ag_image_id := lit "sha256:4fa422f8688700a889758d58dfedd63f7d1f4c6609e2c14f9b9b93cb17ae8b4b";
                     ag_memory := lit "32g"; ag_memory_swap := lit "32g"; ag_pids_limit := 4096; ag_ready_event_prefix := ready_prefix;
                     ag_sandbox := lit "landlock-fs-v4-write-roots-v1+private-devpts-rw-v1+output-unmounted-v1" |};
  relay_policy := {| rl_image_tag := lit "qwen38-fixed-relay:1.0.0";
                     rl_image_id := lit "sha256:869cc8dc77736fe3f39dbfb07e1677df4a4b25928980f38efd22d1f0117c0b87";
                     rl_sandbox := lit "landlock-net-v4+seccomp-socket-v2"; rl_memory := lit "32m"; rl_memory_swap := lit "32m"; rl_pids_limit := 32;
                     rl_role := lit "agent-model" |};
  capture_policy := {| cp_image_tag := lit "qwen38-session-capture:1.0.0";
                       cp_image_id := lit "sha256:2f446423fd30fd62cf733fd11e47dd4840bcdd7b6320da7c0e9326d23d33c6d7";
                       cp_capture_id := lit "unix-stream-capture-v1"; cp_memory := lit "32m"; cp_memory_swap := lit "32m"; cp_pids_limit := 32;
                       cp_ready_event := lit "CAPTURE_READY capture=unix-stream-capture-v1 events=/streams/events.sock stderr=/streams/stderr.sock";
                       cp_complete_event_prefix := lit "CAPTURE_COMPLETE capture=unix-stream-capture-v1 events_bytes=" |};
|}.
Definition session : str := lit "s-" ++ repeat 97 64.

Definition text (s : string) : Json Z := JString (lit s).
Definition member (key : string) (v : Json Z) : str * Json Z := (lit key, v).
Definition mount (c : MountContract) : Json Z :=
  JObject [member "Type" (text "bind"); member "Source" (JString (mc_source c)); member "Destination" (JString (mc_destination c));
           member "RW" (JBool (mc_writable c)); member "Propagation" (text "rprivate")].
(** What the daemon's inspection of a running component is. *)
Definition container (c : Component) (user_dir : string) (network : str) (entrypoint : string) (command : list string)
  (memory pids : Z) (label : string * str) (mounts : list MountContract) : Json Z :=
  let image := JString (component_image shipped_policy c) in
  JObject
    [member "Id" (text "agent-id"); member "Name" (JString (lit "/" ++ component_name c session)); member "AppArmorProfile" (text "docker-default");
     member "Image" image; member "State" (JObject [member "Running" (JBool true)]); member "Mounts" (JArray (map mount mounts));
     member "ImageManifestDescriptor" (JObject [member "mediaType" (text "application/vnd.oci.image.manifest.v1+json"); member "digest" image]);
     member "Config" (JObject
       [member "User" (text "1000:1000"); member "WorkingDir" (text user_dir); member "Entrypoint" (JArray [text entrypoint]);
        member "Cmd" (JArray (map text command)); member "Image" image;
        member "Labels" (JObject [member "agent_service.session" (JString session); member "agent_service.profile" (JString (profile shipped_policy));
                                  member "agent_service.component" (JString (component_label c)); member label.1 (JString label.2)])]);
     member "HostConfig" (JObject
       [member "NetworkMode" (JString network); member "ReadonlyRootfs" (JBool true); member "Memory" (JNumber memory);
        member "MemorySwap" (JNumber memory); member "PidsLimit" (JNumber pids); member "Privileged" (JBool false);
        member "CapDrop" (JArray [text "ALL"]); member "CapAdd" JNull; member "Devices" (JArray []); member "DeviceRequests" JNull;
        member "RestartPolicy" (JObject [member "Name" (text "no")]); member "SecurityOpt" (JArray [text "no-new-privileges:true"]);
        member "PidMode" (JString []); member "IpcMode" (text "private"); member "UTSMode" (JString []); member "PortBindings" (JObject [])])].

Fixpoint member_at (key : str) (ms : list (str * Json Z)) : option (Json Z) :=
  match ms with [] => None | (k, v) :: ms => if decide (k = key) then Some v else member_at key ms end.
(** A pointer through objects. *)
Definition pointer_in (v : Json Z) (pointer : str) : option (Json Z) :=
  fold_left (fun v key => match v with Some (JObject ms) => member_at key ms | _ => None end) (tail (split_on 47 pointer)) (Some v).

(** The texts of the demonstration, each for what it parses to. *)
Definition mounts_of (p : Policy) (c : Component) : list MountContract :=
  match c with AgentComponent => agent_mounts p session | SessionRelay => relay_mounts p | SessionCapture => capture_mounts p session end.
Definition inspection (c : Component) : Json Z :=
  let network := lit "container:agent-id" in
  match c with
  | AgentComponent => container c "/workspace" (lit "none") "/opt/agent/run_agent.sh" [] 34359738368 4096 ("demo"%string, []) (mounts_of shipped_policy c)
  | SessionCapture =>
      container c "/" network "/session_capture" [] 33554432 32 ("agent_service.capture.id"%string, cp_capture_id (capture_policy shipped_policy))
        (mounts_of shipped_policy c)
  | SessionRelay =>
      container c "/" network "/fixed_relay" ["agent-model"%string] 33554432 32
        ("agent_service.relay.sandbox"%string, rl_sandbox (relay_policy shipped_policy)) (mounts_of shipped_policy c)
  end.
Definition loopback : Json Z :=
  JArray [JObject [member "ifname" (text "lo"); member "link_type" (text "loopback"); member "address" (text "00:00:00:00:00:00");
                   member "mtu" (JNumber 65536); member "flags" (JArray [text "LOOPBACK"; text "UP"; text "LOWER_UP"])]].
Definition stop_request : str := lit "stop the session" ++ [10].
Definition parsed (s : str) : option (Json Z) :=
  if decide (s = lit "links") then Some loopback
  else if decide (s = stop_request) then Some (JObject [member "op" (text "stop_session"); (lit "session_id", JString session)])
  else JArray ∘ (.:: []) ∘ inspection <$> component_of_label s.
#[local] Instance demo_serde : Serde := {|
  number := Z; number_f64 := fun _ => None; number_u64 := Some; number_of_u64 := fun n => n; value_from_str := parsed; value_pointer := pointer_in;
|}.

(** The daemon: a container is there once it was run. *)
Definition said (output : str) : CliOutcome := CliFinished [output] [] (Some 0).
Definition was_run (h : list Event) (name : str) : bool :=
  existsb (fun e => match did e with DockerCli (verb :: _ :: _ :: name' :: _) _ => bool_decide (verb = lit "run") && bool_decide (name' = name) | _ => false end) h.
Definition component_named (name : str) : option Component :=
  List.find (fun c => bool_decide (component_name c session = name)) [AgentComponent; SessionRelay; SessionCapture].
Definition answer_cli (started : str → bool) (argv : list str) : CliOutcome :=
  match argv with
  | [verb; name] =>
      match component_named name with
      | Some c => if bool_decide (verb = lit "inspect") && started name then said (component_label c) else CliFinished [] [lit "Error: No such object"] (Some 1)
      | None => CliFailed (lit "unknown")
      end
  | [_; _; _; _; _; show] => if decide (argv !! 3%nat = Some (lit "-j")) then said (lit "links") else said []
  | _ => said []
  end.
Definition ready_line (argv : list str) : str :=
  match argv with
  | [_; _; _; _; name] => if decide (name = relay_name session) then relay_ready (rl_role (relay_policy shipped_policy)) else cp_ready_event (capture_policy shipped_policy)
  | _ => []
  end.
Definition mode_of (path : str) : Z :=
  match List.find (fun entry => ends_with (lit entry.1) path) (session_directories ++ session_controls) with Some entry => entry.2 | None => 0 end.
Definition metadata_of (path : str) : Metadata :=
  let control := contains (lit "/control/") path in
  {| md_symlink := false; md_dir := negb control; md_file := control; md_uid := 1000; md_gid := 1000; md_mode := mode_of path |}.
Definition daemon (present : bool) : Environment := fun h a =>
  match a with
  | DockerCli argv _ => answer_cli (fun name => present || was_run h name) argv
  | FollowLogs argv _ => Ok {| fl_lines := [ready_line argv]; fl_end := LogEnded; fl_status := FollowSuccess |}
  | SymlinkMetadata path => Ok (metadata_of path)
  | Canonicalize path => Ok path
  | ElapsedSeconds => 3
  | LockMutations | UnlockMutations => tt
  end.

Example shipped_policy_valid : validate_policy shipped_policy = Ok tt.
Proof. by vm_compute. Qed.

Example sweep_on_nothing : (run (daemon false) locked (sweep_orphans shipped_policy)).1 = Ok tt.
Proof. by vm_compute. Qed.

Lemma created_session_verified_witness :
  session_created shipped_policy session (run (daemon false) locked (create_session shipped_policy session)).2.
Proof. apply created_session_verified; by vm_compute. Defined.

Lemma quiescence_exact_witness :
  quiescence_right shipped_policy session (Quiescence false false false false false false true)
    (run (daemon false) [] (prove_session_quiescent shipped_policy session)).2.
Proof. apply quiescence_exact. by vm_compute. Defined.

Lemma mutation_exclusive_witness :
  ∃ s a (k : reply a → interaction (result str Answer)) h, reachable shipped_policy s ∧ mutates a = true ∧ programs s !! 0%nat = Some (Perform a k, h) ∧ holder s = Some 0%nat.
Proof.
  pose proof (alone_reachable shipped_policy (daemon true) 2 stop_request) as Hreach.
  assert (Hmut : next_mutates (advance (daemon true) 2 (respond shipped_policy stop_request, [])).1 = true) by by vm_compute.
  destruct (advance (daemon true) 2 (respond shipped_policy stop_request, [])) as [[r|a k] h]; [discriminate Hmut|].
  exists (alone (Perform a k, h)), a, k, h. split_and!; [exact Hreach|exact Hmut|done|].
  apply (mutation_exclusive shipped_policy _ 0%nat a k h Hreach eq_refl Hmut).
Defined.
End Demo.
