(* ===== verification/Turns.v ===== *)
(** * Turns: what a request owes its conversation (src/protocol/engine/src/model_requests.rs)

    A request to the model carries its conversation's history: the snapshot the
    last committed compaction accepted, rendered as the block the client renders
    ([SnapshotBlock]), and every turn accepted since, each exactly as the model
    wrote it and stated as the model's ([turn_difference], [require_owed]).  Proved:
    what [require_owed] accepts carries exactly those turns, in order, with every
    string of each copied in full from the generation that wrote it, and holds the
    snapshot as a separate rendering of its block gives it. *)
From S2P Require Import Prelude Number Utf8 BTree Json JsonTree Schema Stream Usage Generation Authorship Sse Serde.

(** ** Machine arithmetic and slices *)
Definition usize_sub (a b : nat) (site : string) : contract nat :=
  if (b <=? a)%nat then Ok (a - b)%nat else Err (Panic site).
Definition up_to {A} (n : nat) (l : list A) (site : string) : contract (list A) :=
  if (n <=? length l)%nat then Ok (take n l) else Err (Panic site).

(** [max_by_key]: the last of the greatest. *)
Definition max_by_key {A} (key : A → nat) (l : list A) : option A :=
  fold_left (fun best x => match best with Some b => if (key b <=? key x)%nat then Some x else best | None => Some x end) l None.

Definition nl : str := [10].

Definition somes {A} (l : list (option A)) : list A := omap (fun x => x) l.

(** ** The snapshot block *)
Definition SNAPSHOT_ELEMENTS : list str :=
  [lit "primary_request_and_intent"; lit "key_technical_concepts"; lit "files_and_code_sections"; lit "errors_and_fixes";
   lit "problem_solving"; lit "all_user_messages"; lit "pending_tasks"; lit "current_work"; lit "next_step"].

Record BlockSection := { section_name : str; section_closes : bool; section_offset : nat; section_text : str }.
Record SnapshotBlock := { opening : str; closing : str; sections : list BlockSection }.

Section Snapshot.
Context `{Serde}.

(** [authorship::served_value] *)
Definition served_value (call : json) : option (list (str * json)) :=
  t ← served_text call; v ← value_from_str t; json_object v.

Definition declared_sections : list str := List.filter (fun s => negb (bool_decide (s = lit "all_user_messages"))) SNAPSHOT_ELEMENTS.

Definition declared_section (args : list (str * json)) (section : str) : option (str * str) :=
  v ← find_member section args; s ← json_str v; Some (section, s).

Definition snapshot_sections (calls : list json) : option (list (str * str)) :=
  call ← head calls;
  if negb (length calls =? 1)%nat || bool_decide ((json_get call (lit "name") ≫= json_str) ≠ Some (lit "state_snapshot")) then None
  else
    args ← served_value call;
    if negb (length args =? length SNAPSHOT_ELEMENTS - 1)%nat then None
    else mapM (declared_section args) declared_sections.

Definition section_open (section : str) : str := lit "    <" ++ section ++ lit ">" ++ nl.
Definition section_close (section : str) : str := nl ++ lit "    </" ++ section ++ lit ">".

(** One element of a half: what it writes and where its text starts. *)
Definition half_step (declared : gmap str str) (closes : bool) (st : str * list BlockSection) (element : nat * str) :
    contract (str * list BlockSection) :=
  let '(index, section) := element in
  let '(text, sections) := st in
  let text := (if (0 <? index)%nat then text ++ nl ++ nl else text) ++ section_open section in
  body ← expect (declared !! section) "declared[section]";
  Ok (text ++ body ++ section_close section,
      sections ++ [{| section_name := section; section_closes := closes; section_offset := length text; section_text := body |}]).
Definition half (declared : gmap str str) (closes : bool) (text : str) (sections : list BlockSection) (elements : list str) :
    contract (str * list BlockSection) :=
  fold_result (half_step declared closes) (text, sections) (imap pair elements).

Definition block_of (calls : list json) : contract (option SnapshotBlock) :=
  match snapshot_sections calls with
  | None => Ok None
  | Some sections =>
      let declared : gmap str str := list_to_map sections in
      '(opening, sections) ← half declared false (lit "<state_snapshot>" ++ nl) [] (take 5 SNAPSHOT_ELEMENTS);
      let opening := opening ++ nl ++ nl ++ lit "    <all_user_messages>" ++ nl in
      '(closing, sections) ← half declared true (nl ++ lit "    </all_user_messages>" ++ nl ++ nl) sections (drop 6 SNAPSHOT_ELEMENTS);
      Ok (Some {| opening := opening; closing := closing ++ nl ++ lit "</state_snapshot>"; sections := sections |})
  end.

Definition snapshot_text (calls : list json) : contract (option str) :=
  b ← block_of calls; Ok (match b with Some b => Some (opening b ++ closing b) | None => None end).
End Snapshot.

(** ** A turn of the conversation *)
Definition only (v : Value) (keys : list string) : bool :=
  match members v with
  | Some ms => forallb (fun m => existsb (fun k => bool_decide (m.1 = lit k)) keys) ms
  | None => false
  end.

Definition says (v : option Value) (written : str) : bool :=
  if bool_decide (written = []) then
    match v with None => true | Some v => is_null v || bool_decide (as_str v = Some []) end
  else bool_decide ((v ≫= as_str) = Some written).

Definition same_call (call : Value) (written : Call) : bool :=
  let function := get call "function" in
  only call ["id"; "type"; "function"]
  && bool_decide ((get call "type" ≫= as_str) = Some (lit "function"))
  && bool_decide ((get call "id" ≫= as_str) = Some (call_id written))
  && match function with Some function => only function ["name"; "arguments"] | None => false end
  && bool_decide ((function ≫= fun function => get function "name" ≫= as_str) = call_name written)
  && bool_decide ((function ≫= fun function => get function "arguments" ≫= as_str) = Some (call_arguments written)).

(** The calls a message sends; [None] when they are not an array. *)
Definition sent_calls (message : Value) : option (list Value) :=
  match get message "tool_calls" with
  | None => Some []
  | Some calls => if is_null calls then Some [] else elements calls
  end.

Definition turn_difference (message : Value) (generation : Generation) : option string :=
  if negb (only message ["role"; "content"; "reasoning_content"; "tool_calls"])
  then Some "members: a turn is its role, content, reasoning_content and tool_calls"%string
  else if negb (says (get message "content") (shown_text generation))
  then Some "content: it is not the text the model wrote"%string
  else if negb (says (get message "reasoning_content") (shown_reasoning generation))
  then Some "reasoning_content: it is not the reasoning the model wrote"%string
  else
    match sent_calls message with
    | None => Some "tool_calls: they are not the calls the model made"%string
    | Some sent =>
        if (length sent =? length (calls generation))%nat && forallb (fun p => same_call p.1 p.2) (zip sent (calls generation))
        then None
        else Some "tool_calls: they are not the calls the model made, each its identity, name and arguments"%string
    end.

(** A string of the model's a message carries: the field it is, where the
    message holds it and the string. *)
Record TurnString := { ts_field : str; ts_member : nat * nat; ts_text : str }.

Definition member_range (v : option Value) : contract (nat * nat) := byte_range <$> expect v "a turn's member".

Definition call_strings (strings : list TurnString) (item : nat * (Value * Call)) : contract (list TurnString) :=
  let '(index, (call, written)) := item in
  function ← expect (get call "function") "a turn's call function";
  strings ←
    match nonempty_str (call_name written) with
    | Some name =>
        range ← member_range (get function "name");
        Ok (strings ++ [{| ts_field := lit "/calls/" ++ show_Z (Z.of_nat index) ++ lit "/name"; ts_member := range; ts_text := name |}])
    | None => Ok strings
    end;
  range ← member_range (get function "arguments");
  Ok (strings ++ [{| ts_field := lit "/calls/" ++ show_Z (Z.of_nat index) ++ lit "/arguments"; ts_member := range;
                     ts_text := call_arguments written |}]).

Definition turn_strings (message : Value) (generation : Generation) : contract (list TurnString) :=
  strings ←
    (if bool_decide (shown_reasoning generation = []) then Ok []
     else range ← member_range (get message "reasoning_content");
          Ok [{| ts_field := lit "/reasoning"; ts_member := range; ts_text := shown_reasoning generation |}]);
  strings ←
    (if bool_decide (shown_text generation = []) then Ok strings
     else range ← member_range (get message "content");
          Ok (strings ++ [{| ts_field := lit "/text"; ts_member := range; ts_text := shown_text generation |}]));
  let sent := default [] (get message "tool_calls" ≫= elements) in
  fold_result call_strings strings (imap pair (zip sent (calls generation))).

(** ** The text items of a user message *)
Definition is_text_item (item : Value) : bool := bool_decide ((get item "type" ≫= as_str) = Some (lit "text")).

Definition text_item (base : nat) (item : Value) : contract (option (nat * str)) :=
  match get item "text" with
  | None => Ok None
  | Some t =>
      at_ ← usize_sub (S (span_start (entry t))) base "text.byte_range().start + 1 - base";
      Ok (s ← as_str t; Some (at_, s))
  end.

Definition user_text_items (message : Value) : contract (list (nat * str)) :=
  if bool_decide ((get message "role" ≫= as_str) ≠ Some (lit "user")) then Ok []
  else
    found ← traverse (text_item (span_start (entry message)))
              (List.filter is_text_item (default [] (get message "content" ≫= elements)));
    Ok (somes found).

(** The first byte at which two texts differ. *)
Fixpoint differs_at (a b : str) : nat :=
  match a, b with
  | x :: a, y :: b => if x =? y then S (differs_at a b) else 0
  | _, _ => 0
  end.

(** ** The block among the messages *)

(** Which half of the block a message lacks, and where it differs. *)
Inductive BlockRefusal :=
| NoOpening (nearest : option (nat * nat * nat))
| NoClosing (index item : nat) (nearest : option (nat * nat))
| NotCopied (index item : nat) (closes : bool) (field : str) (at_ : nat).

(** [find_map] over the messages: the first that holds the opening as an item. *)
Fixpoint find_opening (text : str) (index : nat) (messages : list Value) : contract (option (nat * list (nat * str) * nat)) :=
  match messages with
  | [] => Ok None
  | message :: messages =>
      items ← user_text_items message;
      match list_find (fun item => item.2 = text) items with
      | Some (at_, _) => Ok (Some (index, items, at_))
      | None => find_opening text (S index) messages
      end
  end.

Definition message_distances (text : str) (message : nat * Value) : contract (list (nat * nat * nat)) :=
  items ← user_text_items message.2;
  Ok (imap (fun item i => (message.1, item, differs_at i.2 text)) items).

Definition section_cited (citations : list Citation) (draw field : str) (string offset : nat) : list Citation :=
  List.filter (fun run =>
      bool_decide (cite_kind run = lit "compaction_draw") && bool_decide (cite_id run = draw) && bool_decide (cite_field run = field)
      && (string_start run =? string)%nat && (from run <=? place run)%nat && (place run - from run =? offset)%nat) citations.

Definition section_field (s : BlockSection) : str := lit "/calls/0/args/" ++ section_name s.

(** The loop over the sections: the first not copied in full. *)
Fixpoint uncopied (citations : list Citation) (draw : str) (index : nat) (opens closes : nat * nat) (ss : list BlockSection) :
    option BlockRefusal :=
  match ss with
  | [] => None
  | s :: ss =>
      if bool_decide (section_text s = []) then uncopied citations draw index opens closes ss
      else
        let '(string, item) := if section_closes s then closes else opens in
        if copies_in_full (section_cited citations draw (section_field s) string (section_offset s))
             (lit "compaction_draw") draw (section_field s) (section_text s)
        then uncopied citations draw index opens closes ss
        else Some (NotCopied index item (section_closes s) (section_field s) (section_offset s))
  end.

Definition carries_block (messages : list Value) (citations : list (list Citation)) (draw : str) (block : SnapshotBlock) :
    contract (option BlockRefusal) :=
  found ← find_opening (opening block) 0 messages;
  match found with
  | None =>
      distances ← traverse (message_distances (opening block)) (imap pair messages);
      Ok (Some (NoOpening (max_by_key (fun d => d.2) (concat distances))))
  | Some (index, items, at_) =>
      let later := drop (S at_) items in
      match list_find (fun item => starts_with (closing block) item.2 = true) later with
      | None =>
          Ok (Some (NoClosing index at_
            (max_by_key (fun d => d.2) (imap (fun i item => ((S at_ + i)%nat, differs_at item.2 (closing block))) later))))
      | Some (i, closes) =>
          opens ← expect (items !! at_) "items[opening]";
          runs ← expect (citations !! index) "citations[index]";
          Ok (uncopied runs draw index (opens.1, at_) (closes.1, (S at_ + i)%nat) (sections block))
      end
  end.

(** ** Holding a request to what its conversation owes *)
Definition is_assistant (message : Value) : bool := bool_decide ((get message "role" ≫= as_str) = Some (lit "assistant")).

(** The turn a message is, read only to name a refusal. *)
Definition carried_turn (turns : list Generation) (message : Value) : option nat :=
  fst <$> list_find (fun turn => turn_difference message turn = None) turns.

Definition refuse_turn {A} (turns : list Generation) (next : nat) (message : Value) : contract A :=
  match carried_turn turns message with
  | Some later =>
      if (next <? length turns)%nat && (next <? later)%nat
      then model_refusal "does not carry a generation's turn: a message is the turn of a generation accepted after it; a request carries every turn its conversation accepted since its last committed compaction"
      else model_refusal "carries a generation's turn again: each accepted turn is carried once, where it was taken"
  | None =>
      if (next <? length turns)%nat
      then model_refusal "carries a generation's turn other than the model wrote it; a turn is carried exactly as the model wrote it"
      else model_refusal "carries an assistant message that no generation its conversation owes wrote: every assistant message is one of the model's accepted turns, as it wrote it"
  end.

(** A string of a turn, held to the runs that stand where the turn carries it. *)
Definition require_string (start : nat) (runs : list Citation) (gen : Generation) (_ : unit) (s : TurnString) : contract unit :=
  a ← usize_sub (ts_member s).1 start "member.start - start";
  b ← usize_sub (ts_member s).2 start "member.end - start";
  let inside := List.filter (fun c => (a <=? stored c)%nat && (stored c <? b)%nat) runs in
  if copies_in_full inside (lit "generation") (generation_id gen) (ts_field s) (ts_text s) then Ok tt
  else model_refusal "carries a generation's turn without stating its strings as the model's: the runs where the turn carries them do not copy them in full, byte for byte".

Definition require_turn (turns : list Generation) (citations : list (list Citation)) (next : nat) (item : nat * Value) : contract nat :=
  let '(index, message) := item in
  if negb (is_assistant message) then Ok next
  else
    match turns !! next with
    | None => refuse_turn turns next message
    | Some gen =>
        match turn_difference message gen with
        | Some _ => refuse_turn turns next message
        | None =>
            strings ← turn_strings message gen;
            runs ← expect (citations !! index) "citations[index]";
            _ ← fold_result (require_string (span_start (entry message)) runs gen) tt strings;
            Ok (S next)
        end
    end.

Section Owed.
Context `{Serde}.

(** What one request must carry of its conversation. *)
Record Required := { required_draw : option str; required_generations : list str }.

Definition require_block (outputs : ModelOutputs) (required : Required) (messages : list Value) (citations : list (list Citation)) :
    contract unit :=
  match required_draw required with
  | None => Ok tt
  | Some draw =>
      let first_turn := match list_find (fun m => is_assistant m = true) messages with Some (at_, _) => at_ | None => length messages end in
      output ← expect (draws outputs !! draw) "an owed draw was claimed";
      block ← block_of (draw_calls output);
      block ← expect block "a committed compaction's draw declared a snapshot";
      cited ← up_to first_turn citations "citations[..first_turn]";
      carried ← carries_block (take first_turn messages) cited draw block;
      match carried with
      | None => Ok tt
      | Some _ => model_refusal "does not carry the snapshot a compaction draw committed before the turns after it, as the block the history holds; after a committed compaction every request of its conversation carries the block exactly"
      end
  end.

Definition require_owed (outputs : ModelOutputs) (required : Required) (array : Value) (citations : list (list Citation)) : contract unit :=
  messages ← expect (elements array) "checked messages array";
  _ ← require_block outputs required messages citations;
  turns ← traverse (fun i => expect (generations outputs !! i) "an owed generation was admitted") (required_generations required);
  next ← fold_result (require_turn turns citations) 0%nat (imap pair messages);
  match turns !! next with
  | Some _ => model_refusal "does not carry a generation's turn: a request carries every turn its conversation accepted since its last committed compaction, each as the assistant message the model wrote, in the order they were accepted"
  | None => Ok tt
  end.
End Owed.

(** ** What is required, exactly *)

(** The strings of a turn, and where a message that is the turn holds each. *)
Record TurnText := { tt_field : str; tt_text : str; tt_locate : Value → option Value }.

Definition sent (message : Value) : list Value := default [] (get message "tool_calls" ≫= elements).
Definition call_member (index : nat) (key : string) (message : Value) : option Value :=
  sent message !! index ≫= fun call => get call "function" ≫= fun function => get function (lit key).
Definition call_texts (index : nat) (call : Call) : list TurnText :=
  (match nonempty_str (call_name call) with
   | Some name => [{| tt_field := lit "/calls/" ++ show_Z (Z.of_nat index) ++ lit "/name"; tt_text := name; tt_locate := call_member index "name" |}]
   | None => []
   end)
  ++ [{| tt_field := lit "/calls/" ++ show_Z (Z.of_nat index) ++ lit "/arguments"; tt_text := call_arguments call;
         tt_locate := call_member index "arguments" |}].
Definition turn_texts (gen : Generation) : list TurnText :=
  (if bool_decide (shown_reasoning gen = []) then []
   else [{| tt_field := lit "/reasoning"; tt_text := shown_reasoning gen; tt_locate := fun m => get m "reasoning_content" |}])
  ++ (if bool_decide (shown_text gen = []) then []
      else [{| tt_field := lit "/text"; tt_text := shown_text gen; tt_locate := fun m => get m "content" |}])
  ++ concat (imap call_texts (calls gen)).

(** A call is sent as the model made it. *)
Record sent_as (call : Value) (written : Call) : Prop := {
  sa_members : only call ["id"; "type"; "function"] = true;
  sa_type : (get call "type" ≫= as_str) = Some (lit "function");
  sa_id : (get call "id" ≫= as_str) = Some (call_id written);
  sa_function : ∃ function, get call "function" = Some function ∧ only function ["name"; "arguments"] = true ∧
    (get function "name" ≫= as_str) = call_name written ∧ (get function "arguments" ≫= as_str) = Some (call_arguments written);
}.

(** A message is a generation's turn as the model wrote it. *)
Record is_turn (message : Value) (gen : Generation) : Prop := {
  it_members : only message ["role"; "content"; "reasoning_content"; "tool_calls"] = true;
  it_content : says (get message "content") (shown_text gen) = true;
  it_reasoning : says (get message "reasoning_content") (shown_reasoning gen) = true;
  it_calls_array : sent_calls message = Some (sent message);
  it_calls : Forall2 sent_as (sent message) (calls gen);
}.

(** A string of the turn stands in the message, and the runs that stand within
    it copy it in full from the generation. *)
Definition stated (runs : list Citation) (message : Value) (gen : Generation) (t : TurnText) : Prop :=
  ∃ v, tt_locate t message = Some v ∧ as_str v = Some (tt_text t) ∧
    (span_start (entry message) <= span_start (entry v))%nat ∧ (span_start (entry message) <= span_end (entry v))%nat ∧
    copies_in_full (List.filter (fun c => (span_start (entry v) - span_start (entry message) <=? stored c)%nat
                                          && (stored c <? span_end (entry v) - span_start (entry message))%nat) runs)
      (lit "generation") (generation_id gen) (tt_field t) (tt_text t) = true.

Definition turn_carried (citations : list (list Citation)) (item : nat * Value) (gen : Generation) : Prop :=
  is_turn item.2 gen ∧ ∃ runs, citations !! item.1 = Some runs ∧ Forall (stated runs item.2 gen) (turn_texts gen).

Lemma same_call_spec call written : same_call call written = true ↔ sent_as call written.
Proof.
  unfold same_call. split.
  - intros Hc. to_prop. destruct (get call "function") as [function|] eqn:Hf; [|done]. simpl in *.
    constructor; [done..|]. by exists function.
  - intros [Hm Ht Hid (function & Hf & Ho & Hn & Ha)]. rewrite Hm, Hf. simpl. rewrite Ho.
    rewrite !bool_decide_true by done. done.
Qed.

Lemma sent_calls_sent message items : sent_calls message = Some items → items = sent message.
Proof.
  unfold sent_calls, sent. destruct (get message "tool_calls") as [c|]; [|by intros [= <-]]. simpl.
  destruct (is_null c) eqn:Hn; [|by intros ->]. intros [= <-]. unfold is_null in Hn. to_prop.
  unfold kind in Hn. unfold elements. by destruct (node c).
Qed.

Lemma forallb_zip_same (sent_ : list Value) cs :
  (length sent_ =? length cs)%nat && forallb (fun p => same_call p.1 p.2) (zip sent_ cs) = true ↔ Forall2 sent_as sent_ cs.
Proof.
  revert cs. induction sent_ as [|s sent_ IH]; intros [|c cs]; simpl; [split; [constructor|done]|split; [done|intros Hf; inversion Hf]..|].
  specialize (IH cs). rewrite andb_true_iff in *. rewrite andb_true_iff, same_call_spec, Forall2_cons. tauto.
Qed.

Lemma turn_difference_none message gen : turn_difference message gen = None ↔ is_turn message gen.
Proof.
  unfold turn_difference. split.
  - destruct (only message _) eqn:Hm; [|done]. simpl. destruct (says (get message "content") _) eqn:Hc; [|done]. simpl.
    destruct (says (get message "reasoning_content") _) eqn:Hr; [|done]. simpl.
    destruct (sent_calls message) as [items|] eqn:Hs; [|done]. destruct (_ && _) eqn:Hf; [|done]. intros _.
    pose proof (sent_calls_sent message items Hs) as ->. apply forallb_zip_same in Hf. by constructor.
  - intros [Hm Hc Hr Hs Hf]. rewrite Hm, Hc, Hr, Hs. simpl. by rewrite (proj2 (forallb_zip_same _ _) Hf).
Qed.

(** A string that the message must hold is where [says] found it. *)
Lemma says_holds v written : says v written = true → written ≠ [] → ∃ m, v = Some m ∧ as_str m = Some written.
Proof.
  unfold says. intros Hs Hne. rewrite bool_decide_false in Hs by done. to_prop. destruct v as [m|]; [|done]. by exists m.
Qed.

Definition turn_string (v : Value) (t : TurnText) : TurnString := {| ts_field := tt_field t; ts_member := byte_range v; ts_text := tt_text t |}.

(** Where a message holds the texts, each with its value. *)
Definition holds_texts (message : Value) (ts : list TurnText) (vs : list Value) : Prop :=
  Forall2 (fun t v => tt_locate t message = Some v ∧ as_str v = Some (tt_text t)) ts vs.

Lemma call_strings_ok message index call written st :
  sent message !! index = Some call → sent_as call written →
  ∃ vs, holds_texts message (call_texts index written) vs ∧
    call_strings st (index, (call, written)) = Ok (st ++ zip_with turn_string vs (call_texts index written)).
Proof.
  intros Hi [_ _ _ (function & Hf & _ & Hn & Ha)]. unfold call_strings, call_texts. rewrite Hf. cbn [expect mbind result_bind].
  destruct (get function "arguments") as [a|] eqn:Harg; [|done]. simpl in Ha.
  assert (Hloc : call_member index "arguments" message = Some a) by (unfold call_member; rewrite Hi; simpl; by rewrite Hf).
  destruct (nonempty_str (call_name written)) as [name|] eqn:Hname.
  - destruct (get function "name") as [v|] eqn:Hv; [|simpl in Hn; rewrite <- Hn in Hname; done]. simpl in Hn.
    assert (Hstr : as_str v = Some name). { rewrite Hn. destruct (call_name written) as [[|b s]|]; simpl in Hname; congruence. }
    assert (Hlocn : call_member index "name" message = Some v) by (unfold call_member; rewrite Hi; simpl; by rewrite Hf).
    exists [v; a]. split; [by repeat constructor|]. simpl. by rewrite <- app_assoc.
  - exists [a]. split; [by repeat constructor|]. done.
Qed.

Lemma calls_strings_ok message k (sent_ : list Value) written st :
  (∀ i c, sent_ !! i = Some c → sent message !! (k + i)%nat = Some c) → Forall2 sent_as sent_ written →
  ∃ vs, holds_texts message (concat (imap (fun i => call_texts (k + i)) written)) vs ∧
    fold_result call_strings st (imap (fun i p => ((k + i)%nat, p)) (zip sent_ written)) =
      Ok (st ++ zip_with turn_string vs (concat (imap (fun i => call_texts (k + i)) written))).
Proof.
  intros Hsent Hf. revert k st Hsent. induction Hf as [|c w sent_ written Hcw _ IH]; intros k st Hsent.
  { exists []. split; [constructor|]. simpl. by rewrite app_nil_r. }
  cbn [imap zip zip_with concat fold_result]. rewrite Nat.add_0_r.
  destruct (call_strings_ok message k c w st) as (vs1 & Hvs1 & Hst1); [rewrite <- (Nat.add_0_r k); by apply Hsent|done|].
  rewrite Hst1. cbn [mbind result_bind].
  destruct (IH (S k) (st ++ zip_with turn_string vs1 (call_texts k w))) as (vs2 & Hvs2 & Hst2).
  { intros i d Hd. replace (S k + i)%nat with (k + S i)%nat by lia. by apply Hsent. }
  assert (E1 : imap ((fun i => call_texts (k + i)) ∘ S) written = imap (fun i => call_texts (S k + i)) written).
  { apply imap_ext. intros i x _. simpl. f_equal. lia. }
  assert (E2 : imap ((fun i (p : Value * Call) => ((k + i)%nat, p)) ∘ S) (zip sent_ written) = imap (fun i p => ((S k + i)%nat, p)) (zip sent_ written)).
  { apply imap_ext. intros i x _. simpl. f_equal. lia. }
  exists (vs1 ++ vs2). rewrite E1, E2. split; [by apply Forall2_app|]. rewrite Hst2, <- app_assoc. f_equal. f_equal.
  symmetry. apply zip_with_app. symmetry. by eapply Forall2_length.
Qed.

(** One of the two texts: absent from the strings exactly when it is empty. *)
Lemma own_text_ok message key written tf st :
  says (get message key) written = true →
  let ts := if bool_decide (written = []) then [] else [{| tt_field := tf; tt_text := written; tt_locate := fun m => get m key |}] in
  ∃ vs, holds_texts message ts vs ∧
    (if bool_decide (written = []) then Ok st
     else range ← member_range (get message key); Ok (st ++ [{| ts_field := tf; ts_member := range; ts_text := written |}])) =
    (Ok (st ++ zip_with turn_string vs ts) : contract (list TurnString)).
Proof.
  intros Hs ts. unfold ts. case_bool_decide as He; [exists []; split; [constructor|simpl; by rewrite app_nil_r]|].
  destruct (says_holds _ _ Hs He) as (v & Hv & Hstr). exists [v]. rewrite Hv. split; [by repeat constructor|done].
Qed.

Lemma turn_strings_ok message gen :
  is_turn message gen → ∃ vs, holds_texts message (turn_texts gen) vs ∧ turn_strings message gen = Ok (zip_with turn_string vs (turn_texts gen)).
Proof.
  intros [_ Hc Hr _ Hf]. unfold turn_strings, turn_texts.
  destruct (own_text_ok message "reasoning_content" (shown_reasoning gen) "/reasoning" [] Hr) as (vs1 & Hvs1 & E1).
  cbn [app] in E1. rewrite E1. cbn [mbind result_bind].
  edestruct (own_text_ok message "content" (shown_text gen) "/text") as (vs2 & Hvs2 & ->); [exact Hc|]. cbn [mbind result_bind].
  edestruct (calls_strings_ok message 0 (sent message) (calls gen)) as (vs3 & Hvs3 & Hst); [by intros i c Hi|exact Hf|].
  exists (vs1 ++ vs2 ++ vs3). split; [by repeat apply Forall2_app|]. etransitivity; [exact Hst|]. f_equal. rewrite <- app_assoc.
  rewrite !zip_with_app by (symmetry; by eapply Forall2_length). done.
Qed.

Lemma require_string_ok start runs gen u v t :
  require_string start runs gen u (turn_string v t) = Ok tt ↔
  (start <= span_start (entry v))%nat ∧ (start <= span_end (entry v))%nat ∧
    copies_in_full (List.filter (fun c => (span_start (entry v) - start <=? stored c)%nat && (stored c <? span_end (entry v) - start)%nat) runs)
      (lit "generation") (generation_id gen) (tt_field t) (tt_text t) = true.
Proof.
  unfold require_string, usize_sub, turn_string, byte_range. simpl.
  destruct (Nat.leb_spec start (span_start (entry v))); simpl; [|split; [done|lia]].
  destruct (Nat.leb_spec start (span_end (entry v))); simpl; [|split; [done|lia]].
  destruct (copies_in_full _ _ _ _ _); simpl; (split; [intros; (by split_and!) || done|by intros (? & ? & ?)]).
Qed.

Lemma require_strings_ok runs message gen ts vs :
  holds_texts message ts vs →
  (fold_result (require_string (span_start (entry message)) runs gen) tt (zip_with turn_string vs ts) = Ok tt ↔
   Forall (stated runs message gen) ts).
Proof.
  intros Hf. rewrite fold_result_unit. induction Hf as [|t v ts vs [Hv Hs] _ IH]; cbn [zip_with]; [by split; constructor|].
  rewrite !Forall_cons, IH, require_string_ok. unfold stated. split.
  - intros [(? & ? & ?) ?]. split; [by exists v|done].
  - intros [(v' & Hv' & _ & ? & ? & ?) ?]. rewrite Hv in Hv'. injection Hv' as <-. by split_and!.
Qed.

Lemma refuse_turn_never {A} turns next message (a : A) : refuse_turn turns next message ≠ Ok a.
Proof. unfold refuse_turn. repeat case_match; done. Qed.

Lemma require_turn_ok turns citations next item n :
  is_assistant item.2 = true →
  (require_turn turns citations next item = Ok n ↔ ∃ gen, turns !! next = Some gen ∧ turn_carried citations item gen ∧ n = S next).
Proof.
  destruct item as [index message]. cbn [snd]. intros Ha. unfold require_turn. rewrite Ha. cbn [negb].
  destruct (turns !! next) as [gen|]; [|split; [by intros ?%refuse_turn_never|by intros (? & ? & _)]].
  destruct (turn_difference message gen) as [d|] eqn:Hd.
  { split; [by intros ?%refuse_turn_never|]. intros (g & [= <-] & [Ht _] & _). apply turn_difference_none in Ht. simpl in Ht. congruence. }
  apply turn_difference_none in Hd. destruct (turn_strings_ok message gen Hd) as (vs & Hvs & ->). cbn [mbind result_bind].
  unfold turn_carried. cbn [fst snd]. destruct (citations !! index) as [runs|]; cbn [expect mbind result_bind].
  - pose proof (require_strings_ok runs message gen _ _ Hvs) as Hr. destruct (fold_result _ _ _) as [[]|e]; cbn [mbind result_bind].
    + split.
      * intros [= <-]. exists gen. split_and!; try done. exists runs. split; [done|]. by apply Hr.
      * intros (g & [= <-] & _ & ->). done.
    + split; [done|]. intros (g & [= <-] & (_ & runs' & [= <-] & Hs) & _). by apply Hr in Hs.
  - split; [done|]. by intros (g & _ & (_ & runs & ? & _) & _).
Qed.

(** The assistant messages of a request, with their positions. *)
Definition assistants (items : list (nat * Value)) : list (nat * Value) := List.filter (fun item => is_assistant item.2) items.

Lemma require_turns_ok turns citations items next n :
  fold_result (require_turn turns citations) next items = Ok n ↔
  ∃ mid, take (length mid) (drop next turns) = mid ∧ n = (next + length mid)%nat ∧ Forall2 (turn_carried citations) (assistants items) mid.
Proof.
  revert next. induction items as [|item items IH]; intros next; cbn [fold_result].
  { split; [intros [= <-]; exists []; split_and!; [done|simpl; lia|constructor]|].
    intros (mid & _ & -> & Hf). inversion Hf. subst. simpl. by rewrite Nat.add_0_r. }
  unfold assistants. cbn [List.filter]. destruct (is_assistant item.2) eqn:Ha.
  - split.
    + intros Hb. apply bind_ok_inv in Hb as (next2 & Hstep & Hrest). apply require_turn_ok in Hstep as (gen & Hgen & Hc & ->); [|done].
      apply IH in Hrest as (mid & Hmid & -> & Hf). exists (gen :: mid). split_and!; [|simpl; lia|by constructor].
      rewrite (drop_S turns gen next Hgen). simpl. by rewrite Hmid.
    + intros (mid & Hmid & -> & Hf). inversion Hf as [|i gen its mid' Hc Hf']; subst. simpl length in *.
      destruct (turns !! next) as [g|] eqn:Hg; [|rewrite drop_ge in Hmid by (by apply lookup_ge_None); done].
      rewrite (drop_S turns g next Hg) in Hmid. simpl in Hmid. injection Hmid as Hg1 Hmid. subst g.
      rewrite (proj2 (require_turn_ok turns citations next item (S next) Ha)) by (by exists gen). cbn [mbind result_bind].
      apply IH. exists mid'. split_and!; [done|lia|done].
  - assert (Hskip : require_turn turns citations next item = Ok next) by (destruct item; unfold require_turn; simpl in Ha; by rewrite Ha).
    rewrite Hskip. cbn [mbind result_bind]. apply IH.
Qed.

Lemma owed_generations_ok `{Serde} (outputs : ModelOutputs) ids turns :
  traverse (fun i => expect (generations outputs !! i) "an owed generation was admitted") ids = (Ok turns : contract (list Generation)) ↔
  mapM (fun i => generations outputs !! i) ids = Some turns.
Proof.
  revert turns. induction ids as [|i ids IH]; intros turns; cbn [traverse mapM]; [by split; intros [= <-]|].
  destruct (generations outputs !! i) as [g|]; cbn [expect mbind result_bind option_bind]; [|done]. split.
  - intros (l & Hl%IH & [= <-])%bind_ok_inv. by rewrite Hl.
  - destruct (mapM _ ids) as [l|] eqn:Hl; [|done]. intros [= <-]. by rewrite (proj2 (IH l) eq_refl).
Qed.

(** *** The snapshot, as it must be carried

    The block of the sections a draw declared, read off the declaration alone: each
    section's text between its tags, an empty line between sections, and the place
    of the operator's messages between the two halves. *)
Definition tagged (section : str * str) : str := section_open section.1 ++ section.2 ++ section_close section.1.
Fixpoint spaced (texts : list str) : str :=
  match texts with [] => [] | [t] => t | t :: texts => t ++ nl ++ nl ++ spaced texts end.
Definition opening_head : str := lit "<state_snapshot>" ++ nl.
Definition closing_head : str := nl ++ lit "    </all_user_messages>" ++ nl ++ nl.
Definition before_messages (declared : list (str * str)) : list (str * str) := take 5 declared.
Definition after_messages (declared : list (str * str)) : list (str * str) := drop 5 declared.
Definition block_opening (declared : list (str * str)) : str :=
  (opening_head ++ spaced (map tagged (before_messages declared))) ++ nl ++ nl ++ lit "    <all_user_messages>" ++ nl.
Definition block_closing (declared : list (str * str)) : str :=
  (closing_head ++ spaced (map tagged (after_messages declared))) ++ nl ++ lit "</state_snapshot>".

(** Each section with the byte of the half at which its text starts. *)
Fixpoint placed_from (at_ : nat) (declared : list (str * str)) : list (str * str * nat) :=
  match declared with
  | [] => []
  | s :: declared => (s, (at_ + length (section_open s.1))%nat) :: placed_from (at_ + length (tagged s) + 2) declared
  end.

(** A section is copied in full from the draw, by runs of the string that starts at
    [start], from its place in the half on. *)
Definition copied_section (runs : list Citation) (draw : str) (start : nat) (placed : str * str * nat) : Prop :=
  let '(name, body, at_) := placed in
  let field := lit "/calls/0/args/" ++ name in
  body = [] ∨
  copies_in_full (List.filter (fun run =>
      bool_decide (cite_kind run = lit "compaction_draw" ∧ cite_id run = draw ∧ cite_field run = field ∧ string_start run = start ∧
                   (from run <= place run)%nat ∧ (place run - from run = at_)%nat)) runs)
    (lit "compaction_draw") draw field body = true.

(** The item at [i] is the first with [P], from [k] on. *)
Definition first_from {A} (P : A → Prop) (k : nat) (l : list A) (i : nat) (x : A) : Prop :=
  (k <= i)%nat ∧ l !! i = Some x ∧ P x ∧ ∀ j y, (k <= j < i)%nat → l !! j = Some y → ¬ P y.

(** The messages before the first turn. *)
Fixpoint preamble (messages : list Value) : list Value :=
  match messages with [] => [] | m :: messages => if is_assistant m then [] else m :: preamble messages end.

(** The draw's snapshot is carried: the first message of the preamble that holds the
    block's opening as a text item holds, after it, an item that starts with its
    closing, and every section is copied where it stands. *)
Definition snapshot_held `{Serde} (outputs : ModelOutputs) (draw : str) (messages : list Value) (citations : list (list Citation)) : Prop :=
  ∃ output declared index message runs items o c opens closes,
    draws outputs !! draw = Some output ∧ snapshot_sections (draw_calls output) = Some declared ∧
    (length (preamble messages) <= length citations)%nat ∧ preamble messages !! index = Some message ∧ citations !! index = Some runs ∧
    user_text_items message = Ok items ∧
    (∀ j m, (j < index)%nat → preamble messages !! j = Some m →
       ∃ others, user_text_items m = Ok others ∧ Forall (fun item => item.2 ≠ block_opening declared) others) ∧
    first_from (fun item => item.2 = block_opening declared) 0 items o opens ∧
    first_from (fun item => ∃ rest, item.2 = block_closing declared ++ rest) (S o) items c closes ∧
    Forall (copied_section runs draw opens.1) (placed_from (length opening_head) (before_messages declared)) ∧
    Forall (copied_section runs draw closes.1) (placed_from (length closing_head) (after_messages declared)).

Lemma uncopied_none citations draw index opens closes ss :
  uncopied citations draw index opens closes ss = None ↔
  Forall (fun s => section_text s = [] ∨
    copies_in_full (section_cited citations draw (section_field s) (if section_closes s then closes else opens).1 (section_offset s))
      (lit "compaction_draw") draw (section_field s) (section_text s) = true) ss.
Proof.
  induction ss as [|s ss IH]; simpl; [by split; constructor|]. rewrite Forall_cons. case_bool_decide as He; [rewrite IH; tauto|].
  destruct (if section_closes s then closes else opens) as [string item]. simpl. destruct (copies_in_full _ _ _ _ _); [rewrite IH; tauto|].
  split; [done|]. intros [[|] _]; done.
Qed.

Section BlockLemmas.
Context `{Serde}.

(** The sections of a half as the code records them. *)
Definition recorded_section (closes : bool) (placed : str * str * nat) : BlockSection :=
  {| section_name := placed.1.1; section_closes := closes; section_offset := placed.2; section_text := placed.1.2 |}.

Lemma half_renders (declared : gmap str str) closes text ss k (ps : list (str * str)) :
  Forall (fun s : str * str => declared !! s.1 = Some s.2) ps →
  fold_result (half_step declared closes) (text, ss) (imap (fun i s => ((k + i)%nat, s)) ps.*1) =
    (Ok (text ++ (if ((0 <? k)%nat && (0 <? length ps)%nat) then nl ++ nl else []) ++ spaced (map tagged ps),
         ss ++ map (recorded_section closes) (placed_from (length (text ++ if (0 <? k)%nat then nl ++ nl else [])) ps)) : contract (str * list BlockSection)).
Proof.
  intros Hps. revert text ss k. induction Hps as [|[name body] ps Hb _ IH]; intros text ss k.
  { cbn. rewrite andb_false_r. by rewrite !app_nil_r. }
  set (sep := if (0 <? k)%nat then nl ++ nl else []).
  assert (half_step declared closes (text, ss) (k, name) =
    (Ok ((text ++ sep) ++ tagged (name, body), ss ++ [recorded_section closes (name, body, length ((text ++ sep) ++ section_open name))]) : contract (str * list BlockSection))) as Hstep.
  { unfold half_step. simpl in Hb. rewrite Hb. unfold tagged, recorded_section, sep. cbn [expect mbind result_bind fst snd]. destruct (0 <? k)%nat; by rewrite ?app_nil_r, <- ?app_assoc. }
  cbn [fmap list_fmap imap fst fold_result]. rewrite Nat.add_0_r, Hstep. cbn [mbind result_bind].
  rewrite (imap_ext _ (fun i s => ((S k + i)%nat, s))) by (intros; unfold compose; f_equal; lia). rewrite IH. cbn [length map placed_from spaced]. fold sep.
  replace (0 <? S k)%nat with true by done. replace (0 <? S (length ps))%nat with true by done. rewrite andb_true_l, andb_true_r. fold sep. f_equal. f_equal.
  - rewrite <- !app_assoc. f_equal. f_equal. destruct ps; [apply app_nil_r|]. cbn. by rewrite <- !app_assoc.
  - rewrite <- app_assoc. cbn [app fst]. f_equal. f_equal; [by rewrite length_app|]. f_equal. by rewrite !length_app.
Qed.

Lemma declared_names calls declared : snapshot_sections calls = Some declared → map fst declared = declared_sections.
Proof.
  unfold snapshot_sections. destruct (head calls) as [call|]; [|done]. cbn [mbind option_bind]. destruct (_ || _); [done|].
  destruct (served_value call) as [args|]; [|done]. cbn [mbind option_bind]. destruct (negb _); [done|].
  generalize declared_sections. intros ds Hm%mapM_Some. induction Hm as [|d [n v] ds ss Hd _ IH]; [done|]. cbn. rewrite IH. f_equal.
  unfold declared_section in Hd. destruct (find_member d args) as [w|]; [|done]. cbn [mbind option_bind] in Hd. destruct (json_str w); [|done]. by injection Hd.
Qed.

Definition declared_block (declared : list (str * str)) : SnapshotBlock :=
  {| opening := block_opening declared; closing := block_closing declared;
     sections := map (recorded_section false) (placed_from (length opening_head) (before_messages declared))
                 ++ map (recorded_section true) (placed_from (length closing_head) (after_messages declared)) |}.

Lemma block_of_declared calls declared : snapshot_sections calls = Some declared → block_of calls = (Ok (Some (declared_block declared)) : contract (option SnapshotBlock)).
Proof.
  intros Hs. pose proof (declared_names calls declared Hs) as Hnames. unfold block_of. rewrite Hs. unfold half.
  assert (NoDup declared.*1) as Hnd by (change (NoDup (map fst declared)); rewrite Hnames; apply (bool_decide_unpack _); by vm_compute).
  assert (∀ ps : list (str * str), ps ⊆ declared → Forall (fun s : str * str => (list_to_map declared : gmap str str) !! s.1 = Some s.2) ps) as Hall.
  { intros ps Hsub. apply Forall_forall. intros [n b] Hin. apply elem_of_list_to_map; [done|by apply Hsub]. }
  pose proof (half_renders (list_to_map declared) false opening_head [] 0 (before_messages declared)) as Hopen.
  pose proof (half_renders (list_to_map declared) true closing_head (map (recorded_section false) (placed_from (length opening_head) (before_messages declared)))
    0 (after_messages declared)) as Hclose.
  rewrite app_nil_r in Hopen, Hclose. cbn [Nat.ltb andb app] in Hopen, Hclose.
  change (imap (fun i s => ((0 + i)%nat, s)) (before_messages declared).*1) with (imap pair (before_messages declared).*1) in Hopen.
  change (imap (fun i s => ((0 + i)%nat, s)) (after_messages declared).*1) with (imap pair (after_messages declared).*1) in Hclose.
  assert ((before_messages declared).*1 = take 5 SNAPSHOT_ELEMENTS) as E1 by (unfold before_messages; rewrite fmap_take; change (declared.*1) with (map fst declared); by rewrite Hnames).
  assert ((after_messages declared).*1 = drop 6 SNAPSHOT_ELEMENTS) as E2 by (unfold after_messages; rewrite fmap_drop; change (declared.*1) with (map fst declared); by rewrite Hnames).
  rewrite E1 in Hopen. rewrite E2 in Hclose. fold opening_head closing_head. rewrite Hopen by (apply Hall, subseteq_take). cbn [mbind result_bind].
  rewrite Hclose by (apply Hall, subseteq_drop). cbn [mbind result_bind]. unfold declared_block, block_opening, block_closing. by rewrite <- !app_assoc.
Qed.
End BlockLemmas.

Lemma list_find_first {A} (P : A → Prop) `{∀ x, Decision (P x)} k (l : list A) i x : list_find P (drop k l) = Some (i, x) ↔ first_from P k l (k + i) x.
Proof.
  rewrite list_find_Some, lookup_drop. unfold first_from. split.
  - intros (Hi & Hx & Hb). split_and!; [lia|done|done|]. intros j y Hj Hy. apply (Hb (j - k)%nat y); [|lia]. rewrite lookup_drop. by replace (k + (j - k))%nat with j by lia.
  - intros (_ & Hi & Hx & Hb). split_and!; [done|done|]. intros j y Hy Hj. rewrite lookup_drop in Hy. apply (Hb (k + j)%nat y); [lia|done].
Qed.

Lemma find_opening_spec t k messages i items at_ :
  find_opening t k messages = Ok (Some (i, items, at_)) ↔
  ∃ n message opens, i = (k + n)%nat ∧ messages !! n = Some message ∧ user_text_items message = Ok items ∧ first_from (fun item => item.2 = t) 0 items at_ opens ∧
    ∀ j m, (j < n)%nat → messages !! j = Some m → ∃ others, user_text_items m = Ok others ∧ Forall (fun item => item.2 ≠ t) others.
Proof.
  revert k. induction messages as [|m messages IH]; intros k; cbn [find_opening]; [split; [done|by intros (n & ? & ? & _ & ? & _)]|]. split.
  - intros (found & Hitems & Hf)%bind_ok_inv. destruct (list_find (fun item => item.2 = t) found) as [[j x]|] eqn:Hfind.
    + injection Hf as <- <- <-. apply (list_find_first _ 0) in Hfind. exists 0%nat, m, x. split; [lia|]. split; [done|]. split; [done|]. split; [exact Hfind|lia].
    + apply IH in Hf as (n & message & opens & -> & ? & ? & ? & Hb). exists (S n), message, opens. split; [lia|]. split; [done|]. split; [done|]. split; [done|].
      intros [|j] m' Hj Hm'; [|apply (Hb j m'); [lia|done]]. injection Hm' as <-. exists found. split; [done|]. by apply list_find_None in Hfind.
  - intros (n & message & opens & -> & Hn & Hitems & Hfirst & Hb). destruct n as [|n].
    + injection Hn as ->. rewrite Hitems. cbn [mbind result_bind]. apply (list_find_first _ 0) in Hfirst. rewrite drop_0 in Hfirst. rewrite Hfirst. by rewrite Nat.add_0_r.
    + destruct (Hb 0%nat m) as (others & -> & Hno); [lia|done|]. cbn [mbind result_bind].
      assert (list_find (fun item => item.2 = t) others = None) as -> by (by apply list_find_None). apply IH.
      exists n, message, opens. split; [lia|]. split; [done|]. split; [done|]. split; [done|]. intros j m' Hj Hm'. apply (Hb (S j) m'); [lia|done].
Qed.

Lemma section_cited_spec runs draw closes name body at_ string :
  (section_text (recorded_section closes (name, body, at_)) = [] ∨
   copies_in_full (section_cited runs draw (section_field (recorded_section closes (name, body, at_))) string at_) (lit "compaction_draw") draw
     (section_field (recorded_section closes (name, body, at_))) body = true) ↔ copied_section runs draw string (name, body, at_).
Proof.
  unfold copied_section, section_cited, section_field, recorded_section. cbn [section_name section_text fst snd].
  erewrite List.filter_ext; [reflexivity|]. intros run. apply Bool.eq_iff_eq_true. rewrite bool_decide_eq_true, !andb_true_iff, !bool_decide_eq_true, Nat.leb_le, !Nat.eqb_eq. tauto.
Qed.

Lemma preamble_spec messages :
  preamble messages = take (match list_find (fun m => is_assistant m = true) messages with Some (at_, _) => at_ | None => length messages end) messages ∧
  length (preamble messages) = match list_find (fun m => is_assistant m = true) messages with Some (at_, _) => at_ | None => length messages end.
Proof.
  induction messages as [|m messages [IH1 IH2]]; [done|]. cbn [preamble list_find]. destruct (is_assistant m) eqn:Ha; [by rewrite decide_True by done|].
  rewrite decide_False by done. destruct (list_find _ messages) as [[i x]|]; cbn in *; split; by f_equal.
Qed.

(** A block is carried exactly when the messages hold it and the runs copy it. *)
Lemma carries_block_spec `{Serde} messages citations draw declared :
  carries_block messages citations draw (declared_block declared) = Ok None ↔
  ∃ index message runs items o c opens closes,
    messages !! index = Some message ∧ citations !! index = Some runs ∧ user_text_items message = Ok items ∧
    (∀ j m, (j < index)%nat → messages !! j = Some m → ∃ others, user_text_items m = Ok others ∧ Forall (fun item => item.2 ≠ block_opening declared) others) ∧
    first_from (fun item => item.2 = block_opening declared) 0 items o opens ∧
    first_from (fun item => ∃ rest, item.2 = block_closing declared ++ rest) (S o) items c closes ∧
    Forall (copied_section runs draw opens.1) (placed_from (length opening_head) (before_messages declared)) ∧
    Forall (copied_section runs draw closes.1) (placed_from (length closing_head) (after_messages declared)).
Proof.
  unfold carries_block. change (opening (declared_block declared)) with (block_opening declared). change (closing (declared_block declared)) with (block_closing declared).
  assert (∀ runs index opens closes, uncopied runs draw index opens closes (sections (declared_block declared)) = None ↔
    Forall (copied_section runs draw opens.1) (placed_from (length opening_head) (before_messages declared)) ∧
    Forall (copied_section runs draw closes.1) (placed_from (length closing_head) (after_messages declared))) as Hcopied.
  { intros runs index opens closes. rewrite uncopied_none. cbn [sections declared_block]. rewrite Forall_app, !Forall_map.
    f_equiv; apply Forall_iff; intros [[name body] at_]; cbn [section_closes recorded_section fst snd]; apply section_cited_spec. }
  assert (∀ items o c closes, first_from (fun item : nat * str => ∃ rest, item.2 = block_closing declared ++ rest) (S o) items c closes ↔
    ∃ i, c = (S o + i)%nat ∧ list_find (fun item : nat * str => starts_with (block_closing declared) item.2 = true) (drop (S o) items) = Some (i, closes)) as Hclosing.
  { intros items o c closes. split.
    - intros (Hc & Hx & Hp & Hb). exists (c - S o)%nat. split; [lia|]. apply list_find_first. replace (S o + (c - S o))%nat with c by lia.
      split; [done|]. split; [done|]. split; [by apply starts_with_spec|]. intros j y Hj Hy Hs. apply (Hb j y Hj Hy). by apply starts_with_spec.
    - intros (i & -> & Hf). apply list_find_first in Hf as (? & ? & Hp & Hb). split; [done|]. split; [done|]. split; [by apply starts_with_spec|].
      intros j y Hj Hy Hs. apply (Hb j y Hj Hy). by apply starts_with_spec. }
  split.
  - intros ([[[index items] o]|] & Hfound & Hc)%bind_ok_inv; [|by apply bind_ok_inv in Hc as (? & _ & ?)].
    apply find_opening_spec in Hfound as (n & message & opens & -> & Hm & Hitems & Hfirst & Hb). cbn [Nat.add] in *.
    destruct (list_find _ (drop (S o) items)) as [[i closes]|] eqn:Hfind; [|done].
    apply bind_ok_inv in Hc as (opens' & Ho & (runs & Hr & Hc)%bind_ok_inv). pose proof Hfirst as (_ & Hat & _). unfold expect in Ho, Hr. rewrite Hat in Ho. injection Ho as <-.
    destruct (citations !! n) as [rs|] eqn:Hci; [|done]. injection Hr as <-. injection Hc as Hc. apply Hcopied in Hc as [? ?].
    exists n, message, rs, items, o, (S o + i)%nat, opens, closes. do 5 (split; [done|]). split; [apply Hclosing; by exists i|]. done.
  - intros (n & message & runs & items & o & c & opens & closes & Hm & Hci & Hitems & Hb & Hfirst & (i & -> & Hfind)%Hclosing & Hcopy).
    assert (find_opening (block_opening declared) 0 messages = Ok (Some (n, items, o))) as ->.
    { apply find_opening_spec. exists n, message, opens. done. }
    cbn [mbind result_bind]. cbv zeta. rewrite Hfind. destruct Hfirst as (_ & -> & _). rewrite Hci. cbn [expect mbind result_bind]. f_equal. by apply Hcopied.
Qed.

Lemma require_block_spec `{Serde} outputs required messages citations :
  require_block outputs required messages citations = Ok tt ↔ ∀ draw, required_draw required = Some draw → snapshot_held outputs draw messages citations.
Proof.
  unfold require_block. destruct (required_draw required) as [draw|]; [|split; [done|done]]. cbv zeta.
  destruct (preamble_spec messages) as [Hp Hl]. rewrite <- Hl in Hp. rewrite <- Hl. split.
  - intros Hr d [= <-]. apply bind_ok_inv in Hr as (out & Ho & Hr). unfold expect in Ho. destruct (draws outputs !! draw) as [output|] eqn:Hout; [|done]. injection Ho as ->.
    apply bind_ok_inv in Hr as (found & Hf & Hr). destruct (snapshot_sections (draw_calls out)) as [declared|] eqn:Hs.
    2: { unfold block_of in Hf. rewrite Hs in Hf. by injection Hf as <-. }
    rewrite (block_of_declared _ _ Hs) in Hf. injection Hf as <-. cbn [expect mbind result_bind] in Hr.
    apply bind_ok_inv in Hr as (cited & Hcited & (carried & Hcarry & Hr)%bind_ok_inv). unfold up_to in Hcited. destruct (Nat.leb_spec (length (preamble messages)) (length citations)); [|done].
    injection Hcited as <-. destruct carried; [done|]. rewrite <- Hp in Hcarry.
    apply carries_block_spec in Hcarry as (n & m & runs & items & o & c & opens & closes & Hm & Hci & ? & ? & ? & ? & ? & ?).
    apply lookup_take_Some in Hci as [Hci _]. exists out, declared, n, m, runs, items, o, c, opens, closes. done.
  - intros Hheld. destruct (Hheld draw eq_refl) as (output & declared & n & m & runs & items & o & c & opens & closes & -> & Hs & Hle & Hm & Hci & Hrest).
    cbn [expect mbind result_bind]. rewrite (block_of_declared _ _ Hs). cbn [expect mbind result_bind]. unfold up_to. rewrite (proj2 (Nat.leb_le _ _) Hle). cbn [mbind result_bind].
    rewrite <- Hp. assert (carries_block (preamble messages) (take (length (preamble messages)) citations) draw (declared_block declared) = Ok None) as ->; [|done].
    apply carries_block_spec. exists n, m, runs, items, o, c, opens, closes. split; [done|]. split; [|done].
    rewrite lookup_take_lt; [done|]. by apply lookup_lt_Some in Hm.
Qed.

(** C26: a request is accepted exactly when it carries what its conversation owes.
    Its assistant messages are, one for one and in order, the turns of the owed
    generations: each is that turn as the model wrote it -- its text, its
    reasoning and its calls with the very text of their arguments, and no other
    member -- and every string of it is copied in full, where the message carries
    it, from the generation that wrote it.  After a committed compaction, a user
    message before them holds its snapshot: the block of the sections the draw
    declared, rendered in full, with the operator's messages in its place, and every
    section copied in full from the draw, at the byte where it stands. *)
Theorem require_owed_exact `{Serde} (outputs : ModelOutputs) (required : Required) (array : Value) (citations : list (list Citation)) :
  require_owed outputs required array citations = Ok tt ↔
  ∃ messages turns, elements array = Some messages ∧
    mapM (fun i => generations outputs !! i) (required_generations required) = Some turns ∧
    (∀ draw, required_draw required = Some draw → snapshot_held outputs draw messages citations) ∧
    Forall2 (turn_carried citations) (assistants (imap pair messages)) turns.
Proof.
  unfold require_owed. split.
  - intros (messages & Hm & Hr)%bind_ok_inv. unfold expect in Hm. destruct (elements array) as [ms|] eqn:He; [|done]. injection Hm as <-.
    apply bind_ok_inv in Hr as ([] & Hblock & Hr). pose proof (proj1 (require_block_spec outputs required ms citations) Hblock) as Hheld. apply bind_ok_inv in Hr as (turns & Hturns%owed_generations_ok & Hr).
    apply bind_ok_inv in Hr as (n & (mid & Hmid & -> & Hf)%require_turns_ok & Hr). exists ms, turns. split_and!; try done.
    destruct (turns !! (0 + length mid)%nat) eqn:Hlast; [done|]. apply lookup_ge_None in Hlast.
    rewrite drop_0, take_ge in Hmid by lia. by subst.
  - intros (ms & turns & -> & Hturns%owed_generations_ok & Hblock & Hf). apply (proj2 (require_block_spec outputs required ms citations)) in Hblock. cbn [expect mbind result_bind]. rewrite Hblock. cbn [mbind result_bind].
    rewrite Hturns. cbn [mbind result_bind].
    rewrite (proj2 (require_turns_ok turns citations (imap pair ms) 0 (length turns))).
    + cbn [mbind result_bind]. by rewrite (proj2 (lookup_ge_None turns (length turns))).
    + exists turns. rewrite drop_0, take_ge by done. by split_and!.
Qed.

(** ** A committed snapshot, carried *)

(** A parser of one text: the arguments of the draw below. *)
Local Instance example_serde : Serde := {|
  number := Z; number_f64 := fun n => Some (Finite n 0); number_u64 := Some; number_of_u64 := fun n => n;
  value_from_str := fun s =>
    if decide (s = lit "sections")
    then Some (JObject (map (fun name => (name, JString (if decide (name = lit "current_work") then lit "w" else []))) declared_sections)) else None;
  value_pointer := fun _ _ => None;
|}.

Definition example_draw : DrawOutput :=
  {| draw_reasoning := []; draw_text := [];
     draw_calls := [JObject [(lit "name", JString (lit "state_snapshot")); (lit "arguments", JString (lit "sections"))] : json] |}.
Definition example_block : SnapshotBlock :=
  match block_of (draw_calls example_draw) with Ok (Some b) => b | _ => {| opening := []; closing := []; sections := [] |} end.

(** A user message holding the block's halves, a line break spelled as its escape. *)
Definition escaped (t : str) : str := concat (map (fun b => if b =? 10 then lit "\n" else [b]) t).
Definition text_json (t : str) : str := quoted "{'type':'text','text':'" ++ escaped t ++ quoted "'}".
Definition example_message : Value :=
  match @decode decimal_bigint (quoted "{'role':'user','content':[" ++ text_json (opening example_block) ++ lit "," ++ text_json (lit "do it")
                                 ++ lit "," ++ text_json (closing example_block ++ lit " go on") ++ lit "]}") small_limits with
  | Ok d => root d
  | Err _ => root (decoded "{}")
  end.
Definition example_place : nat * nat :=
  match user_text_items example_message, list_find (fun s => section_name s = lit "current_work") (sections example_block) with
  | Ok [_; _; (start, _)], Some (_, s) => (start, section_offset s)
  | _, _ => (0, 0)%nat
  end.
Definition example_citation : Citation :=
  {| stored := (example_place.1 + example_place.2)%nat; string_start := example_place.1; place := example_place.2; cite_kind := lit "compaction_draw";
     cite_id := lit "d"; cite_field := lit "/calls/0/args/current_work"; from := 0; to_ := 1 |}.

Definition example_outputs : ModelOutputs := {| generations := ∅; draws := {[lit "d" := example_draw]} |}.
Definition example_required : Required := {| required_draw := Some (lit "d"); required_generations := [] |}.
(** The snapshot is held; without the run that copies its section, it is not. *)
Example a_snapshot_held : snapshot_held example_outputs (lit "d") [example_message] [[example_citation]].
Proof. apply (proj1 (require_block_spec example_outputs example_required [example_message] [[example_citation]])); [by vm_compute|done]. Qed.
Example a_snapshot_not_copied : ¬ snapshot_held example_outputs (lit "d") [example_message] [[]].
Proof.
  intros Hheld. assert (require_block example_outputs example_required [example_message] [[]] = Ok tt) as Hr; [|by vm_compute in Hr].
  apply require_block_spec. by intros draw [= <-].
Qed.
