(* ===== verification/Requests.v ===== *)
(** * Requests: the physical requests of a stream and who owns them (src/protocol/engine/src/model_requests.rs)

    [ModelRequests] follows every physical request of a captured stream: its
    sequence, its body, its response, the chat attempt, compaction draw or utility
    operation it belongs to, the generation it produced and what its conversation
    owes afterwards.  Each operation is planned against the state, which may
    refuse, and committed, which may not: a commit of what was planned meets none
    of its [expect]s. *)
From S2P Require Import Prelude Number Utf8 BTree Json JsonTree Schema Stream Usage Generation Authorship Sse Serde Turns.

(** The base64 crate's standard engine. *)
Class Base64 := { b64_decode : str → option str; b64_encode : str → str }.

(** ** State *)
Section State.
Context `{Sha256Ops} `{Serde}.

(** What a conversation owes every later request in its scope. *)
Record Owed := { owed_draw : option str; owed_generations : list str; owed_issued : nat }.
Definition default_owed : Owed := {| owed_draw := None; owed_generations := []; owed_issued := 0 |}.

Record RequestBody := { body_id : str; segment_id : str; body_messages : list str; body_citations : list (list Citation) }.

Record ResponseOutcome := {
  oc_scope : str; oc_usage : option ServedUsage; oc_completed : bool; oc_refused : bool;
  oc_pipeline_outputs_delivered : Z; oc_sdk_values_seen : Z;
}.

Record NormalizationSeed := { seed_origin : Origin; history_call_ids : list str }.
Record DecodedPending := { dp_role : str; dp_index : Z; dp_bytes : str }.
Record UtilityPhysical := {
  up_status : option Z; up_content_type : option str; up_termination : option str; up_completed : bool; up_delivered : bool;
}.
Record CompletedTokenCount := {
  tc_scope : str; tc_first_sequence : Z; tc_last_sequence : Z; tc_count : Z; tc_window : Z; tc_model : str; tc_prompt : option str;
}.

Record AttemptState := {
  at_scope : str;
  at_requests : list str;
  at_settled : gmap str bool;
  at_outcomes : gmap str ResponseOutcome;
  at_seed : option NormalizationSeed;
  at_generation : option Generation;
  at_completed : bool;
}.

Record CompactionOperation := {
  co_scope : str;
  co_budget : Z;
  co_model : str;
  co_first_sequence : Z;
  co_last_sequence : Z;
  co_requests : list str;
  co_open : gset str;
  co_outcomes : gmap str ResponseOutcome;
  co_values : gmap str (list json);
  co_deliveries : gmap str Z;
  co_observations : gmap str (list json);
  co_failures : gmap str (option json);
}.

Record UtilityOperation := {
  uo_first_sequence : Z;
  uo_last_sequence : Z;
  uo_journal_id : str;
  uo_scope : str;
  uo_kind : str;
  uo_model : str;
  uo_input_count : option Z;
  uo_expected_max_model_len : option Z;
  uo_url : str;
  uo_body : str;
  uo_requests : list str;
  uo_physical : gmap str UtilityPhysical;
}.

(** What one physical response has established so far. *)
Record ResponseState := {
  rs_scope : str;
  rs_attempt : option str;
  rs_compaction : option str;
  rs_utility : option str;
  rs_processing : option bool;
  rs_pipeline_outputs : option Z;
  rs_sequence : Z;
  rs_http_status : option Z;
  rs_content_type : option str;
  rs_termination : option str;
  rs_bytes : Z;
  rs_digest : option Sha256;
  rs_decoded_utility : list json;
  rs_decoded_failure : option json;
  rs_decoded_pending : option DecodedPending;
}.

Record ModelRequests := {
  mr_journal_id : option str;
  mr_first_sequence : option Z;
  mr_physical_count : Z;
  mr_ids : gset str;
  mr_utilities : gmap str UtilityOperation;
  mr_completed_utilities : gset str;
  mr_completed_token_counts : gmap str CompletedTokenCount;
  mr_scopes : gmap str RequestBody;
  mr_responses : gmap str ResponseState;
  mr_response_values : gmap str ResponseValues;
  mr_attempts : gmap str AttemptState;
  mr_compactions : gmap str CompactionOperation;
  mr_claimed_compactions : gset str;
  mr_generations : gmap str Generation;
  mr_draws : gmap str DrawOutput;
  mr_owed : gmap str Owed;
  mr_usage : gmap str GenerationUsageSummary;
  mr_all_usage : GenerationUsageSummary;
}.

Definition default_requests : ModelRequests :=
  {| mr_journal_id := None; mr_first_sequence := None; mr_physical_count := 0; mr_ids := ∅; mr_utilities := ∅;
     mr_completed_utilities := ∅; mr_completed_token_counts := ∅; mr_scopes := ∅; mr_responses := ∅; mr_response_values := ∅;
     mr_attempts := ∅; mr_compactions := ∅; mr_claimed_compactions := ∅; mr_generations := ∅; mr_draws := ∅; mr_owed := ∅;
     mr_usage := ∅; mr_all_usage := no_requests |}.

(** *** Field updates *)
Definition set_mr_journal_id (x : option str) (r : ModelRequests) : ModelRequests :=
  {| mr_journal_id := x; mr_first_sequence := mr_first_sequence r; mr_physical_count := mr_physical_count r; mr_ids :=
     mr_ids r; mr_utilities := mr_utilities r; mr_completed_utilities := mr_completed_utilities r;
     mr_completed_token_counts := mr_completed_token_counts r; mr_scopes := mr_scopes r; mr_responses := mr_responses
     r; mr_response_values := mr_response_values r; mr_attempts := mr_attempts r; mr_compactions := mr_compactions r;
     mr_claimed_compactions := mr_claimed_compactions r; mr_generations := mr_generations r; mr_draws := mr_draws r;
     mr_owed := mr_owed r; mr_usage := mr_usage r; mr_all_usage := mr_all_usage r |}.
Definition set_mr_first_sequence (x : option Z) (r : ModelRequests) : ModelRequests :=
  {| mr_journal_id := mr_journal_id r; mr_first_sequence := x; mr_physical_count := mr_physical_count r; mr_ids :=
     mr_ids r; mr_utilities := mr_utilities r; mr_completed_utilities := mr_completed_utilities r;
     mr_completed_token_counts := mr_completed_token_counts r; mr_scopes := mr_scopes r; mr_responses := mr_responses
     r; mr_response_values := mr_response_values r; mr_attempts := mr_attempts r; mr_compactions := mr_compactions r;
     mr_claimed_compactions := mr_claimed_compactions r; mr_generations := mr_generations r; mr_draws := mr_draws r;
     mr_owed := mr_owed r; mr_usage := mr_usage r; mr_all_usage := mr_all_usage r |}.
Definition set_mr_physical_count (x : Z) (r : ModelRequests) : ModelRequests :=
  {| mr_journal_id := mr_journal_id r; mr_first_sequence := mr_first_sequence r; mr_physical_count := x; mr_ids :=
     mr_ids r; mr_utilities := mr_utilities r; mr_completed_utilities := mr_completed_utilities r;
     mr_completed_token_counts := mr_completed_token_counts r; mr_scopes := mr_scopes r; mr_responses := mr_responses
     r; mr_response_values := mr_response_values r; mr_attempts := mr_attempts r; mr_compactions := mr_compactions r;
     mr_claimed_compactions := mr_claimed_compactions r; mr_generations := mr_generations r; mr_draws := mr_draws r;
     mr_owed := mr_owed r; mr_usage := mr_usage r; mr_all_usage := mr_all_usage r |}.
Definition set_mr_ids (x : gset str) (r : ModelRequests) : ModelRequests :=
  {| mr_journal_id := mr_journal_id r; mr_first_sequence := mr_first_sequence r; mr_physical_count :=
     mr_physical_count r; mr_ids := x; mr_utilities := mr_utilities r; mr_completed_utilities :=
     mr_completed_utilities r; mr_completed_token_counts := mr_completed_token_counts r; mr_scopes := mr_scopes r;
     mr_responses := mr_responses r; mr_response_values := mr_response_values r; mr_attempts := mr_attempts r;
     mr_compactions := mr_compactions r; mr_claimed_compactions := mr_claimed_compactions r; mr_generations :=
     mr_generations r; mr_draws := mr_draws r; mr_owed := mr_owed r; mr_usage := mr_usage r; mr_all_usage :=
     mr_all_usage r |}.
Definition set_mr_utilities (x : gmap str UtilityOperation) (r : ModelRequests) : ModelRequests :=
  {| mr_journal_id := mr_journal_id r; mr_first_sequence := mr_first_sequence r; mr_physical_count :=
     mr_physical_count r; mr_ids := mr_ids r; mr_utilities := x; mr_completed_utilities := mr_completed_utilities r;
     mr_completed_token_counts := mr_completed_token_counts r; mr_scopes := mr_scopes r; mr_responses := mr_responses
     r; mr_response_values := mr_response_values r; mr_attempts := mr_attempts r; mr_compactions := mr_compactions r;
     mr_claimed_compactions := mr_claimed_compactions r; mr_generations := mr_generations r; mr_draws := mr_draws r;
     mr_owed := mr_owed r; mr_usage := mr_usage r; mr_all_usage := mr_all_usage r |}.
Definition set_mr_completed_utilities (x : gset str) (r : ModelRequests) : ModelRequests :=
  {| mr_journal_id := mr_journal_id r; mr_first_sequence := mr_first_sequence r; mr_physical_count :=
     mr_physical_count r; mr_ids := mr_ids r; mr_utilities := mr_utilities r; mr_completed_utilities := x;
     mr_completed_token_counts := mr_completed_token_counts r; mr_scopes := mr_scopes r; mr_responses := mr_responses
     r; mr_response_values := mr_response_values r; mr_attempts := mr_attempts r; mr_compactions := mr_compactions r;
     mr_claimed_compactions := mr_claimed_compactions r; mr_generations := mr_generations r; mr_draws := mr_draws r;
     mr_owed := mr_owed r; mr_usage := mr_usage r; mr_all_usage := mr_all_usage r |}.
Definition set_mr_completed_token_counts (x : gmap str CompletedTokenCount) (r : ModelRequests) : ModelRequests :=
  {| mr_journal_id := mr_journal_id r; mr_first_sequence := mr_first_sequence r; mr_physical_count :=
     mr_physical_count r; mr_ids := mr_ids r; mr_utilities := mr_utilities r; mr_completed_utilities :=
     mr_completed_utilities r; mr_completed_token_counts := x; mr_scopes := mr_scopes r; mr_responses := mr_responses
     r; mr_response_values := mr_response_values r; mr_attempts := mr_attempts r; mr_compactions := mr_compactions r;
     mr_claimed_compactions := mr_claimed_compactions r; mr_generations := mr_generations r; mr_draws := mr_draws r;
     mr_owed := mr_owed r; mr_usage := mr_usage r; mr_all_usage := mr_all_usage r |}.
Definition set_mr_scopes (x : gmap str RequestBody) (r : ModelRequests) : ModelRequests :=
  {| mr_journal_id := mr_journal_id r; mr_first_sequence := mr_first_sequence r; mr_physical_count :=
     mr_physical_count r; mr_ids := mr_ids r; mr_utilities := mr_utilities r; mr_completed_utilities :=
     mr_completed_utilities r; mr_completed_token_counts := mr_completed_token_counts r; mr_scopes := x; mr_responses
     := mr_responses r; mr_response_values := mr_response_values r; mr_attempts := mr_attempts r; mr_compactions :=
     mr_compactions r; mr_claimed_compactions := mr_claimed_compactions r; mr_generations := mr_generations r;
     mr_draws := mr_draws r; mr_owed := mr_owed r; mr_usage := mr_usage r; mr_all_usage := mr_all_usage r |}.
Definition set_mr_responses (x : gmap str ResponseState) (r : ModelRequests) : ModelRequests :=
  {| mr_journal_id := mr_journal_id r; mr_first_sequence := mr_first_sequence r; mr_physical_count :=
     mr_physical_count r; mr_ids := mr_ids r; mr_utilities := mr_utilities r; mr_completed_utilities :=
     mr_completed_utilities r; mr_completed_token_counts := mr_completed_token_counts r; mr_scopes := mr_scopes r;
     mr_responses := x; mr_response_values := mr_response_values r; mr_attempts := mr_attempts r; mr_compactions :=
     mr_compactions r; mr_claimed_compactions := mr_claimed_compactions r; mr_generations := mr_generations r;
     mr_draws := mr_draws r; mr_owed := mr_owed r; mr_usage := mr_usage r; mr_all_usage := mr_all_usage r |}.
Definition set_mr_response_values (x : gmap str ResponseValues) (r : ModelRequests) : ModelRequests :=
  {| mr_journal_id := mr_journal_id r; mr_first_sequence := mr_first_sequence r; mr_physical_count :=
     mr_physical_count r; mr_ids := mr_ids r; mr_utilities := mr_utilities r; mr_completed_utilities :=
     mr_completed_utilities r; mr_completed_token_counts := mr_completed_token_counts r; mr_scopes := mr_scopes r;
     mr_responses := mr_responses r; mr_response_values := x; mr_attempts := mr_attempts r; mr_compactions :=
     mr_compactions r; mr_claimed_compactions := mr_claimed_compactions r; mr_generations := mr_generations r;
     mr_draws := mr_draws r; mr_owed := mr_owed r; mr_usage := mr_usage r; mr_all_usage := mr_all_usage r |}.
Definition set_mr_attempts (x : gmap str AttemptState) (r : ModelRequests) : ModelRequests :=
  {| mr_journal_id := mr_journal_id r; mr_first_sequence := mr_first_sequence r; mr_physical_count :=
     mr_physical_count r; mr_ids := mr_ids r; mr_utilities := mr_utilities r; mr_completed_utilities :=
     mr_completed_utilities r; mr_completed_token_counts := mr_completed_token_counts r; mr_scopes := mr_scopes r;
     mr_responses := mr_responses r; mr_response_values := mr_response_values r; mr_attempts := x; mr_compactions :=
     mr_compactions r; mr_claimed_compactions := mr_claimed_compactions r; mr_generations := mr_generations r;
     mr_draws := mr_draws r; mr_owed := mr_owed r; mr_usage := mr_usage r; mr_all_usage := mr_all_usage r |}.
Definition set_mr_compactions (x : gmap str CompactionOperation) (r : ModelRequests) : ModelRequests :=
  {| mr_journal_id := mr_journal_id r; mr_first_sequence := mr_first_sequence r; mr_physical_count :=
     mr_physical_count r; mr_ids := mr_ids r; mr_utilities := mr_utilities r; mr_completed_utilities :=
     mr_completed_utilities r; mr_completed_token_counts := mr_completed_token_counts r; mr_scopes := mr_scopes r;
     mr_responses := mr_responses r; mr_response_values := mr_response_values r; mr_attempts := mr_attempts r;
     mr_compactions := x; mr_claimed_compactions := mr_claimed_compactions r; mr_generations := mr_generations r;
     mr_draws := mr_draws r; mr_owed := mr_owed r; mr_usage := mr_usage r; mr_all_usage := mr_all_usage r |}.
Definition set_mr_claimed_compactions (x : gset str) (r : ModelRequests) : ModelRequests :=
  {| mr_journal_id := mr_journal_id r; mr_first_sequence := mr_first_sequence r; mr_physical_count :=
     mr_physical_count r; mr_ids := mr_ids r; mr_utilities := mr_utilities r; mr_completed_utilities :=
     mr_completed_utilities r; mr_completed_token_counts := mr_completed_token_counts r; mr_scopes := mr_scopes r;
     mr_responses := mr_responses r; mr_response_values := mr_response_values r; mr_attempts := mr_attempts r;
     mr_compactions := mr_compactions r; mr_claimed_compactions := x; mr_generations := mr_generations r; mr_draws :=
     mr_draws r; mr_owed := mr_owed r; mr_usage := mr_usage r; mr_all_usage := mr_all_usage r |}.
Definition set_mr_generations (x : gmap str Generation) (r : ModelRequests) : ModelRequests :=
  {| mr_journal_id := mr_journal_id r; mr_first_sequence := mr_first_sequence r; mr_physical_count :=
     mr_physical_count r; mr_ids := mr_ids r; mr_utilities := mr_utilities r; mr_completed_utilities :=
     mr_completed_utilities r; mr_completed_token_counts := mr_completed_token_counts r; mr_scopes := mr_scopes r;
     mr_responses := mr_responses r; mr_response_values := mr_response_values r; mr_attempts := mr_attempts r;
     mr_compactions := mr_compactions r; mr_claimed_compactions := mr_claimed_compactions r; mr_generations := x;
     mr_draws := mr_draws r; mr_owed := mr_owed r; mr_usage := mr_usage r; mr_all_usage := mr_all_usage r |}.
Definition set_mr_draws (x : gmap str DrawOutput) (r : ModelRequests) : ModelRequests :=
  {| mr_journal_id := mr_journal_id r; mr_first_sequence := mr_first_sequence r; mr_physical_count :=
     mr_physical_count r; mr_ids := mr_ids r; mr_utilities := mr_utilities r; mr_completed_utilities :=
     mr_completed_utilities r; mr_completed_token_counts := mr_completed_token_counts r; mr_scopes := mr_scopes r;
     mr_responses := mr_responses r; mr_response_values := mr_response_values r; mr_attempts := mr_attempts r;
     mr_compactions := mr_compactions r; mr_claimed_compactions := mr_claimed_compactions r; mr_generations :=
     mr_generations r; mr_draws := x; mr_owed := mr_owed r; mr_usage := mr_usage r; mr_all_usage := mr_all_usage r |}.
Definition set_mr_owed (x : gmap str Owed) (r : ModelRequests) : ModelRequests :=
  {| mr_journal_id := mr_journal_id r; mr_first_sequence := mr_first_sequence r; mr_physical_count :=
     mr_physical_count r; mr_ids := mr_ids r; mr_utilities := mr_utilities r; mr_completed_utilities :=
     mr_completed_utilities r; mr_completed_token_counts := mr_completed_token_counts r; mr_scopes := mr_scopes r;
     mr_responses := mr_responses r; mr_response_values := mr_response_values r; mr_attempts := mr_attempts r;
     mr_compactions := mr_compactions r; mr_claimed_compactions := mr_claimed_compactions r; mr_generations :=
     mr_generations r; mr_draws := mr_draws r; mr_owed := x; mr_usage := mr_usage r; mr_all_usage := mr_all_usage r |}.
Definition set_mr_usage (x : gmap str GenerationUsageSummary) (r : ModelRequests) : ModelRequests :=
  {| mr_journal_id := mr_journal_id r; mr_first_sequence := mr_first_sequence r; mr_physical_count :=
     mr_physical_count r; mr_ids := mr_ids r; mr_utilities := mr_utilities r; mr_completed_utilities :=
     mr_completed_utilities r; mr_completed_token_counts := mr_completed_token_counts r; mr_scopes := mr_scopes r;
     mr_responses := mr_responses r; mr_response_values := mr_response_values r; mr_attempts := mr_attempts r;
     mr_compactions := mr_compactions r; mr_claimed_compactions := mr_claimed_compactions r; mr_generations :=
     mr_generations r; mr_draws := mr_draws r; mr_owed := mr_owed r; mr_usage := x; mr_all_usage := mr_all_usage r |}.
Definition set_mr_all_usage (x : GenerationUsageSummary) (r : ModelRequests) : ModelRequests :=
  {| mr_journal_id := mr_journal_id r; mr_first_sequence := mr_first_sequence r; mr_physical_count :=
     mr_physical_count r; mr_ids := mr_ids r; mr_utilities := mr_utilities r; mr_completed_utilities :=
     mr_completed_utilities r; mr_completed_token_counts := mr_completed_token_counts r; mr_scopes := mr_scopes r;
     mr_responses := mr_responses r; mr_response_values := mr_response_values r; mr_attempts := mr_attempts r;
     mr_compactions := mr_compactions r; mr_claimed_compactions := mr_claimed_compactions r; mr_generations :=
     mr_generations r; mr_draws := mr_draws r; mr_owed := mr_owed r; mr_usage := mr_usage r; mr_all_usage := x |}.

Definition set_rs_processing (x : option bool) (r : ResponseState) : ResponseState :=
  {| rs_scope := rs_scope r; rs_attempt := rs_attempt r; rs_compaction := rs_compaction r; rs_utility := rs_utility r;
     rs_processing := x; rs_pipeline_outputs := rs_pipeline_outputs r; rs_sequence := rs_sequence r; rs_http_status :=
     rs_http_status r; rs_content_type := rs_content_type r; rs_termination := rs_termination r; rs_bytes := rs_bytes
     r; rs_digest := rs_digest r; rs_decoded_utility := rs_decoded_utility r; rs_decoded_failure := rs_decoded_failure
     r; rs_decoded_pending := rs_decoded_pending r |}.
Definition set_rs_pipeline_outputs (x : option Z) (r : ResponseState) : ResponseState :=
  {| rs_scope := rs_scope r; rs_attempt := rs_attempt r; rs_compaction := rs_compaction r; rs_utility := rs_utility r;
     rs_processing := rs_processing r; rs_pipeline_outputs := x; rs_sequence := rs_sequence r; rs_http_status :=
     rs_http_status r; rs_content_type := rs_content_type r; rs_termination := rs_termination r; rs_bytes := rs_bytes
     r; rs_digest := rs_digest r; rs_decoded_utility := rs_decoded_utility r; rs_decoded_failure := rs_decoded_failure
     r; rs_decoded_pending := rs_decoded_pending r |}.
Definition set_rs_sequence (x : Z) (r : ResponseState) : ResponseState :=
  {| rs_scope := rs_scope r; rs_attempt := rs_attempt r; rs_compaction := rs_compaction r; rs_utility := rs_utility r;
     rs_processing := rs_processing r; rs_pipeline_outputs := rs_pipeline_outputs r; rs_sequence := x; rs_http_status
     := rs_http_status r; rs_content_type := rs_content_type r; rs_termination := rs_termination r; rs_bytes :=
     rs_bytes r; rs_digest := rs_digest r; rs_decoded_utility := rs_decoded_utility r; rs_decoded_failure :=
     rs_decoded_failure r; rs_decoded_pending := rs_decoded_pending r |}.
Definition set_rs_http_status (x : option Z) (r : ResponseState) : ResponseState :=
  {| rs_scope := rs_scope r; rs_attempt := rs_attempt r; rs_compaction := rs_compaction r; rs_utility := rs_utility r;
     rs_processing := rs_processing r; rs_pipeline_outputs := rs_pipeline_outputs r; rs_sequence := rs_sequence r;
     rs_http_status := x; rs_content_type := rs_content_type r; rs_termination := rs_termination r; rs_bytes :=
     rs_bytes r; rs_digest := rs_digest r; rs_decoded_utility := rs_decoded_utility r; rs_decoded_failure :=
     rs_decoded_failure r; rs_decoded_pending := rs_decoded_pending r |}.
Definition set_rs_content_type (x : option str) (r : ResponseState) : ResponseState :=
  {| rs_scope := rs_scope r; rs_attempt := rs_attempt r; rs_compaction := rs_compaction r; rs_utility := rs_utility r;
     rs_processing := rs_processing r; rs_pipeline_outputs := rs_pipeline_outputs r; rs_sequence := rs_sequence r;
     rs_http_status := rs_http_status r; rs_content_type := x; rs_termination := rs_termination r; rs_bytes :=
     rs_bytes r; rs_digest := rs_digest r; rs_decoded_utility := rs_decoded_utility r; rs_decoded_failure :=
     rs_decoded_failure r; rs_decoded_pending := rs_decoded_pending r |}.
Definition set_rs_termination (x : option str) (r : ResponseState) : ResponseState :=
  {| rs_scope := rs_scope r; rs_attempt := rs_attempt r; rs_compaction := rs_compaction r; rs_utility := rs_utility r;
     rs_processing := rs_processing r; rs_pipeline_outputs := rs_pipeline_outputs r; rs_sequence := rs_sequence r;
     rs_http_status := rs_http_status r; rs_content_type := rs_content_type r; rs_termination := x; rs_bytes :=
     rs_bytes r; rs_digest := rs_digest r; rs_decoded_utility := rs_decoded_utility r; rs_decoded_failure :=
     rs_decoded_failure r; rs_decoded_pending := rs_decoded_pending r |}.
Definition set_rs_bytes (x : Z) (r : ResponseState) : ResponseState :=
  {| rs_scope := rs_scope r; rs_attempt := rs_attempt r; rs_compaction := rs_compaction r; rs_utility := rs_utility r;
     rs_processing := rs_processing r; rs_pipeline_outputs := rs_pipeline_outputs r; rs_sequence := rs_sequence r;
     rs_http_status := rs_http_status r; rs_content_type := rs_content_type r; rs_termination := rs_termination r;
     rs_bytes := x; rs_digest := rs_digest r; rs_decoded_utility := rs_decoded_utility r; rs_decoded_failure :=
     rs_decoded_failure r; rs_decoded_pending := rs_decoded_pending r |}.
Definition set_rs_digest (x : option Sha256) (r : ResponseState) : ResponseState :=
  {| rs_scope := rs_scope r; rs_attempt := rs_attempt r; rs_compaction := rs_compaction r; rs_utility := rs_utility r;
     rs_processing := rs_processing r; rs_pipeline_outputs := rs_pipeline_outputs r; rs_sequence := rs_sequence r;
     rs_http_status := rs_http_status r; rs_content_type := rs_content_type r; rs_termination := rs_termination r;
     rs_bytes := rs_bytes r; rs_digest := x; rs_decoded_utility := rs_decoded_utility r; rs_decoded_failure :=
     rs_decoded_failure r; rs_decoded_pending := rs_decoded_pending r |}.
Definition set_rs_decoded_utility (x : list json) (r : ResponseState) : ResponseState :=
  {| rs_scope := rs_scope r; rs_attempt := rs_attempt r; rs_compaction := rs_compaction r; rs_utility := rs_utility r;
     rs_processing := rs_processing r; rs_pipeline_outputs := rs_pipeline_outputs r; rs_sequence := rs_sequence r;
     rs_http_status := rs_http_status r; rs_content_type := rs_content_type r; rs_termination := rs_termination r;
     rs_bytes := rs_bytes r; rs_digest := rs_digest r; rs_decoded_utility := x; rs_decoded_failure :=
     rs_decoded_failure r; rs_decoded_pending := rs_decoded_pending r |}.
Definition set_rs_decoded_failure (x : option json) (r : ResponseState) : ResponseState :=
  {| rs_scope := rs_scope r; rs_attempt := rs_attempt r; rs_compaction := rs_compaction r; rs_utility := rs_utility r;
     rs_processing := rs_processing r; rs_pipeline_outputs := rs_pipeline_outputs r; rs_sequence := rs_sequence r;
     rs_http_status := rs_http_status r; rs_content_type := rs_content_type r; rs_termination := rs_termination r;
     rs_bytes := rs_bytes r; rs_digest := rs_digest r; rs_decoded_utility := rs_decoded_utility r; rs_decoded_failure
     := x; rs_decoded_pending := rs_decoded_pending r |}.
Definition set_rs_decoded_pending (x : option DecodedPending) (r : ResponseState) : ResponseState :=
  {| rs_scope := rs_scope r; rs_attempt := rs_attempt r; rs_compaction := rs_compaction r; rs_utility := rs_utility r;
     rs_processing := rs_processing r; rs_pipeline_outputs := rs_pipeline_outputs r; rs_sequence := rs_sequence r;
     rs_http_status := rs_http_status r; rs_content_type := rs_content_type r; rs_termination := rs_termination r;
     rs_bytes := rs_bytes r; rs_digest := rs_digest r; rs_decoded_utility := rs_decoded_utility r; rs_decoded_failure
     := rs_decoded_failure r; rs_decoded_pending := x |}.

Definition set_at_requests (x : list str) (r : AttemptState) : AttemptState :=
  {| at_scope := at_scope r; at_requests := x; at_settled := at_settled r; at_outcomes := at_outcomes r; at_seed :=
     at_seed r; at_generation := at_generation r; at_completed := at_completed r |}.
Definition set_at_settled (x : gmap str bool) (r : AttemptState) : AttemptState :=
  {| at_scope := at_scope r; at_requests := at_requests r; at_settled := x; at_outcomes := at_outcomes r; at_seed :=
     at_seed r; at_generation := at_generation r; at_completed := at_completed r |}.
Definition set_at_outcomes (x : gmap str ResponseOutcome) (r : AttemptState) : AttemptState :=
  {| at_scope := at_scope r; at_requests := at_requests r; at_settled := at_settled r; at_outcomes := x; at_seed :=
     at_seed r; at_generation := at_generation r; at_completed := at_completed r |}.
Definition set_at_seed (x : option NormalizationSeed) (r : AttemptState) : AttemptState :=
  {| at_scope := at_scope r; at_requests := at_requests r; at_settled := at_settled r; at_outcomes := at_outcomes r;
     at_seed := x; at_generation := at_generation r; at_completed := at_completed r |}.
Definition set_at_generation (x : option Generation) (r : AttemptState) : AttemptState :=
  {| at_scope := at_scope r; at_requests := at_requests r; at_settled := at_settled r; at_outcomes := at_outcomes r;
     at_seed := at_seed r; at_generation := x; at_completed := at_completed r |}.
Definition set_at_completed (x : bool) (r : AttemptState) : AttemptState :=
  {| at_scope := at_scope r; at_requests := at_requests r; at_settled := at_settled r; at_outcomes := at_outcomes r;
     at_seed := at_seed r; at_generation := at_generation r; at_completed := x |}.

Definition set_co_last_sequence (x : Z) (r : CompactionOperation) : CompactionOperation :=
  {| co_scope := co_scope r; co_budget := co_budget r; co_model := co_model r; co_first_sequence := co_first_sequence
     r; co_last_sequence := x; co_requests := co_requests r; co_open := co_open r; co_outcomes := co_outcomes r;
     co_values := co_values r; co_deliveries := co_deliveries r; co_observations := co_observations r; co_failures :=
     co_failures r |}.
Definition set_co_requests (x : list str) (r : CompactionOperation) : CompactionOperation :=
  {| co_scope := co_scope r; co_budget := co_budget r; co_model := co_model r; co_first_sequence := co_first_sequence
     r; co_last_sequence := co_last_sequence r; co_requests := x; co_open := co_open r; co_outcomes := co_outcomes r;
     co_values := co_values r; co_deliveries := co_deliveries r; co_observations := co_observations r; co_failures :=
     co_failures r |}.
Definition set_co_open (x : gset str) (r : CompactionOperation) : CompactionOperation :=
  {| co_scope := co_scope r; co_budget := co_budget r; co_model := co_model r; co_first_sequence := co_first_sequence
     r; co_last_sequence := co_last_sequence r; co_requests := co_requests r; co_open := x; co_outcomes := co_outcomes
     r; co_values := co_values r; co_deliveries := co_deliveries r; co_observations := co_observations r; co_failures
     := co_failures r |}.
Definition set_co_outcomes (x : gmap str ResponseOutcome) (r : CompactionOperation) : CompactionOperation :=
  {| co_scope := co_scope r; co_budget := co_budget r; co_model := co_model r; co_first_sequence := co_first_sequence
     r; co_last_sequence := co_last_sequence r; co_requests := co_requests r; co_open := co_open r; co_outcomes := x;
     co_values := co_values r; co_deliveries := co_deliveries r; co_observations := co_observations r; co_failures :=
     co_failures r |}.
Definition set_co_values (x : gmap str (list json)) (r : CompactionOperation) : CompactionOperation :=
  {| co_scope := co_scope r; co_budget := co_budget r; co_model := co_model r; co_first_sequence := co_first_sequence
     r; co_last_sequence := co_last_sequence r; co_requests := co_requests r; co_open := co_open r; co_outcomes :=
     co_outcomes r; co_values := x; co_deliveries := co_deliveries r; co_observations := co_observations r;
     co_failures := co_failures r |}.
Definition set_co_deliveries (x : gmap str Z) (r : CompactionOperation) : CompactionOperation :=
  {| co_scope := co_scope r; co_budget := co_budget r; co_model := co_model r; co_first_sequence := co_first_sequence
     r; co_last_sequence := co_last_sequence r; co_requests := co_requests r; co_open := co_open r; co_outcomes :=
     co_outcomes r; co_values := co_values r; co_deliveries := x; co_observations := co_observations r; co_failures :=
     co_failures r |}.
Definition set_co_observations (x : gmap str (list json)) (r : CompactionOperation) : CompactionOperation :=
  {| co_scope := co_scope r; co_budget := co_budget r; co_model := co_model r; co_first_sequence := co_first_sequence
     r; co_last_sequence := co_last_sequence r; co_requests := co_requests r; co_open := co_open r; co_outcomes :=
     co_outcomes r; co_values := co_values r; co_deliveries := co_deliveries r; co_observations := x; co_failures :=
     co_failures r |}.
Definition set_co_failures (x : gmap str (option json)) (r : CompactionOperation) : CompactionOperation :=
  {| co_scope := co_scope r; co_budget := co_budget r; co_model := co_model r; co_first_sequence := co_first_sequence
     r; co_last_sequence := co_last_sequence r; co_requests := co_requests r; co_open := co_open r; co_outcomes :=
     co_outcomes r; co_values := co_values r; co_deliveries := co_deliveries r; co_observations := co_observations r;
     co_failures := x |}.

Definition set_uo_last_sequence (x : Z) (r : UtilityOperation) : UtilityOperation :=
  {| uo_first_sequence := uo_first_sequence r; uo_last_sequence := x; uo_journal_id := uo_journal_id r; uo_scope :=
     uo_scope r; uo_kind := uo_kind r; uo_model := uo_model r; uo_input_count := uo_input_count r;
     uo_expected_max_model_len := uo_expected_max_model_len r; uo_url := uo_url r; uo_body := uo_body r; uo_requests
     := uo_requests r; uo_physical := uo_physical r |}.
Definition set_uo_requests (x : list str) (r : UtilityOperation) : UtilityOperation :=
  {| uo_first_sequence := uo_first_sequence r; uo_last_sequence := uo_last_sequence r; uo_journal_id := uo_journal_id
     r; uo_scope := uo_scope r; uo_kind := uo_kind r; uo_model := uo_model r; uo_input_count := uo_input_count r;
     uo_expected_max_model_len := uo_expected_max_model_len r; uo_url := uo_url r; uo_body := uo_body r; uo_requests
     := x; uo_physical := uo_physical r |}.
Definition set_uo_physical (x : gmap str UtilityPhysical) (r : UtilityOperation) : UtilityOperation :=
  {| uo_first_sequence := uo_first_sequence r; uo_last_sequence := uo_last_sequence r; uo_journal_id := uo_journal_id
     r; uo_scope := uo_scope r; uo_kind := uo_kind r; uo_model := uo_model r; uo_input_count := uo_input_count r;
     uo_expected_max_model_len := uo_expected_max_model_len r; uo_url := uo_url r; uo_body := uo_body r; uo_requests
     := uo_requests r; uo_physical := x |}.
End State.

(** ** Slices of a text, which panic off a character boundary *)
Definition slice_to (s : str) (n : nat) (site : string) : contract str :=
  if is_char_boundary s n then Ok (take n s) else Err (Panic site).
Definition slice_from (s : str) (n : nat) (site : string) : contract str := expect (str_from s n) site.

(** [&mut] of a map's entry: [get_mut(k).expect(site)] *)
Definition update_entry {V} (m : gmap str V) (k : str) (site : string) (f : V → V) : contract (gmap str V) :=
  v ← expect (m !! k) site; Ok (<[k := f v]> m).

Definition any_value {V} (p : V → bool) (m : gmap str V) : bool := existsb (fun kv => p kv.2) (map_to_list m).

Definition add_one (n : Z) (site : string) : contract Z := expect (checked_add n 1) site.

Definition hex (digest : str) : str := concat (map (fun b => [hex_nibble (b / 16); hex_nibble (b mod 16)]) digest).

Section Chat.
Context `{BigIntOps} `{Sha256Ops} `{Serde} `{Base64}.

Definition scope_usage (r : ModelRequests) (scope : str) : GenerationUsageSummary := default no_requests (mr_usage r !! scope).
Definition outputs_of (r : ModelRequests) : ModelOutputs := {| generations := mr_generations r; draws := mr_draws r |}.

Record RequestOrigin := { or_journal_id : str; or_first_sequence : Z }.
Definition plan_origin (r : ModelRequests) (origin : Value) (line : Z) : contract RequestOrigin :=
  if bool_decide (mr_journal_id r ≠ None) then model_refusal "repeats its journal origin"
  else
    journal ← text origin "journal_id" line;
    first ← field origin "first_sequence" line;
    first ← unsigned first "first request sequence" SAFE_INTEGER;
    Ok {| or_journal_id := journal; or_first_sequence := first |}.
Definition commit_origin (o : RequestOrigin) (r : ModelRequests) : ModelRequests :=
  set_mr_first_sequence (Some (or_first_sequence o)) (set_mr_journal_id (Some (or_journal_id o)) r).

(** *** Chat and draw requests *)
Record RequestAdmission := {
  ra_journal_id : str; ra_sequence : Z; ra_scope : str; ra_body : RequestBody; ra_attempt : option str;
  ra_compaction : option (str * Z * str); ra_stream : bool; ra_usage : GenerationUsageSummary; ra_all_usage : GenerationUsageSummary;
}.

(** The sequence the journal's next physical request has. *)
Definition next_sequence (r : ModelRequests) : option Z := first ← mr_first_sequence r; checked_add first (mr_physical_count r).

(** The attempt or compaction a request belongs to. *)
Definition request_owner (r : ModelRequests) (scope : str) (owner : Value) (line : Z) : contract (option str * option str) :=
  kind ← text owner "kind" line;
  if bool_decide (kind = lit "chat") then
    id ← text owner "attempt_id" line;
    if match mr_attempts r !! id with
       | Some attempt =>
           bool_decide (at_scope attempt ≠ scope) || bool_decide (at_generation attempt ≠ None) || bool_decide (at_seed attempt ≠ None)
           || at_completed attempt || any_value (fun accepted => accepted) (at_settled attempt)
       | None => false
       end
    then model_refusal "chat attempt changes scope or issues a request after normalization or acceptance"
    else Ok (Some id, None)
  else if bool_decide (kind = lit "utility") then
    id ← text owner "operation_id" line;
    purpose ← text owner "purpose" line;
    Ok (None, if bool_decide (purpose = lit "compaction") then Some id else None)
  else model_refusal "unknown request owner".

Definition added_text (message : Value) : contract str :=
  match as_str message with Some s => Ok s | None => model_refusal "has a non-string message delta" end.
Definition added_messages (body : Value) (line : Z) : contract (list str) :=
  added ← field body "added_messages" line;
  match elements added with
  | None => model_refusal "has no added messages array"
  | Some items => traverse added_text items
  end.

Definition read_retained (body : Value) (line : Z) : contract nat :=
  retained ← field body "retain_messages" line;
  retained ← unsigned retained "retained request messages" SAFE_INTEGER;
  Ok (Z.to_nat retained).

(** The body a record stands for: whole, or against its scope's last request. *)
Definition body_json (r : ModelRequests) (scope segment : str) (body : Value) (line : Z) : contract str :=
  kind ← text body "kind" line;
  if bool_decide (kind = lit "full") then
    if match mr_scopes r !! scope with Some previous => bool_decide (segment_id previous = segment) | None => false end
    then model_refusal "full body repeats an active invocation segment"
    else text body "json" line
  else if bool_decide (kind = lit "delta") then
    match mr_scopes r !! scope with
    | None => model_refusal "starts an invocation without a full body"
    | Some previous =>
        base ← text body "base_request_id" line;
        if bool_decide (body_id previous ≠ base) || bool_decide (segment_id previous ≠ segment)
        then model_refusal "does not reference the last request of its invocation"
        else
          retained ← read_retained body line;
          if (length (body_messages previous) <? retained)%nat then model_refusal "retains absent messages"
          else
            added ← added_messages body line;
            prefix ← text body "prefix" line;
            suffix ← text body "suffix" line;
            Ok (prefix ++ join 44 (take retained (body_messages previous) ++ added) ++ suffix)
    end
  else model_refusal "uses an unknown body representation".

Definition delta_message (limits : Limits) (_ : unit) (message : Value) : contract unit :=
  raw ← added_text message;
  doc ← map_refused (fun _ => InvalidRecord (lit "model request evidence has a malformed message delta; inspect the complete original recording with its matching client")) (decode raw limits);
  if bool_decide (as_object (root doc) = None) then model_refusal "has a non-object message delta" else Ok tt.

(** What a delta replaces is the end of the top-level messages. *)
Definition check_delta (json_ : str) (array body : Value) (limits : Limits) (line : Z) : contract unit :=
  let '(start, end_) := byte_range array in
  prefix ← text body "prefix" line;
  head ← slice_to json_ (start + 1) "json[..range.start + 1]";
  if bool_decide (prefix ≠ head) then model_refusal "delta does not replace the top-level messages suffix"
  else
    suffix ← text body "suffix" line;
    at_ ← usize_sub end_ 1 "range.end - 1";
    tail ← slice_from json_ at_ "json[range.end - 1..]";
    if bool_decide (suffix ≠ tail) then model_refusal "delta does not replace the top-level messages suffix"
    else
      added ← field body "added_messages" line;
      match elements added with
      | None => model_refusal "has no added messages array"
      | Some items => fold_result (delta_message limits) tt items
      end.

Definition message_raw (message : Value) : contract str :=
  if bool_decide (as_object message = None) then model_refusal "body contains a non-object message" else Ok (raw message).

(** [resize(n, Vec::new())] *)
Definition resize {A} (n : nat) (l : list (list A)) : list (list A) := take n l ++ replicate (n - length l) [].

Definition holds (at_ : nat) (range : nat * nat) : Prop := (range.1 <= at_ < range.2)%nat.
Definition rebase (start : nat) (c : Citation) : contract Citation :=
  stored ← usize_sub (stored c) start "citation.stored -= start";
  string ← usize_sub (string_start c) start "citation.string -= start";
  Ok {| stored := stored; string_start := string; place := place c; cite_kind := cite_kind c; cite_id := cite_id c;
        cite_field := cite_field c; from := from c; to_ := to_ c |}.

(** Each run of this record goes to the message it lies in, unless that message
    is retained. *)
Definition assign_citation (ranges : list (nat * nat)) (retained : nat) (cs : list (list Citation)) (c : Citation) :
    contract (list (list Citation)) :=
  match list_find (holds (stored c)) ranges with
  | None => Ok cs
  | Some (index, range) =>
      if (index <? retained)%nat then Ok cs
      else
        c ← rebase range.1 c;
        runs ← expect (cs !! index) "citations[index]";
        Ok (<[index := runs ++ [c]]> cs)
  end.

Definition retained_citations (r : ModelRequests) (scope : str) (body : Value) (line : Z) : contract (list (list Citation)) :=
  kind ← text body "kind" line;
  if bool_decide (kind = lit "delta") then
    retained ← read_retained body line;
    base ← expect (mr_scopes r !! scope) "checked delta base";
    up_to retained (body_citations base) "citations[..retained]"
  else Ok [].

Definition owed_required (r : ModelRequests) (scope : str) (draw_ : bool) : contract Required :=
  match mr_owed r !! scope with
  | None => Ok {| required_draw := None; required_generations := [] |}
  | Some owed =>
      generations ← (if draw_ then up_to (owed_issued owed) (owed_generations owed) "generations[..issued]" else Ok (owed_generations owed));
      Ok {| required_draw := owed_draw owed; required_generations := generations |}
  end.

(** A body that reproduces its stated bytes, decoded, and its stream mode and model. *)
Definition request_document (request : Value) (json_ scope : str) (limits : Limits) (line : Z) : contract (Document * bool * str) :=
  bytes ← field request "body_bytes" line;
  bytes ← unsigned bytes "request body bytes" SAFE_INTEGER;
  if negb (Z.of_nat (length json_) =? bytes) then model_refusal "does not reproduce the stated body bytes and SHA-256"
  else
    sha ← text request "body_sha256" line;
    if bool_decide (sha256 json_ ≠ sha) then model_refusal "does not reproduce the stated body bytes and SHA-256"
    else
      document ← map_refused (fun _ => InvalidRecord (lit "model request evidence contains invalid body JSON; inspect the complete original recording with its matching client")) (decode json_ limits);
      let object := root document in
      if bool_decide ((get object "kv_scope" ≫= as_str) ≠ Some scope) then model_refusal "body belongs to another invocation"
      else
        stream ← field object "stream" line;
        match as_bool stream with
        | None => model_refusal "body has no stream mode"
        | Some stream =>
            policy ← field request "decode_policy" line;
            mode ← text policy "mode" line;
            if negb (Bool.eqb stream (bool_decide (mode = lit "stream"))) then model_refusal "selected decoder contradicts the request stream mode"
            else
              model ← text object "model" line;
              if (length (trim model) =? 0)%nat then model_refusal "selected decoder contradicts the dispatched model"
              else
                declared ← text policy "model" line;
                if bool_decide (model ≠ declared) then model_refusal "selected decoder contradicts the dispatched model"
                else Ok (document, stream, model)
        end.

(** The messages of a body and the model text each carries. *)
Definition request_messages (r : ModelRequests) (body : Value) (json_ scope : str) (document : Document) (limits : Limits)
    (operator : OperatorTask) (line : Z) : contract (Value * list str * list (list Citation)) :=
  array ← field (root document) "messages" line;
  kind ← text body "kind" line;
  _ ← (if bool_decide (kind = lit "delta") then check_delta json_ array body limits line else Ok tt);
  match elements array with
  | None => model_refusal "body lacks a messages array"
  | Some items =>
      messages ← traverse message_raw items;
      cited ← check body json_ document (map length messages) (outputs_of r) operator line;
      citations ← retained_citations r scope body line;
      citations ← fold_result (assign_citation (map byte_range items) (length citations)) (resize (length messages) citations) cited;
      Ok (array, messages, citations)
  end.
End Chat.

(** *** A draw's ceiling *)
Definition REFUSAL_NOTICE_LEAD : str := lit "Your previous answer to this request was refused because".

Definition text_part (line : Z) (st : option str) (part : Value) : contract (option str) :=
  match st with
  | None => Ok None
  | Some joined =>
      if bool_decide ((get part "type" ≫= as_str) ≠ Some (lit "text")) then Ok None
      else t ← text part "text" line; Ok (Some (joined ++ t))
  end.

Definition user_message_text (message : Value) (line : Z) : contract (option str) :=
  if bool_decide ((get message "role" ≫= as_str) ≠ Some (lit "user")) then Ok None
  else
    content ← field message "content" line;
    match as_str content with
    | Some t => Ok (Some t)
    | None =>
        match elements content with
        | None => Ok None
        | Some parts =>
            joined ← fold_result (text_part line) (Some []) parts;
            Ok (if (0 <? length parts)%nat then joined else None)
        end
    end.

(** The message that states the ceiling: the last, or the one before a final
    refusal notice. *)
Definition compaction_directive (messages : list Value) (line : Z) : contract str :=
  match list.last messages with
  | None => model_refusal "compaction request has no final directive"
  | Some last_ =>
      last_ ← user_message_text last_ line;
      if match last_ with Some t => starts_with REFUSAL_NOTICE_LEAD t | None => false end then
        before ← match messages !! (length messages - 2)%nat with
                 | Some message => if (2 <=? length messages)%nat then user_message_text message line else Ok None
                 | None => Ok None
                 end;
        match before with Some t => Ok t | None => model_refusal "compaction refusal notice does not follow a user directive" end
      else match last_ with Some t => Ok t | None => model_refusal "compaction request does not end in a user directive" end
  end.

Definition CEILING_MARKER : str := lit "your answer may generate at most ".

Definition stated_ceiling (directive : str) : contract (Z * str) :=
  match rfind CEILING_MARKER directive with
  | None => model_refusal "compaction request has no declared output ceiling"
  | Some at_ =>
      let claimed := drop (at_ + length CEILING_MARKER) directive in
      let digits := prefix_len is_ascii_digit claimed in
      if (digits =? 0)%nat then model_refusal "compaction directive has no valid output ceiling"
      else
        match parse_digits_max U64_MAX (take digits claimed) with
        | None => model_refusal "compaction directive has no valid output ceiling"
        | Some stated => Ok (stated, drop digits claimed)
        end
  end.

Definition compaction_request_budget (body : Value) (line : Z) : contract Z :=
  budget ← field body "max_tokens" line;
  budget ← unsigned budget "physical compaction ceiling" SAFE_INTEGER;
  if budget =? 0 then model_refusal "compaction request has no positive physical output ceiling"
  else
    messages ← field body "messages" line;
    directive ← compaction_directive (default [] (elements messages)) line;
    '(stated, rest) ← stated_ceiling directive;
    if negb (stated =? budget) || negb (starts_with (lit " tokens, reasoning included.") rest)
       || negb (ends_with (lit "this conversation is not compacted.") directive)
    then model_refusal "compaction directive differs from its physical output ceiling"
    else Ok budget.

Section Plan.
Context `{BigIntOps} `{Sha256Ops} `{Serde} `{Base64}.

Definition plan_compaction (r : ModelRequests) (compaction : option str) (scope : str) (stream : bool) (body : Value) (model : str) (line : Z) :
    contract (option (str * Z * str)) :=
  match compaction with
  | None => Ok None
  | Some id =>
      if negb stream then model_refusal "compaction request is not a streamed draw"
      else
        budget ← compaction_request_budget body line;
        if bool_decide (id ∈ mr_claimed_compactions r)
           || match mr_compactions r !! id with
              | Some operation =>
                  bool_decide (co_scope operation ≠ scope) || negb (co_budget operation =? budget) || bool_decide (co_model operation ≠ model)
              | None => false
              end
        then model_refusal "compaction operation changes scope, model or ceiling, or issues another request after its claim"
        else Ok (Some (id, budget, model))
  end.

(** [ModelRequests::plan] *)
Definition plan_request (r : ModelRequests) (record : Value) (line : Z) (limits : Limits) (operator : OperatorTask) : contract RequestAdmission :=
  request ← field record "request" line;
  journal ← text request "journal_id" line;
  sequence ← field request "sequence" line;
  sequence ← unsigned sequence "request sequence" SAFE_INTEGER;
  if match mr_journal_id r with
     | Some id => bool_decide (id ≠ journal) || bool_decide (next_sequence r ≠ Some sequence)
     | None => false
     end
  then model_refusal "has a missing, repeated, reordered or foreign request"
  else
    id ← text request "request_id" line;
    if bool_decide (id ∈ mr_ids r) then model_refusal "reuses a request identity"
    else
      scope ← text request "kv_scope" line;
      owner ← field request "owner" line;
      '(attempt, compaction_id) ← request_owner r scope owner line;
      segment ← text request "segment_id" line;
      body ← field request "body" line;
      json_ ← body_json r scope segment body line;
      '(document, stream, model) ← request_document request json_ scope limits line;
      '(array, messages, citations) ← request_messages r body json_ scope document limits operator line;
      required ← owed_required r scope (bool_decide (compaction_id ≠ None));
      _ ← require_owed (outputs_of r) required array citations;
      compaction ← plan_compaction r compaction_id scope stream (root document) model line;
      usage ← admit_request (scope_usage r scope);
      all_usage ← admit_request (mr_all_usage r);
      Ok {| ra_journal_id := journal; ra_sequence := sequence; ra_scope := scope; ra_attempt := attempt; ra_compaction := compaction;
            ra_stream := stream; ra_usage := usage; ra_all_usage := all_usage;
            ra_body := {| body_id := id; segment_id := segment; body_messages := messages; body_citations := citations |} |}.

Definition empty_response (scope : str) (attempt compaction utility : option str) : ResponseState :=
  {| rs_scope := scope; rs_attempt := attempt; rs_compaction := compaction; rs_utility := utility; rs_processing := None;
     rs_pipeline_outputs := None; rs_sequence := 0; rs_http_status := None; rs_content_type := None; rs_termination := None;
     rs_bytes := 0; rs_digest := Some sha_new; rs_decoded_utility := []; rs_decoded_failure := None; rs_decoded_pending := None |}.
Definition new_operation (a : RequestAdmission) (budget : Z) (model : str) : CompactionOperation :=
  {| co_scope := ra_scope a; co_budget := budget; co_model := model; co_first_sequence := ra_sequence a; co_last_sequence := ra_sequence a;
     co_requests := []; co_open := ∅; co_outcomes := ∅; co_values := ∅; co_deliveries := ∅; co_observations := ∅; co_failures := ∅ |}.
Definition new_attempt (scope : str) : AttemptState :=
  {| at_scope := scope; at_requests := []; at_settled := ∅; at_outcomes := ∅; at_seed := None; at_generation := None; at_completed := false |}.

Definition commit_owed (a : RequestAdmission) (r : ModelRequests) : ModelRequests :=
  match ra_attempt a with
  | Some _ =>
      let owed := default default_owed (mr_owed r !! ra_scope a) in
      set_mr_owed (<[ra_scope a := {| owed_draw := owed_draw owed; owed_generations := owed_generations owed;
                                      owed_issued := length (owed_generations owed) |}]> (mr_owed r)) r
  | None => r
  end.
Definition commit_journal (a : RequestAdmission) (r : ModelRequests) : contract ModelRequests :=
  let r := set_mr_journal_id (Some (default (ra_journal_id a) (mr_journal_id r))) r in
  let r := set_mr_first_sequence (Some (default (ra_sequence a) (mr_first_sequence r))) r in
  count ← add_one (mr_physical_count r) "physical_count += 1";
  Ok (set_mr_physical_count count r).
Definition commit_draw (a : RequestAdmission) (r : ModelRequests) : ModelRequests :=
  match ra_compaction a with
  | Some (id, budget, model) =>
      let operation := default (new_operation a budget model) (mr_compactions r !! id) in
      let operation := set_co_last_sequence (ra_sequence a) operation in
      let operation := set_co_requests (co_requests operation ++ [body_id (ra_body a)]) operation in
      set_mr_compactions (<[id := set_co_open ({[ body_id (ra_body a) ]} ∪ co_open operation) operation]> (mr_compactions r)) r
  | None => r
  end.
Definition commit_attempt (a : RequestAdmission) (r : ModelRequests) : ModelRequests :=
  match ra_attempt a with
  | Some id =>
      let attempt := default (new_attempt (ra_scope a)) (mr_attempts r !! id) in
      set_mr_attempts (<[id := set_at_requests (at_requests attempt ++ [body_id (ra_body a)]) attempt]> (mr_attempts r)) r
  | None => r
  end.
Definition commit_body (a : RequestAdmission) (r : ModelRequests) : ModelRequests :=
  let id := body_id (ra_body a) in
  let r := set_mr_ids ({[ id ]} ∪ mr_ids r) r in
  let r := set_mr_response_values (<[id := new_response (ra_stream a) (bool_decide (ra_compaction a ≠ None))]> (mr_response_values r)) r in
  let r := set_mr_responses (<[id := empty_response (ra_scope a) (ra_attempt a) (fst <$> (fst <$> ra_compaction a)) None]> (mr_responses r)) r in
  let r := set_mr_usage (<[ra_scope a := ra_usage a]> (mr_usage r)) r in
  let r := set_mr_all_usage (ra_all_usage a) r in
  set_mr_scopes (<[ra_scope a := ra_body a]> (mr_scopes r)) r.

(** [ModelRequests::commit] *)
Definition commit_request (a : RequestAdmission) (r : ModelRequests) : contract ModelRequests :=
  r ← commit_journal a (commit_owed a r);
  Ok (commit_body a (commit_attempt a (commit_draw a r))).

(** *** Seeds, generations and completions *)
Definition history_step (line : Z) (st : gset str * list str) (v : Value) : contract (gset str * list str) :=
  match nonempty_str (as_str v) with
  | None => model_refusal "normalization seed has an invalid history identity"
  | Some id =>
      if decide (id ∈ st.1) then model_refusal "normalization seed repeats a history identity"
      else Ok ({[ id ]} ∪ st.1, st.2 ++ [id])
  end.

Definition plan_seed (r : ModelRequests) (record : Value) (line : Z) : contract NormalizationSeed :=
  value ← field record "normalization_seed" line;
  origin ← field value "origin" line;
  origin ← origin_read origin line;
  match mr_attempts r !! attempt origin with
  | None => model_refusal "normalization seed has no logical request owner"
  | Some owner =>
      journal ← text value "journal_id" line;
      request ← text value "request_id" line;
      if bool_decide (mr_journal_id r ≠ Some journal) || bool_decide (at_scope owner ≠ scope origin) || at_completed owner
         || bool_decide (at_generation owner ≠ None) || bool_decide (at_seed owner ≠ None)
         || bool_decide (list.last (at_requests owner) ≠ Some request)
      then model_refusal "normalization seed has no unique final physical request"
      else
        ids ← field value "history_call_ids" line;
        match elements ids with
        | None => model_refusal "normalization seed lacks history identities"
        | Some ids => st ← fold_result (history_step line) (∅, []) ids; Ok {| seed_origin := origin; history_call_ids := st.2 |}
        end
  end.
Definition commit_seed (seed : NormalizationSeed) (r : ModelRequests) : contract ModelRequests :=
  attempts ← update_entry (mr_attempts r) (attempt (seed_origin seed)) "planned normalization seed owner" (set_at_seed (Some seed));
  Ok (set_mr_attempts attempts r).

Definition seed_for (r : ModelRequests) (origin : Origin) : contract (list str) :=
  match (attempt ← mr_attempts r !! attempt origin; seed ← at_seed attempt;
         if decide (seed_origin seed = origin) then Some (history_call_ids seed) else None) with
  | Some ids => Ok ids
  | None => model_refusal "generation has no recorded normalization seed"
  end.

Definition plan_generation `{StreamContract} (r : ModelRequests) (record : Value) (line : Z) (limits : Limits) (schema : ValidationLimits) :
    contract Generation :=
  evidence ← field record "generation" line;
  gen ← generation_read evidence line limits schema (seed_for r);
  match mr_attempts r !! attempt (origin gen) with
  | None => model_refusal "generation has no logical request owner"
  | Some owner =>
      if bool_decide (mr_journal_id r ≠ Some (journal gen)) || bool_decide (at_scope owner ≠ scope (origin gen)) || at_completed owner
         || bool_decide (at_generation owner ≠ None) || bool_decide (at_seed owner = None) || bool_decide (mr_generations r !! generation_id gen ≠ None)
      then model_refusal "generation has no unique open logical request owner"
      else Ok gen
  end.
Definition commit_generation (gen : Generation) (r : ModelRequests) : contract ModelRequests :=
  attempts ← update_entry (mr_attempts r) (attempt (origin gen)) "planned generation owner" (set_at_generation (Some gen));
  Ok (set_mr_attempts attempts (set_mr_generations (<[generation_id gen := gen]> (mr_generations r)) r)).

(** How a logical attempt settled. *)
Inductive Disposition := Accepted | RefusedTurn | Abandoned.
#[export] Instance Disposition_eq_dec : EqDecision Disposition.
Proof. solve_decision. Defined.
Record CompletionAdmission := { ca_generation : Generation; ca_disposition : Disposition }.

Definition completion_request (v : Value) : contract str :=
  match as_str v with Some s => Ok s | None => model_refusal "completion request identity is not a string" end.

Definition read_disposition (name : str) : contract Disposition :=
  if bool_decide (name = lit "accepted") then Ok Accepted
  else if bool_decide (name = lit "refused") then Ok RefusedTurn
  else if bool_decide (name = lit "abandoned") then Ok Abandoned
  else model_refusal "completion has an unknown disposition".

(** Requests before the last delivered nothing. *)
Definition delivered_before (attempt : AttemptState) (requests : list str) : bool :=
  existsb (fun request => match at_outcomes attempt !! request with
                          | Some outcome => negb (oc_pipeline_outputs_delivered outcome =? 0)
                          | None => true
                          end) requests.

Definition completion_usage (gen : Generation) (disposition : Disposition) (outcome : ResponseOutcome) : contract unit :=
  let by_backend := bool_decide (disposition = RefusedTurn) && oc_refused outcome in
  _ ← match disposition with
      | Accepted => require_accepted gen
      | RefusedTurn => require_refused gen by_backend
      | Abandoned => Ok tt
      end;
  if bool_decide (disposition ≠ Abandoned)
     && (if by_backend then bool_decide (oc_usage outcome ≠ None)
         else negb (oc_completed outcome) || bool_decide (oc_usage outcome ≠ generation_usage gen))
  then model_refusal "completed turn usage contradicts its physical response"
  else Ok tt.

Definition plan_completion (r : ModelRequests) (record : Value) (line : Z) : contract CompletionAdmission :=
  completion ← field record "completion" line;
  o ← field completion "origin" line;
  o ← origin_read o line;
  match mr_attempts r !! attempt o with
  | None => model_refusal "completion has no logical request owner"
  | Some owner =>
      match at_generation owner with
      | None => model_refusal "completion has no generation"
      | Some gen =>
          ids ← field completion "request_ids" line;
          match elements ids with
          | None => model_refusal "completion lacks request membership"
          | Some ids =>
              requests ← traverse completion_request ids;
              if at_completed owner || bool_decide (origin gen ≠ o)
              then model_refusal "completion omits, repeats or misattributes attempt evidence"
              else
                journal_ ← text completion "journal_id" line;
                if bool_decide (journal gen ≠ journal_) then model_refusal "completion omits, repeats or misattributes attempt evidence"
                else
                  id ← text completion "generation_id" line;
                  if bool_decide (generation_id gen ≠ id) then model_refusal "completion omits, repeats or misattributes attempt evidence"
                  else
                    sha ← text completion "generation_sha256" line;
                    if bool_decide (hash gen ≠ sha) || bool_decide (requests ≠ at_requests owner)
                       || negb (size (at_settled owner) =? length (at_requests owner))%nat
                    then model_refusal "completion omits, repeats or misattributes attempt evidence"
                    else
                      name ← text completion "disposition" line;
                      disposition ← read_disposition name;
                      let selected := List.filter (fun kv => kv.2) (map_to_list (at_settled owner)) in
                      if negb (length selected =? if bool_decide (disposition = Accepted) then 1 else 0)%nat
                      then model_refusal "logical disposition contradicts physical history decisions"
                      else
                        observations ← field completion "consumer_observations" line;
                        observations ← unsigned observations "consumer observations" SAFE_INTEGER;
                        match list.last (at_requests owner) with
                        | None => model_refusal "generation has no physical request"
                        | Some final =>
                            if delivered_before owner (take (length (at_requests owner) - 1) (at_requests owner))
                               || existsb (fun source => bool_decide (source ≠ final)) (source_requests gen)
                               || (bool_decide (disposition = Accepted) && bool_decide (fst <$> head selected ≠ Some final))
                            then model_refusal "a Chat attempt received decoded output before its final physical request"
                            else
                              match at_outcomes owner !! final with
                              | None => model_refusal "final physical request has no processing outcome"
                              | Some outcome =>
                                  if negb (observations =? observation_count gen)
                                     || (oc_pipeline_outputs_delivered outcome <? observations)
                                     || (bool_decide (disposition ≠ Abandoned) && negb (observations =? oc_pipeline_outputs_delivered outcome))
                                  then model_refusal "consumer receipt contradicts decoded output or generation observations"
                                  else
                                    _ ← completion_usage gen disposition outcome;
                                    Ok {| ca_generation := gen; ca_disposition := disposition |}
                              end
                        end
          end
      end
  end.

Definition close_attempt (attempt : AttemptState) : AttemptState :=
  set_at_completed true (set_at_outcomes ∅ (set_at_seed None (set_at_generation None attempt))).
Definition commit_completion (a : CompletionAdmission) (r : ModelRequests) : contract ModelRequests :=
  let gen := ca_generation a in
  let r :=
    if bool_decide (ca_disposition a = Accepted) then
      let owed := default default_owed (mr_owed r !! scope (origin gen)) in
      set_mr_owed (<[scope (origin gen) := {| owed_draw := owed_draw owed; owed_generations := owed_generations owed ++ [generation_id gen];
                                              owed_issued := owed_issued owed |}]> (mr_owed r)) r
    else r in
  attempts ← update_entry (mr_attempts r) (attempt (origin gen)) "planned completion owner" close_attempt;
  Ok (set_mr_attempts attempts r).
End Plan.

(** ** Responses *)

(** The one change an admitted response event makes to its request's state. *)
Section Responses.
Context `{BigIntOps} `{Sha256Ops} `{Serde} `{Base64} (SERVED_TURN_REFUSALS : list ServedTurnRefusal).

Inductive ResponseStep :=
| StepHttp (status : Z) (content_type : option str)
| StepBody (bytes : str)
| StepEnd (termination : str)
| StepDecodedBody (role : str) (index : Z) (bytes : str)
| StepDecodedEnd (failure : bool) (value : json)
| StepOutcome (completed : bool) (pipeline_outputs_delivered : Z)
| StepDelivery (delivered : Z)
| StepHistory (accepted : bool).

Record ResponseAdmission := {
  rp_request_id : str; rp_sequence : Z; rp_step : ResponseStep; rp_outcome : option ResponseOutcome;
  rp_usage : option (GenerationUsageSummary * GenerationUsageSummary);
}.

Definition kind_in (kind : str) (kinds : list string) : bool := existsb (fun k => bool_decide (kind = lit k)) kinds.

(** The order of a response's events: the transport, then its outcome, then
    what became of it. *)
Definition event_out_of_order (state : ResponseState) (kind : str) : bool :=
  negb (Bool.eqb (kind_in kind ["history"; "delivery"]%string) (bool_decide (rs_processing state ≠ None)))
  || (kind_in kind ["outcome"]%string && bool_decide (rs_digest state ≠ None))
  || (kind_in kind ["http"; "body"; "end"]%string && bool_decide (rs_digest state = None))
  || (kind_in kind ["decoded_body"; "decoded_end"]%string
      && (bool_decide (rs_processing state ≠ None) || bool_decide (rs_http_status state = None))).

Definition canonical_base64 (encoded : str) (undecodable noncanonical : string) : contract str :=
  match b64_decode encoded with
  | None => model_refusal undecodable
  | Some bytes =>
      if bool_decide (bytes = []) || bool_decide (b64_encode bytes ≠ encoded) then model_refusal noncanonical else Ok bytes
  end.

(** [checked_add(n).filter(|total| *total <= SAFE_INTEGER)] *)
Definition exact_add (a b : Z) : option Z := n ← checked_add a b; if n <=? SAFE_INTEGER then Some n else None.

Definition http_event (state : ResponseState) (event : Value) (line : Z) : contract ResponseStep :=
  if bool_decide (rs_http_status state ≠ None) || negb (rs_sequence state =? 0) then model_refusal "response repeats HTTP headers"
  else
    status ← field event "status" line;
    status ← unsigned status "HTTP response status" SAFE_INTEGER;
    media ← field event "content_type" line;
    content ← (if is_null media then Ok None else t ← text event "content_type" line; Ok (Some t));
    Ok (StepHttp status content).

Definition body_event (state : ResponseState) (event : Value) (line : Z) : contract ResponseStep :=
  if bool_decide (rs_http_status state = None) then model_refusal "response has no HTTP headers or has a byte gap"
  else
    offset ← field event "offset" line;
    offset ← unsigned offset "response offset" SAFE_INTEGER;
    if negb (rs_bytes state =? offset) then model_refusal "response has no HTTP headers or has a byte gap"
    else
      encoded ← text event "base64" line;
      bytes ← canonical_base64 encoded "response has invalid base64 bytes" "response has noncanonical base64 bytes";
      match exact_add (rs_bytes state) (Z.of_nat (length bytes)) with
      | None => model_refusal "response exceeds exact byte accounting"
      | Some _ => Ok (StepBody bytes)
      end.

Definition end_event (state : ResponseState) (event : Value) (line : Z) : contract ResponseStep :=
  termination ← text event "termination" line;
  if (bool_decide (termination = lit "eof") && bool_decide (rs_http_status state = None))
     || (bool_decide (termination = lit "not_dispatched") && negb (rs_sequence state =? 0))
  then model_refusal "response completion does not account for the exact observed bytes"
  else
    bytes ← field event "body_bytes" line;
    bytes ← unsigned bytes "response bytes" SAFE_INTEGER;
    if negb (rs_bytes state =? bytes) then model_refusal "response completion does not account for the exact observed bytes"
    else
      digest ← expect (rs_digest state) "an open body has its digest";
      sha ← text event "body_sha256" line;
      if bool_decide (hex (sha_finalize digest) ≠ sha) then model_refusal "response completion does not account for the exact observed bytes"
      else Ok (StepEnd termination).

Definition decoded_body_event (state : ResponseState) (event : Value) (role : str) (index : Z) (line : Z) : contract ResponseStep :=
  offset ← field event "offset" line;
  offset ← unsigned offset "decoded output offset" SAFE_INTEGER;
  _ ← match rs_decoded_pending state with
      | None => if negb (offset =? 0) then model_refusal "decoded observation starts after a byte gap" else Ok tt
      | Some pending =>
          if bool_decide (dp_role pending ≠ role) || negb (dp_index pending =? index) || negb (Z.of_nat (length (dp_bytes pending)) =? offset)
          then model_refusal "decoded observation has an interleaved or missing byte chunk" else Ok tt
      end;
  encoded ← text event "base64" line;
  bytes ← canonical_base64 encoded "decoded observation has invalid base64 bytes" "decoded observation has noncanonical base64 bytes";
  match exact_add offset (Z.of_nat (length bytes)) with
  | None => model_refusal "decoded observation exceeds exact byte accounting"
  | Some _ => Ok (StepDecodedBody role index bytes)
  end.

(** [serde_json::from_slice] *)
Definition value_from_slice (bytes : str) : option json := match from_utf8 bytes with Ok _ => value_from_str bytes | Err _ => None end.

Definition decoded_shape (v : json) : bool :=
  match json_object v with
  | Some ms =>
      (length ms =? 3)%nat
      && match find_member (lit "response") ms with Some (JObject _) => true | _ => false end
      && match find_member (lit "incomplete_tool_calls") ms with Some (JArray _) => true | _ => false end
      && match find_member (lit "tool_call_preparations") ms with Some (JArray _) => true | _ => false end
  | None => false
  end.

Definition decoded_end_event (state : ResponseState) (event : Value) (role : str) (index : Z) (line : Z) : contract ResponseStep :=
  match rs_decoded_pending state with
  | None => model_refusal "decoded observation end has no byte sequence"
  | Some pending =>
      if bool_decide (dp_role pending ≠ role) || negb (dp_index pending =? index) then model_refusal "decoded observation end differs from its exact bytes"
      else
        bytes ← field event "body_bytes" line;
        bytes ← unsigned bytes "decoded output bytes" SAFE_INTEGER;
        if negb (Z.of_nat (length (dp_bytes pending)) =? bytes) then model_refusal "decoded observation end differs from its exact bytes"
        else
          sha ← text event "body_sha256" line;
          if bool_decide (sha256 (dp_bytes pending) ≠ sha) then model_refusal "decoded observation end differs from its exact bytes"
          else
            match value_from_slice (dp_bytes pending) with
            | None => model_refusal "decoded observation is not valid JSON"
            | Some decoded =>
                if negb (decoded_shape decoded) then model_refusal "decoded observation has an unknown response shape"
                else Ok (StepDecodedEnd (bool_decide (role = lit "failure")) decoded)
            end
  end.

Definition decoded_event (state : ResponseState) (event : Value) (kind : str) (line : Z) : contract ResponseStep :=
  role ← text event "role" line;
  index ← field event "index" line;
  index ← unsigned index "decoded output index" SAFE_INTEGER;
  let utility := bool_decide (role = lit "utility") in
  let failure := bool_decide (role = lit "failure") in
  if (utility && bool_decide (rs_attempt state ≠ None))
     || (failure && (negb (index =? 0) || bool_decide (rs_decoded_failure state ≠ None)))
     || (negb utility && negb failure)
     || (utility && negb (index =? Z.of_nat (length (rs_decoded_utility state))))
  then model_refusal "decoded observation has no matching response owner or index"
  else if bool_decide (kind = lit "decoded_body") then decoded_body_event state event role index line
  else decoded_end_event state event role index line.

(** The usage a completed response's record claims, held to its bytes. *)
Definition outcome_usage (state : ResponseState) (values : ResponseValues) (usage : Value) (seen : Z) (completed : bool) (line : Z) :
    contract (option ServedUsage) :=
  let eof := bool_decide (rs_termination state = Some (lit "eof")) in
  _ ← require_prefix values seen completed (rs_http_status state) (rs_content_type state) eof;
  recorded ← (if is_null usage then Ok None else u ← served_read usage line; Ok (Some u));
  if bool_decide (recorded ≠ observed_usage values seen (rs_http_status state) (rs_content_type state) eof)
  then model_refusal "served usage differs from processed physical response bytes"
  else Ok recorded.

(** The refusal a failed response's record names, held to its bytes. *)
Definition outcome_refusal (state : ResponseState) (values : ResponseValues) (event : Value) (status : str) (seen : Z) (line : Z) : contract bool :=
  '(recorded, served) ←
    (if bool_decide (status = lit "failed") then
       error ← field event "error" line;
       Ok (as_str error ≫= recorded_refusal SERVED_TURN_REFUSALS,
           served_refusal SERVED_TURN_REFUSALS values seen (rs_http_status state) (bool_decide (rs_termination state = Some (lit "eof"))))
     else Ok (None, None));
  if bool_decide (wire_type <$> recorded ≠ wire_type <$> served)
  then model_refusal "the response's recorded refusal differs from its physical bytes"
  else Ok (bool_decide (wire_type <$> recorded ≠ None)).

Definition outcome_event (r : ModelRequests) (id : str) (state : ResponseState) (event : Value) (line : Z) : contract (ResponseStep * ResponseOutcome) :=
  status ← text event "status" line;
  let completed := bool_decide (status = lit "completed") in
  if completed && bool_decide (rs_decoded_failure state ≠ None)
  then model_refusal "completed response contains a failed decode observation"
  else if completed && (negb (successful (rs_http_status state))
                        || negb (bool_decide (rs_termination state = Some (lit "eof")) || bool_decide (rs_termination state = Some (lit "cancelled"))))
  then model_refusal "completed processing has no successful HTTP transport completion"
  else
    usage ← field event "served_usage" line;
    seen ← field event "sdk_values_seen" line;
    seen ← unsigned seen "SDK values seen" SAFE_INTEGER;
    delivered ← field event "pipeline_outputs_delivered" line;
    delivered ← unsigned delivered "pipeline outputs delivered" SAFE_INTEGER;
    if bool_decide (rs_utility state ≠ None) && (negb (is_null usage) || negb (delivered =? 0) || (completed && negb (seen =? 1)))
    then model_refusal "physical utility response claims chat usage or output"
    else if match rs_decoded_pending state with Some _ => true | None => false end
            || negb (Z.of_nat (length (rs_decoded_utility state)) =? if bool_decide (rs_attempt state ≠ None) then 0 else delivered)
    then model_refusal "response outcome omits or misattributes decoded observations"
    else if ((0 <? seen) && bool_decide (rs_http_status state = None)) || ((0 <? delivered) && (seen =? 0))
    then model_refusal "decoded progress has no observed SDK response"
    else
      match mr_response_values r !! id with
      | None => model_refusal "response has no physical value reader"
      | Some values =>
          recorded ← outcome_usage state values usage seen completed line;
          refused ← outcome_refusal state values event status seen line;
          if completed && bool_decide (rs_utility state = None) && bool_decide (recorded = None)
          then model_refusal "completes a generation response that served no usage"
          else if bool_decide (rs_compaction state ≠ None) && negb (match values with Stream _ => true | Nonstream _ => false end)
          then model_refusal "compaction response has no streamed physical values"
          else Ok (StepOutcome completed delivered,
                   {| oc_scope := rs_scope state; oc_usage := recorded; oc_completed := completed; oc_refused := refused;
                      oc_pipeline_outputs_delivered := delivered; oc_sdk_values_seen := seen |})
      end.

Definition delivery_event (state : ResponseState) (event : Value) (line : Z) : contract ResponseStep :=
  delivered ← field event "outputs_delivered" line;
  delivered ← unsigned delivered "utility outputs delivered" SAFE_INTEGER;
  if bool_decide (rs_attempt state ≠ None)
     || match rs_pipeline_outputs state with Some outputs => outputs <? delivered | None => true end
     || (bool_decide (rs_utility state ≠ None) && negb (delivered =? 0))
  then model_refusal "utility delivery has no matching physical output prefix"
  else Ok (StepDelivery delivered).

Definition history_event (r : ModelRequests) (state : ResponseState) (event : Value) (line : Z) : contract ResponseStep :=
  match rs_attempt state with
  | None => model_refusal "utility response has a chat history decision"
  | Some attempt =>
      disposition ← text event "disposition" line;
      let accepted := bool_decide (disposition = lit "accepted") in
      if accepted && (bool_decide (rs_processing state ≠ Some true)
                      || match mr_attempts r !! attempt with
                         | Some attempt => bool_decide (at_generation attempt = None) || any_value (fun accepted => accepted) (at_settled attempt)
                         | None => true
                         end)
      then model_refusal "chat history acceptance precedes generation, repeats acceptance or has no completed response"
      else Ok (StepHistory accepted)
  end.

Definition response_event (r : ModelRequests) (id : str) (state : ResponseState) (event : Value) (kind : str) (line : Z) :
    contract (ResponseStep * option ResponseOutcome) :=
  let without (step : contract ResponseStep) : contract (ResponseStep * option ResponseOutcome) := s ← step; Ok (s, None) in
  if kind_in kind ["http"]%string then without (http_event state event line)
  else if kind_in kind ["body"]%string then without (body_event state event line)
  else if kind_in kind ["end"]%string then without (end_event state event line)
  else if kind_in kind ["decoded_body"; "decoded_end"]%string then without (decoded_event state event kind line)
  else if kind_in kind ["outcome"]%string then '(s, outcome) ← outcome_event r id state event line; Ok (s, Some outcome)
  else if kind_in kind ["delivery"]%string then without (delivery_event state event line)
  else if kind_in kind ["history"]%string then without (history_event r state event line)
  else model_refusal "response uses an unknown event".

Definition plan_usage (r : ModelRequests) (state : ResponseState) (outcome : option ResponseOutcome) :
    contract (option (GenerationUsageSummary * GenerationUsageSummary)) :=
  match outcome with
  | Some outcome =>
      if bool_decide (rs_utility state ≠ None) then Ok None
      else
        scope_usage ← finalize (scope_usage r (oc_scope outcome)) (oc_usage outcome);
        all_usage ← finalize (mr_all_usage r) (oc_usage outcome);
        Ok (Some (scope_usage, all_usage))
  | None => Ok None
  end.

Definition plan_response (r : ModelRequests) (record : Value) (line : Z) : contract ResponseAdmission :=
  response ← field record "response" line;
  id ← text response "request_id" line;
  match mr_responses r !! id with
  | None => model_refusal "response has no open request"
  | Some state =>
      sequence ← field response "sequence" line;
      sequence ← unsigned sequence "response sequence" SAFE_INTEGER;
      journal ← text response "journal_id" line;
      if bool_decide (mr_journal_id r ≠ Some journal) || bool_decide (checked_add (rs_sequence state) 1 ≠ Some sequence)
      then model_refusal "response is foreign, missing, repeated or reordered"
      else
        event ← field response "event" line;
        kind ← text event "kind" line;
        if bool_decide (rs_utility state ≠ None) && kind_in kind ["decoded_body"; "decoded_end"; "history"]%string
        then model_refusal "physical utility response contains chat output evidence"
        else if event_out_of_order state kind then model_refusal "response processing outcome must follow transport completion"
        else
          '(step, outcome) ← response_event r id state event kind line;
          usage ← plan_usage r state outcome;
          Ok {| rp_request_id := id; rp_sequence := sequence; rp_step := step; rp_outcome := outcome; rp_usage := usage |}
  end.

(** *** Committing a response event *)
Definition commit_body_step (id bytes : str) (state : ResponseState) (r : ModelRequests) : contract (ResponseState * ModelRequests) :=
  count ← expect (checked_add (rs_bytes state) (Z.of_nat (length bytes))) "state.bytes += bytes.len()";
  digest ← expect (rs_digest state) "planned open body digest";
  values ← update_entry (mr_response_values r) id "planned physical value reader" (fun values => push_response values bytes);
  Ok (set_rs_digest (Some (sha_update digest bytes)) (set_rs_bytes count state), set_mr_response_values values r).

Definition commit_decoded_body (role : str) (index : Z) (bytes : str) (state : ResponseState) : ResponseState :=
  set_rs_decoded_pending
    (Some match rs_decoded_pending state with
          | Some pending => {| dp_role := dp_role pending; dp_index := dp_index pending; dp_bytes := dp_bytes pending ++ bytes |}
          | None => {| dp_role := role; dp_index := index; dp_bytes := bytes |}
          end) state.
Definition commit_decoded_end (failure : bool) (value : json) (state : ResponseState) : ResponseState :=
  let state := set_rs_decoded_pending None state in
  if failure then set_rs_decoded_failure (Some value) state
  else set_rs_decoded_utility (rs_decoded_utility state ++ [value]) state.

Definition outcome_of_utility (id : str) (completed : bool) (state : ResponseState) (r : ModelRequests) : contract ModelRequests :=
  match rs_utility state with
  | None => Ok r
  | Some operation =>
      let physical := {| up_status := rs_http_status state; up_content_type := rs_content_type state; up_termination := rs_termination state;
                         up_completed := completed; up_delivered := false |} in
      utilities ← update_entry (mr_utilities r) operation "planned utility operation"
                    (fun operation => set_uo_physical (<[id := physical]> (uo_physical operation)) operation);
      Ok (set_mr_utilities utilities r)
  end.

Definition stream_values (values : option ResponseValues) (transport_eof : bool) : option (list json) :=
  match values with Some values => into_stream_values values transport_eof | None => None end.

(** The draw's evidence is handed to its operation: the values its stream
    decoded, as far as the SDK reached, and its decoded observations. *)
Definition outcome_of_draw (id : str) (outcome : ResponseOutcome) (state : ResponseState) (r : ModelRequests) : contract (ResponseState * ModelRequests) :=
  match rs_compaction state with
  | None => Ok (state, r)
  | Some operation =>
      values ← expect (stream_values (mr_response_values r !! id) (bool_decide (rs_termination state = Some (lit "eof"))))
                 "planned streamed compaction values";
      compactions ← update_entry (mr_compactions r) operation "planned compaction operation"
        (fun operation =>
           set_co_failures (<[id := rs_decoded_failure state]> (co_failures operation))
             (set_co_observations (<[id := rs_decoded_utility state]> (co_observations operation))
                (set_co_values (<[id := take (Z.to_nat (oc_sdk_values_seen outcome)) values]> (co_values operation))
                   (set_co_outcomes (<[id := outcome]> (co_outcomes operation)) operation))));
      Ok (set_rs_decoded_failure None (set_rs_decoded_utility [] state),
          set_mr_compactions compactions (set_mr_response_values (delete id (mr_response_values r)) r))
  end.

Definition outcome_of_attempt (id : str) (outcome : ResponseOutcome) (state : ResponseState) (r : ModelRequests) : contract ModelRequests :=
  match rs_attempt state with
  | None => Ok r
  | Some attempt =>
      attempts ← update_entry (mr_attempts r) attempt "planned chat attempt"
                   (fun attempt => set_at_outcomes (<[id := outcome]> (at_outcomes attempt)) attempt);
      Ok (set_mr_attempts attempts r)
  end.

Definition commit_outcome (a : ResponseAdmission) (completed : bool) (delivered : Z) (state : ResponseState) (r : ModelRequests) :
    contract (ResponseState * ModelRequests) :=
  let id := rp_request_id a in
  outcome ← expect (rp_outcome a) "an outcome step carries its outcome";
  let state := set_rs_pipeline_outputs (Some delivered) (set_rs_processing (Some completed) state) in
  r ← outcome_of_utility id completed state r;
  '(state, r) ← outcome_of_draw id outcome state r;
  let r := if bool_decide (rs_utility state = None) || negb completed
           then set_mr_response_values (delete id (mr_response_values r)) r else r in
  let r := match rp_usage a with
           | Some (scope_usage, all_usage) => set_mr_all_usage all_usage (set_mr_usage (<[oc_scope outcome := scope_usage]> (mr_usage r)) r)
           | None => r
           end in
  r ← outcome_of_attempt id outcome state r;
  Ok (state, r).

Definition deliver_utility (id : str) (state : ResponseState) (r : ModelRequests) : contract ModelRequests :=
  match rs_utility state with
  | None => Ok r
  | Some operation =>
      found ← expect (mr_utilities r !! operation) "planned utility operation";
      physical ← update_entry (uo_physical found) id "planned utility physical outcome"
        (fun p => {| up_status := up_status p; up_content_type := up_content_type p; up_termination := up_termination p;
                     up_completed := up_completed p; up_delivered := true |});
      Ok (set_mr_utilities (<[operation := set_uo_physical physical found]> (mr_utilities r)) r)
  end.
Definition deliver_draw (id : str) (delivered : Z) (state : ResponseState) (r : ModelRequests) : contract ModelRequests :=
  match rs_compaction state with
  | None => Ok r
  | Some operation =>
      compactions ← update_entry (mr_compactions r) operation "planned compaction operation"
        (fun operation => set_co_deliveries (<[id := delivered]> (co_deliveries operation))
                            (set_co_open (co_open operation ∖ {[ id ]}) operation));
      Ok (set_mr_compactions compactions r)
  end.
Definition settle_history (id : str) (accepted : bool) (state : ResponseState) (r : ModelRequests) : contract ModelRequests :=
  attempt ← expect (rs_attempt state) "planned chat history owner";
  attempts ← update_entry (mr_attempts r) attempt "planned chat attempt"
               (fun attempt => set_at_settled (<[id := accepted]> (at_settled attempt)) attempt);
  Ok (set_mr_attempts attempts r).

Definition keep_response (id : str) (step : ResponseState * ModelRequests) : ModelRequests :=
  set_mr_responses (<[id := step.1]> (mr_responses step.2)) step.2.
Definition end_response (id : str) (r : ModelRequests) : ModelRequests := set_mr_responses (delete id (mr_responses r)) r.

Definition commit_response (a : ResponseAdmission) (r : ModelRequests) : contract ModelRequests :=
  let id := rp_request_id a in
  state ← expect (mr_responses r !! id) "planned response state";
  let state := set_rs_sequence (rp_sequence a) state in
  match rp_step a with
  | StepHttp status content_type => Ok (keep_response id (set_rs_content_type content_type (set_rs_http_status (Some status) state), r))
  | StepBody bytes => st ← commit_body_step id bytes state r; Ok (keep_response id st)
  | StepEnd termination => Ok (keep_response id (set_rs_termination (Some termination) (set_rs_digest None state), r))
  | StepDecodedBody role index bytes => Ok (keep_response id (commit_decoded_body role index bytes state, r))
  | StepDecodedEnd failure value => Ok (keep_response id (commit_decoded_end failure value state, r))
  | StepOutcome completed delivered => st ← commit_outcome a completed delivered state r; Ok (keep_response id st)
  | StepDelivery delivered => r ← deliver_utility id state r; r ← deliver_draw id delivered state r; Ok (end_response id r)
  | StepHistory accepted => r ← settle_history id accepted state r; Ok (end_response id r)
  end.
End Responses.

(** ** What the stream ends with *)
Section Settlement.
Context `{BigIntOps} `{Sha256Ops} `{Serde}.

Definition has_chat_attempt_in_scope (r : ModelRequests) (scope : str) : bool :=
  any_value (fun attempt => bool_decide (at_scope attempt = scope)) (mr_attempts r).

(** A compaction of [scope] committed the snapshot [draw] accepted. *)
Definition commit_compaction (scope draw : str) (r : ModelRequests) : contract ModelRequests :=
  let owed := default default_owed (mr_owed r !! scope) in
  if (length (owed_generations owed) <? owed_issued owed)%nat then Err (Panic "owed.generations.split_off(owed.issued)")
  else
    Ok (set_mr_owed (<[scope := {| owed_draw := Some draw; owed_generations := drop (owed_issued owed) (owed_generations owed);
                                   owed_issued := 0 |}]> (mr_owed r)) r).

Definition claim_draw (r : ModelRequests) (claim : str * DrawOutput) : contract ModelRequests :=
  let '(id, output) := claim in
  _ ← expect (mr_compactions r !! id) "planned compaction draw";
  Ok (set_mr_draws (<[id := output]> (mr_draws r))
        (set_mr_claimed_compactions ({[ id ]} ∪ mr_claimed_compactions r) (set_mr_compactions (delete id (mr_compactions r)) r))).
Definition commit_compaction_claims (claims : list (str * DrawOutput)) (r : ModelRequests) : contract ModelRequests :=
  fold_result claim_draw r claims.

Definition no_elements (v : Value) (missing : string) : contract bool :=
  match elements v with Some items => Ok (length items =? 0)%nat | None => model_refusal missing end.

Definition validate_summary (r : ModelRequests) (record : Value) (line : Z) : contract unit :=
  if bool_decide (mr_compactions r ≠ ∅) then model_refusal "terminal leaves physical compaction draws unclaimed"
  else if bool_decide (mr_utilities r ≠ ∅) then model_refusal "terminal leaves physical utility operations incomplete"
  else
    summary ← field record "request_evidence" line;
    count ← field summary "request_count" line;
    count ← unsigned count "request evidence count" SAFE_INTEGER;
    first ← field summary "first_sequence" line;
    first ← unsigned first "first request sequence" SAFE_INTEGER;
    open ← field summary "open_response_ids" line;
    no_responses ← no_elements open "terminal lacks open-response accounting";
    if negb no_responses || bool_decide (mr_responses r ≠ ∅)
    then model_refusal "terminal does not account for every physical request and logical attempt"
    else
      open ← field summary "open_attempt_ids" line;
      no_attempts ← no_elements open "terminal lacks open-attempt accounting";
      if negb no_attempts || any_value (fun attempt => negb (at_completed attempt)) (mr_attempts r)
         || negb (count =? mr_physical_count r)
         || match mr_first_sequence r with Some sequence => negb (sequence =? first) | None => false end
         || match mr_journal_id r with Some id => bool_decide ((get summary "journal_id" ≫= as_str) ≠ Some id) | None => false end
      then model_refusal "terminal does not account for every physical request and logical attempt"
      else
        usage ← field record "usage" line;
        require_summary (mr_all_usage r) usage line.
End Settlement.
