(* ===== verification/Utilities.v ===== *)
(** * Utilities: tokenizer and embedding operations (src/protocol/engine/src/model_requests.rs)

    A utility operation is one logical call to the backend with its physical
    retries.  Its completion is held to the last physical response: the count and
    context limit a tokenizer served, or, bit for bit, the vectors an embedding
    served.  A vector is compared as the program compares it: four bytes as an
    [f32], the recorded number's spelling rounded to an [f64]. *)
From S2P Require Import Prelude Number Utf8 BTree Json JsonTree Schema Stream Usage Generation Authorship Sse Serde Turns Requests.

(** ** Four bytes and a number's spelling *)

(** [f32::from_le_bytes]: the sign, and the magnitude as an integer times a power
    of two; [None] when it is not finite. *)
Definition f32_of_bytes (b : str) : option (bool * Z * Z) :=
  match b with
  | [b0; b1; b2; b3] =>
      let n := Z.lor b0 (Z.lor (Z.shiftl b1 8) (Z.lor (Z.shiftl b2 16) (Z.shiftl b3 24))) in
      let e := Z.land (Z.shiftr n 23) 255 in
      let m := Z.land n 8388607 in
      if e =? 255 then None
      else if e =? 0 then Some (Z.testbit n 31, m, -149) else Some (Z.testbit n 31, m + 8388608, e - 150)
  | _ => None
  end.

(** [digits * 10 ^ exponent <= n * 2 ^ s] *)
Definition decimal_at_most (digits exponent n s : Z) : bool :=
  digits * 10 ^ Z.max 0 exponent * 2 ^ Z.max 0 (- s) <=? n * 2 ^ Z.max 0 s * 10 ^ Z.max 0 (- exponent).
Definition decimal_at_least (digits exponent n s : Z) : bool :=
  n * 2 ^ Z.max 0 s * 10 ^ Z.max 0 (- exponent) <=? digits * 10 ^ Z.max 0 exponent * 2 ^ Z.max 0 (- s).

(** [token.parse::<f64>() == Ok(f64::from(value))]: the decimal rounds to the
    double, to nearest with ties to even.  An [f32] has at most 24 significant
    bits, so as a double it is even and both ends of its interval round to it;
    below a power of two the doubles are twice as dense.  The first two tests
    keep the comparison computable for enormous exponents. *)
Definition f64_equals (d : Decimal) (negative_ : bool) (mantissa exponent_ : Z) : bool :=
  match d with
  | Zero => mantissa =? 0
  | Nonzero negative digits exponent =>
      let top := exponent + Z.of_nat (length digits) in
      let value := digits_value digits in
      if 310 <? top then false
      else if top <? -400 then mantissa =? 0
      else if mantissa =? 0 then decimal_at_most value exponent 1 (-1075)
      else
        let k := Z.log2 mantissa in
        let s := k + exponent_ - 54 in
        let scaled_ := mantissa * 2 ^ (54 - k) in
        Bool.eqb negative negative_ && decimal_at_most value exponent (scaled_ + 2) s
        && decimal_at_least value exponent (scaled_ - (if mantissa =? 2 ^ k then 1 else 2)) s
  end.

Definition same_float (bytes : str) (v : Value) : bool :=
  match f32_of_bytes bytes, as_number v with
  | Some (negative, mantissa, exponent), Some n => f64_equals (Number.value n) negative mantissa exponent
  | _, _ => false
  end.

Fixpoint chunks4 (bytes : str) : list str :=
  match bytes with
  | a :: b :: c :: d :: rest => [a; b; c; d] :: chunks4 rest
  | _ => []
  end.

(** [sort_by_key], which is stable. *)
Fixpoint insert_by {A} (key : A → Z) (x : A) (l : list A) : list A :=
  match l with
  | [] => [x]
  | y :: l => if key y <=? key x then y :: insert_by key x l else x :: y :: l
  end.
Definition sort_by {A} (key : A → Z) (l : list A) : list A := fold_left (fun sorted x => insert_by key x sorted) l [].

(** [find(p)] of a character *)
Fixpoint find_char (b : Z) (s : str) : option nat :=
  match s with
  | [] => None
  | c :: s => if c =? b then Some 0%nat else S <$> find_char b s
  end.

Definition utility_url_path (url : str) : option str :=
  rest ← match strip_prefix (lit "https://") url with Some rest => Some rest | None => strip_prefix (lit "http://") url end;
  slash ← find_char 47 rest;
  if (slash =? 0)%nat then None
  else Some (take (prefix_len (fun b => negb (b =? 63) && negb (b =? 35)) (drop slash rest)) (drop slash rest)).

(** ** Requests *)
Section Utilities.
Context `{BigIntOps} `{Sha256Ops} `{Serde} `{Base64}.

Record UtilityRequestAdmission := {
  ur_sequence : Z; ur_journal_id : str; ur_request_id : str; ur_operation_id : str; ur_scope : str; ur_kind : str; ur_model : str;
  ur_input_count : option Z; ur_expected_max_model_len : option Z; ur_url : str; ur_body : str;
}.

Definition is_tokenizer (kind : str) : bool := bool_decide (kind = lit "tokenize_chat") || bool_decide (kind = lit "tokenize_text").

(** What the kind of an operation says it was selected with. *)
Definition selected_counts (kind : str) (input_count expected_max : Value) : contract (option Z * option Z) :=
  if bool_decide (kind = lit "embedding") then
    if negb (is_null expected_max) then model_refusal "embedding carries a tokenizer context limit"
    else
      count ← unsigned input_count "embedding input count" SAFE_INTEGER;
      if count =? 0 then model_refusal "embedding has no separate input" else Ok (Some count, None)
  else if is_tokenizer kind then
    if negb (is_null input_count) then model_refusal "tokenizer request carries an embedding input count"
    else
      limit ← unsigned expected_max "selected tokenizer context limit" SAFE_INTEGER;
      if limit =? 0 then model_refusal "tokenizer has no selected context limit" else Ok (None, Some limit)
  else model_refusal "utility request has an unknown kind".

Definition separate_text (count : Z) (v : Value) : contract Z :=
  match as_str v with None => model_refusal "embedding input contains non-text" | Some _ => Ok (count + 1) end.

Definition utility_input (kind : str) (body : Value) (input_count : option Z) (line : Z) : contract unit :=
  if bool_decide (kind = lit "tokenize_chat") then
    if bool_decide (get body "prompt" ≠ None) then model_refusal "chat tokenizer has no rendered message input"
    else
      messages ← field body "messages" line;
      if bool_decide (elements messages = None) then model_refusal "chat tokenizer has no rendered message input"
      else
        prompt ← field body "add_generation_prompt" line;
        if bool_decide (as_bool prompt ≠ Some true) then model_refusal "chat tokenizer has no rendered message input" else Ok tt
  else if bool_decide (kind = lit "tokenize_text") then
    if bool_decide (get body "messages" ≠ None) then model_refusal "text tokenizer has no rendered text input"
    else
      prompt ← field body "prompt" line;
      if bool_decide (as_str prompt = None) then model_refusal "text tokenizer has no rendered text input"
      else
        special ← field body "add_special_tokens" line;
        if bool_decide (as_bool special ≠ Some false) then model_refusal "text tokenizer has no rendered text input" else Ok tt
  else if bool_decide (kind = lit "embedding") then
    format ← text body "encoding_format" line;
    if bool_decide (format ≠ lit "base64") then model_refusal "embedding request has no SDK base64 encoding"
    else
      input ← field body "input" line;
      separate ← match as_str input with
                 | Some _ => Ok 1
                 | None => match elements input with
                           | None => model_refusal "embedding input is not separate text"
                           | Some values => fold_result separate_text 0 values
                           end
                 end;
      if bool_decide (Some separate ≠ input_count) then model_refusal "embedding input count differs from separate texts" else Ok tt
  else Err (Panic "checked utility kind").

Definition utility_document (request : Value) (model body : str) (limits : Limits) (line : Z) : contract Value :=
  bytes ← field request "body_bytes" line;
  bytes ← unsigned bytes "utility body bytes" SAFE_INTEGER;
  if negb (Z.of_nat (length body) =? bytes) then model_refusal "utility request differs from its body size or SHA-256"
  else
    sha ← text request "body_sha256" line;
    if bool_decide (sha256 body ≠ sha) then model_refusal "utility request differs from its body size or SHA-256"
    else
      document ← map_refused (fun _ => InvalidRecord (lit "model request evidence utility request body is not JSON; inspect the complete original recording with its matching client")) (decode body limits);
      declared ← text (root document) "model" line;
      if bool_decide (declared ≠ model) then model_refusal "utility body changes the selected model" else Ok (root document).

Definition same_operation (a : UtilityRequestAdmission) (o : UtilityOperation) : bool :=
  bool_decide (uo_journal_id o = ur_journal_id a) && bool_decide (uo_scope o = ur_scope a) && bool_decide (uo_kind o = ur_kind a)
  && bool_decide (uo_model o = ur_model a) && bool_decide (uo_input_count o = ur_input_count a)
  && bool_decide (uo_expected_max_model_len o = ur_expected_max_model_len a) && bool_decide (uo_url o = ur_url a)
  && bool_decide (uo_body o = ur_body a).

Definition plan_utility_request (r : ModelRequests) (record : Value) (line : Z) (limits : Limits) : contract UtilityRequestAdmission :=
  request ← field record "utility_request" line;
  journal ← text request "journal_id" line;
  sequence ← field request "sequence" line;
  sequence ← unsigned sequence "utility request sequence" SAFE_INTEGER;
  if bool_decide (mr_journal_id r ≠ Some journal) || bool_decide (next_sequence r ≠ Some sequence)
  then model_refusal "utility request is missing, reordered or foreign"
  else
    id ← text request "request_id" line;
    if bool_decide (id ∈ mr_ids r) then model_refusal "utility request reuses a physical identity"
    else
      operation ← text request "operation_id" line;
      if bool_decide (operation ∈ mr_completed_utilities r) then model_refusal "utility request follows its completed operation"
      else
        scope ← text request "kv_scope" line;
        kind ← text request "kind" line;
        model ← text request "requested_model" line;
        if (length (trim model) =? 0)%nat then model_refusal "utility request has no selected model"
        else
          count ← field request "requested_input_count" line;
          max ← field request "expected_max_model_len" line;
          '(input_count, expected) ← selected_counts kind count max;
          url ← text request "request_url" line;
          match utility_url_path url with
          | None => model_refusal "utility request has no HTTP endpoint"
          | Some path =>
              let embedding := bool_decide (kind = lit "embedding") in
              if (embedding && negb (ends_with (lit "/embeddings") path)) || (negb embedding && negb (ends_with (lit "/tokenize") path))
              then model_refusal "utility request uses the wrong endpoint"
              else
                body ← text request "body_json" line;
                object ← utility_document request model body limits line;
                _ ← utility_input kind object input_count line;
                let a := {| ur_sequence := sequence; ur_journal_id := journal; ur_request_id := id; ur_operation_id := operation;
                            ur_scope := scope; ur_kind := kind; ur_model := model; ur_input_count := input_count;
                            ur_expected_max_model_len := expected; ur_url := url; ur_body := body |} in
                if match mr_utilities r !! operation with Some previous => negb (same_operation a previous) | None => false end
                then model_refusal "utility retry changes its request or owner"
                else Ok a
          end.

Definition new_utility (a : UtilityRequestAdmission) : UtilityOperation :=
  {| uo_first_sequence := ur_sequence a; uo_last_sequence := ur_sequence a; uo_journal_id := ur_journal_id a; uo_scope := ur_scope a;
     uo_kind := ur_kind a; uo_model := ur_model a; uo_input_count := ur_input_count a;
     uo_expected_max_model_len := ur_expected_max_model_len a; uo_url := ur_url a; uo_body := ur_body a; uo_requests := []; uo_physical := ∅ |}.

Definition commit_utility_request (a : UtilityRequestAdmission) (r : ModelRequests) : contract ModelRequests :=
  let id := ur_request_id a in
  let operation := set_uo_last_sequence (ur_sequence a) (default (new_utility a) (mr_utilities r !! ur_operation_id a)) in
  let operation := set_uo_requests (uo_requests operation ++ [id]) operation in
  let r := set_mr_utilities (<[ur_operation_id a := operation]> (mr_utilities r)) r in
  let r := set_mr_ids ({[ id ]} ∪ mr_ids r) r in
  let r := set_mr_response_values (<[id := new_response false false]> (mr_response_values r)) r in
  let r := set_mr_responses (<[id := empty_response (ur_scope a) None None (Some (ur_operation_id a))]> (mr_responses r)) r in
  count ← add_one (mr_physical_count r) "physical_count += 1";
  Ok (set_mr_physical_count count r).

(** ** Completions *)
Record UtilityCompletionAdmission := { uc_operation_id : str; uc_request_ids : list str; uc_token_count : option CompletedTokenCount }.

Definition request_id_step (st : gset str * list str) (v : Value) : contract (gset str * list str) :=
  match nonempty_str (as_str v) with
  | None => model_refusal "utility completion has an invalid request identity"
  | Some id =>
      if decide (id ∈ st.1) then model_refusal "utility completion repeats a request" else Ok ({[ id ]} ∪ st.1, st.2 ++ [id])
  end.

Definition optional_count (v : Value) (name : string) : contract (option Z) :=
  if is_null v then Ok None else n ← unsigned v (lit name) SAFE_INTEGER; Ok (Some n).

(** The operation a completion names: its owner and every physical retry. *)
Definition completed_operation (operation : UtilityOperation) (ids : list str) (completion : Value) (line : Z) : contract unit :=
  let refused {A} : contract A := model_refusal "utility completion changes its owner or omits a physical retry" in
  journal ← text completion "journal_id" line;
  if bool_decide (uo_journal_id operation ≠ journal) then refused
  else
    scope ← text completion "kv_scope" line;
    if bool_decide (uo_scope operation ≠ scope) then refused
    else
      kind ← text completion "kind" line;
      if bool_decide (uo_kind operation ≠ kind) then refused
      else
        model ← text completion "requested_model" line;
        if bool_decide (uo_model operation ≠ model) || bool_decide (uo_requests operation ≠ ids) then refused
        else
          input ← field completion "requested_input_count" line;
          limit ← field completion "expected_max_model_len" line;
          input ← optional_count input "embedding count";
          if bool_decide (uo_input_count operation ≠ input)
          then model_refusal "utility completion changes its selected input count or context limit"
          else
            limit ← optional_count limit "selected context limit";
            if bool_decide (uo_expected_max_model_len operation ≠ limit)
            then model_refusal "utility completion changes its selected input count or context limit"
            else Ok tt.

Definition undelivered (operation : UtilityOperation) (id : str) : bool :=
  match uo_physical operation !! id with Some p => negb (up_delivered p) | None => true end.

Fixpoint any_completed (operation : UtilityOperation) (ids : list str) : contract bool :=
  match ids with
  | [] => Ok false
  | id :: ids => p ← expect (uo_physical operation !! id) "operation.physical[id]"; if up_completed p then Ok true else any_completed operation ids
  end.

Definition settled_retries (operation : UtilityOperation) (ids : list str) : contract unit :=
  let refused {A} : contract A := model_refusal "utility completion omits a physical response or successful retry" in
  if negb (size (uo_physical operation) =? length ids)%nat || existsb (undelivered operation) ids then refused
  else
    early ← any_completed operation (take (length ids - 1) ids);
    if early : bool then refused else Ok tt.

Definition complete_json (p : UtilityPhysical) : bool :=
  up_completed p && successful (up_status p)
  && (bool_decide (up_termination p = Some (lit "eof")) || bool_decide (up_termination p = Some (lit "cancelled")))
  && match media_type (up_content_type p) with Some t => bool_decide (t = lit "application/json") || ends_with (lit "+json") t | None => false end.

Definition parsed_body (values : option ResponseValues) : contract json :=
  match values with
  | Some (Nonstream body) =>
      match nonstream_json_value body with
      | Some parsed => Ok parsed
      | None => model_refusal "utility result has invalid physical JSON"
      end
  | _ => model_refusal "utility result has no final physical response bytes"
  end.

(** The parsed body of the last physical response. *)
Definition physical_result (r : ModelRequests) (operation : UtilityOperation) (ids : list str) : contract json :=
  match list.last ids with
  | None => model_refusal "utility result has no physical response"
  | Some final =>
      p ← expect (uo_physical operation !! final) "operation.physical[final_id]";
      if negb (complete_json p) then model_refusal "utility result has no complete JSON HTTP response"
      else
        parsed_body (mr_response_values r !! final)
  end.

Definition member_u64 (v : json) (key : string) : option Z := json_get v (lit key) ≫= json_u64.

Definition embedding_entry (vectors : list Value) (_ : unit) (item : nat * json) : contract unit :=
  let '(index, entry) := item in
  match json_get entry (lit "embedding") ≫= json_str with
  | None => model_refusal "physical embedding is not base64"
  | Some encoded =>
      match b64_decode encoded with
      | None => model_refusal "physical embedding has invalid base64"
      | Some bytes =>
          vector ← expect (vectors !! index) "vectors[index]";
          match elements vector with
          | None => model_refusal "embedding result vector is not an array"
          | Some values =>
              if bool_decide (member_u64 entry "index" ≠ Some (Z.of_nat index)) || bool_decide (bytes = [])
                 || negb (length bytes mod 4 =? 0)%nat || bool_decide (b64_encode bytes ≠ encoded)
                 || negb (length values =? length bytes / 4)%nat
              then model_refusal "physical embedding vector differs from its result"
              else if negb (forallb (fun p => same_float p.1 p.2) (zip (chunks4 bytes) values))
              then model_refusal "embedding result differs from physical float32 bytes"
              else Ok tt
          end
      end
  end.

Definition embedding_result (operation : UtilityOperation) (result : Value) (parsed : json) (line : Z) : contract unit :=
  kind ← text result "kind" line;
  if bool_decide (kind ≠ lit "embedding") then model_refusal "embedding completion claims a tokenizer result"
  else
    match json_get parsed (lit "data") ≫= json_array with
    | None => model_refusal "physical embedding response has no data"
    | Some data =>
        vectors ← field result "vectors" line;
        match elements vectors with
        | None => model_refusal "embedding result has no vectors"
        | Some vectors =>
            if bool_decide (Some (Z.of_nat (length data)) ≠ uo_input_count operation) || negb (length vectors =? length data)%nat
            then model_refusal "embedding result count differs from separate inputs"
            else
              let ordered := sort_by (fun entry => default U64_MAX (member_u64 entry "index")) data in
              fold_result (embedding_entry vectors) tt (imap pair ordered)
        end
    end.

Definition tokenizer_result (operation : UtilityOperation) (result : Value) (parsed : json) (line : Z) : contract unit :=
  let refused {A} : contract A := model_refusal "tokenizer result differs from physical count or selected context limit" in
  kind ← text result "kind" line;
  if bool_decide (kind ≠ lit "token_count") then model_refusal "tokenizer completion claims an embedding result"
  else
    match (n ← member_u64 parsed "count"; if n <=? SAFE_INTEGER then Some n else None) with
    | None => model_refusal "physical tokenizer has no valid count"
    | Some count =>
        match (n ← member_u64 parsed "max_model_len"; if (0 <? n) && (n <=? SAFE_INTEGER) then Some n else None) with
        | None => model_refusal "physical tokenizer has no valid context limit"
        | Some max =>
            if bool_decide (Some max ≠ uo_expected_max_model_len operation) then refused
            else
              recorded ← field result "total_tokens" line;
              recorded ← unsigned recorded "recorded token count" SAFE_INTEGER;
              if negb (count =? recorded) then refused
              else
                limit ← field result "max_model_len" line;
                limit ← unsigned limit "recorded context limit" SAFE_INTEGER;
                if negb (max =? limit) then refused else Ok tt
        end
    end.

(** The count a tokenizer operation leaves behind, with the text it counted. *)
Definition completed_count (operation : UtilityOperation) (result : Value) (line : Z) : contract (option CompletedTokenCount) :=
  prompt ←
    (if bool_decide (uo_kind operation = lit "tokenize_text") && negb (is_null result) then
       match value_from_str (uo_body operation) with
       | None => model_refusal "text tokenizer request body is not JSON"
       | Some body => match json_get body (lit "prompt") ≫= json_str with
                      | Some prompt => Ok (Some prompt)
                      | None => model_refusal "text tokenizer has no rendered text input"
                      end
       end
     else Ok None);
  if is_tokenizer (uo_kind operation) && negb (is_null result) then
    count ← field result "total_tokens" line;
    count ← unsigned count "token count" SAFE_INTEGER;
    window ← field result "max_model_len" line;
    window ← unsigned window "context limit" SAFE_INTEGER;
    Ok (Some {| tc_scope := uo_scope operation; tc_first_sequence := uo_first_sequence operation;
                tc_last_sequence := uo_last_sequence operation; tc_count := count; tc_window := window; tc_model := uo_model operation;
                tc_prompt := prompt |})
  else Ok None.

Definition plan_utility_completion (r : ModelRequests) (record : Value) (line : Z) : contract UtilityCompletionAdmission :=
  completion ← field record "utility_completion" line;
  id ← text completion "operation_id" line;
  if bool_decide (id ∈ mr_completed_utilities r) then model_refusal "utility completion is repeated or foreign"
  else
    journal ← text completion "journal_id" line;
    if bool_decide (mr_journal_id r ≠ Some journal) then model_refusal "utility completion is repeated or foreign"
    else
      ids ← field completion "request_ids" line;
      match elements ids with
      | None => model_refusal "utility completion has no request list"
      | Some ids =>
          '(_, ids) ← fold_result request_id_step (∅, []) ids;
          result ← field completion "result" line;
          error ← field completion "error" line;
          if Bool.eqb (is_null result) (is_null error) || (negb (is_null error) && bool_decide (nonempty_str (as_str error) = None))
          then model_refusal "utility completion has no unique result or error"
          else
            match mr_utilities r !! id with
            | None =>
                if bool_decide (ids ≠ []) || negb (is_null result) then model_refusal "utility completion names unrecorded physical attempts"
                else Ok {| uc_operation_id := id; uc_request_ids := ids; uc_token_count := None |}
            | Some operation =>
                _ ← completed_operation operation ids completion line;
                _ ← settled_retries operation ids;
                _ ← (if is_null result then Ok tt
                     else
                       parsed ← physical_result r operation ids;
                       if bool_decide (uo_kind operation = lit "embedding") then embedding_result operation result parsed line
                       else tokenizer_result operation result parsed line);
                count ← completed_count operation result line;
                Ok {| uc_operation_id := id; uc_request_ids := ids; uc_token_count := count |}
            end
      end.

Definition commit_utility_completion (a : UtilityCompletionAdmission) (r : ModelRequests) : ModelRequests :=
  let r := set_mr_utilities (delete (uc_operation_id a) (mr_utilities r)) r in
  let r := set_mr_response_values (foldr delete (mr_response_values r) (uc_request_ids a)) r in
  let r := match uc_token_count a with
           | Some count => set_mr_completed_token_counts (<[uc_operation_id a := count]> (mr_completed_token_counts r)) r
           | None => r
           end in
  set_mr_completed_utilities ({[ uc_operation_id a ]} ∪ mr_completed_utilities r) r.

Definition check_token_measurement (r : ModelRequests) (operation scope : str) : contract (Z * Z * str * Z * Z) :=
  match mr_completed_token_counts r !! operation with
  | Some count =>
      if bool_decide (tc_scope count = scope) && bool_decide (tc_prompt count = None)
      then Ok (tc_count count, tc_window count, tc_model count, tc_first_sequence count, tc_last_sequence count)
      else model_refusal "compaction measurement has no completed chat tokenizer operation in its scope"
  | None => model_refusal "compaction measurement has no completed chat tokenizer operation in its scope"
  end.
End Utilities.
