(* ===== verification/Admission.v ===== *)
(** * Admission: the owner of a stream's identity and certification (src/protocol/engine/src/runtime.rs)

    [RuntimeContract] accepts captured records one at a time.  [prepare_utf8]
    decodes a record, binds its identity, observes it and plans its admission;
    the caller then commits or rejects the plan with a single-use token.  The
    first refusal is latched and freezes the certified prefix, while observation
    goes on.  The semantic planner itself ([RuntimeContract::plan] and what its
    plans commit) is the interface [Planner]; module Conversation is its instance.  Error messages leave out the values
    the program quotes with Debug. *)
From S2P Require Import Prelude Number Utf8 BTree Json JsonTree Schema Stream Usage.

Definition refuse_record {A} (line : Z) (detail : string) : contract A := invalid (at_line line ++ lit detail).

Definition add (left_ right_ : Z) (name : string) : contract Z :=
  ok_or (checked_add left_ right_) (Refused (ValidationUnavailable (lit name ++ lit " overflowed"))).

(** ** Identity of a record *)

(** Null and absent both mean the main session. *)
Definition required_scope (object : Value) (line : Z) : contract (option str) :=
  match get object "parent_tool_use_id" with
  | None => Ok None
  | Some v =>
      if is_null v then Ok None
      else match nonempty_str (as_str v) with
           | Some id => Ok (Some id)
           | None => refuse_record line " has a parent_tool_use_id that is neither null nor a non-empty agent tool-call id"
           end
  end.

Definition set_step (name : str) (result : gset str) (item : Value) : contract (gset str) :=
  t ← ok_or (nonempty_str (as_str item)) (Refused (InvalidRecord (name ++ lit " contains a non-string or empty value")));
  if decide (t ∈ result) then invalid (name ++ lit " contains duplicate") else Ok ({[ t ]} ∪ result).
Definition string_set (v : Value) (name : str) : contract (gset str) :=
  items ← ok_or (elements v) (Refused (InvalidRecord (name ++ lit " must be an array")));
  fold_result (set_step name) ∅ items.

Record RuntimeBindings := { manifest : Document }.
Record RuntimeLimits := { json_limits : Limits; schema_limits : ValidationLimits }.

Section Bindings.
Context `{StreamContract}.

Definition text_step (v : Value) (_ : unit) (key : str) : contract unit := _ ← text v key 0; Ok tt.
Definition set_field_step (v : Value) (_ : unit) (key : str) : contract unit :=
  f ← field v key 0; _ ← string_set f key; Ok tt.

Definition bindings_check (m : Document) : contract RuntimeBindings :=
  let value := root m in
  _ ← fold_result (text_step value) tt [lit "cwd"; lit "model"; lit "permission_mode"; lit "qwen_code_version"];
  sha ← text value "stream_contract_sha256" 0;
  if bool_decide (sha ≠ STREAM_CONTRACT_SHA256)
  then Err (Refused (InvalidDefinitionOf (lit "runtime manifest contract identity mismatch")))
  else
    _ ← fold_result (set_field_step value) tt [lit "tools"; lit "agents"; lit "slash_commands"];
    servers ← field value "mcp_servers" 0;
    if negb (is_array servers) then Err (Refused (InvalidDefinitionOf (lit "runtime manifest mcp_servers must be an array")))
    else Ok {| manifest := m |}.
Definition bindings_new (m : Document) : contract RuntimeBindings :=
  map_refused (fun cause => InvalidConfiguration (lit "runtime bindings: " ++ error_text cause)) (bindings_check m).

Definition validate_stream_start (object : Value) (line : Z) : contract unit :=
  type ← text object "type" line;
  if bool_decide (type ≠ lit "system") then refuse_record line " is not the root stream_start for this contract; retain the complete output from the matching client"
  else
    subtype ← text object "subtype" line;
    if bool_decide (subtype ≠ lit "stream_start") then refuse_record line " is not the root stream_start for this contract; retain the complete output from the matching client"
    else
      scope ← required_scope object line;
      if bool_decide (scope ≠ None) then refuse_record line " is not the root stream_start for this contract; retain the complete output from the matching client"
      else
        sha ← text object "stream_contract_sha256" line;
        if bool_decide (sha ≠ STREAM_CONTRACT_SHA256) then refuse_record line " is not the root stream_start for this contract; retain the complete output from the matching client"
        else Ok tt.

Definition same_field_step (b : RuntimeBindings) (object : Value) (line : Z) (_ : unit) (key : str) : contract unit :=
  left_ ← field object key line;
  right_ ← field (root (manifest b)) key 0;
  if values_equal left_ right_ then Ok tt
  else invalid (lit "events.jsonl init field " ++ key ++ lit " differs from the pinned contract").
Definition same_set_step (b : RuntimeBindings) (object : Value) (line : Z) (_ : unit) (key : str) : contract unit :=
  left_ ← field object key line;
  left_ ← string_set left_ key;
  right_ ← field (root (manifest b)) key 0;
  right_ ← string_set right_ key;
  if decide (left_ = right_) then Ok tt
  else invalid (lit "events.jsonl init field " ++ key ++ lit " differs from the pinned contract").

Definition validate_init (b : RuntimeBindings) (object : Value) (line : Z) : contract unit :=
  type ← text object "type" line;
  if bool_decide (type ≠ lit "system") then refuse_record line " is not root runtime metadata; retain the initialized root invocation"
  else
    subtype ← text object "subtype" line;
    if bool_decide (subtype ≠ lit "init") then refuse_record line " is not root runtime metadata; retain the initialized root invocation"
    else
      scope ← required_scope object line;
      if bool_decide (scope ≠ None) then refuse_record line " is not root runtime metadata; retain the initialized root invocation"
      else
        _ ← fold_result (same_field_step b object line) tt
              [lit "stream_contract_sha256"; lit "cwd"; lit "model"; lit "permission_mode"; lit "qwen_code_version"; lit "mcp_servers"];
        fold_result (same_set_step b object line) tt [lit "tools"; lit "agents"; lit "slash_commands"].
End Bindings.

(** ** Observation *)
Record RuntimeObservations := {
  num_turns : option Z; observed_usage : GenerationUsageSummary; observed_subagent_scope_count : Z; observed_unaccounted_records : Z;
}.

(** What the runtime keeps for observation alone. *)
Record Observed := {
  observations : RuntimeObservations; observed_journal : option str; observed_requests : gmap str bool;
  observed_utility_requests : gset str; observed_scopes : gset str;
}.

Definition observe_refusal {A} (line : Z) (detail : string) : contract A :=
  invalid (at_line line ++ lit " has unaccounted physical evidence: " ++ lit detail ++ lit "; inspect the original request and outcome records").

Definition with_usage (u : GenerationUsageSummary) (o : RuntimeObservations) : RuntimeObservations :=
  {| num_turns := num_turns o; observed_usage := u; observed_subagent_scope_count := observed_subagent_scope_count o;
     observed_unaccounted_records := observed_unaccounted_records o |}.
Definition with_turns (n : Z) (o : RuntimeObservations) : RuntimeObservations :=
  {| num_turns := Some n; observed_usage := observed_usage o; observed_subagent_scope_count := observed_subagent_scope_count o;
     observed_unaccounted_records := observed_unaccounted_records o |}.
Definition with_scopes (n : Z) (o : RuntimeObservations) : RuntimeObservations :=
  {| num_turns := num_turns o; observed_usage := observed_usage o; observed_subagent_scope_count := n;
     observed_unaccounted_records := observed_unaccounted_records o |}.
Definition with_unaccounted (n : Z) (o : RuntimeObservations) : RuntimeObservations :=
  {| num_turns := num_turns o; observed_usage := observed_usage o; observed_subagent_scope_count := observed_subagent_scope_count o;
     observed_unaccounted_records := n |}.

(** The facts one record adds. *)
Record ObservedRecord := {
  new_observations : RuntimeObservations; new_journal : option str; new_request : option str;
  new_utility_request : option str; new_outcome : option str;
}.
Definition observes (o : RuntimeObservations) : ObservedRecord :=
  {| new_observations := o; new_journal := None; new_request := None; new_utility_request := None; new_outcome := None |}.

Definition owned (o : Observed) (evidence : Value) (line : Z) : contract bool :=
  journal ← text evidence "journal_id" line;
  Ok (bool_decide (observed_journal o = Some journal)).

Definition observe_request (o : Observed) (object : Value) (line : Z) : contract ObservedRecord :=
  evidence ← field object "request" line;
  id ← text evidence "request_id" line;
  mine ← owned o evidence line;
  if negb mine || bool_decide (observed_requests o !! id ≠ None)
  then observe_refusal line "request has a foreign journal or repeated identity"
  else
    usage ← admit_request (observed_usage (observations o));
    Ok {| new_observations := with_usage usage (observations o); new_journal := None; new_request := Some id;
          new_utility_request := None; new_outcome := None |}.

Definition observe_utility_request (o : Observed) (object : Value) (line : Z) : contract ObservedRecord :=
  evidence ← field object "utility_request" line;
  id ← text evidence "request_id" line;
  mine ← owned o evidence line;
  if negb mine || bool_decide (observed_requests o !! id ≠ None)
  then observe_refusal line "utility request has a foreign journal or repeated identity"
  else Ok {| new_observations := observations o; new_journal := None; new_request := Some id;
             new_utility_request := Some id; new_outcome := None |}.

Definition observe_response (o : Observed) (object : Value) (line : Z) : contract ObservedRecord :=
  evidence ← field object "response" line;
  id ← text evidence "request_id" line;
  mine ← owned o evidence line;
  if negb mine || bool_decide (observed_requests o !! id = None)
  then observe_refusal line "response has no observed request owner"
  else
    event ← field evidence "event" line;
    kind ← text event "kind" line;
    if bool_decide (kind ≠ lit "outcome") then Ok (observes (observations o))
    else if bool_decide (observed_requests o !! id = Some true) then observe_refusal line "request has a repeated processing outcome"
    else
      usage ← field event "served_usage" line;
      observations ←
        (if decide (id ∈ observed_utility_requests o) then Ok (observations o)
         else
           served ← (if is_null usage then Ok None else Some <$> served_read usage line);
           usage ← finalize (observed_usage (observations o)) served;
           Ok (with_usage usage (observations o)));
      Ok {| new_observations := observations; new_journal := None; new_request := None;
            new_utility_request := None; new_outcome := Some id |}.

Definition observe_kind (o : Observed) (object : Value) (scope : option str) (line : Z) : contract ObservedRecord :=
  type ← text object "type" line;
  if bool_decide (type = lit "system") && bool_decide ((get object "subtype" ≫= as_str) = Some (lit "stream_start")) then
    if bool_decide (observed_journal o ≠ None) then observe_refusal line "repeated journal origin"
    else
      origin ← field object "request_evidence_origin" line;
      journal ← text origin "journal_id" line;
      Ok {| new_observations := observations o; new_journal := Some journal; new_request := None;
            new_utility_request := None; new_outcome := None |}
  else if bool_decide (type = lit "model_request") then observe_request o object line
  else if bool_decide (type = lit "model_utility_request") then observe_utility_request o object line
  else if bool_decide (type = lit "model_response") then observe_response o object line
  else if bool_decide (type = lit "result") && bool_decide (scope = None) then
    if bool_decide (num_turns (observations o) ≠ None) then observe_refusal line "repeated root terminal"
    else
      turns ← field object "num_turns" line;
      turns ← unsigned turns (lit "reported turns") SAFE_INTEGER;
      Ok (observes (with_turns turns (observations o)))
  else Ok (observes (observations o)).

(** Everything a record adds is assigned at the end: a record that cannot be
    accounted for changes nothing here. *)
Definition apply_observed (o : Observed) (r : ObservedRecord) (counted : RuntimeObservations) (scope : option str) : Observed :=
  {| observations := counted;
     observed_journal := match new_journal r with Some j => Some j | None => observed_journal o end;
     observed_requests :=
       let requests := match new_request r with Some id => <[id := false]> (observed_requests o) | None => observed_requests o end in
       match new_outcome r with Some id => <[id := true]> requests | None => requests end;
     observed_utility_requests := match new_utility_request r with Some id => {[ id ]} ∪ observed_utility_requests o | None => observed_utility_requests o end;
     observed_scopes := match scope with Some id => {[ id ]} ∪ observed_scopes o | None => observed_scopes o end |}.

Definition observe (o : Observed) (object : Value) (line : Z) : contract Observed :=
  scope ← required_scope object line;
  r ← observe_kind o object scope line;
  counted ←
    (if match scope with Some id => bool_decide (id ∉ observed_scopes o) | None => false end
     then
       n ← add (observed_subagent_scope_count (new_observations r)) 1 "observed scope count";
       Ok (with_scopes n (new_observations r))
     else Ok (new_observations r));
  Ok (apply_observed o r counted scope).

Definition default_observed : Observed :=
  {| observations := {| num_turns := None; observed_usage := no_requests; observed_subagent_scope_count := 0; observed_unaccounted_records := 0 |};
     observed_journal := None; observed_requests := ∅; observed_utility_requests := ∅; observed_scopes := ∅ |}.

(** ** The semantic planner

    What [RuntimeContract::plan] decides of a decoded record, given the certified
    prefix and the stream's owner, and the state its plans change when
    committed; a commit can panic, never refuse.  That state begins from what the invocation was started with:
    bindings, limits and the operator's task. *)
Class Planner `{StreamContract} := {
  semantics : Type;
  admission_plan : Type;
  initial_semantics : RuntimeBindings → RuntimeLimits → str → semantics;
  plan_record : semantics → Z → option str → DecodedRecord → Z → contract admission_plan;
  commit_plan : admission_plan → semantics → contract semantics;
  commit_refuses_nothing : ∀ p s e, commit_plan p s ≠ Err (Refused e);
}.

Record AdmissionPlan `{Planner} := { semantic_plan : admission_plan; plan_prefix : Z }.
Arguments AdmissionPlan {_ _}.
Record PendingAdmission `{Planner} := { sequence : Z; document : Document; pending_plan : AdmissionPlan }.
Arguments PendingAdmission {_ _}.

(** A capability bound to one owner; spending it empties it. *)
Record AdmissionToken := { owner : nat; token_sequence : option Z }.

Record RuntimeSnapshot := {
  snapshot_records : Z; certified_prefix_records : Z; snapshot_refusal : option ContractError;
  pending_admission : bool; snapshot_observations : RuntimeObservations;
}.

Section Protocol.
Context `{BigIntOps} `{Planner}.

Record RuntimeContract := {
  identity : nat; bindings : RuntimeBindings; limits : RuntimeLimits;
  session_id : option str; seen_uuids : gset str; observed : Observed;
  records_seen : Z; prefix : Z; first_refusal : option ContractError;
  state : semantics; pending : option PendingAdmission;
}.

Definition new_runtime (id : nat) (b : RuntimeBindings) (l : RuntimeLimits) (operator : str) : RuntimeContract :=
  {| identity := id; bindings := b; limits := l; session_id := None; seen_uuids := ∅; observed := default_observed;
     records_seen := 0; prefix := 0; first_refusal := None; state := initial_semantics b l operator; pending := None |}.

Definition snapshot (r : RuntimeContract) : RuntimeSnapshot :=
  {| snapshot_records := records_seen r; certified_prefix_records := prefix r; snapshot_refusal := first_refusal r;
     pending_admission := match pending r with Some _ => true | None => false end;
     snapshot_observations := observations (observed r) |}.

Definition set_records (n : Z) (r : RuntimeContract) : RuntimeContract :=
  {| identity := identity r; bindings := bindings r; limits := limits r; session_id := session_id r; seen_uuids := seen_uuids r;
     observed := observed r; records_seen := n; prefix := prefix r; first_refusal := first_refusal r; state := state r; pending := pending r |}.
Definition set_identity (s : option str) (uuids : gset str) (r : RuntimeContract) : RuntimeContract :=
  {| identity := identity r; bindings := bindings r; limits := limits r; session_id := s; seen_uuids := uuids;
     observed := observed r; records_seen := records_seen r; prefix := prefix r; first_refusal := first_refusal r; state := state r; pending := pending r |}.
Definition set_observed (o : Observed) (r : RuntimeContract) : RuntimeContract :=
  {| identity := identity r; bindings := bindings r; limits := limits r; session_id := session_id r; seen_uuids := seen_uuids r;
     observed := o; records_seen := records_seen r; prefix := prefix r; first_refusal := first_refusal r; state := state r; pending := pending r |}.
Definition set_pending_admission (p : option PendingAdmission) (r : RuntimeContract) : RuntimeContract :=
  {| identity := identity r; bindings := bindings r; limits := limits r; session_id := session_id r; seen_uuids := seen_uuids r;
     observed := observed r; records_seen := records_seen r; prefix := prefix r; first_refusal := first_refusal r; state := state r; pending := p |}.
Definition set_refusal (e : option ContractError) (r : RuntimeContract) : RuntimeContract :=
  {| identity := identity r; bindings := bindings r; limits := limits r; session_id := session_id r; seen_uuids := seen_uuids r;
     observed := observed r; records_seen := records_seen r; prefix := prefix r; first_refusal := e; state := state r; pending := pending r |}.
Definition set_certified (s : semantics) (n : Z) (r : RuntimeContract) : RuntimeContract :=
  {| identity := identity r; bindings := bindings r; limits := limits r; session_id := session_id r; seen_uuids := seen_uuids r;
     observed := observed r; records_seen := records_seen r; prefix := n; first_refusal := first_refusal r; state := s; pending := pending r |}.

(** The first refusal stays. *)
Definition latch (e : ContractError) (r : RuntimeContract) : ContractError * RuntimeContract :=
  match first_refusal r with
  | Some first => (first, r)
  | None => (e, set_refusal (Some e) r)
  end.
(** Latching what a step refused with; a panic is not an error to keep. *)
Definition latch_fault (f : fault ContractError) (r : RuntimeContract) : RuntimeContract :=
  match f with Refused e => (latch e r).2 | _ => r end.

(** A call on the runtime: its result and the runtime it leaves. *)
Definition call (A : Type) : Type := contract A * RuntimeContract.

Definition set_unaccounted (n : Z) (r : RuntimeContract) : RuntimeContract :=
  set_observed {| observations := with_unaccounted n (observations (observed r)); observed_journal := observed_journal (observed r);
    observed_requests := observed_requests (observed r); observed_utility_requests := observed_utility_requests (observed r);
    observed_scopes := observed_scopes (observed r) |} r.
Definition count_unaccounted (r : RuntimeContract) : call unit :=
  match add (observed_unaccounted_records (observations (observed r))) 1 "unaccounted record count" with
  | Ok n => (Ok tt, set_unaccounted n r)
  | Err e => (Err e, r)
  end.

Definition observe_gap (cause : ContractError) (r : RuntimeContract) : call unit :=
  let result :=
    records ← add (records_seen r) 1 "event count";
    unaccounted ← add (observed_unaccounted_records (observations (observed r))) 1 "unaccounted record count";
    Ok (records, unaccounted) in
  match result with
  | Ok (records, unaccounted) => (Ok tt, (latch cause (set_unaccounted unaccounted (set_records records r))).2)
  | Err e => (Err e, latch_fault e (latch cause r).2)
  end.

Definition decode_failure (cause : DecodeError) (line : Z) : ContractError :=
  match cause with
  | ResourceLimit resource limit => ValidationUnavailable (at_line line ++ lit ": " ++ lit resource ++ lit " limit " ++ show_Z limit)
  | _ => InvalidRecord (at_line line ++ lit " is invalid JSON")
  end.

(** The owner a record names: its session, and a uuid not seen before. *)
Definition bind_identity (object : Value) (line : Z) (r : RuntimeContract) : call unit :=
  match (uuid ← text object "uuid" line; session ← text object "session_id" line; Ok (uuid, session)) with
  | Err e => (Err e, r)
  | Ok (uuid, session) =>
      match (if records_seen r =? 1 then validate_stream_start object line else Ok tt) with
      | Err e => (Err e, r)
      | Ok _ =>
          let r := if records_seen r =? 1 then set_identity (Some session) (seen_uuids r) r else r in
          match session_id r with
          | None => (refuse_record line " has no validated initial session owner", r)
          | Some expected =>
              if bool_decide (expected ≠ session) then (refuse_record line " changed session_id", r)
              else if decide (uuid ∈ seen_uuids r) then (refuse_record line " repeats event uuid", r)
              else (Ok tt, set_identity (session_id r) ({[ uuid ]} ∪ seen_uuids r) r)
          end
      end
  end.

(** Decoding a record and, when it decodes, observing it. *)
Definition decode_and_observe (object : Value) (line : Z) (r : RuntimeContract) : contract DecodedRecord * contract unit * RuntimeContract :=
  let decoded := decode_record object (schema_limits (limits r)) line in
  match decoded with
  | Err e => let '(counted, r) := count_unaccounted r in (decoded, counted, r)
  | Ok _ =>
      match observe (observed r) object line with
      | Ok o => (decoded, Ok tt, set_observed o r)
      | Err _ => let '(counted, r) := count_unaccounted r in (decoded, counted, r)
      end
  end.

Definition plan (record : DecodedRecord) (line : Z) (r : RuntimeContract) : contract AdmissionPlan :=
  p ← plan_record (state r) (prefix r) (session_id r) record line;
  n ← add (prefix r) 1 "certified prefix";
  Ok {| semantic_plan := p; plan_prefix := n |}.

Definition prepare (d : Document) (line : Z) (r : RuntimeContract) : call AdmissionToken :=
  match pending r with
  | Some _ => let '(e, r) := latch (InvalidRecord (lit "admission is already pending reconciliation")) r in (Err (Refused e), r)
  | None =>
      match add (records_seen r) 1 "event count" with
      | Err e => (Err e, r)
      | Ok records =>
          let r := set_records records r in
          let object := root d in
          let '(bound, r) := bind_identity object line r in
          match bound with
          | Err e =>
              let '(counted, r) := count_unaccounted r in
              match counted with
              | Err overflow => (Err overflow, r)
              | Ok _ => (Err e, latch_fault e r)
              end
          | Ok _ =>
              let '(decoded, counted, r) := decode_and_observe object line r in
              match counted with
              | Err overflow => (Err overflow, r)
              | Ok _ =>
                  match first_refusal r with
                  | Some e => (Err (Refused e), r)
                  | None =>
                      match (record ← decoded; plan record line r) with
                      | Err e => (Err e, latch_fault e r)
                      | Ok p =>
                          (Ok {| owner := identity r; token_sequence := Some (records_seen r) |},
                           set_pending_admission (Some {| sequence := records_seen r; document := d; pending_plan := p |}) r)
                      end
                  end
              end
          end
      end
  end.

Definition prepare_utf8 (bytes : str) (line : Z) (r : RuntimeContract) : call AdmissionToken :=
  match pending r with
  | Some _ => let '(e, r) := latch (InvalidRecord (lit "admission is already pending reconciliation")) r in (Err (Refused e), r)
  | None =>
      match decode bytes (json_limits (limits r)) with
      | Ok document =>
          let '(result, r) := prepare document line r in
          (result, match result with Err e => latch_fault e r | Ok _ => r end)
      | Err (Refused cause) =>
          let error := decode_failure cause line in
          let '(gap, r) := observe_gap error r in
          match gap with Err e => (Err e, r) | Ok _ => (Err (Refused error), r) end
      | Err (Panic site) => (Err (Panic site), r)
      | Err OutOfFuel => (Err OutOfFuel, r)
      end
  end.

Definition check_token (r : RuntimeContract) (token : AdmissionToken) : contract PendingAdmission :=
  match token_sequence token, pending r with
  | Some sequence_, Some p =>
      if (owner token =? identity r)%nat && (sequence p =? sequence_) then Ok p
      else invalid (lit "stale or foreign admission capability")
  | _, _ => invalid (lit "stale or foreign admission capability")
  end.

Definition pending_bytes (r : RuntimeContract) (token : AdmissionToken) : contract str :=
  p ← check_token r token; Ok (source (document p)).

Definition spent (token : AdmissionToken) : AdmissionToken := {| owner := owner token; token_sequence := None |}.

Definition commit (token : AdmissionToken) (r : RuntimeContract) : contract unit * AdmissionToken * RuntimeContract :=
  match check_token r token with
  | Err e => (Err e, token, r)
  | Ok p =>
      match first_refusal r with
      | Some e => (Err (Refused e), token, r)
      | None =>
          match commit_plan (semantic_plan (pending_plan p)) (state r) with
          | Ok s => (Ok tt, spent token, set_certified s (plan_prefix (pending_plan p)) (set_pending_admission None r))
          | Err e => (Err e, token, set_pending_admission None r)
          end
      end
  end.

Definition reject_pending (token : AdmissionToken) (cause : ContractError) (r : RuntimeContract) :
    contract unit * AdmissionToken * RuntimeContract :=
  match check_token r token with
  | Err e => (Err e, token, r)
  | Ok _ => (Ok tt, spent token, (latch cause (set_pending_admission None r)).2)
  end.
End Protocol.

(** ** What has been observed of physical requests *)

(** The requests a map of identities stands for. *)
Definition requests_of (f : gmap str Request) : list Request := (map_to_list f).*2.

Lemma summarize_perm h k : h ≡ₚ k → summarize h = summarize k.
Proof.
  induction 1 as [|r h k _ IH|r r' h|h k j _ IH1 _ IH2]; simpl; [done|by rewrite IH| |congruence].
  rewrite !plus_summary_assoc. f_equal. apply plus_summary_comm.
Qed.

Lemma requests_of_insert f i r :
  f !! i = None → summarize (requests_of (<[i := r]> f)) = plus_summary (one_request r) (summarize (requests_of f)).
Proof. intros Hi. unfold requests_of. by rewrite (summarize_perm _ _ (fmap_Permutation snd _ _ (map_to_list_insert f i r Hi))). Qed.

Lemma requests_of_ok f : map_Forall (fun _ => request_ok) f → Forall request_ok (requests_of f).
Proof.
  intros Hf. apply Forall_forall. intros r ([i r'] & -> & Hin)%list_elem_of_fmap. apply elem_of_map_to_list in Hin.
  by apply (Hf i r').
Qed.

(** Each observed physical request that is not a utility request, with what is
    known of it: the observed usage is their sum. *)
Record accounted (o : Observed) (f : gmap str Request) : Prop := {
  acc_known : dom f = dom (observed_requests o) ∖ observed_utility_requests o;
  acc_utility : observed_utility_requests o ⊆ dom (observed_requests o);
  acc_open : ∀ id r, f !! id = Some r → (observed_requests o !! id = Some false ↔ r = Open);
  acc_ok : map_Forall (fun _ => request_ok) f;
  acc_usage : observed_usage (observations o) = summarize (requests_of f);
}.

Section ObservedUsage.
Context `{BigIntLaws}.

Lemma get_in_arena v key w : in_arena v → get v key = Some w → in_arena w.
Proof.
  intros Hv. unfold get. destruct (node v) as [| | | | |ms] eqn:Hn; try done. destruct (bt_get key ms) as [i|] eqn:Hi; [|done].
  intros [= <-]. apply in_arena_child; [done|]. rewrite Hn. exists key. by apply bt_get_elem.
Qed.

Lemma field_in_arena v key line w : in_arena v → field v key line = Ok w → in_arena w.
Proof. intros Hv Hw%ok_or_ok. by eapply get_in_arena. Qed.

Lemma unsigned_range v name maximum n :
  in_arena v → 0 <= maximum <= U64_MAX → unsigned v name maximum = Ok n → 0 <= n <= maximum.
Proof.
  intros Hv Hm (x & Hx & Hn)%unsigned_ok. pose proof (in_arena_entry v Hv) as [_ He]. unfold as_number, node in Hx.
  destruct (node_of (entry v)) as [| |x'| | |]; try done. injection Hx as ->. destruct He as [_ Hp].
  apply parse_sound in Hp as (_ & Hnorm & _). pose proof (as_unsigned_denote x maximum Hnorm Hm) as Hs. rewrite Hn in Hs. simpl in Hs. lia.
Qed.

Lemma unsigned_nonneg v name maximum n :
  in_arena v → 0 <= maximum <= U64_MAX → unsigned v name maximum = Ok n → 0 <= n.
Proof. intros Hv Hm Hn. by apply (unsigned_range v name maximum n). Qed.

Lemma served_read_counts v line u : in_arena v → served_read v line = Ok u → counts u.
Proof.
  intros Hv. unfold served_read.
  assert (Hc : ∀ key n, (f ← field v key line; unsigned f key SAFE_INTEGER) = Ok n → 0 <= n).
  { intros key n (f & Hf & Hn)%bind_ok_inv. eapply unsigned_nonneg; [by eapply field_in_arena| |exact Hn]. unfold SAFE_INTEGER, U64_MAX. lia. }
  intros (p & Hp%Hc & Hr)%bind_ok_inv. apply bind_ok_inv in Hr as (o & Ho%Hc & Hr). apply bind_ok_inv in Hr as (t & Ht%Hc & Hr).
  apply bind_ok_inv in Hr as (k & Hk%Hc & Hr). apply bind_ok_inv in Hr as (n & Hn%Hc & Hr). apply bind_ok_inv in Hr as (? & _ & [= <-]).
  by split_and!.
Qed.

(** A record that is accounted for keeps the sum. *)
Lemma accounted_ext o f s o' :
  accounted o f → observed_usage (observations o') = observed_usage (observations o) →
  observed_requests o' = observed_requests o → observed_utility_requests o' = s → s = observed_utility_requests o → accounted o' f.
Proof. intros [Hk Hu Ho Hok Hs] Hus Hreq Hs' ->. constructor; rewrite ?Hus, ?Hreq, ?Hs'; done. Qed.

Lemma observe_request_accounted o f object line r counted scope :
  accounted o f → observe_request o object line = Ok r →
  observed_usage counted = observed_usage (new_observations r) →
  ∃ f', accounted (apply_observed o r counted scope) f'.
Proof.
  intros [Hk Hu Hopen Hok Hs] Hr Hc. unfold observe_request in Hr.
  apply bind_ok_inv in Hr as (evidence & _ & Hr). apply bind_ok_inv in Hr as (i & _ & Hr). apply bind_ok_inv in Hr as (mine & _ & Hr).
  destruct (_ || _) eqn:Hcond; [done|]. apply orb_false_iff in Hcond as [_ Hnew].
  apply bool_decide_eq_false in Hnew. apply dec_stable in Hnew.
  apply bind_ok_inv in Hr as (usage & Husage & [= <-]). simpl in Hc.
  assert (Hfresh : i ∉ dom (observed_requests o)) by (by apply not_elem_of_dom).
  assert (Hf : f !! i = None) by (apply not_elem_of_dom; rewrite Hk; set_solver).
  rewrite Hs in Husage. pose proof (requests_of_ok f Hok) as Hall. apply admit_request_ok in Husage as [_ ->]; [|by apply summarize_shape].
  exists (<[i := Open]> f). constructor; simpl.
  - rewrite !dom_insert_L, Hk. set_solver.
  - rewrite dom_insert_L. set_solver.
  - intros j r Hj. rewrite !lookup_insert in *. destruct (decide (i = j)); [simplify_eq; by split|by apply Hopen].
  - by apply map_Forall_insert_2.
  - rewrite Hc, requests_of_insert by done. apply plus_summary_comm.
Qed.

Lemma observe_utility_accounted o f object line r counted scope :
  accounted o f → observe_utility_request o object line = Ok r →
  observed_usage counted = observed_usage (new_observations r) →
  ∃ f', accounted (apply_observed o r counted scope) f'.
Proof.
  intros [Hk Hu Hopen Hok Hs] Hr Hc. unfold observe_utility_request in Hr.
  apply bind_ok_inv in Hr as (evidence & _ & Hr). apply bind_ok_inv in Hr as (i & _ & Hr). apply bind_ok_inv in Hr as (mine & _ & Hr).
  destruct (_ || _) eqn:Hcond; [done|]. apply orb_false_iff in Hcond as [_ Hnew].
  apply bool_decide_eq_false in Hnew. apply dec_stable in Hnew. injection Hr as <-. simpl in Hc.
  assert (Hfresh : i ∉ dom (observed_requests o)) by (by apply not_elem_of_dom).
  assert (Hf : f !! i = None) by (apply not_elem_of_dom; rewrite Hk; set_solver).
  exists f. constructor; simpl; [| | |done|by rewrite Hc].
  - rewrite dom_insert_L, Hk. set_solver.
  - rewrite dom_insert_L. set_solver.
  - intros j r Hj. rewrite lookup_insert_ne; [by apply Hopen|]. intros ->. congruence.
Qed.

Lemma observe_response_accounted o f object line r counted scope :
  in_arena object → accounted o f → observe_response o object line = Ok r →
  observed_usage counted = observed_usage (new_observations r) →
  ∃ f', accounted (apply_observed o r counted scope) f'.
Proof.
  intros Hv Hacc Hr Hc. pose proof Hacc as [Hk Hu Hopen Hok Hs]. unfold observe_response in Hr.
  apply bind_ok_inv in Hr as (evidence & Hev & Hr). apply bind_ok_inv in Hr as (i & _ & Hr). apply bind_ok_inv in Hr as (mine & _ & Hr).
  destruct (_ || _) eqn:Hcond; [done|]. apply orb_false_iff in Hcond as [_ Hknown]. apply bool_decide_eq_false in Hknown.
  apply bind_ok_inv in Hr as (event & Hevent & Hr). apply bind_ok_inv in Hr as (k & _ & Hr).
  destruct (bool_decide (k ≠ lit "outcome")).
  { injection Hr as <-. exists f. by eapply (accounted_ext o f). }
  case_bool_decide as Htwice; [done|]. apply bind_ok_inv in Hr as (usage & Hus & Hr).
  assert (Hfalse : observed_requests o !! i = Some false).
  { destruct (observed_requests o !! i) as [[]|] eqn:E; done. }
  assert (Harena : in_arena usage) by (eapply field_in_arena; [eapply field_in_arena; [eapply field_in_arena; [exact Hv|exact Hev]|exact Hevent]|exact Hus]).
  apply bind_ok_inv in Hr as (obs & Hobs & [= <-]). simpl in Hc. destruct (decide (i ∈ observed_utility_requests o)) as [Hutil|Hutil].
  - injection Hobs as <-. exists f. constructor; simpl; [| | |done|by rewrite Hc].
    + rewrite dom_insert_L, Hk. set_solver.
    + rewrite dom_insert_L. set_solver.
    + intros j r Hj. rewrite lookup_insert_ne; [by apply Hopen|]. intros ->.
      assert (Hdom : j ∈ dom f) by (by apply elem_of_dom_2 in Hj). rewrite Hk in Hdom. set_solver.
  - apply bind_ok_inv in Hobs as (served & Hserved & Hobs). apply bind_ok_inv in Hobs as (total & Htotal & [= <-]). simpl in Hc.
    assert (Hcounts : ∀ w, served = Some w → counts w).
    { intros w ->. destruct (is_null usage); [done|]. apply fmap_ok_inv in Hserved as (w' & Hw & [= ->]). by eapply served_read_counts. }
    assert (Hi : f !! i = Some Open).
    { assert (Hin : i ∈ dom f) by (rewrite Hk; apply elem_of_difference; split; [exact (elem_of_dom_2 _ _ _ Hfalse)|done]).
      apply elem_of_dom in Hin as [r Hr]. rewrite Hr. f_equal. by apply (Hopen i). }
    assert (Hrest : f = <[i := Open]> (delete i f)) by (by rewrite insert_delete_id).
    assert (Hdel : delete i f !! i = None) by apply lookup_delete_eq.
    rewrite Hs in Htotal. rewrite Hrest, requests_of_insert in Htotal by done.
    apply finalize_ok in Htotal as (Hreq & _ & ->); [|apply summarize_shape, requests_of_ok; by apply map_Forall_delete|done].
    exists (<[i := settled served]> (delete i f)). constructor; simpl.
    + rewrite !dom_insert_L, dom_delete_L, Hk. assert (i ∈ dom (observed_requests o)) by (exact (elem_of_dom_2 _ _ _ Hfalse)).
      apply set_eq. intros x. destruct (decide (x = i)); set_solver.
    + rewrite dom_insert_L. set_solver.
    + intros j r Hj. destruct (decide (i = j)) as [->|Hne].
      * rewrite lookup_insert_eq in Hj. injection Hj as <-. rewrite lookup_insert_eq. split; [done|]. intros Hopen'. unfold settled in Hopen'. by destruct served.
      * rewrite lookup_insert_ne, lookup_delete_ne in Hj by done. rewrite lookup_insert_ne by done. by apply Hopen.
    + apply map_Forall_insert_2; [done|]. by apply map_Forall_delete.
    + by rewrite Hc, requests_of_insert.
Qed.

Lemma observe_accounted o f object line o' :
  in_arena object → accounted o f → observe o object line = Ok o' → ∃ f', accounted o' f'.
Proof.
  intros Hv Hacc Ho. unfold observe in Ho. apply bind_ok_inv in Ho as (scope & _ & Ho). apply bind_ok_inv in Ho as (r & Hr & Ho).
  apply bind_ok_inv in Ho as (counted & Hc & [= <-]).
  assert (Husage : observed_usage counted = observed_usage (new_observations r)).
  { destruct (match scope with Some id => bool_decide (id ∉ observed_scopes o) | None => false end).
    - apply bind_ok_inv in Hc as (n & _ & [= <-]). done.
    - by injection Hc as <-. }
  unfold observe_kind in Hr. apply bind_ok_inv in Hr as (type & _ & Hr).
  assert (Hsame : ∀ o2 j, r = {| new_observations := o2; new_journal := j; new_request := None; new_utility_request := None; new_outcome := None |} →
            observed_usage o2 = observed_usage (observations o) → ∃ f', accounted (apply_observed o r counted scope) f').
  { intros o2 j -> Ho2. exists f. eapply (accounted_ext o f); [done|simpl; by rewrite Husage|done|reflexivity|done]. }
  destruct (_ && _).
  { destruct (bool_decide _); [done|]. apply bind_ok_inv in Hr as (? & _ & Hr). apply bind_ok_inv in Hr as (? & _ & [= <-]). by eapply Hsame. }
  destruct (bool_decide _); [by eapply observe_request_accounted|]. destruct (bool_decide _); [by eapply observe_utility_accounted|].
  destruct (bool_decide _); [by eapply observe_response_accounted|]. destruct (_ && _).
  - destruct (bool_decide _); [done|]. apply bind_ok_inv in Hr as (? & _ & Hr). apply bind_ok_inv in Hr as (? & _ & [= <-]). by eapply Hsame.
  - injection Hr as <-. by eapply Hsame.
Qed.
End ObservedUsage.

(** ** Certification *)

(** What is offered to a runtime: a completed record, or a gap where one should
    have been. *)
Inductive Offer := OfferedRecord (bytes : str) (line : Z) | OfferedGap (cause : ContractError).

(** A call that returns, with or without an error of the program. *)
Definition returns {A} (r : contract A) : Prop := match r with Err (Panic _) | Err OutOfFuel => False | _ => True end.

Section Certification.
Context `{BigIntOps} `{Planner}.

(** The reference: one pass over the records, each admitted before the next is
    read. *)
Record Certified := { c_session : option str; c_uuids : gset str; c_state : semantics; c_count : Z }.
Definition nothing_certified (b : RuntimeBindings) (l : RuntimeLimits) (operator : str) : Certified := {| c_session := None; c_uuids := ∅; c_state := initial_semantics b l operator; c_count := 0 |}.

Definition certify_record (l : RuntimeLimits) (c : Certified) (d : Document) (line : Z) : contract Certified :=
  let object := root d in
  uuid ← text object "uuid" line;
  session ← text object "session_id" line;
  _ ← (if c_count c =? 0 then validate_stream_start object line else Ok tt);
  if bool_decide ((if c_count c =? 0 then Some session else c_session c) ≠ Some session) then refuse_record line " changed session_id"
  else if decide (uuid ∈ c_uuids c) then refuse_record line " repeats event uuid"
  else
    record ← decode_record object (schema_limits l) line;
    p ← plan_record (c_state c) (c_count c) (Some session) record line;
    n ← add (c_count c) 1 "certified prefix";
    s ← commit_plan p (c_state c);
    Ok {| c_session := Some session; c_uuids := {[ uuid ]} ∪ c_uuids c; c_state := s; c_count := n |}.

Definition certify_step (l : RuntimeLimits) (c : Certified) (o : Offer) : contract Certified :=
  match o with
  | OfferedGap cause => Err (Refused cause)
  | OfferedRecord bytes line =>
      d ← map_refused (fun cause => decode_failure cause line) (decode bytes (json_limits l));
      certify_record l c d line
  end.
Definition certify (b : RuntimeBindings) (l : RuntimeLimits) (operator : str) (offers : list Offer) : contract Certified :=
  fold_result (certify_step l) (nothing_certified b l operator) offers.

(** Every state a runtime's callers can bring it to, with what was offered. *)
Inductive reaches (id : nat) (b : RuntimeBindings) (l : RuntimeLimits) (operator : str) : list Offer → RuntimeContract → Prop :=
| reaches_new : reaches id b l operator [] (new_runtime id b l operator)
| reaches_prepare offers r bytes line result r' :
    reaches id b l operator offers r → prepare_utf8 bytes line r = (result, r') → returns result →
    reaches id b l operator (match pending r with Some _ => offers | None => offers ++ [OfferedRecord bytes line] end) r'
| reaches_gap offers r cause result r' :
    reaches id b l operator offers r → observe_gap cause r = (result, r') → reaches id b l operator (offers ++ [OfferedGap cause]) r'
| reaches_commit offers r token result token' r' :
    reaches id b l operator offers r → commit token r = (result, token', r') → returns result → reaches id b l operator offers r'
| reaches_reject offers r token cause result token' r' :
    reaches id b l operator offers r → reject_pending token cause r = (result, token', r') → reaches id b l operator offers r'.

Lemma check_token_pending r token p : check_token r token = Ok p → pending r = Some p.
Proof. unfold check_token. destruct (token_sequence token), (pending r); try done. destruct (_ && _); [|done]. by intros [= ->]. Qed.
Lemma check_token_returns r token : returns (check_token r token).
Proof. unfold check_token. destruct (token_sequence token), (pending r); try done. by destruct (_ && _). Qed.

(** The runtime's own token, and what committing with it leaves. *)
Definition own_token (r : RuntimeContract) : AdmissionToken := {| owner := identity r; token_sequence := Some (records_seen r) |}.
Definition committed (r : RuntimeContract) : RuntimeContract := (commit (own_token r) r).2.

Lemma reaches_prepared id b l operator offers r bytes line :
  reaches id b l operator offers r → pending_admission (snapshot r) = false → returns (prepare_utf8 bytes line r).1 →
  reaches id b l operator (offers ++ [OfferedRecord bytes line]) (prepare_utf8 bytes line r).2.
Proof.
  intros Hr Hnone Hret. assert (Hp : pending r = None) by (simpl in Hnone; by destruct (pending r)). pose proof (reaches_prepare id b l operator offers r bytes line _ _ Hr (surjective_pairing _) Hret) as Hs.
  by rewrite Hp in Hs.
Qed.

Lemma reaches_committed id b l operator offers r :
  reaches id b l operator offers r → returns (commit (own_token r) r).1.1 → reaches id b l operator offers (committed r).
Proof.
  intros Hr Hret. eapply reaches_commit; [exact Hr| |exact Hret]. unfold committed. rewrite <- surjective_pairing. apply surjective_pairing.
Qed.

(** What observation and identity leave alone. *)
Record framed (r r' : RuntimeContract) : Prop := {
  framed_identity : identity r' = identity r; framed_limits : limits r' = limits r;
  framed_prefix : prefix r' = prefix r; framed_state : state r' = state r;
  framed_refusal : first_refusal r' = first_refusal r; framed_pending : pending r' = pending r;
  framed_records : records_seen r' = records_seen r;
}.

Lemma framed_refl r : framed r r.
Proof. done. Qed.
Lemma framed_trans a b c : framed a b → framed b c → framed a c.
Proof. intros [? ? ? ? ? ? ?] [? ? ? ? ? ? ?]. constructor; congruence. Qed.

Lemma count_unaccounted_framed r : framed r (count_unaccounted r).2.
Proof. unfold count_unaccounted. by destruct (add _ _ _). Qed.

Lemma bind_identity_framed object line r : framed r (bind_identity object line r).2.
Proof.
  unfold bind_identity. destruct (text object "uuid" line ≫= _) as [[uuid session]|e]; [|done].
  destruct (if records_seen r =? 1 then _ else _); [|done]. cbv zeta.
  destruct (session_id _); [|by destruct (records_seen r =? 1)]. destruct (bool_decide _); [by destruct (records_seen r =? 1)|].
  destruct (decide _); by destruct (records_seen r =? 1).
Qed.

Lemma decode_and_observe_framed object line r : framed r (decode_and_observe object line r).2.
Proof.
  unfold decode_and_observe. pose proof (count_unaccounted_framed r) as Hc. destruct (decode_record _ _ _); cbv zeta.
  - destruct (observe _ _ _); [done|]. by destruct (count_unaccounted r).
  - by destruct (count_unaccounted r).
Qed.

Lemma decode_and_observe_decoded object line r :
  (decode_and_observe object line r).1.1 = decode_record object (schema_limits (limits r)) line ∧
  session_id (decode_and_observe object line r).2 = session_id r ∧ seen_uuids (decode_and_observe object line r).2 = seen_uuids r.
Proof.
  unfold decode_and_observe, count_unaccounted. destruct (decode_record _ _ _) eqn:E; cbv zeta; rewrite ?E.
  - destruct (observe _ _ _); [done|]. by destruct (add _ _ _).
  - by destruct (add _ _ _).
Qed.

(** A latched refusal stays, and is the first. *)
Lemma latch_refused e r : first_refusal (latch e r).2 = Some (match first_refusal r with Some f => f | None => e end).
Proof. unfold latch. by destruct (first_refusal r) eqn:E. Qed.
Lemma latch_frame e r :
  identity (latch e r).2 = identity r ∧ limits (latch e r).2 = limits r ∧ prefix (latch e r).2 = prefix r ∧
  state (latch e r).2 = state r ∧ pending (latch e r).2 = pending r.
Proof. unfold latch. by destruct (first_refusal r). Qed.

(** What is certified once a runtime's plan commits. *)
Definition admitted_with (p : AdmissionPlan) (r : RuntimeContract) : contract Certified :=
  s ← commit_plan (semantic_plan p) (state r);
  Ok {| c_session := session_id r; c_uuids := seen_uuids r; c_state := s; c_count := plan_prefix p |}.

(** What is known of a record whose plan was made. *)
Record admissible (l : RuntimeLimits) (d : Document) (line : Z) (s : semantics) (n : Z) (session : str) (record : DecodedRecord)
    (p : admission_plan) : Prop := {
  adm_session : text (root d) "session_id" line = Ok session;
  adm_start : n = 0 → validate_stream_start (root d) line = Ok tt;
  adm_decoded : decode_record (root d) (schema_limits l) line = Ok record;
  adm_planned : plan_record s n (Some session) record line = Ok p;
}.

(** What a call to prepare a record comes to. *)
Inductive prepared (d : Document) (line : Z) (r : RuntimeContract) : call AdmissionToken → Prop :=
| prepared_refused e r' :
    identity r' = identity r → limits r' = limits r → prefix r' = prefix r → state r' = state r → pending r' = None →
    (∀ f, first_refusal r = Some f → first_refusal r' = Some f) →
    prepared d line r (Err e, r')
| prepared_planned r' p :
    certify_record (limits r) {| c_session := session_id r; c_uuids := seen_uuids r; c_state := state r; c_count := prefix r |} d line =
      admitted_with p r' →
    (∃ session record, session_id r' = Some session ∧
       admissible (limits r) d line (state r') (prefix r') session record (semantic_plan p)) →
    identity r' = identity r → limits r' = limits r → prefix r' = prefix r → state r' = state r → first_refusal r = None →
    first_refusal r' = None → records_seen r' = records_seen r + 1 → plan_prefix p = prefix r + 1 →
    pending r' = Some {| sequence := records_seen r'; document := d; pending_plan := p |} →
    prepared d line r (Ok {| owner := identity r'; token_sequence := Some (records_seen r') |}, r').

Lemma latch_fault_frame f r :
  identity (latch_fault f r) = identity r ∧ limits (latch_fault f r) = limits r ∧ prefix (latch_fault f r) = prefix r ∧
  state (latch_fault f r) = state r ∧ pending (latch_fault f r) = pending r ∧
  (∀ e, first_refusal r = Some e → first_refusal (latch_fault f r) = Some e).
Proof.
  destruct f as [e| |]; simpl; [|by split_and!..]. destruct (latch_frame e r) as (? & ? & ? & ? & ?). split_and!; try done.
  intros e' He. by rewrite latch_refused, He.
Qed.

Lemma bind_identity_ok object line r r' :
  bind_identity object line r = (Ok tt, r') →
  ∃ uuid session, text object "uuid" line = Ok uuid ∧ text object "session_id" line = Ok session ∧
    (if records_seen r =? 1 then validate_stream_start object line else Ok tt) = Ok tt ∧
    (if records_seen r =? 1 then Some session else session_id r) = Some session ∧ uuid ∉ seen_uuids r ∧
    session_id r' = Some session ∧ seen_uuids r' = {[ uuid ]} ∪ seen_uuids r.
Proof.
  unfold bind_identity. destruct (text object "uuid" line) as [uuid|] eqn:Hu; [|done]. cbn [mbind result_bind].
  destruct (text object "session_id" line) as [session|] eqn:Hs; [|done]. cbn [mbind result_bind].
  destruct (if records_seen r =? 1 then _ else _) as [[]|] eqn:Hstart; [|done]. cbv zeta. intros Hb. exists uuid, session.
  destruct (records_seen r =? 1); simpl in Hb.
  - case_bool_decide; [done|]. destruct (decide _); [done|]. injection Hb as <-. by split_and!.
  - destruct (session_id r) as [expected|] eqn:He; [|done]. destruct (bool_decide (expected ≠ session)) eqn:Hd; [done|].
    apply bool_decide_eq_false, dec_stable in Hd as ->. destruct (decide _); [done|]. injection Hb as <-. by split_and!.
Qed.

Lemma prepare_spec d line r :
  pending r = None → (first_refusal r = None → records_seen r = prefix r ∧ 0 <= prefix r) → prepared d line r (prepare d line r).
Proof.
  intros Hp Hcount. unfold prepare. rewrite Hp. destruct (add (records_seen r) 1 "event count") as [records|e] eqn:Hadd.
  2: by constructor.
  assert (Hrec : records = records_seen r + 1).
  { unfold add in Hadd. by apply ok_or_ok, checked_add_Some in Hadd as [-> _]. }
  cbv zeta. set (r1 := set_records records r). pose proof (bind_identity_framed (root d) line r1) as Hf2.
  destruct (bind_identity (root d) line r1) as [[[]|e] r2] eqn:Hb; simpl in Hf2.
  2: { pose proof (framed_trans _ _ _ Hf2 (count_unaccounted_framed r2)) as Hf3. destruct (count_unaccounted r2) as [[[]|e3] r3]; simpl in Hf3.
       - destruct (latch_fault_frame e r3) as (? & ? & ? & ? & ? & Hl). destruct Hf3 as [? ? ? ? Hr ? ?].
         constructor; try (simpl in *; congruence). intros f Hf. apply Hl. by rewrite Hr.
       - destruct Hf3. constructor; simpl in *; congruence. }
  apply bind_identity_ok in Hb as (uuid & session & Hu & Hs & Hstart & Hsame & Hnew & Hs2 & Hu2).
  destruct (decode_and_observe_decoded (root d) line r2) as (Hdec & Hs3 & Hu3).
  pose proof (framed_trans _ _ _ Hf2 (decode_and_observe_framed (root d) line r2)) as Hf3.
  destruct (decode_and_observe (root d) line r2) as [[decoded counted] r3]. simpl in Hdec, Hf3, Hs3, Hu3.
  pose proof (framed_limits _ _ Hf2) as Hlim2. destruct Hf3 as [Hi3 Hl3 Hp3 Hst3 Hr3 Hpe3 Hn3]. simpl in *.
  assert (Hstop : ∀ e, prepared d line r (Err e, r3)).
  { intros e. constructor; congruence. }
  destruct counted as [[]|e]; [|apply Hstop]. rewrite Hr3. destruct (first_refusal r) as [e|] eqn:Hrefused; [apply Hstop|].
  destruct (decoded ≫= _) as [p|e] eqn:Hplan.
  2: { destruct (latch_fault_frame e r3) as (? & ? & ? & ? & ? & Hl). constructor; congruence. }
  apply bind_ok_inv in Hplan as (record & -> & Hplan). unfold plan in Hplan.
  apply bind_ok_inv in Hplan as (q & Hq & Hplan). apply bind_ok_inv in Hplan as (n & Hn & [= <-]).
  destruct (Hcount eq_refl) as [Hcp Hnn]. rewrite Hs3, Hs2, Hst3, Hp3 in Hq. rewrite Hp3 in Hn.
  assert (Hnp : n = prefix r + 1) by (unfold add in Hn; by apply ok_or_ok, checked_add_Some in Hn as [-> _]).
  assert (Hfirst : (records =? 1) = (prefix r =? 0)).
  { rewrite Hrec, Hcp. destruct (Z.eqb_spec (prefix r + 1) 1), (Z.eqb_spec (prefix r) 0); lia || done. }
  set (planned := {| semantic_plan := q; plan_prefix := n |}).
  apply (prepared_planned d line r
    (set_pending_admission (Some {| sequence := records_seen r3; document := d; pending_plan := planned |}) r3) planned); simpl; try congruence.
  - unfold certify_record. cbn [c_session c_uuids c_state c_count]. rewrite Hu, Hs. cbn [mbind result_bind].
    rewrite <- Hfirst, Hstart. cbn [mbind result_bind]. rewrite Hsame, bool_decide_false by (intros E; by apply E).
    rewrite decide_False by done. rewrite Hlim2 in Hdec. simpl in Hdec. rewrite <- Hdec. cbn [mbind result_bind].
    rewrite Hq. cbn [mbind result_bind]. rewrite Hn. cbn [mbind result_bind]. unfold admitted_with. simpl.
    by rewrite Hs3, Hs2, Hu3, Hu2, Hst3.
  - exists session, record. split; [congruence|]. constructor; [done| |by rewrite <- Hlim2; symmetry|by rewrite Hst3, Hp3].
    rewrite Hp3, <- Z.eqb_eq, <- Hfirst. intros E. by rewrite E in Hstart.
Qed.

(** A call that refused left a refusal, and changed nothing that is certified. *)
Record refused_from (r r' : RuntimeContract) : Prop := {
  rf_identity : identity r' = identity r; rf_limits : limits r' = limits r; rf_prefix : prefix r' = prefix r;
  rf_state : state r' = state r; rf_some : first_refusal r' ≠ None;
  rf_first : ∀ f, first_refusal r = Some f → first_refusal r' = Some f;
}.

Lemma latch_refused_from e r x :
  identity x = identity r → limits x = limits r → prefix x = prefix r → state x = state r → first_refusal x = first_refusal r →
  refused_from r (latch e x).2.
Proof.
  intros Hi Hl Hp Hs Hf. destruct (latch_frame e x) as (? & ? & ? & ? & ?). constructor; try congruence.
  - by rewrite latch_refused.
  - intros f Hr. by rewrite latch_refused, Hf, Hr.
Qed.

Lemma latch_fault_refused_from f r x : refused_from r x → refused_from r (latch_fault f x).
Proof.
  intros [? ? ? ? Hsome Hfirst]. destruct (latch_fault_frame f x) as (? & ? & ? & ? & _ & Hl). constructor; try congruence.
  - destruct (first_refusal x) as [e|] eqn:E; [|done]. by rewrite (Hl e).
  - intros e He. by apply Hl, Hfirst.
Qed.

Lemma observe_gap_refused cause r : refused_from r (observe_gap cause r).2 ∧ pending (observe_gap cause r).2 = pending r.
Proof.
  unfold observe_gap. cbv zeta. destruct (_ ≫= _) as [[records unaccounted]|e]; cbn [snd].
  - split; [by apply latch_refused_from|]. by destruct (latch_frame cause (set_unaccounted unaccounted (set_records records r))) as (_ & _ & _ & _ & ->).
  - split; [by apply latch_fault_refused_from, latch_refused_from|].
    destruct (latch_fault_frame e (latch cause r).2) as (_ & _ & _ & _ & -> & _). by destruct (latch_frame cause r) as (_ & _ & _ & _ & ->).
Qed.

Lemma prepare_utf8_spec bytes line r res r' :
  pending r = None → (first_refusal r = None → records_seen r = prefix r ∧ 0 <= prefix r) →
  prepare_utf8 bytes line r = (res, r') → returns res →
  ((∃ e, res = Err e) ∧ refused_from r r' ∧ pending r' = None) ∨
  ∃ d, decode bytes (json_limits (limits r)) = Ok d ∧ (∃ t, res = Ok t) ∧ prepared d line r (res, r').
Proof.
  intros Hp Hcount Hprep Hret. unfold prepare_utf8 in Hprep. rewrite Hp in Hprep.
  destruct (decode bytes _) as [d|[cause|site|]]; [| |by injection Hprep as <- <-..].
  - pose proof (prepare_spec d line r Hp Hcount) as Hspec. destruct (prepare d line r) as [result r1]. injection Hprep as <- <-.
    destruct result as [t|e]; [right; exists d; split_and!; eauto|left].
    inversion Hspec as [e' r'' Hi Hl Hpr Hs Hpe Hf|]; subst. destruct (latch_fault_frame e r1) as (? & ? & ? & ? & Hpend & Hlatch).
    split_and!; [by eexists| |congruence]. constructor; try congruence.
    + destruct e as [e| |]; [|done..]. simpl. by rewrite latch_refused.
    + intros f Hff. apply Hlatch. by apply Hf.
  - destruct (observe_gap_refused (decode_failure cause line) r) as [Hrf Hpend].
    destruct (observe_gap _ r) as [[[]|e] r1]; injection Hprep as <- <-; left; (split_and!; [by eexists|done|simpl in *; congruence]).
Qed.

(** What holds of every reachable runtime. *)
Record certifies (b : RuntimeBindings) (l : RuntimeLimits) (operator : str) (offers : list Offer) (r : RuntimeContract) : Prop := {
  cert_limits : limits r = l;
  cert_prefix : ∃ n c, prefix r = Z.of_nat n ∧ (n <= length offers)%nat ∧ certify b l operator (take n offers) = Ok c ∧
    c_state c = state r ∧ c_count c = prefix r;
  cert_open : first_refusal r = None →
    records_seen r = Z.of_nat (length offers) ∧
    match pending r with
    | None => certify b l operator offers = Ok {| c_session := session_id r; c_uuids := seen_uuids r; c_state := state r; c_count := prefix r |} ∧
              prefix r = records_seen r
    | Some p => certify b l operator offers = admitted_with (pending_plan p) r ∧
                plan_prefix (pending_plan p) = records_seen r ∧ prefix r + 1 = records_seen r ∧ sequence p = records_seen r
    end;
}.

Lemma certify_snoc b l operator offers o c : certify b l operator offers = Ok c → certify b l operator (offers ++ [o]) = certify_step l c o.
Proof. intros Hc. unfold certify in *. rewrite fold_result_app, Hc. simpl. by destruct (certify_step l c o). Qed.

Lemma certifies_refused b l operator offers extra r r' :
  certifies b l operator offers r → refused_from r r' → certifies b l operator (offers ++ extra) r'.
Proof.
  intros [Hl (n & c & Hp & Hn & Hc & Hs & Hcount) _] [? ? ? ? Hsome ?]. constructor; [congruence| |done].
  exists n, c. split_and!; try congruence; [rewrite length_app; lia|by rewrite take_app_le].
Qed.

Lemma reaches_certifies id b l operator offers r : reaches id b l operator offers r → certifies b l operator offers r.
Proof.
  induction 1 as [|offers r bytes line result r' _ IH Hprep Hret|offers r cause result r' _ IH Hgap|
    offers r token result token' r' _ IH Hcommit Hret|offers r token cause result token' r' _ IH Hreject].
  - constructor; [done| |done]. by exists 0%nat, (nothing_certified b l operator).
  - pose proof IH as [Hl (n & c & Hp & Hn & Hc & Hs & Hcount) Hopen]. destruct (pending r) as [p|] eqn:Hpending.
    + unfold prepare_utf8 in Hprep. rewrite Hpending in Hprep. unfold latch in Hprep.
      assert (Hrf : refused_from r r').
      { destruct (first_refusal r) as [f|] eqn:Hf; injection Hprep as <- <-; constructor; simpl; congruence. }
      rewrite <- (app_nil_r offers). by eapply certifies_refused.
    + assert (Hpre : first_refusal r = None → records_seen r = prefix r ∧ 0 <= prefix r).
      { intros Hf. destruct (Hopen Hf) as (Hlen & _ & Hpseen). lia. }
      destruct (prepare_utf8_spec bytes line r result r' Hpending Hpre Hprep Hret) as [(_ & Hrf & _)|(d & Hd & (t & ->) & Hspec)].
      { by eapply certifies_refused. }
      inversion Hspec as [|r'' p Hrec Hadm Hi Hlim Hpr Hst Hf Hf' Hseen Hplan Hpend]; subst. destruct (Hopen Hf) as (Hlen & Hcert & Hpseen).
      constructor; [done| |].
      * exists n, c. split_and!; try congruence; [rewrite length_app; lia|by rewrite take_app_le].
      * intros _. rewrite length_app, Hpend. simpl. split; [lia|]. split_and!; [|simpl; lia|lia|done].
        rewrite (certify_snoc _ _ _ _ _ _ Hcert). simpl. rewrite Hd. cbn [map_refused mbind result_bind]. exact Hrec.
  - destruct (observe_gap_refused cause r) as [Hrf _]. rewrite Hgap in Hrf. by eapply certifies_refused.
  - unfold commit in Hcommit. destruct (check_token r token) as [p|e] eqn:Htoken; [|by injection Hcommit as <- <- <-].
    destruct (first_refusal r) as [e|] eqn:Hf; [by injection Hcommit as <- <- <-|].
    assert (Hpending : pending r = Some p).
    { by eapply check_token_pending. }
    destruct IH as [Hl _ Hopen]. destruct (Hopen Hf) as (Hlen & Hmatch). rewrite Hpending in Hmatch. destruct Hmatch as (Hcert & Hpp & Hpr & _).
    unfold admitted_with in Hcert. destruct (commit_plan _ _) as [s|[e| |]] eqn:Hs; cbn [mbind result_bind] in Hcert; [|by apply commit_refuses_nothing in Hs|by injection Hcommit as <- <- <-..].
    injection Hcommit as <- <- <-. constructor; simpl; [done| |].
    + exists (length offers), {| c_session := session_id r; c_uuids := seen_uuids r; c_state := s; c_count := plan_prefix (pending_plan p) |}.
      rewrite take_ge by lia. split_and!; try done. lia.
    + intros _. split_and!; [done|exact Hcert|done].
  - unfold reject_pending in Hreject. destruct (check_token r token) as [p|e] eqn:Htoken; [|by injection Hreject as <- <- <-].
    injection Hreject as <- <- <-. destruct (latch_frame cause (set_pending_admission None r)) as (? & ? & ? & ? & ?).
    rewrite <- (app_nil_r offers). eapply certifies_refused; [exact IH|].
    constructor; try done.
    + by rewrite latch_refused.
    + intros f Hff. rewrite latch_refused. simpl. by rewrite Hff.
Qed.

(** ** Induction over what a runtime's callers do

    An invariant of the semantic state that every admissible record's commit
    establishes holds in every reachable runtime; and there every plan that is
    pending commits. *)
Definition keeps (l : RuntimeLimits) (I : semantics → Z → Prop) : Prop :=
  ∀ bytes d line s n session record p, I s n → 0 <= n → decode bytes (json_limits l) = Ok d →
    admissible l d line s n session record p → ∃ s', commit_plan p s = Ok s' ∧ I s' (n + 1).

Definition pending_planned (l : RuntimeLimits) (r : RuntimeContract) : Prop :=
  ∀ p, pending r = Some p → plan_prefix (pending_plan p) = prefix r + 1 ∧
    ∃ bytes d line session record, decode bytes (json_limits l) = Ok d ∧
      admissible l d line (state r) (prefix r) session record (semantic_plan (pending_plan p)).

Lemma pending_planned_same l r r' :
  pending_planned l r → state r' = state r → prefix r' = prefix r → pending r' = None ∨ pending r' = pending r → pending_planned l r'.
Proof. intros Hr Hs Hp Hpend p Hp'. destruct Hpend as [E|E]; [congruence|]. rewrite Hs, Hp. apply Hr. congruence. Qed.

Lemma reaches_invariant id b l operator offers r (I : semantics → Z → Prop) :
  I (initial_semantics b l operator) 0 → keeps l I → reaches id b l operator offers r →
  I (state r) (prefix r) ∧ 0 <= prefix r ∧ pending_planned l r.
Proof.
  intros Hinit Hkeep Hr. induction Hr as [|offers r bytes line result r' Hr IH Hprep Hret|offers r cause result r' Hr IH Hgap|
    offers r token result token' r' Hr IH Hcommit Hret|offers r token cause result token' r' Hr IH Hreject].
  - split_and!; [done|done|]. by intros p.
  - destruct IH as (HI & Hn & Hpend). pose proof (reaches_certifies _ _ _ _ _ _ Hr) as [Hl _ Hopen]. destruct (pending r) as [p|] eqn:Hp.
    + unfold prepare_utf8 in Hprep. rewrite Hp in Hprep.
      destruct (latch_frame (InvalidRecord (lit "admission is already pending reconciliation")) r) as (_ & _ & Hpr & Hst & Hpe).
      destruct (latch _ r) as [e r1]. injection Hprep as <- <-. simpl in *. rewrite Hst, Hpr. split_and!; [done..|].
      apply (pending_planned_same l r); auto.
    + assert (Hpre : first_refusal r = None → records_seen r = prefix r ∧ 0 <= prefix r).
      { intros Hf. destruct (Hopen Hf) as (_ & _ & Hseen). lia. }
      destruct (prepare_utf8_spec bytes line r result r' Hp Hpre Hprep Hret) as [(_ & [_ _ Hpr Hst _ _] & Hpe)|(d & Hd & (t & ->) & Hspec)].
      { rewrite Hst, Hpr. split_and!; [done..|]. apply (pending_planned_same l r); auto. }
      inversion Hspec as [|r'' p Hrec Hadm Hi Hlim Hpr Hst Hf Hf' Hseen Hplan Hpe]; subst. destruct Hadm as (session & record & _ & Hadm).
      split_and!; [congruence|lia|]. intros q Hq. rewrite Hpe in Hq. injection Hq as <-. split; [simpl; lia|]. by exists bytes, d, line, session, record.
  - destruct IH as (HI & Hn & Hpend). destruct (observe_gap_refused cause r) as [[_ _ Hpr Hst _ _] Hpe]. rewrite Hgap in *. simpl in *.
    rewrite Hst, Hpr. split_and!; [done..|]. apply (pending_planned_same l r); auto.
  - destruct IH as (HI & Hn & Hpend). unfold commit in Hcommit.
    destruct (check_token r token) as [p|e] eqn:Htoken; [|by injection Hcommit as <- <- <-].
    destruct (first_refusal r); [by injection Hcommit as <- <- <-|]. apply check_token_pending in Htoken.
    destruct (Hpend p Htoken) as (Hpp & bytes & d & line & session & record & Hd & Hadm).
    destruct (Hkeep _ _ _ _ _ _ _ _ HI Hn Hd Hadm) as (s' & Hs' & HI'). rewrite Hs' in Hcommit. injection Hcommit as <- <- <-. simpl.
    rewrite Hpp. split_and!; [done|lia|]. by intros q.
  - destruct IH as (HI & Hn & Hpend). unfold reject_pending in Hreject. destruct (check_token r token); injection Hreject as <- <- <-; [|done].
    destruct (latch_frame cause (set_pending_admission None r)) as (_ & _ & Hpr & Hst & Hpe). rewrite Hst, Hpr. simpl in *.
    split_and!; [done..|]. apply (pending_planned_same l r); auto.
Qed.

(** A call to commit returns. *)
Lemma commit_returns id b l operator offers r token (I : semantics → Z → Prop) :
  I (initial_semantics b l operator) 0 → keeps l I → reaches id b l operator offers r → returns (commit token r).1.1.
Proof.
  intros Hinit Hkeep Hr. destruct (reaches_invariant _ _ _ _ _ _ I Hinit Hkeep Hr) as (HI & Hn & Hpend). unfold commit.
  pose proof (check_token_returns r token) as Hret. destruct (check_token r token) as [p|e] eqn:Htoken; [|done].
  destruct (first_refusal r); [done|]. apply check_token_pending in Htoken.
  destruct (Hpend p Htoken) as (_ & bytes & d & line & session & record & Hd & Hadm).
  destruct (Hkeep _ _ _ _ _ _ _ _ HI Hn Hd Hadm) as (s' & -> & _). done.
Qed.

(** One step of the reference pass. *)
Lemma certify_step_ok l c o c' :
  certify_step l c o = Ok c' →
  ∃ bytes line d session record p, o = OfferedRecord bytes line ∧ decode bytes (json_limits l) = Ok d ∧
    admissible l d line (c_state c) (c_count c) session record p ∧ commit_plan p (c_state c) = Ok (c_state c') ∧
    c_count c' = c_count c + 1 ∧ c_session c' = Some session.
Proof.
  intros Hc. destruct o as [bytes line|cause]; [|done]. apply bind_ok_inv in Hc as (d & Hd & Hc). apply map_refused_ok in Hd. unfold certify_record in Hc.
  apply bind_ok_inv in Hc as (uuid & _ & Hc). apply bind_ok_inv in Hc as (session & Hs & Hc). apply bind_ok_inv in Hc as ([] & Hstart & Hc).
  destruct (bool_decide _); [done|]. destruct (decide _); [done|]. apply bind_ok_inv in Hc as (record & Hdec & Hc).
  apply bind_ok_inv in Hc as (p & Hp & Hc). apply bind_ok_inv in Hc as (m & Hadd & Hc). apply bind_ok_inv in Hc as (s & Hcommit & [= <-]).
  unfold add in Hadd. apply ok_or_ok, checked_add_Some in Hadd as [-> _]. exists bytes, line, d, session, record, p. split_and!; try done.
  constructor; try done. intros E. by rewrite E in Hstart.
Qed.

(** A runtime that certified a record knows its session. *)
Lemma certify_session b l operator offers c : certify b l operator offers = Ok c → 0 <= c_count c ∧ (c_count c ≠ 0 → c_session c ≠ None).
Proof.
  unfold certify. apply (fold_result_inv (fun c => 0 <= c_count c ∧ (c_count c ≠ 0 → c_session c ≠ None))); [|done].
  intros c1 o c2 _ [Hpos _] (? & ? & ? & session & ? & ? & _ & _ & _ & _ & -> & ->)%certify_step_ok. split; [lia|done].
Qed.

Lemma certify_invariant b l operator offers c (I : semantics → Z → Prop) :
  I (initial_semantics b l operator) 0 → keeps l I → certify b l operator offers = Ok c → I (c_state c) (c_count c) ∧ 0 <= c_count c.
Proof.
  intros Hinit Hkeep. unfold certify. apply (fold_result_inv (fun c => I (c_state c) (c_count c) ∧ 0 <= c_count c)); [|done].
  intros c1 o c2 _ [HI Hpos] (bytes & line & d & session & record & p & _ & Hd & Hadm & Hcommit & Hcount & _)%certify_step_ok.
  destruct (Hkeep _ _ _ _ _ _ _ _ HI Hpos Hd Hadm) as (s' & Hs' & HI'). rewrite Hs' in Hcommit. injection Hcommit as <-. rewrite Hcount. split; [done|lia].
Qed.

(** The last offer of a pass, and the pass before it. *)
Lemma certify_last b l operator offers c : certify b l operator offers = Ok c → c_count c ≠ 0 →
  ∃ before o c0, offers = before ++ [o] ∧ certify b l operator before = Ok c0 ∧ certify_step l c0 o = Ok c.
Proof.
  intros Hc Hn. destruct offers as [|o before _] using rev_ind; [by injection Hc as <-|].
  unfold certify in Hc. rewrite fold_result_app in Hc. apply bind_ok_inv in Hc as (c0 & Hc0 & Hc). exists before, o, c0. split_and!; [done..|].
  simpl in Hc. by destruct (certify_step l c0 o); [injection Hc as ->|].
Qed.

(** ** Observation *)

(** What observation keeps. *)
Record Observer := { o_session : option str; o_uuids : gset str; o_records : Z; o_observed : Observed }.
Definition new_observer : Observer := {| o_session := None; o_uuids := ∅; o_records := 0; o_observed := default_observed |}.
Definition observer_of (r : RuntimeContract) : Observer :=
  {| o_session := session_id r; o_uuids := seen_uuids r; o_records := records_seen r; o_observed := observed r |}.

Definition unaccounted_for (o : Observed) : option Observed :=
  n ← checked_add (observed_unaccounted_records (observations o)) 1;
  Some {| observations := with_unaccounted n (observations o); observed_journal := observed_journal o;
          observed_requests := observed_requests o; observed_utility_requests := observed_utility_requests o;
          observed_scopes := observed_scopes o |}.
Definition with_observed (o : Observer) (seen : option Observed) : Observer :=
  match seen with
  | Some seen => {| o_session := o_session o; o_uuids := o_uuids o; o_records := o_records o; o_observed := seen |}
  | None => o
  end.
Definition observe_unknown (o : Observer) : Observer := with_observed o (unaccounted_for (o_observed o)).

Definition observe_missing (o : Observer) : Observer :=
  match checked_add (o_records o) 1, unaccounted_for (o_observed o) with
  | Some n, Some seen => {| o_session := o_session o; o_uuids := o_uuids o; o_records := n; o_observed := seen |}
  | _, _ => o
  end.

(** Whether the record's owner is known, and what is known after it. *)
Definition observe_identity (o : Observer) (object : Value) (line : Z) : bool * Observer :=
  match text object "uuid" line, text object "session_id" line with
  | Ok uuid, Ok session =>
      if (o_records o =? 1) && negb (is_ok (validate_stream_start object line)) then (false, o)
      else
        let known := if o_records o =? 1 then Some session else o_session o in
        let o := {| o_session := known; o_uuids := o_uuids o; o_records := o_records o; o_observed := o_observed o |} in
        if decide (known ≠ Some session ∨ uuid ∈ o_uuids o) then (false, o)
        else (true, {| o_session := known; o_uuids := {[ uuid ]} ∪ o_uuids o; o_records := o_records o; o_observed := o_observed o |})
  | _, _ => (false, o)
  end.

Definition observe_content (l : RuntimeLimits) (o : Observer) (object : Value) (line : Z) : Observer :=
  match decode_record object (schema_limits l) line, observe (o_observed o) object line with
  | Ok _, Ok seen => with_observed o (Some seen)
  | _, _ => observe_unknown o
  end.

(** One record, on what is known of identities alone. *)
Definition observe_document (l : RuntimeLimits) (o : Observer) (d : Document) (line : Z) : Observer :=
  match checked_add (o_records o) 1 with
  | None => o
  | Some n =>
      let o := {| o_session := o_session o; o_uuids := o_uuids o; o_records := n; o_observed := o_observed o |} in
      let '(bound, o) := observe_identity o (root d) line in
      if bound then observe_content l o (root d) line else observe_unknown o
  end.

Definition observe_offer (l : RuntimeLimits) (o : Observer) (offer : Offer) : Observer :=
  match offer with
  | OfferedGap _ => observe_missing o
  | OfferedRecord bytes line =>
      match decode bytes (json_limits l) with
      | Ok d => observe_document l o d line
      | Err _ => observe_missing o
      end
  end.

Lemma count_unaccounted_observer r : observer_of (count_unaccounted r).2 = observe_unknown (observer_of r).
Proof.
  unfold count_unaccounted, observe_unknown, unaccounted_for, add, ok_or. simpl.
  by destruct (checked_add (observed_unaccounted_records (observations (observed r))) 1).
Qed.

Lemma latch_observer e r : observer_of (latch e r).2 = observer_of r.
Proof. unfold latch. by destruct (first_refusal r). Qed.
Lemma latch_fault_observer f r : observer_of (latch_fault f r) = observer_of r.
Proof. destruct f; [apply latch_observer|done..]. Qed.

Lemma observe_gap_observer cause r : observer_of (observe_gap cause r).2 = observe_missing (observer_of r).
Proof.
  unfold observe_gap, observe_missing, unaccounted_for, add, ok_or. cbv zeta. cbn [observer_of o_records o_observed].
  destruct (checked_add (records_seen r) 1); cbn [mbind result_bind option_bind];
    [destruct (checked_add (observed_unaccounted_records (observations (observed r))) 1); cbn [mbind result_bind option_bind]|];
    cbn [snd]; rewrite ?latch_fault_observer, latch_observer; reflexivity.
Qed.

Lemma finish_observer line (decoded : contract DecodedRecord) (counted : contract unit) r d :
  observer_of (match counted with
    | Err overflow => (Err overflow, r)
    | Ok _ =>
        match first_refusal r with
        | Some e => (Err (Refused e), r)
        | None =>
            match (record ← decoded; plan record line r) with
            | Err e => (Err e, latch_fault e r)
            | Ok p =>
                (Ok {| owner := identity r; token_sequence := Some (records_seen r) |},
                 set_pending_admission (Some {| sequence := records_seen r; document := d; pending_plan := p |}) r)
            end
        end
    end : call AdmissionToken).2 = observer_of r.
Proof.
  destruct counted; [|done]. destruct (first_refusal r); [done|]. destruct (decoded ≫= _); [done|]. apply latch_fault_observer.
Qed.

Lemma bind_identity_observer object line r :
  (is_ok (bind_identity object line r).1, observer_of (bind_identity object line r).2) = observe_identity (observer_of r) object line.
Proof.
  unfold bind_identity, observe_identity. destruct (text object "uuid" line) as [uuid|e]; [|done]. cbn [mbind result_bind].
  destruct (text object "session_id" line) as [session|e]; [|done]. cbn [mbind result_bind observer_of o_records].
  destruct r as [id b l known uuids seen n pre refusal st pend]. cbn [records_seen]. destruct (n =? 1); cbn [andb].
  - destruct (validate_stream_start object line) as [u|e]; [|done].
    cbn [is_ok negb set_identity observer_of session_id seen_uuids o_session o_uuids o_records o_observed records_seen observed].
    rewrite bool_decide_false by (intros E; by apply E).
    destruct (decide (uuid ∈ uuids)); [rewrite decide_True by (by right)|rewrite decide_False by (by intros [E|?]; [apply E|])]; done.
  - cbn [is_ok negb set_identity observer_of session_id seen_uuids o_session o_uuids o_records o_observed records_seen observed].
    destruct known as [expected|]; [|by rewrite decide_True by (by left)]. destruct (decide (expected = session)) as [->|Hne].
    + rewrite bool_decide_false by (intros E; by apply E).
      destruct (decide (uuid ∈ uuids)); [rewrite decide_True by (by right)|rewrite decide_False by (by intros [E|?]; [apply E|])]; done.
    + rewrite bool_decide_true by done. rewrite decide_True by (left; congruence). done.
Qed.

Lemma decode_and_observe_observer object line r :
  observer_of (decode_and_observe object line r).2 = observe_content (limits r) (observer_of r) object line.
Proof.
  unfold decode_and_observe, observe_content. simpl o_observed. pose proof (count_unaccounted_observer r) as Hc.
  destruct (decode_record _ _ _); cbv zeta; [destruct (observe _ _ _); [done|]|]; by destruct (count_unaccounted r).
Qed.

Lemma prepare_observer d line r :
  pending r = None → observer_of (prepare d line r).2 = observe_document (limits r) (observer_of r) d line.
Proof.
  intros Hp. unfold prepare, observe_document. rewrite Hp. cbn [observer_of o_records o_session o_uuids o_observed].
  unfold add at 1. destruct (checked_add (records_seen r) 1) as [n|]; [|done]. cbn [ok_or]. cbv zeta.
  pose proof (bind_identity_observer (root d) line (set_records n r)) as Hb.
  pose proof (bind_identity_framed (root d) line (set_records n r)) as Hf.
  change {| o_session := session_id r; o_uuids := seen_uuids r; o_records := n; o_observed := observed r |} with (observer_of (set_records n r)).
  rewrite <- Hb. destruct (bind_identity (root d) line (set_records n r)) as [[u|e] r1]; cbn [fst snd is_ok]; cbn [fst snd] in Hf.
  - rewrite <- (framed_limits _ _ Hf : limits r1 = limits r), <- decode_and_observe_observer.
    destruct (decode_and_observe (root d) line r1) as [[decoded counted] r2]. apply finish_observer.
  - rewrite <- count_unaccounted_observer. destruct (count_unaccounted r1) as [[[]|f] y]; [apply latch_fault_observer|done].
Qed.

Lemma prepare_utf8_observer bytes line r res r' :
  pending r = None → prepare_utf8 bytes line r = (res, r') → returns res →
  observer_of r' = observe_offer (limits r) (observer_of r) (OfferedRecord bytes line).
Proof.
  intros Hp Hprep Hret. unfold prepare_utf8 in Hprep. rewrite Hp in Hprep. simpl.
  destruct (decode bytes _) as [d|[cause|site|]]; [| |by injection Hprep as <- <-..].
  - rewrite <- (prepare_observer d line r Hp). destruct (prepare d line r) as [result r1]. injection Hprep as <- <-.
    destruct result; [done|apply latch_fault_observer].
  - rewrite <- (observe_gap_observer (decode_failure cause line)). destruct (observe_gap _ r) as [[[]|e] r1]; by injection Hprep as <- <-.
Qed.

Lemma reaches_observer id b l operator offers r :
  reaches id b l operator offers r → observer_of r = fold_left (observe_offer l) offers new_observer.
Proof.
  intros Hr. induction Hr as [|offers r bytes line result r' Hr IH Hprep Hret|offers r cause result r' Hr IH Hgap|
    offers r token result token' r' Hr IH Hcommit Hret|offers r token cause result token' r' Hr IH Hreject].
  - done.
  - pose proof (cert_limits _ _ _ _ _ (reaches_certifies _ _ _ _ _ _ Hr)) as Hl. destruct (pending r) as [p|] eqn:Hp.
    + unfold prepare_utf8 in Hprep. rewrite Hp in Hprep. rewrite <- IH.
      pose proof (latch_observer (InvalidRecord (lit "admission is already pending reconciliation")) r) as Hlo.
      destruct (latch _ r) as [e r1]. by injection Hprep as <- <-.
    + rewrite fold_left_app. simpl fold_left at 1. rewrite <- IH, <- Hl. by eapply prepare_utf8_observer.
  - rewrite fold_left_app. simpl fold_left at 1. rewrite <- IH. simpl. rewrite <- (observe_gap_observer cause). by rewrite Hgap.
  - rewrite <- IH. unfold commit in Hcommit. destruct (check_token r token); [|by injection Hcommit as <- <- <-].
    destruct (first_refusal r); [by injection Hcommit as <- <- <-|]. destruct (commit_plan _ _); by injection Hcommit as <- <- <-.
  - rewrite <- IH. unfold reject_pending in Hreject. destruct (check_token r token); injection Hreject as <- <- <-; [|done].
    by rewrite latch_observer.
Qed.
End Certification.

(** ** After a refusal *)
Section Refusal.
Context `{BigIntOps} `{Planner}.

(** One call on a runtime, whatever comes of it. *)
Inductive called (r : RuntimeContract) : RuntimeContract → Prop :=
| called_prepare bytes line : called r (prepare_utf8 bytes line r).2
| called_gap cause : called r (observe_gap cause r).2
| called_commit token : called r (commit token r).2
| called_reject token cause : called r (reject_pending token cause r).2.

(** What no call changes once a refusal is latched. *)
Record frozen (e : ContractError) (r r' : RuntimeContract) : Prop := {
  frozen_refusal : first_refusal r' = Some e; frozen_prefix : prefix r' = prefix r; frozen_state : state r' = state r;
  frozen_pending : pending r' = None ∨ pending r' = pending r;
}.

Lemma latch_fault_kept f e r : first_refusal r = Some e → latch_fault f r = r.
Proof. intros He. destruct f; simpl; [|done..]. unfold latch. by rewrite He. Qed.
Lemma latch_kept x e r : first_refusal r = Some e → latch x r = (e, r).
Proof. intros He. unfold latch. by rewrite He. Qed.

Lemma prepare_frozen d line r e :
  pending r = None → first_refusal r = Some e → frozen e r (prepare d line r).2 ∧ (∀ t, (prepare d line r).1 ≠ Ok t).
Proof.
  intros Hp He. unfold prepare. rewrite Hp. destruct (add _ _ _) as [n|]; [|split; [by split; auto|done]]. cbv zeta.
  pose proof (bind_identity_framed (root d) line (set_records n r)) as Hb. destruct (bind_identity _ _ _) as [[u|f] r1]; cbn [snd] in Hb.
  - pose proof (decode_and_observe_framed (root d) line r1) as Ho. destruct (decode_and_observe _ _ r1) as [[decoded counted] r2]; cbn [snd] in Ho.
    pose proof (framed_trans _ _ _ Hb Ho) as [_ _ Hpr Hst Hf Hpe _]. simpl in *.
    destruct counted; [|split; [constructor; simpl; try congruence; left; congruence|done]].
    rewrite Hf, He. split; [constructor; simpl; try congruence; left; congruence|done].
  - pose proof (count_unaccounted_framed r1) as Hc. destruct (count_unaccounted r1) as [[[]|g] r2]; cbn [snd] in Hc;
      pose proof (framed_trans _ _ _ Hb Hc) as [_ _ Hpr Hst Hf Hpe _]; simpl in *.
    + rewrite (latch_fault_kept f e) by congruence. split; [constructor; simpl; try congruence; left; congruence|done].
    + split; [constructor; simpl; try congruence; left; congruence|done].
Qed.

Lemma prepare_utf8_frozen bytes line r e :
  first_refusal r = Some e → frozen e r (prepare_utf8 bytes line r).2 ∧ (∀ t, (prepare_utf8 bytes line r).1 ≠ Ok t).
Proof.
  intros He. unfold prepare_utf8. destruct (pending r) as [p|] eqn:Hp.
  { rewrite (latch_kept _ e) by done. split; [by split; auto|done]. }
  destruct (decode bytes _) as [d|[cause|site|]]; [| |split; [by split; auto|done]..].
  - pose proof (prepare_frozen d line r e Hp He) as [Hf Hno]. destruct (prepare d line r) as [[t|f] r1]; [by destruct (Hno t)|].
    simpl in *. rewrite (latch_fault_kept f e) by apply Hf. done.
  - destruct (observe_gap_refused (decode_failure cause line) r) as [[_ _ Hpr Hst _ Hfirst] Hpe].
    destruct (observe_gap _ r) as [[[]|f] r1]; simpl in *; (split; [constructor; simpl; try done; [by apply Hfirst|left; congruence]|done]).
Qed.

Lemma called_frozen e r r' : first_refusal r = Some e → called r r' → frozen e r r'.
Proof.
  intros He Hcalled. destruct Hcalled as [bytes line|cause|token|token cause].
  - by apply prepare_utf8_frozen.
  - destruct (observe_gap_refused cause r) as [[_ _ Hpr Hst _ Hfirst] Hpe]. constructor; auto.
  - unfold commit. destruct (check_token r token); [|by split; auto]. rewrite He. by split; auto.
  - unfold reject_pending. destruct (check_token r token); [|by split; auto]. rewrite (latch_kept _ e) by done. by split; auto.
Qed.

Lemma calls_frozen e r r' : first_refusal r = Some e → rtc called r r' → frozen e r r'.
Proof.
  intros He Hr. induction Hr as [r|r r1 r' Hstep _ IH]; [by split; auto|].
  pose proof (called_frozen e r r1 He Hstep) as [He1 Hpr1 Hst1 Hp1]. destruct (IH He1) as [He2 Hpr2 Hst2 Hp2].
  constructor; [done|congruence..|]. destruct Hp2 as [?| ->]; [by left|done].
Qed.
End Refusal.

(** ** Properties *)

(** C22: a runtime certifies exactly what one pass over the records certifies.
    In every state that its callers can bring it to, the certified prefix is a
    number of the records offered, that many records are admitted one after the
    other by the reference pass, and what the commits made of the semantic state
    is what that pass makes of it.  While nothing was refused, every offer has
    been seen, and all of them but the one that is pending are certified. *)
Theorem certified_prefix `{BigIntOps} `{Planner} (id : nat) (b : RuntimeBindings) (l : RuntimeLimits)
    (operator : str) (offers : list Offer) (r : RuntimeContract) :
  reaches id b l operator offers r →
  ∃ n c, certified_prefix_records (snapshot r) = Z.of_nat n ∧ (n <= length offers)%nat ∧
    certify b l operator (take n offers) = Ok c ∧ c_state c = state r ∧
    (snapshot_refusal (snapshot r) = None →
      snapshot_records (snapshot r) = Z.of_nat (length offers) ∧
      (n + (if pending_admission (snapshot r) then 1 else 0))%nat = length offers).
Proof.
  intros Hr%reaches_certifies. destruct Hr as [_ (n & c & Hp & Hn & Hc & Hs & _) Hopen].
  exists n, c. split_and!; try done. simpl. intros Hf. destruct (Hopen Hf) as [Hlen Hm]. split; [done|].
  destruct (pending r); [destruct Hm as (_ & _ & Hm & _)|destruct Hm as [_ Hm]]; lia.
Qed.

(** The first refusal is final.  Whatever is called afterwards, in any
    order and with any tokens, the same refusal is reported, the certified
    prefix and the semantic state stay, no record is prepared for admission and
    no admission commits. *)
Theorem refusal_final `{BigIntOps} `{Planner} (e : ContractError) (r r' : RuntimeContract) :
  first_refusal r = Some e → rtc called r r' →
  snapshot_refusal (snapshot r') = Some e ∧
  certified_prefix_records (snapshot r') = certified_prefix_records (snapshot r) ∧ state r' = state r ∧
  (∀ bytes line token, (prepare_utf8 bytes line r').1 ≠ Ok token) ∧
  (∀ token, ∃ cause, (commit token r').1.1 = Err (Refused cause)).
Proof.
  intros He Hcalls. destruct (calls_frozen e r r' He Hcalls) as [He' Hp Hs _]. split_and!; [done..| |].
  - intros bytes line. by apply (prepare_utf8_frozen bytes line r' e).
  - intros token. unfold commit. destruct (check_token r' token) as [p|f] eqn:Ht; [rewrite He'; by exists e|].
    unfold check_token in Ht. destruct (token_sequence token); [destruct (pending r'); [destruct (_ && _); [done|]|]|];
      injection Ht as <-; by eexists.
Qed.

(** Observation does not depend on admission.  What a runtime has observed
    -- the owner of the stream, the identities seen, the number of records, and
    the physical requests, scopes and gaps -- is one fold over what was offered
    to it; neither the semantic planner nor what the callers committed or
    rejected has a part in it. *)
Theorem observation_independent `{BigIntOps} `{Planner} (id : nat) (b : RuntimeBindings) (l : RuntimeLimits)
    (operator : str) (offers : list Offer) (r : RuntimeContract) :
  reaches id b l operator offers r →
  observer_of r = fold_left (observe_offer l) offers new_observer.
Proof. apply reaches_observer. Qed.

Lemma observe_offer_accounted `{BigIntLaws} `{StreamContract} l o offer f :
  0 <= limit_nodes (json_limits l) → 0 <= limit_depth (json_limits l) →
  accounted (o_observed o) f → ∃ f', accounted (o_observed (observe_offer l o offer)) f'.
Proof.
  intros Hn Hd Hacc.
  assert (Hunknown : ∀ o', o_observed o' = o_observed o → ∃ f', accounted (o_observed (observe_unknown o')) f').
  { intros o' Ho. exists f. unfold observe_unknown, unaccounted_for. rewrite Ho. destruct (checked_add _ _); simpl; [|by rewrite Ho].
    by eapply (accounted_ext (o_observed o) f). }
  assert (Hmissing : ∃ f', accounted (o_observed (observe_missing o)) f').
  { exists f. unfold observe_missing, unaccounted_for. destruct (checked_add (o_records o) 1); [|done].
    destruct (checked_add _ _); simpl; [|done]. by eapply (accounted_ext (o_observed o) f). }
  destruct offer as [bytes line|cause]; [|done]. simpl. destruct (decode bytes _) as [d|] eqn:Hdec; [|done].
  unfold observe_document. destruct (checked_add _ _) as [k|]; [|by exists f]. cbv zeta.
  destruct (observe_identity _ _ _) as [bound o1] eqn:Hid.
  assert (Ho1 : o_observed o1 = o_observed o).
  { unfold observe_identity in Hid. destruct (text _ _ _); [|by injection Hid as <- <-]. destruct (text _ _ _); [|by injection Hid as <- <-].
    destruct (_ && _); [by injection Hid as <- <-|]. cbv zeta in Hid. destruct (decide _); by injection Hid as <- <-. }
  destruct bound; [|by apply Hunknown]. unfold observe_content. destruct (decode_record _ _ _); [|by apply Hunknown].
  destruct (observe _ _ _) as [seen|] eqn:Hob; [|by apply Hunknown]. simpl. rewrite Ho1 in Hob.
  eapply observe_accounted; [|exact Hacc|exact Hob]. exact (decoded_in_arena _ _ _ Hn Hd Hdec).
Qed.

Lemma observe_offers_accounted `{BigIntLaws} `{StreamContract} l offers o f :
  0 <= limit_nodes (json_limits l) → 0 <= limit_depth (json_limits l) →
  accounted (o_observed o) f → ∃ f', accounted (o_observed (fold_left (observe_offer l) offers o)) f'.
Proof.
  intros Hn Hd. revert o f. induction offers as [|offer offers IH]; intros o f Hacc; [by exists f|]. simpl.
  destruct (observe_offer_accounted l o offer f Hn Hd Hacc) as [f' Hf']. by apply (IH _ f').
Qed.

Lemma default_accounted : accounted default_observed ∅.
Proof. by constructor. Qed.

(** The usage a runtime reports is the sum over the physical requests it
    observed.  For every sequence of calls, refused or not, there is an account
    of each observed request that is not a utility request -- still open, or
    settled with or without served usage -- such that a request is open exactly
    when no outcome was observed for it, and the reported usage is the summary
    of that account. *)
Theorem observed_usage_accounted `{BigIntOps} `{!BigIntLaws} `{Planner} (id : nat) (b : RuntimeBindings) (l : RuntimeLimits)
    (operator : str) (offers : list Offer) (r : RuntimeContract) :
  0 <= limit_nodes (json_limits l) → 0 <= limit_depth (json_limits l) → reaches id b l operator offers r →
  ∃ f : gmap str Request,
    dom f = dom (observed_requests (observed r)) ∖ observed_utility_requests (observed r) ∧
    (∀ request known, f !! request = Some known →
      (observed_requests (observed r) !! request = Some false ↔ known = Open)) ∧
    observed_usage (snapshot_observations (snapshot r)) = summarize (requests_of f).
Proof.
  intros Hn Hd Hr%reaches_observer.
  destruct (observe_offers_accounted l offers new_observer ∅ Hn Hd default_accounted) as [f Hf].
  rewrite <- Hr in Hf. destruct Hf as [Hk _ Ho _ Hs]. by exists f.
Qed.

(** ** A runtime that runs *)

(** A contract small enough to evaluate. *)
Definition admission_contract : StreamContract := {|
  NODES := [{| schema_path_of := lit "#"; rules := [] |}];
  entry_record := 0; entry_terminal_result := 0; entry_goal_snapshot := 0; entry_goal_checkpoint_evidence_bytes := 0;
  entry_model_generation_evidence := 0; entry_generation_envelope := 0;
  STREAM_CONTRACT_SHA256 := lit "contract";
  EventKind := nat; EventKind_eq_dec := _; kind_result := 1%nat; kind_stream_event := 2%nat;
  event_from_wire := fun s =>
    if decide (s = lit "system") then Some 0%nat else if decide (s = lit "result") then Some 1%nat
    else if decide (s = lit "model_request") then Some 3%nat else if decide (s = lit "model_response") then Some 4%nat else None;
  partial_from_wire := fun _ => None; TERMINAL_OUTCOMES := [];
|}.

(** A planner that counts what it admits, and refuses a terminal record. *)
Definition counting_planner : @Planner admission_contract := {|
  semantics := nat; admission_plan := nat; initial_semantics := fun _ _ _ => 0%nat;
  plan_record := fun _ _ _ record _ =>
    if decide (record_kind record = (1%nat : @EventKind admission_contract)) then invalid (lit "a terminal record") else Ok 1%nat;
  commit_plan := fun n s => Ok (n + s)%nat; commit_refuses_nothing := fun _ _ _ E => match E with end;
|}.

Local Existing Instance decimal_bigint.
Local Existing Instance admission_contract.
Local Existing Instance counting_planner.

Definition example_bindings : RuntimeBindings := {| manifest := decoded "{}" |}.
Definition example_limits : RuntimeLimits := {| json_limits := small_limits; schema_limits := {| operations := 50 |} |}.
Definition example_task : str := lit "do it".
Definition start_record : str :=
  quoted "{'uuid':'a','session_id':'s','type':'system','subtype':'stream_start','stream_contract_sha256':'contract','request_evidence_origin':{'journal_id':'j'}}".
Definition request_record : str :=
  quoted "{'uuid':'b','session_id':'s','type':'model_request','request':{'journal_id':'j','request_id':'q'}}".
Definition result_record : str := quoted "{'uuid':'c','session_id':'s','type':'result','num_turns':1}".

(** A runtime at each point of: prepare and commit the first record, prepare
    and commit the second, prepare the third, which the planner refuses. *)
Definition example_start : RuntimeContract := (prepare_utf8 start_record 1 (new_runtime 7 example_bindings example_limits example_task)).2.
Definition example_request : RuntimeContract := (prepare_utf8 request_record 2 (committed example_start)).2.
Definition example_result : RuntimeContract := (prepare_utf8 result_record 3 (committed example_request)).2.
Definition example_offers : list Offer := [OfferedRecord start_record 1; OfferedRecord request_record 2; OfferedRecord result_record 3].

Lemma example_reaches : reaches 7 example_bindings example_limits example_task example_offers example_result.
Proof.
  apply (reaches_prepared _ _ _ _ [OfferedRecord start_record 1; OfferedRecord request_record 2]); [|by vm_compute..].
  apply reaches_committed; [|by vm_compute]. apply (reaches_prepared _ _ _ _ [OfferedRecord start_record 1]); [|by vm_compute..].
  apply reaches_committed; [|by vm_compute]. apply (reaches_prepared _ _ _ _ []); [constructor|by vm_compute..].
Qed.

Lemma certified_prefix_witness :
  certified_prefix_records (snapshot example_result) = 2 ∧ state example_result = 2%nat ∧
  snapshot_refusal (snapshot example_result) = Some (InvalidRecord (lit "a terminal record")) ∧
  ∃ n c, certified_prefix_records (snapshot example_result) = Z.of_nat n ∧
    certify example_bindings example_limits example_task (take n example_offers) = Ok c ∧ c_state c = state example_result.
Proof.
  destruct (certified_prefix 7 example_bindings example_limits example_task example_offers example_result example_reaches)
    as (n & c & Hn & _ & Hc & Hs & _).
  split; [by vm_compute|]. split; [by vm_compute|]. split; [by vm_compute|]. exact (ex_intro _ n (ex_intro _ c (conj Hn (conj Hc Hs)))).
Defined.

Lemma refusal_final_witness :
  first_refusal example_result = Some (InvalidRecord (lit "a terminal record")) ∧
  snapshot_refusal (snapshot (prepare_utf8 start_record 4 example_result).2) = Some (InvalidRecord (lit "a terminal record")).
Proof.
  assert (He : first_refusal example_result = Some (InvalidRecord (lit "a terminal record"))) by (by vm_compute).
  split; [exact He|].
  exact (proj1 (refusal_final _ _ _ He (rtc_once _ _ (called_prepare example_result start_record 4)))).
Defined.

Lemma observation_independent_witness :
  observer_of example_result = fold_left (observe_offer example_limits) example_offers new_observer ∧
  o_records (observer_of example_result) = 3 ∧ num_turns (observations (o_observed (observer_of example_result))) = Some 1.
Proof.
  split; [exact (observation_independent 7 example_bindings example_limits example_task example_offers example_result example_reaches)|].
  split; by vm_compute.
Defined.

Lemma observed_usage_accounted_witness :
  observed_requests (observed example_result) !! lit "q" = Some false ∧
  ∃ f : gmap str Request, f !! lit "q" = Some Open ∧
    observed_usage (snapshot_observations (snapshot example_result)) = summarize (requests_of f).
Proof.
  assert (Hq : observed_requests (observed example_result) !! lit "q" = Some false) by (by vm_compute).
  split; [exact Hq|].
  destruct (@observed_usage_accounted decimal_bigint decimal_bigint_laws _ _ 7 example_bindings example_limits example_task example_offers example_result)
    as (f & Hdom & Hopen & Hs); [by vm_compute..|exact example_reaches|].
  exists f. split; [|exact Hs].
  assert (Hin : lit "q" ∈ dom f).
  { rewrite Hdom. apply elem_of_difference. split; [by apply elem_of_dom_2 in Hq|]. by vm_compute. }
  apply elem_of_dom in Hin as [known Hknown]. rewrite Hknown. f_equal. by apply (Hopen (lit "q") known Hknown).
Defined.
