(* ===== verification/Compaction.v ===== *)
(** * Compaction: what a compaction's record claims of its draws
      (src/protocol/engine/src/model_requests.rs, runtime.rs)

    A compaction replaces a conversation's history by the snapshot its last draw
    declared.  [check_compaction_draw] holds one draw of its record to the
    physical requests behind it: the values its streams decoded, what the last of
    them delivered, and the count of the snapshot it declared.
    [validate_compaction_event] holds the record to its own arithmetic and names
    the draws it claims and the one it commits. *)
From S2P Require Import Prelude Number Utf8 BTree Json JsonTree Schema Stream Usage Generation Authorship Sse Serde Turns Requests Utilities Admission.

(** What a compaction's draw claims of its physical request. *)
Inductive DrawKind := Answer | FaultDraw | Ended.
#[export] Instance DrawKind_eq_dec : EqDecision DrawKind.
Proof. solve_decision. Defined.

Definition one_of (s : str) (names : list string) : bool := existsb (fun name => bool_decide (s = lit name)) names.

Definition draw_kind (status : str) : DrawKind :=
  if one_of status ["COMPRESSED"; "COMPRESSION_FAILED_INFLATED_TOKEN_COUNT"; "COMPRESSION_FAILED_EMPTY_SUMMARY";
                    "COMPRESSION_FAILED_OUTPUT_TRUNCATED"; "COMPRESSION_FAILED_INSUFFICIENT_ROOM"; "COMPRESSION_FAILED_SUMMARY_OVER_BOUND"]%string
  then Answer
  else if one_of status ["COMPRESSION_FAILED_TRANSPORT_ERROR"]%string then FaultDraw
  else Ended.

(** Equality of finite doubles, and of an absent one with an absent one; [NaN] is
    not among serde_json's numbers. *)
Definition f64_same (a b : F64) : bool :=
  match a, b with
  | Finite m e, Finite n f => m * 2 ^ Z.max 0 (e - f) =? n * 2 ^ Z.max 0 (f - e)
  | _, _ => false
  end.

Section Draws.
Context `{BigIntOps} `{Sha256Ops} `{Serde} `{Base64}.

(** ** Equality past JavaScript's JSON.parse *)
Definition same_number (a b : number) : bool :=
  match number_f64 a, number_f64 b with
  | Some a, Some b => f64_same a b
  | None, None => true
  | _, _ => false
  end.

(** The members of two objects paired, by the left one's keys. *)
Fixpoint pair_members (left_ right_ : list (str * json)) : option (list (json * json)) :=
  match left_ with
  | [] => Some []
  | (key, value) :: left_ =>
      other ← find_member key right_;
      pairs ← pair_members left_ right_;
      Some ((value, other) :: pairs)
  end.

(** What one pair leaves to compare; [None] when it differs. *)
Definition compare_step (compared : json * json) : option (list (json * json)) :=
  match compared with
  | (JNull, JNull) => Some []
  | (JBool a, JBool b) => if Bool.eqb a b then Some [] else None
  | (JNumber a, JNumber b) => if same_number a b then Some [] else None
  | (JString a, JString b) => if bool_decide (a = b) then Some [] else None
  | (JArray a, JArray b) => if (length a =? length b)%nat then Some (zip a b) else None
  | (JObject a, JObject b) => if (length a =? length b)%nat then pair_members a b else None
  | _ => None
  end.

(** [while let Some((left, right)) = pending.pop()]: the head of the list is the
    top of the stack. *)
Fixpoint same_loop (fuel : nat) (pending : list (json * json)) : contract bool :=
  match pending with
  | [] => Ok true
  | compared :: pending =>
      match fuel with
      | O => Err OutOfFuel
      | S fuel => match compare_step compared with
                  | Some more => same_loop fuel (rev more ++ pending)
                  | None => Ok false
                  end
      end
  end.
Definition same_sdk_value (left_ right_ : json) : contract bool := same_loop (json_nodes left_) [(left_, right_)].

(** ** What a draw delivered *)
Definition decoded_usage (value : option json) : option json :=
  object ← value ≫= json_object;
  let count (name : string) : option Z := v ← find_member (lit name) object; n ← json_u64 v; if n <=? SAFE_INTEGER then Some n else None in
  prompt ← count "promptTokenCount"%string;
  output ← count "candidatesTokenCount"%string;
  total ← count "totalTokenCount"%string;
  thoughts ← count "thoughtsTokenCount"%string;
  cached ← count "cachedContentTokenCount"%string;
  if bool_decide (checked_add prompt output ≠ Some total) || (output <? thoughts) || (prompt <? cached) then None
  else Some (JObject [(lit "promptTokenCount", JNumber (number_of_u64 prompt)); (lit "candidatesTokenCount", JNumber (number_of_u64 output));
                      (lit "totalTokenCount", JNumber (number_of_u64 total)); (lit "thoughtsTokenCount", JNumber (number_of_u64 thoughts));
                      (lit "cachedContentTokenCount", JNumber (number_of_u64 cached))]).

Definition truthy_value (v : json) : bool := js_truthy v.
Definition truthy_member (v : json) (key : string) : option json := m ← json_get v (lit key); if truthy_value m then Some m else None.

(** The draw a client reads from its decoded observations. *)
Record Projection := {
  pj_text : str; pj_reasoning : str; pj_calls : list json; pj_incomplete : list json; pj_finish : option json; pj_usage : option json;
}.
Definition empty_projection : Projection :=
  {| pj_text := []; pj_reasoning := []; pj_calls := []; pj_incomplete := []; pj_finish := None; pj_usage := None |}.

(** One part: its text or thought, and its call. *)
Definition part_step (st : str * str * list json) (part : json) : str * str * list json :=
  let '(text, reasoning, part_calls) := st in
  match json_object part with
  | None => st
  | Some _ =>
      let '(text, reasoning) :=
        match nonempty_str (json_get part (lit "text") ≫= json_str) with
        | Some segment =>
            if match json_get part (lit "thought") with Some t => truthy_value t | None => false end
            then (text, reasoning ++ segment) else (text ++ segment, reasoning)
        | None => (text, reasoning)
        end in
      (text, reasoning, match truthy_member part "functionCall" with Some call => part_calls ++ [call] | None => part_calls end)
  end.

Definition first_candidate (response : list (str * json)) : option json :=
  match find_member (lit "candidates") response with Some (JArray (c :: _)) => Some c | _ => None end.
Definition candidate_parts (first : option json) : list json :=
  match first with
  | Some v => match json_get v (lit "content") with
              | Some v => match json_get v (lit "parts") with Some (JArray parts) => parts | _ => [] end
              | None => []
              end
  | None => []
  end.
Definition finish_reason (first : option json) : option json := match first with Some v => truthy_member v "finishReason" | None => None end.

(** What an observation that was delivered adds: its calls, what it stopped in
    the middle of, and why it ended. *)
Definition observed_item (item : json) (first : option json) (part_calls : list json) (p : Projection) : contract Projection :=
  match json_get item (lit "incomplete_tool_calls") with
  | Some (JArray stopped) =>
      Ok {| pj_text := pj_text p; pj_reasoning := pj_reasoning p; pj_calls := pj_calls p ++ part_calls; pj_incomplete := pj_incomplete p ++ stopped;
            pj_finish := match finish_reason first with Some reason => Some reason | None => pj_finish p end; pj_usage := pj_usage p |}
  | _ => model_refusal "decoded observation has no incomplete-call array"
  end.
Definition with_metadata (response : list (str * json)) (p : Projection) : Projection :=
  match find_member (lit "usageMetadata") response with
  | Some metadata =>
      if truthy_value metadata then
        {| pj_text := pj_text p; pj_reasoning := pj_reasoning p; pj_calls := pj_calls p; pj_incomplete := pj_incomplete p;
           pj_finish := pj_finish p; pj_usage := decoded_usage (Some metadata) |}
      else p
  | None => p
  end.

Definition item_step (delivered : bool) (p : Projection) (item : json) : contract Projection :=
  match json_get item (lit "response") with
  | Some (JObject response) =>
      let first := first_candidate response in
      let '(text, reasoning, part_calls) := fold_left part_step (candidate_parts first) (pj_text p, pj_reasoning p, []) in
      let p := {| pj_text := text; pj_reasoning := reasoning; pj_calls := pj_calls p; pj_incomplete := pj_incomplete p;
                  pj_finish := pj_finish p; pj_usage := pj_usage p |} in
      p ← (if delivered then observed_item item first part_calls p else Ok p);
      Ok (with_metadata response p)
  | _ => model_refusal "decoded observation has no response"
  end.

Definition project_decoded_draw (observations : list json) (failure : option json) : contract Projection :=
  match observations with
  | [] => fold_result (item_step false) empty_projection (match failure with Some f => [f] | None => [] end)
  | _ => fold_result (item_step true) empty_projection observations
  end.

Definition or_null (v : option json) : json := default JNull v.
(** The projection as the JSON object the program builds, key by key. *)
Definition projected (p : Projection) : list (str * json) :=
  [(lit "text", JString (pj_text p)); (lit "reasoning", JString (pj_reasoning p)); (lit "functionCalls", JArray (pj_calls p));
   (lit "incompleteToolCalls", JArray (pj_incomplete p)); (lit "finishReason", or_null (pj_finish p)); (lit "usage", or_null (pj_usage p))].

(** ** One draw against its physical requests *)
Definition draw_evidence (operation : CompactionOperation) (scope : str) (physical : Z) : bool :=
  bool_decide (co_scope operation = scope) && bool_decide (co_open operation = ∅)
  && (Z.of_nat (length (co_requests operation)) =? physical)
  && (size (co_outcomes operation) =? length (co_requests operation))%nat
  && (size (co_deliveries operation) =? length (co_requests operation))%nat
  && (size (co_observations operation) =? length (co_requests operation))%nat
  && (size (co_failures operation) =? length (co_requests operation))%nat.

Definition draw_request (operation : CompactionOperation) (kind : DrawKind) (st : Z * list json) (item : nat * str) : contract (Z * list json) :=
  let '(index, id) := item in
  let '(observed, physical) := st in
  match co_outcomes operation !! id with
  | None => model_refusal "compaction request has no processing outcome"
  | Some outcome =>
      if match oc_usage outcome with Some usage => co_budget operation <? output usage | None => false end
      then model_refusal "compaction physical output exceeded its request ceiling"
      else
        match co_deliveries operation !! id with
        | None => model_refusal "compaction request has no delivery receipt"
        | Some delivered =>
            let last_ := (S index =? length (co_requests operation))%nat in
            if (S index <? length (co_requests operation))%nat && negb (delivered =? 0)
            then model_refusal "compaction draw mixes output from physical retries"
            else if last_ && bool_decide (kind = Answer) && (negb (oc_completed outcome) || (delivered =? 0))
            then model_refusal "compaction draw claims an answer its physical request did not complete and deliver"
            else if last_ && bool_decide (kind = FaultDraw) && oc_completed outcome
            then model_refusal "compaction draw claims a transport fault its physical request did not have"
            else
              match exact_add observed (oc_sdk_values_seen outcome) with
              | None => model_refusal "compaction SDK value count exceeds exact range"
              | Some observed =>
                  match co_values operation !! id with
                  | None => model_refusal "compaction request has no captured SDK values"
                  | Some values =>
                      if negb (Z.of_nat (length values) =? oc_sdk_values_seen outcome)
                      then model_refusal "compaction processing count differs from physical SDK values"
                      else Ok (observed, physical ++ values)
                  end
              end
        end
  end.

Definition claimed_value (v : Value) : contract json :=
  match as_str v with
  | None => model_refusal "compaction draw has a non-string SDK value"
  | Some raw => match value_from_str raw with
                | Some v => Ok v
                | None => model_refusal "compaction draw has undecodable SDK value JSON"
                end
  end.

(** [all] of a comparison that can run. *)
Fixpoint all_same (pairs : list (json * json)) : contract bool :=
  match pairs with
  | [] => Ok true
  | (a, b) :: pairs => same ← same_sdk_value a b; if same : bool then all_same pairs else Ok false
  end.

Definition claimed_key (claimed : json) (_ : unit) (member : str * json) : contract unit :=
  match json_get claimed member.1 with
  | None => model_refusal "compaction draw differs from its recorded delivered output"
  | Some v => same ← same_sdk_value member.2 v;
              if same : bool then Ok tt else model_refusal "compaction draw differs from its recorded delivered output"
  end.

(** The count of the snapshot a draw declared, held to the text it counted. *)
Definition cited_count (r : ModelRequests) (operation : CompactionOperation) (scope cited : str) (tokens : json) (block : option str) : contract unit :=
  match block with
  | None => model_refusal "compaction draw cites a snapshot count but declared no snapshot"
  | Some block =>
      match mr_completed_token_counts r !! cited with
      | Some count =>
          if negb (bool_decide (tc_scope count = scope)) || bool_decide (tc_prompt count = None)
          then model_refusal "compaction snapshot count has no completed text tokenizer operation in its scope"
          else if bool_decide (tc_prompt count ≠ Some block)
          then model_refusal "compaction snapshot count was made of other text than the decoded snapshot"
          else if bool_decide (json_u64 tokens ≠ Some (tc_count count))
          then model_refusal "compaction snapshot count differs from the served tokenizer response"
          else if bool_decide (tc_model count ≠ co_model operation)
          then model_refusal "compaction snapshot count uses a different model than its draw"
          else Ok tt
      | None => model_refusal "compaction snapshot count has no completed text tokenizer operation in its scope"
      end
  end.

Definition snapshot_count (r : ModelRequests) (operation : CompactionOperation) (scope : str) (kind : DrawKind) (claimed : json) (block : option str) :
    contract unit :=
  match json_get claimed (lit "snapshotTokens"), json_get claimed (lit "snapshotCountOperationId") with
  | Some JNull, Some JNull =>
      if bool_decide (block ≠ None) && bool_decide (kind ≠ Ended)
      then model_refusal "compaction draw declared a snapshot its record cites no count of" else Ok tt
  | Some JNull, _ => model_refusal "compaction snapshot count cites an operation without its count, or a count without its operation"
  | Some tokens, Some (JString cited) => cited_count r operation scope cited tokens block
  | _, _ => model_refusal "compaction snapshot count cites an operation without its count, or a count without its operation"
  end.

Definition check_compaction_draw (r : ModelRequests) (id scope tokenizer_model : str) (physical : Z) (draw : Value) (kind : DrawKind) :
    contract (Z * Z * Z * DrawOutput) :=
  match mr_compactions r !! id with
  | None => model_refusal "compaction draw has no physical utility operation"
  | Some operation =>
      if negb (draw_evidence operation scope physical) then model_refusal "compaction draw omits, repeats or misattributes physical requests"
      else if bool_decide (co_model operation ≠ tokenizer_model) then model_refusal "compaction tokenizer model differs from physical draw model"
      else
        '(observed, physical_values) ← fold_result (draw_request operation kind) (0, []) (imap pair (co_requests operation));
        claimed ← field draw "sdkValuesJson" 0;
        match elements claimed with
        | None => model_refusal "compaction draw has no SDK value array"
        | Some items =>
            claimed ← traverse claimed_value items;
            same ← (if observed =? Z.of_nat (length claimed) then all_same (zip physical_values claimed) else Ok false);
            if negb same then model_refusal "compaction SDK values differ from physical response bytes"
            else
              last_ ← expect (list.last (co_requests operation)) "nonempty physical operation";
              match co_deliveries operation !! last_ with
              | None => model_refusal "compaction has no final delivery receipt"
              | Some delivered =>
                  match co_observations operation !! last_ with
                  | None => model_refusal "compaction has no decoded output evidence"
                  | Some observations =>
                      if (length observations <? Z.to_nat delivered)%nat then model_refusal "compaction delivery exceeds decoded output evidence"
                      else
                        projection ← project_decoded_draw (take (Z.to_nat delivered) observations)
                                       (match co_failures operation !! last_ with Some f => f | None => None end);
                        match value_from_str (raw draw) with
                        | None => model_refusal "compaction draw is not JSON"
                        | Some claimed_draw =>
                            _ ← fold_result (claimed_key claimed_draw) tt (projected projection);
                            block ← snapshot_text (pj_calls projection);
                            _ ← snapshot_count r operation scope kind claimed_draw block;
                            Ok (co_budget operation, co_first_sequence operation, co_last_sequence operation,
                                {| draw_reasoning := pj_reasoning projection; draw_text := pj_text projection; draw_calls := pj_calls projection |})
                        end
                  end
              end
        end
  end.
End Draws.

(** ** The record of a compaction *)
Section Record.
Context `{BigIntOps} `{Sha256Ops} `{Serde} `{Base64}.

Definition refuse_compaction {A} (line : Z) (what : string) : contract A := invalid (at_line line ++ lit " carries a compaction record " ++ lit what).

(** A field that is a non-negative integer. *)
Definition compaction_count (holder : Value) (key : str) (line : Z) : contract Z :=
  v ← field holder key line;
  map_refused (fun _ => InvalidRecord (at_line line ++ lit " carries a compaction record whose " ++ key ++ lit " is not a non-negative integer"))
    (unsigned v key SAFE_INTEGER).

Definition string_or_null (holder : Value) (key : string) (line : Z) : contract unit :=
  match get holder (lit key) with
  | Some v => if is_null v || is_string v then Ok tt else refuse_compaction line "whose field is neither a string nor null"
  | None => refuse_compaction line "whose field is neither a string nor null"
  end.

Definition null_or_count (holder : Value) (key : str) (line : Z) : contract (option Z) :=
  v ← field holder key line;
  if is_null v then Ok None else n ← compaction_count holder key line; Ok (Some n).

Definition FAILED_STATUSES : list string :=
  ["COMPRESSION_FAILED_INFLATED_TOKEN_COUNT"; "COMPRESSION_FAILED_TOKEN_COUNT_ERROR"; "COMPRESSION_FAILED_EMPTY_SUMMARY";
   "COMPRESSION_FAILED_OUTPUT_TRUNCATED"; "COMPRESSION_FAILED_PROTOCOL_ERROR"; "COMPRESSION_FAILED_INSUFFICIENT_ROOM";
   "COMPRESSION_FAILED_SUMMARY_OVER_BOUND"; "COMPRESSION_FAILED_HISTORY_CHANGED"; "COMPRESSION_FAILED_TRANSPORT_ERROR";
   "COMPRESSION_FAILED_RECORDING_STOPPED"]%string.

Record Measurement := { me_role : str; me_count : Z; me_window : Z; me_model : str; me_first : Z; me_last : Z }.

Definition read_measurement (r : ModelRequests) (kv_scope : str) (line : Z) (measurement : Value) : contract Measurement :=
  role ← text measurement "role" line;
  id ← text measurement "operationId" line;
  '(count, window, model, first, last_) ← check_token_measurement r id kv_scope;
  Ok {| me_role := role; me_count := count; me_window := window; me_model := model; me_first := first; me_last := last_ |}.

Definition preflight_roles : list str := [lit "original"; lit "summary_request"; lit "prompt_only"].

Definition read_measurements (r : ModelRequests) (record : Value) (kv_scope : str) (line : Z) : contract (list Measurement) :=
  items ← field record "tokenMeasurements" line;
  match elements items with
  | None => refuse_compaction line "without a tokenMeasurements array"
  | Some items =>
      measurements ← traverse (read_measurement r kv_scope line) items;
      match measurements with
      | first :: _ =>
          if existsb (fun m => negb (me_window m =? me_window first)) measurements
          then refuse_compaction line "whose tokenizer measurements disagree about the served model window"
          else if existsb (fun m => bool_decide (me_model m ≠ me_model first)) measurements
          then refuse_compaction line "whose tokenizer measurements use different models"
          else if existsb (fun p => bool_decide (me_role p.1 ≠ p.2)) (zip measurements preflight_roles)
          then refuse_compaction line "whose tokenizer preflight measurements are missing or reordered"
          else Ok measurements
      | [] => Ok []
      end
  end.

Definition sdk_value_text (limits : Limits) (line : Z) (_ : unit) (response : Value) : contract unit :=
  match as_str response with
  | None => refuse_compaction line "with a non-string SDK value; inspect the compaction producer"
  | Some raw =>
      _ ← map_refused (fun _ => InvalidRecord (at_line line ++ lit " carries a compaction record with undecodable SDK value JSON"))
            (decode raw limits);
      Ok tt
  end.

Definition no_items (v : option Value) : bool := match v ≫= elements with Some [] => true | _ => false end.
Definition null_field (holder : Value) (key : string) : bool := match get holder (lit key) with Some v => is_null v | None => false end.

(** A draw without an SDK value claims nothing that was decoded. *)
Definition claims_nothing (holder : Value) : bool :=
  bool_decide ((get holder "text" ≫= as_str) = Some []) && bool_decide ((get holder "reasoning" ≫= as_str) = Some [])
  && no_items (get holder "functionCalls") && no_items (get holder "incompleteToolCalls")
  && forallb (null_field holder) ["finishReason"; "usage"; "newTokenCount"; "snapshotTokens"; "snapshotCountOperationId"]%string.

(** What a stopped call may hold: a name or null, and its arguments' text. *)
Definition stopped_member (st : option (bool * bool)) (member : str * Value) : option (bool * bool) :=
  '(named, served) ← st;
  if bool_decide (member.1 = lit "name") && negb named then
    if is_null member.2 || bool_decide (nonempty_str (as_str member.2) ≠ None) then Some (true, served) else None
  else if bool_decide (member.1 = lit "arguments") && negb served then
    if is_string member.2 then Some (named, true) else None
  else None.
Definition stopped_call (call : Value) : bool :=
  match members call with
  | Some ms => match fold_left stopped_member ms (Some (false, false)) with Some (true, true) => true | _ => false end
  | None => false
  end.

(** The usage a draw claims, within its own totals and the ceiling. *)
Definition candidate_usage (usage : Value) (budget : option Z) (line : Z) : contract unit :=
  prompt ← compaction_count usage "promptTokenCount" line;
  output ← compaction_count usage "candidatesTokenCount" line;
  thinking ← compaction_count usage "thoughtsTokenCount" line;
  cached ← compaction_count usage "cachedContentTokenCount" line;
  total ← compaction_count usage "totalTokenCount" line;
  if (output <? thinking) || (prompt <? cached) || match budget with Some ceiling => ceiling <? output | None => false end
     || bool_decide (checked_add prompt output ≠ Some total)
  then refuse_compaction line "whose draw's served usage does not nest within its prompt, output, total and budget"
  else Ok tt.

(** What one drawn candidate spent. *)
Definition candidate_draw (limits : Limits) (holder : Value) (budget : option Z) (line : Z) : contract unit :=
  physical ← compaction_count holder "physicalRequests" line;
  if physical =? 0 then refuse_compaction line "whose draw reports no request attempt for a candidate that was drawn"
  else if existsb (fun key => negb match get holder (lit key) with Some v => is_string v | None => false end) ["reasoning"; "text"]%string
  then refuse_compaction line "whose draw lacks a string"
  else
    _ ← null_or_count holder "newTokenCount" line;
    _ ← null_or_count holder "snapshotTokens" line;
    cited ← field holder "snapshotCountOperationId" line;
    if negb (is_null cited) && bool_decide (nonempty_str (as_str cited) = None)
    then refuse_compaction line "whose draw cites a snapshot count by no operation identity"
    else
      responses ← field holder "sdkValuesJson" line;
      match elements responses with
      | None => refuse_compaction line "without SDK value JSON; capture this run with the current client"
      | Some responses =>
          _ ← fold_result (sdk_value_text limits line) tt responses;
          if (length responses =? 0)%nat && negb (claims_nothing holder)
          then refuse_compaction line "whose draw claims decoded output without an SDK value"
          else
            match get holder "incompleteToolCalls" ≫= elements with
            | None => refuse_compaction line "whose draw lacks the incompleteToolCalls array"
            | Some stopped =>
                if negb (forallb stopped_call stopped)
                then refuse_compaction line "whose draw carries a stopped call that is not a name or null and its served arguments text"
                else
                  _ ← string_or_null holder "finishReason" line;
                  match get holder "usage" with
                  | None => refuse_compaction line "whose draw has no usage field"
                  | Some usage =>
                      if is_null usage then Ok tt
                      else if bool_decide (as_object usage = None) then refuse_compaction line "whose draw's usage is neither an object nor null"
                      else candidate_usage usage budget line
                  end
            end
      end.

Definition record_status (record : Value) (line : Z) : contract (bool * str) :=
  match get record "succeeded" ≫= as_bool with
  | None => refuse_compaction line "without a boolean succeeded"
  | Some succeeded =>
      match get record "status" ≫= as_str with
      | None => refuse_compaction line "without a compaction status"
      | Some status =>
          if (bool_decide (status = lit "COMPRESSED") && succeeded) || (one_of status FAILED_STATUSES && negb succeeded)
          then Ok (succeeded, status)
          else refuse_compaction line "whose status contradicts whether history was replaced; inspect the compaction producer"
      end
  end.

Definition record_counts (record : Value) (succeeded : bool) (line : Z) : contract Z :=
  original ← compaction_count record "originalTokenCount" line;
  new ← field record "newTokenCount" line;
  if is_null new then
    if succeeded then refuse_compaction line "whose successful replacement has no measured token count; inspect the compaction producer"
    else Ok original
  else
    new ← compaction_count record "newTokenCount" line;
    if negb succeeded && negb (new =? original)
    then refuse_compaction line "whose failed attempt changes the retained history token count; inspect the compaction producer"
    else Ok original.

Definition known_trigger (record : Value) : bool :=
  match get record "triggerReason" with
  | Some v => match as_str v with Some s => one_of s ["token_limit"; "manual"]%string | None => false end || is_null v
  | None => false
  end.

Definition record_output (limits : Limits) (record : Value) (line : Z) : contract (option Z) :=
  match get record "output" with
  | None => refuse_compaction line "without an output field"
  | Some v =>
      if is_null v then Ok None
      else if bool_decide (as_object v = None) then refuse_compaction line "whose output is neither an object nor null"
      else
        max ← compaction_count v "maxOutputTokens" line;
        if max =? 0 then refuse_compaction line "whose output has no positive budget"
        else _ ← candidate_draw limits v (Some max) line; Ok (Some max)
  end.

Definition rejected_attempt (limits : Limits) (budget : option Z) (line : Z) (counts : list (option Z)) (attempt : Value) : contract (list (option Z)) :=
  if bool_decide (as_object attempt = None) then refuse_compaction line "whose rejected attempt is not an object"
  else if negb match get attempt "status" ≫= as_str with
               | Some status => bool_decide (status ≠ lit "COMPRESSED") && bool_decide (draw_kind status ≠ Ended)
               | None => false
               end
  then refuse_compaction line "whose rejected attempt names neither a rule its answer failed nor a transport fault; retain the original stream and recapture with a corrected compaction producer"
  else
    _ ← candidate_draw limits attempt budget line;
    measured ← null_or_count attempt "newTokenCount" line;
    Ok (counts ++ [measured]).

(** The draw that reached [output], when one did. *)
Definition output_draw (record : Value) : option Value := v ← get record "output"; if is_null v then None else Some v.

Definition rejected_attempts (record : Value) (line : Z) : contract (list Value) :=
  match get record "rejectedAttempts" with
  | None => refuse_compaction line "without a rejectedAttempts field"
  | Some v => match elements v with Some items => Ok items | None => refuse_compaction line "whose rejectedAttempts is not an array" end
  end.

Definition draw_counts (limits : Limits) (record : Value) (budget : option Z) (line : Z) : contract (list (option Z)) :=
  rejected ← rejected_attempts record line;
  counts ← fold_result (rejected_attempt limits budget line) [] rejected;
  match output_draw record with
  | Some output => measured ← null_or_count output "newTokenCount" line; Ok (counts ++ [measured])
  | None => Ok counts
  end.

Definition candidate_measured (measurements : list Measurement) (line : Z) (next : nat) (measured : option Z) : contract nat :=
  match measured with
  | None => Ok next
  | Some measured =>
      match measurements !! next with
      | Some m =>
          if bool_decide (me_role m = lit "candidate") && (me_count m =? measured) then Ok (S next)
          else refuse_compaction line "whose candidate count differs from the served tokenizer response"
      | None => refuse_compaction line "whose candidate count differs from the served tokenizer response"
      end
  end.

(** Every measurement is claimed: the preflight's three, and one per counted draw. *)
Definition claimed_measurements (measurements : list Measurement) (counts : list (option Z)) (original : Z) (line : Z) : contract unit :=
  match counts with
  | [] =>
      if (3 <? length measurements)%nat || match measurements with m :: _ => negb (me_count m =? original) | [] => false end
      then refuse_compaction line "whose preflight count differs from the served tokenizer response"
      else Ok tt
  | _ =>
      if (length measurements <? 3)%nat then refuse_compaction line "whose drawn candidate has no measured original and preflight counts"
      else
        first ← expect (head measurements) "measurements[0]";
        if negb (me_count first =? original) then refuse_compaction line "whose drawn candidate has no measured original and preflight counts"
        else
          next ← fold_result (candidate_measured measurements line) 3%nat counts;
          if negb (next =? length measurements)%nat then refuse_compaction line "with an unclaimed tokenizer measurement" else Ok tt
  end.

Definition accepted_count (record : Value) (succeeded : bool) (line : Z) : contract unit :=
  let refused {A} : contract A := refuse_compaction line "whose replacement count differs from its accepted draw" in
  if negb succeeded then Ok tt
  else
    output ← field record "output" line;
    if is_null output then refused
    else
      measured ← field output "newTokenCount" line;
      if is_null measured then refused
      else
        measured ← compaction_count output "newTokenCount" line;
        new ← compaction_count record "newTokenCount" line;
        if negb (measured =? new) then refused else Ok tt.

(** *** The draws a record claims *)
Record Claims := {
  cl_unique : gset str; cl_budget : option Z; cl_previous : option Z; cl_ranges : list (Z * Z); cl_claims : list (str * DrawOutput);
}.
Definition no_claims : Claims := {| cl_unique := ∅; cl_budget := None; cl_previous := None; cl_ranges := []; cl_claims := [] |}.

Definition claim_record_draw (r : ModelRequests) (measurements : list Measurement) (budget : option Z) (kv_scope status : str) (line : Z)
    (st : Claims) (draw : Value) : contract Claims :=
  id ← text draw "operationId" line;
  if decide (id ∈ cl_unique st) then refuse_compaction line "whose candidates repeat a physical operation identity"
  else
    physical ← compaction_count draw "physicalRequests" line;
    let kind := draw_kind (default status (get draw "status" ≫= as_str)) in
    first ← expect (head measurements) "measurements[0]";
    '(issued, first_sequence, last_sequence, output) ← check_compaction_draw r id kv_scope (me_model first) physical draw kind;
    served ← field draw "usage" line;
    _ ← (if is_null served then Ok tt
         else
           tokens ← compaction_count served "candidatesTokenCount" line;
           if issued <? tokens then refuse_compaction line "whose draw reports more served output than its physical ceiling" else Ok tt);
    if match budget with Some budget => negb (budget =? issued) | None => false end
       || match cl_budget st with Some budget => negb (budget =? issued) | None => false end
       || match cl_previous st with Some previous => first_sequence <=? previous | None => false end
    then refuse_compaction line "whose draws are reordered or disagree with their physical request ceiling"
    else Ok {| cl_unique := {[ id ]} ∪ cl_unique st; cl_budget := Some issued; cl_previous := Some last_sequence;
               cl_ranges := cl_ranges st ++ [(first_sequence, last_sequence)]; cl_claims := cl_claims st ++ [(id, output)] |}.

(** Each draw follows every operation the preflight cites, and the draw before it. *)
Definition ordered_draw (line : Z) (previous : Z) (range : Z * Z) : contract Z :=
  if range.1 <=? previous then refuse_compaction line "whose preflight or draw reorders physical requests" else Ok range.2.
Definition ordered_draws (measurements : list Measurement) (ranges : list (Z * Z)) (line : Z) : contract unit :=
  match ranges with
  | [] => Ok tt
  | _ =>
      preflight ← up_to 3 measurements "measurements[..3]";
      match preflight with
      | [] => Err (Panic "three preflight measurements")
      | m :: ms => _ ← fold_result (ordered_draw line) (fold_left Z.max (map me_last ms) (me_last m)) ranges; Ok tt
      end
  end.

Definition committed_draw (succeeded : bool) (claims : list (str * DrawOutput)) (line : Z) : contract (option str) :=
  if negb succeeded then Ok None
  else
    match list.last claims with
    | Some (id, output) =>
        match snapshot_sections (draw_calls output) with
        | Some _ => Ok (Some id)
        | None => refuse_compaction line "whose committed replacement was accepted from a draw that declared no complete snapshot; inspect the compaction producer"
        end
    | None => refuse_compaction line "whose committed replacement was accepted from a draw that declared no complete snapshot; inspect the compaction producer"
    end.

Definition validate_compaction_event (r : ModelRequests) (object : Value) (limits : Limits) (kv_scope : str) (line : Z) :
    contract (list (str * DrawOutput) * option str) :=
  match get object "data" ≫= as_object with
  | None => refuse_compaction line "without an object data field"
  | Some record =>
      '(succeeded, status) ← record_status record line;
      original ← record_counts record succeeded line;
      if negb (known_trigger record)
      then refuse_compaction line "with an unknown compaction trigger reason; retain the original stream and recapture with a corrected compaction producer"
      else
        measurements ← read_measurements r record kv_scope line;
        budget ← record_output limits record line;
        counts ← draw_counts limits record budget line;
        _ ← claimed_measurements measurements counts original line;
        _ ← accepted_count record succeeded line;
        attempts ← field record "rejectedAttempts" line;
        match elements attempts with
        | None => refuse_compaction line "without a rejectedAttempts array"
        | Some rejected =>
            let draws := rejected ++ match output_draw record with Some output => [output] | None => [] end in
            claims ← fold_result (claim_record_draw r measurements budget kv_scope status line) no_claims draws;
            _ ← ordered_draws measurements (cl_ranges claims) line;
            committed ← committed_draw succeeded (cl_claims claims) line;
            Ok (cl_claims claims, committed)
        end
  end.
End Record.
