(* ===== verification/Ledger.v ===== *)
(** * Ledger: the requests of a stream, as they are planned and committed
      (src/protocol/engine/src/model_requests.rs)

    A stream's records change [ModelRequests] one admission at a time: each is
    planned against the state and then committed.  The invariant below links the
    maps of the state to each other; from it every commit of a planned admission
    succeeds -- none of its [expect]s can fail -- and what the usage summaries add
    up to is known in every state. *)
From S2P Require Import Prelude Number Utf8 BTree Json JsonTree Schema Stream Usage Generation Authorship Sse Serde Turns Requests Utilities Admission Compaction.

Section Steps.
Context `{BigIntOps} `{Sha256Ops} `{Serde} `{Base64} `{StreamContract} (SERVED_TURN_REFUSALS : list ServedTurnRefusal).

(** The draws a compaction's record claims, and the one it commits. *)
Definition commit_compaction_record (kv_scope : str) (claims : list (str * DrawOutput)) (committed : option str) (r : ModelRequests) :
    contract ModelRequests :=
  r ← commit_compaction_claims claims r;
  match committed with Some draw => commit_compaction kv_scope draw r | None => Ok r end.

(** One admission: planned, then committed. *)
Inductive ledger_step (r : ModelRequests) : contract ModelRequests → Prop :=
| step_origin record line a :
    in_arena record → plan_origin r record line = Ok a → ledger_step r (Ok (commit_origin a r))
| step_request record line limits operator a :
    in_arena record → plan_request r record line limits operator = Ok a → ledger_step r (commit_request a r)
| step_response record line a :
    in_arena record → plan_response SERVED_TURN_REFUSALS r record line = Ok a → ledger_step r (commit_response a r)
| step_seed record line a :
    in_arena record → plan_seed r record line = Ok a → ledger_step r (commit_seed a r)
| step_generation record line limits schema a :
    in_arena record → plan_generation r record line limits schema = Ok a → ledger_step r (commit_generation a r)
| step_completion record line a :
    in_arena record → plan_completion r record line = Ok a → ledger_step r (commit_completion a r)
| step_utility_request record line limits a :
    in_arena record → plan_utility_request r record line limits = Ok a → ledger_step r (commit_utility_request a r)
| step_utility_completion record line a :
    in_arena record → plan_utility_completion r record line = Ok a → ledger_step r (Ok (commit_utility_completion a r))
| step_compaction record limits kv_scope line claims committed :
    in_arena record → validate_compaction_event r record limits kv_scope line = Ok (claims, committed) →
    ledger_step r (commit_compaction_record kv_scope claims committed r).

Inductive ledger : ModelRequests → Prop :=
| ledger_new : ledger default_requests
| ledger_next r r' : ledger r → ledger_step r (Ok r') → ledger r'.
End Steps.

(** ** The invariant *)
Section Invariant.
Context `{Sha256Ops} `{Serde}.

(** A response's owner is there, and has what the response's events will need. *)
Record linked (r : ModelRequests) (id : str) (st : ResponseState) : Prop := {
  ln_attempt : ∀ a, rs_attempt st = Some a → is_Some (mr_attempts r !! a);
  ln_compaction : ∀ c, rs_compaction st = Some c → ∃ op, mr_compactions r !! c = Some op ∧ id ∈ co_open op;
  ln_utility : ∀ u, rs_utility st = Some u → ∃ op, mr_utilities r !! u = Some op ∧ id ∈ uo_requests op ∧
    (rs_processing st ≠ None → is_Some (uo_physical op !! id)) ∧ (∀ p, uo_physical op !! id = Some p → up_delivered p = false);
  ln_values : rs_processing st = None → is_Some (mr_response_values r !! id);
  ln_digest : rs_processing st ≠ None → rs_digest st = None;
}.

Record journal_ok (r : ModelRequests) : Prop := {
  jn_none : mr_journal_id r = None → mr_first_sequence r = None ∧ mr_physical_count r = 0;
  jn_first : ∀ n, mr_first_sequence r = Some n → 0 <= n;
  jn_count : 0 <= mr_physical_count r;
}.

(** What a conversation owes is there to be carried. *)
Definition owed_ok (r : ModelRequests) (o : Owed) : Prop :=
  (owed_issued o <= length (owed_generations o))%nat ∧
  Forall (fun g => is_Some (mr_generations r !! g)) (owed_generations o) ∧
  (∀ d, owed_draw o = Some d → ∃ output secs, mr_draws r !! d = Some output ∧ snapshot_sections (draw_calls output) = Some secs).

Definition utility_ok (r : ModelRequests) (u : str) (op : UtilityOperation) : Prop :=
  (∀ id, id ∈ uo_requests op → id ∈ mr_ids r ∧ ∀ st, mr_responses r !! id = Some st → rs_utility st = Some u) ∧
  (∀ id, is_Some (uo_physical op !! id) → id ∈ uo_requests op).

Record Inv (r : ModelRequests) : Prop := {
  inv_journal : journal_ok r;
  inv_ids : ∀ id, is_Some (mr_responses r !! id) → id ∈ mr_ids r;
  inv_linked : ∀ id st, mr_responses r !! id = Some st → linked r id st;
  inv_utilities : ∀ u op, mr_utilities r !! u = Some op → utility_ok r u op;
  inv_compactions : ∀ c op, mr_compactions r !! c = Some op → c ∉ mr_claimed_compactions r ∧ co_requests op ≠ [];
  inv_draws : ∀ d, is_Some (mr_draws r !! d) → d ∈ mr_claimed_compactions r;
  inv_generations : ∀ a at_ g, mr_attempts r !! a = Some at_ → at_generation at_ = Some g → mr_generations r !! generation_id g = Some g;
  inv_owed : ∀ s o, mr_owed r !! s = Some o → owed_ok r o;
  inv_scopes : ∀ s b, mr_scopes r !! s = Some b → length (body_citations b) = length (body_messages b);
}.

Lemma update_entry_ok {V} (m : gmap str V) k site f v : m !! k = Some v → update_entry m k site f = Ok (<[k := f v]> m).
Proof. intros Hv. unfold update_entry. by rewrite Hv. Qed.

Lemma add_one_ok n site : 0 <= n < U64_MAX → add_one n site = Ok (n + 1).
Proof. intros Hn. unfold add_one. assert (E : checked_add n 1 = Some (n + 1)) by (apply checked_add_Some; lia). by rewrite E. Qed.

(** A response stays linked when what it points to stays. *)
Lemma linked_mono r r' id st :
  linked r id st →
  (∀ a, is_Some (mr_attempts r !! a) → is_Some (mr_attempts r' !! a)) →
  (∀ c op, mr_compactions r !! c = Some op → id ∈ co_open op → ∃ op', mr_compactions r' !! c = Some op' ∧ id ∈ co_open op') →
  (∀ u op, rs_utility st = Some u → mr_utilities r !! u = Some op → id ∈ uo_requests op →
     ∃ op', mr_utilities r' !! u = Some op' ∧ id ∈ uo_requests op' ∧ uo_physical op' !! id = uo_physical op !! id) →
  (is_Some (mr_response_values r !! id) → is_Some (mr_response_values r' !! id)) →
  linked r' id st.
Proof.
  intros [Ha Hc Hu Hv Hd] Hatt Hcomp Hutil Hval. constructor; [by eauto| | |by eauto|done].
  - intros c (op & Hop & Hin)%Hc. by eapply Hcomp.
  - intros u Hu'. destruct (Hu u Hu') as (op & Hop & Hin & Hp1 & Hp2). destruct (Hutil u op Hu' Hop Hin) as (op' & ? & ? & E).
    exists op'. rewrite E. by split_and!.
Qed.

Lemma owed_ok_mono r r' o :
  owed_ok r o → (∀ g, is_Some (mr_generations r !! g) → is_Some (mr_generations r' !! g)) →
  (∀ d output, mr_draws r !! d = Some output → mr_draws r' !! d = Some output) → owed_ok r' o.
Proof.
  intros (Hi & Hg & Hd) Hgen Hdraw. split_and!; [done|by eapply Forall_impl|].
  intros d (output & secs & ? & ?)%Hd. exists output, secs. split; [by apply Hdraw|done].
Qed.
End Invariant.

(** ** One map at a time *)
Section Fields.
Context `{BigIntOps} `{Sha256Ops} `{Serde} `{Base64}.

Lemma inv_default : Inv default_requests.
Proof.
  constructor; simpl; try (by intros * ?%lookup_empty_Some); try (intros *; rewrite lookup_empty; by intros [? ?]).
  constructor; simpl; [done|done|lia].
Qed.

Lemma inserted_some {V} (m : gmap str V) k v a : is_Some (m !! a) → is_Some (<[k := v]> m !! a).
Proof. intros Ha. destruct (decide (k = a)) as [->|Hne]; [rewrite lookup_insert_eq; by eexists|by rewrite lookup_insert_ne]. Qed.

(** The parts of the state the invariant reads. *)
Lemma inv_frame r r' :
  Inv r → journal_ok r' → mr_ids r' = mr_ids r → mr_utilities r' = mr_utilities r → mr_responses r' = mr_responses r →
  mr_response_values r' = mr_response_values r → mr_attempts r' = mr_attempts r → mr_compactions r' = mr_compactions r →
  mr_claimed_compactions r' = mr_claimed_compactions r → mr_generations r' = mr_generations r → mr_draws r' = mr_draws r →
  mr_owed r' = mr_owed r → mr_scopes r' = mr_scopes r → Inv r'.
Proof.
  intros [Hj Hids Hln Hut Hco Hdr Hge How Hsc] Hj' E1 E2 E3 E4 E5 E6 E7 E8 E9 E10 E11.
  constructor; rewrite ?E1, ?E2, ?E3, ?E4, ?E5, ?E6, ?E7, ?E8, ?E9, ?E10, ?E11; try done.
  - intros i st Hst. apply (linked_mono r); [by apply Hln|rewrite ?E2, ?E4, ?E5, ?E6; by eauto..].
  - intros u op Hop. destruct (Hut u op Hop). split; [|done]. by rewrite E1, E3.
  - intros s o Ho. eapply owed_ok_mono; [by eapply How|by rewrite E8|by rewrite E9].
Qed.

Lemma journal_inv r j first count :
  Inv r → (j = None → first = None ∧ count = 0) → (∀ n, first = Some n → 0 <= n) → 0 <= count →
  Inv (set_mr_physical_count count (set_mr_first_sequence first (set_mr_journal_id j r))).
Proof. intros HI Hn Hf Hc. eapply inv_frame; [done|by constructor|done..]. Qed.

Lemma ids_inv r i : Inv r → Inv (set_mr_ids ({[ i ]} ∪ mr_ids r) r).
Proof.
  intros [[] Hids Hln Hut Hco Hdr Hge How Hsc]. constructor; simpl; try done.
  - intros i' Hi%Hids. set_solver.
  - intros i' st Hst. apply (linked_mono r); simpl; by eauto.
  - intros u op Hop. destruct (Hut u op Hop) as [Hr Hp]. split; [|done]. intros i' Hi. destruct (Hr i' Hi). split; [simpl; set_solver|done].
Qed.

Lemma values_inv r i v : Inv r → Inv (set_mr_response_values (<[i := v]> (mr_response_values r)) r).
Proof.
  intros [[] Hids Hln Hut Hco Hdr Hge How Hsc]. constructor; simpl; try done.
  intros i' st Hst. apply (linked_mono r); simpl; eauto. apply inserted_some.
Qed.

Lemma values_delete_inv r i :
  Inv r → (∀ st, mr_responses r !! i = Some st → rs_processing st ≠ None) → Inv (set_mr_response_values (delete i (mr_response_values r)) r).
Proof.
  intros [[] Hids Hln Hut Hco Hdr Hge How Hsc] Hproc. constructor; simpl; try done.
  intros i' st Hst. destruct (Hln i' st Hst) as [Ha Hc Hu Hv Hd]. constructor; simpl; try done.
  intros Hnone. destruct (decide (i = i')) as [->|Hne]; [by destruct (Hproc st Hst)|]. rewrite lookup_delete_ne by done. by apply Hv.
Qed.

Lemma attempt_inv r x v :
  Inv r → (∀ g, at_generation v = Some g → mr_generations r !! generation_id g = Some g) → Inv (set_mr_attempts (<[x := v]> (mr_attempts r)) r).
Proof.
  intros [[] Hids Hln Hut Hco Hdr Hge How Hsc] Hv. constructor; simpl; try done.
  - intros i' st Hst. apply (linked_mono r); simpl; eauto. intros a. apply inserted_some.
  - intros a at_ g. destruct (decide (x = a)) as [->|Hne]; [rewrite lookup_insert_eq; intros [= <-]; by apply Hv|].
    rewrite lookup_insert_ne by done. apply Hge.
Qed.

Lemma owed_inv r s o : Inv r → owed_ok r o → Inv (set_mr_owed (<[s := o]> (mr_owed r)) r).
Proof.
  intros [[] Hids Hln Hut Hco Hdr Hge How Hsc] Ho. constructor; simpl; try done.
  - intros i' st Hst. apply (linked_mono r); simpl; by eauto.
  - intros s' o'. destruct (decide (s = s')) as [->|Hne]; [rewrite lookup_insert_eq; by intros [= <-]|].
    rewrite lookup_insert_ne by done. apply How.
Qed.

(** What a conversation without requests owes: nothing. *)
Lemma owed_default r s : Inv r → owed_ok r (default default_owed (mr_owed r !! s)).
Proof.
  intros HI. destruct (mr_owed r !! s) as [o|] eqn:Ho; simpl; [by eapply inv_owed|].
  split_and!; simpl; [lia|constructor|done].
Qed.

Lemma compaction_inv r c op :
  Inv r → c ∉ mr_claimed_compactions r → co_requests op ≠ [] →
  (∀ i st, mr_responses r !! i = Some st → rs_compaction st = Some c → i ∈ co_open op) →
  Inv (set_mr_compactions (<[c := op]> (mr_compactions r)) r).
Proof.
  intros [[] Hids Hln Hut Hco Hdr Hge How Hsc] Hclaim Hreq Hopen. constructor; simpl; try done.
  - intros i st Hst. destruct (Hln i st Hst) as [Ha Hc Hu Hv Hd]. constructor; simpl; try done.
    intros c' Hc'. destruct (decide (c = c')) as [->|Hne]; [rewrite lookup_insert_eq; by eauto|]. rewrite lookup_insert_ne by done. by apply Hc.
  - intros c' op'. destruct (decide (c = c')) as [->|Hne]; [rewrite lookup_insert_eq; by intros [= <-]|]. rewrite lookup_insert_ne by done. apply Hco.
Qed.

Lemma utility_inv r u op :
  Inv r → utility_ok r u op →
  (∀ i st, mr_responses r !! i = Some st → rs_utility st = Some u →
     i ∈ uo_requests op ∧ (rs_processing st ≠ None → is_Some (uo_physical op !! i)) ∧ (∀ p, uo_physical op !! i = Some p → up_delivered p = false)) →
  Inv (set_mr_utilities (<[u := op]> (mr_utilities r)) r).
Proof.
  intros [[] Hids Hln Hut Hco Hdr Hge How Hsc] Hok Hopen. constructor; simpl; try done.
  - intros i st Hst. destruct (Hln i st Hst) as [Ha Hc Hu Hv Hd]. constructor; simpl; try done.
    intros u' Hu'. destruct (decide (u = u')) as [->|Hne]; [rewrite lookup_insert_eq; by eauto|]. rewrite lookup_insert_ne by done. by apply Hu.
  - intros u' op'. destruct (decide (u = u')) as [->|Hne]; [rewrite lookup_insert_eq; by intros [= <-]|]. rewrite lookup_insert_ne by done. apply Hut.
Qed.

(** A response's state is replaced by one its owner still has what it needs for. *)
Lemma respond_inv r i st :
  Inv r → i ∈ mr_ids r → (∀ u op, mr_utilities r !! u = Some op → i ∈ uo_requests op → rs_utility st = Some u) → linked r i st →
  Inv (set_mr_responses (<[i := st]> (mr_responses r)) r).
Proof.
  intros [[] Hids Hln Hut Hco Hdr Hge How Hsc] Hid Hown Hst. constructor; simpl; try done.
  - intros i'. destruct (decide (i = i')) as [->|Hne]; [done|]. rewrite lookup_insert_ne by done. apply Hids.
  - intros i' st'. destruct (decide (i = i')) as [->|Hne].
    + rewrite lookup_insert_eq. intros [= <-]. apply (linked_mono r); simpl; by eauto.
    + rewrite lookup_insert_ne by done. intros Hst'. apply (linked_mono r); simpl; by eauto.
  - intros u op Hop. destruct (Hut u op Hop) as [Hr Hp]. split; [|done]. intros i' Hi. destruct (Hr i' Hi) as [Hi1 Hi2]. split; [done|]. simpl.
    intros st'. destruct (decide (i = i')) as [->|Hne]; [rewrite lookup_insert_eq; intros [= <-]; by eauto|]. rewrite lookup_insert_ne by done. apply Hi2.
Qed.

Lemma end_inv r i : Inv r → Inv (end_response i r).
Proof.
  intros [[] Hids Hln Hut Hco Hdr Hge How Hsc]. unfold end_response. constructor; simpl; try done.
  - intros i' [st Hst]. apply lookup_delete_Some in Hst as [_ Hst]. apply Hids. by eexists.
  - intros i' st Hst. apply lookup_delete_Some in Hst as [_ Hst]. apply (linked_mono r); simpl; by eauto.
  - intros u op Hop. destruct (Hut u op Hop) as [Hr Hp]. split; [|done]. intros i' Hi. destruct (Hr i' Hi) as [Hi1 Hi2]. split; [done|].
    simpl. intros st Hst. apply lookup_delete_Some in Hst as [_ Hst]. by apply Hi2.
Qed.

Lemma generation_inv r g : Inv r → mr_generations r !! generation_id g = None → Inv (set_mr_generations (<[generation_id g := g]> (mr_generations r)) r).
Proof.
  intros [[] Hids Hln Hut Hco Hdr Hge How Hsc] Hnew. constructor; simpl; try done.
  - intros i' st Hst. apply (linked_mono r); simpl; by eauto.
  - intros a at_ g' Hat Hg. pose proof (Hge a at_ g' Hat Hg) as Hin. rewrite lookup_insert_ne; [done|]. intros E. by rewrite E, Hin in Hnew.
  - intros s o Ho. eapply owed_ok_mono; [by eapply How|simpl; intros g'; apply inserted_some|done].
Qed.

Lemma scope_inv r s b : Inv r → length (body_citations b) = length (body_messages b) → Inv (set_mr_scopes (<[s := b]> (mr_scopes r)) r).
Proof.
  intros [[] Hids Hln Hut Hco Hdr Hge How Hsc] Hb. constructor; simpl; try done.
  - intros i' st Hst. apply (linked_mono r); simpl; by eauto.
  - intros s' b'. destruct (decide (s = s')) as [->|Hne]; [rewrite lookup_insert_eq; by intros [= <-]|]. rewrite lookup_insert_ne by done. apply Hsc.
Qed.
End Fields.

(** Open a plan that succeeded, check by check. *)
Ltac passed H :=
  cbv beta zeta in H;
  repeat (match type of H with
          | _ ≫= _ = Ok _ => apply bind_ok_inv in H as (? & ? & H)
          | match ?o with _ => _ end = Ok _ => destruct o eqn:?; try discriminate H
          end; cbv beta zeta in H).

(** ** Requests *)
Section Requests.
Context `{BigIntLaws} `{Sha256Ops} `{Serde} `{Base64}.

Lemma commit_owed_inv a r : Inv r → Inv (commit_owed a r).
Proof.
  intros HI. unfold commit_owed. destruct (ra_attempt a); [|done]. apply owed_inv; [done|].
  destruct (owed_default r (ra_scope a) HI) as (_ & Hg & Hd). by split_and!.
Qed.

Lemma commit_journal_inv a r :
  Inv r → 0 <= ra_sequence a → mr_physical_count r < U64_MAX →
  ∃ count, commit_journal a r = Ok (set_mr_physical_count count
             (set_mr_first_sequence (Some (default (ra_sequence a) (mr_first_sequence r)))
                (set_mr_journal_id (Some (default (ra_journal_id a) (mr_journal_id r))) r))) ∧
    Inv (set_mr_physical_count count
             (set_mr_first_sequence (Some (default (ra_sequence a) (mr_first_sequence r)))
                (set_mr_journal_id (Some (default (ra_journal_id a) (mr_journal_id r))) r))).
Proof.
  intros HI Hseq Hcount. destruct (inv_journal r HI) as [Hn Hf Hc]. exists (mr_physical_count r + 1). split.
  - unfold commit_journal. cbv zeta. simpl mr_physical_count. by rewrite add_one_ok by lia.
  - apply journal_inv; [done|done| |lia]. intros n [= <-]. destruct (mr_first_sequence r) eqn:E; simpl; [by apply Hf|done].
Qed.

Lemma commit_draw_inv a r :
  Inv r → (∀ c budget model, ra_compaction a = Some (c, budget, model) → c ∉ mr_claimed_compactions r) → Inv (commit_draw a r).
Proof.
  intros HI Hclaim. unfold commit_draw. destruct (ra_compaction a) as [[[c budget] model]|]; [|done].
  apply compaction_inv; [done|by eapply Hclaim|simpl; by destruct (co_requests _)|].
  intros i st Hst Hc. destruct (ln_compaction _ _ _ (inv_linked r HI i st Hst) c Hc) as (op & Hop & Hin). rewrite Hop. simpl. set_solver.
Qed.

Lemma commit_attempt_inv a r : Inv r → Inv (commit_attempt a r).
Proof.
  intros HI. unfold commit_attempt. destruct (ra_attempt a) as [x|]; [|done]. apply attempt_inv; [done|].
  intros g. destruct (mr_attempts r !! x) as [old|] eqn:Hold; simpl; [by apply (inv_generations r HI x)|done].
Qed.

Lemma fresh_utility r i u op : Inv r → i ∉ mr_ids r → mr_utilities r !! u = Some op → i ∉ uo_requests op.
Proof. intros HI Hi Hop Hin. by destruct (proj1 (inv_utilities r HI u op Hop) i Hin). Qed.

Lemma commit_body_inv a r :
  Inv r → body_id (ra_body a) ∉ mr_ids r → (∀ x, ra_attempt a = Some x → is_Some (mr_attempts r !! x)) →
  (∀ c budget model, ra_compaction a = Some (c, budget, model) → ∃ op, mr_compactions r !! c = Some op ∧ body_id (ra_body a) ∈ co_open op) →
  length (body_citations (ra_body a)) = length (body_messages (ra_body a)) → Inv (commit_body a r).
Proof.
  intros HI Hnew Hatt Hcomp Hcit. unfold commit_body. apply scope_inv; [|done].
  set (st := empty_response _ _ _ _). set (v := new_response _ _). set (i := body_id (ra_body a)).
  pose (r0 := set_mr_ids ({[ i ]} ∪ mr_ids r) r). pose (r1 := set_mr_response_values (<[i := v]> (mr_response_values r0)) r0).
  assert (HI1 : Inv (set_mr_responses (<[i := st]> (mr_responses r1)) r1)).
  { apply respond_inv; [by apply values_inv, ids_inv|simpl; set_solver| |].
    - intros u op Hop Hin. by destruct (fresh_utility r i u op HI Hnew Hop).
    - constructor; simpl; [done| |done| |done].
      + intros c Hc. destruct (ra_compaction a) as [[[c' budget] model]|]; [|done]. injection Hc as ->. by eapply Hcomp.
      + intros _. rewrite lookup_insert_eq. by eexists. }
  eapply inv_frame; [exact HI1| |done..]. destruct (inv_journal _ HI1). by constructor.
Qed.

(** What a planned request was checked for. *)
Record admitted (r : ModelRequests) (a : RequestAdmission) : Prop := {
  ad_new : body_id (ra_body a) ∉ mr_ids r;
  ad_sequence : 0 <= ra_sequence a;
  ad_count : mr_physical_count r < U64_MAX;
  ad_unclaimed : ∀ c budget model, ra_compaction a = Some (c, budget, model) → c ∉ mr_claimed_compactions r;
  ad_citations : length (body_citations (ra_body a)) = length (body_messages (ra_body a));
}.

Lemma commit_request_inv r a : Inv r → admitted r a → ∃ r', commit_request a r = Ok r' ∧ Inv r'.
Proof.
  intros HI [Hnew Hseq Hcount Hclaim Hcit]. unfold commit_request.
  destruct (commit_journal_inv a (commit_owed a r)) as (count & -> & HI1); [by apply commit_owed_inv|done|unfold commit_owed; by destruct (ra_attempt a)|].
  cbn [mbind result_bind]. eexists. split; [done|]. set (r1 := set_mr_physical_count _ _) in *.
  assert (E : mr_ids r1 = mr_ids r ∧ mr_claimed_compactions r1 = mr_claimed_compactions r) by (unfold r1, commit_owed; by destruct (ra_attempt a)).
  destruct E as [E1 E2]. apply commit_body_inv; [apply commit_attempt_inv, commit_draw_inv; [done|by rewrite E2]| | | |done].
  - rewrite <- E1 in Hnew. unfold commit_attempt, commit_draw. by destruct (ra_attempt a), (ra_compaction a) as [[[? ?] ?]|].
  - intros x Hx. unfold commit_attempt. rewrite Hx. simpl. rewrite lookup_insert_eq. by eexists.
  - intros c budget model Hc. unfold commit_attempt, commit_draw. rewrite Hc. eexists. split.
    + destruct (ra_attempt a); simpl; apply lookup_insert_eq.
    + simpl. set_solver.
Qed.
End Requests.

(** ** Plans *)
Section Plans.
Context `{BigIntOps} `{!BigIntLaws} `{Sha256Ops} `{Serde} `{Base64} `{StreamContract}.

Lemma next_sequence_count r n : Inv r → 0 <= n <= SAFE_INTEGER → next_sequence r = Some n → mr_physical_count r < U64_MAX.
Proof.
  intros HI Hn. unfold next_sequence. destruct (mr_first_sequence r) as [first|] eqn:Hf; [|done]. simpl.
  intros [E _]%checked_add_Some. pose proof (jn_first _ (inv_journal r HI) first Hf). unfold SAFE_INTEGER, U64_MAX in *. lia.
Qed.

Lemma assign_citation_length ranges retained cs c cs' : assign_citation ranges retained cs c = Ok cs' → length cs' = length cs.
Proof.
  unfold assign_citation. intros Hc. passed Hc; injection Hc as <-; by rewrite ?length_insert.
Qed.

Lemma request_messages_lengths r body json scope d limits operator line array messages citations :
  request_messages r body json scope d limits operator line = Ok (array, messages, citations) → length citations = length messages.
Proof.
  unfold request_messages. intros Hm. passed Hm. injection Hm as <- <- <-.
  match goal with Hc : fold_result (assign_citation _ _) _ _ = Ok ?cs |- _ =>
    assert (E : length cs = length (resize (length x2) x4)) by
      (refine (fold_result_inv (fun cs => length cs = _) _ _ _ _ _ _ Hc); [intros ? ? ? _ <-; apply assign_citation_length|done]);
    rewrite E end.
  unfold resize. rewrite length_app, length_take, length_replicate. lia.
Qed.

Lemma field_unsigned v key line w name n :
  in_arena v → field v key line = Ok w → unsigned w name SAFE_INTEGER = Ok n → 0 <= n <= SAFE_INTEGER.
Proof. intros Hv Hw Hn. eapply unsigned_range; [by eapply field_in_arena|done|exact Hn]. Qed.

Lemma plan_compaction_unclaimed r compaction scope stream body model line c budget m :
  plan_compaction r compaction scope stream body model line = Ok (Some (c, budget, m)) → c ∉ mr_claimed_compactions r.
Proof. unfold plan_compaction. intros Hp. passed Hp. injection Hp as <- <- <-. by to_prop. Qed.

(** A journal's next request has a sequence; a journal that has not begun has
    counted nothing. *)
Lemma request_count_ok r journal n :
  Inv r → 0 <= n <= SAFE_INTEGER →
  match mr_journal_id r with Some i => bool_decide (i ≠ journal) || bool_decide (next_sequence r ≠ Some n) | None => false end = false →
  mr_physical_count r < U64_MAX.
Proof.
  intros HI Hn Hj. destruct (mr_journal_id r) eqn:E; [|by rewrite (proj2 (jn_none _ (inv_journal r HI) E))].
  to_prop. apply (next_sequence_count r n HI Hn). by apply dec_stable.
Qed.

Lemma plan_request_admitted r record line limits operator a :
  Inv r → in_arena record → plan_request r record line limits operator = Ok a → admitted r a.
Proof.
  intros HI Hv Hp. unfold plan_request in Hp. passed Hp.
  match goal with Hq : field record _ _ = Ok ?q, Hs : field ?q _ _ = Ok ?s, Hn : unsigned ?s _ _ = Ok ?n |- _ =>
    pose proof (field_unsigned q _ _ s _ n (field_in_arena _ _ _ _ Hv Hq) Hs Hn) as Hseq end.
  injection Hp as <-. constructor; simpl; [by to_prop|lia|by eapply request_count_ok| |by eapply request_messages_lengths].
  intros c budget model ->. by eapply plan_compaction_unclaimed.
Qed.

Lemma plan_origin_new r record line a :
  in_arena record → plan_origin r record line = Ok a → mr_journal_id r = None ∧ 0 <= or_first_sequence a.
Proof.
  intros Hv Hp. unfold plan_origin in Hp. passed Hp. injection Hp as <-. to_prop. split; [by apply dec_stable|]. simpl.
  by eapply field_unsigned.
Qed.

(** A seed's owner, and a generation's, is there; the completion's is the one
    that holds its generation. *)
Lemma plan_seed_owner r record line a : plan_seed r record line = Ok a → is_Some (mr_attempts r !! attempt (seed_origin a)).
Proof. intros Hp. unfold plan_seed in Hp. passed Hp. injection Hp as <-. simpl. by eexists. Qed.

Lemma plan_generation_owner r record line limits schema a :
  plan_generation r record line limits schema = Ok a →
  is_Some (mr_attempts r !! attempt (origin a)) ∧ mr_generations r !! generation_id a = None.
Proof. intros Hp. unfold plan_generation in Hp. passed Hp. injection Hp as <-. to_prop. split; [by eexists|by apply dec_stable]. Qed.

Lemma plan_completion_owner r record line a :
  plan_completion r record line = Ok a →
  ∃ owner, mr_attempts r !! attempt (origin (ca_generation a)) = Some owner ∧ at_generation owner = Some (ca_generation a).
Proof.
  intros Hp. unfold plan_completion in Hp. passed Hp. injection Hp as <-. simpl. to_prop.
  match goal with Ho : ¬ (origin ?g ≠ ?o) |- _ => apply dec_stable in Ho; rewrite Ho end. by eexists.
Qed.

Lemma plan_utility_request_fresh r record line limits a :
  Inv r → in_arena record → plan_utility_request r record line limits = Ok a → 
  ur_request_id a ∉ mr_ids r ∧ mr_physical_count r < U64_MAX ∧ mr_journal_id r ≠ None.
Proof.
  intros HI Hv Hp. unfold plan_utility_request in Hp. passed Hp.
  match goal with Hq : field record _ _ = Ok ?q, Hs : field ?q _ _ = Ok ?s, Hn : unsigned ?s _ _ = Ok ?n |- _ =>
    pose proof (field_unsigned q _ _ s _ n (field_in_arena _ _ _ _ Hv Hq) Hs Hn) as Hseq end.
  injection Hp as <-. to_prop. simpl. split; [done|].
  split; [eapply next_sequence_count; [done|exact Hseq|by apply dec_stable]|].
  match goal with Hj : ¬ (mr_journal_id _ ≠ Some _) |- _ => apply dec_stable in Hj; by rewrite Hj end.
Qed.
End Plans.

(** ** What does not come from a response *)
Section Records.
Context `{BigIntOps} `{!BigIntLaws} `{Sha256Ops} `{Serde} `{Base64} `{StreamContract}.

Lemma commit_origin_inv r a : Inv r → mr_journal_id r = None → 0 <= or_first_sequence a → Inv (commit_origin a r).
Proof.
  intros HI Hnone Hfirst. destruct (inv_journal r HI) as [Hn Hf Hc]. destruct (Hn Hnone) as [_ Hz].
  eapply inv_frame; [exact HI| |done..]. constructor; simpl; [done|by intros n [= <-]|lia].
Qed.

Lemma commit_seed_inv r a : Inv r → is_Some (mr_attempts r !! attempt (seed_origin a)) → ∃ r', commit_seed a r = Ok r' ∧ Inv r'.
Proof.
  intros HI [owner Ho]. unfold commit_seed. rewrite (update_entry_ok _ _ _ _ _ Ho). eexists. split; [done|].
  apply attempt_inv; [done|]. intros g Hg. exact (inv_generations r HI _ owner g Ho Hg).
Qed.

Lemma commit_generation_inv r a :
  Inv r → is_Some (mr_attempts r !! attempt (origin a)) → mr_generations r !! generation_id a = None → ∃ r', commit_generation a r = Ok r' ∧ Inv r'.
Proof.
  intros HI [owner Ho] Hnew. unfold commit_generation. rewrite (update_entry_ok _ _ _ _ _ Ho). eexists. split; [done|].
  pose (r1 := set_mr_generations (<[generation_id a := a]> (mr_generations r)) r).
  refine (attempt_inv r1 _ _ _ _); [by apply generation_inv|]. intros g [= <-]. apply lookup_insert_eq.
Qed.

(** What is owed after a generation is accepted: it too. *)
Lemma owe_generation r s g :
  Inv r → is_Some (mr_generations r !! g) →
  let o := default default_owed (mr_owed r !! s) in
  owed_ok r {| owed_draw := owed_draw o; owed_generations := owed_generations o ++ [g]; owed_issued := owed_issued o |}.
Proof.
  intros HI Hg o. destruct (owed_default r s HI) as (Hi & Hgs & Hd). split_and!; simpl; [rewrite length_app; fold o in Hi; lia| |done].
  apply Forall_app. split; [done|by constructor].
Qed.

Lemma commit_completion_inv r a owner :
  Inv r → mr_attempts r !! attempt (origin (ca_generation a)) = Some owner → at_generation owner = Some (ca_generation a) →
  ∃ r', commit_completion a r = Ok r' ∧ Inv r'.
Proof.
  intros HI Ho Hg. unfold commit_completion. cbv zeta. set (r1 := if bool_decide _ then _ else _).
  assert (HI1 : Inv r1).
  { unfold r1. case_bool_decide; [|done]. apply owed_inv; [done|]. apply owe_generation; [done|].
    rewrite (inv_generations r HI _ _ _ Ho Hg). by eexists. }
  assert (E : mr_attempts r1 = mr_attempts r) by (unfold r1; by case_bool_decide). rewrite E, (update_entry_ok _ _ _ _ _ Ho). eexists. split; [done|].
  rewrite <- E. by apply attempt_inv.
Qed.

Lemma commit_utility_request_inv r a :
  Inv r → ur_request_id a ∉ mr_ids r → mr_physical_count r < U64_MAX → mr_journal_id r ≠ None → ∃ r', commit_utility_request a r = Ok r' ∧ Inv r'.
Proof.
  intros HI Hnew Hcount Hopen. destruct (inv_journal r HI) as [Hn Hf Hc]. unfold commit_utility_request. cbv zeta. simpl mr_physical_count.
  rewrite add_one_ok by lia. eexists. split; [done|]. set (i := ur_request_id a). set (u := ur_operation_id a).
  set (op0 := set_uo_last_sequence _ _). set (op := set_uo_requests _ op0). set (st := empty_response _ _ _ _).
  assert (Hold : utility_ok r u op0 ∧ i ∉ uo_requests op0).
  { unfold op0. destruct (mr_utilities r !! u) as [old|] eqn:Hu; simpl.
    - split; [exact (inv_utilities r HI u old Hu)|by eapply fresh_utility].
    - split; [|simpl; set_solver]. split; simpl; [set_solver|]. intros x. rewrite lookup_empty. by intros [? ?]. }
  destruct Hold as [[Hreq Hphys] Hni].
  pose (r0 := set_mr_ids ({[ i ]} ∪ mr_ids r) r). pose (r1 := set_mr_utilities (<[u := op]> (mr_utilities r0)) r0).
  assert (HI1 : Inv r1).
  { apply utility_inv; [by apply ids_inv| |].
    - split; simpl; [|set_solver]. intros x [Hx| ->%list_elem_of_singleton]%elem_of_app; [|split; [set_solver|]].
      + destruct (Hreq x Hx). split; [set_solver|done].
      + intros st' Hst'. destruct Hnew. apply (inv_ids r HI). by eexists.
    - simpl. intros x st' Hst' Hu'. destruct (ln_utility _ _ _ (inv_linked r HI x st' Hst') u Hu') as (old & Hold & Hin & Hp).
      unfold op, op0. rewrite Hold. simpl. split; [set_solver|done]. }
  pose (r2 := set_mr_response_values (<[i := new_response false false]> (mr_response_values r1)) r1).
  assert (HI2 : Inv (set_mr_responses (<[i := st]> (mr_responses r2)) r2)).
  { apply respond_inv; [by apply values_inv|simpl; set_solver| |].
    - intros v opv. simpl. destruct (decide (u = v)) as [->|Hne]; [done|]. rewrite lookup_insert_ne by done. intros Hv Hin.
      by destruct (fresh_utility r i v opv HI Hnew Hv).
    - constructor; simpl; [done|done| | |done].
      + intros v [= <-]. rewrite lookup_insert_eq. eexists. split; [done|]. split_and!; [unfold op; simpl; set_solver|done|].
        intros p Hp. destruct Hni. apply Hphys. by eexists.
      + intros _. rewrite lookup_insert_eq. by eexists. }
  eapply inv_frame; [exact HI2| |done..]. by constructor; simpl; [|done|lia].
Qed.

(** *** Utility completions *)
Lemma utility_delete_inv r u :
  Inv r → (∀ i st, mr_responses r !! i = Some st → rs_utility st ≠ Some u) → Inv (set_mr_utilities (delete u (mr_utilities r)) r).
Proof.
  intros [[] Hids Hln Hut Hco Hdr Hge How Hsc] Hfree. constructor; simpl; try done.
  - intros i st Hst. destruct (Hln i st Hst) as [Ha Hc Hu Hv Hd]. constructor; simpl; try done.
    intros v Hv'. rewrite lookup_delete_ne; [by apply Hu|]. intros ->. by destruct (Hfree i st Hst).
  - intros v op Hop. apply lookup_delete_Some in Hop as [_ Hop]. by apply Hut.
Qed.

Lemma values_delete_all_inv r ids :
  Inv r → Forall (fun i => mr_responses r !! i = None) ids → Inv (set_mr_response_values (foldr delete (mr_response_values r) ids) r).
Proof.
  intros HI. induction ids as [|i ids IH]; intros Hall; simpl; [eapply inv_frame; [done|by destruct (inv_journal r HI)|done..]|].
  apply Forall_cons in Hall as [Hi Hids]. refine (values_delete_inv (set_mr_response_values _ r) i (IH Hids) _). simpl. by rewrite Hi.
Qed.

Definition all_delivered (op : UtilityOperation) (ids : list str) : Prop :=
  Forall (fun i => ∃ p, uo_physical op !! i = Some p ∧ up_delivered p = true) ids.

Lemma settled_retries_delivered op ids u : settled_retries op ids = Ok u → all_delivered op ids.
Proof.
  unfold settled_retries. intros Hs. cbv zeta in Hs. destruct (_ || _) eqn:E; [done|]. clear Hs. to_prop. apply Forall_forall. intros i Hi.
  match goal with Hx : existsb _ _ = false |- _ => rewrite <- not_true_iff_false, existsb_exists in Hx; rename Hx into Hex end.
  unfold undelivered in Hex. destruct (uo_physical op !! i) as [p|] eqn:Hp.
  - exists p. split; [done|]. destruct (up_delivered p) eqn:Hd; [done|]. destruct Hex. exists i. rewrite Hp, Hd. split; [by apply list_elem_of_In|done].
  - destruct Hex. exists i. rewrite Hp. split; [by apply list_elem_of_In|done].
Qed.

Lemma completed_operation_ids op ids completion line u : completed_operation op ids completion line = Ok u → uo_requests op = ids.
Proof. unfold completed_operation. intros Hc. passed Hc. to_prop. by apply dec_stable. Qed.

Lemma plan_utility_completion_owner r record line a :
  plan_utility_completion r record line = Ok a →
  match mr_utilities r !! uc_operation_id a with
  | Some op => uo_requests op = uc_request_ids a ∧ all_delivered op (uc_request_ids a)
  | None => uc_request_ids a = []
  end.
Proof.
  intros Hp. unfold plan_utility_completion in Hp. passed Hp; injection Hp as <-; simpl.
  - match goal with E : mr_utilities r !! _ = Some _ |- _ => rewrite E end. split; [by eapply completed_operation_ids|by eapply settled_retries_delivered].
  - match goal with E : mr_utilities r !! _ = None |- _ => rewrite E end. to_prop. by apply dec_stable.
Qed.

(** An operation whose requests were all delivered has no open response. *)
Lemma delivered_closed r u op i st :
  Inv r → mr_utilities r !! u = Some op → all_delivered op (uo_requests op) → mr_responses r !! i = Some st → rs_utility st ≠ Some u.
Proof.
  intros HI Hop Hall Hst Hu. destruct (ln_utility _ _ _ (inv_linked r HI i st Hst) u Hu) as (op' & Hop' & Hin & _ & Hp).
  rewrite Hop in Hop'. injection Hop' as <-. apply (proj1 (Forall_forall _ _) Hall) in Hin as (p & Hi & Hd). by rewrite (Hp p Hi) in Hd.
Qed.

Lemma commit_utility_completion_inv r record line a :
  Inv r → plan_utility_completion r record line = Ok a → Inv (commit_utility_completion a r).
Proof.
  intros HI Hp%plan_utility_completion_owner. unfold commit_utility_completion.
  assert (Hfree : ∀ i st, mr_responses r !! i = Some st → rs_utility st ≠ Some (uc_operation_id a)).
  { intros i st Hst Hu. destruct (ln_utility _ _ _ (inv_linked r HI i st Hst) _ Hu) as (op & Hop & _). rewrite Hop in Hp. destruct Hp as [<- Hall].
    by apply (delivered_closed r _ op i st HI Hop Hall Hst). }
  assert (Hgone : Forall (fun i => mr_responses r !! i = None) (uc_request_ids a)).
  { destruct (mr_utilities r !! uc_operation_id a) as [op|] eqn:Hop; [|rewrite Hp; by constructor]. destruct Hp as [<- _]. apply Forall_forall.
    intros i Hi. destruct (mr_responses r !! i) as [st|] eqn:Hst; [|done]. destruct (Hfree i st Hst).
    by apply (proj2 (proj1 (inv_utilities r HI _ op Hop) i Hi)). }
  pose proof (values_delete_all_inv _ _ (utility_delete_inv r _ HI Hfree) Hgone) as HI1.
  destruct (uc_token_count a); (eapply inv_frame; [exact HI1| |done..]); destruct (inv_journal r HI); by constructor.
Qed.

(** *** Compaction records *)
Definition claimable (r : ModelRequests) (c : str * DrawOutput) : Prop := ∃ op, mr_compactions r !! c.1 = Some op ∧ co_open op = ∅.

Lemma check_compaction_draw_claimable r id scope model physical draw kind a b c output :
  check_compaction_draw r id scope model physical draw kind = Ok (a, b, c, output) → claimable r (id, output).
Proof.
  intros Hc. unfold check_compaction_draw in Hc. destruct (mr_compactions r !! id) as [op|] eqn:Hop; [|done].
  destruct (negb (draw_evidence op scope physical)) eqn:E; [done|]. apply negb_false_iff in E. unfold draw_evidence in E. to_prop. by exists op.
Qed.

Definition claims_ok (r : ModelRequests) (st : Claims) : Prop :=
  Forall (claimable r) (cl_claims st) ∧ NoDup (cl_claims st).*1 ∧ ∀ i, i ∈ (cl_claims st).*1 → i ∈ cl_unique st.

Lemma claim_record_draw_ok r measurements budget scope status line st draw st' :
  claims_ok r st → claim_record_draw r measurements budget scope status line st draw = Ok st' → claims_ok r st'.
Proof.
  intros (Hall & Hnd & Hsub) Hc. unfold claim_record_draw in Hc. passed Hc. injection Hc as <-. unfold claims_ok. simpl. rewrite fmap_app. simpl.
  split_and!.
  - apply Forall_app. split; [done|]. constructor; [|constructor]. by eapply check_compaction_draw_claimable.
  - apply NoDup_app. split_and!; [done| |apply NoDup_singleton]. set_solver.
  - set_solver.
Qed.

Lemma committed_draw_sections succeeded claims line d :
  committed_draw succeeded claims line = Ok (Some d) → ∃ output secs, (d, output) ∈ claims ∧ snapshot_sections (draw_calls output) = Some secs.
Proof.
  unfold committed_draw. intros Hc. passed Hc. injection Hc as <-.
  match goal with E : list.last claims = Some (_, ?o), S : snapshot_sections _ = Some ?l |- _ => exists o, l; apply last_Some_elem_of in E end. done.
Qed.

Lemma validate_compaction_claims r record limits scope line claims committed :
  validate_compaction_event r record limits scope line = Ok (claims, committed) →
  Forall (claimable r) claims ∧ NoDup claims.*1 ∧
  (∀ d, committed = Some d → ∃ output secs, (d, output) ∈ claims ∧ snapshot_sections (draw_calls output) = Some secs).
Proof.
  intros Hc. unfold validate_compaction_event in Hc. passed Hc. injection Hc as <- <-.
  match goal with Hf : fold_result (claim_record_draw _ _ _ _ _ _) no_claims _ = Ok ?st |- _ =>
    assert (Hok : claims_ok r st) by (refine (fold_result_inv (claims_ok r) _ _ _ _ _ _ Hf);
      [intros ? ? ? _; apply claim_record_draw_ok|split_and!; simpl; [constructor|constructor|set_solver]]) end.
  destruct Hok as (? & ? & _). split_and!; [done|done|]. intros d ->. by eapply committed_draw_sections.
Qed.

Lemma claim_draw_inv r c : Inv r → claimable r c →
  ∃ r', claim_draw r c = Ok r' ∧ Inv r' ∧ mr_draws r' = <[c.1 := c.2]> (mr_draws r) ∧ mr_compactions r' = delete c.1 (mr_compactions r).
Proof.
  destruct c as [d output]. intros [[] Hids Hln Hut Hco Hdr Hge How Hsc] (op & Hop & Hopen). simpl in *. rewrite Hop. eexists. split; [done|].
  split_and!; [|done|done]. destruct (Hco d op Hop) as [Hnc _]. constructor; simpl; try done.
  - intros i st Hst. destruct (Hln i st Hst) as [Ha Hc Hu Hv Hd]. constructor; simpl; try done.
    intros c Hst'. destruct (Hc c Hst') as (op' & Hop' & Hin). exists op'. split; [|done]. rewrite lookup_delete_ne; [done|]. intros <-. set_solver.
  - intros c op' Hop'. apply lookup_delete_Some in Hop' as [Hne Hop']. destruct (Hco c op' Hop'). split; [set_solver|done].
  - intros x. destruct (decide (d = x)) as [->|Hne]; [set_solver|]. rewrite lookup_insert_ne by done. intros Hx%Hdr. set_solver.
  - intros s o Ho. eapply owed_ok_mono; [by eapply How|done|]. simpl. intros x out Hx. rewrite lookup_insert_ne; [done|]. intros <-. apply Hnc, Hdr. by eexists.
Qed.

Lemma commit_claims_inv claims r : Inv r → NoDup claims.*1 → Forall (claimable r) claims →
  ∃ r', commit_compaction_claims claims r = Ok r' ∧ Inv r' ∧ (∀ d, d ∉ claims.*1 → mr_draws r' !! d = mr_draws r !! d) ∧
    (∀ d output, (d, output) ∈ claims → mr_draws r' !! d = Some output).
Proof.
  unfold commit_compaction_claims. revert r. induction claims as [|c claims IH]; intros r HI Hnd Hall; simpl.
  { exists r. split_and!; [done|done|done|set_solver]. }
  apply NoDup_cons in Hnd as [Hnin Hnd]. apply Forall_cons in Hall as [Hc Hall].
  destruct (claim_draw_inv r c HI Hc) as (r1 & -> & HI1 & Ed & Ec). cbn [mbind result_bind].
  destruct (IH r1 HI1 Hnd) as (r' & -> & HI' & Hother & Hin).
  { apply Forall_forall. intros x Hx. destruct (proj1 (Forall_forall _ _) Hall x Hx) as (op & Hop & ?). exists op. split; [|done].
    rewrite Ec, lookup_delete_ne; [done|]. intros E. apply Hnin. rewrite E. by apply list_elem_of_fmap_2. }
  exists r'. split_and!; [done|done| |].
  - intros d Hd. apply not_elem_of_cons in Hd as [Hne Hd]. rewrite (Hother d Hd), Ed. by rewrite lookup_insert_ne.
  - intros d output [E|Hd]%elem_of_cons; [|by apply Hin]. subst c. rewrite (Hother d Hnin), Ed. apply lookup_insert_eq.
Qed.

Lemma commit_compaction_inv r scope d output secs :
  Inv r → mr_draws r !! d = Some output → snapshot_sections (draw_calls output) = Some secs → ∃ r', commit_compaction scope d r = Ok r' ∧ Inv r'.
Proof.
  intros HI Hd Hs. destruct (owed_default r scope HI) as (Hi & Hg & _). unfold commit_compaction. cbv zeta.
  destruct (Nat.ltb_spec (length (owed_generations (default default_owed (mr_owed r !! scope)))) (owed_issued (default default_owed (mr_owed r !! scope))));
    [lia|]. eexists. split; [done|]. apply owed_inv; [done|]. split_and!; simpl; [lia|by apply Forall_drop|]. intros x [= <-]. by exists output, secs.
Qed.

Lemma commit_compaction_record_inv r record limits scope line claims committed :
  Inv r → validate_compaction_event r record limits scope line = Ok (claims, committed) →
  ∃ r', commit_compaction_record scope claims committed r = Ok r' ∧ Inv r'.
Proof.
  intros HI (Hall & Hnd & Hsec)%validate_compaction_claims. unfold commit_compaction_record.
  destruct (commit_claims_inv claims r HI Hnd Hall) as (r1 & -> & HI1 & _ & Hin). cbn [mbind result_bind].
  destruct committed as [d|]; [|by exists r1]. destruct (Hsec d eq_refl) as (output & secs & Hd & Hs). by eapply commit_compaction_inv; [done|by apply Hin|].
Qed.
End Records.

(** ** Responses *)
Section Answers.
Context `{BigIntOps} `{!BigIntLaws} `{Sha256Ops} `{Serde} `{Base64} `{StreamContract} (SERVED_TURN_REFUSALS : list ServedTurnRefusal).

(** A response taken out of the state while its event is committed. *)
Record owned (r : ModelRequests) (i : str) (st : ResponseState) : Prop := {
  ow_id : i ∈ mr_ids r;
  ow_utility : ∀ u op, mr_utilities r !! u = Some op → i ∈ uo_requests op → rs_utility st = Some u;
  ow_linked : linked r i st;
}.

Lemma owned_start r i st : Inv r → mr_responses r !! i = Some st → owned r i st.
Proof.
  intros HI Hst. constructor; [apply (inv_ids r HI); by eexists| |by apply inv_linked].
  intros u op Hop Hin. by apply (proj2 (proj1 (inv_utilities r HI u op Hop) i Hin)).
Qed.

(** What an event may change of a response without touching its owner. *)
Lemma owned_update r i st st' :
  owned r i st → rs_attempt st' = rs_attempt st → rs_compaction st' = rs_compaction st → rs_utility st' = rs_utility st →
  rs_processing st' = rs_processing st → (rs_processing st' ≠ None → rs_digest st' = None) → owned r i st'.
Proof.
  intros [Hi Ho [Ha Hc Hu Hv Hd]] E1 E2 E3 E4 Hd'. constructor; [done|by rewrite E3|].
  constructor; rewrite ?E1, ?E2, ?E3, ?E4; auto. by rewrite E4 in Hd'.
Qed.

Lemma keep_inv r i st : Inv (end_response i r) → owned r i st → Inv (keep_response i (st, r)).
Proof.
  intros HI [Hi Ho Hl]. unfold keep_response. simpl. rewrite <- insert_delete_eq.
  refine (respond_inv (end_response i r) i st HI Hi Ho _). apply (linked_mono r); simpl; by eauto.
Qed.

Lemma owned_values r i j v st : owned r i st → owned (set_mr_response_values (<[j := v]> (mr_response_values r)) r) i st.
Proof.
  intros [Hi Ho Hl]. constructor; [done|done|]. apply (linked_mono r); simpl; eauto. apply inserted_some.
Qed.

(** A processed response needs its values no more. *)
Lemma owned_processed r i st :
  owned r i st → rs_processing st ≠ None → owned (set_mr_response_values (delete i (mr_response_values r)) r) i st.
Proof. intros [Hi Ho [Ha Hc Hu Hv Hd]] Hp. by constructor. Qed.

Lemma end_values_delete r i : Inv (end_response i r) → Inv (end_response i (set_mr_response_values (delete i (mr_response_values r)) r)).
Proof.
  intros HI. refine (values_delete_inv (end_response i r) i HI _). simpl. by rewrite lookup_delete_eq.
Qed.

Lemma commit_body_step_inv r i bytes st :
  Inv (end_response i r) → owned r i st → rs_processing st = None → rs_digest st ≠ None → is_Some (checked_add (rs_bytes st) (Z.of_nat (length bytes))) →
  ∃ step, commit_body_step i bytes st r = Ok step ∧ Inv (keep_response i step).
Proof.
  intros HI Hown Hp Hd [n Hn]. unfold commit_body_step. rewrite Hn. cbn [mbind result_bind expect].
  destruct (rs_digest st) as [digest|]; [|done]. cbn [mbind result_bind expect].
  destruct (ln_values _ _ _ (ow_linked _ _ _ Hown) Hp) as [v Hv]. rewrite (update_entry_ok _ _ _ _ _ Hv). eexists. split; [done|].
  apply keep_inv; [by refine (values_inv (end_response i r) i _ HI)|]. apply (owned_update _ _ st); [by apply owned_values|done..|].
  simpl. by rewrite Hp.
Qed.

(** *** An outcome *)
Definition processed (completed : bool) (delivered : Z) (st : ResponseState) : ResponseState :=
  set_rs_pipeline_outputs (Some delivered) (set_rs_processing (Some completed) st).

Lemma outcome_of_utility_inv r i completed delivered st :
  Inv (end_response i r) → owned r i st → rs_digest st = None →
  ∃ r', outcome_of_utility i completed (processed completed delivered st) r = Ok r' ∧ Inv (end_response i r') ∧
    owned r' i (processed completed delivered st) ∧ mr_response_values r' = mr_response_values r.
Proof.
  intros HI [Hi Ho [Ha Hc Hu Hv Hd]] Hdig. unfold outcome_of_utility. simpl. destruct (rs_utility st) as [u|] eqn:Eu.
  - destruct (Hu u eq_refl) as (op & Hop & Hin & _ & Hp). rewrite (update_entry_ok _ _ _ _ _ Hop). eexists. split; [done|]. simpl.
    destruct (inv_utilities _ HI u op Hop) as [Hreq Hphys]. split_and!; [| |done].
    + refine (utility_inv (end_response i r) u _ HI _ _).
      * split; [done|]. simpl. intros j. destruct (decide (i = j)) as [->|Hne]; [done|]. rewrite lookup_insert_ne by done. apply Hphys.
      * simpl. intros j stj Hj Huj. apply lookup_delete_Some in Hj as [Hne Hj]. rewrite lookup_insert_ne by done.
        destruct (ln_utility _ _ _ (inv_linked _ HI j stj ltac:(simpl; by rewrite lookup_delete_ne)) u Huj) as (op' & Hop' & Hrest).
        simpl in Hop'. rewrite Hop in Hop'. by injection Hop' as <-.
    + constructor; [done| |].
      * intros v opv. simpl. rewrite Eu. destruct (decide (u = v)) as [->|Hne]; [done|]. rewrite lookup_insert_ne by done. apply Ho.
      * constructor; simpl; [done|done| |done|done]. rewrite Eu. intros v [= <-]. rewrite lookup_insert_eq. eexists. split; [done|]. simpl.
        rewrite lookup_insert_eq. split_and!; [done|by eexists|by intros p [= <-]].
  - eexists. split; [done|]. split_and!; [done| |done]. constructor; [done|by rewrite <- Eu in Ho|]. by constructor; simpl; rewrite ?Eu.
Qed.

Lemma outcome_of_draw_inv r i outcome st :
  Inv (end_response i r) → owned r i st → rs_processing st ≠ None →
  (rs_compaction st ≠ None → ∃ s, mr_response_values r !! i = Some (Stream s)) →
  ∃ st' r', outcome_of_draw i outcome st r = Ok (st', r') ∧ Inv (end_response i r') ∧ owned r' i st' ∧ rs_processing st' ≠ None.
Proof.
  intros HI Hown Hp Hs. unfold outcome_of_draw. destruct (rs_compaction st) as [c|] eqn:Ec; [|by exists st, r].
  destruct (Hs ltac:(done)) as [s Hv]. rewrite Hv. cbn [stream_values into_stream_values expect mbind result_bind].
  destruct (ln_compaction _ _ _ (ow_linked _ _ _ Hown) c Ec) as (op & Hop & Hin). rewrite (update_entry_ok _ _ _ _ _ Hop).
  eexists _, _. split; [done|]. set (op' := set_co_failures _ _). set (r0 := set_mr_response_values (delete i (mr_response_values r)) r).
  destruct (inv_compactions _ HI c op Hop) as [Hcl Hreq]. split_and!; [| |done].
  - refine (compaction_inv (end_response i r0) c op' (end_values_delete r i HI) Hcl Hreq _). simpl. intros j stj Hj Hcj.
    apply lookup_delete_Some in Hj as [Hne Hj].
    destruct (ln_compaction _ _ _ (inv_linked _ HI j stj ltac:(simpl; by rewrite lookup_delete_ne)) c Hcj) as (o & Ho & Hjo).
    simpl in Ho. rewrite Hop in Ho. by injection Ho as <-.
  - apply (owned_update _ _ st); [|done..|by apply (ow_linked _ _ _ Hown)]. destruct (owned_processed r i st Hown Hp) as [Hi Hu Hl]. constructor; [done|done|].
    apply (linked_mono _ _ _ _ Hl); simpl; eauto. intros c' o Ho Hio. destruct (decide (c = c')) as [->|Hne].
    + rewrite lookup_insert_eq. rewrite Hop in Ho. injection Ho as <-. by exists op'.
    + rewrite lookup_insert_ne by done. by exists o.
Qed.

Lemma outcome_of_attempt_inv r i outcome st :
  Inv (end_response i r) → owned r i st → ∃ r', outcome_of_attempt i outcome st r = Ok r' ∧ Inv (end_response i r') ∧ owned r' i st.
Proof.
  intros HI Hown. unfold outcome_of_attempt. destruct (rs_attempt st) as [x|] eqn:Ex; [|by exists r].
  destruct (ln_attempt _ _ _ (ow_linked _ _ _ Hown) x Ex) as [at_ Hat]. rewrite (update_entry_ok _ _ _ _ _ Hat). eexists. split; [done|]. split.
  - refine (attempt_inv (end_response i r) x _ HI _). intros g Hg. exact (inv_generations _ HI x at_ g Hat Hg).
  - destruct Hown as [Hi Ho Hl]. constructor; [done|done|]. apply (linked_mono r); simpl; eauto. intros a. apply inserted_some.
Qed.

Lemma usage_stage r i st x y : Inv (end_response i r) → owned r i st →
  Inv (end_response i (set_mr_all_usage y (set_mr_usage x r))) ∧ owned (set_mr_all_usage y (set_mr_usage x r)) i st.
Proof.
  intros HI [Hi Ho Hl]. split.
  - eapply inv_frame; [exact HI| |done..]. destruct (inv_journal _ HI). by constructor.
  - constructor; [done|done|]. apply (linked_mono r); simpl; by eauto.
Qed.

Lemma commit_outcome_inv r a completed delivered st o :
  Inv (end_response (rp_request_id a) r) → owned r (rp_request_id a) st → rs_digest st = None → rp_outcome a = Some o →
  (rs_compaction st ≠ None → ∃ s, mr_response_values r !! rp_request_id a = Some (Stream s)) →
  ∃ step, commit_outcome a completed delivered st r = Ok step ∧ Inv (keep_response (rp_request_id a) step).
Proof.
  intros HI Hown Hdig Ho Hs. unfold commit_outcome. cbv zeta. rewrite Ho. cbn [expect mbind result_bind]. fold (processed completed delivered st).
  destruct (outcome_of_utility_inv r _ completed delivered st HI Hown Hdig) as (r1 & -> & HI1 & Hown1 & Ev). cbn [mbind result_bind].
  destruct (outcome_of_draw_inv r1 _ o _ HI1 Hown1) as (st2 & r2 & -> & HI2 & Hown2 & Hp2); [done|by rewrite Ev|]. cbn [mbind result_bind].
  set (r3 := if _ || _ then _ else r2).
  assert (Hown3 : Inv (end_response (rp_request_id a) r3) ∧ owned r3 (rp_request_id a) st2).
  { unfold r3. destruct (_ || _); [|done]. split; [by apply end_values_delete|by apply owned_processed]. }
  destruct Hown3 as [HI3 Hown3]. set (r4 := match rp_usage a with Some _ => _ | None => r3 end).
  assert (Hown4 : Inv (end_response (rp_request_id a) r4) ∧ owned r4 (rp_request_id a) st2).
  { unfold r4. destruct (rp_usage a) as [[? ?]|]; [by apply usage_stage|done]. }
  destruct Hown4 as [HI4 Hown4]. destruct (outcome_of_attempt_inv r4 _ o st2 HI4 Hown4) as (r5 & -> & HI5 & Hown5).
  eexists. split; [done|]. by apply keep_inv.
Qed.

(** *** The end of a response *)
Lemma deliver_utility_inv r i st :
  Inv (end_response i r) → owned r i st → rs_processing st ≠ None →
  ∃ r', deliver_utility i st r = Ok r' ∧ Inv (end_response i r') ∧ mr_compactions r' = mr_compactions r.
Proof.
  intros HI [_ _ Hl] Hp. unfold deliver_utility. destruct (rs_utility st) as [u|] eqn:Eu; [|by exists r].
  destruct (ln_utility _ _ _ Hl u Eu) as (op & Hop & Hin & Hphys & _). rewrite Hop. cbn [expect mbind result_bind].
  destruct (Hphys Hp) as [p Hpi]. rewrite (update_entry_ok _ _ _ _ _ Hpi). eexists. split; [done|]. split; [|done].
  destruct (inv_utilities _ HI u op Hop) as [Hreq Hdom]. refine (utility_inv (end_response i r) u _ HI _ _).
  - split; [done|]. simpl. intros j. destruct (decide (i = j)) as [->|Hne]; [done|]. rewrite lookup_insert_ne by done. apply Hdom.
  - simpl. intros j stj Hj Huj. apply lookup_delete_Some in Hj as [Hne Hj]. rewrite lookup_insert_ne by done.
    destruct (ln_utility _ _ _ (inv_linked _ HI j stj ltac:(simpl; by rewrite lookup_delete_ne)) u Huj) as (op' & Hop' & Hrest).
    simpl in Hop'. rewrite Hop in Hop'. by injection Hop' as <-.
Qed.

Lemma deliver_draw_inv r i delivered st :
  Inv (end_response i r) → (∀ c, rs_compaction st = Some c → is_Some (mr_compactions r !! c)) →
  ∃ r', deliver_draw i delivered st r = Ok r' ∧ Inv (end_response i r').
Proof.
  intros HI Hc. unfold deliver_draw. destruct (rs_compaction st) as [c|] eqn:Ec; [|by exists r].
  destruct (Hc c eq_refl) as [op Hop]. rewrite (update_entry_ok _ _ _ _ _ Hop). eexists. split; [done|].
  set (op' := set_co_deliveries _ _). destruct (inv_compactions _ HI c op Hop) as [Hcl Hreq].
  refine (compaction_inv (end_response i r) c op' HI Hcl Hreq _). simpl.
  intros j stj Hj Hcj. apply lookup_delete_Some in Hj as [Hne Hj].
  destruct (ln_compaction _ _ _ (inv_linked _ HI j stj ltac:(simpl; by rewrite lookup_delete_ne)) c Hcj) as (o & Ho & Hjo).
  simpl in Ho. rewrite Hop in Ho. injection Ho as <-. set_solver.
Qed.

Lemma settle_history_inv r i accepted st :
  Inv (end_response i r) → owned r i st → rs_attempt st ≠ None → ∃ r', settle_history i accepted st r = Ok r' ∧ Inv (end_response i r').
Proof.
  intros HI [_ _ Hl] Ha. unfold settle_history. destruct (rs_attempt st) as [x|] eqn:Ex; [|done]. cbn [expect mbind result_bind].
  destruct (ln_attempt _ _ _ Hl x Ex) as [at_ Hat]. rewrite (update_entry_ok _ _ _ _ _ Hat). eexists. split; [done|].
  refine (attempt_inv (end_response i r) x _ HI _). intros g Hg. exact (inv_generations _ HI x at_ g Hat Hg).
Qed.

(** *** What an event was planned against *)
Definition ready (r : ModelRequests) (i : str) (st : ResponseState) (step : ResponseStep) (outcome : option ResponseOutcome) : Prop :=
  match step with
  | StepBody bytes => rs_processing st = None ∧ rs_digest st ≠ None ∧ is_Some (checked_add (rs_bytes st) (Z.of_nat (length bytes)))
  | StepOutcome _ _ =>
      rs_processing st = None ∧ rs_digest st = None ∧ outcome ≠ None ∧ (rs_compaction st ≠ None → ∃ s, mr_response_values r !! i = Some (Stream s))
  | StepDelivery _ => rs_processing st ≠ None
  | StepHistory _ => rs_processing st ≠ None ∧ rs_attempt st ≠ None
  | StepHttp _ _ | StepEnd _ | StepDecodedBody _ _ _ | StepDecodedEnd _ _ => rs_processing st = None
  end.

Lemma kind_in_one kind k : kind_in kind [k] = true → kind = lit k.
Proof. unfold kind_in. simpl. rewrite orb_false_r. apply bool_decide_eq_true. Qed.

(** The order of the events says where in its life a response is. *)
Lemma in_order st (k : string) (is_end is_outcome is_open : bool) :
  event_out_of_order st (lit k) = false →
  kind_in (lit k) ["history"; "delivery"]%string = is_end → kind_in (lit k) ["outcome"]%string = is_outcome →
  kind_in (lit k) ["http"; "body"; "end"]%string = is_open →
  (if is_end then rs_processing st ≠ None else rs_processing st = None) ∧
  (if is_outcome then rs_digest st = None else True) ∧ (if is_open then rs_digest st ≠ None else True).
Proof.
  unfold event_out_of_order. intros He E1 E2 E3. rewrite E1, E2, E3 in He. to_prop.
  match goal with Hb : Bool.eqb _ _ = true |- _ => apply eqb_prop in Hb; symmetry in Hb end.
  split_and!; [destruct is_end; to_prop; [done|by apply dec_stable]|destruct is_outcome; [|done]|destruct is_open; [|done]];
    simpl in *; to_prop; [by apply dec_stable|done].
Qed.

Lemma body_event_bytes st event line step :
  body_event st event line = Ok step → ∃ bytes, step = StepBody bytes ∧ is_Some (checked_add (rs_bytes st) (Z.of_nat (length bytes))).
Proof.
  intros Hb. unfold body_event in Hb. passed Hb. injection Hb as <-. eexists. split; [done|].
  match goal with E : exact_add _ _ = Some _ |- _ => unfold exact_add in E; apply bind_Some in E as (n & -> & _) end. by eexists.
Qed.

Lemma decoded_event_step st event kind line step :
  decoded_event st event kind line = Ok step → (∃ role index bytes, step = StepDecodedBody role index bytes) ∨ (∃ failure value, step = StepDecodedEnd failure value).
Proof.
  intros Hd. unfold decoded_event, decoded_body_event, decoded_end_event in Hd. passed Hd; injection Hd as <-; eauto.
Qed.

Lemma outcome_event_ready r i st event line step o :
  rs_processing st = None → rs_digest st = None → outcome_event SERVED_TURN_REFUSALS r i st event line = Ok (step, o) → ready r i st step (Some o).
Proof.
  intros Hproc Hdig Ho. unfold outcome_event in Ho. passed Ho. injection Ho as <- <-. split_and!; [done|done|done|].
  intros Hc. destruct (rs_compaction st) as [c|]; [|done].
  match goal with E : _ && _ = false, Hv : mr_response_values r !! i = Some ?v |- _ => destruct v as [s|]; [by exists s|done] end.
Qed.

Lemma http_event_step st event line step : http_event st event line = Ok step → ∃ status content, step = StepHttp status content.
Proof. intros Hh. unfold http_event in Hh. passed Hh. injection Hh as <-. by eexists _, _. Qed.
Lemma end_event_step st event line step : end_event st event line = Ok step → ∃ termination, step = StepEnd termination.
Proof. intros He. unfold end_event in He. passed He. injection He as <-. by eexists. Qed.
Lemma delivery_event_step st event line step : delivery_event st event line = Ok step → ∃ delivered, step = StepDelivery delivered.
Proof. intros He. unfold delivery_event in He. passed He; injection He as <-; by eexists. Qed.
Lemma history_event_step r st event line step :
  history_event r st event line = Ok step → rs_attempt st ≠ None ∧ ∃ accepted, step = StepHistory accepted.
Proof. intros He. unfold history_event in He. passed He. injection He as <-. split; [done|by eexists]. Qed.

Lemma response_event_ready r i st event kind line step outcome :
  event_out_of_order st kind = false → response_event SERVED_TURN_REFUSALS r i st event kind line = Ok (step, outcome) → ready r i st step outcome.
Proof.
  intros Horder Hev. unfold response_event in Hev. cbv zeta in Hev.
  destruct (kind_in kind ["http"]%string) eqn:K1; [|clear K1; destruct (kind_in kind ["body"]%string) eqn:K2;
    [|clear K2; destruct (kind_in kind ["end"]%string) eqn:K3;
    [|clear K3; destruct (kind_in kind ["decoded_body"; "decoded_end"]%string) eqn:K4;
    [|clear K4; destruct (kind_in kind ["outcome"]%string) eqn:K5;
    [|clear K5; destruct (kind_in kind ["delivery"]%string) eqn:K6;
    [|clear K6; destruct (kind_in kind ["history"]%string) eqn:K7; [|done]]]]]]].
  all: inv_ok; subst.
  - apply kind_in_one in K1 as ->. destruct (in_order _ _ false false true Horder eq_refl eq_refl eq_refl) as (Hp & _). by apply http_event_step in Hx as (? & ? & ->).
  - apply kind_in_one in K2 as ->. destruct (in_order _ _ false false true Horder eq_refl eq_refl eq_refl) as (Hp & _ & Hd). by apply body_event_bytes in Hx as (? & -> & ?).
  - apply kind_in_one in K3 as ->. destruct (in_order _ _ false false true Horder eq_refl eq_refl eq_refl) as (Hp & _). by apply end_event_step in Hx as (? & ->).
  - assert (Hp : rs_processing st = None).
    { unfold kind_in in K4. simpl in K4. rewrite orb_false_r in K4. apply orb_true_iff in K4 as [->%bool_decide_eq_true| ->%bool_decide_eq_true];
        by destruct (in_order _ _ false false false Horder eq_refl eq_refl eq_refl). }
    by apply decoded_event_step in Hx as [(? & ? & ? & ->)|(? & ? & ->)].
  - apply kind_in_one in K5 as ->. destruct (in_order _ _ false true false Horder eq_refl eq_refl eq_refl) as (Hp & Hd & _). destruct x as [step' o]. inv_ok. subst.
    by eapply outcome_event_ready.
  - apply kind_in_one in K6 as ->. destruct (in_order _ _ true false false Horder eq_refl eq_refl eq_refl) as (Hp & _). by apply delivery_event_step in Hx as (? & ->).
  - apply kind_in_one in K7 as ->. destruct (in_order _ _ true false false Horder eq_refl eq_refl eq_refl) as (Hp & _).
    by apply history_event_step in Hx as (? & ? & ->).
Qed.

Lemma plan_response_ready r record line a :
  plan_response SERVED_TURN_REFUSALS r record line = Ok a →
  ∃ st, mr_responses r !! rp_request_id a = Some st ∧ ready r (rp_request_id a) st (rp_step a) (rp_outcome a).
Proof.
  intros Hp. unfold plan_response in Hp. passed Hp. injection Hp as <-. simpl. eexists. split; [done|]. by eapply response_event_ready.
Qed.

Lemma commit_response_inv r a st :
  Inv r → mr_responses r !! rp_request_id a = Some st → ready r (rp_request_id a) st (rp_step a) (rp_outcome a) →
  ∃ r', commit_response a r = Ok r' ∧ Inv r'.
Proof.
  intros HI Hst Hready. unfold commit_response. cbv zeta. rewrite Hst. cbn [expect mbind result_bind].
  pose proof (end_inv r (rp_request_id a) HI) as HI0. set (st0 := set_rs_sequence (rp_sequence a) st).
  assert (Hown : owned r (rp_request_id a) st0).
  { pose proof (owned_start r _ st HI Hst) as Ho. apply (owned_update _ _ st); [done..|]. by apply (ln_digest _ _ _ (ow_linked _ _ _ Ho)). }
  destruct (rp_step a) as [status content|bytes|termination|role index bytes|failure value|completed delivered|delivered|accepted]; simpl in Hready.
  - eexists. split; [done|]. apply keep_inv; [done|]. apply (owned_update _ _ st0); [done..|]. simpl. by rewrite Hready.
  - destruct Hready as (Hp & Hd & Hn). destruct (commit_body_step_inv r _ bytes st0 HI0 Hown Hp Hd Hn) as (step & -> & ?). by eexists.
  - eexists. split; [done|]. apply keep_inv; [done|]. by apply (owned_update _ _ st0).
  - eexists. split; [done|]. apply keep_inv; [done|]. apply (owned_update _ _ st0); [done..|]. simpl. by rewrite Hready.
  - eexists. split; [done|]. apply keep_inv; [done|]. apply (owned_update _ _ st0); [done|by destruct failure..|]. intros Hp. destruct Hp. by destruct failure.
  - destruct Hready as (_ & Hd & Ho & Hs). destruct (rp_outcome a) as [o|] eqn:Eo; [|done].
    destruct (commit_outcome_inv r a completed delivered st0 o HI0 Hown Hd Eo Hs) as (step & -> & ?). by eexists.
  - destruct (deliver_utility_inv r _ st0 HI0 Hown Hready) as (r1 & -> & HI1 & Ec). cbn [mbind result_bind].
    destruct (deliver_draw_inv r1 _ delivered st0 HI1) as (r2 & -> & HI2); [|by eexists].
    intros c Hc. rewrite Ec. destruct (ln_compaction _ _ _ (ow_linked _ _ _ Hown) c Hc) as (op & -> & _). by eexists.
  - destruct (settle_history_inv r _ accepted st0 HI0 Hown (proj2 Hready)) as (r1 & -> & HI1). by eexists.
Qed.
End Answers.

(** ** Every reachable state *)
Section Reachable.
Context `{BigIntOps} `{!BigIntLaws} `{Sha256Ops} `{Serde} `{Base64} `{StreamContract} (SERVED_TURN_REFUSALS : list ServedTurnRefusal).

Lemma step_inv r res : Inv r → ledger_step SERVED_TURN_REFUSALS r res → ∃ r', res = Ok r' ∧ Inv r'.
Proof.
  intros HI Hs. destruct Hs as [record line a Hv Hp|record line limits operator a Hv Hp|record line a Hv Hp|record line a Hv Hp|record line limits schema a Hv Hp
    |record line a Hv Hp|record line limits a Hv Hp|record line a Hv Hp|record limits scope line claims committed Hv Hp].
  - destruct (plan_origin_new _ _ _ _ Hv Hp). eexists. split; [done|]. by apply commit_origin_inv.
  - apply commit_request_inv; [done|]. by eapply plan_request_admitted.
  - destruct (plan_response_ready _ _ _ _ _ Hp) as (st & Hst & Hready). by eapply commit_response_inv.
  - apply commit_seed_inv; [done|]. by eapply plan_seed_owner.
  - destruct (plan_generation_owner _ _ _ _ _ _ Hp). by apply commit_generation_inv.
  - destruct (plan_completion_owner _ _ _ _ Hp) as (owner & Ho & Hg). by eapply commit_completion_inv.
  - destruct (plan_utility_request_fresh _ _ _ _ _ HI Hv Hp) as (? & ? & ?). by apply commit_utility_request_inv.
  - eexists. split; [done|]. by eapply commit_utility_completion_inv.
  - by eapply commit_compaction_record_inv.
Qed.

Lemma ledger_inv r : ledger SERVED_TURN_REFUSALS r → Inv r.
Proof. induction 1 as [|r r' _ IH Hs]; [apply inv_default|]. by destruct (step_inv r _ IH Hs) as (? & [= <-] & ?). Qed.

(** C25: what was planned commits.  In every state a stream's records can lead
    to, a record that its plan admitted -- a journal origin, a chat or draw
    request, any event of a response, a normalization seed, a generation, a
    completion, a utility request or completion, a compaction -- is committed
    without a panic: the maps a commit reaches into with [expect] hold what the
    plan saw, the counters it advances do not overflow, and a draw a compaction
    replaced history with is split off what was issued before it. *)
Theorem planned_commits (r : ModelRequests) (res : contract ModelRequests) :
  ledger SERVED_TURN_REFUSALS r → ledger_step SERVED_TURN_REFUSALS r res → ∃ r', res = Ok r' ∧ ledger SERVED_TURN_REFUSALS r'.
Proof.
  intros Hr Hs. destruct (step_inv r res (ledger_inv r Hr) Hs) as (r' & -> & _). exists r'. split; [done|]. by eapply ledger_next.
Qed.
End Reachable.

(** ** A stream of six records

    A chat request, its headers, two bytes, its end, its failure and the
    history decision that abandons it. *)
Section Example.
Local Existing Instance example_serde.
Local Existing Instance example_contract.
Local Existing Instance plain_digest.
Local Existing Instance decimal_bigint.
Local Instance plain_base64 : Base64 := {| b64_decode := Some; b64_encode := fun s => s |}.

Definition escape_quotes (s : str) : str := concat (map (fun b => if b =? 34 then [92; 34] else [b]) s).
Definition example_request_body : str := quoted "{'kv_scope':'s','stream':true,'model':'m','messages':[]}".
Definition example_limits : Limits := {| limit_bytes := 65536; limit_nodes := 256; limit_depth := 16 |}.
Definition example_record (bytes : str) : Value := match decode bytes example_limits with Ok d => root d | Err _ => root (decoded "{}") end.
Definition example_request_record : Value :=
  example_record (quoted "{'request':{'journal_id':'j','sequence':0,'request_id':'q','kv_scope':'s','owner':{'kind':'chat','attempt_id':'a'},'segment_id':'g','body':{'kind':'full','json':'"
    ++ escape_quotes example_request_body ++ quoted "','authors':[{'bytes':" ++ show_Z (Z.of_nat (length example_request_body))
    ++ quoted ",'author':'harness'}]},'body_bytes':" ++ show_Z (Z.of_nat (length example_request_body)) ++ quoted ",'body_sha256':'"
    ++ sha256 example_request_body ++ quoted "','decode_policy':{'mode':'stream','model':'m'}}}").
Definition example_event (sequence : string) (event : string) : Value :=
  example_record (quoted "{'response':{'request_id':'q','journal_id':'j','sequence':" ++ lit sequence ++ quoted ",'event':" ++ quoted event ++ quoted "}}").
Definition example_events : list Value :=
  [example_event "1" "{'kind':'http','status':500,'content_type':null}";
   example_event "2" "{'kind':'body','offset':0,'base64':'ab'}";
   example_event "3" "{'kind':'end','termination':'eof','body_bytes':2,'body_sha256':'6162'}";
   example_event "4" "{'kind':'outcome','status':'failed','served_usage':null,'sdk_values_seen':0,'pipeline_outputs_delivered':0,'error':'x'}"].
Definition example_history : Value := example_event "5" "{'kind':'history','disposition':'abandoned'}".

Definition answer_record (r : ModelRequests) (record : Value) : contract ModelRequests := a ← plan_response [] r record 1; commit_response a r.
Definition request_record (r : ModelRequests) (record : Value) : contract ModelRequests :=
  a ← plan_request r record 1 example_limits []; commit_request a r.
Definition ok_or_default (r : contract ModelRequests) : ModelRequests := match r with Ok r => r | Err _ => default_requests end.
Definition example_open : ModelRequests := ok_or_default (request_record default_requests example_request_record).
Definition example_settled : ModelRequests := ok_or_default (fold_result answer_record example_open example_events).

Definition in_example (r : ModelRequests) : Prop := ledger [] r.

Lemma example_record_in_arena bytes : in_arena (example_record bytes).
Proof.
  unfold example_record. destruct (decode bytes example_limits) as [d|] eqn:E; [by eapply decoded_in_arena; [..|exact E]|].
  apply (decoded_in_arena (quoted "{}") small_limits); [done|done|by vm_compute].
Qed.

Lemma answer_ledger r record r' : in_example r → in_arena record → answer_record r record = Ok r' → in_example r'.
Proof. intros Hr Hv (a & Ha & Hc)%bind_ok_inv. eapply ledger_next; [exact Hr|]. rewrite <- Hc. by eapply step_response. Qed.

Lemma answers_ledger r records r' : in_example r → Forall in_arena records → fold_result answer_record r records = Ok r' → in_example r'.
Proof.
  intros Hr Hall. apply (fold_result_inv in_example); [|done]. intros s x s' Hx Hs. apply answer_ledger; [done|]. by apply (proj1 (Forall_forall _ _) Hall).
Qed.

Lemma request_ledger r record r' : in_example r → in_arena record → request_record r record = Ok r' → in_example r'.
Proof. intros Hr Hv (a & Ha & Hc)%bind_ok_inv. eapply ledger_next; [exact Hr|]. rewrite <- Hc. by eapply step_request. Qed.

Lemma example_open_ledger : in_example example_open.
Proof. eapply (request_ledger default_requests example_request_record); [apply ledger_new|apply example_record_in_arena|by vm_compute]. Qed.

Lemma example_settled_ledger : in_example example_settled.
Proof.
  eapply (answers_ledger example_open example_events); [exact example_open_ledger| |by vm_compute].
  unfold example_events. repeat (apply Forall_cons; split; [apply example_record_in_arena|]). apply Forall_nil_2.
Qed.

Lemma example_admitted :
  ∃ a, plan_response [] example_settled example_history 1 = Ok a.
Proof.
  assert (E : is_ok (plan_response [] example_settled example_history 1) = true) by (by vm_compute).
  destruct (plan_response _ _ _ _) as [a|]; [by exists a|done].
Qed.

Lemma planned_commits_witness :
  ∃ a r', plan_response [] example_settled example_history 1 = Ok a ∧ commit_response a example_settled = Ok r' ∧ ledger [] r'.
Proof.
  destruct example_admitted as [a Ha]. exists a.
  destruct (@planned_commits decimal_bigint decimal_bigint_laws plain_digest example_serde plain_base64 example_contract []
    example_settled (commit_response a example_settled) example_settled_ledger
    (step_response _ _ example_history 1 a (example_record_in_arena _) Ha)) as (r' & Hc & Hr').
  exact (ex_intro _ r' (conj Ha (conj Hc Hr'))).
Defined.
End Example.
