(* ===== verification/Account.v ===== *)
(** * Account: what the usage of a stream adds up (src/protocol/engine/src/model_requests.rs)

    [ModelRequests] keeps running totals: the number of physical requests, the
    usage of every scope and the usage of the whole stream, each updated when a
    request is admitted and when its response's outcome is.  Here they are
    compared with the account of the records themselves ([account_of]), which reads
    each record once and on its own: a request opens an entry under its scope, the
    outcome of its response settles it, with the served usage the record reports or
    without.  In every state the totals are the sums of that account, and a terminal
    record is accepted only when it reports those sums. *)
From S2P Require Import Prelude Number Utf8 BTree Json JsonTree Schema Stream Usage Generation Authorship Sse Serde Turns Requests Utilities Admission Compaction Ledger.

Section Account.
Context `{BigIntOps} `{!BigIntLaws} `{Sha256Ops} `{Serde} `{Base64} `{StreamContract} (SERVED_TURN_REFUSALS : list ServedTurnRefusal).

(** Each chat or draw request: its scope, and what is known of its usage. *)
Notation account := (gmap str (str * Request)).
Definition all_requests (f : account) : list Request := requests_of (snd <$> f).
Definition scope_requests (f : account) (s : str) : list Request := requests_of (snd <$> filter (fun kv => kv.2.1 = s) f).

Record accounts (r : ModelRequests) (f : account) : Prop := {
  ac_ids : ∀ i, is_Some (f !! i) → i ∈ mr_ids r;
  ac_known : ∀ i st, mr_responses r !! i = Some st → (rs_utility st = None ↔ is_Some (f !! i));
  ac_open : ∀ i s, f !! i = Some (s, Open) ↔
    ∃ st, mr_responses r !! i = Some st ∧ rs_processing st = None ∧ rs_utility st = None ∧ rs_scope st = s;
  ac_ok : map_Forall (fun _ q => request_ok q.2) f;
  ac_all : mr_all_usage r = summarize (all_requests f);
  ac_scope : ∀ s, scope_usage r s = summarize (scope_requests f s);
  ac_count : mr_physical_count r = Z.of_nat (size (mr_ids r));
}.

(** ** Sums *)
Lemma all_requests_insert f i s q : f !! i = None → summarize (all_requests (<[i := (s, q)]> f)) = plus_summary (one_request q) (summarize (all_requests f)).
Proof. intros Hi. unfold all_requests. rewrite fmap_insert. apply requests_of_insert. by rewrite lookup_fmap, Hi. Qed.

Lemma scope_requests_insert f i s q t : f !! i = None →
  summarize (scope_requests (<[i := (s, q)]> f) t) =
  if decide (s = t) then plus_summary (one_request q) (summarize (scope_requests f t)) else summarize (scope_requests f t).
Proof.
  intros Hi. unfold scope_requests. case_decide as Hs.
  - rewrite map_filter_insert_True by done. rewrite fmap_insert. apply requests_of_insert. rewrite lookup_fmap, (map_lookup_filter_None_2); [done|by left].
  - by rewrite map_filter_insert_not' by (by rewrite ?Hi).
Qed.

Lemma all_requests_ok f : map_Forall (fun _ q => request_ok q.2) f → Forall request_ok (all_requests f).
Proof. intros Hf. apply requests_of_ok. intros i q Hq. apply lookup_fmap_Some in Hq as (x & <- & Hx). by apply (Hf i x). Qed.
Lemma scope_requests_ok f s : map_Forall (fun _ q => request_ok q.2) f → Forall request_ok (scope_requests f s).
Proof.
  intros Hf. apply requests_of_ok. intros i q Hq. apply lookup_fmap_Some in Hq as (x & <- & Hx).
  apply map_lookup_filter_Some in Hx as [Hx _]. by apply (Hf i x).
Qed.

(** ** Steps that leave the totals alone *)
Record quiet (r r' : ModelRequests) : Prop := {
  qt_responses : mr_responses r' = mr_responses r;
  qt_usage : mr_usage r' = mr_usage r;
  qt_all : mr_all_usage r' = mr_all_usage r;
  qt_ids : mr_ids r' = mr_ids r;
  qt_count : mr_physical_count r' = mr_physical_count r;
}.

Lemma quiet_trans r1 r2 r3 : quiet r1 r2 → quiet r2 r3 → quiet r1 r3.
Proof. intros [] []. constructor; congruence. Qed.

Lemma accounts_quiet r r' f : accounts r f → quiet r r' → accounts r' f.
Proof.
  intros [Hi Hk Ho Hok Ha Hs Hc] [E1 E2 E3 E4 E5]. constructor; rewrite ?E1, ?E3, ?E4, ?E5; try done. intros s. unfold scope_usage. rewrite E2. apply Hs.
Qed.

Lemma update_quiet {V} (m : gmap str V) (k : str) (site : string) (f : V → V) (g : gmap str V → ModelRequests) (r r' : ModelRequests) :
  (m' ← update_entry m k site f; Ok (g m')) = Ok r' → (∀ m', quiet r (g m')) → quiet r r'.
Proof. intros (m' & _ & [= <-])%bind_ok_inv Hg. apply Hg. Qed.

Lemma commit_seed_quiet a r r' : commit_seed a r = Ok r' → quiet r r'.
Proof. intros Hc. by eapply update_quiet; [exact Hc|]. Qed.
Lemma commit_generation_quiet a r r' : commit_generation a r = Ok r' → quiet r r'.
Proof. intros Hc. by eapply update_quiet; [exact Hc|]. Qed.
Lemma commit_completion_quiet a r r' : commit_completion a r = Ok r' → quiet r r'.
Proof. intros Hc. unfold commit_completion in Hc. cbv zeta in Hc. eapply update_quiet; [exact Hc|]. intros m. by case_bool_decide. Qed.
Lemma commit_utility_completion_quiet a r : quiet r (commit_utility_completion a r).
Proof. unfold commit_utility_completion. by destruct (uc_token_count a). Qed.
Lemma commit_compaction_record_quiet scope claims committed r r' : commit_compaction_record scope claims committed r = Ok r' → quiet r r'.
Proof.
  unfold commit_compaction_record, commit_compaction_claims. intros (r1 & Hc & Hr)%bind_ok_inv.
  assert (Hq : quiet r r1).
  { refine (fold_result_inv (quiet r) _ _ _ _ _ _ Hc); [|done]. intros s c s' _ Hs Hd. unfold claim_draw in Hd. passed Hd. injection Hd as <-.
    by eapply quiet_trans; [exact Hs|]. }
  destruct committed; [|by injection Hr as <-]. unfold commit_compaction in Hr. passed Hr. injection Hr as <-. by eapply quiet_trans; [exact Hq|].
Qed.

(** ** Requests *)
Lemma plan_request_usage r record line limits operator a :
  plan_request r record line limits operator = Ok a →
  admit_request (scope_usage r (ra_scope a)) = Ok (ra_usage a) ∧ admit_request (mr_all_usage r) = Ok (ra_all_usage a).
Proof. intros Hp. unfold plan_request in Hp. passed Hp. by injection Hp as <-. Qed.

Lemma add_one_inv n site m : add_one n site = Ok m → m = n + 1.
Proof. unfold add_one, expect. destruct (checked_add n 1) as [x|] eqn:E; [|done]. intros [= <-]. by apply checked_add_Some in E as [-> _]. Qed.

(** What a new identity adds to the responses, the identities and the count. *)
Record opened (r r' : ModelRequests) (i : str) (st : ResponseState) : Prop := {
  op_responses : mr_responses r' = <[i := st]> (mr_responses r);
  op_ids : mr_ids r' = {[ i ]} ∪ mr_ids r;
  op_count : mr_physical_count r' = mr_physical_count r + 1;
}.

Lemma commit_owed_quiet a r : quiet r (commit_owed a r).
Proof. unfold commit_owed. by destruct (ra_attempt a). Qed.
Lemma commit_draw_quiet a r : quiet r (commit_draw a r).
Proof. unfold commit_draw. by destruct (ra_compaction a) as [[[? ?] ?]|]. Qed.
Lemma commit_attempt_quiet a r : quiet r (commit_attempt a r).
Proof. unfold commit_attempt. by destruct (ra_attempt a). Qed.

Lemma commit_request_opened a r r' :
  commit_request a r = Ok r' →
  opened r r' (body_id (ra_body a)) (empty_response (ra_scope a) (ra_attempt a) (fst <$> (fst <$> ra_compaction a)) None) ∧
  mr_usage r' = <[ra_scope a := ra_usage a]> (mr_usage r) ∧ mr_all_usage r' = ra_all_usage a.
Proof.
  unfold commit_request, commit_journal. intros (r1 & (count & Hcount & [= <-])%bind_ok_inv & [= <-])%bind_ok_inv.
  apply add_one_inv in Hcount as ->. set (r1 := set_mr_physical_count _ _).
  destruct (commit_owed_quiet a r) as [O1 O2 _ O4 O5].
  destruct (quiet_trans _ _ _ (commit_draw_quiet a r1) (commit_attempt_quiet a _)) as [E1 E2 _ E4 E5].
  set (r2 := commit_attempt a (commit_draw a r1)) in *. split; [|split; [|done]].
  - constructor; unfold commit_body; cbn [mr_responses mr_ids mr_physical_count set_mr_scopes set_mr_all_usage set_mr_usage set_mr_responses set_mr_response_values set_mr_ids].
    + by rewrite E1, <- O1.
    + by rewrite E4, <- O4.
    + by rewrite E5, <- O5.
  - unfold commit_body; cbn [mr_usage set_mr_scopes set_mr_all_usage set_mr_usage set_mr_responses set_mr_response_values set_mr_ids]. by rewrite E2, <- O2.
Qed.

Lemma commit_utility_request_opened a r r' :
  commit_utility_request a r = Ok r' →
  opened r r' (ur_request_id a) (empty_response (ur_scope a) None None (Some (ur_operation_id a))) ∧
  mr_usage r' = mr_usage r ∧ mr_all_usage r' = mr_all_usage r.
Proof.
  unfold commit_utility_request. cbv zeta. intros (count & Hcount & [= <-])%bind_ok_inv. apply add_one_inv in Hcount as ->. split; [by constructor|by split].
Qed.

Lemma opened_count r r' i st f : accounts r f → opened r r' i st → i ∉ mr_ids r → mr_physical_count r' = Z.of_nat (size (mr_ids r')).
Proof.
  intros Hacc [_ E2 E3] Hi. rewrite E2, E3, (ac_count _ _ Hacc), size_union by set_solver. rewrite size_singleton. lia.
Qed.

Lemma accounts_request r r' f a :
  Inv r → accounts r f → body_id (ra_body a) ∉ mr_ids r → admit_request (scope_usage r (ra_scope a)) = Ok (ra_usage a) →
  admit_request (mr_all_usage r) = Ok (ra_all_usage a) → commit_request a r = Ok r' →
  accounts r' (<[body_id (ra_body a) := (ra_scope a, Open)]> f).
Proof.
  intros HI Hacc Hnew Hscope Hall Hc. pose proof Hacc as [Hi Hk Ho Hok Ha Hs Hcnt]. set (i := body_id (ra_body a)) in *.
  destruct (commit_request_opened a r r' Hc) as (Hop & Eu & Ea). fold i in Hop. set (st := empty_response _ _ _ _) in Hop. pose proof Hop as [E1 E2 _].
  assert (Hf : f !! i = None) by (apply eq_None_not_Some; by intros ?%Hi).
  assert (Hr : mr_responses r !! i = None) by (apply eq_None_not_Some; by intros ?%(inv_ids r HI)).
  rewrite Ha in Hall. apply admit_request_ok in Hall as [_ Hall]; [|by apply summarize_shape, all_requests_ok].
  rewrite Hs in Hscope. apply admit_request_ok in Hscope as [_ Hscope]; [|by apply summarize_shape, scope_requests_ok].
  constructor.
  - intros j. rewrite E2. destruct (decide (i = j)) as [->|Hne]; [set_solver|]. rewrite lookup_insert_ne by done. intros ?%Hi. set_solver.
  - intros j st'. rewrite E1. destruct (decide (i = j)) as [<-|Hne]; [rewrite !lookup_insert_eq; intros [= <-]; split; [by eexists|done]|].
    rewrite !lookup_insert_ne by done. apply Hk.
  - intros j s. rewrite E1. destruct (decide (i = j)) as [<-|Hne]; [|rewrite !lookup_insert_ne by done; apply Ho].
    rewrite !lookup_insert_eq. split; [intros [= <-]; by exists st|]. by intros (st' & [= <-] & _ & _ & <-).
  - by apply map_Forall_insert_2.
  - rewrite Ea, Hall, all_requests_insert by done. apply plus_summary_comm.
  - intros s. rewrite scope_requests_insert by done. unfold scope_usage. rewrite Eu. case_decide as Hd.
    + rewrite <- Hd, lookup_insert_eq. simpl. rewrite Hscope. apply plus_summary_comm.
    + rewrite lookup_insert_ne by done. apply Hs.
  - by eapply opened_count.
Qed.

Lemma accounts_utility_request r r' f a :
  Inv r → accounts r f → ur_request_id a ∉ mr_ids r → commit_utility_request a r = Ok r' → accounts r' f.
Proof.
  intros HI Hacc Hnew Hc. pose proof Hacc as [Hi Hk Ho Hok Ha Hs Hcnt]. set (i := ur_request_id a) in *.
  destruct (commit_utility_request_opened a r r' Hc) as (Hop & Eu & Ea). fold i in Hop. set (st := empty_response _ _ _ _) in Hop. pose proof Hop as [E1 E2 _].
  assert (Hf : f !! i = None) by (apply eq_None_not_Some; by intros ?%Hi).
  assert (Hr : mr_responses r !! i = None) by (apply eq_None_not_Some; by intros ?%(inv_ids r HI)).
  constructor; [| | |done|by rewrite Ea|intros s; unfold scope_usage; rewrite Eu; apply Hs|by eapply opened_count].
  - intros j Hj. rewrite E2. apply Hi in Hj. set_solver.
  - intros j st'. rewrite E1. destruct (decide (i = j)) as [<-|Hne]; [rewrite lookup_insert_eq; intros [= <-]|rewrite lookup_insert_ne by done; apply Hk].
    rewrite Hf. split; [done|by intros [? ?]].
  - intros j s. rewrite E1. destruct (decide (i = j)) as [<-|Hne]; [|rewrite lookup_insert_ne by done; apply Ho].
    rewrite Hf, lookup_insert_eq. split; [done|]. by intros (st' & [= <-] & _ & ? & _).
Qed.

(** ** Responses *)

(** A response whose owner, scope and processing stay is accounted for as before. *)
Lemma accounts_keep r r' f i st st' :
  accounts r f → mr_responses r !! i = Some st → mr_responses r' = <[i := st']> (mr_responses r) → mr_usage r' = mr_usage r →
  mr_all_usage r' = mr_all_usage r → mr_ids r' = mr_ids r → mr_physical_count r' = mr_physical_count r →
  rs_utility st' = rs_utility st → rs_scope st' = rs_scope st → (rs_utility st = None → rs_processing st' = rs_processing st) → accounts r' f.
Proof.
  intros [Hi Hk Ho Hok Ha Hs Hc] Hst E1 E2 E3 E4 E5 Eu Es Ep. constructor; rewrite ?E1, ?E3, ?E4, ?E5; try done; [| |intros s; unfold scope_usage; rewrite E2; apply Hs].
  - intros j stj. destruct (decide (i = j)) as [<-|Hne]; [|rewrite lookup_insert_ne by done; apply Hk]. rewrite lookup_insert_eq. intros [= <-]. rewrite Eu. by apply Hk.
  - intros j s. rewrite Ho. destruct (decide (i = j)) as [<-|Hne]; [|by rewrite lookup_insert_ne].
    rewrite lookup_insert_eq, Hst. split; intros (x & [= <-] & Hp & Hu & Hx); eexists; (split; [done|]).
    + by rewrite (Ep Hu), Eu, Es.
    + rewrite Eu in Hu. by rewrite <- (Ep Hu), <- Es.
Qed.

(** A response that is processed leaves nothing open behind it. *)
Lemma accounts_end r r' f i st :
  accounts r f → mr_responses r !! i = Some st → rs_processing st ≠ None → mr_responses r' = delete i (mr_responses r) →
  mr_usage r' = mr_usage r → mr_all_usage r' = mr_all_usage r → mr_ids r' = mr_ids r → mr_physical_count r' = mr_physical_count r → accounts r' f.
Proof.
  intros [Hi Hk Ho Hok Ha Hs Hc] Hst Hp E1 E2 E3 E4 E5. constructor; rewrite ?E1, ?E3, ?E4, ?E5; try done; [| |intros s; unfold scope_usage; rewrite E2; apply Hs].
  - intros j stj Hj. apply lookup_delete_Some in Hj as [_ Hj]. by apply Hk.
  - intros j s. rewrite Ho. destruct (decide (i = j)) as [<-|Hne]; [|by rewrite lookup_delete_ne].
    rewrite lookup_delete_eq, Hst. split; [by intros (x & [= <-] & ? & _)|by intros (x & ? & _)].
Qed.

(** A generation's outcome settles its request. *)
Lemma accounts_outcome r r' f i st st' served usage all :
  accounts r f → mr_responses r !! i = Some st → rs_processing st = None → rs_utility st = None →
  (∀ w, served = Some w → counts w) → finalize (scope_usage r (rs_scope st)) served = Ok usage → finalize (mr_all_usage r) served = Ok all →
  mr_responses r' = <[i := st']> (mr_responses r) → mr_usage r' = <[rs_scope st := usage]> (mr_usage r) → mr_all_usage r' = all →
  mr_ids r' = mr_ids r → mr_physical_count r' = mr_physical_count r → rs_utility st' = None → rs_processing st' ≠ None →
  accounts r' (<[i := (rs_scope st, settled served)]> f).
Proof.
  intros [Hi Hk Ho Hok Ha Hs Hc] Hst Hp Hu Hw Hscope Hall E1 E2 E3 E4 E5 Eu Ep. set (s := rs_scope st) in *.
  assert (Hfi : f !! i = Some (s, Open)) by (apply Ho; by exists st).
  assert (Hrest : f = <[i := (s, Open)]> (delete i f)) by (by rewrite insert_delete_id).
  assert (Hdel : delete i f !! i = None) by apply lookup_delete_eq.
  assert (Hdok : map_Forall (fun _ q => request_ok q.2) (delete i f)) by (by apply map_Forall_delete).
  rewrite Ha, Hrest, all_requests_insert in Hall by done.
  apply finalize_ok in Hall as (Hreq & _ & Hall); [|by apply summarize_shape, all_requests_ok|done].
  rewrite Hs, Hrest, scope_requests_insert, decide_True in Hscope by done.
  apply finalize_ok in Hscope as (_ & _ & Hscope); [|by apply summarize_shape, scope_requests_ok|done].
  rewrite <- insert_delete_eq. constructor; rewrite ?E4, ?E5; try done.
  - intros j. destruct (decide (i = j)) as [<-|Hne]; [intros _; apply Hi; by eexists|]. rewrite lookup_insert_ne, lookup_delete_ne by done. apply Hi.
  - intros j stj. rewrite E1. destruct (decide (i = j)) as [<-|Hne].
    + rewrite !lookup_insert_eq. intros [= <-]. split; [by eexists|done].
    + rewrite !lookup_insert_ne, lookup_delete_ne by done. apply Hk.
  - intros j t. rewrite E1. destruct (decide (i = j)) as [<-|Hne].
    + rewrite !lookup_insert_eq. split; [by destruct served|by intros (x & [= <-] & ? & _)].
    + rewrite !lookup_insert_ne, lookup_delete_ne by done. apply Ho.
  - by apply map_Forall_insert_2.
  - by rewrite E3, all_requests_insert.
  - intros t. rewrite scope_requests_insert by done. unfold scope_usage. rewrite E2. case_decide as Hd.
    + by rewrite <- Hd, lookup_insert_eq.
    + rewrite lookup_insert_ne by done. change (scope_usage r t = summarize (scope_requests (delete i f) t)). rewrite Hs, Hrest at 1.
      rewrite scope_requests_insert by done. by case_decide.
Qed.

(** *** What an event does to its response *)
Definition same_owner (st st' : ResponseState) : Prop :=
  rs_utility st' = rs_utility st ∧ rs_scope st' = rs_scope st ∧ rs_processing st' = rs_processing st.

Lemma commit_body_step_quiet i bytes st r st' r' : commit_body_step i bytes st r = Ok (st', r') → quiet r r' ∧ same_owner st st'.
Proof. intros Hc. unfold commit_body_step in Hc. passed Hc. injection Hc as <- <-. by split. Qed.
Lemma outcome_of_utility_quiet i completed st r r' : outcome_of_utility i completed st r = Ok r' → quiet r r'.
Proof. intros Hc. unfold outcome_of_utility in Hc. passed Hc; by injection Hc as <-. Qed.
Lemma outcome_of_draw_quiet i o st r st' r' : outcome_of_draw i o st r = Ok (st', r') → quiet r r' ∧ same_owner st st'.
Proof. intros Hc. unfold outcome_of_draw in Hc. passed Hc; injection Hc as <- <-; by split. Qed.
Lemma outcome_of_attempt_quiet i o st r r' : outcome_of_attempt i o st r = Ok r' → quiet r r'.
Proof. intros Hc. unfold outcome_of_attempt in Hc. passed Hc; by injection Hc as <-. Qed.
Lemma deliver_utility_quiet i st r r' : deliver_utility i st r = Ok r' → quiet r r'.
Proof. intros Hc. unfold deliver_utility in Hc. passed Hc; by injection Hc as <-. Qed.
Lemma deliver_draw_quiet i delivered st r r' : deliver_draw i delivered st r = Ok r' → quiet r r'.
Proof. intros Hc. unfold deliver_draw in Hc. passed Hc; by injection Hc as <-. Qed.
Lemma settle_history_quiet i accepted st r r' : settle_history i accepted st r = Ok r' → quiet r r'.
Proof. intros Hc. unfold settle_history in Hc. passed Hc. by injection Hc as <-. Qed.

Lemma keep_accounts r r' f i st st' :
  accounts r f → mr_responses r !! i = Some st → quiet r r' → same_owner st st' → accounts (keep_response i (st', r')) f.
Proof.
  intros Hacc Hst [E1 E2 E3 E4 E5] (Eu & Es & Ep). eapply (accounts_keep r _ f i st st'); [done|done|unfold keep_response; simpl; by rewrite E1|done..].
Qed.

Lemma end_accounts r r' f i st :
  accounts r f → mr_responses r !! i = Some st → quiet r r' → rs_processing st ≠ None → accounts (end_response i r') f.
Proof. intros Hacc Hst [E1 E2 E3 E4 E5] Hp. eapply (accounts_end r _ f i st); [done|done|done|unfold end_response; simpl; by rewrite E1|done..]. Qed.

(** *** An outcome *)
Lemma outcome_event_scope r i st event line step o :
  in_arena event → outcome_event SERVED_TURN_REFUSALS r i st event line = Ok (step, o) →
  oc_scope o = rs_scope st ∧ ∀ w, oc_usage o = Some w → counts w.
Proof.
  intros Hv Ho. unfold outcome_event in Ho. passed Ho. injection Ho as <- <-. split; [done|]. simpl. intros w ->.
  match goal with Hu : outcome_usage _ _ ?u _ _ _ = Ok _, Hf : field event _ _ = Ok ?u |- _ =>
    unfold outcome_usage in Hu; pose proof (field_in_arena _ _ _ _ Hv Hf) as Hua; passed Hu; injection Hu as -> end.
  match goal with Hr : _ = Ok (Some w) |- _ => passed Hr; injection Hr as ->; by eapply served_read_counts end.
Qed.

Lemma response_event_outcome r i st event kind line step o :
  in_arena event → response_event SERVED_TURN_REFUSALS r i st event kind line = Ok (step, Some o) → oc_scope o = rs_scope st ∧ ∀ w, oc_usage o = Some w → counts w.
Proof.
  intros Hv He. unfold response_event in He. passed He; simplify_eq. by eapply outcome_event_scope.
Qed.

Lemma plan_response_usage r record line a :
  in_arena record → plan_response SERVED_TURN_REFUSALS r record line = Ok a →
  ∃ st, mr_responses r !! rp_request_id a = Some st ∧ ready r (rp_request_id a) st (rp_step a) (rp_outcome a) ∧
    plan_usage r st (rp_outcome a) = Ok (rp_usage a) ∧
    ∀ o, rp_outcome a = Some o → oc_scope o = rs_scope st ∧ ∀ w, oc_usage o = Some w → counts w.
Proof.
  intros Hv Hp. destruct (plan_response_ready _ _ _ _ _ Hp) as (st & Hst & Hready). exists st. split; [done|]. split; [done|].
  unfold plan_response in Hp. passed Hp. injection Hp as <-. simpl in *. simplify_eq. split; [done|]. intros out ->.
  eapply response_event_outcome; [|done]. eapply field_in_arena; [by eapply field_in_arena|done].
Qed.

Lemma commit_outcome_fields a completed delivered st r st' r' :
  commit_outcome a completed delivered st r = Ok (st', r') →
  ∃ o, rp_outcome a = Some o ∧ rs_utility st' = rs_utility st ∧ rs_scope st' = rs_scope st ∧ rs_processing st' ≠ None ∧
    mr_responses r' = mr_responses r ∧ mr_ids r' = mr_ids r ∧ mr_physical_count r' = mr_physical_count r ∧
    match rp_usage a with
    | Some (usage, all) => mr_usage r' = <[oc_scope o := usage]> (mr_usage r) ∧ mr_all_usage r' = all
    | None => mr_usage r' = mr_usage r ∧ mr_all_usage r' = mr_all_usage r
    end.
Proof.
  unfold commit_outcome. cbv zeta. intros (o & Ho & Hc)%bind_ok_inv. unfold expect in Ho. destruct (rp_outcome a) as [o'|]; [|done]. injection Ho as <-.
  apply bind_ok_inv in Hc as (r1 & [E1 E2 E3 E4 E5]%outcome_of_utility_quiet & Hc).
  apply bind_ok_inv in Hc as ([st2 r2] & [[F1 F2 F3 F4 F5] (S1 & S2 & S3)]%outcome_of_draw_quiet & Hc).
  apply bind_ok_inv in Hc as (r5 & [G1 G2 G3 G4 G5]%outcome_of_attempt_quiet & [= <- <-]). exists o'.
  split; [done|]. split; [done|]. split; [done|]. split; [by rewrite S3|]. rewrite G1, G2, G3, G4, G5, <- E1, <- E2, <- E3, <- E4, <- E5, <- F1, <- F2, <- F3, <- F4, <- F5.
  destruct (rp_usage a) as [[? ?]|], (_ || _); done.
Qed.

(** An account in which a request is settled. *)
Definition settle (i : str) (served : option ServedUsage) (f : account) : account := alter (fun entry => (entry.1, settled served)) i f.

Lemma settle_open i served f s : f !! i = Some (s, Open) → settle i served f = <[i := (s, settled served)]> f.
Proof.
  intros Hi. apply map_eq. intros j. unfold settle. destruct (decide (i = j)) as [<-|Hne].
  - by rewrite lookup_alter_eq, lookup_insert_eq, Hi.
  - by rewrite lookup_alter_ne, lookup_insert_ne.
Qed.
Lemma settle_none i served f : f !! i = None → settle i served f = f.
Proof. intros Hi. unfold settle. apply alter_id. by rewrite Hi. Qed.

Lemma accounts_response r r' f a st :
  accounts r f → mr_responses r !! rp_request_id a = Some st → ready r (rp_request_id a) st (rp_step a) (rp_outcome a) →
  plan_usage r st (rp_outcome a) = Ok (rp_usage a) → (∀ o, rp_outcome a = Some o → oc_scope o = rs_scope st ∧ ∀ w, oc_usage o = Some w → counts w) →
  (∀ o, rp_outcome a = Some o → ∃ completed delivered, rp_step a = StepOutcome completed delivered) →
  commit_response a r = Ok r' → accounts r' (match rp_outcome a with Some o => settle (rp_request_id a) (oc_usage o) f | None => f end).
Proof.
  intros Hacc Hst Hready Hplan Hout Hstep Hc. unfold commit_response in Hc. cbv zeta in Hc. rewrite Hst in Hc. cbn [expect mbind result_bind] in Hc.
  set (st0 := set_rs_sequence (rp_sequence a) st) in *.
  assert (match rp_step a with StepOutcome _ _ => True | _ => rp_outcome a = None end) as Hnone.
  { destruct (rp_outcome a) as [o|]; [|by destruct (rp_step a)]. by destruct (Hstep o eq_refl) as (? & ? & ->). }
  destruct (rp_step a) as [status content|bytes|termination|role index bytes|failure value|completed delivered|delivered|accepted]; simpl in Hready; try rewrite Hnone.
  - injection Hc as <-. by apply (keep_accounts r _ f _ st).
  - apply bind_ok_inv in Hc as ([st' r1] & [Hq Hs]%commit_body_step_quiet & [= <-]). by apply (keep_accounts r _ f _ st).
  - injection Hc as <-. by apply (keep_accounts r _ f _ st).
  - injection Hc as <-. by apply (keep_accounts r _ f _ st).
  - injection Hc as <-. apply (keep_accounts r _ f _ st); [done..|]. by destruct failure.
  - destruct Hready as (Hp & _). apply bind_ok_inv in Hc as ([st' r1] & Hc & [= <-]).
    apply commit_outcome_fields in Hc as (o & Ho & Eu & Es & Ep & E1 & E4 & E5 & Eusage). destruct (Hout o Ho) as [Escope Hw].
    unfold plan_usage in Hplan. rewrite Ho in Hplan |- *. case_bool_decide as Hut.
    + injection Hplan as Eplan. rewrite <- Eplan in Eusage. destruct Eusage as [E2 E3]. rewrite settle_none.
      2: { apply eq_None_not_Some. intros Hk%(ac_known _ _ Hacc _ _ Hst). by apply Hut. }
      eapply (accounts_keep r _ f _ st st'); [done|done|unfold keep_response; simpl; by rewrite E1|done..].
    + apply bind_ok_inv in Hplan as (usage & Hscope & Hplan). apply bind_ok_inv in Hplan as (all & Hall & [= Eplan]).
      rewrite <- Eplan in Eusage. destruct Eusage as [E2 E3]. rewrite Escope in E2, Hscope.
      rewrite (settle_open _ _ _ (rs_scope st)) by (apply (ac_open _ _ Hacc); by exists st).
      eapply (accounts_outcome r _ f _ st st' (oc_usage o) usage all); try done; [unfold keep_response; simpl; by rewrite E1|by rewrite Eu].
  - apply bind_ok_inv in Hc as (r1 & Hq1%deliver_utility_quiet & Hc). apply bind_ok_inv in Hc as (r2 & Hq2%deliver_draw_quiet & [= <-]).
    eapply (end_accounts r _ f _ st); [done|done|by eapply quiet_trans|done].
  - apply bind_ok_inv in Hc as (r1 & Hq%settle_history_quiet & [= <-]). eapply (end_accounts r _ f _ st); [done|done|exact Hq|exact (proj1 Hready)].
Qed.

(** ** The account of a stream's records

    A stream, as the list of its records: each under the admission it went through. *)
Inductive Entry := Requested (record : Value) | Responded (record : Value) | UtilityRequested (record : Value) | Aside (record : Value).

Inductive entry_step (r : ModelRequests) : Entry → contract ModelRequests → Prop :=
| entry_request record line limits operator a :
    in_arena record → plan_request r record line limits operator = Ok a → entry_step r (Requested record) (commit_request a r)
| entry_response record line a :
    in_arena record → plan_response SERVED_TURN_REFUSALS r record line = Ok a → entry_step r (Responded record) (commit_response a r)
| entry_utility record line limits a :
    in_arena record → plan_utility_request r record line limits = Ok a → entry_step r (UtilityRequested record) (commit_utility_request a r)
| entry_origin record line a : in_arena record → plan_origin r record line = Ok a → entry_step r (Aside record) (Ok (commit_origin a r))
| entry_seed record line a : in_arena record → plan_seed r record line = Ok a → entry_step r (Aside record) (commit_seed a r)
| entry_generation record line limits schema a :
    in_arena record → plan_generation r record line limits schema = Ok a → entry_step r (Aside record) (commit_generation a r)
| entry_completion record line a : in_arena record → plan_completion r record line = Ok a → entry_step r (Aside record) (commit_completion a r)
| entry_utility_completion record line a :
    in_arena record → plan_utility_completion r record line = Ok a → entry_step r (Aside record) (Ok (commit_utility_completion a r))
| entry_compaction record limits kv_scope line claims committed :
    in_arena record → validate_compaction_event r record limits kv_scope line = Ok (claims, committed) →
    entry_step r (Aside record) (commit_compaction_record kv_scope claims committed r).

Inductive recorded : list Entry → ModelRequests → Prop :=
| recorded_new : recorded [] default_requests
| recorded_next entries r e r' : recorded entries r → entry_step r e (Ok r') → recorded (entries ++ [e]) r'.

Lemma entry_ledger r e res : entry_step r e res → ledger_step SERVED_TURN_REFUSALS r res.
Proof. intros []; by econstructor. Qed.
Lemma recorded_ledger entries r : recorded entries r → ledger SERVED_TURN_REFUSALS r.
Proof. induction 1 as [|entries r e r' _ IH Hs%entry_ledger]; [constructor|by econstructor]. Qed.
Lemma ledger_recorded r : ledger SERVED_TURN_REFUSALS r → ∃ entries, recorded entries r.
Proof.
  induction 1 as [|r r' _ [entries IH] Hs]; [exists []; constructor|].
  assert (∃ e, entry_step r e (Ok r')) as [e He] by (inversion Hs; subst; eexists; (try match goal with E : _ = Ok _ |- _ => rewrite <- E end); by econstructor).
  exists (entries ++ [e]). by econstructor.
Qed.

(** What a record says of a request: its identity and scope, and of a response's
    outcome, the usage it was served with. *)
Definition request_of (key : string) (record : Value) : option (str * str) :=
  request ← get record (lit key); i ← get request "request_id" ≫= as_str; scope ← get request "kv_scope" ≫= as_str; Some (i, scope).
Definition reported (usage : Value) : option ServedUsage :=
  if is_null usage then None else match served_read usage 0 with Ok u => Some u | Err _ => None end.
Definition outcome_of (record : Value) : option (str * option ServedUsage) :=
  response ← get record "response"; i ← get response "request_id" ≫= as_str; event ← get response "event";
  if bool_decide ((get event "kind" ≫= as_str) = Some (lit "outcome")) then usage ← get event "served_usage"; Some (i, reported usage) else None.

(** The identity a record issues. *)
Definition issued (e : Entry) : option str :=
  match e with
  | Requested record => fst <$> request_of "request" record
  | UtilityRequested record => fst <$> request_of "utility_request" record
  | Responded _ | Aside _ => None
  end.
(** Each chat or draw request of a stream, open until a record gives its outcome. *)
Definition enter (f : account) (e : Entry) : account :=
  match e with
  | Requested record => match request_of "request" record with Some (i, scope) => <[i := (scope, Open)]> f | None => f end
  | Responded record => match outcome_of record with Some (i, served) => settle i served f | None => f end
  | UtilityRequested _ | Aside _ => f
  end.
Definition account_of (entries : list Entry) : account := fold_left enter entries ∅.

(** *** The records are what their plans read of them *)
Lemma text_reads v key line s : text v key line = Ok s → (get v key ≫= as_str) = Some s.
Proof. intros (_ & f & -> & Hs)%text_ok. exact Hs. Qed.

Lemma plan_request_of r record line limits operator a :
  plan_request r record line limits operator = Ok a → request_of "request" record = Some (body_id (ra_body a), ra_scope a).
Proof.
  intros Hp. unfold plan_request in Hp. apply bind_ok_inv in Hp as (request & Hr%field_ok & Hp). unfold request_of. rewrite Hr. cbn [mbind option_bind].
  passed Hp. injection Hp as <-. cbn [ra_body body_id ra_scope].
  repeat match goal with Ht : text request _ _ = Ok _ |- _ => apply text_reads in Ht end. by simplify_option_eq.
Qed.
Lemma plan_utility_request_of r record line limits a :
  plan_utility_request r record line limits = Ok a → request_of "utility_request" record = Some (ur_request_id a, ur_scope a).
Proof.
  intros Hp. unfold plan_utility_request in Hp. apply bind_ok_inv in Hp as (request & Hr%field_ok & Hp). unfold request_of. rewrite Hr. cbn [mbind option_bind].
  passed Hp. injection Hp as <-. cbn [ur_request_id ur_scope].
  repeat match goal with Ht : text request _ _ = Ok _ |- _ => apply text_reads in Ht end. by simplify_option_eq.
Qed.
Lemma response_event_outcome_of r i st event kind line step out :
  text event "kind" line = Ok kind → response_event SERVED_TURN_REFUSALS r i st event kind line = Ok (step, out) →
  match out with
  | Some o => kind = lit "outcome" ∧ (∃ completed delivered, step = StepOutcome completed delivered) ∧
              ∃ usage, get event "served_usage" = Some usage ∧ oc_usage o = reported usage
  | None => kind ≠ lit "outcome"
  end.
Proof.
  intros Hkind He. unfold response_event in He.
  destruct (kind_in kind ["outcome"]%string) eqn:Hk.
  - apply kind_in_one in Hk as ->. cbn -[outcome_event] in He. apply bind_ok_inv in He as ([s' o] & Ho & [= <- <-]). split; [done|].
    unfold outcome_event in Ho. passed Ho. injection Ho as <- <-. split; [by eexists _, _|]. cbn [oc_usage].
    match goal with Hu : field event _ line = Ok ?u, Hr : outcome_usage st _ ?u _ _ line = Ok ?w |- _ => exists u; split; [by apply field_ok in Hu|]; rename Hr into Hread end.
    unfold outcome_usage in Hread. cbv zeta in Hread. apply bind_ok_inv in Hread as (? & _ & (w & Hw & Hread)%bind_ok_inv). match type of Hread with (if ?b then _ else _) = _ => destruct b; [done|] end. injection Hread as <-.
    unfold reported. destruct (is_null _); [by injection Hw as <-|]. apply bind_ok_inv in Hw as (served & Hs & [= <-]). by rewrite (served_read_line _ _ 0 _ Hs).
  - assert (kind ≠ lit "outcome") as Hne by (intros ->; by vm_compute in Hk).
    repeat case_match; try done; apply bind_ok_inv in He as (? & _ & [= <- <-]); done.
Qed.

Lemma plan_response_of r record line a :
  plan_response SERVED_TURN_REFUSALS r record line = Ok a →
  outcome_of record = (fun o => (rp_request_id a, oc_usage o)) <$> rp_outcome a ∧
  ∀ o, rp_outcome a = Some o → ∃ completed delivered, rp_step a = StepOutcome completed delivered.
Proof.
  intros Hp. unfold plan_response in Hp. apply bind_ok_inv in Hp as (response & Hr%field_ok & (i & Hi%text_reads & Hp)%bind_ok_inv).
  destruct (mr_responses r !! i) as [st|]; [|done]. apply bind_ok_inv in Hp as (v & _ & (n & _ & (journal & _ & Hp)%bind_ok_inv)%bind_ok_inv). destruct (_ || _); [done|].
  apply bind_ok_inv in Hp as (event & He%field_ok & (kind & Hk & Hp)%bind_ok_inv). destruct (_ && _); [done|]. destruct (event_out_of_order _ _); [done|].
  apply bind_ok_inv in Hp as ([step out] & Hout & (usage & _ & [= <-])%bind_ok_inv). cbn [rp_request_id rp_outcome rp_step].
  pose proof (response_event_outcome_of _ _ _ _ _ _ _ _ Hk Hout) as Ho. apply text_reads in Hk. unfold outcome_of. rewrite Hr. cbn [mbind option_bind]. rewrite Hi. cbn [mbind option_bind].
  rewrite He. cbn [mbind option_bind]. rewrite Hk. destruct out as [o|].
  - destruct Ho as (-> & Hs & u & Hu & Hus). rewrite bool_decide_eq_true_2 by done. rewrite Hu. cbn. rewrite Hus. split; [done|]. by intros ? [= <-].
  - rewrite bool_decide_eq_false_2 by congruence. by split.
Qed.

Lemma accounts_default : accounts default_requests ∅.
Proof.
  constructor; simpl; try done; try (by intros i [? ?]).
  - intros i s. by split; [|intros (? & ? & _)].
Qed.

Lemma commit_response_ids a r r' : commit_response a r = Ok r' → mr_ids r' = mr_ids r.
Proof.
  unfold commit_response. cbv zeta. intros (st & _ & Hc)%bind_ok_inv. destruct (rp_step a).
  - by injection Hc as <-.
  - by apply bind_ok_inv in Hc as ([st' r1] & [Hq _]%commit_body_step_quiet & [= <-]); apply (qt_ids _ _ Hq).
  - by injection Hc as <-.
  - by injection Hc as <-.
  - by injection Hc as <-.
  - apply bind_ok_inv in Hc as ([st' r1] & Hc & [= <-]). apply commit_outcome_fields in Hc as (o & _ & _ & _ & _ & _ & E & _). exact E.
  - apply bind_ok_inv in Hc as (r1 & Hq1%deliver_utility_quiet & (r2 & Hq2%deliver_draw_quiet & [= <-])%bind_ok_inv). exact (qt_ids _ _ (quiet_trans _ _ _ Hq1 Hq2)).
  - apply bind_ok_inv in Hc as (r1 & Hq%settle_history_quiet & [= <-]). exact (qt_ids _ _ Hq).
Qed.

(** *** The account of every stream *)
Record accounted (entries : list Entry) (r : ModelRequests) : Prop := {
  ad_accounts : accounts r (account_of entries);
  ad_ids : ∀ i, i ∈ mr_ids r ↔ i ∈ omap issued entries;
  ad_nodup : NoDup (omap issued entries);
}.

Lemma account_next entries e : account_of (entries ++ [e]) = enter (account_of entries) e.
Proof. unfold account_of. by rewrite fold_left_app. Qed.

(** A record that issues no identity, with the account it leaves. *)
Lemma accounted_quiet entries e r r' : accounted entries r → issued e = None → mr_ids r' = mr_ids r → accounts r' (enter (account_of entries) e) → accounted (entries ++ [e]) r'.
Proof.
  intros [Ha Hi Hn] He E Ha'. split; rewrite ?account_next, ?omap_app; cbn; rewrite ?He, ?app_nil_r; [exact Ha'|by intros i; rewrite E|done].
Qed.
Lemma accounted_issued entries e r r' i : accounted entries r → issued e = Some i → i ∉ mr_ids r → mr_ids r' = {[ i ]} ∪ mr_ids r →
  accounts r' (enter (account_of entries) e) → accounted (entries ++ [e]) r'.
Proof.
  intros [Ha Hi Hn] He Hnew E Ha'. split; rewrite ?account_next, ?omap_app; cbn; rewrite ?He; [exact Ha'| |].
  - intros j. rewrite E, elem_of_union, elem_of_singleton, Hi, elem_of_app, list_elem_of_singleton. tauto.
  - apply NoDup_app. split; [done|]. split; [|apply NoDup_singleton]. intros j Hj Hj'%list_elem_of_singleton. subst j. by apply Hnew, Hi.
Qed.

Lemma recorded_accounted entries r : recorded entries r → accounted entries r.
Proof.
  induction 1 as [|entries r e r' Hr IH Hs].
  { split; [exact accounts_default|cbn; set_solver|constructor]. }
  pose proof (ledger_inv _ r (recorded_ledger _ _ Hr)) as HI. pose proof (ad_accounts _ _ IH) as Hacc.
  assert (∀ record, quiet r r' → accounted (entries ++ [Aside record]) r') as Hquiet.
  { intros record Hq. eapply accounted_quiet; [done|done|apply (qt_ids _ _ Hq)|]. by eapply accounts_quiet. }
  inversion Hs as [record line limits operator a Hv Hp Ee Er|record line a Hv Hp Ee Er|record line limits a Hv Hp Ee Er|record line a Hv Hp Ee Er|record line a Hv Hp Ee Er
    |record line limits schema a Hv Hp Ee Er|record line a Hv Hp Ee Er|record line a Hv Hp Ee Er|record limits scope line claims committed Hv Hp Ee Er]; subst e; symmetry in Er.
  - pose proof (plan_request_of _ _ _ _ _ _ Hp) as Hof. pose proof (ad_new _ _ (plan_request_admitted _ _ _ _ _ _ HI Hv Hp)) as Hnew.
    destruct (plan_request_usage _ _ _ _ _ _ Hp). destruct (commit_request_opened _ _ _ (eq_sym Er)) as ([_ Eids _] & _).
    eapply accounted_issued; [done|cbn; by rewrite Hof|exact Hnew|exact Eids|]. cbn. rewrite Hof. by apply (accounts_request r).
  - destruct (plan_response_usage _ _ _ _ Hv Hp) as (st & Hst & Hready & Hplan & Hout). destruct (plan_response_of _ _ _ _ Hp) as [Hof Hstep].
    eapply accounted_quiet; [done|done| |].
    + by eapply commit_response_ids.
    + cbn. rewrite Hof. pose proof (accounts_response r r' _ a st Hacc Hst Hready Hplan Hout Hstep (eq_sym Er)) as Ha. by destruct (rp_outcome a).
  - pose proof (plan_utility_request_of _ _ _ _ _ Hp) as Hof. destruct (plan_utility_request_fresh _ _ _ _ _ HI Hv Hp) as [Hnew _].
    destruct (commit_utility_request_opened _ _ _ (eq_sym Er)) as ([_ Eids _] & _).
    eapply accounted_issued; [done|cbn; by rewrite Hof|exact Hnew|exact Eids|]. cbn. by eapply accounts_utility_request.
  - subst r'. by apply Hquiet.
  - apply Hquiet. by eapply commit_seed_quiet.
  - apply Hquiet. by eapply commit_generation_quiet.
  - apply Hquiet. by eapply commit_completion_quiet.
  - subst r'. apply Hquiet, commit_utility_completion_quiet.
  - apply Hquiet. by eapply commit_compaction_record_quiet.
Qed.

Lemma ledger_accounts r : ledger SERVED_TURN_REFUSALS r → ∃ f, accounts r f.
Proof. intros (entries & Hr)%ledger_recorded. exists (account_of entries). apply (recorded_accounted _ _ Hr). Qed.

Lemma any_value_false {V} (p : V → bool) (m : gmap str V) : any_value p m = false → ∀ k v, m !! k = Some v → p v = false.
Proof.
  unfold any_value. intros Hm k v Hk. destruct (p v) eqn:E; [|done]. rewrite <- Hm. symmetry. apply existsb_exists. exists (k, v).
  split; [by apply list_elem_of_In, elem_of_map_to_list|done].
Qed.

Lemma require_summary_read s v line u : require_summary s v line = Ok u → summary_read v line = Ok s.
Proof.
  unfold require_summary. intros (recorded & Hr & Hc)%bind_ok_inv. case_bool_decide as E; [done|]. by rewrite Hr, E.
Qed.

(** What a terminal's summary is held to. *)
Lemma validate_summary_ok r record line :
  validate_summary r record line = Ok tt →
  mr_compactions r = ∅ ∧ mr_utilities r = ∅ ∧ mr_responses r = ∅ ∧
  (∀ id attempt, mr_attempts r !! id = Some attempt → at_completed attempt = true) ∧
  (∃ summary count, field record "request_evidence" line = Ok summary ∧ field summary "request_count" line = Ok count ∧
    unsigned count "request evidence count" SAFE_INTEGER = Ok (mr_physical_count r)) ∧
  ∃ usage, field record "usage" line = Ok usage ∧ summary_read usage line = Ok (mr_all_usage r).
Proof.
  intros Hv. unfold validate_summary in Hv. passed Hv. to_prop.
  repeat match goal with Hn : ¬ (_ ≠ _) |- _ => apply dec_stable in Hn end.
  match goal with Ha : any_value _ _ = false |- _ => pose proof (any_value_false _ _ Ha) as Hdone end.
  match goal with Hu : require_summary _ _ _ = Ok _ |- _ => apply require_summary_read in Hu; rename Hu into Hread end.
  split_and!; try done.
  - intros i attempt Hi. by apply negb_false_iff, (Hdone i attempt).
  - eexists _, _. split; [done|]. split; [done|]. congruence.
  - eexists. by split.
Qed.

(** With no response open, no request of an account is. *)
Lemma accounts_settled r f : accounts r f → mr_responses r = ∅ → ∀ id scope known, f !! id = Some (scope, known) → known ≠ Open.
Proof. intros Hf He i s q Hq ->. apply (ac_open _ _ Hf) in Hq as (st & Hst & _). by rewrite He, lookup_empty in Hst. Qed.

Lemma issued_size entries r : accounted entries r → size (mr_ids r) = length (omap issued entries).
Proof.
  intros [_ Hi Hn]. assert (mr_ids r = list_to_set (omap issued entries)) as -> by (apply set_eq; intros i; by rewrite elem_of_list_to_set).
  by apply size_list_to_set.
Qed.

(** C27: the totals are the sums of the records.  In the state a stream's records
    lead to, the usage of the stream, and the usage of each of its scopes, is the
    summary of the requests that the records themselves list: every chat or draw
    request a record admitted, under its scope, open until a record gives the
    outcome of its response, and then settled with the served usage that record
    reports, or without one.  The number of physical requests is the number of
    identities the records issued, which are distinct; and a request is open exactly
    while its response awaits its outcome. *)
Theorem usage_accounts (entries : list Entry) (r : ModelRequests) :
  recorded entries r →
  mr_all_usage r = summarize (all_requests (account_of entries)) ∧
  (∀ scope, scope_usage r scope = summarize (scope_requests (account_of entries) scope)) ∧
  NoDup (omap issued entries) ∧ mr_physical_count r = Z.of_nat (length (omap issued entries)) ∧
  (∀ id scope, account_of entries !! id = Some (scope, Open) ↔
    ∃ st, mr_responses r !! id = Some st ∧ rs_processing st = None ∧ rs_utility st = None ∧ rs_scope st = scope).
Proof.
  intros Hr%recorded_accounted. pose proof Hr as [[_ _ Ho _ Ha Hs Hc] _ Hn]. split_and!; try done. by rewrite Hc, (issued_size _ _ Hr).
Qed.

(** C23: a stream ends only when everything adds up.  A terminal record is
    accepted in the state a stream's records lead to only when no physical draw is
    unclaimed, no utility operation incomplete, no response open and every chat
    attempt completed; the request count it reports is the number of identities the
    records issued, each once; and the usage it reports is the exact sum, over every
    chat and draw request those records list, of what the records of their outcomes
    report, every one of them settled. *)
Theorem terminal_settled (entries : list Entry) (r : ModelRequests) (record : Value) (line : Z) :
  recorded entries r → validate_summary r record line = Ok tt →
  mr_compactions r = ∅ ∧ mr_utilities r = ∅ ∧ mr_responses r = ∅ ∧
  (∀ id attempt, mr_attempts r !! id = Some attempt → at_completed attempt = true) ∧
  (∃ summary count, field record "request_evidence" line = Ok summary ∧ field summary "request_count" line = Ok count ∧
    unsigned count "request evidence count" SAFE_INTEGER = Ok (Z.of_nat (length (omap issued entries)))) ∧ NoDup (omap issued entries) ∧
  (∀ id scope known, account_of entries !! id = Some (scope, known) → known ≠ Open) ∧
  ∃ usage, field record "usage" line = Ok usage ∧ summary_read usage line = Ok (summarize (all_requests (account_of entries))).
Proof.
  intros Hr%recorded_accounted Hv. pose proof Hr as [Hf _ Hn].
  destruct (validate_summary_ok r record line Hv) as (? & ? & Hempty & ? & (summary & count & ? & ? & Hcount) & usage & ? & Hread).
  split_and!; try done.
  - exists summary, count. by rewrite <- (issued_size _ _ Hr), <- (ac_count _ _ Hf).
  - by apply (accounts_settled r).
  - exists usage. by rewrite <- (ac_all _ _ Hf).
Qed.
End Account.

(** ** A stream of one utility operation

    A tokenizer request that failed, its completion and the terminal. *)
Section Example.
Local Existing Instance example_serde.
Local Existing Instance example_contract.
Local Existing Instance plain_digest.
Local Existing Instance decimal_bigint.
Local Existing Instance plain_base64.

Definition tokenizer_body : str := quoted "{'model':'m','prompt':'p','add_special_tokens':false}".
Definition tokenizer_record : Value :=
  example_record (quoted "{'utility_request':{'journal_id':'j','sequence':0,'request_id':'q','operation_id':'o','kv_scope':'s','kind':'tokenize_text','requested_model':'m','requested_input_count':null,'expected_max_model_len':9,'request_url':'http://h/tokenize','body_json':'"
    ++ escape_quotes tokenizer_body ++ quoted "','body_bytes':" ++ show_Z (Z.of_nat (length tokenizer_body)) ++ quoted ",'body_sha256':'"
    ++ sha256 tokenizer_body ++ quoted "'}}").
Definition tokenizer_events : list Value := example_events ++ [example_event "5" "{'kind':'delivery','outputs_delivered':0}"].
Definition origin_record : Value := example_record (quoted "{'journal_id':'j','first_sequence':0}").
Definition completion_record : Value :=
  example_record (quoted "{'utility_completion':{'operation_id':'o','journal_id':'j','request_ids':['q'],'result':null,'error':'x','kv_scope':'s','kind':'tokenize_text','requested_model':'m','requested_input_count':null,'expected_max_model_len':9}}").
Definition terminal_record : Value :=
  example_record (quoted "{'request_evidence':{'request_count':1,'first_sequence':0,'open_response_ids':[],'open_attempt_ids':[],'journal_id':'j'},'usage':{'usage':null,'requests':0,'usageReports':0,'unfinalizedRequests':0,'unreportedUsageRequests':0}}").

Definition origin_step (record : Value) (r : ModelRequests) : contract ModelRequests := a ← plan_origin r record 1; Ok (commit_origin a r).
Definition tokenizer_step (record : Value) (r : ModelRequests) : contract ModelRequests :=
  a ← plan_utility_request r record 1 example_limits; commit_utility_request a r.
Definition completion_step (record : Value) (r : ModelRequests) : contract ModelRequests :=
  a ← plan_utility_completion r record 1; Ok (commit_utility_completion a r).
Definition tokenizer_begun : ModelRequests := ok_or_default (origin_step origin_record default_requests).
Definition tokenizer_open : ModelRequests := ok_or_default (tokenizer_step tokenizer_record tokenizer_begun).
Definition tokenizer_settled : ModelRequests := ok_or_default (fold_result answer_record tokenizer_open tokenizer_events).
Definition tokenizer_done : ModelRequests := ok_or_default (completion_step completion_record tokenizer_settled).

(** The records of a stream, as they were admitted. *)
Definition written (entries : list Entry) (r : ModelRequests) : Prop := recorded [] entries r.

Lemma answer_written entries r record r' : written entries r → in_arena record → answer_record r record = Ok r' → written (entries ++ [Responded record]) r'.
Proof. intros Hr Hv (a & Ha & Hc)%bind_ok_inv. eapply recorded_next; [exact Hr|]. rewrite <- Hc. by eapply entry_response. Qed.
Lemma answers_written entries r records r' :
  written entries r → Forall in_arena records → fold_result answer_record r records = Ok r' → written (entries ++ map Responded records) r'.
Proof.
  intros Hr Hall. revert entries r Hr. induction Hall as [|x records Hx _ IH]; intros entries r Hr Hf; cbn in Hf; [injection Hf as <-; by rewrite app_nil_r|].
  apply bind_ok_inv in Hf as (r1 & H1 & Hf). cbn [map]. change (Responded x :: map Responded records) with ([Responded x] ++ map Responded records).
  rewrite app_assoc. eapply IH; [|exact Hf]. by eapply answer_written.
Qed.
Lemma first_written e r : entry_step [] default_requests e (Ok r) → written [e] r.
Proof. intros He. exact (recorded_next [] [] default_requests e r (recorded_new []) He). Qed.
Lemma next_written entries e r r' : written entries r → entry_step [] r e (Ok r') → written (entries ++ [e]) r'.
Proof. intros Hr He. exact (recorded_next [] entries r e r' Hr He). Qed.
Lemma events_in_arena : Forall in_arena tokenizer_events.
Proof. unfold tokenizer_events, example_events. repeat (apply Forall_cons; split; [apply example_record_in_arena|]). apply Forall_nil_2. Qed.

Definition settled_entries : list Entry := [Requested example_request_record] ++ map Responded example_events.
Lemma settled_written : written settled_entries example_settled.
Proof.
  assert (written [Requested example_request_record] example_open) as Hopen.
  { assert (∃ a, plan_request default_requests example_request_record 1 example_limits [] = Ok a ∧ commit_request a default_requests = Ok example_open) as (a & Ha & Hc).
    { apply bind_ok_inv. by vm_compute. }
    apply first_written. rewrite <- Hc. eapply entry_request; [apply example_record_in_arena|exact Ha]. }
  apply (answers_written [Requested example_request_record] example_open example_events); [exact Hopen| |by vm_compute].
  pose proof events_in_arena as Hall. unfold tokenizer_events in Hall. by apply Forall_app in Hall as [Hall _].
Qed.

Definition tokenizer_entries : list Entry :=
  ([Aside origin_record; UtilityRequested tokenizer_record] ++ map Responded tokenizer_events) ++ [Aside completion_record].
Lemma tokenizer_written : written tokenizer_entries tokenizer_done.
Proof.
  assert (∃ a, plan_origin default_requests origin_record 1 = Ok a ∧ Ok (commit_origin a default_requests) = Ok tokenizer_begun) as (a & Ha & Hc)
    by (apply (bind_ok_inv (plan_origin default_requests origin_record 1) (fun a => Ok (commit_origin a default_requests))); by vm_compute).
  assert (∃ u, plan_utility_request tokenizer_begun tokenizer_record 1 example_limits = Ok u ∧ commit_utility_request u tokenizer_begun = Ok tokenizer_open) as (u & Hu & Hcu)
    by (apply bind_ok_inv; by vm_compute).
  assert (∃ c, plan_utility_completion tokenizer_settled completion_record 1 = Ok c ∧ Ok (commit_utility_completion c tokenizer_settled) = Ok tokenizer_done) as (c & Hp & Hcc)
    by (apply (bind_ok_inv (plan_utility_completion tokenizer_settled completion_record 1) (fun c => Ok (commit_utility_completion c tokenizer_settled))); by vm_compute).
  eapply next_written; [|rewrite <- Hcc; eapply entry_utility_completion; [apply example_record_in_arena|exact Hp]].
  apply (answers_written [Aside origin_record; UtilityRequested tokenizer_record] tokenizer_open tokenizer_events); [|exact events_in_arena|by vm_compute].
  apply (next_written [Aside origin_record] _ tokenizer_begun); [|rewrite <- Hcu; eapply entry_utility; [apply example_record_in_arena|exact Hu]].
  apply first_written. rewrite <- Hc. eapply entry_origin; [apply example_record_in_arena|exact Ha].
Qed.

Lemma usage_accounts_witness :
  unreported_usage_requests (mr_all_usage example_settled) = 1 ∧ omap issued settled_entries = [lit "q"] ∧ account_of settled_entries !! lit "q" = Some (lit "s", Unreported) ∧
  mr_all_usage example_settled = summarize (all_requests (account_of settled_entries)).
Proof.
  split; [by vm_compute|]. split; [by vm_compute|]. split; [by vm_compute|].
  exact (proj1 (@usage_accounts decimal_bigint decimal_bigint_laws plain_digest example_serde plain_base64 example_contract [] settled_entries example_settled settled_written)).
Defined.

Lemma terminal_settled_witness :
  validate_summary tokenizer_done terminal_record 1 = Ok tt ∧ omap issued tokenizer_entries = [lit "q"] ∧ mr_responses tokenizer_done = ∅ ∧
  ∃ usage, field terminal_record "usage" 1 = Ok usage ∧ summary_read usage 1 = Ok (summarize (all_requests (account_of tokenizer_entries))).
Proof.
  assert (E : validate_summary tokenizer_done terminal_record 1 = Ok tt) by (by vm_compute).
  destruct (@terminal_settled decimal_bigint decimal_bigint_laws plain_digest example_serde plain_base64 example_contract [] tokenizer_entries tokenizer_done terminal_record 1
    tokenizer_written E) as (_ & _ & Hr & _ & _ & _ & _ & Husage).
  split; [exact E|]. split; [by vm_compute|]. split; [exact Hr|]. exact Husage.
Defined.
End Example.
