(* ===== verification/Conversation.v ===== *)
(** * Conversation: what a record means to the session (src/protocol/engine/src/runtime.rs)

    The semantic half of [RuntimeContract]: the scopes of a session and what each
    has shown, the tools the model called, what a settled turn still owes, and
    the physical requests of module Requests.  [plan_event] is
    [RuntimeContract::plan], arm by arm; [commit_event] is what
    [RuntimeContract::commit] makes of the plan; [finish] reads the agent's
    result off the final state.  Together they are the instance of [Planner] the
    program runs.  The variants of the two event enumerations are the ones the
    code matches on; their wire names follow from them by the build's rule. *)
From S2P Require Import Prelude Number Utf8 BTree Json JsonTree Schema Stream Usage Generation PartialStream Authorship Sse Serde Turns Requests Utilities Admission Compaction.

(** ** The kinds of record *)
Inductive RecordKind :=
| ModelRequest | ModelUtilityRequest | ModelUtilityCompletion | ModelResponse | ModelNormalizationSeed | ModelGeneration
| ModelAttemptCompletion | Assistant | User | StreamEvent | System | Result.
#[export] Instance RecordKind_eq_dec : EqDecision RecordKind.
Proof. solve_decision. Defined.

Inductive SystemKind :=
| StreamStart | Init | CompactionRecord | RuntimeOperationReceipt | SessionRecordingDegraded | TurnCleanupFailed | VisionBridgeFailed
| SessionStart | SessionEnd | TaskNotification | TaskStarted | WorktreeStarted | WorktreeRestored | VisionRouting | VisionBridge.
#[export] Instance SystemKind_eq_dec : EqDecision SystemKind.
Proof. solve_decision. Defined.

Definition system_wire (k : SystemKind) : string :=
  match k with
  | StreamStart => "stream_start" | Init => "init" | CompactionRecord => "compaction"
  | RuntimeOperationReceipt => "runtime_operation" | SessionRecordingDegraded => "session_recording_degraded"
  | TurnCleanupFailed => "turn_cleanup_failed" | VisionBridgeFailed => "vision_bridge_failed" | SessionStart => "session_start"
  | SessionEnd => "session_end" | TaskNotification => "task_notification" | TaskStarted => "task_started"
  | WorktreeStarted => "worktree_started" | WorktreeRestored => "worktree_restored" | VisionRouting => "vision_routing"
  | VisionBridge => "vision_bridge"
  end.
Definition system_kinds : list SystemKind :=
  [StreamStart; Init; CompactionRecord; RuntimeOperationReceipt; SessionRecordingDegraded; TurnCleanupFailed; VisionBridgeFailed;
   SessionStart; SessionEnd; TaskNotification; TaskStarted; WorktreeStarted; WorktreeRestored; VisionRouting; VisionBridge].
Definition system_from_wire (name : str) : option SystemKind :=
  List.find (fun k => bool_decide (name = lit (system_wire k))) system_kinds.

(** The rest of what the build generates from the stream contract: which variant
    an event kind is, and the terminal vocabulary. *)
Class Vocabulary `{StreamContract} := {
  kind_of : EventKind → RecordKind;
  MISSING_DELIVERABLES_SUBTYPE : str;
}.
Definition ERROR_SUBTYPES `{StreamContract} : list str := map subtype (List.filter is_error TERMINAL_OUTCOMES).
Definition SUCCESS_SUBTYPE `{StreamContract} : str :=
  match List.filter (fun o => negb (is_error o)) TERMINAL_OUTCOMES with o :: _ => subtype o | [] => [] end.

(** ** The state *)
Record Terminal := {
  tm_line : Z; tm_is_error : bool; tm_subtype : str; tm_response : option str; tm_duration_ms : option Z;
  tm_api_duration_ms : option Z; tm_num_turns : Z; tm_error_message : option str; tm_missing_deliverables : option (list str);
}.

Record RuntimeOperation := { op_id : str; op_output_sha256 : str; op_output_bytes : Z }.
Record ToolUse := {
  tu_name : str; tu_structured_input : option str; tu_line : Z; tu_scope : option str; tu_returned : bool;
}.
(** The assistant messages a settled turn owes before any other record. *)
Record OwedDisplay := { od_scope : option str; od_model : str; od_messages : list DisplayMessage }.

Section State.
Context `{Sha256Ops} `{Serde}.

Record ScopeState := {
  ss_id : option str; ss_terminal : option Terminal; ss_partial : PartialStreamState; ss_runtime_text : option str;
  ss_model_text : option str; ss_structured_input : option str; ss_runtime_operation : option RuntimeOperation;
  ss_completed_runtime_operation : option str;
}.

Definition set_ss_id (x : option str) (r : ScopeState) : ScopeState :=
  {| ss_id := x; ss_terminal := ss_terminal r; ss_partial := ss_partial r; ss_runtime_text := ss_runtime_text r;
     ss_model_text := ss_model_text r; ss_structured_input := ss_structured_input r; ss_runtime_operation :=
     ss_runtime_operation r; ss_completed_runtime_operation := ss_completed_runtime_operation r |}.
Definition set_ss_terminal (x : option Terminal) (r : ScopeState) : ScopeState :=
  {| ss_id := ss_id r; ss_terminal := x; ss_partial := ss_partial r; ss_runtime_text := ss_runtime_text r; ss_model_text
     := ss_model_text r; ss_structured_input := ss_structured_input r; ss_runtime_operation := ss_runtime_operation r;
     ss_completed_runtime_operation := ss_completed_runtime_operation r |}.
Definition set_ss_partial (x : PartialStreamState) (r : ScopeState) : ScopeState :=
  {| ss_id := ss_id r; ss_terminal := ss_terminal r; ss_partial := x; ss_runtime_text := ss_runtime_text r; ss_model_text
     := ss_model_text r; ss_structured_input := ss_structured_input r; ss_runtime_operation := ss_runtime_operation r;
     ss_completed_runtime_operation := ss_completed_runtime_operation r |}.
Definition set_ss_runtime_text (x : option str) (r : ScopeState) : ScopeState :=
  {| ss_id := ss_id r; ss_terminal := ss_terminal r; ss_partial := ss_partial r; ss_runtime_text := x; ss_model_text :=
     ss_model_text r; ss_structured_input := ss_structured_input r; ss_runtime_operation := ss_runtime_operation r;
     ss_completed_runtime_operation := ss_completed_runtime_operation r |}.
Definition set_ss_model_text (x : option str) (r : ScopeState) : ScopeState :=
  {| ss_id := ss_id r; ss_terminal := ss_terminal r; ss_partial := ss_partial r; ss_runtime_text := ss_runtime_text r;
     ss_model_text := x; ss_structured_input := ss_structured_input r; ss_runtime_operation := ss_runtime_operation r;
     ss_completed_runtime_operation := ss_completed_runtime_operation r |}.
Definition set_ss_structured_input (x : option str) (r : ScopeState) : ScopeState :=
  {| ss_id := ss_id r; ss_terminal := ss_terminal r; ss_partial := ss_partial r; ss_runtime_text := ss_runtime_text r;
     ss_model_text := ss_model_text r; ss_structured_input := x; ss_runtime_operation := ss_runtime_operation r;
     ss_completed_runtime_operation := ss_completed_runtime_operation r |}.
Definition set_ss_runtime_operation (x : option RuntimeOperation) (r : ScopeState) : ScopeState :=
  {| ss_id := ss_id r; ss_terminal := ss_terminal r; ss_partial := ss_partial r; ss_runtime_text := ss_runtime_text r;
     ss_model_text := ss_model_text r; ss_structured_input := ss_structured_input r; ss_runtime_operation := x;
     ss_completed_runtime_operation := ss_completed_runtime_operation r |}.
Definition set_ss_completed_runtime_operation (x : option str) (r : ScopeState) : ScopeState :=
  {| ss_id := ss_id r; ss_terminal := ss_terminal r; ss_partial := ss_partial r; ss_runtime_text := ss_runtime_text r;
     ss_model_text := ss_model_text r; ss_structured_input := ss_structured_input r; ss_runtime_operation :=
     ss_runtime_operation r; ss_completed_runtime_operation := x |}.
Definition new_scope (id : option str) : ScopeState :=
  {| ss_id := id; ss_terminal := None; ss_partial := state_default; ss_runtime_text := None; ss_model_text := None;
     ss_structured_input := None; ss_runtime_operation := None; ss_completed_runtime_operation := None |}.

Record Semantics := {
  sm_bindings : RuntimeBindings; sm_limits : RuntimeLimits; sm_operator : OperatorTask; sm_requests : ModelRequests;
  sm_runtime_initialized : bool; sm_failed_compaction_scopes : gset str; sm_scope_states : list ScopeState;
  sm_scope_rows : gmap str nat; sm_tool_uses : gmap str ToolUse; sm_runtime_operation_ids : gset str; sm_owed : option
  OwedDisplay; sm_partial_origins : gmap (option str) OutputOrigin;
}.

Definition set_sm_requests (x : ModelRequests) (r : Semantics) : Semantics :=
  {| sm_bindings := sm_bindings r; sm_limits := sm_limits r; sm_operator := sm_operator r; sm_requests := x;
     sm_runtime_initialized := sm_runtime_initialized r; sm_failed_compaction_scopes := sm_failed_compaction_scopes r;
     sm_scope_states := sm_scope_states r; sm_scope_rows := sm_scope_rows r; sm_tool_uses := sm_tool_uses r;
     sm_runtime_operation_ids := sm_runtime_operation_ids r; sm_owed := sm_owed r; sm_partial_origins :=
     sm_partial_origins r |}.
Definition set_sm_runtime_initialized (x : bool) (r : Semantics) : Semantics :=
  {| sm_bindings := sm_bindings r; sm_limits := sm_limits r; sm_operator := sm_operator r; sm_requests := sm_requests r;
     sm_runtime_initialized := x; sm_failed_compaction_scopes := sm_failed_compaction_scopes r; sm_scope_states :=
     sm_scope_states r; sm_scope_rows := sm_scope_rows r; sm_tool_uses := sm_tool_uses r; sm_runtime_operation_ids :=
     sm_runtime_operation_ids r; sm_owed := sm_owed r; sm_partial_origins := sm_partial_origins r |}.
Definition set_sm_failed_compaction_scopes (x : gset str) (r : Semantics) : Semantics :=
  {| sm_bindings := sm_bindings r; sm_limits := sm_limits r; sm_operator := sm_operator r; sm_requests := sm_requests r;
     sm_runtime_initialized := sm_runtime_initialized r; sm_failed_compaction_scopes := x; sm_scope_states :=
     sm_scope_states r; sm_scope_rows := sm_scope_rows r; sm_tool_uses := sm_tool_uses r; sm_runtime_operation_ids :=
     sm_runtime_operation_ids r; sm_owed := sm_owed r; sm_partial_origins := sm_partial_origins r |}.
Definition set_sm_scope_states (x : list ScopeState) (r : Semantics) : Semantics :=
  {| sm_bindings := sm_bindings r; sm_limits := sm_limits r; sm_operator := sm_operator r; sm_requests := sm_requests r;
     sm_runtime_initialized := sm_runtime_initialized r; sm_failed_compaction_scopes := sm_failed_compaction_scopes r;
     sm_scope_states := x; sm_scope_rows := sm_scope_rows r; sm_tool_uses := sm_tool_uses r; sm_runtime_operation_ids :=
     sm_runtime_operation_ids r; sm_owed := sm_owed r; sm_partial_origins := sm_partial_origins r |}.
Definition set_sm_scope_rows (x : gmap str nat) (r : Semantics) : Semantics :=
  {| sm_bindings := sm_bindings r; sm_limits := sm_limits r; sm_operator := sm_operator r; sm_requests := sm_requests r;
     sm_runtime_initialized := sm_runtime_initialized r; sm_failed_compaction_scopes := sm_failed_compaction_scopes r;
     sm_scope_states := sm_scope_states r; sm_scope_rows := x; sm_tool_uses := sm_tool_uses r; sm_runtime_operation_ids :=
     sm_runtime_operation_ids r; sm_owed := sm_owed r; sm_partial_origins := sm_partial_origins r |}.
Definition set_sm_tool_uses (x : gmap str ToolUse) (r : Semantics) : Semantics :=
  {| sm_bindings := sm_bindings r; sm_limits := sm_limits r; sm_operator := sm_operator r; sm_requests := sm_requests r;
     sm_runtime_initialized := sm_runtime_initialized r; sm_failed_compaction_scopes := sm_failed_compaction_scopes r;
     sm_scope_states := sm_scope_states r; sm_scope_rows := sm_scope_rows r; sm_tool_uses := x; sm_runtime_operation_ids
     := sm_runtime_operation_ids r; sm_owed := sm_owed r; sm_partial_origins := sm_partial_origins r |}.
Definition set_sm_runtime_operation_ids (x : gset str) (r : Semantics) : Semantics :=
  {| sm_bindings := sm_bindings r; sm_limits := sm_limits r; sm_operator := sm_operator r; sm_requests := sm_requests r;
     sm_runtime_initialized := sm_runtime_initialized r; sm_failed_compaction_scopes := sm_failed_compaction_scopes r;
     sm_scope_states := sm_scope_states r; sm_scope_rows := sm_scope_rows r; sm_tool_uses := sm_tool_uses r;
     sm_runtime_operation_ids := x; sm_owed := sm_owed r; sm_partial_origins := sm_partial_origins r |}.
Definition set_sm_owed (x : option OwedDisplay) (r : Semantics) : Semantics :=
  {| sm_bindings := sm_bindings r; sm_limits := sm_limits r; sm_operator := sm_operator r; sm_requests := sm_requests r;
     sm_runtime_initialized := sm_runtime_initialized r; sm_failed_compaction_scopes := sm_failed_compaction_scopes r;
     sm_scope_states := sm_scope_states r; sm_scope_rows := sm_scope_rows r; sm_tool_uses := sm_tool_uses r;
     sm_runtime_operation_ids := sm_runtime_operation_ids r; sm_owed := x; sm_partial_origins := sm_partial_origins r |}.
Definition set_sm_partial_origins (x : gmap (option str) OutputOrigin) (r : Semantics) : Semantics :=
  {| sm_bindings := sm_bindings r; sm_limits := sm_limits r; sm_operator := sm_operator r; sm_requests := sm_requests r;
     sm_runtime_initialized := sm_runtime_initialized r; sm_failed_compaction_scopes := sm_failed_compaction_scopes r;
     sm_scope_states := sm_scope_states r; sm_scope_rows := sm_scope_rows r; sm_tool_uses := sm_tool_uses r;
     sm_runtime_operation_ids := sm_runtime_operation_ids r; sm_owed := sm_owed r; sm_partial_origins := x |}.
Definition new_semantics (b : RuntimeBindings) (l : RuntimeLimits) (operator : OperatorTask) : Semantics :=
  {| sm_bindings := b; sm_limits := l; sm_operator := operator; sm_requests := default_requests; sm_runtime_initialized := false;
     sm_failed_compaction_scopes := ∅; sm_scope_states := [new_scope None]; sm_scope_rows := ∅; sm_tool_uses := ∅;
     sm_runtime_operation_ids := ∅; sm_owed := None; sm_partial_origins := ∅ |}.

Record SessionPlan := {
  sp_runtime_initialized : bool; sp_request_origin : option RequestOrigin; sp_request : option RequestAdmission;
  sp_utility_request : option UtilityRequestAdmission; sp_utility_completion : option UtilityCompletionAdmission;
  sp_response : option ResponseAdmission; sp_seed : option NormalizationSeed; sp_generation : option Generation;
  sp_completion : option CompletionAdmission; sp_compaction_claims : list (str * DrawOutput); sp_compaction_commit :
  option (str * str); sp_compaction_failed : option str; sp_row : nat; sp_state : ScopeState; sp_additions : gmap str
  ToolUse; sp_returns : gset str; sp_runtime_operation_id : option str; sp_owed : option OwedDisplay; sp_partial_origin
  : option (option str * OutputOrigin);
}.

Definition set_sp_runtime_initialized (x : bool) (r : SessionPlan) : SessionPlan :=
  {| sp_runtime_initialized := x; sp_request_origin := sp_request_origin r; sp_request := sp_request r; sp_utility_request
     := sp_utility_request r; sp_utility_completion := sp_utility_completion r; sp_response := sp_response r; sp_seed :=
     sp_seed r; sp_generation := sp_generation r; sp_completion := sp_completion r; sp_compaction_claims :=
     sp_compaction_claims r; sp_compaction_commit := sp_compaction_commit r; sp_compaction_failed := sp_compaction_failed
     r; sp_row := sp_row r; sp_state := sp_state r; sp_additions := sp_additions r; sp_returns := sp_returns r;
     sp_runtime_operation_id := sp_runtime_operation_id r; sp_owed := sp_owed r; sp_partial_origin := sp_partial_origin r
     |}.
Definition set_sp_request_origin (x : option RequestOrigin) (r : SessionPlan) : SessionPlan :=
  {| sp_runtime_initialized := sp_runtime_initialized r; sp_request_origin := x; sp_request := sp_request r;
     sp_utility_request := sp_utility_request r; sp_utility_completion := sp_utility_completion r; sp_response :=
     sp_response r; sp_seed := sp_seed r; sp_generation := sp_generation r; sp_completion := sp_completion r;
     sp_compaction_claims := sp_compaction_claims r; sp_compaction_commit := sp_compaction_commit r; sp_compaction_failed
     := sp_compaction_failed r; sp_row := sp_row r; sp_state := sp_state r; sp_additions := sp_additions r; sp_returns :=
     sp_returns r; sp_runtime_operation_id := sp_runtime_operation_id r; sp_owed := sp_owed r; sp_partial_origin :=
     sp_partial_origin r |}.
Definition set_sp_request (x : option RequestAdmission) (r : SessionPlan) : SessionPlan :=
  {| sp_runtime_initialized := sp_runtime_initialized r; sp_request_origin := sp_request_origin r; sp_request := x;
     sp_utility_request := sp_utility_request r; sp_utility_completion := sp_utility_completion r; sp_response :=
     sp_response r; sp_seed := sp_seed r; sp_generation := sp_generation r; sp_completion := sp_completion r;
     sp_compaction_claims := sp_compaction_claims r; sp_compaction_commit := sp_compaction_commit r; sp_compaction_failed
     := sp_compaction_failed r; sp_row := sp_row r; sp_state := sp_state r; sp_additions := sp_additions r; sp_returns :=
     sp_returns r; sp_runtime_operation_id := sp_runtime_operation_id r; sp_owed := sp_owed r; sp_partial_origin :=
     sp_partial_origin r |}.
Definition set_sp_utility_request (x : option UtilityRequestAdmission) (r : SessionPlan) : SessionPlan :=
  {| sp_runtime_initialized := sp_runtime_initialized r; sp_request_origin := sp_request_origin r; sp_request :=
     sp_request r; sp_utility_request := x; sp_utility_completion := sp_utility_completion r; sp_response := sp_response
     r; sp_seed := sp_seed r; sp_generation := sp_generation r; sp_completion := sp_completion r; sp_compaction_claims :=
     sp_compaction_claims r; sp_compaction_commit := sp_compaction_commit r; sp_compaction_failed := sp_compaction_failed
     r; sp_row := sp_row r; sp_state := sp_state r; sp_additions := sp_additions r; sp_returns := sp_returns r;
     sp_runtime_operation_id := sp_runtime_operation_id r; sp_owed := sp_owed r; sp_partial_origin := sp_partial_origin r
     |}.
Definition set_sp_utility_completion (x : option UtilityCompletionAdmission) (r : SessionPlan) : SessionPlan :=
  {| sp_runtime_initialized := sp_runtime_initialized r; sp_request_origin := sp_request_origin r; sp_request :=
     sp_request r; sp_utility_request := sp_utility_request r; sp_utility_completion := x; sp_response := sp_response r;
     sp_seed := sp_seed r; sp_generation := sp_generation r; sp_completion := sp_completion r; sp_compaction_claims :=
     sp_compaction_claims r; sp_compaction_commit := sp_compaction_commit r; sp_compaction_failed := sp_compaction_failed
     r; sp_row := sp_row r; sp_state := sp_state r; sp_additions := sp_additions r; sp_returns := sp_returns r;
     sp_runtime_operation_id := sp_runtime_operation_id r; sp_owed := sp_owed r; sp_partial_origin := sp_partial_origin r
     |}.
Definition set_sp_response (x : option ResponseAdmission) (r : SessionPlan) : SessionPlan :=
  {| sp_runtime_initialized := sp_runtime_initialized r; sp_request_origin := sp_request_origin r; sp_request :=
     sp_request r; sp_utility_request := sp_utility_request r; sp_utility_completion := sp_utility_completion r;
     sp_response := x; sp_seed := sp_seed r; sp_generation := sp_generation r; sp_completion := sp_completion r;
     sp_compaction_claims := sp_compaction_claims r; sp_compaction_commit := sp_compaction_commit r; sp_compaction_failed
     := sp_compaction_failed r; sp_row := sp_row r; sp_state := sp_state r; sp_additions := sp_additions r; sp_returns :=
     sp_returns r; sp_runtime_operation_id := sp_runtime_operation_id r; sp_owed := sp_owed r; sp_partial_origin :=
     sp_partial_origin r |}.
Definition set_sp_seed (x : option NormalizationSeed) (r : SessionPlan) : SessionPlan :=
  {| sp_runtime_initialized := sp_runtime_initialized r; sp_request_origin := sp_request_origin r; sp_request :=
     sp_request r; sp_utility_request := sp_utility_request r; sp_utility_completion := sp_utility_completion r;
     sp_response := sp_response r; sp_seed := x; sp_generation := sp_generation r; sp_completion := sp_completion r;
     sp_compaction_claims := sp_compaction_claims r; sp_compaction_commit := sp_compaction_commit r; sp_compaction_failed
     := sp_compaction_failed r; sp_row := sp_row r; sp_state := sp_state r; sp_additions := sp_additions r; sp_returns :=
     sp_returns r; sp_runtime_operation_id := sp_runtime_operation_id r; sp_owed := sp_owed r; sp_partial_origin :=
     sp_partial_origin r |}.
Definition set_sp_generation (x : option Generation) (r : SessionPlan) : SessionPlan :=
  {| sp_runtime_initialized := sp_runtime_initialized r; sp_request_origin := sp_request_origin r; sp_request :=
     sp_request r; sp_utility_request := sp_utility_request r; sp_utility_completion := sp_utility_completion r;
     sp_response := sp_response r; sp_seed := sp_seed r; sp_generation := x; sp_completion := sp_completion r;
     sp_compaction_claims := sp_compaction_claims r; sp_compaction_commit := sp_compaction_commit r; sp_compaction_failed
     := sp_compaction_failed r; sp_row := sp_row r; sp_state := sp_state r; sp_additions := sp_additions r; sp_returns :=
     sp_returns r; sp_runtime_operation_id := sp_runtime_operation_id r; sp_owed := sp_owed r; sp_partial_origin :=
     sp_partial_origin r |}.
Definition set_sp_completion (x : option CompletionAdmission) (r : SessionPlan) : SessionPlan :=
  {| sp_runtime_initialized := sp_runtime_initialized r; sp_request_origin := sp_request_origin r; sp_request :=
     sp_request r; sp_utility_request := sp_utility_request r; sp_utility_completion := sp_utility_completion r;
     sp_response := sp_response r; sp_seed := sp_seed r; sp_generation := sp_generation r; sp_completion := x;
     sp_compaction_claims := sp_compaction_claims r; sp_compaction_commit := sp_compaction_commit r; sp_compaction_failed
     := sp_compaction_failed r; sp_row := sp_row r; sp_state := sp_state r; sp_additions := sp_additions r; sp_returns :=
     sp_returns r; sp_runtime_operation_id := sp_runtime_operation_id r; sp_owed := sp_owed r; sp_partial_origin :=
     sp_partial_origin r |}.
Definition set_sp_compaction_claims (x : list (str * DrawOutput)) (r : SessionPlan) : SessionPlan :=
  {| sp_runtime_initialized := sp_runtime_initialized r; sp_request_origin := sp_request_origin r; sp_request :=
     sp_request r; sp_utility_request := sp_utility_request r; sp_utility_completion := sp_utility_completion r;
     sp_response := sp_response r; sp_seed := sp_seed r; sp_generation := sp_generation r; sp_completion := sp_completion
     r; sp_compaction_claims := x; sp_compaction_commit := sp_compaction_commit r; sp_compaction_failed :=
     sp_compaction_failed r; sp_row := sp_row r; sp_state := sp_state r; sp_additions := sp_additions r; sp_returns :=
     sp_returns r; sp_runtime_operation_id := sp_runtime_operation_id r; sp_owed := sp_owed r; sp_partial_origin :=
     sp_partial_origin r |}.
Definition set_sp_compaction_commit (x : option (str * str)) (r : SessionPlan) : SessionPlan :=
  {| sp_runtime_initialized := sp_runtime_initialized r; sp_request_origin := sp_request_origin r; sp_request :=
     sp_request r; sp_utility_request := sp_utility_request r; sp_utility_completion := sp_utility_completion r;
     sp_response := sp_response r; sp_seed := sp_seed r; sp_generation := sp_generation r; sp_completion := sp_completion
     r; sp_compaction_claims := sp_compaction_claims r; sp_compaction_commit := x; sp_compaction_failed :=
     sp_compaction_failed r; sp_row := sp_row r; sp_state := sp_state r; sp_additions := sp_additions r; sp_returns :=
     sp_returns r; sp_runtime_operation_id := sp_runtime_operation_id r; sp_owed := sp_owed r; sp_partial_origin :=
     sp_partial_origin r |}.
Definition set_sp_compaction_failed (x : option str) (r : SessionPlan) : SessionPlan :=
  {| sp_runtime_initialized := sp_runtime_initialized r; sp_request_origin := sp_request_origin r; sp_request :=
     sp_request r; sp_utility_request := sp_utility_request r; sp_utility_completion := sp_utility_completion r;
     sp_response := sp_response r; sp_seed := sp_seed r; sp_generation := sp_generation r; sp_completion := sp_completion
     r; sp_compaction_claims := sp_compaction_claims r; sp_compaction_commit := sp_compaction_commit r;
     sp_compaction_failed := x; sp_row := sp_row r; sp_state := sp_state r; sp_additions := sp_additions r; sp_returns :=
     sp_returns r; sp_runtime_operation_id := sp_runtime_operation_id r; sp_owed := sp_owed r; sp_partial_origin :=
     sp_partial_origin r |}.
Definition set_sp_state (x : ScopeState) (r : SessionPlan) : SessionPlan :=
  {| sp_runtime_initialized := sp_runtime_initialized r; sp_request_origin := sp_request_origin r; sp_request :=
     sp_request r; sp_utility_request := sp_utility_request r; sp_utility_completion := sp_utility_completion r;
     sp_response := sp_response r; sp_seed := sp_seed r; sp_generation := sp_generation r; sp_completion := sp_completion
     r; sp_compaction_claims := sp_compaction_claims r; sp_compaction_commit := sp_compaction_commit r;
     sp_compaction_failed := sp_compaction_failed r; sp_row := sp_row r; sp_state := x; sp_additions := sp_additions r;
     sp_returns := sp_returns r; sp_runtime_operation_id := sp_runtime_operation_id r; sp_owed := sp_owed r;
     sp_partial_origin := sp_partial_origin r |}.
Definition set_sp_additions (x : gmap str ToolUse) (r : SessionPlan) : SessionPlan :=
  {| sp_runtime_initialized := sp_runtime_initialized r; sp_request_origin := sp_request_origin r; sp_request :=
     sp_request r; sp_utility_request := sp_utility_request r; sp_utility_completion := sp_utility_completion r;
     sp_response := sp_response r; sp_seed := sp_seed r; sp_generation := sp_generation r; sp_completion := sp_completion
     r; sp_compaction_claims := sp_compaction_claims r; sp_compaction_commit := sp_compaction_commit r;
     sp_compaction_failed := sp_compaction_failed r; sp_row := sp_row r; sp_state := sp_state r; sp_additions := x;
     sp_returns := sp_returns r; sp_runtime_operation_id := sp_runtime_operation_id r; sp_owed := sp_owed r;
     sp_partial_origin := sp_partial_origin r |}.
Definition set_sp_returns (x : gset str) (r : SessionPlan) : SessionPlan :=
  {| sp_runtime_initialized := sp_runtime_initialized r; sp_request_origin := sp_request_origin r; sp_request :=
     sp_request r; sp_utility_request := sp_utility_request r; sp_utility_completion := sp_utility_completion r;
     sp_response := sp_response r; sp_seed := sp_seed r; sp_generation := sp_generation r; sp_completion := sp_completion
     r; sp_compaction_claims := sp_compaction_claims r; sp_compaction_commit := sp_compaction_commit r;
     sp_compaction_failed := sp_compaction_failed r; sp_row := sp_row r; sp_state := sp_state r; sp_additions :=
     sp_additions r; sp_returns := x; sp_runtime_operation_id := sp_runtime_operation_id r; sp_owed := sp_owed r;
     sp_partial_origin := sp_partial_origin r |}.
Definition set_sp_runtime_operation_id (x : option str) (r : SessionPlan) : SessionPlan :=
  {| sp_runtime_initialized := sp_runtime_initialized r; sp_request_origin := sp_request_origin r; sp_request :=
     sp_request r; sp_utility_request := sp_utility_request r; sp_utility_completion := sp_utility_completion r;
     sp_response := sp_response r; sp_seed := sp_seed r; sp_generation := sp_generation r; sp_completion := sp_completion
     r; sp_compaction_claims := sp_compaction_claims r; sp_compaction_commit := sp_compaction_commit r;
     sp_compaction_failed := sp_compaction_failed r; sp_row := sp_row r; sp_state := sp_state r; sp_additions :=
     sp_additions r; sp_returns := sp_returns r; sp_runtime_operation_id := x; sp_owed := sp_owed r; sp_partial_origin :=
     sp_partial_origin r |}.
Definition set_sp_owed (x : option OwedDisplay) (r : SessionPlan) : SessionPlan :=
  {| sp_runtime_initialized := sp_runtime_initialized r; sp_request_origin := sp_request_origin r; sp_request :=
     sp_request r; sp_utility_request := sp_utility_request r; sp_utility_completion := sp_utility_completion r;
     sp_response := sp_response r; sp_seed := sp_seed r; sp_generation := sp_generation r; sp_completion := sp_completion
     r; sp_compaction_claims := sp_compaction_claims r; sp_compaction_commit := sp_compaction_commit r;
     sp_compaction_failed := sp_compaction_failed r; sp_row := sp_row r; sp_state := sp_state r; sp_additions :=
     sp_additions r; sp_returns := sp_returns r; sp_runtime_operation_id := sp_runtime_operation_id r; sp_owed := x;
     sp_partial_origin := sp_partial_origin r |}.
Definition set_sp_partial_origin (x : option (option str * OutputOrigin)) (r : SessionPlan) : SessionPlan :=
  {| sp_runtime_initialized := sp_runtime_initialized r; sp_request_origin := sp_request_origin r; sp_request :=
     sp_request r; sp_utility_request := sp_utility_request r; sp_utility_completion := sp_utility_completion r;
     sp_response := sp_response r; sp_seed := sp_seed r; sp_generation := sp_generation r; sp_completion := sp_completion
     r; sp_compaction_claims := sp_compaction_claims r; sp_compaction_commit := sp_compaction_commit r;
     sp_compaction_failed := sp_compaction_failed r; sp_row := sp_row r; sp_state := sp_state r; sp_additions :=
     sp_additions r; sp_returns := sp_returns r; sp_runtime_operation_id := sp_runtime_operation_id r; sp_owed := sp_owed
     r; sp_partial_origin := x |}.
Definition empty_plan (s : Semantics) (row : nat) (state : ScopeState) (owed : option OwedDisplay) : SessionPlan :=
  {| sp_runtime_initialized := sm_runtime_initialized s; sp_request_origin := None; sp_request := None; sp_utility_request := None;
     sp_utility_completion := None; sp_response := None; sp_seed := None; sp_generation := None; sp_completion := None;
     sp_compaction_claims := []; sp_compaction_commit := None; sp_compaction_failed := None; sp_row := row; sp_state := state;
     sp_additions := ∅; sp_returns := ∅; sp_runtime_operation_id := None; sp_owed := owed; sp_partial_origin := None |}.
End State.

(** ** Terminal results *)
Section Terminals.
Context `{BigIntOps} `{Vocabulary}.

Definition duration (object : Value) (root_ : bool) (key : str) : contract (option Z) :=
  match get object key with
  | Some v =>
      if negb root_ && is_null v then Ok None
      else
        map_refused (fun cause => InvalidRecord (lit "terminal result lacks non-negative integer " ++ key ++ lit ": " ++ error_text cause))
          (Some <$> unsigned v key U64_MAX)
  | None => invalid (lit "terminal result lacks non-negative integer " ++ key ++ lit ": missing field")
  end.

Definition missing_path (path : Value) : contract str :=
  ok_or (nonempty_str (as_str path)) (Refused (InvalidRecord (lit "missing_deliverables holds a path that is not a non-empty string"))).

(** Only the session's own terminal can name the deliverables it ended without. *)
Definition missing_deliverables (object : Value) (subtype_ : str) (root_ : bool) (line : Z) : contract (option (list str)) :=
  if bool_decide (subtype_ = MISSING_DELIVERABLES_SUBTYPE) then
    if negb root_
    then invalid (lit "a subagent result names " ++ MISSING_DELIVERABLES_SUBTYPE ++ lit ", which only the session's own terminal can report")
    else
      list_ ← field object "missing_deliverables" line;
      paths ← ok_or (elements list_) (Refused (InvalidRecord (lit "missing_deliverables must be an array of paths")));
      paths ← traverse missing_path paths;
      if bool_decide (paths = []) || negb (size (list_to_set paths : gset str) =? length paths)%nat
      then invalid (lit "missing_deliverables must name at least one path, each once")
      else Ok (Some paths)
  else if bool_decide (get object "missing_deliverables" ≠ None)
  then invalid (lit "a " ++ subtype_ ++ lit " result carries missing_deliverables")
  else Ok None.

Definition terminal_error (object : Value) (line : Z) : contract (option str) :=
  match get object "error" with
  | None => Ok None
  | Some error =>
      object ← ok_or (as_object error) (Refused (InvalidRecord (lit "terminal error must be an object")));
      match get object "message" with
      | None => Ok None
      | Some _ => Some <$> text object "message" line
      end
  end.

Definition terminal (object : Value) (line : Z) (root_ : bool) : contract Terminal :=
  is_error_ ← field object "is_error" line;
  is_error_ ← ok_or (as_bool is_error_) (Refused (InvalidRecord (lit "terminal result lacks boolean is_error")));
  subtype_ ← text object "subtype" line;
  if (is_error_ && bool_decide (subtype_ ∉ ERROR_SUBTYPES)) || (negb is_error_ && bool_decide (subtype_ ≠ SUCCESS_SUBTYPE))
  then invalid (lit (if is_error_ then "error" else "successful") ++ lit " result has unsupported subtype")
  else
    duration_ms ← duration object root_ "duration_ms";
    api_duration_ms ← duration object root_ "duration_api_ms";
    turns ← field object "num_turns" line;
    turns ← unsigned turns "num_turns" SAFE_INTEGER;
    _ ← (if match get object "usage" with Some usage => negb root_ && is_null usage | None => false end then Ok tt
         else usage ← field object "usage" line; _ ← summary_read usage line; Ok tt);
    if negb (match get object "permission_denials" with Some v => is_array v | None => false end)
    then invalid (lit "terminal result lacks array permission_denials")
    else
      error_message ← terminal_error object line;
      if is_error_ && bool_decide (error_message = None) then invalid (lit "error result lacks non-empty error.message")
      else
        missing ← missing_deliverables object subtype_ root_ line;
        response ←
          (if is_error_ then Ok error_message
           else if root_ then Some <$> text object "result" line
           else Ok (get object "result" ≫= as_str));
        Ok {| tm_line := line; tm_is_error := is_error_; tm_subtype := subtype_; tm_response := response; tm_duration_ms := duration_ms;
              tm_api_duration_ms := api_duration_ms; tm_num_turns := turns; tm_error_message := error_message;
              tm_missing_deliverables := missing |}.
End Terminals.

(** ** What a record is held to *)
Section Checks.
Context `{BigIntOps} `{Vocabulary} `{Sha256Ops} `{Serde} `{Base64} `{QuoteOps}.

(** A scope as a refusal names it, without the id it quotes. *)
Definition scope_display (scope : option str) : str :=
  match scope with None => lit "the main session" | Some _ => lit "subagent scope" end.

(** The chain of calls a scope was spawned by.  Each call was issued in a scope
    whose own call is older, so the calls issued are enough fuel. *)
Fixpoint ancestry_loop (fuel : nat) (s : Semantics) (cursor : option str) (line : Z) : contract unit :=
  match cursor with
  | None => Ok tt
  | Some id =>
      match fuel with
      | O => Err OutOfFuel
      | S fuel =>
          match sm_tool_uses s !! id with
          | None => refuse_record line " names a parent_tool_use_id which no accepted generation issued as a tool_use id"
          | Some tool =>
              if tu_returned tool then refuse_record line " continues child of returned tool"
              else
                match sm_scope_rows s !! id with
                | None => ancestry_loop fuel s (tu_scope tool) line
                | Some row =>
                    state ← expect (sm_scope_states s !! row) "self.scope_states[*row]";
                    match ss_terminal state with
                    | Some t => invalid (at_line line ++ lit " continues " ++ scope_display (Some id) ++ lit " after its terminal result at line " ++ show_Z (tm_line t))
                    | None => ancestry_loop fuel s (tu_scope tool) line
                    end
                end
          end
      end
  end.
Definition ensure_ancestry (s : Semantics) (scope : option str) (line : Z) : contract unit :=
  ancestry_loop (S (size (sm_tool_uses s))) s scope line.

(** [scope.or(self.session_id)] *)
Definition kv_scope_of (scope session : option str) : option str := match scope with Some id => Some id | None => session end.

(** Whether a generation belongs to the conversation of [scope], or is internal. *)
Definition conversation_generation (session : option str) (gen : Generation) (scope_ : option str) : contract bool :=
  let refuse := invalid (lit "generation output scope contradicts its envelope or request owner; inspect the hash-bound generation and its producing scope") in
  match output_scope gen with
  | Internal => if bool_decide (scope_ = None) then Ok false else refuse
  | Conversation parent =>
      if bool_decide (parent = scope_) && bool_decide (Some (scope (origin gen)) = kv_scope_of scope_ session) then Ok true else refuse
  end.

Definition usage_fields (served : ServedUsage) : list (str * Z) :=
  [(lit "input_tokens", prompt served); (lit "output_tokens", output served); (lit "cache_read_input_tokens", cached served);
   (lit "reasoning_output_tokens", thoughts served); (lit "total_tokens", total served)].

Definition refuse_shown {A} (line : Z) (what : string) : contract A :=
  invalid (at_line line ++ lit " shows a settled turn with " ++ lit what ++ lit " its generation does not have; the assistant messages derive from the generation record").

Definition shown_count (usage : Value) (line : Z) (_ : unit) (entry : str * Z) : contract unit :=
  v ← field usage entry.1 line;
  n ← unsigned v entry.1 SAFE_INTEGER;
  if negb (n =? entry.2) then refuse_shown line "usage" else Ok tt.

Definition require_shown_message (limits : Limits) (object : Value) (expected_ : DisplayMessage) (model_ : str) (line : Z) : contract unit :=
  message ← field object "message" line;
  named ← text message "model" line;
  if bool_decide (named ≠ model_) then refuse_shown line "a model"
  else
    stop ← field message "stop_reason" line;
    if negb (if tool_use_only expected_ then bool_decide (as_str stop = Some (lit "tool_use")) else is_null stop)
    then refuse_shown line "a stop reason"
    else
      shown_ ← map_refused (fun cause => decode_failure cause line) (decode (content_json expected_) limits);
      content ← field message "content" line;
      if negb (values_equal content (root shown_)) then refuse_shown line "content"
      else
        usage ← field message "usage" line;
        match message_usage expected_ with
        | None => if is_null usage then Ok tt else refuse_shown line "usage"
        | Some served =>
            if is_null usage then refuse_shown line "usage"
            else fold_result (shown_count usage line) tt (usage_fields served)
        end.

Definition require_tool_owner (s : Semantics) (id : str) (scope : option str) (line : Z) : contract unit :=
  match sm_tool_uses s !! id with
  | None => refuse_record line " names a tool before issuance"
  | Some tool =>
      if bool_decide (tu_scope tool ≠ scope) || tu_returned tool then refuse_record line " names a wrong-owner or already returned tool"
      else Ok tt
  end.
End Checks.

(** ** The plan of one record *)
Section Plan.
Context `{BigIntOps} `{Vocabulary} `{Sha256Ops} `{Serde} `{Base64} `{QuoteOps} (SERVED_TURN_REFUSALS : list ServedTurnRefusal).

(** What a settled turn still owes once this record showed its next message:
    nothing may come before the messages owed. *)
Definition show_owed (s : Semantics) (kind : RecordKind) (object : Value) (scope : option str) (line : Z) :
    contract (option OwedDisplay * bool) :=
  match sm_owed s with
  | None => Ok (None, false)
  | Some pending =>
      if negb (bool_decide (kind = Assistant)) || bool_decide (scope ≠ od_scope pending)
      then invalid (at_line line ++ lit " precedes the assistant messages its settled turn in " ++ scope_display (od_scope pending)
                      ++ lit " shows; retain the complete original stream")
      else
        match od_messages pending with
        | [] => Err (Panic "an owed turn has a message")
        | expected_ :: rest =>
            _ ← require_shown_message (json_limits (sm_limits s)) object expected_ (od_model pending) line;
            Ok (match rest with
                | [] => None
                | _ => Some {| od_scope := od_scope pending; od_model := od_model pending; od_messages := rest |}
                end, true)
        end
  end.

(** The display scope a chat request renders for; [None] when it is internal. *)
Definition display_scope (s : Semantics) (session : option str) (kv_scope : str) : option (option str) :=
  if bool_decide (Some kv_scope = session) then Some None
  else if bool_decide (sm_tool_uses s !! kv_scope ≠ None) then Some (Some kv_scope)
  else None.

Definition unreturned_in (s : Semantics) (display : option str) : bool :=
  existsb (fun kv => bool_decide (tu_scope kv.2 = display) && negb (tu_returned kv.2)) (map_to_list (sm_tool_uses s)).

Definition plan_model_request (s : Semantics) (session : option str) (object : Value) (scope_ : option str) (line : Z) (p : SessionPlan) :
    contract SessionPlan :=
  if negb (sp_runtime_initialized p)
  then refuse_record line " dispatches model work without the pinned runtime init; retain the complete initialized invocation"
  else
    admission ← plan_request (sm_requests s) object line (json_limits (sm_limits s)) (sm_operator s);
    origin_ ←
      match ra_attempt admission with
      | None => Ok None
      | Some attempt_ =>
          if decide (ra_scope admission ∈ sm_failed_compaction_scopes s)
          then refuse_record line " issues a chat request in a scope after its compaction failed; a compaction that fails ends its conversation, so no turn follows it; inspect the client"
          else
            match display_scope s session (ra_scope admission) with
            | None => Ok None
            | Some display_ =>
                if bool_decide (display_ = scope_) && bool_decide (ss_runtime_text (sp_state p) ≠ None)
                then refuse_record line " dispatches a chat attempt after runtime assistant output in the same scope; inspect the original local result and request"
                else if unreturned_in s display_
                then invalid (at_line line ++ lit " sends the next request in " ++ scope_display display_
                                ++ lit " before any row reports that the tool for a call returned; retain the complete original stream")
                else Ok (Some (display_, Model {| attempt := attempt_; scope := ra_scope admission |}))
            end
      end;
    Ok (set_sp_request (Some admission) (set_sp_partial_origin origin_ p)).

Definition plan_model_utility_request (s : Semantics) (object : Value) (line : Z) (p : SessionPlan) : contract SessionPlan :=
  if negb (sp_runtime_initialized p) then refuse_record line " dispatches utility work without runtime init"
  else
    admission ← plan_utility_request (sm_requests s) object line (json_limits (sm_limits s));
    Ok (set_sp_utility_request (Some admission) p).

Definition plan_model_generation (s : Semantics) (session : option str) (object : Value) (scope_ : option str) (line : Z) (p : SessionPlan) :
    contract SessionPlan :=
  gen ← plan_generation (sm_requests s) object line (json_limits (sm_limits s)) (schema_limits (sm_limits s));
  conversation ← conversation_generation session gen scope_;
  p ← (if conversation : bool then
         partial ← observe_generation (ss_partial (sp_state p)) gen;
         Ok (set_sp_state (set_ss_partial partial (sp_state p)) p)
       else Ok p);
  Ok (set_sp_generation (Some gen) p).

(** The tools an accepted turn issues, each once in the stream. *)
Definition issue_call (s : Semantics) (scope_ : option str) (line : Z) (additions : gmap str ToolUse) (call : Call) :
    contract (gmap str ToolUse) :=
  match (match sm_tool_uses s !! call_id call with Some t => Some t | None => additions !! call_id call end) with
  | Some previous_ =>
      invalid (at_line line ++ lit " re-issues tool_use id, first issued at line " ++ show_Z (tu_line previous_) ++ lit " in "
                 ++ scope_display (tu_scope previous_) ++ lit "; inspect the accepted generations")
  | None =>
      name ← expect (call_name call) "accepted generation call name";
      Ok (<[call_id call :=
              {| tu_name := name;
                 tu_structured_input := if bool_decide (call_name call = Some (lit "structured_output")) then Some (call_arguments call) else None;
                 tu_line := line; tu_scope := scope_; tu_returned := false |}]> additions)
  end.

Definition plan_attempt_completion (s : Semantics) (session : option str) (object : Value) (scope_ : option str) (line : Z) (p : SessionPlan) :
    contract SessionPlan :=
  admission ← plan_completion (sm_requests s) object line;
  let gen := ca_generation admission in
  conversation ← conversation_generation session gen scope_;
  p ← (if conversation : bool then
         let accepted_ := bool_decide (ca_disposition admission = Accepted) in
         partial ← observe_completion (ss_partial (sp_state p)) (origin gen) accepted_;
         let p := set_sp_state (set_ss_partial partial (sp_state p)) p in
         p ← (if bool_decide (ca_disposition admission ≠ Abandoned) then
                messages ← display gen (bool_decide (ca_disposition admission = RefusedTurn));
                Ok (set_sp_owed (Some {| od_scope := scope_; od_model := model gen; od_messages := messages |}) p)
              else Ok p);
         if accepted_ then
           let p := match scope_ with
                    | None => set_sp_state (set_ss_runtime_text None (set_ss_model_text (Some (display_text gen)) (sp_state p))) p
                    | Some _ => p
                    end in
           additions ← fold_result (issue_call s scope_ line) (sp_additions p) (calls gen);
           Ok (set_sp_additions additions p)
         else Ok p
       else Ok p);
  Ok (set_sp_completion (Some admission) p).

Definition rendered_block (line : Z) (rendered : str) (block : Value) : contract str :=
  type ← text block "type" line;
  if bool_decide (type ≠ lit "text") then refuse_record line " claims non-text runtime assistant output; inspect its producing operation"
  else t ← text block "text" line; Ok (rendered ++ t).

(** An assistant record that shows no settled turn: the output of a local
    operation, held to its receipt. *)
Definition plan_assistant (s : Semantics) (object : Value) (scope_ : option str) (line : Z) (p : SessionPlan) : contract SessionPlan :=
  session ← text object "session_id" line;
  if has_chat_attempt_in_scope (sm_requests s) (default session scope_)
  then refuse_record line " claims runtime assistant output after a chat attempt in the same scope; inspect the original generation and its output"
  else
    message ← field object "message" line;
    stop ← field message "stop_reason" line;
    modelled ← (if negb (is_null stop) then Ok true else usage ← field message "usage" line; Ok (negb (is_null usage)));
    if modelled : bool then refuse_record line " claims model stop or usage on runtime assistant output; inspect its producing operation"
    else
      content ← field message "content" line;
      content ← ok_or (elements content) (Refused (InvalidRecord (at_line line ++ lit " has no runtime assistant content; inspect the original recording")));
      rendered ← fold_result (rendered_block line) [] content;
      let state := sp_state p in
      receipt ← ok_or (ss_runtime_operation state) (Refused (InvalidRecord (at_line line
                  ++ lit " has runtime assistant output without a local operation receipt; retain the complete original stream")));
      if negb (Z.of_nat (length rendered) =? op_output_bytes receipt) || bool_decide (sha256 rendered ≠ op_output_sha256 receipt)
      then refuse_record line " changes the output of a local operation; inspect its receipt and assistant bytes"
      else
        partial ← complete_message (ss_partial state) rendered;
        let state := set_ss_completed_runtime_operation (Some (op_id receipt)) (set_ss_runtime_operation None state) in
        let state := set_ss_runtime_text (Some rendered) (set_ss_partial partial state) in
        Ok (set_sp_state (match scope_ with None => set_ss_model_text None state | Some _ => state end) p).

(** One tool result of a user record. *)
Definition return_tool (s : Semantics) (scope_ : option str) (line : Z) (st : ScopeState * gset str) (block : Value) :
    contract (ScopeState * gset str) :=
  let '(state, returns) := st in
  id ← text block "tool_use_id" line;
  _ ← require_tool_owner s id scope_ line;
  state ← (if bool_decide ((get block "is_error" ≫= as_bool) = Some false) then
             tool ← expect (sm_tool_uses s !! id) "checked tool owner";
             Ok (if bool_decide (tu_name tool = lit "structured_output") && bool_decide (ss_structured_input state = None)
                 then set_ss_structured_input (tu_structured_input tool) state else state)
           else Ok state);
  if decide (id ∈ returns) then refuse_record line " repeats a tool result" else Ok (state, {[ id ]} ∪ returns).

Definition plan_user (s : Semantics) (object : Value) (scope_ : option str) (line : Z) (p : SessionPlan) : contract SessionPlan :=
  message ← field object "message" line;
  content ← field message "content" line;
  blocks_ ← ok_or (elements content) (Refused (InvalidRecord (at_line line ++ lit " has user content that is not an array")));
  '(state, returns) ← fold_result (return_tool s scope_ line) (sp_state p, sp_returns p) blocks_;
  Ok (set_sp_returns returns (set_sp_state state p)).

Definition plan_stream_event (s : Semantics) (record : DecodedRecord) (scope_ : option str) (line : Z) (p : SessionPlan) :
    contract SessionPlan :=
  let object := record_value record in
  let state := sp_state p in
  partial ← (match sm_partial_origins s !! scope_ with Some o => set_origin (ss_partial state) o | None => Ok (ss_partial state) end);
  decoded_ ← expect (record_partial record) "decoded stream event";
  partial ← PartialStream.observe partial decoded_ (bool_decide (scope_ = None)) line;
  let state := set_ss_partial partial state in
  event ← field object "event" line;
  type ← text event "type" line;
  let state := if bool_decide (type = lit "message_stop") then set_ss_completed_runtime_operation None state else state in
  _ ← (if bool_decide (type = lit "tool_progress")
       then id ← text event "tool_use_id" line; require_tool_owner s id scope_ line
       else Ok tt);
  Ok (set_sp_state state p).

Definition plan_compaction_record (s : Semantics) (session : option str) (object : Value) (scope_ : option str) (line : Z) (p : SessionPlan) :
    contract SessionPlan :=
  kv_scope ← ok_or (kv_scope_of scope_ session) (Refused (InvalidRecord (at_line line
               ++ lit " has no compaction request scope; retain the complete stream_start and request evidence")));
  if decide (kv_scope ∈ sm_failed_compaction_scopes s)
  then invalid (at_line line ++ lit " records a compaction in " ++ scope_display scope_
                  ++ lit " after its compaction failed; a compaction that fails ends its conversation, so nothing follows it there; inspect the compaction producer")
  else
    '(claims, committed) ← validate_compaction_event (sm_requests s) object (json_limits (sm_limits s)) kv_scope line;
    let p := set_sp_compaction_claims claims p in
    Ok (match committed with
        | None => set_sp_compaction_failed (Some kv_scope) p
        | Some draw => set_sp_compaction_commit (Some (kv_scope, draw)) p
        end).

Definition plan_runtime_operation (s : Semantics) (object : Value) (scope_ : option str) (line : Z) (p : SessionPlan) : contract SessionPlan :=
  let state := sp_state p in
  data ← field object "data" line;
  id ← text data "operation_id" line;
  if bool_decide (ss_runtime_operation state ≠ None) || bool_decide (id ∈ sm_runtime_operation_ids s)
  then refuse_record line " repeats or leaves open a local operation receipt; inspect the original operation and assistant output"
  else
    bytes ← field data "output_bytes" line;
    bytes ← unsigned bytes "local output bytes" SAFE_INTEGER;
    sha ← text data "output_sha256" line;
    partial ← set_origin (ss_partial state) Runtime;
    let state := set_ss_runtime_operation (Some {| op_id := id; op_output_sha256 := sha; op_output_bytes := bytes |}) state in
    let state := set_ss_partial partial (set_ss_completed_runtime_operation None state) in
    Ok (set_sp_partial_origin (Some (scope_, Runtime)) (set_sp_runtime_operation_id (Some id) (set_sp_state state p))).

Definition plan_system (s : Semantics) (session : option str) (prefix : Z) (object : Value) (scope_ : option str) (line : Z) (p : SessionPlan) :
    contract SessionPlan :=
  name ← text object "subtype" line;
  kind ← expect (system_from_wire name) "decoded system subtype";
  match kind with
  | StreamStart =>
      if prefix =? 0 then Ok p
      else refuse_record line " starts another invocation before this invocation has closed; retain one complete invocation"
  | Init => _ ← validate_init (sm_bindings s) object line; Ok (set_sp_runtime_initialized true p)
  | CompactionRecord => plan_compaction_record s session object scope_ line p
  | RuntimeOperationReceipt => plan_runtime_operation s object scope_ line p
  | SessionRecordingDegraded =>
      data ← field object "data" line;
      reason ← text data "reason" line;
      message ← text data "message" line;
      invalid (at_line line ++ lit " reports operational failure " ++ lit (system_wire kind) ++ lit " (" ++ reason ++ lit "): " ++ message)
  | TurnCleanupFailed | VisionBridgeFailed =>
      data ← field object "data" line;
      invalid (at_line line ++ lit " reports operational failure " ++ lit (system_wire kind) ++ lit ": " ++ raw data)
  | SessionStart | SessionEnd => refuse_record line " declares transport ownership inside an already owned invocation"
  | TaskNotification =>
      data ← field object "data" line;
      match get data "usage" with
      | Some usage => usage ← field usage "ownerUsage" line; _ ← summary_read usage line; Ok p
      | None => Ok p
      end
  | TaskStarted | WorktreeStarted | WorktreeRestored | VisionRouting | VisionBridge => Ok p
  end.

(** The structured result of a session is what the model submitted and what the
    result text renders. *)
Definition structured_result (s : Semantics) (object : Value) (scope_ : option str) (state : ScopeState) (t : Terminal) (line : Z) :
    contract unit :=
  match get object "structured_result" with
  | Some structured =>
      if bool_decide (scope_ ≠ None) || tm_is_error t then refuse_record line " claims structured output outside a successful root result"
      else
        input ← ok_or (ss_structured_input state) (Refused (InvalidRecord (at_line line
                  ++ lit " has no successful accepted structured_output submission")));
        submitted ← map_refused (fun cause => decode_failure cause line) (decode input (json_limits (sm_limits s)));
        response ← expect (tm_response t) "successful root result has text";
        rendered ← map_refused (fun cause => decode_failure cause line) (decode response (json_limits (sm_limits s)));
        if negb (values_equal structured (root submitted)) || negb (values_equal structured (root rendered))
        then refuse_record line " structured result contradicts the accepted tool submission or result text"
        else Ok tt
  | None =>
      if bool_decide (scope_ = None) && negb (tm_is_error t) && bool_decide (ss_structured_input state ≠ None)
      then refuse_record line " omits the successful structured_output submission"
      else Ok tt
  end.

(** [rendered.is_some_and(|rendered| response != Some(rendered))] *)
Definition contradicts (rendered response : option str) : bool := bool_decide (rendered ≠ None) && bool_decide (response ≠ rendered).

Definition finish_child (child : ScopeState) : contract unit := finish_scope (ss_partial child).

Definition plan_result (s : Semantics) (object : Value) (scope_ : option str) (line : Z) (p : SessionPlan) : contract SessionPlan :=
  let state := sp_state p in
  if bool_decide (ss_runtime_operation state ≠ None)
  then refuse_record line " ends before the local operation's assistant output; retain the complete original stream"
  else
    _ ← finish_scope (ss_partial state);
    t ← terminal object line (bool_decide (scope_ = None));
    let state := set_ss_terminal (Some t) (set_ss_completed_runtime_operation None state) in
    _ ← structured_result s object scope_ state t line;
    if contradicts (ss_runtime_text state) (tm_response t)
    then refuse_record line " terminal result contradicts runtime assistant text; inspect the complete original recording"
    else if bool_decide (scope_ = None) && negb (tm_is_error t) && bool_decide (get object "structured_result" = None)
            && contradicts (ss_model_text state) (tm_response t)
    then refuse_record line " successful result contradicts accepted model text; inspect the complete original recording"
    else
      _ ← (match scope_ with
           | Some _ => Ok tt
           | None =>
               if negb (sp_runtime_initialized p) && negb (tm_is_error t)
               then refuse_record line " reports success without the pinned runtime init; retain the complete initialized invocation"
               else
                 _ ← traverse finish_child (drop 1 (sm_scope_states s));
                 validate_summary (sm_requests s) object line
           end);
      Ok (set_sp_state state p).

Definition plan_kind (s : Semantics) (session : option str) (prefix : Z) (record : DecodedRecord) (shown_turn : bool) (scope_ : option str)
    (line : Z) (p : SessionPlan) : contract SessionPlan :=
  let object := record_value record in
  match kind_of (record_kind record) with
  | ModelRequest => plan_model_request s session object scope_ line p
  | ModelUtilityRequest => plan_model_utility_request s object line p
  | ModelUtilityCompletion => a ← plan_utility_completion (sm_requests s) object line; Ok (set_sp_utility_completion (Some a) p)
  | ModelResponse => a ← plan_response SERVED_TURN_REFUSALS (sm_requests s) object line; Ok (set_sp_response (Some a) p)
  | ModelNormalizationSeed => a ← plan_seed (sm_requests s) object line; Ok (set_sp_seed (Some a) p)
  | ModelGeneration => plan_model_generation s session object scope_ line p
  | ModelAttemptCompletion => plan_attempt_completion s session object scope_ line p
  | Assistant => if shown_turn then Ok p else plan_assistant s object scope_ line p
  | User => plan_user s object scope_ line p
  | StreamEvent => plan_stream_event s record scope_ line p
  | System => plan_system s session prefix object scope_ line p
  | Result => plan_result s object scope_ line p
  end.

(** Where a scope's state is, and the state itself; a new scope's row is past
    the last. *)
Definition scope_row (s : Semantics) (scope_ : option str) : nat :=
  match scope_ with None => 0%nat | Some id => default (length (sm_scope_states s)) (sm_scope_rows s !! id) end.
Definition scope_at (s : Semantics) (scope_ : option str) : ScopeState := default (new_scope scope_) (sm_scope_states s !! scope_row s scope_).

(** [RuntimeContract::plan], but for the certified prefix its caller advances. *)
Definition plan_event (s : Semantics) (prefix : Z) (session : option str) (record : DecodedRecord) (line : Z) : contract SessionPlan :=
  let object := record_value record in
  main ← expect (sm_scope_states s !! 0%nat) "self.scope_states[0]";
  match ss_terminal main with
  | Some t => invalid (lit "events.jsonl terminal result at line " ++ show_Z (tm_line t) ++ lit " is followed by another event at line " ++ show_Z line)
  | None =>
      scope_ ← required_scope object line;
      _ ← ensure_ancestry s scope_ line;
      '(owed, shown_turn) ← show_owed s (kind_of (record_kind record)) object scope_ line;
      p ← plan_kind s session prefix record shown_turn scope_ line (empty_plan s (scope_row s scope_) (scope_at s scope_) owed);
      if prefix =? 0 then
        evidence ← field object "request_evidence_origin" line;
        o ← plan_origin (sm_requests s) evidence line;
        Ok (set_sp_request_origin (Some o) p)
      else Ok p
  end.

(** ** What a plan's commit makes of the state *)

(** [if let Some(a) = ..] *)
Definition when {A} (a : option A) (f : A → ModelRequests → contract ModelRequests) (r : ModelRequests) : contract ModelRequests :=
  match a with Some a => f a r | None => Ok r end.

Definition commit_before_scopes (p : SessionPlan) (r : ModelRequests) : contract ModelRequests :=
  r ← when (sp_request_origin p) (fun o r => Ok (commit_origin o r)) r;
  r ← when (sp_response p) commit_response r;
  r ← when (sp_utility_completion p) (fun a r => Ok (commit_utility_completion a r)) r;
  r ← when (sp_seed p) commit_seed r;
  r ← when (sp_generation p) commit_generation r;
  r ← when (sp_completion p) commit_completion r;
  r ← commit_compaction_claims (sp_compaction_claims p) r;
  when (sp_compaction_commit p) (fun c => commit_compaction c.1 c.2) r.
Definition commit_requests (p : SessionPlan) (r : ModelRequests) : contract ModelRequests :=
  r ← when (sp_request p) commit_request r;
  when (sp_utility_request p) commit_utility_request r.

Definition commit_scope (p : SessionPlan) (s : Semantics) : contract Semantics :=
  if (sp_row p =? length (sm_scope_states s))%nat then
    id ← expect (ss_id (sp_state p)) "new rows are child scopes";
    Ok (set_sm_scope_states (sm_scope_states s ++ [sp_state p]) (set_sm_scope_rows (<[id := sp_row p]> (sm_scope_rows s)) s))
  else
    _ ← expect (sm_scope_states s !! sp_row p) "self.scope_states[plan.row]";
    Ok (set_sm_scope_states (<[sp_row p := sp_state p]> (sm_scope_states s)) s).

Definition set_tu_returned (t : ToolUse) : ToolUse :=
  {| tu_name := tu_name t; tu_structured_input := tu_structured_input t; tu_line := tu_line t; tu_scope := tu_scope t; tu_returned := true |}.
Definition mark_returned (tools : gmap str ToolUse) (id : str) : contract (gmap str ToolUse) :=
  update_entry tools id "planned return names issued tool" set_tu_returned.

Definition commit_event (p : SessionPlan) (s : Semantics) : contract Semantics :=
  let s := set_sm_runtime_initialized (sp_runtime_initialized p) s in
  r ← commit_before_scopes p (sm_requests s);
  let s := set_sm_requests r s in
  let s := match sp_compaction_failed p with
           | Some scope_ => set_sm_failed_compaction_scopes ({[ scope_ ]} ∪ sm_failed_compaction_scopes s) s
           | None => s
           end in
  s ← commit_scope p s;
  r ← commit_requests p (sm_requests s);
  let s := set_sm_requests r s in
  tools ← fold_result mark_returned (sp_additions p ∪ sm_tool_uses s) (base.elements (sp_returns p));
  let s := set_sm_tool_uses tools s in
  let s := match sp_runtime_operation_id p with
           | Some id => set_sm_runtime_operation_ids ({[ id ]} ∪ sm_runtime_operation_ids s) s
           | None => s
           end in
  let s := set_sm_owed (sp_owed p) s in
  Ok (match sp_partial_origin p with
      | Some (scope_, o) => set_sm_partial_origins (<[scope_ := o]> (sm_partial_origins s)) s
      | None => s
      end).
End Plan.

(** ** The agent's result *)
Record AgentScope := {
  as_tool_use_id : str; as_tool_name : str; as_reported_num_turns : option Z; as_is_error : option bool;
  as_subtype : option str; as_error_message : option str;
}.
Record RequestScope := { rq_kv_scope : str; rq_usage : GenerationUsageSummary }.
Record AgentResult := {
  ag_is_error : bool; ag_subtype : str; ag_response : str; ag_duration_ms : Z; ag_api_duration_ms : Z; ag_num_turns : Z;
  ag_main_kv_scope : str; ag_usage : GenerationUsageSummary; ag_request_scopes : list RequestScope; ag_scopes : list AgentScope;
  ag_missing_deliverables : option (list str);
}.

(** [BTreeMap::iter]: a map's entries in key order. *)
Definition ordered {V} (m : gmap str V) : list (str * V) := foldr (fun kv l => bt_insert kv.1 kv.2 l) [] (map_to_list m).

Section Finish.
Context `{Sha256Ops} `{Serde}.

Definition usage_scopes (r : ModelRequests) : list RequestScope :=
  map (fun kv => {| rq_kv_scope := kv.1; rq_usage := kv.2 |}) (ordered (mr_usage r)).

Definition agent_scope (s : Semantics) (state : ScopeState) : contract AgentScope :=
  id ← expect (ss_id state) "child row identity";
  tool ← expect (sm_tool_uses s !! id) "issued child owner";
  Ok {| as_tool_use_id := id; as_tool_name := tu_name tool; as_reported_num_turns := tm_num_turns <$> ss_terminal state;
        as_is_error := tm_is_error <$> ss_terminal state; as_subtype := tm_subtype <$> ss_terminal state;
        as_error_message := ss_terminal state ≫= tm_error_message |}.

(** [RuntimeContract::finish] past its first two checks: the result a whole
    stream's final state holds. *)
Definition finish_semantics (s : Semantics) (prefix : Z) (session : option str) : contract AgentResult :=
  if prefix =? 0 then invalid (lit "events.jsonl contains no events")
  else
    match sm_owed s with
    | Some owed =>
        invalid (lit "events.jsonl ends before the assistant messages of a settled turn in " ++ scope_display (od_scope owed)
                   ++ lit "; retain the complete original stream")
    | None =>
        match List.find (fun state => bool_decide (ss_runtime_operation state ≠ None)) (sm_scope_states s) with
        | Some state =>
            invalid (lit "events.jsonl omits the assistant output of a local operation in " ++ scope_display (ss_id state)
                       ++ lit "; retain the complete original stream")
        | None =>
            main ← expect (sm_scope_states s !! 0%nat) "self.scope_states[0]";
            match ss_terminal main with
            | None => invalid (lit "events.jsonl has " ++ show_Z prefix ++ lit " event(s) but no main-session terminal result")
            | Some t =>
                scopes ← traverse (agent_scope s) (drop 1 (sm_scope_states s));
                response ← expect (tm_response t) "root response admitted";
                duration_ms ← expect (tm_duration_ms t) "root duration admitted";
                api_duration_ms ← expect (tm_api_duration_ms t) "root duration admitted";
                main_kv_scope ← expect session "validated initial session owner";
                Ok {| ag_is_error := tm_is_error t; ag_subtype := tm_subtype t; ag_response := response; ag_duration_ms := duration_ms;
                      ag_api_duration_ms := api_duration_ms; ag_num_turns := tm_num_turns t; ag_main_kv_scope := main_kv_scope;
                      ag_usage := mr_all_usage (sm_requests s); ag_request_scopes := usage_scopes (sm_requests s); ag_scopes := scopes;
                      ag_missing_deliverables := tm_missing_deliverables t |}
            end
        end
    end.
End Finish.

(** ** The program's planner *)

(** A computation that may panic but refuses nothing. *)
Definition refuses_nothing {A} (r : contract A) : Prop := ∀ e, r ≠ Err (Refused e).

Lemma refuses_nothing_ok {A} (x : A) : refuses_nothing (Ok x : contract A).
Proof. by intros e. Qed.
Lemma refuses_nothing_expect {A} (o : option A) site : refuses_nothing (expect o site : contract A).
Proof. intros e. by destruct o. Qed.
Lemma refuses_nothing_bind {A B} (r : contract A) (f : A → contract B) :
  refuses_nothing r → (∀ x, refuses_nothing (f x)) → refuses_nothing (r ≫= f).
Proof. intros Hr Hf e. destruct r as [x|[e'| |]]; simpl; [apply Hf|by destruct (Hr e')|done..]. Qed.
Lemma refuses_nothing_fold {A S} (f : S → A → contract S) s l :
  (∀ s x, refuses_nothing (f s x)) → refuses_nothing (fold_result f s l).
Proof.
  intros Hf. revert s. induction l as [|x l IH]; intros s; [apply refuses_nothing_ok|].
  by apply refuses_nothing_bind.
Qed.
Lemma refuses_nothing_if {A} (b : bool) (x y : contract A) : refuses_nothing x → refuses_nothing y → refuses_nothing (if b then x else y).
Proof. by destruct b. Qed.
Lemma refuses_nothing_update {V} (m : gmap str V) k site f : refuses_nothing (update_entry m k site f).
Proof. apply refuses_nothing_bind; [apply refuses_nothing_expect|]. intros. apply refuses_nothing_ok. Qed.
Section Commits.
Context `{BigIntOps} `{Vocabulary} `{Sha256Ops} `{Serde} `{Base64} `{QuoteOps} (SERVED_TURN_REFUSALS : list ServedTurnRefusal).

Ltac panics :=
  repeat (intros; cbv zeta; first [progress simpl | apply refuses_nothing_ok | apply refuses_nothing_expect | apply refuses_nothing_update
    | apply refuses_nothing_fold | apply refuses_nothing_bind | case_match | by intros ? | assumption]).

Lemma commit_response_panics a r : refuses_nothing (commit_response a r).
Proof.
  unfold commit_response, commit_body_step, commit_outcome, outcome_of_utility, outcome_of_draw, outcome_of_attempt, deliver_utility,
    deliver_draw, settle_history. panics.
Qed.
Lemma commit_seed_panics a r : refuses_nothing (commit_seed a r).
Proof. unfold commit_seed. panics. Qed.
Lemma commit_generation_panics a r : refuses_nothing (commit_generation a r).
Proof. unfold commit_generation. panics. Qed.
Lemma commit_completion_panics a r : refuses_nothing (commit_completion a r).
Proof. unfold commit_completion. panics. Qed.
Lemma commit_compaction_claims_panics claims r : refuses_nothing (commit_compaction_claims claims r).
Proof. unfold commit_compaction_claims, claim_draw. panics. Qed.
Lemma commit_compaction_panics scope draw r : refuses_nothing (commit_compaction scope draw r).
Proof. unfold commit_compaction. panics. Qed.
Lemma commit_request_panics a r : refuses_nothing (commit_request a r).
Proof. unfold commit_request, commit_journal, add_one. panics. Qed.
Lemma commit_utility_request_panics a r : refuses_nothing (commit_utility_request a r).
Proof. unfold commit_utility_request, add_one. panics. Qed.
Lemma when_panics {A} (a : option A) f r : (∀ a r, refuses_nothing (f a r)) → refuses_nothing (when a f r).
Proof. intros Hf. destruct a; [apply Hf|apply refuses_nothing_ok]. Qed.

Lemma commit_event_panics p s : refuses_nothing (commit_event p s).
Proof.
  assert (Hb : ∀ r, refuses_nothing (commit_before_scopes p r)).
  { intros r. unfold commit_before_scopes.
    repeat (apply refuses_nothing_bind; [apply when_panics; intros|intros]);
      auto using refuses_nothing_ok, commit_response_panics, commit_seed_panics, commit_generation_panics, commit_completion_panics.
    apply refuses_nothing_bind; [apply commit_compaction_claims_panics|intros].
    apply when_panics. intros. apply commit_compaction_panics. }
  assert (Hr : ∀ r, refuses_nothing (commit_requests p r)).
  { intros r. unfold commit_requests. apply refuses_nothing_bind; [|intros]; apply when_panics; intros;
      [apply commit_request_panics|apply commit_utility_request_panics]. }
  unfold commit_event, commit_scope, mark_returned. cbv zeta. apply refuses_nothing_bind; [apply Hb|]. intros r.
  apply refuses_nothing_bind; [panics|]. intros s'. apply refuses_nothing_bind; [apply Hr|]. panics.
Qed.

(** The instance of [Planner] the program runs. *)
#[export] Instance conversation_planner : Planner := {|
  semantics := Semantics; admission_plan := SessionPlan;
  initial_semantics := new_semantics;
  plan_record := plan_event SERVED_TURN_REFUSALS;
  commit_plan := commit_event;
  commit_refuses_nothing := commit_event_panics;
|}.

(** [RuntimeContract::finish] *)
Definition finish (r : RuntimeContract) : contract AgentResult :=
  match first_refusal r with
  | Some e => Err (Refused e)
  | None =>
      match pending r with
      | Some _ => invalid (lit "admission remains pending reconciliation")
      | None => finish_semantics (state r) (prefix r) (session_id r)
      end
  end.
End Commits.
