(* ===== verification/Lifecycle.v ===== *)
(** * Lifecycle: what holds of a session at every record (src/protocol/engine/src/runtime.rs)

    The invariant of module Conversation's state over every record a runtime can
    admit: the requests are a ledger, every scope has its call, every call its
    older parent, a settled turn owes at least one message, and a finished
    session has settled everything.  From it: an admitted record commits, the
    walk over a scope's ancestry ends, what is closed stays closed, a settled
    turn is shown whole, and a result stands for the whole stream. *)
From S2P Require Import Prelude Number Utf8 BTree Json JsonTree Schema Stream Usage Generation PartialStream Authorship Sse Serde Turns Requests Utilities Admission Compaction Ledger Account Conversation.

(** A record of the stream's beginning is a system record: what the generated
    enumeration makes of its wire name. *)
Class VocabularyLaws `{Vocabulary} : Prop := {
  kind_of_system k : event_from_wire (lit "system") = Some k → kind_of k = System;
}.

(** ** What a plan's admissions do to the requests *)
Section Admissions.
Context `{BigIntOps} `{Vocabulary} `{Sha256Ops} `{Serde} `{Base64} `{QuoteOps} (SERVED_TURN_REFUSALS : list ServedTurnRefusal).

Definition commits_requests (p : SessionPlan) (r : ModelRequests) : contract ModelRequests :=
  r ← commit_before_scopes p r; commit_requests p r.

(** A plan that admits nothing to the requests. *)
Record blank (p : SessionPlan) : Prop := {
  bl_origin : sp_request_origin p = None; bl_request : sp_request p = None; bl_utility_request : sp_utility_request p = None;
  bl_utility_completion : sp_utility_completion p = None; bl_response : sp_response p = None; bl_seed : sp_seed p = None;
  bl_generation : sp_generation p = None; bl_completion : sp_completion p = None; bl_claims : sp_compaction_claims p = [];
  bl_commit : sp_compaction_commit p = None;
}.

(** Nothing, or one admission planned against the requests. *)
Definition settles (r : ModelRequests) (p : SessionPlan) : Prop :=
  commits_requests p r = Ok r ∨ ledger_step SERVED_TURN_REFUSALS r (commits_requests p r).

Lemma bind_ok_r {A} (m : contract A) : (x ← m; Ok x) = m.
Proof. by destruct m. Qed.

Ltac open_blank Hb := destruct Hb as [? ? ? ? ? ? ? ? ? ?];
  unfold settles, commits_requests, commit_before_scopes, commit_requests, commit_compaction_claims; simpl in *; simplify_eq/=;
  repeat match goal with E : _ = None |- _ => rewrite E in *; clear E | E : _ = [] |- _ => rewrite E in *; clear E end; simpl.

Lemma blank_commits p r : blank p → commits_requests p r = Ok r.
Proof. intros Hb. by open_blank Hb. Qed.
Lemma blank_settles p r : blank p → settles r p.
Proof. intros Hb. left. by apply blank_commits. Qed.

Lemma settles_request p r record line limits operator a :
  blank p → in_arena record → plan_request r record line limits operator = Ok a → settles r (set_sp_request (Some a) p).
Proof.
  intros Hb Hv Hp. open_blank Hb. right. cbn [mbind result_bind]. rewrite bind_ok_r. by eapply step_request.
Qed.
Lemma settles_utility_request p r record line limits a :
  blank p → in_arena record → plan_utility_request r record line limits = Ok a → settles r (set_sp_utility_request (Some a) p).
Proof. intros Hb Hv Hp. open_blank Hb. right. by eapply step_utility_request. Qed.
Lemma settles_utility_completion p r record line a :
  blank p → in_arena record → plan_utility_completion r record line = Ok a → settles r (set_sp_utility_completion (Some a) p).
Proof. intros Hb Hv Hp. open_blank Hb. right. by eapply step_utility_completion. Qed.
Lemma settles_response p r record line a :
  blank p → in_arena record → plan_response SERVED_TURN_REFUSALS r record line = Ok a → settles r (set_sp_response (Some a) p).
Proof. intros Hb Hv Hp. open_blank Hb. right. rewrite !bind_ok_r. by eapply step_response. Qed.
Lemma settles_seed p r record line a :
  blank p → in_arena record → plan_seed r record line = Ok a → settles r (set_sp_seed (Some a) p).
Proof. intros Hb Hv Hp. open_blank Hb. right. rewrite !bind_ok_r. by eapply step_seed. Qed.
Lemma settles_generation p r record line limits schema a :
  blank p → in_arena record → plan_generation r record line limits schema = Ok a → settles r (set_sp_generation (Some a) p).
Proof. intros Hb Hv Hp. open_blank Hb. right. rewrite !bind_ok_r. by eapply step_generation. Qed.
Lemma settles_completion p r record line a :
  blank p → in_arena record → plan_completion r record line = Ok a → settles r (set_sp_completion (Some a) p).
Proof. intros Hb Hv Hp. open_blank Hb. right. rewrite !bind_ok_r. by eapply step_completion. Qed.
Lemma settles_compaction p r record limits kv_scope line claims committed :
  blank p → in_arena record → validate_compaction_event r record limits kv_scope line = Ok (claims, committed) →
  settles r (match committed with
             | None => set_sp_compaction_failed (Some kv_scope) (set_sp_compaction_claims claims p)
             | Some draw => set_sp_compaction_commit (Some (kv_scope, draw)) (set_sp_compaction_claims claims p)
             end).
Proof.
  intros Hb Hv Hp. pose proof (step_compaction SERVED_TURN_REFUSALS r record limits kv_scope line claims committed Hv Hp) as Hs.
  unfold commit_compaction_record, commit_compaction_claims in Hs. destruct committed; open_blank Hb; right; by rewrite ?bind_ok_r in *.
Qed.
Lemma settles_origin p r record line a :
  blank p → in_arena record → plan_origin r record line = Ok a → settles r (set_sp_request_origin (Some a) p).
Proof. intros Hb Hv Hp. open_blank Hb. right. by eapply step_origin. Qed.
End Admissions.

(** ** What each arm of the plan does *)
Section Arms.
Context `{BigIntOps} `{!BigIntLaws} `{Vocabulary} `{Sha256Ops} `{Serde} `{Base64} `{QuoteOps} (SERVED_TURN_REFUSALS : list ServedTurnRefusal).

(** The plan a record's arm starts from. *)
Record started (p : SessionPlan) : Prop := {
  st_blank : blank p; st_returns : sp_returns p = ∅; st_additions : sp_additions p = ∅;
}.

(** A terminal result was admitted: everything it ends is settled. *)
Definition ended (s : Semantics) (scope_ : option str) (object : Value) (line : Z) (p : SessionPlan) (t : Terminal) : Prop :=
  terminal object line (bool_decide (scope_ = None)) = Ok t ∧ finish_scope (ss_partial (sp_state p)) = Ok tt ∧
  ss_runtime_operation (sp_state p) = None ∧
  (scope_ = None → validate_summary (sm_requests s) object line = Ok tt ∧
     Forall (fun child => finish_scope (ss_partial child) = Ok tt) (drop 1 (sm_scope_states s))) ∧
  commits_requests p (sm_requests s) = Ok (sm_requests s).

Record arm_ok (s : Semantics) (scope_ : option str) (object : Value) (line : Z) (p0 p : SessionPlan) : Prop := {
  ao_settles : settles SERVED_TURN_REFUSALS (sm_requests s) p;
  ao_row : sp_row p = sp_row p0;
  ao_id : ss_id (sp_state p) = ss_id (sp_state p0);
  ao_returns : ∀ id, id ∈ sp_returns p → ∃ t, sm_tool_uses s !! id = Some t ∧ tu_scope t = scope_ ∧ tu_returned t = false;
  ao_additions : ∀ id t, sp_additions p !! id = Some t → sm_tool_uses s !! id = None ∧ tu_scope t = scope_ ∧ tu_returned t = false;
  ao_owed : sp_owed p = sp_owed p0 ∨ ∃ od, sp_owed p = Some od ∧ od_messages od ≠ [];
  ao_terminal : ss_terminal (sp_state p) = ss_terminal (sp_state p0) ∨ ∃ t, ss_terminal (sp_state p) = Some t ∧ ended s scope_ object line p t;
}.

(** An arm that changes the requests or the state of the scope, and nothing else. *)
Lemma arm_same s scope_ object line p0 p :
  started p0 → settles SERVED_TURN_REFUSALS (sm_requests s) p →
  sp_row p = sp_row p0 → ss_id (sp_state p) = ss_id (sp_state p0) → sp_returns p = sp_returns p0 → sp_additions p = sp_additions p0 →
  sp_owed p = sp_owed p0 → ss_terminal (sp_state p) = ss_terminal (sp_state p0) → arm_ok s scope_ object line p0 p.
Proof.
  intros [_ Hret Hadd] Hs Hrow Hid Hr Ha Hw Ht. constructor; [done|done|done| | |by left|by left].
  - intros id. rewrite Hr, Hret. set_solver.
  - intros id t. by rewrite Ha, Hadd, lookup_empty.
Qed.

Lemma started_state p state : started p → started (set_sp_state state p).
Proof. intros [[] ? ?]. by split; [split|..]. Qed.

Lemma model_request_arm s session object scope_ line p0 p :
  started p0 → in_arena object → plan_model_request s session object scope_ line p0 = Ok p → arm_ok s scope_ object line p0 p.
Proof.
  intros Hst Hv Hp. unfold plan_model_request in Hp. destruct (negb _); [done|].
  apply bind_ok_inv in Hp as (a & Ha & Hp). apply bind_ok_inv in Hp as (o & _ & [= <-]).
  apply arm_same; try done. eapply (settles_request _ (set_sp_partial_origin o p0)); [|done|done].
  destruct (st_blank _ Hst). by constructor.
Qed.

Lemma model_utility_request_arm s object scope_ line p0 p :
  started p0 → in_arena object → plan_model_utility_request s object line p0 = Ok p → arm_ok s scope_ object line p0 p.
Proof.
  intros Hst Hv Hp. unfold plan_model_utility_request in Hp. destruct (negb _); [done|]. apply bind_ok_inv in Hp as (a & Ha & [= <-]).
  apply arm_same; try done. eapply settles_utility_request; [by apply st_blank in Hst|done|done].
Qed.

Lemma model_generation_arm s session object scope_ line p0 p :
  started p0 → in_arena object → plan_model_generation s session object scope_ line p0 = Ok p → arm_ok s scope_ object line p0 p.
Proof.
  intros Hst Hv Hp. unfold plan_model_generation in Hp. apply bind_ok_inv in Hp as (gen & Hg & Hp).
  apply bind_ok_inv in Hp as (conversation & _ & Hp). apply bind_ok_inv in Hp as (q & Hq & [= <-]).
  assert (∃ state, q = set_sp_state state p0 ∧ ss_id state = ss_id (sp_state p0) ∧ ss_terminal state = ss_terminal (sp_state p0))
    as (state & -> & Hid & Ht).
  { destruct conversation; [apply bind_ok_inv in Hq as (partial & _ & [= <-]); by eexists|]. injection Hq as <-. exists (sp_state p0). by destruct p0. }
  apply arm_same; try done. eapply settles_generation; [|done|done].
  by apply (started_state _ state) in Hst as [].
Qed.

Lemma issue_calls_ok s scope_ line calls_ additions additions' :
  (∀ id t, additions !! id = Some t → sm_tool_uses s !! id = None ∧ tu_scope t = scope_ ∧ tu_returned t = false) →
  fold_result (issue_call s scope_ line) additions calls_ = Ok additions' →
  ∀ id t, additions' !! id = Some t → sm_tool_uses s !! id = None ∧ tu_scope t = scope_ ∧ tu_returned t = false.
Proof.
  intros Hadd. apply (fold_result_inv (fun m => ∀ id t, m !! id = Some t → sm_tool_uses s !! id = None ∧ tu_scope t = scope_ ∧ tu_returned t = false));
    [|done]. intros m call m' _ Hm Hc. unfold issue_call in Hc. destruct (sm_tool_uses s !! call_id call) eqn:Htool; [done|].
  destruct (m !! call_id call); [done|]. apply bind_ok_inv in Hc as (name & _ & [= <-]). intros id t Ht.
  apply lookup_insert_Some in Ht as [[<- <-]|[_ Ht]]; [done|by apply Hm].
Qed.

Lemma display_nonempty gen refused messages : display gen refused = Ok messages → messages ≠ [].
Proof.
  unfold display. intros (blocks & _ & [= <-])%bind_ok_inv E. apply (f_equal length) in E. rewrite length_map, length_imap in E.
  by destruct (group_blocks blocks).
Qed.

Lemma attempt_completion_arm s session object scope_ line p0 p :
  started p0 → in_arena object → plan_attempt_completion s session object scope_ line p0 = Ok p → arm_ok s scope_ object line p0 p.
Proof.
  intros Hst Hv Hp. unfold plan_attempt_completion in Hp. cbv zeta in Hp. apply bind_ok_inv in Hp as (a & Ha & Hp).
  apply bind_ok_inv in Hp as (conversation & _ & Hp). apply bind_ok_inv in Hp as (q & Hq & [= <-]).
  assert (Hblank : blank q ∧ sp_row q = sp_row p0 ∧ ss_id (sp_state q) = ss_id (sp_state p0) ∧ sp_returns q = ∅ ∧
    (∀ id t, sp_additions q !! id = Some t → sm_tool_uses s !! id = None ∧ tu_scope t = scope_ ∧ tu_returned t = false) ∧
    (sp_owed q = sp_owed p0 ∨ ∃ od, sp_owed q = Some od ∧ od_messages od ≠ []) ∧ ss_terminal (sp_state q) = ss_terminal (sp_state p0)).
  { destruct Hst as [Hb Hret Hadd]. assert (Hno : ∀ id t, sp_additions p0 !! id = Some t →
      sm_tool_uses s !! id = None ∧ tu_scope t = scope_ ∧ tu_returned t = false) by (intros id t; by rewrite Hadd, lookup_empty).
    destruct conversation; [|injection Hq as <-; destruct Hb; split_and!; [by constructor|done..|by left|done]].
    apply bind_ok_inv in Hq as (partial & _ & Hq). apply bind_ok_inv in Hq as (q1 & Hq1 & Hq).
    assert (∃ owed, q1 = set_sp_owed owed (set_sp_state (set_ss_partial partial (sp_state p0)) p0) ∧
      (owed = sp_owed p0 ∨ ∃ od, owed = Some od ∧ od_messages od ≠ [])) as (owed & -> & Howed).
    { destruct (bool_decide _) in Hq1.
      - apply bind_ok_inv in Hq1 as (messages & Hm%display_nonempty & [= <-]). eexists. split; [done|]. right. by eexists.
      - injection Hq1 as <-. exists (sp_owed p0). split; [done|by left]. }
    destruct (bool_decide _) in Hq; [apply bind_ok_inv in Hq as (additions & Hc & [= <-])|injection Hq as <-].
    - destruct scope_; pose proof (issue_calls_ok s _ line _ (sp_additions p0) additions Hno Hc);
        destruct Hb; split_and!; done || by constructor.
    - destruct Hb; split_and!; done || by constructor. }
  destruct Hblank as (Hb & Hrow & Hid & Hret & Hadd & Howed & Ht).
  constructor; try done; [by eapply settles_completion| |by left].
  intros id. simpl. rewrite Hret. set_solver.
Qed.

(** An arm that only replaces the state of its scope. *)
Lemma state_arm s scope_ object line p0 state :
  started p0 → ss_id state = ss_id (sp_state p0) → ss_terminal state = ss_terminal (sp_state p0) →
  arm_ok s scope_ object line p0 (set_sp_state state p0).
Proof.
  intros Hst Hid Ht. apply arm_same; try done.
  apply blank_settles. by apply (started_state _ state) in Hst as [].
Qed.

Lemma same_arm s scope_ object line p : started p → arm_ok s scope_ object line p p.
Proof. intros Hst. apply arm_same; try done. apply blank_settles. by destruct Hst. Qed.

Lemma assistant_arm s object scope_ line p0 p :
  started p0 → plan_assistant s object scope_ line p0 = Ok p → arm_ok s scope_ object line p0 p.
Proof.
  intros Hst Hp. unfold plan_assistant in Hp. passed Hp. all: injection Hp as <-; destruct scope_; by apply state_arm.
Qed.

(** The tools a user record returns are its scope's, issued and not returned
    before; nothing else of the scope changes but its submission. *)
Lemma require_tool_owner_ok s id scope_ line :
  require_tool_owner s id scope_ line = Ok tt ↔ ∃ t, sm_tool_uses s !! id = Some t ∧ tu_scope t = scope_ ∧ tu_returned t = false.
Proof.
  unfold require_tool_owner. destruct (sm_tool_uses s !! id) as [t|]; [|split; [done|by intros (? & ? & _)]].
  destruct (bool_decide _) eqn:Hs; to_prop; simpl; [split; [done|by intros (? & [= <-] & ? & _)]|]. apply dec_stable in Hs.
  destruct (tu_returned t) eqn:Hr; split; try done; [intros (? & [= <-] & _ & ?); congruence|]. intros _. by exists t.
Qed.

Lemma return_tools_ok s scope_ line blocks_ st st' :
  (∀ id, id ∈ st.2 → ∃ t, sm_tool_uses s !! id = Some t ∧ tu_scope t = scope_ ∧ tu_returned t = false) →
  fold_result (return_tool s scope_ line) st blocks_ = Ok st' →
  ss_id st'.1 = ss_id st.1 ∧ ss_terminal st'.1 = ss_terminal st.1 ∧
  (∀ id, id ∈ st'.2 → ∃ t, sm_tool_uses s !! id = Some t ∧ tu_scope t = scope_ ∧ tu_returned t = false).
Proof.
  intros Hst. apply (fold_result_inv (fun st' => ss_id st'.1 = ss_id st.1 ∧ ss_terminal st'.1 = ss_terminal st.1 ∧
    (∀ id, id ∈ st'.2 → ∃ t, sm_tool_uses s !! id = Some t ∧ tu_scope t = scope_ ∧ tu_returned t = false))); [|done].
  intros [state returns] block st2 _ (Hid & Ht & Hr) Hb. unfold return_tool in Hb. apply bind_ok_inv in Hb as (id & _ & Hb).
  apply bind_ok_inv in Hb as ([] & Howner & Hb). apply require_tool_owner_ok in Howner. apply bind_ok_inv in Hb as (state' & Hs & Hb).
  destruct (decide (id ∈ returns)); [done|]. injection Hb as <-. simpl in *.
  assert (ss_id state' = ss_id state ∧ ss_terminal state' = ss_terminal state) as [Hid' Ht'].
  { destruct (bool_decide _); [|by injection Hs as <-]. apply bind_ok_inv in Hs as (tool & _ & [= <-]). by destruct (_ && _). }
  split_and!; [congruence..|]. intros j [->%elem_of_singleton|Hj]%elem_of_union; [done|by apply Hr].
Qed.

Lemma user_arm s object scope_ line p0 p :
  started p0 → plan_user s object scope_ line p0 = Ok p → arm_ok s scope_ object line p0 p.
Proof.
  intros Hst Hp. unfold plan_user in Hp. apply bind_ok_inv in Hp as (? & _ & Hp). apply bind_ok_inv in Hp as (? & _ & Hp).
  apply bind_ok_inv in Hp as (blocks_ & _ & Hp). apply bind_ok_inv in Hp as ([state returns] & Hf & [= <-]).
  apply return_tools_ok in Hf as (Hid & Ht & Hr); [|simpl; rewrite (st_returns _ Hst); set_solver]. simpl in *.
  destruct Hst as [Hb Hret Hadd]. constructor; try done.
  - apply blank_settles. destruct Hb. by constructor.
  - intros id t. simpl. by rewrite Hadd, lookup_empty.
  - by left.
  - by left.
Qed.

Lemma stream_event_arm s record object scope_ line p0 p :
  started p0 → plan_stream_event s record scope_ line p0 = Ok p → arm_ok s scope_ object line p0 p.
Proof.
  intros Hst Hp. unfold plan_stream_event in Hp. cbv zeta in Hp. apply bind_ok_inv in Hp as (? & _ & Hp). apply bind_ok_inv in Hp as (? & _ & Hp).
  apply bind_ok_inv in Hp as (? & _ & Hp). apply bind_ok_inv in Hp as (? & _ & Hp). apply bind_ok_inv in Hp as (? & _ & Hp).
  apply bind_ok_inv in Hp as (? & _ & [= <-]). apply state_arm; [done|by destruct (bool_decide _)..].
Qed.

Lemma system_arm s session prefix object scope_ line p0 p :
  started p0 → in_arena object → plan_system s session prefix object scope_ line p0 = Ok p → arm_ok s scope_ object line p0 p.
Proof.
  intros Hst Hv Hp. unfold plan_system in Hp. apply bind_ok_inv in Hp as (name & _ & Hp). apply bind_ok_inv in Hp as (kind & _ & Hp).
  assert (Hsame : ∀ q, started q → sp_row q = sp_row p0 → sp_state q = sp_state p0 → sp_owed q = sp_owed p0 → arm_ok s scope_ object line p0 q).
  { intros q Hq Hrow Hstate Howed. destruct Hst, Hq as [Hbq ? ?].
    apply arm_same; [done|by apply blank_settles|congruence..]. }
  destruct kind; try discriminate Hp; try (injection Hp as <-; by apply same_arm).
  - destruct (prefix =? 0); [|done]. injection Hp as <-. by apply same_arm.
  - apply bind_ok_inv in Hp as (? & _ & [= <-]). apply Hsame; [|done..]. destruct Hst as [[] ? ?]. by split; [split|..].
  - unfold plan_compaction_record in Hp. apply bind_ok_inv in Hp as (kv_scope & _ & Hp). destruct (decide _); [done|].
    apply bind_ok_inv in Hp as ([claims committed] & Hc & [= <-]).
    pose proof (settles_compaction SERVED_TURN_REFUSALS p0 _ _ _ _ _ _ _ (st_blank _ Hst) Hv Hc) as Hs.
    destruct (st_blank _ Hst). by apply arm_same; try (by destruct committed).
  - unfold plan_runtime_operation in Hp. passed Hp. injection Hp as <-. destruct (started_state p0 (sp_state p0) Hst) as [[] ? ?].
    apply arm_same; try done. apply blank_settles. by split.
  - passed Hp; done.
  - passed Hp; done.
  - passed Hp; done.
  - passed Hp; injection Hp as <-; by apply same_arm.
Qed.

Lemma result_arm s object scope_ line p0 p :
  started p0 → plan_result s object scope_ line p0 = Ok p → arm_ok s scope_ object line p0 p.
Proof.
  intros Hst Hp. unfold plan_result in Hp. cbv zeta in Hp. destruct (bool_decide _) eqn:Hop in Hp; [done|]. to_prop. apply dec_stable in Hop.
  apply bind_ok_inv in Hp as ([] & Hfin & Hp). apply bind_ok_inv in Hp as (t & Ht & Hp). apply bind_ok_inv in Hp as ([] & _ & Hp).
  destruct (contradicts _ _) in Hp; [done|]. destruct (_ && contradicts _ _) in Hp; [done|]. apply bind_ok_inv in Hp as ([] & Hroot & [= <-]).
  set (state := set_ss_terminal (Some t) (set_ss_completed_runtime_operation None (sp_state p0))).
  pose proof (started_state p0 state Hst) as Hst'. pose proof (st_blank _ Hst') as Hb'. destruct Hst as [Hb Hret Hadd].
  constructor; try done.
  - by apply blank_settles.
  - intros id. simpl. rewrite Hret. set_solver.
  - intros id u. simpl. by rewrite Hadd, lookup_empty.
  - by left.
  - right. exists t. split; [done|]. split_and!; [done|done|done| |by apply blank_commits].
    intros ->. destruct (_ && _) in Hroot; [done|]. apply bind_ok_inv in Hroot as (us & Hchildren & Hsum). split; [done|].
    apply traverse_ok in Hchildren. apply Forall_forall. intros child Hin. apply list_elem_of_lookup in Hin as [i Hi].
    eapply Forall2_lookup_l in Hchildren as ([] & _ & Hc); [|done]. exact Hc.
Qed.

Lemma kind_arm s session prefix record shown_turn scope_ line p0 p :
  started p0 → in_arena (record_value record) →
  plan_kind SERVED_TURN_REFUSALS s session prefix record shown_turn scope_ line p0 = Ok p → arm_ok s scope_ (record_value record) line p0 p.
Proof.
  intros Hst Hv Hp. unfold plan_kind in Hp. cbv zeta in Hp. destruct (kind_of _).
  - by eapply model_request_arm.
  - by eapply model_utility_request_arm.
  - apply bind_ok_inv in Hp as (a & Ha & [= <-]). apply arm_same; try done.
    eapply settles_utility_completion; [by destruct Hst|done..].
  - apply bind_ok_inv in Hp as (a & Ha & [= <-]). apply arm_same; try done.
    eapply settles_response; [by destruct Hst|done..].
  - apply bind_ok_inv in Hp as (a & Ha & [= <-]). apply arm_same; try done.
    eapply settles_seed; [by destruct Hst|done..].
  - by eapply model_generation_arm.
  - by eapply attempt_completion_arm.
  - destruct shown_turn; [injection Hp as <-; by apply same_arm|]. by eapply assistant_arm.
  - by eapply user_arm.
  - by eapply stream_event_arm.
  - by eapply system_arm.
  - by eapply result_arm.
Qed.

(** ** The invariant *)

(** Each scope but the main one has its row and its call. *)
Record scopes_ok (s : Semantics) : Prop := {
  so_main : ∃ main, sm_scope_states s !! 0%nat = Some main ∧ ss_id main = None;
  so_rows : ∀ id row, sm_scope_rows s !! id = Some row → row ≠ 0%nat ∧ ∃ st, sm_scope_states s !! row = Some st ∧ ss_id st = Some id;
  so_states : ∀ row st, sm_scope_states s !! row = Some st → row ≠ 0%nat →
    ∃ id, ss_id st = Some id ∧ sm_scope_rows s !! id = Some row ∧ is_Some (sm_tool_uses s !! id);
}.

(** The calls by age: each is younger than the call of the scope it was issued in. *)
Definition aged (tools : gmap str ToolUse) (age : str → nat) : Prop :=
  ∀ id t, tools !! id = Some t → (age id < size tools)%nat ∧
    ∀ parent, tu_scope t = Some parent → is_Some (tools !! parent) ∧ (age parent < age id)%nat.

(** A finished session: its terminal is complete, every scope's partial stream
    is, and the requests are what the terminal reports. *)
Definition finished (s : Semantics) (t : Terminal) : Prop :=
  tm_response t ≠ None ∧ tm_duration_ms t ≠ None ∧ tm_api_duration_ms t ≠ None ∧
  Forall (fun st => finish_scope (ss_partial st) = Ok tt) (sm_scope_states s) ∧
  ∃ object line, in_arena object ∧ terminal object line true = Ok t ∧ validate_summary (sm_requests s) object line = Ok tt.

Record session_ok (s : Semantics) : Prop := {
  ok_ledger : ledger SERVED_TURN_REFUSALS (sm_requests s);
  ok_scopes : scopes_ok s;
  ok_calls : ∃ age, aged (sm_tool_uses s) age;
  ok_owed : ∀ od, sm_owed s = Some od → od_messages od ≠ [];
  ok_finished : ∀ main t, sm_scope_states s !! 0%nat = Some main → ss_terminal main = Some t → finished s t;
}.

Lemma session_ok_new b l operator : session_ok (new_semantics b l operator).
Proof.
  constructor; simpl; [constructor| |exists (fun _ => 0%nat); intros id t; by rewrite lookup_empty|done|].
  - constructor; simpl; [by eexists|intros id row; by rewrite lookup_empty|]. intros [|[|row]] st Hst Hrow; done.
  - by intros main t [= <-].
Qed.

(** A root terminal says everything a result is read from. *)
Lemma duration_root object key d : duration object true key = Ok d → d ≠ None.
Proof.
  unfold duration. destruct (get object key) as [v|]; [|done]. simpl. destruct (unsigned v key U64_MAX) as [n|[| |]]; try done. by intros [= <-].
Qed.
Lemma terminal_root object line t :
  terminal object line true = Ok t → tm_response t ≠ None ∧ tm_duration_ms t ≠ None ∧ tm_api_duration_ms t ≠ None.
Proof.
  intros Ht. unfold terminal in Ht. apply bind_ok_inv in Ht as (? & _ & Ht). apply bind_ok_inv in Ht as (is_error_ & _ & Ht).
  apply bind_ok_inv in Ht as (subtype_ & _ & Ht). destruct (_ || _) in Ht; [done|].
  apply bind_ok_inv in Ht as (d & Hd%duration_root & Ht). apply bind_ok_inv in Ht as (a & Ha%duration_root & Ht).
  apply bind_ok_inv in Ht as (? & _ & Ht). apply bind_ok_inv in Ht as (? & _ & Ht). apply bind_ok_inv in Ht as (? & _ & Ht).
  destruct (negb _) in Ht; [done|]. apply bind_ok_inv in Ht as (message & _ & Ht). destruct (is_error_ && _) eqn:Hm; [done|].
  apply bind_ok_inv in Ht as (? & _ & Ht). apply bind_ok_inv in Ht as (response & Hr & [= <-]). simpl. split_and!; [|done..].
  destruct is_error_; simpl in *.
  - injection Hr as <-. by to_prop.
  - by destruct (text object "result" line); [injection Hr as <-|].
Qed.

(** Marking the returned tools. *)
Lemma mark_all_returned ids : ∀ tools,
  (∀ id, id ∈ ids → is_Some (tools !! id)) →
  ∃ tools', fold_result mark_returned tools ids = Ok tools' ∧
    ∀ id, tools' !! id = (fun t => if decide (id ∈ ids) then set_tu_returned t else t) <$> tools !! id.
Proof.
  induction ids as [|i ids IH]; intros tools Hin; cbn [fold_result].
  - exists tools. split; [done|]. intros id. destruct (tools !! id); [|done]. by destruct (decide (id ∈ [])) as [?%elem_of_nil|].
  - destruct (Hin i) as [t Ht]; [set_solver|]. assert (Hm : mark_returned tools i = Ok (<[i := set_tu_returned t]> tools)) by by apply update_entry_ok.
    rewrite Hm. cbn [mbind result_bind].
    destruct (IH (<[i := set_tu_returned t]> tools)) as (tools' & Hf & Hl).
    { intros id Hid. destruct (decide (i = id)) as [->|?]; [rewrite lookup_insert_eq; by eexists|]. rewrite lookup_insert_ne by done. apply Hin. set_solver. }
    exists tools'. split; [done|]. intros id. rewrite Hl. destruct (decide (i = id)) as [->|Hne].
    + rewrite lookup_insert_eq, Ht. cbn [fmap option_fmap option_map]. rewrite (decide_True (P := id ∈ id :: ids)) by set_solver. by destruct (decide _).
    + rewrite lookup_insert_ne by done. destruct (tools !! id) as [u|]; [|done]. cbn [fmap option_fmap option_map]. f_equal.
      destruct (decide (id ∈ ids)), (decide (id ∈ i :: ids)); done || set_solver.
Qed.

(** The calls once a plan's additions and returns are in. *)
Lemma aged_ext tools tools' age :
  aged tools age → (∀ id, tu_scope <$> tools' !! id = tu_scope <$> tools !! id) → aged tools' age.
Proof.
  intros Ha Hext.
  assert (Hsome : ∀ id, is_Some (tools' !! id) ↔ is_Some (tools !! id)).
  { intros id. by rewrite <- (fmap_is_Some tu_scope (tools' !! id)), Hext, fmap_is_Some. }
  assert (Hsize : size tools' = size tools).
  { rewrite <- !size_dom. f_equal. apply set_eq. intros id. rewrite !elem_of_dom. apply Hsome. }
  intros id t Ht. specialize (Hext id). rewrite Ht in Hext. destruct (tools !! id) as [u|] eqn:Hu; [|done]. injection Hext as Hs.
  destruct (Ha id u Hu) as [Hlt Hp]. rewrite Hsize. split; [done|]. intros parent Hparent. rewrite Hsome. apply Hp. congruence.
Qed.

Lemma aged_additions tools additions scope_ age :
  aged tools age → (∀ id t, additions !! id = Some t → tools !! id = None ∧ tu_scope t = scope_) →
  (∀ parent, scope_ = Some parent → is_Some (tools !! parent)) →
  aged (additions ∪ tools) (fun id => if decide (is_Some (tools !! id)) then age id else size tools).
Proof.
  intros Ha Hadd Hscope.
  assert (Hd : additions ##ₘ tools).
  { apply map_disjoint_spec. intros id t u Ht Hu. by destruct (Hadd id t Ht) as [? _]; simplify_eq. }
  assert (Hsize : size (additions ∪ tools) = (size additions + size tools)%nat) by by apply map_size_disj_union.
  intros id t [Ht|[Hno Ht]]%lookup_union_Some_raw.
  - destruct (Hadd id t Ht) as [Hnone <-]. rewrite decide_False by (intros [? ?]; congruence). split.
    + rewrite Hsize. assert (size additions ≠ 0%nat); [|lia]. rewrite map_size_ne_0_lookup. by exists id; eexists.
    + intros parent Hp. destruct (Hscope parent Hp) as [u Hu]. split; [rewrite lookup_union_r; [by eexists|]|].
      * destruct (additions !! parent) eqn:E; [|done]. by destruct (Hadd _ _ E) as [? _]; simplify_eq.
      * rewrite decide_True by by eexists. by destruct (Ha parent u Hu).
  - destruct (Ha id t Ht) as [Hlt Hp]. rewrite decide_True by by eexists. split; [lia|].
    intros parent Hparent. destruct (Hp parent Hparent) as [[u Hu] Hage]. split; [rewrite lookup_union_r; [by eexists|]|].
    + destruct (additions !! parent) eqn:E; [|done]. by destruct (Hadd _ _ E) as [? _]; simplify_eq.
    + rewrite decide_True by by eexists. done.
Qed.

(** ** Commits *)
Lemma scope_at_id s scope_ :
  scopes_ok s → ss_id (scope_at s scope_) = scope_ ∧
  ((scope_row s scope_ = length (sm_scope_states s) ∧ is_Some scope_) ∨ sm_scope_states s !! scope_row s scope_ = Some (scope_at s scope_)).
Proof.
  intros [(main & Hmain & Hid) Hrows _]. unfold scope_at, scope_row. destruct scope_ as [id|].
  - destruct (sm_scope_rows s !! id) as [row|] eqn:Hrow; simpl.
    + destruct (Hrows id row Hrow) as (_ & st & Hst & Hs). rewrite Hst. split; [done|by right].
    + rewrite lookup_ge_None_2 by done. split; [done|]. left. split; [done|by eexists].
  - rewrite Hmain. split; [done|by right].
Qed.

(** The commit of a plan, once its requests and its returns are known to commit. *)
Lemma commit_event_eq p s r :
  commits_requests p (sm_requests s) = Ok r → scopes_ok s →
  (sp_row p = length (sm_scope_states s) → is_Some (ss_id (sp_state p))) → (sp_row p <= length (sm_scope_states s))%nat →
  (∀ id, id ∈ sp_returns p → is_Some (sm_tool_uses s !! id)) →
  ∃ s', commit_event p s = Ok s' ∧ sm_requests s' = r ∧ sm_owed s' = sp_owed p ∧ sm_limits s' = sm_limits s ∧
    (∀ id, sm_tool_uses s' !! id = (fun t => if decide (id ∈ sp_returns p) then set_tu_returned t else t) <$> (sp_additions p ∪ sm_tool_uses s) !! id) ∧
    (if decide (sp_row p = length (sm_scope_states s))
     then sm_scope_states s' = sm_scope_states s ++ [sp_state p] ∧
          ∃ id, ss_id (sp_state p) = Some id ∧ sm_scope_rows s' = <[id := sp_row p]> (sm_scope_rows s)
     else sm_scope_states s' = <[sp_row p := sp_state p]> (sm_scope_states s) ∧ sm_scope_rows s' = sm_scope_rows s).
Proof.
  intros Hr Hs Hid Hrow Hret. unfold commits_requests in Hr. apply bind_ok_inv in Hr as (r1 & Hr1 & Hr2).
  destruct (mark_all_returned (base.elements (sp_returns p)) (sp_additions p ∪ sm_tool_uses s)) as (tools & Htools & Hl).
  { intros id Hin%elem_of_elements. destruct (Hret id Hin) as [t Ht]. rewrite lookup_union, Ht. by destruct (sp_additions p !! id). }
  assert (Hl' : ∀ id, tools !! id = (fun t => if decide (id ∈ sp_returns p) then set_tu_returned t else t) <$> (sp_additions p ∪ sm_tool_uses s) !! id).
  { intros id. rewrite Hl. destruct ((sp_additions p ∪ sm_tool_uses s) !! id); [|done]. cbn [fmap option_fmap option_map]. f_equal.
    destruct (decide (id ∈ base.elements _)) as [E|E], (decide (id ∈ sp_returns p)); rewrite ?elem_of_elements in E; done. }
  unfold commit_event. cbv zeta. simpl. rewrite Hr1. cbn [mbind result_bind].
  unfold commit_scope. destruct (sp_compaction_failed p) as [failed|]; simpl;
    (destruct (Nat.eqb_spec (sp_row p) (length (sm_scope_states s))) as [E|E];
      [destruct (Hid E) as [i Hi]; rewrite Hi|
       destruct (lookup_lt_is_Some_2 (sm_scope_states s) (sp_row p)) as [st Hst]; [lia|]; rewrite Hst]);
    cbn [expect mbind result_bind]; simpl; rewrite Hr2; cbn [mbind result_bind]; rewrite Htools; cbn [mbind result_bind];
    destruct (sp_runtime_operation_id p), (sp_partial_origin p) as [[? ?]|]; eexists; (split; [reflexivity|]); simpl; (split_and!; [done..|]);
    (case_decide; try done; try lia); split; try done; by eexists.
Qed.

Lemma settles_ledger r p : ledger SERVED_TURN_REFUSALS r → settles SERVED_TURN_REFUSALS r p →
  ∃ r', commits_requests p r = Ok r' ∧ ledger SERVED_TURN_REFUSALS r'.
Proof.
  intros Hr [->|Hs]; [by exists r|]. destruct (step_inv SERVED_TURN_REFUSALS r _ (ledger_inv _ r Hr) Hs) as (r' & E & _).
  exists r'. split; [done|]. eapply ledger_next; [done|]. by rewrite <- E.
Qed.

(** What a planned record's plan is, whatever its kind. *)
Record planned (s : Semantics) (scope_ : option str) (object : Value) (line : Z) (p : SessionPlan) : Prop := {
  pl_open : ∀ main, sm_scope_states s !! 0%nat = Some main → ss_terminal main = None;
  pl_call : ∀ id, scope_ = Some id → is_Some (sm_tool_uses s !! id);
  pl_settles : settles SERVED_TURN_REFUSALS (sm_requests s) p;
  pl_row : sp_row p = scope_row s scope_;
  pl_id : ss_id (sp_state p) = scope_;
  pl_returns : ∀ id, id ∈ sp_returns p → ∃ t, sm_tool_uses s !! id = Some t ∧ tu_scope t = scope_ ∧ tu_returned t = false;
  pl_additions : ∀ id t, sp_additions p !! id = Some t → sm_tool_uses s !! id = None ∧ tu_scope t = scope_ ∧ tu_returned t = false;
  pl_owed : ∀ od, sp_owed p = Some od → od_messages od ≠ [];
  pl_terminal : ss_terminal (sp_state p) = ss_terminal (scope_at s scope_) ∨
    ∃ t, ss_terminal (sp_state p) = Some t ∧ ended s scope_ object line p t;
}.

(** The state of each row after a commit. *)
Lemma committed_row p s states row :
  (sp_row p <= length (sm_scope_states s))%nat →
  (if decide (sp_row p = length (sm_scope_states s)) then states = sm_scope_states s ++ [sp_state p]
   else states = <[sp_row p := sp_state p]> (sm_scope_states s)) →
  states !! row = if decide (row = sp_row p) then Some (sp_state p) else sm_scope_states s !! row.
Proof.
  intros Hle Hs. case_decide as E; subst states.
  - destruct (decide (row = sp_row p)) as [->|Hne]; [by rewrite E, list_lookup_middle|].
    destruct (decide (row < length (sm_scope_states s))%nat); [by rewrite lookup_app_l|].
    rewrite lookup_ge_None_2, (lookup_ge_None_2 (sm_scope_states s)); [done|lia|]. rewrite length_app. simpl. lia.
  - destruct (decide (row = sp_row p)) as [->|Hne]; [by rewrite list_lookup_insert_eq by lia|by rewrite list_lookup_insert_ne].
Qed.

Lemma scope_row_le s scope_ : scopes_ok s → (scope_row s scope_ <= length (sm_scope_states s))%nat.
Proof. intros Hs. destruct (scope_at_id s scope_ Hs) as [_ [[-> _]|Hl]]; [done|]. apply lookup_lt_Some in Hl. lia. Qed.

Lemma committed_scopes s s' scope_ object line p :
  scopes_ok s → planned s scope_ object line p → (∀ id, is_Some (sm_tool_uses s !! id) → is_Some (sm_tool_uses s' !! id)) →
  (if decide (sp_row p = length (sm_scope_states s))
   then sm_scope_states s' = sm_scope_states s ++ [sp_state p] ∧
        ∃ id, ss_id (sp_state p) = Some id ∧ sm_scope_rows s' = <[id := sp_row p]> (sm_scope_rows s)
   else sm_scope_states s' = <[sp_row p := sp_state p]> (sm_scope_states s) ∧ sm_scope_rows s' = sm_scope_rows s) →
  scopes_ok s' ∧ ∀ row, sm_scope_states s' !! row = if decide (row = sp_row p) then Some (sp_state p) else sm_scope_states s !! row.
Proof.
  intros Hs Hp Htools Hstates. pose proof (scope_row_le s scope_ Hs) as Hle. rewrite <- (pl_row _ _ _ _ _ Hp) in Hle.
  assert (Hl : ∀ row, sm_scope_states s' !! row = if decide (row = sp_row p) then Some (sp_state p) else sm_scope_states s !! row).
  { intros row. apply committed_row; [done|]. case_decide; by destruct Hstates. }
  split; [|done]. pose proof (pl_row _ _ _ _ _ Hp) as Hrow. pose proof (pl_id _ _ _ _ _ Hp) as Hid.
  destruct (scope_at_id s scope_ Hs) as [Hat Hwhere]. destruct Hs as [(main & Hmain & Hmid) Hrows Hst].
  constructor.
  - rewrite Hl. destruct (decide (0%nat = sp_row p)) as [E|E]; [|by exists main]. exists (sp_state p). split; [done|]. rewrite Hid. destruct Hwhere as [[Hlen _]|Hw].
    + apply lookup_lt_Some in Hmain. lia.
    + rewrite <- Hrow, <- E, Hmain in Hw. injection Hw as Hw. congruence.
  - intros id row Hr. rewrite Hl. destruct (decide (sp_row p = length (sm_scope_states s))) as [Hlen|Hlen].
    + destruct Hstates as (_ & i & Hi & Hrs). rewrite Hrs in Hr. apply lookup_insert_Some in Hr as [[<- <-]|[Hne Hr]].
      * apply lookup_lt_Some in Hmain. split; [lia|]. rewrite decide_True by done. by exists (sp_state p).
      * destruct (Hrows id row Hr) as (Hz & st & Hlook & Hsid). split; [done|]. rewrite decide_False; [by exists st|].
        apply lookup_lt_Some in Hlook. lia.
    + destruct Hstates as [_ Hrs]. rewrite Hrs in Hr. destruct (Hrows id row Hr) as (Hz & st & Hlook & Hsid). split; [done|].
      destruct (decide (row = sp_row p)) as [E|E]; [|by exists st]. exists (sp_state p). split; [done|]. destruct Hwhere as [[? _]|Hw]; [lia|].
      rewrite <- Hrow, <- E, Hlook in Hw. injection Hw as Hw. congruence.
  - intros row st Hr Hz. rewrite Hl in Hr. destruct (decide (row = sp_row p)) as [->|Hne].
    + injection Hr as <-. destruct (decide (sp_row p = length (sm_scope_states s))) as [Hlen|Hlen].
      * destruct Hstates as (_ & i & Hi & Hrs). exists i. rewrite Hrs, lookup_insert_eq. split_and!; [done|done|].
        apply Htools, (pl_call _ _ _ _ _ Hp). congruence.
      * destruct Hstates as [_ Hrs]. destruct Hwhere as [[? _]|Hw]; [lia|]. rewrite <- Hrow in Hw.
        destruct (Hst _ _ Hw Hz) as (id & Hi & Hr & Ht). exists id. rewrite Hrs. split_and!; [congruence|done|by apply Htools].
    + destruct (Hst row st Hr Hz) as (id & Hi & Hrr & Ht). exists id. split_and!; [done| |by apply Htools]. destruct (decide (sp_row p = length (sm_scope_states s))) as [Hlen|Hlen].
      * destruct Hstates as (_ & i & Hi' & ->). rewrite lookup_insert_ne; [done|]. intros ->. rewrite Hid in Hi'.
        unfold scope_row in Hrow. rewrite Hi', Hrr in Hrow. simpl in Hrow. congruence.
      * by destruct Hstates as [_ ->].
Qed.

(** A main terminal that is there after a record came from it. *)
Lemma planned_terminal s scope_ object line p s' main t :
  scopes_ok s → planned s scope_ object line p →
  (∀ row, sm_scope_states s' !! row = if decide (row = sp_row p) then Some (sp_state p) else sm_scope_states s !! row) →
  sm_scope_states s' !! 0%nat = Some main → ss_terminal main = Some t → sp_row p = 0%nat ∧ scope_ = None ∧ ended s None object line p t.
Proof.
  intros Hscopes Hp Hl Hmain Ht. destruct (scope_at_id s scope_ Hscopes) as [Hat Hwhere]. rewrite Hl in Hmain.
  destruct (decide (0%nat = sp_row p)) as [E|E]; [|exfalso; by rewrite (pl_open _ _ _ _ _ Hp _ Hmain) in Ht].
  injection Hmain as <-. assert (Hroot : scope_ = None).
  { destruct Hscopes as [(m & Hm & Hmid) _ _]. destruct Hwhere as [[Hlen _]|Hw]; [apply lookup_lt_Some in Hm; rewrite (pl_row _ _ _ _ _ Hp) in E; lia|].
    rewrite <- (pl_row _ _ _ _ _ Hp), <- E, Hm in Hw. injection Hw as Hw. congruence. }
  subst scope_. split_and!; [done..|]. destruct (pl_terminal _ _ _ _ _ Hp) as [Hsame|(t' & Ht' & Hended)].
  - exfalso. rewrite Ht in Hsame. destruct Hwhere as [[_ [? ?]]|Hw]; [done|]. rewrite (pl_open _ _ _ _ _ Hp _ Hw) in Hsame. done.
  - rewrite Ht in Ht'. by injection Ht' as <-.
Qed.

Lemma commit_planned s scope_ object line p :
  session_ok s → in_arena object → planned s scope_ object line p →
  ∃ s', commit_event p s = Ok s' ∧ session_ok s' ∧ sm_owed s' = sp_owed p ∧ sm_limits s' = sm_limits s ∧
    (∀ id, sm_tool_uses s' !! id = (fun t => if decide (id ∈ sp_returns p) then set_tu_returned t else t) <$> (sp_additions p ∪ sm_tool_uses s) !! id) ∧
    (∀ row, sm_scope_states s' !! row = if decide (row = sp_row p) then Some (sp_state p) else sm_scope_states s !! row).
Proof.
  intros [Hled Hscopes [age Hage] Howed Hfin] Hv Hp. destruct (settles_ledger _ _ Hled (pl_settles _ _ _ _ _ Hp)) as (r' & Hr' & Hled').
  destruct (scope_at_id s scope_ Hscopes) as [Hat Hwhere]. pose proof (scope_row_le s scope_ Hscopes) as Hle.
  destruct (commit_event_eq p s r' Hr' Hscopes) as (s' & Hs' & Hreq & Howed' & Hlim & Htools & Hstates).
  { rewrite (pl_row _ _ _ _ _ Hp), (pl_id _ _ _ _ _ Hp). intros E. destruct Hwhere as [[_ ?]|Hw]; [done|]. apply lookup_lt_Some in Hw. lia. }
  { by rewrite (pl_row _ _ _ _ _ Hp). }
  { intros id Hid. destruct (pl_returns _ _ _ _ _ Hp id Hid) as (t & -> & _). by eexists. }
  assert (Hkeep : ∀ id, is_Some (sm_tool_uses s !! id) → is_Some (sm_tool_uses s' !! id)).
  { intros id [t Ht]. rewrite Htools, fmap_is_Some, lookup_union, Ht. by destruct (sp_additions p !! id); eexists. }
  destruct (committed_scopes s s' scope_ object line p Hscopes Hp Hkeep Hstates) as [Hscopes' Hl].
  exists s'. split_and!; [done| |done..]. constructor.
  - by rewrite Hreq.
  - done.
  - assert (Hu := aged_additions _ (sp_additions p) scope_ _ Hage). eexists. eapply aged_ext; [apply Hu|].
    + intros id t Ht. by destruct (pl_additions _ _ _ _ _ Hp id t Ht) as (? & ? & _).
    + by apply (pl_call _ _ _ _ _ Hp).
    + intros id. rewrite Htools. destruct ((sp_additions p ∪ sm_tool_uses s) !! id) as [t|]; [|done].
      cbn [fmap option_fmap option_map]. by destruct (decide (id ∈ sp_returns p)).
  - intros od. rewrite Howed'. apply (pl_owed _ _ _ _ _ Hp).
  - intros main t Hmain Ht. destruct (planned_terminal _ _ _ _ _ _ _ _ Hscopes Hp Hl Hmain Ht) as (Hrow & -> & Hterm & Hpart & _ & Hend & Hcom).
    destruct (Hend eq_refl) as [Hsum Hchildren]. rewrite bool_decide_true in Hterm by done.
    rewrite Hcom in Hr'. injection Hr' as <-. destruct (terminal_root _ _ _ Hterm) as (? & ? & ?). split_and!; [done..| |].
    + apply Forall_lookup. intros row st. rewrite Hl. destruct (decide (row = sp_row p)) as [E'|E']; [by intros [= <-]|]. intros Hst.
      apply (Forall_lookup_1 _ _ (row - 1)%nat st Hchildren). rewrite lookup_drop, <- Hst. f_equal. lia.
    + exists object, line. rewrite Hreq. done.
Qed.

(** ** Plans *)
Lemma ensure_ancestry_call s scope_ line : ensure_ancestry s scope_ line = Ok tt → ∀ id, scope_ = Some id → is_Some (sm_tool_uses s !! id).
Proof. intros Ha id ->. unfold ensure_ancestry in Ha. simpl in Ha. by destruct (sm_tool_uses s !! id). Qed.

Lemma show_owed_left s kind object scope_ line owed shown_turn :
  show_owed s kind object scope_ line = Ok (owed, shown_turn) → ∀ od, owed = Some od → od_messages od ≠ [].
Proof.
  unfold show_owed. destruct (sm_owed s) as [pending|]; [|by intros [= <- <-]]. destruct (_ || _); [done|].
  destruct (od_messages pending) as [|m rest]; [done|]. intros (? & _ & [= <- <-])%bind_ok_inv od. by destruct rest; [|intros [= <-]].
Qed.

Lemma started_empty s row state owed : started (empty_plan s row state owed).
Proof. by split; [split|..]. Qed.

(** The first record of a stream is its start, whose plan is empty. *)
Lemma start_plan `{!VocabularyLaws} l object line record s session scope_ shown_turn p0 p :
  decode_record object l line = Ok record → validate_stream_start object line = Ok tt →
  plan_kind SERVED_TURN_REFUSALS s session 0 record shown_turn scope_ line p0 = Ok p → p = p0.
Proof.
  intros Hdec Hstart Hp. unfold decode_record in Hdec. apply bind_ok_inv in Hdec as (kind & Hkind & Hdec).
  apply bind_ok_inv in Hdec as (? & _ & Hdec). apply bind_ok_inv in Hdec as (? & _ & Hdec). apply bind_ok_inv in Hdec as (? & _ & [= <-]).
  unfold validate_stream_start in Hstart. apply bind_ok_inv in Hstart as (type & Htype & Hstart). case_bool_decide as E; [done|]. subst type.
  apply bind_ok_inv in Hstart as (name & Hname & Hstart). case_bool_decide as E; [done|]. subst name.
  unfold decode_event_kind in Hkind. rewrite Htype in Hkind. cbn [mbind result_bind] in Hkind. apply ok_or_ok, kind_of_system in Hkind.
  unfold plan_kind in Hp. simpl in Hp. rewrite Hkind in Hp. unfold plan_system in Hp. rewrite Hname in Hp. by injection Hp as <-.
Qed.

Lemma plan_event_planned `{!VocabularyLaws} l s n session record object line p :
  session_ok s → in_arena object → decode_record object l line = Ok record → (n = 0 → validate_stream_start object line = Ok tt) →
  plan_event SERVED_TURN_REFUSALS s n session record line = Ok p →
  ∃ scope_ owed shown_turn p1, required_scope object line = Ok scope_ ∧ ensure_ancestry s scope_ line = Ok tt ∧
    show_owed s (kind_of (record_kind record)) object scope_ line = Ok (owed, shown_turn) ∧
    plan_kind SERVED_TURN_REFUSALS s session n record shown_turn scope_ line (empty_plan s (scope_row s scope_) (scope_at s scope_) owed) = Ok p1 ∧
    (p = p1 ∨ ∃ o, n = 0 ∧ p = set_sp_request_origin o p1) ∧ planned s scope_ object line p.
Proof.
  intros Hok Hv Hdec Hstart Hp. assert (Hval : record_value record = object).
  { unfold decode_record in Hdec. repeat (apply bind_ok_inv in Hdec as (? & _ & Hdec)). by injection Hdec as <-. }
  unfold plan_event in Hp. cbv zeta in Hp. apply bind_ok_inv in Hp as (main & Hmain & Hp). unfold expect in Hmain.
  destruct (sm_scope_states s !! 0%nat) as [m|] eqn:Hm; [|done]. injection Hmain as ->. destruct (ss_terminal main) eqn:Hterm; [done|].
  rewrite Hval in Hp. apply bind_ok_inv in Hp as (scope_ & Hscope & Hp). apply bind_ok_inv in Hp as ([] & Hanc & Hp).
  apply bind_ok_inv in Hp as ([owed shown_turn] & Hshow & Hp). apply bind_ok_inv in Hp as (p1 & Hp1 & Hp).
  set (p0 := empty_plan s (scope_row s scope_) (scope_at s scope_) owed) in *.
  assert (Harm : arm_ok s scope_ object line p0 p1).
  { rewrite <- Hval. eapply kind_arm; [apply started_empty|by rewrite Hval|exact Hp1]. }
  destruct (scope_at_id s scope_ (ok_scopes s Hok)) as [Hat _].
  assert (Hpl : ∀ q, arm_ok s scope_ object line p0 q → planned s scope_ object line q).
  { intros q [Hset Hrow Hid Hret Hadd Howed Ht]. constructor; try done.
    - intros main' Hmain'. rewrite Hm in Hmain'. congruence.
    - by eapply ensure_ancestry_call.
    - by rewrite Hid.
    - destruct Howed as [->|(od & -> & Hne)]; [|by intros ? [= <-]]. by eapply show_owed_left. }
  exists scope_, owed, shown_turn, p1. split_and!; [done..| |].
  - destruct (n =? 0) eqn:En; [|left; by injection Hp]. right. apply bind_ok_inv in Hp as (evidence & _ & Hp). apply bind_ok_inv in Hp as (o & _ & [= <-]).
    exists (Some o). split; [lia|done].
  - destruct (Z.eqb_spec n 0) as [->|Hn]; [|injection Hp as <-; by apply Hpl].
    apply bind_ok_inv in Hp as (evidence & He & Hp). apply bind_ok_inv in Hp as (o & Ho & [= <-]).
    pose proof (start_plan _ _ _ _ _ _ _ _ _ _ Hdec (Hstart eq_refl) Hp1) as ->. apply Hpl.
    apply arm_same; [apply started_empty| |done..]. eapply settles_origin; [by apply started_empty| |exact Ho]. by eapply field_in_arena.
Qed.

Lemma keeps_session `{!VocabularyLaws} l : 0 <= limit_nodes (json_limits l) → 0 <= limit_depth (json_limits l) →
  @keeps _ _ (conversation_planner SERVED_TURN_REFUSALS) l (fun s _ => session_ok s).
Proof.
  intros Hnodes Hdepth bytes d line s n session record p Hok Hn Hd [Hs Hstart Hdec Hp].
  pose proof (decoded_in_arena _ _ _ Hnodes Hdepth Hd) as Hv.
  destruct (plan_event_planned _ _ _ _ _ _ _ _ Hok Hv Hdec Hstart Hp) as (scope_ & _ & _ & _ & _ & _ & _ & _ & _ & Hpl).
  destruct (commit_planned s scope_ (root d) line p Hok Hv Hpl) as (s' & Hs' & Hok' & _). by exists s'.
Qed.

(** ** Ancestry *)
Definition spawned_by (s : Semantics) (id parent : str) : Prop := ∃ t, sm_tool_uses s !! id = Some t ∧ tu_scope t = Some parent.

(** A call whose scope may still show records. *)
Definition open_call (s : Semantics) (id : str) : Prop :=
  (∃ t, sm_tool_uses s !! id = Some t ∧ tu_returned t = false) ∧
  ∀ row st, sm_scope_rows s !! id = Some row → sm_scope_states s !! row = Some st → ss_terminal st = None.

Lemma ancestry_loop_ok s line age : scopes_ok s → aged (sm_tool_uses s) age → ∀ fuel id,
  (age id < fuel)%nat →
  returns (ancestry_loop fuel s (Some id) line) ∧
  (ancestry_loop fuel s (Some id) line = Ok tt ↔ ∀ a, rtc (spawned_by s) id a → open_call s a).
Proof.
  intros Hscopes Hage. induction fuel as [|fuel IH]; intros id Hlt; [lia|]. cbn [ancestry_loop].
  destruct (sm_tool_uses s !! id) as [t|] eqn:Ht.
  2: { split; [done|]. split; [done|]. intros Hall. destruct (Hall id) as [(t & ? & _) _]; [done|congruence]. }
  destruct (tu_returned t) eqn:Hret.
  { split; [done|]. split; [done|]. intros Hall. destruct (Hall id) as [(u & Hu & ?) _]; [done|congruence]. }
  assert (Hnext : (∀ row st, sm_scope_rows s !! id = Some row → sm_scope_states s !! row = Some st → ss_terminal st = None) →
    returns (ancestry_loop fuel s (tu_scope t) line) ∧
    (ancestry_loop fuel s (tu_scope t) line = Ok tt ↔ ∀ a, rtc (spawned_by s) id a → open_call s a)).
  { intros Hterm. assert (Hhere : open_call s id) by (split; [by exists t|done]). destruct (Hage id t Ht) as [_ Hparent].
    destruct (tu_scope t) as [parent|] eqn:Hscope.
    - destruct (Hparent parent eq_refl) as [_ Hlt']. destruct (IH parent) as [Hret' Hiff]; [lia|]. split; [done|]. rewrite Hiff. split.
      + intros Hall a Ha. apply rtc_inv in Ha as [->|(b & (u & Hu & Hb) & Ha)]; [done|]. apply Hall. rewrite Ht in Hu. by simplify_eq.
      + intros Hall a Ha. apply Hall. eapply rtc_l; [|done]. by exists t.
    - destruct fuel; (split; [done|]); (split; [|done]); intros _ a Ha;
        (apply rtc_inv in Ha as [->|(b & (u & Hu & Hb) & _)]; [done|simplify_eq]). }
  destruct (sm_scope_rows s !! id) as [row|] eqn:Hrow; [|by apply Hnext].
  destruct (so_rows s Hscopes id row Hrow) as (_ & st & Hst & _). rewrite Hst. cbn [expect mbind result_bind].
  destruct (ss_terminal st) eqn:Hterm; [|apply Hnext; intros ? ? [= <-] ?; congruence].
  split; [done|]. split; [done|]. intros Hall. destruct (Hall id) as [_ Hopen]; [done|]. by rewrite (Hopen row st Hrow Hst) in Hterm.
Qed.

Lemma ensure_ancestry_ok s scope_ line : session_ok s →
  returns (ensure_ancestry s scope_ line) ∧
  (ensure_ancestry s scope_ line = Ok tt ↔ ∀ id a, scope_ = Some id → rtc (spawned_by s) id a → open_call s a).
Proof.
  intros [_ Hscopes [age Hage] _ _]. destruct scope_ as [id|]; [|done]. unfold ensure_ancestry.
  destruct (sm_tool_uses s !! id) as [t|] eqn:Ht.
  - destruct (ancestry_loop_ok s line age Hscopes Hage (S (size (sm_tool_uses s))) id) as [Hret Hiff].
    { destruct (Hage id t Ht). lia. }
    split; [done|]. rewrite Hiff. split; [by intros Hall ? a [= <-]; apply Hall|]. intros Hall a. by apply Hall.
  - simpl. rewrite Ht. split; [done|]. split; [done|]. intros Hall. destruct (Hall id id) as [(t & ? & _) _]; [done|done|congruence].
Qed.

(** ** Histories *)

(** One record admitted in a session. *)
Inductive admits (session : str) (line : Z) (s : Semantics) (record : DecodedRecord) (s' : Semantics) : Prop :=
| admits_record l n object p :
    in_arena object → decode_record object l line = Ok record → (n = 0 → validate_stream_start object line = Ok tt) →
    plan_event SERVED_TURN_REFUSALS s n (Some session) record line = Ok p → commit_event p s = Ok s' →
    admits session line s record s'.

Inductive history : Semantics → list (DecodedRecord * Z) → Semantics → Prop :=
| history_nil s : history s [] s
| history_cons s record line records session s' s'' :
    admits session line s record s' → history s' records s'' → history s ((record, line) :: records) s''.

(** What the state after a record has of the state before it. *)
Record follows (session : str) (line : Z) (s : Semantics) (record : DecodedRecord) (s' : Semantics) (scope_ : option str) (owed : option OwedDisplay)
    (shown_turn : bool) (p : SessionPlan) : Prop := {
  fo_scope : required_scope (record_value record) line = Ok scope_;
  fo_ancestry : ensure_ancestry s scope_ line = Ok tt;
  fo_show : show_owed s (kind_of (record_kind record)) (record_value record) scope_ line = Ok (owed, shown_turn);
  fo_kind : ∃ n p1, plan_kind SERVED_TURN_REFUSALS s (Some session) n record shown_turn scope_ line
      (empty_plan s (scope_row s scope_) (scope_at s scope_) owed) = Ok p1 ∧ sp_owed p = sp_owed p1;
  fo_planned : planned s scope_ (record_value record) line p;
  fo_ok : session_ok s';
  fo_owed : sm_owed s' = sp_owed p;
  fo_limits : sm_limits s' = sm_limits s;
  fo_tools : ∀ id, sm_tool_uses s' !! id =
    (fun t => if decide (id ∈ sp_returns p) then set_tu_returned t else t) <$> (sp_additions p ∪ sm_tool_uses s) !! id;
  fo_states : ∀ row, sm_scope_states s' !! row = if decide (row = sp_row p) then Some (sp_state p) else sm_scope_states s !! row;
}.

Lemma admits_follows `{!VocabularyLaws} session line s record s' :
  session_ok s → admits session line s record s' → ∃ scope_ owed shown_turn p, follows session line s record s' scope_ owed shown_turn p.
Proof.
  intros Hok [l n object p Hv Hdec Hstart Hp Hc]. assert (Hval : record_value record = object).
  { unfold decode_record in Hdec. repeat (apply bind_ok_inv in Hdec as (? & _ & Hdec)). by injection Hdec as <-. }
  subst object. destruct (plan_event_planned _ _ _ _ _ _ _ _ Hok Hv Hdec Hstart Hp) as (scope_ & owed & shown_turn & p1 & Hs & Ha & Hsh & Hk & Hpp & Hpl).
  destruct (commit_planned _ _ _ _ _ Hok Hv Hpl) as (s1 & Hs1 & Hok1 & Ho & Hl & Ht & Hst). rewrite Hs1 in Hc. injection Hc as ->.
  exists scope_, owed, shown_turn, p. constructor; try done. exists n, p1. split; [done|]. by destruct Hpp as [->|(o & _ & ->)].
Qed.

Lemma history_ok `{!VocabularyLaws} s records s' : session_ok s → history s records s' → session_ok s'.
Proof.
  intros Hok Hh. induction Hh as [|s record line records session s' s'' Ha _ IH]; [done|]. apply IH.
  destruct (admits_follows _ _ _ _ _ Hok Ha) as (? & ? & ? & ? & Hf). apply Hf.
Qed.

(** A call that is closed stays closed. *)
Lemma closed_step session line s record s' scope_ owed shown_turn p id :
  session_ok s → follows session line s record s' scope_ owed shown_turn p → is_Some (sm_tool_uses s !! id) →
  is_Some (sm_tool_uses s' !! id) ∧ (open_call s' id → open_call s id).
Proof.
  intros Hok Hf [t Ht].
  assert (Hno : sp_additions p !! id = None).
  { destruct (sp_additions p !! id) as [u|] eqn:E; [|done]. by destruct (pl_additions _ _ _ _ _ (fo_planned _ _ _ _ _ _ _ _ _ Hf) id u E) as [? _]; simplify_eq. }
  assert (Ht' : sm_tool_uses s' !! id = Some (if decide (id ∈ sp_returns p) then set_tu_returned t else t)).
  { rewrite (fo_tools _ _ _ _ _ _ _ _ _ Hf), lookup_union_r, Ht by done. done. }
  split; [by eexists|]. intros [(u & Hu & Hret) Hterm]. split.
  - exists t. split; [done|]. rewrite Ht' in Hu. injection Hu as <-. by destruct (decide _).
  - intros row st Hrow Hst. destruct (so_rows s (ok_scopes s Hok) id row Hrow) as (Hz & st1 & Hst1 & Hid). rewrite Hst in Hst1. injection Hst1 as <-.
    assert (Hrow' : ∀ st', sm_scope_states s' !! row = Some st' → ss_id st' = Some id → sm_scope_rows s' !! id = Some row).
    { intros st' Hl Hi. destruct (so_states s' (ok_scopes s' (fo_ok _ _ _ _ _ _ _ _ _ Hf)) row st' Hl Hz) as (id' & ? & ? & _). by simplify_eq. }
    pose proof (fo_states _ _ _ _ _ _ _ _ _ Hf row) as Hstate. destruct (decide (row = sp_row p)) as [E|E].
    + pose proof (fo_planned _ _ _ _ _ _ _ _ _ Hf) as Hp. destruct (scope_at_id s scope_ (ok_scopes s Hok)) as [_ [[Hlen _]|Hw]].
      { rewrite (pl_row _ _ _ _ _ Hp) in E. apply lookup_lt_Some in Hst. lia. }
      rewrite <- (pl_row _ _ _ _ _ Hp), <- E, Hst in Hw. injection Hw as Hw.
      assert (Hid' : ss_id (sp_state p) = Some id).
      { rewrite (pl_id _ _ _ _ _ Hp), <- Hid, Hw. by destruct (scope_at_id s scope_ (ok_scopes s Hok)) as [-> _]. }
      pose proof (Hterm row _ (Hrow' _ Hstate Hid') Hstate) as Hnone. rewrite Hw.
      destruct (pl_terminal _ _ _ _ _ Hp) as [<-|(t0 & Ht0 & _)]; [done|congruence].
    + rewrite Hst in Hstate. by apply (Hterm row st (Hrow' _ Hstate Hid)).
Qed.

Lemma closed_history `{!VocabularyLaws} s records s' id :
  session_ok s → history s records s' → is_Some (sm_tool_uses s !! id) → ¬ open_call s id →
  session_ok s' ∧ is_Some (sm_tool_uses s' !! id) ∧ ¬ open_call s' id.
Proof.
  intros Hok Hh. induction Hh as [|s record line records session s' s'' Ha _ IH]; [done|]. intros Ht Hclosed.
  destruct (admits_follows _ _ _ _ _ Hok Ha) as (scope_ & owed & shown_turn & p & Hf).
  destruct (closed_step _ _ _ _ _ _ _ _ _ id Hok Hf Ht) as [Ht' Hopen]. apply IH; [apply Hf|done|]. intros Ho. by apply Hclosed, Hopen.
Qed.

(** The messages a settled turn owes are shown one by one. *)
Definition owes (od : OwedDisplay) (shown : nat) : option OwedDisplay :=
  match drop shown (od_messages od) with
  | [] => None
  | rest => Some {| od_scope := od_scope od; od_model := od_model od; od_messages := rest |}
  end.

Definition shows (limits : Limits) (od : OwedDisplay) (record : DecodedRecord) (line : Z) (m : DisplayMessage) : Prop :=
  kind_of (record_kind record) = Assistant ∧ required_scope (record_value record) line = Ok (od_scope od) ∧
  require_shown_message limits (record_value record) m (od_model od) line = Ok tt.

Lemma owed_step session line s record s' scope_ owed shown_turn p od m rest :
  follows session line s record s' scope_ owed shown_turn p → sm_owed s = Some od → od_messages od = m :: rest →
  shows (json_limits (sm_limits s)) od record line m ∧ sm_owed s' = owes od 1.
Proof.
  intros Hf Ho Hm. pose proof (fo_show _ _ _ _ _ _ _ _ _ Hf) as Hsh. unfold show_owed in Hsh. rewrite Ho in Hsh.
  destruct (_ || _) eqn:Hk; [done|]. apply orb_false_iff in Hk as [Hk Hscope].
  apply negb_false_iff, bool_decide_eq_true in Hk. apply bool_decide_eq_false, dec_stable in Hscope as ->. rewrite Hm in Hsh.
  apply bind_ok_inv in Hsh as ([] & Hreq & [= <- <-]). split; [by split_and!; [|apply (fo_scope _ _ _ _ _ _ _ _ _ Hf)|]|].
  destruct (fo_kind _ _ _ _ _ _ _ _ _ Hf) as (n & p1 & Hp1 & Howed). rewrite (fo_owed _ _ _ _ _ _ _ _ _ Hf), Howed.
  unfold plan_kind in Hp1. cbv zeta in Hp1. rewrite Hk in Hp1. injection Hp1 as <-. unfold owes. rewrite Hm. simpl. by destruct rest.
Qed.

Lemma owed_history `{!VocabularyLaws} records : ∀ s s' od, session_ok s → history s records s' →
  sm_owed s = Some od → (length records <= length (od_messages od))%nat →
  sm_owed s' = owes od (length records) ∧
  ∀ i record line m, records !! i = Some (record, line) → od_messages od !! i = Some m → shows (json_limits (sm_limits s)) od record line m.
Proof.
  induction records as [|[record line] records IH]; intros s s2 od Hok Hh Ho Hlen; inversion Hh as [|? ? ? ? session s1 ? Ha Hh1]; subst.
  - split; [|done]. unfold owes. simpl. pose proof (ok_owed s2 Hok od Ho). rewrite Ho. by destruct od as [? ? [|]].
  - destruct (admits_follows _ _ _ _ _ Hok Ha) as (scope_ & owed & shown_turn & p & Hf).
    destruct (od_messages od) as [|m rest] eqn:Hm; [simpl in Hlen; lia|].
    destruct (owed_step _ _ _ _ _ _ _ _ _ _ _ _ Hf Ho Hm) as [Hshow Ho1]. unfold owes in Ho1. rewrite Hm in Ho1. cbn [drop] in Ho1.
    assert (Hrest : sm_owed s2 = owes od (S (length records)) ∧ ∀ i record line m', records !! i = Some (record, line) →
      rest !! i = Some m' → shows (json_limits (sm_limits s)) od record line m').
    { unfold owes. rewrite Hm. cbn [drop]. destruct rest as [|m1 rest].
      - destruct records; [|simpl in Hlen; lia]. inversion Hh1; subst. by split.
      - set (od1 := {| od_scope := od_scope od; od_model := od_model od; od_messages := m1 :: rest |}) in *.
        destruct (IH s1 s2 od1) as [Ho2 Hall]; [apply Hf|done|done|simpl in *; lia|]. split; [done|].
        intros i r l m' Hr Hm'. rewrite <- (fo_limits _ _ _ _ _ _ _ _ _ Hf). by apply (Hall i). }
    split; [apply Hrest|]. intros [|i] r l m' Hr Hm'; simpl in *; [by simplify_eq|]. by apply (proj2 Hrest i).
Qed.

(** A completion in a conversation makes its turn owed. *)
Lemma completion_owed session line s record s1 scope_ owed shown_turn p a messages :
  follows session line s record s1 scope_ owed shown_turn p → kind_of (record_kind record) = ModelAttemptCompletion →
  plan_completion (sm_requests s) (record_value record) line = Ok a →
  conversation_generation (Some session) (ca_generation a) scope_ = Ok true → ca_disposition a ≠ Abandoned →
  display (ca_generation a) (bool_decide (ca_disposition a = RefusedTurn)) = Ok messages →
  sm_owed s1 = Some {| od_scope := scope_; od_model := model (ca_generation a); od_messages := messages |}.
Proof.
  intros Hf Hkind Ha Hc Hd Hm. destruct (fo_kind _ _ _ _ _ _ _ _ _ Hf) as (n & p1 & Hp1 & Howed).
  rewrite (fo_owed _ _ _ _ _ _ _ _ _ Hf), Howed. clear Howed Hf. unfold plan_kind in Hp1. cbv zeta in Hp1. rewrite Hkind in Hp1.
  unfold plan_attempt_completion in Hp1. cbv zeta in Hp1. rewrite Ha in Hp1. cbn [mbind result_bind] in Hp1. rewrite Hc in Hp1.
  cbn [mbind result_bind] in Hp1. apply bind_ok_inv in Hp1 as (q & Hq & [= <-]).
  apply bind_ok_inv in Hq as (partial & _ & Hq). rewrite (bool_decide_true (ca_disposition a ≠ Abandoned)), Hm in Hq by done. cbn [mbind result_bind] in Hq.
  destruct (bool_decide (ca_disposition a = Accepted)) in Hq; [|by injection Hq as <-]. apply bind_ok_inv in Hq as (additions & _ & [= <-]). by destruct scope_.
Qed.
(** ** Results *)
Lemma traverse_total {E A B} (f : A → result E B) l : Forall (fun x => ∃ y, f x = Ok y) l → ∃ ys, traverse f l = Ok ys.
Proof. induction 1 as [|x l [y Hy] _ [ys IH]]; simpl; [by eexists|]. rewrite Hy. cbn [mbind result_bind]. rewrite IH. by eexists. Qed.

Lemma agent_scope_total s row st : scopes_ok s → sm_scope_states s !! row = Some st → row ≠ 0%nat → ∃ a, agent_scope s st = Ok a.
Proof.
  intros Hs Hst Hz. destruct (so_states s Hs row st Hst Hz) as (id & Hid & _ & [t Ht]). unfold agent_scope. rewrite Hid. simpl. rewrite Ht. by eexists.
Qed.

Lemma agent_scopes_total s : scopes_ok s → ∃ scopes, traverse (agent_scope s) (drop 1 (sm_scope_states s)) = Ok scopes.
Proof.
  intros Hs. apply traverse_total, Forall_lookup. intros i st Hi. rewrite lookup_drop in Hi. by eapply (agent_scope_total s (1 + i)%nat).
Qed.

(** When there is a result, and what it says. *)
Definition reports (s : Semantics) (session : option str) (t : Terminal) (result : AgentResult) : Prop :=
  ag_is_error result = tm_is_error t ∧ ag_subtype result = tm_subtype t ∧ Some (ag_response result) = tm_response t ∧
  Some (ag_duration_ms result) = tm_duration_ms t ∧ Some (ag_api_duration_ms result) = tm_api_duration_ms t ∧
  ag_num_turns result = tm_num_turns t ∧ ag_missing_deliverables result = tm_missing_deliverables t ∧
  Some (ag_main_kv_scope result) = session ∧ ag_usage result = mr_all_usage (sm_requests s) ∧
  ag_request_scopes result = usage_scopes (sm_requests s) ∧
  map (fun a => Some (as_tool_use_id a)) (ag_scopes result) = map ss_id (drop 1 (sm_scope_states s)) ∧
  ∀ a, a ∈ ag_scopes result → ∃ tool, sm_tool_uses s !! as_tool_use_id a = Some tool ∧ as_tool_name a = tu_name tool.

Lemma agent_scopes_named s sts scopes :
  traverse (agent_scope s) sts = Ok scopes → map (fun a => Some (as_tool_use_id a)) scopes = map ss_id sts ∧
  ∀ a, a ∈ scopes → ∃ tool, sm_tool_uses s !! as_tool_use_id a = Some tool ∧ as_tool_name a = tu_name tool.
Proof.
  intros Ht%traverse_ok. induction Ht as [|st a sts scopes Ha _ [IH1 IH2]]; [split; [done|intros a; set_solver]|].
  unfold agent_scope in Ha. destruct (ss_id st) as [id|] eqn:Hid; [|done]. cbn [expect mbind result_bind] in Ha.
  destruct (sm_tool_uses s !! id) as [tool|] eqn:Htool; [|done]. injection Ha as <-. split; [simpl; by rewrite Hid, IH1|].
  intros a [->|Hin]%elem_of_cons; [by exists tool|by apply IH2].
Qed.

Lemma finish_semantics_ok s n session :
  session_ok s → (n ≠ 0 → session ≠ None) →
  returns (finish_semantics s n session) ∧
  ∀ result, finish_semantics s n session = Ok result →
    n ≠ 0 ∧ sm_owed s = None ∧ Forall (fun st => ss_runtime_operation st = None) (sm_scope_states s) ∧
    ∃ main t, sm_scope_states s !! 0%nat = Some main ∧ ss_terminal main = Some t ∧ reports s session t result.
Proof.
  intros Hok Hsession. unfold finish_semantics. destruct (Z.eqb_spec n 0) as [|Hn]; [done|]. destruct (sm_owed s); [done|].
  destruct (List.find _ _) eqn:Hfind; [done|]. destruct (so_main s (ok_scopes s Hok)) as (main & Hmain & _). rewrite Hmain. cbn [expect mbind result_bind].
  destruct (ss_terminal main) as [t|] eqn:Hterm; [|done]. destruct (ok_finished s Hok main t Hmain Hterm) as (Hr & Hd & Ha & _ & _).
  destruct (agent_scopes_total s (ok_scopes s Hok)) as [scopes Hscopes]. rewrite Hscopes. cbn [mbind result_bind].
  destruct (tm_response t) as [response|] eqn:Er; [|done]. destruct (tm_duration_ms t) as [d|] eqn:Ed; [|done].
  destruct (tm_api_duration_ms t) as [api|] eqn:Ea; [|done]. destruct session as [main_kv|]; [|by destruct (Hsession Hn)].
  split; [done|]. intros result [= <-]. split_and!; [done|done| |].
  - apply Forall_forall. intros st Hin. eapply find_none in Hfind; [|by apply list_elem_of_In]. simpl in Hfind. to_prop. by apply dec_stable in Hfind.
  - exists main, t. split_and!; [done|done|]. pose proof (agent_scopes_named s _ scopes Hscopes) as [Hnames Htools]. by split_and!; simpl.
Qed.

End Arms.

(** ** Properties *)
Section Properties.
Context `{BigIntOps} `{!BigIntLaws} `{Vocabulary} `{!VocabularyLaws} `{Sha256Ops} `{Serde} `{Base64} `{QuoteOps}
  (SERVED_TURN_REFUSALS : list ServedTurnRefusal).

Let planner := conversation_planner SERVED_TURN_REFUSALS.
Local Existing Instance planner.

Lemma runtime_session id b l operator offers r :
  0 <= limit_nodes (json_limits l) → 0 <= limit_depth (json_limits l) → reaches id b l operator offers r →
  session_ok SERVED_TURN_REFUSALS (state r).
Proof.
  intros Hn Hd Hr. by destruct (reaches_invariant id b l operator offers r (fun s _ => session_ok SERVED_TURN_REFUSALS s)
    (session_ok_new _ b l operator) (keeps_session _ l Hn Hd) Hr).
Qed.

(** A runtime that nothing was refused from and nothing pends in has certified
    every offer, and knows its session when there was one. *)
Lemma runtime_settled id b l operator offers r :
  reaches id b l operator offers r → first_refusal r = None → pending r = None →
  certify b l operator offers = Ok {| c_session := session_id r; c_uuids := seen_uuids r; c_state := state r; c_count := prefix r |} ∧
  prefix r = Z.of_nat (length offers) ∧ (prefix r ≠ 0 → session_id r ≠ None).
Proof.
  intros Hr Hf Hp. destruct (cert_open _ _ _ _ _ (reaches_certifies _ _ _ _ _ _ Hr) Hf) as [Hlen Hm]. rewrite Hp in Hm. destruct Hm as [Hc Hseen].
  split_and!; [done|lia|]. by apply (certify_session _ _ _ _ _ Hc).
Qed.

(** A runtime that gives a result: what it certified, and the terminal record
    that the result is read from. *)
Record finished_with (b : RuntimeBindings) (l : RuntimeLimits) (operator : str) (offers : list Offer) (r : RuntimeContract)
    (result : AgentResult) (before : list Offer) (bytes : str) (line : Z) (d : Document) (main : ScopeState) (t : Terminal) : Prop := {
  fw_offers : offers = before ++ [OfferedRecord bytes line];
  fw_certified : certify b l operator offers = Ok {| c_session := session_id r; c_uuids := seen_uuids r; c_state := state r; c_count := prefix r |};
  fw_count : prefix r = Z.of_nat (length offers);
  fw_decoded : decode bytes (json_limits l) = Ok d;
  fw_main : sm_scope_states (state r) !! 0%nat = Some main;
  fw_terminal : ss_terminal main = Some t;
  fw_read : terminal (root d) line true = Ok t;
  fw_reports : reports (state r) (session_id r) t result;
  fw_owed : sm_owed (state r) = None;
  fw_operations : Forall (fun st => ss_runtime_operation st = None) (sm_scope_states (state r));
}.

Lemma finish_certified id b l operator offers r result :
  0 <= limit_nodes (json_limits l) → 0 <= limit_depth (json_limits l) → reaches id b l operator offers r →
  finish SERVED_TURN_REFUSALS r = Ok result →
  ∃ before bytes line d main t, finished_with b l operator offers r result before bytes line d main t.
Proof.
  intros Hn Hd Hr Hfin. unfold finish in Hfin. unfold planner in *. destruct (first_refusal r) eqn:Hf; [done|]. destruct (pending r) eqn:Hp; [done|].
  destruct (runtime_settled _ _ _ _ _ _ Hr Hf Hp) as (Hcert & Hcount & Hs). pose proof (runtime_session _ _ _ _ _ _ Hn Hd Hr) as Hok.
  destruct (finish_semantics_ok _ (state r) (prefix r) (session_id r) Hok Hs) as [_ Hres].
  destruct (Hres result Hfin) as (Hpos & Howed & Hops & main & t & Hmain & Hterm & Hrep).
  destruct (certify_last _ _ _ _ _ Hcert Hpos) as (before & o & c0 & Hoffers & Hc0 & Hstep).
  destruct (certify_step_ok _ _ _ _ Hstep) as (bytes & line & d & session & record & p & -> & Hdec & [_ Hstart Hdr Hplan] & Hcommit & _ & _).
  assert (Hok0 : session_ok SERVED_TURN_REFUSALS (c_state c0)).
  { exact (proj1 (certify_invariant b l operator before c0 (fun (s : @semantics _ (conversation_planner SERVED_TURN_REFUSALS)) _ => session_ok SERVED_TURN_REFUSALS s)
      (session_ok_new _ b l operator) (keeps_session _ l Hn Hd) Hc0)). }
  pose proof (decoded_in_arena _ _ _ Hn Hd Hdec) as Hv.
  destruct (plan_event_planned _ _ _ _ _ _ _ _ _ Hok0 Hv Hdr Hstart Hplan) as (scope_ & _ & _ & _ & _ & _ & _ & _ & _ & Hpl).
  destruct (commit_planned _ _ _ _ _ _ Hok0 Hv Hpl) as (s' & Hs' & _ & _ & _ & _ & Hl). simpl in Hcommit. rewrite Hs' in Hcommit. injection Hcommit as ->.
  destruct (planned_terminal _ _ _ _ _ _ _ _ _ (ok_scopes _ _ Hok0) Hpl Hl Hmain Hterm) as (_ & -> & Ht & _).
  by exists before, bytes, line, d, main, t.
Qed.

(** C2: the runtime returns.  In every state its callers can bring a runtime to,
    with any tokens and in any order, a commit returns -- whatever was planned
    is committed without a panic -- and so does the walk over a scope's ancestry,
    and reading the result: each scope has its call, the terminal what a result
    is read from, and a certified stream its session. *)
Theorem runtime_returns (id : nat) (b : RuntimeBindings) (l : RuntimeLimits) (operator : str) (offers : list Offer)
    (r : RuntimeContract) :
  0 <= limit_nodes (json_limits l) → 0 <= limit_depth (json_limits l) → reaches id b l operator offers r →
  (∀ token, returns (commit token r).1.1) ∧ (∀ scope line, returns (ensure_ancestry (state r) scope line)) ∧
  returns (finish SERVED_TURN_REFUSALS r).
Proof.
  intros Hn Hd Hr. pose proof (runtime_session _ _ _ _ _ _ Hn Hd Hr) as Hok. split_and!.
  - intros token. exact (commit_returns id b l operator offers r token _ (session_ok_new _ b l operator) (keeps_session _ l Hn Hd) Hr).
  - intros scope_ line. by destruct (ensure_ancestry_ok _ (state r) scope_ line Hok).
  - unfold finish. unfold planner in *. destruct (first_refusal r) eqn:Hf; [done|]. destruct (pending r) eqn:Hp; [done|].
    destruct (runtime_settled _ _ _ _ _ _ Hr Hf Hp) as (_ & _ & Hs). by destruct (finish_semantics_ok _ (state r) (prefix r) (session_id r) Hok Hs).
Qed.

(** C1: a result stands for the whole stream.  When a runtime gives a result,
    every offer was a record that the reference pass admits; the last one is the
    main session's terminal, and the result is what it says; every scope of the
    session is listed with the call that spawned it; no settled turn is owed, no
    local operation open, no partial stream unfinished; no draw is unclaimed, no
    utility operation incomplete, no response open, no chat attempt left; and the
    usage of the result is the sum over an account of the stream's chat and draw
    requests in which every request is settled. *)
Theorem result_certified (id : nat) (b : RuntimeBindings) (l : RuntimeLimits) (operator : str) (offers : list Offer)
    (r : RuntimeContract) (result : AgentResult) :
  0 <= limit_nodes (json_limits l) → 0 <= limit_depth (json_limits l) → reaches id b l operator offers r →
  finish SERVED_TURN_REFUSALS r = Ok result →
  ∃ before bytes line d c t f,
    offers = before ++ [OfferedRecord bytes line] ∧ certify b l operator offers = Ok c ∧ c_state c = state r ∧
    c_count c = Z.of_nat (length offers) ∧
    decode bytes (json_limits l) = Ok d ∧ terminal (root d) line true = Ok t ∧ reports (state r) (c_session c) t result ∧
    sm_owed (state r) = None ∧
    Forall (fun st => ss_runtime_operation st = None ∧ finish_scope (ss_partial st) = Ok tt) (sm_scope_states (state r)) ∧
    mr_compactions (sm_requests (state r)) = ∅ ∧ mr_utilities (sm_requests (state r)) = ∅ ∧ mr_responses (sm_requests (state r)) = ∅ ∧
    (∀ a attempt, mr_attempts (sm_requests (state r)) !! a = Some attempt → at_completed attempt = true) ∧
    ag_usage result = summarize (all_requests f) ∧
    (∀ scope, scope_usage (sm_requests (state r)) scope = summarize (scope_requests f scope)) ∧
    (∀ i scope known, f !! i = Some (scope, known) → i ∈ mr_ids (sm_requests (state r)) ∧ known ≠ Open).
Proof.
  intros Hn Hd Hr Hfin. destruct (finish_certified _ _ _ _ _ _ _ Hn Hd Hr Hfin) as (before & bytes & line & d & main & t & Hw).
  pose proof (runtime_session _ _ _ _ _ _ Hn Hd Hr) as Hok. destruct Hw as [Hoffers Hcert Hcount Hdec Hmain Hterm Hread Hrep Howed Hops].
  destruct (ok_finished _ _ Hok main t Hmain Hterm) as (_ & _ & _ & Hparts & object & line' & _ & _ & Hsum).
  destruct (validate_summary_ok _ _ _ Hsum) as (? & ? & Hempty & ? & _).
  destruct (ledger_accounts _ _ (ok_ledger _ _ Hok)) as [f Hacc].
  eexists before, bytes, line, d, _, t, f. split_and!; [done|exact Hcert|done|by simpl|done|done|exact Hrep|done| |done|done|done|done| | |].
  - apply Forall_forall. intros st Hin. split; [by eapply Forall_forall in Hops|by eapply Forall_forall in Hparts].
  - destruct Hrep as (_ & _ & _ & _ & _ & _ & _ & _ & -> & _). apply (ac_all _ _ Hacc).
  - apply (ac_scope _ _ Hacc).
  - intros i scope known Hi. split; [apply (ac_ids _ _ Hacc); by eexists|by eapply accounts_settled].
Qed.

(** C14: the walk over a scope's ancestry admits a record exactly when every call
    the scope descends from was issued, has not returned and has no terminal
    result; and it ends, the calls issued being enough steps. *)
Theorem ancestry_exact (s : Semantics) (scope_ : option str) (line : Z) :
  session_ok SERVED_TURN_REFUSALS s →
  returns (ensure_ancestry s scope_ line) ∧
  (ensure_ancestry s scope_ line = Ok tt ↔ ∀ id a, scope_ = Some id → rtc (spawned_by s) id a → open_call s a).
Proof. apply ensure_ancestry_ok. Qed.

(** C12: what is closed stays closed.  Once a call has returned, or the scope it
    spawned has its terminal result, no record of that scope or of one below it
    is admitted in any later state of the session. *)
Theorem closed_scope_final (s s' s'' : Semantics) (records : list (DecodedRecord * Z)) (id scope_ session : str) (record : DecodedRecord)
    (line : Z) :
  session_ok SERVED_TURN_REFUSALS s → is_Some (sm_tool_uses s !! id) → ¬ open_call s id → history SERVED_TURN_REFUSALS s records s' →
  admits SERVED_TURN_REFUSALS session line s' record s'' → required_scope (record_value record) line = Ok (Some scope_) →
  ¬ rtc (spawned_by s') scope_ id.
Proof.
  intros Hok Ht Hclosed Hh Ha Hscope Hbelow. destruct (closed_history _ _ _ _ _ Hok Hh Ht Hclosed) as (Hok' & _ & Hclosed').
  destruct (admits_follows _ _ _ _ _ _ Hok' Ha) as (scope' & owed & shown_turn & p & Hf). apply Hclosed'.
  pose proof (fo_scope _ _ _ _ _ _ _ _ _ _ Hf) as Hscope'. rewrite Hscope in Hscope'. injection Hscope' as <-.
  pose proof (fo_ancestry _ _ _ _ _ _ _ _ _ _ Hf) as Hanc. destruct (ensure_ancestry_ok _ s' (Some scope_) line Hok') as [_ [Hall _]].
  by apply (Hall Hanc scope_).
Qed.

(** C11: a settled turn is shown whole and at once.  A record that completes an
    attempt of a conversation, accepted or refused, makes the messages of the
    generation's display owed.  And while messages are owed, the records that
    follow are assistant records of that very scope, the i-th of them showing
    the i-th message, and nothing is owed after the last. *)
Theorem settled_turn_shown (session : str) (line : Z) (s s1 : Semantics) (record : DecodedRecord) :
  session_ok SERVED_TURN_REFUSALS s → admits SERVED_TURN_REFUSALS session line s record s1 →
  (∀ a scope_ messages,
     kind_of (record_kind record) = ModelAttemptCompletion → required_scope (record_value record) line = Ok scope_ →
     plan_completion (sm_requests s) (record_value record) line = Ok a →
     conversation_generation (Some session) (ca_generation a) scope_ = Ok true → ca_disposition a ≠ Abandoned →
     display (ca_generation a) (bool_decide (ca_disposition a = RefusedTurn)) = Ok messages →
     sm_owed s1 = Some {| od_scope := scope_; od_model := model (ca_generation a); od_messages := messages |}) ∧
  (∀ od records s2,
     sm_owed s1 = Some od → history SERVED_TURN_REFUSALS s1 records s2 → (length records <= length (od_messages od))%nat →
     (∀ i record line m, records !! i = Some (record, line) → od_messages od !! i = Some m →
        shows (json_limits (sm_limits s)) od record line m) ∧
     (sm_owed s2 = None ↔ length records = length (od_messages od))).
Proof.
  intros Hok Ha. destruct (admits_follows _ _ _ _ _ _ Hok Ha) as (scope' & owed & shown_turn & p & Hf). split.
  - intros a scope_ messages Hkind Hscope Hcomp Hconv Hdisp Hdisplay.
    pose proof (fo_scope _ _ _ _ _ _ _ _ _ _ Hf) as Hscope'. rewrite Hscope in Hscope'. injection Hscope' as <-.
    exact (completion_owed _ _ _ _ _ _ _ _ _ _ _ _ Hf Hkind Hcomp Hconv Hdisp Hdisplay).
  - intros od records s2 Howed Hh Hlen. destruct (owed_history _ records s1 s2 od (fo_ok _ _ _ _ _ _ _ _ _ _ Hf) Hh Howed Hlen) as [Ho Hall].
    rewrite <- (fo_limits _ _ _ _ _ _ _ _ _ _ Hf). split; [done|]. rewrite Ho. unfold owes.
    destruct (drop (length records) (od_messages od)) as [|m rest] eqn:Hdrop;
      apply (f_equal length) in Hdrop; rewrite length_drop in Hdrop; simpl in Hdrop; (split; [lia || done|done || lia]).
Qed.
End Properties.

(** ** A small session

    Its start, then a terminal error; and states with calls and with a turn that
    is owed. *)
Definition session_contract : StreamContract := {|
  NODES := [{| schema_path_of := lit "#"; rules := [] |}];
  entry_record := 0; entry_terminal_result := 0; entry_goal_snapshot := 0; entry_goal_checkpoint_evidence_bytes := 0;
  entry_model_generation_evidence := 0; entry_generation_envelope := 0;
  STREAM_CONTRACT_SHA256 := lit "contract";
  EventKind := nat; EventKind_eq_dec := _; kind_result := 1%nat; kind_stream_event := 2%nat;
  event_from_wire := fun s =>
    if decide (s = lit "system") then Some 0%nat else if decide (s = lit "result") then Some 1%nat
    else if decide (s = lit "assistant") then Some 3%nat else None;
  partial_from_wire := fun _ => None;
  TERMINAL_OUTCOMES := [{| subtype := lit "success"; is_error := false; exit_code := 0 |};
                        {| subtype := lit "error_during_execution"; is_error := true; exit_code := 1 |}];
|}.

Section Example.
Local Existing Instance example_serde.
Local Existing Instance session_contract.
Local Existing Instance plain_digest.
Local Existing Instance decimal_bigint.
Local Existing Instance plain_base64.
Local Existing Instance plain_quote.
Local Instance session_vocabulary : Vocabulary := {|
  kind_of := fun k : @EventKind session_contract => nth k [System; Result; StreamEvent] Assistant;
  MISSING_DELIVERABLES_SUBTYPE := lit "error_missing_deliverables";
|}.
Local Instance session_vocabulary_laws : VocabularyLaws.
Proof. split. intros k Hk. vm_compute in Hk. by injection Hk as <-. Qed.
Local Instance session_planner : Planner := conversation_planner [].

Definition session_limits : RuntimeLimits :=
  {| json_limits := {| limit_bytes := 4096; limit_nodes := 128; limit_depth := 8 |}; schema_limits := {| operations := 50 |} |}.
Definition session_start_record : str :=
  quoted "{'uuid':'a','session_id':'s','type':'system','subtype':'stream_start','stream_contract_sha256':'contract','request_evidence_origin':{'journal_id':'j','first_sequence':0}}".
Definition session_result_record : str :=
  quoted "{'uuid':'b','session_id':'s','type':'result','is_error':true,'subtype':'error_during_execution','duration_ms':7,'duration_api_ms':5,'num_turns':0,'usage':{'usage':null,'requests':0,'usageReports':0,'unfinalizedRequests':0,'unreportedUsageRequests':0},'permission_denials':[],'error':{'message':'stopped'},'request_evidence':{'request_count':0,'first_sequence':0,'open_response_ids':[],'open_attempt_ids':[],'journal_id':'j'}}".

Definition session_new : RuntimeContract := new_runtime 7 example_bindings session_limits example_task.
Definition session_started : RuntimeContract := committed (prepare_utf8 session_start_record 1 session_new).2.
Definition session_ended : RuntimeContract := committed (prepare_utf8 session_result_record 2 session_started).2.
Definition session_offers : list Offer := [OfferedRecord session_start_record 1; OfferedRecord session_result_record 2].

Lemma session_reaches : reaches 7 example_bindings session_limits example_task session_offers session_ended.
Proof.
  apply reaches_committed; [|by vm_compute]. apply (reaches_prepared _ _ _ _ [OfferedRecord session_start_record 1]); [|by vm_compute..].
  apply reaches_committed; [|by vm_compute]. apply (reaches_prepared _ _ _ _ []); [constructor|by vm_compute..].
Qed.

Lemma runtime_returns_witness :
  (∀ token, returns (commit token session_ended).1.1) ∧ returns (finish [] session_ended) ∧ is_ok (finish [] session_ended) = true.
Proof.
  destruct (runtime_returns [] 7 example_bindings session_limits example_task session_offers session_ended) as (Hc & _ & Hf);
    [by vm_compute|by vm_compute|exact session_reaches|].
  split; [exact Hc|]. split; [exact Hf|]. by vm_compute.
Defined.

Lemma session_finished : ∃ result, finish [] session_ended = Ok result ∧ ag_subtype result = lit "error_during_execution".
Proof.
  assert (E : match finish [] session_ended with Ok result => ag_subtype result = lit "error_during_execution" | Err _ => False end) by (by vm_compute).
  destruct (finish [] session_ended) as [result|]; [by exists result|done].
Qed.

Lemma result_certified_witness :
  ∃ result before bytes line f, finish [] session_ended = Ok result ∧ session_offers = before ++ [OfferedRecord bytes line] ∧
    ag_usage result = summarize (all_requests f).
Proof.
  destruct session_finished as (result & Hfin & _). exists result.
  destruct (result_certified [] 7 example_bindings session_limits example_task session_offers session_ended result)
    as (before & bytes & line & d & c & t & f & Ho & _ & _ & _ & _ & _ & _ & _ & _ & _ & _ & _ & _ & Hu & _);
    [by vm_compute|by vm_compute|exact session_reaches|exact Hfin|].
  exists before, bytes, line, f. exact (conj Hfin (conj Ho Hu)).
Defined.

(** A session with two calls of the main scope, one returned; and one that owes
    two messages. *)
Definition example_call (returned : bool) : ToolUse :=
  {| tu_name := lit "agent"; tu_structured_input := None; tu_line := 1; tu_scope := None; tu_returned := returned |}.
Definition session_calls : Semantics :=
  set_sm_tool_uses {[lit "c" := example_call true; lit "d" := example_call false]} (new_semantics example_bindings session_limits example_task).
Definition owed_message : DisplayMessage := {| content_json := lit "[]"; tool_use_only := false; message_usage := None |}.
Definition session_owing : Semantics :=
  set_sm_owed (Some {| od_scope := None; od_model := lit "m"; od_messages := [owed_message; owed_message] |})
    (new_semantics example_bindings session_limits example_task).

Lemma session_calls_ok : session_ok [] session_calls.
Proof.
  destruct (session_ok_new [] example_bindings session_limits example_task) as [Hl [Hm Hr Hst] _ Ho Hf].
  constructor; [exact Hl| | |exact Ho|exact Hf].
  - constructor; [exact Hm|exact Hr|]. intros [|[|row]] st Hlook Hz; done.
  - exists (fun _ => 0%nat). intros id t Ht. split; [by vm_compute; lia|]. intros parent Hp. exfalso. revert Hp.
    change ((<[lit "c" := example_call true]> {[lit "d" := example_call false]} : gmap str ToolUse) !! id = Some t) in Ht.
    apply lookup_insert_Some in Ht as [[_ <-]|[_ Ht]]; [done|]. apply lookup_singleton_Some in Ht as [_ <-]. done.
Qed.
Lemma session_owing_ok : session_ok [] session_owing.
Proof.
  destruct (session_ok_new [] example_bindings session_limits example_task) as [Hl Hs Hc Ho Hf].
  constructor; [exact Hl|split; apply Hs|exact Hc|by intros od [= <-]|exact Hf].
Qed.

(** Admitting a record, executed. *)
Definition admit_record (s : Semantics) (v : Value) : contract (DecodedRecord * Semantics) :=
  record ← decode_record v {| operations := 50 |} 5;
  p ← plan_event [] s 1 (Some (lit "s")) record 5;
  s' ← commit_event p s; Ok (record, s').
Lemma admit_record_admits s v record s' : in_arena v → admit_record s v = Ok (record, s') → admits [] (lit "s") 5 s record s'.
Proof.
  intros Hv Ha. unfold admit_record in Ha. apply bind_ok_inv in Ha as (record' & Hdec & Ha). apply bind_ok_inv in Ha as (p & Hp & Ha).
  apply bind_ok_inv in Ha as (s1 & Hs & [= <- <-]). by eapply (admits_record _ _ _ _ _ _ _ 1); [exact Hv|exact Hdec| |exact Hp|exact Hs].
Qed.
Lemma admit_record_same s s1 v record record1 s' s1' :
  admit_record s v = Ok (record, s') → admit_record s1 v = Ok (record1, s1') → record = record1.
Proof.
  unfold admit_record. intros (r & Hr & H1)%bind_ok_inv (r1 & Hr1 & H2)%bind_ok_inv. rewrite Hr in Hr1. injection Hr1 as <-.
  apply bind_ok_inv in H1 as (? & _ & (? & _ & [= <- _])%bind_ok_inv). by apply bind_ok_inv in H2 as (? & _ & (? & _ & [= <- _])%bind_ok_inv).
Qed.
Lemma admit_record_ok s v : is_ok (admit_record s v) = true → ∃ record s', admit_record s v = Ok (record, s').
Proof. destruct (admit_record s v) as [[record s']|]; [by exists record, s'|done]. Qed.

Definition child_record : Value :=
  example_record (quoted "{'uuid':'u','session_id':'s','type':'system','subtype':'task_started','parent_tool_use_id':'d'}").
Definition shown_record : Value :=
  example_record (quoted "{'uuid':'u','session_id':'s','type':'assistant','message':{'model':'m','stop_reason':null,'content':[],'usage':null}}").

Lemma ancestry_exact_witness :
  is_ok (ensure_ancestry session_calls (Some (lit "d")) 5) = true ∧ is_ok (ensure_ancestry session_calls (Some (lit "c")) 5) = false ∧
  ∀ a, rtc (spawned_by session_calls) (lit "d") a → open_call session_calls a.
Proof.
  split; [by vm_compute|]. split; [by vm_compute|].
  destruct (ancestry_exact [] session_calls (Some (lit "d")) 5 session_calls_ok) as [_ [Hopen _]].
  intros a. apply (Hopen ltac:(by vm_compute) (lit "d") a eq_refl).
Defined.

Lemma returned_closed : ¬ open_call session_calls (lit "c").
Proof. intros [(t & Ht & Hr) _]. vm_compute in Ht. injection Ht as <-. done. Qed.

Lemma closed_scope_final_witness : ¬ rtc (spawned_by session_calls) (lit "d") (lit "c").
Proof.
  destruct (admit_record_ok session_calls child_record) as (record & s' & Ha); [by vm_compute|].
  assert (Hscope : required_scope (record_value record) 5 = Ok (Some (lit "d"))).
  { assert (E : match admit_record session_calls child_record with Ok (r, _) => required_scope (record_value r) 5 = Ok (Some (lit "d")) | Err _ => False end)
      by (by vm_compute). by rewrite Ha in E. }
  apply (closed_scope_final [] session_calls session_calls s' [] (lit "c") (lit "d") (lit "s") record 5 session_calls_ok);
    [by eexists|exact returned_closed|exact (history_nil [] session_calls)|exact (admit_record_admits session_calls child_record record s' (example_record_in_arena _) Ha)|exact Hscope].
Defined.

Lemma settled_turn_shown_witness :
  ∃ record s1 s2, admits [] (lit "s") 5 session_owing record s1 ∧ history [] s1 [(record, 5)] s2 ∧
    (sm_owed s2 = None ↔ length [(record, 5)] = 1%nat).
Proof.
  destruct (admit_record_ok session_owing shown_record) as (record & s1 & Ha); [by vm_compute|].
  assert (Hone : sm_owed s1 = Some {| od_scope := None; od_model := lit "m"; od_messages := [owed_message] |}).
  { assert (E : match admit_record session_owing shown_record with
                | Ok (_, s) => sm_owed s = Some {| od_scope := None; od_model := lit "m"; od_messages := [owed_message] |} | Err _ => False end)
      by (by vm_compute). by rewrite Ha in E. }
  assert (Hnext : is_ok (admit_record s1 shown_record) = true).
  { assert (E : match admit_record session_owing shown_record with Ok (_, s) => is_ok (admit_record s shown_record) | Err _ => false end = true)
      by (by vm_compute). by rewrite Ha in E. }
  destruct (admit_record_ok s1 shown_record Hnext) as (record' & s2 & Hb). rewrite (admit_record_same _ _ _ _ _ _ _ Hb Ha) in Hb.
  pose proof (admit_record_admits session_owing shown_record record s1 (example_record_in_arena _) Ha) as Hfirst.
  pose proof (admit_record_admits s1 shown_record record s2 (example_record_in_arena _) Hb) as Hsecond.
  exists record, s1, s2. destruct (settled_turn_shown [] (lit "s") 5 session_owing s1 record session_owing_ok Hfirst) as [_ Hall].
  assert (Hh : history [] s1 [(record, 5)] s2) by exact (history_cons [] s1 record 5 [] (lit "s") s2 s2 Hsecond (history_nil [] s2)).
  exact (conj Hfirst (conj Hh (proj2 (Hall _ _ s2 Hone Hh (le_n 1))))).
Defined.
End Example.
