(* ===== verification/Capture.v ===== *)
(** * Capture: the certifying read of captured output (src/result_parse.rs)

    A captured event stream is read through a descriptor whose length was fixed
    when it was opened, framed into records by LF alone, and offered record by
    record to the runtime that certifies it.  The model keeps the buffered
    reader: what each read of the descriptor returns is arbitrary.  [frames] is
    the reference: the whole prefix split at its LFs at once. *)
From S2P Require Import Prelude Number Utf8 BTree Json JsonTree Schema Stream Usage Generation PartialStream Authorship ServiceError Sse Serde Turns Requests Utilities Admission Compaction Ledger Account Conversation Lifecycle.

(** ** The descriptor and its reader

    One read of the descriptor returns bytes -- none at the end of the file -- or
    an error.  [BufReader<Take<R>>] holds what was read and not consumed. *)
Inductive Read := ReadBytes (bytes : str) | ReadError (error : str).
Record Reader := { rd_buffer : str; rd_limit : Z; rd_reads : list Read }.

(** [std::io::BufReader]'s capacity. *)
Definition BUFFER_CAPACITY : nat := 8192.

(** [BufReader::new(file.take(bytes))] *)
Definition new_reader (limit : Z) (reads : list Read) : Reader := {| rd_buffer := []; rd_limit := limit; rd_reads := reads |}.

(** [fill_buf]: what is buffered, or else one read of at most the buffer's
    capacity and the bytes the limit leaves. *)
Definition fill_buf (r : Reader) : result str str * Reader :=
  match rd_buffer r with
  | _ :: _ => (Ok (rd_buffer r), r)
  | [] =>
      if rd_limit r =? 0 then (Ok [], r)
      else
        match rd_reads r with
        | [] => (Ok [], r)
        | ReadError e :: rest => (Err e, {| rd_buffer := []; rd_limit := rd_limit r; rd_reads := rest |})
        | ReadBytes bytes :: rest =>
            let n := Nat.min (length bytes) (Nat.min BUFFER_CAPACITY (Z.to_nat (rd_limit r))) in
            (Ok (take n bytes),
             {| rd_buffer := take n bytes; rd_limit := rd_limit r - Z.of_nat n;
                rd_reads := match drop n bytes with [] => rest | left_ => ReadBytes left_ :: rest end |})
        end
  end.
Definition consume (n : nat) (r : Reader) : Reader :=
  {| rd_buffer := drop n (rd_buffer r); rd_limit := rd_limit r; rd_reads := rd_reads r |}.

(** ** Framing *)
Abbreviation captured A := (result (fault ServiceError) A).
Definition output_missing {A} (message : str) : captured A := Err (Refused (AgentOutputMissing message)).

Record RecordFrame := { terminated : bool; over_limit : bool }.

(** [u8::is_ascii_whitespace] *)
Definition is_ascii_whitespace (b : Z) : bool := existsb (Z.eqb b) [32; 9; 10; 12; 13].

(** [iter().position(|byte| *byte == b'\n')] *)
Fixpoint position_lf (s : str) : option nat :=
  match s with
  | [] => None
  | b :: s => if b =? 10 then Some 0%nat else S <$> position_lf s
  end.

(** The reader is drained to a record's delimiter; past the limit, nothing but a
    bounded prefix is kept.  The fuel is more than the bytes and reads left. *)
Fixpoint read_bounded_record (fuel : nat) (path : str) (limit : Z) (r : Reader) (record : str) (over : bool) :
    captured RecordFrame * str * Reader :=
  match fuel with
  | O => (Err OutOfFuel, record, r)
  | S fuel =>
      match fill_buf r with
      | (Err e, r) => (output_missing (lit "read opened events.jsonl at " ++ path ++ lit ": " ++ e), record, r)
      | (Ok [], r) => (Ok {| terminated := false; over_limit := over |}, record, r)
      | (Ok available, r) =>
          let taken := match position_lf available with Some index => S index | None => length available end in
          let '(record, over) :=
            if over then (record, true)
            else if Z.max 0 (limit - Z.of_nat (length record)) <? Z.of_nat taken
            then (take 512 (record ++ take (Nat.min taken 512) available), true)
            else (record ++ take taken available, false) in
          let ended := bool_decide (available !! (taken - 1)%nat = Some 10) in
          let r := consume taken r in
          if ended then (Ok {| terminated := ended; over_limit := over |}, record, r)
          else read_bounded_record fuel path limit r record over
      end
  end.

(** The bytes and reads a reader has left. *)
Definition weight (r : Reader) : nat :=
  (length (rd_buffer r) + sum_list_with (fun x => match x with ReadBytes bytes => S (length bytes) | ReadError _ => 1 end) (rd_reads r))%nat.

(** [MAX_EVENT_RECORD_BYTES] *)
Definition MAX_EVENT_RECORD_BYTES : Z := 134217728.

(** ** The snapshot of a captured stream *)
Record OutputProgress := {
  out_num_turns : option Z; out_last_event_at_unix : option Z; out_output_event_bytes : Z;
  out_observed_usage : GenerationUsageSummary; out_observed_subagent_scope_count : Z; out_observed_unaccounted_records : Z;
}.

Inductive ReplayCompletion := ReachedBoundary | ReadFailed (bytes_read : Z) (cause : str) | SourceShortened (bytes_read expected_bytes : Z).

Record EventSnapshot := {
  es_observed : OutputProgress; es_replay_completion : ReplayCompletion; es_certified : service AgentResult; es_wire_sha256 : str;
}.

Record EventPrefix := { ep_file : list Read; ep_bytes : Z; ep_last_event_at_unix : Z }.

(** What [open] and [fstat] answer; the modification time in seconds, none
    before the epoch. *)
Record Metadata := {
  md_len : Z; md_is_file : bool; md_mode : Z; md_uid : Z; md_gid : Z; md_modified : result str (result str Z);
}.
Inductive OpenOutcome :=
| NoSuchFile
| OpenFailed (error : str)
| Opened (metadata : result str Metadata) (reads : list Read).

(** [io_msg] *)
Definition io_message (context : string) (path error : str) : str := lit context ++ lit " at " ++ path ++ lit ": " ++ error.

Definition open_event_prefix (path : str) (opened : OpenOutcome) : service (option EventPrefix) :=
  match opened with
  | NoSuchFile => Ok None
  | OpenFailed error => Err (AgentOutputMissing (io_message "open events.jsonl without following links" path error))
  | Opened metadata reads =>
      metadata ← map_err (fun error => AgentOutputMissing (io_message "fstat opened events.jsonl" path error)) metadata;
      if negb (md_is_file metadata) || negb (Z.land (md_mode metadata) 511 =? 384)
         || negb (md_uid metadata =? 1000) || negb (md_gid metadata =? 1000)
      then Err (AgentOutputMissing (lit "events.jsonl at " ++ path ++ lit " has unsafe opened type/mode/owner"))
      else
        modified ← map_err (fun error => AgentOutputMissing (io_message "read event modification time" path error)) (md_modified metadata);
        last_event_at_unix ← map_err (fun error => AgentOutputMissing (lit "event modification time predates the Unix epoch: " ++ error)) modified;
        Ok (Some {| ep_file := reads; ep_bytes := md_len metadata; ep_last_event_at_unix := last_event_at_unix |})
  end.

(** ** The certifying read *)
(** The limits the service reads captured records with.  What follows takes the
    limits as an argument, and holds for any. *)
Definition captured_limits : RuntimeLimits := {|
  json_limits := {| limit_bytes := MAX_EVENT_RECORD_BYTES; limit_nodes := MAX_EVENT_RECORD_BYTES; limit_depth := MAX_EVENT_RECORD_BYTES |};
  schema_limits := {| operations := Z.to_nat U32_MAX |};
|}.

Section Replay.
Context `{BigIntOps} `{Vocabulary} `{Sha256Ops} `{Serde} `{Base64} `{QuoteOps} (SERVED_TURN_REFUSALS : list ServedTurnRefusal)
  (CAPTURED_STREAM_BINDINGS_JSON : str) (limits : RuntimeLimits).

Let planner := conversation_planner SERVED_TURN_REFUSALS.
Local Existing Instance planner.

(** [From<ContractError>], through [?] *)
Definition as_service {A} (r : contract A) : captured A := map_refused from_contract r.

(** The bindings the build embeds, and a runtime of its own identity. *)
Definition pinned_bindings : captured RuntimeBindings :=
  let n := Z.of_nat (length CAPTURED_STREAM_BINDINGS_JSON) in
  document ← map_refused (fun _ => Internal (lit "runtime bindings"))
    (decode CAPTURED_STREAM_BINDINGS_JSON {| limit_bytes := n; limit_nodes := n; limit_depth := n |});
  as_service (bindings_new document).
Definition pinned_contract (id : nat) (operator : str) : captured RuntimeContract :=
  bindings ← pinned_bindings; Ok (new_runtime id bindings limits operator).

(** A gap in the record, and a record that is offered: a refusal latches inside
    the runtime, and what was prepared is committed at once. *)
Definition record_gap (cause : ContractError) (contract : RuntimeContract) : captured RuntimeContract :=
  let '(result, contract) := observe_gap cause contract in
  _ ← as_service result; Ok contract.
Definition offer_record (line : str) (physical_line : Z) (contract : RuntimeContract) : captured RuntimeContract :=
  let '(admission, contract) := prepare_utf8 line physical_line contract in
  match admission with
  | Ok token =>
      let '(result, _, contract) := commit token contract in
      _ ← as_service result; Ok contract
  | Err (Refused _) => Ok contract
  | Err (Panic site) => Err (Panic site)
  | Err OutOfFuel => Err OutOfFuel
  end.

Definition exceeds_bound (line : Z) : ContractError :=
  InvalidRecord (at_line line ++ lit " exceeds the " ++ show_Z MAX_EVENT_RECORD_BYTES ++ lit "-byte record bound and is unaccounted").
Definition not_terminated (line : Z) : ContractError :=
  InvalidRecord (at_line line ++ lit " is not newline-terminated; incomplete trailing record is unaccounted").
Definition blank_line (line : Z) : ContractError :=
  InvalidRecord (at_line line ++ lit " is blank; every completed line must be a JSON object").

(** What the loop over the records carries. *)
Record Replay := { rp_contract : RuntimeContract; rp_digest : Sha256; rp_line : Z }.

Fixpoint replay_records (fuel : nat) (path : str) (bytes : Z) (reader : Reader) (st : Replay) :
    captured (Replay * Reader * ReplayCompletion) :=
  match fuel with
  | O => Err OutOfFuel
  | S fuel =>
      match read_bounded_record (S (weight reader)) path MAX_EVENT_RECORD_BYTES reader [] false with
      | (Err (Refused cause), record, reader) =>
          let cause := display_error cause in
          contract ← match record with
                     | [] => Ok (rp_contract st)
                     | _ => record_gap (ValidationUnavailable cause) (rp_contract st)
                     end;
          Ok ({| rp_contract := contract; rp_digest := rp_digest st; rp_line := rp_line st |}, reader,
              ReadFailed (bytes - rd_limit reader) cause)
      | (Err (Panic site), _, _) => Err (Panic site)
      | (Err OutOfFuel, _, _) => Err OutOfFuel
      | (Ok frame, record, reader) =>
          if bool_decide (record = []) && negb (terminated frame) then Ok (st, reader, ReachedBoundary)
          else
            physical_line ← ok_or (checked_add (rp_line st) 1) (Refused (AgentOutputMissing (lit "events.jsonl physical line count overflowed")));
            if over_limit frame then
              contract ← record_gap (exceeds_bound physical_line) (rp_contract st);
              let st := {| rp_contract := contract; rp_digest := rp_digest st; rp_line := physical_line |} in
              if terminated frame then replay_records fuel path bytes reader st else Ok (st, reader, ReachedBoundary)
            else if negb (terminated frame) then
              contract ← record_gap (not_terminated physical_line) (rp_contract st);
              Ok ({| rp_contract := contract; rp_digest := rp_digest st; rp_line := physical_line |}, reader, ReachedBoundary)
            else
              let digest := sha_update (rp_digest st) record in
              line ← expect (strip_suffix [10] record) "terminated frame has LF";
              contract ← (if forallb is_ascii_whitespace line then record_gap (blank_line physical_line) (rp_contract st)
                          else offer_record line physical_line (rp_contract st));
              replay_records fuel path bytes reader {| rp_contract := contract; rp_digest := digest; rp_line := physical_line |}
      end
  end.

(** The answer of [finish], as the service reports it. *)
Definition protocol_result (contract : RuntimeContract) : captured (service AgentResult) :=
  match finish SERVED_TURN_REFUSALS contract with
  | Ok result => Ok (Ok result)
  | Err (Refused e) => Ok (Err (from_contract e))
  | Err (Panic site) => Err (Panic site)
  | Err OutOfFuel => Err OutOfFuel
  end.
Definition replay_cause (completion : ReplayCompletion) : option str :=
  match completion with
  | ReachedBoundary => None
  | ReadFailed _ cause => Some (lit "captured wire replay could not finish reading: " ++ cause)
  | SourceShortened bytes_read expected_bytes =>
      Some (lit "events.jsonl became shorter than its opened snapshot: read " ++ show_Z bytes_read ++ lit " of " ++ show_Z expected_bytes ++ lit " bytes")
  end.
Definition with_replay (result : service AgentResult) (cause : option str) : service AgentResult :=
  match result, cause with
  | result, None => result
  | Ok _, Some cause => Err (AgentOutputMissing cause)
  | Err protocol, Some replay => Err (AgentOutputMissing (display_error protocol ++ lit "; " ++ replay))
  end.

(** [{byte:02x}] for each byte of the digest. *)
Definition hex_digest (digest : Sha256) : str :=
  concat (map (fun b => [hex_nibble (b / 16); hex_nibble (b mod 16)]) (sha_finalize digest)).

Definition output_progress (p : EventPrefix) (facts : RuntimeObservations) : OutputProgress := {|
  out_output_event_bytes := ep_bytes p; out_last_event_at_unix := Some (ep_last_event_at_unix p);
  out_num_turns := num_turns facts; out_observed_usage := observed_usage facts;
  out_observed_subagent_scope_count := observed_subagent_scope_count facts;
  out_observed_unaccounted_records := observed_unaccounted_records facts;
|}.

Definition read_opened_event_snapshot (id : nat) (path : str) (p : EventPrefix) (operator : str) : captured EventSnapshot :=
  let reader := new_reader (ep_bytes p) (ep_file p) in
  contract ← pinned_contract id operator;
  '(st, reader, completion) ← replay_records (S (weight reader)) path (ep_bytes p) reader
     {| rp_contract := contract; rp_digest := sha_new; rp_line := 0 |};
  let completion :=
    match completion with
    | ReachedBoundary =>
        if negb (rd_limit reader =? 0) then SourceShortened (ep_bytes p - rd_limit reader) (ep_bytes p) else ReachedBoundary
    | completion => completion
    end in
  result ← protocol_result (rp_contract st);
  Ok {| es_observed := output_progress p (snapshot_observations (snapshot (rp_contract st)));
        es_replay_completion := completion; es_certified := with_replay result (replay_cause completion);
        es_wire_sha256 := hex_digest (rp_digest st) |}.

(** What a caller reads: [verify] is the physical replay of a stream of so many
    bytes with that digest, below. *)
Definition read_event_snapshot (verify : Z → str → service unit) (id : nat) (path : str) (opened : OpenOutcome) (operator : str) :
    captured (option EventSnapshot) :=
  prefix ← map_err Refused (open_event_prefix path opened);
  match prefix with
  | None => Ok None
  | Some prefix =>
      snapshot ← read_opened_event_snapshot id path prefix operator;
      Ok (Some
        match es_certified snapshot with
        | Err _ => snapshot
        | Ok _ =>
            match verify (out_output_event_bytes (es_observed snapshot)) (es_wire_sha256 snapshot) with
            | Ok _ => snapshot
            | Err cause => {| es_observed := es_observed snapshot; es_replay_completion := es_replay_completion snapshot;
                              es_certified := Err cause; es_wire_sha256 := es_wire_sha256 snapshot |}
            end
        end)
  end.
Definition read_event_observations (id : nat) (path : str) (opened : OpenOutcome) (operator : str) : captured (option OutputProgress) :=
  prefix ← map_err Refused (open_event_prefix path opened);
  match prefix with
  | None => Ok None
  | Some prefix => snapshot ← read_opened_event_snapshot id path prefix operator; Ok (Some (es_observed snapshot))
  end.
End Replay.

(** ** The physical replay

    The verifier is a child process, watched until its deadline: what each look
    at it finds, after how many milliseconds, is the operating system's. *)
Inductive ChildState := ChildSucceeded | ChildFailed (status : str) | ChildRunning | ChildLost (error : str).
Record Look := { look_state : ChildState; look_elapsed_ms : Z }.

(** [Duration::from_secs(60_u64.saturating_add(bytes / MiB))], in milliseconds *)
Definition verifier_deadline_ms (bytes : Z) : Z := 1000 * Z.min U64_MAX (60 + bytes / 1048576).

Fixpoint watch_verifier (fuel : nat) (path reason : str) (deadline : Z) (looks : nat → Look) (n : nat) : result (fault ServiceError) unit :=
  match fuel with
  | O => Err OutOfFuel
  | S fuel =>
      match look_state (looks n) with
      | ChildSucceeded => Ok tt
      | ChildFailed status =>
          Err (Refused (AgentRecordRefused (lit "physical response replay refused " ++ path ++ lit " with status " ++ status ++ lit ": " ++ reason
            ++ lit "; inspect the original recording with its matching client or start a new session")))
      | ChildRunning =>
          if look_elapsed_ms (looks n) <? deadline then watch_verifier fuel path reason deadline looks (S n)
          else Err (Refused (Timeout (lit "physical response replay exceeded its local verification deadline for " ++ path
            ++ lit "; inspect the retained recording and service load, then retry")))
      | ChildLost error =>
          Err (Refused (Internal (lit "physical response replay could not settle for " ++ path ++ lit ": " ++ error
            ++ lit "; inspect the retained recording and service process state, then retry")))
      end
  end.

(** ** The reference: the whole prefix at once *)

(** A text's lines, without their LFs, and what follows the last LF. *)
Fixpoint split_lines (s : str) : list str * str :=
  match s with
  | [] => ([], [])
  | b :: s =>
      let '(lines, tail) := split_lines s in
      if b =? 10 then ([] :: lines, tail)
      else match lines with [] => ([], b :: tail) | l :: ls => ((b :: l) :: ls, tail) end
  end.

(** All that the descriptor gives within the limit, and the error that ended it. *)
Fixpoint delivered_reads (limit : Z) (reads : list Read) : str * option str :=
  if limit =? 0 then ([], None)
  else
    match reads with
    | [] | ReadBytes [] :: _ => ([], None)
    | ReadError e :: _ => ([], Some e)
    | ReadBytes bytes :: rest =>
        let n := Nat.min (length bytes) (Z.to_nat limit) in
        let '(more, e) := delivered_reads (limit - Z.of_nat n) rest in
        (take n bytes ++ more, e)
    end.
Definition delivered (r : Reader) : str * option str :=
  let '(more, e) := delivered_reads (rd_limit r) (rd_reads r) in (rd_buffer r ++ more, e).
(** What the limit still allows when the descriptor has given all it gives. *)
Definition unread (r : Reader) : Z := rd_limit r - Z.of_nat (length (delivered_reads (rd_limit r) (rd_reads r)).1).

(** What one completed line is offered as, and what a rest without LF is. *)
Definition line_offer (n : Z) (line : str) : Offer :=
  if MAX_EVENT_RECORD_BYTES <? Z.of_nat (length line) + 1 then OfferedGap (exceeds_bound n)
  else if forallb is_ascii_whitespace line then OfferedGap (blank_line n)
  else OfferedRecord line n.
Fixpoint line_offers (n : Z) (lines : list str) : list Offer :=
  match lines with [] => [] | line :: lines => line_offer (n + 1) line :: line_offers (n + 1) lines end.
Definition tail_offers (n : Z) (tail : str) (failed : option str) : list Offer :=
  match tail, failed with
  | [], _ => []
  | _, Some cause => [OfferedGap (ValidationUnavailable cause)]
  | _, None => [OfferedGap (if MAX_EVENT_RECORD_BYTES <? Z.of_nat (length tail) then exceeds_bound (n + 1) else not_terminated (n + 1))]
  end.

(** ** Lines *)
Lemma position_lf_Some s i : position_lf s = Some i → s !! i = Some 10 ∧ position_lf (take i s) = None ∧ (i < length s)%nat.
Proof.
  revert i. induction s as [|b s IH]; intros i H; [done|]. simpl in H. destruct (Z.eqb_spec b 10) as [->|Hb]; [by injection H as <-; simpl; split_and!; [| |lia]|].
  destruct (position_lf s) as [j|]; [|done]. injection H as <-. destruct (IH j eq_refl) as (? & Hn & ?). simpl. rewrite Hn.
  apply Z.eqb_neq in Hb as ->. split_and!; [done|done|lia].
Qed.
Lemma position_lf_None s i : position_lf s = None → s !! i ≠ Some 10.
Proof.
  revert i. induction s as [|b s IH]; intros i H; [done|]. simpl in H. destruct (Z.eqb_spec b 10) as [->|Hb]; [done|].
  destruct (position_lf s); [done|]. destruct i; [simpl; congruence|by apply IH].
Qed.
Lemma position_lf_app a b :
  position_lf (a ++ b) = match position_lf a with Some i => Some i | None => (fun j => (length a + j)%nat) <$> position_lf b end.
Proof.
  induction a as [|x a IH]; simpl; [by destruct (position_lf b)|]. destruct (x =? 10); [done|]. rewrite IH.
  by destruct (position_lf a), (position_lf b).
Qed.

Lemma split_lines_None s : position_lf s = None → split_lines s = ([], s).
Proof.
  induction s as [|b s IH]; [done|]. simpl. destruct (b =? 10); [done|]. destruct (position_lf s); [done|]. intros _. by rewrite IH.
Qed.
Lemma split_lines_Some s i : position_lf s = Some i →
  split_lines s = (take i s :: (split_lines (drop (S i) s)).1, (split_lines (drop (S i) s)).2).
Proof.
  revert i. induction s as [|b s IH]; intros i H; [done|]. simpl in *. destruct (b =? 10).
  - injection H as <-. simpl. rewrite drop_0. by destruct (split_lines s).
  - destruct (position_lf s) as [j|]; [|done]. injection H as <-. rewrite (IH j eq_refl). by simpl.
Qed.
Lemma split_lines_join s : s = concat (map (fun l => l ++ [10]) (split_lines s).1) ++ (split_lines s).2.
Proof.
  induction s as [|b s IH]; [done|]. simpl. destruct (split_lines s) as [[|l ls] tail]; simpl in *;
    (destruct (Z.eqb_spec b 10) as [->|]; simpl; by rewrite IH at 1).
Qed.

(** ** What the reader gives *)
Lemma fill_buf_spec r : 0 <= rd_limit r →
  let '(filled, r') := fill_buf r in
  0 <= rd_limit r' ∧
  match filled with
  | Ok [] => delivered r = ([], None) ∧ rd_limit r' = unread r
  | Ok available => rd_buffer r' = available ∧ delivered r' = delivered r ∧ unread r' = unread r ∧ (weight r' <= weight r)%nat
  | Err e => delivered r = ([], Some e) ∧ rd_limit r' = unread r
  end.
Proof.
  assert (Hcap : (0 < BUFFER_CAPACITY)%nat) by (apply Nat.ltb_lt; by vm_compute).
  destruct r as [buffer limit reads]. unfold fill_buf, delivered, unread, weight. revert Hcap. generalize BUFFER_CAPACITY as capacity.
  intros capacity Hcap. simpl. intros Hlim.
  destruct buffer as [|b buffer]; [|by simpl; split_and!].
  assert (Hzero : delivered_reads 0 reads = ([], None)) by (by destruct reads).
  destruct (Z.eqb_spec limit 0) as [->|Hn]; [rewrite ?Hzero; simpl; split_and!; (done || lia)|].
  destruct reads as [|[bytes|e] rest]; simpl.
  - destruct (limit =? 0); simpl; split_and!; (done || lia).
  - destruct bytes as [|x bytes]; [destruct (limit =? 0); simpl; split_and!; (done || lia)|].
    set (m := Nat.min (length (x :: bytes)) (Nat.min capacity (Z.to_nat limit))).
    assert (Hm : (0 < m <= length (x :: bytes))%nat ∧ Z.of_nat m <= limit /\ (m <= Z.to_nat limit)%nat).
    { subst m. simpl length. lia. }
    destruct (take m (x :: bytes)) as [|y got] eqn:Hgot; [apply (f_equal length) in Hgot; rewrite length_take in Hgot; simpl in Hgot, Hm; lia|].
    rewrite <- Hgot. apply Z.eqb_neq in Hn as Hn'. rewrite Hn'.
    assert (Hsplit : ∀ p : str * option str, delivered_reads (limit - Z.of_nat m) (match drop m (x :: bytes) with [] => rest | left_ => ReadBytes left_ :: rest end) = p →
      (let '(more, e) := delivered_reads (limit - Z.of_nat (Nat.min (length (x :: bytes)) (Z.to_nat limit))) rest in
       (take (Nat.min (length (x :: bytes)) (Z.to_nat limit)) (x :: bytes) ++ more, e)) = (take m (x :: bytes) ++ p.1, p.2)).
    { intros p <-. destruct (drop m (x :: bytes)) as [|z left_] eqn:Hleft.
      - assert (Hml : m = length (x :: bytes)) by (apply (f_equal length) in Hleft; rewrite length_drop in Hleft; simpl in Hleft |- *; simpl in Hm; lia).
        replace (Nat.min (length (x :: bytes)) (Z.to_nat limit)) with m by lia. by destruct (delivered_reads (limit - Z.of_nat m) rest).
      - assert (Hlen : length (x :: bytes) = (m + length (z :: left_))%nat) by (rewrite <- Hleft, length_drop; lia).
        cbn [delivered_reads]. destruct (Z.eqb_spec (limit - Z.of_nat m) 0) as [E|E].
        + replace (Nat.min (length (x :: bytes)) (Z.to_nat limit)) with m by lia. rewrite E. by destruct rest.
        + set (k := Nat.min (length (z :: left_)) (Z.to_nat (limit - Z.of_nat m))).
          replace (Nat.min (length (x :: bytes)) (Z.to_nat limit)) with (m + k)%nat by lia.
          replace (limit - Z.of_nat (m + k)) with (limit - Z.of_nat m - Z.of_nat k) by lia.
          destruct (delivered_reads _ rest) as [more e]. simpl fst. simpl snd. rewrite app_assoc. f_equal. f_equal.
          rewrite <- Hleft, <- (take_drop m (x :: bytes)) at 1. rewrite take_app, length_take.
          rewrite take_ge by (rewrite length_take; lia). f_equal. f_equal. lia. }
    specialize (Hsplit _ eq_refl). cbn [delivered_reads]. rewrite Hsplit.
    destruct (delivered_reads (limit - Z.of_nat m) _) as [more e] eqn:Hd. simpl fst. simpl snd.
    rewrite !length_app, length_take. split_and!; [lia|done|done|lia|].
    destruct (drop m (x :: bytes)) eqn:Hleft; simpl; apply (f_equal length) in Hleft; rewrite length_drop in Hleft; simpl in *; lia.
  - destruct (limit =? 0) eqn:E; [lia|]. simpl. split_and!; (done || lia).
Qed.

(** ** One record *)
Definition framed_record (limit : Z) (r : Reader) (record acc : str) (out : captured RecordFrame * str * Reader) (path : str) : Prop :=
  let '(frame, record', r') := out in
  let '(bytes, failed) := delivered r in
  0 <= rd_limit r' ∧
  match position_lf bytes with
  | Some i =>
      let over := limit <? Z.of_nat (length (acc ++ take i bytes)) + 1 in
      frame = Ok {| terminated := true; over_limit := over |} ∧ record' ≠ [] ∧
      (over = false → record' = acc ++ take i bytes ++ [10]) ∧
      delivered r' = (drop (S i) bytes, failed) ∧ unread r' = unread r ∧ (weight r' < weight r)%nat
  | None =>
      rd_limit r' = unread r ∧ (record' = [] ↔ acc ++ bytes = []) ∧
      frame = match failed with
              | Some e => output_missing (lit "read opened events.jsonl at " ++ path ++ lit ": " ++ e)
              | None => Ok {| terminated := false; over_limit := limit <? Z.of_nat (length (acc ++ bytes)) |}
              end
  end.

Lemma consume_delivered n r : (n <= length (rd_buffer r))%nat →
  (delivered r).1 = take n (rd_buffer r) ++ (delivered (consume n r)).1 ∧ (delivered (consume n r)).2 = (delivered r).2 ∧
  unread (consume n r) = unread r ∧ (weight (consume n r) + n)%nat = weight r.
Proof.
  intros Hn. unfold delivered, unread, weight, consume. simpl. destruct (delivered_reads _ _) as [more e]. simpl.
  rewrite app_assoc, take_drop, length_drop. split_and!; (done || lia).
Qed.

(** Keeping a chunk of a record, as the loop does. *)
Definition keep_chunk (limit : Z) (record : str) (over : bool) (available : str) (taken : nat) : str * bool :=
  if over then (record, true)
  else if Z.max 0 (limit - Z.of_nat (length record)) <? Z.of_nat taken
  then (take 512 (record ++ take (Nat.min taken 512) available), true)
  else (record ++ take taken available, false).

Lemma keep_chunk_spec limit acc record over available taken :
  0 <= limit → over = (limit <? Z.of_nat (length acc)) → (record = [] ↔ acc = []) → (over = false → record = acc) →
  (0 < taken <= length available)%nat →
  let '(record', over') := keep_chunk limit record over available taken in
  over' = (limit <? Z.of_nat (length (acc ++ take taken available))) ∧ record' ≠ [] ∧ (over' = false → record' = acc ++ take taken available).
Proof.
  intros Hlim Hover Hempty Hsame Ht. unfold keep_chunk. rewrite length_app, length_take.
  destruct over; [split_and!; [symmetry in Hover; apply Z.ltb_lt in Hover; symmetry; apply Z.ltb_lt; lia| |done]|].
  { intros ->. assert (acc = []) as -> by tauto. symmetry in Hover. apply Z.ltb_lt in Hover. simpl in Hover. lia. }
  rewrite (Hsame eq_refl) in *. symmetry in Hover. apply Z.ltb_ge in Hover.
  destruct (Z.ltb_spec (Z.max 0 (limit - Z.of_nat (length acc))) (Z.of_nat taken)); split_and!; try done.
  - symmetry. apply Z.ltb_lt. lia.
  - intros E. apply (f_equal length) in E. rewrite length_take, length_app, length_take in E. simpl length in E.
    assert (0 < Nat.min taken 512)%nat by (apply Nat.min_glb_lt; [lia|apply Nat.ltb_lt; by vm_compute]). lia.
  - symmetry. apply Z.ltb_ge. lia.
  - intros E. apply (f_equal length) in E. rewrite length_app, length_take in E. simpl in E. lia.
Qed.

Lemma read_bounded_record_spec path limit fuel : ∀ r record over acc,
  (weight r < fuel)%nat → 0 <= rd_limit r → 0 <= limit →
  over = (limit <? Z.of_nat (length acc)) → (record = [] ↔ acc = []) → (over = false → record = acc) →
  framed_record limit r record acc (read_bounded_record fuel path limit r record over) path.
Proof.
  induction fuel as [|fuel IH]; intros r record over acc Hw Hr Hlim Hover Hempty Hsame; [lia|].
  cbn [read_bounded_record]. pose proof (fill_buf_spec r Hr) as Hfill. destruct (fill_buf r) as [[[|b available]|e] r1]; destruct Hfill as [Hr1 Hfill].
  - destruct Hfill as [Hd Hl]. unfold framed_record. rewrite Hd. simpl. rewrite app_nil_r. by rewrite <- Hover.
  - destruct Hfill as (Hbuf & Hd & Hu & Hw1). set (chunk := b :: available) in *.
    set (taken := match position_lf chunk with Some index => S index | None => length chunk end).
    assert (Htaken : (0 < taken <= length chunk)%nat).
    { subst taken. destruct (position_lf chunk) eqn:E; [apply position_lf_Some in E; lia|subst chunk; simpl; lia]. }
    pose proof (keep_chunk_spec limit acc record over chunk taken Hlim Hover Hempty Hsame Htaken) as Hkeep.
    fold (keep_chunk limit record over chunk taken). destruct (keep_chunk limit record over chunk taken) as [record1 over1].
    destruct Hkeep as (Hover1 & Hne1 & Hsame1). cbv zeta.
    destruct (consume_delivered taken r1) as (Hc1 & Hc2 & Hc3 & Hc4); [rewrite Hbuf; lia|]. rewrite Hbuf, Hd in Hc1. rewrite Hd in Hc2.
    destruct (position_lf chunk) as [index|] eqn:Hpos.
    + apply position_lf_Some in Hpos as Hat. destruct Hat as (Hat & _ & Hlt).
      assert (Htk : take taken chunk = take index chunk ++ [10]) by (subst taken; by apply take_S_r).
      rewrite (bool_decide_true (chunk !! (taken - 1)%nat = Some 10)) by (subst taken; by replace (S index - 1)%nat with index by lia).
      unfold framed_record. destruct (delivered r) as [bytes failed]. cbn [fst snd] in Hc1, Hc2.
      assert (Hposb : position_lf bytes = Some index) by (rewrite Hc1, position_lf_app; by rewrite Htk, position_lf_app, (proj1 (proj2 (position_lf_Some _ _ Hpos))); simpl; rewrite length_take, Nat.min_l by lia; rewrite Nat.add_0_r).
      rewrite Hposb. assert (Hti : take index bytes = take index chunk).
      { rewrite Hc1, Htk, <- app_assoc. apply take_app_length'. rewrite length_take. lia. }
      rewrite Hti. rewrite Htk, app_assoc in Hover1, Hsame1. rewrite length_app in Hover1. simpl in Hover1. rewrite Nat2Z.inj_add in Hover1.
      split; [done|]. split; [by rewrite Hover1|]. split; [done|]. split; [intros E; rewrite app_assoc; apply Hsame1; by rewrite Hover1|].
      split; [|split; [congruence|lia]]. rewrite (surjective_pairing (delivered _)), Hc2. f_equal.
      rewrite Hc1, drop_app_length'; [done|]. rewrite length_take. lia.
    + rewrite (bool_decide_false (chunk !! (taken - 1)%nat = Some 10)) by (by apply position_lf_None).
      specialize (IH (consume taken r1) record1 over1 (acc ++ chunk)). rewrite take_ge in Hover1, Hsame1 by (subst taken; lia).
      unfold framed_record in IH |- *. rewrite (take_ge chunk) in Hc1 by (subst taken; lia).
      assert (Hne : acc ++ chunk ≠ []) by (subst chunk; by destruct acc).
      destruct (read_bounded_record fuel path limit (consume taken r1) record1 over1) as [[frame record2] r2].
      rewrite (surjective_pairing (delivered (consume taken r1))), Hc2, Hc3 in IH.
      rewrite (surjective_pairing (delivered r)), Hc1, position_lf_app, Hpos.
      destruct IH as (Hr2 & IH); [lia|done|done|done|by split|done|]. split; [done|].
      destruct (position_lf (delivered (consume taken r1)).1) as [i|] eqn:Hi; cbn [fmap option_fmap option_map].
      * destruct IH as (? & ? & Hrec & Hdel & ? & ?). assert (Htk : take (length chunk + i) (chunk ++ (delivered (consume taken r1)).1) = chunk ++ take i (delivered (consume taken r1)).1).
        { rewrite take_app, take_ge by lia. f_equal. f_equal. lia. }
        rewrite Htk, app_assoc. split_and!; [done|done| | |congruence|lia].
        -- intros E. specialize (Hrec E). by rewrite <- !app_assoc in *.
        -- rewrite Hdel. f_equal. rewrite drop_app, (drop_ge chunk) by lia. cbn [app]. f_equal. lia.
      * rewrite app_assoc. destruct IH as (? & ? & ?). split_and!; (done || congruence).
  - destruct Hfill as [Hd Hl]. unfold framed_record. rewrite Hd. simpl. by rewrite app_nil_r.
Qed.

(** ** The whole read *)
Section Read.
Context `{BigIntOps} `{Vocabulary} `{Sha256Ops} `{Serde} `{Base64} `{QuoteOps} (SERVED_TURN_REFUSALS : list ServedTurnRefusal)
  (CAPTURED_STREAM_BINDINGS_JSON : str) (limits : RuntimeLimits).

Let planner := conversation_planner SERVED_TURN_REFUSALS.
Local Existing Instance planner.

Definition offer_to (contract : RuntimeContract) (o : Offer) : captured RuntimeContract :=
  match o with
  | OfferedRecord line n => offer_record SERVED_TURN_REFUSALS line n contract
  | OfferedGap cause => record_gap SERVED_TURN_REFUSALS cause contract
  end.

(** The lines that count into the digest. *)
Definition within_bound (line : str) : bool := Z.of_nat (length line) + 1 <=? MAX_EVENT_RECORD_BYTES.
Definition hash_lines (digest : Sha256) (lines : list str) : Sha256 :=
  fold_left sha_update (map (fun line => line ++ [10]) (List.filter within_bound lines)) digest.

Definition read_error (path error : str) : str := display_error (AgentOutputMissing (lit "read opened events.jsonl at " ++ path ++ lit ": " ++ error)).

Lemma strip_lf line : strip_suffix [10] (line ++ [10]) = Some line.
Proof.
  unfold strip_suffix. rewrite length_app. simpl length. replace (length line + 1 - 1)%nat with (length line) by lia.
  rewrite (proj2 (Nat.leb_le 1 (length line + 1))) by lia. rewrite drop_app_length, bool_decide_true by done. simpl. by rewrite take_app_length.
Qed.

#[local] Ltac found := match goal with |- ∃ (_ : Reader) (_ : Z), rd_limit _ = unread ?r ∧ _ => eexists _, _; split; [|cbn [mbind result_bind]; reflexivity]; done end.
Lemma replay_records_spec path bytes fuel : ∀ reader st,
  (weight reader < fuel)%nat → 0 <= rd_limit reader → 0 <= rp_line SERVED_TURN_REFUSALS st →
  rp_line SERVED_TURN_REFUSALS st + Z.of_nat (length (delivered reader).1) <= U64_MAX →
  let data := (delivered reader).1 in
  let failed := read_error path <$> (delivered reader).2 in
  let lines := (split_lines data).1 in
  ∃ reader' line', rd_limit reader' = unread reader ∧
  replay_records SERVED_TURN_REFUSALS fuel path bytes reader st =
    contract ← fold_result offer_to (rp_contract SERVED_TURN_REFUSALS st)
      (line_offers (rp_line SERVED_TURN_REFUSALS st) lines
         ++ tail_offers (rp_line SERVED_TURN_REFUSALS st + Z.of_nat (length lines)) (split_lines data).2 failed);
    Ok ({| rp_contract := contract; rp_digest := hash_lines (rp_digest SERVED_TURN_REFUSALS st) lines; rp_line := line' |}, reader',
        match failed with Some cause => ReadFailed (bytes - unread reader) cause | None => ReachedBoundary end).
Proof.
  induction fuel as [|fuel IH]; intros reader st Hw Hr Hline Hbound; [lia|]. cbv zeta. cbn [replay_records].
  pose proof (read_bounded_record_spec path MAX_EVENT_RECORD_BYTES (S (weight reader)) reader [] false []) as Hframe.
  unfold framed_record in Hframe. destruct (read_bounded_record _ path MAX_EVENT_RECORD_BYTES reader [] false) as [[frame record] reader'].
  destruct (delivered reader) as [data failed]. cbn [fst snd] in *. destruct Hframe as [Hr' Hframe]; [lia|done|by vm_compute|by vm_compute|done|done|].
  destruct (position_lf data) as [i|] eqn:Hpos.
  - destruct Hframe as (-> & Hne & Hrec & Hd & Hu & Hw'). rewrite bool_decide_false by done. cbn [andb terminated over_limit].
    apply position_lf_Some in Hpos as Hat. destruct Hat as (_ & _ & Hi).
    assert (Hadd : checked_add (rp_line SERVED_TURN_REFUSALS st) 1 = Some (rp_line SERVED_TURN_REFUSALS st + 1)).
    { unfold checked_add. rewrite (proj2 (Z.leb_le _ _)); [done|lia]. }
    rewrite Hadd. cbn [ok_or mbind result_bind]. rewrite (split_lines_Some _ _ Hpos). cbn [fst snd line_offers length app fold_result].
    assert (Hnext : ∀ c digest, ∃ reader'' line', rd_limit reader'' = unread reader ∧
      replay_records SERVED_TURN_REFUSALS fuel path bytes reader' {| rp_contract := c; rp_digest := digest; rp_line := rp_line SERVED_TURN_REFUSALS st + 1 |} =
        contract ← fold_result offer_to c (line_offers (rp_line SERVED_TURN_REFUSALS st + 1) (split_lines (drop (S i) data)).1
           ++ tail_offers (rp_line SERVED_TURN_REFUSALS st + Z.of_nat (S (length (split_lines (drop (S i) data)).1))) (split_lines (drop (S i) data)).2 (read_error path <$> failed));
        Ok ({| rp_contract := contract; rp_digest := hash_lines digest (split_lines (drop (S i) data)).1; rp_line := line' |}, reader'',
          match read_error path <$> failed with Some cause => ReadFailed (bytes - unread reader) cause | None => ReachedBoundary end)).
    { intros c digest. specialize (IH reader' {| rp_contract := c; rp_digest := digest; rp_line := rp_line SERVED_TURN_REFUSALS st + 1 |}).
      rewrite Hd, Hu in IH. cbn [fst snd rp_line rp_contract rp_digest] in IH. rewrite length_drop in IH.
      destruct IH as (reader'' & line' & Hl & Heq); [lia|done|lia|lia|]. exists reader'', line'. split; [done|]. rewrite Heq.
      by replace (rp_line SERVED_TURN_REFUSALS st + 1 + Z.of_nat (length (split_lines (drop (S i) data)).1))
        with (rp_line SERVED_TURN_REFUSALS st + Z.of_nat (S (length (split_lines (drop (S i) data)).1))) by lia. }
    unfold line_offer at 1. simpl app in Hrec. unfold hash_lines. cbn [List.filter]. unfold within_bound at 1.
    destruct (Z.ltb_spec MAX_EVENT_RECORD_BYTES (Z.of_nat (length (take i data)) + 1)) as [Hover|Hfit].
    + rewrite (proj2 (Z.leb_gt _ _)) by lia. cbn [offer_to]. destruct (record_gap _ _ _) as [c|e]; cbn [mbind result_bind]; [apply Hnext|].
      by exists {| rd_buffer := []; rd_limit := unread reader; rd_reads := [] |}, 0.
    + rewrite (proj2 (Z.leb_le _ _)) by lia. cbn [negb]. rewrite (Hrec eq_refl), strip_lf. cbn [expect mbind result_bind map fold_left].
      destruct (forallb is_ascii_whitespace (take i data)); cbn [offer_to];
        [destruct (record_gap _ _ _) as [c|e]|destruct (offer_record _ _ _ _) as [c|e]]; cbn [mbind result_bind];
        try apply Hnext; by exists {| rd_buffer := []; rd_limit := unread reader; rd_reads := [] |}, 0.
  - destruct Hframe as (Hl & Hempty & ->). rewrite (split_lines_None _ Hpos). cbn [fst snd line_offers length app]. rewrite Z.add_0_r.
    simpl app in Hempty. unfold output_missing. destruct failed as [e|]; cbn [fmap option_fmap option_map].
    + fold (read_error path e). rewrite Hl. destruct record as [|x record].
      * assert (data = []) as -> by (by apply Hempty). found.
      * destruct data as [|y data]; [discriminate (proj2 Hempty eq_refl)|]. cbn [tail_offers fold_result offer_to].
        destruct (record_gap _ _ _); [found | by exists reader', 0].
    + cbn [terminated over_limit negb]. rewrite andb_true_r. simpl app. destruct data as [|y data].
      * rewrite (proj2 Hempty eq_refl). destruct st. found.
      * rewrite bool_decide_false by (by intros ?%Hempty). cbn [tail_offers fold_result offer_to].
        unfold checked_add. rewrite (proj2 (Z.leb_le _ _)) by (simpl length in Hbound; lia). cbn [ok_or mbind result_bind].
        destruct (MAX_EVENT_RECORD_BYTES <? _); cbn [negb]; (destruct (record_gap _ _ _); [found | by exists reader', 0]).
Qed.

(** The snapshot that the whole prefix determines. *)
Definition capture_reference (id : nat) (path : str) (p : EventPrefix) (operator : str) : captured EventSnapshot :=
  let '(data, failed) := delivered (new_reader (ep_bytes p) (ep_file p)) in
  let '(lines, tail) := split_lines data in
  let failed := read_error path <$> failed in
  contract ← pinned_contract SERVED_TURN_REFUSALS CAPTURED_STREAM_BINDINGS_JSON limits id operator;
  contract ← fold_result offer_to contract (line_offers 0 lines ++ tail_offers (Z.of_nat (length lines)) tail failed);
  result ← protocol_result SERVED_TURN_REFUSALS contract;
  let completion :=
    match failed with
    | Some cause => ReadFailed (Z.of_nat (length data)) cause
    | None => if Z.of_nat (length data) =? ep_bytes p then ReachedBoundary else SourceShortened (Z.of_nat (length data)) (ep_bytes p)
    end in
  Ok {| es_observed := output_progress p (snapshot_observations (snapshot contract));
        es_replay_completion := completion; es_certified := with_replay result (replay_cause completion);
        es_wire_sha256 := hex_digest (hash_lines sha_new lines) |}.

Lemma unread_new bytes reads : unread (new_reader bytes reads) = bytes - Z.of_nat (length (delivered (new_reader bytes reads)).1).
Proof. unfold unread, delivered, new_reader. simpl. by destruct (delivered_reads bytes reads). Qed.

Lemma read_opened_spec id path p operator :
  is_u64 (ep_bytes p) → Z.of_nat (length (delivered (new_reader (ep_bytes p) (ep_file p))).1) <= ep_bytes p →
  read_opened_event_snapshot SERVED_TURN_REFUSALS CAPTURED_STREAM_BINDINGS_JSON limits id path p operator = capture_reference id path p operator.
Proof.
  intros Hu Hlen. unfold read_opened_event_snapshot, capture_reference.
  destruct (pinned_contract _ _ _ id operator) as [c0|e]; cbn [mbind result_bind].
  2: { by destruct (delivered _) as [data failed], (split_lines data). }
  pose proof (replay_records_spec path (ep_bytes p) (S (weight (new_reader (ep_bytes p) (ep_file p)))) (new_reader (ep_bytes p) (ep_file p))
    {| rp_contract := c0; rp_digest := sha_new; rp_line := 0 |}) as Hspec. cbv zeta in Hspec. rewrite unread_new in Hspec.
  unfold is_u64 in Hu. cbn [rp_line rp_contract rp_digest rd_limit new_reader] in Hspec.
  destruct Hspec as (reader' & line' & Hl & ->); [lia..|].
  destruct (delivered _) as [data failed]. cbn [fst snd] in *. destruct (split_lines data) as [lines tail]. cbn [fst snd] in *. rewrite Z.add_0_l.
  destruct (fold_result offer_to c0 _) as [c|e]; [|done]. cbn [mbind result_bind rp_contract rp_digest].
  destruct (protocol_result _ c) as [result|e]; [|done]. cbn [mbind result_bind]. rewrite Hl. destruct failed as [e|]; cbn [fmap option_fmap option_map].
  - by replace (ep_bytes p - (ep_bytes p - Z.of_nat (length data))) with (Z.of_nat (length data)) by lia.
  - destruct (Z.eqb_spec (Z.of_nat (length data)) (ep_bytes p)), (Z.eqb_spec (ep_bytes p - Z.of_nat (length data)) 0); try lia; cbn [negb]; [done|].
    by replace (ep_bytes p - (ep_bytes p - Z.of_nat (length data))) with (Z.of_nat (length data)) by lia.
Qed.

Lemma delivered_le limit reads : 0 <= limit → Z.of_nat (length (delivered_reads limit reads).1) <= limit.
Proof.
  revert limit. induction reads as [|[bytes|e] reads IH]; intros limit Hl; cbn [delivered_reads]; destruct (Z.eqb_spec limit 0); simpl; try lia.
  destruct bytes as [|x bytes]; [simpl; lia|]. set (m := Nat.min _ _). specialize (IH (limit - Z.of_nat m)).
  destruct (delivered_reads _ reads) as [more e]. simpl fst in *. rewrite length_app, length_take. assert (Z.of_nat m <= limit) by lia. specialize (IH ltac:(lia)). lia.
Qed.
Lemma delivered_new_le p : 0 <= ep_bytes p → Z.of_nat (length (delivered (new_reader (ep_bytes p) (ep_file p))).1) <= ep_bytes p.
Proof.
  intros Hp. pose proof (delivered_le (ep_bytes p) (ep_file p) Hp) as H'. unfold delivered, new_reader. cbn [rd_limit rd_reads rd_buffer].
  by destruct (delivered_reads _ _).
Qed.

(** Reads that return bytes until the limit is reached give that many bytes,
    however they are cut. *)
Lemma delivered_chunks chunks limit : Forall (fun c => c ≠ []) chunks → 0 <= limit <= Z.of_nat (length (concat chunks)) →
  delivered_reads limit (map ReadBytes chunks) = (take (Z.to_nat limit) (concat chunks), None).
Proof.
  intros Hne. revert limit. induction Hne as [|chunk chunks Hc _ IH]; intros limit Hl.
  - simpl in Hl. replace limit with 0 by lia. done.
  - cbn [map delivered_reads]. destruct (Z.eqb_spec limit 0) as [->|]; [done|]. destruct chunk as [|x chunk]; [done|].
    set (m := Nat.min _ _). cbn [concat] in *. rewrite length_app in Hl. rewrite IH by lia. rewrite take_app. f_equal. f_equal; [|f_equal; lia].
    destruct (decide (Z.to_nat limit <= length (x :: chunk))%nat); [f_equal; lia|rewrite !take_ge by lia; done].
Qed.

(** ** From the offers to the runtime *)
Lemma offers_reach id b operator offers : ∀ before c c',
  reaches id b limits operator before c → pending c = None → fold_result offer_to c offers = Ok c' →
  reaches id b limits operator (before ++ offers) c' ∧ pending c' = None.
Proof.
  induction offers as [|o offers IH]; intros before c c' Hr Hp Hfold; [injection Hfold as <-; by rewrite app_nil_r|].
  cbn [fold_result] in Hfold. apply bind_ok_inv in Hfold as (c1 & Ho & Hfold). cut (reaches id b limits operator (before ++ [o]) c1 ∧ pending c1 = None).
  { intros [Hr1 Hp1]. destruct (IH _ _ _ Hr1 Hp1 Hfold) as [Hr' Hp']. by rewrite <- app_assoc in Hr'. }
  destruct o as [line n|cause]; simpl in Ho.
  - unfold offer_record in Ho. unfold planner in *. destruct (prepare_utf8 line n c) as [admission c2] eqn:Hprep.
    assert (Hret : returns admission) by (destruct admission as [|[]]; first [exact I|discriminate Ho]).
    pose proof (reaches_prepare id b limits operator before c line n _ _ Hr Hprep Hret) as Hr2. rewrite Hp in Hr2.
    assert (Hcount : first_refusal c = None → records_seen c = prefix c ∧ 0 <= prefix c).
    { intros Hf. destruct (cert_open _ _ _ _ _ (reaches_certifies _ _ _ _ _ _ Hr) Hf) as [Hlen Hm]. rewrite Hp in Hm. destruct Hm as [_ Hm]. lia. }
    destruct admission as [token|[e| |]]; try discriminate Ho.
    + unfold as_service in Ho. destruct (commit token c2) as [[result token'] c3] eqn:Hcommit. apply bind_ok_inv in Ho as ([] & Hres & [= <-]). apply map_refused_ok in Hres as ->.
      split; [by eapply reaches_commit; [exact Hr2|exact Hcommit|]|]. unfold commit in Hcommit. destruct (check_token c2 token); [|done].
      destruct (first_refusal c2); [done|]. destruct (commit_plan _ _); [|done]. by injection Hcommit as _ <-.
    + injection Ho as <-. split; [done|]. destruct (prepare_utf8_spec _ _ _ _ _ Hp Hcount Hprep Hret) as [(_ & _ & ?)|(d & _ & (t & ?) & _)]; done.
  - unfold record_gap in Ho. unfold planner in *. destruct (observe_gap cause c) as [result c2] eqn:Hgap. apply bind_ok_inv in Ho as (? & _ & [= <-]).
    split; [by eapply reaches_gap|]. destruct (observe_gap_refused cause c) as [_ Hpe]. rewrite Hgap in Hpe. simpl in Hpe. congruence.
Qed.

Lemma certify_records b l operator offers c : certify b l operator offers = Ok c → Forall (fun o => ∃ line n, o = OfferedRecord line n) offers.
Proof.
  unfold certify. generalize (nothing_certified b l operator). induction offers as [|o offers IH]; intros c0 Hc; [done|]. cbn [fold_result] in Hc.
  apply bind_ok_inv in Hc as (c1 & Ho & Hc). constructor; [|by eapply IH]. destruct o as [line n|cause]; [by eexists _, _|done].
Qed.

(** The offers of lines that are all within the bound and none of them blank. *)
Lemma line_offers_records lines : ∀ n, Forall (fun o => ∃ line k, o = OfferedRecord line k) (line_offers n lines) →
  Forall (fun line => within_bound line = true ∧ forallb is_ascii_whitespace line = false) lines ∧
  line_offers n lines = imap (fun i line => OfferedRecord line (n + Z.of_nat i + 1)) lines.
Proof.
  induction lines as [|line lines IH]; intros n Hall; [done|]. cbn [line_offers] in *. apply Forall_cons in Hall as [Hline Hall].
  destruct (IH (n + 1) Hall) as [Hf Heq]. unfold line_offer in *. unfold within_bound.
  destruct (Z.ltb_spec MAX_EVENT_RECORD_BYTES (Z.of_nat (length line) + 1)); [by destruct Hline as (? & ? & ?)|].
  destruct (forallb is_ascii_whitespace line) eqn:Hb; [by destruct Hline as (? & ? & ?)|]. split.
  - constructor; [split; [apply Z.leb_le; lia|done]|done].
  - rewrite Heq. cbn [imap]. f_equal; [f_equal; lia|]. apply imap_ext. intros i x _. simpl. f_equal. lia.
Qed.

Lemma hash_lines_whole `{!Sha256Laws} lines digest : Forall (fun line => within_bound line = true ∧ forallb is_ascii_whitespace line = false) lines →
  hash_lines digest lines = sha_update digest (concat (map (fun line => line ++ [10]) lines)).
Proof.
  intros Hf. revert digest. unfold hash_lines. induction Hf as [|line lines [Hw _] _ IH]; intros digest; [simpl; by rewrite sha_update_nil|].
  cbn [List.filter]. rewrite Hw. cbn [map fold_left concat]. by rewrite IH, sha_update_app.
Qed.

(** ** Properties *)

Lemma pinned_contract_ok id operator c :
  pinned_contract SERVED_TURN_REFUSALS CAPTURED_STREAM_BINDINGS_JSON limits id operator = Ok c →
  ∃ b, pinned_bindings CAPTURED_STREAM_BINDINGS_JSON = Ok b ∧ c = new_runtime id b limits operator.
Proof. unfold pinned_contract. intros (b & Hb & [= <-])%bind_ok_inv. by exists b. Qed.

(** What a snapshot with a certificate was made of. *)
Lemma certified_reference `{!BigIntLaws} `{!VocabularyLaws} id path p operator snapshot result :
  0 <= limit_nodes (json_limits limits) → 0 <= limit_depth (json_limits limits) →
  capture_reference id path p operator = Ok snapshot → es_certified snapshot = Ok result →
  ∃ b lines c, pinned_bindings CAPTURED_STREAM_BINDINGS_JSON = Ok b ∧
    delivered (new_reader (ep_bytes p) (ep_file p)) = (concat (map (fun line => line ++ [10]) lines), None) ∧
    ep_bytes p = Z.of_nat (length (concat (map (fun line => line ++ [10]) lines))) ∧
    Forall (fun line => within_bound line = true ∧ forallb is_ascii_whitespace line = false) lines ∧
    es_wire_sha256 snapshot = hex_digest (hash_lines sha_new lines) ∧ es_replay_completion snapshot = ReachedBoundary ∧
    out_output_event_bytes (es_observed snapshot) = ep_bytes p ∧
    reaches id b limits operator (imap (fun i line => OfferedRecord line (Z.of_nat i + 1)) lines) c ∧
    finish SERVED_TURN_REFUSALS c = Ok result.
Proof.
  intros Hn Hdp. unfold capture_reference. pose proof (split_lines_join (delivered (new_reader (ep_bytes p) (ep_file p))).1) as Hjoin.
  destruct (delivered _) as [data failed]. simpl fst in Hjoin. destruct (split_lines data) as [lines tail]. simpl in Hjoin.
  intros (c0 & (b & Hb & ->)%pinned_contract_ok & (c & Hc & (answer & Hanswer & [= <-])%bind_ok_inv)%bind_ok_inv)%bind_ok_inv Hcert.
  simpl in Hcert |- *. destruct (replay_cause _) as [cause|] eqn:Hcause; [by destruct answer|]. unfold with_replay in Hcert.
  assert (answer = Ok result) as -> by (by destruct answer). clear Hcert.
  destruct failed as [e|]; [done|]. simpl in Hc, Hcause. destruct (Z.eqb_spec (Z.of_nat (length data)) (ep_bytes p)) as [Hlen|]; [|done].
  destruct (offers_reach id b operator _ [] _ _ (reaches_new _ _ _ _) eq_refl Hc) as [Hr Hp]. simpl in Hr.
  assert (Hfin : finish SERVED_TURN_REFUSALS c = Ok result).
  { unfold protocol_result in Hanswer. destruct (finish _ c) as [found|[]]; try discriminate Hanswer. by injection Hanswer as ->. }
  destruct (finish_certified _ _ _ _ _ _ _ _ Hn Hdp Hr Hfin) as (? & ? & ? & ? & ? & ? & Hw).
  pose proof (certify_records _ _ _ _ _ (fw_certified _ _ _ _ _ _ _ _ _ _ _ _ _ Hw)) as Hall. apply Forall_app in Hall as [Hall Htail].
  destruct (line_offers_records _ _ Hall) as [Hf Heq]. assert (tail = []) as ->.
  { destruct tail; [done|]. simpl in Htail. apply Forall_cons in Htail as [(? & ? & ?) _]. done. }
  rewrite app_nil_r in Hjoin. subst data. exists b, lines, c. split_and!; try done.
  simpl in Hr. rewrite app_nil_r, Heq in Hr. done.
Qed.

(** C28: the certifying read frames what the descriptor gives.  Whatever bytes
    and errors the reads return, and however they cut the stream, the snapshot is
    the one that the whole prefix determines: its lines, each offered once with
    its number, in order; a gap for a line that is over the bound or blank, and
    for a rest without LF; the digest of the lines; and how the reading ended. *)
Theorem capture_framing (id : nat) (path : str) (p : EventPrefix) (operator : str) :
  is_u64 (ep_bytes p) →
  read_opened_event_snapshot SERVED_TURN_REFUSALS CAPTURED_STREAM_BINDINGS_JSON limits id path p operator = capture_reference id path p operator ∧
  (∀ chunks, ep_file p = map ReadBytes chunks → Forall (fun c => c ≠ []) chunks → ep_bytes p <= Z.of_nat (length (concat chunks)) →
     delivered (new_reader (ep_bytes p) (ep_file p)) = (take (Z.to_nat (ep_bytes p)) (concat chunks), None)).
Proof.
  intros Hu. split; [apply read_opened_spec; [done|apply delivered_new_le; apply Hu]|].
  intros chunks Hf Hne Hl. unfold delivered, new_reader. cbn [rd_limit rd_reads rd_buffer]. rewrite Hf, delivered_chunks; [done|done|].
  split; [apply Hu|done].
Qed.

(** C13: a certificate covers the whole capture.  When the certifying read gives
    a result, the descriptor gave every byte of its prefix; the bytes are whole
    lines, none over the bound and none blank; the runtime's reference pass
    admits every line, the last of them the terminal record that the result
    reports; the digest is that of exactly these bytes; and the physical replay
    accepted a stream of that length with that digest. *)
Theorem certificate_covers_capture `{!BigIntLaws} `{!VocabularyLaws} `{!Sha256Laws} (verify : Z → str → service unit) (id : nat) (path : str) (opened : OpenOutcome) (operator : str)
    (snapshot : EventSnapshot) (result : AgentResult) :
  0 <= limit_nodes (json_limits limits) → 0 <= limit_depth (json_limits limits) →
  (∀ p, open_event_prefix path opened = Ok (Some p) → is_u64 (ep_bytes p)) →
  read_event_snapshot SERVED_TURN_REFUSALS CAPTURED_STREAM_BINDINGS_JSON limits verify id path opened operator = Ok (Some snapshot) →
  es_certified snapshot = Ok result →
  ∃ p b lines data c d t last,
    open_event_prefix path opened = Ok (Some p) ∧ pinned_bindings CAPTURED_STREAM_BINDINGS_JSON = Ok b ∧
    data = concat (map (fun line => line ++ [10]) lines) ∧
    delivered (new_reader (ep_bytes p) (ep_file p)) = (data, None) ∧ Z.of_nat (length data) = ep_bytes p ∧
    Forall (fun line => within_bound line = true ∧ forallb is_ascii_whitespace line = false) lines ∧
    es_wire_sha256 snapshot = sha256 data ∧ verify (Z.of_nat (length data)) (sha256 data) = Ok tt ∧
    certify b limits operator (imap (fun i line => OfferedRecord line (Z.of_nat i + 1)) lines) = Ok c ∧
    c_count c = Z.of_nat (length lines) ∧ List.last lines [] = last ∧
    decode last (json_limits limits) = Ok d ∧ terminal (root d) (Z.of_nat (length lines)) true = Ok t ∧
    reports (c_state c) (c_session c) t result.
Proof.
  intros Hn Hdp Hu Hread Hcert. unfold read_event_snapshot in Hread. apply bind_ok_inv in Hread as ([p|] & Hopen%map_err_ok & Hread); [|done].
  specialize (Hu p Hopen). rewrite (read_opened_spec id path p operator Hu (delivered_new_le p (proj1 Hu))) in Hread.
  apply bind_ok_inv in Hread as (first & Hfirst & [= Hsnap]).
  assert (Hkept : snapshot = first ∧ verify (out_output_event_bytes (es_observed first)) (es_wire_sha256 first) = Ok tt).
  { destruct (es_certified first) eqn:Hfc; [|subst; congruence]. destruct (verify _ _) as [[]|cause]; [done|]. by subst. }
  destruct Hkept as [-> Hverify].
  destruct (certified_reference _ _ _ _ _ _ Hn Hdp Hfirst Hcert) as (b & lines & c & Hb & Hd & Hlen & Hf & Hsha & _ & Hbytes & Hr & Hfin).
  destruct (finish_certified _ _ _ _ _ _ _ _ Hn Hdp Hr Hfin) as (before & bytes & line & d & main & t & Hw).
  assert (Hdigest : es_wire_sha256 first = sha256 (concat (map (fun line => line ++ [10]) lines))).
  { rewrite Hsha, hash_lines_whole by done. done. }
  destruct Hw as [Hoffers Hc Hcount Hdec _ _ Hterm Hrep _ _].
  destruct lines as [|l0 lines _] using rev_ind; [by destruct before|]. rewrite imap_app in Hoffers. simpl in Hoffers.
  apply app_inj_tail in Hoffers as [_ [= <- <-]].
  exists p, b, (lines ++ [l0]), (concat (map (fun line => line ++ [10]) (lines ++ [l0]))). eexists _, d, t, l0.
  split_and!; [done|done|done|done|done|done|done| |exact Hc| |apply last_last|done| |exact Hrep].
  - by rewrite <- Hlen, <- Hbytes, <- Hdigest.
  - simpl. rewrite Hcount. by rewrite length_imap.
  - rewrite length_app. simpl. by replace (Z.of_nat (length lines + 1)) with (Z.of_nat (length lines + 0) + 1) by lia.
Qed.
End Read.

(** The physical replay settles.  With looks at least 20 milliseconds apart,
    the watch over the verifier ends by its deadline, and accepts the stream only
    when a look found that the verifier had succeeded. *)
Theorem verifier_settles (path reason : str) (bytes : Z) (looks : nat → Look) :
  0 <= bytes → (∀ n, 20 * Z.of_nat n <= look_elapsed_ms (looks n)) →
  let result := watch_verifier (S (Z.to_nat (verifier_deadline_ms bytes))) path reason (verifier_deadline_ms bytes) looks 0 in
  match result with
  | Ok _ => ∃ n, look_state (looks n) = ChildSucceeded ∧ ∀ m, (m < n)%nat → look_state (looks m) = ChildRunning
  | Err (Refused _) => True
  | Err _ => False
  end.
Proof.
  intros Hb Hlooks. cbv zeta. set (deadline := verifier_deadline_ms bytes).
  assert (Hwatch : ∀ fuel n, Z.of_nat fuel + Z.of_nat n = deadline + 1 → (∀ m, (m < n)%nat → look_state (looks m) = ChildRunning) →
    match watch_verifier fuel path reason deadline looks n with
    | Ok _ => ∃ n, look_state (looks n) = ChildSucceeded ∧ ∀ m, (m < n)%nat → look_state (looks m) = ChildRunning
    | Err (Refused _) => True
    | Err _ => False
    end ∨ (fuel = 0%nat)).
  { induction fuel as [|fuel IH]; intros n Hfuel Hrun; [by right|]. left. cbn [watch_verifier].
    destruct (look_state (looks n)) eqn:Hs; [by exists n|done| |done]. destruct (Z.ltb_spec (look_elapsed_ms (looks n)) deadline) as [Hlt|]; [|done].
    specialize (Hlooks n). destruct (IH (S n)) as [Hok| ->]; [lia| |exact Hok|lia].
    intros m Hm. destruct (decide (m = n)) as [->|]; [done|]. apply Hrun. lia. }
  assert (Hpos : 0 <= deadline) by (subst deadline; unfold verifier_deadline_ms, U64_MAX; pose proof (Z.div_pos bytes 1048576 Hb ltac:(lia)); lia).
  destruct (Hwatch (S (Z.to_nat deadline)) 0%nat) as [Hok|]; [lia|intros; lia|exact Hok|done].
Qed.

(** ** A small capture *)
Section Example.
Local Existing Instance example_serde.
Local Existing Instance session_contract.
Local Existing Instance plain_digest.
Local Existing Instance decimal_bigint.
Local Existing Instance plain_base64.
Local Existing Instance plain_quote.
Local Existing Instance session_vocabulary.
Local Existing Instance session_vocabulary_laws.

Definition example_bindings_json : str :=
  quoted "{'cwd':'/w','model':'m','permission_mode':'p','qwen_code_version':'v','stream_contract_sha256':'contract','tools':[],'agents':[],'slash_commands':[],'mcp_servers':[]}".
(** The session's two records, in three reads. *)
Definition example_output : str := session_start_record ++ [10] ++ session_result_record ++ [10].
Definition example_metadata : Metadata :=
  {| md_len := Z.of_nat (length example_output); md_is_file := true; md_mode := 33152; md_uid := 1000; md_gid := 1000; md_modified := Ok (Ok 1700000000) |}.
Definition example_opened : OpenOutcome :=
  Opened (Ok example_metadata) [ReadBytes (take 10 example_output); ReadBytes (slice 10 300 example_output); ReadBytes (drop 300 example_output)].
Abbreviation example_read :=
  (read_event_snapshot [] example_bindings_json session_limits (fun _ _ => Ok tt) 7 (lit "/out/events.jsonl") example_opened example_task).

Local Instance example_digest_laws : Sha256Laws.
Proof. split; intros; simpl; [apply app_nil_r|symmetry; apply app_assoc]. Qed.

Definition example_prefix : EventPrefix := {|
  ep_file := match example_opened with Opened _ reads => reads | _ => [] end; ep_bytes := Z.of_nat (length example_output); ep_last_event_at_unix := 1700000000;
|}.

Lemma capture_framing_witness :
  is_ok (read_opened_event_snapshot [] example_bindings_json session_limits 7 (lit "f") example_prefix example_task) = true ∧
  read_opened_event_snapshot [] example_bindings_json session_limits 7 (lit "f") example_prefix example_task
    = capture_reference [] example_bindings_json session_limits 7 (lit "f") example_prefix example_task.
Proof.
  split; [by vm_compute|]. apply (capture_framing [] example_bindings_json session_limits 7 (lit "f") example_prefix example_task).
  split; by vm_compute.
Defined.

Lemma example_certified : ∃ snapshot result, example_read = Ok (Some snapshot) ∧ es_certified snapshot = Ok result.
Proof.
  assert (E : match example_read with Ok (Some s) => is_ok (es_certified s) | _ => false end = true) by (by vm_compute).
  destruct example_read as [[s|]|]; try done. exists s. destruct (es_certified s) as [result|]; [|done]. by exists result.
Qed.
Lemma example_opened_prefix p : open_event_prefix (lit "/out/events.jsonl") example_opened = Ok (Some p) → is_u64 (ep_bytes p).
Proof. intros Hp. assert (E : ep_bytes p = md_len example_metadata) by (by injection Hp as <-). rewrite E. split; by vm_compute. Qed.

Lemma certificate_covers_capture_witness :
  ∃ snapshot result lines, example_read = Ok (Some snapshot) ∧ es_certified snapshot = Ok result ∧
    es_wire_sha256 snapshot = sha256 (concat (map (fun line => line ++ [10]) lines)).
Proof.
  destruct example_certified as (snapshot & result & Hread & Hcert). exists snapshot, result.
  destruct (certificate_covers_capture [] example_bindings_json session_limits (fun _ _ => Ok tt) 7 (lit "/out/events.jsonl")
    example_opened example_task snapshot result) as (p & b & lines & data & c & d & t & last & _ & _ & Hdata & _ & _ & _ & Hsha & _);
    [by vm_compute|by vm_compute|exact example_opened_prefix|exact Hread|exact Hcert|].
  exists lines. split; [exact Hread|]. split; [exact Hcert|]. by rewrite Hsha, Hdata.
Defined.
End Example.

Lemma verifier_settles_witness :
  let looks n := {| look_state := if (n <? 3)%nat then ChildRunning else ChildSucceeded; look_elapsed_ms := 20 * Z.of_nat n |} in
  ∃ n, look_state (looks n) = ChildSucceeded ∧ ∀ m, (m < n)%nat → look_state (looks m) = ChildRunning.
Proof.
  intros looks. pose proof (verifier_settles [] [] 100 looks ltac:(lia) ltac:(intros; simpl; lia)) as Hsettles. exact Hsettles.
Defined.
