(* ===== verification/Terminal.v ===== *)
(** * Terminal: the session resource and the evidence its ending holds (src/runtime.rs, session.rs)

    A session answers every request with one [SessionBody].  [validate_shape] is
    the contract between its fields, enforced before an ending is published and
    after every read; [shape_ok] is that contract as a statement.  Then the
    decisions an ending is made of: whether the process erred, what becomes of the
    raw tree, and which certified result it carries. *)
From S2P Require Import Prelude Number Utf8 BTree Json JsonTree Schema Stream Usage Generation Authorship Sse Serde Turns Requests Utilities Admission Compaction Conversation ServiceError Disk Deliverables Progress Capture.

(** ** The resource *)
Inductive SessionStatus := Running | Ended | Cancelled.
Global Instance SessionStatus_eq_dec : EqDecision SessionStatus.
Proof. solve_decision. Defined.

Record ReleaseImages := { ri_agent : str; ri_relay : str; ri_capture : str; ri_broker : str; ri_service : str }.
Record BackendIdentity := { be_image_id : str; be_launch_profile : str }.
Record ReleaseIdentity := { implementation_commit : str; images : ReleaseImages; backend : BackendIdentity }.
Global Instance ReleaseIdentity_eq_dec : EqDecision ReleaseIdentity.
Proof. assert (EqDecision ReleaseImages) by solve_decision. assert (EqDecision BackendIdentity) by solve_decision. solve_decision. Defined.

Record BundleStats := {
  bs_sha256 : str; bs_compressed_bytes : Z; bs_uncompressed_bytes : Z; bs_file_count : Z; bs_artifacts_file_count : Z;
}.

(** The certified result as the resource carries it. *)
Record CertifiedResult := {
  cr_agent_duration_ms : Z; cr_agent_api_duration_ms : Z; cr_agent_result_subtype : str; cr_num_turns : Z; cr_main_kv_scope : str;
  cr_usage : GenerationUsageSummary; cr_request_scopes : list RequestScope; cr_subagent_scopes : list AgentScope;
  cr_subagent_scope_count : Z; cr_subagent_error_count : Z; cr_missing_deliverables : option (list str);
}.

Record SessionTerminal := {
  tl_finished_at_unix : Z; tl_duration_wall_ms : Z; tl_container_exit_code : option Z; tl_agent_exit_code : option Z;
  tl_is_process_error : bool; tl_response : str; tl_agent_result : option CertifiedResult; tl_bundle : option BundleStats;
  tl_raw_session_tree_retained : bool; tl_teardown_diagnostics : list str;
}.

Record SessionBody := {
  sb_session_id : str; sb_status : SessionStatus; sb_started_at_unix : Z; sb_model : str; sb_context_window : Z; sb_max_session_turns : Z;
  sb_deliverables : Deliverables; sb_release : ReleaseIdentity; sb_archive_bytes : Z; sb_archive_sha256 : str; sb_prompt_preview : str;
  sb_progress_revision : Z; sb_progress_at_unix_ms : Z; sb_progress_phase : ProgressPhase; sb_progress_message : str;
  sb_staged_bytes : Z; sb_staged_entries : Z; sb_staged_regular_files : Z; sb_output_event_bytes : Z; sb_progress_events : list ProgressEvent;
  sb_num_turns : option Z; sb_last_event_at_unix : option Z; sb_observed_usage : option GenerationUsageSummary;
  sb_observed_subagent_scope_count : option Z; sb_observed_unaccounted_records : option Z; sb_terminal : option SessionTerminal;
}.

(** Whether every entry of [part] appears in [whole], in the same order: each is
    looked for past where the last was found. *)
Fixpoint skip_past (wanted : str) (remaining : list str) : option (list str) :=
  match remaining with
  | [] => None
  | declared :: remaining => if decide (declared = wanted) then Some remaining else skip_past wanted remaining
  end.
Fixpoint is_ordered_subset (part whole : list str) : bool :=
  match part with
  | [] => true
  | wanted :: part => match skip_past wanted whole with Some remaining => is_ordered_subset part remaining | None => false end
  end.

(** ** The evidence contract *)
Definition as_internal {A} (r : contract A) : service A :=
  match r with
  | Ok a => Ok a
  | Err (Refused e) => Err (Internal (error_text e))
  | Err (Panic site) => internal site
  | Err OutOfFuel => internal "unreachable: the usage checks have no loop"
  end.

Definition presence {A} (o : option A) : bool := bool_decide (is_Some o).

Section Shape.
Context `{Vocabulary}.

Definition check_presence (b : SessionBody) : service unit :=
  let running := bool_decide (sb_status b = Running) in
  let usage := presence (sb_observed_usage b) in
  if Bool.eqb running (presence (sb_terminal b)) then internal "status and terminal evidence disagree"
  else
    fold_result (fun _ present => if negb (Bool.eqb present usage) || (running && negb present)
                                  then internal "inconsistent output-observation presence" else Ok tt) tt
      [usage; presence (sb_observed_subagent_scope_count b); presence (sb_observed_unaccounted_records b)].

Definition check_observed (b : SessionBody) : service unit :=
  _ ← match sb_observed_usage b with Some usage => as_internal (summary_validate usage) | None => Ok tt end;
  if match sb_num_turns b with Some turns => SAFE_INTEGER <? turns | None => false end
     || (negb (presence (sb_observed_usage b)) && presence (sb_num_turns b))
  then internal "reported turns lack a readable terminal observation; inspect the captured root result"
  else Ok tt.

Definition check_exit (_ : unit) (code : option Z) : service unit :=
  match code with
  | Some code => if (0 <=? code) && (code <=? 255) then Ok tt else Err (Internal (lit "invalid process exit status " ++ show_Z code))
  | None => Ok tt
  end.

(** One scope of the certified result: its owner is new, and its requests are
    added up. *)
Definition scope_step (st : list str * GenerationUsageSummary) (scope : RequestScope) : service (list str * GenerationUsageSummary) :=
  if bool_decide (rq_kv_scope scope = []) || bool_decide (rq_kv_scope scope ∈ st.1) || (requests (rq_usage scope) =? 0)
  then internal "certified request scopes lack unique nonempty ownership; inspect the original request records"
  else total ← as_internal (summary_checked_add st.2 (rq_usage scope)); Ok (rq_kv_scope scope :: st.1, total).

(** [scope.is_error == Some(true)] *)
Definition errs (scope : AgentScope) : bool := match as_is_error scope with Some true => true | _ => false end.

Definition child_claims_bad (scope : AgentScope) : bool :=
  let reported := presence (as_reported_num_turns scope) in
  bool_decide (as_tool_use_id scope = []) || bool_decide (as_tool_name scope = [])
  || negb (Bool.eqb reported (presence (as_is_error scope))) || negb (Bool.eqb reported (presence (as_subtype scope)))
  || match as_reported_num_turns scope with Some turns => SAFE_INTEGER <? turns | None => false end
  || (negb reported && presence (as_error_message scope)) || bool_decide (as_error_message scope = Some [])
  || (errs scope && negb (presence (as_error_message scope)))
  || match as_subtype scope with
     | Some subtype_ =>
         if errs scope
         then bool_decide (subtype_ ∉ ERROR_SUBTYPES) || bool_decide (subtype_ = MISSING_DELIVERABLES_SUBTYPE)
         else bool_decide (subtype_ ≠ SUCCESS_SUBTYPE)
     | None => false
     end.
Definition child_step (children : list str) (scope : AgentScope) : service (list str) :=
  if bool_decide (as_tool_use_id scope ∈ children) || child_claims_bad scope
  then internal "certified subagent scope has inconsistent identity or terminal claims; inspect its issued call and terminal record"
  else Ok (as_tool_use_id scope :: children).

Definition error_count (scopes : list AgentScope) : Z := Z.of_nat (length (List.filter errs scopes)).

Definition missing_consistent (declared : list str) (result_ : CertifiedResult) : bool :=
  let names_missing := bool_decide (cr_agent_result_subtype result_ = MISSING_DELIVERABLES_SUBTYPE) in
  match cr_missing_deliverables result_ with
  | None => negb names_missing
  | Some missing => names_missing && negb (bool_decide (missing = [])) && is_ordered_subset missing declared
  end.

Definition check_result (b : SessionBody) (result_ : CertifiedResult) : service unit :=
  _ ← as_internal (summary_validate (cr_usage result_));
  '(_, total) ← fold_result scope_step ([], no_requests) (cr_request_scopes result_);
  if bool_decide (cr_main_kv_scope result_ = []) || bool_decide (total ≠ cr_usage result_) || negb (unfinalized_requests (cr_usage result_) =? 0)
     || match last (sb_progress_events b) with Some event => requests (cr_usage result_) <? physical_requests (counters event) | None => false end
     || bool_decide (sb_observed_unaccounted_records b ≠ Some 0) || bool_decide (sb_observed_usage b ≠ Some (cr_usage result_))
     || bool_decide (sb_num_turns b ≠ Some (cr_num_turns result_))
     || bool_decide (sb_observed_subagent_scope_count b ≠ Some (cr_subagent_scope_count result_))
  then internal "certified agent result disagrees with physical usage, reported turns or complete output observations; inspect the original capture and progress records"
  else
    _ ← fold_result child_step [] (cr_subagent_scopes result_);
    if negb (cr_subagent_scope_count result_ =? Z.of_nat (length (cr_subagent_scopes result_)))
       || negb (cr_subagent_error_count result_ =? error_count (cr_subagent_scopes result_))
       || (bool_decide (cr_agent_result_subtype result_ ≠ SUCCESS_SUBTYPE) && bool_decide (cr_agent_result_subtype result_ ∉ ERROR_SUBTYPES))
    then internal "terminal agent result has inconsistent certified evidence; inspect the original terminal and scope records"
    else if negb (missing_consistent (paths (sb_deliverables b)) result_)
    then internal "terminal agent result names missing deliverables that disagree with its subtype or with the deliverables the session was accepted with; inspect the captured root result and control/deliverables.json"
    else Ok tt.

Definition check_bundle (bundle : BundleStats) : service unit :=
  if negb (length (bs_sha256 bundle) =? 64)%nat || negb (forallb (fun b => is_ascii_digit b || ((97 <=? b) && (b <=? 102))) (bs_sha256 bundle))
     || (bs_compressed_bytes bundle =? 0) || (bs_file_count bundle <? bs_artifacts_file_count bundle)
  then internal "terminal bundle has invalid accepted metadata" else Ok tt.

Definition check_terminal (b : SessionBody) (t : SessionTerminal) : service unit :=
  if tl_finished_at_unix t <? sb_started_at_unix b then internal "terminal timestamp precedes acceptance"
  else
    _ ← fold_result check_exit tt [tl_container_exit_code t; tl_agent_exit_code t];
    _ ← match tl_agent_result t with Some result_ => check_result b result_ | None => Ok tt end;
    match tl_bundle t with Some bundle => check_bundle bundle | None => Ok tt end.

Definition validate_shape (b : SessionBody) : service unit :=
  _ ← check_presence b;
  _ ← check_observed b;
  match sb_terminal b with Some t => check_terminal b t | None => Ok tt end.
End Shape.

(** ** The contract as a statement *)
Section ShapeSpec.
Context `{Vocabulary}.

(** A subagent's claims: all of its terminal record's, or none. *)
Definition child_ok (scope : AgentScope) : Prop :=
  as_tool_use_id scope ≠ [] ∧ as_tool_name scope ≠ [] ∧
  match as_reported_num_turns scope, as_is_error scope, as_subtype scope with
  | None, None, None => as_error_message scope = None
  | Some turns, Some true, Some subtype_ =>
      turns <= SAFE_INTEGER ∧ subtype_ ∈ ERROR_SUBTYPES ∧ subtype_ ≠ MISSING_DELIVERABLES_SUBTYPE ∧ ∃ b text, as_error_message scope = Some (b :: text)
  | Some turns, Some false, Some subtype_ => turns <= SAFE_INTEGER ∧ subtype_ = SUCCESS_SUBTYPE ∧ as_error_message scope ≠ Some []
  | _, _, _ => False
  end.

(** The scopes' usage, added up in order. *)
Definition add_up (scopes : list RequestScope) : contract GenerationUsageSummary :=
  fold_result (fun total scope => summary_checked_add total (rq_usage scope)) no_requests scopes.

Record result_ok (b : SessionBody) (r : CertifiedResult) : Prop := {
  ro_usage : summary_validate (cr_usage r) = Ok tt;
  ro_owned : Forall (fun scope => rq_kv_scope scope ≠ [] ∧ requests (rq_usage scope) ≠ 0) (cr_request_scopes r);
  ro_owners : NoDup (map rq_kv_scope (cr_request_scopes r));
  ro_total : add_up (cr_request_scopes r) = Ok (cr_usage r);
  ro_main : cr_main_kv_scope r ≠ [];
  ro_settled : unfinalized_requests (cr_usage r) = 0;
  ro_progress : ∀ event, last (sb_progress_events b) = Some event → physical_requests (counters event) <= requests (cr_usage r);
  ro_accounted : sb_observed_unaccounted_records b = Some 0;
  ro_observed : sb_observed_usage b = Some (cr_usage r);
  ro_turns : sb_num_turns b = Some (cr_num_turns r);
  ro_scopes : sb_observed_subagent_scope_count b = Some (Z.of_nat (length (cr_subagent_scopes r)));
  ro_scope_count : cr_subagent_scope_count r = Z.of_nat (length (cr_subagent_scopes r));
  ro_children : Forall child_ok (cr_subagent_scopes r);
  ro_child_ids : NoDup (map as_tool_use_id (cr_subagent_scopes r));
  ro_errors : cr_subagent_error_count r = error_count (cr_subagent_scopes r);
  ro_subtype : cr_agent_result_subtype r = SUCCESS_SUBTYPE ∨ cr_agent_result_subtype r ∈ ERROR_SUBTYPES;
  ro_missing : match cr_missing_deliverables r with
               | None => cr_agent_result_subtype r ≠ MISSING_DELIVERABLES_SUBTYPE
               | Some missing => cr_agent_result_subtype r = MISSING_DELIVERABLES_SUBTYPE ∧ missing ≠ []
                                 ∧ missing `sublist_of` paths (sb_deliverables b)
               end;
}.

Record bundle_ok (bundle : BundleStats) : Prop := {
  bo_digest : length (bs_sha256 bundle) = 64%nat ∧ Forall (fun b => is_ascii_digit b = true ∨ 97 <= b <= 102) (bs_sha256 bundle);
  bo_bytes : bs_compressed_bytes bundle ≠ 0;
  bo_files : bs_artifacts_file_count bundle <= bs_file_count bundle;
}.

Record terminal_ok (b : SessionBody) (t : SessionTerminal) : Prop := {
  to_time : sb_started_at_unix b <= tl_finished_at_unix t;
  to_exit : ∀ code, tl_container_exit_code t = Some code ∨ tl_agent_exit_code t = Some code → 0 <= code <= 255;
  to_result : ∀ r, tl_agent_result t = Some r → result_ok b r;
  to_bundle : ∀ bundle, tl_bundle t = Some bundle → bundle_ok bundle;
}.

Record shape_ok (b : SessionBody) : Prop := {
  so_ending : sb_status b = Running ↔ sb_terminal b = None;
  so_scopes : is_Some (sb_observed_subagent_scope_count b) ↔ is_Some (sb_observed_usage b);
  so_accounted : is_Some (sb_observed_unaccounted_records b) ↔ is_Some (sb_observed_usage b);
  so_running : sb_status b = Running → is_Some (sb_observed_usage b);
  so_usage : ∀ usage, sb_observed_usage b = Some usage → summary_validate usage = Ok tt;
  so_turns : ∀ turns, sb_num_turns b = Some turns → turns <= SAFE_INTEGER ∧ is_Some (sb_observed_usage b);
  so_terminal : ∀ t, sb_terminal b = Some t → terminal_ok b t;
}.

(** *** The checks, one by one *)
Lemma as_internal_ok {A} (r : contract A) a : as_internal r = Ok a ↔ r = Ok a.
Proof. destruct r as [x|[e| |]]; cbn; split; by intros [= ?]; subst. Qed.

Lemma presence_spec {A} (o : option A) : presence o = true ↔ is_Some o.
Proof. apply bool_decide_eq_true. Qed.

Lemma ok_tt (r : service unit) u : r = Ok u ↔ r = Ok tt.
Proof. by destruct u. Qed.

Lemma guard_ok (c : bool) (e : string) (rest : service unit) :
  (if c then internal e else rest) = Ok tt ↔ c = false ∧ rest = Ok tt.
Proof. destruct c; cbn; split; [discriminate|by intros [[=] _]|auto|by intros [_ ?]]. Qed.

Lemma bind_tt {A} (m : service A) (k : A → service unit) : (m ≫= k) = Ok tt ↔ ∃ a, m = Ok a ∧ k a = Ok tt.
Proof. destruct m as [a|e]; cbn; split; [eauto|by intros (? & [= <-] & ?)|discriminate|by intros (? & [=] & _)]. Qed.

Lemma skip_past_spec wanted remaining rest :
  skip_past wanted remaining = Some rest → ∃ before, remaining = before ++ wanted :: rest ∧ wanted ∉ before.
Proof.
  induction remaining as [|d remaining IH]; cbn; [discriminate|]. case_decide as Hd.
  - intros [= <-]. exists []. subst. split; [done|apply not_elem_of_nil].
  - intros (before & -> & Hnot)%IH. exists (d :: before). split; [done|]. apply not_elem_of_cons. split; congruence.
Qed.

Lemma skip_past_sublist wanted part whole :
  (wanted :: part) `sublist_of` whole → ∃ rest, skip_past wanted whole = Some rest ∧ part `sublist_of` rest.
Proof.
  induction whole as [|d whole IH]; intros Hsub; [by apply sublist_nil_r in Hsub|]. cbn.
  case_decide as Hd; [subst; apply sublist_cons_r in Hsub as [Hsub|(l & [= <-] & Hsub)]; [|by eauto]|].
  - exists whole. split; [done|]. etrans; [apply sublist_cons; reflexivity|exact Hsub].
  - apply sublist_cons_r in Hsub as [Hsub|(l & [= -> <-] & _)]; [by apply IH|done].
Qed.

(** [is_ordered_subset] is the sublist order. *)
Lemma is_ordered_subset_sublist part whole : is_ordered_subset part whole = true ↔ part `sublist_of` whole.
Proof.
  revert whole. induction part as [|wanted part IH]; intros whole; cbn; [split; [intros _; apply sublist_nil_l|done]|]. split.
  - destruct (skip_past wanted whole) as [rest|] eqn:Hskip; [|discriminate]. intros Hsub%IH.
    apply skip_past_spec in Hskip as (before & -> & _). apply sublist_inserts_l. by apply sublist_skip.
  - intros (rest & -> & Hsub)%skip_past_sublist. by apply IH.
Qed.

Lemma check_exits_ok a b :
  fold_result check_exit tt [a; b] = Ok tt ↔ ∀ code, a = Some code ∨ b = Some code → 0 <= code <= 255.
Proof.
  assert (Hone : ∀ o : option Z, check_exit tt o = Ok tt ↔ ∀ code, o = Some code → 0 <= code <= 255).
  { intros [code|]; cbn; [|by split].
    destruct ((0 <=? code) && (code <=? 255)) eqn:Hrange; split; try done; intros Hcode; [intros ? [= <-]; to_prop; lia|].
    specialize (Hcode code eq_refl). apply andb_false_iff in Hrange as [?%Z.leb_gt|?%Z.leb_gt]; lia. }
  rewrite fold_result_unit, !Forall_cons, Forall_nil, !Hone. naive_solver.
Qed.

Lemma scope_step_ok seen total scope p :
  scope_step (seen, total) scope = Ok p ↔
  ∃ next, rq_kv_scope scope ≠ [] ∧ rq_kv_scope scope ∉ seen ∧ requests (rq_usage scope) ≠ 0
          ∧ summary_checked_add total (rq_usage scope) = Ok next ∧ p = (rq_kv_scope scope :: seen, next).
Proof.
  unfold scope_step. cbn [fst snd].
  case_bool_decide as Hempty; [split; [done|by intros (? & ? & _)]|]. case_bool_decide as Hseen; cbn [orb]; [split; [done|by intros (? & _ & ? & _)]|].
  destruct (Z.eqb_spec (requests (rq_usage scope)) 0) as [Hzero|Hzero]; [split; [done|by intros (? & _ & _ & ? & _)]|]. split.
  - intros Hstep. apply bind_ok_inv in Hstep as (next & Hadd%as_internal_ok & [= <-]). by exists next.
  - intros (next & _ & _ & _ & Hadd & ->). by rewrite (proj2 (as_internal_ok _ _) Hadd).
Qed.

Lemma scopes_ok seen total scopes final :
  (∃ owners, fold_result scope_step (seen, total) scopes = Ok (owners, final)) ↔
  Forall (fun scope => rq_kv_scope scope ≠ [] ∧ requests (rq_usage scope) ≠ 0) scopes
  ∧ NoDup (map rq_kv_scope scopes) ∧ (∀ scope, scope ∈ scopes → rq_kv_scope scope ∉ seen)
  ∧ fold_result (fun total scope => summary_checked_add total (rq_usage scope)) total scopes = Ok final.
Proof.
  revert seen total. induction scopes as [|scope scopes IH]; intros seen total.
  - cbn. split; [intros (? & [= <- <-]); split_and!; [constructor|constructor|set_solver|done]|intros (_ & _ & _ & [= <-]); eauto].
  - cbn [fold_result map]. rewrite Forall_cons, NoDup_cons. split.
    + intros (owners & Hfold). apply bind_ok_inv in Hfold as (p & (next & Hempty & Hseen & Hzero & Hadd & ->)%scope_step_ok & Hfold).
      destruct (proj1 (IH _ _) (ex_intro _ _ Hfold)) as (Howned & Hnodup & Hfresh & Hadds). split_and!; try done.
      * intros Hin. apply list_elem_of_fmap in Hin as (other & Heq & Hin). apply (Hfresh other Hin). rewrite <- Heq. by left.
      * intros other [->|Hin]%elem_of_cons; [done|]. specialize (Hfresh other Hin). by apply not_elem_of_cons in Hfresh as [_ ?].
      * by rewrite Hadd.
    + intros (((Hempty & Hzero) & Howned) & (Hnot & Hnodup) & Hfresh & Hfold). apply bind_ok_inv in Hfold as (next & Hadd & Hfold).
      assert (Hstep : scope_step (seen, total) scope = Ok (rq_kv_scope scope :: seen, next)).
      { apply scope_step_ok. exists next. split_and!; try done. apply Hfresh. by left. }
      rewrite Hstep. cbn [mbind result_bind]. apply IH. split_and!; try done.
      intros other Hin. apply not_elem_of_cons. split; [|apply Hfresh; by right].
      intros Heq. apply Hnot. rewrite <- Heq. by apply list_elem_of_fmap_2.
Qed.

Lemma child_claims_ok scope : child_claims_bad scope = false ↔ child_ok scope.
Proof.
  unfold child_claims_bad, child_ok, presence, errs. destruct scope as [id name turns err sub msg]. cbn [as_tool_use_id as_tool_name as_reported_num_turns as_is_error as_subtype as_error_message].
  rewrite !orb_false_iff, !bool_decide_eq_false.
  destruct turns as [turns|], err as [[|]|], sub as [sub|], msg as [[|b msg]|]; cbn; rewrite ?Z.ltb_ge, ?orb_false_iff, ?bool_decide_eq_false.
  all: split; [intros Hbad; decompose [and] Hbad; clear Hbad|intros Hok; decompose [and ex] Hok; clear Hok]; try done; split_and!; try done;
    repeat match goal with H : ¬ _ ∉ _ |- _ => apply dec_stable in H | H : ¬ _ ≠ _ |- _ => apply dec_stable in H end; try done; try congruence; eauto; by apply dec_stable.
Qed.

Lemma child_step_ok seen scope out :
  child_step seen scope = Ok out ↔ as_tool_use_id scope ∉ seen ∧ child_ok scope ∧ out = as_tool_use_id scope :: seen.
Proof.
  unfold child_step. rewrite <- child_claims_ok. case_bool_decide as Hseen; cbn [orb]; [split; [done|by intros [? _]]|].
  destruct (child_claims_bad scope); [split; [done|by intros (_ & ? & _)]|]. split; [by intros [= <-]|by intros (_ & _ & ->)].
Qed.

Lemma children_ok seen scopes :
  (∃ out, fold_result child_step seen scopes = Ok out) ↔
  Forall child_ok scopes ∧ NoDup (map as_tool_use_id scopes) ∧ ∀ scope, scope ∈ scopes → as_tool_use_id scope ∉ seen.
Proof.
  revert seen. induction scopes as [|scope scopes IH]; intros seen.
  - cbn. split; [intros _; split_and!; [constructor|constructor|set_solver]|eauto].
  - cbn [fold_result map]. rewrite Forall_cons, NoDup_cons. split.
    + intros (out & Hfold). apply bind_ok_inv in Hfold as (next & (Hseen & Hok & ->)%child_step_ok & Hfold).
      destruct (proj1 (IH _) (ex_intro _ _ Hfold)) as (Hall & Hnodup & Hfresh). split_and!; try done.
      * intros Hin. apply list_elem_of_fmap in Hin as (other & Heq & Hin). apply (Hfresh other Hin). rewrite <- Heq. by left.
      * intros other [->|Hin]%elem_of_cons; [done|]. specialize (Hfresh other Hin). by apply not_elem_of_cons in Hfresh as [_ ?].
    + intros ((Hok & Hall) & (Hnot & Hnodup) & Hfresh).
      rewrite (proj2 (child_step_ok seen scope (as_tool_use_id scope :: seen))); [|split_and!; [apply Hfresh; by left|done|done]].
      cbn [mbind result_bind]. apply IH. split_and!; try done. intros other Hin. apply not_elem_of_cons. split; [|apply Hfresh; by right].
      intros Heq. apply Hnot. rewrite <- Heq. by apply list_elem_of_fmap_2.
Qed.

Lemma missing_ok declared r :
  missing_consistent declared r = true ↔
  match cr_missing_deliverables r with
  | None => cr_agent_result_subtype r ≠ MISSING_DELIVERABLES_SUBTYPE
  | Some missing => cr_agent_result_subtype r = MISSING_DELIVERABLES_SUBTYPE ∧ missing ≠ [] ∧ missing `sublist_of` declared
  end.
Proof.
  unfold missing_consistent. destruct (cr_missing_deliverables r) as [missing|]; cbv zeta.
  - rewrite !andb_true_iff, negb_true_iff, bool_decide_eq_true, bool_decide_eq_false, is_ordered_subset_sublist. tauto.
  - by rewrite negb_true_iff, bool_decide_eq_false.
Qed.

Lemma check_result_ok b r : check_result b r = Ok tt ↔ result_ok b r.
Proof.
  unfold check_result. rewrite bind_tt. split.
  - intros ([] & Husage%as_internal_ok & Hrest). apply bind_tt in Hrest as ((owners & total) & Hfold & Hrest).
    destruct (proj1 (scopes_ok _ _ _ _) (ex_intro _ owners Hfold)) as (Howned & Hnodup & _ & Htotal).
    apply guard_ok in Hrest as (Hagree & Hrest). apply bind_tt in Hrest as (out & Hchildren & Hrest).
    destruct (proj1 (children_ok _ _) (ex_intro _ out Hchildren)) as (Hall & Hids & _).
    apply guard_ok in Hrest as (Hcounts & Hrest). apply guard_ok in Hrest as (Hmissing & _).
    apply negb_false_iff, missing_ok in Hmissing. to_prop.
    repeat match goal with H : ¬ _ ≠ _ |- _ => apply dec_stable in H end.
    constructor; try done; try congruence.
    + match goal with H : total = _ |- _ => by rewrite <- H end.
    + intros event Hlast. match goal with H : match last _ with _ => _ end = false |- _ => rewrite Hlast in H end. to_prop. lia.
    + match goal with H : bool_decide _ && bool_decide _ = false |- _ => apply andb_false_iff in H as [H|H]; to_prop end;
        [left|right]; by apply dec_stable.
  - intros []. exists tt. split; [by apply as_internal_ok|].
    destruct (proj2 (scopes_ok [] no_requests (cr_request_scopes r) (cr_usage r))) as [owners ->]; [split_and!; [done|done|set_solver|done]|].
    cbn [mbind result_bind]. apply guard_ok. split.
    + rewrite !orb_false_iff, !bool_decide_eq_false, negb_false_iff, Z.eqb_eq. split_and!; try done; try (by intros []); try congruence.
      destruct (last _) as [event|] eqn:Hlast; [|done]. by apply Z.ltb_ge, ro_progress0.
    + apply bind_tt. destruct (proj2 (children_ok [] (cr_subagent_scopes r))) as [out ->]; [split_and!; [done|done|set_solver]|].
      exists out. split; [done|]. apply guard_ok. split; [|apply guard_ok; split; [by apply negb_false_iff, missing_ok|done]].
      rewrite !orb_false_iff, !negb_false_iff, !Z.eqb_eq, andb_false_iff, !bool_decide_eq_false. split_and!; [done|done|].
      destruct ro_subtype0; [left|right]; auto.
Qed.

Lemma check_bundle_ok bundle : check_bundle bundle = Ok tt ↔ bundle_ok bundle.
Proof.
  unfold check_bundle. rewrite guard_ok, !orb_false_iff, !negb_false_iff, Nat.eqb_eq, Z.eqb_neq, Z.ltb_ge.
  assert (Hhex : forallb (fun b => is_ascii_digit b || ((97 <=? b) && (b <=? 102))) (bs_sha256 bundle) = true ↔
                 Forall (fun b => is_ascii_digit b = true ∨ 97 <= b <= 102) (bs_sha256 bundle)).
  { rewrite forallb_forall, Forall_forall. setoid_rewrite orb_true_iff. setoid_rewrite andb_true_iff. setoid_rewrite Z.leb_le.
    setoid_rewrite list_elem_of_In. done. }
  rewrite Hhex. split; [by intros (((? & ?) & ?) & ?)|]. intros [[? ?] ? ?]. split_and!; try done.
Qed.

Lemma check_terminal_ok b t : check_terminal b t = Ok tt ↔ terminal_ok b t.
Proof.
  unfold check_terminal. rewrite guard_ok, Z.ltb_ge, bind_tt. split.
  - intros (Htime & [] & Hexit & Hrest). apply bind_tt in Hrest as ([] & Hresult & Hbundle). constructor; [done|by apply check_exits_ok| |].
    + intros r Hr. rewrite Hr in Hresult. by apply check_result_ok.
    + intros bundle Hb. rewrite Hb in Hbundle. by apply check_bundle_ok.
  - intros []. split; [done|]. exists tt. split; [by apply check_exits_ok|]. apply bind_tt. exists tt. split.
    + destruct (tl_agent_result t) as [r|]; [|done]. by apply check_result_ok, to_result0.
    + destruct (tl_bundle t) as [bundle|]; [|done]. by apply check_bundle_ok, to_bundle0.
Qed.

Lemma presence_iff {A B} (a : option A) (b : option B) : Bool.eqb (presence a) (presence b) = true ↔ (is_Some a ↔ is_Some b).
Proof. rewrite eqb_true_iff, <- !presence_spec. destruct (presence a), (presence b); naive_solver. Qed.

(** C18: the contract between the fields of a session resource is enforced exactly: a
    body passes when it is running just as long as it has no ending, its
    observations are there together, and its ending holds nothing but what the
    rest bears out -- exit statuses in range, a certified result whose scopes are
    owned once each and add up to its usage and to what was observed, children
    whose claims are whole, missing deliverables that were declared in that order,
    and a bundle that can exist. *)
Theorem validate_shape_exact (b : SessionBody) : validate_shape b = Ok tt ↔ shape_ok b.
Proof.
  unfold validate_shape. rewrite bind_tt. split.
  - intros ([] & Hpresence & Hrest). apply bind_tt in Hrest as ([] & Hobserved & Hterminal).
    unfold check_presence in Hpresence. cbv zeta in Hpresence. apply guard_ok in Hpresence as (Hending & Hfields).
    apply fold_result_unit in Hfields. rewrite !Forall_cons in Hfields. destruct Hfields as (Husage & Hscopes & Hunaccounted & _).
    apply guard_ok in Husage as (Husage & _). apply guard_ok in Hscopes as (Hscopes & _). apply guard_ok in Hunaccounted as (Hunaccounted & _).
    apply orb_false_iff in Husage as (_ & Hrunning). apply orb_false_iff in Hscopes as (Hscopes & _). apply orb_false_iff in Hunaccounted as (Hunaccounted & _).
    apply negb_false_iff, presence_iff in Hscopes. apply negb_false_iff, presence_iff in Hunaccounted.
    unfold check_observed in Hobserved. apply bind_tt in Hobserved as ([] & Hvalid & Hturns). apply guard_ok in Hturns as (Hturns & _).
    apply orb_false_iff in Hturns as (Hsafe & Hread). constructor; try done.
    + destruct (sb_terminal b) as [t|], (decide (sb_status b = Running)) as [Hr|Hr]; unfold presence in Hending;
        [rewrite (bool_decide_true _ Hr) in Hending|rewrite (bool_decide_false _ Hr) in Hending|rewrite (bool_decide_true _ Hr) in Hending|rewrite (bool_decide_false _ Hr) in Hending]; by cbn in Hending.
    + intros Hr. rewrite (bool_decide_true _ Hr) in Hrunning. cbn in Hrunning. by apply negb_false_iff, presence_spec in Hrunning.
    + intros usage Hu. rewrite Hu in Hvalid. by apply as_internal_ok.
    + intros turns Ht. rewrite Ht in *. cbn in *. rewrite andb_true_r in Hread. apply negb_false_iff, presence_spec in Hread. to_prop. done.
    + intros t Ht. rewrite Ht in Hterminal. by apply check_terminal_ok.
  - intros []. exists tt. split; [|apply bind_tt; exists tt; split].
    + unfold check_presence. cbv zeta. apply guard_ok. split.
      { destruct (sb_terminal b) as [t|]; unfold presence; cbn.
        - rewrite bool_decide_false; [done|]. intros Hr. by apply so_ending0 in Hr.
        - rewrite bool_decide_true; [done|]. by apply so_ending0. }
      assert (Hrun : bool_decide (sb_status b = Running) && negb (presence (sb_observed_usage b)) = false).
      { case_bool_decide as Hr; [|done]. apply negb_false_iff, presence_spec. auto. }
      apply fold_result_unit. rewrite !Forall_cons. split_and!; [..|constructor]; apply guard_ok; (split; [|done]); apply orb_false_iff; split.
      * by rewrite eqb_reflx.
      * done.
      * by apply negb_false_iff, presence_iff.
      * case_bool_decide as Hr; [|done]. apply negb_false_iff, presence_spec. apply so_scopes0. auto.
      * by apply negb_false_iff, presence_iff.
      * case_bool_decide as Hr; [|done]. apply negb_false_iff, presence_spec. apply so_accounted0. auto.
    + unfold check_observed. apply bind_tt. exists tt. split.
      * destruct (sb_observed_usage b) as [usage|]; [|done]. by apply as_internal_ok, so_usage0.
      * apply guard_ok. split; [|done]. destruct (sb_num_turns b) as [turns|]; cbn; [|by rewrite andb_false_r].
        destruct (so_turns0 turns eq_refl) as (Hsafe & Hread). apply orb_false_iff. split; [by apply Z.ltb_ge|].
        rewrite andb_true_r. by apply negb_false_iff, presence_spec.
    + destruct (sb_terminal b) as [t|]; [|done]. by apply check_terminal_ok, so_terminal0.
Qed.
End ShapeSpec.
