(* ===== verification/Supervision.v ===== *)
(** * Supervision: one session, from its archive to its ending (src/session.rs)

    The supervisor of a session stages its archive, has its containers made behind
    a locked start gate, lets the agent go, waits for it, drains its capture, tears
    everything down, reads the stream once and bundles what is left; wherever that
    fails, it finalizes.  What it asks of the broker, the file system, the clock
    and its own cancellation is an [Action]; its programs are interactions that
    carry the diagnostics they collect.  The recoveries after a panic and after a
    restart are here too.  Values quoted in drift messages are left out. *)
From S2P Require Import Prelude Number Utf8 BTree Json JsonTree Schema Stream Usage Generation Authorship Sse Text Interaction Serde Turns Requests Utilities Admission Compaction Conversation ServiceError Disk Deliverables Validation Staging Progress Capture Terminal.

(** ** The world *)

(** Where the supervisor's files are: in the session's own tree, and the bundle in
    its record. *)
Inductive Place := SessionRoot | ControlDir | OutputDir | ControlFile (name : string) | OutputFile (name : string) | InputArchive | BundleFile.
Global Instance Place_eq_dec : EqDecision Place.
Proof. solve_decision. Defined.

Record FileInfo := { fi_file : bool; fi_dir : bool; fi_symlink : bool; fi_uid : Z; fi_gid : Z; fi_mode : Z; fi_len : Z }.
Inductive StatOutcome := StatFound (info : FileInfo) | StatMissing (error : str) | StatFailed (error : str).

(** Opening without following links, [fstat], and reading to the end. *)
Inductive OpenRead :=
| OpenMissing (error : str)
| OpenRefused (error : str)
| OpenUnstatable (error : str)
| OpenRead_ (info : FileInfo) (bytes : result str str).
(** Opening, [fstat], and a seek before the read. *)
Inductive OpenTail :=
| TailRefused (error : str)
| TailUnstatable (error : str)
| Tail (info : FileInfo) (seek : result str unit) (bytes : result str str).
(** Creating exclusively, writing and syncing. *)
Inductive CreateOutcome := Written | CreateFailed (error : str) | WriteFailed (error : str).

(** What the broker's operations answer to the service. *)
Record ReadyFile := { rf_model : str; rf_context_window : Z; rf_token_count : Z; rf_sandbox : str }.
Record CaptureComplete := { events_bytes : Z; stderr_bytes : Z }.
Record SessionStopOutcome := { escalated : bool; grace_seconds : Z }.
Record SessionQuiescence := {
  agent_present : bool; agent_running : bool; relay_present : bool; relay_running : bool; capture_present : bool; capture_running : bool;
  quiescent : bool;
}.

Inductive TopologyCreation := Created | CreationFailed (error : ServiceError) | CreationCancelled.

(** The arms of the selects: what is ready first. *)
Inductive AgentEvent := AgentExited (r : service Z) | CaptureExited (r : service CaptureComplete) | CancelSeen.

(** The extraction of the archive: it reports what it has copied to its observer,
    goes on with the observer's answer, and ends, or its task does. *)
Inductive Extraction :=
| ExtractionEnds (r : result str (service StagingProgress))
| ExtractionReports (observed : StagingProgress) (next : service unit → Extraction).

Inductive RecordRole := PromptRecord | TurnBudgetRecord | DeliverablesRecord.

Inductive Action :=
(** progress *)
| Publish (phase : ProgressPhase) (message : str) (counters : ProgressCounters)
| LatestProgress
| ProgressHistory
(** the session's own tree *)
| ExtractArchive
| RemoveArchive
| Stat (p : Place)
| OpenAndRead (p : Place)
| OpenAtTail (p : Place) (quote : Z)
| ReadBack (p : Place)
| WriteNew (p : Place) (contents : str)
| SyncDirectory (p : Place)
| PublishRecord (role : RecordRole)
| EnsureRecoveryDirs
| ReadEvents (operator : str)
| ReadObservations (operator : str)
| CreateBundle
(** the start gate and the launch decision *)
| LockStartGate
| UnlockStartGate
| DropStartGate
| LockLaunch
| UnlockLaunch
| CancelRequested
(** the broker *)
| CreateTopology
| AwaitReady
| AwaitAgent
| AwaitAgentOnly
| AgentExit
| StopSession
| RemoveSession
| DrainCapture
| AwaitCapture
| SessionLogs
| ProveQuiescent
(** the clock *)
| NowUnix
| ElapsedMs.

Definition reply (a : Action) : Type :=
  match a with
  | Publish _ _ _ => service unit
  | LatestProgress => service ProgressEvent
  | ProgressHistory => service (list ProgressEvent)
  | ExtractArchive => Extraction
  | RemoveArchive | SyncDirectory _ | UnlockStartGate => result str unit
  | Stat _ => StatOutcome
  | OpenAndRead _ => OpenRead
  | OpenAtTail _ _ => OpenTail
  | ReadBack _ => result str str
  | WriteNew _ _ => CreateOutcome
  | PublishRecord _ | EnsureRecoveryDirs | LockStartGate | RemoveSession => service unit
  | ReadEvents _ => service (option EventSnapshot)
  | ReadObservations _ => service OutputProgress
  | CreateBundle => service BundleStats
  | DropStartGate | LockLaunch | UnlockLaunch => unit
  | CancelRequested => bool
  | CreateTopology => TopologyCreation
  | AwaitReady => option (service ReadyFile)
  | AwaitAgent => AgentEvent
  | AwaitAgentOnly => option (service Z)
  | AgentExit => service Z
  | StopSession => service SessionStopOutcome
  | DrainCapture => bool * service CaptureComplete
  | AwaitCapture => service CaptureComplete
  | SessionLogs => service str
  | ProveQuiescent => service SessionQuiescence
  | NowUnix | ElapsedMs => Z
  end.

Abbreviation interaction := (Interaction.interaction reply).
Abbreviation Event := (Interaction.Event reply).
Abbreviation Environment := (Interaction.Environment reply).

(** ** The supervisor's programs *)

(** The diagnostics collected so far, and whether the process erred. *)
Record Notes := { diagnostics : list str; process_error : bool }.
Definition no_notes : Notes := {| diagnostics := []; process_error := false |}.

Definition supervisor (A : Type) : Type := Notes → interaction (A * Notes).
Global Instance supervisor_ret : MRet supervisor := fun A a n => Return (a, n).
Global Instance supervisor_bind : MBind supervisor := fun A B f m n => bind_interaction (m n) (fun an => f an.1 an.2).

Definition act (a : Action) : supervisor (reply a) := fun n => Perform a (fun r => Return (r, n)).
Definition note (d : str) : supervisor unit := fun n => Return (tt, {| diagnostics := diagnostics n ++ [d]; process_error := process_error n |}).
Definition erred : supervisor unit := fun n => Return (tt, {| diagnostics := diagnostics n; process_error := true |}).
Definition read_notes : supervisor Notes := fun n => Return (n, n).
Definition with_notes (n : Notes) : supervisor unit := fun _ => Return (tt, n).

(** [?] on the service's own results *)
Abbreviation fallible A := (supervisor (service A)).
Definition try {A B} (m : fallible A) (f : A → fallible B) : fallible B :=
  r ← m; match r with Ok a => f a | Err e => mret (Err e) end.

(** [if let Err(error) = m { diagnostics.push(...) }], and with the flag set *)
Definition noting {A} (context : str) (m : fallible A) : supervisor (option A) :=
  r ← m; match r with Ok a => mret (Some a) | Err e => _ ← note (context ++ lit ": " ++ display_error e); mret None end.
Definition failing {A} (context : str) (m : fallible A) : supervisor (option A) :=
  r ← noting context m; match r with Some a => mret (Some a) | None => _ ← erred; mret None end.

(** ** The session's files *)
Record Config := { vllm_model_name : str; max_model_len : Z; cfg_release : ReleaseIdentity; state_dir : str; records_dir : str }.

(** [SessionPaths::new], and the bundle's path *)
Definition place_path (cfg : Config) (session_id : str) (p : Place) : str :=
  let root := state_dir cfg ++ lit "/sessions/" ++ session_id in
  match p with
  | SessionRoot => root
  | ControlDir => root ++ lit "/control"
  | OutputDir => root ++ lit "/output"
  | ControlFile name => root ++ lit "/control/" ++ lit name
  | OutputFile name => root ++ lit "/output/" ++ lit name
  | InputArchive => root ++ lit "/input-archive.zip"
  | BundleFile => records_dir cfg ++ lit "/" ++ session_id ++ lit "/bundle.tar.zst"
  end.

(** The service's user owns it, with exactly these permissions. *)
Definition owned_as (mode : Z) (info : FileInfo) : bool := (fi_uid info =? 1000) && (fi_gid info =? 1000) && (Z.land (fi_mode info) 511 =? mode).
Definition exact_file (mode : Z) (info : FileInfo) : bool := fi_file info && negb (fi_symlink info) && owned_as mode info.

Definition CLIENT_STDERR_QUOTE_BYTES : Z := 16384.

Section Files.
Context (cfg : Config) (session_id : str).

Definition at_ (p : Place) : str := place_path cfg session_id p.
Definition internal_text {A} (text : str) : service A := Err (Internal text).
Definition missing_text {A} (text : str) : service A := Err (AgentOutputMissing text).

Definition write_private_file (p : Place) (bytes : str) : fallible unit :=
  r ← act (WriteNew p bytes);
  mret (match r with
        | Written => Ok tt
        | CreateFailed error => internal_text (lit "create " ++ at_ p ++ lit ": " ++ error)
        | WriteFailed error => internal_text (lit "write/sync " ++ at_ p ++ lit ": " ++ error)
        end).

Definition sync_directory (p : Place) (label : string) : fallible unit :=
  r ← act (SyncDirectory p);
  mret (map_err (fun error => Internal (lit label ++ lit " " ++ at_ p ++ lit ": " ++ error)) r).

Definition read_exact_owned_regular_file (p : Place) (mode : Z) (max_bytes : Z) (role : str) : fallible str :=
  r ← act (OpenAndRead p);
  mret (match r with
        | OpenMissing error | OpenRefused error => internal_text (lit "open existing " ++ role ++ lit " " ++ at_ p ++ lit " without following links: " ++ error)
        | OpenUnstatable error => internal_text (lit "fstat opened " ++ role ++ lit " " ++ at_ p ++ lit ": " ++ error)
        | OpenRead_ info bytes =>
            if negb (fi_file info) || negb (owned_as mode info) || (max_bytes <? fi_len info)
            then internal_text (lit "opened " ++ role ++ lit " " ++ at_ p ++ lit " has unsafe type/mode/owner/size")
            else
              bytes ← map_err (fun error => Internal (lit "read opened " ++ role ++ lit " " ++ at_ p ++ lit ": " ++ error)) bytes;
              if negb (Z.of_nat (length bytes) =? fi_len info)
              then internal_text (lit "opened " ++ role ++ lit " " ++ at_ p ++ lit " changed length while being read")
              else Ok bytes
        end).

(** An exact record is compared, an absent one written, anything else refused. *)
Definition ensure_record (p : Place) (mode max_bytes : Z) (role : string) (existing_role stat_role expected contradiction : str)
    (publish : RecordRole) : fallible unit :=
  r ← act (Stat p);
  match r with
  | StatFound info =>
      if exact_file mode info then
        try (read_exact_owned_regular_file p mode max_bytes existing_role) (fun existing =>
          mret (if decide (existing = expected) then Ok tt else internal_text contradiction))
      else mret (internal_text (at_ p ++ lit " is not the exact regular 1000:1000 " ++ lit role ++ lit " record"))
  | StatMissing _ => act (PublishRecord publish)
  | StatFailed error => mret (internal_text (lit "stat " ++ stat_role ++ lit " " ++ at_ p ++ lit ": " ++ error))
  end.

Definition ensure_prompt_record (prompt : str) : fallible unit :=
  let p := ControlFile "prompt.txt" in
  ensure_record p 420 (Z.of_nat MAX_PROMPT_BYTES) "mode-0644 prompt" (lit "panic-recovery prompt record") (lit "prompt record") prompt
    (lit "existing panic-recovery prompt record " ++ at_ p ++ lit " does not match the in-memory submitted prompt") PromptRecord.
Definition ensure_sealed_control_record (name role : string) (expected : str) (max_bytes : Z) (accepted : str) (publish : RecordRole) : fallible unit :=
  let p := ControlFile name in
  ensure_record p 292 max_bytes role (lit "panic-recovery " ++ lit role) (lit "panic-recovery " ++ lit role) expected
    (lit "existing panic-recovery " ++ lit role ++ lit " " ++ at_ p ++ lit " contradicts the accepted " ++ accepted) publish.
Definition ensure_turn_budget_record (max_session_turns : Z) : fallible unit :=
  ensure_sealed_control_record "turn-budget.json" "turn budget" (turn_budget_record max_session_turns) 64
    (lit "max_session_turns=" ++ show_Z max_session_turns) TurnBudgetRecord.
Definition ensure_deliverables_record (deliverables : Deliverables) : fallible unit :=
  ensure_sealed_control_record "deliverables.json" "deliverables" (record deliverables) MAX_RECORD_BYTES
    (lit "list of " ++ show_Z (Z.of_nat (length (paths deliverables))) ++ lit " deliverables") DeliverablesRecord.

Definition containing (p : Place) : Place := match p with ControlFile _ => ControlDir | OutputFile _ => OutputDir | _ => SessionRoot end.

Definition ensure_private_forensic_file (p : Place) (contents : str) : fallible unit :=
  r ← act (Stat p);
  match r with
  | StatFound info =>
      mret (if exact_file 384 info then Ok tt else internal_text (lit "forensic sidecar " ++ at_ p ++ lit " has unsafe type/mode/owner"))
  | StatMissing _ =>
      try (write_private_file p contents) (fun _ => sync_directory (containing p) "sync forensic-sidecar publication")
  | StatFailed error => mret (internal_text (lit "stat forensic sidecar " ++ at_ p ++ lit ": " ++ error))
  end.

Definition mark_raw_evidence_retained (cause : string) : fallible unit :=
  let marker := ControlFile "raw-evidence-retained.txt" in
  try (write_private_file marker (lit "RAW_SESSION_TREE_RETAINED" ++ [10] ++ lit "cause=" ++ lit cause ++ [10] ++ lit "path=" ++ at_ SessionRoot ++ [10])) (fun _ =>
    r ← act (SyncDirectory ControlDir);
    mret (map_err (fun error => Internal (lit "sync raw-evidence marker directory " ++ at_ ControlDir ++ lit " after creating " ++ at_ marker ++ lit ": " ++ error)) r)).

Definition retain_raw_evidence (cause context : string) : supervisor bool :=
  r ← act (Stat SessionRoot);
  match r with
  | StatFound info =>
      if fi_dir info && negb (fi_symlink info) && owned_as 493 info then
        _ ← note (lit "raw session tree retained after " ++ lit context ++ lit " at " ++ at_ SessionRoot);
        _ ← noting (lit "write raw-evidence retention marker") (mark_raw_evidence_retained cause);
        mret true
      else
        _ ← note (lit context ++ lit " left no safely retainable exact 1000:1000 mode-0755 ordinary session directory at " ++ at_ SessionRoot);
        mret false
  | StatMissing _ => _ ← note (lit context ++ lit " left no raw session tree at " ++ at_ SessionRoot); mret false
  | StatFailed error =>
      _ ← note (lit "cannot determine whether raw session evidence exists at " ++ at_ SessionRoot ++ lit " after " ++ lit context ++ lit ": " ++ error);
      mret false
  end.

(** The sidecar of the exit code: absent, or one canonical status and one newline. *)
Definition exit_code_text (text : str) : service Z :=
  trimmed ← ok_or (strip_suffix [10] text) (AgentOutputMissing (lit "exit-code file must be one canonical decimal i32 followed by exactly one newline"));
  value ← ok_or (parse_i32 trimmed) (AgentOutputMissing (lit "exit-code file does not contain an i32"));
  if negb ((0 <=? value) && (value <=? 255)) then missing_text (lit "exit-code file has out-of-range process status " ++ show_Z value)
  else if negb (bool_decide (text = show_Z value ++ [10]))
  then missing_text (lit "exit-code file is not the canonical decimal representation " ++ show_Z value ++ lit " followed by one newline")
  else Ok value.
Definition read_exit_code : fallible (option Z) :=
  r ← act (OpenAndRead (OutputFile "qwen-exit-code"));
  mret (match r with
        | OpenMissing _ => Ok None
        | OpenRefused error => missing_text (lit "exit-code file cannot be opened without following links: " ++ error)
        | OpenUnstatable error => missing_text (lit "exit-code file cannot be fstat'd: " ++ error)
        | OpenRead_ info bytes =>
            if negb (fi_file info) || negb (owned_as 384 info) || (fi_len info =? 0) || (64 <? fi_len info)
            then missing_text (lit "exit-code file has unsafe opened type/mode/owner/size")
            else
              bytes ← map_err (fun error => AgentOutputMissing (lit "exit-code file is unreadable through its opened descriptor: " ++ error)) bytes;
              if negb (Z.of_nat (length bytes) =? fi_len info) then missing_text (lit "exit-code file changed length while open")
              else
                text ← match from_utf8 bytes with Ok text => Ok text | Err _ => missing_text (lit "exit-code file is not UTF-8") end;
                Some <$> exit_code_text text
        end).

Definition client_stderr_account : fallible str :=
  let p := OutputFile "qwen.stderr" in
  r ← act (OpenAtTail p CLIENT_STDERR_QUOTE_BYTES);
  mret (match r with
        | TailRefused error => missing_text (lit "open " ++ at_ p ++ lit ": " ++ error)
        | TailUnstatable error => missing_text (lit "fstat " ++ at_ p ++ lit ": " ++ error)
        | Tail info seek bytes =>
            if negb (fi_file info) || negb (owned_as 384 info) then missing_text (lit "captured stderr " ++ at_ p ++ lit " has unsafe opened type/mode/owner")
            else if fi_len info =? 0 then Ok (lit "the client wrote nothing to stderr")
            else
              let omitted := Z.max 0 (fi_len info - CLIENT_STDERR_QUOTE_BYTES) in
              _ ← map_err (fun error => AgentOutputMissing (lit "seek " ++ at_ p ++ lit ": " ++ error)) seek;
              quoted ← map_err (fun error => AgentOutputMissing (lit "read " ++ at_ p ++ lit ": " ++ error)) bytes;
              let text := trim_end (from_utf8_lossy quoted) in
              Ok (if omitted =? 0 then lit "the client's stderr reads:" ++ [10] ++ text
                  else lit "the client's stderr ends (its first " ++ show_Z omitted ++ lit " of " ++ show_Z (fi_len info)
                       ++ lit " bytes are in output/qwen.stderr in the bundle):" ++ [10] ++ text)
        end).

Definition validate_capture_output (p : Place) (expected_bytes : Z) (label : string) : fallible unit :=
  r ← act (Stat p);
  mret (match r with
        | StatFound info =>
            if exact_file 384 info && (fi_len info =? expected_bytes) then Ok tt
            else missing_text (lit "trusted captured " ++ lit label ++ lit " output drift at " ++ at_ p)
        | StatMissing error | StatFailed error => missing_text (lit "stat trusted captured " ++ lit label ++ lit " output " ++ at_ p ++ lit ": " ++ error)
        end).
Definition events_jsonl : Place := OutputFile "events.jsonl".
Definition validate_completed_capture (capture : CaptureComplete) : fallible unit :=
  try (validate_capture_output events_jsonl (events_bytes capture) "events") (fun _ =>
    validate_capture_output (OutputFile "qwen.stderr") (stderr_bytes capture) "stderr").

(** ** What was observed *)
Definition no_output : OutputProgress :=
  {| out_num_turns := None; out_last_event_at_unix := None; out_output_event_bytes := 0; out_observed_usage := no_requests;
     out_observed_subagent_scope_count := 0; out_observed_unaccounted_records := 0 |}.

Definition read_operator_task : fallible str := read_exact_owned_regular_file (ControlFile "prompt.txt") 420 (Z.of_nat MAX_PROMPT_BYTES) (lit "prompt record").

Definition read_session_output_progress : fallible OutputProgress :=
  r ← act (Stat events_jsonl);
  match r with
  | StatMissing _ => mret (Ok no_output)
  | _ => try read_operator_task (fun operator => act (ReadObservations operator))
  end.

Definition read_output_progress_for_recovery : supervisor (option OutputProgress) :=
  noting (lit "read recovery event observations") read_session_output_progress.
End Files.

(** ** Decisions *)
Record TeardownProof := { complete : bool; proved_quiescent : bool }.
Inductive FinalizationPhase := Normal | PanicRecovery | SetupFailure | ServiceRestart.

(** The sole disposition of the raw tree: why it is retained, in a word and in
    words, or that it is not. *)
Definition raw_retention_decision (teardown : TeardownProof) (accepted_archive : bool) (phase : FinalizationPhase) : option (string * string) :=
  if negb (proved_quiescent teardown) then
    Some ("container-quiescence-unproved"%string,
          match phase with
          | Normal => "container quiescence was not proved; bundle was forbidden"
          | PanicRecovery => "panic-recovery container quiescence was not proved; bundle was forbidden"
          | SetupFailure => "setup-failure container quiescence was not proved; bundle was forbidden"
          | ServiceRestart => "service-restart container quiescence was not proved; bundle was forbidden"
          end%string)
  else if negb accepted_archive then
    Some (match phase with
          | Normal => ("required-bundle-failure", "required bundle failure")
          | PanicRecovery => ("panic-recovery-bundle-failure", "panic-recovery bundle failure")
          | SetupFailure => ("setup-forensic-bundle-failure", "setup-failure bundle failure")
          | ServiceRestart => ("service-restart-bundle-failure", "service-restart forensic bundle failure")
          end%string)
  else if negb (complete teardown) then
    Some ("container-teardown-incomplete"%string,
          match phase with
          | Normal => "incomplete container teardown despite successful bundle creation"
          | PanicRecovery => "incomplete panic-recovery container teardown despite successful bundle creation"
          | SetupFailure => "incomplete setup-failure container teardown despite successful bundle creation"
          | ServiceRestart => "incomplete service-restart container teardown despite successful bundle creation"
          end%string)
  else None.

Definition merge_progress_counters (left right : ProgressCounters) : ProgressCounters :=
  {| staged_bytes := Z.max (staged_bytes left) (staged_bytes right);
     staged_entries := Z.max (staged_entries left) (staged_entries right);
     staged_regular_files := Z.max (staged_regular_files left) (staged_regular_files right);
     output_event_bytes := Z.max (output_event_bytes left) (output_event_bytes right);
     physical_requests := Z.max (physical_requests left) (physical_requests right) |}.

Definition apply_progress (b : SessionBody) (e : ProgressEvent) : SessionBody :=
  {| sb_session_id := sb_session_id b; sb_status := sb_status b; sb_started_at_unix := sb_started_at_unix b; sb_model := sb_model b;
     sb_context_window := sb_context_window b; sb_max_session_turns := sb_max_session_turns b; sb_deliverables := sb_deliverables b;
     sb_release := sb_release b; sb_archive_bytes := sb_archive_bytes b; sb_archive_sha256 := sb_archive_sha256 b;
     sb_prompt_preview := sb_prompt_preview b;
     sb_progress_revision := revision e; sb_progress_at_unix_ms := at_unix_ms e; sb_progress_phase := phase e; sb_progress_message := message e;
     sb_staged_bytes := Z.max (sb_staged_bytes b) (staged_bytes (counters e));
     sb_staged_entries := Z.max (sb_staged_entries b) (staged_entries (counters e));
     sb_staged_regular_files := Z.max (sb_staged_regular_files b) (staged_regular_files (counters e));
     sb_output_event_bytes := Z.max (sb_output_event_bytes b) (output_event_bytes (counters e));
     sb_progress_events := sb_progress_events b; sb_num_turns := sb_num_turns b; sb_last_event_at_unix := sb_last_event_at_unix b;
     sb_observed_usage := sb_observed_usage b; sb_observed_subagent_scope_count := sb_observed_subagent_scope_count b;
     sb_observed_unaccounted_records := sb_observed_unaccounted_records b; sb_terminal := sb_terminal b |}.
Definition with_progress_events (events : list ProgressEvent) (b : SessionBody) : SessionBody :=
  {| sb_session_id := sb_session_id b; sb_status := sb_status b; sb_started_at_unix := sb_started_at_unix b; sb_model := sb_model b;
     sb_context_window := sb_context_window b; sb_max_session_turns := sb_max_session_turns b; sb_deliverables := sb_deliverables b;
     sb_release := sb_release b; sb_archive_bytes := sb_archive_bytes b; sb_archive_sha256 := sb_archive_sha256 b;
     sb_prompt_preview := sb_prompt_preview b; sb_progress_revision := sb_progress_revision b;
     sb_progress_at_unix_ms := sb_progress_at_unix_ms b; sb_progress_phase := sb_progress_phase b; sb_progress_message := sb_progress_message b;
     sb_staged_bytes := sb_staged_bytes b; sb_staged_entries := sb_staged_entries b; sb_staged_regular_files := sb_staged_regular_files b;
     sb_output_event_bytes := sb_output_event_bytes b; sb_progress_events := events;
     sb_num_turns := sb_num_turns b; sb_last_event_at_unix := sb_last_event_at_unix b;
     sb_observed_usage := sb_observed_usage b; sb_observed_subagent_scope_count := sb_observed_subagent_scope_count b;
     sb_observed_unaccounted_records := sb_observed_unaccounted_records b; sb_terminal := sb_terminal b |}.

(** Late failures of the reporter are the ending's. *)
Definition mark_error (d : str) (t : SessionTerminal) : SessionTerminal :=
  {| tl_finished_at_unix := tl_finished_at_unix t; tl_duration_wall_ms := tl_duration_wall_ms t;
     tl_container_exit_code := tl_container_exit_code t; tl_agent_exit_code := tl_agent_exit_code t; tl_is_process_error := true;
     tl_response := tl_response t; tl_agent_result := tl_agent_result t; tl_bundle := tl_bundle t;
     tl_raw_session_tree_retained := tl_raw_session_tree_retained t; tl_teardown_diagnostics := tl_teardown_diagnostics t ++ [d] |}.
Definition with_late_error (d : str) (b : SessionBody) : SessionBody :=
  {| sb_session_id := sb_session_id b; sb_status := sb_status b; sb_started_at_unix := sb_started_at_unix b; sb_model := sb_model b;
     sb_context_window := sb_context_window b; sb_max_session_turns := sb_max_session_turns b; sb_deliverables := sb_deliverables b;
     sb_release := sb_release b; sb_archive_bytes := sb_archive_bytes b; sb_archive_sha256 := sb_archive_sha256 b;
     sb_prompt_preview := sb_prompt_preview b; sb_progress_revision := sb_progress_revision b;
     sb_progress_at_unix_ms := sb_progress_at_unix_ms b; sb_progress_phase := sb_progress_phase b; sb_progress_message := sb_progress_message b;
     sb_staged_bytes := sb_staged_bytes b; sb_staged_entries := sb_staged_entries b; sb_staged_regular_files := sb_staged_regular_files b;
     sb_output_event_bytes := sb_output_event_bytes b; sb_progress_events := sb_progress_events b;
     sb_num_turns := sb_num_turns b; sb_last_event_at_unix := sb_last_event_at_unix b;
     sb_observed_usage := sb_observed_usage b; sb_observed_subagent_scope_count := sb_observed_subagent_scope_count b;
     sb_observed_unaccounted_records := sb_observed_unaccounted_records b; sb_terminal := mark_error d <$> sb_terminal b |}.
Definition apply_reporter_progress (b : SessionBody) : supervisor SessionBody :=
  latest ← act LatestProgress;
  let b := match latest with
           | Ok event => apply_progress b event
           | Err error => with_late_error (lit "read latest lifecycle progress: " ++ display_error error) b
           end in
  history ← act ProgressHistory;
  mret (match history with
        | Ok events => with_progress_events events b
        | Err error => with_late_error (lit "read complete lifecycle progress history: " ++ display_error error) b
        end).

(** [{:?}] of an optional exit code *)
Definition show_exit (code : option Z) : str := match code with Some code => lit "Some(" ++ show_Z code ++ lit ")" | None => lit "None" end.

Section Exit.
Context `{StreamContract}.
Definition exit_disagreement (subtype_ : str) (container_exit_code agent_exit_code : option Z) : option str :=
  let expected := terminal_exit_code subtype_ in
  if bool_decide (is_Some expected) && bool_decide (container_exit_code = expected) && bool_decide (agent_exit_code = expected) then None
  else
    let codes := lit "(container=" ++ show_exit container_exit_code ++ lit ", qwen=" ++ show_exit agent_exit_code in
    Some (match expected with
          | Some code => lit "agent exit disagrees with its terminal record " ++ codes ++ lit "; " ++ subtype_ ++ lit " exits " ++ show_Z code ++ lit ")"
          | None => lit "agent terminal record names a subtype which the stream contract does not define " ++ codes ++ lit ")"
          end).

(** Whether the process erred, and how its exit disagrees with its record. *)
Definition process_outcome (status : SessionStatus) (certified_subtype : option str) (container_exit_code agent_exit_code : option Z)
    : bool * option str :=
  match certified_subtype with
  | None => (true, None)
  | Some subtype_ =>
      if decide (status = Ended) then
        match exit_disagreement subtype_ container_exit_code agent_exit_code with
        | Some disagreement => (true, Some disagreement)
        | None => (false, None)
        end
      else (false, None)
  end.
End Exit.

(** ** The execution of a session *)
Record FailureContext := {
  fc_prompt_preview : str; fc_max_session_turns : Z; fc_deliverables : Deliverables; fc_archive_bytes : Z; fc_archive_sha256 : str;
  fc_started_at_unix : Z;
}.

(** What a finalizer knows of the containers: no create request was sent, or one
    was, and the start gate is held if it still exists. *)
Inductive TopologyFinalization := NeverSubmitted | Submitted (start_gate : bool).

Definition counters_of (staged : StagingProgress) : ProgressCounters :=
  {| staged_bytes := copied_bytes staged; staged_entries := copied_entries staged; staged_regular_files := copied_regular_files staged;
     output_event_bytes := 0; physical_requests := 0 |}.
Definition with_output (bytes : Z) (c : ProgressCounters) : ProgressCounters :=
  {| staged_bytes := staged_bytes c; staged_entries := staged_entries c; staged_regular_files := staged_regular_files c;
     output_event_bytes := bytes; physical_requests := physical_requests c |}.
Definition with_stream (observed : OutputProgress) (c : ProgressCounters) : ProgressCounters :=
  {| staged_bytes := staged_bytes c; staged_entries := staged_entries c; staged_regular_files := staged_regular_files c;
     output_event_bytes := out_output_event_bytes observed; physical_requests := requests (out_observed_usage observed) |}.

Section Session.
Context `{StreamContract} `{QuoteOps} (cfg : Config) (session_id : str) (context : FailureContext).

(** The ended session, before the reporter's progress. *)
Definition ended_body (release_ : ReleaseIdentity) (status : SessionStatus) (c : ProgressCounters) (observed : option OutputProgress) (t : SessionTerminal) : SessionBody :=
  {| sb_session_id := session_id; sb_status := status; sb_started_at_unix := fc_started_at_unix context; sb_model := vllm_model_name cfg;
     sb_context_window := max_model_len cfg; sb_max_session_turns := fc_max_session_turns context; sb_deliverables := fc_deliverables context;
     sb_release := release_; sb_archive_bytes := fc_archive_bytes context; sb_archive_sha256 := fc_archive_sha256 context;
     sb_prompt_preview := fc_prompt_preview context; sb_progress_revision := 0; sb_progress_at_unix_ms := 0;
     sb_progress_phase := Terminal; sb_progress_message := [];
     sb_staged_bytes := staged_bytes c; sb_staged_entries := staged_entries c; sb_staged_regular_files := staged_regular_files c;
     sb_output_event_bytes := output_event_bytes c; sb_progress_events := [];
     sb_num_turns := observed ≫= out_num_turns; sb_last_event_at_unix := observed ≫= out_last_event_at_unix;
     sb_observed_usage := out_observed_usage <$> observed;
     sb_observed_subagent_scope_count := out_observed_subagent_scope_count <$> observed;
     sb_observed_unaccounted_records := out_observed_unaccounted_records <$> observed; sb_terminal := Some t |}.

(** *** Teardown and bundle *)
Definition show_state (state : SessionQuiescence) : str :=
  let show b := lit (if b : bool then "true" else "false") in
  lit "agent_present=" ++ show (agent_present state) ++ lit " agent_running=" ++ show (agent_running state)
    ++ lit " relay_present=" ++ show (relay_present state) ++ lit " relay_running=" ++ show (relay_running state)
    ++ lit " capture_present=" ++ show (capture_present state) ++ lit " capture_running=" ++ show (capture_running state).
Definition all_absent (state : SessionQuiescence) : bool := negb (agent_present state) && negb (relay_present state) && negb (capture_present state).

Definition remove_and_prove_quiescent (label : string) : supervisor TeardownProof :=
  removed ← noting (lit label ++ lit ": remove session containers") (act RemoveSession);
  let removal_succeeded := presence removed in
  proof ← act ProveQuiescent;
  match proof with
  | Ok state =>
      _ ← (if quiescent state then mret tt
           else note (lit label ++ lit ": broker could not prove filesystem quiescence: " ++ show_state state));
      _ ← (if removal_succeeded && negb (all_absent state)
           then note (lit label ++ lit ": remove_session reported success but exact-owned containers remain: " ++ show_state state) else mret tt);
      mret {| complete := removal_succeeded && all_absent state && quiescent state; proved_quiescent := quiescent state |}
  | Err error =>
      _ ← note (lit label ++ lit ": independent post-teardown quiescence proof failed: " ++ display_error error);
      mret {| complete := false; proved_quiescent := false |}
  end.

(** [create_bundle], which is not called before the tree is proved quiescent *)
Definition bundle_quiescent (teardown : TeardownProof) (refusal : string) : fallible BundleStats :=
  if proved_quiescent teardown then act CreateBundle else mret (internal refusal).

Definition decide_retention (teardown : TeardownProof) (accepted : option BundleStats) (phase : FinalizationPhase) : supervisor bool :=
  match raw_retention_decision teardown (presence accepted) phase with
  | Some (cause, words) => retain_raw_evidence cfg session_id cause words
  | None => mret false
  end.

(** Several sidecars, each attempted whatever became of the others. *)
Fixpoint preserve (label : string) (sidecars : list (Place * str)) : supervisor unit :=
  match sidecars with
  | [] => mret tt
  | (p, contents) :: sidecars =>
      _ ← failing (lit label ++ lit " " ++ at_ cfg session_id p) (ensure_private_forensic_file cfg session_id p contents);
      preserve label sidecars
  end.

(** *** When normal execution did not begin *)
Definition tear_down (topology : TopologyFinalization) : supervisor (str * TeardownProof) :=
  match topology with
  | NeverSubmitted =>
      mret (lit "<session topology was never submitted; no owned container logs exist>" ++ [10], {| complete := true; proved_quiescent := true |})
  | Submitted start_gate =>
      logs ← failing (lit "read bounded session logs") (act SessionLogs);
      teardown ← remove_and_prove_quiescent "setup-failure recovery";
      _ ← (if start_gate then act DropStartGate else mret tt);
      mret (default (lit "<owned session logs unavailable>" ++ [10]) logs, teardown)
  end.

Definition teardown_message (topology : TopologyFinalization) : str :=
  match topology with
  | NeverSubmitted => lit "normal execution did not begin and no Docker topology was submitted; finalizing filesystem evidence"
  | Submitted _ => lit "normal execution did not begin or did not reach readiness; removing exact-owned topology and proving quiescence before forensic bundling"
  end.

Definition setup_sidecars (response logs : str) : list (Place * str) :=
  [(OutputFile "ready.json", quoted "{'ready':false,'failure':'setup failed before a valid readiness record'}" ++ [10]);
   (events_jsonl, []); (OutputFile "qwen.stderr", logs); (OutputFile "response.txt", response); (ControlFile "container-logs.txt", logs)].

Definition finalize_setup_failure (error : ServiceError) (status : SessionStatus) (initial : list str) (c : ProgressCounters)
    (topology : TopologyFinalization) : supervisor SessionBody :=
  let response := (if decide (status = Cancelled)
                   then lit "session cancellation was durably requested before normal agent execution completed: "
                   else lit "agent session failed before normal execution completed; no success was inferred: ") ++ display_error error in
  _ ← with_notes {| diagnostics := initial; process_error := negb (bool_decide (status = Cancelled)) |};
  latest ← failing (lit "read latest progress before setup/cancellation teardown") (act LatestProgress);
  let c := match latest with Some latest => merge_progress_counters (counters latest) c | None => c end in
  _ ← failing (lit "publish setup/cancellation teardown progress") (act (Publish TearingDown (teardown_message topology) c));
  '(logs, teardown) ← tear_down topology;
  _ ← (if complete teardown then mret tt else erred);
  _ ← failing (lit "write authoritative setup-failure record") (write_private_file cfg session_id (ControlFile "setup-failure.txt") (response ++ [10]));
  _ ← preserve "preserve setup-failure sidecar" (setup_sidecars response logs);
  agent_exit_code ← failing (lit "read setup-failure exit code") read_exit_code;
  observations ← failing (lit "read setup-failure event observations") (read_session_output_progress cfg session_id);
  let observed := default no_output observations in
  let final_counters := merge_progress_counters c (with_stream observed default_counters) in
  _ ← failing (lit "publish setup/cancellation bundle progress")
        (act (Publish Bundling (lit "creating the deterministic forensic bundle after exact container quiescence") final_counters));
  accepted ← failing (lit "setup-failure forensic bundle failed")
        (bundle_quiescent teardown "setup-failure bundle was not attempted because exact-owned container quiescence was not proved");
  retained ← decide_retention teardown accepted SetupFailure;
  finished ← act NowUnix;
  duration ← act ElapsedMs;
  notes ← read_notes;
  apply_reporter_progress
    (ended_body (cfg_release cfg) status final_counters observations
       {| tl_finished_at_unix := finished; tl_duration_wall_ms := duration; tl_container_exit_code := None;
          tl_agent_exit_code := default None agent_exit_code; tl_is_process_error := process_error notes; tl_response := response; tl_agent_result := None;
          tl_bundle := accepted; tl_raw_session_tree_retained := retained; tl_teardown_diagnostics := diagnostics notes |}).

Definition finalize_pre_agent_exit (error : ServiceError) (status : SessionStatus) (c : ProgressCounters) : supervisor SessionBody :=
  finalize_setup_failure error status [] c NeverSubmitted.
Definition finalize_started_setup_failure (error : ServiceError) (status : SessionStatus) (initial : list str) (c : ProgressCounters) (start_gate : bool)
    : supervisor SessionBody :=
  finalize_setup_failure error status initial c (Submitted start_gate).

(** *** The agent's readiness *)
Definition READY_SANDBOX : str := lit "landlock-fs-v4-write-roots-v1+private-devpts-rw-v1+output-unmounted-v1".
Definition encode_ready (ready : ReadyFile) : str :=
  quoted "{'model':" ++ quote (rf_model ready) ++ quoted ",'context_window':" ++ show_Z (rf_context_window ready)
    ++ quoted ",'token_count':" ++ show_Z (rf_token_count ready) ++ quoted ",'sandbox':" ++ quote (rf_sandbox ready) ++ quoted "}".

Definition wait_for_agent_ready : fallible ReadyFile :=
  won ← act AwaitReady;
  match won with
  | None => mret (internal "session cancelled while awaiting the broker's exact agent-ready event")
  | Some broker_ready =>
      try (mret broker_ready) (fun ready =>
      if bool_decide (rf_model ready ≠ vllm_model_name cfg) || negb (rf_context_window ready =? max_model_len cfg)
         || (rf_token_count ready =? 0) || bool_decide (rf_sandbox ready ≠ READY_SANDBOX)
      then mret (internal "broker returned a drifted agent readiness contract")
      else
        let encoded := encode_ready ready ++ [10] in
        let p := OutputFile "ready.json" in
        try (write_private_file cfg session_id p encoded) (fun _ =>
        try (sync_directory cfg session_id OutputDir "sync trusted agent readiness") (fun _ =>
        persisted ← act (ReadBack p);
        mret (persisted ← map_err (fun error => Internal (lit "read back trusted agent readiness " ++ at_ cfg session_id p ++ lit ": " ++ error)) persisted;
              if decide (persisted = encoded) then Ok ready
              else internal_text (lit "trusted agent readiness changed after durable publication at " ++ at_ cfg session_id p)))))
  end.

(** *** What ends the wait on a running agent *)
Definition record_escalated_stop (outcome : SessionStopOutcome) : supervisor unit :=
  if negb (escalated outcome) then mret tt
  else note (lit "agent did not exit within " ++ show_Z (grace_seconds outcome) ++ lit "s of SIGTERM and was killed; its transcript may be truncated").

(** Stop the producer; whether it is proved stopped. *)
Definition stop_producer (failure : string) : supervisor bool :=
  stopped ← noting (lit failure) (act StopSession);
  match stopped with Some outcome => _ ← record_escalated_stop outcome; mret true | None => mret false end.

Definition agent_exited (r : service Z) : supervisor (SessionStatus * option Z * bool) :=
  code ← noting (lit "docker wait failed") (mret r);
  match code with
  | Some code => mret (Ended, Some code, true)
  | None => producer_stopped ← stop_producer "stop agent after failed Docker wait also failed"; mret (Ended, None, producer_stopped)
  end.
Definition agent_cancelled : supervisor (SessionStatus * option Z * bool) :=
  stopped ← stop_producer "graceful cancellation stop failed";
  producer_stopped ← (if stopped : bool then mret true
                      else removed ← noting (lit "ownership-checked cancellation cleanup also failed") (act RemoveSession); mret (presence removed));
  code ← noting (lit "docker wait after cancellation failed") (act AgentExit);
  mret (Cancelled, code, producer_stopped).
Definition capture_failed (error : ServiceError) : supervisor (SessionStatus * option Z * bool) :=
  _ ← note (lit "the trusted stream capture exited before the agent did, so nothing the agent wrote after it could be recorded, and the agent was stopped: "
            ++ display_error error);
  producer_stopped ← stop_producer "stop agent after its stream capture exited also failed";
  code ← noting (lit "docker wait after the stream capture exited failed") (act AgentExit);
  mret (Ended, code, producer_stopped).

(** A capture that has proved its stream complete is not awaited again. *)
Definition settle_running_agent : supervisor (SessionStatus * option Z * bool) :=
  event ← act AwaitAgent;
  match event with
  | AgentExited r => agent_exited r
  | CaptureExited (Ok _) => event ← act AwaitAgentOnly; match event with Some r => agent_exited r | None => agent_cancelled end
  | CaptureExited (Err error) => capture_failed error
  | CancelSeen => agent_cancelled
  end.

(** *** The normal ending *)

(** The capture is drained to its end once the producer is stopped; a
    cancellation meanwhile wins the status. *)
Definition drain_capture (status : SessionStatus) (producer_stopped : bool) : supervisor (SessionStatus * option (service CaptureComplete)) :=
  if producer_stopped then
    if decide (status = Cancelled) then r ← act AwaitCapture; mret (status, Some r)
    else '(cancelled, r) ← act DrainCapture; mret (if cancelled : bool then Cancelled else status, Some r)
  else
    _ ← note (lit "stream-capture completion was not awaited because the Qwen producer could not be proved stopped");
    mret (status, None).

(** The byte count of the stream, once the file is proved to hold it. *)
Definition prove_capture (result_ : option (service CaptureComplete)) : supervisor (option Z) :=
  match result_ with
  | Some (Ok capture) =>
      r ← validate_completed_capture cfg session_id capture;
      match r with Ok _ => mret (Some (events_bytes capture)) | Err error => _ ← note (display_error error); mret None end
  | Some (Err error) => _ ← note (lit "trusted stream capture did not prove complete durable output: " ++ display_error error); mret None
  | None => mret None
  end.

Definition record_exit (container_exit_code : option Z) : supervisor unit :=
  _ ← match container_exit_code with
      | Some code =>
          _ ← noting (lit "write trusted Qwen exit-code sidecar")
                (write_private_file cfg session_id (OutputFile "qwen-exit-code") (show_Z code ++ [10]));
          mret tt
      | None => mret tt
      end;
  r ← sync_directory cfg session_id OutputDir "sync completion sidecars";
  match r with Ok _ => mret tt | Err error => note (display_error error) end.

Definition NOT_PROVED_COMPLETE : ServiceError :=
  AgentOutputMissing (lit "trusted stream capture was not proved complete; refusing complete-result certification").

(** The one read of the stream: its observations and its verdict. *)
Definition read_stream (proved : bool) : supervisor (option OutputProgress * service AgentResult) :=
  if proved then
    r ← try (read_operator_task cfg session_id) (fun operator => act (ReadEvents operator));
    match r with
    | Ok (Some snapshot) => mret (Some (es_observed snapshot), es_certified snapshot)
    | Ok None => mret (Some no_output, Err (AgentOutputMissing (lit "events.jsonl does not exist")))
    | Err error => _ ← note (lit "read final event snapshot: " ++ display_error error); mret (None, Err error)
    end
  else
    observations ← noting (lit "read final event snapshot") (read_session_output_progress cfg session_id);
    mret (observations, Err NOT_PROVED_COMPLETE).

(** A run can only report as missing what it was asked to leave. *)
Definition declared_missing (parsed : service AgentResult) : service AgentResult :=
  r ← parsed;
  match ag_missing_deliverables r with
  | Some missing =>
      let declared := paths (fc_deliverables context) in
      if negb (is_ordered_subset missing declared)
      then Err (AgentRecordRefused (lit "the terminal record names " ++ show_Z (Z.of_nat (length missing))
                  ++ lit " missing deliverables that are not, in order, among the " ++ show_Z (Z.of_nat (length declared))
                  ++ lit " the session declared; inspect the captured root result and control/deliverables.json"))
      else Ok r
  | None => Ok r
  end.

Definition certified_result (r : AgentResult) : CertifiedResult :=
  {| cr_agent_duration_ms := ag_duration_ms r; cr_agent_api_duration_ms := ag_api_duration_ms r; cr_agent_result_subtype := ag_subtype r;
     cr_num_turns := ag_num_turns r; cr_main_kv_scope := ag_main_kv_scope r; cr_usage := ag_usage r; cr_request_scopes := ag_request_scopes r;
     cr_subagent_scopes := ag_scopes r; cr_subagent_scope_count := Z.of_nat (length (ag_scopes r));
     cr_subagent_error_count := error_count (ag_scopes r); cr_missing_deliverables := ag_missing_deliverables r |}.

(** The response, and the result when one was certified. *)
Definition report (parsed : service AgentResult) (logs : str) : supervisor (str * option CertifiedResult) :=
  match parsed with
  | Ok r => mret (ag_response r, Some (certified_result r))
  | Err error =>
      _ ← note (lit "strict event parse failed: " ++ display_error error);
      account ← client_stderr_account cfg session_id;
      client ← match account with
               | Ok client => mret client
               | Err failure =>
                   _ ← note (lit "read the client's captured stderr: " ++ display_error failure);
                   mret (lit "the client's stderr could not be read (" ++ display_error failure ++ lit "); it is output/qwen.stderr in the bundle")
               end;
      mret (lit "the run's result was not certified: " ++ display_error error ++ lit "; " ++ client ++ lit "; recent container logs:" ++ [10] ++ logs, None)
  end.

Definition flag (b : bool) : supervisor unit := if b then erred else mret tt.
(** [if !diagnostics.is_empty() { is_process_error = true; }] *)
Definition diagnosed : supervisor unit := notes ← read_notes; flag (negb (bool_decide (diagnostics notes = []))).

(** From the observations and the verdict to the ending. *)
Definition conclude (status : SessionStatus) (container_exit_code agent_exit_code : option Z) (teardown : TeardownProof) (logs : str)
    (staged observed_counters : ProgressCounters) (observations : option OutputProgress) (parsed : service AgentResult) : supervisor SessionBody :=
  '(response, agent_result) ← report (declared_missing parsed) logs;
  let '(is_process_error, disagreement) :=
    process_outcome status (cr_agent_result_subtype <$> agent_result) container_exit_code agent_exit_code in
  _ ← flag is_process_error;
  let response := match disagreement with Some disagreement => disagreement ++ lit ". " ++ response | None => response end in
  _ ← diagnosed;
  _ ← failing (lit "write response sidecar") (write_private_file cfg session_id (OutputFile "response.txt") response);
  let final_counters := merge_progress_counters observed_counters (with_stream (default no_output observations) staged) in
  _ ← failing (lit "publish bundle progress")
        (act (Publish Bundling (lit "creating the deterministic no-clobber result bundle from quiescent session state") final_counters));
  accepted ← failing (lit "required bundle creation failed")
        (bundle_quiescent teardown "required bundle was not attempted because exact-owned container quiescence was not proved");
  retained ← decide_retention teardown accepted Normal;
  _ ← diagnosed;
  finished ← act NowUnix;
  duration ← act ElapsedMs;
  notes ← read_notes;
  apply_reporter_progress
    (ended_body (cfg_release cfg) status (with_output (output_event_bytes final_counters) staged) observations
       {| tl_finished_at_unix := finished; tl_duration_wall_ms := duration; tl_container_exit_code := container_exit_code;
          tl_agent_exit_code := agent_exit_code; tl_is_process_error := process_error notes; tl_response := response; tl_agent_result := agent_result;
          tl_bundle := accepted; tl_raw_session_tree_retained := retained; tl_teardown_diagnostics := diagnostics notes |}).

(** *** The execution, stage by stage *)
Definition finish_run (staged : ProgressCounters) : supervisor SessionBody :=
  '(status, container_exit_code, producer_stopped) ← settle_running_agent;
  _ ← noting (lit "publish capture progress")
        (act (Publish CapturingOutput
                (if producer_stopped : bool
                 then lit "agent producer stopped; awaiting the trusted capture component's durable byte-count proof"
                 else lit "agent producer stop could not be proved; capture promotion is forbidden and teardown evidence will record the failure") staged));
  '(status, capture_result) ← drain_capture status producer_stopped;
  proved_event_bytes ← prove_capture capture_result;
  _ ← record_exit container_exit_code;
  logs ← noting (lit "read final agent logs") (act SessionLogs);
  let logs := default (lit "<agent logs unavailable>") logs in
  let observed_counters := with_output (default (output_event_bytes staged) proved_event_bytes) staged in
  _ ← noting (lit "publish teardown progress")
        (act (Publish TearingDown (lit "removing every exact-owned session container and independently proving filesystem quiescence") observed_counters));
  teardown ← remove_and_prove_quiescent "normal completion";
  _ ← noting (lit "persist bounded final container logs") (write_private_file cfg session_id (ControlFile "container-logs.txt") logs);
  code ← read_exit_code;
  agent_exit_code ← match code with Ok code => mret code | Err error => _ ← note (display_error error); mret None end;
  _ ← (if decide (agent_exit_code = container_exit_code) then mret tt
       else note (lit "trusted exit-code sidecar disagrees with Docker wait: wait=" ++ show_exit container_exit_code
                  ++ lit ", sidecar=" ++ show_exit agent_exit_code));
  '(observations, parsed) ← read_stream (presence proved_event_bytes);
  conclude status container_exit_code agent_exit_code teardown logs staged observed_counters observations parsed.

(** Cancelled before, or after, the durable decision, else ended. *)
Definition ended_or_cancelled : supervisor SessionStatus := cancelled ← act CancelRequested; mret (if cancelled : bool then Cancelled else Ended).

Definition ready_message (ready : ReadyFile) : str :=
  lit "agent readiness proved: model=" ++ rf_model ready ++ lit ", context_window=" ++ show_Z (rf_context_window ready)
    ++ lit ", tokenizer_probe_tokens=" ++ show_Z (rf_token_count ready).

(** After the start gate is released. *)
Definition attend (staged : ProgressCounters) : supervisor SessionBody :=
  cancelled ← act CancelRequested;
  if cancelled : bool
  then finalize_started_setup_failure (Internal (lit "session was cancelled before agent readiness")) Cancelled [] staged false
  else
    ready ← wait_for_agent_ready;
    match ready with
    | Err error => status ← ended_or_cancelled; finalize_started_setup_failure error status [] staged false
    | Ok ready =>
        published ← act (Publish RunningAgent (ready_message ready) staged);
        match published with
        | Err error => finalize_started_setup_failure error Ended [] staged false
        | Ok _ => finish_run staged
        end
    end.

(** The release of the start gate and a cancellation have one order: both hold the
    launch decision. *)
Definition release (staged : ProgressCounters) : supervisor SessionBody :=
  _ ← act LockLaunch;
  cancelled ← act CancelRequested;
  if cancelled : bool then
    _ ← act UnlockLaunch;
    finalize_started_setup_failure (Internal (lit "durable cancellation won the start-gate release decision")) Cancelled [] staged true
  else
    unlocked ← act UnlockStartGate;
    _ ← act DropStartGate;
    _ ← act UnlockLaunch;
    match unlocked with
    | Err error =>
        finalize_started_setup_failure (Internal (lit "cannot release the exact agent start gate: " ++ error)) Ended
          [lit "release agent start gate: " ++ error] staged false
    | Ok _ => attend staged
    end.

Definition CANCELLED_WHILE_CREATING : str :=
  lit "durable cancellation became observable while the broker's create transaction was in flight; ownership-checked removal remained serialized behind that transaction while the agent start gate stayed locked".
Definition AWAITING_READINESS : str :=
  lit "exact topology creation succeeded; releasing the start gate and awaiting the agent's model/tokenizer readiness proof".

Definition await_release (staged : ProgressCounters) : supervisor SessionBody :=
  cancelled ← act CancelRequested;
  if cancelled : bool then
    finalize_started_setup_failure
      (Internal (lit "durable cancellation was requested after topology creation and before the agent start gate was released")) Cancelled [] staged true
  else
    published ← act (Publish AwaitingReadiness AWAITING_READINESS staged);
    match published with
    | Err error => finalize_started_setup_failure error Ended [] staged true
    | Ok _ => release staged
    end.

Definition create_topology (staged : ProgressCounters) : supervisor SessionBody :=
  creation ← act CreateTopology;
  match creation with
  | Created => await_release staged
  | CreationFailed error => finalize_started_setup_failure error Ended [] staged true
  | CreationCancelled =>
      finalize_started_setup_failure
        (Internal (lit "durable cancellation was requested while the broker was creating the session topology")) Cancelled
        [CANCELLED_WHILE_CREATING] staged true
  end.

(** Behind the locked start gate. *)
Definition prepare_agent (staged : ProgressCounters) : supervisor SessionBody :=
  gate ← act LockStartGate;
  match gate with
  | Err error => finalize_pre_agent_exit error Ended staged
  | Ok _ =>
      cancelled ← act CancelRequested;
      if cancelled : bool then
        _ ← act DropStartGate;
        finalize_pre_agent_exit (Internal (lit "session was cancelled before Docker setup")) Cancelled staged
      else
        published ← act (Publish CreatingTopology
          (lit "creating the exact network-none agent, model relay, and trusted capture topology behind the locked start gate") staged);
        match published with
        | Err error => _ ← act DropStartGate; finalize_pre_agent_exit error Ended staged
        | Ok _ => create_topology staged
        end
  end.

Definition BYTE_STEP : Z := 67108864.
Definition ENTRY_STEP : Z := 1024.
Definition saturating_sub (a b : Z) : Z := Z.max 0 (a - b).

Definition staged_message (observed : StagingProgress) : str :=
  lit "staged " ++ show_Z (copied_entries observed) ++ lit " entries (" ++ show_Z (copied_regular_files observed) ++ lit " regular files, "
    ++ show_Z (copied_bytes observed) ++ lit " bytes)".

(** The extraction, its progress published at each step of size. *)
Fixpoint watch_extraction (e : Extraction) (last_bytes last_entries : Z) : supervisor (result str (service StagingProgress)) :=
  match e with
  | ExtractionEnds r => mret r
  | ExtractionReports observed next =>
      if (BYTE_STEP <=? saturating_sub (copied_bytes observed) last_bytes) || (ENTRY_STEP <=? saturating_sub (copied_entries observed) last_entries)
      then
        published ← act (Publish StagingPhase (staged_message observed) (counters_of observed));
        watch_extraction (next published) (copied_bytes observed) (copied_entries observed)
      else watch_extraction (next (Ok tt)) last_bytes last_entries
  end.

Definition preparing_message (staged : StagingProgress) : str :=
  lit "workspace-archive extraction complete: " ++ show_Z (copied_entries staged) ++ lit " entries, "
    ++ show_Z (copied_regular_files staged) ++ lit " regular files, " ++ show_Z (copied_bytes staged) ++ lit " bytes".

Definition stage_archive : supervisor SessionBody :=
  extraction ← act ExtractArchive;
  staged ← watch_extraction extraction 0 0;
  match staged with
  | Err error =>
      status ← ended_or_cancelled;
      finalize_pre_agent_exit (Internal (lit "descriptor-anchored blocking staging task terminated unexpectedly: " ++ error)) status default_counters
  | Ok (Err error) => status ← ended_or_cancelled; finalize_pre_agent_exit error status default_counters
  | Ok (Ok staged) =>
      removed ← act RemoveArchive;
      match removed with
      | Err error =>
          finalize_pre_agent_exit (ServiceError.Staging (lit "remove consumed workspace archive after extraction: " ++ error)) Ended (counters_of staged)
      | Ok _ =>
          published ← act (Publish PreparingAgent (preparing_message staged) (counters_of staged));
          match published with
          | Err error => finalize_pre_agent_exit error Ended (counters_of staged)
          | Ok _ => prepare_agent (counters_of staged)
          end
      end
  end.

Definition run_one : supervisor SessionBody :=
  published ← act (Publish StagingPhase (lit "workspace-archive extraction into the staging tree started") default_counters);
  match published with
  | Err error => finalize_pre_agent_exit error Ended default_counters
  | Ok _ => stage_archive
  end.

(** *** Recovery *)

(** A bundle is made where none was published, of a tree proved quiescent; one that
    was published is not adopted. *)
Definition recover_bundle (survived refused stat_failed : string) (attempt : supervisor (option BundleStats)) : supervisor (option BundleStats) :=
  r ← act (Stat BundleFile);
  match r with
  | StatFound info =>
      _ ← (if fi_file info && negb (fi_symlink info) then note (lit survived)
           else note (lit refused ++ lit " is not a regular non-symlink file: " ++ at_ cfg session_id BundleFile));
      mret None
  | StatMissing _ => attempt
  | StatFailed error => _ ← note (lit stat_failed ++ lit " " ++ at_ cfg session_id BundleFile ++ lit ": " ++ error); mret None
  end.

Definition stop_and_drain : supervisor unit :=
  producer_stopped ← stop_producer "stop session after execution-task failure";
  if producer_stopped : bool then
    capture ← noting (lit "panic-recovery stream capture did not prove complete durable output") (act AwaitCapture);
    match capture with
    | Some capture =>
        _ ← noting (lit "panic-recovery stream capture validation failed") (validate_completed_capture cfg session_id capture);
        mret tt
    | None => mret tt
    end
  else note (lit "panic-recovery stream capture was not awaited because the Qwen producer could not be proved stopped").

Fixpoint preserve_noting (label : string) (sidecars : list (Place * str)) : supervisor unit :=
  match sidecars with
  | [] => mret tt
  | (p, contents) :: sidecars =>
      _ ← noting (lit label ++ lit " " ++ at_ cfg session_id p) (ensure_private_forensic_file cfg session_id p contents);
      preserve_noting label sidecars
  end.

Definition recovery_sidecars (ready : str) (response logs : str) : list (Place * str) :=
  [(OutputFile "ready.json", ready ++ [10]); (events_jsonl, []); (OutputFile "qwen.stderr", []); (OutputFile "response.txt", response);
   (ControlFile "container-logs.txt", logs)].

Definition preserve_after_panic (full_prompt response logs : str) (teardown : TeardownProof) : supervisor (option BundleStats) :=
  ready ← noting (lit "reconstruct session directories for panic evidence") (act EnsureRecoveryDirs);
  match ready with
  | None => mret None
  | Some _ =>
      _ ← noting (lit "preserve prompt after execution-task failure") (ensure_prompt_record cfg session_id full_prompt);
      _ ← noting (lit "preserve turn budget after execution-task failure") (ensure_turn_budget_record cfg session_id (fc_max_session_turns context));
      _ ← noting (lit "preserve deliverables after execution-task failure") (ensure_deliverables_record cfg session_id (fc_deliverables context));
      _ ← preserve_noting "preserve forensic sidecar"
            (recovery_sidecars (quoted "{'ready':false,'failure':'execution task terminated before a valid readiness record'}") response logs);
      _ ← noting (lit "write supervisor failure sidecar " ++ at_ cfg session_id (OutputFile "supervisor-failure.txt"))
            (write_private_file cfg session_id (OutputFile "supervisor-failure.txt") (response ++ [10]));
      recover_bundle
        "a previously published archive exists after the execution-task failure but its complete accepted counters were not durably available; it remains unaccepted forensic evidence"
        "panic-recovery bundle destination" "stat panic-recovery bundle destination"
        (noting (lit "panic-recovery forensic bundle failed")
           (bundle_quiescent teardown "panic-recovery bundle was not attempted because exact-owned container quiescence was not proved"))
  end.

Definition recovered_terminal (response : str) (agent_exit_code : option Z) (accepted : option BundleStats) (retained : bool)
    (finished duration : Z) (notes : Notes) : SessionTerminal :=
  {| tl_finished_at_unix := finished; tl_duration_wall_ms := duration; tl_container_exit_code := None; tl_agent_exit_code := agent_exit_code;
     tl_is_process_error := true; tl_response := response; tl_agent_result := None; tl_bundle := accepted;
     tl_raw_session_tree_retained := retained; tl_teardown_diagnostics := diagnostics notes |}.

Definition recover_after_execution_panic (full_prompt : str) (cancelled : bool) (join_error : str) : supervisor SessionBody :=
  let response := lit "agent session execution terminated unexpectedly; no success was inferred: " ++ join_error in
  _ ← with_notes {| diagnostics := [lit "session execution task terminated unexpectedly: " ++ join_error]; process_error := true |};
  _ ← stop_and_drain;
  logs ← noting (lit "collect bounded container logs after execution-task failure") (act SessionLogs);
  let logs := default (lit "<owned container logs unavailable>" ++ [10]) logs in
  teardown ← remove_and_prove_quiescent "execution-task panic recovery";
  accepted ← preserve_after_panic full_prompt response logs teardown;
  retained ← decide_retention teardown accepted PanicRecovery;
  observations ← read_output_progress_for_recovery cfg session_id;
  agent_exit_code ← noting (lit "read panic-recovery exit code") read_exit_code;
  finished ← act NowUnix;
  duration ← act ElapsedMs;
  notes ← read_notes;
  mret (ended_body (cfg_release cfg) (if cancelled then Cancelled else Ended) default_counters observations
          (recovered_terminal response (default None agent_exit_code) accepted retained finished duration notes)).

(** After a restart of the service the preparations and the sidecars must succeed;
    the release is the one that accepted the session. *)
Fixpoint preserve_all (sidecars : list (Place * str)) : fallible unit :=
  match sidecars with
  | [] => mret (Ok tt)
  | (p, contents) :: sidecars => try (ensure_private_forensic_file cfg session_id p contents) (fun _ => preserve_all sidecars)
  end.

Definition restart_record (cancellation_was_durable : bool) : str :=
  lit "SERVICE_RESTART_RECOVERY" ++ [10] ++ lit "session_id=" ++ session_id ++ [10]
    ++ lit "accepted_at_unix=" ++ show_Z (fc_started_at_unix context) ++ [10]
    ++ lit "cancellation_was_durable=" ++ lit (if cancellation_was_durable then "true" else "false") ++ [10].

Definition restart_response (cancellation_was_durable : bool) : str :=
  if cancellation_was_durable
  then lit "the durable cancellation request survived a service restart; no successful agent result was inferred"
  else lit "the service process restarted after accepting this session but before publishing a terminal record; abandoned work was not adopted and no successful agent result was inferred".

Definition recover_after_service_restart (prompt : str) (release_ : ReleaseIdentity) (cancellation_was_durable : bool) : fallible SessionBody :=
  let response := restart_response cancellation_was_durable in
  try (act EnsureRecoveryDirs) (fun _ =>
  try (ensure_prompt_record cfg session_id prompt) (fun _ =>
  try (ensure_turn_budget_record cfg session_id (fc_max_session_turns context)) (fun _ =>
  try (ensure_deliverables_record cfg session_id (fc_deliverables context)) (fun _ =>
  _ ← with_notes {| diagnostics := [lit "startup found accepted.json without finished.json; the exact session is being terminalized before the listener binds"];
                    process_error := true |};
  logs ← noting (lit "collect bounded logs during restart recovery") (act SessionLogs);
  let logs := default (lit "<owned session logs unavailable after orphan sweep>" ++ [10]) logs in
  teardown ← remove_and_prove_quiescent "service-restart recovery";
  try (ensure_private_forensic_file cfg session_id (ControlFile "service-restart-recovery.txt") (restart_record cancellation_was_durable)) (fun _ =>
  try (preserve_all (recovery_sidecars (quoted "{'ready':false,'failure':'service restarted before terminal publication'}") response logs)) (fun _ =>
  observations ← read_output_progress_for_recovery cfg session_id;
  agent_exit_code ← noting (lit "read restart-recovery exit code") read_exit_code;
  accepted ← recover_bundle
    "a bundle publication survived without its terminal counters; it is retained as unaccepted forensic evidence rather than guessed into the public result"
    "restart-recovery bundle destination" "stat restart-recovery bundle destination"
    (if proved_quiescent teardown then noting (lit "service-restart forensic bundle failed") (act CreateBundle)
     else _ ← note (lit "service-restart bundle was forbidden because exact-owned container quiescence was not proved"); mret None);
  retained ← decide_retention teardown accepted ServiceRestart;
  finished ← act NowUnix;
  notes ← read_notes;
  mret (Ok (ended_body release_ (if cancellation_was_durable then Cancelled else Ended)
              (with_output (out_output_event_bytes (default no_output observations)) default_counters) observations
              (recovered_terminal response (default None agent_exit_code) accepted retained finished
                 (Z.min (saturating_sub finished (fc_started_at_unix context) * 1000) U64_MAX) notes)))))))))
.
End Session.
