(* ===== verification/Oversight.v ===== *)
(** * Oversight: what the supervisor of a session may do, and what its ending says (src/session.rs)

    [Facts] is what the world has answered so far, read off a history event by
    event; [allowed] decides whether an action may be taken under them.  A
    [lawful] history is one whose every action was allowed when it was taken.  The
    supervisor's programs are proved lawful, and their endings true to the facts,
    by a small Hoare logic over what was seen: [calm] programs are those that
    change none of the facts. *)
From S2P Require Import Prelude Number Utf8 BTree Json JsonTree Schema Stream Usage Generation Authorship Sse Text Serde Turns Requests Utilities Admission Compaction Conversation ServiceError Disk Deliverables Validation Staging Progress Capture Terminal Interaction Supervision.

(** ** What was seen *)

(** The start gate is held; a create request was sent, and answered; the gate was
    opened; the launch decision is held, and no cancellation was seen since it was
    taken; a cancellation was seen; the producer is stopped; the removal succeeded;
    quiescence was asked after, and answered, and nothing is left at all; the
    agent's exit; the capture's own account; the stream as it was read; the bundle. *)
Record Facts := {
  f_gate : bool; f_submitted : bool; f_created : bool; f_released : bool;
  f_launch : bool; f_clear : bool; f_cancelled : bool; f_stopped : bool;
  f_removed : bool; f_torn : bool; f_quiet : bool; f_complete : bool;
  f_exit : option Z; f_capture : option CaptureComplete; f_snapshot : option EventSnapshot; f_bundle : option BundleStats;
}.
Definition set_gate (v : bool) (k : Facts) : Facts :=
  {| f_gate := v; f_submitted := f_submitted k; f_created := f_created k; f_released := f_released k; f_launch := f_launch k; f_clear := f_clear k; f_cancelled := f_cancelled k; f_stopped := f_stopped k; f_removed := f_removed k; f_torn := f_torn k; f_quiet := f_quiet k; f_complete := f_complete k; f_exit := f_exit k; f_capture := f_capture k; f_snapshot := f_snapshot k; f_bundle := f_bundle k |}.
Definition set_submitted (v : bool) (k : Facts) : Facts :=
  {| f_gate := f_gate k; f_submitted := v; f_created := f_created k; f_released := f_released k; f_launch := f_launch k; f_clear := f_clear k; f_cancelled := f_cancelled k; f_stopped := f_stopped k; f_removed := f_removed k; f_torn := f_torn k; f_quiet := f_quiet k; f_complete := f_complete k; f_exit := f_exit k; f_capture := f_capture k; f_snapshot := f_snapshot k; f_bundle := f_bundle k |}.
Definition set_created (v : bool) (k : Facts) : Facts :=
  {| f_gate := f_gate k; f_submitted := f_submitted k; f_created := v; f_released := f_released k; f_launch := f_launch k; f_clear := f_clear k; f_cancelled := f_cancelled k; f_stopped := f_stopped k; f_removed := f_removed k; f_torn := f_torn k; f_quiet := f_quiet k; f_complete := f_complete k; f_exit := f_exit k; f_capture := f_capture k; f_snapshot := f_snapshot k; f_bundle := f_bundle k |}.
Definition set_released (v : bool) (k : Facts) : Facts :=
  {| f_gate := f_gate k; f_submitted := f_submitted k; f_created := f_created k; f_released := v; f_launch := f_launch k; f_clear := f_clear k; f_cancelled := f_cancelled k; f_stopped := f_stopped k; f_removed := f_removed k; f_torn := f_torn k; f_quiet := f_quiet k; f_complete := f_complete k; f_exit := f_exit k; f_capture := f_capture k; f_snapshot := f_snapshot k; f_bundle := f_bundle k |}.
Definition set_launch (v : bool) (k : Facts) : Facts :=
  {| f_gate := f_gate k; f_submitted := f_submitted k; f_created := f_created k; f_released := f_released k; f_launch := v; f_clear := f_clear k; f_cancelled := f_cancelled k; f_stopped := f_stopped k; f_removed := f_removed k; f_torn := f_torn k; f_quiet := f_quiet k; f_complete := f_complete k; f_exit := f_exit k; f_capture := f_capture k; f_snapshot := f_snapshot k; f_bundle := f_bundle k |}.
Definition set_clear (v : bool) (k : Facts) : Facts :=
  {| f_gate := f_gate k; f_submitted := f_submitted k; f_created := f_created k; f_released := f_released k; f_launch := f_launch k; f_clear := v; f_cancelled := f_cancelled k; f_stopped := f_stopped k; f_removed := f_removed k; f_torn := f_torn k; f_quiet := f_quiet k; f_complete := f_complete k; f_exit := f_exit k; f_capture := f_capture k; f_snapshot := f_snapshot k; f_bundle := f_bundle k |}.
Definition set_cancelled (v : bool) (k : Facts) : Facts :=
  {| f_gate := f_gate k; f_submitted := f_submitted k; f_created := f_created k; f_released := f_released k; f_launch := f_launch k; f_clear := f_clear k; f_cancelled := v; f_stopped := f_stopped k; f_removed := f_removed k; f_torn := f_torn k; f_quiet := f_quiet k; f_complete := f_complete k; f_exit := f_exit k; f_capture := f_capture k; f_snapshot := f_snapshot k; f_bundle := f_bundle k |}.
Definition set_stopped (v : bool) (k : Facts) : Facts :=
  {| f_gate := f_gate k; f_submitted := f_submitted k; f_created := f_created k; f_released := f_released k; f_launch := f_launch k; f_clear := f_clear k; f_cancelled := f_cancelled k; f_stopped := v; f_removed := f_removed k; f_torn := f_torn k; f_quiet := f_quiet k; f_complete := f_complete k; f_exit := f_exit k; f_capture := f_capture k; f_snapshot := f_snapshot k; f_bundle := f_bundle k |}.
Definition set_removed (v : bool) (k : Facts) : Facts :=
  {| f_gate := f_gate k; f_submitted := f_submitted k; f_created := f_created k; f_released := f_released k; f_launch := f_launch k; f_clear := f_clear k; f_cancelled := f_cancelled k; f_stopped := f_stopped k; f_removed := v; f_torn := f_torn k; f_quiet := f_quiet k; f_complete := f_complete k; f_exit := f_exit k; f_capture := f_capture k; f_snapshot := f_snapshot k; f_bundle := f_bundle k |}.
Definition set_torn (v : bool) (k : Facts) : Facts :=
  {| f_gate := f_gate k; f_submitted := f_submitted k; f_created := f_created k; f_released := f_released k; f_launch := f_launch k; f_clear := f_clear k; f_cancelled := f_cancelled k; f_stopped := f_stopped k; f_removed := f_removed k; f_torn := v; f_quiet := f_quiet k; f_complete := f_complete k; f_exit := f_exit k; f_capture := f_capture k; f_snapshot := f_snapshot k; f_bundle := f_bundle k |}.
Definition set_quiet (v : bool) (k : Facts) : Facts :=
  {| f_gate := f_gate k; f_submitted := f_submitted k; f_created := f_created k; f_released := f_released k; f_launch := f_launch k; f_clear := f_clear k; f_cancelled := f_cancelled k; f_stopped := f_stopped k; f_removed := f_removed k; f_torn := f_torn k; f_quiet := v; f_complete := f_complete k; f_exit := f_exit k; f_capture := f_capture k; f_snapshot := f_snapshot k; f_bundle := f_bundle k |}.
Definition set_complete (v : bool) (k : Facts) : Facts :=
  {| f_gate := f_gate k; f_submitted := f_submitted k; f_created := f_created k; f_released := f_released k; f_launch := f_launch k; f_clear := f_clear k; f_cancelled := f_cancelled k; f_stopped := f_stopped k; f_removed := f_removed k; f_torn := f_torn k; f_quiet := f_quiet k; f_complete := v; f_exit := f_exit k; f_capture := f_capture k; f_snapshot := f_snapshot k; f_bundle := f_bundle k |}.
Definition set_exit (v : option Z) (k : Facts) : Facts :=
  {| f_gate := f_gate k; f_submitted := f_submitted k; f_created := f_created k; f_released := f_released k; f_launch := f_launch k; f_clear := f_clear k; f_cancelled := f_cancelled k; f_stopped := f_stopped k; f_removed := f_removed k; f_torn := f_torn k; f_quiet := f_quiet k; f_complete := f_complete k; f_exit := v; f_capture := f_capture k; f_snapshot := f_snapshot k; f_bundle := f_bundle k |}.
Definition set_capture (v : option CaptureComplete) (k : Facts) : Facts :=
  {| f_gate := f_gate k; f_submitted := f_submitted k; f_created := f_created k; f_released := f_released k; f_launch := f_launch k; f_clear := f_clear k; f_cancelled := f_cancelled k; f_stopped := f_stopped k; f_removed := f_removed k; f_torn := f_torn k; f_quiet := f_quiet k; f_complete := f_complete k; f_exit := f_exit k; f_capture := v; f_snapshot := f_snapshot k; f_bundle := f_bundle k |}.
Definition set_snapshot (v : option EventSnapshot) (k : Facts) : Facts :=
  {| f_gate := f_gate k; f_submitted := f_submitted k; f_created := f_created k; f_released := f_released k; f_launch := f_launch k; f_clear := f_clear k; f_cancelled := f_cancelled k; f_stopped := f_stopped k; f_removed := f_removed k; f_torn := f_torn k; f_quiet := f_quiet k; f_complete := f_complete k; f_exit := f_exit k; f_capture := f_capture k; f_snapshot := v; f_bundle := f_bundle k |}.
Definition set_bundle (v : option BundleStats) (k : Facts) : Facts :=
  {| f_gate := f_gate k; f_submitted := f_submitted k; f_created := f_created k; f_released := f_released k; f_launch := f_launch k; f_clear := f_clear k; f_cancelled := f_cancelled k; f_stopped := f_stopped k; f_removed := f_removed k; f_torn := f_torn k; f_quiet := f_quiet k; f_complete := f_complete k; f_exit := f_exit k; f_capture := f_capture k; f_snapshot := f_snapshot k; f_bundle := v |}.
Definition at_start : Facts :=
  {| f_gate := false; f_submitted := false; f_created := false; f_released := false; f_launch := false; f_clear := false; f_cancelled := false; f_stopped := false; f_removed := false; f_torn := false; f_quiet := false; f_complete := false; f_exit := None; f_capture := None; f_snapshot := None; f_bundle := None |}.
(** A recovery does not know how far the execution went, and takes it that containers were created. *)
Definition at_recovery : Facts :=
  {| f_gate := false; f_submitted := true; f_created := false; f_released := false; f_launch := false; f_clear := false; f_cancelled := false; f_stopped := false; f_removed := false; f_torn := false; f_quiet := false; f_complete := false; f_exit := None; f_capture := None; f_snapshot := None; f_bundle := None |}.

Definition answer {A} (r : service A) : option A := match r with Ok a => Some a | Err _ => None end.

(** What an answer adds to the facts. *)
Definition exited (r : service Z) (k : Facts) : Facts := match r with Ok code => set_stopped true (set_exit (Some code) k) | Err _ => k end.
Definition learn (k : Facts) (a : Action) : reply a → Facts :=
  match a return reply a → Facts with
  | LockStartGate => fun r => set_gate (presence (answer r)) k
  | UnlockStartGate => fun _ => set_released true k
  | DropStartGate => fun _ => set_gate false k
  | LockLaunch => fun _ => set_launch true (set_clear false k)
  | UnlockLaunch => fun _ => set_launch false (set_clear false k)
  | CancelRequested => fun cancelled => set_cancelled (f_cancelled k || cancelled) (set_clear (f_launch k && negb cancelled) k)
  | CreateTopology => fun r =>
      let k := set_submitted true (set_quiet false (set_complete false k)) in
      match r with Created => set_created true k | CreationFailed _ => k | CreationCancelled => set_cancelled true k end
  | AwaitReady => fun r => match r with Some _ => k | None => set_cancelled true k end
  | AwaitAgent => fun r => match r with AgentExited r => exited r k | CaptureExited _ => k | CancelSeen => set_cancelled true k end
  | AwaitAgentOnly => fun r => match r with Some r => exited r k | None => set_cancelled true k end
  | AgentExit => fun r => match r with Ok code => set_exit (Some code) k | Err _ => k end
  | StopSession => fun r => set_stopped (f_stopped k || presence (answer r)) k
  | RemoveSession => fun r => set_removed (presence (answer r)) (set_stopped (f_stopped k || presence (answer r)) k)
  | ProveQuiescent => fun r =>
      let k := set_torn true k in
      match r with
      | Ok state => set_quiet (quiescent state) (set_complete (f_removed k && all_absent state && quiescent state) k)
      | Err _ => set_quiet false (set_complete false k)
      end
  | DrainCapture => fun r => set_cancelled (f_cancelled k || r.1) (set_capture (answer r.2) k)
  | AwaitCapture => fun r => set_capture (answer r) k
  | ReadEvents _ => fun r => set_snapshot (default None (answer r)) k
  | CreateBundle => fun r => set_bundle (answer r) k
  | _ => fun _ => k
  end.

(** The captured files, as they were last looked at: whether each holds what the
    capture says it wrote. *)
Record Watch := { facts : Facts; events_proved : bool; stderr_proved : bool }.
Definition watching (k : Facts) : Watch := {| facts := k; events_proved := false; stderr_proved := false |}.
Definition holds (r : StatOutcome) (bytes : option Z) : bool :=
  match r, bytes with StatFound info, Some bytes => exact_file 384 info && (fi_len info =? bytes) | _, _ => false end.
Definition see (w : Watch) (a : Action) (r : reply a) : Watch :=
  {| facts := learn (facts w) a r;
     events_proved := match a return reply a → bool with
                      | Stat p => fun r => if decide (p = events_jsonl) then holds r (events_bytes <$> f_capture (facts w)) else events_proved w
                      | _ => fun _ => events_proved w
                      end r;
     stderr_proved := match a return reply a → bool with
                      | Stat p => fun r => if decide (p = OutputFile "qwen.stderr") then holds r (stderr_bytes <$> f_capture (facts w)) else stderr_proved w
                      | _ => fun _ => stderr_proved w
                      end r |}.
Definition watch (w : Watch) (h : list Event) : Watch := fold_left (fun w e => see w (did e) (got e)) h w.

(** ** The authority *)

(** Containers are made once, behind the locked start gate; the gate is opened only
    under the launch decision, once they are there and no cancellation was seen
    since the decision was taken, and otherwise let go only before they are asked
    for, or after they were torn down.  Nothing is asked of containers that were
    never made; a capture is awaited once its producer is stopped; the stream is
    certified once its files hold what the capture wrote; and a tree that
    containers had is bundled only when the last answer is that it is quiescent. *)
Definition allowed (w : Watch) (a : Action) : bool :=
  let k := facts w in
  match a with
  | ExtractArchive | RemoveArchive => negb (f_submitted k)
  | LockStartGate => negb (f_gate k) && negb (f_submitted k)
  | CreateTopology => f_gate k && negb (f_submitted k)
  | UnlockStartGate => f_gate k && f_created k && f_launch k && f_clear k && negb (f_released k)
  | DropStartGate => f_gate k && (negb (f_submitted k) || f_released k || f_torn k)
  | LockLaunch => negb (f_launch k)
  | UnlockLaunch => f_launch k
  | AwaitReady | AwaitAgent | AwaitAgentOnly | AgentExit => f_created k && f_released k
  | StopSession | RemoveSession | SessionLogs | ProveQuiescent => f_submitted k
  | DrainCapture | AwaitCapture => f_submitted k && f_stopped k
  | ReadEvents _ => events_proved w && stderr_proved w
  | CreateBundle => negb (f_submitted k) || f_quiet k
  | _ => true
  end.

Definition lawful (w : Watch) (h : list Event) : Prop := ∀ before e after, h = before ++ e :: after → allowed (watch w before) (did e) = true.

(** ** A logic of what was seen *)

(** From [w] a program does only what is allowed, and what it returns and has seen
    is as said. *)
Fixpoint guarded {A} (m : interaction A) (Q : A → Watch → Prop) (w : Watch) : Prop :=
  match m with
  | Return a => Q a w
  | Perform a k => allowed w a = true ∧ ∀ r : reply a, guarded (k r) Q (see w a r)
  end.

Lemma watch_snoc w h e : watch w (h ++ [e]) = see (watch w h) (did e) (got e).
Proof. unfold watch. by rewrite fold_left_app. Qed.

Lemma watched_snoc w h e : lawful w h → allowed (watch w h) (did e) = true → lawful w (h ++ [e]).
Proof.
  intros Hlaw Hper before f after Heq. destruct after as [|g after _] using rev_ind.
  - apply app_inj_tail in Heq as [-> ->]. exact Hper.
  - rewrite app_comm_cons, app_assoc in Heq. apply app_inj_tail in Heq as [-> ->]. by eapply Hlaw.
Qed.

Lemma guarded_wp {A} (m : interaction A) Q w h :
  guarded m Q (watch w h) → lawful w h → wp m (fun a h' => lawful w h' ∧ Q a (watch w h')) h.
Proof.
  revert h. induction m as [a|a k IH]; intros h Hg Hlaw; [done|]. destruct Hg as (Hper & Hg). intros r.
  apply IH; [by rewrite watch_snoc|by apply watched_snoc].
Qed.

Lemma guarded_mono {A} (m : interaction A) (Q Q' : A → Watch → Prop) w :
  guarded m Q w → (∀ a w', Q a w' → Q' a w') → guarded m Q' w.
Proof. intros Hg HQ. revert w Hg. induction m as [a|a k IH]; intros w Hg; [by apply HQ|]. destruct Hg as (Hper & Hg). split; [done|]. intros r. by apply IH. Qed.

Lemma guarded_bind {A B} (m : interaction A) (f : A → interaction B) Q w :
  guarded m (fun a w' => guarded (f a) Q w') w → guarded (bind_interaction m f) Q w.
Proof. revert w. induction m as [a|a k IH]; intros w Hg; [done|]. destruct Hg as (Hper & Hg). split; [done|]. intros r. by apply IH. Qed.

Definition triple {A} (w : Watch) (n : Notes) (m : supervisor A) (Q : A → Notes → Watch → Prop) : Prop :=
  guarded (m n) (fun an w' => Q an.1 an.2 w') w.

Lemma triple_ret {A} w n (a : A) (Q : A → Notes → Watch → Prop) : Q a n w → triple w n (mret a) Q.
Proof. done. Qed.

Lemma triple_mono {A} w n (m : supervisor A) (Q Q' : A → Notes → Watch → Prop) :
  triple w n m Q → (∀ a n' w', Q a n' w' → Q' a n' w') → triple w n m Q'.
Proof. intros Hm HQ. eapply guarded_mono; [exact Hm|]. intros [a n'] w'. apply HQ. Qed.

Lemma triple_bind {A B} w n (m : supervisor A) (f : A → supervisor B) Q :
  triple w n m (fun a n' w' => triple w' n' (f a) Q) → triple w n (m ≫= f) Q.
Proof. apply guarded_bind. Qed.

Lemma triple_act w n a (Q : reply a → Notes → Watch → Prop) : allowed w a = true → (∀ r, Q r n (see w a r)) → triple w n (act a) Q.
Proof. by split. Qed.

Lemma triple_note w n d (Q : unit → Notes → Watch → Prop) :
  Q tt {| diagnostics := diagnostics n ++ [d]; process_error := process_error n |} w → triple w n (note d) Q.
Proof. done. Qed.

Lemma triple_try {A B} w n (m : fallible A) (f : A → fallible B) (Q : service B → Notes → Watch → Prop) :
  triple w n m (fun r n' w' => match r with Ok a => triple w' n' (f a) Q | Err e => Q (Err e) n' w' end) → triple w n (try m f) Q.
Proof. intros Hm. apply triple_bind. eapply triple_mono; [exact Hm|]. by intros [a|e] n' w' HQ. Qed.

(** *** Programs that change no fact *)

(** Diagnostics are only added, and an error is never taken back. *)
Definition grew (n n' : Notes) : Prop := diagnostics n `prefix_of` diagnostics n' ∧ (process_error n = true → process_error n' = true).
Definition noted (d : str) (n : Notes) : Notes := {| diagnostics := diagnostics n ++ [d]; process_error := process_error n |}.
Definition marked (n : Notes) : Notes := {| diagnostics := diagnostics n; process_error := true |}.

Lemma grew_refl n : grew n n.
Proof. by split. Qed.
Lemma grew_trans n n' n'' : grew n n' → grew n' n'' → grew n n''.
Proof. intros (Hd & He) (Hd' & He'). split; [by etrans|auto]. Qed.
Lemma grew_noted d n : grew n (noted d n).
Proof. split; [by eexists|done]. Qed.
Lemma grew_marked n : grew n (marked n).
Proof. by split. Qed.
#[export] Hint Resolve grew_refl grew_noted grew_marked : oversight.

Lemma noted_some n n' d : grew (noted d n) n' → diagnostics n' ≠ [].
Proof. intros ((rest & Hd) & _) Hnil. rewrite Hnil in Hd. cbn in Hd. destruct (diagnostics n); by cbn in Hd. Qed.
Lemma grew_after_note d n n' : grew (noted d n) n' → grew n n'.
Proof. apply grew_trans, grew_noted. Qed.
Lemma grew_nil n n' : grew n n' → diagnostics n' = [] → diagnostics n = [].
Proof. intros ((rest & Hd) & _) Hnil. rewrite Hnil in Hd. by destruct (diagnostics n). Qed.
Lemma grew_fine n n' : grew n n' → process_error n' = false → process_error n = false.
Proof. intros (_ & He) Hfine. destruct (process_error n); [|done]. by rewrite He in Hfine. Qed.

(** [same true]: not even what is known of the captured files changes. *)
Definition same (still : bool) (w w' : Watch) : Prop := facts w' = facts w ∧ (still = true → w' = w).
Definition calm (still : bool) {A} (m : supervisor A) : Prop := ∀ w n, triple w n m (fun _ n' w' => grew n n' ∧ same still w w').

Lemma same_refl still w : same still w w.
Proof. by split. Qed.
Lemma same_trans still w w' w'' : same still w w' → same still w' w'' → same still w w''.
Proof. intros (Hf & Hw) (Hf' & Hw'). split; [congruence|]. intros Hs. rewrite (Hw' Hs). auto. Qed.
#[export] Hint Resolve same_refl : oversight.

(** Actions that are always allowed and that no fact depends on. *)
Definition mild (still : bool) (a : Action) : bool :=
  match a with
  | Stat _ => negb still
  | Publish _ _ _ | LatestProgress | ProgressHistory | OpenAndRead _ | OpenAtTail _ _ | ReadBack _ | WriteNew _ _ | SyncDirectory _
  | PublishRecord _ | EnsureRecoveryDirs | ReadObservations _ | NowUnix | ElapsedMs => true
  | _ => false
  end.

Lemma mild_same still w a r : mild still a = true → same still w (see w a r).
Proof. destruct still, w; destruct a; done. Qed.
Lemma mild_allowed still w a : mild still a = true → allowed w a = true.
Proof. by destruct a. Qed.

Lemma calm_ret still {A} (a : A) : calm still (mret a).
Proof. intros w n. split; [apply grew_refl|apply same_refl]. Qed.
Lemma calm_act still a : mild still a = true → calm still (act a).
Proof. intros Hm w n. apply triple_act; [by eapply mild_allowed|]. intros r. split; [apply grew_refl|by apply mild_same]. Qed.
Lemma calm_note still d : calm still (note d).
Proof. intros w n. apply triple_note. split; [apply (grew_noted d n)|apply same_refl]. Qed.
Lemma calm_erred still : calm still erred.
Proof. intros w n. split; [apply (grew_marked n)|apply same_refl]. Qed.
Lemma calm_read_notes still : calm still read_notes.
Proof. intros w n. split; [apply grew_refl|apply same_refl]. Qed.
Lemma calm_bind still {A B} (m : supervisor A) (f : A → supervisor B) : calm still m → (∀ a, calm still (f a)) → calm still (m ≫= f).
Proof.
  intros Hm Hf w n. apply triple_bind. eapply triple_mono; [apply Hm|]. intros a n' w' (Hgrew & Hsame).
  eapply triple_mono; [apply Hf|]. intros b n'' w'' (Hgrew' & Hsame'). split; [by eapply grew_trans|by eapply same_trans].
Qed.
Lemma calm_try still {A B} (m : fallible A) (f : A → fallible B) : calm still m → (∀ a, calm still (f a)) → calm still (try m f).
Proof. intros Hm Hf. apply calm_bind; [done|]. intros [a|e]; [apply Hf|apply calm_ret]. Qed.
Lemma calm_noting still {A} context (m : fallible A) : calm still m → calm still (noting context m).
Proof. intros Hm. apply calm_bind; [done|]. intros [a|e]; [apply calm_ret|]. apply calm_bind; [apply calm_note|intros; apply calm_ret]. Qed.
Lemma calm_failing still {A} context (m : fallible A) : calm still m → calm still (failing context m).
Proof. intros Hm. apply calm_bind; [by apply calm_noting|]. intros [a|]; [apply calm_ret|]. apply calm_bind; [apply calm_erred|intros; apply calm_ret]. Qed.
#[export] Hint Resolve calm_ret calm_note calm_erred calm_read_notes calm_noting calm_failing : oversight.

(** Walk through a program, as far as its parts are known to be calm. *)
Ltac calm_walk :=
  repeat first
    [ solve [auto with oversight]
    | apply calm_act; reflexivity
    | apply calm_try; [|intros ?]
    | apply calm_bind; [|intros ?]
    | apply calm_noting
    | apply calm_failing
    | match goal with |- calm _ (match ?x with _ => _ end) => destruct x end
    | match goal with |- calm _ (let '(_, _) := ?x in _) => destruct x end ].

Lemma triple_calm still {A} w n (m : supervisor A) (Q : A → Notes → Watch → Prop) :
  calm still m → (∀ a n' w', grew n n' → same still w w' → Q a n' w') → triple w n m Q.
Proof. intros Hm HQ. eapply triple_mono; [apply Hm|]. intros a n' w' (Hgrew & Hsame). by apply HQ. Qed.

Lemma triple_noting {A} w n context (m : fallible A) (Q : option A → Notes → Watch → Prop) :
  triple w n m (fun r n' w' => match r with Ok a => Q (Some a) n' w' | Err _ => ∀ d, Q None (noted d n') w' end) → triple w n (noting context m) Q.
Proof. intros Hm. apply triple_bind. eapply triple_mono; [exact Hm|]. intros [a|e] n' w' HQ; [done|]. by apply HQ. Qed.

Lemma triple_failing {A} w n context (m : fallible A) (Q : option A → Notes → Watch → Prop) :
  triple w n m (fun r n' w' => match r with Ok a => Q (Some a) n' w' | Err _ => ∀ d, Q None (marked (noted d n')) w' end) → triple w n (failing context m) Q.
Proof. intros Hm. apply triple_bind, triple_noting. eapply triple_mono; [exact Hm|]. intros [a|e] n' w' HQ; [done|]. intros d. by apply HQ. Qed.

(** A calm step that may fail leaves a diagnostic, or the flag, when it does. *)
Lemma triple_calm_noting still {A} w n context (m : fallible A) (Q : option A → Notes → Watch → Prop) :
  calm still m → (∀ r n' w', grew n n' → same still w w' → (diagnostics n' = [] → is_Some r) → Q r n' w') → triple w n (noting context m) Q.
Proof.
  intros Hm HQ. apply triple_noting. eapply triple_mono; [apply Hm|]. intros [a|e] n' w' (Hgrew & Hsame).
  - apply HQ; [done|done|by eexists].
  - intros d. apply HQ; [by eapply grew_trans; [|apply grew_noted]|done|]. intros Hnil. by eapply noted_some in Hnil; [|apply grew_refl].
Qed.
Lemma triple_calm_failing still {A} w n context (m : fallible A) (Q : option A → Notes → Watch → Prop) :
  calm still m → (∀ r n' w', grew n n' → same still w w' → (process_error n' = false → is_Some r) → Q r n' w') → triple w n (failing context m) Q.
Proof.
  intros Hm HQ. apply triple_failing. eapply triple_mono; [apply Hm|]. intros [a|e] n' w' (Hgrew & Hsame).
  - apply HQ; [done|done|by eexists].
  - intros d. apply HQ; [eapply grew_trans; [exact Hgrew|]; eapply grew_trans; [apply grew_noted|apply grew_marked]|done|done].
Qed.

Section Calm.
Context `{StreamContract} `{QuoteOps} (cfg : Config) (session_id : str) (context : FailureContext).

Lemma write_private_file_calm still p bytes : calm still (write_private_file cfg session_id p bytes).
Proof. unfold write_private_file. calm_walk. Qed.
Lemma sync_directory_calm still p label : calm still (sync_directory cfg session_id p label).
Proof. unfold sync_directory. calm_walk. Qed.
Lemma read_exact_calm still p mode max role : calm still (read_exact_owned_regular_file cfg session_id p mode max role).
Proof. unfold read_exact_owned_regular_file. calm_walk. Qed.
Hint Resolve write_private_file_calm sync_directory_calm read_exact_calm : oversight.

Lemma ensure_record_calm p mode max role existing stat expected contradiction publish :
  calm false (ensure_record cfg session_id p mode max role existing stat expected contradiction publish).
Proof. unfold ensure_record. calm_walk. Qed.
Hint Resolve ensure_record_calm : oversight.
Lemma ensure_prompt_calm prompt : calm false (ensure_prompt_record cfg session_id prompt).
Proof. unfold ensure_prompt_record. auto with oversight. Qed.
Lemma ensure_budget_calm turns : calm false (ensure_turn_budget_record cfg session_id turns).
Proof. unfold ensure_turn_budget_record, ensure_sealed_control_record. auto with oversight. Qed.
Lemma ensure_deliverables_calm d : calm false (ensure_deliverables_record cfg session_id d).
Proof. unfold ensure_deliverables_record, ensure_sealed_control_record. auto with oversight. Qed.

Lemma ensure_forensic_calm p contents : calm false (ensure_private_forensic_file cfg session_id p contents).
Proof. unfold ensure_private_forensic_file. calm_walk. Qed.
Hint Resolve ensure_forensic_calm : oversight.
Lemma mark_retained_calm still cause : calm still (mark_raw_evidence_retained cfg session_id cause).
Proof. unfold mark_raw_evidence_retained. calm_walk. Qed.
Hint Resolve mark_retained_calm : oversight.
Lemma retain_calm cause words : calm false (retain_raw_evidence cfg session_id cause words).
Proof. unfold retain_raw_evidence. calm_walk. Qed.
Lemma read_exit_calm still : calm still read_exit_code.
Proof. unfold read_exit_code. calm_walk. Qed.
Lemma stderr_account_calm still : calm still (client_stderr_account cfg session_id).
Proof. unfold client_stderr_account. calm_walk. Qed.
Lemma capture_output_calm p bytes label : calm false (validate_capture_output cfg session_id p bytes label).
Proof. unfold validate_capture_output. calm_walk. Qed.
Hint Resolve capture_output_calm : oversight.
Lemma completed_capture_calm capture : calm false (validate_completed_capture cfg session_id capture).
Proof. unfold validate_completed_capture. calm_walk. Qed.
Lemma operator_calm still : calm still (read_operator_task cfg session_id).
Proof. unfold read_operator_task. auto with oversight. Qed.
Hint Resolve operator_calm : oversight.
Lemma session_output_calm : calm false (read_session_output_progress cfg session_id).
Proof. unfold read_session_output_progress. calm_walk. Qed.
Hint Resolve session_output_calm : oversight.
Lemma recovery_output_calm : calm false (read_output_progress_for_recovery cfg session_id).
Proof. unfold read_output_progress_for_recovery. auto with oversight. Qed.
Lemma preserve_calm label sidecars : calm false (preserve cfg session_id label sidecars).
Proof. induction sidecars as [|[p contents] sidecars IH]; cbn [preserve]; calm_walk. Qed.
Lemma preserve_noting_calm label sidecars : calm false (preserve_noting cfg session_id label sidecars).
Proof. induction sidecars as [|[p contents] sidecars IH]; cbn [preserve_noting]; calm_walk. Qed.
Lemma preserve_all_calm sidecars : calm false (preserve_all cfg session_id sidecars).
Proof. induction sidecars as [|[p contents] sidecars IH]; cbn [preserve_all]; calm_walk. Qed.
Lemma reporter_calm still b : calm still (apply_reporter_progress b).
Proof. unfold apply_reporter_progress. calm_walk. Qed.
Lemma escalated_calm still outcome : calm still (record_escalated_stop outcome).
Proof. unfold record_escalated_stop. calm_walk. Qed.
Lemma record_exit_calm still code : calm still (record_exit cfg session_id code).
Proof. unfold record_exit. calm_walk. Qed.
Lemma flag_calm still b : calm still (flag b).
Proof. unfold flag. calm_walk. Qed.
Hint Resolve flag_calm : oversight.
Lemma diagnosed_calm still : calm still diagnosed.
Proof. unfold diagnosed. calm_walk. Qed.
Lemma decide_retention_calm teardown accepted phase : calm false (decide_retention cfg session_id teardown accepted phase).
Proof. unfold decide_retention. destruct (raw_retention_decision _ _ _) as [[cause words]|]; [apply retain_calm|apply calm_ret]. Qed.
End Calm.
#[export] Hint Resolve write_private_file_calm sync_directory_calm ensure_prompt_calm ensure_budget_calm ensure_deliverables_calm ensure_forensic_calm
  retain_calm read_exit_calm stderr_account_calm completed_capture_calm operator_calm session_output_calm recovery_output_calm preserve_calm
  preserve_noting_calm preserve_all_calm reporter_calm escalated_calm record_exit_calm flag_calm diagnosed_calm decide_retention_calm : oversight.

(** ** What an ending is true to *)

(** A certified result is the snapshot's, with its observations, and it names as
    missing only what the session declared. *)
Definition certified_by (k : Facts) (b : SessionBody) (c : CertifiedResult) : Prop :=
  ∃ s r, f_snapshot k = Some s ∧ es_certified s = Ok r ∧ c = certified_result r
         ∧ (∀ missing, cr_missing_deliverables c = Some missing → is_ordered_subset missing (paths (sb_deliverables b)) = true)
         ∧ sb_observed_usage b = Some (out_observed_usage (es_observed s)) ∧ sb_num_turns b = out_num_turns (es_observed s)
         ∧ sb_observed_subagent_scope_count b = Some (out_observed_subagent_scope_count (es_observed s))
         ∧ sb_observed_unaccounted_records b = Some (out_observed_unaccounted_records (es_observed s)).

(** The agent ended as its record says: the one exit of its subtype, read twice. *)
Definition ended_as_recorded `{StreamContract} (t : SessionTerminal) : Prop :=
  ∃ c code, tl_agent_result t = Some c ∧ terminal_exit_code (cr_agent_result_subtype c) = Some code
            ∧ tl_container_exit_code t = Some code ∧ tl_agent_exit_code t = Some code.

Record true_ending `{StreamContract} (k : Facts) (b : SessionBody) (t : SessionTerminal) : Prop := {
  te_status : sb_status b = Ended ∨ (sb_status b = Cancelled ∧ f_cancelled k = true);
  te_bundle : tl_bundle t = f_bundle k;
  te_exit : tl_container_exit_code t = f_exit k;
  te_certified : ∀ c, tl_agent_result t = Some c → certified_by k b c;
  te_retained : tl_raw_session_tree_retained t = true → tl_bundle t = None ∨ f_complete k = false;
  te_process : tl_is_process_error t = false →
    is_Some (tl_bundle t) ∧ tl_raw_session_tree_retained t = false ∧ (f_submitted k = true → f_complete k = true)
    ∧ (sb_status b = Ended → tl_teardown_diagnostics t = [] ∧ ended_as_recorded t);
}.
Definition ends_true `{StreamContract} (k : Facts) (b : SessionBody) : Prop := ∃ t, sb_terminal b = Some t ∧ true_ending k b t.

Section Endings.
Context `{StreamContract} `{QuoteOps} (cfg : Config) (session_id : str) (context : FailureContext).

(** The reporter's last word changes nothing but what the progress is, and a late
    failure is an error. *)
Lemma mark_true k b t d : true_ending k b t → true_ending k (with_late_error d b) (mark_error d t).
Proof. intros []. constructor; cbn; try done. Qed.

Lemma reporter_true k b w n :
  ends_true k b → triple w n (apply_reporter_progress b) (fun b' n' w' => ends_true k b' ∧ same true w w').
Proof.
  intros Hends.
  assert (Hlate : ∀ d b, ends_true k b → ends_true k (with_late_error d b)).
  { intros d b' (t & Ht & Htrue). exists (mark_error d t). split; [cbn; by rewrite Ht|by apply mark_true]. }
  assert (Hprogress : ∀ e b, ends_true k b → ends_true k (apply_progress b e)).
  { intros e b' (t & Ht & []). exists t. by split. }
  assert (Hevents : ∀ es b, ends_true k b → ends_true k (with_progress_events es b)).
  { intros es b' (t & Ht & []). exists t. by split. }
  apply triple_bind, triple_act; [done|]. intros latest. cbv zeta.
  apply triple_bind, triple_act; [done|]. intros history. apply triple_ret.
  split; [|destruct w; done]. destruct latest, history; auto.
Qed.

Lemma retention_none teardown accepted phase :
  raw_retention_decision teardown accepted phase = None ↔ proved_quiescent teardown = true ∧ accepted = true ∧ complete teardown = true.
Proof. unfold raw_retention_decision. destruct (proved_quiescent teardown), accepted, (complete teardown), phase; naive_solver. Qed.

(** Evidence is retained only for want of a bundle or of a complete teardown. *)
Lemma retention_triple teardown accepted phase w n :
  triple w n (decide_retention cfg session_id teardown accepted phase) (fun retained n' w' =>
    grew n n' ∧ same false w w'
    ∧ (proved_quiescent teardown = true → is_Some accepted → complete teardown = true → retained = false ∧ n' = n)).
Proof.
  destruct (raw_retention_decision teardown (presence accepted) phase) as [[cause words]|] eqn:Hdecision.
  - eapply (triple_calm false); [auto with oversight|]. intros retained n' w' Hgrew Hsame. split_and!; try done.
    intros Hquiet Haccepted%presence_spec Hcomplete. exfalso.
    pose proof (proj2 (retention_none teardown (presence accepted) phase) (conj Hquiet (conj Haccepted Hcomplete))). congruence.
  - unfold decide_retention. rewrite Hdecision. apply triple_ret. split_and!; auto with oversight.
Qed.

(** *** Teardown *)
Definition torn (k : Facts) (removed stopped quiet complete_ : bool) : Facts :=
  set_complete complete_ (set_quiet quiet (set_torn true (set_removed removed (set_stopped stopped k)))).

Lemma remove_and_prove_triple label w n :
  f_submitted (facts w) = true →
  triple w n (remove_and_prove_quiescent label) (fun t n' w' =>
    grew n n' ∧ (∃ removed stopped, facts w' = torn (facts w) removed stopped (proved_quiescent t) (complete t))
    ∧ events_proved w' = events_proved w ∧ stderr_proved w' = stderr_proved w
    ∧ (complete t = true → proved_quiescent t = true) ∧ (diagnostics n' = [] → complete t = true)).
Proof.
  intros Hsub. apply triple_bind, triple_noting, triple_act; [done|]. intros removed.
  set (w1 := see w RemoveSession removed).
  assert (Hrest : ∀ n1, grew n n1 → (removed = Ok tt ∨ diagnostics n1 ≠ []) →
    triple w1 n1 (proof ← act ProveQuiescent; match proof with
      | Ok state =>
          _ ← (if quiescent state then mret tt else note (lit label ++ lit ": broker could not prove filesystem quiescence: " ++ show_state state));
          _ ← (if presence (answer removed) && negb (all_absent state)
               then note (lit label ++ lit ": remove_session reported success but exact-owned containers remain: " ++ show_state state) else mret tt);
          mret {| complete := presence (answer removed) && all_absent state && quiescent state; proved_quiescent := quiescent state |}
      | Err error =>
          _ ← note (lit label ++ lit ": independent post-teardown quiescence proof failed: " ++ display_error error);
          mret {| complete := false; proved_quiescent := false |} end)
      (fun t n' w' =>
        grew n n' ∧ (∃ removed stopped, facts w' = torn (facts w) removed stopped (proved_quiescent t) (complete t))
        ∧ events_proved w' = events_proved w ∧ stderr_proved w' = stderr_proved w
        ∧ (complete t = true → proved_quiescent t = true) ∧ (diagnostics n' = [] → complete t = true))).
  { intros n1 Hgrew Hremoved. apply triple_bind, triple_act; [done|]. intros [state|error].
    - assert (Hfacts : facts (see w1 ProveQuiescent (Ok state)) = torn (facts w) (presence (answer removed)) (f_stopped (facts w) || presence (answer removed))
                         (quiescent state) (presence (answer removed) && all_absent state && quiescent state)) by done.
      apply triple_bind. eapply (triple_mono _ _ _ (fun _ n' w' => grew n1 n' ∧ w' = see w1 ProveQuiescent (Ok state) ∧ (diagnostics n' = [] → quiescent state = true))).
      { destruct (quiescent state); [by split_and!|]. apply triple_note. split_and!; [apply grew_noted|done|]. intros Hnil. by eapply noted_some in Hnil; [|apply grew_refl]. }
      intros _ n2 w2 (Hgrew2 & -> & Hquiet). apply triple_bind.
      eapply (triple_mono _ _ _ (fun _ n' w' => grew n2 n' ∧ w' = see w1 ProveQuiescent (Ok state)
                ∧ (diagnostics n' = [] → presence (answer removed) = true → all_absent state = true))).
      { destruct (presence (answer removed) && negb (all_absent state)) eqn:Hleft.
        - apply triple_note. split_and!; [apply grew_noted|done|]. intros Hnil. by eapply noted_some in Hnil; [|apply grew_refl].
        - apply triple_ret. split_and!; auto with oversight. intros _ Hpresence. rewrite Hpresence in Hleft. by destruct (all_absent state). }
      intros _ n3 w3 (Hgrew3 & -> & Habsent). apply triple_ret. cbn [complete proved_quiescent]. split_and!; try done.
      + eapply grew_trans; [exact Hgrew|]. by eapply grew_trans.
      + eauto.
      + intros Hall. by apply andb_true_iff in Hall as [_ ?].
      + intros Hnil. destruct Hremoved as [->|Hsome]; [|destruct Hsome; eapply grew_nil; [|exact Hnil]; by eapply grew_trans].
        change (presence (answer (Ok ()))) with true in *. rewrite Habsent, Hquiet by (done || by eapply grew_nil). done.
    - apply triple_bind, triple_note, triple_ret. cbn [complete proved_quiescent]. split_and!; try done.
      + eapply grew_trans; [exact Hgrew|apply grew_noted].
      + by exists (presence (answer removed)), (f_stopped (facts w) || presence (answer removed)).
      + intros Hnil. by eapply noted_some in Hnil; [|apply grew_refl]. }
  destruct removed as [[]|e].
  - apply Hrest; [apply grew_refl|by left].
  - intros d. apply Hrest; [apply grew_noted|]. right. intros Hnil. by eapply noted_some in Hnil; [|apply grew_refl].
Qed.

Lemma bundle_triple teardown refusal w n :
  (proved_quiescent teardown = true → f_submitted (facts w) = true → f_quiet (facts w) = true) → f_bundle (facts w) = None →
  triple w n (bundle_quiescent teardown refusal) (fun r n' w' => n' = n ∧ facts w' = set_bundle (answer r) (facts w)).
Proof.
  intros Hallowed Hnone. unfold bundle_quiescent. destruct (proved_quiescent teardown).
  - apply triple_act; [|done]. cbn. destruct (f_submitted (facts w)); [by rewrite Hallowed|done].
  - apply triple_ret. split; [done|]. destruct w as [k ? ?], k; cbn in *. by subst.
Qed.

(** What a teardown leaves of the facts an ending is about. *)
Definition kept (k k' : Facts) : Prop :=
  f_submitted k' = f_submitted k ∧ f_cancelled k' = f_cancelled k ∧ f_exit k' = f_exit k ∧ f_snapshot k' = f_snapshot k ∧ f_bundle k' = f_bundle k.
Definition proved (k : Facts) (t : TeardownProof) : Prop :=
  (f_submitted k = true → f_quiet k = proved_quiescent t ∧ f_complete k = complete t) ∧ (f_submitted k = false → complete t = true)
  ∧ (complete t = true → proved_quiescent t = true).
Definition topology_of (topology : TopologyFinalization) (k : Facts) : Prop :=
  match topology with NeverSubmitted => f_submitted k = false | Submitted gate => f_submitted k = true ∧ f_gate k = gate end.

Lemma kept_refl k : kept k k.
Proof. by split_and!. Qed.

Lemma tear_down_triple topology w n :
  topology_of topology (facts w) →
  triple w n (tear_down topology) (fun lt n' w' => grew n n' ∧ kept (facts w) (facts w') ∧ proved (facts w') lt.2).
Proof.
  intros Htop. destruct topology as [|gate]; cbn [tear_down].
  - apply triple_ret. split_and!; [apply grew_refl|apply kept_refl|]. cbn in Htop. split_and!; [by rewrite Htop|done|done].
  - destruct Htop as (Hsub & Hgate).
    apply triple_bind, triple_failing, triple_act; [done|]. intros logs. set (w1 := see w SessionLogs logs).
    assert (Hrest : ∀ n1 (text : str), grew n n1 → triple w1 n1
       (teardown ← remove_and_prove_quiescent "setup-failure recovery"; _ ← (if gate then act DropStartGate else mret tt); mret (text, teardown))
       (fun lt n' w' => grew n n' ∧ kept (facts w) (facts w') ∧ proved (facts w') lt.2)).
    { intros n1 text Hgrew. apply triple_bind. eapply triple_mono; [by apply remove_and_prove_triple|].
      intros t n2 w2 (Hgrew2 & (removed & stopped & Hfacts) & _ & _ & Hquiet & _). apply triple_bind.
      eapply (triple_mono _ _ _ (fun _ n' w' => n' = n2 ∧ facts w' = (if gate then set_gate false else fun k => k) (facts w2))).
      { destruct gate; [|by apply triple_ret]. apply triple_act; [cbn; rewrite Hfacts; cbn; by rewrite Hgate, orb_true_r|by intros []]. }
      intros _ n3 w3 (-> & Hfacts3). apply triple_ret. split_and!; [by eapply grew_trans| |]; rewrite Hfacts3, Hfacts; destruct gate; (split_and!; cbn; try done; by rewrite Hsub). }
    destruct logs as [logs|error]; [by apply (Hrest n logs), grew_refl|]. intros d.
    apply (Hrest (marked (noted d n))). eapply grew_trans; [apply grew_noted|apply grew_marked].
Qed.

(** *** When normal execution did not begin *)
Lemma flagged c w n (Q : unit → Notes → Watch → Prop) :
  (∀ n', grew n n' → (process_error n' = false → c = true) → Q tt n' w) → triple w n (if c : bool then mret tt else erred) Q.
Proof. intros HQ. destruct c; [by apply triple_ret, HQ|]. apply (HQ (marked n)); [apply grew_marked|done]. Qed.

Lemma kept_facts k w w' : kept k (facts w) → facts w' = facts w → kept k (facts w').
Proof. by intros ? ->. Qed.

(** Follow a chain of notes forward. *)
Ltac grew_chain :=
  solve [repeat match goal with
         | |- grew ?n ?n => apply grew_refl
         | Hg : grew ?n ?n' |- grew ?n _ => apply (grew_trans _ _ _ Hg); clear Hg
         end].
Ltac calmly := eapply (triple_calm false); [solve [auto with oversight | calm_walk]|].
Ltac failingly := eapply (triple_calm_failing false); [solve [auto with oversight | calm_walk]|].
Ltac notingly := eapply (triple_calm_noting false); [solve [auto with oversight | calm_walk]|].
Ltac stillness := eapply (triple_calm true); [solve [auto with oversight | calm_walk]|].

(** The end of a finalization: what becomes of the raw tree, and the body. *)
Lemma finalize_end status response c code observations teardown accepted w n :
  f_bundle (facts w) = accepted → f_exit (facts w) = None → proved (facts w) teardown →
  status = Ended ∨ (status = Cancelled ∧ f_cancelled (facts w) = true) →
  (process_error n = false → status = Cancelled ∧ complete teardown = true ∧ is_Some accepted) →
  triple w n (retained ← decide_retention cfg session_id teardown accepted SetupFailure;
      finished ← act NowUnix; duration ← act ElapsedMs; notes ← read_notes;
      apply_reporter_progress
        (ended_body cfg session_id context (cfg_release cfg) status c observations
           {| tl_finished_at_unix := finished; tl_duration_wall_ms := duration; tl_container_exit_code := None;
              tl_agent_exit_code := code; tl_is_process_error := process_error notes; tl_response := response; tl_agent_result := None;
              tl_bundle := accepted; tl_raw_session_tree_retained := retained; tl_teardown_diagnostics := diagnostics notes |}))
    (fun b _ w' => ends_true (facts w') b).
Proof.
  intros Hbundle Hexit (Hsub & Hnever & Hquiet) Hstatus Hfine. apply triple_bind. eapply triple_mono; [apply retention_triple|].
  intros retained n1 w1 (Hg1 & (Hf1 & _) & Hretained).
  apply triple_bind, triple_act; [done|]. intros finished. apply triple_bind, triple_act; [done|]. intros duration.
  apply triple_bind. change (triple ?w ?n read_notes ?Q) with (Q n n w). cbv beta.
  eapply triple_mono; [apply (reporter_true (facts w))|].
  2: { intros b' n' w' (Hends & (Hf' & _)). rewrite Hf'. cbn [see facts learn]. by rewrite Hf1. }
  eexists. split; [reflexivity|]. constructor; cbn [ended_body sb_status tl_bundle tl_container_exit_code tl_agent_result
    tl_raw_session_tree_retained tl_is_process_error tl_teardown_diagnostics sb_deliverables]; try done.
  - intros ->. destruct accepted as [stats|]; [right|by left]. destruct (f_submitted (facts w)) eqn:Hs.
    + destruct (Hsub eq_refl) as (_ & ->). destruct (complete teardown) eqn:Hc; [|done].
      destruct (Hretained (Hquiet eq_refl)) as [? _]; [by eexists|done|done].
    + destruct (Hretained (Hquiet (Hnever eq_refl))) as [? _]; [by eexists|auto|done].
  - intros Hok. destruct Hfine as (Hcan & Hc & Hsome); [by eapply grew_fine|]. split_and!; [done| | |congruence].
    + by apply Hretained; [apply Hquiet| |].
    + intros Hs. destruct (Hsub Hs) as (_ & ->). exact Hc.
Qed.

Lemma finalize_triple error status initial c topology w n :
  topology_of topology (facts w) → f_bundle (facts w) = None → f_exit (facts w) = None →
  status = Ended ∨ (status = Cancelled ∧ f_cancelled (facts w) = true) →
  triple w n (finalize_setup_failure cfg session_id context error status initial c topology) (fun b _ w' => ends_true (facts w') b).
Proof.
  intros Htop Hnone Hexit Hstatus. unfold finalize_setup_failure. cbv zeta.
  set (n0 := {| diagnostics := initial; process_error := negb (bool_decide (status = Cancelled)) |}).
  apply triple_bind. change (triple w n (with_notes n0) ?Q) with (Q tt n0 w). cbv beta.
  apply triple_bind. failingly. intros latest n1 w1 Hg1 (Hf1 & _) _. cbv zeta.
  generalize (match latest with Some latest => merge_progress_counters (counters latest) c | None => c end). intros c1.
  apply triple_bind. failingly. intros _ n2 w2 Hg2 (Hf2 & _) _.
  apply triple_bind. eapply triple_mono; [apply tear_down_triple; by rewrite Hf2, Hf1|].
  intros [logs teardown] n3 w3 (Hg3 & (Ksub & Kcan & Kexit & Ksnap & Kbundle) & Hprove & Hnever & Hquiet). cbn [snd] in *. cbn beta iota.
  apply triple_bind, flagged. intros n4 Hg4 Hcomplete.
  apply triple_bind. failingly. intros _ n5 w5 Hg5 (Hf5 & _) _.
  apply triple_bind. calmly. intros _ n6 w6 Hg6 (Hf6 & _).
  apply triple_bind. failingly. intros code n7 w7 Hg7 (Hf7 & _) _.
  apply triple_bind. failingly. intros observations n8 w8 Hg8 (Hf8 & _) _. cbv zeta.
  apply triple_bind. failingly. intros _ n9 w9 Hg9 (Hf9 & _) _.
  assert (Hf : facts w9 = facts w3) by congruence.
  assert (Hgrew : grew n4 n9) by grew_chain.
  assert (Hgrew0 : grew n0 n4) by grew_chain.
  apply triple_bind, triple_failing. eapply triple_mono.
  { apply bundle_triple; rewrite Hf; [|congruence]. intros Hq Hs. rewrite <- Hq. by apply Hprove. }
  intros r n10 w10 (-> & Hf10).
  assert (Hend : ∀ n11, grew n9 n11 → (process_error n11 = false → is_Some (answer r)) →
    process_error n11 = false → status = Cancelled ∧ complete teardown = true ∧ is_Some (answer r)).
  { intros n11 Hg11 Hsome Hok. pose proof (grew_fine _ _ Hg11 Hok) as Hok9. pose proof (grew_fine _ _ Hgrew Hok9) as Hok4.
    split_and!; [|auto|auto]. pose proof (grew_fine _ _ Hgrew0 Hok4) as Hok0. cbn in Hok0. by apply negb_false_iff, bool_decide_eq_true in Hok0. }
  assert (Hlast : f_bundle (facts w10) = answer r ∧ f_exit (facts w10) = None ∧ proved (facts w10) teardown
                  ∧ (status = Ended ∨ (status = Cancelled ∧ f_cancelled (facts w10) = true))).
  { rewrite Hf10, Hf. split_and!; [done|cbn; congruence|by split_and!|]. cbn. rewrite Kcan, Hf2, Hf1. exact Hstatus. }
  destruct Hlast as (Hl1 & Hl2 & Hl3 & Hl4).
  destruct r as [stats|failure].
  - apply finalize_end; try done. apply Hend; [apply grew_refl|by eexists].
  - intros d. by apply finalize_end.
Qed.

(** *** The agent's end *)
Definition stands (status : SessionStatus) (k : Facts) : Prop := status = Ended ∨ (status = Cancelled ∧ f_cancelled k = true).
(** What waiting for the agent and draining its capture leave of the facts. *)
Definition awaited (k k' : Facts) : Prop :=
  f_submitted k' = f_submitted k ∧ f_bundle k' = f_bundle k ∧ f_snapshot k' = f_snapshot k ∧ (f_stopped k = true → f_stopped k' = true)
  ∧ (f_cancelled k = true → f_cancelled k' = true) ∧ f_created k' = f_created k ∧ f_released k' = f_released k.

Lemma awaited_refl k : awaited k k.
Proof. by split_and!. Qed.
Lemma awaited_trans k k' k'' : awaited k k' → awaited k' k'' → awaited k k''.
Proof. intros (? & ? & ? & Hs & Hc & ? & ?) (? & ? & ? & Hs' & Hc' & ? & ?). split_and!; try congruence; auto. Qed.

Lemma stop_producer_triple failure w n :
  f_submitted (facts w) = true →
  triple w n (stop_producer failure) (fun stopped n' w' =>
    awaited (facts w) (facts w') ∧ f_exit (facts w') = f_exit (facts w) ∧ (stopped = true → f_stopped (facts w') = true)).
Proof.
  intros Hsub. apply triple_bind, triple_noting, triple_act; [done|]. intros [outcome|error].
  - apply triple_bind. stillness. intros _ n' w' _ (Hf & _). apply triple_ret. rewrite Hf. cbn. split_and!; try done; by rewrite orb_true_r.
  - intros d. apply triple_ret. cbn. rewrite orb_false_r. by split_and!.
Qed.

Definition settled (w w' : Watch) (out : SessionStatus * option Z * bool) : Prop :=
  awaited (facts w) (facts w') ∧ f_exit (facts w') = out.1.2 ∧ (out.2 = true → f_stopped (facts w') = true) ∧ stands out.1.1 (facts w').

Lemma exit_triple failure status stopped w0 w n :
  f_created (facts w) = true → f_released (facts w) = true → f_exit (facts w) = None →
  awaited (facts w0) (facts w) → (stopped = true → f_stopped (facts w) = true) → stands status (facts w) →
  triple w n (code ← noting (lit failure) (act AgentExit); mret (status, code, stopped)) (fun out _ w' => settled w0 w' out).
Proof.
  intros Hc Hr Hexit Haw Hstop Hstands. apply triple_bind, triple_noting, triple_act; [cbn; by rewrite Hc, Hr|].
  intros [code|error]; [|intros d]; apply triple_ret; split_and!; try done; by eapply awaited_trans.
Qed.

Lemma exited_triple r w0 w n :
  f_submitted (facts w0) = true → f_exit (facts w0) = None → facts w = exited r (facts w0) →
  triple w n (agent_exited r) (fun out _ w' => settled w0 w' out).
Proof.
  intros Hsub Hexit Hw. unfold agent_exited. apply triple_bind, triple_noting, triple_ret. destruct r as [code|error].
  - apply triple_ret. unfold settled. rewrite Hw. cbn. split_and!; try done; by left.
  - intros d. cbn in Hw. apply triple_bind. eapply triple_mono; [apply stop_producer_triple; by rewrite Hw|].
    intros stopped n' w' (Haw & Hexit' & Hstop). apply triple_ret. rewrite Hw in *. split_and!; cbn; try done; [congruence|by left].
Qed.

Lemma cancelled_triple w0 w n :
  f_submitted (facts w0) = true → f_created (facts w0) = true → f_released (facts w0) = true → f_exit (facts w0) = None →
  facts w = set_cancelled true (facts w0) →
  triple w n agent_cancelled (fun out _ w' => settled w0 w' out).
Proof.
  intros Hsub Hc Hr Hexit Hw. unfold agent_cancelled. apply triple_bind. eapply triple_mono; [apply stop_producer_triple; by rewrite Hw|].
  intros stopped n1 w1 (Haw & Hexit1 & Hstop). rewrite Hw in *.
  assert (Haw1 : awaited (facts w0) (facts w1)) by (eapply awaited_trans; [|exact Haw]; by split_and!).
  destruct Haw1 as (A1 & A2 & A3 & A4 & A5 & A6 & A7). destruct Haw as (_ & _ & _ & _ & Hcan & _).
  assert (Hall : awaited (facts w0) (facts w1)) by (by split_and!). cbn in Hexit1.
  assert (Hseen : stands Cancelled (facts w1)) by (right; auto).
  apply triple_bind. destruct stopped.
  - apply triple_ret. apply exit_triple; try congruence; auto.
  - apply triple_bind, triple_noting, triple_act; [cbn; congruence|]. intros [[]|error].
    + apply triple_ret. apply exit_triple; try (cbn; congruence); [|intros _; apply orb_true_r|exact Hseen].
      split_and!; try (cbn; congruence); try done. intros _. apply orb_true_r.
    + intros d. apply triple_ret. apply exit_triple; try (cbn; congruence); [|exact Hseen].
      split_and!; try (cbn; congruence); try done. intros Hs. cbn. by rewrite (A4 Hs).
Qed.

Lemma settle_triple w n :
  f_submitted (facts w) = true → f_created (facts w) = true → f_released (facts w) = true → f_exit (facts w) = None →
  triple w n settle_running_agent (fun out _ w' => settled w w' out).
Proof.
  intros Hsub Hc Hr Hexit. assert (Hgo : f_created (facts w) && f_released (facts w) = true) by (by rewrite Hc, Hr).
  apply triple_bind, triple_act; [done|]. intros [r|[capture|error]|].
  - by apply exited_triple.
  - apply triple_bind, triple_act; [done|]. intros [r|]; [by apply exited_triple|by apply cancelled_triple].
  - unfold capture_failed. apply triple_bind, triple_note. apply triple_bind. eapply triple_mono; [by apply stop_producer_triple|].
    intros stopped n1 w1 (Haw & Hexit1 & Hstop). cbn [see facts learn] in *. destruct Haw as (A1 & A2 & A3 & A4 & A5 & A6 & A7).
    apply exit_triple; try congruence; try done; by left.
  - by apply cancelled_triple.
Qed.

(** *** The capture *)
Lemma drain_triple status stopped w n :
  f_submitted (facts w) = true → (stopped = true → f_stopped (facts w) = true) → stands status (facts w) →
  triple w n (drain_capture status stopped) (fun out _ w' =>
    awaited (facts w) (facts w') ∧ f_exit (facts w') = f_exit (facts w) ∧ stands out.1 (facts w')
    ∧ ∀ c, out.2 = Some (Ok c) → f_capture (facts w') = Some c).
Proof.
  intros Hsub Hstop Hstands. unfold drain_capture. destruct stopped.
  - assert (Hgo : f_submitted (facts w) && f_stopped (facts w) = true) by (by rewrite Hsub, Hstop).
    case_decide as Hcan; apply triple_bind, triple_act; try done.
    + intros r. apply triple_ret. split_and!; try done. by intros c [= ->].
    + intros [cancelled r]. apply triple_ret. split; [|split; [done|split]].
      * split_and!; try done. cbn. by intros ->.
      * destruct Hstands as [->|[? _]]; [|done]. destruct cancelled; [right; cbn; by rewrite orb_true_r|by left].
      * by intros c [= ->].
  - apply triple_bind, triple_note, triple_ret. split_and!; try done; apply awaited_refl.
Qed.

Lemma prove_triple r w n :
  (∀ c, r = Some (Ok c) → f_capture (facts w) = Some c) →
  triple w n (prove_capture cfg session_id r) (fun bytes n' w' =>
    facts w' = facts w ∧ (presence bytes = true → events_proved w' = true ∧ stderr_proved w' = true)).
Proof.
  intros Hcap. unfold prove_capture. destruct r as [[c|error]|]; [|by apply triple_bind, triple_note, triple_ret|by apply triple_ret].
  specialize (Hcap c eq_refl). apply triple_bind. unfold validate_completed_capture. apply triple_try, triple_bind, triple_act; [done|].
  intros r. apply triple_ret. destruct r as [info|e|e]; [|by apply triple_bind, triple_note, triple_ret..].
  destruct (exact_file 384 info && (fi_len info =? events_bytes c)) eqn:Hexact; [|by apply triple_bind, triple_note, triple_ret].
  apply triple_bind, triple_act; [done|]. intros r'. apply triple_ret. destruct r' as [info'|e|e]; [|by apply triple_bind, triple_note, triple_ret..].
  destruct (exact_file 384 info' && (fi_len info' =? stderr_bytes c)) eqn:Hexact'; [|by apply triple_bind, triple_note, triple_ret].
  apply triple_ret. split; [done|]. intros _. unfold see. cbn -[exact_file]. by rewrite Hcap.
Qed.

Definition read_from (k : Facts) (observations : option OutputProgress) (parsed : service AgentResult) : Prop :=
  ∀ r, parsed = Ok r → ∃ s, f_snapshot k = Some s ∧ es_certified s = Ok r ∧ observations = Some (es_observed s).

Lemma set_snapshot_same k : set_snapshot (f_snapshot k) k = k.
Proof. by destruct k. Qed.

Lemma read_stream_triple p w n :
  (p = true → events_proved w = true ∧ stderr_proved w = true) →
  triple w n (read_stream cfg session_id p) (fun op n' w' =>
    grew n n' ∧ (∃ x, facts w' = set_snapshot x (facts w)) ∧ read_from (facts w') op.1 op.2).
Proof.
  intros Hp. unfold read_stream. destruct p.
  - destruct (Hp eq_refl) as (Hev & Herr). apply triple_bind, triple_try. stillness.
    intros [operator|error] n1 w1 Hg (Hf & Hsame).
    + rewrite (Hsame eq_refl). apply triple_act; [cbn; by rewrite Hev, Herr|]. intros [[snapshot|]|error].
      * apply triple_ret. split_and!; [done|by eexists|]. intros r Hr. exists snapshot. by split_and!.
      * apply triple_ret. split_and!; [done|by eexists|]. by intros r [=].
      * apply triple_bind, triple_note, triple_ret. split_and!; [by eapply grew_trans; [|apply (grew_noted _ n1)]|by eexists|]. by intros r [=].
    + apply triple_bind, triple_note, triple_ret. split_and!; [by eapply grew_trans; [|apply (grew_noted _ n1)]| |by intros r [=]].
      exists (f_snapshot (facts w)). by rewrite set_snapshot_same.
  - apply triple_bind. calmly. intros observations n1 w1 Hg (Hf & _). apply triple_ret. split_and!; [done| |by intros r [=]].
    exists (f_snapshot (facts w)). by rewrite set_snapshot_same.
Qed.

(** *** The ending of a run *)
Lemma declared_missing_ok parsed r :
  declared_missing context parsed = Ok r →
  parsed = Ok r ∧ ∀ missing, ag_missing_deliverables r = Some missing → is_ordered_subset missing (paths (fc_deliverables context)) = true.
Proof.
  unfold declared_missing. intros (r' & -> & Hr)%bind_ok_inv. destruct (ag_missing_deliverables r') as [missing|] eqn:Hm.
  - cbv zeta in Hr. destruct (is_ordered_subset missing _) eqn:Hsub; cbn [negb] in Hr; [|done]. injection Hr as <-. split; [done|]. intros m Heq. congruence.
  - injection Hr as <-. split; [done|]. intros m Heq. congruence.
Qed.

Lemma report_triple parsed logs w n :
  triple w n (report cfg session_id parsed logs) (fun rr n' w' =>
    grew n n' ∧ same true w w' ∧ ∀ c, rr.2 = Some c → ∃ r, parsed = Ok r ∧ c = certified_result r).
Proof.
  unfold report. destruct parsed as [r|error].
  - apply triple_ret. split_and!; [apply grew_refl|apply same_refl|]. intros c [= <-]. by exists r.
  - apply triple_bind, triple_note, triple_bind. stillness. intros [account|failure] n1 w1 Hg (Hf & Hs).
    + apply triple_bind, triple_ret, triple_ret. split_and!; [by eapply grew_after_note|by split|done].
    + apply triple_bind, triple_bind, triple_note, triple_ret, triple_ret. split_and!; [|by split|done].
      eapply grew_after_note, grew_trans; [exact Hg|apply (grew_noted _ n1)].
Qed.

Lemma flag_triple b w n (Q : unit → Notes → Watch → Prop) :
  (∀ n', grew n n' → diagnostics n' = diagnostics n → (process_error n' = false → b = false) → Q tt n' w) → triple w n (flag b) Q.
Proof. intros HQ. destruct b; [|by apply triple_ret, HQ]. apply (HQ (marked n)); [apply grew_marked|done|done]. Qed.

Lemma diagnosed_triple w n (Q : unit → Notes → Watch → Prop) :
  (∀ n', grew n n' → diagnostics n' = diagnostics n → (process_error n' = false → diagnostics n = []) → Q tt n' w) → triple w n diagnosed Q.
Proof.
  intros HQ. unfold diagnosed. apply triple_bind. change (triple w n read_notes ?P) with (P n n w). cbv beta. apply flag_triple.
  intros n' Hg Hd Hfine. apply HQ; try done. intros Hok. by specialize (Hfine Hok) as Hnil%negb_false_iff%bool_decide_eq_true.
Qed.

Lemma process_outcome_fine status certified container agent :
  (process_outcome status certified container agent).1 = false →
  ∃ subtype_, certified = Some subtype_ ∧ (status = Ended → ∃ code, terminal_exit_code subtype_ = Some code ∧ container = Some code ∧ agent = Some code).
Proof.
  unfold process_outcome. destruct certified as [subtype_|]; [|done]. intros Hfine. exists subtype_. split; [done|]. intros ->.
  case_decide; [|done]. unfold exit_disagreement in Hfine. cbv zeta in Hfine.
  destruct (_ && _ && _) eqn:Hagree; [|done]. apply andb_true_iff in Hagree as [Hagree Ha]. apply andb_true_iff in Hagree as [Hsome Hc]. to_prop.
  destruct Hsome as [code Hcode]. exists code. split_and!; congruence.
Qed.

(** What is known when a run concludes. *)
Record concluding (w : Watch) (n : Notes) (status : SessionStatus) (container : option Z) (teardown : TeardownProof)
    (observations : option OutputProgress) (parsed : service AgentResult) : Prop := {
  cl_submitted : f_submitted (facts w) = true;
  cl_proved : proved (facts w) teardown;
  cl_bundle : f_bundle (facts w) = None;
  cl_exit : f_exit (facts w) = container;
  cl_status : stands status (facts w);
  cl_read : read_from (facts w) observations parsed;
  cl_complete : diagnostics n = [] → complete teardown = true;
}.

(** The end of a run: what becomes of the raw tree, and the body. *)
Lemma conclude_end status container agent teardown c observations response agent_result accepted w n :
  f_bundle (facts w) = accepted → f_exit (facts w) = container → f_submitted (facts w) = true → proved (facts w) teardown → stands status (facts w) →
  (∀ cr, agent_result = Some cr → ∃ s r, f_snapshot (facts w) = Some s ∧ es_certified s = Ok r ∧ observations = Some (es_observed s) ∧ cr = certified_result r
     ∧ ∀ missing, ag_missing_deliverables r = Some missing → is_ordered_subset missing (paths (fc_deliverables context)) = true) →
  (process_error n = false → is_Some accepted) → (diagnostics n = [] → complete teardown = true) →
  (process_error n = false → (process_outcome status (cr_agent_result_subtype <$> agent_result) container agent).1 = false) →
  triple w n (retained ← decide_retention cfg session_id teardown accepted Normal;
      _ ← diagnosed; finished ← act NowUnix; duration ← act ElapsedMs; notes ← read_notes;
      apply_reporter_progress
        (ended_body cfg session_id context (cfg_release cfg) status c observations
           {| tl_finished_at_unix := finished; tl_duration_wall_ms := duration; tl_container_exit_code := container;
              tl_agent_exit_code := agent; tl_is_process_error := process_error notes; tl_response := response; tl_agent_result := agent_result;
              tl_bundle := accepted; tl_raw_session_tree_retained := retained; tl_teardown_diagnostics := diagnostics notes |}))
    (fun b _ w' => ends_true (facts w') b).
Proof.
  intros Hbundle Hexit Hsub (Hprove & _ & Hquiet) Hstatus Hcertified Hsome Hcomplete Hout. destruct (Hprove Hsub) as (_ & Hcomp).
  apply triple_bind. eapply triple_mono; [apply retention_triple|]. intros retained n1 w1 (Hg1 & (Hf1 & _) & Hretained).
  apply triple_bind, diagnosed_triple. intros n2 Hg2 Hd2 Hnil.
  apply triple_bind, triple_act; [done|]. intros finished. apply triple_bind, triple_act; [done|]. intros duration.
  apply triple_bind. change (triple ?w ?n read_notes ?Q) with (Q n n w). cbv beta.
  eapply triple_mono; [apply (reporter_true (facts w))|].
  2: { intros b' n' w' (Hends & (Hf' & _)). rewrite Hf'. cbn [see facts learn]. by rewrite Hf1. }
  eexists. split; [reflexivity|]. constructor; cbn [ended_body sb_status tl_bundle tl_container_exit_code tl_agent_result tl_agent_exit_code
    tl_raw_session_tree_retained tl_is_process_error tl_teardown_diagnostics sb_deliverables]; try done.
  - intros cr Hcr. destruct (Hcertified cr Hcr) as (s & r & Hs & Hr & -> & -> & Hmissing). exists s, r. by split_and!.
  - intros ->. destruct accepted as [stats|]; [right|by left]. rewrite Hcomp. destruct (complete teardown) eqn:Hc; [|done].
    destruct (Hretained (Hquiet eq_refl)) as [? _]; [by eexists|done|done].
  - intros Hok. assert (Hok0 : process_error n = false) by (eapply grew_fine; [exact Hg1|]; by eapply grew_fine).
    assert (Hd1 : diagnostics n1 = []) by auto. assert (Hd0 : diagnostics n = []) by (by eapply grew_nil).
    assert (Hc : complete teardown = true) by auto. split_and!; [by auto| |by rewrite Hcomp|].
    + by apply Hretained; [apply Hquiet|apply Hsome|].
    + intros ->. split; [congruence|]. destruct (process_outcome_fine _ _ _ _ (Hout Hok0)) as (subtype_ & Hsub_ & Hcodes).
      destruct agent_result as [cr|]; [|done]. injection Hsub_ as <-. destruct (Hcodes eq_refl) as (code & ? & ? & ?). by exists cr, code.
Qed.

Lemma conclude_triple status container agent teardown logs staged observed observations parsed w n :
  concluding w n status container teardown observations parsed →
  triple w n (conclude cfg session_id context status container agent teardown logs staged observed observations parsed) (fun b _ w' => ends_true (facts w') b).
Proof.
  intros []. unfold conclude. apply triple_bind. eapply triple_mono; [apply report_triple|].
  intros [response agent_result] n1 w1 (Hg1 & (Hf1 & _) & Hresult). cbn [snd] in Hresult. cbn beta iota.
  destruct (process_outcome status (cr_agent_result_subtype <$> agent_result) container agent) as [erred_ disagreement] eqn:Hout.
  apply triple_bind, flag_triple. intros n2 Hg2 _ Hflag. cbv zeta.
  generalize (match disagreement with Some disagreement => disagreement ++ lit ". " ++ response | None => response end). intros text.
  apply triple_bind, diagnosed_triple. intros n3 Hg3 _ _.
  apply triple_bind. failingly. intros _ n4 w4 Hg4 (Hf4 & _) _.
  apply triple_bind. failingly. intros _ n5 w5 Hg5 (Hf5 & _) _.
  assert (Hf : facts w5 = facts w) by congruence.
  assert (Hgrew : grew n n5) by grew_chain. assert (Hgrew2 : grew n2 n5) by grew_chain.
  apply triple_bind, triple_failing. eapply triple_mono.
  { apply bundle_triple; rewrite Hf; [|congruence]. intros Hq Hs. rewrite <- Hq. by apply cl_proved0. }
  intros r n6 w6 (-> & Hf6).
  assert (Hresults : ∀ cr, agent_result = Some cr → ∃ s ar, f_snapshot (facts w6) = Some s ∧ es_certified s = Ok ar ∧ observations = Some (es_observed s)
     ∧ cr = certified_result ar ∧ ∀ missing, ag_missing_deliverables ar = Some missing → is_ordered_subset missing (paths (fc_deliverables context)) = true).
  { intros cr ->. destruct (Hresult cr eq_refl) as (ar & Hparsed & ->). apply declared_missing_ok in Hparsed as (-> & Hmissing).
    destruct (cl_read0 ar eq_refl) as (s & Hs & Hr & Hobs). exists s, ar. rewrite Hf6, Hf. by split_and!. }
  assert (Hnotes : ∀ n7, grew n5 n7 → (diagnostics n7 = [] → complete teardown = true) ∧ (process_error n7 = false → erred_ = false)).
  { intros n7 Hg7. split.
    - intros Hnil. apply cl_complete0. eapply grew_nil; [|exact Hnil]. by eapply grew_trans.
    - intros Hok. apply Hflag. eapply grew_fine; [exact Hgrew2|]. by eapply grew_fine. }
  assert (Hfacts : f_bundle (facts w6) = answer r ∧ f_exit (facts w6) = container ∧ f_submitted (facts w6) = true ∧ proved (facts w6) teardown
                   ∧ stands status (facts w6)) by (by rewrite Hf6, Hf).
  destruct Hfacts as (K1 & K2 & K3 & K4 & K5).
  destruct r as [stats|failure].
  - destruct (Hnotes n5 (grew_refl _)). apply conclude_end; rewrite ?Hout; done || by eexists.
  - intros d. destruct (Hnotes (marked (noted d n5))); [eapply grew_trans; [apply grew_noted|apply grew_marked]|].
    apply conclude_end; rewrite ?Hout; done.
Qed.

Lemma logs_triple failure w n (Q : option str → Notes → Watch → Prop) :
  f_submitted (facts w) = true → (∀ r n', grew n n' → Q r n' w) → triple w n (noting failure (act SessionLogs)) Q.
Proof.
  intros Hsub HQ. apply triple_noting, triple_act; [done|]. intros [logs|error]; [|intros d];
    (replace (see w SessionLogs _) with w by (by destruct w)); apply HQ; [apply grew_refl|apply grew_noted].
Qed.

(** *** The stages *)
Lemma finish_run_triple staged w n :
  f_submitted (facts w) = true → f_created (facts w) = true → f_released (facts w) = true → f_exit (facts w) = None → f_bundle (facts w) = None →
  triple w n (finish_run cfg session_id context staged) (fun b _ w' => ends_true (facts w') b).
Proof.
  intros Hsub Hcr Hrel Hexit Hbundle. unfold finish_run.
  apply triple_bind. eapply triple_mono; [by apply settle_triple|].
  intros [[status code] stopped] n1 w1 ((Ksub & Kbundle & _ & _ & _ & Kcr & Krel) & Hexit1 & Hstop & Hstatus). cbn [fst snd] in *. cbn beta iota.
  apply triple_bind. notingly. intros _ n2 w2 Hg2 (Hf2 & _) _.
  apply triple_bind. eapply triple_mono; [apply drain_triple; rewrite Hf2; [congruence|done|done]|].
  intros [status' capture] n3 w3 ((Ksub3 & Kbundle3 & _) & Hexit3 & Hstatus3 & Hcapture). cbn [fst snd] in *. cbn beta iota.
  apply triple_bind. eapply triple_mono; [by apply prove_triple|]. intros bytes n4 w4 (Hf4 & Hproved).
  apply triple_bind. stillness. intros _ n5 w5 Hg5 (_ & Hsame5). rewrite (Hsame5 eq_refl). clear Hsame5 w5.
  apply triple_bind, logs_triple; [congruence|]. intros logs n6 Hg6. cbv zeta.
  apply triple_bind. eapply (triple_calm true); [calm_walk|]. intros _ n7 w7 Hg7 (_ & Hsame7). rewrite (Hsame7 eq_refl). clear Hsame7 w7.
  apply triple_bind. eapply triple_mono; [apply remove_and_prove_triple; congruence|].
  intros teardown n8 w8 (Hg8 & (removed & stopped' & Hf8) & Hev & Herr & Hquiet & Hcomplete).
  apply triple_bind. eapply (triple_calm true); [calm_walk|]. intros _ n9 w9 Hg9 (_ & Hsame9). rewrite (Hsame9 eq_refl). clear Hsame9 w9.
  apply triple_bind. stillness. intros exit_ n10 w10 Hg10 (_ & Hsame10). rewrite (Hsame10 eq_refl). clear Hsame10 w10.
  apply triple_bind. eapply (triple_calm true); [calm_walk|]. intros agent n11 w11 Hg11 (_ & Hsame11). rewrite (Hsame11 eq_refl). clear Hsame11 w11.
  apply triple_bind. eapply (triple_calm true); [calm_walk|]. intros _ n12 w12 Hg12 (_ & Hsame12). rewrite (Hsame12 eq_refl). clear Hsame12 w12.
  apply triple_bind. eapply triple_mono; [apply read_stream_triple; rewrite Hev, Herr; exact Hproved|].
  intros [observations parsed] n13 w13 (Hg13 & (x & Hf13) & Hread). cbn [fst snd] in *. cbn beta iota.
  assert (Hgrew : grew n8 n13) by grew_chain.
  apply conclude_triple. constructor; rewrite ?Hf13, ?Hf8; cbn; try congruence.
  - split; [done|split; [cbn; intros Hs; exfalso; congruence|done]].
  - destruct Hstatus3 as [?|[? ?]]; [by left|right]. cbn. by rewrite Hf4.
  - rewrite <- Hf8, <- Hf13. exact Hread.
  - intros Hnil. apply Hcomplete. by eapply grew_nil.
Qed.

Lemma started_triple error status initial c w n :
  f_submitted (facts w) = true → f_gate (facts w) = false → f_bundle (facts w) = None → f_exit (facts w) = None → stands status (facts w) →
  triple w n (finalize_started_setup_failure cfg session_id context error status initial c false) (fun b _ w' => ends_true (facts w') b).
Proof. intros. by apply finalize_triple. Qed.
Lemma gated_triple error status initial c w n :
  f_submitted (facts w) = true → f_gate (facts w) = true → f_bundle (facts w) = None → f_exit (facts w) = None → stands status (facts w) →
  triple w n (finalize_started_setup_failure cfg session_id context error status initial c true) (fun b _ w' => ends_true (facts w') b).
Proof. intros. by apply finalize_triple. Qed.
Lemma pre_agent_triple error status c w n :
  f_submitted (facts w) = false → f_bundle (facts w) = None → f_exit (facts w) = None → stands status (facts w) →
  triple w n (finalize_pre_agent_exit cfg session_id context error status c) (fun b _ w' => ends_true (facts w') b).
Proof. intros. by apply finalize_triple. Qed.

Lemma ended_or_cancelled_triple w n (Q : SessionStatus → Notes → Watch → Prop) :
  (∀ cancelled, Q (if cancelled : bool then Cancelled else Ended) n (see w CancelRequested cancelled)) → triple w n ended_or_cancelled Q.
Proof. intros HQ. apply triple_bind, triple_act; [done|]. intros cancelled. apply triple_ret, HQ. Qed.

Lemma asked_stands cancelled w : stands (if cancelled : bool then Cancelled else Ended) (facts (see w CancelRequested cancelled)).
Proof. destruct cancelled; [right; split; [done|apply orb_true_r]|by left]. Qed.

Lemma ready_triple w n (Q : service ReadyFile → Notes → Watch → Prop) :
  f_created (facts w) = true → f_released (facts w) = true →
  (∀ r n' w', grew n n' → (facts w' = facts w ∨ facts w' = set_cancelled true (facts w)) → Q r n' w') → triple w n (wait_for_agent_ready cfg session_id) Q.
Proof.
  intros Hcr Hrel HQ. apply triple_bind, triple_act; [cbn; by rewrite Hcr, Hrel|]. intros [ready|].
  - eapply (triple_calm false); [calm_walk|]. intros r n' w' Hg (Hf & _). apply HQ; [done|by left].
  - apply triple_ret, HQ; [apply grew_refl|by right].
Qed.

Lemma attend_triple staged w n :
  f_submitted (facts w) = true → f_created (facts w) = true → f_released (facts w) = true → f_gate (facts w) = false →
  f_exit (facts w) = None → f_bundle (facts w) = None →
  triple w n (attend cfg session_id context staged) (fun b _ w' => ends_true (facts w') b).
Proof.
  intros Hsub Hcr Hrel Hgate Hexit Hbundle. apply triple_bind, triple_act; [done|]. intros cancelled. pose proof (asked_stands cancelled w) as Hstands.
  destruct cancelled; [by apply started_triple|]. apply triple_bind, ready_triple; [done|done|]. intros ready n1 w1 _ Hf.
  assert (Hsame : f_submitted (facts w1) = true ∧ f_created (facts w1) = true ∧ f_released (facts w1) = true ∧ f_gate (facts w1) = false
                  ∧ f_exit (facts w1) = None ∧ f_bundle (facts w1) = None) by (by destruct Hf as [->| ->]).
  destruct Hsame as (K1 & K2 & K3 & K4 & K5 & K6). destruct ready as [ready|error].
  - apply triple_bind, triple_act; [done|]. intros [[]|error]; [by apply finish_run_triple|apply started_triple; try done; by left].
  - apply triple_bind, ended_or_cancelled_triple. intros cancelled. apply started_triple; try done. apply asked_stands.
Qed.

(** The gate is opened only under the launch decision, after a look that saw no cancellation. *)
Lemma release_triple staged w n :
  f_submitted (facts w) = true → f_created (facts w) = true → f_gate (facts w) = true → f_launch (facts w) = false → f_released (facts w) = false →
  f_exit (facts w) = None → f_bundle (facts w) = None →
  triple w n (release cfg session_id context staged) (fun b _ w' => ends_true (facts w') b).
Proof.
  intros Hsub Hcr Hgate Hlaunch Hrel Hexit Hbundle. apply triple_bind, triple_act; [cbn; by rewrite Hlaunch|]. intros [].
  apply triple_bind, triple_act; [done|]. intros [].
  - apply triple_bind, triple_act; [done|]. intros []. apply gated_triple; try done. right. split; [done|]. cbn. apply orb_true_r.
  - apply triple_bind, triple_act; [cbn; by rewrite Hgate, Hcr, Hrel|]. intros unlocked.
    apply triple_bind, triple_act; [cbn; by rewrite Hgate, orb_true_r|]. intros [].
    apply triple_bind, triple_act; [done|]. intros []. destruct unlocked as [[]|error]; [by apply attend_triple|apply started_triple; try done; by left].
Qed.

Lemma await_release_triple staged w n :
  f_submitted (facts w) = true → f_created (facts w) = true → f_gate (facts w) = true → f_launch (facts w) = false → f_released (facts w) = false →
  f_exit (facts w) = None → f_bundle (facts w) = None →
  triple w n (await_release cfg session_id context staged) (fun b _ w' => ends_true (facts w') b).
Proof.
  intros. apply triple_bind, triple_act; [done|]. intros cancelled. pose proof (asked_stands cancelled w) as Hstands. destruct cancelled; [by apply gated_triple|].
  apply triple_bind, triple_act; [done|]. intros [[]|error]; [by apply release_triple|apply gated_triple; try done; by left].
Qed.

Lemma create_topology_triple staged w n :
  f_submitted (facts w) = false → f_gate (facts w) = true → f_launch (facts w) = false → f_released (facts w) = false →
  f_exit (facts w) = None → f_bundle (facts w) = None →
  triple w n (create_topology cfg session_id context staged) (fun b _ w' => ends_true (facts w') b).
Proof.
  intros Hsub Hgate Hlaunch Hrel Hexit Hbundle. apply triple_bind, triple_act; [cbn; by rewrite Hsub, Hgate|]. intros [|error|].
  - by apply await_release_triple.
  - apply gated_triple; try done; by left.
  - apply gated_triple; try done; by right.
Qed.

(** Before any container: what a stage may rely on. *)
Definition unsubmitted (k : Facts) : Prop :=
  f_submitted k = false ∧ f_launch k = false ∧ f_released k = false ∧ f_exit k = None ∧ f_bundle k = None.

Lemma unsubmitted_facts k k' : unsubmitted k → k' = k → unsubmitted k'.
Proof. by intros ? ->. Qed.

Lemma prepare_agent_triple staged w n :
  unsubmitted (facts w) → f_gate (facts w) = false → triple w n (prepare_agent cfg session_id context staged) (fun b _ w' => ends_true (facts w') b).
Proof.
  intros (Hsub & Hlaunch & Hrel & Hexit & Hbundle) Hgate. apply triple_bind, triple_act; [cbn; by rewrite Hsub, Hgate|].
  intros [[]|error]; [|apply pre_agent_triple; try done; by left].
  apply triple_bind, triple_act; [done|]. intros [].
  - apply triple_bind, triple_act; [cbn; by rewrite Hsub|]. intros []. apply pre_agent_triple; try done. right. split; [done|]. cbn. apply orb_true_r.
  - apply triple_bind, triple_act; [done|]. intros [[]|error]; [by apply create_topology_triple|].
    apply triple_bind, triple_act; [cbn; by rewrite Hsub|]. intros []. apply pre_agent_triple; try done; by left.
Qed.

Lemma watch_extraction_calm e last_bytes last_entries : calm true (watch_extraction e last_bytes last_entries).
Proof.
  revert last_bytes last_entries. induction e as [r|observed next IH]; intros last_bytes last_entries; cbn [watch_extraction]; [apply calm_ret|].
  case_match; [|apply IH]. apply calm_bind; [by apply calm_act|]. intros published. apply IH.
Qed.

Lemma stage_archive_triple w n :
  unsubmitted (facts w) → f_gate (facts w) = false → triple w n (stage_archive cfg session_id context) (fun b _ w' => ends_true (facts w') b).
Proof.
  intros Hun Hgate. pose proof Hun as (Hsub & Hlaunch & Hrel & Hexit & Hbundle).
  apply triple_bind, triple_act; [cbn; by rewrite Hsub|]. intros extraction.
  apply triple_bind. eapply (triple_calm true); [apply watch_extraction_calm|]. intros staged n1 w1 _ (Hf1 & _). cbn in Hf1.
  assert (Hask : ∀ error n2, triple w1 n2 (status ← ended_or_cancelled; finalize_pre_agent_exit cfg session_id context error status default_counters)
                              (fun b _ w' => ends_true (facts w') b)).
  { intros error n2. apply triple_bind, ended_or_cancelled_triple. intros cancelled.
    apply pre_agent_triple; try (cbn; by rewrite Hf1). apply asked_stands. }
  destruct staged as [[staged|error]|error]; [|apply Hask|apply Hask].
  apply triple_bind, triple_act; [cbn; by rewrite Hf1, Hsub|]. intros [[]|error]; [|apply pre_agent_triple; try (cbn; by rewrite Hf1); by left].
  apply triple_bind, triple_act; [done|]. intros [[]|error]; [|apply pre_agent_triple; try (cbn; by rewrite Hf1); by left].
  apply prepare_agent_triple; [|cbn; by rewrite Hf1]. eapply unsubmitted_facts; [exact Hun|done].
Qed.

Lemma run_one_triple w n :
  unsubmitted (facts w) → f_gate (facts w) = false → triple w n (run_one cfg session_id context) (fun b _ w' => ends_true (facts w') b).
Proof.
  intros Hun Hgate. pose proof Hun as (Hsub & Hlaunch & Hrel & Hexit & Hbundle). apply triple_bind, triple_act; [done|].
  intros [[]|error]; [by apply stage_archive_triple|apply pre_agent_triple; try done; by left].
Qed.

(** *** Recovery *)

(** A recovered ending claims no result, is an error, and has the bundle that was
    made of a tree proved quiescent, if one was. *)
Definition recovered (k : Facts) (b : SessionBody) : Prop :=
  ∃ t, sb_terminal b = Some t ∧ tl_is_process_error t = true ∧ tl_agent_result t = None ∧ tl_container_exit_code t = None
       ∧ tl_bundle t = f_bundle k ∧ (is_Some (tl_bundle t) → f_quiet k = true)
       ∧ (tl_raw_session_tree_retained t = true → tl_bundle t = None ∨ f_complete k = false).

Lemma recover_bundle_triple survived refused stat_failed teardown (attempt : supervisor (option BundleStats)) w n :
  f_bundle (facts w) = None → proved_quiescent teardown = f_quiet (facts w) →
  (∀ n1 w1, facts w1 = facts w → triple w1 n1 attempt (fun a _ w' => facts w' = set_bundle a (facts w) ∧ (is_Some a → f_quiet (facts w) = true))) →
  triple w n (recover_bundle cfg session_id survived refused stat_failed attempt) (fun a _ w' =>
    facts w' = set_bundle a (facts w) ∧ (is_Some a → f_quiet (facts w) = true)).
Proof.
  intros Hnone Hquiet Hattempt. assert (Hkeep : facts w = set_bundle None (facts w)).
  { destruct w as [k ? ?], k; cbn in *; by subst. }
  apply triple_bind, triple_act; [done|]. intros [info|error|error].
  - apply triple_bind. eapply (triple_calm true); [calm_walk|]. intros _ n1 w1 _ (Hf & _). apply triple_ret. split; [rewrite Hf; exact Hkeep|by intros []].
  - by apply Hattempt.
  - apply triple_bind, triple_note, triple_ret. split; [exact Hkeep|by intros []].
Qed.

Lemma attempt_triple failure refusal teardown w n :
  f_submitted (facts w) = true → f_bundle (facts w) = None → proved_quiescent teardown = f_quiet (facts w) →
  triple w n (noting (lit failure) (bundle_quiescent teardown refusal)) (fun a _ w' =>
    facts w' = set_bundle a (facts w) ∧ (is_Some a → f_quiet (facts w) = true)).
Proof.
  intros Hsub Hnone Hquiet. apply triple_noting. unfold bundle_quiescent. rewrite Hquiet. destruct (f_quiet (facts w)) eqn:Hq.
  - apply triple_act; [cbn; by rewrite Hsub, Hq|]. by intros [stats|error].
  - apply triple_ret. intros d. split; [|by intros []]. destruct w as [k ? ?], k; cbn in *; by subst.
Qed.

Lemma recovered_body release_ status c observations response agent accepted retained finished duration n k teardown :
  f_bundle k = accepted → (is_Some accepted → f_quiet k = true) → f_complete k = complete teardown →
  (complete teardown = true → proved_quiescent teardown = true) →
  (proved_quiescent teardown = true → is_Some accepted → complete teardown = true → retained = false) →
  recovered k (ended_body cfg session_id context release_ status c observations (recovered_terminal response agent accepted retained finished duration n)).
Proof.
  intros Hb Hq Hc Hquiet Hret. eexists. split; [reflexivity|]. cbn [recovered_terminal tl_is_process_error tl_agent_result tl_container_exit_code tl_bundle
    tl_raw_session_tree_retained]. split_and!; try done. intros ->. destruct accepted; [right|by left]. rewrite Hc. destruct (complete teardown) eqn:Ht; [|done].
  by discriminate (Hret (Hquiet eq_refl) (mk_is_Some _ _ eq_refl) eq_refl).
Qed.

(** What a recovery knows after its teardown. *)
Definition down (k : Facts) (t : TeardownProof) : Prop :=
  f_submitted k = true ∧ f_bundle k = None ∧ proved_quiescent t = f_quiet k ∧ f_complete k = complete t ∧ (complete t = true → proved_quiescent t = true).

Lemma down_triple label w n :
  f_submitted (facts w) = true → f_bundle (facts w) = None →
  triple w n (remove_and_prove_quiescent label) (fun t _ w' => down (facts w') t).
Proof.
  intros Hsub Hnone. eapply triple_mono; [by apply remove_and_prove_triple|].
  intros t n' w' (_ & (removed & stopped & ->) & _ & _ & Hquiet & _). by split_and!.
Qed.

Lemma stop_and_drain_triple w n :
  f_submitted (facts w) = true → f_bundle (facts w) = None →
  triple w n (stop_and_drain cfg session_id) (fun _ _ w' => f_submitted (facts w') = true ∧ f_bundle (facts w') = None).
Proof.
  intros Hsub Hnone. apply triple_bind. eapply triple_mono; [by apply stop_producer_triple|].
  intros stopped n1 w1 ((K1 & K2 & _) & _ & Hstop). destruct stopped.
  - apply triple_bind, triple_noting, triple_act; [cbn; rewrite Hstop, K1 by done; by rewrite Hsub|].
    intros [capture|error]; [|intros d; apply triple_ret; split; cbn; congruence].
    apply triple_bind. notingly. intros _ n2 w2 _ (Hf & _) _. apply triple_ret. rewrite Hf. split; cbn; congruence.
  - apply triple_note. split; congruence.
Qed.

Lemma preserve_after_panic_triple prompt response logs teardown w n :
  down (facts w) teardown →
  triple w n (preserve_after_panic cfg session_id context prompt response logs teardown) (fun a _ w' =>
    facts w' = set_bundle a (facts w) ∧ (is_Some a → f_quiet (facts w) = true)).
Proof.
  intros (Hsub & Hnone & Hquiet & _). unfold preserve_after_panic. apply triple_bind. notingly. intros [u|] n1 w1 _ (Hf1 & _) _.
  2: { apply triple_ret. split; [|by intros []]. rewrite Hf1. destruct w as [k ? ?], k; cbn in *; by subst. }
  apply triple_bind. notingly. intros _ n2 w2 _ (Hf2 & _) _. apply triple_bind. notingly. intros _ n3 w3 _ (Hf3 & _) _.
  apply triple_bind. notingly. intros _ n4 w4 _ (Hf4 & _) _. apply triple_bind. calmly. intros _ n5 w5 _ (Hf5 & _).
  apply triple_bind. notingly. intros _ n6 w6 _ (Hf6 & _) _. assert (Hf : facts w6 = facts w) by congruence.
  rewrite <- Hf. apply (recover_bundle_triple _ _ _ teardown); rewrite ?Hf; [done|done|].
  intros n7 w7 Hf7. rewrite <- Hf7. apply attempt_triple; by rewrite Hf7.
Qed.

Lemma retained_triple teardown accepted phase w n (Q : bool → Notes → Watch → Prop) :
  (∀ retained n' w', facts w' = facts w → (proved_quiescent teardown = true → is_Some accepted → complete teardown = true → retained = false) → Q retained n' w') →
  triple w n (decide_retention cfg session_id teardown accepted phase) Q.
Proof.
  intros HQ. eapply triple_mono; [apply retention_triple|]. intros retained n' w' (_ & (Hf & _) & Hret).
  apply HQ; [done|]. intros. by apply Hret.
Qed.

Lemma panic_triple prompt cancelled join_error w n :
  f_submitted (facts w) = true → f_bundle (facts w) = None →
  triple w n (recover_after_execution_panic cfg session_id context prompt cancelled join_error) (fun b _ w' => recovered (facts w') b).
Proof.
  intros Hsub Hnone. unfold recover_after_execution_panic. cbv zeta. apply triple_bind. change (triple w n (with_notes ?m) ?Q) with (Q tt m w). cbv beta.
  apply triple_bind. eapply triple_mono; [by apply stop_and_drain_triple|]. intros _ n1 w1 (K1 & K2).
  apply triple_bind, logs_triple; [done|]. intros logs n2 _.
  apply triple_bind. eapply triple_mono; [by apply down_triple|]. intros teardown n3 w3 Hdown.
  apply triple_bind. eapply triple_mono; [by apply preserve_after_panic_triple|]. intros accepted n4 w4 (Hf4 & Hquiet).
  apply triple_bind, retained_triple. intros retained n5 w5 Hf5 Hret.
  apply triple_bind. calmly. intros observations n6 w6 _ (Hf6 & _). apply triple_bind. notingly. intros agent n7 w7 _ (Hf7 & _) _.
  apply triple_bind, triple_act; [done|]. intros finished. apply triple_bind, triple_act; [done|]. intros duration.
  apply triple_bind. change (triple ?w ?n read_notes ?Q) with (Q n n w). cbv beta. apply triple_ret. cbn [see facts learn].
  destruct Hdown as (D1 & D2 & D3 & D4 & D5). rewrite Hf7, Hf6, Hf5, Hf4. by apply (recovered_body _ _ _ _ _ _ _ _ _ _ _ _ teardown).
Qed.

Lemma restart_triple prompt release_ durable w n :
  f_submitted (facts w) = true → f_bundle (facts w) = None →
  triple w n (recover_after_service_restart cfg session_id context prompt release_ durable) (fun r _ w' => ∀ b, r = Ok b → recovered (facts w') b).
Proof.
  intros Hsub Hnone. unfold recover_after_service_restart. cbv zeta.
  apply triple_try. calmly. intros [u1|e] n1 w1 _ (Hf1 & _); [|done].
  apply triple_try. calmly. intros [u2|e] n2 w2 _ (Hf2 & _); [|done].
  apply triple_try. calmly. intros [u3|e] n3 w3 _ (Hf3 & _); [|done].
  apply triple_try. calmly. intros [u4|e] n4 w4 _ (Hf4 & _); [|done].
  assert (Hf : facts w4 = facts w) by congruence.
  apply triple_bind. change (triple w4 n4 (with_notes ?m) ?Q) with (Q tt m w4). cbv beta.
  apply triple_bind, logs_triple; [congruence|]. intros logs n5 _.
  apply triple_bind. eapply triple_mono; [apply down_triple; congruence|]. intros teardown n6 w6 (D1 & D2 & D3 & D4 & D5).
  apply triple_try. calmly. intros [u7|e] n7 w7 _ (Hf7 & _); [|done].
  apply triple_try. calmly. intros [u8|e] n8 w8 _ (Hf8 & _); [|done].
  apply triple_bind. calmly. intros observations n9 w9 _ (Hf9 & _). apply triple_bind. notingly. intros agent n10 w10 _ (Hf10 & _) _.
  assert (Hg : facts w10 = facts w6) by congruence. rewrite <- Hg in *.
  apply triple_bind. eapply triple_mono.
  { apply (recover_bundle_triple _ _ _ teardown); [done|done|]. intros n11 w11 Hf11.
    assert (Hsplit : ∀ words, triple w11 n11 (noting (lit "service-restart forensic bundle failed") (bundle_quiescent teardown words))
              (fun a _ w' => facts w' = set_bundle a (facts w10) ∧ (is_Some a → f_quiet (facts w10) = true))).
    { intros words. rewrite <- Hf11. apply attempt_triple; by rewrite Hf11. }
    destruct (proved_quiescent teardown) eqn:Hq.
    - specialize (Hsplit "-"%string). unfold bundle_quiescent in Hsplit. by rewrite Hq in Hsplit.
    - apply triple_bind, triple_note, triple_ret. split; [|by intros []]. rewrite Hf11. destruct w10 as [k ? ?], k; cbn in *; by subst. }
  intros accepted n11 w11 (Hf11 & Hquiet).
  apply triple_bind, retained_triple. intros retained n12 w12 Hf12 Hret.
  apply triple_bind, triple_act; [done|]. intros finished.
  apply triple_bind. change (triple ?w ?n read_notes ?Q) with (Q n n w). cbv beta. apply triple_ret. cbn [see facts learn].
  intros b [= <-]. rewrite Hf12, Hf11. by apply (recovered_body _ _ _ _ _ _ _ _ _ _ _ _ teardown).
Qed.
End Endings.

(** ** Every run *)
Section Runs.
Context `{StreamContract} `{QuoteOps} (cfg : Config) (session_id : str) (context : FailureContext).

Lemma triple_run {A} (m : supervisor A) (Q : A → Notes → Watch → Prop) k n env :
  triple (watching k) n m Q →
  lawful (watching k) (run env [] (m n)).2 ∧ Q (run env [] (m n)).1.1 (run env [] (m n)).1.2 (watch (watching k) (run env [] (m n)).2).
Proof.
  intros Hm. apply (wp_run (m n) (fun an h => lawful (watching k) h ∧ Q an.1 an.2 (watch (watching k) h))).
  apply (guarded_wp (m n) (fun an w => Q an.1 an.2 w)); [exact Hm|]. intros before e after Heq. by destruct before.
Qed.

(** C5: whatever the broker, the file system, the clock and a cancellation answer, and
    whenever, the supervisor of a session does only what it may -- it makes
    containers once and behind the locked start gate, opens the gate only under the
    launch decision and when no cancellation was seen since it was taken, asks
    nothing of containers that were never made, certifies the stream only when its
    files hold what the capture wrote, and bundles a tree that containers had only
    when the last answer is that it is quiescent -- and so do the recoveries after a
    panic and after a restart. *)
Theorem supervision_lawful (env : Environment) (n : Notes) (prompt join_error : str) (release_ : ReleaseIdentity) (cancelled : bool) :
  lawful (watching at_start) (run env [] (run_one cfg session_id context n)).2
  ∧ lawful (watching at_recovery) (run env [] (recover_after_execution_panic cfg session_id context prompt cancelled join_error n)).2
  ∧ lawful (watching at_recovery) (run env [] (recover_after_service_restart cfg session_id context prompt release_ cancelled n)).2.
Proof.
  split_and!; eapply triple_run; [by apply run_one_triple|by apply panic_triple|by apply restart_triple].
Qed.

(** C6: the ending of a run is true to what was seen: it is cancelled only if a
    cancellation was seen, its bundle is the one that was made, its exit the one
    that was waited for, a certified result is the one read from the stream and
    names as missing only what was declared, and an ending that is no process
    error has its bundle, left nothing running and retained nothing raw, and, unless
    cancelled, has no diagnostic and ended with the exit its own record names. *)
Theorem ending_sound (env : Environment) (n : Notes) :
  let out := run env [] (run_one cfg session_id context n) in ends_true (facts (watch (watching at_start) out.2)) out.1.1.
Proof. eapply (triple_run _ (fun b _ w => ends_true (facts w) b)). by apply run_one_triple. Qed.

(** C31: a recovery infers no success: its ending is an error without a certified
    result and without an exit, its bundle was made of a tree proved quiescent after
    the teardown, and the raw tree is retained only for want of a bundle or of a
    complete teardown. *)
Theorem recovery_claims_nothing (env : Environment) (n : Notes) (prompt join_error : str) (release_ : ReleaseIdentity) (cancelled : bool) :
  (let out := run env [] (recover_after_execution_panic cfg session_id context prompt cancelled join_error n) in
   recovered (facts (watch (watching at_recovery) out.2)) out.1.1)
  ∧ (let out := run env [] (recover_after_service_restart cfg session_id context prompt release_ cancelled n) in
     ∀ b, out.1.1 = Ok b → recovered (facts (watch (watching at_recovery) out.2)) b).
Proof.
  split; [eapply (triple_run _ (fun b _ w => recovered (facts w) b)); by apply panic_triple|].
  eapply (triple_run _ (fun r _ w => ∀ b, r = Ok b → recovered (facts w) b)). by apply restart_triple.
Qed.
End Runs.

(** ** A whole run

    The archive is staged, the containers are made, the agent ends as its record
    says, and everything holds: no process error, a bundle, nothing retained. *)
Module Demo.
Definition demo_contract : StreamContract := example_contract.
Definition demo_result : AgentResult :=
  {| ag_is_error := false; ag_subtype := lit "success"; ag_response := lit "done"; ag_duration_ms := 7; ag_api_duration_ms := 5; ag_num_turns := 1;
     ag_main_kv_scope := lit "main"; ag_usage := no_requests; ag_request_scopes := []; ag_scopes := []; ag_missing_deliverables := None |}.
Definition demo_snapshot : EventSnapshot :=
  {| es_observed := no_output; es_replay_completion := ReachedBoundary; es_certified := Ok demo_result; es_wire_sha256 := [] |}.
Definition demo_bundle : BundleStats :=
  {| bs_sha256 := repeat 48 64; bs_compressed_bytes := 9; bs_uncompressed_bytes := 10; bs_file_count := 2; bs_artifacts_file_count := 1 |}.
Definition demo_info (mode len : Z) : FileInfo :=
  {| fi_file := true; fi_dir := false; fi_symlink := false; fi_uid := 1000; fi_gid := 1000; fi_mode := mode; fi_len := len |}.
Definition demo_event : ProgressEvent :=
  {| revision := 9; at_unix_ms := 1; phase := Bundling; message := lit "m"; counters := default_counters |}.
Definition demo_config : Config :=
  {| vllm_model_name := lit "model"; max_model_len := 4096; state_dir := lit "/state"; records_dir := lit "/records";
     cfg_release := {| implementation_commit := []; images := {| ri_agent := []; ri_relay := []; ri_capture := []; ri_broker := []; ri_service := [] |};
                       backend := {| be_image_id := []; be_launch_profile := [] |} |} |}.
Definition demo_context : FailureContext :=
  {| fc_prompt_preview := lit "do"; fc_max_session_turns := 5; fc_deliverables := {| paths := []; json := lit "[]" |}; fc_archive_bytes := 10;
     fc_archive_sha256 := []; fc_started_at_unix := 100 |}.
Definition demo_ready : ReadyFile := {| rf_model := lit "model"; rf_context_window := 4096; rf_token_count := 3; rf_sandbox := READY_SANDBOX |}.
Definition demo_staged : StagingProgress := {| copied_bytes := 10; copied_entries := 2; copied_regular_files := 1 |}.
Definition gone : SessionQuiescence :=
  {| agent_present := false; agent_running := false; relay_present := false; relay_running := false; capture_present := false;
     capture_running := false; quiescent := true |}.

(** The world when all goes well; [cancel_asked] makes the cancellation seen at that look. *)
Definition looks (h : list Event) : nat := length (List.filter (fun e => match did e with CancelRequested => true | _ => false end) h).
Definition world (cancel_asked : option nat) : Environment := fun h a =>
  match a return reply a with
  | Publish _ _ _ => Ok tt
  | LatestProgress => Ok demo_event
  | ProgressHistory => Ok [demo_event]
  | ExtractArchive => ExtractionReports demo_staged (fun r => ExtractionEnds (Ok (_ ← r; Ok demo_staged)))
  | RemoveArchive | SyncDirectory _ | UnlockStartGate => Ok tt
  | Stat p => match p with OutputFile "events.jsonl" => StatFound (demo_info 384 20) | OutputFile "qwen.stderr" => StatFound (demo_info 384 0)
                         | _ => StatMissing (lit "not found") end
  | OpenAndRead p => match p with
                     | OutputFile "qwen-exit-code" => OpenRead_ (demo_info 384 2) (Ok [48; 10])
                     | _ => OpenRead_ (demo_info 420 2) (Ok (lit "do"))
                     end
  | OpenAtTail _ _ => Tail (demo_info 384 0) (Ok tt) (Ok [])
  | ReadBack _ => Ok (@encode_ready plain_quote demo_ready ++ [10])
  | WriteNew _ _ => Written
  | PublishRecord _ | EnsureRecoveryDirs | LockStartGate | RemoveSession => Ok tt
  | ReadEvents _ => Ok (Some demo_snapshot)
  | ReadObservations _ => Ok no_output
  | CreateBundle => Ok demo_bundle
  | DropStartGate | LockLaunch | UnlockLaunch => tt
  | CancelRequested => match cancel_asked with Some i => (looks h =? i)%nat | None => false end
  | CreateTopology => Created
  | AwaitReady => Some (Ok demo_ready)
  | AwaitAgent => CaptureExited (Ok {| events_bytes := 20; stderr_bytes := 0 |})
  | AwaitAgentOnly => Some (Ok 0)
  | AgentExit => Ok 0
  | StopSession => Ok {| escalated := false; grace_seconds := 60 |}
  | DrainCapture => (false, Ok {| events_bytes := 20; stderr_bytes := 0 |})
  | AwaitCapture => Ok {| events_bytes := 20; stderr_bytes := 0 |}
  | SessionLogs => Ok (lit "logs")
  | ProveQuiescent => Ok gone
  | NowUnix => 200
  | ElapsedMs => 100000
  end.

Definition demo_run (cancel_asked : option nat) : SessionBody * list Event :=
  let out := run (world cancel_asked) [] (@run_one demo_contract plain_quote demo_config (lit "s") demo_context no_notes) in (out.1.1, out.2).
Definition ending_of (b : SessionBody) : option (SessionStatus * bool * list str * option CertifiedResult * option BundleStats) :=
  (fun t => (sb_status b, tl_is_process_error t, tl_teardown_diagnostics t, tl_agent_result t, tl_bundle t)) <$> sb_terminal b.

Example a_whole_run : ending_of (demo_run None).1 = Some (Ended, false, [], Some (certified_result demo_result), Some demo_bundle).
Proof. vm_compute. reflexivity. Qed.

(** A cancellation that is seen at any look of the supervisor's ends it cancelled,
    without a result; seen under the launch decision, with the gate never opened. *)
Example a_cancelled_run : Forall (fun i =>
  ending_of (demo_run (Some i)).1 = Some (Cancelled, false, [], None, Some demo_bundle)) [0; 1; 2; 3]%nat.
Proof. repeat constructor; vm_compute; reflexivity. Qed.
Example the_gate_stays_locked : Forall (fun i =>
  existsb (fun e => match did e with UnlockStartGate => true | _ => false end) (demo_run (Some i)).2 = false) [0; 1; 2]%nat.
Proof. repeat constructor; vm_compute; reflexivity. Qed.
End Demo.
