(* ===== verification/Publication.v ===== *)
(** * Publication: how an ending becomes the session's terminal record (src/runtime.rs, api.rs)

    The ending of a session is prepared as a private draft, made durable; the raw
    tree is removed, or kept with its marker; then the draft is linked to its public
    name.  A start of the service resumes a draft a crash left and settles a
    publication that was cut short.  Here are the transaction, its resumption, the
    startup's reading of a committed record and the readers' checks, over module
    Site.  What an error quotes of paths and of the system's errors is left out. *)
From S2P Require Import Prelude Number Utf8 BTree Json JsonTree Schema Stream Usage Generation Authorship Sse Text Serde Turns Requests Utilities Admission Compaction Conversation ServiceError Disk Deliverables Progress Validation Capture Terminal Interaction Refusals Docker Supervision Site.

Definition MAX_ACCEPTANCE_RECORD_BYTES : Z :=
  6 * Z.of_nat MAX_PROMPT_BYTES + MAX_DELIVERABLES_JSON_BYTES + 5 * (MAX_DELIVERABLES_JSON_BYTES / 4) + 3 + 65536.
Definition MAX_TERMINAL_RECORD_BYTES : Z := 128 * 1024 * 1024.
Definition RESULT_RECORD_SCHEMA : Z := 7.

Global Instance Deliverables_eq_dec : EqDecision Deliverables.
Proof. solve_decision. Defined.
Global Instance ProgressEvent_eq_dec : EqDecision ProgressEvent.
Proof. assert (EqDecision ProgressCounters) by solve_decision. solve_decision. Defined.

Record AcceptanceRecord := {
  ac_schema_version : Z; ac_session_id : str; ac_accepted_at_unix : Z; ac_archive_bytes : Z; ac_archive_sha256 : str;
  ac_prompt : str; ac_max_session_turns : Z; ac_deliverables : Deliverables; ac_release : ReleaseIdentity;
}.

(** serde_json on the service's records: [to_vec_pretty] and [from_slice]. *)
Class RecordCodec := {
  body_json : SessionBody → str;
  body_of_json : str → option SessionBody;
  acceptance_of_json : str → option AcceptanceRecord;
}.

Definition FINISHED : str := lit "finished.json".
Definition DRAFT : str := lit "finished.json.tmp".
Definition BUNDLE : str := lit "bundle.tar.zst".
Definition MARKER : str := lit "raw-evidence-retained.txt".
Definition ACCEPTED : str := lit "accepted.json".
Definition PROGRESS : FilePath := {| parent := Some (lit "records/session"); file_name := lit "progress.json" |}.

(** A file that is the service's own and private. *)
Definition private_file (f : Inode) : bool :=
  bool_decide (file_type f = Regular) && (Z.land (mode f) 511 =? 384) && (uid f =? 1000) && (gid f =? 1000).
Definition private_within (limit : Z) (f : Inode) : bool := private_file f && (Z.of_nat (length (contents f)) <=? limit).

(** [is_safe_session_id]: [s-] and 64 lower-case hexadecimal digits *)
Definition is_safe_session_id (s : str) : bool :=
  (length s =? 66)%nat && bool_decide (take 2 s = lit "s-") && forallb is_lower_hex (drop 2 s).

Definition preview (s : str) : str :=
  let truncated := take 140 (chars s) in
  concat (map encode_utf8 truncated) ++ (if (length truncated <? length (chars s))%nat then encode_utf8 8230 else []).

(** ** Reading one file *)

(** [symlink_metadata] of a name: whether there is an entry. *)
Definition exists_at (context : string) (m : op IoError Inode) : op ServiceError bool :=
  r ← attempt m;
  match r with
  | Ok _ => mret true
  | Err NotFoundError => mret false
  | Err _ => just (internal context)
  end.
Definition path_entry_exists (name : str) (context : string) : op ServiceError bool := exists_at context (in_result (symlink_metadata name)).

(** What an opened file holds, its length compared with what was read. *)
Definition read_opened (file : nat) (role : string) (acceptable : Inode → bool) (inside : ∀ A, io IoError A → op IoError A) : op ServiceError str :=
  metadata ← failing ("fstat opened " ++ role) (inside _ (fstat file));
  if negb (acceptable metadata) then just (internal (role ++ " has unsafe type/mode/owner/size"))
  else
    bytes ← failing ("read opened " ++ role) (inside _ (read_to_end file));
    if negb (length bytes =? length (contents metadata))%nat then just (internal (role ++ " changed length while open"))
    else mret bytes.

Definition terminal_of (b : SessionBody) : service SessionTerminal := ok_or (sb_terminal b) (Internal (lit "terminal body has an ending")).
Definition with_terminal (f : SessionTerminal → SessionTerminal) (b : SessionBody) : SessionBody :=
  {| sb_session_id := sb_session_id b; sb_status := sb_status b; sb_started_at_unix := sb_started_at_unix b; sb_model := sb_model b;
     sb_context_window := sb_context_window b; sb_max_session_turns := sb_max_session_turns b; sb_deliverables := sb_deliverables b;
     sb_release := sb_release b; sb_archive_bytes := sb_archive_bytes b; sb_archive_sha256 := sb_archive_sha256 b;
     sb_prompt_preview := sb_prompt_preview b; sb_progress_revision := sb_progress_revision b;
     sb_progress_at_unix_ms := sb_progress_at_unix_ms b; sb_progress_phase := sb_progress_phase b; sb_progress_message := sb_progress_message b;
     sb_staged_bytes := sb_staged_bytes b; sb_staged_entries := sb_staged_entries b; sb_staged_regular_files := sb_staged_regular_files b;
     sb_output_event_bytes := sb_output_event_bytes b; sb_progress_events := sb_progress_events b; sb_num_turns := sb_num_turns b;
     sb_last_event_at_unix := sb_last_event_at_unix b; sb_observed_usage := sb_observed_usage b;
     sb_observed_subagent_scope_count := sb_observed_subagent_scope_count b;
     sb_observed_unaccounted_records := sb_observed_unaccounted_records b; sb_terminal := f <$> sb_terminal b |}.

(** ** The checks of a terminal record *)
Section Terminals.
Context `{Process} `{ProgressCodec} `{Vocabulary} `{RecordCodec} `{Removal} (cfg : Config).

Definition state_root (session_id : str) : str := place_path cfg session_id SessionRoot.

Definition read_acceptance_file (name : str) (session_id : str) (role : string) : op ServiceError AcceptanceRecord :=
  file ← failing ("open " ++ role ++ " without following links") (in_result (open_nofollow name));
  bytes ← read_opened file role (private_within MAX_ACCEPTANCE_RECORD_BYTES) (@in_result);
  record ← just (ok_or (acceptance_of_json bytes) (Internal (lit role ++ lit " is malformed")));
  if negb (ac_schema_version record =? RESULT_RECORD_SCHEMA) || bool_decide (ac_session_id record ≠ session_id)
  then just (internal (role ++ " has identity/schema drift")) else mret record.

Definition unsupported_handle {A} : service A := invalid_request "session_id is not a supported canonical session handle".

Definition read_acceptance (session_id : str) : op ServiceError AcceptanceRecord :=
  if negb (is_safe_session_id session_id) then just unsupported_handle
  else read_acceptance_file ACCEPTED session_id "durable acceptance record".

Definition parse_terminal_record (bytes session_id : str) : service SessionBody :=
  body ← ok_or (body_of_json bytes) (Internal (lit "terminal record is malformed"));
  if bool_decide (sb_session_id body ≠ session_id) || bool_decide (sb_status body = Running)
  then internal "terminal record has identity/status mismatch"
  else _ ← validate_shape body; Ok body.

Definition open_terminal_body_file (name session_id : str) (role : string) : op ServiceError (SessionBody * nat) :=
  opened ← attempt (in_result (open_nofollow name));
  match opened with
  | Err NotFoundError => just (Err (NotFound session_id))
  | Err _ => just (internal ("open " ++ role ++ " without following links"))
  | Ok file =>
      bytes ← read_opened file role (private_within MAX_TERMINAL_RECORD_BYTES) (@in_result);
      body ← just (parse_terminal_record bytes session_id);
      mret (body, file)
  end.

Definition contradicts (a : AcceptanceRecord) (b : SessionBody) : bool :=
  negb (ac_accepted_at_unix a =? sb_started_at_unix b) || negb (ac_max_session_turns a =? sb_max_session_turns b)
  || bool_decide (ac_deliverables a ≠ sb_deliverables b) || bool_decide (ac_release a ≠ sb_release b)
  || bool_decide (preview (ac_prompt a) ≠ sb_prompt_preview b).

Definition summary_contradicts (latest : ProgressEvent) (b : SessionBody) : bool :=
  negb (sb_progress_revision b =? revision latest) || negb (sb_progress_at_unix_ms b =? at_unix_ms latest)
  || bool_decide (sb_progress_phase b ≠ phase latest) || bool_decide (sb_progress_message b ≠ message latest)
  || (sb_staged_bytes b <? staged_bytes (counters latest)) || (sb_staged_entries b <? staged_entries (counters latest))
  || (sb_staged_regular_files b <? staged_regular_files (counters latest))
  || (sb_output_event_bytes b <? output_event_bytes (counters latest)).

Definition validate_terminal_resource (session_id : str) (b : SessionBody) : op ServiceError unit :=
  _ ← just (validate_shape b);
  if bool_decide (sb_session_id b ≠ session_id) || bool_decide (sb_status b = Running) then just (internal "read_terminal: terminal identity/status drift")
  else if bool_decide (sb_model b ≠ vllm_model_name cfg) || negb (sb_context_window b =? max_model_len cfg)
  then just (internal "read_terminal: model/context drift")
  else
    t ← just (terminal_of b);
    if (sb_started_at_unix b =? 0) || (tl_finished_at_unix t <? sb_started_at_unix b) then just (internal "read_terminal: impossible terminal timestamps")
    else
      acceptance ← read_acceptance session_id;
      if contradicts acceptance b then just (internal "read_terminal: terminal fields contradict the durable acceptance record")
      else
        unpublished ← path_entry_exists (file_name (next_path PROGRESS)) "read_terminal: stat unpublished progress replacement";
        if unpublished : bool then just (internal "read_terminal: unpublished progress replacement remains")
        else
          events ← reading (read_progress_events PROGRESS session_id);
          if bool_decide (events ≠ sb_progress_events b) then just (internal "read_terminal: embedded progress history differs from progress.json")
          else
            latest ← just (ok_or (last events) (Internal (lit "read_terminal: durable progress history is empty")));
            if summary_contradicts latest b
            then just (internal "read_terminal: terminal progress summary contradicts its latest durable event") else mret tt.

(** [api::validate_terminal_storage] *)
Definition validate_terminal_storage (b : SessionBody) : op ServiceError unit :=
  _ ← just (validate_shape b);
  t ← just (ok_or (sb_terminal b) (Internal (lit "terminal storage requires an ending")));
  match tl_bundle t with
  | None =>
      if tl_raw_session_tree_retained t then mret tt
      else
        archive ← path_entry_exists BUNDLE "terminal cannot prove bundle absence";
        if archive : bool then just (internal "terminal does not accept a bundle but one exists") else mret tt
  | Some bundle =>
      metadata ← failing "terminal accepted bundle cannot be stat'd" (in_result (symlink_metadata BUNDLE));
      if negb (private_file metadata) || (length (contents metadata) =? 0)%nat
         || negb (Z.of_nat (length (contents metadata)) =? bs_compressed_bytes bundle)
      then just (internal "terminal accepted bundle metadata drift") else mret tt
  end.

(** ** The marker of a retained tree *)
Definition RETAINED : str := lit "RAW_SESSION_TREE_RETAINED".
Definition causes_without_bundle : list str :=
  map lit ["cause=required-bundle-failure"; "cause=panic-recovery-bundle-failure"; "cause=setup-forensic-bundle-failure";
           "cause=service-restart-bundle-failure"; "cause=container-quiescence-unproved"].
Definition causes_with_bundle : list str := map lit ["cause=container-teardown-incomplete"; "cause=raw-state-cleanup-failure"].

Definition marker_names (session_id : str) (bundled : bool) (contents : str) : bool :=
  let read := text_lines contents in
  let cause := default [] (nth_error read 1) in
  bool_decide (nth_error read 0 = Some RETAINED) && bool_decide (cause ∈ causes_without_bundle ++ causes_with_bundle)
  && bool_decide (cause ∈ if bundled then causes_with_bundle else causes_without_bundle)
  && bool_decide (nth_error read 2 = Some (lit "path=" ++ state_root session_id)) && bool_decide (nth_error read 3 = None).

Definition validate_delete_state_marker (b : SessionBody) : op ServiceError unit :=
  t ← just (terminal_of b);
  opened ← attempt (in_control (open_nofollow MARKER));
  match opened, tl_raw_session_tree_retained t with
  | Err AlreadyExistsError, _ | Err OtherError, _ => just (internal "delete: open raw-evidence marker without following links")
  | Err NotFoundError, false => mret tt
  | Ok _, false => just (internal "delete: terminal does not claim retained evidence but marker exists")
  | Err NotFoundError, true => just (internal "delete: terminal claims retained evidence but marker is absent")
  | Ok file, true =>
      bytes ← read_opened file "delete: retained-evidence marker" (private_within 4096) (@in_control);
      _ ← just (map_err (fun _ => Internal (lit "delete: retained-evidence marker is not UTF-8")) (from_utf8 bytes));
      if marker_names (sb_session_id b) (presence (tl_bundle t)) bytes then mret tt
      else just (internal "delete: retained-evidence marker has invalid contents")
  end.

Definition validate_terminal_state_storage (b : SessionBody) : op ServiceError unit :=
  t ← just (terminal_of b);
  stat ← attempt stat_raw;
  match stat, tl_raw_session_tree_retained t with
  | Ok _, false => just (internal "terminal does not claim retained raw evidence but state path exists")
  | Ok metadata, true =>
      if service_directory metadata then validate_delete_state_marker b
      else just (internal "terminal claims retained raw evidence but it is not the exact service-owned directory")
  | Err NotFoundError, false => mret tt
  | Err NotFoundError, true => just (internal "terminal claims retained raw evidence but its state tree is absent")
  | Err _, _ => just (internal "validate terminal raw-state disposition")
  end.

(** ** The transaction *)
Definition sync_result (context : string) : op ServiceError unit := failing context (in_result sync_dir).

(** [bundle::ensure_service_owned_result_directory] *)
Definition ensure_service_owned_result_directory : op ServiceError unit :=
  created ← attempt create_result;
  created ← (match created with
             | Ok _ => _ ← failing "chmod result directory" (chmod_result 493); mret true
             | Err AlreadyExistsError => mret false
             | Err _ => just (internal "create result directory")
             end : op ServiceError bool);
  metadata ← failing "stat result directory" stat_result;
  if bool_decide (entry_kind metadata ≠ ADirectory) || negb (Z.land (meta_mode metadata) 511 =? 493)
     || negb (meta_uid metadata =? euid) || negb (meta_gid metadata =? egid)
  then just (internal "result directory has unsafe type/mode/owner")
  else if created : bool then failing "sync result root after directory creation" sync_records else mret tt.

(** The destination of a publication must not exist. *)
Definition require_absent (name : str) (refusal stat_failed : string) : op ServiceError unit :=
  r ← attempt (in_result (symlink_metadata name));
  match r with
  | Ok _ => just (internal refusal)
  | Err NotFoundError => mret tt
  | Err _ => just (internal stat_failed)
  end.

Definition prepare_terminal (b : SessionBody) : op ServiceError unit :=
  _ ← just (validate_shape b);
  if negb (presence (sb_terminal b)) then just (internal "cannot prepare a running session as terminal")
  else
    _ ← ensure_service_owned_result_directory;
    _ ← require_absent FINISHED "prepare_terminal: refusing to overwrite existing terminal" "prepare_terminal: stat destination";
    _ ← require_absent DRAFT "prepare_terminal: refusing to overwrite existing draft" "prepare_terminal: stat destination";
    file ← failing "prepare_terminal: create tmp" (in_result (create_new DRAFT 384));
    _ ← failing "prepare_terminal: write tmp" (in_result (write_all file (body_json b)));
    _ ← failing "prepare_terminal: sync tmp" (in_result (sync_all file));
    sync_result "prepare_terminal: sync result directory".

Definition rewrite_prepared_terminal (b : SessionBody) : op ServiceError unit :=
  _ ← just (validate_shape b);
  _ ← require_absent FINISHED "rewrite_prepared_terminal: committed destination unexpectedly exists" "rewrite_prepared_terminal: stat final";
  metadata ← failing "rewrite_prepared_terminal: stat tmp" (in_result (symlink_metadata DRAFT));
  if negb (private_file metadata) then just (internal "rewrite_prepared_terminal: tmp has unsafe type/mode/owner")
  else
    file ← failing "rewrite_prepared_terminal: open tmp without following links" (in_result (open_nofollow DRAFT));
    opened ← failing "rewrite_prepared_terminal: fstat opened tmp" (in_result (fstat file));
    if negb (private_file opened) then just (internal "rewrite_prepared_terminal: opened tmp changed to an unsafe type/mode/owner")
    else
      _ ← failing "rewrite_prepared_terminal: write/sync tmp"
            (_ ← in_result (truncate file); _ ← in_result (write_all file (body_json b)); in_result (sync_all file));
      sync_result "rewrite_prepared_terminal: sync result directory".

Definition commit_prepared_terminal : op ServiceError unit :=
  _ ← require_absent FINISHED "commit_prepared_terminal: refusing to overwrite existing terminal" "commit_prepared_terminal: stat final";
  _ ← failing "commit_prepared_terminal: no-clobber publish" (in_result (hard_link DRAFT FINISHED));
  _ ← sync_result "commit_prepared_terminal: sync published final";
  _ ← failing "commit_prepared_terminal: remove published tmp link" (in_result (remove_file DRAFT));
  sync_result "commit_prepared_terminal: sync tmp-link removal".

(** What went wrong, or nothing; the modes within the tree, which the removal
    first widens, are not represented. *)
Definition diagnosed_by (m : op ServiceError unit) : op ServiceError (list str) :=
  r ← attempt m; mret (match r with Ok _ => [] | Err error => [display_error error] end).
Definition remove_terminalized_state : op ServiceError (list str) :=
  stat ← attempt stat_raw;
  match stat with
  | Err NotFoundError => diagnosed_by (failing "terminalization: sync absent raw session tree" sync_sessions)
  | Err _ => mret [lit "terminalization: stat raw session tree"]
  | Ok metadata =>
      if negb (service_directory metadata)
      then mret [lit "terminalization: raw session path is not the exact service-owned mode-0755 ordinary directory; refusing recursive removal"]
      else
        diagnosed_by (_ ← failing "terminalization: remove raw session tree" remove_raw;
                      failing "terminalization: sync sessions directory" sync_sessions)
  end.

Definition publish_cleanup_retention_marker (session_id : str) : op ServiceError unit :=
  metadata ← failing "stat retained raw session root" stat_raw;
  if negb (service_directory metadata) then just (internal "retained raw session root has unsafe type/mode/owner")
  else
    metadata ← failing "stat retained raw session control directory" stat_control;
    if negb (service_directory metadata) then just (internal "retained raw session control directory has unsafe type/mode/owner")
    else
      let bytes := RETAINED ++ [10] ++ lit "cause=raw-state-cleanup-failure" ++ [10] ++ lit "path=" ++ state_root session_id ++ [10] in
      file ← failing "create raw-state cleanup retention marker" (in_control (create_new MARKER 384));
      _ ← failing "write/sync raw-state cleanup retention marker" (_ ← in_control (write_all file bytes); in_control (sync_all file));
      failing "sync raw-state cleanup retention marker" (in_control sync_dir).

Definition add_diagnostics (ds : list str) (t : SessionTerminal) : SessionTerminal :=
  {| tl_finished_at_unix := tl_finished_at_unix t; tl_duration_wall_ms := tl_duration_wall_ms t;
     tl_container_exit_code := tl_container_exit_code t; tl_agent_exit_code := tl_agent_exit_code t;
     tl_is_process_error := true; tl_response := tl_response t; tl_agent_result := tl_agent_result t; tl_bundle := tl_bundle t;
     tl_raw_session_tree_retained := tl_raw_session_tree_retained t; tl_teardown_diagnostics := tl_teardown_diagnostics t ++ ds |}.
Definition retain (t : SessionTerminal) : SessionTerminal :=
  {| tl_finished_at_unix := tl_finished_at_unix t; tl_duration_wall_ms := tl_duration_wall_ms t;
     tl_container_exit_code := tl_container_exit_code t; tl_agent_exit_code := tl_agent_exit_code t;
     tl_is_process_error := tl_is_process_error t; tl_response := tl_response t; tl_agent_result := tl_agent_result t;
     tl_bundle := tl_bundle t; tl_raw_session_tree_retained := true; tl_teardown_diagnostics := tl_teardown_diagnostics t |}.

(** A step on the body it is given: its answer, and the body as it leaves it. *)
Definition amending := State → service unit * SessionBody * State.
Definition ending_with (b : SessionBody) (m : op ServiceError unit) : amending := fun st => let '(r, st) := m st in (r, b, st).
Definition answer (r : service unit) (b : SessionBody) : amending := fun st => (r, b, st).
Definition observing {E A} (m : op E A) (k : result E A → amending) : amending := fun st => let '(r, st) := m st in k r st.
Definition answering (m : amending) : op ServiceError unit := fun st => let '(r, _, st) := m st in (r, st).

(** The body already carries what the removal reported. *)
Definition after_failed_cleanup (b : SessionBody) : amending :=
  let at_ := state_root (sb_session_id b) in
  let noted := fun text => with_terminal (add_diagnostics [text]) b in
  let rewritten := fun b failure => op_map_err (fun error => Internal (lit failure ++ display_error error)) (rewrite_prepared_terminal b) in
  observing stat_raw (fun stat =>
    match stat with
    | Ok metadata =>
        if service_directory metadata then
          if negb (presence (sb_terminal b ≫= tl_bundle))
          then answer (internal "terminal raw-state cleanup failed without an accepted bundle; refusing to invent a retained-bundle cleanup state") b
          else
            let b := with_terminal retain
              (noted (lit "terminal raw-state cleanup failed after the bundle was accepted; the exact tree is durably retained at " ++ at_)) in
            ending_with b
              (_ ← rewritten b "terminal state cleanup failed and the retained-state terminal draft could not be updated: ";
               _ ← publish_cleanup_retention_marker (sb_session_id b);
               _ ← validate_terminal_state_storage b;
               commit_prepared_terminal)
        else
          let b := noted (lit "terminal raw-state cleanup left an unsafe object at " ++ at_) in
          ending_with b
            (_ ← rewritten b "terminal state cleanup left an unsafe object and the terminal draft could not be updated: ";
             just (internal "terminal raw-state cleanup left an unsafe object; terminal publication remains prepared but uncommitted"))
    | Err NotFoundError =>
        let b := noted (lit "terminal raw-state removal is visible but its durability barrier failed; leaving the terminal draft unpublished for restart reconciliation at " ++ at_) in
        ending_with b
          (_ ← rewritten b "terminal state cleanup durability failed and the terminal draft could not be updated: ";
           just (internal "terminal raw-state removal is visible but not durably proved; terminal publication remains prepared but uncommitted"))
    | Err _ => answer (internal "terminalization: restat raw session tree after cleanup failure") b
    end).

(** A terminal without a bundle has no authority over a raw tree. *)
Definition refuse_bundleless (b : SessionBody) : op ServiceError unit :=
  t ← just (terminal_of b);
  if presence (tl_bundle t) then mret tt
  else
    stat ← attempt stat_raw;
    match stat with
    | Ok _ => just (internal "terminal has no accepted bundle and does not claim retained raw evidence, but raw state still exists; refusing cleanup/publication")
    | Err NotFoundError => mret tt
    | Err _ => just (internal "terminalization: stat raw state for bundleless terminal")
    end.

(** What was done about the raw tree: nothing, as the body claims it retained, or
    a removal and what it reported. *)
Definition dispose (b : SessionBody) : op ServiceError (option (list str)) :=
  _ ← validate_terminal_storage b;
  t ← just (terminal_of b);
  if tl_raw_session_tree_retained t then _ ← validate_terminal_state_storage b; mret None
  else _ ← refuse_bundleless b; diagnostics ← remove_terminalized_state; mret (Some diagnostics).

Definition finish_prepared_terminal_transaction (b : SessionBody) : amending :=
  observing (dispose b) (fun disposal =>
    match disposal with
    | Err e => answer (Err e) b
    | Ok None | Ok (Some []) => ending_with b commit_prepared_terminal
    | Ok (Some diagnostics) => after_failed_cleanup (with_terminal (add_diagnostics diagnostics) b)
    end).

Definition persist_terminal_transaction (b : SessionBody) : amending :=
  observing (prepare_terminal b) (fun prepared =>
    match prepared with Err e => answer (Err e) b | Ok _ => finish_prepared_terminal_transaction b end).

Definition resume_prepared_terminal_transaction (session_id : str) : op ServiceError unit :=
  if negb (is_safe_session_id session_id) then just unsupported_handle
  else
    committed ← path_entry_exists FINISHED "resume terminal: stat committed terminal";
    if committed : bool then just (internal "resume terminal: committed terminal already exists")
    else
      '(body, draft) ← open_terminal_body_file DRAFT session_id "prepared terminal draft";
      _ ← validate_terminal_resource session_id body;
      _ ← validate_terminal_storage body;
      _ ← failing "resume terminal: sync prepared draft" (in_result (sync_all draft));
      _ ← sync_result "resume terminal: sync prepared result directory";
      answering (finish_prepared_terminal_transaction body).

(** ** The readers of a terminal record *)
Definition read_terminal (session_id : str) : op ServiceError SessionBody :=
  if negb (is_safe_session_id session_id) then just unsupported_handle
  else
    draft ← path_entry_exists DRAFT "read_terminal: stat temporary publication marker";
    if draft : bool then just (internal "read_terminal: incomplete publication marker remains")
    else
      '(body, _) ← open_terminal_body_file FINISHED session_id "committed terminal";
      _ ← validate_terminal_resource session_id body;
      _ ← validate_terminal_storage body;
      _ ← validate_terminal_state_storage body;
      mret body.

(** ** Startup: a publication that was cut short (src/api.rs) *)
Definition stat_possible (name : str) (context : string) : op ServiceError (option (nat * Inode)) :=
  r ← attempt (in_result (symlink_inode name));
  match r with
  | Ok metadata => mret (Some metadata)
  | Err NotFoundError => mret None
  | Err _ => just (internal context)
  end.
Definition validate_private_service_file (role : string) (metadata : Inode) : service unit :=
  if private_file metadata then Ok tt else internal ("terminal sweep: " ++ role ++ " has unsafe type/mode/owner").

(** The file is the one whose metadata was read: [dev] and [ino] are compared. *)
Definition read_private_service_file (inside : ∀ A, io IoError A → op IoError A) (name : str) (expected : nat) (role : string) (maximum : Z)
    : op ServiceError (str * nat) :=
  file ← failing ("terminal sweep: cannot open " ++ role ++ " without following links") (inside _ (open_nofollow name));
  metadata ← failing ("terminal sweep: cannot fstat opened " ++ role) (inside _ (fstat file));
  _ ← just (validate_private_service_file role metadata);
  if negb (file =? expected)%nat then just (internal ("terminal sweep: " ++ role ++ " changed between validation and descriptor open"))
  else if maximum <? Z.of_nat (length (contents metadata)) then just (internal ("terminal sweep: " ++ role ++ " is above the exact bound"))
  else
    bytes ← failing ("terminal sweep: cannot read opened " ++ role) (inside _ (read_to_end file));
    if negb (length bytes =? length (contents metadata))%nat
    then just (internal ("terminal sweep: " ++ role ++ " changed length while its descriptor was open"))
    else mret (bytes, file).

Definition committed_terminal_for_sweep (session_id : str) : op ServiceError (option SessionBody) :=
  final ← stat_possible FINISHED "terminal sweep: cannot stat final";
  temporary ← stat_possible DRAFT "terminal sweep: cannot stat temporary";
  _ ← just (match final with Some (_, m) => validate_private_service_file "committed terminal" m | None => Ok tt end);
  _ ← just (match temporary with Some (_, m) => validate_private_service_file "temporary terminal publication" m | None => Ok tt end);
  match (match final, temporary with
         | Some (i, _), _ => Some (FINISHED, i)
         | None, Some (i, _) => Some (DRAFT, i)
         | None, None => None
         end) with
  | None => mret None
  | Some (path, expected) =>
      '(bytes, terminal_file) ← read_private_service_file (@in_result) path expected "terminal record" MAX_TERMINAL_RECORD_BYTES;
      body ← just (parse_terminal_record bytes session_id);
      _ ← just (match final, temporary with
                | Some (i, _), Some (j, _) =>
                    if negb (j =? i)%nat then internal "terminal sweep: temporary is not the same regular hard-linked inode; refusing ambiguous recovery"
                    else Ok tt
                | None, Some _ => internal "terminal sweep: private terminal draft has no committed terminal; ordered acceptance recovery must complete cleanup/retention before publication"
                | _, None => Ok tt
                end);
      _ ← failing "terminal sweep: sync committed file" (in_result (sync_all terminal_file));
      _ ← sync_result "terminal sweep: sync committed publication";
      _ ← (if presence temporary
           then
             _ ← failing "terminal sweep: remove publication marker" (in_result (remove_file DRAFT));
             sync_result "terminal sweep after linked-publication recovery"
           else mret tt);
      mret (Some body)
  end.

Inductive RawEvidenceCause :=
| RequiredBundleFailure | PanicRecoveryBundleFailure | SetupForensicBundleFailure | ServiceRestartBundleFailure
| ContainerQuiescenceUnproved | ContainerTeardownIncomplete | RawStateCleanupFailure.

Definition cause_of_line (line : str) : option RawEvidenceCause :=
  snd <$> List.find (fun c => bool_decide (lit (fst c) = line))
    [("cause=required-bundle-failure", RequiredBundleFailure); ("cause=panic-recovery-bundle-failure", PanicRecoveryBundleFailure);
     ("cause=setup-forensic-bundle-failure", SetupForensicBundleFailure); ("cause=service-restart-bundle-failure", ServiceRestartBundleFailure);
     ("cause=container-quiescence-unproved", ContainerQuiescenceUnproved); ("cause=container-teardown-incomplete", ContainerTeardownIncomplete);
     ("cause=raw-state-cleanup-failure", RawStateCleanupFailure)].

Definition read_marker (session_id contents : str) : service RawEvidenceCause :=
  let read := text_lines contents in
  if bool_decide (nth_error read 0 ≠ Some RETAINED) then internal "sweep_state_dir: raw-evidence marker lacks the exact authority header"
  else
    cause ← ok_or (cause_of_line (default [] (nth_error read 1))) (Internal (lit "sweep_state_dir: raw-evidence marker has an unknown cause"));
    if bool_decide (nth_error read 2 ≠ Some (lit "path=" ++ state_root session_id)) || bool_decide (nth_error read 3 ≠ None)
    then internal "sweep_state_dir: raw-evidence marker has a wrong path or trailing fields"
    else Ok cause.

Definition validate_raw_evidence_marker (session_id : str) (expected : nat) : op ServiceError RawEvidenceCause :=
  '(bytes, _) ← read_private_service_file (@in_control) MARKER expected "raw-evidence marker" 4096;
  _ ← just (map_err (fun _ => Internal (lit "sweep_state_dir: raw-evidence marker is not UTF-8")) (from_utf8 bytes));
  just (read_marker session_id bytes).

Definition cause_fits (bundled : bool) (cause : RawEvidenceCause) : bool :=
  match cause with
  | ContainerTeardownIncomplete | RawStateCleanupFailure => bundled
  | _ => negb bundled
  end.
Definition validate_raw_cause_for_terminal (cause : RawEvidenceCause) (b : SessionBody) (context : string) : service unit :=
  t ← terminal_of b;
  if cause_fits (presence (tl_bundle t)) cause then Ok tt
  else internal (context ++ ": terminal raw-evidence cause contradicts accepted_bundle").

Definition validate_terminal_state_reconciliation (b : SessionBody) : op ServiceError unit :=
  stat ← attempt stat_raw;
  metadata ← (match stat with
              | Ok metadata => mret (Some metadata)
              | Err NotFoundError => mret None
              | Err _ => just (internal "terminal reconciliation: cannot stat")
              end : op ServiceError (option Meta));
  t ← just (terminal_of b);
  if negb (tl_raw_session_tree_retained t) then
    if presence metadata then just (internal "terminal reconciliation: non-retained terminal still has raw state after the state sweep") else mret tt
  else
    metadata ← just (ok_or metadata (Internal (lit "terminal reconciliation: terminal claims retained raw evidence but it is absent")));
    if negb (service_directory metadata) then just (internal "terminal reconciliation: retained state has unsafe type/mode/owner")
    else
      '(i, marker) ← failing "terminal reconciliation: terminal claims retained raw evidence but its marker is absent or unreadable"
                       (in_control (symlink_inode MARKER));
      _ ← just (validate_private_service_file "raw-evidence marker" marker);
      cause ← validate_raw_evidence_marker (sb_session_id b) i;
      just (validate_raw_cause_for_terminal cause b "terminal reconciliation").
End Terminals.
