(* ===== verification/Calls.v ===== *)
(** * Calls: what is proved of programs that call the site

    The rules of the logic of module Site, one per construct and per call of module
    Disk, for a run whose calls may fail and for one whose calls do not; and the
    programs that only read. *)
From S2P Require Import Prelude Number Utf8 BTree Json JsonTree Schema Stream ServiceError Disk Progress Site.

(** ** Rules of the logic of calls *)
Section Rules.
Context {E : Type} (calm : bool) (S : Site → Prop).

Lemma after_ret {A} (a : A) (Q : result E A → Site → Prop) s : Q (Ok a) s → after calm S (mret a) Q s.
Proof. intros H st r st' Hc <- [= <- <-]. split_and!; [by apply went_refl|done|done]. Qed.

Lemma after_just {A} (x : result E A) Q s : Q x s → after calm S (just x) Q s.
Proof. intros H st r st' Hc <- [= <- <-]. split_and!; [by apply went_refl|done|done]. Qed.

Lemma after_bind {A B} (m : op E A) (f : A → op E B) Q s :
  after calm S m (fun r s => match r with Ok a => after calm S (f a) Q s | Err e => Q (Err e) s end) s → after calm S (m ≫= f) Q s.
Proof.
  intros Hm st r st' Hc Hs. unfold mbind, op_bind. destruct (m st) as [[a|e] st1] eqn:Hrun.
  - intros Hrest. destruct (Hm _ _ _ Hc Hs Hrun) as (Hw & HQ & Hc1). destruct (HQ _ _ _ Hc1 eq_refl Hrest) as (? & ?). split; [by eapply went_trans|done].
  - intros [= <- <-]. by destruct (Hm _ _ _ Hc Hs Hrun) as (? & ? & ?).
Qed.

Lemma after_mono {A} (m : op E A) (Q Q' : result E A → Site → Prop) s : after calm S m Q s → (∀ r s, Q r s → Q' r s) → after calm S m Q' s.
Proof. intros Hm HQ st r st' Hc H Hrun. destruct (Hm _ _ _ Hc H Hrun) as (? & ? & ?). auto. Qed.

Lemma after_attempt {F A} (m : op E A) (Q : result F (result E A) → Site → Prop) s :
  after calm S m (fun x s => Q (Ok x) s) s → after calm S (attempt m) Q s.
Proof.
  intros Hm st r st' Hc HP. unfold attempt. destruct (m st) as [x st1] eqn:Hrun. intros [= <- <-]. by apply (Hm _ _ _ Hc HP Hrun).
Qed.

Lemma after_map_err {F A} (g : E → F) (m : op E A) (Q : result F A → Site → Prop) s :
  after calm S m (fun r s => Q (map_err g r) s) s → after calm S (op_map_err g m) Q s.
Proof.
  intros Hm st r st' Hc HP. unfold op_map_err. destruct (m st) as [[a|e] st1] eqn:Hrun; intros [= <- <-]; by apply (Hm _ _ _ Hc HP Hrun).
Qed.
End Rules.

Lemma faultless_next calm st fault st1 :
  faultless calm (site_faults st) → next_fault st = (fault, st1) →
  site st1 = site st ∧ past st1 = past st ∧ faultless calm (site_faults st1) ∧ (calm = true → fault = Succeeds).
Proof.
  unfold next_fault, faultless. destruct (site_faults st) as [|f fs] eqn:Hf; intros Hc [= <- <-]; [by rewrite Hf|]. cbn.
  split_and!; try done; intros E; specialize (Hc E); done.
Qed.

(** A call that is atomic: it fails and nothing happens, or it answers and leaves
    the site as [f] says. *)
Lemma after_call {A} calm s S (f : Site → result IoError A * option Site) (Q : result IoError A → Site → Prop) :
  (calm = false → Q (Err OtherError) s) → (match f s with (r, Some s') => S s' ∧ Q r s' | (r, None) => Q r s end) →
  after calm S (call f) Q s.
Proof.
  intros Hfail Hok st r st' Hc Hs. unfold call. destruct (next_fault st) as [fault st1] eqn:Hf.
  destruct (faultless_next _ _ _ _ Hc Hf) as (Hs1 & Hp & Hc1 & Hno). rewrite Hs in Hs1. destruct fault.
  - rewrite Hs1. destruct (f s) as [x [s'|]]; intros [= <- <-].
    + destruct Hok. split_and!; try done. exists [s']. cbn. rewrite Hp. split; [done|]. by apply Forall_singleton.
    + rewrite Hs1. split_and!; try done. by apply went_refl.
  - intros [= <- <-]. rewrite Hs1. split_and!; try done; [by apply went_refl|]. apply Hfail. destruct calm; [by specialize (Hno eq_refl)|done].
Qed.

(** What a program of module Disk does from a disk [d]. *)
Definition on_disk {E A} (calm : bool) (d : Disk) (S : Disk → Prop) (m : io E A) (Q : result E A → Disk → Prop) : Prop :=
  ∀ w r w', faultless calm (faults w) → disk w = d → m w = (r, w') →
    (∃ ds, log w' = log w ++ ds ∧ Forall S ds) ∧ Q r (disk w') ∧ faultless calm (faults w').

Lemma after_in_dir {E A} calm s d (rebuild : Disk → Site) S (m : io E A) Q :
  on_disk calm d (fun d => S (rebuild d)) m (fun r d => Q r (rebuild d)) → after calm S (in_dir d rebuild m) Q s.
Proof.
  intros Hm st r st' Hc Hs. unfold in_dir. destruct (m _) as [x w] eqn:Hrun. intros [= <- <-].
  apply Hm in Hrun as ((ds & Hl & HF) & HQ & Hc'); [|done..]. split_and!; try done. exists (map rebuild (log w)). split; [done|].
  cbn in Hl. rewrite Hl. by apply Forall_map.
Qed.

Lemma disk_next calm w fault w1 :
  faultless calm (faults w) → Disk.next_fault w = (fault, w1) →
  disk w1 = disk w ∧ log w1 = log w ∧ faultless calm (faults w1) ∧ (calm = true → fault = Succeeds).
Proof.
  unfold Disk.next_fault, faultless. destruct (faults w) as [|f fs] eqn:Hf; intros Hc [= <- <-]; [by rewrite Hf|]. cbn.
  split_and!; try done; intros E; specialize (Hc E); done.
Qed.

(** An atomic call of module Disk. *)
Definition atomic {A} (m : io IoError A) (f : Disk → result IoError A * option Disk) : Prop :=
  ∀ w, m w = match Disk.next_fault w with
             | (Fails _, w) => (Err OtherError, w)
             | (Succeeds, w) => match f (disk w) with (r, Some d) => (r, set_disk d w) | (r, None) => (r, w) end
             end.

Lemma on_disk_atomic {A} calm d S (m : io IoError A) f Q :
  atomic m f → (calm = false → Q (Err OtherError) d) → (match f d with (r, Some d') => S d' ∧ Q r d' | (r, None) => Q r d end) →
  on_disk calm d S m Q.
Proof.
  intros Hm Hfail Hok w r w' Hc Hd. rewrite Hm. destruct (Disk.next_fault w) as [fault w1] eqn:Hf.
  destruct (disk_next _ _ _ _ Hc Hf) as (Hd1 & Hl1 & Hc1 & Hno). rewrite Hd in Hd1. destruct fault.
  - rewrite Hd1. destruct (f d) as [x [d'|]]; intros [= <- <-].
    + destruct Hok. split_and!; try done. exists [d']. cbn. rewrite Hl1. split; [done|]. by apply Forall_singleton.
    + rewrite Hd1. split_and!; try done. exists []. by rewrite app_nil_r.
  - intros [= <- <-]. rewrite Hd1. split_and!; try done; [exists []; by rewrite app_nil_r|].
    apply Hfail. destruct calm; [by specialize (Hno eq_refl)|done].
Qed.

Section Atomic.
Context `{Process}.

Lemma symlink_metadata_atomic name : atomic (symlink_metadata name) (fun d => (ok_or (lookup_name name d) NotFoundError, None)).
Proof. intros w. unfold symlink_metadata, unfaulted. by destruct (Disk.next_fault w) as [[] ?]. Qed.
Lemma symlink_inode_atomic name :
  atomic (symlink_inode name) (fun d => (ok_or (names d !! name ≫= fun i => pair i <$> inodes d !! i) NotFoundError, None)).
Proof. intros w. unfold symlink_inode, unfaulted. by destruct (Disk.next_fault w) as [[] ?]. Qed.
Lemma open_nofollow_atomic name :
  atomic (open_nofollow name) (fun d =>
    (match names d !! name with
     | None => Err NotFoundError
     | Some i => match inodes d !! i with
                 | Some f => if decide (file_type f = Symlink) then Err OtherError else Ok i
                 | None => Err NotFoundError
                 end
     end, None)).
Proof.
  intros w. unfold open_nofollow, unfaulted. destruct (Disk.next_fault w) as [[] w1]; [|done].
  destruct (names (disk w1) !! name) as [i|]; [|done]. destruct (inodes (disk w1) !! i) as [f|]; [|done]. by destruct (decide _).
Qed.
Lemma fstat_atomic i : atomic (fstat i) (fun d => (ok_or (inodes d !! i) OtherError, None)).
Proof. intros w. unfold fstat, unfaulted. by destruct (Disk.next_fault w) as [[] ?]. Qed.
Lemma read_to_end_atomic i : atomic (read_to_end i) (fun d => (ok_or (contents <$> inodes d !! i) OtherError, None)).
Proof. intros w. unfold read_to_end, unfaulted. by destruct (Disk.next_fault w) as [[] ?]. Qed.
Lemma create_new_atomic name m :
  atomic (create_new name m) (fun d =>
    match names d !! name with
    | Some _ => (Err AlreadyExistsError, None)
    | None =>
        let i := next_inode d in
        let f := {| file_type := Regular; mode := m; uid := euid; gid := egid; contents := []; file_synced := false; reach := 0 |} in
        (Ok i, Some {| names := <[name := i]> (names d); inodes := <[i := f]> (inodes d); next_inode := S i; unsynced := names d :: unsynced d |})
    end).
Proof.
  intros w. unfold create_new, unfaulted. destruct (Disk.next_fault w) as [[] w1]; [|done]. by destruct (names (disk w1) !! name).
Qed.
Lemma sync_all_atomic i :
  atomic (sync_all i) (fun d =>
    match inodes d !! i with
    | None => (Err OtherError, None)
    | Some f => (Ok tt, Some (set_inode i (set_contents (contents f) true f) d))
    end).
Proof. intros w. unfold sync_all, unfaulted. destruct (Disk.next_fault w) as [[] w1]; [|done]. by destruct (inodes (disk w1) !! i). Qed.
Lemma truncate_atomic i :
  atomic (truncate i) (fun d =>
    match inodes d !! i with
    | None => (Err OtherError, None)
    | Some f => (Ok tt, Some (set_inode i (set_contents [] false f) d))
    end).
Proof. intros w. unfold truncate, unfaulted. destruct (Disk.next_fault w) as [[] w1]; [|done]. by destruct (inodes (disk w1) !! i). Qed.
Lemma hard_link_atomic old new :
  atomic (hard_link old new) (fun d =>
    match names d !! old, names d !! new with
    | None, _ => (Err NotFoundError, None)
    | Some _, Some _ => (Err AlreadyExistsError, None)
    | Some i, None => (Ok tt, Some (set_names (<[new := i]> (names d)) d))
    end).
Proof.
  intros w. unfold hard_link, unfaulted. destruct (Disk.next_fault w) as [[] w1]; [|done].
  destruct (names (disk w1) !! old); [|done]. by destruct (names (disk w1) !! new).
Qed.
Lemma remove_file_atomic name :
  atomic (remove_file name) (fun d =>
    match names d !! name with
    | None => (Err NotFoundError, None)
    | Some _ => (Ok tt, Some (set_names (delete name (names d)) d))
    end).
Proof. intros w. unfold remove_file, unfaulted. destruct (Disk.next_fault w) as [[] w1]; [|done]. by destruct (names (disk w1) !! name). Qed.
Lemma rename_atomic old new :
  atomic (rename old new) (fun d =>
    match names d !! old with
    | None => (Err NotFoundError, None)
    | Some i => (Ok tt, Some (set_names (<[new := i]> (delete old (names d))) d))
    end).
Proof. intros w. unfold rename, unfaulted. destruct (Disk.next_fault w) as [[] w1]; [|done]. by destruct (names (disk w1) !! old). Qed.
Lemma sync_dir_atomic :
  atomic sync_dir (fun d => (Ok tt, Some {| names := names d; inodes := inodes d; next_inode := next_inode d; unsynced := [] |})).
Proof. intros w. unfold sync_dir, unfaulted. by destruct (Disk.next_fault w) as [[] ?]. Qed.

(** A write that fails has written some of its bytes. *)
Lemma on_disk_write calm d S i bytes f Q :
  inodes d !! i = Some f →
  (∀ n, calm = false → let d' := set_inode i (set_contents (contents f ++ take n bytes) false f) d in S d' ∧ Q (Err OtherError) d') →
  (let d' := set_inode i (set_contents (contents f ++ bytes) false f) d in S d' ∧ Q (Ok tt) d') →
  on_disk calm d S (write_all i bytes) Q.
Proof.
  intros Hf Hpart [HS HQ] w r w' Hc Hd. unfold write_all. destruct (Disk.next_fault w) as [fault w1] eqn:Hn.
  destruct (disk_next _ _ _ _ Hc Hn) as (Hd1 & Hl1 & Hc1 & Hno). rewrite Hd1, Hd, Hf.
  destruct fault as [|n]; intros [= <- <-].
  - split_and!; try done. eexists [_]; cbn. rewrite Hl1. split; [done|]. by apply Forall_singleton.
  - assert (calm = false) as Hcalm by (destruct calm; [by specialize (Hno eq_refl)|done]). destruct (Hpart n Hcalm).
    split_and!; try done. eexists [_]; cbn. rewrite Hl1. split; [done|]. by apply Forall_singleton.
Qed.
End Atomic.

(** ** Readers *)

(** A program that reads only. *)
Definition io_reader {E A} (m : io E A) : Prop :=
  ∀ w r w', m w = (r, w') → disk w' = disk w ∧ log w' = log w ∧ (faults w = [] → faults w' = []).
Definition reader {E A} (m : op E A) : Prop :=
  ∀ st r st', m st = (r, st') → site st' = site st ∧ past st' = past st ∧ (site_faults st = [] → site_faults st' = []).

Section Readers.
Context `{Process}.

Lemma io_reader_ret {E A} (a : A) : io_reader (E := E) (mret a).
Proof. by intros w r w' [= <- <-]. Qed.
Lemma io_reader_pure {E A} (x : result E A) : io_reader (Disk.pure x).
Proof. by intros w r w' [= <- <-]. Qed.
Lemma io_reader_bind {E A B} (m : io E A) (f : A → io E B) : io_reader m → (∀ a, io_reader (f a)) → io_reader (m ≫= f).
Proof.
  intros Hm Hf w r w'. unfold mbind, io_bind. destruct (m w) as [[a|e] w1] eqn:Hw; intros Hrest.
  - destruct (Hm _ _ _ Hw) as (Hd & Hl & Hfs), (Hf a _ _ _ Hrest) as (Hd1 & Hl1 & Hfs1). rewrite Hd1, Hl1. auto.
  - injection Hrest as <- <-. by eapply Hm.
Qed.
Lemma io_reader_map_err {E F A} (g : E → F) (m : io E A) : io_reader m → io_reader (io_map_err g m).
Proof. intros Hm w r w'. unfold io_map_err. destruct (m w) as [[a|e] w1] eqn:Hw; intros [= <- <-]; by eapply Hm. Qed.
Lemma io_reader_call {A} (m : io IoError A) f : atomic m f → (∀ d, (f d).2 = None) → io_reader m.
Proof.
  intros Hm Hf w r w'. rewrite Hm. unfold Disk.next_fault. destruct (faults w) as [|[] fs] eqn:Hfs.
  - specialize (Hf (disk w)). destruct (f (disk w)) as [x [?|]]; [done|]. by intros [= <- <-].
  - cbn. specialize (Hf (disk w)). destruct (f (disk w)) as [x [?|]]; [done|]. by intros [= <- <-].
  - by intros [= <- <-].
Qed.

Lemma reader_ret {E A} (a : A) : reader (E := E) (mret a).
Proof. by intros w r w' [= <- <-]. Qed.
Lemma reader_just {E A} (x : result E A) : reader (just x).
Proof. by intros w r w' [= <- <-]. Qed.
Lemma reader_bind {E A B} (m : op E A) (f : A → op E B) : reader m → (∀ a, reader (f a)) → reader (m ≫= f).
Proof.
  intros Hm Hf w r w'. unfold mbind, op_bind. destruct (m w) as [[a|e] w1] eqn:Hw; intros Hrest.
  - destruct (Hm _ _ _ Hw) as (Hd & Hl & Hfs), (Hf a _ _ _ Hrest) as (Hd1 & Hl1 & Hfs1). rewrite Hd1, Hl1. auto.
  - injection Hrest as <- <-. by eapply Hm.
Qed.
Lemma reader_map_err {E F A} (g : E → F) (m : op E A) : reader m → reader (op_map_err g m).
Proof. intros Hm w r w'. unfold op_map_err. destruct (m w) as [[a|e] w1] eqn:Hw; intros [= <- <-]; by eapply Hm. Qed.
Lemma reader_attempt {E F A} (m : op E A) : reader m → reader (attempt (F := F) m).
Proof. intros Hm w r w'. unfold attempt. destruct (m w) as [x w1] eqn:Hw. intros [= <- <-]. by eapply Hm. Qed.

Lemma set_result_files_same dir s : here (result_dir s) = Some dir → set_result_files (result_files dir) dir s = s.
Proof. destruct s as [? [] ?], dir. cbn. by intros ->. Qed.
Lemma next_fault_idle st : site (next_fault st).2 = site st ∧ past (next_fault st).2 = past st ∧ (site_faults st = [] → site_faults (next_fault st).2 = []).
Proof. unfold next_fault. by destruct (site_faults st) eqn:?. Qed.
Lemma reader_in_dir {E A} (m : io E A) dir st r st' :
  io_reader m → here (result_dir (site st)) = Some dir → in_dir (result_files dir) (fun d => set_result_files d dir (site st)) m st = (r, st') →
  site st' = site st ∧ past st' = past st ∧ (site_faults st = [] → site_faults st' = []).
Proof.
  intros Hm Hd. unfold in_dir. destruct (m _) as [x w] eqn:Hw. intros [= <- <-]. apply Hm in Hw as (Hdw & Hl & Hf). cbn in *.
  rewrite Hdw, Hl, set_result_files_same by done. split_and!; [done|by rewrite app_nil_r|done].
Qed.
Lemma reader_in_result {A} (m : io IoError A) : io_reader m → reader (in_result m).
Proof.
  intros Hm st r st'. unfold in_result. destruct (here (result_dir (site st))) as [dir|] eqn:Hd; [by apply reader_in_dir|].
  intros [= <- <-]. apply next_fault_idle.
Qed.
Lemma reader_reading {A} (m : io ServiceError A) : io_reader m → reader (reading m).
Proof.
  intros Hm st r st'. unfold reading. destruct (here (result_dir (site st))) as [dir|] eqn:Hd; [by apply reader_in_dir|].
  intros [= <- <-]. apply next_fault_idle.
Qed.

Lemma reader_symlink_metadata name : reader (in_result (symlink_metadata name)).
Proof. eapply reader_in_result, io_reader_call; [apply symlink_metadata_atomic|done]. Qed.
Lemma reader_open_nofollow name : reader (in_result (open_nofollow name)).
Proof. eapply reader_in_result, io_reader_call; [apply open_nofollow_atomic|done]. Qed.
Lemma reader_fstat i : reader (in_result (fstat i)).
Proof. eapply reader_in_result, io_reader_call; [apply fstat_atomic|done]. Qed.
Lemma reader_read_to_end i : reader (in_result (read_to_end i)).
Proof. eapply reader_in_result, io_reader_call; [apply read_to_end_atomic|done]. Qed.
Lemma reader_call {A} (f : Site → result IoError A * option Site) : (∀ s, (f s).2 = None) → reader (call f).
Proof.
  intros Hf st r st'. unfold call. destruct (next_fault st) as [[] st1] eqn:Hn; pose proof (next_fault_idle st) as Hi; rewrite Hn in Hi; cbn [snd] in Hi.
  - specialize (Hf (site st1)). destruct (f (site st1)) as [x [?|]]; [done|]. by intros [= <- <-].
  - by intros [= <- <-].
Qed.
Lemma reader_stat_raw : reader stat_raw.
Proof. by apply reader_call. Qed.
Lemma reader_in_control {A} (m : io IoError A) : io_reader m → reader (in_control m).
Proof.
  intros Hm st r st'. unfold in_control. destruct (here (raw (site st))) as [t|] eqn:Ht.
  2: { intros [= <- <-]. apply next_fault_idle. }
  destruct (here (control t)) as [c|] eqn:Hc; [|intros [= <- <-]; apply next_fault_idle].
  unfold in_dir. destruct (m _) as [x w] eqn:Hw. intros [= <- <-]. apply Hm in Hw as (Hdw & Hl & Hf). cbn in *. rewrite Hdw, Hl.
  assert (set_control_files (control_files c) c t (site st) = site st) as ->.
  { destruct (site st) as [? ? [h ?]], t as [? [hc ?] ? ?], c. cbn in *. by subst h hc. }
  split_and!; [done|by rewrite app_nil_r|done].
Qed.
Lemma reader_in_records {A} (m : io IoError A) : io_reader m → reader (in_records m).
Proof.
  intros Hm st r st'. unfold in_records, in_dir. destruct (m _) as [x w] eqn:Hw. intros [= <- <-]. apply Hm in Hw as (Hdw & Hl & Hf). cbn in *. rewrite Hdw, Hl.
  assert (set_records (records (site st)) (site st) = site st) as -> by by destruct (site st). split_and!; [done|by rewrite app_nil_r|done].
Qed.
Lemma reader_records_metadata name : reader (in_records (symlink_metadata name)).
Proof. eapply reader_in_records, io_reader_call; [apply symlink_metadata_atomic|done]. Qed.
Lemma reader_control_open name : reader (in_control (open_nofollow name)).
Proof. eapply reader_in_control, io_reader_call; [apply open_nofollow_atomic|done]. Qed.
Lemma reader_control_fstat i : reader (in_control (fstat i)).
Proof. eapply reader_in_control, io_reader_call; [apply fstat_atomic|done]. Qed.
Lemma reader_control_read i : reader (in_control (read_to_end i)).
Proof. eapply reader_in_control, io_reader_call; [apply read_to_end_atomic|done]. Qed.
End Readers.

Create HintDb reads.
#[export] Hint Resolve io_reader_ret io_reader_pure io_reader_bind io_reader_map_err reader_ret reader_just reader_bind reader_map_err reader_attempt
  reader_symlink_metadata reader_open_nofollow reader_fstat reader_read_to_end
  reader_stat_raw reader_records_metadata reader_control_open reader_control_fstat reader_control_read : reads.

(** Splits a program that only reads into its calls. *)
Ltac reads :=
  repeat first
    [ progress cbv beta match | progress intros | solve [auto with reads]
    | lazymatch goal with
      | |- reader (mbind _ _) => apply reader_bind
      | |- io_reader (mbind _ _) => apply io_reader_bind
      | |- reader (Site.failing _ _) => apply reader_map_err
      | |- io_reader (Progress.failing _ _) => apply io_reader_map_err
      | |- context [match ?x with _ => _ end] => destruct x
      end ].

Lemma after_reader {E A} calm (m : op E A) S Q s :
  reader m → (∀ st, site st = s → faultless calm (site_faults st) → Q (m st).1 s) → after calm S m Q s.
Proof.
  intros Hm HQ st r st' Hc Hs Hrun. destruct (Hm _ _ _ Hrun) as (Hs' & Hp & Hf). split_and!; [by apply went_refl| |intros E0; by apply Hf, Hc].
  specialize (HQ st Hs Hc). by rewrite Hrun in HQ; rewrite Hs', Hs.
Qed.

Lemma undisturbed_after {A} (m : op ServiceError A) S Q s ts : after true S m Q s → Q (m (undisturbed s ts)).1 (site (m (undisturbed s ts)).2).
Proof. intros Hm. destruct (m (undisturbed s ts)) as [r st] eqn:E. by destruct (Hm (undisturbed s ts) r st (fun _ => eq_refl) eq_refl E) as (_ & ? & _). Qed.

(** ** Removals *)
Section Removals.
Context `{Removal} (calm : bool) (S : Site → Prop).

Lemma remove_raw_at s Q :
  (here (raw s) = None → Q (Err NotFoundError) s) →
  (∀ t, here (raw s) = Some t → let s' := set_raw (put None (raw s)) s in S s' ∧ Q (Ok tt) s' ∧ (calm = false → Q (Err OtherError) s')) →
  (∀ t t', here (raw s) = Some t → remains t t' → calm = false → let s' := set_raw (adjust t' (raw s)) s in S s' ∧ Q (Err OtherError) s') →
  after calm S remove_raw Q s.
Proof.
  intros Hnone Hall Hpart st x st' Hc Hs. unfold remove_raw. destruct (next_fault st) as [fault st1] eqn:Hf.
  destruct (faultless_next _ _ _ _ Hc Hf) as (Hs1 & Hp & Hc1 & Hno). rewrite Hs1, Hs.
  assert (∀ s, S s → went S st (moved s st1)) as Hw.
  { intros s' HS. exists [s']. cbn. rewrite Hp. split; [done|]. by apply Forall_singleton. }
  destruct (here (raw s)) as [t|] eqn:Hr.
  2: { intros [= <- <-]. rewrite Hs1, Hs. split_and!; [by apply went_refl|by apply Hnone|done]. }
  destruct (Hall t eq_refl) as (HS & HQ & HQe). destruct fault as [|k].
  { intros [= <- <-]. split_and!; [by apply Hw|done|done]. }
  assert (calm = false) as Hcalm by (destruct calm; [by specialize (Hno eq_refl)|done]).
  destruct (remnant k t) as [t'|] eqn:Hrem; intros [= <- <-].
  - destruct (Hpart t t' eq_refl (remnant_remains _ _ _ Hrem) Hcalm). split_and!; [by apply Hw|done|done].
  - split_and!; [by apply Hw|by apply HQe|done].
Qed.

Lemma remove_result_at s Q :
  (here (result_dir s) = None → Q (Err NotFoundError) s) →
  (∀ dir, here (result_dir s) = Some dir → let s' := set_result (put None (result_dir s)) s in S s' ∧ Q (Ok tt) s') →
  (∀ dir d, here (result_dir s) = Some dir → calm = false → let s' := set_result_files d dir s in S s' ∧ Q (Err OtherError) s') →
  after calm S remove_result Q s.
Proof.
  intros Hnone Hall Hpart st x st' Hc Hs. unfold remove_result. destruct (next_fault st) as [fault st1] eqn:Hf.
  destruct (faultless_next _ _ _ _ Hc Hf) as (Hs1 & Hp & Hc1 & Hno). rewrite Hs1, Hs.
  assert (∀ s, S s → went S st (moved s st1)) as Hw.
  { intros s' HS. exists [s']. cbn. rewrite Hp. split; [done|]. by apply Forall_singleton. }
  destruct (here (result_dir s)) as [dir|] eqn:Hr.
  2: { intros [= <- <-]. rewrite Hs1, Hs. split_and!; [by apply went_refl|by apply Hnone|done]. }
  destruct fault as [|k]; intros [= <- <-].
  - destruct (Hall dir eq_refl). split_and!; [by apply Hw|done|done].
  - assert (calm = false) as Hcalm by (destruct calm; [by specialize (Hno eq_refl)|done]).
    destruct (Hpart dir (set_names (list_to_map (drop k (map_to_list (names (result_files dir))))) (result_files dir)) eq_refl Hcalm).
    split_and!; [by apply Hw|done|done].
Qed.
End Removals.

(** One step of a program. *)
Ltac step :=
  cbv beta match;
  lazymatch goal with
  | |- after _ _ (mbind _ _) _ _ => apply after_bind
  | |- after _ _ (Site.failing _ _) _ _ => apply after_map_err
  | |- after _ _ (op_map_err _ _) _ _ => apply after_map_err
  | |- after _ _ (attempt _) _ _ => apply after_attempt
  | |- after _ _ (just _) _ _ => apply after_just
  | |- after _ _ (mret _) _ _ => apply after_ret
  end.
