(* ===== verification/Durability.v ===== *)
(** * Durability: what a crash may find of an ending (src/runtime.rs, api.rs)

    Whatever calls of the transaction fail, and wherever a crash cuts it short: a
    public record is whole, was prepared, and tells what became of the raw tree; and
    no evidence is gone that the accepted bundle does not stand for.  Then what the
    next start makes of what the crash left. *)
From S2P Require Import Prelude Number Utf8 BTree Json JsonTree Schema Stream Usage Generation Authorship Sse Text Serde Turns Requests Utilities Admission Compaction Conversation ServiceError Disk Deliverables Progress Validation Capture Terminal Interaction Refusals Docker Supervision Site Publication Calls.

Section ResourceReader.
Context `{Process} `{ProgressCodec} `{Vocabulary} `{RecordCodec} (cfg : Config).

Lemma progress_reader p id : io_reader (read_progress_events p id).
Proof.
  unfold read_progress_events, read_private_bytes. reads.
  all: eapply io_reader_call; [first [apply open_nofollow_atomic|apply fstat_atomic|apply read_to_end_atomic]|done].
Qed.

Lemma resource_reader id b : reader (validate_terminal_resource cfg id b).
Proof.
  unfold validate_terminal_resource, read_acceptance, read_acceptance_file, read_opened, path_entry_exists, exists_at. reads.
  all: apply reader_reading, progress_reader.
Qed.
Lemma storage_reader b : reader (validate_terminal_storage b).
Proof. unfold validate_terminal_storage, path_entry_exists, exists_at. reads. Qed.
Lemma marker_reader b : reader (validate_delete_state_marker cfg b).
Proof. unfold validate_delete_state_marker, read_opened. reads. Qed.
Lemma state_storage_reader b : reader (validate_terminal_state_storage cfg b).
Proof. unfold validate_terminal_state_storage. reads. all: apply marker_reader. Qed.
Lemma terminal_reader id : reader (read_terminal cfg id).
Proof.
  unfold read_terminal, open_terminal_body_file, read_opened, path_entry_exists, exists_at. reads.
  all: first [apply resource_reader|apply storage_reader|apply state_storage_reader].
Qed.
End ResourceReader.

(** ** The stages of an ending *)
Definition amended (b b' : SessionBody) : Prop :=
  b' = b ∨ ∃ ds, b' = with_terminal (add_diagnostics ds) b ∨ b' = with_terminal (fun t => retain (add_diagnostics ds t)) b.
(** The records of an ending are read back from what is written. *)
Definition readable `{RecordCodec} (b : SessionBody) : Prop := ∀ b', amended b b' → body_of_json (body_json b') = Some b'.
Definition bundled (b : SessionBody) : bool := presence (sb_terminal b ≫= tl_bundle).

Section Stages.
Context `{Process} `{Vocabulary} `{RecordCodec} `{Removal} (cfg : Config) (calm : bool).
Context (recs : Disk) (m0 : Meta) (names0 : gmap str nat) (inodes0 : gmap nat Inode) (n nx : nat) (raw0 : Slot Tree) (b : SessionBody).

Definition stage (files : Disk) (r : Slot Tree) : Site :=
  {| records := recs; result_dir := {| here := Some {| result_meta := m0; result_files := files |}; before := [] |}; raw := r |}.

(** Whether the directory names the draft, and the public record: both are names
    of one file. *)
Definition dir_names (p : bool * bool) : gmap str nat :=
  let m := if p.1 then <[DRAFT := n]> names0 else names0 in if p.2 then <[FINISHED := n]> m else m.
Definition drafted (now : bool * bool) (was : list (bool * bool)) (g : Inode) : Disk :=
  {| names := dir_names now; inodes := <[n := g]> inodes0; next_inode := nx; unsynced := map dir_names was |}.

(** The file holds a whole, durable record. *)
Definition holds (b' : SessionBody) (g : Inode) : Prop :=
  private_file g = true ∧ file_synced g = true ∧ body_of_json (contents g) = Some b' ∧ validate_shape b' = Ok tt ∧
  (Z.of_nat (length (body_json b')) <= MAX_TERMINAL_RECORD_BYTES → Z.of_nat (length (contents g)) <= MAX_TERMINAL_RECORD_BYTES).

(** The tree is there, and durably says why. *)
Definition marked (rs : Slot Tree) (b' : SessionBody) : Prop :=
  before rs = [] ∧ ∃ t c i f, here rs = Some t ∧ service_directory (root t) = true ∧ control t = {| here := Some c; before := [] |} ∧
    names (control_files c) !! MARKER = Some i ∧ inodes (control_files c) !! i = Some f ∧ unsynced (control_files c) = [] ∧
    private_within 4096 f = true ∧ file_synced f = true ∧ is_ok (from_utf8 (contents f)) = true ∧
    marker_names cfg (sb_session_id b') (bundled b') (contents f) = true.

(** What a record says of the raw tree is so, durably. *)
Definition told (rs : Slot Tree) (b' : SessionBody) : Prop :=
  ∃ t, sb_terminal b' = Some t ∧ if tl_raw_session_tree_retained t then marked rs b' else here rs = None ∧ before rs = [].

(** The record is of the body the transaction was given, or what it made of it. *)
Definition faithful (b' : SessionBody) : Prop := amended b b' ∧ (calm = true → b' = b).
Definition published (g : Inode) (rs : Slot Tree) : Prop := ∃ b', faithful b' ∧ holds b' g ∧ told rs b'.

(** The tree a record does not retain was removed. *)
Definition removed_for_good (rs : Slot Tree) : Prop :=
  (∃ tm, sb_terminal b = Some tm ∧ tl_raw_session_tree_retained tm = false) ∧ here rs = None ∧ Forall (fun o => o = None ∨ o = here raw0) (before rs).

(** The archive is what the body says of it. *)
Definition archive_stands (b' : SessionBody) : Prop :=
  ∃ t, sb_terminal b' = Some t ∧
    match tl_bundle t with
    | Some bundle => ∃ i f, names0 !! BUNDLE = Some i ∧ inodes0 !! i = Some f ∧ private_file f = true ∧ contents f ≠ [] ∧
                            Z.of_nat (length (contents f)) = bs_compressed_bytes bundle
    | None => tl_raw_session_tree_retained t = false → names0 !! BUNDLE = None
    end.

(** The bundle the body accepts is there. *)
Definition accepted : Prop := bundled b = true ∧ archive_stands b.

(** Every state of the transaction: what is public is whole and true; a tree that
    was touched is stood for by the accepted bundle and the draft beside it. *)
Definition safe (x : Site) : Prop :=
  ∃ now was g rs, x = stage (drafted now was g) rs ∧
    Forall (fun p : bool * bool => p.2 = true → published g rs) (now :: was) ∧
    (rs = raw0 ∨ (accepted ∧ Forall (fun p : bool * bool => p.1 || p.2 = true) (now :: was) ∧ (calm = true → holds b g ∧ removed_for_good rs))).

Lemma after_result {A} (m : io IoError A) S Q files r :
  on_disk calm files (fun d => S (stage d r)) m (fun x d => Q x (stage d r)) → after calm S (in_result m) Q (stage files r).
Proof.
  intros Hm st x st' Hc Hs. unfold in_result. rewrite Hs. cbn [stage result_dir here].
  intros Hrun. by eapply (after_in_dir calm (stage files r)); [exact Hm|done|exact Hs|exact Hrun].
Qed.
Lemma after_result_call {A} (m : io IoError A) f S Q files r :
  atomic m f → (calm = false → Q (Err OtherError) (stage files r)) →
  (match f files with (x, Some d) => S (stage d r) ∧ Q x (stage d r) | (x, None) => Q x (stage files r) end) →
  after calm S (in_result m) Q (stage files r).
Proof. intros Hm Hfail Hok. apply after_result. eapply on_disk_atomic; [exact Hm|done|]. by destruct (f files) as [x [d|]]. Qed.

Lemma drafted_inode now was g : inodes (drafted now was g) !! n = Some g.
Proof. apply lookup_insert_eq. Qed.
Lemma drafted_write now was g g' : set_inode n g' (drafted now was g) = drafted now was g'.
Proof. unfold set_inode, drafted. cbn. by rewrite insert_insert_eq. Qed.
Lemma drafted_barrier now was g :
  {| names := names (drafted now was g); inodes := inodes (drafted now was g); next_inode := next_inode (drafted now was g); unsynced := [] |}
  = drafted now [] g.
Proof. done. Qed.

Context (HD : names0 !! DRAFT = None) (HF : names0 !! FINISHED = None).

Lemma dir_names_draft p : dir_names p !! DRAFT = if p.1 then Some n else None.
Proof. unfold dir_names. destruct p as [[] []]; cbn; rewrite ?(lookup_insert_ne _ FINISHED DRAFT) by done; rewrite ?lookup_insert_eq; done. Qed.
Lemma dir_names_finished p : dir_names p !! FINISHED = if p.2 then Some n else None.
Proof. unfold dir_names. destruct p as [[] []]; cbn; rewrite ?lookup_insert_eq; rewrite ?lookup_insert_ne by done; done. Qed.
Lemma dir_names_other p name : name ≠ DRAFT → name ≠ FINISHED → dir_names p !! name = names0 !! name.
Proof. intros ??. unfold dir_names. destruct p as [[] []]; cbn; by rewrite ?lookup_insert_ne by done. Qed.
Lemma drafted_link was g : set_names (<[FINISHED := n]> (dir_names (true, false))) (drafted (true, false) was g)
  = drafted (true, true) ((true, false) :: was) g.
Proof. done. Qed.
Lemma drafted_unlink was g : set_names (delete DRAFT (dir_names (true, true))) (drafted (true, true) was g)
  = drafted (false, true) ((true, true) :: was) g.
Proof.
  unfold set_names, drafted. cbn. f_equal. rewrite delete_insert_ne by done. by rewrite delete_insert_id.
Qed.
End Stages.


Section Transaction.
Context `{Process} `{Vocabulary} `{RecordCodec} `{Removal} (cfg : Config) (calm : bool).
Context (recs : Disk) (m0 : Meta) (names0 : gmap str nat) (inodes0 : gmap nat Inode) (n nx : nat) (raw0 : Slot Tree) (b : SessionBody).
Context (HD : names0 !! DRAFT = None) (HF : names0 !! FINISHED = None) (Hcodec : readable b).

Abbreviation at_ := (stage recs m0).
Abbreviation files := (drafted names0 inodes0 n nx).
Abbreviation sound := (safe cfg calm recs m0 names0 inodes0 n nx raw0 b).

(** What licenses leaving the raw tree as it is now. *)
Definition stood_for (rs : Slot Tree) (g : Inode) : Prop := rs = raw0 ∨ (accepted names0 inodes0 b ∧ (calm = true → holds b g ∧ removed_for_good raw0 b rs)).

Lemma sound_draft was g rs : Forall (eq (true, false)) was → stood_for rs g → sound (at_ (files (true, false) was g) rs).
Proof.
  intros Hwas Hst. exists (true, false), was, g, rs. split; [done|].
  assert (∀ P : bool * bool → Prop, P (true, false) → Forall P ((true, false) :: was)) as Hall.
  { intros P HP. constructor; [done|]. eapply Forall_impl; [exact Hwas|]. by intros ? <-. }
  split; [by apply Hall|]. destruct Hst as [->|[Hb Hc]]; [by left|]. right. split_and!; [done| |done]. by apply Hall.
Qed.

Lemma sound_public now was g rs :
  Forall (fun p : bool * bool => p.1 || p.2 = true) (now :: was) → published cfg calm b g rs → stood_for rs g → sound (at_ (files now was g) rs).
Proof.
  intros Hall Hpub Hst. exists now, was, g, rs. split; [done|]. split; [by apply Forall_forall|].
  destruct Hst as [->|[Hb Hc]]; [by left|]. by right.
Qed.

Lemma sync_result_after context now was g rs S Q :
  (calm = false → ∀ e, Q (Err e) (at_ (files now was g) rs)) → S (at_ (files now [] g) rs) → Q (Ok tt) (at_ (files now [] g) rs) →
  after calm S (sync_result context) Q (at_ (files now was g) rs).
Proof.
  intros Hfail HS HQ. unfold sync_result. step. eapply after_result_call; [apply sync_dir_atomic|intros; by apply Hfail|by split].
Qed.

Lemma require_absent_after r1 r2 now was g rs S Q :
  now.2 = false → (calm = false → ∀ e, Q (Err e) (at_ (files now was g) rs)) → Q (Ok tt) (at_ (files now was g) rs) →
  after calm S (require_absent FINISHED r1 r2) Q (at_ (files now was g) rs).
Proof.
  intros Hp Hfail HQ. unfold require_absent. step. step. eapply after_result_call; [apply symlink_metadata_atomic|intros Hc; step; by apply Hfail|].
  unfold lookup_name. change (names (files now was g)) with (dir_names names0 n now). rewrite dir_names_finished, Hp by done. cbn [mbind option_bind ok_or]. by step.
Qed.

Lemma commit_after g rs b' :
  faithful calm b b' → holds b' g → told cfg rs b' → stood_for rs g →
  after calm sound commit_prepared_terminal
    (fun r s => (r = Ok tt → s = at_ (files (false, true) [] g) rs) ∧ (calm = true → r = Ok tt)) (at_ (files (true, false) [] g) rs).
Proof.
  intros Ham Hh Ht Hst. assert (published cfg calm b g rs) as Hpub by (by exists b').
  unfold commit_prepared_terminal. step. apply require_absent_after; [done|by intros ->|].
  step. step. eapply after_result_call; [apply hard_link_atomic|by intros ->|].
  cbv beta. change (names (files (true, false) [] g)) with (dir_names names0 n (true, false)).
  rewrite dir_names_draft, dir_names_finished by done. cbn [fst snd map_err]. rewrite drafted_link. split.
  { by apply sound_public; [repeat constructor|..]. }
  step. apply sync_result_after; [by intros ->|by apply sound_public; [repeat constructor|..]|].
  step. step. eapply after_result_call; [apply remove_file_atomic|by intros ->|].
  cbv beta. change (names (files (true, true) [] g)) with (dir_names names0 n (true, true)).
  rewrite dir_names_draft by done. cbn [fst snd map_err]. rewrite drafted_unlink by done. split.
  { by apply sound_public; [repeat constructor|..]. }
  apply sync_result_after; [by intros ->|by apply sound_public; [repeat constructor|..]|done].
Qed.


Definition free_of (rs : Slot Tree) : Prop := rs = raw0 ∨ (accepted names0 inodes0 b ∧ calm = false).
Lemma free_stands rs g : free_of rs → stood_for rs g.
Proof. intros [->|[Hb Hc]]; [by left|]. right. split; [done|]. congruence. Qed.

Lemma regular g : private_file g = true → file_type g = Regular.
Proof. unfold private_file. intros Hp. repeat (apply andb_true_iff in Hp as [Hp _]). by apply bool_decide_eq_true in Hp. Qed.

Lemma open_draft_after was g rs S Q :
  private_file g = true → (calm = false → Q (Err OtherError) (at_ (files (true, false) was g) rs)) → Q (Ok n) (at_ (files (true, false) was g) rs) →
  after calm S (in_result (open_nofollow DRAFT)) Q (at_ (files (true, false) was g) rs).
Proof.
  intros Hp Hfail HQ. eapply after_result_call; [apply open_nofollow_atomic|done|]. cbv beta.
  change (names (files (true, false) was g)) with (dir_names names0 n (true, false)). rewrite dir_names_draft by done. cbn [fst].
  rewrite drafted_inode, decide_False by by rewrite regular. done.
Qed.

Lemma rewrite_after b' g rs :
  amended b b' → private_file g = true → free_of rs →
  after calm sound (rewrite_prepared_terminal b')
    (fun r s => r = Ok tt → ∃ g', s = at_ (files (true, false) [] g') rs ∧ holds b' g') (at_ (files (true, false) [] g) rs).
Proof.
  intros Ham Hp Hfree. assert (∀ was g', Forall (eq (true, false)) was → sound (at_ (files (true, false) was g') rs)) as Hsound
    by (intros; apply sound_draft; [done|by apply free_stands]).
  unfold rewrite_prepared_terminal. step. step. destruct (validate_shape b') as [[]|e] eqn:Hshape; [|done].
  step. apply require_absent_after; [done|by intros _ e|]. step. step. eapply after_result_call; [apply symlink_metadata_atomic|done|].
  unfold lookup_name. change (names (files (true, false) [] g)) with (dir_names names0 n (true, false)). rewrite dir_names_draft by done.
  cbn [fst mbind option_bind]. rewrite drafted_inode. cbn [ok_or map_err]. rewrite Hp. cbn [negb].
  step. step. apply open_draft_after; [done..|]. cbn [map_err].
  step. step. eapply after_result_call; [apply fstat_atomic|done|]. cbv beta. rewrite drafted_inode. cbn [ok_or map_err]. rewrite Hp. cbn [negb].
  step. step. step. eapply after_result_call; [apply truncate_atomic|done|]. cbv beta. rewrite drafted_inode, drafted_write. cbv match.
  split; [by apply Hsound|]. step. apply after_result. eapply on_disk_write; [apply drafted_inode|intros k _|]; cbv zeta; rewrite drafted_write;
    (split; [by apply Hsound|]); [done|].
  eapply after_result_call; [apply sync_all_atomic|done|]. cbv beta. rewrite drafted_inode, drafted_write. cbv match. split; [by apply Hsound|]. cbn [map_err].
  apply sync_result_after; [done|by apply Hsound|]. intros _. eexists. split; [done|]. split_and!; try done. cbn. by apply Hcodec.
Qed.

(** ** The checks the transaction makes *)
Context (HB : names0 !! BUNDLE ≠ Some n).

Abbreviation archive := (archive_stands names0 inodes0).

Lemma storage_after b' now was g rs S :
  after calm S (validate_terminal_storage b')
    (fun r s => s = at_ (files now was g) rs ∧ (r = Ok tt → validate_shape b' = Ok tt ∧ is_Some (sb_terminal b') ∧ (bundled b' = true → archive b')) ∧
       (calm = true → validate_shape b' = Ok tt → archive b' → r = Ok tt)) (at_ (files now was g) rs).
Proof.
  lazymatch goal with |- after _ _ _ ?Q _ => set (Post := Q) end. set (s := at_ (files now was g) rs).
  assert (∀ e, (calm = true → validate_shape b' = Ok tt → ¬ archive b') → Post (Err e) s) as Hno.
  { intros e Hno. unfold Post. split_and!; try done. intros Hc Hv Ha. by destruct (Hno Hc Hv). }
  unfold validate_terminal_storage. step. step. destruct (validate_shape b') as [[]|e] eqn:Hshape; [|by apply Hno].
  step. step. destruct (sb_terminal b') as [t|] eqn:Ht; [|apply Hno; intros _ _ (? & ? & _); congruence]. cbn [ok_or].
  assert ((bundled b' = true → archive b') → Post (Ok tt) s) as Hyes by (intros ?; unfold Post; by split_and!).
  assert (names (files now was g) !! BUNDLE = names0 !! BUNDLE) as Hn by by apply dir_names_other.
  assert (∀ i, names0 !! BUNDLE = Some i → inodes (files now was g) !! i = inodes0 !! i) as Hi by (intros i Hi; apply lookup_insert_ne; congruence).
  destruct (tl_bundle t) as [bundle|] eqn:Hb.
  - step. step. eapply after_result_call; [apply symlink_metadata_atomic|intros Hc; apply Hno; intros ??; congruence|]. cbv beta. unfold lookup_name. rewrite Hn.
    assert (archive b' → ∃ i f, names0 !! BUNDLE = Some i ∧ inodes0 !! i = Some f ∧ private_file f = true ∧ contents f ≠ [] ∧
                            Z.of_nat (length (contents f)) = bs_compressed_bytes bundle) as Hs.
    { intros (t' & Ht' & Ha). rewrite Ht in Ht'. injection Ht' as <-. by rewrite Hb in Ha. }
    destruct (names0 !! BUNDLE) as [i|] eqn:HBi; cbn [mbind option_bind].
    2: { apply Hno. intros _ _ Ha. by destruct (Hs Ha) as (? & ? & ? & _). }
    rewrite Hi by done. destruct (inodes0 !! i) as [f|] eqn:Hf; cbn [ok_or map_err].
    2: { apply Hno. intros _ _ Ha. destruct (Hs Ha) as (i' & f & [= <-] & Hf' & _). congruence. }
    destruct (negb (private_file f) || (length (contents f) =? 0)%nat || negb (Z.of_nat (length (contents f)) =? bs_compressed_bytes bundle)) eqn:Hbad; step.
    + apply Hno. intros _ _ Ha. destruct (Hs Ha) as (i' & f' & [= <-] & Hf' & Hp & Hne & Hl). assert (f' = f) as -> by congruence.
      rewrite Hp, Hl, Z.eqb_refl in Hbad. destruct (contents f); [done|]. done.
    + apply orb_false_iff in Hbad as [[Hp Hne]%orb_false_iff Hl]. apply negb_false_iff in Hp, Hl.
      apply Hyes. intros _. exists t. split; [done|]. rewrite Hb. exists i, f. split_and!; try done; [by intros E; rewrite E in Hne|by apply Z.eqb_eq].
  - assert (bundled b' = true → archive b') as Hvac by (unfold bundled; rewrite Ht; cbn [mbind option_bind]; by rewrite Hb).
    destruct (tl_raw_session_tree_retained t) eqn:Hr; [step; by apply Hyes|].
    step. unfold path_entry_exists, exists_at. step. step. eapply after_result_call; [apply symlink_metadata_atomic|intros Hc; step; apply Hno; intros ??; congruence|].
    cbv beta. unfold lookup_name. rewrite Hn. destruct (names0 !! BUNDLE) as [i|] eqn:HBi; cbn [mbind option_bind ok_or]; [|do 2 step; by apply Hyes].
    assert (¬ archive b') as Hna.
    { intros (t' & Ht' & Ha). rewrite Ht in Ht'. injection Ht' as <-. rewrite Hb in Ha. specialize (Ha Hr). congruence. }
    destruct (inodes (files now was g) !! i); cbn [ok_or]; [do 2 step; by apply Hno|do 2 step; by apply Hyes].
Qed.

(** ** The control directory *)
Definition in_tree (d : Disk) (c : ControlDir) (t : Tree) (rs : Slot Tree) : Slot Tree :=
  adjust (with_control (adjust {| control_meta := control_meta c; control_files := d |} (control t)) t) rs.

Lemma in_tree_same c t rs : here rs = Some t → here (control t) = Some c → in_tree (control_files c) c t rs = rs.
Proof. destruct rs, t as [? [] ? ?], c. cbn. by intros -> ->. Qed.

Lemma after_control {A} (m : io IoError A) S Q fl rs t c :
  here rs = Some t → here (control t) = Some c →
  on_disk calm (control_files c) (fun d => S (at_ fl (in_tree d c t rs))) m (fun x d => Q x (at_ fl (in_tree d c t rs))) →
  after calm S (in_control m) Q (at_ fl rs).
Proof.
  intros Ht Hcd Hm st x st' Hc Hs. unfold in_control. rewrite Hs. cbn [stage raw]. rewrite Ht, Hcd.
  intros Hrun. by eapply (after_in_dir calm (at_ fl rs)); [exact Hm|done|exact Hs|exact Hrun].
Qed.
Lemma after_control_read {A} (m : io IoError A) f x S Q fl rs t c :
  here rs = Some t → here (control t) = Some c → atomic m f → f (control_files c) = (x, None) →
  (calm = false → Q (Err OtherError) (at_ fl rs)) → Q x (at_ fl rs) → after calm S (in_control m) Q (at_ fl rs).
Proof.
  intros Ht Hcd Hm Hf Hfail HQ. eapply after_control; [done..|]. eapply on_disk_atomic; [exact Hm|..]; rewrite ?Hf, in_tree_same by done; done.
Qed.
Lemma after_control_call {A} (m : io IoError A) f x d S Q fl rs t c :
  here rs = Some t → here (control t) = Some c → atomic m f → f (control_files c) = (x, Some d) →
  (calm = false → Q (Err OtherError) (at_ fl rs)) → S (at_ fl (in_tree d c t rs)) → Q x (at_ fl (in_tree d c t rs)) →
  after calm S (in_control m) Q (at_ fl rs).
Proof.
  intros Ht Hcd Hm Hf Hfail HS HQ. eapply after_control; [done..|]. eapply on_disk_atomic; [exact Hm|..]; rewrite ?Hf; [|done].
  by rewrite in_tree_same.
Qed.
Lemma after_control_absent {A} (m : io IoError A) S Q fl rs :
  (here rs ≫= fun t => here (control t)) = None → Q (Err NotFoundError) (at_ fl rs) → after calm S (in_control m) Q (at_ fl rs).
Proof.
  intros Hn HQ st x st' Hc Hs. unfold in_control. rewrite Hs. cbn [stage raw].
  destruct (next_fault st) as [fault st1] eqn:Hf. destruct (faultless_next _ _ _ _ Hc Hf) as (Hs1 & Hp & Hc1 & _).
  assert (∀ (r : result IoError A * State), r = (Err NotFoundError, st1) → r = (x, st') → went S st st' ∧ Q x (site st') ∧ faultless calm (site_faults st')) as Hend.
  { intros r -> [= <- <-]. rewrite Hs1, Hs. split_and!; [by apply went_refl|done|done]. }
  destruct (here rs) as [t|]; cbn [mbind option_bind] in Hn; [rewrite Hn|]; by apply Hend.
Qed.

(** The tree's control directory holds the marker the record needs. *)
Definition shown (tr : Tree) (b' : SessionBody) : Prop :=
  ∃ c i f, here (control tr) = Some c ∧ names (control_files c) !! MARKER = Some i ∧ inodes (control_files c) !! i = Some f ∧
    private_within 4096 f = true ∧ is_ok (from_utf8 (contents f)) = true ∧ marker_names cfg (sb_session_id b') (bundled b') (contents f) = true.
(** What a record says of the raw tree, as far as it can be seen. *)
Definition seen (rs : Slot Tree) (b' : SessionBody) : Prop :=
  ∃ t, sb_terminal b' = Some t ∧
    if tl_raw_session_tree_retained t then
      ∃ tr, here rs = Some tr ∧ service_directory (root tr) = true ∧ shown tr b'
    else here rs = None.

Lemma told_seen rs b' : told cfg rs b' → seen rs b'.
Proof.
  intros (t & Ht & Hd). exists t. split; [done|]. destruct (tl_raw_session_tree_retained t); [|by destruct Hd].
  destruct Hd as (_ & tr & c & i & f & ? & ? & Hc & ? & ? & ? & ? & ? & ? & ?). exists tr. split_and!; [done..|]. exists c, i, f. by rewrite Hc.
Qed.

Lemma stat_raw_after fl rs S Q :
  (calm = false → Q (Err OtherError) (at_ fl rs)) → Q (ok_or (root <$> here rs) NotFoundError) (at_ fl rs) →
  after calm S stat_raw Q (at_ fl rs).
Proof. intros Hfail HQ. by eapply after_call. Qed.

Lemma marker_after b' t fl rs tr S :
  sb_terminal b' = Some t → tl_raw_session_tree_retained t = true → here rs = Some tr →
  after calm S (validate_delete_state_marker cfg b')
    (fun r s => s = at_ fl rs ∧ (r = Ok tt → shown tr b') ∧ (calm = true → shown tr b' → r = Ok tt)) (at_ fl rs).
Proof.
  intros Ht Hret Hr. lazymatch goal with |- after _ _ _ ?Q _ => set (Post := Q) end. set (s := at_ fl rs).
  assert (∀ e, (calm = true → ¬ shown tr b') → Post (Err e) s) as Hno.
  { intros e Hno. unfold Post. split_and!; try done. intros Hc Hv. by destruct (Hno Hc). }
  assert (bundled b' = presence (tl_bundle t)) as Hbd by (unfold bundled; by rewrite Ht).
  unfold validate_delete_state_marker. step. step. unfold terminal_of. rewrite Ht. cbn [ok_or]. step. step.
  destruct (here (control tr)) as [c|] eqn:Hcd.
  2: { apply after_control_absent; [by rewrite Hr|]. cbv beta match. rewrite ?Hret. step. apply Hno. intros _ (? & ? & ? & ? & _). congruence. }
  assert (∀ f, (∃ i, names (control_files c) !! MARKER = Some i ∧ inodes (control_files c) !! i = Some f) → shown tr b' →
    private_within 4096 f = true ∧ is_ok (from_utf8 (contents f)) = true ∧ marker_names cfg (sb_session_id b') (bundled b') (contents f) = true) as Hshown.
  { intros f (i & Hi & Hf) (c' & i' & f' & Hc' & Hi' & Hf' & Hrest). assert (c' = c) as -> by congruence.
    assert (i' = i) as -> by congruence. by assert (f' = f) as -> by congruence. }
  eapply after_control_read; [done..|apply open_nofollow_atomic|done|intros Hc; cbv beta match; rewrite ?Hret; step; apply Hno; congruence|].
  cbv beta match. rewrite ?Hret. destruct (names (control_files c) !! MARKER) as [i|] eqn:Hi.
  2: { step. apply Hno. intros _ (? & ? & ? & ? & ? & _). congruence. }
  destruct (inodes (control_files c) !! i) as [f|] eqn:Hf.
  2: { step. apply Hno. intros _ (? & ? & ? & ? & ? & ? & _). congruence. }
  specialize (Hshown f (ex_intro _ i (conj eq_refl Hf))).
  destruct (decide (file_type f = Symlink)) as [Hl|Hl].
  { step. apply Hno. intros _ Hs%Hshown. destruct Hs as [Hp _]. apply andb_true_iff in Hp as [Hp%regular _]. congruence. }
  cbv beta match. step. unfold read_opened. step. step.
  eapply after_control_read; [done..|apply fstat_atomic|done|intros Hc; apply Hno; congruence|]. rewrite Hf. cbn [ok_or map_err].
  destruct (private_within 4096 f) eqn:Hp; cbn [negb]; [|step; apply Hno; intros _ Hs%Hshown; by destruct Hs].
  step. step. eapply after_control_read; [done..|apply read_to_end_atomic|done|intros Hc; apply Hno; congruence|]. rewrite Hf. cbn [fmap option_fmap option_map ok_or map_err].
  rewrite Nat.eqb_refl. cbn [negb]. step. step. step. destruct (from_utf8 (contents f)) eqn:Hu; cbn [map_err].
  2: { apply Hno. intros _ Hs%Hshown. by destruct Hs as (_ & ? & _). }
  rewrite <-Hbd. destruct (marker_names cfg (sb_session_id b') (bundled b') (contents f)) eqn:Hm; step.
  - unfold Post. split_and!; try done. intros _. exists c, i, f. by rewrite Hu.
  - apply Hno. intros _ Hs%Hshown. by destruct Hs as (_ & _ & ?).
Qed.

Lemma state_storage_after b' fl rs S :
  after calm S (validate_terminal_state_storage cfg b')
    (fun r s => s = at_ fl rs ∧ (r = Ok tt → seen rs b') ∧ (calm = true → seen rs b' → r = Ok tt)) (at_ fl rs).
Proof.
  lazymatch goal with |- after _ _ _ ?Q _ => set (Post := Q) end. set (s := at_ fl rs).
  assert (∀ e, (calm = true → ¬ seen rs b') → Post (Err e) s) as Hno.
  { intros e Hno. unfold Post. split_and!; try done. intros Hc Hv. by destruct (Hno Hc). }
  assert (seen rs b' → Post (Ok tt) s) as Hyes by (intros ?; unfold Post; by split_and!).
  unfold validate_terminal_state_storage. step. step. destruct (sb_terminal b') as [t|] eqn:Ht.
  2: { unfold terminal_of. rewrite Ht. apply Hno. intros _ (? & ? & _). congruence. }
  unfold terminal_of at 1. rewrite Ht. cbn [ok_or].
  assert (seen rs b' → if tl_raw_session_tree_retained t then ∃ tr, here rs = Some tr ∧ service_directory (root tr) = true else here rs = None) as Hat.
  { intros (t' & Ht' & Hs). rewrite Ht in Ht'. injection Ht' as <-. destruct (tl_raw_session_tree_retained t); [|done].
    destruct Hs as (tr & ? & ? & _). eauto. }
  step. step. apply stat_raw_after.
  { intros Hc. destruct (tl_raw_session_tree_retained t); step; apply Hno; congruence. }
  destruct (here rs) as [tr|] eqn:Hr, (tl_raw_session_tree_retained t) eqn:Hret; cbn [fmap option_fmap option_map ok_or].
  2: { step. apply Hno. intros _ Hs. by specialize (Hat Hs). }
  2: { step. apply Hno. intros _ Hs. by destruct (Hat Hs) as (? & ? & _). }
  2: { step. apply Hyes. exists t. by rewrite Hret. }
  cbv beta match. destruct (service_directory (root tr)) eqn:Hdir.
  2: { step. apply Hno. intros _ Hs. destruct (Hat Hs) as (? & [= <-] & ?). congruence. }
  eapply after_mono; [by eapply marker_after|]. intros r s' (-> & Hok & Hcalm). unfold Post. split_and!; [done|..].
  - intros E. exists t. split; [done|]. rewrite Hret. exists tr. by auto.
  - intros Hc (t' & Ht' & Hs). rewrite Ht in Ht'. injection Ht' as <-. rewrite Hret in Hs. destruct Hs as (tr' & Htr & _ & Hs).
    assert (tr' = tr) as -> by congruence. auto.
Qed.

(** ** The raw tree *)
Definition marker_settled (d : Disk) : Prop :=
  unsynced d = [] ∧ ∀ i f, names d !! MARKER = Some i → inodes d !! i = Some f → file_synced f = true.
(** Neither the tree's name nor its marker waits for a barrier; what the agent wrote may. *)
Definition rested (rs : Slot Tree) : Prop :=
  before rs = [] ∧ ∀ t, here rs = Some t → before (control t) = [] ∧ ∀ c, here (control t) = Some c → marker_settled (control_files c).
Lemma rested_control rs t c :
  rested rs → here rs = Some t → here (control t) = Some c → before (control t) = [] ∧ marker_settled (control_files c).
Proof. intros [_ Hq] Ht Hc. destruct (Hq _ Ht) as (Hb & Hd). auto. Qed.

(** What a removal may have made of the tree. *)
Definition reduced (rs : Slot Tree) : Prop :=
  rs = raw0 ∨ (accepted names0 inodes0 b ∧ (here rs = None ∨ ∃ t t', here raw0 = Some t ∧ remains t t' ∧ rs = adjust t' raw0)).

Lemma remove_raw_after fl rs S Q :
  (here rs = None → Q (Err NotFoundError) (at_ fl rs)) →
  (∀ t, here rs = Some t → S (at_ fl (put None rs)) ∧ Q (Ok tt) (at_ fl (put None rs)) ∧ (calm = false → Q (Err OtherError) (at_ fl (put None rs)))) →
  (∀ t t', here rs = Some t → remains t t' → calm = false → S (at_ fl (adjust t' rs)) ∧ Q (Err OtherError) (at_ fl (adjust t' rs))) →
  after calm S remove_raw Q (at_ fl rs).
Proof. intros Hnone Hall Hpart. by apply remove_raw_at. Qed.

Lemma sync_sessions_after fl rs S Q :
  (calm = false → Q (Err OtherError) (at_ fl rs)) → S (at_ fl (settle rs)) → Q (Ok tt) (at_ fl (settle rs)) → after calm S sync_sessions Q (at_ fl rs).
Proof. intros Hfail HS HQ. eapply after_call; [done|]. by split. Qed.

Lemma removal_after g :
  holds b g → rested raw0 → (∀ t, here raw0 = Some t → accepted names0 inodes0 b) →
  (∃ tm, sb_terminal b = Some tm ∧ tl_raw_session_tree_retained tm = false) →
  after calm sound remove_terminalized_state
    (fun r s => ∃ ds rs, r = Ok ds ∧ s = at_ (files (true, false) [] g) rs ∧ reduced rs ∧ stood_for rs g ∧
       (ds = [] → here rs = None ∧ before rs = []) ∧
       (calm = true → ds ≠ [] → ∃ t, here raw0 = Some t ∧ service_directory (root t) = false ∧ rs = raw0))
    (at_ (files (true, false) [] g) raw0).
Proof.
  intros Hh [Hbf _] Hbd Hkeep. lazymatch goal with |- after _ _ _ ?Q _ => set (Post := Q) end. set (fl := files (true, false) [] g).
  assert (∀ rs, stood_for rs g → sound (at_ fl rs)) as Hsound by (intros; by apply sound_draft).
  assert (∀ d, (calm = false ∨ ∃ t, here raw0 = Some t ∧ service_directory (root t) = false) → Post (Ok [d]) (at_ fl raw0)) as Hkept.
  { intros d Hwhy. exists [d], raw0. split_and!; try done; [by left|by left|]. intros Hc _. destruct Hwhy as [?|(t & ? & ?)]; [congruence|]. by exists t. }
  unfold remove_terminalized_state. step. step. apply stat_raw_after; [intros Hc; step; apply Hkept; by left|].
  destruct (here raw0) as [t|] eqn:Hr; cbn [fmap option_fmap option_map ok_or]; cbv beta match.
  2: { assert (settle raw0 = raw0) as Hset by (destruct raw0; cbn in *; by rewrite Hbf). unfold diagnosed_by. step. step. step.
       apply sync_sessions_after; rewrite ?Hset; [intros Hc; step; apply Hkept; by left|by apply Hsound; left|].
       step. exists [], raw0. split_and!; try done; by left. }
  specialize (Hbd t eq_refl).
  destruct (service_directory (root t)) eqn:Hdir; cbn [negb]; [|step; apply Hkept; right; by exists t].
  assert (∀ rs, calm = false ∨ removed_for_good raw0 b rs → stood_for rs g) as Hst.
  { intros rs Hwhy. right. split; [done|]. intros Hc. split; [done|]. destruct Hwhy; congruence. }
  assert (removed_for_good raw0 b (put None raw0)) as Hgone.
  { split; [done|]. split; [done|]. constructor; [right; by rewrite Hr|]. rewrite Hbf. constructor. }
  assert (∀ rs d, calm = false → reduced rs → Post (Ok [d]) (at_ fl rs)) as Hfailed.
  { intros rs d Hc Hred. exists [d], rs. split_and!; try done; [by apply Hst; left|congruence]. }
  assert (reduced (put None raw0)) as Hput by (right; split; [done|by left]).
  unfold diagnosed_by. step. step. step. step. apply remove_raw_after; [congruence|intros t1 _|intros t1 t' Ht1 Hrem Hc].
  - split_and!; [by apply Hsound, Hst; right| |intros Hc; cbn [map_err]; step; by apply Hfailed].
    cbn [map_err]. step. apply sync_sessions_after; [intros Hc; cbn [map_err]; step; by apply Hfailed|apply Hsound, Hst; right; split_and!; try done; apply Hgone|].
    cbn [map_err]. step. exists [], (settle (put None raw0)). split_and!; try done; [right; split; [done|by left]|].
    apply Hst. right. split; [apply Hgone|]. by split; [|constructor].
  - split; [by apply Hsound, Hst; left|]. cbn [map_err]. step. apply Hfailed; [done|]. right. split; [done|]. right. exists t1, t'. by rewrite <-Ht1.
Qed.

(** ** Keeping what could not be removed *)
Lemma after_control_at {A} (m : io IoError A) S Q fl rs t c d :
  here rs = Some t → here (control t) = Some c →
  on_disk calm d (fun d => S (at_ fl (in_tree d c t rs))) m (fun x d => Q x (at_ fl (in_tree d c t rs))) →
  after calm S (in_control m) Q (at_ fl (in_tree d c t rs)).
Proof. intros Ht Hcd Hm. by eapply after_control. Qed.

Definition durable_marker (d : Disk) : Prop :=
  unsynced d = [] ∧ ∃ i f, names d !! MARKER = Some i ∧ inodes d !! i = Some f ∧ file_synced f = true.

Lemma marker_publication_after id fl rs :
  (∀ rs', sound (at_ fl rs')) → calm = false →
  after calm sound (publish_cleanup_retention_marker cfg id)
    (fun r s => r = Ok tt → ∃ t c d, here rs = Some t ∧ here (control t) = Some c ∧ s = at_ fl (in_tree d c t rs) ∧ durable_marker d) (at_ fl rs).
Proof.
  intros Hsound Hc. unfold publish_cleanup_retention_marker. step. step. apply stat_raw_after; [done|].
  destruct (here rs) as [t|] eqn:Ht; cbn [fmap option_fmap option_map ok_or map_err]; [|done].
  destruct (service_directory (root t)); cbn [negb]; [|by step]. step. step. eapply after_call; [done|]. cbn [stage raw]. rewrite Ht. cbn [mbind option_bind].
  destruct (here (control t)) as [c|] eqn:Hcd; cbn [fmap option_fmap option_map ok_or map_err]; [|done].
  destruct (service_directory (control_meta c)); cbn [negb]; [|by step]. step. step.
  rewrite <-(in_tree_same c t rs) by done. apply after_control_at; [done..|]. eapply on_disk_atomic; [apply create_new_atomic|done|]. cbv beta zeta.
  destruct (names (control_files c) !! MARKER) as [|] eqn:Hm; [done|]. split; [by apply Hsound|]. cbn [map_err].
  set (i := next_inode (control_files c)). step. step. step. apply after_control_at; [done..|].
  eapply on_disk_write; [cbn; apply lookup_insert_eq|intros k _|]; cbv zeta; (split; [by apply Hsound|]); [done|].
  apply after_control_at; [done..|]. eapply on_disk_atomic; [apply sync_all_atomic|done|]. cbn [set_inode inodes]. rewrite lookup_insert_eq. cbv match.
  split; [by apply Hsound|]. cbn [map_err]. step. apply after_control_at; [done..|]. eapply on_disk_atomic; [apply sync_dir_atomic|done|]. cbv beta match.
  split; [by apply Hsound|]. intros _. eexists t, c, _. split_and!; [done..|]. split; [done|].
  exists i. eexists. cbn. rewrite !lookup_insert_eq. done.
Qed.

(** A tree whose marker was just made, and was read back as the record needs it. *)
Lemma seen_marked d c t rs b' tm :
  before rs = [] → before (control t) = [] → sb_terminal b' = Some tm → tl_raw_session_tree_retained tm = true →
  durable_marker d → seen (in_tree d c t rs) b' → told cfg (in_tree d c t rs) b'.
Proof.
  intros Hb Hcb Ht Hret (Hu & i & f & Hi & Hf & Hsy) (t' & Ht' & Hs). exists t'. split; [done|]. assert (t' = tm) as -> by congruence.
  rewrite Hret in *. destruct Hs as (tr & [= <-] & Hdir & c' & i' & f' & [= <-] & Hi' & Hf' & Hp & Hu8 & Hm). change (names d !! MARKER = Some i') in Hi'. change (inodes d !! i' = Some f') in Hf'.
  assert (i' = i) as -> by congruence. assert (f' = f) as -> by congruence.
  split; [done|]. set (c' := {| control_meta := control_meta c; control_files := d |}).
  exists (with_control (adjust c' (control t)) t), c', i, f. split; [done|]. split; [done|]. split; [|by split_and!].
  unfold with_control, adjust. cbn [control]. by rewrite Hcb.
Qed.

Lemma amended_flags b' :
  amended b b' → bundled b' = bundled b ∧ sb_session_id b' = sb_session_id b.
Proof.
  intros [->|(ds & [->| ->])]; [done|..]; unfold bundled, with_terminal; cbn; (split; [|done]); by destruct (sb_terminal b).
Qed.

Lemma amend_twice ds ds' : with_terminal (add_diagnostics ds') (with_terminal (add_diagnostics ds) b) = with_terminal (add_diagnostics (ds ++ ds')) b.
Proof.
  unfold with_terminal. cbn. f_equal. destruct (sb_terminal b) as [t|]; [|done]. cbn. unfold add_diagnostics. cbn. by rewrite app_assoc.
Qed.
Lemma amend_retain ds ds' :
  with_terminal retain (with_terminal (add_diagnostics ds') (with_terminal (add_diagnostics ds) b))
  = with_terminal (fun t => retain (add_diagnostics (ds ++ ds') t)) b.
Proof. rewrite amend_twice. unfold with_terminal. cbn. f_equal. by destruct (sb_terminal b). Qed.

(** ** The transaction on a prepared draft *)
Definition amends (S : Site → Prop) (m : amending) (Q : service unit → SessionBody → Site → Prop) (s : Site) : Prop :=
  ∀ st r b' st', faultless calm (site_faults st) → site st = s → m st = (r, b', st') →
    went S st st' ∧ Q r b' (site st') ∧ faultless calm (site_faults st').

Lemma amends_ending b' (m : op ServiceError unit) S Q s : after calm S m (fun r s => Q r b' s) s → amends S (ending_with b' m) Q s.
Proof.
  intros Hm st r b'' st' Hc Hs. unfold ending_with. destruct (m st) as [x st1] eqn:Hrun. intros [= <- <- <-]. by apply (Hm _ _ _ Hc Hs Hrun).
Qed.

Lemma amends_answer r b' S Q s : Q r b' s → amends S (answer r b') Q s.
Proof. intros HQ st r' b'' st' Hc <- [= <- <- <-]. split_and!; [by apply went_refl|done|done]. Qed.
Lemma amends_observing {E A} (m : op E A) k S Q s : after calm S m (fun r s => amends S (k r) Q s) s → amends S (observing m k) Q s.
Proof.
  intros Hm st r b'' st' Hc Hs. unfold observing. destruct (m st) as [x st1] eqn:Hrun. intros Hk.
  destruct (Hm _ _ _ Hc Hs Hrun) as (Hw & HQ & Hc1). destruct (HQ _ _ _ _ Hc1 eq_refl Hk) as (? & ?). split; [by eapply went_trans|done].
Qed.

(** How a transaction ends. *)
Definition ended (r : service unit) (b' : SessionBody) (s : Site) : Prop :=
  amended b b' ∧ (r = Ok tt → ∃ g rs, s = at_ (files (false, true) [] g) rs ∧ holds b' g ∧ told cfg rs b').

Lemma reduced_control rs t c :
  rested raw0 → reduced rs → here rs = Some t → here (control t) = Some c → before rs = [] ∧ before (control t) = [].
Proof.
  intros Hrest [->|(_ & [Hn|(t0 & t' & Ht0 & Hrem & ->)])] Ht Hc; [|congruence|].
  - split; [apply Hrest|by apply (rested_control _ _ _ Hrest Ht Hc)].
  - cbn in *. injection Ht as <-. destruct (remains_control _ _ Hrem _ Hc) as (c0 & Hc0 & -> & _). split; [apply Hrest|by apply (rested_control _ _ _ Hrest Ht0 Hc0)].
Qed.

Lemma failed_cleanup_after ds g rs :
  holds b g → rested raw0 → (bundled b = true → archive b) → reduced rs →
  (calm = true → ∃ t, here raw0 = Some t ∧ service_directory (root t) = false ∧ rs = raw0) →
  amends sound (after_failed_cleanup cfg (with_terminal (add_diagnostics ds) b)) ended (at_ (files (true, false) [] g) rs).
Proof.
  intros Hh Hrest Harch Hred Hcalm. destruct Hh as (Hpriv & Hh').
  assert (free_of rs) as Hfree.
  { destruct Hred as [->|[Hb _]]; [by left|]. destruct calm eqn:Hcm; [|by right]. destruct (Hcalm eq_refl) as (? & _ & _ & ->). by left. }
  set (b1 := with_terminal (add_diagnostics ds) b).
  assert (∀ ds', amended b (with_terminal (add_diagnostics ds') b1)) as Ham by (intros; right; eexists; left; apply amend_twice).
  assert (amended b b1) as Ham1 by (right; eexists; by left).
  assert (∀ b2 failure e, amended b b2 →
    amends sound (ending_with b2 (_ ← op_map_err (fun error => Internal (lit failure ++ display_error error)) (rewrite_prepared_terminal b2); just (Err e)))
      ended (at_ (files (true, false) [] g) rs)) as Hleave.
  { intros b2 failure e Ha2. apply amends_ending. step. step. eapply after_mono; [by apply rewrite_after|].
    intros r1 s1 _. destruct r1 as [[]|e1]; cbn [map_err]; [step|]; by split. }
  unfold after_failed_cleanup. apply amends_observing, stat_raw_after; [intros _; by apply amends_answer|].
  destruct (here rs) as [t|] eqn:Ht; cbn [fmap option_fmap option_map ok_or]; [|by apply Hleave].
  destruct (service_directory (root t)) eqn:Hdir; [|by apply Hleave].
  destruct (amended_flags _ Ham1) as [Hbd _]. unfold bundled in Hbd at 1. rewrite Hbd.
  destruct (bundled b) eqn:Hb; cbn [negb]; [|by apply amends_answer].
  assert (calm = false) as Hc.
  { destruct calm; [|done]. destruct (Hcalm eq_refl) as (t0 & Ht0 & Hd0 & ->). congruence. }
  lazymatch goal with |- amends _ (ending_with ?x _) _ _ => set (b2 := x) end.
  assert (amended b b2) as Ha2 by (right; eexists; right; apply amend_retain).
  assert (faithful calm b b2) as Hf2 by (split; [done|congruence]).
  apply amends_ending. step. step. eapply after_mono; [by apply rewrite_after|]. intros r1 s1 Hr1. destruct r1 as [[]|e1]; cbn [map_err]; [|by split].
  destruct (Hr1 eq_refl) as (g' & -> & Hg').
  assert (∀ rs', stood_for rs' g') as Hst by (intros; right; split; [by split; [|apply Harch]|congruence]).
  step. eapply after_mono; [apply marker_publication_after; [intros; by apply sound_draft|done]|]. intros r2 s2 Hr2.
  destruct r2 as [[]|e2]; [|by split]. destruct (Hr2 eq_refl) as (t' & c & d & Ht' & Hcd & -> & Hd).
  step. eapply after_mono; [apply state_storage_after|]. intros r3 s3 (-> & Hr3 & _). destruct r3 as [[]|e3]; [|by split].
  destruct (reduced_control rs t' c) as [Hb1 Hb2]; [done..|].
  assert (∃ tm, sb_terminal b2 = Some tm ∧ tl_raw_session_tree_retained tm = true) as (tm & Htm & Hret).
  { destruct (Hr3 eq_refl) as (tm & Htm & _). exists tm. split; [done|]. unfold b2, with_terminal in Htm. cbn in Htm.
    destruct (sb_terminal b); cbn in Htm; [|done]. by injection Htm as <-. }
  assert (told cfg (in_tree d c t' rs) b2) as Htold by by eapply seen_marked; eauto.
  eapply after_mono; [by apply (commit_after g' (in_tree d c t' rs) b2)|]. intros r4 s4 [Hr4 _]. split; [done|]. intros ->. eexists _, _. split; [by apply Hr4|done].
Qed.

(** What an undisturbed transaction needs to publish. *)
Definition ready : Prop :=
  validate_shape b = Ok tt ∧ archive b ∧ ∃ tm, sb_terminal b = Some tm ∧
    if tl_raw_session_tree_retained tm then told cfg raw0 b
    else here raw0 = None ∨ (bundled b = true ∧ ∃ t, here raw0 = Some t ∧ service_directory (root t) = true).

Lemma bundleless_after fl S :
  after calm S (refuse_bundleless b)
    (fun r s => s = at_ fl raw0 ∧ (r = Ok tt → ∀ t, here raw0 = Some t → bundled b = true) ∧
       (calm = true → is_Some (sb_terminal b) → here raw0 = None ∨ bundled b = true → r = Ok tt)) (at_ fl raw0).
Proof.
  unfold refuse_bundleless, bundled. step. step. unfold terminal_of. destruct (sb_terminal b) as [tm|] eqn:Ht; cbn [ok_or mbind option_bind].
  2: { by split_and!. }
  destruct (presence (tl_bundle tm)) eqn:Hb; [by step|]. step. step. apply stat_raw_after.
  { intros Hc. step. split_and!; try done. congruence. }
  destruct (here raw0) as [t|] eqn:Hr; cbn [fmap option_fmap option_map ok_or]; step; split_and!; try done. by intros _ _ [?|?].
Qed.

Lemma rested_told : rested raw0 → seen raw0 b → told cfg raw0 b.
Proof.
  intros Hrest (tm & Htm & Hs). exists tm. split; [done|]. destruct (tl_raw_session_tree_retained tm); [|split; [done|apply Hrest]].
  destruct Hs as (tr & Htr & Hd & c & i & f & Hc & Hi & Hf & Hp & Hu8 & Hm). destruct (rested_control _ _ _ Hrest Htr Hc) as (Hcb & Hu & Hsy).
  split; [apply Hrest|]. exists tr, c, i, f. split_and!; try done; [|by eapply Hsy].
  destruct (control tr). cbn in *. by subst.
Qed.

Lemma finish_after g :
  holds b g → rested raw0 →
  amends sound (finish_prepared_terminal_transaction cfg b)
    (fun r b' s => ended r b' s ∧ (calm = true → ready → r = Ok tt ∧ b' = b)) (at_ (files (true, false) [] g) raw0).
Proof.
  intros Hh Hrest. assert (amended b b) as Hab by by left. assert (faithful calm b b) as Hfb by done. assert (stood_for raw0 g) as Hst0 by by left.
  unfold finish_prepared_terminal_transaction. apply amends_observing.
  lazymatch goal with |- after _ _ _ ?Q _ => set (Post := Q) end. set (s := at_ (files (true, false) [] g) raw0).
  assert (∀ e s', (calm = true → ¬ ready) → Post (Err e) s') as Hno.
  { intros e s' Hno. apply amends_answer. split; [by split|]. intros Hc Hr. by destruct (Hno Hc). }
  assert (∀ rs, told cfg rs b → stood_for rs g → ∀ x, x = Ok None ∨ x = Ok (Some []) → Post x (at_ (files (true, false) [] g) rs)) as Hyes.
  { intros rs Ht Hst x Hx. assert (amends sound (ending_with b commit_prepared_terminal)
      (fun r b' s => ended r b' s ∧ (calm = true → ready → r = Ok tt ∧ b' = b)) (at_ (files (true, false) [] g) rs)) as Hend.
    { apply amends_ending. eapply after_mono; [by apply (commit_after g rs b)|]. intros r s' [Hr Hc]. split; [|by auto]. split; [done|].
      intros ->. eexists _, _. split; [by apply Hr|done]. }
    by destruct Hx as [->| ->]. }
  unfold dispose. step. eapply after_mono; [apply storage_after|]. intros r1 s1 (-> & Hr1 & Hc1).
  destruct r1 as [[]|e]; [|apply Hno; intros Hc (Hv & Ha & _); by specialize (Hc1 Hc Hv Ha)]. clear Hc1.
  step. step. destruct (Hr1 eq_refl) as (Hshape & [tm Htm] & Harch). unfold terminal_of. rewrite Htm. cbn [ok_or]. cbv beta match.
  destruct (tl_raw_session_tree_retained tm) eqn:Hret.
  - step. eapply after_mono; [apply state_storage_after|]. intros r2 s2 (-> & Hr2 & Hc2). destruct r2 as [[]|e].
    2: { apply Hno. intros Hc (_ & _ & tm' & Htm' & Hs). assert (tm' = tm) as -> by congruence. rewrite Hret in Hs. by specialize (Hc2 Hc (told_seen _ _ Hs)). }
    step. apply Hyes; [|done|by left]. exact (rested_told Hrest (Hr2 eq_refl)).
  - step. eapply after_mono; [apply bundleless_after|]. intros r2 s2 (-> & Hr2 & Hc2). destruct r2 as [[]|e].
    2: { apply Hno. intros Hc (_ & _ & tm' & Htm' & Hs). assert (tm' = tm) as -> by congruence. rewrite Hret in Hs.
         rewrite Htm in Hc2. specialize (Hc2 Hc ltac:(by eexists)). assert (Err (A := unit) e = Ok tt) as ?; [|done].
         apply Hc2. destruct Hs as [?|[? _]]; [by left|by right]. }
    step. eapply after_mono; [apply removal_after; [done|done| |by exists tm]; intros t Ht; split; [by eapply Hr2|by eapply Harch, Hr2]|].
    intros r3 s3 (ds & rs & -> & -> & Hred & Hst & Hgone & Hc3). step. destruct ds as [|d ds].
    + apply Hyes; [|done|by right]. exists tm. split; [done|]. rewrite Hret. by apply Hgone.
    + intros st r b' st' Hc Hs Hrun. destruct (failed_cleanup_after (d :: ds) g rs Hh Hrest Harch Hred) with (st := st) (r := r) (b' := b') (st' := st') as (? & Hended & ?);
        [intros Hcm; by apply Hc3|exact Hc|exact Hs|exact Hrun|]. split_and!; try done.
      intros Hcm (_ & _ & tm' & Htm' & Hready). assert (tm' = tm) as -> by congruence. rewrite Hret in Hready. exfalso.
      destruct (Hc3 Hcm) as (t & Ht & Hd & _); [done|]. destruct Hready as [?|(_ & t' & ? & ?)]; congruence.
Qed.

(** ** Preparing the draft *)
Definition at_first : Disk := {| names := names0; inodes := inodes0; next_inode := n; unsynced := [] |}.
Definition directory_ready : Prop := entry_kind m0 = ADirectory ∧ Z.land (meta_mode m0) 511 = 493 ∧ meta_uid m0 = euid ∧ meta_gid m0 = egid.

Lemma sound_begun was g : Forall (fun p : bool * bool => p.2 = false) was → sound (at_ (files (true, false) was g) raw0).
Proof.
  intros Hwas. exists (true, false), was, g, raw0. split; [done|]. split; [|by left]. constructor; [done|].
  eapply Forall_impl; [exact Hwas|]. intros p Hp E. congruence.
Qed.

Lemma directory_after S :
  after calm S ensure_service_owned_result_directory
    (fun r s => s = at_ at_first raw0 ∧ (calm = true → directory_ready → r = Ok tt)) (at_ at_first raw0).
Proof.
  unfold ensure_service_owned_result_directory. step. step. eapply after_call; [intros Hc|]; cbn [stage result_dir here].
  { step. step. split; [done|congruence]. }
  do 2 step. do 2 step. eapply after_call; [intros Hc; cbn [map_err]; split; [done|congruence]|]. cbn [stage result_dir here fmap option_fmap option_map result_meta ok_or map_err].
  destruct (bool_decide (entry_kind m0 ≠ ADirectory) || negb (Z.land (meta_mode m0) 511 =? 493) || negb (meta_uid m0 =? euid) || negb (meta_gid m0 =? egid)) eqn:Hbad; step; [|done].
  split; [done|]. intros _ (Hk & Hm & Hu & Hg). rewrite Hm, Hu, Hg, !Z.eqb_refl, bool_decide_eq_false_2 in Hbad; [done|]. by intros [].
Qed.

Lemma absent_at_first_after name r1 r2 S Q :
  names0 !! name = None → (calm = false → ∀ e, Q (Err e) (at_ at_first raw0)) → Q (Ok tt) (at_ at_first raw0) →
  after calm S (require_absent name r1 r2) Q (at_ at_first raw0).
Proof.
  intros Hn Hfail HQ. unfold require_absent. step. step. eapply after_result_call; [apply symlink_metadata_atomic|intros Hc; step; by apply Hfail|].
  unfold lookup_name. cbn [at_first names]. rewrite Hn. cbn [mbind option_bind ok_or]. by step.
Qed.

Context (Hnx : nx = Datatypes.S n) (Huid : euid = 1000) (Hgid : egid = 1000).

Definition opened (c : str) (sy : bool) (k : nat) : Inode :=
  {| file_type := Regular; mode := 384; uid := euid; gid := egid; contents := c; file_synced := sy; reach := k |}.
Lemma opened_private c sy k : private_file (opened c sy k) = true.
Proof. unfold private_file. cbn. by rewrite Huid, Hgid. Qed.

Lemma created_draft :
  {| names := <[DRAFT := n]> names0; inodes := <[n := opened [] false 0]> inodes0; next_inode := Datatypes.S n; unsynced := [names0] |}
  = files (true, false) [(false, false)] (opened [] false 0).
Proof. unfold drafted. by rewrite Hnx. Qed.

Lemma prepare_after :
  after calm sound (prepare_terminal b)
    (fun r s => (r = Ok tt → ∃ g, s = at_ (files (true, false) [] g) raw0 ∧ holds b g) ∧
       (calm = true → validate_shape b = Ok tt → is_Some (sb_terminal b) → directory_ready → r = Ok tt)) (at_ at_first raw0).
Proof.
  assert (∀ was g, Forall (fun p : bool * bool => p.2 = false) was → sound (at_ (files (true, false) was g) raw0)) as Hsound by apply sound_begun.
  lazymatch goal with |- after _ _ _ ?Q _ => set (Post := Q) end.
  assert (∀ e s, (calm = true → validate_shape b = Ok tt → is_Some (sb_terminal b) → ¬ directory_ready) → Post (Err e) s) as Hno.
  { intros e s Hno. split; [done|]. intros Hc Hv Ht Hd. by destruct (Hno Hc Hv Ht). }
  assert (∀ e s, calm = false → Post (Err e) s) as Hfail by (intros; apply Hno; congruence).
  unfold prepare_terminal. step. step. destruct (validate_shape b) as [[]|e] eqn:Hshape; [|by apply Hno].
  destruct (sb_terminal b) as [tm|] eqn:Htm.
  2: { change (negb (presence (@None SessionTerminal))) with true. step. apply Hno. by intros _ _ [? ?]. }
  change (negb (presence (Some tm))) with false. cbv match.
  step. eapply after_mono; [apply directory_after|]. intros r1 s1 [-> Hr1]. destruct r1 as [[]|e]; [|apply Hno; intros Hc _ _ Hd; by specialize (Hr1 Hc Hd)].
  step. apply absent_at_first_after; [done|intros; by apply Hfail|]. step. apply absent_at_first_after; [done|intros; by apply Hfail|].
  step. step. eapply after_result_call; [apply create_new_atomic|intros; by apply Hfail|]. cbv beta zeta. cbn [at_first names inodes next_inode unsynced].
  rewrite HD. change {| file_type := Regular; mode := 384; uid := euid; gid := egid; contents := []; file_synced := false; reach := 0 |} with (opened [] false 0).
  rewrite created_draft. split; [apply Hsound; by repeat constructor|]. cbn [map_err].
  step. step. apply after_result. eapply on_disk_write; [apply drafted_inode|intros k Hc|]; cbv zeta; rewrite drafted_write;
    (split; [apply Hsound; by repeat constructor|]); [by apply Hfail|]. cbn [map_err].
  step. step. eapply after_result_call; [apply sync_all_atomic|intros; by apply Hfail|]. cbv beta. rewrite drafted_inode, drafted_write. cbv match.
  split; [apply Hsound; by repeat constructor|]. cbn [map_err].
  apply sync_result_after; [intros; by apply Hfail|apply Hsound; by repeat constructor|]. split; [|done]. intros _. eexists. split; [done|].
  split; [apply (opened_private (body_json b) true (length (body_json b)))|]. split; [done|]. split; [|by rewrite Hshape]. cbn. apply Hcodec. by left.
Qed.

Lemma persist_after :
  rested raw0 →
  amends sound (persist_terminal_transaction cfg b)
    (fun r b' s => ended r b' s ∧ (calm = true → ready → directory_ready → r = Ok tt ∧ b' = b)) (at_ at_first raw0).
Proof.
  intros Hrest. unfold persist_terminal_transaction. apply amends_observing. eapply after_mono; [apply prepare_after|].
  intros r s [Hok Hcalm]. destruct r as [[]|e].
  - destruct (Hok eq_refl) as (g & -> & Hg). intros st r b' st' Hc Hs Hrun.
    destruct (finish_after g Hg Hrest _ _ _ _ Hc Hs Hrun) as (? & [? ?] & ?). split_and!; try done. auto.
  - apply amends_answer. split; [split; [by left|done]|]. intros Hc (Hv & _ & tm & Htm & _) Hd. by specialize (Hcalm Hc Hv ltac:(by eexists) Hd).
Qed.

(** ** Resuming a draft *)
Context `{ProgressCodec}.

(** The records beside the draft agree with it. *)
Definition resource_agrees (id : str) (s : Site) : Prop :=
  ∀ st, site st = s → site_faults st = [] → (validate_terminal_resource cfg id b st).1 = Ok tt.

Lemma resume_after id was g :
  Forall (fun p : bool * bool => p.2 = false) was → private_within MAX_TERMINAL_RECORD_BYTES g = true →
  parse_terminal_record (contents g) id = Ok b → rested raw0 →
  after calm sound (resume_prepared_terminal_transaction cfg id)
    (fun r s => (r = Ok tt → ∃ b', ended (Ok tt) b' s) ∧
       (calm = true → is_safe_session_id id = true → resource_agrees id (at_ (files (true, false) was g) raw0) → ready → r = Ok tt ∧ ended (Ok tt) b s))
    (at_ (files (true, false) was g) raw0).
Proof.
  intros Hwas Hg Hparse Hrest. lazymatch goal with |- after _ _ _ ?Q _ => set (Post := Q) end. set (s := at_ (files (true, false) was g) raw0).
  assert (∀ e s', (calm = true → is_safe_session_id id = true → resource_agrees id s → ¬ ready) → Post (Err e) s') as Hno.
  { intros e s' Hno. split; [done|]. intros Hc Hid Hag Hr. by destruct (Hno Hc Hid Hag). }
  assert (∀ e, calm = false → Post (Err e) s) as Hfail by (intros; apply Hno; congruence).
  assert (private_file g = true) as Hpriv by by apply andb_true_iff in Hg as [? _].
  assert (body_of_json (contents g) = Some b ∧ validate_shape b = Ok tt) as [Hdec Hshape].
  { unfold parse_terminal_record in Hparse. destruct (body_of_json (contents g)) as [b0|]; [|done]. cbn [ok_or mbind result_bind] in Hparse.
    destruct (_ || _); [done|]. destruct (validate_shape b0) as [[]|] eqn:Hv; [|done]. by injection Hparse as ->. }
  assert (∀ g', sound (at_ (files (true, false) was g') raw0)) as Hsound by (intros; by apply sound_begun).
  unfold resume_prepared_terminal_transaction. destruct (is_safe_session_id id); cbn [negb]; [|step; by apply Hno].
  step. unfold path_entry_exists, exists_at. step. step. eapply after_result_call; [apply symlink_metadata_atomic|intros; step; by apply Hfail|].
  unfold lookup_name. cbv beta. change (names (files (true, false) was g)) with (dir_names names0 n (true, false)).
  rewrite dir_names_finished by done. cbn [snd mbind option_bind ok_or]. do 2 step. unfold open_terminal_body_file. step. step.
  apply open_draft_after; [done|intros; step; by apply Hfail|]. step. unfold read_opened.
  step. step. eapply after_result_call; [apply fstat_atomic|intros; by apply Hfail|]. cbv beta. rewrite drafted_inode. cbn [ok_or map_err]. rewrite Hg. cbn [negb].
  step. step. eapply after_result_call; [apply read_to_end_atomic|intros; by apply Hfail|]. cbv beta. rewrite drafted_inode.
  cbn [fmap option_fmap option_map ok_or map_err]. rewrite Nat.eqb_refl. cbn [negb]. step. do 2 step. rewrite Hparse. cbv beta match. step.
  cbv beta match. step. apply after_reader; [apply resource_reader|]. intros st Hst Hc.
  destruct (validate_terminal_resource cfg id b st).1 as [[]|e] eqn:Hres.
  2: { apply Hno. intros Hcm _ Hag _. specialize (Hag st Hst (Hc Hcm)). congruence. }
  step. eapply after_mono; [apply storage_after|]. intros r1 s1 (-> & _ & Hc1). destruct r1 as [[]|e]; [|apply Hno; intros Hcm _ _ (Hv & Ha & _); by specialize (Hc1 Hcm Hv Ha)].
  step. step. eapply after_result_call; [apply sync_all_atomic|intros; by apply Hfail|]. cbv beta. rewrite drafted_inode, drafted_write. cbv match.
  split; [apply Hsound|]. cbn [map_err]. set (g1 := set_contents (contents g) true g). step.
  apply sync_result_after; [intros Hcm e; apply Hno; congruence|apply sound_begun; done|].
  assert (holds b g1) as Hg1.
  { split_and!; try done. intros _. by apply andb_true_iff in Hg as [_ Hl%Z.leb_le]. } intros st2 r st' Hc2 Hs2 Hrun. unfold answering in Hrun.
  destruct (finish_prepared_terminal_transaction cfg b st2) as [[x b'] st3] eqn:Hfin. injection Hrun as <- <-.
  destruct (finish_after g1 Hg1 Hrest _ _ _ _ Hc2 Hs2 Hfin) as (? & [Hend Hcalm] & ?). split_and!; [done| |done]. split; [intros ->; by exists b'|].
  intros Hcm _ _ Hr. destruct (Hcalm Hcm Hr) as [-> ->]. done.
Qed.
End Transaction.

(** ** Crashes *)
Section Crashes.
Context `{Process} `{Vocabulary} `{RecordCodec} `{Removal} (cfg : Config).

Definition site_files (s : Site) : option Disk := result_files <$> here (result_dir s).

(** The public name leads to a whole record, and what it tells is so. *)
Definition record_public (P : SessionBody → Prop) (s : Site) : Prop :=
  ∃ files i f b', site_files s = Some files ∧ names files !! FINISHED = Some i ∧ inodes files !! i = Some f ∧ private_file f = true ∧
    file_synced f = true ∧ body_of_json (contents f) = Some b' ∧ validate_shape b' = Ok tt ∧ P b' ∧ told cfg (raw s) b'.

(** The raw tree holds what it held, or what a crash before would have left of it. *)
Definition evidence_kept (s s' : Site) : Prop :=
  match here (raw s), here (raw s') with
  | Some t, Some t' => root t' = root t ∧ evidence t' ∈ evidence t :: evidence_before t
  | None, None => True
  | _, _ => False
  end.

(** The archive of the accepted bundle is in its place and as it was, and a record beside it. *)
Definition archive_kept (names0 : gmap str nat) (inodes0 : gmap nat Inode) (b : SessionBody) (files : Disk) : Prop :=
  accepted (names files) (inodes files) b ∧
  (∃ i f f', names0 !! BUNDLE = Some i ∧ inodes0 !! i = Some f ∧ names files !! BUNDLE = Some i ∧ inodes files !! i = Some f' ∧ contents f' = contents f) ∧
  (is_Some (names files !! DRAFT) ∨ is_Some (names files !! FINISHED)).
Definition bundle_kept (b : SessionBody) (s s' : Site) : Prop :=
  ∃ files files', site_files s = Some files ∧ site_files s' = Some files' ∧ archive_kept (names files) (inodes files) b files'.

Record at_rest (s : Site) (dir : ResultDir) : Prop := {
  rest_result : result_dir s = {| here := Some dir; before := [] |};
  rest_files : quiet_disk (result_files dir);
  rest_fresh : ∀ i, (next_inode (result_files dir) <= i)%nat → inodes (result_files dir) !! i = None;
  rest_bound : ∀ name i, names (result_files dir) !! name = Some i → (i < next_inode (result_files dir))%nat;
  rest_raw : rested (raw s);
}.

Lemma crash_here {A} (R old : A → A → Prop) s s' a :
  before s = [] → here s = Some a → crash_slot R old s s' → ∃ a', here s' = Some a' ∧ R a a' ∧ before s' = [].
Proof.
  intros Hb Ha (Hb' & [(a1 & a' & Ha1 & Ha' & HR)|[[Hn _]|[[Hn _]|(? & ? & Hn & _)]]]); [|congruence|..]; [|rewrite Hb in Hn; by apply elem_of_nil in Hn..].
  assert (a1 = a) as -> by congruence. eauto.
Qed.
Lemma crash_none {A} (R old : A → A → Prop) s s' : before s = [] → here s = None → crash_slot R old s s' → here s' = None ∧ before s' = [].
Proof.
  intros Hb Ha (Hb' & [(a1 & a' & Ha1 & _)|[[_ ?]|[[Hn _]|(? & ? & Hn & _)]]]); [congruence|done|..]; rewrite Hb in Hn; by apply elem_of_nil in Hn.
Qed.

Lemma crash_synced d d' i f : crash d d' → inodes d !! i = Some f → file_synced f = true →
  ∃ f', inodes d' !! i = Some f' ∧ contents f' = contents f ∧ file_synced f' = true ∧ private_file f' = private_file f.
Proof.
  intros Hc Hf Hsy. destruct (crash_inode _ _ _ _ Hc Hf) as (f' & Hf' & Ht & Hm & Hu & Hg & Hs & Hsy' & _). rewrite Hsy in Hs.
  exists f'. split_and!; try done. unfold private_file. by rewrite Ht, Hm, Hu, Hg.
Qed.

Lemma private_within_eq limit f f' : contents f' = contents f → private_file f' = private_file f → private_within limit f' = private_within limit f.
Proof. unfold private_within. by intros -> ->. Qed.

Lemma told_crash rs rs' b' :
  told cfg rs b' → crash_slot crash_tree comes_back rs rs' → told cfg rs' b'.
Proof.
  intros (tm & Htm & Hd) Hc. exists tm. split; [done|]. destruct (tl_raw_session_tree_retained tm); [|destruct Hd; by eapply crash_none].
  destruct Hd as (Hb & t & c & i & f & Ht & Hdir & Hcd & Hi & Hf & Hu & Hp & Hsy & Hu8 & Hm).
  destruct (crash_here _ _ _ _ _ Hb Ht Hc) as (t' & Ht' & (Hroot & Hctl & _) & Hb'). split; [done|].
  rewrite Hcd in Hctl. destruct (crash_here crash_control _ {| here := Some c; before := [] |} (control t') c eq_refl eq_refl Hctl) as (c' & Hc' & (Hcm & Hcr) & Hcb).
  destruct (crash_synced _ _ _ _ Hcr Hf Hsy) as (f' & Hf' & Hcon & Hsy' & Hpf). pose proof Hcr as (Hn & Hu' & _).
  rewrite Hu in Hn. apply list_elem_of_singleton in Hn. exists t', c', i, f'. rewrite Hroot, Hn, (private_within_eq 4096 f f'), Hcon by done.
  split_and!; try done. destruct (control t'). cbn in *. by subst.
Qed.

Lemma evidence_crash s s' :
  rested (raw s) →
  crash_slot crash_tree comes_back (raw s) (raw s') → evidence_kept s s'.
Proof.
  intros [Hb Hq] Hc. unfold evidence_kept. destruct (here (raw s)) as [t|] eqn:Ht.
  - destruct (crash_here _ _ _ _ _ Hb Ht Hc) as (t' & -> & (Hroot & _ & Hev & _) & _). done.
  - by destruct (crash_none _ _ _ _ Hb Ht Hc) as [-> _].
Qed.

Section OfSound.
Context (calm : bool) (s0 : Site) (m0 : Meta) (names0 : gmap str nat) (inodes0 : gmap nat Inode) (n nx : nat) (b : SessionBody).
Context (HD : names0 !! DRAFT = None) (HF : names0 !! FINISHED = None) (HB : names0 !! BUNDLE ≠ Some n).
Context (Hrest : rested (raw s0)).

Abbreviation sound := (safe cfg calm (records s0) m0 names0 inodes0 n nx (raw s0) b).

(** What a crash makes of a state of the transaction. *)
Lemma sound_crashed x x' :
  sound x → crash_site x x' →
  ∃ p g g' rs dir, result_dir x' = {| here := Some dir; before := [] |} ∧ names (result_files dir) = dir_names names0 n p ∧
    quiet_disk (result_files dir) ∧ inodes (result_files dir) !! n = Some g' ∧ survives g g' ∧
    (∀ i f, i ≠ n → inodes0 !! i = Some f → file_synced f = true →
       ∃ f', inodes (result_files dir) !! i = Some f' ∧ contents f' = contents f ∧ private_file f' = private_file f) ∧
    crash_slot crash_tree comes_back rs (raw x') ∧ (p.2 = true → published cfg calm b g rs) ∧
    (rs = raw s0 ∨ accepted names0 inodes0 b ∧ p.1 || p.2 = true ∧ (calm = true → holds b g ∧ removed_for_good (raw s0) b rs)).
Proof.
  intros (now & was & g & rs & -> & Hpub & Hst) [_ Hres Hraw]. cbn [stage result_dir raw] in Hres, Hraw.
  set (d := drafted names0 inodes0 n nx now was g) in *.
  destruct (crash_here crash_result _ {| here := Some {| result_meta := m0; result_files := d |}; before := [] |} (result_dir x') _ eq_refl eq_refl Hres) as (r' & Hr' & (_ & Hfiles) & Hb').
  cbn [result_files] in Hfiles. pose proof Hfiles as (Hn & Hu & _ & Hino).
  change (names d :: unsynced d) with (map (dir_names names0 n) (now :: was)) in Hn. apply list_elem_of_fmap in Hn as (p & Hp & Hin).
  destruct (crash_inode _ _ _ _ Hfiles (drafted_inode names0 inodes0 n nx now was g)) as (g' & Hg' & Hsv).
  exists p, g, g', rs, r'. rewrite Forall_forall in Hpub. split_and!; try done.
  - destruct (result_dir x'). cbn in *. by subst.
  - split; [done|]. intros i f' Hf'. specialize (Hino i). rewrite Hf' in Hino. destruct (inodes d !! i); [|done]. apply Hino.
  - intros i f Hi Hf Hsy. destruct (crash_synced _ _ i f Hfiles) as (f' & ? & ? & _ & ?); [|done|by exists f'].
    unfold d. cbn [drafted inodes]. by rewrite lookup_insert_ne.
  - destruct p as [p1 p2]. cbn [snd]. exact (Hpub _ Hin).
  - destruct Hst as [->|(? & Hall & ?)]; [by left|]. right. rewrite Forall_forall in Hall. split_and!; [done|by apply Hall|done].
Qed.

Lemma survives_holds g g' b' : holds b' g → survives g g' → holds b' g'.
Proof.
  intros (Hp & Hsy & Hd & Hv & Hl) (Ht & Hm & Hu & Hg & Hs & Hsy' & _). rewrite Hsy in Hs. unfold holds. rewrite Hs.
  split_and!; try done. revert Hp. unfold private_file. by rewrite Ht, Hm, Hu, Hg.
Qed.

Lemma accepted_kept files :
  (∀ i f, inodes0 !! i = Some f → file_synced f = true) → accepted names0 inodes0 b → names files !! BUNDLE = names0 !! BUNDLE →
  (∀ i f, i ≠ n → inodes0 !! i = Some f → file_synced f = true →
     ∃ f', inodes files !! i = Some f' ∧ contents f' = contents f ∧ private_file f' = private_file f) →
  (is_Some (names files !! DRAFT) ∨ is_Some (names files !! FINISHED)) → archive_kept names0 inodes0 b files.
Proof.
  intros Hsy [Hb (t & Ht & Ha)] Hn Hother Hname. pose proof Hb as Hb'. unfold bundled in Hb'. rewrite Ht in Hb'. cbn [mbind option_bind] in Hb'.
  destruct (tl_bundle t) as [bundle|] eqn:Hbd; [|done]. destruct Ha as (i & f & Hi & Hf & Hp & Hne & Hl).
  destruct (Hother i f) as (f' & Hf' & Hcon & Hpf); [congruence|done|by eapply Hsy|]. split_and!; [|exists i, f, f'; by rewrite Hn|done].
  split; [done|]. exists t. rewrite Hbd. split; [done|]. exists i, f'. by rewrite Hn, Hpf, Hcon.
Qed.

Lemma sound_crash x x' :
  (∀ i f, inodes0 !! i = Some f → file_synced f = true) → sound x → crash_site x x' →
  (is_Some (site_files x' ≫= fun files => names files !! FINISHED) → record_public (faithful calm b) x') ∧
  (evidence_kept s0 x' ∨ ∃ files', site_files x' = Some files' ∧ archive_kept names0 inodes0 b files').
Proof.
  intros Hbs Hs Hx. destruct (sound_crashed x x' Hs Hx) as (p & g & g' & rs & dir & Hd & Hn & _ & Hg' & Hsv & Hother & Hraw & Hpub & Hst).
  unfold site_files. rewrite Hd. cbn [here fmap option_fmap option_map mbind option_bind]. rewrite Hn. split.
  - rewrite dir_names_finished by done. destruct (p.2) eqn:Hp2; [|by intros []]. intros _.
    destruct (Hpub eq_refl) as (b' & Ham & Hh & Htold). apply (survives_holds _ _ _ Hh) in Hsv as (Hpriv & Hsy & Hcon & Hshape & _).
    exists (result_files dir), n, g', b'. unfold site_files. rewrite Hd. cbn [here fmap option_fmap option_map].
    rewrite Hn, dir_names_finished, Hp2 by done. split_and!; try done. by eapply told_crash.
  - destruct Hst as [->|(Hacc & Hall & _)]; [left; by apply evidence_crash|]. right.
    exists (result_files dir). split; [done|]. apply accepted_kept; try done; rewrite Hn.
    + by apply dir_names_other.
    + rewrite dir_names_draft, dir_names_finished by done. destruct (p.1), (p.2); try done; [left|left|right]; by eexists.
Qed.
End OfSound.
End Crashes.

(** ** Settling a publication that was cut short *)
Section Settling.
Context `{Process} `{Vocabulary} `{RecordCodec}.
Context (recs : Disk) (m0 : Meta) (names0 : gmap str nat) (inodes0 : gmap nat Inode) (n nx : nat) (rs : Slot Tree) (b : SessionBody).
Context (HD : names0 !! DRAFT = None) (HF : names0 !! FINISHED = None).

Abbreviation at_ := (stage recs m0).
Abbreviation files := (drafted names0 inodes0 n nx).

Lemma sweep_settles id draft was g :
  private_within MAX_TERMINAL_RECORD_BYTES g = true → parse_terminal_record (contents g) id = Ok b →
  after true (fun _ => True) (committed_terminal_for_sweep id)
    (fun r s => r = Ok (Some b) ∧ s = at_ (files (false, true) [] (set_contents (contents g) true g)) rs) (at_ (files (draft, true) was g) rs).
Proof.
  intros Hg Hparse. assert (private_file g = true) as Hp by by apply andb_true_iff in Hg as [? _].
  assert (∀ name (i : nat), dir_names names0 n (draft, true) !! name = Some n →
    (names (files (draft, true) was g) !! name ≫= (fun i => pair i <$> inodes (files (draft, true) was g) !! i)) = Some (n, g)) as Hlook.
  { intros name _ Hn. change (names (files (draft, true) was g)) with (dir_names names0 n (draft, true)). rewrite Hn. cbn [mbind option_bind]. by rewrite drafted_inode. }
  assert (∀ role, validate_private_service_file role g = Ok tt) as Hval by (intros; unfold validate_private_service_file; by rewrite Hp).
  unfold committed_terminal_for_sweep, stat_possible. step. step. step. eapply after_result_call; [apply symlink_inode_atomic|done|]. cbv beta.
  rewrite Hlook; [|done|by rewrite dir_names_finished]. cbn [ok_or]. step. cbv beta match. step. step. step.
  eapply after_result_call; [apply symlink_inode_atomic|done|]. cbv beta.
  set (temporary := if draft then Some (n, g) else None).
  assert ((names (files (draft, true) was g) !! DRAFT ≫= (fun i => pair i <$> inodes (files (draft, true) was g) !! i)) = temporary) as ->.
  { unfold temporary. destruct draft; [apply Hlook; [done|by rewrite dir_names_draft]|].
    change (names (files (false, true) was g)) with (dir_names names0 n (false, true)). by rewrite dir_names_draft. }
  assert (∀ Q, Q (Ok temporary) (at_ (files (draft, true) was g) rs) →
    match (Ok (E := ServiceError) (ok_or temporary NotFoundError)) with
    | Ok a => after true (fun _ => True) (match a with Ok metadata => mret (Some metadata) | Err NotFoundError => mret None | Err _ => just (internal "terminal sweep: cannot stat temporary") end)
                Q (at_ (files (draft, true) was g) rs)
    | Err e => Q (Err e) (at_ (files (draft, true) was g) rs)
    end) as Hstat.
  { intros Q HQ. unfold temporary in *. destruct draft; cbn [ok_or]; by step. }
  apply Hstat. cbv beta match. step. step. rewrite Hval. cbv beta match.
  step. step. assert (match temporary with Some (_, m) => validate_private_service_file "temporary terminal publication" m | None => Ok tt end = Ok tt) as ->.
  { unfold temporary. by destruct draft. }
  cbv beta match. step. unfold read_private_service_file. step. step. eapply after_result_call; [apply open_nofollow_atomic|done|]. cbv beta.
  change (names (files (draft, true) was g)) with (dir_names names0 n (draft, true)). rewrite dir_names_finished by done. cbn [snd].
  rewrite drafted_inode, decide_False by by rewrite regular. cbn [map_err]. step. step. eapply after_result_call; [apply fstat_atomic|done|]. cbv beta.
  rewrite drafted_inode. cbn [ok_or map_err]. step. step. rewrite Hval. cbv beta match. rewrite Nat.eqb_refl. cbn [negb].
  assert (MAX_TERMINAL_RECORD_BYTES <? Z.of_nat (length (contents g)) = false) as ->.
  { apply andb_true_iff in Hg as [_ Hl%Z.leb_le]. apply Z.ltb_ge. lia. }
  step. step. eapply after_result_call; [apply read_to_end_atomic|done|]. cbv beta. rewrite drafted_inode. cbn [fmap option_fmap option_map ok_or map_err].
  rewrite Nat.eqb_refl. cbn [negb]. step. cbv beta match. do 2 step. rewrite Hparse. cbv beta match. do 2 step.
  assert (∀ e, match temporary with Some (j, _) => if negb (j =? n)%nat then Err (A := unit) (E := ServiceError) e else Ok tt | None => Ok tt end = Ok tt) as Hsame.
  { intros e. unfold temporary. destruct draft; [by rewrite Nat.eqb_refl|done]. }
  unfold internal. rewrite Hsame. cbv beta match. step. step. eapply after_result_call; [apply sync_all_atomic|done|]. cbv beta. rewrite drafted_inode, drafted_write. cbv match.
  split; [done|]. cbn [map_err]. set (g1 := set_contents (contents g) true g). step. apply sync_result_after; [done..|]. step.
  destruct draft; unfold temporary.
  - change (presence (Some (n, g))) with true. cbv match. step. step. eapply after_result_call; [apply remove_file_atomic|done|]. cbv beta.
    change (names (files (true, true) [] g1)) with (dir_names names0 n (true, true)). rewrite dir_names_draft by done. cbn [fst].
    rewrite drafted_unlink by done. split; [done|]. cbn [map_err]. apply sync_result_after; [done..|]. by step.
  - change (presence (@None (nat * Inode))) with false. cbv match. step. cbv beta match. by step.
Qed.
End Settling.
