(* ===== verification/Endings.v ===== *)
(** * Endings: what a crash leaves of a session's ending, and what the next start makes of it

    The theorems of the terminal transaction: crash safety at every state whatever
    calls fail, what success means, that a start of the service ends what a crash cut
    short, and that the readers accept what was written; then a concrete session. *)
From S2P Require Import Prelude Number Utf8 BTree Json JsonTree Schema Stream Usage Generation Authorship Sse Text Serde Turns Requests Utilities Admission Compaction Conversation ServiceError Disk Deliverables Progress Validation Capture Terminal Interaction Refusals Docker Supervision Site Publication Calls Durability.

(** ** An ending, cut short anywhere *)
Section Endings.
Context `{Process} `{ProgressCodec} `{Vocabulary} `{RecordCodec} `{Removal} (cfg : Config).

(** There is a public record. *)
Definition public (s : Site) : Prop := is_Some (site_files s ≫= fun files => names files !! FINISHED).
(** It is the record of [b], durable, with no draft beside it. *)
Definition settled (b : SessionBody) (s : Site) : Prop :=
  record_public cfg (eq b) s ∧ ∃ files, site_files s = Some files ∧ names files !! DRAFT = None ∧ unsynced files = [].
(** The draft can be read back as the record of [b]. *)
Definition draft_readable (id : str) (b : SessionBody) (s : Site) : Prop :=
  ∃ files i f, site_files s = Some files ∧ names files !! DRAFT = Some i ∧ inodes files !! i = Some f ∧
    private_within MAX_TERMINAL_RECORD_BYTES f = true ∧ parse_terminal_record (contents f) id = Ok b.
(** What an undisturbed ending needs to be published. *)
Definition publishable (b : SessionBody) (s : Site) : Prop :=
  ∃ dir, here (result_dir s) = Some dir ∧ directory_ready (result_meta dir) ∧ ready cfg (names (result_files dir)) (inodes (result_files dir)) (raw s) b.
(** Neither a draft nor a public record. *)
Definition unpublished (dir : ResultDir) : Prop := names (result_files dir) !! DRAFT = None ∧ names (result_files dir) !! FINISHED = None.

Lemma settled_stage recs m0 names0 inodes0 n nx rs b g :
  names0 !! DRAFT = None → names0 !! FINISHED = None → holds b g → told cfg rs b →
  settled b (stage recs m0 (drafted names0 inodes0 n nx (false, true) [] g) rs).
Proof.
  intros HD HF (Hp & Hsy & Hb & Hv & _) Ht. split.
  - exists (drafted names0 inodes0 n nx (false, true) [] g), n, g, b. split_and!; try done; [by apply dir_names_finished|by apply drafted_inode].
  - eexists. split; [done|]. split; [|done]. by apply (dir_names_draft names0 n HD (false, true)).
Qed.

Lemma quiet_rested rs : before rs = [] → (∀ t, here rs = Some t → quiet_tree t) → rested rs.
Proof.
  intros Hb Hq. split; [done|]. intros t Ht. destruct (Hq t Ht) as (_ & Hcb & Hc). split; [done|]. intros c Hcc.
  destruct (Hc c Hcc) as [Hu Hs]. split; [done|]. eauto.
Qed.

Lemma rested_crash rs rs' : rested rs ∨ here rs = None → crash_slot crash_tree comes_back rs rs' → rested rs'.
Proof.
  intros Hr Hc. pose proof Hc as (Hb' & _). split; [done|]. intros t' Ht'. destruct Hc as (_ & [(t & t1 & Ht & Ht1 & Htree)|[[_ ?]|[[_ ?]|(t & t1 & _ & Ht1 & _ & Hq)]]]); [|congruence..|].
  - assert (t1 = t') as -> by congruence. destruct Hr as [Hr|?]; [|congruence]. destruct Htree as (_ & Hctl & _).
    split; [apply Hctl|]. intros c' Hc'. destruct Hctl as (_ & [(c & c1 & Hcc & Hc1 & _ & Hcr)|[[_ ?]|[[_ ?]|(c & c1 & Hin & _)]]]); [|congruence..|].
    + assert (c1 = c') as -> by congruence. pose proof Hcr as (Hn & Hu & _ & Hino). split; [done|]. intros i f' _ Hf'. specialize (Hino i). rewrite Hf' in Hino.
      destruct (inodes (control_files c) !! i); [|done]. apply Hino.
    + destruct Hr as [_ Hr]. destruct (Hr t Ht) as [Hb _]. rewrite Hb in Hin. by apply elem_of_nil in Hin.
  - assert (t1 = t') as -> by congruence. destruct (quiet_rested {| here := Some t'; before := [] |}) as [_ Hq']; [done| |by apply Hq']. by intros ? [= <-].
Qed.

Lemma archive_crash names0 inodes0 inodes' n b :
  names0 !! BUNDLE ≠ Some n → (∀ i f, inodes0 !! i = Some f → file_synced f = true) →
  (∀ i f, i ≠ n → inodes0 !! i = Some f → file_synced f = true → ∃ f', inodes' !! i = Some f' ∧ contents f' = contents f ∧ private_file f' = private_file f) →
  archive_stands names0 inodes0 b → archive_stands names0 inodes' b.
Proof.
  intros HB Hsy Hother (t & Ht & Ha). exists t. split; [done|]. destruct (tl_bundle t); [|done]. destruct Ha as (i & f & Hi & Hf & Hp & Hne & Hl).
  destruct (Hother i f) as (f' & ? & Hc & Hpf); [congruence|done|by eapply Hsy|]. exists i, f'. by rewrite Hc, Hpf.
Qed.

(** The tree after a crash, where the transaction left it alone or removed it. *)
Lemma root_crash raw0 rs rs' b t :
  before raw0 = [] → rs = raw0 ∨ removed_for_good raw0 b rs → crash_slot crash_tree comes_back rs rs' → here rs' = Some t →
  ∃ t0, here raw0 = Some t0 ∧ root t = root t0.
Proof.
  intros Hb Hrs Hc Ht. destruct Hc as (_ & [(t1 & t' & Ht1 & Ht' & Htree)|[[_ ?]|[[_ ?]|(t1 & t' & Hin & Ht' & Hroot & _)]]]); [|congruence..|].
  - destruct Hrs as [->|(_ & ? & _)]; [|congruence]. exists t1. assert (t' = t) as -> by congruence. split; [done|]. apply Htree.
  - assert (t' = t) as -> by congruence. destruct Hrs as [->|(_ & _ & Hall)]; [rewrite Hb in Hin; by apply elem_of_nil in Hin|].
    rewrite Forall_forall in Hall. destruct (Hall _ Hin) as [?| <-]; [done|]. by exists t1.
Qed.

Lemma ready_crash names0 inodes0 inodes' n b raw0 rs rs' :
  names0 !! BUNDLE ≠ Some n → (∀ i f, inodes0 !! i = Some f → file_synced f = true) →
  (∀ i f, i ≠ n → inodes0 !! i = Some f → file_synced f = true → ∃ f', inodes' !! i = Some f' ∧ contents f' = contents f ∧ private_file f' = private_file f) →
  before raw0 = [] → rs = raw0 ∨ removed_for_good raw0 b rs → crash_slot crash_tree comes_back rs rs' →
  ready cfg names0 inodes0 raw0 b → ready cfg names0 inodes' rs' b.
Proof.
  intros HB Hsy Hother Hb Hrs Hc (Hv & Ha & tm & Htm & Hraw). split; [done|]. split; [by eapply archive_crash|]. exists tm. split; [done|].
  destruct (tl_raw_session_tree_retained tm) eqn:Hret.
  - destruct Hrs as [->|((tm' & ? & ?) & _)]; [|congruence]. by eapply told_crash.
  - destruct (here rs') as [t|] eqn:Ht; [|by left]. right. destruct (root_crash _ _ _ _ _ Hb Hrs Hc Ht) as (t0 & Ht0 & Hroot).
    destruct Hraw as [?|(? & t1 & Ht1 & Hd)]; [congruence|]. split; [done|]. exists t. split; [done|]. rewrite Hroot. congruence.
Qed.

Lemma rest_stage s dir :
  at_rest s dir → s = stage (records s) (result_meta dir) (at_first (names (result_files dir)) (inodes (result_files dir)) (next_inode (result_files dir))) (raw s).
Proof.
  intros [Hr [Hu _] _ _ _]. destruct s as [rc rd rw], dir as [m [ns ins nx us]]. cbn in *. by subst.
Qed.

(** The states of an ending that starts at rest. *)
Lemma persist_states calm b dir st r b' st' :
  readable b → euid = 1000 → egid = 1000 → at_rest (site st) dir → unpublished dir → faultless calm (site_faults st) →
  persist_terminal_transaction cfg b st = (r, b', st') →
  let d := result_files dir in
  let sound := safe cfg calm (records (site st)) (result_meta dir) (names d) (inodes d) (next_inode d) (S (next_inode d)) (raw (site st)) b in
  went sound st st' ∧ amended b b' ∧ (r = Ok tt → settled b' (site st')) ∧ (calm = true → publishable b (site st) → r = Ok tt ∧ b' = b).
Proof.
  intros Hcodec Hu Hg Hrest [HD HF] Hc Hrun d sound. pose proof Hrest as [Hres Hfiles Hfresh Hbound Hraw].
  assert (names d !! BUNDLE ≠ Some (next_inode d)) as HB by (intros E; specialize (Hbound _ _ E); unfold d in Hbound; lia).
  pose proof (rest_stage _ _ Hrest) as Hstage.
  destruct (persist_after cfg calm (records (site st)) (result_meta dir) (names d) (inodes d) (next_inode d) (S (next_inode d)) (raw (site st)) b
    HD HF Hcodec HB eq_refl Hu Hg Hraw st r b' st' Hc Hstage Hrun) as (Hw & [[Ham Hend] Hcalm] & _).
  split_and!; [done|done| |].
  - intros E. destruct (Hend E) as (g & rs & -> & Hh & Ht). by apply settled_stage.
  - intros Hcm (dir' & Hdir & Hm & Hready). rewrite Hres in Hdir. injection Hdir as <-. auto.
Qed.

(** What is on disk after a crash, as a stage of an ending. *)
Lemma crash_stage x' names0 n p g' dir :
  result_dir x' = {| here := Some dir; before := [] |} → names (result_files dir) = dir_names names0 n p → unsynced (result_files dir) = [] →
  inodes (result_files dir) !! n = Some g' →
  x' = stage (records x') (result_meta dir) (drafted names0 (inodes (result_files dir)) n (next_inode (result_files dir)) p [] g') (raw x').
Proof.
  intros Hd Hn Hu Hg. destruct x' as [rc rd rw], dir as [m [ns ins nx us]]. cbn in *. subst. unfold stage, drafted. cbn. by rewrite insert_id.
Qed.

(** A stage of an undisturbed ending, after a crash. *)
Record restarted (b : SessionBody) (s x' : Site) (dir dir' : ResultDir) (p : bool * bool) (g g' : Inode) : Prop := {
  restarted_stage : let d := result_files dir' in
    x' = stage (records x') (result_meta dir') (drafted (names (result_files dir)) (inodes d) (next_inode (result_files dir)) (next_inode d) p [] g') (raw x');
  restarted_survives : survives g g';
  restarted_public : p.2 = true → holds b g' ∧ told cfg (raw x') b;
  restarted_evidence : evidence_kept s x' ∨ holds b g' ∧ p.1 || p.2 = true;
  restarted_ready : ready cfg (names (result_files dir)) (inodes (result_files dir')) (raw x') b;
  restarted_rested : rested (raw x');
}.

Lemma restart_stage b dir s x x' :
  at_rest s dir → unpublished dir → publishable b s →
  safe cfg true (records s) (result_meta dir) (names (result_files dir)) (inodes (result_files dir)) (next_inode (result_files dir))
    (S (next_inode (result_files dir))) (raw s) b x →
  crash_site x x' → ∃ dir' p g g', restarted b s x' dir dir' p g g'.
Proof.
  intros Hrest [HD HF] (dir0 & Hdir0 & _ & Hready) Hs Hx. pose proof Hrest as [Hres [Hu Hsync] _ Hbound Hraw].
  rewrite Hres in Hdir0. injection Hdir0 as <-. set (d := result_files dir) in *.
  assert (names d !! BUNDLE ≠ Some (next_inode d)) as HB by (intros E; specialize (Hbound _ _ E); unfold d in Hbound; lia).
  destruct (sound_crashed cfg true s (result_meta dir) (names d) (inodes d) (next_inode d) (S (next_inode d)) b x x' Hs Hx)
    as (p & g & g' & rs & dir' & Hd' & Hn & Hq & Hg' & Hsv & Hother & Hcraw & Hpub & Hst).
  assert (rs = raw s ∨ removed_for_good (raw s) b rs) as Hrs by (destruct Hst as [?|(_ & _ & Hc)]; [by left|right; by apply Hc]).
  exists dir', p, g, g'. constructor; [|done|..].
  - apply crash_stage; try done. by apply Hq.
  - intros Hp. destruct (Hpub Hp) as (b1 & [_ Hb1] & Hh & Ht). specialize (Hb1 eq_refl). subst b1. split; [by eapply survives_holds|by eapply told_crash].
  - destruct Hst as [->|(_ & Hp & Hc)]; [left; by apply evidence_crash|]. right. split; [|done]. destruct (Hc eq_refl) as [Hh _]. by eapply survives_holds.
  - eapply (ready_crash (names d) (inodes d)); [done..| |done|done|done]. apply Hraw.
  - eapply rested_crash; [|done]. destruct Hrs as [->|(_ & ? & _)]; [by left|by right].
Qed.

Lemma holds_parsed id b g :
  holds b g → sb_session_id b = id → sb_status b ≠ Running → Z.of_nat (length (body_json b)) <= MAX_TERMINAL_RECORD_BYTES →
  private_within MAX_TERMINAL_RECORD_BYTES g = true ∧ parse_terminal_record (contents g) id = Ok b.
Proof.
  intros (Hp & _ & Hb & Hv & Hl) <- Hrun Hlen. split.
  - unfold private_within. rewrite Hp. by apply Z.leb_le, Hl.
  - unfold parse_terminal_record. rewrite Hb. cbn [ok_or mbind result_bind]. rewrite !bool_decide_eq_false_2 by naive_solver. cbn [orb]. by rewrite Hv.
Qed.

(** The public record is read back. *)
Lemma read_back id b recs m0 names0 inodes0 n nx rs g S :
  names0 !! DRAFT = None → names0 !! FINISHED = None → names0 !! BUNDLE ≠ Some n → is_safe_session_id id = true →
  private_within MAX_TERMINAL_RECORD_BYTES g = true → parse_terminal_record (contents g) id = Ok b →
  archive_stands names0 inodes0 b → seen cfg rs b →
  let s := stage recs m0 (drafted names0 inodes0 n nx (false, true) [] g) rs in
  resource_agrees cfg b id s → after true S (read_terminal cfg id) (fun r s' => r = Ok b ∧ s' = s) s.
Proof.
  intros HD HF HB Hid Hg Hparse Ha Hseen s Hag. assert (private_file g = true) as Hp by by apply andb_true_iff in Hg as [? _].
  assert (validate_shape b = Ok tt) as Hshape.
  { revert Hparse. unfold parse_terminal_record. destruct (body_of_json (contents g)) as [b0|]; [|done]. cbn [ok_or mbind result_bind].
    destruct (_ || _); [done|]. destruct (validate_shape b0) as [[]|] eqn:Hv; [|done]. by intros [= ->]. }
  unfold read_terminal. rewrite Hid. cbn [negb]. step. unfold path_entry_exists, exists_at. step. step.
  eapply after_result_call; [apply symlink_metadata_atomic|done|]. unfold lookup_name. cbv beta.
  change (names (drafted names0 inodes0 n nx (false, true) [] g)) with (dir_names names0 n (false, true)).
  rewrite dir_names_draft by done. cbn [fst mbind option_bind ok_or]. do 2 step. unfold open_terminal_body_file. step. step.
  eapply after_result_call; [apply open_nofollow_atomic|done|]. cbv beta.
  change (names (drafted names0 inodes0 n nx (false, true) [] g)) with (dir_names names0 n (false, true)).
  rewrite dir_names_finished by done. cbn [snd]. rewrite drafted_inode, decide_False by by rewrite regular. cbv match. step. unfold read_opened.
  step. step. eapply after_result_call; [apply fstat_atomic|done|]. cbv beta. rewrite drafted_inode. cbn [ok_or map_err]. rewrite Hg. cbn [negb].
  step. step. eapply after_result_call; [apply read_to_end_atomic|done|]. cbv beta. rewrite drafted_inode. cbn [fmap option_fmap option_map ok_or map_err].
  rewrite Nat.eqb_refl. cbn [negb]. step. do 2 step. rewrite Hparse. cbv beta match. step. cbv beta match. step.
  apply after_reader; [apply resource_reader|]. intros st Hst Hc. rewrite (Hag st Hst (Hc eq_refl)).
  step. eapply after_mono; [by apply (storage_after _ _ _ names0 inodes0 n)|]. intros r1 s1 (-> & _ & Hr1). rewrite (Hr1 eq_refl Hshape Ha).
  step. eapply after_mono; [by apply (state_storage_after _ _ _ _ names0)|]. intros r2 s2 (-> & _ & Hr2). rewrite (Hr2 eq_refl Hseen). by step.
Qed.

(** C3: whatever calls of the terminal transaction fail, and at whatever state of it the machine crashes: if the
    public name exists afterwards it leads to one whole, durable, private record of this session, which is the body
    the transaction was given or what it says it made of it, and what that record says of the raw tree -- removed, or
    retained with a durable marker -- is so; and unless the raw tree is left as it was, the archive of the accepted
    bundle is unchanged in its place, the very archive the body describes, with a draft or the public record beside it. *)
Theorem terminal_crash_safe b dir st r b' st' :
  readable b → euid = 1000 → egid = 1000 → at_rest (site st) dir → unpublished dir →
  persist_terminal_transaction cfg b st = (r, b', st') →
  ∃ xs, past st' = past st ++ xs ∧
    ∀ x x', x ∈ xs → crash_site x x' →
      (public x' → record_public cfg (amended b) x') ∧ (evidence_kept (site st) x' ∨ bundle_kept b (site st) x').
Proof.
  intros Hcodec Hu Hg Hrest Hnone Hrun. pose proof Hrest as [Hres [_ Hsync] _ Hbound _].
  destruct (persist_states false b dir st r b' st') as ((xs & Hp & Hall) & _); [done..|].
  exists xs. split; [done|]. intros x x' Hx Hcrash. rewrite Forall_forall in Hall. specialize (Hall x Hx).
  destruct Hnone as [HD HF]. pose proof Hrest as [_ _ _ _ Hraw].
  destruct (sound_crash cfg false (site st) (result_meta dir) (names (result_files dir)) (inodes (result_files dir)) (next_inode (result_files dir))
    (S (next_inode (result_files dir))) b) with (x := x) (x' := x') as [Hpub Hev]; [done|done| |done|done|done|done|].
  { intros E. specialize (Hbound _ _ E). lia. }
  split.
  - intros Hn. destruct (Hpub Hn) as (files & i & f & b1 & ? & ? & ? & ? & ? & ? & ? & [? _] & ?). exists files, i, f, b1. by split_and!.
  - destruct Hev as [?|(files' & Hf & Hk)]; [by left|]. right. exists (result_files dir), files'. unfold site_files at 1. by rewrite Hres.
Qed.

(** C7: a terminal transaction that answers with success leaves one public record, durable and without a draft beside
    it, of the body it leaves; that body is the one it was given with only its ending amended; and when no call fails and
    the site fits the body, it does answer with success and amends nothing. *)
Theorem terminal_published b dir st r b' st' :
  readable b → euid = 1000 → egid = 1000 → at_rest (site st) dir → unpublished dir →
  persist_terminal_transaction cfg b st = (r, b', st') →
  amended b b' ∧ (r = Ok tt → settled b' (site st')) ∧ (site_faults st = [] → publishable b (site st) → r = Ok tt ∧ b' = b).
Proof.
  intros Hcodec Hu Hg Hrest Hnone Hrun. destruct (persist_states false b dir st r b' st') as (_ & Ham & Hset & _); [done..|].
  split_and!; [done|done|]. intros Hf Hp. destruct (persist_states true b dir st r b' st') as (_ & _ & _ & Hok); [done..|by intros _|done|]. auto.
Qed.

(** C8: when a crash cuts an undisturbed transaction short, the next start of the service ends it: a public record is
    settled, by removing the draft beside it if there is one; without one, the draft that can be read is carried through
    the cleanup to publication; and where no draft can be read, the raw tree is as it was. *)
Theorem restart_finishes id b dir s ts r b' st' x x' ts' :
  readable b → euid = 1000 → egid = 1000 → at_rest s dir → unpublished dir → publishable b s →
  sb_session_id b = id → sb_status b ≠ Running → Z.of_nat (length (body_json b)) <= MAX_TERMINAL_RECORD_BYTES →
  persist_terminal_transaction cfg b (undisturbed s ts) = (r, b', st') → x ∈ past st' → crash_site x x' →
  (public x' → let '(r, st) := committed_terminal_for_sweep id (undisturbed x' ts') in r = Ok (Some b) ∧ settled b (site st)) ∧
  (¬ public x' → draft_readable id b x' → is_safe_session_id id = true → resource_agrees cfg b id x' →
     let '(r, st) := resume_prepared_terminal_transaction cfg id (undisturbed x' ts') in r = Ok tt ∧ settled b (site st)) ∧
  (¬ public x' → draft_readable id b x' ∨ evidence_kept s x').
Proof.
  intros Hcodec Hu Hg Hrest Hnone Hready Hid Hrun Hlen Hpersist Hx Hcrash. pose proof Hnone as [HD HF].
  destruct (persist_states true b dir (undisturbed s ts) r b' st') as ((xs & Hp & Hall) & _); [done..|by intros _|done|].
  cbn [undisturbed past app] in Hp. rewrite Hp in Hx. rewrite Forall_forall in Hall. specialize (Hall x Hx).
  destruct (restart_stage b dir s x x' Hrest Hnone Hready Hall Hcrash) as (dir' & p & g & g' & [Hstage Hsv Hpub Hev Hre Hr]).
  set (names0 := names (result_files dir)) in *. set (n := next_inode (result_files dir)) in *. set (d := result_files dir') in *.
  assert (names0 !! BUNDLE ≠ Some n) as HB by (intros E; pose proof (rest_bound _ _ Hrest _ _ E); unfold n in *; lia).
  set (ready' := ready cfg names0 (inodes d) (raw x') b) in *.
  assert (site_files x' = Some (drafted names0 (inodes d) n (next_inode d) p [] g')) as Hfiles by by rewrite Hstage.
  assert (public x' ↔ p.2 = true) as Hpublic.
  { unfold public. rewrite Hfiles. cbn [mbind option_bind]. change (names (drafted names0 (inodes d) n (next_inode d) p [] g')) with (dir_names names0 n p).
    rewrite dir_names_finished by done. destruct (p.2); by split; [|try by intros []]. }
  split_and!.
  - intros Hpb%Hpublic. destruct (Hpub Hpb) as [Hh Ht]. destruct (holds_parsed id b g' Hh Hid Hrun Hlen) as [Hpw Hparse]. destruct p as [draft []]; [|done].
    pose proof (undisturbed_after _ _ _ _ ts' (sweep_settles (records x') (result_meta dir') names0 (inodes d) n (next_inode d) (raw x') b HD HF id draft [] g' Hpw Hparse)) as Hsweep.
    rewrite <-Hstage in Hsweep. destruct (committed_terminal_for_sweep id (undisturbed x' ts')) as [r1 st1]. destruct Hsweep as [Hr1 Hs1]. split; [exact Hr1|].
    cbn in Hs1. rewrite Hs1. apply settled_stage; try done. destruct Hh as (Hpriv & Hsy & Hb & Hv & Hl). by split_and!.
  - intros Hpb Hdraft Hsafe Hag. destruct p as [draft public]. destruct public; [by destruct Hpb; apply Hpublic|].
    destruct Hdraft as (files & i & f & Hfl & Hi & Hf & Hpw & Hparse). rewrite Hfiles in Hfl. injection Hfl as <-.
    change (dir_names names0 n (draft, false) !! DRAFT = Some i) in Hi. rewrite dir_names_draft in Hi by done. destruct draft; [|done]. injection Hi as <-.
    rewrite drafted_inode in Hf. injection Hf as <-.
    pose proof (undisturbed_after _ _ _ _ ts' (resume_after cfg true (records x') (result_meta dir') names0 (inodes d) n (next_inode d) (raw x') b HD HF Hcodec HB
      id [] g' (Forall_nil_2 _) Hpw Hparse Hr)) as Hresume.
    rewrite <-Hstage in Hresume. destruct (resume_prepared_terminal_transaction cfg id (undisturbed x' ts')) as [r1 st1]. destruct Hresume as [_ Hresume].
    destruct (Hresume eq_refl Hsafe Hag Hre) as [Hr1 [_ Hend]]. split; [exact Hr1|]. destruct (Hend eq_refl) as (g1 & rs1 & Hs1 & Hh1 & Ht1).
    cbn in Hs1. rewrite Hs1. by apply settled_stage.
  - intros Hpb. destruct Hev as [?|[Hh Hname]]; [by right|]. left. destruct (holds_parsed id b g' Hh Hid Hrun Hlen) as [Hpw Hparse].
    destruct p as [draft public]. destruct public; [by destruct Hpb; apply Hpublic|]. destruct draft; [|done].
    exists (drafted names0 (inodes d) n (next_inode d) (true, false) [] g'), n, g'. split_and!; try done; [by apply (dir_names_draft names0 n HD (true, false))|by apply drafted_inode].
Qed.

(** C24: a record published by an undisturbed transaction is read back as it was given, where the session's acceptance and
    progress records agree with it: the readers accept what the writer publishes. *)
Theorem terminal_read_back id b dir s ts r b' st' ts' :
  readable b → euid = 1000 → egid = 1000 → at_rest s dir → unpublished dir → publishable b s →
  sb_session_id b = id → sb_status b ≠ Running → Z.of_nat (length (body_json b)) <= MAX_TERMINAL_RECORD_BYTES → is_safe_session_id id = true →
  persist_terminal_transaction cfg b (undisturbed s ts) = (r, b', st') → resource_agrees cfg b id (site st') →
  (read_terminal cfg id (undisturbed (site st') ts')).1 = Ok b.
Proof.
  intros Hcodec Hu Hg Hrest [HD HF] (dir0 & Hdir & Hm & Hready) Hid Hrun Hlen Hsafe Hpersist Hag. pose proof Hrest as [Hres Hfiles Hfresh Hbound Hraw].
  rewrite Hres in Hdir. injection Hdir as <-. set (d := result_files dir) in *.
  assert (names d !! BUNDLE ≠ Some (next_inode d)) as HB by (intros E; specialize (Hbound _ _ E); unfold d in Hbound; lia).
  destruct (persist_after cfg true (records s) (result_meta dir) (names d) (inodes d) (next_inode d) (S (next_inode d)) (raw s) b
    HD HF Hcodec HB eq_refl Hu Hg Hraw (undisturbed s ts) r b' st' (fun _ => eq_refl) (rest_stage _ _ Hrest) Hpersist) as (_ & [[_ Hend] Hok] & _).
  destruct (Hok eq_refl Hready Hm) as [-> ->]. destruct (Hend eq_refl) as (g & rs & Hs & Hh & Ht). rewrite Hs in *.
  destruct (holds_parsed id b g Hh Hid Hrun Hlen) as [Hpw Hparse].
  apply (undisturbed_after _ _ _ _ ts' (read_back id b _ _ _ _ _ _ _ _ (fun _ => True) HD HF HB Hsafe Hpw Hparse (proj1 (proj2 Hready)) (told_seen cfg _ _ Ht) Hag)).
Qed.

(** One reading of the cause line. *)
Lemma cause_of_line_fits (bundled : bool) (line : str) :
  bool_decide (line ∈ causes_without_bundle ++ causes_with_bundle) && bool_decide (line ∈ if bundled then causes_with_bundle else causes_without_bundle)
  = match cause_of_line line with Some cause => cause_fits bundled cause | None => false end.
Proof.
  destruct (decide (line ∈ causes_without_bundle ++ causes_with_bundle)) as [Hin|Hout].
  - unfold causes_without_bundle, causes_with_bundle in Hin. cbn [map app] in Hin. rewrite !elem_of_cons, elem_of_nil in Hin.
    destruct_or! Hin; subst; destruct bundled; vm_compute; reflexivity.
  - rewrite bool_decide_eq_false_2 by done. unfold cause_of_line. cbn [List.find fst andb].
    unfold causes_without_bundle, causes_with_bundle in Hout. cbn [map app] in Hout. rewrite !elem_of_cons in Hout.
    repeat (case_bool_decide; [by destruct Hout; subst; tauto|]). done.
Qed.

(** C37: the deletion of a session and the reconciliation of a start accept the same markers of a retained tree: the
    first's one check is the second's reading of the cause, in the same words, followed by its check of the cause
    against the record's bundle. *)
Theorem marker_readers_agree id bundled contents :
  marker_names cfg id bundled contents = true ↔ ∃ cause, read_marker cfg id contents = Ok cause ∧ cause_fits bundled cause = true.
Proof.
  unfold marker_names, read_marker. set (line := default [] (nth_error (text_lines contents) 1)).
  set (head := nth_error _ 0). set (path := nth_error _ 2). set (rest := nth_error _ 3).
  rewrite <-(andb_assoc (bool_decide (head = _))), cause_of_line_fits.
  destruct (decide (head = Some RETAINED)) as [Hh|Hh].
  2: { rewrite (bool_decide_eq_false_2 (head = _)), (bool_decide_eq_true_2 (head ≠ _)) by done. cbn [andb]. split; [done|by intros (? & ? & _)]. }
  rewrite (bool_decide_eq_true_2 (head = _)), (bool_decide_eq_false_2 (head ≠ _)) by naive_solver.
  destruct (cause_of_line line) as [cause|]; cbn [andb ok_or mbind result_bind]; [|split; [done|by intros (? & ? & _)]].
  rewrite <-andb_assoc, <-bool_decide_and, <-bool_decide_or.
  destruct (decide (path = Some (lit "path=" ++ state_root cfg id) ∧ rest = None)) as [Hp|Hp].
  - rewrite bool_decide_eq_true_2, bool_decide_eq_false_2, andb_true_r by naive_solver. split; [by exists cause|by intros (? & [= <-] & ?)].
  - rewrite bool_decide_eq_false_2, bool_decide_eq_true_2, andb_false_r by (destruct (decide (rest = None)); naive_solver).
    split; [done|by intros (? & ? & _)].
Qed.
End Endings.

(** ** An example *)
Module Demo.
Definition demo_process : Process := {| euid := 1000; egid := 1000 |}.
Definition demo_contract : StreamContract := example_contract.
Definition demo_vocabulary : @Vocabulary demo_contract := {| kind_of := fun _ => System; MISSING_DELIVERABLES_SUBTYPE := lit "missing" |}.
Definition demo_release : ReleaseIdentity :=
  {| implementation_commit := []; images := {| ri_agent := []; ri_relay := []; ri_capture := []; ri_broker := []; ri_service := [] |};
     backend := {| be_image_id := []; be_launch_profile := [] |} |}.
Definition demo_config : Config :=
  {| vllm_model_name := lit "model"; max_model_len := 4096; state_dir := lit "/state"; records_dir := lit "/records"; cfg_release := demo_release |}.
Definition demo_id : str := lit "s-" ++ repeat 48 64.
Definition demo_deliverables : Deliverables := {| paths := []; json := lit "[]" |}.
Definition demo_event : ProgressEvent :=
  {| revision := 1; at_unix_ms := 1; phase := Accepted; message := lit "m"; counters := default_counters |}.
Definition demo_acceptance : AcceptanceRecord :=
  {| ac_schema_version := 7; ac_session_id := demo_id; ac_accepted_at_unix := 100; ac_archive_bytes := 10; ac_archive_sha256 := []; ac_prompt := lit "do";
     ac_max_session_turns := 5; ac_deliverables := demo_deliverables; ac_release := demo_release |}.
Definition demo_ending : SessionTerminal :=
  {| tl_finished_at_unix := 200; tl_duration_wall_ms := 100000; tl_container_exit_code := None; tl_agent_exit_code := None; tl_is_process_error := false;
     tl_response := lit "done"; tl_agent_result := None;
     tl_bundle := Some {| bs_sha256 := repeat 48 64; bs_compressed_bytes := 9; bs_uncompressed_bytes := 10; bs_file_count := 2; bs_artifacts_file_count := 1 |};
     tl_raw_session_tree_retained := false; tl_teardown_diagnostics := [] |}.
Definition demo_body : SessionBody :=
  {| sb_session_id := demo_id; sb_status := Ended; sb_started_at_unix := 100; sb_model := lit "model"; sb_context_window := 4096; sb_max_session_turns := 5;
     sb_deliverables := demo_deliverables; sb_release := demo_release; sb_archive_bytes := 10; sb_archive_sha256 := []; sb_prompt_preview := lit "do";
     sb_progress_revision := 1; sb_progress_at_unix_ms := 1; sb_progress_phase := Accepted; sb_progress_message := lit "m"; sb_staged_bytes := 0;
     sb_staged_entries := 0; sb_staged_regular_files := 0; sb_output_event_bytes := 0; sb_progress_events := [demo_event]; sb_num_turns := None;
     sb_last_event_at_unix := None; sb_observed_usage := None; sb_observed_subagent_scope_count := None; sb_observed_unaccounted_records := None;
     sb_terminal := Some demo_ending |}.

(** The records of this ending: which amendment of the body, and its diagnostics. *)
Definition demo_codec : RecordCodec := {|
  body_json := fun b => match sb_terminal b with
                        | Some t => [if tl_raw_session_tree_retained t then 2 else if tl_is_process_error t then 1 else 0; Z.pos (encode (tl_teardown_diagnostics t))]
                        | None => []
                        end;
  body_of_json := fun s => match s with
                           | [tag; Z.pos code] =>
                               ds ← countable.decode code;
                               Some (if tag =? 0 then demo_body else if tag =? 1 then with_terminal (add_diagnostics ds) demo_body
                                     else with_terminal (fun t => retain (add_diagnostics ds t)) demo_body)
                           | _ => None
                           end;
  acceptance_of_json := fun s => if decide (s = lit "accepted") then Some demo_acceptance else None;
|}.
Lemma demo_readable : @readable demo_codec demo_body.
Proof. intros b' [->|(ds & [->| ->])]; [done|..]; cbn; by rewrite decode_encode. Qed.

Definition demo_progress : ProgressCodec := {|
  to_vec_pretty := fun _ => lit "progress";
  from_slice := fun s => if decide (s = lit "progress") then Some {| schema_version := PROGRESS_SCHEMA_VERSION; session_id := demo_id; doc_events := [demo_event] |} else None;
|}.

(** A removal that fails has removed what the tree held of the agent's. *)
Definition emptied (t : Tree) : Tree := {| root := root t; control := control t; evidence := ∅; evidence_before := evidence t :: evidence_before t |}.
Lemma emptied_remains t : remains t (emptied t).
Proof. split; [done|apply map_empty_subseteq|]. intros c' Hc. by exists c'. Qed.
Definition demo_removal : Removal.
Proof. refine {| remnant := fun _ t => Some (emptied t) |}. intros _ t t' [= <-]. apply emptied_remains. Defined.

Definition demo_directory : Meta := {| entry_kind := ADirectory; meta_mode := 493; meta_uid := 1000; meta_gid := 1000 |}.
Definition demo_file (c : str) : Inode := @own demo_process c true.
Definition demo_files : Disk :=
  {| names := list_to_map [(ACCEPTED, 0%nat); (file_name PROGRESS, 1%nat); (BUNDLE, 2%nat)];
     inodes := list_to_map [(0%nat, demo_file (lit "accepted")); (1%nat, demo_file (lit "progress")); (2%nat, demo_file (lit "123456789"))];
     next_inode := 3; unsynced := [] |}.
Definition no_files : Disk := {| names := ∅; inodes := ∅; next_inode := 0; unsynced := [] |}.
Definition demo_tree : Tree :=
  {| root := demo_directory; control := {| here := Some {| control_meta := demo_directory; control_files := no_files |}; before := [] |};
     evidence := {[ lit "output/events.jsonl" := lit "events" ]}; evidence_before := [] |}.
Definition demo_result : ResultDir := {| result_meta := demo_directory; result_files := demo_files |}.
Definition demo_site : Site :=
  {| records := no_files; result_dir := {| here := Some demo_result; before := [] |}; raw := {| here := Some demo_tree; before := [] |} |}.

#[local] Existing Instance demo_process.
#[local] Existing Instance demo_contract.
#[local] Existing Instance demo_vocabulary.
#[local] Existing Instance demo_codec.
#[local] Existing Instance demo_progress.
#[local] Existing Instance demo_removal.

Definition demo_run (fs : list Fault) : service unit * SessionBody * State :=
  persist_terminal_transaction demo_config demo_body {| site := demo_site; site_faults := fs; site_clock := []; past := [] |}.

(** Whether the draft and the public record have their names, and what is left of
    the raw tree, after each call that changed the site. *)
Definition demo_trace (fs : list Fault) : list (bool * bool * option nat) :=
  map (fun s => let named name := presence (site_files s ≫= fun d => names d !! name) in
                (named DRAFT, named FINISHED, (fun t => size (evidence t)) <$> here (raw s))) (past (demo_run fs).2).
Example an_ending : (demo_run []).1 = (Ok tt, demo_body) ∧ demo_trace [] =
  repeat (true, false, Some 1%nat) 4 ++ repeat (true, false, None) 2 ++ repeat (true, true, None) 2 ++ repeat (false, true, None) 2.
Proof. split; vm_compute; reflexivity. Qed.

(** The removal fails half way: what is left is kept, and the record says so. *)
Definition half_removed : list Fault := repeat Succeeds 10 ++ [Fails 0].
Example a_retained_ending :
  (demo_run half_removed).1.1 = Ok tt ∧ (tl_raw_session_tree_retained <$> sb_terminal (demo_run half_removed).1.2) = Some true ∧
  last (demo_trace half_removed) = Some (false, true, Some 0%nat).
Proof. split_and!; vm_compute; reflexivity. Qed.

Lemma demo_at_rest : at_rest demo_site demo_result.
Proof.
  split; [done|..].
  - split; [done|]. apply (map_Forall_lookup (fun _ f => file_synced f = true)), (bool_decide_eq_true_1 _). vm_compute. reflexivity.
  - intros i Hi. destruct (inodes demo_files !! i) as [f|] eqn:Hf; [|done]. exfalso. revert i f Hf Hi.
    apply (map_Forall_lookup (fun i (_ : Inode) => (3 <= i)%nat → False)). apply (bool_decide_eq_true_1 (map_Forall (fun i _ => ¬ (3 <= i)%nat) _)). vm_compute. reflexivity.
  - apply (map_Forall_lookup (fun _ i => (i < 3)%nat)), (bool_decide_eq_true_1 _). vm_compute. reflexivity.
  - split; [done|]. intros t [= <-]. split; [done|]. intros c [= <-]. split; [done|]. intros i f Hi. by vm_compute in Hi.
Qed.
Lemma demo_unpublished : unpublished demo_result.
Proof. done. Qed.
Lemma demo_publishable : publishable demo_config demo_body demo_site.
Proof.
  exists demo_result. split; [done|]. split; [done|]. split; [vm_compute; reflexivity|]. split.
  - eexists. split; [done|]. exists 2%nat, (demo_file (lit "123456789")). done.
  - eexists. split; [done|]. right. split; [done|]. by exists demo_tree.
Qed.

Lemma terminal_crash_safe_witness :
  (demo_run half_removed).1.1 = Ok tt ∧
  ∃ xs, past (demo_run half_removed).2 = [] ++ xs ∧
    ∀ x x', x ∈ xs → crash_site x x' →
      (public x' → record_public demo_config (amended demo_body) x') ∧ (evidence_kept demo_site x' ∨ bundle_kept demo_body demo_site x').
Proof.
  split; [vm_compute; reflexivity|].
  apply (terminal_crash_safe demo_config demo_body demo_result {| site := demo_site; site_faults := half_removed; site_clock := []; past := [] |}
    (demo_run half_removed).1.1 (demo_run half_removed).1.2 (demo_run half_removed).2);
    [exact demo_readable|reflexivity|reflexivity|exact demo_at_rest|exact demo_unpublished|].
  fold (demo_run half_removed). by destruct (demo_run half_removed) as [[? ?] ?].
Defined.

Lemma terminal_published_witness : settled demo_config demo_body (site (demo_run []).2).
Proof.
  destruct (terminal_published demo_config demo_body demo_result (undisturbed demo_site []) (demo_run []).1.1 (demo_run []).1.2 (demo_run []).2)
    as (_ & Hset & Hok); [exact demo_readable|reflexivity|reflexivity|exact demo_at_rest|exact demo_unpublished|..].
  - unfold undisturbed. fold (demo_run []). by destruct (demo_run []) as [[? ?] ?].
  - destruct (Hok eq_refl demo_publishable) as [Hr <-]. exact (Hset Hr).
Defined.

(** A crash that keeps the latest of the result directory, and brings back of the
    raw tree what [back] says. *)
Definition brought (back : option Tree) (s : Site) : Site :=
  {| records := records s;
     result_dir := {| here := (fun dir => {| result_meta := result_meta dir; result_files :=
         {| names := names (result_files dir); inodes := inodes (result_files dir); next_inode := next_inode (result_files dir); unsynced := [] |} |})
         <$> here (result_dir s); before := [] |};
     raw := {| here := back; before := [] |} |}.
Definition stage_of (k : nat) : Site := default demo_site (past (demo_run []).2 !! k).
Definition relic : Tree := {| root := demo_directory; control := control demo_tree; evidence := ∅; evidence_before := [] |}.
Definition cut_removal : Site := brought (Some relic) (stage_of 4).
Definition cut_publication : Site := brought None (stage_of 7).

Lemma survives_synced f : file_synced f = true → reach f = length (contents f) → survives f f.
Proof. intros Hs Hr. unfold survives. rewrite Hs. split_and!; done. Qed.
Lemma brought_crash dir s back :
  here (result_dir s) = Some dir → map_Forall (fun _ f => file_synced f = true ∧ reach f = length (contents f)) (inodes (result_files dir)) →
  records s = no_files → crash_slot crash_tree comes_back (raw s) {| here := back; before := [] |} → crash_site s (brought back s).
Proof.
  intros Hd Hall Hrec Hraw. constructor; [|..|exact Hraw].
  - cbn [brought records]. rewrite Hrec. split_and!; [by constructor|done|done|]. intros i. by vm_compute.
  - split; [done|]. left. eexists _, _. rewrite Hd. split; [done|]. cbn [brought result_dir here]. rewrite Hd. split; [done|]. split; [done|].
    split_and!; [by constructor|done|done|]. intros i. cbn [inodes result_files]. destruct (inodes (result_files dir) !! i) eqn:Hf; [|done].
    destruct (Hall _ _ Hf). by apply survives_synced.
Qed.

Lemma relic_quiet : quiet_tree relic.
Proof. split_and!; try done. intros c [= <-]. split; [done|]. intros i f Hi. by vm_compute in Hi. Qed.
Lemma cut_removal_crash : crash_site (stage_of 4) cut_removal.
Proof.
  eapply brought_crash; [vm_compute; reflexivity| |vm_compute; reflexivity|].
  - apply (bool_decide_eq_true_1 _). vm_compute. reflexivity.
  - split; [done|]. right. right. right. exists demo_tree, relic. split; [vm_compute; by left|]. split; [done|]. split; [done|exact relic_quiet].
Qed.
Lemma cut_publication_crash : crash_site (stage_of 7) cut_publication.
Proof.
  eapply brought_crash; [vm_compute; reflexivity| |vm_compute; reflexivity|].
  - apply (bool_decide_eq_true_1 _). vm_compute. reflexivity.
  - split; [done|]. right. left. split; vm_compute; reflexivity.
Qed.

Lemma agrees_at (s : Site) :
  (∀ ts xs, (validate_terminal_resource demo_config demo_id demo_body {| site := s; site_faults := []; site_clock := ts; past := xs |}).1 = Ok tt) →
  resource_agrees demo_config demo_body demo_id s.
Proof. intros Hok [s' fs ts xs]. cbn. intros -> ->. apply Hok. Qed.
Lemma cut_removal_agrees : resource_agrees demo_config demo_body demo_id cut_removal.
Proof. apply agrees_at. intros. vm_compute. reflexivity. Qed.
Lemma published_agrees : resource_agrees demo_config demo_body demo_id (site (demo_run []).2).
Proof. apply agrees_at. intros. vm_compute. reflexivity. Qed.

Lemma demo_length : Z.of_nat (length (body_json demo_body)) <= MAX_TERMINAL_RECORD_BYTES.
Proof. vm_compute. discriminate. Qed.
Lemma demo_went k x : past (demo_run []).2 !! k = Some x → x ∈ past (demo_run []).2.
Proof. apply list_elem_of_lookup_2. Qed.

Lemma restart_finishes_witness :
  let '(r, st) := resume_prepared_terminal_transaction demo_config demo_id (undisturbed cut_removal []) in
  (r = Ok tt ∧ settled demo_config demo_body (site st)) ∧
  let '(r, st) := committed_terminal_for_sweep demo_id (undisturbed cut_publication []) in
  r = Ok (Some demo_body) ∧ settled demo_config demo_body (site st).
Proof.
  assert (persist_terminal_transaction demo_config demo_body (undisturbed demo_site []) = ((demo_run []).1.1, (demo_run []).1.2, (demo_run []).2)) as Hrun
    by (unfold undisturbed; fold (demo_run []); by destruct (demo_run []) as [[? ?] ?]).
  pose proof (fun k x' (Hx : crash_site (stage_of k) x') (Hk : past (demo_run []).2 !! k = Some (stage_of k)) =>
    restart_finishes demo_config demo_id demo_body demo_result demo_site [] _ _ _ (stage_of k) x' [] demo_readable eq_refl eq_refl demo_at_rest
      demo_unpublished demo_publishable eq_refl ltac:(discriminate) demo_length Hrun (demo_went _ _ Hk) Hx) as Hfin.
  destruct (Hfin 4%nat cut_removal cut_removal_crash ltac:(vm_compute; reflexivity)) as (_ & Hresume & _).
  destruct (Hfin 7%nat cut_publication cut_publication_crash ltac:(vm_compute; reflexivity)) as (Hsweep & _ & _).
  assert (¬ public cut_removal) as Hno by (intros [i Hi]; vm_compute in Hi; discriminate).
  assert (public cut_publication) as Hpub by (vm_compute; by eexists).
  assert (draft_readable demo_id demo_body cut_removal) as Hdraft.
  { exists (default no_files (site_files cut_removal)), 3%nat, (demo_file (body_json demo_body)).
    do 4 (split; [vm_compute; reflexivity|]). vm_compute. reflexivity. }
  specialize (Hresume Hno Hdraft eq_refl cut_removal_agrees). specialize (Hsweep Hpub).
  destruct (resume_prepared_terminal_transaction demo_config demo_id (undisturbed cut_removal [])) as [r st]. by split.
Defined.

Lemma terminal_read_back_witness : (read_terminal demo_config demo_id (undisturbed (site (demo_run []).2) [])).1 = Ok demo_body.
Proof.
  apply (terminal_read_back demo_config demo_id demo_body demo_result demo_site [] (demo_run []).1.1 (demo_run []).1.2 (demo_run []).2 []);
    [exact demo_readable|reflexivity|reflexivity|exact demo_at_rest|exact demo_unpublished|exact demo_publishable|reflexivity|discriminate|exact demo_length|reflexivity| |exact published_agrees].
  unfold undisturbed. fold (demo_run []). by destruct (demo_run []) as [[? ?] ?].
Defined.

(** A resumption does not make the marker durable: where the barrier of its file
    failed, the next start of the service publishes that the tree is retained, with
    the marker still waiting. *)
Definition marker_sync_fails : list Fault := repeat Succeeds 10 ++ [Fails 0] ++ repeat Succeeds 13 ++ [Fails 0].
Definition next_start : service unit * State :=
  resume_prepared_terminal_transaction demo_config demo_id (undisturbed (site (demo_run marker_sync_fails).2) []).
Definition marker_synced (s : Site) : option bool :=
  t ← here (raw s); c ← here (control t); i ← names (control_files c) !! MARKER; file_synced <$> inodes (control_files c) !! i.
Example marker_left_unsynced :
  is_ok (demo_run marker_sync_fails).1.1 = false ∧ next_start.1 = Ok tt ∧ marker_synced (site next_start.2) = Some false ∧
  (site_files (site next_start.2) ≫= fun d => names d !! FINISHED) = Some 3%nat ∧
  (read_terminal demo_config demo_id next_start.2).1 = Ok (demo_run marker_sync_fails).1.2.
Proof. split_and!; vm_compute; reflexivity. Qed.
End Demo.
