(* ===== verification/Intents.v ===== *)
(** * Intents: the durable decisions to cancel and to delete a session (src/runtime.rs)

    Each is a small private file made durable under a private name, then renamed to
    the name that makes it a decision; a failure before the rename is rolled back,
    one after it leaves the decision standing.  Under a deletion intent the raw tree
    and the result directory are removed, then the intent itself.  What an error
    quotes of paths and of the system's errors is left out. *)
From S2P Require Import Prelude Number Utf8 BTree Json JsonTree Schema Stream Usage Generation Authorship Sse Text Serde Turns Requests Utilities Admission Compaction Conversation ServiceError Disk Deliverables Progress Validation Capture Terminal Interaction Refusals Docker Supervision Site Publication.

Definition MAX_CANCEL_INTENT_BYTES : Z := 4096.
Definition MAX_DELETE_INTENT_BYTES : Z := 4096.

Record CancelIntent := { ci_schema_version : Z; ci_session_id : str; ci_requested_at_unix_ms : Z }.
Global Instance CancelIntent_eq_dec : EqDecision CancelIntent.
Proof. solve_decision. Defined.
Record DeleteIntent := { di_schema_version : Z; di_session_id : str }.
Global Instance DeleteIntent_eq_dec : EqDecision DeleteIntent.
Proof. solve_decision. Defined.

(** serde_json on the intents: [to_vec_pretty] and [from_slice]. *)
Class IntentCodec := {
  cancel_json : CancelIntent → str;
  cancel_of_json : str → option CancelIntent;
  delete_json : DeleteIntent → str;
  delete_of_json : str → option DeleteIntent;
}.

(** ** Names *)
Definition CANCEL : str := lit "cancel-requested.json".
Definition CANCEL_NEXT : str := lit "cancel-requested.json.next".
Definition DELETE_INTENT_PREFIX : str := lit ".delete-session-".
Definition DELETE_INTENT_SUFFIX : str := lit ".json".
Definition delete_intent_name (session_id : str) : str := DELETE_INTENT_PREFIX ++ session_id ++ DELETE_INTENT_SUFFIX.
Definition delete_intent_next_name (session_id : str) : str := delete_intent_name session_id ++ lit ".next".

(** Whose intent a control file is, and whether it is an unpublished one. *)
Definition session_id_from_delete_control_name (name : str) : option (str * bool) :=
  let '(base, unpublished) := match strip_suffix (lit ".next") name with Some base => (base, true) | None => (name, false) end in
  rest ← strip_prefix DELETE_INTENT_PREFIX base;
  session_id ← strip_suffix DELETE_INTENT_SUFFIX rest;
  if is_safe_session_id session_id then Some (session_id, unpublished) else None.

(** [errors.join("; ")] *)
Fixpoint joined (errors : list str) : str :=
  match errors with [] => [] | [e] => e | e :: es => e ++ lit "; " ++ joined es end.

(** ** A control file

    [inside] runs a call in the file's directory, [barrier] is that directory's. *)
Section Control.
Context `{Process} (inside : ∀ A, io IoError A → op IoError A) (barrier : string → op ServiceError unit).

(** [read_cancel_intent], [read_delete_intent] *)
Definition read_control {A} (name : str) (role : string) (limit : Z) (of_json : str → option A) (is_its : A → bool) : op ServiceError (option A) :=
  opened ← attempt (inside _ (open_nofollow name));
  match opened with
  | Err NotFoundError => mret None
  | Err _ => just (internal ("open " ++ role ++ " without following links"))
  | Ok file =>
      bytes ← read_opened file role (private_within limit) inside;
      intent ← just (ok_or (of_json bytes) (Internal (lit role ++ lit " is malformed")));
      if negb (is_its intent) then just (internal (role ++ " has identity/schema drift")) else mret (Some intent)
  end.

(** The transaction of a publication: its answer, and how far it got:
    [candidate_created], [published]. *)
Definition publish_control (next final bytes : str) (role : string) : op ServiceError (service unit * bool * bool) :=
  created ← attempt (failing ("create unpublished " ++ role) (inside _ (create_new next 384)));
  match created with
  | Err e => mret (Err e, false, false)
  | Ok file =>
      renamed ← attempt (_ ← failing ("write/sync unpublished " ++ role) (_ ← inside _ (write_all file bytes); inside _ (sync_all file));
                         _ ← barrier ("sync unpublished " ++ role);
                         failing ("atomically publish " ++ role) (inside _ (rename next final)));
      match renamed with
      | Err e => mret (Err e, true, false)
      | Ok _ => settled ← attempt (barrier ("sync " ++ role ++ " publication")); mret (settled, false, true)
      end
  end.

(** What went wrong in a rollback, or nothing. *)
Definition roll_back (next : str) (candidate_created : bool) (role : string) (first_error : ServiceError) : op ServiceError unit :=
  removal ← (if candidate_created then
               removed ← attempt (inside _ (remove_file next));
               match removed with
               | Ok _ | Err NotFoundError => mret []
               | Err _ => mret [lit ("remove unpublished " ++ role)]
               end
             else mret [] : op ServiceError (list str));
  settled ← attempt (barrier ("sync unpublished " ++ role ++ " rollback"));
  let rollback_errors := removal ++ match settled with Ok _ => [] | Err error => [display_error error] end in
  if bool_decide (rollback_errors = []) then just (Err first_error)
  else just (Err (Internal (display_error first_error ++ lit "; " ++ lit role ++ lit " rollback also failed: " ++ joined rollback_errors))).

(** [reconcile_unpublished_*_intent], where there is a candidate. *)
Definition discard_candidate (next : str) (limit : Z) (role : string) (metadata : Inode) (committed : op ServiceError unit) : op ServiceError unit :=
  if negb (private_within limit metadata) then just (internal ("restart recovery: unpublished " ++ role ++ " has unsafe type/mode/owner/size"))
  else
    _ ← committed;
    _ ← failing ("restart recovery: remove unpublished " ++ role) (inside _ (remove_file next));
    barrier ("restart recovery: sync " ++ role ++ " rollback").
End Control.

(** [symlink_metadata] of a candidate, which there may not be. *)
Definition candidate_at (m : op IoError Inode) (context : string) : op ServiceError (option Inode) :=
  stat ← attempt m;
  match stat with
  | Ok metadata => mret (Some metadata)
  | Err NotFoundError => mret None
  | Err _ => just (internal context)
  end.

(** ** The intents of a session *)
Section Intents.
Context `{Process} `{ProgressCodec} `{Vocabulary} `{RecordCodec} `{IntentCodec} `{Removal} (cfg : Config).

(** *** Cancellation *)
Definition is_cancel_of (session_id : str) (i : CancelIntent) : bool := (ci_schema_version i =? 1) && bool_decide (ci_session_id i = session_id).
Definition read_cancel_intent (session_id : str) : op ServiceError (option CancelIntent) :=
  read_control (@in_result) CANCEL "durable cancellation intent" MAX_CANCEL_INTENT_BYTES cancel_of_json (is_cancel_of session_id).

Definition durability_failed {A} (session_id : str) (barrier : result ServiceError A) : option ServiceError :=
  match barrier with
  | Ok _ => None
  | Err error => Some (CancellationDurabilityFailed session_id (lit "the cancellation marker is visible: " ++ display_error error))
  end.

(** The answer is the error of the response, where there is one. *)
Definition after_failed_publication (session_id : str) (intent : CancelIntent) (candidate_created published : bool) (first_error : ServiceError)
    : op ServiceError (option ServiceError) :=
  visible ← (if published then mret true else path_entry_exists CANCEL "stat cancellation intent after publication failure" : op ServiceError bool);
  if visible : bool then
    observed ← read_cancel_intent session_id;
    observed ← just (ok_or observed (Internal (display_error first_error ++ lit "; the cancellation marker became visible and then disappeared")));
    if bool_decide (observed ≠ intent) then just (internal "the visible cancellation marker does not match the transaction that published it")
    else
      retry ← attempt (sync_result "retry cancellation-intent publication barrier");
      mret (durability_failed session_id retry)
  else _ ← roll_back (@in_result) sync_result CANCEL_NEXT candidate_created "cancellation intent" first_error; mret None.

Definition persist_cancel_intent (session_id : str) : op ServiceError (option ServiceError) :=
  _ ← require_absent CANCEL_NEXT "unpublished cancellation intent already exists" "stat unpublished cancellation intent";
  existing ← read_cancel_intent session_id;
  if presence existing then
    revalidated ← attempt (sync_result "revalidate cancellation-intent directory durability");
    mret (durability_failed session_id revalidated)
  else
    now ← in_records current_time;
    let intent := {| ci_schema_version := 1; ci_session_id := session_id; ci_requested_at_unix_ms := now |} in
    '(publication, candidate_created, published) ←
      publish_control (@in_result) sync_result CANCEL_NEXT CANCEL (cancel_json intent ++ [10]) "cancellation intent";
    match publication with
    | Ok _ => mret None
    | Err first_error => after_failed_publication session_id intent candidate_created published first_error
    end.

Definition reconcile_unpublished_cancel_intent (session_id : str) : op ServiceError unit :=
  candidate ← candidate_at (in_result (symlink_metadata CANCEL_NEXT)) "restart recovery: stat unpublished cancellation intent";
  match candidate with
  | None => mret tt
  | Some metadata =>
      discard_candidate (@in_result) sync_result CANCEL_NEXT MAX_CANCEL_INTENT_BYTES "cancellation intent" metadata
        (_ ← read_cancel_intent session_id; mret tt)
  end.

(** *** Deletion *)
Definition in_control_files {A} (m : io IoError A) : op IoError A := in_records m.
Definition sync_control_files (context : string) : op ServiceError unit := failing context sync_records.

Definition delete_intent_exists (session_id : str) : op ServiceError bool :=
  exists_at "stat possible durable deletion intent" (in_records (symlink_metadata (delete_intent_name session_id))).

Definition is_delete_of (session_id : str) (i : DeleteIntent) : bool := (di_schema_version i =? 1) && bool_decide (di_session_id i = session_id).
Definition read_delete_intent (session_id : str) : op ServiceError (option DeleteIntent) :=
  read_control (@in_control_files) (delete_intent_name session_id) "durable deletion intent" MAX_DELETE_INTENT_BYTES delete_of_json
    (is_delete_of session_id).

Definition after_failed_deletion_intent (session_id : str) (candidate_created : bool) (first_error : ServiceError) : op ServiceError unit :=
  observed ← read_delete_intent session_id;
  if presence observed then
    retry ← attempt (sync_control_files "retry deletion-intent publication barrier");
    match retry with
    | Ok _ => mret tt
    | Err retry_error =>
        just (Err (Internal (lit "the deletion intent is visible and exact, but both directory durability barriers failed (" ++ display_error first_error
                             ++ lit "; retry: " ++ display_error retry_error ++ lit "); repeat DELETE with this same handle")))
    end
  else roll_back (@in_control_files) sync_control_files (delete_intent_next_name session_id) candidate_created "deletion intent" first_error.

Definition persist_delete_intent (session_id : str) : op ServiceError unit :=
  existing ← read_delete_intent session_id;
  if presence existing then sync_control_files "revalidate durable deletion-intent directory"
  else
    candidate ← candidate_at (in_records (symlink_metadata (delete_intent_next_name session_id))) "stat unpublished deletion intent";
    if presence candidate then just (internal "unpublished deletion intent already exists; restart reconciliation is required")
    else
      let intent := {| di_schema_version := 1; di_session_id := session_id |} in
      '(transaction, candidate_created, _) ←
        publish_control (@in_control_files) sync_control_files (delete_intent_next_name session_id) (delete_intent_name session_id)
          (delete_json intent ++ [10]) "deletion intent";
      match transaction with
      | Ok _ => mret tt
      | Err first_error => after_failed_deletion_intent session_id candidate_created first_error
      end.

Definition remove_exact_delete_target (stat : op IoError Meta) (remove barrier : op IoError unit) (role : string) : op ServiceError unit :=
  found ← attempt stat;
  match found with
  | Err NotFoundError => mret tt
  | Err _ => just (internal ("delete: stat " ++ role))
  | Ok metadata =>
      if negb (service_directory metadata) then just (internal ("delete: " ++ role ++ " is not the exact service-owned ordinary directory; refusing recursive removal"))
      else
        _ ← failing ("delete: remove " ++ role) remove;
        failing ("delete: sync " ++ role ++ " removal") barrier
  end.

Definition finish_delete_intent (session_id : str) : op ServiceError unit :=
  authority ← read_delete_intent session_id;
  _ ← just (ok_or authority (Internal (lit "delete: durable deletion intent disappeared before cleanup")));
  _ ← remove_exact_delete_target stat_raw remove_raw sync_sessions "raw session state";
  _ ← remove_exact_delete_target stat_result remove_result sync_records "terminal result directory";
  _ ← failing "delete: remove completed deletion authority" (in_records (remove_file (delete_intent_name session_id)));
  sync_control_files "delete: sync completed deletion-authority removal".

Definition reconcile_unpublished_delete_intent (session_id : str) : op ServiceError unit :=
  candidate ← candidate_at (in_records (symlink_metadata (delete_intent_next_name session_id))) "restart recovery: stat unpublished deletion intent";
  match candidate with
  | None => mret tt
  | Some metadata =>
      _ ← discard_candidate (@in_control_files) sync_control_files (delete_intent_next_name session_id) MAX_DELETE_INTENT_BYTES
            "deletion intent" metadata (mret tt);
      _ ← delete_intent_exists session_id;
      mret tt
  end.

(** [recover_interrupted_deletions], of the control files of one session: those
    that the names list. *)
Definition recover_deletion (session_id : str) (unpublished committed : bool) : op ServiceError unit :=
  _ ← (if unpublished then reconcile_unpublished_delete_intent session_id else mret tt : op ServiceError unit);
  if committed then finish_delete_intent session_id else mret tt.

(** *** The requests *)

(** What the service holds in memory of a session, under its locks. *)
Record Held := { held_running : bool; held_unpersisted : option SessionBody }.

(** [get_unfenced] of a session that is not running *)
Definition get_unfenced (held : Held) (session_id : str) : op ServiceError SessionBody :=
  match held_unpersisted held with Some body => mret body | None => read_terminal cfg session_id end.

(** Whether it is then no longer held in memory is in the answer. *)
Definition delete_server_owned (held : Held) (session_id : str) : op ServiceError Held :=
  if held_running held then just (Err (SessionRunning session_id))
  else if negb (is_safe_session_id session_id) then just (invalid_request "delete: session_id is not a supported canonical hex-session shape")
  else
    let forgotten := {| held_running := held_running held; held_unpersisted := None |} in
    deleting ← delete_intent_exists session_id;
    if deleting : bool then _ ← finish_delete_intent session_id; mret forgotten
    else
      terminal ← get_unfenced held session_id;
      if bool_decide (sb_status terminal = Running) then just (Err (SessionRunning session_id))
      else
        t ← just (terminal_of terminal);
        _ ← (if tl_raw_session_tree_retained t then validate_delete_state_marker cfg terminal else mret tt : op ServiceError unit);
        _ ← persist_delete_intent session_id;
        _ ← finish_delete_intent session_id;
        mret forgotten.
End Intents.
