(* ===== verification/Decisions.v ===== *)
(** * Decisions: what a crash may find of an intent (src/runtime.rs)

    An intent is not there or it is whole; what was answered to be durable is found
    after any crash; and a session's directories go only under an intent that is
    durable, so that a start of the service can finish what a crash cut short. *)
From S2P Require Import Prelude Number Utf8 BTree Json JsonTree Schema Stream Usage Generation Authorship Sse Text Serde Turns Requests Utilities Admission Compaction Conversation ServiceError Disk Deliverables Progress Validation Capture Terminal Interaction Refusals Docker Supervision Site Publication Calls Durability Endings Intents.

(** ** A control file *)
Section ControlFiles.
Context `{Process} (calm : bool) (names0 : gmap str nat) (inodes0 : gmap nat Inode) (n nx : nat) (NEXT FINAL : str).
Context (Hdiff : NEXT ≠ FINAL) (HN : names0 !! NEXT = None) (HF : names0 !! FINAL = None) (Hnx : nx = Datatypes.S n).

(** Where the file has its name: nowhere, among the candidates, or published. *)
Definition control_names (p : option bool) : gmap str nat :=
  match p with None => names0 | Some false => <[NEXT := n]> names0 | Some true => <[FINAL := n]> names0 end.
Definition controls (p : option bool) (was : list (option bool)) (g : Inode) : Disk :=
  {| names := control_names p; inodes := <[n := g]> inodes0; next_inode := nx; unsynced := map control_names was |}.
Definition no_control : Disk := {| names := names0; inodes := inodes0; next_inode := n; unsynced := [] |}.
Definition unpublished_at (p : option bool) : Prop := p ≠ Some true.

Lemma control_next p : control_names p !! NEXT = if decide (p = Some false) then Some n else None.
Proof. destruct p as [[]|]; cbn; [by rewrite lookup_insert_ne|by rewrite lookup_insert_eq|done]. Qed.
Lemma control_final p : control_names p !! FINAL = if decide (p = Some true) then Some n else None.
Proof. destruct p as [[]|]; cbn; [by rewrite lookup_insert_eq|by rewrite lookup_insert_ne|done]. Qed.
Lemma control_inode p was g : inodes (controls p was g) !! n = Some g.
Proof. apply lookup_insert_eq. Qed.
Lemma control_write p was g g' : set_inode n g' (controls p was g) = controls p was g'.
Proof. unfold set_inode, controls. cbn. by rewrite insert_insert_eq. Qed.
Lemma control_created bytes_of :
  {| names := <[NEXT := n]> names0; inodes := <[n := bytes_of]> inodes0; next_inode := Datatypes.S n; unsynced := [names0] |} = controls (Some false) [None] bytes_of.
Proof. unfold controls. by rewrite Hnx. Qed.
Lemma control_renamed was g : set_names (<[FINAL := n]> (delete NEXT (control_names (Some false)))) (controls (Some false) was g) = controls (Some true) (Some false :: was) g.
Proof. unfold set_names, controls. cbn. by rewrite delete_insert_id. Qed.
Lemma control_withdrawn was g : set_names (delete NEXT (control_names (Some false))) (controls (Some false) was g) = controls None (Some false :: was) g.
Proof. unfold set_names, controls. cbn. by rewrite delete_insert_id. Qed.
Lemma control_removed was g : set_names (delete FINAL (control_names (Some true))) (controls (Some true) was g) = controls None (Some true :: was) g.
Proof. unfold set_names, controls. cbn. by rewrite delete_insert_id. Qed.

(** A directory of the site: how it is reached, and its barrier. *)
Context (inside : ∀ A, io IoError A → op IoError A) (barrier : string → op ServiceError unit) (lift : Disk → Site).
Context (Hinside : ∀ A (m : io IoError A) S Q d, on_disk calm d (fun d => S (lift d)) m (fun x d => Q x (lift d)) → after calm S (inside A m) Q (lift d)).
Context (Hbarrier : ∀ context S Q p was g, (calm = false → ∀ e, Q (Err e) (lift (controls p was g))) →
  S (lift (controls p [] g)) → Q (Ok tt) (lift (controls p [] g)) → after calm S (barrier context) Q (lift (controls p was g))).
Context (Hbarrier_first : ∀ context S Q, (calm = false → ∀ e, Q (Err e) (lift no_control)) →
  S (lift no_control) → Q (Ok tt) (lift no_control) → after calm S (barrier context) Q (lift no_control)).

Lemma inside_call {A} (m : io IoError A) f S Q d :
  atomic m f → (calm = false → Q (Err OtherError) (lift d)) →
  (match f d with (x, Some d') => S (lift d') ∧ Q x (lift d') | (x, None) => Q x (lift d) end) → after calm S (inside A m) Q (lift d).
Proof. intros Hm Hfail Hok. apply Hinside. eapply on_disk_atomic; [exact Hm|done|]. by destruct (f d) as [x [d'|]]. Qed.

Context (bytes : str).
(** The file holds the intent, durably. *)
Definition written (g : Inode) : Prop := private_file g = true ∧ file_synced g = true ∧ contents g = bytes.
(** The file is the service's own, and no longer than the intent, after a crash too. *)
Definition fits (g : Inode) : Prop :=
  private_file g = true ∧ ((if file_synced g then length (contents g) else reach g) <= length bytes)%nat.
Lemma written_fits g : written g → fits g.
Proof. intros (Hp & Hs & Hb). split; [done|]. by rewrite Hs, Hb. Qed.
Context (Hown : euid = 1000 ∧ egid = 1000).

(** Every state: what may have been published is whole. *)
Definition control_sound (x : Site) : Prop :=
  x = lift no_control ∨ ∃ p was g, x = lift (controls p was g) ∧ fits g ∧ (Forall unpublished_at (p :: was) ∨ written g).

Lemma sound_unpublished p was g : fits g → Forall unpublished_at (p :: was) → control_sound (lift (controls p was g)).
Proof. intros Hfit Hall. right. exists p, was, g. auto. Qed.
Lemma sound_written p was g : written g → control_sound (lift (controls p was g)).
Proof. intros Hg. right. exists p, was, g. pose proof (written_fits _ Hg). auto. Qed.

(** How far a publication got. *)
Definition publication_ended (answer : service unit) (created published : bool) (s : Site) : Prop :=
  match answer, published with
  | Ok _, _ => ∃ g, s = lift (controls (Some true) [] g) ∧ written g
  | Err _, true => calm = false ∧ ∃ g, s = lift (controls (Some true) [Some false] g) ∧ written g
  | Err _, false => calm = false ∧
      if created then ∃ was g, s = lift (controls (Some false) was g) ∧ fits g ∧ Forall unpublished_at was else s = lift no_control
  end.

Lemma publish_after role :
  after calm control_sound (publish_control inside barrier NEXT FINAL bytes role)
    (fun r s => ∃ answer created published, r = Ok (answer, created, published) ∧ publication_ended answer created published s) (lift no_control).
Proof.
  lazymatch goal with |- after _ _ _ ?Q _ => set (Post := Q) end.
  assert (∀ was g e, calm = false → fits g → Forall unpublished_at was → Post (Ok (Err e, true, false)) (lift (controls (Some false) was g))) as Hleft.
  { intros was g e Hc Hfit Hall. eexists _, _, _. split; [done|]. split; [done|]. by exists was, g. }
  assert (∀ was g, fits g → Forall unpublished_at was → control_sound (lift (controls (Some false) was g))) as Hsound.
  { intros was g Hfit Hall. apply sound_unpublished; [done|]. by constructor. }
  unfold publish_control. step. step. step. eapply inside_call; [apply create_new_atomic| |].
  { intros Hc. cbn [map_err]. step. by eexists _, _, _. }
  cbv beta zeta. cbn [no_control names inodes next_inode unsynced]. rewrite HN.
  set (opened := fun c sy k => {| file_type := Regular; mode := 384; uid := euid; gid := egid; contents := c; file_synced := sy; reach := k |}).
  change {| file_type := Regular; mode := 384; uid := euid; gid := egid; contents := []; file_synced := false; reach := 0 |} with (opened [] false 0%nat).
  assert (∀ c k, (length c <= length bytes)%nat → (k <= length bytes)%nat → fits (opened c false k)) as Hfit.
  { intros c k Hc Hk. split; [unfold private_file; cbn; by rewrite (proj1 Hown), (proj2 Hown)|]. done. }
  rewrite control_created. split; [apply Hsound; [apply Hfit; cbn; lia|by repeat constructor]|]. cbn [map_err].
  step. step. step. step. step. apply Hinside. eapply on_disk_write; [apply control_inode|intros k Hc|]; cbv zeta; rewrite control_write;
    (split; [apply Hsound; [|by repeat constructor]|]).
  { apply (Hfit (take k bytes) (length (take k bytes))); rewrite length_take; lia. }
  { cbn [map_err]. step. apply Hleft; [done| |by repeat constructor]. apply (Hfit (take k bytes) (length (take k bytes))); rewrite length_take; lia. }
  { by apply (Hfit bytes (length bytes)). }
  eapply inside_call; [apply sync_all_atomic|intros Hc; cbn [map_err]; step; apply Hleft; [done|by apply (Hfit bytes (length bytes))|by repeat constructor]|]. cbv beta. rewrite control_inode, control_write. cbv match.
  set (g := set_contents _ true _). assert (written g) as Hg.
  { split; [|done]. unfold private_file. cbn. by rewrite (proj1 Hown), (proj2 Hown). }
  pose proof (written_fits _ Hg) as Hgf. split; [apply Hsound; [done|by repeat constructor]|]. cbn [map_err].
  step. apply Hbarrier; [intros Hc e; step; apply Hleft; [done|done|by repeat constructor]|by apply sound_written|].
  step. eapply inside_call; [apply rename_atomic|intros Hc; cbn [map_err]; step; by apply Hleft|]. cbv beta.
  change (names (controls (Some false) [] g)) with (control_names (Some false)). rewrite control_next, decide_True by done. rewrite control_renamed.
  split; [by apply sound_written|]. cbn [map_err]. step. step. apply Hbarrier; [intros Hc e|by apply sound_written|]; step; eexists _, _, _; (split; [done|]).
  - split; [done|]. by exists g.
  - by exists g.
Qed.

(** A rollback ends with an error, and with nothing published. *)
Lemma roll_back_after role (created : bool) e s :
  (if created then ∃ was g, s = lift (controls (Some false) was g) ∧ fits g ∧ Forall unpublished_at was else s = lift no_control) →
  after calm control_sound (roll_back inside barrier NEXT created role e) (fun r _ => ∃ e, r = Err e) s.
Proof.
  intros Hs. unfold roll_back. step.
  assert (∀ removal s', s' = lift no_control ∨ (∃ p was g, s' = lift (controls p was g) ∧ fits g ∧ Forall unpublished_at (p :: was)) →
    after calm control_sound
      (settled ← attempt (barrier ("sync unpublished " ++ role ++ " rollback"));
       (let rollback_errors := removal ++ match settled with Ok _ => [] | Err error => [display_error error] end in
        if bool_decide (rollback_errors = []) then just (Err e)
        else just (Err (Internal (display_error e ++ lit "; " ++ lit role ++ lit " rollback also failed: " ++ joined rollback_errors)))))
      (fun r _ => ∃ e, r = Err (A := unit) e) s') as Hend.
  { intros removal s' Hs'. step. step.
    assert (∀ x s1, after calm control_sound
      (let rollback_errors := removal ++ match x : service unit with Ok _ => [] | Err error => [display_error error] end in
       if bool_decide (rollback_errors = []) then just (Err e)
       else just (Err (Internal (display_error e ++ lit "; " ++ lit role ++ lit " rollback also failed: " ++ joined rollback_errors))))
      (fun r _ => ∃ e, r = Err (A := unit) e) s1) as Hout by (intros; cbv zeta; case_bool_decide; step; by eexists).
    destruct Hs' as [->|(p & was & g & -> & Hfit & Hall)].
    - apply Hbarrier_first; [intros _ e1; exact (Hout (Err e1) _)|by left|exact (Hout (Ok tt) _)].
    - apply Hbarrier; [intros _ e1; exact (Hout (Err e1) _)|apply sound_unpublished; [done|inversion Hall; by repeat constructor]|exact (Hout (Ok tt) _)]. }
  destruct created; [|subst; step; apply Hend; by left]. destruct Hs as (was & g & -> & Hfit & Hall).
  assert (Forall unpublished_at (Some false :: was)) as Hall' by by constructor.
  step. step. eapply inside_call; [apply remove_file_atomic|intros _; cbv match; step; apply Hend; right; by exists (Some false), was, g|].
  cbv beta. change (names (controls (Some false) was g)) with (control_names (Some false)). rewrite control_next, decide_True by done. rewrite control_withdrawn.
  split; [apply sound_unpublished; [done|by constructor]|]. cbv match. step. apply Hend. right. exists None, (Some false :: was), g. split; [done|]. split; [done|]. by constructor.
Qed.

(** *** Reading it *)
Section Reading.
Context {A : Type} (role : string) (limit : Z) (of_json : str → option A) (is_its : A → bool) (intent : A).
Context (Hdecode : of_json bytes = Some intent) (Hits : is_its intent = true) (Hlimit : Z.of_nat (length bytes) <= limit).

Lemma read_nothing d S :
  names d !! FINAL = None →
  after calm S (read_control inside FINAL role limit of_json is_its) (fun r s => s = lift d ∧ (r = Ok None ∨ calm = false ∧ ∃ e, r = Err e)) (lift d).
Proof.
  intros Hn. unfold read_control. step. step. eapply inside_call; [apply open_nofollow_atomic|intros Hc; cbv match; step; eauto|].
  cbv beta. rewrite Hn. cbv match. step. eauto.
Qed.

Lemma written_private g : written g → private_within limit g = true ∧ file_type g = Regular.
Proof. intros (Hp & _ & Hb). split; [unfold private_within; rewrite Hp, Hb; by apply Z.leb_le|by apply regular]. Qed.

Lemma read_written was g S :
  written g →
  after calm S (read_control inside FINAL role limit of_json is_its)
    (fun r s => s = lift (controls (Some true) was g) ∧ (r = Ok (Some intent) ∨ calm = false ∧ ∃ e, r = Err e)) (lift (controls (Some true) was g)).
Proof.
  intros Hg. destruct (written_private g Hg) as [Hp Ht]. pose proof Hg as (_ & _ & Hb).
  unfold read_control. step. step. eapply inside_call; [apply open_nofollow_atomic|intros Hc; cbv match; step; eauto|].
  cbv beta. change (names (controls (Some true) was g)) with (control_names (Some true)). rewrite control_final, decide_True by done.
  cbv match. rewrite control_inode. cbv match. rewrite decide_False by by rewrite Ht. cbv match. step. unfold read_opened.
  step. step. eapply inside_call; [apply fstat_atomic|intros Hc; cbn [map_err]; eauto|]. cbv beta. rewrite control_inode. cbn [ok_or map_err]. rewrite Hp. cbn [negb].
  step. step. eapply inside_call; [apply read_to_end_atomic|intros Hc; cbn [map_err]; eauto|]. cbv beta. rewrite control_inode. cbn [fmap option_fmap option_map ok_or map_err].
  rewrite Nat.eqb_refl. cbn [negb]. step. step. step. rewrite Hb, Hdecode. cbn [ok_or]. rewrite Hits. cbn [negb]. step. eauto.
Qed.
End Reading.
End ControlFiles.

(** ** Crashes of a control file *)
Section ControlCrash.
Context (names0 : gmap str nat) (inodes0 : gmap nat Inode) (n nx : nat) (NEXT FINAL bytes : str).

Lemma survives_fits g g' : fits bytes g → survives g g' → fits bytes g' ∧ (written bytes g → written bytes g').
Proof.
  intros [Hp Hl] (Ht & Hm & Hu & Hg & Hs & Hsy & _).
  assert (private_file g' = true) as Hp' by (revert Hp; unfold private_file; by rewrite Ht, Hm, Hu, Hg).
  split; [split; [done|]|intros (_ & Hsyn & Hb)].
  - rewrite Hsy. destruct (file_synced g); [by rewrite Hs|lia].
  - rewrite Hsyn in Hs. split_and!; try done. by rewrite Hs.
Qed.

Lemma crash_controls p was g d' :
  crash (controls names0 inodes0 n nx NEXT FINAL p was g) d' → fits bytes g → Forall unpublished_at (p :: was) ∨ written bytes g →
  ∃ p' g', p' ∈ p :: was ∧ d' = controls names0 (inodes d') n (next_inode d') NEXT FINAL p' [] g' ∧ fits bytes g' ∧ file_synced g' = true ∧ (p' = Some true → written bytes g').
Proof.
  intros Hc Hfit Hor. pose proof Hc as (Hn & Hu & _). change (names d' ∈ map (control_names names0 n NEXT FINAL) (p :: was)) in Hn.
  apply list_elem_of_fmap in Hn as (p' & Hp & Hin).
  destruct (crash_inode _ _ n g Hc) as (g' & Hg' & Hsv); [apply control_inode|]. destruct (survives_fits g g' Hfit Hsv) as [Hf Hw].
  exists p', g'. split; [done|]. split; [|split; [done|split; [apply Hsv|]]].
  - destruct d'. unfold controls. cbn in *. subst. by rewrite insert_id.
  - intros ->. apply Hw. destruct Hor as [Hall|?]; [|done]. rewrite Forall_forall in Hall. by destruct (Hall _ Hin).
Qed.
End ControlCrash.

(** ** Deleting a session *)
Lemma intent_names id : delete_intent_next_name id ≠ delete_intent_name id.
Proof. unfold delete_intent_next_name. intros E. apply (f_equal length) in E. rewrite length_app in E. cbn in E. lia. Qed.

Section Deletions.
Context `{Process} `{Vocabulary} `{IntentCodec} `{Removal} (calm : bool) (id : str) (Hown : euid = 1000 ∧ egid = 1000).
Context (names0 : gmap str nat) (inodes0 : gmap nat Inode) (n nx : nat) (rr0 : Slot ResultDir) (rs0 : Slot Tree).
Abbreviation FINAL := (delete_intent_name id).
Abbreviation NEXT := (delete_intent_next_name id).
Context (HN : names0 !! NEXT = None) (HF : names0 !! FINAL = None) (Hnx : nx = Datatypes.S n).

Definition deleting : DeleteIntent := {| di_schema_version := 1; di_session_id := id |}.
Definition intent_bytes : str := delete_json deleting ++ [10].
(** An intent is read back from what is written. *)
Definition intent_readable : Prop := delete_of_json intent_bytes = Some deleting ∧ Z.of_nat (length intent_bytes) <= MAX_DELETE_INTENT_BYTES.


Abbreviation ctl := (controls names0 inodes0 n nx NEXT FINAL).
Definition placed (rr : Slot ResultDir) (rs : Slot Tree) (d : Disk) : Site := {| records := d; result_dir := rr; raw := rs |}.

Definition absent {A} (s : Slot A) : Prop := here s = None ∧ before s = [].
(** Whatever may be found of a slot. *)
Definition always {A} (P : A → Prop) (s : Slot A) : Prop := Forall (fun o => ∀ a, o = Some a → P a) (here s :: before s).
Definition tree_ok (t : Tree) : Prop := service_directory (root t) = true.
Definition result_ok (dir : ResultDir) : Prop := service_directory (result_meta dir) = true.

(** Every state of a deletion: nothing was touched; or the intent is durable; or
    the directories are gone. *)
Definition authorised (rr : Slot ResultDir) (rs : Slot Tree) : Prop := always result_ok rr0 → always tree_ok rs0 → always result_ok rr ∧ always tree_ok rs.
Definition deletable (x : Site) : Prop :=
  control_sound names0 inodes0 n nx NEXT FINAL (placed rr0 rs0) intent_bytes x ∨
  (∃ was g rr rs, x = placed rr rs (ctl (Some true) was g) ∧ Forall (eq (Some true)) was ∧ written intent_bytes g ∧ authorised rr rs) ∨
  (∃ p was g rr rs, x = placed rr rs (ctl p was g) ∧ written intent_bytes g ∧ absent rr ∧ absent rs).

Lemma placed_inside rr rs {A} (m : io IoError A) S Q d :
  on_disk calm d (fun d => S (placed rr rs d)) m (fun x d => Q x (placed rr rs d)) → after calm S (in_control_files m) Q (placed rr rs d).
Proof.
  intros Hm st x st' Hc Hs. unfold in_control_files, in_records. rewrite Hs. intros Hrun.
  by eapply (after_in_dir calm (placed rr rs d) d (fun d' => set_records d' (placed rr rs d))); [exact Hm|done|exact Hs|exact Hrun].
Qed.
Lemma placed_barrier rr rs context S Q p was g :
  before rr = [] → (calm = false → ∀ e, Q (Err e) (placed rr rs (ctl p was g))) → S (placed rr rs (ctl p [] g)) → Q (Ok tt) (placed rr rs (ctl p [] g)) →
  after calm S (sync_control_files context) Q (placed rr rs (ctl p was g)).
Proof.
  intros Hb Hfail HS HQ. assert (settle rr = rr) as Hset by (destruct rr; cbn in *; by rewrite Hb). unfold sync_control_files. step. eapply after_call; [intros; by apply Hfail|].
  cbn [placed records result_dir raw]. rewrite Hset. by split.
Qed.
Lemma placed_barrier_first rr rs context S Q :
  before rr = [] → (calm = false → ∀ e, Q (Err e) (placed rr rs (no_control names0 inodes0 n))) →
  S (placed rr rs (no_control names0 inodes0 n)) → Q (Ok tt) (placed rr rs (no_control names0 inodes0 n)) →
  after calm S (sync_control_files context) Q (placed rr rs (no_control names0 inodes0 n)).
Proof.
  intros Hb Hfail HS HQ. assert (settle rr = rr) as Hset by (destruct rr; cbn in *; by rewrite Hb). unfold sync_control_files. step. eapply after_call; [intros; by apply Hfail|].
  cbn [placed records result_dir raw]. rewrite Hset. by split.
Qed.

Lemma always_put {A} (P : A → Prop) s : always P s → always P (put None s).
Proof. intros Hs. unfold always. cbn. constructor; [done|exact Hs]. Qed.
Lemma always_settle {A} (P : A → Prop) s : always P s → always P (settle s).
Proof. intros Hs. apply Forall_cons in Hs as [? _]. by repeat constructor. Qed.
Lemma always_adjust {A} (P : A → Prop) a s : P a → always P s → always P (adjust a s).
Proof. intros Ha Hs. apply Forall_cons in Hs as [_ ?]. constructor; [by intros ? [= <-]|done]. Qed.
Lemma always_here {A} (P : A → Prop) s a : always P s → here s = Some a → P a.
Proof. intros Hs Ha. apply Forall_cons in Hs as [Hh _]. by apply Hh. Qed.

Lemma authorised_raw rr rs rs' : authorised rr rs → (always tree_ok rs → always tree_ok rs') → authorised rr rs'.
Proof. intros Ha Hr Hres Htree. destruct (Ha Hres Htree). auto. Qed.
Lemma authorised_result rr rr' rs : authorised rr rs → (always result_ok rr → always result_ok rr') → authorised rr' rs.
Proof. intros Ha Hr Hres Htree. destruct (Ha Hres Htree). auto. Qed.

Section Finishing.
Context (g : Inode) (Hg : written intent_bytes g) (Hread : intent_readable).
Abbreviation at_ := (fun rr rs => placed rr rs (ctl (Some true) [] g)).

Lemma deletable_authorised was rr rs : Forall (eq (Some true)) was → authorised rr rs → deletable (placed rr rs (ctl (Some true) was g)).
Proof. intros Hw Ha. right. left. by exists was, g, rr, rs. Qed.
Lemma deletable_absent p was rr rs : absent rr → absent rs → deletable (placed rr rs (ctl p was g)).
Proof. intros. right. right. by exists p, was, g, rr, rs. Qed.

Lemma raw_target_after rr rs :
  before rs = [] → authorised rr rs →
  after calm deletable (remove_exact_delete_target stat_raw remove_raw sync_sessions "raw session state")
    (fun r s => (r = Ok tt → ∃ rs', s = at_ rr rs' ∧ absent rs' ∧ authorised rr rs') ∧ (calm = true → always tree_ok rs → r = Ok tt)) (at_ rr rs).
Proof.
  intros Hb Ha. unfold remove_exact_delete_target. step. step. eapply after_call; [intros Hc; cbv match; step; split; [done|congruence]|].
  cbn [placed raw]. destruct (here rs) as [t|] eqn:Ht; cbn [fmap option_fmap option_map ok_or]; cbv match.
  2: { step. split; [|done]. intros _. exists rs. by split_and!. }
  destruct (service_directory (root t)) eqn:Hd; cbn [negb].
  2: { step. split; [done|]. intros _ Hall. pose proof (always_here _ _ _ Hall Ht) as Hok. unfold tree_ok in Hok. congruence. }
  step. step. apply remove_raw_at; cbn [placed raw]; [congruence|..].
  - intros t1 _. cbv zeta. change (set_raw (put None rs) (at_ rr rs)) with (at_ rr (put None rs)).
    assert (authorised rr (put None rs)) as Ha1 by (eapply authorised_raw; [done|apply always_put]).
    split; [by apply deletable_authorised|]. split; [|intros Hc; cbn [map_err]; split; [done|congruence]].
    cbn [map_err]. step. eapply after_call; [intros Hc; cbn [map_err]; split; [done|congruence]|].
    change (set_raw (settle (raw (at_ rr (put None rs)))) (at_ rr (put None rs))) with (at_ rr (settle (put None rs))).
    assert (authorised rr (settle (put None rs))) as Ha2 by (eapply authorised_raw; [done|apply always_settle]).
    split; [by apply deletable_authorised|]. cbn [map_err]. split; [|done]. intros _. exists (settle (put None rs)). by split_and!.
  - intros t1 t' Ht1 Hrem Hc. cbv zeta. change (set_raw (adjust t' rs) (at_ rr rs)) with (at_ rr (adjust t' rs)). split.
    + apply deletable_authorised; [done|]. eapply authorised_raw; [done|]. intros Hall. apply always_adjust; [|done].
      unfold tree_ok. rewrite (remains_root _ _ Hrem). by apply (always_here _ _ _ Hall Ht1).
    + cbn [map_err]. split; [done|congruence].
Qed.

Lemma result_target_after rr rs :
  before rr = [] → absent rs → authorised rr rs →
  after calm deletable (remove_exact_delete_target stat_result remove_result sync_records "terminal result directory")
    (fun r s => (r = Ok tt → ∃ rr', s = at_ rr' rs ∧ absent rr') ∧ (calm = true → always result_ok rr → r = Ok tt)) (at_ rr rs).
Proof.
  intros Hb Hrs Ha. unfold remove_exact_delete_target. step. step. eapply after_call; [intros Hc; cbv match; step; split; [done|congruence]|].
  cbn [placed result_dir]. destruct (here rr) as [dir|] eqn:Ht; cbn [fmap option_fmap option_map ok_or]; cbv match.
  2: { step. split; [|done]. intros _. exists rr. by split_and!. }
  destruct (service_directory (result_meta dir)) eqn:Hd; cbn [negb].
  2: { step. split; [done|]. intros _ Hall. pose proof (always_here _ _ _ Hall Ht) as Hok. unfold result_ok in Hok. congruence. }
  step. step. apply remove_result_at; cbn [placed result_dir]; [congruence|..].
  - intros dir1 _. cbv zeta. change (set_result (put None rr) (at_ rr rs)) with (at_ (put None rr) rs).
    assert (authorised (put None rr) rs) as Ha1 by (eapply authorised_result; [done|apply always_put]).
    split; [by apply deletable_authorised|]. cbn [map_err]. step. eapply after_call; [intros Hc; cbn [map_err]; split; [done|congruence]|].
    cbn [placed records result_dir raw names inodes next_inode controls].
    split; [apply (deletable_authorised [] (settle (put None rr)) rs); [done|]; eapply authorised_result; [exact Ha1|apply always_settle]|].
    cbn [map_err]. split; [|done]. intros _. by exists (settle (put None rr)).
  - intros dir1 d Hd1 Hc. cbv zeta. split.
    + apply (deletable_authorised [] (adjust {| result_meta := result_meta dir1; result_files := d |} rr) rs); [done|].
      eapply authorised_result; [done|]. intros Hall. apply always_adjust; [|done]. apply (always_here _ _ _ Hall Hd1).
    + cbn [map_err]. split; [done|congruence].
Qed.

Lemma read_deletion rr rs was S :
  after calm S (read_delete_intent id)
    (fun r s => s = placed rr rs (ctl (Some true) was g) ∧ (r = Ok (Some deleting) ∨ calm = false ∧ ∃ e, r = Err e)) (placed rr rs (ctl (Some true) was g)).
Proof.
  apply (read_written calm names0 inodes0 n nx NEXT FINAL (intent_names id) HF (@in_control_files) (placed rr rs)) with (bytes := intent_bytes);
    [intros; by apply placed_inside|exact (proj1 Hread)| |exact (proj2 Hread)|exact Hg].
  unfold is_delete_of. cbn. by rewrite bool_decide_eq_true_2.
Qed.

Lemma finish_deletion_after rr rs :
  before rr = [] → before rs = [] → authorised rr rs →
  after calm deletable (finish_delete_intent id)
    (fun r s => (r = Ok tt → ∃ rr' rs', s = placed rr' rs' (ctl None [] g) ∧ absent rr' ∧ absent rs') ∧
       (calm = true → always result_ok rr → always tree_ok rs → r = Ok tt)) (at_ rr rs).
Proof.
  intros Hbr Hbs Ha. unfold finish_delete_intent. step. eapply after_mono; [apply read_deletion|].
  intros r1 s1 (-> & [->|(Hc & e & ->)]); [|split; [done|congruence]]. step. step. cbn [ok_or]. step. eapply after_mono; [by apply raw_target_after|].
  intros r2 s2 [Hr2 Hc2]. destruct r2 as [[]|e]; [|split; [done|]; intros Hc _ Ht; by specialize (Hc2 Hc Ht)].
  destruct (Hr2 eq_refl) as (rs' & -> & Hrs & Ha2). step. eapply after_mono; [by apply result_target_after|].
  intros r3 s3 [Hr3 Hc3]. destruct r3 as [[]|e]; [|split; [done|]; intros Hc Hres _; by specialize (Hc3 Hc Hres)].
  destruct (Hr3 eq_refl) as (rr' & -> & Hrr). step. step. eapply placed_inside, on_disk_atomic; [apply remove_file_atomic|intros Hc; cbn [map_err]; split; [done|congruence]|].
  cbv beta. change (names (ctl (Some true) [] g)) with (control_names names0 n NEXT FINAL (Some true)).
  rewrite (control_final names0 n NEXT FINAL (intent_names id) HF), decide_True by done. rewrite (control_removed names0 inodes0 n nx NEXT FINAL HF).
  split; [by apply deletable_absent|]. cbn [map_err]. apply placed_barrier; [apply Hrr|intros Hc e; split; [done|congruence]|by apply deletable_absent|].
  split; [|done]. intros _. by exists rr', rs'.
Qed.
End Finishing.

(** *** The intent, then the deletion *)
Context (Hread : intent_readable) (Hrr : before rr0 = []) (Hrs : before rs0 = []).
Abbreviation start := (placed rr0 rs0 (no_control names0 inodes0 n)).

Lemma deletable_sound x : control_sound names0 inodes0 n nx NEXT FINAL (placed rr0 rs0) intent_bytes x → deletable x.
Proof. by left. Qed.
Lemma after_weaken {E A} (S S' : Site → Prop) (m : op E A) Q s : (∀ x, S x → S' x) → after calm S m Q s → after calm S' m Q s.
Proof.
  intros HS Hm st r st' Hc Hs Hrun. destruct (Hm st r st' Hc Hs Hrun) as (Hw & ? & ?). split_and!; [|done|done]. by eapply went_mono.
Qed.

Lemma persist_deletion_after :
  after calm deletable (persist_delete_intent id)
    (fun r s => (r = Ok tt → ∃ g, s = placed rr0 rs0 (ctl (Some true) [] g) ∧ written intent_bytes g) ∧ (calm = true → r = Ok tt)) start.
Proof.
  pose proof (fun A => @placed_inside rr0 rs0 A) as Hin. pose proof (fun context S Q p was g => placed_barrier rr0 rs0 context S Q p was g Hrr) as Hbar.
  pose proof (fun context S Q => placed_barrier_first rr0 rs0 context S Q Hrr) as Hbar0.
  unfold persist_delete_intent. step. eapply after_mono; [by apply (read_nothing calm FINAL (@in_control_files) (placed rr0 rs0) Hin)|].
  intros r1 s1 (-> & [->|(Hc & e & ->)]); [|split; [done|congruence]]. change (presence (@None DeleteIntent)) with false. cbv match.
  step. unfold candidate_at. step. step. eapply Hin, on_disk_atomic; [apply symlink_metadata_atomic|intros Hc; cbv match; step; split; [done|congruence]|].
  cbv beta. unfold lookup_name. cbn [no_control names]. rewrite HN. cbn [mbind option_bind ok_or]. cbv match. step.
  change (presence (@None Inode)) with false. cbv match. cbv zeta. step. eapply after_mono.
  { eapply after_weaken; [exact deletable_sound|].
    by apply (publish_after calm names0 inodes0 n nx NEXT FINAL (intent_names id) HN Hnx (@in_control_files) sync_control_files (placed rr0 rs0) Hin Hbar intent_bytes Hown). }
  intros r2 s2 (answer & created & published & -> & Hend). cbv beta match. destruct answer as [[]|first_error].
  - destruct Hend as (g & -> & Hg). step. split; [|done]. intros _. by exists g.
  - unfold after_failed_deletion_intent. destruct published; destruct Hend as [Hc Hend].
    + destruct Hend as (g & -> & Hg). step. eapply after_mono; [by apply read_deletion|]. intros r3 s3 (-> & [->|(_ & e & ->)]); [|split; [done|congruence]].
      change (presence (Some deleting)) with true. cbv match. step. step.
      assert (deletable (placed rr0 rs0 (ctl (Some true) [] g))) as Hd by by apply deletable_authorised.
      apply Hbar; [intros _ e; step; split; [done|congruence]|done|]. step. split; [|done]. intros _. by exists g.
    + assert (∀ s3 (r3 : service unit), (∃ e, r3 = Err e) → (r3 = Ok tt → ∃ g, s3 = placed rr0 rs0 (ctl (Some true) [] g) ∧ written intent_bytes g) ∧ (calm = true → r3 = Ok tt)) as Hout
        by (intros s3 r3 [e ->]; split; [done|congruence]).
      assert (∃ d, s2 = placed rr0 rs0 d ∧ names d !! FINAL = None) as (d & Hs2 & Hd).
      { destruct created; [destruct Hend as (was & g & -> & _)|rewrite Hend]; eexists; (split; [done|]); [|done].
        change (control_names names0 n NEXT FINAL (Some false) !! FINAL = None). by rewrite (control_final names0 n NEXT FINAL (intent_names id) HF). }
      step. rewrite Hs2. eapply after_mono; [by apply (read_nothing calm FINAL (@in_control_files) (placed rr0 rs0) Hin)|].
      intros r3 s3 (-> & [->|(_ & e & ->)]); [|split; [done|congruence]]. change (presence (@None DeleteIntent)) with false. cbv match. rewrite <-Hs2.
      eapply after_mono; [|intros r4 s4; apply Hout]. eapply after_weaken; [exact deletable_sound|].
      by apply (roll_back_after calm names0 inodes0 n nx NEXT FINAL (intent_names id) HN (@in_control_files) sync_control_files (placed rr0 rs0) Hin Hbar Hbar0).
Qed.

(** *** The request *)
Context `{ProgressCodec} `{RecordCodec} (cfg : Config).

Definition reads_as {A} (m : op ServiceError A) (s : Site) (a : A) : Prop := ∀ st, site st = s → site_faults st = [] → (m st).1 = Ok a.
(** The session is over, and what is kept of its tree is accounted for. *)
Definition erasable (held : Held) (s : Site) : Prop :=
  held_running held = false ∧ ∃ b t, reads_as (get_unfenced cfg held id) s b ∧ sb_status b ≠ Running ∧ sb_terminal b = Some t ∧
    (tl_raw_session_tree_retained t = true → reads_as (validate_delete_state_marker cfg b) s tt).

Lemma deletion_after held :
  after calm deletable (delete_server_owned cfg held id)
    (fun r s => ((∃ h, r = Ok h) → ∃ g rr rs, s = placed rr rs (ctl None [] g) ∧ absent rr ∧ absent rs) ∧
       (calm = true → is_safe_session_id id = true → erasable held start → always result_ok rr0 → always tree_ok rs0 → ∃ h, r = Ok h)) start.
Proof.
  lazymatch goal with |- after _ _ _ ?Q _ => set (Post := Q) end.
  assert (∀ e s, (calm = true → is_safe_session_id id = true → ¬ erasable held start) → Post (Err e) s) as Hno.
  { intros e s Hno. split; [by intros []|]. intros Hc Hsafe He. by destruct (Hno Hc Hsafe). }
  unfold delete_server_owned. destruct (held_running held) eqn:Hrun; [step; apply Hno; intros _ _ [? _]; congruence|].
  destruct (is_safe_session_id id); cbn [negb]; [|step; by apply Hno]. cbv zeta. step. unfold delete_intent_exists, exists_at. step. step.
  eapply placed_inside, on_disk_atomic; [apply symlink_metadata_atomic|intros Hc; cbv match; step; apply Hno; congruence|].
  cbv beta. unfold lookup_name. cbn [no_control names]. rewrite HF. cbn [mbind option_bind ok_or]. cbv match. step. cbv match.
  step. apply after_reader.
  { unfold get_unfenced. destruct (held_unpersisted held); [apply reader_ret|apply terminal_reader]. }
  intros st Hst Hc. destruct (get_unfenced cfg held id st).1 as [b|e] eqn:Hget.
  2: { apply Hno. intros Hcm _ (_ & b & t & Hb & _). specialize (Hb st Hst (Hc Hcm)). congruence. }
  assert (∀ e s, (calm = true → ¬ (sb_status b ≠ Running ∧ ∃ t, sb_terminal b = Some t ∧ (tl_raw_session_tree_retained t = true → reads_as (validate_delete_state_marker cfg b) start tt))) → Post (Err e) s) as Hnob.
  { intros e s Hn. apply Hno. intros Hcm _ (_ & b' & t & Hb & ? & ? & ?). specialize (Hb st Hst (Hc Hcm)). rewrite Hget in Hb. injection Hb as <-. apply (Hn Hcm). eauto. }
  case_bool_decide as Hstatus; [step; apply Hnob; by intros _ []|]. step. step. unfold terminal_of. destruct (sb_terminal b) as [t|] eqn:Ht; cbn [ok_or].
  2: { apply Hnob. intros _ (_ & ? & ? & _). congruence. }
  assert (∀ Q, (∀ r, (r = Ok tt ∨ Post (Err (default (Internal []) (match r with Err e => Some e | Ok _ => None end))) start ∧ r ≠ Ok tt) → Q r start) →
    after calm deletable (if tl_raw_session_tree_retained t then validate_delete_state_marker cfg b else mret tt) Q start) as Hmark.
  { intros Q HQ. destruct (tl_raw_session_tree_retained t) eqn:Hret; [|step; apply HQ; by left]. apply after_reader; [apply marker_reader|].
    intros st1 Hst1 Hc1. apply HQ. destruct (validate_delete_state_marker cfg b st1).1 as [[]|e] eqn:Hm; [by left|]. right. split; [|done]. apply Hnob.
    intros Hcm (_ & t' & Ht' & Hr). assert (t' = t) as -> by congruence. specialize (Hr Hret st1 Hst1 (Hc1 Hcm)). congruence. }
  step. apply Hmark. intros r1 Hr1. destruct r1 as [[]|e]; [|destruct Hr1 as [?|[HP _]]; [done|exact HP]].
  step. eapply after_mono; [apply persist_deletion_after|]. intros r2 s2 [Hr2 Hc2]. destruct r2 as [[]|e]; [|apply Hno; intros Hcm; by specialize (Hc2 Hcm)].
  destruct (Hr2 eq_refl) as (g & -> & Hg). step. eapply after_mono; [apply finish_deletion_after; try done; by intros ? ?|].
  intros r3 s3 [Hr3 Hc3]. destruct r3 as [[]|e]; [step|]; (split; [|intros Hcm _ _ Hres Htree; specialize (Hc3 Hcm Hres Htree)]); try done.
  - intros _. destruct (Hr3 eq_refl) as (rr & rs & ? & ? & ?). by exists g, rr, rs.
  - by eexists.
  - by intros [].
Qed.

(** *** Crashes *)
Lemma always_crash {A} (P : A → Prop) (R old : A → A → Prop) s s' :
  (∀ a a', R a a' → P a → P a') → (∀ a a', old a a' → P a → P a') → always P s → crash_slot R old s s' → always P s'.
Proof.
  intros HR Hold Hs (Hb & Hc). unfold always. rewrite Hb. constructor; [|done]. intros a' Ha'.
  destruct Hc as [(a & a1 & Ha & Ha1 & Hr)|[[_ ?]|[[_ ?]|(a & a1 & Hin & Ha1 & Ho)]]]; [|congruence..|]; (assert (a1 = a') as -> by congruence).
  - apply (HR a); [done|]. by apply (always_here _ _ _ Hs).
  - apply (Hold a); [done|]. apply Forall_cons in Hs as [_ Hs]. rewrite Forall_forall in Hs. by apply (Hs _ Hin).
Qed.

Lemma absent_crash {A} (R old : A → A → Prop) s s' : absent s → crash_slot R old s s' → absent s'.
Proof.
  intros [Hh Hb] (Hb' & [(? & ? & ? & _)|[[_ ?]|[[Hin _]|(? & ? & Hin & _)]]]); [congruence|done|..]; rewrite Hb in Hin; by apply elem_of_nil in Hin.
Qed.

(** What a crash alone leaves of the directories. *)
Definition untouched (rr : Slot ResultDir) (rs : Slot Tree) (x' : Site) : Prop :=
  crash_slot crash_result (fun r r' => result_meta r' = result_meta r ∧ quiet_disk (result_files r')) rr (result_dir x') ∧
  crash_slot crash_tree comes_back rs (raw x').
Definition erased (x : Site) : Prop := absent (result_dir x) ∧ absent (raw x).

(** What is found after a crash of a deletion. *)
Record found (x' : Site) : Prop := {
  found_records : let d := records x' in
    d = no_control names0 (inodes d) n ∨
    ∃ p g, d = controls names0 (inodes d) n (next_inode d) NEXT FINAL p [] g ∧ fits intent_bytes g ∧ file_synced g = true ∧ (p = Some true → written intent_bytes g);
  found_outcome : is_Some (names (records x') !! FINAL) ∨ untouched rr0 rs0 x' ∨ erased x';
  found_result : before (result_dir x') = [] ∧ before (raw x') = [];
  found_owned : always result_ok rr0 → always tree_ok rs0 → always result_ok (result_dir x') ∧ always tree_ok (raw x');
}.

Lemma deletable_crash x x' : deletable x → crash_site x x' → found x'.
Proof.
  intros Hx [Hrec Hres Hraw].
  assert (before (result_dir x') = [] ∧ before (raw x') = []) as Hbefore by (split; [apply Hres|apply Hraw]).
  assert (∀ rr rs, result_dir x = rr → raw x = rs → authorised rr rs →
    always result_ok rr0 → always tree_ok rs0 → always result_ok (result_dir x') ∧ always tree_ok (raw x')) as Howned.
  { intros rr rs <- <- Ha Hr0 Ht0. destruct (Ha Hr0 Ht0) as [Hr Ht]. split.
    - eapply always_crash; [| |exact Hr|exact Hres]; unfold result_ok; intros a a' [-> _]; done.
    - eapply always_crash; [| |exact Ht|exact Hraw]; unfold tree_ok; intros a a' [-> _]; done. }
  assert (authorised rr0 rs0) as Ha0 by (intros ? ?; done).
  destruct Hx as [[->|(p & was & g & -> & Hfit & Hor)]|[(was & g & rr & rs & -> & Hall & Hg & Ha)|(p & was & g & rr & rs & -> & Hg & Hrr' & Hrs')]].
  - constructor; [|right; left; by split|done|by apply (Howned rr0 rs0)]. left. destruct Hrec as (Hn & Hu & Hnext & _). apply list_elem_of_singleton in Hn.
    destruct (records x'). cbn in *. by subst.
  - destruct (crash_controls _ _ _ _ _ _ _ _ _ _ _ Hrec Hfit Hor) as (p' & g' & Hin & Hd & Hfit' & Hsy' & Hw).
    constructor; [right; by exists p', g'|right; left; by split|done|by apply (Howned rr0 rs0)].
  - destruct (crash_controls _ _ _ _ _ _ _ _ _ _ _ Hrec (written_fits _ _ Hg) (or_intror Hg)) as (p' & g' & Hin & Hd & Hfit' & Hsy' & Hw).
    constructor; [right; by exists p', g'| |done|by apply (Howned rr rs)]. left. rewrite Hd. assert (p' = Some true) as ->.
    { apply elem_of_cons in Hin as [->|Hin]; [done|]. rewrite Forall_forall in Hall. by rewrite (Hall _ Hin). }
    eexists. by apply (control_final names0 n NEXT FINAL (intent_names id) HF (Some true)).
  - destruct (crash_controls _ _ _ _ _ _ _ _ _ _ _ Hrec (written_fits _ _ Hg) (or_intror Hg)) as (p' & g' & Hin & Hd & Hfit' & Hsy' & Hw).
    constructor; [right; by exists p', g'| |done|].
    + right. right. split; [by eapply absent_crash|by eapply absent_crash].
    + intros _ _. destruct (absent_crash _ _ _ _ Hrr' Hres) as [Hh Hb], (absent_crash _ _ _ _ Hrs' Hraw) as [Hh' Hb'].
      unfold always. rewrite Hh, Hb, Hh', Hb'. split; by repeat constructor.
Qed.
End Deletions.

(** ** The next start *)
Section NextStart.
Context `{Process} `{Vocabulary} `{IntentCodec} `{Removal} (id : str).
Context (names0 : gmap str nat) (inodes0 : gmap nat Inode) (n nx : nat).
Abbreviation FINAL := (delete_intent_name id).
Abbreviation NEXT := (delete_intent_next_name id).
Context (HN : names0 !! NEXT = None) (HF : names0 !! FINAL = None) (Hread : intent_readable id).
Abbreviation ctl := (controls names0 inodes0 n nx NEXT FINAL).

Lemma reconcile_after g rr rs :
  fits (intent_bytes id) g → file_synced g = true → before rr = [] →
  after true (fun _ => True) (reconcile_unpublished_delete_intent id)
    (fun r s => r = Ok tt ∧ s = placed rr rs (ctl None [] g)) (placed rr rs (ctl (Some false) [] g)).
Proof.
  intros [Hp Hl] Hsy Hb. rewrite Hsy in Hl. pose proof (fun A => @placed_inside true rr rs A) as Hin. pose proof (intent_names id) as Hdiff.
  unfold reconcile_unpublished_delete_intent, candidate_at. step. step. step. eapply Hin, on_disk_atomic; [apply symlink_metadata_atomic|done|]. cbv beta.
  unfold lookup_name. change (names (ctl (Some false) [] g)) with (control_names names0 n NEXT FINAL (Some false)).
  rewrite (control_next names0 n NEXT FINAL Hdiff HN), decide_True by done. cbn [mbind option_bind]. rewrite control_inode. cbn [ok_or]. cbv match. step. cbv match.
  step. unfold discard_candidate.
  assert (private_within MAX_DELETE_INTENT_BYTES g = true) as ->.
  { unfold private_within. rewrite Hp. apply Z.leb_le. destruct Hread as [_ Hlim]. unfold MAX_DELETE_INTENT_BYTES in *.
    lia. }
  cbn [negb]. step. step. step. step. eapply Hin, on_disk_atomic; [apply remove_file_atomic|done|]. cbv beta.
  change (names (ctl (Some false) [] g)) with (control_names names0 n NEXT FINAL (Some false)).
  rewrite (control_next names0 n NEXT FINAL Hdiff HN), decide_True by done. rewrite (control_withdrawn names0 inodes0 n nx NEXT FINAL HN). split; [done|]. cbn [map_err].
  apply placed_barrier; [done|done|done|]. step. unfold delete_intent_exists, exists_at. step. step.
  eapply Hin, on_disk_atomic; [apply symlink_metadata_atomic|done|]. cbv beta. unfold lookup_name.
  change (names (ctl None [] g)) with names0. rewrite HF. cbn [mbind option_bind ok_or]. cbv match. step. cbv match. by step.
Qed.
End NextStart.

(** ** Theorems of the deletion *)
Section DeletionTheorems.
Context `{Process} `{ProgressCodec} `{Vocabulary} `{RecordCodec} `{IntentCodec} `{Removal} (cfg : Config).

(** No intent of the session, and nothing that waits for a barrier. *)
Record undeleted (id : str) (s : Site) : Prop := {
  undeleted_records : unsynced (records s) = [];
  undeleted_next : names (records s) !! delete_intent_next_name id = None;
  undeleted_final : names (records s) !! delete_intent_name id = None;
  undeleted_result : before (result_dir s) = [];
  undeleted_raw : before (raw s) = [];
}.
Definition named (name : str) (s : Site) : bool := presence (names (records s) !! name).
(** What there is of the session is the service's. *)
Definition owned (s : Site) : Prop := always result_ok (result_dir s) ∧ always tree_ok (raw s).

Lemma undeleted_stage id s : undeleted id s → s = placed (result_dir s) (raw s) (no_control (names (records s)) (inodes (records s)) (next_inode (records s))).
Proof. intros [Hu _ _ _ _]. destruct s as [[ns ins nx us] rr rs]. cbn in *. by subst. Qed.



(** C10: wherever a crash cuts a deletion short, whatever had failed before, the next start of the service succeeds in
    ending it: an intent that was published is carried out, both directories gone for good; a candidate that was not is
    discarded, and the directories are left as they are found; and no intent of the session remains. *)
Theorem deletion_resumes id held st r st' x x' ts' :
  euid = 1000 → egid = 1000 → intent_readable id → undeleted id (site st) → owned (site st) →
  delete_server_owned cfg held id st = (r, st') → x ∈ drop (length (past st)) (past st') → crash_site x x' →
  let '(r, st) := recover_deletion id (named (delete_intent_next_name id) x') (named (delete_intent_name id) x') (undisturbed x' ts') in
  r = Ok tt ∧ undeleted id (site st) ∧
  (if named (delete_intent_name id) x' then erased (site st) else result_dir (site st) = result_dir x' ∧ raw (site st) = raw x').
Proof.
  intros Hu Hg Hread Hrest [Hor Hot] Hrun Hx Hc. pose proof Hrest as [_ HN HF Hrr Hrs].
  set (names0 := names (records (site st))) in *. set (n := next_inode (records (site st))) in *.
  destruct (deletion_after false id (conj Hu Hg) names0 (inodes (records (site st))) n (S n) (result_dir (site st)) (raw (site st)) HN HF eq_refl Hread Hrr Hrs cfg held st r st')
    as ((xs & Hp & Hall) & _ & _); [done|by apply (undeleted_stage id)|done|].
  rewrite Hp, drop_app_length in Hx. rewrite Forall_forall in Hall. specialize (Hall x Hx).
  destruct (deletable_crash id names0 (inodes (records (site st))) n (S n) (result_dir (site st)) (raw (site st)) HF x x' Hall Hc) as [Hd _ [Hbr Hbs] Hown].
  destruct (Hown Hor Hot) as [Hor' Hot']. cbv zeta in Hd.
  assert (∀ p g, records x' = controls names0 (inodes (records x')) n (next_inode (records x')) (delete_intent_next_name id) (delete_intent_name id) p [] g →
    named (delete_intent_next_name id) x' = bool_decide (p = Some false) ∧ named (delete_intent_name id) x' = bool_decide (p = Some true)) as Hnamed.
  { intros p g E. unfold named. rewrite E. change (names (controls _ _ _ _ _ _ p [] g)) with (control_names names0 n (delete_intent_next_name id) (delete_intent_name id) p).
    rewrite (control_next names0 n (delete_intent_next_name id) (delete_intent_name id) (intent_names id) HN), (control_final names0 n (delete_intent_next_name id) (delete_intent_name id) (intent_names id) HF).
    destruct p as [[]|]; done. }
  assert (named (delete_intent_next_name id) x' = false → named (delete_intent_name id) x' = false → names (records x') = names0 → unsynced (records x') = [] →
    let '(r, st1) := recover_deletion id (named (delete_intent_next_name id) x') (named (delete_intent_name id) x') (undisturbed x' ts') in
    r = Ok tt ∧ undeleted id (site st1) ∧ (if named (delete_intent_name id) x' then erased (site st1) else result_dir (site st1) = result_dir x' ∧ raw (site st1) = raw x')) as Hidle.
  { intros -> -> Hn Hun. cbn. split; [done|]. split; [|done]. split; cbn; rewrite ?Hn; done. }
  destruct Hd as [Hd|(p & g & Hd & Hfit & Hsy & Hw)].
  { apply Hidle; unfold named; rewrite Hd; cbn [no_control names unsynced]; rewrite ?HN, ?HF; done. }
  destruct (Hnamed p g Hd) as [Hnext Hfinal].
  assert (x' = placed (result_dir x') (raw x') (controls names0 (inodes (records x')) n (next_inode (records x')) (delete_intent_next_name id) (delete_intent_name id) p [] g)) as Hstage.
  { destruct x' as [rec rr rs]. unfold placed. cbn in *. by rewrite <-Hd. }
  destruct p as [[]|].
  - destruct (Hnamed (Some true) g Hd) as [-> ->]. rewrite bool_decide_eq_false_2, bool_decide_eq_true_2 by done.
    pose proof (undisturbed_after _ _ _ _ ts' (finish_deletion_after true id names0 (inodes (records x')) n (next_inode (records x')) (result_dir x') (raw x') HF
      g (Hw eq_refl) Hread (result_dir x') (raw x') Hbr Hbs (fun _ _ => conj Hor' Hot'))) as Hfin.
    rewrite <-Hstage in Hfin.
    change (recover_deletion id false true (undisturbed x' ts')) with (finish_delete_intent id (undisturbed x' ts')).
    destruct (finish_delete_intent id (undisturbed x' ts')) as [r1 st1]. cbn [fst snd] in Hfin. destruct Hfin as [Hr1 Hok]. specialize (Hok eq_refl Hor' Hot').
    destruct (Hr1 Hok) as (rr & rs & Hs & [Ha Hb] & [Ha' Hb']). split; [done|]. rewrite Hs. split; [|done]. by split.
  - destruct (Hnamed (Some false) g Hd) as [-> ->]. rewrite bool_decide_eq_true_2, bool_decide_eq_false_2 by done.
    pose proof (undisturbed_after _ _ _ _ ts' (reconcile_after id names0 (inodes (records x')) n (next_inode (records x')) HN HF Hread g (result_dir x') (raw x') Hfit Hsy Hbr)) as Hrec.
    rewrite <-Hstage in Hrec. unfold recover_deletion, mbind, op_bind.
    destruct (reconcile_unpublished_delete_intent id (undisturbed x' ts')) as [r1 st1]. cbn [fst snd] in Hrec. destruct Hrec as [-> Hs]. cbn. rewrite Hs.
    split; [done|]. split; [|done]. by split.
  - apply Hidle; [by rewrite Hnext|by rewrite Hfinal|by rewrite Hd|by rewrite Hd].
Qed.
End DeletionTheorems.

(** ** A deletion *)
Module DeletionDemo.
Import Endings.Demo.

(** The intents of this service: of one session. *)
Definition demo_intents : IntentCodec := {|
  cancel_json := fun _ => lit "cancel";
  cancel_of_json := fun _ => None;
  delete_json := fun i => lit "delete:" ++ di_session_id i;
  delete_of_json := fun s => rest ← strip_prefix (lit "delete:") s; session_id ← strip_suffix [10] rest; Some {| di_schema_version := 1; di_session_id := session_id |};
|}.

#[local] Existing Instance demo_process.
#[local] Existing Instance demo_contract.
#[local] Existing Instance demo_vocabulary.
#[local] Existing Instance demo_codec.
#[local] Existing Instance demo_progress.
#[local] Existing Instance demo_removal.
#[local] Existing Instance demo_intents.

(** A session that has ended with its raw tree retained. *)
Definition ended : Site := site (demo_run half_removed).2.
Definition nothing_held : Held := {| held_running := false; held_unpersisted := None |}.
Definition deletion (fs : list Fault) : service Held * State :=
  delete_server_owned demo_config nothing_held demo_id {| site := ended; site_faults := fs; site_clock := []; past := [] |}.
Definition trace (fs : list Fault) : list (bool * bool * bool * bool) :=
  map (fun s => (named (delete_intent_next_name demo_id) s, named (delete_intent_name demo_id) s, presence (here (raw s)), presence (here (result_dir s)))) (past (deletion fs).2).
Example a_deletion : is_ok (deletion []).1 = true ∧ trace [] =
  repeat (true, false, true, true) 4 ++ repeat (false, true, true, true) 2 ++ repeat (false, true, false, true) 2 ++
  repeat (false, true, false, false) 2 ++ repeat (false, false, false, false) 2.
Proof. split; vm_compute; reflexivity. Qed.

Lemma demo_readable_intent : intent_readable demo_id.
Proof. split; vm_compute; [reflexivity|discriminate]. Qed.
Lemma ended_undeleted : undeleted demo_id ended.
Proof. split; vm_compute; reflexivity. Qed.

(** Both barriers of the publication fail: the intent is visible, and may yet be lost. *)
Definition barriers_fail : list Fault := repeat Succeeds 27 ++ [Fails 0] ++ repeat Succeeds 3 ++ [Fails 0].
Definition repeated : service Held * State := delete_server_owned demo_config nothing_held demo_id (undisturbed (site (deletion barriers_fail).2) []).
(** A crash that brings back the names the records directory had at its last barrier,
    and finds the rest as it is, without the raw tree. *)
Definition oldest (d : Disk) : gmap str nat := default (names d) (last (unsynced d)).
Definition forgetting (s : Site) : Site :=
  {| records := {| names := oldest (records s); inodes := inodes (records s); next_inode := next_inode (records s); unsynced := [] |};
     result_dir := result_dir (brought None s); raw := {| here := None; before := [] |} |}.
Definition raw_removed : Site := default ended (past repeated.2 !! 1%nat).
Definition lost : Site := forgetting raw_removed.
Definition recovered : service unit * State :=
  recover_deletion demo_id (named (delete_intent_next_name demo_id) lost) (named (delete_intent_name demo_id) lost) (undisturbed lost []).
Definition once_more : service Held * State := delete_server_owned demo_config nothing_held demo_id (undisturbed (site recovered.2) []).

Definition settled_file (f : Inode) : Prop := file_synced f = true ∧ reach f = length (contents f).
Lemma found_again d ns : map_Forall (fun _ f => settled_file f) (inodes d) → ns ∈ names d :: unsynced d →
  crash d {| names := ns; inodes := inodes d; next_inode := next_inode d; unsynced := [] |}.
Proof.
  intros Hall Hns. split_and!; [done..|]. intros i. cbn [inodes]. destruct (inodes d !! i) eqn:Hf; [|done].
  destruct (Hall _ _ Hf). by apply survives_synced.
Qed.
Lemma forgetting_crash dir s :
  map_Forall (fun _ f => settled_file f) (inodes (records s)) → here (result_dir s) = Some dir → map_Forall (fun _ f => settled_file f) (inodes (result_files dir)) →
  here (raw s) = None → crash_site s (forgetting s).
Proof.
  intros Hrec Hd Hdir Hraw. split.
  - apply found_again; [done|]. unfold oldest. destruct (last (unsynced (records s))) as [ns|] eqn:Hl; [right; by apply last_Some_elem_of|left].
  - split; [done|]. left. eexists dir, _. split; [done|]. cbn [forgetting brought result_dir here]. rewrite Hd. split; [done|]. split; [done|].
    apply found_again; [done|left].
  - split; [done|]. right. left. done.
Qed.
Lemma lost_crash : crash_site raw_removed lost.
Proof. eapply forgetting_crash; [..|vm_compute; reflexivity]; [|vm_compute; reflexivity|]; apply (bool_decide_eq_true_1 _); vm_compute; reflexivity. Qed.

(** A deletion goes on under an intent that a crash can still take away: the raw tree
    is gone for good, the result directory remains, and the session can be neither
    read nor deleted. *)
Example deletion_under_lost_intent :
  is_ok (deletion barriers_fail).1 = false ∧ repeated.1 = Ok nothing_held ∧ absent (raw raw_removed) ∧ crash_site raw_removed lost ∧
  recovered.1 = Ok tt ∧ (read_terminal demo_config demo_id recovered.2).1 = internal "terminal claims retained raw evidence but its state tree is absent" ∧
  is_ok once_more.1 = false ∧ presence (here (result_dir (site once_more.2))) = true.
Proof. refine (conj _ (conj _ (conj (conj _ _) (conj lost_crash (conj _ (conj _ (conj _ _))))))); vm_compute; reflexivity. Qed.

(** The deletion that meets no fault but the first barrier's is carried out; where a
    crash cuts it short, the next start of the service ends it. *)
Definition first_barrier_fails : list Fault := repeat Succeeds 27 ++ [Fails 0].
Definition raw_going : Site := default ended (past (deletion first_barrier_fails).2 !! 6%nat).
Definition cut : Site := forgetting raw_going.
Lemma cut_crash : crash_site raw_going cut.
Proof. eapply forgetting_crash; [..|vm_compute; reflexivity]; [|vm_compute; reflexivity|]; apply (bool_decide_eq_true_1 _); vm_compute; reflexivity. Qed.
Lemma ended_owned : owned ended.
Proof.
  split; (constructor; [|by vm_compute]); intros a Ha.
  - apply (f_equal (fmap (fun dir => service_directory (result_meta dir)))) in Ha. vm_compute in Ha. by injection Ha.
  - apply (f_equal (fmap (fun t => service_directory (root t)))) in Ha. vm_compute in Ha. by injection Ha.
Qed.
Lemma deletion_run fs :
  delete_server_owned demo_config nothing_held demo_id {| site := ended; site_faults := fs; site_clock := []; past := [] |} = ((deletion fs).1, (deletion fs).2).
Proof. unfold deletion. by destruct (delete_server_owned _ _ _ _). Qed.


Lemma deletion_resumes_witness :
  (recover_deletion demo_id false true (undisturbed cut [])).1 = Ok tt ∧ erased (site (recover_deletion demo_id false true (undisturbed cut [])).2).
Proof.
  pose proof (deletion_resumes demo_config demo_id nothing_held {| site := ended; site_faults := first_barrier_fails; site_clock := []; past := [] |}
    (deletion first_barrier_fails).1 (deletion first_barrier_fails).2 raw_going cut [] eq_refl eq_refl demo_readable_intent ended_undeleted ended_owned
    (deletion_run first_barrier_fails)) as Hres.
  assert (named (delete_intent_next_name demo_id) cut = false) as Hnext by (vm_compute; reflexivity).
  assert (named (delete_intent_name demo_id) cut = true) as Hfinal by (vm_compute; reflexivity).
  rewrite Hnext, Hfinal in Hres.
  destruct (recover_deletion demo_id false true (undisturbed cut [])) as [r st].
  destruct Hres as (Hr & _ & He); [|exact cut_crash|by split].
  apply (list_elem_of_lookup_2 _ 6%nat). vm_compute. reflexivity.
Defined.
End DeletionDemo.
